(* ===== verification/_CoqProject ===== *)
-Q . S2P
Prelude.v
ByteArray.v
Codec.v
Timer.v
LruCache.v
OrderedSet.v
TimedLruCache.v
TimedCache.v
HashCache.v
Stream.v
Zlib.v
Rock.v
WebSocket.v
Bitmap.v
BitmapScan.v
BitmapCompress.v
Scheduler.v
Text.v
Encoding.v
IOManager.v
Hook.v
FdManager.v
TcpServer.v
SortedVec.v
PrimeGenerator.v
Table.v
PodStream.v
HashMap.v
ValueTable.v
Dict.v
HashMultimap.v
LoadBalance.v
FiberSemaphore.v
Address.v
AddressMask.v
AddressText.v
AddressOrder.v
Discovery.v
SortedMap.v
LogFormat.v
Logger.v
LogDelivery.v
LogConfig.v
Http.v
Config.v
ConfigExample.v
Env.v
HttpParams.v
HttpMessage.v
Servlet.v
HttpSession.v
HttpPool.v
HttpClient.v
Sessions.v
AsyncStream.v
AsyncResume.v
AsyncQueue.v
AsyncOutcome.v
AsyncManager.v
NameService.v
NameLookup.v
NameRegistry.v
NameClient.v
