(* ===== verification/Prelude.v ===== *)
(** * Sylar, a C++ server framework: verification library

    ** The program

    Sylar runs the code of a server in fibers. A scheduler distributes
    fibers and callbacks over threads; the IO manager, a scheduler, resumes
    those that wait for a descriptor or a timer. Streams read and write
    whole messages over sockets; on them are built the rock protocol
    (requests, responses and notifications with a serialized body), its
    asynchronous stream, which lets many fibers share one connection, the
    load balancer, which chooses a connection, the name service, which says
    where connections go, and the framing of WebSocket.
    System calls are hooked so that they wait in their fiber.
    HTTP requests are parsed, dispatched to servlets and answered. ByteArray serializes, loggers
    write events as configured. Beside these stand the containers of DataStructure
    (caches, bitmap, hash tables that can be saved to a file) and string,
    hash and encoding utilities.

    ** How it is modelled

    This file holds what all the others share: a C++ function is a function
    in the monad [M S], from the state [S] to an [outcome]: a value, an
    exception, or stuck (undefined behaviour, a failed assertion, an endless
    loop). A theorem that says a function returns therefore says that it is
    free of all three. Integers are in [Z] and wrapped where the code wraps
    them ([u8] .. [i64]). Objects reached through shared pointers or
    iterators live in stores, under an address, wherever sharing shows.
    Concurrent code is a step relation: one step is what happens under one
    lock or between two points where another thread can interfere, and
    theorems are about every interleaving. Iteration over an unordered_map
    is in any order ([IterOrder]).

    Loops that end structurally are structural. The others carry fuel, and
    the fuel is computed from the state: the blocks of a buffer, the bytes of
    an input, the slots of the wheel. Theorems say that it is enough: the
    functions return, they do not only return something right if they do.

    ** The files and the sources they model (under src/Sylar)

    Bytes and messages
      - ByteArray: bytearray.{h,cc} and endian.h, the chain of blocks and its
        positions; Codec: the typed reads and writes, zigzag and varint.
      - Stream: stream.cc, streams/socket_stream.cc, the loops that move
        exactly n bytes over a socket that may move fewer.
      - Zlib: streams/zlib_stream.cc, buffers through a compressor. Rock:
        protocol.cc, rock/rock_protocol.cc. WebSocket:
        HttpServer/ws_session.cc, ws_connection.cc.
      - AsyncStream: streams/async_socket_stream.cc, rock/rock_stream.cc, the
        fibers of a shared connection. AsyncResume: requests are resumed
        exactly once and can always be; AsyncQueue: one reader, one writer,
        order of messages; AsyncOutcome: what requests return; AsyncManager:
        the pool of streams.
      - LoadBalance: streams/load_balance.{h,cc}.
      - NameService: NodeService/{ns_protocol,name_server_module,ns_client}.cc,
        the registry of nodes, the module that keeps it and the client that
        mirrors it. NameLookup: lookups in it; NameRegistry: it holds what
        the sessions registered; NameClient: queries and registrations.
      - Discovery: streams/service_discovery.{h,cc}, the copies of what
        ZooKeeper has of the services.
      - Address: address.{h,cc}. AddressMask: prefixes and masks; AddressText:
        printed addresses; AddressOrder: comparison, hosts and Unix paths.
      - Http: HttpServer/http.{h,cc}. HttpParams: maps without case, query
        parameters and cookies; HttpMessage: printed messages. Servlet:
        HttpServer/servlet.{h,cc}, the dispatch of requests. HttpSession:
        http_parser.cc, http_session.cc and http_server.cc, from the bytes of a
        request to those of its response. HttpPool: the requests and the pool
        of connections of http_connection.cc. HttpClient: the responses it
        reads. Sessions: session_data.{h,cc}.
    Concurrency
      - Scheduler: fiber.cc and scheduler.{h,cc}, all threads of run() over
        the shared queue, and the thread that made the scheduler when it
        runs run() inside stop(). IOManager: iomanager.cc on top of it.
      - Timer: timer.{h,cc}.
      - FiberSemaphore: the semaphore of fibers in mutex.{h,cc}.
      - Hook: the calls of hook.cc that wait in a fiber. FdManager:
        fd_manager.{h,cc} and the hooked calls that keep its table.
      - TcpServer: tcp_server.{h,cc}, its accept loops.
    Containers
      - LruCache, TimedLruCache, TimedCache: the caches of DataStructure,
        HashCache their hashed versions, OrderedSet the std::set they use.
      - Bitmap, BitmapScan, BitmapCompress: bitmap.{h,cc}.
      - SortedVec, PrimeGenerator, Table, ValueTable, PodStream, HashMap,
        Dict, HashMultimap: array.h, util.{h,cc}, hash_map.h, dict.h,
        hash_multimap.h and the raw stream helpers of util.cc they use.
    Text
      - Text: strings, paths and URLs of util.cc; Encoding: util/hash_util.cc.
      - LogFormat: levels and patterns of log.cc; Logger: its loggers, appenders
        and configuration; LogDelivery, LogConfig: what is written and how a
        configuration is applied.
      - Config: config.{h,cc}, typed variables, listeners and YAML files, over
        SortedMap, the std::map; ConfigExample: its arguments made concrete.
        Env: env.{h,cc}, the command line.

    A definition keeps the name of the function it models, with a prefix
    where two classes have the same (lru_get, tc_get, hm_get, ...).

    ** What the theorems show

    - Refinement: the buffer is a sequence of bytes with a position, the
      caches are recency lists and deadline maps, the tables finite maps,
      the bitmap a set of positions, the IO manager a registry of waiting
      fibers, a balancer a registry of connections, the name service the
      union of what its sessions registered, service discovery a copy of what
      ZooKeeper has. They hold for every history of the operations they
      name, and say which operation is undefined and when. Where the code
      leaves something to its callers, or works under a condition only, the
      condition is in the statement and a lemma beside it shows what happens
      without it.
    - Round trips: integers and strings, frames and messages over a socket
      that splits them anyhow, printed HTTP messages and query parameters,
      addresses, compressed bitmaps, table files, base64.
    - Safety and liveness of the concurrent parts: a fiber runs on one thread
      at a time, callbacks run once, a free thread drains the queue; which
      assertions of the scheduler can fail, and when; a request is resumed
      once and never abandoned, by answer, timeout or closing, with a result
      one of them gave; no wakeup of a hooked call is lost, and a socket
      looks to its user as it was set up; a server that is stopped comes to
      rest; a pooled connection has one user.
    - Types and configuration: a typed pointer of the configuration stays
      one; listeners are told every change; a load applies the last value.
    - Behaviour at the edges: overflow, empty and truncated inputs, clock
      jumps, counters that wrap. Where the code does something it does not
      mean to, a lemma shows it on a concrete state.

    ** What is assumed

    Code that is not in the repository is a parameter, with its documented
    behaviour as the laws of a class or hypotheses of a section: recv and
    send (Stream), fstat, fcntl, socket and close (FdManager), the automata
    of HTTP (HttpSession, HttpClient), zlib (Zlib; HttpClient takes the unpacked body), epoll (IOManager), ZooKeeper (Discovery), digests and rand()
    (Encoding, WebSocket, LoadBalance), protobuf parsing and inet_addr
    (NameService), getaddrinfo and getifaddrs (Address), strftime, the
    opening of files and the constructor of file appenders, which the sources
    only declare (LogFormat, Logger), fnmatch and the servlets of users
    (Servlet), lexical_cast (Http, Config), yaml-cpp (Config), the layout of plain structs and the
    hash functions of keys (Table, PodStream), the byte order of the host,
    clocks, the functions of users. Each numbered theorem with such a hypothesis
    has a witness with a concrete instance. Locks are taken to make the code
    they protect atomic; memory is not exhausted.

    ** What is not modelled

    The automata of HTTP and of URIs: Ragel generates them during the build. The
    database clients, ZooKeeper, OpenSSL and JSON layers: they wrap
    libraries. Sockets, threads and locks: they wrap system calls.
    The ORM generator, e-mail and start-up code: they
    print or assemble text and call the rest. Status strings and dumps of
    the modelled classes.

    ** Plan

    Next are the helpers of the database clients and the WebSocket server. *)
From Stdlib Require Import ZArith Lia Strings.Byte.
From stdpp Require Import base list list_numbers numbers gmap.

#[export] Set Default Goal Selector "!".

(** ** Outcomes of C++ code

    A member function runs on an explicit state and either returns, throws a
    C++ exception (leaving the state as it was at the throw), or gets stuck:
    undefined behaviour, a failed [SYLAR_ASSERT] or, for the loops that
    carry fuel, an exhausted bound. *)
Inductive stuck :=
  | NullDeref | OutOfBounds | DivByZero | BadShift | SignedOverflow | BadSwitch | AssertFailed | NoReturn | OutOfFuel.

Inductive exn := OutOfRange | LogicError.

#[export] Instance stuck_eq_dec : EqDecision stuck.
Proof. solve_decision. Defined.
#[export] Instance exn_eq_dec : EqDecision exn.
Proof. solve_decision. Defined.

Inductive outcome (S A : Type) :=
  | Ret (a : A) (s : S)
  | Exn (e : exn) (s : S)
  | Stuck (r : stuck).
Arguments Ret {S A} a s.
Arguments Exn {S A} e s.
Arguments Stuck {S A} r.

Definition M (S A : Type) := S → outcome S A.

Definition cret {S A} (a : A) : M S A := λ s, Ret a s.
Definition cthrow {S A} (e : exn) : M S A := λ s, Exn e s.
Definition cstuck {S A} (r : stuck) : M S A := λ _, Stuck r.
Definition cbind {S A B} (m : M S A) (k : A → M S B) : M S B :=
  λ s, match m s with
       | Ret a s' => k a s'
       | Exn e s' => Exn e s'
       | Stuck r => Stuck r
       end.
(** [try { m } catch(...) { h }] *)
Definition ccatch {S A} (m : M S A) (h : M S A) : M S A :=
  λ s, match m s with Exn _ s' => h s' | o => o end.
Definition cget {S} : M S S := λ s, Ret s s.
Definition cput {S} (s : S) : M S unit := λ _, Ret tt s.
Definition cmodify {S} (f : S → S) : M S unit := λ s, Ret tt (f s).
(** A [const] member function or a pure subcomputation: it sees the state
    and cannot change it. *)
Definition creads {S A} (f : S → A) : M S A := λ s, Ret (f s) s.
Definition cassert {S} (b : bool) : M S unit :=
  if b then cret tt else cstuck AssertFailed.
(** Dereferencing a pointer that may be null. *)
Definition cderef {S A} (o : option A) : M S A :=
  match o with Some a => cret a | None => cstuck NullDeref end.

Declare Scope cpp_scope.
Delimit Scope cpp_scope with cpp.
Notation "'let!' x := m 'in' k" := (cbind m (λ x, k))
  (at level 10, x pattern, m at level 100, k at level 200) : cpp_scope.
#[global] Open Scope cpp_scope.

(** [for] over a list of indices, and a [for] that carries a value and may
    leave early ([false]). *)
Fixpoint cfor {S A} (l : list A) (body : A → M S unit) : M S unit :=
  match l with
  | [] => cret tt
  | a :: l => let! _ := body a in cfor l body
  end.
Fixpoint cfold {S A B} (l : list A) (b : B) (body : A → B → M S (bool * B)) : M S (bool * B) :=
  match l with
  | [] => cret (true, b)
  | a :: l =>
    let! (go, b) := body a b in
    if go : bool then cfold l b body else cret (false, b)
  end.

Section outcomes.
Context {S A B C : Type}.

Lemma cbind_Ret (m : M S A) (k : A → M S B) s a s' :
  m s = Ret a s' → cbind m k s = k a s'.
Proof. intros H. unfold cbind. by rewrite H. Qed.

Lemma cbind_Exn (m : M S A) (k : A → M S B) s e s' :
  m s = Exn e s' → cbind m k s = Exn e s'.
Proof. intros H. unfold cbind. by rewrite H. Qed.

Lemma cbind_Stuck (m : M S A) (k : A → M S B) s r :
  m s = Stuck r → cbind m k s = Stuck r.
Proof. intros H. unfold cbind. by rewrite H. Qed.

Lemma cbind_inv_Ret (m : M S A) (k : A → M S B) s b s' :
  cbind m k s = Ret b s' → ∃ a s1, m s = Ret a s1 ∧ k a s1 = Ret b s'.
Proof. unfold cbind. destruct (m s) eqn:E; naive_solver. Qed.

Lemma cbind_assoc (m : M S A) (k : A → M S B) (h : B → M S C) s :
  cbind (cbind m k) h s = cbind m (λ a, cbind (k a) h) s.
Proof. unfold cbind. by destruct (m s). Qed.

Lemma ccatch_Ret (m h : M S A) s a s' :
  m s = Ret a s' → ccatch m h s = Ret a s'.
Proof. intros H. unfold ccatch. by rewrite H. Qed.

Lemma ccatch_Exn (m h : M S A) s e s' :
  m s = Exn e s' → ccatch m h s = h s'.
Proof. intros H. unfold ccatch. by rewrite H. Qed.
End outcomes.

Lemma cfor_app {S A} (l1 l2 : list A) (body : A → M S unit) s s1 :
  cfor l1 body s = Ret tt s1 → cfor (l1 ++ l2) body s = cfor l2 body s1.
Proof.
  revert s. induction l1 as [|a l1 IH]; intros s; [by intros [= <-]|].
  cbn. unfold cbind. destruct (body a s) as [[] s2| |]; try done. apply IH.
Qed.

(** ** Machine integers

    A [w]-bit unsigned value is a [Z] in [0, 2^w), a signed one a [Z] in
    [-2^(w-1), 2^(w-1)); conversions wrap. *)
Definition uwrap (w z : Z) : Z := z mod 2 ^ w.
Definition swrap (w z : Z) : Z := (z + 2 ^ (w - 1)) mod 2 ^ w - 2 ^ (w - 1).
Abbreviation u8 := (uwrap 8).
Abbreviation u16 := (uwrap 16).
Abbreviation u32 := (uwrap 32).
Abbreviation u64 := (uwrap 64).
Abbreviation i8 := (swrap 8).
Abbreviation i16 := (swrap 16).
Abbreviation i32 := (swrap 32).
Abbreviation i64 := (swrap 64).

Definition in_u (w z : Z) : Prop := (0 ≤ z < 2 ^ w)%Z.
Definition in_s (w z : Z) : Prop := (- 2 ^ (w - 1) ≤ z < 2 ^ (w - 1))%Z.

Section machine_integers.
Local Open Scope Z_scope.

Lemma uwrap_range w z : 0 ≤ w → in_u w (uwrap w z).
Proof. intros. apply Z.mod_pos_bound. by apply Z.pow_pos_nonneg. Qed.

Lemma uwrap_id w z : in_u w z → uwrap w z = z.
Proof. intros. by apply Z.mod_small. Qed.

Lemma pow_half w : 0 < w → 2 ^ w = 2 * 2 ^ (w - 1).
Proof. intros. rewrite <- Z.pow_succ_r by lia. f_equal. lia. Qed.

Lemma swrap_range w z : 0 < w → in_s w (swrap w z).
Proof.
  intros Hw. unfold in_s, swrap.
  pose proof (Z.mod_pos_bound (z + 2 ^ (w - 1)) (2 ^ w)
                ltac:(apply Z.pow_pos_nonneg; lia)).
  rewrite (pow_half w) in * by done. lia.
Qed.

Lemma swrap_id w z : 0 < w → in_s w z → swrap w z = z.
Proof.
  unfold in_s, swrap. intros Hw ?. rewrite Z.mod_small; [lia|].
  rewrite (pow_half w) by done. lia.
Qed.

Lemma swrap_uwrap w z : 0 < w → swrap w (uwrap w z) = swrap w z.
Proof.
  intros. unfold swrap, uwrap. by rewrite Zplus_mod_idemp_l.
Qed.

Lemma swrap_small w z : 0 < w → 0 ≤ z < 2 ^ (w - 1) → swrap w z = z.
Proof. intros ??. apply swrap_id; [done|]. unfold in_s. lia. Qed.

Lemma swrap_big w z :
  0 < w → 2 ^ (w - 1) ≤ z < 2 ^ w → swrap w z = z - 2 ^ w.
Proof.
  intros Hw Hz. unfold swrap.
  replace (z + 2 ^ (w - 1)) with (z - 2 ^ (w - 1) + 1 * 2 ^ w)
    by (rewrite (pow_half w) in * by done; lia).
  rewrite Z.mod_add by (apply Z.pow_nonzero; lia).
  rewrite (pow_half w) in * by done.
  rewrite Z.mod_small; lia.
Qed.

Lemma testbit_above w z n : 0 ≤ w → in_u w z → w ≤ n → Z.testbit z n = false.
Proof.
  intros Hw Hz Hn. unfold in_u in Hz.
  destruct (Z.eq_dec z 0) as [->|]; [apply Z.bits_0|].
  apply Z.bits_above_log2; [lia|]. apply Z.log2_lt_pow2; [lia|].
  apply Z.lt_le_trans with (2 ^ w); [lia|]. apply Z.pow_le_mono_r; lia.
Qed.

(** XOR with all ones is subtraction from all ones. *)
Lemma lxor_ones w z : 0 ≤ w → in_u w z → Z.lxor z (Z.ones w) = Z.ones w - z.
Proof.
  intros Hw Hz.
  pose proof (testbit_above w z) as Hbit.
  rewrite Z.sub_nocarry_ldiff.
  - apply Z.bits_inj'. intros n Hn.
    rewrite Z.lxor_spec, Z.ldiff_spec, Z.testbit_ones_nonneg by lia.
    destruct (Z.ltb_spec n w).
    + by destruct (Z.testbit z n).
    + by rewrite Hbit.
  - apply Z.bits_inj'. intros n Hn.
    rewrite Z.ldiff_spec, Z.testbit_ones_nonneg, Z.bits_0 by lia.
    destruct (Z.ltb_spec n w); [by rewrite andb_false_r|].
    by rewrite Hbit.
Qed.

(** OR of a value below [2^k] with a multiple of [2^k] is a sum. *)
Lemma lor_shiftl_add k a b :
  0 ≤ k → 0 ≤ a < 2 ^ k → Z.lor a (Z.shiftl b k) = a + b * 2 ^ k.
Proof.
  intros Hk Ha. rewrite <- Z.shiftl_mul_pow2 by done.
  rewrite <- Z.lxor_lor, <- Z.add_nocarry_lxor; [done| |]; apply Z.bits_inj';
    intros n Hn; rewrite Z.land_spec, Z.shiftl_spec, Z.bits_0 by lia;
    (destruct (Z.ltb_spec n k);
     [rewrite (Z.testbit_neg_r b (n - k)) by lia; by rewrite andb_false_r|
      rewrite (testbit_above k) by (unfold in_u; lia); done]).
Qed.
End machine_integers.

(** ** Bytes and the memory image of integers *)
Definition byte_of_Z (z : Z) : byte :=
  match Byte.of_N (Z.to_N (u8 z)) with Some b => b | None => x00 end.
Definition Z_of_byte (b : byte) : Z := Z.of_N (Byte.to_N b).

(** The [n] bytes of [z], least significant first. *)
Fixpoint le_bytes (n : nat) (z : Z) : list byte :=
  match n with
  | O => []
  | S n => byte_of_Z z :: le_bytes n (z / 256)
  end.
Fixpoint le_value (bs : list byte) : Z :=
  match bs with
  | [] => 0
  | b :: bs => Z_of_byte b + 256 * le_value bs
  end.

#[export] Instance byte_eq_dec : EqDecision byte := Byte.byte_eq_dec.

Section bytes.
Local Open Scope Z_scope.

Lemma Z_of_byte_range b : 0 ≤ Z_of_byte b < 256.
Proof. unfold Z_of_byte. pose proof (Byte.to_N_bounded b). lia. Qed.

Lemma Z_of_byte_of_Z z : Z_of_byte (byte_of_Z z) = u8 z.
Proof.
  unfold byte_of_Z, Z_of_byte.
  pose proof (uwrap_range 8 z ltac:(lia)) as Hr. unfold in_u in Hr.
  destruct (Byte.of_N (Z.to_N (u8 z))) as [b|] eqn:E.
  - apply Byte.to_of_N in E. rewrite E. lia.
  - apply Byte.of_N_None_iff in E. lia.
Qed.

Lemma Z_of_byte_inj a b : Z_of_byte a = Z_of_byte b → a = b.
Proof.
  unfold Z_of_byte. intros H. apply N2Z.inj in H.
  pose proof (Byte.of_to_N a). pose proof (Byte.of_to_N b). congruence.
Qed.

Lemma byte_of_Z_of_byte b : byte_of_Z (Z_of_byte b) = b.
Proof.
  apply Z_of_byte_inj. rewrite Z_of_byte_of_Z.
  apply uwrap_id, Z_of_byte_range.
Qed.

Lemma length_le_bytes n z : length (le_bytes n z) = n.
Proof. revert z. induction n as [|n IH]; intros z; simpl; auto. Qed.

Lemma pow256_succ n : 2 ^ (8 * Z.of_nat (S n)) = 256 * 2 ^ (8 * Z.of_nat n).
Proof.
  replace (8 * Z.of_nat (S n)) with (8 + 8 * Z.of_nat n) by lia.
  rewrite Z.pow_add_r by lia. done.
Qed.

Lemma le_value_range bs : in_u (8 * Z.of_nat (length bs)) (le_value bs).
Proof.
  unfold in_u. induction bs as [|b bs IH]; [done|].
  cbn [length le_value]. rewrite pow256_succ.
  pose proof (Z_of_byte_range b). lia.
Qed.

Lemma le_value_bytes n z : le_value (le_bytes n z) = uwrap (8 * Z.of_nat n) z.
Proof.
  revert z. induction n as [|n IH]; intros z; cbn [le_bytes le_value].
  { unfold uwrap. by rewrite Z.mod_1_r. }
  rewrite IH, Z_of_byte_of_Z. unfold uwrap. rewrite pow256_succ.
  rewrite Z.rem_mul_r by (try apply Z.pow_pos_nonneg; lia). done.
Qed.

Lemma le_bytes_value bs : le_bytes (length bs) (le_value bs) = bs.
Proof.
  induction bs as [|b bs IH]; [done|]. cbn [length le_value le_bytes].
  pose proof (Z_of_byte_range b). f_equal.
  - apply Z_of_byte_inj. rewrite Z_of_byte_of_Z. unfold uwrap.
    rewrite (Z.mul_comm 256), Z.mod_add by done. by apply Z.mod_small.
  - rewrite (Z.mul_comm 256), Z.div_add, Z.div_small by lia. done.
Qed.

Lemma le_bytes_wrap n z : le_bytes n (uwrap (8 * Z.of_nat n) z) = le_bytes n z.
Proof.
  rewrite <- le_value_bytes.
  rewrite <- (le_bytes_value (le_bytes n z)) at 2.
  by rewrite length_le_bytes.
Qed.
End bytes.

(** ** Lists *)

(** [memcpy] into the middle of a block. *)
Definition overwrite {A} (l : list A) (p : nat) (bs : list A) : list A :=
  take p l ++ bs ++ drop (p + length bs) l.

Section lists.
Context {A : Type}.
Implicit Types l bs : list A.

Lemma length_overwrite l p bs :
  p + length bs ≤ length l → length (overwrite l p bs) = length l.
Proof.
  intros. unfold overwrite. rewrite !length_app, length_take, length_drop. lia.
Qed.

Lemma overwrite_app l p a c :
  p ≤ length l →
  overwrite (overwrite l p a) (p + length a) c = overwrite l p (a ++ c).
Proof.
  intros H. unfold overwrite.
  rewrite (assoc_L (++) (take p l) a), take_app_length'
    by (rewrite length_app, length_take; lia).
  rewrite drop_app_ge by (rewrite length_app, length_take; lia).
  rewrite drop_drop, !length_app, length_take, <- !(assoc_L (++)).
  do 4 f_equal. lia.
Qed.

Lemma take_overwrite l p bs :
  p ≤ length l → take p (overwrite l p bs) = take p l.
Proof.
  intros. unfold overwrite. apply take_app_length'. rewrite length_take. lia.
Qed.

Lemma slice_overwrite l p bs :
  p ≤ length l → take (length bs) (drop p (overwrite l p bs)) = bs.
Proof.
  intros. unfold overwrite.
  rewrite drop_app_length' by (rewrite length_take; lia).
  by apply take_app_length'.
Qed.

Lemma drop_overwrite l p bs :
  p + length bs ≤ length l →
  drop (p + length bs) (overwrite l p bs) = drop (p + length bs) l.
Proof.
  intros. unfold overwrite. rewrite (assoc_L (++)).
  apply drop_app_length'. rewrite length_app, length_take. lia.
Qed.

(** Overwriting the first [s] elements, which grow if needed. *)
Lemma take_overwrite_grow l s p bs :
  p ≤ s → s ≤ length l → p + length bs ≤ length l →
  take (s `max` (p + length bs)) (overwrite l p bs) = overwrite (take s l) p bs.
Proof.
  intros Hps Hs Hl. unfold overwrite.
  rewrite take_take, Nat.min_l by done.
  rewrite (assoc_L (++)), take_app_ge by (rewrite length_app, length_take; lia).
  rewrite <- (assoc_L (++)), skipn_firstn_comm, length_app, length_take.
  do 3 f_equal. lia.
Qed.

(** A chain of blocks of one size. *)
Definition uniform (n : nat) (ls : list (list A)) : Prop :=
  Forall (λ l, length l = n) ls.

Lemma length_concat_uniform n (ls : list (list A)) :
  uniform n ls → length (concat ls) = n * length ls.
Proof.
  induction 1 as [|l ls Hl _ IH]; simpl; [lia|].
  rewrite length_app, IH. lia.
Qed.

Lemma uniform_lookup n (ls : list (list A)) i l :
  uniform n ls → ls !! i = Some l → length l = n.
Proof. intros H ?. by eapply Forall_lookup_1 in H. Qed.

Lemma concat_split n (ls : list (list A)) i l :
  uniform n ls → ls !! i = Some l →
  ∃ l1 l2, concat ls = l1 ++ l ++ l2 ∧ length l1 = i * n ∧
    (∀ l', concat (<[i := l']> ls) = l1 ++ l' ++ l2).
Proof.
  intros Hu Hi. exists (concat (take i ls)), (concat (drop (S i) ls)).
  pose proof (lookup_lt_Some _ _ _ Hi). split_and!.
  - rewrite <- (take_drop_middle ls i l Hi) at 1. by rewrite concat_app.
  - rewrite (length_concat_uniform n) by (by apply Forall_take).
    rewrite length_take. lia.
  - intros l'. rewrite insert_take_drop by done. by rewrite concat_app.
Qed.

(** A block-local slice is a slice of the flat buffer. *)
Lemma slice_concat n (ls : list (list A)) i l p k :
  uniform n ls → ls !! i = Some l → p + k ≤ n →
  take k (drop (i * n + p) (concat ls)) = take k (drop p l).
Proof.
  intros Hu Hi Hk. pose proof (uniform_lookup _ _ _ _ Hu Hi) as Hl.
  destruct (concat_split n ls i l Hu Hi) as (l1 & l2 & -> & Hl1 & _).
  rewrite drop_app_ge by lia. rewrite Hl1.
  replace (i * n + p - i * n) with p by lia.
  rewrite drop_app_le, take_app_le by (rewrite ?length_drop; lia). done.
Qed.

(** Overwriting inside one block overwrites the flat buffer. *)
Lemma overwrite_concat n (ls : list (list A)) i l p bs :
  uniform n ls → ls !! i = Some l → p + length bs ≤ n →
  concat (<[i := overwrite l p bs]> ls) = overwrite (concat ls) (i * n + p) bs.
Proof.
  intros Hu Hi Hk. pose proof (uniform_lookup _ _ _ _ Hu Hi) as Hl.
  destruct (concat_split n ls i l Hu Hi) as (l1 & l2 & -> & Hl1 & ->).
  unfold overwrite. rewrite take_app_ge by lia. rewrite Hl1.
  replace (i * n + p - i * n) with p by lia.
  rewrite take_app_le by lia. rewrite (drop_app_ge l1) by lia. rewrite Hl1.
  replace (i * n + p + length bs - i * n) with (p + length bs) by lia.
  rewrite drop_app_le by lia. by rewrite <- !(assoc_L (++)).
Qed.

Lemma slice_app l p a c :
  take (a + c) (drop p l) = take a (drop p l) ++ take c (drop (p + a) l).
Proof. rewrite <- (take_drop a (take (a + c) (drop p l))) at 1.
  rewrite take_take, skipn_firstn_comm, drop_drop. f_equal; f_equal; lia.
Qed.
End lists.

#[export] Instance concat_perm {A} : Proper ((≡ₚ) ==> (≡ₚ)) (@concat A).
Proof.
  intros l l'. induction 1 as [|x l l' _ IH|x y l|l l1 l2 _ IH1 _ IH2]; simpl; [done|..].
  - by rewrite IH.
  - by rewrite !(assoc_L (++)), (comm (++) y x).
  - by rewrite IH1.
Qed.

(** ** Maps as lists of entries

    A map whose iteration order is that of insertion, or does not matter. *)
Section assoc.
Context {K V : Type} `{!EqDecision K}.
Implicit Types (k : K) (c : V) (l : list (K * V)).
Fixpoint al_set (k : K) (c : V) (l : list (K * V)) : list (K * V) :=
  match l with [] => [(k, c)] | (k', c') :: l => if bool_decide (k' = k) then (k, c) :: l else (k', c') :: al_set k c l end.
Fixpoint al_erase (k : K) (l : list (K * V)) : list (K * V) :=
  match l with [] => [] | (k', c') :: l => if bool_decide (k' = k) then l else (k', c') :: al_erase k l end.
Definition al_find (k : K) (l : list (K * V)) : option V := snd <$> (snd <$> list_find (λ p, p.1 = k) l).
#[global] Arguments al_find : simpl never.
Lemma al_find_cons k p l : al_find k (p :: l) = if decide (p.1 = k) then Some p.2 else al_find k l.
Proof. unfold al_find. cbn. destruct (decide (p.1 = k)); [done|]. destruct (list_find _ l) as [[? []]|]; done. Qed.
Lemma al_find_set k c l k' : al_find k' (al_set k c l) = if decide (k = k') then Some c else al_find k' l.
Proof.
  induction l as [|[k1 c1] l IH]; cbn [al_set]; [by rewrite al_find_cons|]. case_bool_decide as E; rewrite !al_find_cons; cbn [fst snd]; [subst; by destruct (decide (k = k'))|]. rewrite IH.
  by destruct (decide (k1 = k')), (decide (k = k')); subst.
Qed.
Lemma al_find_In k l : is_Some (al_find k l) ↔ k ∈ l.*1.
Proof.
  induction l as [|[k1 c1] l IH]; [cbn; split; [intros [? [=]]|by intros ?%elem_of_nil]|]. rewrite al_find_cons, fmap_cons, elem_of_cons, <- IH. cbn. destruct (decide (k1 = k)); naive_solver.
Qed.
Lemma al_find_elem l k c : NoDup l.*1 → al_find k l = Some c ↔ (k, c) ∈ l.
Proof.
  induction l as [|[k1 c1] l IH]; [intros _; split; [done|by intros ?%elem_of_nil]|]. rewrite fmap_cons, al_find_cons, elem_of_cons. intros [Hn Hd]%list.NoDup_cons. cbn in *. rewrite <- IH by done.
  destruct (decide (k1 = k)) as [->|]; [|naive_solver]. split; [naive_solver|]. intros [[= ->]|Hf]; [done|]. exfalso. apply Hn, al_find_In. by rewrite Hf.
Qed.
Lemma al_set_snoc k c l : k ∉ l.*1 → al_set k c l = l ++ [(k, c)].
Proof. induction l as [|[k1 c1] l IH]; [done|]. rewrite fmap_cons, not_elem_of_cons. cbn. intros [Hne Hn]. rewrite bool_decide_eq_false_2 by congruence. by rewrite IH. Qed.
Lemma al_erase_keys k l : NoDup l.*1 → NoDup (al_erase k l).*1 ∧ ∀ k', al_find k' (al_erase k l) = if decide (k = k') then None else al_find k' l.
Proof.
  induction l as [|[k1 c1] l IH]; cbn [al_erase]; [intros _; split; [apply NoDup_nil_2|]; intros k'; by destruct (decide (k = k'))|]. rewrite fmap_cons. intros [Hn Hd]%list.NoDup_cons. cbn in Hn.
  destruct (IH Hd) as [IH1 IH2]. case_bool_decide as E.
  - subst. split; [done|]. intros k'. rewrite al_find_cons. cbn. destruct (decide (k = k')) as [<-|]; [|done]. destruct (al_find k l) eqn:Ef; [|done]. exfalso. apply Hn, al_find_In. by rewrite Ef.
  - split.
    + rewrite fmap_cons. apply list.NoDup_cons. split; [|done]. cbn. rewrite <- al_find_In, IH2. intros Hs. apply Hn, al_find_In. by destruct (decide (k = k1)); [destruct Hs|].
    + intros k'. rewrite !al_find_cons, IH2. cbn. by destruct (decide (k1 = k')), (decide (k = k')); subst.
Qed.
Lemma al_set_keys k c l : NoDup l.*1 → NoDup (al_set k c l).*1.
Proof.
  induction l as [|[k1 c1] l IH]; cbn [al_set]; [intros _; apply NoDup_singleton|]. rewrite fmap_cons. intros [Hn Hd]%list.NoDup_cons. cbn in Hn. case_bool_decide as E; rewrite fmap_cons; apply list.NoDup_cons; cbn; [by subst|].
  split; [|by apply IH]. rewrite <- al_find_In, al_find_set. rewrite decide_False by congruence. by rewrite al_find_In.
Qed.
Lemma al_find_snoc k c l k' : k ∉ l.*1 → al_find k' (l ++ [(k, c)]) = if decide (k = k') then Some c else al_find k' l.
Proof.
  induction l as [|[k1 c1] l IH]; intros Hn; cbn [app]; [by rewrite al_find_cons|]. rewrite fmap_cons in Hn. apply not_elem_of_cons in Hn as [H1 H2]. rewrite !al_find_cons, IH by done. cbn in *.
  by destruct (decide (k1 = k')), (decide (k = k')); subst.
Qed.
Lemma al_erase_in k l q : q ∈ al_erase k l → q ∈ l.
Proof. induction l as [|[k1 c1] l IH]; cbn [al_erase]; [done|]. case_bool_decide; [by right|]. rewrite !elem_of_cons. naive_solver. Qed.
End assoc.
