(* ===== verification/ByteArray.v ===== *)
(** * The chained byte buffer (Sylar/bytearray.h, Sylar/bytearray.cc) *)
From Stdlib Require Import ZArith Lia Strings.Byte.
From stdpp Require Import base list list_numbers numbers.
From S2P Require Import Prelude.

(** ** Byte order (Sylar/endian.h) *)
Inductive endian := LittleEndian | BigEndian.

#[export] Instance endian_eq_dec : EqDecision endian.
Proof. solve_decision. Defined.

(** [bswap_16/32/64]: the value whose bytes are those of [value] reversed. *)
Definition byteswap (n : nat) (value : Z) : Z :=
  le_value (rev (le_bytes n value)).

(** The bytes at [&value] on a host of byte order [host], and the value
    found there. *)
Definition mem_image (host : endian) (n : nat) (value : Z) : list byte :=
  match host with
  | LittleEndian => le_bytes n value
  | BigEndian => rev (le_bytes n value)
  end.
Definition mem_value (host : endian) (bs : list byte) : Z :=
  match host with
  | LittleEndian => le_value bs
  | BigEndian => le_value (rev bs)
  end.

Lemma length_mem_image (e : endian) n v : length (mem_image e n v) = n.
Proof. destruct e; simpl; rewrite ?length_rev; apply length_le_bytes. Qed.

Lemma mem_value_image (e : endian) n v : mem_value e (mem_image e n v) = uwrap (8 * Z.of_nat n) v.
Proof. destruct e; simpl; rewrite ?rev_involutive; apply le_value_bytes. Qed.

Definition byteswapOnLittleEndian (host : endian) (n : nat) (t : Z) : Z :=
  match host with LittleEndian => byteswap n t | BigEndian => t end.
Definition byteswapOnBigEndian (host : endian) (n : nat) (t : Z) : Z :=
  match host with LittleEndian => t | BigEndian => byteswap n t end.

(** ** State

    The chain of nodes hanging from [m_root] is the list of their memory
    blocks; a [Node*] into it is a position in that list, [None] the null
    pointer. Sizes are [nat]: every [size_t] of the class counts bytes that
    are allocated. The one subtraction that can wrap is written out in
    [readAt]. *)
Record ByteArray := mkByteArray {
  m_baseSize : nat;
  m_position : nat;
  m_capacity : nat;
  m_size : nat;
  m_endian : endian;
  m_nodes : list (list byte);
  m_cur : option nat
}.

Definition set_position p (b : ByteArray) : ByteArray :=
  mkByteArray (m_baseSize b) p (m_capacity b) (m_size b) (m_endian b) (m_nodes b) (m_cur b).
Definition set_capacity c (b : ByteArray) : ByteArray :=
  mkByteArray (m_baseSize b) (m_position b) c (m_size b) (m_endian b) (m_nodes b) (m_cur b).
Definition set_size n (b : ByteArray) : ByteArray :=
  mkByteArray (m_baseSize b) (m_position b) (m_capacity b) n (m_endian b) (m_nodes b) (m_cur b).
Definition set_endian e (b : ByteArray) : ByteArray :=
  mkByteArray (m_baseSize b) (m_position b) (m_capacity b) (m_size b) e (m_nodes b) (m_cur b).
Definition set_nodes ns (b : ByteArray) : ByteArray :=
  mkByteArray (m_baseSize b) (m_position b) (m_capacity b) (m_size b) (m_endian b) ns (m_cur b).
Definition set_cur c (b : ByteArray) : ByteArray :=
  mkByteArray (m_baseSize b) (m_position b) (m_capacity b) (m_size b) (m_endian b) (m_nodes b) c.

(** [node->next] *)
Definition node_next (b : ByteArray) (i : nat) : option nat :=
  if S i <? length (m_nodes b) then Some (S i) else None.

(** The block a [Node*] points to. *)
Definition node_at (b : ByteArray) (c : option nat) : option (list byte) :=
  c ≫= λ i, m_nodes b !! i.

(** [memcpy(node->ptr + npos, src, n)] stays inside the block. *)
Definition blit (nd : list byte) (npos : nat) (src : list byte) : option (list byte) :=
  if npos + length src <=? length nd
  then Some (take npos nd ++ src ++ drop (npos + length src) nd) else None.
(** [memcpy(dst, node->ptr + npos, n)] *)
Definition slice (nd : list byte) (npos n : nat) : option (list byte) :=
  if npos + n <=? length nd then Some (take n (drop npos nd)) else None.

Definition cinbounds {S A} (o : option A) : M S A :=
  match o with Some a => cret a | None => cstuck OutOfBounds end.

(** [x % m_baseSize] and [x / m_baseSize], which trap on a zero base size. *)
Definition modBase (x : nat) : M ByteArray nat :=
  λ b, if m_baseSize b =? 0 then Stuck DivByZero else Ret (x mod m_baseSize b) b.

Section with_environment.
(** Byte order of the machine. *)
Context (host : endian).
(** What [new char[s]] leaves in byte [j] of the [i]-th node: arbitrary. *)
Context (junk : nat → nat → byte).

Definition new_node (i s : nat) : list byte := junk i <$> seq 0 s.

(** ByteArray::ByteArray *)
Definition ByteArray_new (base_size : nat) : ByteArray :=
  mkByteArray base_size 0 base_size 0 BigEndian [new_node 0 base_size] (Some 0).

Definition isLittleEndian (b : ByteArray) : bool :=
  bool_decide (m_endian b = LittleEndian).
Definition setIsLittleEndian (val : bool) (b : ByteArray) : ByteArray :=
  set_endian (if val then LittleEndian else BigEndian) b.

Definition getReadSize (b : ByteArray) : nat := m_size b - m_position b.
Definition getCapacity (b : ByteArray) : nat := m_capacity b - m_position b.

(** ByteArray::clear *)
Definition clear : M ByteArray unit := λ b,
  Ret tt (mkByteArray (m_baseSize b) 0 (m_baseSize b) 0 (m_endian b)
            (take 1 (m_nodes b)) (Some 0)).

(** The allocation loop of addCapacity: [count] nodes appended. *)
Definition grow (count : nat) (b : ByteArray) : ByteArray :=
  mkByteArray (m_baseSize b) (m_position b)
    (m_capacity b + count * m_baseSize b) (m_size b) (m_endian b)
    (m_nodes b ++ ((λ i, new_node i (m_baseSize b)) <$> seq (length (m_nodes b)) count))
    (m_cur b).

Definition ceil_div (a d : nat) : nat := (a + d - 1) / d.

(** ByteArray::addCapacity. [ceil(1.0 * size / m_baseSize)] is exact for
    sizes below 2^53. *)
Definition addCapacity (size : nat) : M ByteArray unit := λ b,
  if size =? 0 then Ret tt b else
  let old_cap := getCapacity b in
  if size <=? old_cap then Ret tt b else
  if m_baseSize b =? 0 then Stuck DivByZero else
  let size := size - old_cap in
  let count := ceil_div size (m_baseSize b) in
  let first := length (m_nodes b) in
  let b' := grow count b in
  Ret tt (if old_cap =? 0
          then set_cur (if 0 <? count then Some first else None) b' else b').

(** The copy loop of ByteArray::write; every iteration but the last moves
    to the next node, so [length buf] iterations suffice. *)
Fixpoint write_loop (fuel : nat) (buf : list byte) (npos ncap : nat) : M ByteArray unit :=
  if length buf =? 0 then cret tt else
    match fuel with
    | O => cstuck OutOfFuel
    | S fuel => λ b,
      match m_cur b, node_at b (m_cur b) with
      | Some i, Some nd =>
        let size := length buf in
        if size <=? ncap then
          match blit nd npos buf with
          | None => Stuck OutOfBounds
          | Some nd' =>
            let b := set_nodes (<[i := nd']> (m_nodes b)) b in
            let b := if length nd =? npos + size then set_cur (node_next b i) b else b in
            Ret tt (set_position (m_position b + size) b)
          end
        else
          match blit nd npos (take ncap buf) with
          | None => Stuck OutOfBounds
          | Some nd' =>
            let b := set_nodes (<[i := nd']> (m_nodes b)) b in
            let b := set_position (m_position b + ncap) b in
            let b := set_cur (node_next b i) b in
            match node_at b (m_cur b) with
            | None => Stuck NullDeref
            | Some nd2 => write_loop fuel (drop ncap buf) 0 (length nd2) b
            end
          end
      | _, _ => Stuck NullDeref
      end
    end.

(** ByteArray::write *)
Definition write (buf : list byte) : M ByteArray unit :=
  if length buf =? 0 then cret tt else
  let! _ := addCapacity (length buf) in
  let! b := cget in
  let! npos := modBase (m_position b) in
  let! nd := cderef (node_at b (m_cur b)) in
  let ncap := length nd - npos in
  let! _ := write_loop (length buf) buf npos ncap in
  cmodify (λ b, if m_size b <? m_position b then set_size (m_position b) b else b).

(** The copy loop of ByteArray::read. *)
Fixpoint read_loop (fuel size npos ncap : nat) (acc : list byte) : M ByteArray (list byte) :=
  if size =? 0 then cret acc else
  match fuel with
  | O => cstuck OutOfFuel
  | S fuel => λ b,
    match m_cur b, node_at b (m_cur b) with
    | Some i, Some nd =>
      if size <=? ncap then
        match slice nd npos size with
        | None => Stuck OutOfBounds
        | Some bs =>
          let b := if length nd =? npos + size then set_cur (node_next b i) b else b in
          Ret (acc ++ bs) (set_position (m_position b + size) b)
        end
      else
        match slice nd npos ncap with
        | None => Stuck OutOfBounds
        | Some bs =>
          let b := set_position (m_position b + ncap) b in
          let b := set_cur (node_next b i) b in
          match node_at b (m_cur b) with
          | None => Stuck NullDeref
          | Some nd2 => read_loop fuel (size - ncap) 0 (length nd2) (acc ++ bs) b
          end
        end
    | _, _ => Stuck NullDeref
    end
  end.

(** ByteArray::read(buf, size) *)
Definition read (size : nat) : M ByteArray (list byte) :=
  let! b := cget in
  if getReadSize b <? size then cthrow OutOfRange else
  let! npos := modBase (m_position b) in
  let! nd := cderef (node_at b (m_cur b)) in
  read_loop size size npos (length nd - npos) [].

(** ByteArray::read(buf, size, position) const: the copy starts in the
    node of the current position, whatever [position] is, and leaves the
    object unchanged. *)
Definition readAt (size position : nat) : M ByteArray (list byte) :=
  let! b := cget in
  if (u64 (Z.of_nat (m_size b) - Z.of_nat position) <? Z.of_nat size)%Z
  then cthrow OutOfRange else
  let! npos := modBase position in
  let! nd := cderef (node_at b (m_cur b)) in
  let! bs := read_loop size size npos (length nd - npos) [] in
  let! _ := cput b in
  cret bs.

(** The node walk of ByteArray::setPosition. *)
Fixpoint seek_loop (fuel v : nat) : M ByteArray unit := λ b,
  match m_cur b, node_at b (m_cur b) with
  | Some i, Some nd =>
    if length nd <? v then
      match fuel with
      | O => Stuck OutOfFuel
      | S fuel => seek_loop fuel (v - length nd) (set_cur (node_next b i) b)
      end
    else if v =? length nd then Ret tt (set_cur (node_next b i) b)
    else Ret tt b
  | _, _ => Stuck NullDeref
  end.

(** ByteArray::setPosition *)
Definition setPosition (v : nat) : M ByteArray unit :=
  let! b := cget in
  if m_capacity b <? v then cthrow OutOfRange else
  let! _ := cmodify (λ b,
    let b := set_position v b in
    let b := if m_size b <? v then set_size v b else b in
    set_cur (Some 0) b) in
  seek_loop (length (m_nodes b)) v.

(** An [iovec]: a block, an offset in it and a length. *)
Record iovec := mkIovec { iov_node : nat; iov_off : nat; iov_len : nat }.

(** The loop shared by the three functions that fill a vector of [iovec]s
    from node [cur] on. *)
Fixpoint iov_loop (b : ByteArray) (fuel len npos ncap : nat) (cur : option nat)
    (buffers : list iovec) : outcome ByteArray (list iovec) :=
  if len =? 0 then Ret buffers b else
  match fuel with
  | O => Stuck OutOfFuel
  | S fuel =>
    match cur with
    | None => Stuck NullDeref
    | Some i =>
      if len <=? ncap then Ret (buffers ++ [mkIovec i npos len]) b
      else
        match node_at b (node_next b i) with
        | None => Stuck NullDeref
        | Some nd2 =>
          iov_loop b fuel (len - ncap) 0 (length nd2) (node_next b i)
            (buffers ++ [mkIovec i npos ncap])
        end
    end
  end.

(** ByteArray::getReadBuffers(buffers, len) const; the returned length is
    the total of the [iovec]s appended to [buffers]. *)
Definition getReadBuffers (buffers : list iovec) (len : nat) : M ByteArray (nat * list iovec) :=
  let! b := cget in
  let len := if getReadSize b <? len then getReadSize b else len in
  if len =? 0 then cret (0, buffers) else
  let! npos := modBase (m_position b) in
  let! nd := cderef (node_at b (m_cur b)) in
  let! bufs := (λ b, iov_loop b len len npos (length nd - npos) (m_cur b) buffers) in
  cret (len, bufs).

(** The walk from [m_root] over [count] nodes. *)
Fixpoint nth_node (b : ByteArray) (count : nat) (cur : option nat) : outcome ByteArray (option nat) :=
  match count with
  | O => Ret cur b
  | S count =>
    match cur with
    | None => Stuck NullDeref
    | Some i => nth_node b count (node_next b i)
    end
  end.

(** ByteArray::getReadBuffers(buffers, len, position) const *)
Definition getReadBuffersAt (buffers : list iovec) (len position : nat) : M ByteArray (nat * list iovec) :=
  let! b := cget in
  let len := if getReadSize b <? len then getReadSize b else len in
  if len =? 0 then cret (0, buffers) else
  let! npos := modBase position in
  let count := position / m_baseSize b in
  let! cur := (λ b, nth_node b count (Some 0)) in
  let! nd := cderef (node_at b cur) in
  let! bufs := (λ b, iov_loop b len len npos (length nd - npos) cur buffers) in
  cret (len, bufs).

(** ByteArray::getWriteBuffers *)
Definition getWriteBuffers (buffers : list iovec) (len : nat) : M ByteArray (nat * list iovec) :=
  if len =? 0 then cret (0, buffers) else
  let! _ := addCapacity len in
  let! b := cget in
  let! npos := modBase (m_position b) in
  let! nd := cderef (node_at b (m_cur b)) in
  let! bufs := (λ b, iov_loop b len len npos (length nd - npos) (m_cur b) buffers) in
  cret (len, bufs).

(** The loop of ByteArray::writeToFile: what reaches the file. [len] is
    signed; a negative length handed to [ofs.write] is undefined. *)
Fixpoint writeToFile_loop (b : ByteArray) (fuel : nat) (read_size : Z) (pos : nat)
    (cur : option nat) (ofs : list byte) : outcome ByteArray (list byte) :=
  if (read_size <=? 0)%Z then Ret ofs b else
  match fuel with
  | O => Stuck OutOfFuel
  | S fuel =>
    let diff := pos mod m_baseSize b in
    let len := ((if Z.of_nat (m_baseSize b) <? read_size then Z.of_nat (m_baseSize b)
                 else read_size) - Z.of_nat diff)%Z in
    match cur, node_at b cur with
    | Some i, Some nd =>
      if (len <? 0)%Z then Stuck OutOfBounds else
      match slice nd diff (Z.to_nat len) with
      | None => Stuck OutOfBounds
      | Some bs =>
        writeToFile_loop b fuel (read_size - len) (pos + Z.to_nat len) (node_next b i) (ofs ++ bs)
      end
    | _, _ => Stuck NullDeref
    end
  end.

(** ByteArray::writeToFile once the file is open. *)
Definition writeToFile : M ByteArray (list byte) := λ b,
  if m_baseSize b =? 0 then Stuck DivByZero else
  writeToFile_loop b (getReadSize b) (Z.of_nat (getReadSize b)) (m_position b) (m_cur b) [].

(** ByteArray::readFromFile on an opened file whose [ifs.read] calls
    returned the chunks [chunks]. *)
Fixpoint readFromFile (chunks : list (list byte)) : M ByteArray unit :=
  match chunks with
  | [] => cret tt
  | c :: chunks => let! _ := write c in readFromFile chunks
  end.

(** ByteArray::toString *)
Definition toString : M ByteArray (list byte) :=
  let! b := cget in
  if getReadSize b =? 0 then cret [] else readAt (getReadSize b) (m_position b).
End with_environment.

(** ** Invariant and abstract view *)

(** Where [m_cur] points when the position is [pos]: to the block that holds
    it, or nowhere when every block is full. *)
Definition cur_at (base count pos : nat) : option nat :=
  if pos <? base * count then Some (pos / base) else None.

Record wf (b : ByteArray) : Prop := {
  wf_base : 0 < m_baseSize b;
  wf_nodes : uniform (m_baseSize b) (m_nodes b);
  wf_count : 0 < length (m_nodes b);
  wf_capacity : m_capacity b = m_baseSize b * length (m_nodes b);
  wf_position : m_position b ≤ m_size b;
  wf_size : m_size b ≤ m_capacity b;
  wf_cur : m_cur b = cur_at (m_baseSize b) (length (m_nodes b)) (m_position b)
}.

(** All the memory of the chain, in order. *)
Definition flat (b : ByteArray) : list byte := concat (m_nodes b).
(** The data: the first [m_size] bytes. *)
Definition content (b : ByteArray) : list byte := take (m_size b) (flat b).

(** The contract of the class: a growable sequence of bytes with a cursor. *)
Module Spec.
Record buffer := mkBuffer { data : list byte; cursor : nat }.

Definition put (bs : list byte) (f : buffer) : buffer :=
  mkBuffer (overwrite (data f) (cursor f) bs) (cursor f + length bs).
Definition get (n : nat) (f : buffer) : option (list byte * buffer) :=
  if length (data f) - cursor f <? n then None
  else Some (take n (drop (cursor f) (data f)),
             mkBuffer (data f) (cursor f + n)).
Definition seek (p : nat) (f : buffer) : buffer := mkBuffer (data f) p.

Lemma write_app a c f :
  cursor f ≤ length (data f) → put c (put a f) = put (a ++ c) f.
Proof.
  intros H. unfold put; simpl. f_equal; [|rewrite length_app; lia].
  by apply overwrite_app.
Qed.
End Spec.

Definition abs (b : ByteArray) : Spec.buffer := Spec.mkBuffer (content b) (m_position b).

Section chain.
Implicit Types b : ByteArray.

Lemma length_flat b : wf b → length (flat b) = m_capacity b.
Proof.
  intros H. unfold flat.
  rewrite (length_concat_uniform _ _ (wf_nodes _ H)). by rewrite (wf_capacity _ H).
Qed.

Lemma length_content b : wf b → length (content b) = m_size b.
Proof.
  intros H. unfold content. rewrite length_take, length_flat by done.
  pose proof (wf_size _ H). lia.
Qed.

Lemma cur_at_div base count i npos :
  npos < base → i < count → cur_at base count (i * base + npos) = Some i.
Proof.
  intros Hn Hi. unfold cur_at. destruct (Nat.ltb_spec (i * base + npos) (base * count)).
  - f_equal. symmetry. apply (Nat.div_unique _ _ _ npos); lia.
  - nia.
Qed.

(** Advancing to the end of block [i] lands on [next]. *)
Lemma cur_at_next b i base :
  0 < base → i < length (m_nodes b) →
  node_next b i = cur_at base (length (m_nodes b)) (S i * base).
Proof.
  intros Hb Hi. unfold node_next, cur_at.
  destruct (Nat.ltb_spec (S i) (length (m_nodes b)));
    destruct (Nat.ltb_spec (S i * base) (base * length (m_nodes b))); try nia; [|done].
  f_equal. symmetry. apply Nat.div_mul. lia.
Qed.

(** The block under the cursor and the offset in it. *)
Lemma wf_cursor b :
  wf b → m_position b < m_capacity b →
  ∃ i nd npos, m_cur b = Some i ∧ m_nodes b !! i = Some nd ∧
    npos = m_position b mod m_baseSize b ∧ npos < m_baseSize b ∧
    m_position b = i * m_baseSize b + npos ∧ length nd = m_baseSize b.
Proof.
  intros H Hp. pose proof (wf_base _ H) as Hb. rewrite (wf_capacity _ H) in Hp.
  set (i := m_position b / m_baseSize b).
  assert (Hi : i < length (m_nodes b)) by (apply Nat.Div0.div_lt_upper_bound; lia).
  destruct (lookup_lt_is_Some_2 _ _ Hi) as [nd Hnd].
  exists i, nd, (m_position b mod m_baseSize b). split_and!; auto.
  - rewrite (wf_cur _ H). unfold cur_at. by rewrite (proj2 (Nat.ltb_lt _ _) Hp).
  - by apply Nat.mod_upper_bound; lia.
  - unfold i. pose proof (Nat.div_mod_eq (m_position b) (m_baseSize b)). lia.
  - by eapply uniform_lookup; [apply wf_nodes|].
Qed.

Lemma blit_overwrite nd npos src :
  npos + length src ≤ length nd → blit nd npos src = Some (overwrite nd npos src).
Proof. intros. unfold blit. by rewrite (proj2 (Nat.leb_le _ _)). Qed.

Lemma slice_in nd npos n :
  npos + n ≤ length nd → slice nd npos n = Some (take n (drop npos nd)).
Proof. intros. unfold slice. by rewrite (proj2 (Nat.leb_le _ _)). Qed.

Lemma uniform_insert base (ns : list (list byte)) i nd :
  uniform base ns → length nd = base → uniform base (<[i := nd]> ns).
Proof. intros. by apply Forall_insert. Qed.
End chain.

(** What a completed copy loop did: the cursor moved, the chain is otherwise
    as before. [ns] is the new chain. *)
Definition advanced (n : nat) (ns : list (list byte)) (b b' : ByteArray) : Prop :=
  b' = mkByteArray (m_baseSize b) (m_position b + n) (m_capacity b) (m_size b)
         (m_endian b) ns (cur_at (m_baseSize b) (length ns) (m_position b + n)).

Section loops.
Implicit Types b : ByteArray.

(** The last iteration of the copy: the data fits in the current block. *)
Lemma write_loop_fit fuel buf npos b i nd :
  0 < m_baseSize b → uniform (m_baseSize b) (m_nodes b) →
  m_cur b = Some i → m_nodes b !! i = Some nd →
  m_position b = i * m_baseSize b + npos → npos < m_baseSize b →
  0 < length buf ≤ m_baseSize b - npos →
  ∃ b', write_loop (S fuel) buf npos (m_baseSize b - npos) b = Ret tt b' ∧
    advanced (length buf) (<[i := overwrite nd npos buf]> (m_nodes b)) b b'.
Proof.
  intros Hb Hu Hc Hi Hp Hn Hlen.
  pose proof (uniform_lookup _ _ _ _ Hu Hi) as Hnd.
  pose proof (lookup_lt_Some _ _ _ Hi) as Hilt.
  cbn [write_loop]. rewrite (proj2 (Nat.eqb_neq _ _)) by lia.
  rewrite Hc. cbn [node_at mbind option_bind]. rewrite Hi.
  rewrite (proj2 (Nat.leb_le _ _)), blit_overwrite by lia.
  eexists. split; [reflexivity|]. unfold advanced. rewrite length_insert, Hnd.
  destruct (Nat.eqb_spec (m_baseSize b) (npos + length buf)) as [E|E].
  - unfold set_position, set_cur, set_nodes; simpl. f_equal.
    rewrite (cur_at_next _ i (m_baseSize b)) by (simpl; rewrite ?length_insert; done).
    simpl. rewrite length_insert. f_equal. lia.
  - unfold set_position, set_nodes; simpl. f_equal. rewrite Hc. symmetry.
    replace (m_position b + length buf) with (i * m_baseSize b + (npos + length buf)) by lia.
    apply cur_at_div; lia.
Qed.

(** The copy loop returns with the buffer in place. *)
Lemma write_loop_spec fuel buf npos b i nd :
  0 < m_baseSize b → uniform (m_baseSize b) (m_nodes b) →
  m_cur b = Some i → m_nodes b !! i = Some nd →
  m_position b = i * m_baseSize b + npos → npos < m_baseSize b →
  0 < length buf ≤ fuel →
  m_position b + length buf ≤ m_baseSize b * length (m_nodes b) →
  ∃ ns b', write_loop fuel buf npos (m_baseSize b - npos) b = Ret tt b' ∧
    advanced (length buf) ns b b' ∧ uniform (m_baseSize b) ns ∧
    length ns = length (m_nodes b) ∧
    concat ns = overwrite (flat b) (m_position b) buf.
Proof.
  revert buf npos b i nd.
  induction fuel as [|fuel IH]; intros buf npos b i nd Hb Hu Hc Hi Hp Hn Hlen Hcap; [lia|].
  pose proof (uniform_lookup _ _ _ _ Hu Hi) as Hnd.
  destruct (Nat.leb_spec (length buf) (m_baseSize b - npos)) as [Hfit|Hbig].
  { destruct (write_loop_fit fuel buf npos b i nd) as (b' & Hrun & Hadv); [done..|lia|].
    exists (<[i := overwrite nd npos buf]> (m_nodes b)), b'. split_and!; [done|done|..].
    - apply uniform_insert; [done|]. rewrite length_overwrite; lia.
    - apply length_insert.
    - unfold flat. rewrite Hp. apply overwrite_concat; [done|done|lia]. }
  cbn [write_loop]. rewrite (proj2 (Nat.eqb_neq _ _)) by lia.
  rewrite Hc. cbn [node_at mbind option_bind].
  rewrite Hi, (proj2 (Nat.leb_gt _ _)), blit_overwrite by (rewrite ?length_take; lia).
  set (a := take (m_baseSize b - npos) buf).
  assert (Ha : length a = m_baseSize b - npos) by (unfold a; rewrite length_take; lia).
  set (b1 := set_cur _ _).
  assert (HSi : S i < length (m_nodes b)) by nia.
  assert (Hcur1 : m_cur b1 = Some (S i)).
  { subst b1. simpl. unfold node_next. simpl. rewrite length_insert.
    by rewrite (proj2 (Nat.ltb_lt _ _)). }
  assert (Hns1 : m_nodes b1 = <[i := overwrite nd npos a]> (m_nodes b)) by done.
  assert (Hu1 : uniform (m_baseSize b) (m_nodes b1)).
  { rewrite Hns1. apply uniform_insert; [done|]. rewrite length_overwrite; lia. }
  destruct (lookup_lt_is_Some_2 (m_nodes b1) (S i)) as [nd2 Hnd2].
  { rewrite Hns1, length_insert. done. }
  rewrite Hcur1. cbn [node_at mbind option_bind]. rewrite Hnd2.
  rewrite (uniform_lookup _ _ _ _ Hu1 Hnd2).
  destruct (IH (drop (m_baseSize b - npos) buf) 0 b1 (S i) nd2) as (ns & b' & Hrun & Hadv & Hu' & Hlen' & Hflat);
    try (simpl; rewrite ?Hns1, ?length_insert, ?length_drop; first [done|lia]).
  change (m_baseSize b1) with (m_baseSize b) in *.
  rewrite Nat.sub_0_r in Hrun.
  exists ns, b'. split_and!; [done| |done| |].
  - unfold advanced in *. rewrite Hadv. simpl. rewrite length_drop.
    replace (m_position b + (m_baseSize b - npos) + (length buf - (m_baseSize b - npos)))
      with (m_position b + length buf) by lia. done.
  - rewrite Hlen', Hns1. apply length_insert.
  - rewrite Hflat. unfold flat. rewrite Hns1. simpl.
    rewrite (overwrite_concat (m_baseSize b)) by (done || lia).
    rewrite <- Hp, <- Ha, overwrite_app.
    + f_equal. unfold a. rewrite length_take, Nat.min_l by lia. apply take_drop.
    + rewrite (length_concat_uniform _ _ Hu). lia.
Qed.

(** The read loop returns the slice under the cursor. *)
Lemma read_loop_spec fuel size npos acc b i nd :
  0 < m_baseSize b → uniform (m_baseSize b) (m_nodes b) →
  m_cur b = Some i → m_nodes b !! i = Some nd →
  m_position b = i * m_baseSize b + npos → npos < m_baseSize b →
  0 < size ≤ fuel →
  m_position b + size ≤ m_baseSize b * length (m_nodes b) →
  ∃ b', read_loop fuel size npos (m_baseSize b - npos) acc b =
      Ret (acc ++ take size (drop (m_position b) (flat b))) b' ∧
    advanced size (m_nodes b) b b'.
Proof.
  revert size npos acc b i nd.
  induction fuel as [|fuel IH]; intros size npos acc b i nd Hb Hu Hc Hi Hp Hn Hlen Hcap; [lia|].
  pose proof (uniform_lookup _ _ _ _ Hu Hi) as Hnd.
  pose proof (lookup_lt_Some _ _ _ Hi) as Hilt.
  cbn [read_loop]. rewrite (proj2 (Nat.eqb_neq _ _)) by lia.
  rewrite Hc. cbn [node_at mbind option_bind]. rewrite Hi.
  destruct (Nat.leb_spec size (m_baseSize b - npos)) as [Hfit|Hbig].
  - rewrite slice_in by lia. unfold flat.
    rewrite Hp, (slice_concat (m_baseSize b) _ i nd) by (done || lia).
    eexists. split; [reflexivity|]. unfold advanced. rewrite Hnd.
    destruct (Nat.eqb_spec (m_baseSize b) (npos + size)) as [E|E].
    + unfold set_position, set_cur; simpl. f_equal.
      rewrite (cur_at_next _ i (m_baseSize b)) by done. f_equal. lia.
    + unfold set_position; simpl. f_equal. rewrite Hc. symmetry.
      replace (m_position b + size) with (i * m_baseSize b + (npos + size)) by lia.
      apply cur_at_div; lia.
  - rewrite slice_in by lia.
    set (b1 := set_cur _ _).
    assert (HSi : S i < length (m_nodes b)) by nia.
    assert (Hcur1 : m_cur b1 = Some (S i)).
    { subst b1. simpl. unfold node_next. simpl. by rewrite (proj2 (Nat.ltb_lt _ _)). }
    destruct (lookup_lt_is_Some_2 (m_nodes b1) (S i)) as [nd2 Hnd2]; [done|].
    rewrite Hcur1. cbn [node_at mbind option_bind]. rewrite Hnd2.
    rewrite (uniform_lookup (m_baseSize b) _ _ _ Hu Hnd2).
    destruct (IH (size - (m_baseSize b - npos)) 0
                (acc ++ take (m_baseSize b - npos) (drop npos nd)) b1 (S i) nd2)
      as (b' & Hrun & Hadv); try (simpl; first [done|lia]).
    change (m_baseSize b1) with (m_baseSize b) in *.
    rewrite Nat.sub_0_r in Hrun. exists b'. split.
    + rewrite Hrun, <- (assoc_L (++)). do 2 f_equal.
      change (flat b1) with (flat b). simpl. unfold flat.
      rewrite <- (slice_concat (m_baseSize b) (m_nodes b) i nd) by (done || lia).
      rewrite <- Hp, <- slice_app. f_equal. lia.
    + unfold advanced in *. rewrite Hadv. simpl.
      replace (m_position b + (m_baseSize b - npos) + (size - (m_baseSize b - npos)))
        with (m_position b + size) by lia. done.
Qed.
End loops.

(** ** The operations refine the contract *)
Section refinement.
Context (junk : nat → nat → byte).
Implicit Types b : ByteArray.

Lemma ByteArray_new_wf base :
  0 < base → wf (ByteArray_new junk base) ∧ abs (ByteArray_new junk base) = Spec.mkBuffer [] 0.
Proof.
  intros Hb. split; [|done]. constructor; simpl; try lia.
  - apply Forall_singleton. unfold new_node. by rewrite length_fmap, length_seq.
  - unfold cur_at. rewrite (proj2 (Nat.ltb_lt _ _)) by lia. by rewrite Nat.Div0.div_0_l.
Qed.

Lemma ceil_div_spec a d : 0 < d → 0 < a →
  a ≤ ceil_div a d * d ∧ 0 < ceil_div a d.
Proof.
  intros Hd Ha. unfold ceil_div.
  pose proof (Nat.div_mod_eq (a + d - 1) d).
  pose proof (Nat.mod_upper_bound (a + d - 1) d ltac:(lia)).
  nia.
Qed.

Lemma uniform_grow b count :
  uniform (m_baseSize b) (m_nodes b) →
  uniform (m_baseSize b) (m_nodes (grow junk count b)).
Proof.
  intros. apply Forall_app_2; [done|]. apply Forall_fmap, Forall_forall.
  intros i _. simpl. unfold new_node. by rewrite length_fmap, length_seq.
Qed.

(** addCapacity makes room without touching the data. *)
Lemma addCapacity_spec n b :
  wf b →
  ∃ b', addCapacity junk n b = Ret tt b' ∧ wf b' ∧ n ≤ getCapacity b' ∧
    m_position b' = m_position b ∧ m_size b' = m_size b ∧
    m_endian b' = m_endian b ∧ m_baseSize b' = m_baseSize b ∧
    flat b `prefix_of` flat b'.
Proof.
  intros H. unfold addCapacity.
  destruct (Nat.eqb_spec n 0) as [->|Hn]; [exists b; split_and!; auto with lia|].
  destruct (Nat.leb_spec n (getCapacity b)) as [Hle|Hgt]; [exists b; split_and!; auto|].
  rewrite (proj2 (Nat.eqb_neq _ _)) by (pose proof (wf_base _ H); lia).
  set (count := ceil_div _ _).
  destruct (ceil_div_spec (n - getCapacity b) (m_baseSize b)) as [Hc Hc0];
    [apply wf_base, H|lia|]. fold count in Hc, Hc0.
  destruct H as [Hb Hu Hct Hcap Hpos Hsz Hcur].
  assert (Hlen : length (m_nodes (grow junk count b)) = length (m_nodes b) + count).
  { simpl. by rewrite length_app, length_fmap, length_seq. }
  assert (Hflat : flat b `prefix_of` flat (grow junk count b)).
  { unfold flat. simpl. rewrite concat_app. by apply prefix_app_r. }
  unfold getCapacity in *. eexists. split; [reflexivity|].
  rewrite (proj2 (Nat.ltb_lt _ _) Hc0).
  destruct (Nat.eqb_spec (m_capacity b - m_position b) 0) as [E|E];
    (split_and!; [|simpl; nia|done..]);
    (constructor; unfold set_cur; simpl;
     [done|by apply (uniform_grow b count)|change (0 < length (m_nodes (grow junk count b))); lia|
      change (m_capacity b + count * m_baseSize b = m_baseSize b * length (m_nodes (grow junk count b))); nia|
      done|lia|]);
    change (m_nodes b ++ _) with (m_nodes (grow junk count b)); rewrite Hlen.
  - replace (m_position b) with (length (m_nodes b) * m_baseSize b + 0) by lia.
    by rewrite cur_at_div by lia.
  - rewrite Hcur. unfold cur_at.
    rewrite !(proj2 (Nat.ltb_lt _ _)) by nia. done.
Qed.

(** The bytes of a well-formed buffer at the cursor. *)
Lemma modBase_ret b x : wf b → modBase x b = Ret (x mod m_baseSize b) b.
Proof.
  intros H. unfold modBase. rewrite (proj2 (Nat.eqb_neq _ _)); [done|].
  pose proof (wf_base _ H). lia.
Qed.

(** ByteArray::write never gets stuck and refines [Spec.put]. *)
Lemma write_spec bs b :
  wf b →
  ∃ b', write junk bs b = Ret tt b' ∧ wf b' ∧
    abs b' = Spec.put bs (abs b) ∧
    m_endian b' = m_endian b ∧ m_baseSize b' = m_baseSize b.
Proof.
  intros H. unfold write. destruct (Nat.eqb_spec (length bs) 0) as [E|E].
  { apply nil_length_inv in E as ->. exists b. split_and!; auto.
    unfold abs, Spec.put, overwrite. simpl. by rewrite !Nat.add_0_r, take_drop. }
  destruct (addCapacity_spec (length bs) b H) as (b1 & Hrun & H1 & Hcap & Hp & Hs & He & Hb & Hf).
  rewrite (cbind_Ret _ _ _ _ _ Hrun).
  unfold cbind, cget. rewrite modBase_ret by done. unfold getCapacity in Hcap.
  pose proof (wf_capacity _ H1) as Hc1. pose proof (wf_size _ H1). pose proof (wf_position _ H1).
  destruct (wf_cursor b1 H1 ltac:(lia)) as (i & nd & npos & Hcur & Hnd & <- & Hnpos & Hpos & Hlen).
  rewrite Hcur. cbn [node_at mbind option_bind]. rewrite Hnd. cbn [cderef cret]. rewrite Hlen.
  destruct (write_loop_spec (length bs) bs npos b1 i nd) as (ns & b2 & -> & Hadv & Hu & Hn & Hflat);
    [apply H1|apply H1|done..|lia|lia|].
  rewrite Hadv. unfold cmodify. eexists. split; [reflexivity|].
  simpl. set (b' := (if _ <? _ then _ else _)).
  assert (Hb' : b' = mkByteArray (m_baseSize b1) (m_position b1 + length bs) (m_capacity b1)
                      (m_size b1 `max` (m_position b1 + length bs)) (m_endian b1) ns
                      (cur_at (m_baseSize b1) (length ns) (m_position b1 + length bs))).
  { unfold b'. destruct (Nat.ltb_spec (m_size b1) (m_position b1 + length bs));
      unfold set_size; simpl; f_equal; lia. }
  rewrite Hb'. split_and!; simpl; [|..|done|done].
  - destruct H1. constructor; simpl; rewrite ?Hn; auto; lia.
  - unfold abs, Spec.put, content; simpl. f_equal; [|lia].
    unfold flat at 1; simpl. rewrite Hflat, <- Hp.
    pose proof (length_flat _ H1). rewrite take_overwrite_grow by lia. f_equal.
    destruct Hf as [k Hk]. rewrite Hk, Hs. symmetry.
    rewrite take_app_le; [done|]. rewrite length_flat by done. apply (wf_size _ H).
Qed.

(** ByteArray::read: throws exactly when fewer bytes are left, otherwise
    returns the next bytes — except that a read of zero bytes behind the
    last full block dereferences the null [m_cur]. *)
Lemma read_spec n b :
  wf b →
  match Spec.get n (abs b) with
  | None => read n b = Exn OutOfRange b
  | Some (bs, f) =>
      if decide (m_position b = m_capacity b) then read n b = Stuck NullDeref
      else ∃ b', read n b = Ret bs b' ∧ wf b' ∧ abs b' = f ∧
             m_endian b' = m_endian b ∧ m_baseSize b' = m_baseSize b
  end.
Proof.
  intros H. unfold Spec.get, read, abs, cbind, cget. simpl.
  rewrite length_content by done. unfold getReadSize.
  destruct (Nat.ltb_spec (m_size b - m_position b) n) as [Hlt|Hle]; [done|].
  rewrite modBase_ret by done.
  pose proof (wf_capacity _ H) as Hc. pose proof (wf_size _ H). pose proof (wf_position _ H).
  case_decide as Hpc.
  { rewrite (wf_cur _ H). unfold cur_at. rewrite (proj2 (Nat.ltb_ge _ _)) by lia. done. }
  destruct (wf_cursor b H ltac:(lia)) as (i & nd & npos & Hcur & Hnd & <- & Hnpos & Hpos & Hlen).
  rewrite Hcur. cbn [node_at mbind option_bind]. rewrite Hnd. cbn [cderef cret]. rewrite Hlen.
  destruct (Nat.eq_dec n 0) as [->|Hn0].
  { exists b. simpl. split_and!; auto. }
  destruct (read_loop_spec n n npos [] b i nd) as (b' & -> & Hadv);
    [apply H|apply H|done..|lia|lia|].
  exists b'. unfold advanced in Hadv. rewrite Hadv. split_and!; simpl; [|..|done|done].
  - simpl. f_equal. unfold content. rewrite skipn_firstn_comm, take_take. f_equal. lia.
  - destruct H. constructor; simpl; auto; lia.
  - unfold content, flat. done.
Qed.
End refinement.

Section cursor_moves.
Context (junk : nat → nat → byte).
Implicit Types b : ByteArray.

Lemma seek_loop_spec fuel v b i nd :
  0 < m_baseSize b → uniform (m_baseSize b) (m_nodes b) →
  m_cur b = Some i → m_nodes b !! i = Some nd →
  i * m_baseSize b + v ≤ m_baseSize b * length (m_nodes b) →
  length (m_nodes b) ≤ i + fuel →
  seek_loop fuel v b =
    Ret tt (set_cur (cur_at (m_baseSize b) (length (m_nodes b)) (i * m_baseSize b + v)) b).
Proof.
  revert v b i nd. induction fuel as [|fuel IH]; intros v b i nd Hb Hu Hc Hi Hv Hf;
    pose proof (uniform_lookup _ _ _ _ Hu Hi) as Hnd;
    pose proof (lookup_lt_Some _ _ _ Hi) as Hilt; [lia|].
  cbn [seek_loop]. rewrite Hc. cbn [node_at mbind option_bind]. rewrite Hi, Hnd.
  destruct (Nat.ltb_spec (m_baseSize b) v) as [Hlt|Hge].
  - assert (HSi : S i < length (m_nodes b)) by nia.
    assert (Hnx : node_next b i = Some (S i)) by (unfold node_next; by rewrite (proj2 (Nat.ltb_lt _ _))).
    destruct (lookup_lt_is_Some_2 (m_nodes b) (S i)) as [nd2 Hnd2]; [done|].
    rewrite (IH (v - m_baseSize b) (set_cur (node_next b i) b) (S i) nd2);
      try (simpl; first [done|lia]).
    unfold set_cur; simpl. do 3 f_equal. lia.
  - destruct (Nat.eqb_spec v (m_baseSize b)) as [->|Hne].
    + rewrite (cur_at_next _ i (m_baseSize b)) by done. do 3 f_equal. lia.
    + rewrite cur_at_div by lia. rewrite <- Hc. by destruct b.
Qed.

Lemma setPosition_run v b :
  wf b → v ≤ m_capacity b →
  setPosition v b = Ret tt
    (mkByteArray (m_baseSize b) v (m_capacity b) (m_size b `max` v) (m_endian b) (m_nodes b)
       (cur_at (m_baseSize b) (length (m_nodes b)) v)).
Proof.
  intros H Hv. unfold setPosition, cbind, cget, cmodify.
  rewrite (proj2 (Nat.ltb_ge _ _)) by done.
  set (b1 := set_cur _ _).
  assert (Hb1 : b1 = mkByteArray (m_baseSize b) v (m_capacity b) (m_size b `max` v)
                       (m_endian b) (m_nodes b) (Some 0)).
  { subst b1. simpl. destruct (Nat.ltb_spec (m_size b) v);
      unfold set_cur, set_size, set_position; simpl; f_equal; lia. }
  rewrite Hb1. pose proof (wf_count _ H) as Hct.
  destruct (lookup_lt_is_Some_2 _ _ Hct) as [nd Hnd].
  rewrite (seek_loop_spec _ _ _ 0 nd); simpl;
    [done|apply H|apply H|done|done| |done].
  rewrite <- (wf_capacity _ H). done.
Qed.

(** setPosition: out of range throws and changes nothing; inside the data
    it only moves the cursor; between the data and the capacity it extends
    the data. *)
Lemma setPosition_spec v b :
  wf b →
  if decide (m_capacity b < v) then setPosition v b = Exn OutOfRange b
  else ∃ b', setPosition v b = Ret tt b' ∧ wf b' ∧ m_position b' = v ∧
         m_size b' = m_size b `max` v ∧ flat b' = flat b ∧
         m_endian b' = m_endian b ∧ m_baseSize b' = m_baseSize b ∧
         m_capacity b' = m_capacity b.
Proof.
  intros H. case_decide as Hv.
  { unfold setPosition, cbind, cget. by rewrite (proj2 (Nat.ltb_lt _ _)). }
  rewrite (setPosition_run v b H) by lia. eexists. split_and!; [done|..]; try done.
  destruct H. constructor; simpl; auto; lia.
Qed.

Lemma setPosition_seek v b :
  wf b → v ≤ m_size b →
  ∃ b', setPosition v b = Ret tt b' ∧ wf b' ∧ abs b' = Spec.seek v (abs b) ∧
    m_endian b' = m_endian b ∧ m_baseSize b' = m_baseSize b ∧ m_capacity b' = m_capacity b.
Proof.
  intros H Hv. pose proof (setPosition_spec v b H) as Hs.
  pose proof (wf_size _ H). rewrite decide_False in Hs by lia.
  destruct Hs as (b' & ? & ? & Hp & Hsz & Hf & ? & ? & ?).
  exists b'. split_and!; auto. unfold abs, Spec.seek, content. simpl.
  rewrite Hf, Hp, Hsz, Nat.max_l by done. done.
Qed.

(** clear empties the buffer and keeps its first block only. *)
Lemma clear_spec b :
  wf b → ∃ b', clear b = Ret tt b' ∧ wf b' ∧ abs b' = Spec.mkBuffer [] 0 ∧
    m_capacity b' = m_baseSize b ∧ m_endian b' = m_endian b.
Proof.
  intros H. eexists. split; [reflexivity|]. split_and!; try done.
  destruct H as [Hb Hu Hct _ _ _ _].
  assert (Hl : length (take 1 (m_nodes b)) = 1) by (rewrite length_take; lia).
  constructor; simpl; rewrite ?Hl; auto; try lia.
  - by apply Forall_take.
  - unfold cur_at. rewrite (proj2 (Nat.ltb_lt _ _)) by lia. by rewrite Nat.Div0.div_0_l.
Qed.

(** toString is the unread data and changes nothing. *)
Lemma toString_spec b :
  wf b → (Z.of_nat (m_size b) < 2 ^ 64)%Z →
  toString b = Ret (drop (m_position b) (content b)) b.
Proof.
  intros H H64. unfold toString, readAt, cbind, cget, getReadSize.
  pose proof (wf_position _ H). pose proof (wf_size _ H). pose proof (wf_capacity _ H).
  destruct (Nat.eqb_spec (m_size b - m_position b) 0) as [E|E].
  { unfold cret. f_equal. rewrite drop_ge; [done|]. rewrite length_content by done. lia. }
  rewrite uwrap_id by (unfold in_u; lia).
  rewrite (proj2 (Z.ltb_ge _ _)) by lia.
  rewrite modBase_ret by done.
  destruct (wf_cursor b H ltac:(lia)) as (i & nd & npos & Hcur & Hnd & <- & Hnpos & Hpos & Hlen).
  rewrite Hcur. cbn [node_at mbind option_bind]. rewrite Hnd. cbn [cderef cret]. rewrite Hlen.
  destruct (read_loop_spec (m_size b - m_position b) (m_size b - m_position b) npos [] b i nd)
    as (b' & -> & _); [apply H|apply H|done..|lia|lia|].
  unfold cput, cret. f_equal. unfold content. by rewrite skipn_firstn_comm.
Qed.
End cursor_moves.

(** ** Scatter/gather views and files *)
Definition iov_bytes (b : ByteArray) (v : iovec) : list byte :=
  take (iov_len v) (drop (iov_off v) (default [] (m_nodes b !! iov_node v))).
(** The memory a vector of [iovec]s denotes, in order. *)
Definition iov_data (b : ByteArray) (iovs : list iovec) : list byte :=
  concat (iov_bytes b <$> iovs).
(** An [iovec] that stays inside its block. *)
Definition iov_ok (b : ByteArray) (v : iovec) : Prop :=
  ∃ nd, m_nodes b !! iov_node v = Some nd ∧ iov_off v + iov_len v ≤ length nd.

Section scatter_gather.
Context (junk : nat → nat → byte).
Implicit Types b : ByteArray.

Lemma iov_one b i nd npos len :
  uniform (m_baseSize b) (m_nodes b) → m_nodes b !! i = Some nd →
  npos + len ≤ m_baseSize b →
  iov_bytes b (mkIovec i npos len) = take len (drop (i * m_baseSize b + npos) (flat b)) ∧
  iov_ok b (mkIovec i npos len).
Proof.
  intros Hu Hi Hl. unfold iov_bytes, iov_ok; simpl. rewrite Hi; simpl. split.
  - symmetry. by apply slice_concat.
  - exists nd. split; [done|]. by rewrite (uniform_lookup _ _ _ _ Hu Hi).
Qed.

Lemma iov_loop_spec b fuel len npos i nd buffers :
  0 < m_baseSize b → uniform (m_baseSize b) (m_nodes b) →
  m_nodes b !! i = Some nd → npos < m_baseSize b → 0 < len ≤ fuel →
  i * m_baseSize b + npos + len ≤ m_baseSize b * length (m_nodes b) →
  ∃ iovs, iov_loop b fuel len npos (m_baseSize b - npos) (Some i) buffers =
      Ret (buffers ++ iovs) b ∧
    iov_data b iovs = take len (drop (i * m_baseSize b + npos) (flat b)) ∧
    Forall (iov_ok b) iovs.
Proof.
  revert len npos i nd buffers.
  induction fuel as [|fuel IH]; intros len npos i nd buffers Hb Hu Hi Hn Hlen Hcap; [lia|].
  cbn [iov_loop]. rewrite (proj2 (Nat.eqb_neq _ _)) by lia.
  destruct (Nat.leb_spec len (m_baseSize b - npos)) as [Hfit|Hbig].
  - destruct (iov_one b i nd npos len) as [Hd Hok]; [done|done|lia|].
    eexists [_]. split_and!; [done| |by apply Forall_singleton].
    unfold iov_data; simpl. by rewrite app_nil_r.
  - assert (HSi : S i < length (m_nodes b)) by nia.
    destruct (lookup_lt_is_Some_2 (m_nodes b) (S i) HSi) as [nd2 Hnd2].
    unfold node_next. rewrite (proj2 (Nat.ltb_lt _ _)) by done.
    cbn [node_at mbind option_bind]. rewrite Hnd2, (uniform_lookup _ _ _ _ Hu Hnd2).
    destruct (IH (len - (m_baseSize b - npos)) 0 (S i) nd2
                (buffers ++ [mkIovec i npos (m_baseSize b - npos)]))
      as (iovs & Hrun & Hd & Hok); [done|done|done|done|lia|lia|].
    rewrite Nat.sub_0_r in Hrun. rewrite Hrun.
    destruct (iov_one b i nd npos (m_baseSize b - npos)) as [Hd1 Hok1]; [done|done|lia|].
    eexists (_ :: iovs). rewrite <- (assoc_L (++)). split_and!; [done| |by constructor].
    unfold iov_data in *. rewrite fmap_cons. cbn [concat]. rewrite Hd1, Hd.
    replace (S i * m_baseSize b + 0) with (i * m_baseSize b + npos + (m_baseSize b - npos)) by lia.
    rewrite <- slice_app. f_equal. lia.
Qed.

(** getReadBuffers describes exactly the next [len] unread bytes. *)
Lemma getReadBuffers_spec b buffers len :
  wf b →
  ∃ iovs, getReadBuffers buffers len b = Ret (len `min` getReadSize b, buffers ++ iovs) b ∧
    iov_data b iovs = take len (drop (m_position b) (content b)) ∧
    Forall (iov_ok b) iovs.
Proof.
  intros H. unfold getReadBuffers, cbind, cget.
  pose proof (wf_position _ H). pose proof (wf_size _ H). pose proof (wf_capacity _ H).
  set (n := if _ <? _ then _ else _).
  assert (Hn : n = len `min` getReadSize b)
    by (subst n; destruct (Nat.ltb_spec (getReadSize b) len); lia).
  assert (Hc : take n (drop (m_position b) (flat b)) = take len (drop (m_position b) (content b))).
  { unfold content. rewrite skipn_firstn_comm, take_take, Hn. done. }
  rewrite <- Hn. unfold getReadSize in Hn. destruct (Nat.eqb_spec n 0) as [E|E].
  { exists []. rewrite app_nil_r, E. split_and!; [done| |constructor].
    unfold iov_data. rewrite E in Hc. by rewrite <- Hc. }
  rewrite modBase_ret by done.
  destruct (wf_cursor b H ltac:(lia)) as (i & nd & npos & Hcur & Hnd & <- & Hnpos & Hpos & Hlen).
  rewrite Hcur. cbn [node_at mbind option_bind]. rewrite Hnd. cbn [cderef cret].
  rewrite Hlen, Hcur.
  destruct (iov_loop_spec b n n npos i nd buffers) as (iovs & -> & Hd & Hok);
    [apply H|apply H|done|done|lia|lia|].
  exists iovs. split_and!; [done| |done]. by rewrite Hd, <- Hpos.
Qed.

(** getWriteBuffers grows the chain and describes the [len] bytes from the
    cursor on, without moving the cursor or changing the data. *)
Lemma getWriteBuffers_spec b buffers len :
  wf b →
  ∃ b' iovs, getWriteBuffers junk buffers len b = Ret (len, buffers ++ iovs) b' ∧
    wf b' ∧ abs b' = abs b ∧ len ≤ getCapacity b' ∧
    iov_data b' iovs = take len (drop (m_position b') (flat b')) ∧
    Forall (iov_ok b') iovs.
Proof.
  intros H. unfold getWriteBuffers. destruct (Nat.eqb_spec len 0) as [->|E].
  { exists b, []. rewrite app_nil_r. split_and!; auto with lia. }
  destruct (addCapacity_spec junk len b H) as (b1 & Hrun & H1 & Hcap & Hp & Hs & He & Hb & [k Hk]).
  rewrite (cbind_Ret _ _ _ _ _ Hrun). unfold cbind, cget. rewrite modBase_ret by done.
  unfold getCapacity in *. pose proof (wf_capacity _ H1).
  destruct (wf_cursor b1 H1 ltac:(lia)) as (i & nd & npos & Hcur & Hnd & <- & Hnpos & Hpos & Hlen).
  rewrite Hcur. cbn [node_at mbind option_bind]. rewrite Hnd. cbn [cderef cret].
  rewrite Hlen, Hcur.
  destruct (iov_loop_spec b1 len len npos i nd buffers) as (iovs & -> & Hd & Hok);
    [apply H1|apply H1|done|done|lia|lia|].
  exists b1, iovs. split_and!; [done|done| |done| |done].
  - unfold abs, content. rewrite Hp, Hs, Hk, take_app_le; [done|].
    rewrite length_flat by done. apply (wf_size _ H).
  - by rewrite Hd, <- Hpos.
Qed.

(** One step of the file loop from inside a block. *)
Lemma writeToFile_loop_aligned b fuel pos ofs :
  wf b → pos ≤ m_size b → m_size b - pos ≤ fuel → pos mod m_baseSize b = 0 →
  writeToFile_loop b fuel (Z.of_nat (m_size b - pos)) pos
    (cur_at (m_baseSize b) (length (m_nodes b)) pos) ofs =
  Ret (ofs ++ drop pos (content b)) b.
Proof.
  intros H. pose proof (wf_base _ H) as Hb. pose proof (wf_size _ H) as Hs.
  pose proof (wf_capacity _ H) as Hc. pose proof (wf_nodes _ H) as Hu.
  revert pos ofs. induction fuel as [|fuel IH]; intros pos ofs Hp Hf Hal.
  { simpl. rewrite (proj2 (Z.leb_le _ _)) by lia.
    rewrite drop_ge, app_nil_r; [done|]. rewrite length_content by done. lia. }
  cbn [writeToFile_loop]. destruct (Z.leb_spec (Z.of_nat (m_size b - pos)) 0) as [Hz|Hz].
  { rewrite drop_ge, app_nil_r; [done|]. rewrite length_content by done. lia. }
  apply Nat.Div0.mod_divides in Hal as Hdiv. destruct Hdiv as [i Hi].
  assert (Hi' : pos = i * m_baseSize b + 0) by lia.
  assert (Hilt : i < length (m_nodes b)) by nia.
  destruct (lookup_lt_is_Some_2 _ _ Hilt) as [nd Hnd].
  rewrite Hal. replace (cur_at _ _ pos) with (Some i) by (rewrite Hi'; symmetry; apply cur_at_div; lia).
  cbn [node_at mbind option_bind]. rewrite Hnd.
  set (len := (_ - Z.of_nat 0)%Z).
  assert (Hlen : len = Z.of_nat (m_baseSize b `min` (m_size b - pos)))
    by (subst len; destruct (Z.ltb_spec (Z.of_nat (m_baseSize b)) (Z.of_nat (m_size b - pos))); lia).
  rewrite Hlen, (proj2 (Z.ltb_ge _ _)), Nat2Z.id by lia.
  rewrite slice_in by (rewrite (uniform_lookup _ _ _ _ Hu Hnd); lia).
  rewrite (cur_at_next b i (m_baseSize b)) by done.
  set (k := m_baseSize b `min` (m_size b - pos)).
  assert (Hchunk : take k (drop 0 nd) = take k (drop pos (content b))).
  { rewrite <- (slice_concat (m_baseSize b) (m_nodes b) i nd 0 k) by (done || lia).
    rewrite <- Hi'. unfold content. rewrite skipn_firstn_comm, take_take. f_equal. lia. }
  rewrite Hchunk.
  replace (drop pos (content b)) with (take k (drop pos (content b)) ++ drop (pos + k) (content b)) at 2
    by (rewrite <- drop_drop; apply take_drop).
  rewrite (assoc_L (++)).
  destruct (Nat.le_gt_cases (m_size b - pos) (m_baseSize b)) as [Hlast|Hmore].
  - replace (Z.of_nat (m_size b - pos) - Z.of_nat k)%Z with 0%Z by lia.
    rewrite (drop_ge (content b) (pos + k)), app_nil_r by (rewrite length_content by done; lia).
    by destruct fuel.
  - replace (S i * m_baseSize b) with (pos + k) by lia.
    replace (Z.of_nat (m_size b - pos) - Z.of_nat k)%Z with (Z.of_nat (m_size b - (pos + k))) by lia.
    apply IH; [lia|lia|]. replace (pos + k) with (S i * m_baseSize b) by lia.
    apply Nat.Div0.mod_mul.
Qed.
End scatter_gather.

Section files.
Context (junk : nat → nat → byte).
Implicit Types b : ByteArray.

(** writeToFile saves the unread data when the cursor is at a block
    boundary or at least a whole block is unread. *)
Lemma writeToFile_spec b :
  wf b → m_position b mod m_baseSize b = 0 ∨ m_baseSize b ≤ getReadSize b →
  writeToFile b = Ret (drop (m_position b) (content b)) b.
Proof.
  intros H Hor. unfold writeToFile, getReadSize in *.
  pose proof (wf_base _ H) as Hb. pose proof (wf_position _ H). pose proof (wf_size _ H).
  pose proof (wf_capacity _ H) as Hc.
  rewrite (proj2 (Nat.eqb_neq _ _)) by lia.
  destruct (Nat.eq_dec (m_position b mod m_baseSize b) 0) as [Hal|Hal].
  { rewrite (wf_cur _ H), writeToFile_loop_aligned by (done || lia). done. }
  destruct Hor as [|Hbig]; [done|].
  destruct (wf_cursor b H ltac:(lia)) as (i & nd & npos & Hcur & Hnd & Hnp & Hnpos & Hpos & Hlen).
  rewrite Hcur. destruct (m_size b - m_position b) as [|fuel] eqn:Ef; [lia|].
  cbn [writeToFile_loop]. rewrite (proj2 (Z.leb_gt _ _)) by lia.
  rewrite <- Hnp. cbn [node_at mbind option_bind]. rewrite Hnd.
  set (len := (_ - Z.of_nat npos)%Z).
  assert (Hln : len = Z.of_nat (m_baseSize b - npos))
    by (subst len; destruct (Z.ltb_spec (Z.of_nat (m_baseSize b)) (Z.of_nat (S fuel))); lia).
  rewrite Hln, (proj2 (Z.ltb_ge _ _)), Nat2Z.id, slice_in by lia.
  set (k := m_baseSize b - npos).
  rewrite (cur_at_next b i (m_baseSize b)) by (done || by eapply lookup_lt_Some).
  replace (S i * m_baseSize b) with (m_position b + k) by lia.
  replace (Z.of_nat (S fuel) - Z.of_nat k)%Z
    with (Z.of_nat (m_size b - (m_position b + k))) by lia.
  rewrite writeToFile_loop_aligned by
    (done || lia || (replace (m_position b + k) with (S i * m_baseSize b) by lia; apply Nat.Div0.mod_mul)).
  f_equal. rewrite <- drop_drop, app_nil_l. symmetry.
  rewrite <- (take_drop k (drop (m_position b) (content b))) at 1. f_equal.
  rewrite <- (slice_concat (m_baseSize b) (m_nodes b) i nd npos k) by (done || apply H || lia).
  rewrite <- Hpos. unfold content. rewrite skipn_firstn_comm, take_take. f_equal. lia.
Qed.

Lemma writeToFile_loop_lost b fuel r pos cur ofs out b' :
  (0 < r ≤ Z.of_nat (pos mod m_baseSize b))%Z → pos mod m_baseSize b < m_baseSize b →
  writeToFile_loop b fuel r pos cur ofs ≠ Ret out b'.
Proof.
  intros Hr Hm. revert cur ofs. induction fuel as [|fuel IH]; intros cur ofs;
    cbn [writeToFile_loop]; rewrite (proj2 (Z.leb_gt _ _)) by lia; [done|].
  rewrite (proj2 (Z.ltb_ge _ r)) by lia.
  destruct cur as [i|]; [|done]. destruct (node_at b (Some i)) as [nd|]; [|done].
  destruct (Z.ltb_spec (r - Z.of_nat (pos mod m_baseSize b)) 0); [done|].
  destruct (slice _ _ _); [|done].
  replace (r - Z.of_nat (pos mod m_baseSize b))%Z with 0%Z by lia.
  rewrite Z.sub_0_r, Nat.add_0_r. apply IH.
Qed.

(** Inside a block with less than one block left to save, writeToFile does
    not return for any bound on its loop. *)
Lemma writeToFile_unaligned b fuel out b' :
  wf b → 0 < m_position b mod m_baseSize b → 0 < getReadSize b < m_baseSize b →
  writeToFile_loop b fuel (Z.of_nat (getReadSize b)) (m_position b) (m_cur b) [] ≠ Ret out b'.
Proof.
  intros H Hd Hr. pose proof (wf_base _ H) as Hb.
  pose proof (Nat.mod_upper_bound (m_position b) (m_baseSize b) ltac:(lia)) as Hm.
  destruct fuel as [|fuel]; cbn [writeToFile_loop]; rewrite (proj2 (Z.leb_gt _ _)) by lia; [done|].
  rewrite (proj2 (Z.ltb_ge _ (Z.of_nat (getReadSize b)))) by lia.
  destruct (m_cur b) as [i|]; [|done]. destruct (node_at b (Some i)) as [nd|]; [|done].
  set (d := m_position b mod m_baseSize b) in *. set (rs := getReadSize b) in *.
  destruct (Z.ltb_spec (Z.of_nat rs - Z.of_nat d) 0) as [|Hle]; [done|].
  destruct (slice _ _ _); [|done].
  assert (Hpos' : (m_position b + Z.to_nat (Z.of_nat rs - Z.of_nat d)) mod m_baseSize b = rs).
  { replace (m_position b + Z.to_nat (Z.of_nat rs - Z.of_nat d))
      with (rs + m_position b / m_baseSize b * m_baseSize b)
      by (pose proof (Nat.div_mod_eq (m_position b) (m_baseSize b)); lia).
    rewrite Nat.Div0.mod_add. apply Nat.mod_small. lia. }
  apply writeToFile_loop_lost; rewrite Hpos'; lia.
Qed.

Lemma writeToFile_loop_exn b fuel r pos cur ofs e b' : writeToFile_loop b fuel r pos cur ofs ≠ Exn e b'.
Proof.
  revert r pos cur ofs. induction fuel as [|fuel IH]; intros r pos cur ofs; cbn [writeToFile_loop]; repeat case_match; done || apply IH.
Qed.

Lemma readFromFile_spec chunks b :
  wf b → ∃ b', readFromFile junk chunks b = Ret tt b' ∧ wf b' ∧
    abs b' = Spec.put (concat chunks) (abs b) ∧
    m_endian b' = m_endian b ∧ m_baseSize b' = m_baseSize b.
Proof.
  revert b. induction chunks as [|c chunks IH]; intros b H; simpl.
  { exists b. split_and!; auto. unfold Spec.put, overwrite, abs; simpl.
    by rewrite !Nat.add_0_r, take_drop. }
  destruct (write_spec junk c b H) as (b1 & Hw & H1 & Ha1 & He1 & Hb1).
  rewrite (cbind_Ret _ _ _ _ _ Hw).
  destruct (IH b1 H1) as (b2 & Hr & H2 & Ha2 & He2 & Hb2).
  exists b2. split_and!; auto; [|congruence..].
  rewrite Ha2, Ha1. apply Spec.write_app.
  unfold abs; simpl. pose proof (wf_position _ H). rewrite length_content; done.
Qed.
End files.

(** ** Every history of a buffer *)

(** Every public operation; the typed reads and writes are these with a fixed
    size. The file operations are those on an opened file. *)
Inductive ba_op :=
  | OpWrite (bs : list byte)
  | OpRead (n : nat)
  | OpReadAt (n pos : nat)
  | OpSetPosition (v : nat)
  | OpClear
  | OpGetReadBuffers (len : nat)
  | OpGetReadBuffersAt (len pos : nat)
  | OpGetWriteBuffers (len : nat)
  | OpToString
  | OpWriteToFile
  | OpReadFromFile (chunks : list (list byte))
  | OpSetIsLittleEndian (val : bool).

Section histories.
Context (junk : nat → nat → byte).

Definition run_op (op : ba_op) : M ByteArray unit :=
  match op with
  | OpWrite bs => write junk bs
  | OpRead n => let! _ := read n in cret tt
  | OpReadAt n pos => let! _ := readAt n pos in cret tt
  | OpSetPosition v => setPosition v
  | OpClear => clear
  | OpGetReadBuffers len => let! _ := getReadBuffers [] len in cret tt
  | OpGetReadBuffersAt len pos => let! _ := getReadBuffersAt [] len pos in cret tt
  | OpGetWriteBuffers len => let! _ := getWriteBuffers junk [] len in cret tt
  | OpToString => let! _ := toString in cret tt
  | OpWriteToFile => let! _ := writeToFile in cret tt
  | OpReadFromFile chunks => readFromFile junk chunks
  | OpSetIsLittleEndian val => cmodify (setIsLittleEndian val)
  end.

(** Where an operation is undefined: a read of nothing when every block is
    full, which follows a null pointer; a read at a position, which starts in
    the block of the cursor and can run over the last block; buffers at a
    position, whose length is bounded by what is behind the cursor; and a
    file written from inside a block with less than a block to save, whose
    loop takes a negative length or never ends. *)
Definition undefined (op : ba_op) (b : ByteArray) : bool :=
  match op with
  | OpRead n => (n =? 0) && (m_position b =? m_capacity b)
  | OpReadAt n pos =>
    (Z.of_nat n <=? u64 (Z.of_nat (m_size b) - Z.of_nat pos))%Z &&
    ((m_position b =? m_capacity b) ||
     (m_capacity b <? m_position b / m_baseSize b * m_baseSize b + pos mod m_baseSize b + n))
  | OpGetReadBuffersAt len pos =>
    let len := len `min` getReadSize b in (0 <? len) && (m_capacity b <? pos + len)
  | OpWriteToFile =>
    (0 <? getReadSize b) && (getReadSize b <? m_baseSize b) && (0 <? m_position b mod m_baseSize b)
  | _ => false
  end.

(** The states a program can bring a buffer of block size [base] into; an
    exception leaves a usable object. *)
Inductive reachable (base : nat) : ByteArray → Prop :=
  | reach_new : reachable base (ByteArray_new junk base)
  | reach_ret op b b' : reachable base b → run_op op b = Ret tt b' → reachable base b'
  | reach_exn op b e b' : reachable base b → run_op op b = Exn e b' → reachable base b'.

(** The copy loop from any offset of a block: it returns if the blocks hold
    that much, else it follows the null pointer behind the last one. *)
Lemma read_loop_total fuel size npos acc b i nd :
  0 < m_baseSize b → uniform (m_baseSize b) (m_nodes b) →
  m_cur b = Some i → m_nodes b !! i = Some nd → npos < m_baseSize b → size ≤ fuel →
  if m_baseSize b * length (m_nodes b) <? i * m_baseSize b + npos + size
  then read_loop fuel size npos (m_baseSize b - npos) acc b = Stuck NullDeref
  else ∃ bs b', read_loop fuel size npos (m_baseSize b - npos) acc b = Ret bs b'.
Proof.
  revert size npos acc b i nd.
  induction fuel as [|fuel IH]; intros size npos acc b i nd Hb Hu Hc Hi Hn Hf;
    pose proof (lookup_lt_Some _ _ _ Hi) as Hilt; cbn [read_loop];
    (destruct (Nat.eqb_spec size 0) as [->|Hs]; [rewrite (proj2 (Nat.ltb_ge _ _)) by nia; unfold cret; eauto|]); [lia|].
  pose proof (uniform_lookup _ _ _ _ Hu Hi) as Hnd.
  rewrite Hc. cbn [node_at mbind option_bind]. rewrite Hi.
  destruct (Nat.leb_spec size (m_baseSize b - npos)) as [Hfit|Hbig].
  { rewrite slice_in by lia. rewrite (proj2 (Nat.ltb_ge _ _)) by nia. eauto. }
  rewrite slice_in by lia. set (b1 := set_cur _ _).
  assert (Hcur1 : m_cur b1 = if S i <? length (m_nodes b) then Some (S i) else None) by done.
  destruct (Nat.ltb_spec (S i) (length (m_nodes b))) as [HSi|HSi].
  - destruct (lookup_lt_is_Some_2 (m_nodes b1) (S i)) as [nd2 Hnd2]; [done|].
    rewrite Hcur1. cbn [node_at mbind option_bind]. rewrite Hnd2, (uniform_lookup (m_baseSize b) _ _ _ Hu Hnd2).
    pose proof (IH (size - (m_baseSize b - npos)) 0 (acc ++ take (m_baseSize b - npos) (drop npos nd)) b1 (S i) nd2
                  Hb Hu Hcur1 Hnd2 Hb ltac:(lia)) as Hx.
    change (m_baseSize b1) with (m_baseSize b) in Hx. change (m_nodes b1) with (m_nodes b) in Hx.
    rewrite Nat.sub_0_r in Hx.
    replace (S i * m_baseSize b + 0 + (size - (m_baseSize b - npos))) with (i * m_baseSize b + npos + size) in Hx by lia.
    done.
  - rewrite Hcur1. rewrite (proj2 (Nat.ltb_lt _ _)) by nia. done.
Qed.
Lemma readAt_total n pos b :
  wf b → if undefined (OpReadAt n pos) b then readAt n pos b = Stuck NullDeref
         else (∃ bs, readAt n pos b = Ret bs b) ∨ readAt n pos b = Exn OutOfRange b.
Proof.
  intros H. unfold undefined, readAt, cbind, cget.
  destruct (Z.ltb_spec (u64 (Z.of_nat (m_size b) - Z.of_nat pos)) (Z.of_nat n)) as [Hn|Hn].
  { rewrite (proj2 (Z.leb_gt _ _)) by lia. cbn [andb]. by right. }
  rewrite (proj2 (Z.leb_le _ _)) by lia. cbn [andb]. rewrite modBase_ret by done.
  pose proof (wf_position _ H). pose proof (wf_size _ H). pose proof (wf_capacity _ H) as Hc. pose proof (wf_base _ H) as Hb.
  destruct (Nat.eqb_spec (m_position b) (m_capacity b)) as [E|E]; cbn [orb].
  { rewrite (wf_cur _ H). unfold cur_at. rewrite (proj2 (Nat.ltb_ge _ _)) by lia. done. }
  destruct (wf_cursor b H ltac:(lia)) as (i & nd & npos & Hcur & Hnd & Hnp & Hnpos & Hpos & Hlen).
  assert (Hi : m_position b / m_baseSize b = i).
  { rewrite Hpos, Nat.div_add_l by lia. rewrite Nat.div_small by lia. lia. }
  rewrite Hi, Hcur. cbn [node_at mbind option_bind]. rewrite Hnd. cbn [cderef cret]. rewrite Hlen.
  pose proof (read_loop_total n n (pos mod m_baseSize b) [] b i nd Hb (wf_nodes _ H) Hcur Hnd
                (Nat.mod_upper_bound pos (m_baseSize b) ltac:(lia)) (Nat.le_refl n)) as Hx.
  rewrite <- Hc in Hx. destruct (m_capacity b <? _); [by rewrite Hx|].
  destruct Hx as (bs & b' & ->). left. by exists bs.
Qed.

Lemma toString_total b : wf b → (∃ bs, toString b = Ret bs b) ∨ toString b = Exn OutOfRange b.
Proof.
  intros H. unfold toString, cbind, cget, getReadSize. pose proof (wf_size _ H). pose proof (wf_base _ H) as Hb.
  destruct (Nat.eqb_spec (m_size b - m_position b) 0) as [E|E]; [left; by exists []|].
  pose proof (readAt_total (m_size b - m_position b) (m_position b) b H) as Hx.
  assert (undefined (OpReadAt (m_size b - m_position b) (m_position b)) b = false) as Hu; [|by rewrite Hu in Hx].
  cbn [undefined]. pose proof (Nat.div_mod_eq (m_position b) (m_baseSize b)).
  rewrite (proj2 (Nat.eqb_neq (m_position b) (m_capacity b))), (proj2 (Nat.ltb_ge _ _)) by lia. by rewrite andb_false_r.
Qed.

Lemma nth_node_eq b count i :
  i + count ≤ length (m_nodes b) → 0 < length (m_nodes b) → i < length (m_nodes b) →
  nth_node b count (Some i) = Ret (if i + count <? length (m_nodes b) then Some (i + count) else None) b.
Proof.
  revert i. induction count as [|count IH]; intros i Hle Hz Hi; cbn [nth_node].
  { rewrite Nat.add_0_r. by rewrite (proj2 (Nat.ltb_lt _ _)). }
  unfold node_next. destruct (Nat.ltb_spec (S i) (length (m_nodes b))).
  - rewrite IH by lia. by replace (S i + count) with (i + S count) by lia.
  - assert (count = 0) as -> by lia. by rewrite (proj2 (Nat.ltb_ge (i + 1) _)) by lia.
Qed.
Lemma nth_node_far b count i :
  length (m_nodes b) < i + count → i < length (m_nodes b) → nth_node b count (Some i) = Stuck NullDeref.
Proof.
  revert i. induction count as [|count IH]; intros i Hlt Hi; [lia|]. cbn [nth_node]. unfold node_next.
  destruct (Nat.ltb_spec (S i) (length (m_nodes b))); [apply IH; lia|]. destruct count; [lia|done].
Qed.
Lemma iov_loop_stuck b fuel len npos i nd buffers :
  0 < m_baseSize b → uniform (m_baseSize b) (m_nodes b) →
  m_nodes b !! i = Some nd → npos < m_baseSize b → len ≤ fuel →
  m_baseSize b * length (m_nodes b) < i * m_baseSize b + npos + len →
  iov_loop b fuel len npos (m_baseSize b - npos) (Some i) buffers = Stuck NullDeref.
Proof.
  revert len npos i nd buffers.
  induction fuel as [|fuel IH]; intros len npos i nd buffers Hb Hu Hi Hn Hlen Hcap;
    pose proof (lookup_lt_Some _ _ _ Hi) as Hilt; [nia|].
  cbn [iov_loop]. rewrite (proj2 (Nat.eqb_neq _ _)) by nia.
  destruct (Nat.leb_spec len (m_baseSize b - npos)) as [Hfit|Hbig]; [nia|].
  unfold node_next. destruct (Nat.ltb_spec (S i) (length (m_nodes b))) as [HSi|HSi]; [|done].
  destruct (lookup_lt_is_Some_2 (m_nodes b) (S i) HSi) as [nd2 Hnd2].
  cbn [node_at mbind option_bind]. rewrite Hnd2, (uniform_lookup _ _ _ _ Hu Hnd2).
  rewrite <- (Nat.sub_0_r (m_baseSize b)) at 2. apply (IH _ 0 (S i) nd2); [done|done|done|done|lia|lia].
Qed.
Lemma getReadBuffersAt_total len pos b :
  wf b → if undefined (OpGetReadBuffersAt len pos) b then getReadBuffersAt [] len pos b = Stuck NullDeref
         else ∃ n iovs, getReadBuffersAt [] len pos b = Ret (n, iovs) b ∧ Forall (iov_ok b) iovs.
Proof.
  intros H. unfold undefined, getReadBuffersAt, cbind, cget.
  pose proof (wf_position _ H). pose proof (wf_size _ H). pose proof (wf_capacity _ H) as Hc. pose proof (wf_base _ H) as Hb.
  replace (if getReadSize b <? len then getReadSize b else len) with (len `min` getReadSize b)
    by (destruct (Nat.ltb_spec (getReadSize b) len); lia).
  set (n := len `min` getReadSize b). destruct (Nat.eqb_spec n 0) as [E|E].
  { rewrite E. cbn. exists 0, []. by split. }
  rewrite (proj2 (Nat.ltb_lt 0 n)) by lia. cbn [andb]. rewrite modBase_ret by done.
  pose proof (Nat.div_mod_eq pos (m_baseSize b)) as Hdm.
  pose proof (Nat.mod_upper_bound pos (m_baseSize b) ltac:(lia)) as Hm.
  assert (0 < m_capacity b) as Hcp by (unfold n, getReadSize in E; lia).
  assert (0 < length (m_nodes b)) as Hl by (destruct (length (m_nodes b)); lia).
  destruct (Nat.lt_ge_cases (length (m_nodes b)) (pos / m_baseSize b)) as [Hfar|Hnear].
  { rewrite nth_node_far by lia. by rewrite (proj2 (Nat.ltb_lt (m_capacity b) (pos + n))) by nia. }
  rewrite nth_node_eq by lia. cbn [Nat.add].
  destruct (Nat.ltb_spec (pos / m_baseSize b) (length (m_nodes b))) as [Hin|Hout].
  2: { rewrite (proj2 (Nat.ltb_lt (m_capacity b) (pos + n))) by nia. done. }
  destruct (lookup_lt_is_Some_2 _ _ Hin) as [nd Hnd]. cbn [node_at mbind option_bind]. rewrite Hnd. cbn [cderef cret].
  rewrite (uniform_lookup _ _ _ _ (wf_nodes _ H) Hnd).
  destruct (Nat.ltb_spec (m_capacity b) (pos + n)) as [Hov|Hok].
  - rewrite (iov_loop_stuck b n n _ _ nd []); [done|done|apply H|done|done|done|lia].
  - destruct (iov_loop_spec b n n (pos mod m_baseSize b) (pos / m_baseSize b) nd [])
      as (iovs & -> & _ & Hiov); [done|apply H|done|done|lia|lia|]. by exists n, iovs.
Qed.

Lemma run_op_spec op b :
  wf b →
  if undefined op b then ∃ r, run_op op b = Stuck r
  else ∃ b', (run_op op b = Ret tt b' ∨ run_op op b = Exn OutOfRange b') ∧ wf b'.
Proof.
  intros H. destruct op as [bs|n|n pos|v| |len|len pos|len| | |chunks|val]; cbn [run_op].
  - destruct (write_spec junk bs b H) as (b' & ? & ? & _). cbn. eauto.
  - pose proof (read_spec n b H) as Hs. cbn [undefined].
    destruct (Spec.get n (abs b)) as [[bs f]|] eqn:E.
    + unfold Spec.get in E. destruct (Nat.ltb_spec (length (Spec.data (abs b)) - Spec.cursor (abs b)) n) as [|Hl]; [done|].
      cbn in Hl. rewrite length_content in Hl by done. pose proof (wf_size _ H). case_decide as Hd.
      * assert (n = 0) as -> by lia. rewrite Hd, !Nat.eqb_refl. cbn [andb]. eexists. by rewrite (cbind_Stuck _ _ _ _ Hs).
      * assert ((n =? 0) && (m_position b =? m_capacity b) = false) as ->.
        { rewrite (proj2 (Nat.eqb_neq (m_position b) (m_capacity b))) by done. by rewrite andb_false_r. }
        destruct Hs as (b' & Hr & ? & _). exists b'. rewrite (cbind_Ret _ _ _ _ _ Hr). auto.
    + unfold Spec.get in E. destruct (Nat.ltb_spec (length (Spec.data (abs b)) - Spec.cursor (abs b)) n); [|done].
      rewrite (proj2 (Nat.eqb_neq n 0)) by lia. exists b. rewrite (cbind_Exn _ _ _ _ _ Hs). auto.
  - pose proof (readAt_total n pos b H) as Hx. destruct (undefined (OpReadAt n pos) b).
    + exists NullDeref. by rewrite (cbind_Stuck _ _ _ _ Hx).
    + destruct Hx as [[bs Hx]|Hx]; exists b; [rewrite (cbind_Ret _ _ _ _ _ Hx)|rewrite (cbind_Exn _ _ _ _ _ Hx)]; auto.
  - pose proof (setPosition_spec v b H) as Hs. cbn. case_decide; [exists b; auto|].
    destruct Hs as (b' & ? & ? & _). eauto.
  - destruct (clear_spec b H) as (b' & ? & ? & _). cbn. eauto.
  - destruct (getReadBuffers_spec b [] len H) as (iovs & Hr & _). cbn. exists b. rewrite (cbind_Ret _ _ _ _ _ Hr). auto.
  - pose proof (getReadBuffersAt_total len pos b H) as Hx. destruct (undefined (OpGetReadBuffersAt len pos) b).
    + exists NullDeref. by rewrite (cbind_Stuck _ _ _ _ Hx).
    + destruct Hx as (n & iovs & Hx & _). exists b. rewrite (cbind_Ret _ _ _ _ _ Hx). auto.
  - destruct (getWriteBuffers_spec junk b [] len H) as (b' & iovs & Hr & ? & _).
    cbn. exists b'. rewrite (cbind_Ret _ _ _ _ _ Hr). auto.
  - destruct (toString_total b H) as [[bs Hx]|Hx]; cbn; exists b;
      [rewrite (cbind_Ret _ _ _ _ _ Hx)|rewrite (cbind_Exn _ _ _ _ _ Hx)]; auto.
  - cbn [undefined]. destruct (_ && _ && _) eqn:E.
    + rewrite !andb_true_iff, !Nat.ltb_lt in E. destruct E as [[? ?] ?].
      destruct (writeToFile b) as [out b'|e b'|r] eqn:Hw.
      * unfold writeToFile in Hw. destruct (m_baseSize b =? 0); [done|]. by apply writeToFile_unaligned in Hw.
      * unfold writeToFile in Hw. destruct (m_baseSize b =? 0); [done|]. by apply writeToFile_loop_exn in Hw.
      * exists r. by rewrite (cbind_Stuck _ _ _ _ Hw).
    + exists b. assert (Hw : writeToFile b = Ret (drop (m_position b) (content b)) b).
      { destruct (Nat.eq_dec (getReadSize b) 0) as [E0|E0].
        - unfold writeToFile. rewrite (proj2 (Nat.eqb_neq _ _)) by (pose proof (wf_base _ H); lia). rewrite E0. cbn.
          rewrite drop_ge; [done|]. rewrite length_content by done. unfold getReadSize in E0. lia.
        - apply writeToFile_spec; [done|]. rewrite !andb_false_iff, !Nat.ltb_ge in E. lia. }
      rewrite (cbind_Ret _ _ _ _ _ Hw). auto.
  - destruct (readFromFile_spec junk chunks b H) as (b' & ? & ? & _). cbn. eauto.
  - cbn. eexists. split; [left; reflexivity|]. destruct H; by constructor.
Qed.

Lemma reachable_inv base b : 0 < base → reachable base b → wf b.
Proof.
  intros Hb. induction 1 as [|op b b' _ IH Hr|op b e b' _ IH Hr].
  - by apply ByteArray_new_wf.
  - pose proof (run_op_spec op b IH) as Hx. destruct (undefined op b); [destruct Hx; congruence|].
    destruct Hx as (b2 & [E|E] & ?); congruence.
  - pose proof (run_op_spec op b IH) as Hx. destruct (undefined op b); [destruct Hx; congruence|].
    destruct Hx as (b2 & [E|E] & ?); congruence.
Qed.
End histories.

(** ** Properties of the buffer *)
Section properties.
Context (junk : nat → nat → byte).

(** C2: [ByteArray::write] refines the abstract write: on every well-formed
    buffer it returns (never overruns a block, never follows a null
    pointer), the data is overwritten from the cursor on and grows if
    needed, the cursor ends behind the written bytes, byte order and block
    size stay, and the invariant holds again. *)
Theorem bytearray_write_refines bs b :
  wf b →
  ∃ b', write junk bs b = Ret tt b' ∧ wf b' ∧
    abs b' = Spec.put bs (abs b) ∧
    m_endian b' = m_endian b ∧ m_baseSize b' = m_baseSize b.
Proof. apply write_spec. Qed.

(** [ByteArray::read] refines the abstract read on every branch: it
    throws [out_of_range] and changes nothing when too few bytes are left,
    and otherwise returns the next bytes and moves the cursor; the one
    exception is a cursor behind the last full block, where [m_cur] is null
    and the read of zero bytes dereferences it. *)
Theorem bytearray_read_refines n b :
  wf b →
  match Spec.get n (abs b) with
  | None => read n b = Exn OutOfRange b
  | Some (bs, f) =>
      if decide (m_position b = m_capacity b) then n = 0 ∧ read n b = Stuck NullDeref
      else ∃ b', read n b = Ret bs b' ∧ wf b' ∧ abs b' = f ∧
             m_endian b' = m_endian b ∧ m_baseSize b' = m_baseSize b
  end.
Proof.
  intros H. pose proof (read_spec n b H) as Hs.
  destruct (Spec.get n (abs b)) as [[bs f]|] eqn:E; [|done]. case_decide; [|done].
  split; [|done]. unfold Spec.get in E.
  destruct (Nat.ltb_spec (length (Spec.data (abs b)) - Spec.cursor (abs b)) n); [done|].
  simpl in *. rewrite length_content in * by done. pose proof (wf_size _ H). lia.
Qed.

(** [setPosition] on every branch: past the capacity it throws and
    changes nothing; otherwise the cursor is at [v] over the same memory,
    and the data is extended to [v] when it was shorter. *)
Theorem bytearray_setPosition v b :
  wf b →
  if decide (m_capacity b < v) then setPosition v b = Exn OutOfRange b
  else ∃ b', setPosition v b = Ret tt b' ∧ wf b' ∧ m_position b' = v ∧
         m_size b' = m_size b `max` v ∧ flat b' = flat b ∧
         m_endian b' = m_endian b ∧ m_baseSize b' = m_baseSize b ∧
         m_capacity b' = m_capacity b.
Proof. apply setPosition_spec. Qed.

(** C7: Which operation of a buffer is undefined, and when. After any
    sequence of public operations on a buffer with a positive block size
    (write, read, read at a position, setPosition, clear, the three that give
    iovecs, toString, writeToFile and readFromFile on an open file,
    setIsLittleEndian), exceptions included, the invariant holds; the next
    operation returns or throws [out_of_range] and keeps it, except exactly in
    the cases of [undefined]: a read of nothing with every block full, a read
    at a position that runs over the blocks because it starts in the block of
    the cursor, buffers at a position with more asked for than the blocks
    hold from there, and writeToFile from inside a block with less than a
    block unread. *)
Theorem bytearray_histories_safe base b op :
  0 < base → reachable junk base b →
  wf b ∧
  if undefined op b then ∃ r, run_op junk op b = Stuck r
  else ∃ b', (run_op junk op b = Ret tt b' ∨ run_op junk op b = Exn OutOfRange b') ∧ wf b'.
Proof.
  intros Hb Hr. pose proof (reachable_inv junk base b Hb Hr) as H. split; [done|]. by apply run_op_spec.
Qed.

(** the [iovec]s of [getReadBuffers] stay inside their blocks and denote
    exactly the next unread bytes; those of [getWriteBuffers] denote the
    [len] bytes behind the cursor, made available without changing data or
    cursor. *)
Theorem bytearray_iovecs b buffers len :
  wf b →
  (∃ iovs, getReadBuffers buffers len b = Ret (len `min` getReadSize b, buffers ++ iovs) b ∧
     iov_data b iovs = take len (drop (m_position b) (content b)) ∧ Forall (iov_ok b) iovs) ∧
  (∃ b' iovs, getWriteBuffers junk buffers len b = Ret (len, buffers ++ iovs) b' ∧
     wf b' ∧ abs b' = abs b ∧
     iov_data b' iovs = take len (drop (m_position b') (flat b')) ∧
     length (iov_data b' iovs) = len ∧ Forall (iov_ok b') iovs).
Proof.
  intros H. split; [by apply getReadBuffers_spec|].
  destruct (getWriteBuffers_spec junk b buffers len H) as (b' & iovs & ? & H' & ? & Hc & Hd & ?).
  exists b', iovs. split_and!; auto. rewrite Hd, length_take, length_drop, length_flat by done.
  unfold getCapacity in Hc. lia.
Qed.

(** [toString] returns the unread data and leaves the object as it is. *)
Theorem bytearray_toString b :
  wf b → (Z.of_nat (m_size b) < 2 ^ 64)%Z →
  toString b = Ret (drop (m_position b) (content b)) b.
Proof. apply toString_spec. Qed.

(** [writeToFile] saves exactly the unread data when the cursor is at a
    block boundary or at least a block is unread; in every other case with
    something to save its loop does not return, whatever its bound. *)
Theorem bytearray_writeToFile b :
  wf b → 0 < getReadSize b →
  (m_position b mod m_baseSize b = 0 ∨ m_baseSize b ≤ getReadSize b →
    writeToFile b = Ret (drop (m_position b) (content b)) b) ∧
  (0 < m_position b mod m_baseSize b → getReadSize b < m_baseSize b →
    ∀ fuel out b',
      writeToFile_loop b fuel (Z.of_nat (getReadSize b)) (m_position b) (m_cur b) [] ≠ Ret out b').
Proof.
  intros H Hr. split; [by apply writeToFile_spec|].
  intros Hd Hlt fuel out b'. by apply writeToFile_unaligned.
Qed.
End properties.

Definition junk0 : nat → nat → byte := λ _ _, x2a.

(** A buffer of three-byte blocks holding four bytes, cursor at the second. *)
Definition ba_ex : ByteArray :=
  mkByteArray 3 1 6 4 BigEndian [[x01; x02; x03]; [x04; x2a; x2a]] (Some 0).

Lemma ba_ex_wf : wf ba_ex.
Proof. constructor; simpl; try done; try lia. by repeat constructor. Qed.

Lemma bytearray_write_refines_witness :
  wf ba_ex ∧ ∃ b', write junk0 [x0a; x0b; x0c; x0d] ba_ex = Ret tt b' ∧
    content b' = [x01; x0a; x0b; x0c; x0d].
Proof.
  split; [apply ba_ex_wf|].
  destruct (bytearray_write_refines junk0 [x0a; x0b; x0c; x0d] ba_ex ba_ex_wf)
    as (b' & Hr & _ & Ha & _). exists b'. split; [done|].
  injection Ha as -> _. reflexivity.
Defined.

Lemma bytearray_read_refines_witness :
  wf ba_ex ∧ ∃ b', read 3 ba_ex = Ret [x02; x03; x04] b'.
Proof.
  split; [apply ba_ex_wf|].
  destruct (bytearray_read_refines 3 ba_ex ba_ex_wf) as (b' & Hr & _). eauto.
Defined.

Lemma bytearray_setPosition_witness :
  wf ba_ex ∧ setPosition 7 ba_ex = Exn OutOfRange ba_ex ∧
  ∃ b', setPosition 6 ba_ex = Ret tt b' ∧ m_size b' = 6 ∧ m_cur b' = None.
Proof.
  split; [apply ba_ex_wf|]. split; [apply (bytearray_setPosition 7 ba_ex ba_ex_wf)|].
  destruct (bytearray_setPosition 6 ba_ex ba_ex_wf) as (b' & Hr & _).
  exists b'. split; [done|]. vm_compute in Hr. by injection Hr as <-.
Defined.

Lemma bytearray_histories_safe_witness :
  0 < 2 ∧ ∃ b, reachable junk0 2 b ∧ m_position b = 1 ∧
    (∃ b', (run_op junk0 (OpReadAt 2 0) b = Ret tt b' ∨ run_op junk0 (OpReadAt 2 0) b = Exn OutOfRange b') ∧ wf b') ∧
    ∃ r, run_op junk0 OpWriteToFile b = Stuck r.
Proof.
  split; [lia|].
  set (b0 := mkByteArray 2 2 2 2 BigEndian [[x01; x02]] None).
  set (b := mkByteArray 2 1 2 2 BigEndian [[x01; x02]] (Some 0)).
  assert (Hr0 : reachable junk0 2 b0)
    by (apply (reach_ret junk0 2 (OpWrite [x01; x02]) (ByteArray_new junk0 2) b0); [constructor|reflexivity]).
  assert (Hr : reachable junk0 2 b) by (apply (reach_ret junk0 2 (OpSetPosition 1) b0 b); [exact Hr0|reflexivity]).
  exists b. split_and!; [exact Hr|reflexivity| |].
  - exact (proj2 (bytearray_histories_safe junk0 2 b (OpReadAt 2 0) ltac:(lia) Hr)).
  - exact (proj2 (bytearray_histories_safe junk0 2 b OpWriteToFile ltac:(lia) Hr)).
Defined.

Lemma bytearray_iovecs_witness :
  wf ba_ex ∧ ∃ iovs, getReadBuffers [] 3 ba_ex = Ret (3, iovs) ba_ex ∧
    iov_data ba_ex iovs = [x02; x03; x04].
Proof.
  split; [apply ba_ex_wf|].
  destruct (proj1 (bytearray_iovecs junk0 ba_ex [] 3 ba_ex_wf)) as (iovs & Hr & Hd & _).
  exists iovs. split; [exact Hr|]. rewrite Hd. reflexivity.
Defined.

Lemma bytearray_toString_witness :
  wf ba_ex ∧ toString ba_ex = Ret [x02; x03; x04] ba_ex.
Proof.
  split; [apply ba_ex_wf|].
  exact (bytearray_toString ba_ex ba_ex_wf ltac:(vm_compute; reflexivity)).
Defined.

Definition ba_ex_short : ByteArray :=
  mkByteArray 4 1 4 3 BigEndian [[x01; x02; x03; x2a]] (Some 0).

Lemma bytearray_writeToFile_witness :
  writeToFile ba_ex = Ret [x02; x03; x04] ba_ex ∧
  ∀ fuel out b', writeToFile_loop ba_ex_short fuel 2 1 (Some 0) [] ≠ Ret out b'.
Proof.
  split.
  - apply (proj1 (bytearray_writeToFile ba_ex ba_ex_wf ltac:(vm_compute; lia))).
    right. vm_compute. lia.
  - assert (H : wf ba_ex_short) by (constructor; simpl; try done; try lia; by repeat constructor).
    intros fuel out b'.
    apply (proj2 (bytearray_writeToFile ba_ex_short H ltac:(vm_compute; lia)));
      vm_compute; lia.
Defined.
