(* ===== verification/Codec.v ===== *)
(** * Typed reads and writes of ByteArray (Sylar/bytearray.cc)

    Fixed-width integers in the buffer's byte order, zigzag and base-128
    variable-length integers, floats by their bit patterns and
    length-prefixed strings. *)
From Stdlib Require Import ZArith Lia Strings.Byte.
From stdpp Require Import base list list_numbers numbers.
From S2P Require Import Prelude ByteArray.

Section operations.
Context (host : endian) (junk : nat → nat → byte).

(** ** Fixed width

    [if(m_endian != SYLAR_BYTE_ORDER) value = byteswap(value);
     write(&value, sizeof(value));], [conv] being the conversion to the
    type of [value]. *)
Definition write_fixed (n : nat) (conv : Z → Z) (value : Z) : M ByteArray unit :=
  let! b := cget in
  let value := if decide (m_endian b = host) then value else conv (byteswap n value) in
  write junk (mem_image host n value).

(** The body [XX(type)] of the readers. *)
Definition read_fixed (n : nat) (conv : Z → Z) : M ByteArray Z :=
  let! bs := read n in
  let v := conv (mem_value host bs) in
  let! b := cget in
  cret (if decide (m_endian b = host) then v else conv (byteswap n v)).

Definition writeFint8 (value : Z) : M ByteArray unit := write junk (mem_image host 1 value).
Definition writeFuint8 (value : Z) : M ByteArray unit := write junk (mem_image host 1 value).
Definition writeFint16 (value : Z) : M ByteArray unit := write_fixed 2 i16 value.
Definition writeFuint16 (value : Z) : M ByteArray unit := write_fixed 2 u16 value.
Definition writeFint32 (value : Z) : M ByteArray unit := write_fixed 4 i32 value.
Definition writeFuint32 (value : Z) : M ByteArray unit := write_fixed 4 u32 value.
Definition writeFint64 (value : Z) : M ByteArray unit := write_fixed 8 i64 value.
Definition writeFuint64 (value : Z) : M ByteArray unit := write_fixed 8 u64 value.

Definition readFint8 : M ByteArray Z :=
  let! bs := read 1 in cret (i8 (mem_value host bs)).
Definition readFuint8 : M ByteArray Z :=
  let! bs := read 1 in cret (u8 (mem_value host bs)).
Definition readFint16 : M ByteArray Z := read_fixed 2 i16.
Definition readFuint16 : M ByteArray Z := read_fixed 2 u16.
Definition readFint32 : M ByteArray Z := read_fixed 4 i32.
Definition readFuint32 : M ByteArray Z := read_fixed 4 u32.
Definition readFint64 : M ByteArray Z := read_fixed 8 i64.
Definition readFuint64 : M ByteArray Z := read_fixed 8 u64.

(** ** Zigzag *)

(** An operation of a signed type of width [w] whose exact result is [z]:
    undefined when the type does not hold it. *)
Definition signed (w z : Z) : option Z :=
  if ((- 2 ^ (w - 1) <=? z) && (z <? 2 ^ (w - 1)))%Z then Some z else None.
(** The negation and the doubling are evaluated in the signed type. *)
Definition EncodeZigzag32 (v : Z) : option Z :=
  if (v <? 0)%Z then (λ n, u32 (u32 n * 2 - 1)) <$> signed 32 (- v) else u32 <$> signed 32 (v * 2).
Definition EncodeZigzag64 (v : Z) : option Z :=
  if (v <? 0)%Z then (λ n, u64 (u64 n * 2 - 1)) <$> signed 64 (- v) else u64 <$> signed 64 (v * 2).
Definition DecodeZigzag32 (v : Z) : Z :=
  i32 (Z.lxor (Z.shiftr v 1) (u32 (- Z.land v 1))).
Definition DecodeZigzag64 (v : Z) : Z :=
  i64 (Z.lxor (Z.shiftr v 1) (u64 (- Z.land v 1))).

(** ** Base 128

    The loop that fills [uint8_t tmp[room]]; an iteration past the end of
    the array is out of bounds. *)
Fixpoint varint_loop (room : nat) (value : Z) : option (list byte) :=
  match room with
  | O => None
  | S room =>
    if (128 <=? value)%Z then
      let b := byte_of_Z (Z.lor (Z.land value 127) 128) in
      cons b <$> varint_loop room (Z.shiftr value 7)
    else Some [byte_of_Z value]
  end.

Definition writeUint32 (value : Z) : M ByteArray unit :=
  let! tmp := cinbounds (varint_loop 5 value) in write junk tmp.
Definition writeUint64 (value : Z) : M ByteArray unit :=
  let! tmp := cinbounds (varint_loop 10 value) in write junk tmp.
Definition coverflow {S A} (o : option A) : M S A :=
  match o with Some a => cret a | None => cstuck SignedOverflow end.
Definition writeInt32 (value : Z) : M ByteArray unit :=
  let! v := coverflow (EncodeZigzag32 value) in writeUint32 v.
Definition writeInt64 (value : Z) : M ByteArray unit :=
  let! v := coverflow (EncodeZigzag64 value) in writeUint64 v.

(** [for(int i = ...; i < w; i += 7)], [iters] iterations from bit [i]. *)
Fixpoint unvarint_loop (wrap : Z → Z) (iters : nat) (i result : Z) : M ByteArray Z :=
  match iters with
  | O => cret result
  | S iters =>
    let! b := readFuint8 in
    if (b <? 128)%Z then cret (Z.lor result (wrap (Z.shiftl b i)))
    else unvarint_loop wrap iters (i + 7)
           (Z.lor result (wrap (Z.shiftl (Z.land b 127) i)))
  end.

Definition readUint32 : M ByteArray Z := unvarint_loop u32 5 0 0.
Definition readUint64 : M ByteArray Z := unvarint_loop u64 10 0 0.
Definition readInt32 : M ByteArray Z := let! v := readUint32 in cret (DecodeZigzag32 v).
Definition readInt64 : M ByteArray Z := let! v := readUint64 in cret (DecodeZigzag64 v).

(** ** Floating point: [memcpy] to and from the integer of the same width;
    a [float] or [double] is its bit pattern. *)
Definition writeFloat (value : Z) : M ByteArray unit := writeFuint32 value.
Definition writeDouble (value : Z) : M ByteArray unit := writeFuint64 value.
Definition readFloat : M ByteArray Z := readFuint32.
Definition readDouble : M ByteArray Z := readFuint64.

(** ** Strings *)
Definition ssize (value : list byte) : Z := Z.of_nat (length value).

Definition writeStringF16 (value : list byte) : M ByteArray unit :=
  let! _ := writeFuint16 (u16 (ssize value)) in write junk value.
Definition writeStringF32 (value : list byte) : M ByteArray unit :=
  let! _ := writeFuint32 (u32 (ssize value)) in write junk value.
Definition writeStringF64 (value : list byte) : M ByteArray unit :=
  let! _ := writeFuint64 (u64 (ssize value)) in write junk value.
Definition writeStringVint (value : list byte) : M ByteArray unit :=
  let! _ := writeUint64 (u64 (ssize value)) in write junk value.
Definition writeStringWithoutLength (value : list byte) : M ByteArray unit :=
  write junk value.

(** [buff.resize(len); read(&buff[0], len);] The comparison of [read] is
    made on the machine integer, before [len] is used as a size. *)
Definition read_len (len : Z) : M ByteArray (list byte) :=
  let! b := cget in
  if (Z.of_nat (getReadSize b) <? len)%Z then cthrow OutOfRange
  else read (Z.to_nat len).

Definition readStringF16 : M ByteArray (list byte) := let! len := readFuint16 in read_len len.
Definition readStringF32 : M ByteArray (list byte) := let! len := readFuint32 in read_len len.
Definition readStringF64 : M ByteArray (list byte) := let! len := readFuint64 in read_len len.
Definition readStringVint : M ByteArray (list byte) := let! len := readUint64 in read_len len.
End operations.

(** ** Images on the wire *)

(** A conversion to an [n]-byte integer type keeps the [n] low bytes. *)
Class IntConv (n : nat) (conv : Z → Z) := {
  conv_bytes z : le_bytes n (conv z) = le_bytes n z;
  conv_wrap z : conv (uwrap (8 * Z.of_nat n) z) = conv z
}.

#[export] Instance uwrap_conv n w : TCEq w (8 * Z.of_nat n)%Z → IntConv n (uwrap w).
Proof.
  intros ->%TCEq_eq. split; intros z; [apply le_bytes_wrap|].
  apply uwrap_id, uwrap_range. lia.
Qed.

Lemma swrap_conv n w : w = (8 * Z.of_nat n)%Z → 0 < n → IntConv n (swrap w).
Proof.
  intros -> Hn. split; intros z; [|apply swrap_uwrap; lia].
  rewrite <- le_bytes_wrap, <- (le_bytes_wrap n z). f_equal.
  unfold swrap, uwrap. rewrite Zminus_mod_idemp_l. f_equal. lia.
Qed.

#[export] Instance u16_conv : IntConv 2 u16 := uwrap_conv 2 16 (TCEq_refl _).
#[export] Instance u32_conv : IntConv 4 u32 := uwrap_conv 4 32 (TCEq_refl _).
#[export] Instance u64_conv : IntConv 8 u64 := uwrap_conv 8 64 (TCEq_refl _).
#[export] Instance u8_conv : IntConv 1 u8 := uwrap_conv 1 8 (TCEq_refl _).
#[export] Instance i8_conv : IntConv 1 i8 := swrap_conv 1 8 eq_refl ltac:(lia).
#[export] Instance i16_conv : IntConv 2 i16 := swrap_conv 2 16 eq_refl ltac:(lia).
#[export] Instance i32_conv : IntConv 4 i32 := swrap_conv 4 32 eq_refl ltac:(lia).
#[export] Instance i64_conv : IntConv 8 i64 := swrap_conv 8 64 eq_refl ltac:(lia).

Section images.
Implicit Types e host : endian.

Lemma byteswap_bytes n v : le_bytes n (byteswap n v) = rev (le_bytes n v).
Proof.
  unfold byteswap. rewrite <- (le_bytes_value (rev (le_bytes n v))) at 2.
  by rewrite length_rev, length_le_bytes.
Qed.

(** Swapping where needed stores the bytes in the order [e], whatever the
    host. *)
Lemma image_swap e host n conv `{!IntConv n conv} v :
  mem_image host n (if decide (e = host) then v else conv (byteswap n v)) = mem_image e n v.
Proof.
  case_decide as He; [by rewrite He|].
  destruct e, host; try done; simpl; by rewrite conv_bytes, byteswap_bytes, ?rev_involutive.
Qed.

Lemma value_swap e host n conv `{!IntConv n conv} bs :
  length bs = n →
  (if decide (e = host) then conv (mem_value host bs)
   else conv (byteswap n (conv (mem_value host bs)))) = conv (mem_value e bs).
Proof.
  intros Hn. case_decide as He; [by rewrite He|]. unfold byteswap.
  rewrite conv_bytes.
  destruct e, host; try done; simpl; subst n; [|by rewrite le_bytes_value].
  by rewrite <- (length_rev bs), le_bytes_value, rev_involutive.
Qed.
End images.

(** ** What it means to write and to read back an image *)
Definition unread (b : ByteArray) : list byte := drop (m_position b) (content b).

(** [m] appends [img e] at the cursor of a buffer of byte order [e]. *)
Definition encodes (m : M ByteArray unit) (img : endian → list byte) : Prop :=
  ∀ b, wf b → ∃ b', m b = Ret tt b' ∧ wf b' ∧
    abs b' = Spec.put (img (m_endian b)) (abs b) ∧
    m_endian b' = m_endian b ∧ m_baseSize b' = m_baseSize b.

(** [m] consumes [img e] and returns [a]. When [z] is set [m] ends with a
    read of zero bytes, which needs a block under the cursor. *)
Definition decodes {A} (z : bool) (m : M ByteArray A) (img : endian → list byte) (a : A) : Prop :=
  ∀ b rest, wf b → unread b = img (m_endian b) ++ rest →
    (z = true → m_position b + length (img (m_endian b)) < m_capacity b) →
    ∃ b', m b = Ret a b' ∧ wf b' ∧
      abs b' = Spec.mkBuffer (content b) (m_position b + length (img (m_endian b))) ∧
      unread b' = rest ∧ m_endian b' = m_endian b ∧ m_baseSize b' = m_baseSize b ∧
      m_capacity b' = m_capacity b.

Section codecs.
Context (host : endian) (junk : nat → nat → byte).

Lemma length_unread b : wf b → length (unread b) = m_size b - m_position b.
Proof. intros. unfold unread. by rewrite length_drop, length_content. Qed.

(** [read] keeps the chain of blocks. *)
Lemma read_capacity n b bs b' : wf b → read n b = Ret bs b' → m_capacity b' = m_capacity b.
Proof.
  intros H. pose proof (read_spec n b H) as Hs. unfold read, cbind, cget in *.
  destruct (getReadSize b <? n) eqn:E; [done|].
  rewrite modBase_ret in * by done.
  pose proof (wf_position _ H). pose proof (wf_size _ H). pose proof (wf_capacity _ H) as Hc.
  apply Nat.ltb_ge in E. unfold getReadSize in E.
  destruct (decide (m_position b = m_capacity b)) as [Hpc|Hpc].
  { rewrite (wf_cur _ H). unfold cur_at. rewrite (proj2 (Nat.ltb_ge _ _)) by lia. done. }
  destruct (wf_cursor b H ltac:(lia)) as (i & nd & npos & Hcur & Hnd & <- & Hnpos & Hpos & Hlen).
  rewrite Hcur. cbn [node_at mbind option_bind]. rewrite Hnd. cbn [cderef cret]. rewrite Hlen.
  destruct (Nat.eq_dec n 0) as [->|Hn0]; [by intros [= <- <-]|].
  destruct (read_loop_spec n n npos [] b i nd) as (b2 & -> & ->);
    [apply H|apply H|done..|lia|lia|]. by intros [= <- <-].
Qed.

Lemma write_encodes (bs : list byte) : encodes (write junk bs) (λ _, bs).
Proof. intros b H. apply (write_spec junk bs b H). Qed.

Lemma read_decodes (bs : list byte) n :
  length bs = n → decodes (n =? 0) (read n) (λ _, bs) bs.
Proof.
  intros <- b rest H Hun Hz. pose proof (read_spec (length bs) b H) as Hs.
  unfold Spec.get, abs in Hs; simpl in Hs.
  pose proof (length_unread b H) as Hl. rewrite Hun, length_app in Hl.
  rewrite length_content, (proj2 (Nat.ltb_ge _ _)) in Hs by (done || lia).
  pose proof (wf_size _ H). pose proof (wf_position _ H).
  rewrite decide_False in Hs.
  2:{ destruct (Nat.eqb_spec (length bs) 0); [specialize (Hz eq_refl)|]; lia. }
  destruct Hs as (b' & Hr & H' & Ha & He & Hb).
  fold (unread b) in *. rewrite Hun, take_app_length in Hr.
  exists b'. split_and!; auto; [|by eapply read_capacity].
  unfold abs in Ha. injection Ha as Hc Hp.
  unfold unread in *. rewrite Hc, Hp, <- drop_drop, Hun. apply drop_app_length.
Qed.

Lemma encodes_bind m1 m2 i1 i2 :
  encodes m1 i1 → encodes m2 i2 →
  encodes (let! _ := m1 in m2) (λ e, i1 e ++ i2 e).
Proof.
  intros H1 H2 b H. destruct (H1 b H) as (b1 & Hr1 & Hw1 & Ha1 & He1 & Hb1).
  destruct (H2 b1 Hw1) as (b2 & Hr2 & Hw2 & Ha2 & He2 & Hb2).
  exists b2. rewrite (cbind_Ret _ _ _ _ _ Hr1). split_and!; auto; [|congruence..].
  rewrite Ha2, Ha1, He1. apply Spec.write_app. unfold abs; simpl.
  rewrite length_content by done. by apply wf_position.
Qed.

Lemma decodes_bind {A B} z1 z2 (m1 : M ByteArray A) (k : A → M ByteArray B) i1 i2 a c :
  decodes z1 m1 i1 a → decodes z2 (k a) i2 c → (∀ e, i2 e ≠ []) →
  decodes z2 (cbind m1 k) (λ e, i1 e ++ i2 e) c.
Proof.
  intros H1 H2 Hne b rest H Hun Hz. rewrite length_app, <- (assoc_L (++)) in *.
  pose proof (length_unread b H) as Hl. rewrite Hun, !length_app in Hl.
  pose proof (wf_size _ H).
  assert (0 < length (i2 (m_endian b))) by (specialize (Hne (m_endian b)); destruct (i2 _); simpl; [done|lia]).
  destruct (H1 b _ H Hun) as (b1 & Hr1 & Hw1 & Ha1 & Hu1 & He1 & Hb1 & Hc1); [lia|].
  rewrite <- He1 in Hu1. injection Ha1 as Hd1 Hp1.
  destruct (H2 b1 _ Hw1 Hu1) as (b2 & Hr2 & Hw2 & Ha2 & Hu2 & He2 & Hb2 & Hc2).
  { intros Hz2. specialize (Hz Hz2). rewrite He1, Hp1, Hc1. lia. }
  exists b2. rewrite (cbind_Ret _ _ _ _ _ Hr1). split_and!; auto; [|congruence..].
  rewrite Ha2, Hd1, Hp1, He1. f_equal. lia.
Qed.

Lemma decodes_ret {A B} z (m : M ByteArray A) (f : A → B) i a :
  decodes z m i a → decodes z (let! x := m in cret (f x)) i (f a).
Proof.
  intros H b rest Hw Hun Hz. destruct (H b rest Hw Hun Hz) as (b' & Hr & ?).
  exists b'. by rewrite (cbind_Ret _ _ _ _ _ Hr).
Qed.

Lemma encodes_ext m i j : (∀ e, i e = j e) → encodes m i → encodes m j.
Proof. intros E H b Hw. rewrite <- E. by apply H. Qed.

Lemma decodes_ext {A} z (m : M ByteArray A) i j a :
  (∀ e, i e = j e) → decodes z m i a → decodes z m j a.
Proof. intros E H b rest Hw. rewrite <- E. by apply H. Qed.
End codecs.

(** ** The interface: a writer and the reader that undoes it *)
Class Codec {A} (enc : A → M ByteArray unit) (dec : M ByteArray A) := {
  codec_valid : A → Prop;
  codec_image : endian → A → list byte;
  (** the reader ends with a read of zero bytes *)
  codec_empty : A → bool;
  codec_nonempty e a : codec_image e a ≠ [];
  codec_encodes a : codec_valid a → encodes (enc a) (λ e, codec_image e a);
  codec_decodes a : codec_valid a → decodes (codec_empty a) dec (λ e, codec_image e a) a
}.

(** Writing [a], rewinding and reading gives [a] back, with the cursor where
    the write left it. *)
Definition roundtrips {A} (enc : A → M ByteArray unit) (dec : M ByteArray A) (P : A → Prop) : Prop :=
  ∀ a b, P a → wf b →
    ∃ b', (let! _ := enc a in let! _ := setPosition (m_position b) in dec) b = Ret a b' ∧
      wf b' ∧ m_endian b' = m_endian b ∧
      ∃ img, abs b' = Spec.put img (abs b).

Section interface.
Context {A} (enc : A → M ByteArray unit) (dec : M ByteArray A) `{!Codec enc dec}.

Lemma codec_roundtrips :
  roundtrips enc dec (λ a, codec_valid a ∧ codec_empty a = false).
Proof.
  intros a b [Hv Hz] H. destruct (codec_encodes a Hv b H) as (b1 & Hr1 & Hw1 & Ha1 & He1 & Hb1).
  rewrite (cbind_Ret _ _ _ _ _ Hr1).
  injection Ha1 as Hc1 Hp1. pose proof (wf_position _ H) as Hpos.
  pose proof (wf_position _ Hw1) as Hpos1.
  destruct (setPosition_seek (m_position b) b1 Hw1) as (b2 & Hr2 & Hw2 & Ha2 & He2 & _ & _); [lia|].
  rewrite (cbind_Ret _ _ _ _ _ Hr2). injection Ha2 as Hc2 Hp2.
  assert (Hun : unread b2 = codec_image (m_endian b2) a
            ++ drop (m_position b + length (codec_image (m_endian b2) a)) (content b)).
  { unfold unread. rewrite Hc2, Hp2, Hc1, He2, He1. unfold overwrite. simpl.
    apply drop_app_length'. rewrite length_take, length_content by done. lia. }
  destruct (codec_decodes a Hv b2 _ Hw2 Hun) as (b3 & Hr3 & Hw3 & Ha3 & _ & He3 & _ & _);
    [congruence|].
  exists b3. split_and!; [done|done|congruence|]. exists (codec_image (m_endian b) a).
  rewrite Ha3, Hc2, Hc1, Hp2, He2, He1. done.
Qed.
End interface.

Lemma roundtrips_weaken {A} enc dec (P Q : A → Prop) :
  (∀ a, Q a → P a) → roundtrips enc dec P → roundtrips enc dec Q.
Proof. intros HPQ H a b Ha. apply H. by apply HPQ. Qed.

Section fixed.
Context (host : endian) (junk : nat → nat → byte).

Lemma image_ne e n v : 0 < n → mem_image e n v ≠ [].
Proof. intros Hn E. apply (f_equal length) in E. rewrite length_mem_image in E. simpl in E. lia. Qed.

Lemma write_fixed_encodes n conv `{!IntConv n conv} v :
  encodes (write_fixed host junk n conv v) (λ e, mem_image e n v).
Proof.
  intros b H. unfold write_fixed, cbind, cget. rewrite image_swap by done.
  by apply write_encodes.
Qed.

Lemma read_fixed_decodes n conv `{!IntConv n conv} v :
  0 < n → conv v = v →
  decodes false (read_fixed host n conv) (λ e, mem_image e n v) v.
Proof.
  intros Hn Hv b rest H Hun _.
  destruct (read_decodes (mem_image (m_endian b) n v) n (length_mem_image _ _ _) b rest H Hun)
    as (b' & Hr & Hw & Ha & Hu & He & Hb & Hc).
  { rewrite (proj2 (Nat.eqb_neq _ _)) by lia. done. }
  exists b'. split_and!; auto. unfold read_fixed. rewrite (cbind_Ret _ _ _ _ _ Hr).
  unfold cbind, cget, cret. f_equal. rewrite value_swap by (done || apply length_mem_image).
  rewrite He, mem_value_image, conv_wrap. done.
Qed.

#[export] Instance fixed_codec n conv `{!IntConv (S n) conv} :
  Codec (write_fixed host junk (S n) conv) (read_fixed host (S n) conv) := {|
  codec_valid v := conv v = v;
  codec_image e v := mem_image e (S n) v;
  codec_empty _ := false;
  codec_nonempty e v := image_ne e (S n) v ltac:(lia);
  codec_encodes v _ := write_fixed_encodes (S n) conv v;
  codec_decodes v Hv := read_fixed_decodes (S n) conv v ltac:(lia) Hv
|}.

(** One byte: no swap. *)
Lemma one_byte_image e h v : mem_image e 1 v = mem_image h 1 v.
Proof. by destruct e, h. Qed.

Lemma one_byte_decodes conv `{!IntConv 1 conv} v :
  conv v = v →
  decodes false (let! bs := read 1 in cret (conv (mem_value host bs))) (λ e, mem_image e 1 v) v.
Proof.
  intros Hv.
  pose proof (decodes_ret false (read 1) (λ bs, conv (mem_value host bs))
                (λ e, mem_image e 1 v) (mem_image host 1 v)) as Hd.
  cbv beta in Hd. rewrite mem_value_image, conv_wrap, Hv in Hd. apply Hd.
  apply decodes_ext with (λ _, mem_image host 1 v); [intros e; apply one_byte_image|].
  apply (read_decodes _ 1). apply length_mem_image.
Qed.

Lemma one_byte_encodes v : encodes (write junk (mem_image host 1 v)) (λ e, mem_image e 1 v).
Proof.
  apply encodes_ext with (λ _, mem_image host 1 v); [intros e; apply one_byte_image|].
  apply write_encodes.
Qed.

#[export] Instance fuint8_codec : Codec (writeFuint8 host junk) (readFuint8 host) := {|
  codec_valid v := u8 v = v;
  codec_image e v := mem_image e 1 v;
  codec_empty _ := false;
  codec_nonempty e v := image_ne e 1 v ltac:(lia);
  codec_encodes v _ := one_byte_encodes v;
  codec_decodes v Hv := one_byte_decodes u8 v Hv
|}.
#[export] Instance fint8_codec : Codec (writeFint8 host junk) (readFint8 host) := {|
  codec_valid v := i8 v = v;
  codec_image e v := mem_image e 1 v;
  codec_empty _ := false;
  codec_nonempty e v := image_ne e 1 v ltac:(lia);
  codec_encodes v _ := one_byte_encodes v;
  codec_decodes v Hv := one_byte_decodes i8 v Hv
|}.
End fixed.

(** ** Base-128 integers *)
Section varints.
Context (host : endian) (junk : nat → nat → byte).

Lemma readFuint8_decodes c : decodes false (readFuint8 host) (λ _, [c]) (Z_of_byte c).
Proof.
  assert (Hc : u8 (Z_of_byte c) = Z_of_byte c) by apply uwrap_id, Z_of_byte_range.
  apply decodes_ext with (λ e, mem_image e 1 (Z_of_byte c)).
  { intros e. by destruct e; simpl; rewrite byte_of_Z_of_byte. }
  by apply (one_byte_decodes host u8).
Qed.

Lemma decodes_last {A B} z (m : M ByteArray A) (k : A → M ByteArray B) i a c :
  decodes z m i a → k a = cret c → decodes z (cbind m k) i c.
Proof.
  intros H Hk b rest Hw Hun Hz. destruct (H b rest Hw Hun Hz) as (b' & Hr & ?).
  exists b'. by rewrite (cbind_Ret _ _ _ _ _ Hr), Hk.
Qed.

Lemma pow7_succ n : (2 ^ (7 * Z.of_nat (S n)) = 128 * 2 ^ (7 * Z.of_nat n))%Z.
Proof.
  replace (7 * Z.of_nat (S n))%Z with (7 + 7 * Z.of_nat n)%Z by lia.
  by rewrite Z.pow_add_r by lia.
Qed.

(** The continuation bit is an addition, and masks off again. *)
Lemma cont_byte v : (0 ≤ v)%Z →
  Z_of_byte (byte_of_Z (Z.lor (Z.land v 127) 128)) = (v mod 128 + 128)%Z ∧
  Z.land (v mod 128 + 128) 127 = (v mod 128)%Z.
Proof.
  intros Hv. pose proof (Z.mod_pos_bound v 128 ltac:(lia)).
  change 127%Z with (Z.ones 7). rewrite !Z.land_ones by lia. change (2 ^ 7)%Z with 128%Z.
  split.
  - pose proof (lor_shiftl_add 7 (v mod 128) 1 ltac:(lia)) as Hl.
    change (Z.shiftl 1 7) with 128%Z in Hl. rewrite Hl by (change (2 ^ 7)%Z with 128%Z; lia).
    rewrite Z_of_byte_of_Z. apply uwrap_id. unfold in_u. change (2 ^ 7)%Z with 128%Z.
    change (2 ^ 8)%Z with 256%Z. lia.
  - replace (v mod 128 + 128)%Z with (v mod 128 + 1 * 128)%Z by lia.
    rewrite Z.mod_add, Z.mod_mod by lia. done.
Qed.

(** Adding the 7 bits of [x] at bit [i]. *)
Lemma accumulate w i result x :
  (0 ≤ i → 0 ≤ result < 2 ^ i → 0 ≤ x → x * 2 ^ i < 2 ^ w →
   Z.lor result (uwrap w (Z.shiftl x i)) = result + x * 2 ^ i)%Z.
Proof.
  intros Hi Hr Hx Hw. rewrite uwrap_id.
  - by apply lor_shiftl_add.
  - unfold in_u. rewrite Z.shiftl_mul_pow2 by done.
    pose proof (Z.pow_pos_nonneg 2 i ltac:(lia) Hi). nia.
Qed.

Lemma varint_loop_spec room v :
  (0 < room)%nat → (0 ≤ v < 2 ^ (7 * Z.of_nat room))%Z →
  ∃ bs, varint_loop room v = Some bs ∧ 0 < length bs ≤ room ∧
    ∀ w iters i result, room ≤ iters → (0 ≤ i)%Z → (0 ≤ result < 2 ^ i)%Z →
      (v * 2 ^ i < 2 ^ w)%Z →
      decodes false (unvarint_loop host (uwrap w) iters i result) (λ _, bs)
        (result + v * 2 ^ i)%Z.
Proof.
  revert v. induction room as [|room IH]; intros v Hroom Hv; [lia|].
  rewrite pow7_succ in Hv. cbn [varint_loop].
  destruct (Z.leb_spec 128 v) as [Hbig|Hsmall].
  - pose proof (Z.mod_pos_bound v 128 ltac:(lia)) as Hm.
    pose proof (Z.div_mod v 128 ltac:(lia)) as Hdm.
    destruct (cont_byte v ltac:(lia)) as [Hc Hc'].
    rewrite Z.shiftr_div_pow2 by lia. change (2 ^ 7)%Z with 128%Z.
    assert (0 < room) by (destruct room; [simpl in Hv; lia|lia]).
    destruct (IH (v / 128)%Z) as (bs & Hbs & Hlen & Hdec); [done|lia|].
    rewrite Hbs. eexists. split_and!; [done|simpl; lia|simpl; lia|].
    intros w [|iters] i result Hit Hi Hr Hw; [lia|]. cbn [unvarint_loop].
    pose proof (Z.pow_pos_nonneg 2 i ltac:(lia) Hi) as Hpi.
    apply (decodes_bind false false _ _ (λ _, [_]) (λ _, bs) _ _ (readFuint8_decodes _)).
    2:{ intros _ ->. simpl in Hlen. lia. }
    rewrite Hc, (proj2 (Z.ltb_ge _ _)), Hc', accumulate by nia.
    replace (result + v * 2 ^ i)%Z
      with (result + v mod 128 * 2 ^ i + v / 128 * 2 ^ (i + 7))%Z
      by (rewrite Z.pow_add_r by lia; change (2 ^ 7)%Z with 128%Z; nia).
    apply Hdec; [lia|lia| |]; rewrite Z.pow_add_r by lia; change (2 ^ 7)%Z with 128%Z; nia.
  - eexists. split_and!; [done|simpl; lia|simpl; lia|].
    intros w [|iters] i result Hit Hi Hr Hw; [lia|]. cbn [unvarint_loop].
    assert (Hb : Z_of_byte (byte_of_Z v) = v)
      by (rewrite Z_of_byte_of_Z; apply uwrap_id; unfold in_u; change (2 ^ 8)%Z with 256%Z; lia).
    apply (decodes_last _ _ _ _ _ _ (readFuint8_decodes _)).
    rewrite Hb, (proj2 (Z.ltb_lt _ _)), accumulate by (done || lia). done.
Qed.

Definition varint_image (room : nat) (v : Z) : list byte := default [x00] (varint_loop room v).

Lemma varint_image_ne room v : varint_image room v ≠ [].
Proof.
  unfold varint_image. destruct (varint_loop room v) as [bs|] eqn:E; [|done]. simpl.
  destruct room as [|room]; [done|]. cbn [varint_loop] in E.
  destruct (128 <=? v)%Z; [|by simplify_eq].
  destruct (varint_loop room _); by simplify_eq/=.
Qed.

(** Both widths at once: [room] bytes are enough and are read back. *)
Lemma varint_encodes room w v :
  (0 < room)%nat → (w ≤ 7 * Z.of_nat room)%Z → in_u w v →
  encodes (let! tmp := cinbounds (varint_loop room v) in write junk tmp) (λ _, varint_image room v).
Proof.
  intros Hroom Hw Hv. destruct (varint_loop_spec room v) as (bs & Hbs & _); [done| |].
  { unfold in_u in Hv. pose proof (Z.pow_le_mono_r 2 w (7 * Z.of_nat room)). lia. }
  intros b H. unfold varint_image. rewrite Hbs. simpl. by apply write_encodes.
Qed.

Lemma varint_decodes room w v :
  (0 < room)%nat → (w ≤ 7 * Z.of_nat room)%Z → in_u w v →
  decodes false (unvarint_loop host (uwrap w) room 0 0) (λ _, varint_image room v) v.
Proof.
  intros Hroom Hw Hv. destruct (varint_loop_spec room v) as (bs & Hbs & _ & Hd); [done| |].
  { unfold in_u in Hv. pose proof (Z.pow_le_mono_r 2 w (7 * Z.of_nat room)). lia. }
  unfold varint_image. rewrite Hbs. simpl.
  pose proof (Hd w room 0%Z 0%Z ltac:(lia) ltac:(lia) ltac:(lia)) as H.
  rewrite Z.add_0_l, Z.mul_1_r in H. apply H. apply Hv.
Qed.

#[export] Instance uint32_codec : Codec (writeUint32 junk) (readUint32 host) := {|
  codec_valid := in_u 32;
  codec_image _ v := varint_image 5 v;
  codec_empty _ := false;
  codec_nonempty _ v := varint_image_ne 5 v;
  codec_encodes v Hv := varint_encodes 5 32 v ltac:(lia) ltac:(lia) Hv;
  codec_decodes v Hv := varint_decodes 5 32 v ltac:(lia) ltac:(lia) Hv
|}.
#[export] Instance uint64_codec : Codec (writeUint64 junk) (readUint64 host) := {|
  codec_valid := in_u 64;
  codec_image _ v := varint_image 10 v;
  codec_empty _ := false;
  codec_nonempty _ v := varint_image_ne 10 v;
  codec_encodes v Hv := varint_encodes 10 64 v ltac:(lia) ltac:(lia) Hv;
  codec_decodes v Hv := varint_decodes 10 64 v ltac:(lia) ltac:(lia) Hv
|}.
End varints.

(** ** Zigzag *)
Section zigzag.
Local Open Scope Z_scope.

(** The two widths of the encoder and of the decoder, and what the encoder
    computes where it is defined. *)
Definition zigzag_enc (w v : Z) : option Z :=
  if v <? 0 then (λ n, uwrap w (uwrap w n * 2 - 1)) <$> signed w (- v) else uwrap w <$> signed w (v * 2).
Definition zigzag_dec (w v : Z) : Z :=
  swrap w (Z.lxor (Z.shiftr v 1) (uwrap w (- Z.land v 1))).
Definition zigzag (v : Z) : Z := if v <? 0 then - 2 * v - 1 else 2 * v.
(** The values whose encoding does not overflow the signed type. *)
Definition encodable (w v : Z) : Prop := - 2 ^ (w - 1) < v < 2 ^ (w - 2).

Lemma pow_quarter w : 1 < w → 2 ^ (w - 1) = 2 * 2 ^ (w - 2).
Proof. intros. rewrite <- Z.pow_succ_r by lia. f_equal. lia. Qed.
Lemma zigzag_enc_value w v : 1 < w → encodable w v → zigzag_enc w v = Some (zigzag v).
Proof.
  intros Hw Hv. unfold zigzag_enc, zigzag, encodable, signed in *.
  pose proof (pow_half w ltac:(lia)) as Hp. pose proof (pow_quarter w Hw) as Hq.
  destruct (Z.ltb_spec v 0).
  - rewrite (proj2 (Z.leb_le _ _)), (proj2 (Z.ltb_lt _ _)) by lia. cbn [andb fmap option_fmap option_map].
    rewrite (uwrap_id w (- v)), uwrap_id by (unfold in_u; lia). f_equal. lia.
  - rewrite (proj2 (Z.leb_le _ _)), (proj2 (Z.ltb_lt _ _)) by lia. cbn [andb fmap option_fmap option_map].
    rewrite uwrap_id by (unfold in_u; lia). f_equal. lia.
Qed.
Lemma zigzag_enc_overflow w v : 1 < w → in_s w v → ¬ encodable w v → zigzag_enc w v = None.
Proof.
  intros Hw Hv Hne. unfold zigzag_enc, encodable, signed, in_s in *. pose proof (pow_quarter w Hw) as Hq.
  destruct (Z.ltb_spec v 0).
  - rewrite (proj2 (Z.ltb_ge (- v) _)) by lia. by rewrite andb_false_r.
  - rewrite (proj2 (Z.ltb_ge (v * 2) _)) by lia. by rewrite andb_false_r.
Qed.
Lemma encodable_in_s w v : 1 < w → encodable w v → in_s w v.
Proof. intros Hw. unfold encodable, in_s. pose proof (pow_quarter w Hw). lia. Qed.
Lemma zigzag_range w v : 1 < w → in_s w v → in_u w (zigzag v).
Proof.
  intros Hw Hv. unfold zigzag, in_s, in_u in *. pose proof (pow_half w ltac:(lia)) as Hp.
  destruct (Z.ltb_spec v 0); lia.
Qed.

Lemma zigzag_inverse w v : 1 < w → in_s w v → zigzag_dec w (zigzag v) = v.
Proof.
  intros Hw Hv. unfold zigzag, zigzag_dec, in_s in *.
  pose proof (pow_half w ltac:(lia)) as Hp.
  rewrite Z.shiftr_div_pow2 by lia. change (2 ^ 1) with 2.
  pose proof (Z.land_ones (if v <? 0 then - 2 * v - 1 else 2 * v) 1 ltac:(lia)) as Hl.
  change (Z.ones 1) with 1 in Hl. rewrite Hl. change (2 ^ 1) with 2.
  destruct (Z.ltb_spec v 0).
  - replace (- 2 * v - 1) with (1 + (- v - 1) * 2) by lia.
    rewrite Z.div_add, Z.mod_add by lia. change (1 / 2) with 0. change (1 mod 2) with 1.
    replace (uwrap w (- (1))) with (Z.ones w).
    2:{ unfold uwrap. rewrite Z.ones_equiv.
        apply (Z.mod_unique _ _ (-1)); [left|]; lia. }
    rewrite lxor_ones by (unfold in_u; lia). rewrite Z.ones_equiv.
    rewrite swrap_big by lia. lia.
  - rewrite Z.mul_comm, Z.div_mul, Z.mod_mul by lia. simpl.
    unfold uwrap. rewrite Z.mod_0_l by lia. rewrite Z.lxor_0_r.
    apply swrap_small; lia.
Qed.

End zigzag.

Section signed_varints.
Context (host : endian) (junk : nat → nat → byte).

Lemma int32_encodes v :
  encodable 32 v → encodes (writeInt32 junk v) (λ _, varint_image 5 (zigzag v)).
Proof.
  intros Hv b Hb. unfold writeInt32.
  assert (He : coverflow (EncodeZigzag32 v) b = Ret (zigzag v) b).
  { change (EncodeZigzag32 v) with (zigzag_enc 32 v). by rewrite zigzag_enc_value. }
  rewrite (cbind_Ret _ _ _ _ _ He). revert b Hb He. intros b Hb _.
  apply (varint_encodes host junk 5 32); [lia|lia| |done]. apply zigzag_range; [lia|by apply encodable_in_s].
Qed.

Lemma int32_decodes v :
  encodable 32 v → decodes false (readInt32 host) (λ _, varint_image 5 (zigzag v)) v.
Proof.
  intros Hv%encodable_in_s; [|lia].
  pose proof (decodes_ret false (readUint32 host) DecodeZigzag32 _ (zigzag v)
                (varint_decodes host 5 32 _ ltac:(lia) ltac:(lia)
                   (zigzag_range 32 v ltac:(lia) Hv))) as Hd.
  change (DecodeZigzag32 (zigzag v)) with (zigzag_dec 32 (zigzag v)) in Hd.
  by rewrite zigzag_inverse in Hd.
Qed.

Lemma int64_encodes v :
  encodable 64 v → encodes (writeInt64 junk v) (λ _, varint_image 10 (zigzag v)).
Proof.
  intros Hv b Hb. unfold writeInt64.
  assert (He : coverflow (EncodeZigzag64 v) b = Ret (zigzag v) b).
  { change (EncodeZigzag64 v) with (zigzag_enc 64 v). by rewrite zigzag_enc_value. }
  rewrite (cbind_Ret _ _ _ _ _ He). revert b Hb He. intros b Hb _.
  apply (varint_encodes host junk 10 64); [lia|lia| |done]. apply zigzag_range; [lia|by apply encodable_in_s].
Qed.

Lemma int64_decodes v :
  encodable 64 v → decodes false (readInt64 host) (λ _, varint_image 10 (zigzag v)) v.
Proof.
  intros Hv%encodable_in_s; [|lia].
  pose proof (decodes_ret false (readUint64 host) DecodeZigzag64 _ (zigzag v)
                (varint_decodes host 10 64 _ ltac:(lia) ltac:(lia)
                   (zigzag_range 64 v ltac:(lia) Hv))) as Hd.
  change (DecodeZigzag64 (zigzag v)) with (zigzag_dec 64 (zigzag v)) in Hd.
  by rewrite zigzag_inverse in Hd.
Qed.

#[export] Instance int32_codec : Codec (writeInt32 junk) (readInt32 host) := {|
  codec_valid := encodable 32;
  codec_image _ v := varint_image 5 (zigzag v);
  codec_empty _ := false;
  codec_nonempty _ v := varint_image_ne 5 _;
  codec_encodes := int32_encodes;
  codec_decodes := int32_decodes
|}.
#[export] Instance int64_codec : Codec (writeInt64 junk) (readInt64 host) := {|
  codec_valid := encodable 64;
  codec_image _ v := varint_image 10 (zigzag v);
  codec_empty _ := false;
  codec_nonempty _ v := varint_image_ne 10 _;
  codec_encodes := int64_encodes;
  codec_decodes := int64_decodes
|}.
End signed_varints.

(** ** Length-prefixed strings *)
Section strings.
Context (host : endian) (junk : nat → nat → byte).

Lemma read_len_decodes (s : list byte) :
  decodes (length s =? 0) (read_len (ssize s)) (λ _, s) s.
Proof.
  intros b rest H Hun Hz. unfold read_len, cbind, cget, ssize.
  pose proof (length_unread b H) as Hl. rewrite Hun, length_app in Hl.
  rewrite (proj2 (Z.ltb_ge _ _)), Nat2Z.id by (unfold getReadSize; lia).
  by apply (read_decodes s (length s) eq_refl b rest).
Qed.

(** Any length codec gives a string codec. *)
Lemma string_encodes (wlen : Z → M ByteArray unit) (ilen : endian → list byte) s :
  encodes (wlen (ssize s)) ilen →
  encodes (let! _ := wlen (ssize s) in write junk s) (λ e, ilen e ++ s).
Proof. intros H. apply encodes_bind; [done|]. apply write_encodes. Qed.

Lemma string_decodes (rlen : M ByteArray Z) (ilen : endian → list byte) s :
  decodes false rlen ilen (ssize s) →
  decodes (length s =? 0) (let! len := rlen in read_len len) (λ e, ilen e ++ s) s.
Proof.
  intros H. destruct (decide (s = [])) as [->|Hs].
  - intros b rest Hw Hun Hz. rewrite app_nil_r in *. specialize (Hz eq_refl).
    destruct (H b rest Hw Hun) as (b1 & Hr1 & Hw1 & Ha1 & Hu1 & He1 & Hb1 & Hc1); [done|].
    injection Ha1 as Hd1 Hp1.
    destruct (read_len_decodes [] b1 rest Hw1 Hu1) as (b2 & Hr2 & Hw2 & Ha2 & Hu2 & He2 & Hb2 & Hc2).
    { intros _. simpl. lia. }
    exists b2. rewrite (cbind_Ret _ _ _ _ _ Hr1). split_and!; auto; [|congruence..].
    rewrite Ha2, Hd1, Hp1. simpl. f_equal. lia.
  - apply (decodes_bind false _ _ _ ilen (λ _, s) _ _ H); [apply read_len_decodes|done].
Qed.

Lemma ssize_fits w s : (Z.of_nat (length s) < 2 ^ w)%Z → uwrap w (ssize s) = ssize s.
Proof. intros. apply uwrap_id. unfold in_u, ssize. lia. Qed.
End strings.

Section string_codecs.
Context (host : endian) (junk : nat → nat → byte).

Definition fits (w : Z) (s : list byte) : Prop := (Z.of_nat (length s) < 2 ^ w)%Z.

Lemma string_image_ne (i s : list byte) : i ≠ [] → i ++ s ≠ [].
Proof. by destruct i. Qed.

Lemma stringF16_encodes s :
  fits 16 s → encodes (writeStringF16 host junk s) (λ e, mem_image e 2 (ssize s) ++ s).
Proof.
  intros Hs. unfold writeStringF16. rewrite ssize_fits by done.
  apply (string_encodes junk (writeFuint16 host junk)), write_fixed_encodes, _.
Qed.
Lemma stringF16_decodes s :
  fits 16 s → decodes (length s =? 0) (readStringF16 host) (λ e, mem_image e 2 (ssize s) ++ s) s.
Proof.
  intros Hs. apply string_decodes, read_fixed_decodes; [apply _|lia|by apply ssize_fits].
Qed.
Lemma stringF32_encodes s :
  fits 32 s → encodes (writeStringF32 host junk s) (λ e, mem_image e 4 (ssize s) ++ s).
Proof.
  intros Hs. unfold writeStringF32. rewrite ssize_fits by done.
  apply (string_encodes junk (writeFuint32 host junk)), write_fixed_encodes, _.
Qed.
Lemma stringF32_decodes s :
  fits 32 s → decodes (length s =? 0) (readStringF32 host) (λ e, mem_image e 4 (ssize s) ++ s) s.
Proof.
  intros Hs. apply string_decodes, read_fixed_decodes; [apply _|lia|by apply ssize_fits].
Qed.
Lemma stringF64_encodes s :
  fits 64 s → encodes (writeStringF64 host junk s) (λ e, mem_image e 8 (ssize s) ++ s).
Proof.
  intros Hs. unfold writeStringF64. rewrite ssize_fits by done.
  apply (string_encodes junk (writeFuint64 host junk)), write_fixed_encodes, _.
Qed.
Lemma stringF64_decodes s :
  fits 64 s → decodes (length s =? 0) (readStringF64 host) (λ e, mem_image e 8 (ssize s) ++ s) s.
Proof.
  intros Hs. apply string_decodes, read_fixed_decodes; [apply _|lia|by apply ssize_fits].
Qed.
Lemma stringVint_encodes s :
  fits 64 s → encodes (writeStringVint junk s) (λ _, varint_image 10 (ssize s) ++ s).
Proof.
  intros Hs. unfold writeStringVint. rewrite ssize_fits by done.
  apply (string_encodes junk (writeUint64 junk)), (varint_encodes host junk 10 64); [lia|lia|].
  unfold in_u, ssize, fits in *. lia.
Qed.
Lemma stringVint_decodes s :
  fits 64 s → decodes (length s =? 0) (readStringVint host) (λ _, varint_image 10 (ssize s) ++ s) s.
Proof.
  intros Hs. apply string_decodes, (varint_decodes host 10 64); [lia|lia|].
  unfold in_u, ssize, fits in *. lia.
Qed.

#[export] Instance stringF16_codec : Codec (writeStringF16 host junk) (readStringF16 host) := {|
  codec_valid := fits 16;
  codec_image e s := mem_image e 2 (ssize s) ++ s;
  codec_empty s := length s =? 0;
  codec_nonempty e s := string_image_ne _ _ (image_ne e 2 _ ltac:(lia));
  codec_encodes := stringF16_encodes; codec_decodes := stringF16_decodes
|}.
#[export] Instance stringF32_codec : Codec (writeStringF32 host junk) (readStringF32 host) := {|
  codec_valid := fits 32;
  codec_image e s := mem_image e 4 (ssize s) ++ s;
  codec_empty s := length s =? 0;
  codec_nonempty e s := string_image_ne _ _ (image_ne e 4 _ ltac:(lia));
  codec_encodes := stringF32_encodes; codec_decodes := stringF32_decodes
|}.
#[export] Instance stringF64_codec : Codec (writeStringF64 host junk) (readStringF64 host) := {|
  codec_valid := fits 64;
  codec_image e s := mem_image e 8 (ssize s) ++ s;
  codec_empty s := length s =? 0;
  codec_nonempty e s := string_image_ne _ _ (image_ne e 8 _ ltac:(lia));
  codec_encodes := stringF64_encodes; codec_decodes := stringF64_decodes
|}.
#[export] Instance stringVint_codec : Codec (writeStringVint junk) (readStringVint host) := {|
  codec_valid := fits 64;
  codec_image _ s := varint_image 10 (ssize s) ++ s;
  codec_empty s := length s =? 0;
  codec_nonempty _ s := string_image_ne _ _ (varint_image_ne 10 _);
  codec_encodes := stringVint_encodes; codec_decodes := stringVint_decodes
|}.
End string_codecs.

(** ** Readers on arbitrary data *)

(** On any well-formed buffer with a block under the end of its data, [m]
    returns or throws [out_of_range]; it never changes the data. *)
Definition reads_safely {A} (m : M ByteArray A) : Prop :=
  ∀ b, wf b → m_size b < m_capacity b →
    ∃ b', (m b = Exn OutOfRange b' ∨ ∃ a, m b = Ret a b') ∧ wf b' ∧
      content b' = content b ∧ m_position b ≤ m_position b' ∧
      m_capacity b' = m_capacity b ∧ m_endian b' = m_endian b.

Section safety.
Context (host : endian).

Lemma read_safe n : reads_safely (read n).
Proof.
  intros b H Hr. pose proof (read_spec n b H) as Hs. pose proof (wf_position _ H).
  destruct (Spec.get n (abs b)) as [[bs f]|] eqn:E.
  - rewrite decide_False in Hs by lia. destruct Hs as (b' & Hrun & Hw & Ha & He & Hb).
    exists b'. unfold Spec.get in E. destruct (_ <? n); [done|]. injection E as <- <-.
    unfold abs in Ha. injection Ha as Hc Hp. simpl in *.
    split_and!; eauto; [lia|by eapply read_capacity].
  - exists b. split_and!; eauto.
Qed.

Lemma bind_safe {A B} (m : M ByteArray A) (k : A → M ByteArray B) :
  reads_safely m → (∀ a, reads_safely (k a)) → reads_safely (cbind m k).
Proof.
  intros Hm Hk b H Hr. destruct (Hm b H Hr) as (b1 & [E|[a E]] & H1 & Hc1 & Hp1 & Hcap1 & He1).
  - exists b1. rewrite (cbind_Exn _ _ _ _ _ E). split_and!; auto.
  - pose proof (length_content b H). pose proof (length_content b1 H1).
    destruct (Hk a b1 H1) as (b2 & ? & ? & ? & ? & ? & ?); [congruence|].
    exists b2. rewrite (cbind_Ret _ _ _ _ _ E). split_and!; auto; [congruence|lia|congruence..].
Qed.

Lemma ret_safe {A} (a : A) : reads_safely (cret a).
Proof. intros b H _. exists b. split_and!; eauto. Qed.
Lemma get_bind_safe {A} (k : ByteArray → M ByteArray A) :
  (∀ b, reads_safely (k b)) → reads_safely (cbind cget k).
Proof. intros Hk b H Hr. apply (Hk b b H Hr). Qed.
Lemma throw_safe {A} : reads_safely (cthrow (A:=A) OutOfRange).
Proof. intros b H _. exists b. split_and!; eauto. Qed.
End safety.

Create HintDb reads_safely.
#[export] Hint Resolve read_safe bind_safe ret_safe get_bind_safe throw_safe : reads_safely.

Section readers_safe.
Context (host : endian).

Lemma read_fixed_safe n conv : reads_safely (read_fixed host n conv).
Proof. unfold read_fixed. auto 10 with reads_safely. Qed.
Lemma readFuint8_safe : reads_safely (readFuint8 host).
Proof. unfold readFuint8. auto with reads_safely. Qed.
Lemma unvarint_loop_safe wrap iters i result : reads_safely (unvarint_loop host wrap iters i result).
Proof.
  revert i result. induction iters as [|iters IH]; intros i result; simpl; [apply ret_safe|].
  apply bind_safe; [apply readFuint8_safe|]. intros b. destruct (b <? 128)%Z; auto with reads_safely.
Qed.
Lemma read_len_safe len : reads_safely (read_len len).
Proof.
  unfold read_len. apply get_bind_safe. intros b.
  destruct (_ <? len)%Z; auto with reads_safely.
Qed.
End readers_safe.
#[export] Hint Resolve read_fixed_safe readFuint8_safe unvarint_loop_safe read_len_safe : reads_safely.

(** ** Properties of the typed interface *)
Section properties.
Context (host : endian) (junk : nat → nat → byte).

Lemma fixed_roundtrips n conv (P : Z → Prop) `{!IntConv (S n) conv} :
  (∀ v, P v → conv v = v) →
  roundtrips (write_fixed host junk (S n) conv) (read_fixed host (S n) conv) P.
Proof.
  intros HP. eapply roundtrips_weaken; [|apply (codec_roundtrips _ _)]. simpl. auto.
Qed.

(** every fixed-width writer is undone by its reader, for every value of
    its type, in both byte orders of the buffer and on both kinds of host. *)
Theorem fixed_width_roundtrips :
  roundtrips (writeFint8 host junk) (readFint8 host) (in_s 8) ∧
  roundtrips (writeFuint8 host junk) (readFuint8 host) (in_u 8) ∧
  roundtrips (writeFint16 host junk) (readFint16 host) (in_s 16) ∧
  roundtrips (writeFuint16 host junk) (readFuint16 host) (in_u 16) ∧
  roundtrips (writeFint32 host junk) (readFint32 host) (in_s 32) ∧
  roundtrips (writeFuint32 host junk) (readFuint32 host) (in_u 32) ∧
  roundtrips (writeFint64 host junk) (readFint64 host) (in_s 64) ∧
  roundtrips (writeFuint64 host junk) (readFuint64 host) (in_u 64) ∧
  roundtrips (writeFloat host junk) (readFloat host) (in_u 32) ∧
  roundtrips (writeDouble host junk) (readDouble host) (in_u 64).
Proof.
  split_and!;
    first
      [ apply (fixed_roundtrips _ _ _); intros v Hv; first [by apply uwrap_id | by apply swrap_id]
      | eapply roundtrips_weaken; [|apply (codec_roundtrips _ _)]; simpl; intros v Hv;
        split; [first [by apply uwrap_id | by apply swrap_id]|done] ].
Qed.

(** the bytes a fixed-width writer stores depend on the byte order of
    the buffer only: big-endian buffers hold the most significant byte
    first on every host. *)
Theorem fixed_width_wire_format n conv v b :
  IntConv n conv → wf b →
  ∃ b', write_fixed host junk n conv v b = Ret tt b' ∧ wf b' ∧
    abs b' = Spec.put (match m_endian b with
                         | LittleEndian => le_bytes n v
                         | BigEndian => rev (le_bytes n v)
                         end) (abs b).
Proof.
  intros Hc H. destruct (write_fixed_encodes host junk n conv v b H) as (b' & ? & ? & ? & _).
  exists b'. by destruct (m_endian b).
Qed.

(** C11: Variable-length integers are read back exactly: unsigned ones of both
    widths over the whole range of the type, signed ones where the zigzag
    encoding does not overflow the signed type, that is above the minimum and
    below 2^30, or 2^62; for every other value of the type the encoder
    negates or doubles out of range, which is undefined, before anything is
    written. The five- and ten-byte scratch arrays of the writers are never
    overrun. *)
Theorem varint_roundtrips :
  roundtrips (writeUint32 junk) (readUint32 host) (in_u 32) ∧
  roundtrips (writeUint64 junk) (readUint64 host) (in_u 64) ∧
  roundtrips (writeInt32 junk) (readInt32 host) (λ v, - 2 ^ 31 < v < 2 ^ 30)%Z ∧
  roundtrips (writeInt64 junk) (readInt64 host) (λ v, - 2 ^ 63 < v < 2 ^ 62)%Z ∧
  (∀ v b, in_s 32 v → ¬ (- 2 ^ 31 < v < 2 ^ 30)%Z → writeInt32 junk v b = Stuck SignedOverflow) ∧
  (∀ v b, in_s 64 v → ¬ (- 2 ^ 63 < v < 2 ^ 62)%Z → writeInt64 junk v b = Stuck SignedOverflow).
Proof.
  split_and!.
  1-4: (eapply roundtrips_weaken; [|apply (codec_roundtrips _ _)]); simpl; auto.
  - intros v b Hv Hn. unfold writeInt32. change (EncodeZigzag32 v) with (zigzag_enc 32 v).
    by rewrite (zigzag_enc_overflow 32 v).
  - intros v b Hv Hn. unfold writeInt64. change (EncodeZigzag64 v) with (zigzag_enc 64 v).
    by rewrite (zigzag_enc_overflow 64 v).
Qed.

(** a varint takes at most [room] bytes and at least one: five for 32
    bits, ten for 64. *)
Theorem varint_length room w v :
  0 < room → (w ≤ 7 * Z.of_nat room)%Z → in_u w v →
  ∃ bs, varint_loop room v = Some bs ∧ 0 < length bs ≤ room.
Proof.
  intros Hr Hw Hv. destruct (varint_loop_spec host room v) as (bs & ? & ? & _); [done| |eauto].
  unfold in_u in Hv. pose proof (Z.pow_le_mono_r 2 w (7 * Z.of_nat room)). lia.
Qed.

(** The zigzag encoding is inverted by the decoder and keeps small magnitudes
    small; the encoders are defined exactly above the minimum and below 2^30
    or 2^62. *)
Theorem zigzag_roundtrips v :
  (in_s 32 v → EncodeZigzag32 v = (if bool_decide (- 2 ^ 31 < v < 2 ^ 30)%Z then Some (zigzag v) else None) ∧
     DecodeZigzag32 (zigzag v) = v) ∧
  (in_s 64 v → EncodeZigzag64 v = (if bool_decide (- 2 ^ 63 < v < 2 ^ 62)%Z then Some (zigzag v) else None) ∧
     DecodeZigzag64 (zigzag v) = v).
Proof.
  split; intros Hv; split.
  - change (EncodeZigzag32 v) with (zigzag_enc 32 v). case_bool_decide; [by apply zigzag_enc_value|by apply zigzag_enc_overflow].
  - by apply (zigzag_inverse 32).
  - change (EncodeZigzag64 v) with (zigzag_enc 64 v). case_bool_decide; [by apply zigzag_enc_value|by apply zigzag_enc_overflow].
  - by apply (zigzag_inverse 64).
Qed.

(** non-empty strings that fit their length prefix are read back by all
    four string formats. *)
Theorem string_roundtrips :
  roundtrips (writeStringF16 host junk) (readStringF16 host) (λ s, s ≠ [] ∧ fits 16 s) ∧
  roundtrips (writeStringF32 host junk) (readStringF32 host) (λ s, s ≠ [] ∧ fits 32 s) ∧
  roundtrips (writeStringF64 host junk) (readStringF64 host) (λ s, s ≠ [] ∧ fits 64 s) ∧
  roundtrips (writeStringVint junk) (readStringVint host) (λ s, s ≠ [] ∧ fits 64 s).
Proof.
  split_and!; (eapply roundtrips_weaken; [|apply (codec_roundtrips _ _)]); simpl;
    intros s [Hne Hf]; (split; [done|]); by destruct s.
Qed.

(** the empty string is read back while a block is left under the
    cursor, and dereferences null when its length prefix ended the last
    block: [readStringVint] on data that ends there gets stuck. *)
Theorem empty_string_at_block_end b :
  wf b → unread b = [x00] →
  (m_size b < m_capacity b → ∃ b', readStringVint host b = Ret [] b' ∧ wf b') ∧
  (m_size b = m_capacity b → readStringVint host b = Stuck NullDeref).
Proof.
  intros H Hun. pose proof (length_unread b H) as Hl. rewrite Hun in Hl. simpl in Hl.
  split; intros Hc.
  - destruct (stringVint_decodes host [] ltac:(unfold fits; simpl; lia) b [] H) as (b' & Hr & Hw & _);
      [done|simpl; intros _; unfold varint_image; simpl; lia|eauto].
  - unfold readStringVint.
    destruct (varint_decodes host 10 64 0 ltac:(lia) ltac:(lia) ltac:(unfold in_u; lia) b [] H)
      as (b1 & Hr1 & Hw1 & Ha1 & Hu1 & He1 & _ & Hc1); [done|done|].
    injection Ha1 as Hd1 Hp1. change (length (varint_image 10 0)) with 1 in Hp1.
    rewrite (cbind_Ret _ _ _ _ _ Hr1). unfold read_len, cbind, cget.
    rewrite (proj2 (Z.ltb_ge _ _)) by lia.
    pose proof (read_spec 0 b1 Hw1) as Hs. unfold Spec.get in Hs.
    rewrite (proj2 (Nat.ltb_ge _ _)), decide_True in Hs by lia. done.
Qed.

(** the readers are safe on arbitrary data: on a well-formed buffer
    whose data does not fill the last block every typed reader returns or
    throws [out_of_range], never changes the data and never moves the
    cursor back. *)
Theorem readers_are_safe :
  reads_safely (readFint8 host) ∧ reads_safely (readFuint8 host) ∧
  reads_safely (readFint16 host) ∧ reads_safely (readFuint16 host) ∧
  reads_safely (readFint32 host) ∧ reads_safely (readFuint32 host) ∧
  reads_safely (readFint64 host) ∧ reads_safely (readFuint64 host) ∧
  reads_safely (readInt32 host) ∧ reads_safely (readUint32 host) ∧
  reads_safely (readInt64 host) ∧ reads_safely (readUint64 host) ∧
  reads_safely (readStringF16 host) ∧ reads_safely (readStringF32 host) ∧
  reads_safely (readStringF64 host) ∧ reads_safely (readStringVint host).
Proof.
  unfold readFint8, readFuint8, readFint16, readFuint16, readFint32, readFuint32, readFint64,
    readFuint64, readInt32, readUint32, readInt64, readUint64, readStringF16, readStringF32,
    readStringF64, readStringVint, readUint64, readFuint16, readFuint32, readFuint64.
  split_and!; auto with reads_safely.
Qed.
End properties.

Lemma fixed_width_wire_format_witness :
  wf ba_ex ∧ ∃ b', write_fixed LittleEndian junk0 2 u16 0x1234 ba_ex = Ret tt b' ∧
    content b' = [x01; x12; x34; x04].
Proof.
  split; [apply ba_ex_wf|].
  destruct (fixed_width_wire_format LittleEndian junk0 2 u16 0x1234 ba_ex u16_conv ba_ex_wf)
    as (b' & Hr & _ & Ha). exists b'. split; [done|]. injection Ha as -> _. reflexivity.
Defined.

Lemma varint_length_witness :
  in_u 32 300 ∧ ∃ bs, varint_loop 5 300 = Some bs ∧ 0 < length bs ≤ 5.
Proof.
  split; [unfold in_u; lia|]. apply (varint_length LittleEndian 5 32 300); [lia|lia|unfold in_u; lia].
Defined.

Lemma zigzag_roundtrips_witness :
  in_s 32 (-3) ∧ EncodeZigzag32 (-3) = Some 5%Z ∧ DecodeZigzag32 5 = (-3)%Z ∧ EncodeZigzag32 (2 ^ 30) = None.
Proof.
  assert (H : in_s 32 (-3)) by (unfold in_s; lia). assert (H' : in_s 32 (2 ^ 30)) by (unfold in_s; lia). split; [done|].
  destruct (proj1 (zigzag_roundtrips (-3)) H) as (H1 & H2). destruct (proj1 (zigzag_roundtrips (2 ^ 30)) H') as (H3 & _).
  split; [exact H1|]. split; [exact H2|exact H3].
Defined.

Lemma empty_string_at_block_end_witness :
  ∃ b, wf b ∧ unread b = [x00] ∧ readStringVint LittleEndian b = Stuck NullDeref.
Proof.
  set (b := mkByteArray 2 1 2 2 BigEndian [[x07; x00]] (Some 0)).
  assert (H : wf b) by (constructor; simpl; try done; try lia; by repeat constructor).
  exists b. split_and!; [done|done|].
  by apply (empty_string_at_block_end LittleEndian b H eq_refl).
Defined.

Lemma varint_roundtrips_witness :
  (∃ b', (let! _ := writeInt32 junk0 (-300) in let! _ := setPosition (m_position ba_ex) in readInt32 LittleEndian) ba_ex =
         Ret (-300)%Z b' ∧ wf b') ∧
  writeInt32 junk0 (2 ^ 30) ba_ex = Stuck SignedOverflow.
Proof.
  destruct (varint_roundtrips LittleEndian junk0) as (_ & _ & H32 & _ & Hov & _). split.
  - destruct (H32 (-300)%Z ba_ex ltac:(cbv beta; lia) ba_ex_wf) as (b' & Hr & Hw & _). exists b'. split; [exact Hr|exact Hw].
  - apply Hov; [unfold in_s; lia|lia].
Defined.
