(* ===== verification/Timer.v ===== *)
(** * The timing wheel and its manager (Sylar/timer.h, Sylar/timer.cc)

    Timers are shared objects: the manager's heap maps a timer's address to
    its fields, and the slots of the wheel hold addresses. Every call of
    [GetMonotonicMS] or [GetSystemMS] is an argument, one per call, so that
    time may pass between two readings. The read-write lock makes each
    operation atomic. *)
From Stdlib Require Import ZArith Lia.
From stdpp Require Import base list gmap list_numbers numbers.
From S2P Require Import Prelude.
Local Open Scope Z_scope.

(** ** The wheel *)
Record TimerSlot := mkSlot { timers : list nat; expiration : Z }.

Record TimeWheel := mkWheel {
  m_slotSize : nat;
  m_tickMs : Z;
  m_currentSlot : nat;
  m_slots : list TimerSlot
}.

Definition TimeWheel_new (slot_size : nat) (tick_ms : Z) : TimeWheel :=
  mkWheel slot_size tick_ms 0 (replicate slot_size (mkSlot [] 0)).

(** The slot a timer due in [diff] milliseconds goes to. *)
Definition slot_for (w : TimeWheel) (diff : Z) : nat :=
  let ticks := diff `div` m_tickMs w in
  Z.to_nat (u64 (Z.of_nat (m_currentSlot w) + ticks) `mod` Z.of_nat (m_slotSize w)).

(** TimeWheel::addTimer for a timer [t] with [m_next = next]. *)
Definition wheel_addTimer (now : Z) (t : nat) (next : Z) : M TimeWheel bool := λ w,
  if next <? now then Ret false w else
  let diff := next - now in
  if (m_tickMs w =? 0) || (m_slotSize w =? 0)%nat then Stuck DivByZero else
  let slot := slot_for w diff in
  match m_slots w !! slot with
  | None => Stuck OutOfBounds
  | Some s =>
    Ret true (mkWheel (m_slotSize w) (m_tickMs w) (m_currentSlot w)
                (<[slot := mkSlot (timers s ++ [t]) next]> (m_slots w)))
  end.

(** [~0ull] *)
Definition no_timer : Z := 2 ^ 64 - 1.

(** The scan of TimeWheel::getNextTimer from the [i]-th slot on. *)
Fixpoint next_loop (w : TimeWheel) (now : Z) (n i : nat) (next : Z) : option Z :=
  match n with
  | O => Some next
  | S n =>
    match m_slots w !! ((m_currentSlot w + i) mod m_slotSize w)%nat with
    | None => None
    | Some s =>
      match timers s with
      | [] => next_loop w now n (S i) next
      | _ :: _ =>
        if expiration s <=? now then Some 0
        else next_loop w now n (S i) (Z.min next (expiration s - now))
      end
    end
  end.

Definition wheel_getNextTimer (now : Z) : M TimeWheel Z :=
  let! w := cget in
  match next_loop w now (m_slotSize w) 0 no_timer with
  | Some r => cret r
  | None => cstuck OutOfBounds
  end.

(** The [while(true)] of TimeWheel::getExpiredTimers. *)
Fixpoint wheel_getExpiredTimers (fuel : nat) (now : Z) (expired : list nat) : M TimeWheel (list nat) :=
  λ w,
  match fuel with
  | O => Stuck OutOfFuel
  | S fuel =>
    match m_slots w !! m_currentSlot w with
    | None => Stuck OutOfBounds
    | Some s =>
      if now <? expiration s then Ret expired w else
      if (m_slotSize w =? 0)%nat then Stuck DivByZero else
      wheel_getExpiredTimers fuel now (expired ++ timers s)
        (mkWheel (m_slotSize w) (m_tickMs w)
           ((m_currentSlot w + 1) mod m_slotSize w)%nat
           (<[m_currentSlot w := mkSlot [] 0]> (m_slots w)))
    end
  end.

(** TimeWheel::clear *)
Definition wheel_clear (w : TimeWheel) : TimeWheel :=
  mkWheel (m_slotSize w) (m_tickMs w) 0 ((λ _, mkSlot [] 0) <$> m_slots w).

(** ** Timers and their manager *)

(** A callback: a user function, or the wrapper of addConditionTimer that
    runs it only while the object [cond] is alive. *)
Inductive callback := Plain (f : nat) | OnTimer (weak_cond : nat) (f : nat).

(** What invoking a callback runs, given the objects still alive. *)
Definition invoke (alive : nat → bool) (cb : callback) : list nat :=
  match cb with
  | Plain f => [f]
  | OnTimer c f => if alive c then [f] else []
  end.

Record Timer := mkTimer {
  m_recurring : bool;
  m_ms : Z;
  m_next : Z;
  m_cb : option callback
}.

Record TimerManager := mkManager {
  m_heap : gmap nat Timer;
  m_timeWheel : TimeWheel;
  m_tickled : bool;
  m_lastMonotonicTime : Z;
  m_lastSystemTime : Z
}.

Definition set_heap h (m : TimerManager) : TimerManager :=
  mkManager h (m_timeWheel m) (m_tickled m) (m_lastMonotonicTime m) (m_lastSystemTime m).
Definition set_wheel w (m : TimerManager) : TimerManager :=
  mkManager (m_heap m) w (m_tickled m) (m_lastMonotonicTime m) (m_lastSystemTime m).
Definition set_tickled b (m : TimerManager) : TimerManager :=
  mkManager (m_heap m) (m_timeWheel m) b (m_lastMonotonicTime m) (m_lastSystemTime m).

(** Timer::Comparator on shared pointers, [None] the null one. *)
Definition Comparator (heap : gmap nat Timer) (lhs rhs : option nat) : bool :=
  match lhs, rhs with
  | None, None => false
  | None, Some _ => true
  | Some _, None => false
  | Some l, Some r =>
    match heap !! l, heap !! r with
    | Some tl, Some tr =>
      if m_next tl <? m_next tr then true
      else if m_next tr <? m_next tl then false
      else (l <? r)%nat
    | _, _ => false
    end
  end.

Definition TimerManager_new (mono sys : Z) : TimerManager :=
  mkManager ∅ (TimeWheel_new 60 1000) false mono sys.

(** Runs a wheel operation inside the manager. *)
Definition on_wheel {A} (op : M TimeWheel A) : M TimerManager A := λ m,
  match op (m_timeWheel m) with
  | Ret a w => Ret a (set_wheel w m)
  | Exn e w => Exn e (set_wheel w m)
  | Stuck r => Stuck r
  end.

Definition get_timer (t : nat) : M TimerManager Timer := λ m,
  match m_heap m !! t with Some x => Ret x m | None => Stuck NullDeref end.
Definition put_timer (t : nat) (x : Timer) : M TimerManager unit :=
  cmodify (λ m, set_heap (<[t := x]> (m_heap m)) m).

(** Timer::cancel *)
Definition cancel (t : nat) : M TimerManager bool :=
  let! x := get_timer t in
  match m_cb x with
  | Some _ =>
    let! _ := put_timer t (mkTimer (m_recurring x) (m_ms x) (m_next x) None) in cret true
  | None => cret false
  end.

(** Timer::refresh; [now] and [now'] are the readings taken by refresh and by
    the wheel. *)
Definition refresh (now now' : Z) (t : nat) : M TimerManager bool :=
  let! x := get_timer t in
  match m_cb x with
  | None => cret false
  | Some _ =>
    let next := u64 (now + m_ms x) in
    let! _ := put_timer t (mkTimer (m_recurring x) (m_ms x) next (m_cb x)) in
    on_wheel (wheel_addTimer now' t next)
  end.

(** Timer::reset *)
Definition reset (now now' : Z) (t : nat) (ms : Z) (from_now : bool) : M TimerManager bool :=
  let! x := get_timer t in
  if (ms =? m_ms x) && negb from_now then cret true else
  match m_cb x with
  | None => cret false
  | Some _ =>
    let start := if from_now then now else u64 (m_next x - m_ms x) in
    let next := u64 (start + ms) in
    let! _ := put_timer t (mkTimer (m_recurring x) ms next (m_cb x)) in
    on_wheel (wheel_addTimer now' t next)
  end.

(** TimerManager::addTimer(Timer::ptr, WriteLock&): returns whether
    [onTimerInsertedAtFront] was called. *)
Definition addTimer_locked (now' : Z) (t : nat) (next : Z) : M TimerManager bool :=
  let! at_front := on_wheel (wheel_addTimer now' t next) in
  let! _ := cmodify (λ m, if at_front : bool then set_tickled true m else m) in
  cret at_front.

(** TimerManager::addTimer; the new object lives at the fresh address [t]. *)
Definition addTimer (now now' : Z) (t : nat) (ms : Z) (cb : callback) (recurring : bool)
    : M TimerManager bool :=
  let next := u64 (now + ms) in
  let! _ := put_timer t (mkTimer recurring ms next (Some cb)) in
  addTimer_locked now' t next.

(** TimerManager::addConditionTimer *)
Definition addConditionTimer (now now' : Z) (t : nat) (ms : Z) (f weak_cond : nat) (recurring : bool)
    : M TimerManager bool :=
  addTimer now now' t ms (OnTimer weak_cond f) recurring.

(** TimerManager::getNextTimer *)
Definition getNextTimer (now : Z) : M TimerManager Z :=
  let! _ := cmodify (set_tickled false) in
  on_wheel (wheel_getNextTimer now).

(** TimerManager::hasTimer *)
Definition hasTimer (now : Z) : M TimerManager bool :=
  let! r := on_wheel (wheel_getNextTimer now) in
  cret (negb (r =? no_timer)).

(** TimerManager::detectTimeAnomaly *)
Definition detectTimeAnomaly (currentMonotonic currentSystem : Z) : M TimerManager bool := λ m,
  let monotonicDiff := u64 (currentMonotonic - m_lastMonotonicTime m) in
  let systemDiff := u64 (currentSystem - m_lastSystemTime m) in
  Ret (1000 <? Z.abs (i64 (u64 (monotonicDiff - systemDiff))))
    (mkManager (m_heap m) (m_timeWheel m) (m_tickled m) currentMonotonic currentSystem).

(** The loop of listExpiredCb over the expired timers; [now' i] is the
    reading taken when the [i]-th of them is put back. *)
Fixpoint rearm_loop (now_ms : Z) (now' : nat → Z) (i : nat) (expired : list nat)
    (cbs : list (option callback)) : M TimerManager (list (option callback)) :=
  match expired with
  | [] => cret cbs
  | t :: expired =>
    let! x := get_timer t in
    let cbs := cbs ++ [m_cb x] in
    if m_recurring x then
      let next := u64 (now_ms + m_ms x) in
      let! _ := put_timer t (mkTimer (m_recurring x) (m_ms x) next (m_cb x)) in
      let! _ := on_wheel (wheel_addTimer (now' i) t next) in
      rearm_loop now_ms now' (S i) expired cbs
    else
      let! _ := put_timer t (mkTimer (m_recurring x) (m_ms x) (m_next x) None) in
      rearm_loop now_ms now' (S i) expired cbs
  end.

(** TimerManager::listExpiredCb *)
Definition listExpiredCb (fuel : nat) (now now_ms : Z) (now' : nat → Z)
    : M TimerManager (list (option callback)) :=
  let! expired := on_wheel (wheel_getExpiredTimers fuel now []) in
  rearm_loop now_ms now' 0 expired [].

(** ** The wheel as a rotation *)
Record wheel_wf (w : TimeWheel) : Prop := {
  wheel_slots_pos : (0 < m_slotSize w)%nat;
  wheel_tick_pos : 0 < m_tickMs w;
  wheel_slots_len : length (m_slots w) = m_slotSize w;
  wheel_cur : (m_currentSlot w < m_slotSize w)%nat
}.

Definition empty_slot : TimerSlot := mkSlot [] 0.

(** The slots in the order the hand visits them. *)
Definition rot (w : TimeWheel) : list TimerSlot :=
  drop (m_currentSlot w) (m_slots w) ++ take (m_currentSlot w) (m_slots w).

(** Every entry of the wheel. *)
Definition entries (w : TimeWheel) : list nat := concat (timers <$> m_slots w).

(** Moving the hand over an emptied slot. *)
Definition advance (w : TimeWheel) : TimeWheel :=
  mkWheel (m_slotSize w) (m_tickMs w) ((m_currentSlot w + 1) mod m_slotSize w)%nat
    (<[m_currentSlot w := empty_slot]> (m_slots w)).

Section wheel.
Implicit Types w : TimeWheel.

Lemma TimeWheel_new_wf n tick : (0 < n)%nat → 0 < tick → wheel_wf (TimeWheel_new n tick).
Proof. intros. constructor; simpl; auto. apply length_replicate. Qed.

Lemma length_rot w : wheel_wf w → length (rot w) = m_slotSize w.
Proof.
  intros H. unfold rot. rewrite length_app, length_drop, length_take, (wheel_slots_len _ H).
  pose proof (wheel_cur _ H). lia.
Qed.

Lemma rot_perm w : rot w ≡ₚ m_slots w.
Proof. unfold rot. rewrite (comm (++)). by rewrite take_drop. Qed.

Lemma rot_lookup w i :
  wheel_wf w → (i < m_slotSize w)%nat →
  m_slots w !! ((m_currentSlot w + i) mod m_slotSize w)%nat = rot w !! i.
Proof.
  intros H Hi. pose proof (wheel_cur _ H) as Hc. pose proof (wheel_slots_len _ H) as Hl.
  unfold rot. destruct (decide (m_currentSlot w + i < m_slotSize w)%nat) as [Hlt|Hge].
  - rewrite Nat.mod_small, lookup_app_l, lookup_drop by (rewrite ?length_drop; lia). done.
  - rewrite lookup_app_r by (rewrite length_drop; lia).
    replace ((m_currentSlot w + i) mod m_slotSize w)%nat
      with (m_currentSlot w + i - m_slotSize w)%nat.
    2:{ apply (Nat.mod_unique _ _ 1); lia. }
    rewrite length_drop, lookup_take_lt by lia. f_equal. lia.
Qed.

Lemma rot_advance w s rest :
  wheel_wf w → rot w = s :: rest →
  m_slots w !! m_currentSlot w = Some s ∧
  rot (advance w) = rest ++ [empty_slot] ∧ wheel_wf (advance w).
Proof.
  intros H Hrot. pose proof (wheel_cur _ H) as Hc. pose proof (wheel_slots_len _ H) as Hl.
  assert (Hs : m_slots w !! m_currentSlot w = Some s).
  { pose proof (rot_lookup w 0 H (wheel_slots_pos _ H)) as Hr.
    rewrite Nat.add_0_r, Nat.mod_small, Hrot in Hr by done. done. }
  split_and!; [done| |].
  - unfold rot in *. rewrite (drop_S _ _ _ Hs) in Hrot. injection Hrot as Hrest.
    simpl. rewrite <- Hrest.
    assert (Htake : take (S (m_currentSlot w)) (<[m_currentSlot w:=empty_slot]> (m_slots w))
              = take (m_currentSlot w) (m_slots w) ++ [empty_slot]).
    { erewrite take_S_r; [|apply list_lookup_insert_eq; lia].
      by rewrite take_insert_ge. }
    destruct (decide (S (m_currentSlot w) = m_slotSize w)) as [He|Hne].
    + replace (m_currentSlot w + 1)%nat with (m_slotSize w) by lia.
      rewrite Nat.Div0.mod_same, drop_0, (drop_ge (m_slots w)), app_nil_r by lia. simpl.
      rewrite <- Htake, take_ge; [done|]. rewrite length_insert. lia.
    + rewrite Nat.mod_small by lia. rewrite Nat.add_1_r, drop_insert_lt, Htake by lia.
      by rewrite (assoc_L (++)).
  - destruct H. constructor; simpl; auto; [by rewrite length_insert|].
    apply Nat.mod_upper_bound. lia.
Qed.

(** One round of the loop. *)
Lemma expired_step fuel now acc w s rest :
  wheel_wf w → rot w = s :: rest →
  wheel_getExpiredTimers (S fuel) now acc w =
    if now <? expiration s then Ret acc w
    else wheel_getExpiredTimers fuel now (acc ++ timers s) (advance w).
Proof.
  intros H Hrot. destruct (rot_advance w s rest H Hrot) as (Hs & _ & _).
  cbn [wheel_getExpiredTimers]. rewrite Hs.
  rewrite (proj2 (Nat.eqb_neq _ _)) by (pose proof (wheel_slots_pos _ H); lia). done.
Qed.

(** The loop stops at the first slot that expires later, having emptied
    every slot before it. *)
Lemma expired_loop_spec pre s post fuel now acc w :
  wheel_wf w → rot w = pre ++ s :: post →
  Forall (λ s, expiration s <= now) pre → now < expiration s → (length pre < fuel)%nat →
  ∃ w', wheel_getExpiredTimers fuel now acc w = Ret (acc ++ concat (timers <$> pre)) w' ∧
    wheel_wf w' ∧ rot w' = s :: post ++ replicate (length pre) empty_slot ∧
    m_slotSize w' = m_slotSize w ∧ m_tickMs w' = m_tickMs w.
Proof.
  revert post fuel acc w. induction pre as [|s0 pre IH]; intros post fuel acc w H Hrot Hpre Hs Hfuel;
    (destruct fuel as [|fuel]; [simpl in Hfuel; lia|]).
  - rewrite (expired_step fuel now acc w s post H Hrot), (proj2 (Z.ltb_lt _ _)) by done.
    exists w. simpl. rewrite !app_nil_r. split_and!; auto.
  - apply Forall_cons_1 in Hpre as [Hs0 Hpre]. simpl in Hrot.
    rewrite (expired_step fuel now acc w s0 _ H Hrot), (proj2 (Z.ltb_ge _ _)) by done.
    destruct (rot_advance w s0 _ H Hrot) as (_ & Hrot1 & H1).
    destruct (IH (post ++ [empty_slot]) fuel (acc ++ timers s0) (advance w)) as (w' & Hr & Hw' & Hrot' & ? & ?);
      [done| |done|done|simpl in Hfuel; lia|].
    { rewrite Hrot1. by rewrite <- (assoc_L (++)). }
    exists w'. rewrite Hr. split_and!; auto.
    + rewrite fmap_cons. cbn [concat]. by rewrite (assoc_L (++)).
    + rewrite Hrot'. simpl. f_equal. by rewrite <- (assoc_L (++)).
Qed.

(** With nothing later than [now] in the wheel the loop goes round for
    ever. *)
Lemma expired_diverges fuel now acc w :
  wheel_wf w → 0 <= now → Forall (λ s, expiration s <= now) (rot w) →
  wheel_getExpiredTimers fuel now acc w = Stuck OutOfFuel.
Proof.
  intros H Hnow. revert acc w H. induction fuel as [|fuel IH]; intros acc w H Hall; [done|].
  destruct (rot w) as [|s rest] eqn:Hrot.
  { pose proof (length_rot w H) as Hl. rewrite Hrot in Hl. simpl in Hl.
    pose proof (wheel_slots_pos _ H). lia. }
  apply Forall_cons_1 in Hall as [Hs Hall].
  rewrite (expired_step fuel now acc w s rest H Hrot), (proj2 (Z.ltb_ge _ _)) by done.
  destruct (rot_advance w s rest H Hrot) as (_ & Hrot1 & H1). apply IH; [done|].
  rewrite Hrot1. apply Forall_app_2; [done|]. apply Forall_singleton. simpl. done.
Qed.

(** Either every slot has expired or there is a first one that has not. *)
Lemma first_later now (l : list TimerSlot) :
  Forall (λ s, expiration s <= now) l ∨
  ∃ pre s post, l = pre ++ s :: post ∧ Forall (λ s, expiration s <= now) pre ∧ now < expiration s.
Proof.
  induction l as [|s l IH]; [by left|].
  destruct (decide (expiration s <= now)) as [Hs|Hs].
  - destruct IH as [IH|(pre & s' & post & -> & Hp & Hs')]; [left; by constructor|right].
    exists (s :: pre), s', post. split_and!; auto.
  - right. exists [], s, l. split_and!; auto. lia.
Qed.

Lemma entries_perm w w' : m_slots w ≡ₚ m_slots w' → entries w ≡ₚ entries w'.
Proof. intros H. unfold entries. by rewrite H. Qed.
End wheel.

Section wheel_operations.
Implicit Types w : TimeWheel.

Lemma slot_for_lt w diff : wheel_wf w → (slot_for w diff < m_slotSize w)%nat.
Proof.
  intros H. pose proof (wheel_slots_pos _ H). unfold slot_for.
  pose proof (Z.mod_pos_bound (u64 (Z.of_nat (m_currentSlot w) + diff `div` m_tickMs w))
                (Z.of_nat (m_slotSize w)) ltac:(lia)). lia.
Qed.

(** addTimer: refused when already due, otherwise appended to its slot,
    whose expiration becomes that of the timer. *)
Lemma wheel_addTimer_spec w now t next :
  wheel_wf w →
  if next <? now then wheel_addTimer now t next w = Ret false w
  else ∃ s w', m_slots w !! slot_for w (next - now) = Some s ∧
    wheel_addTimer now t next w = Ret true w' ∧ wheel_wf w' ∧
    m_slots w' = <[slot_for w (next - now) := mkSlot (timers s ++ [t]) next]> (m_slots w) ∧
    m_currentSlot w' = m_currentSlot w ∧ entries w' ≡ₚ t :: entries w.
Proof.
  intros H. unfold wheel_addTimer. destruct (next <? now); [done|].
  pose proof (slot_for_lt w (next - now) H) as Hlt.
  rewrite <- (wheel_slots_len _ H) in Hlt.
  destruct (lookup_lt_is_Some_2 _ _ Hlt) as [s Hs]. rewrite Hs.
  rewrite (proj2 (Z.eqb_neq _ _)) by (pose proof (wheel_tick_pos _ H); lia).
  rewrite (proj2 (Nat.eqb_neq _ _)) by (pose proof (wheel_slots_pos _ H); lia).
  exists s. eexists. split_and!; [done|reflexivity| |done|done|].
  - destruct H. constructor; simpl; auto. by rewrite length_insert.
  - unfold entries. simpl. rewrite insert_take_drop by done.
    rewrite <- (take_drop_middle (m_slots w) _ s Hs) at 3.
    rewrite !fmap_app, !fmap_cons, !concat_app. cbn [concat timers].
    rewrite <- (assoc_L (++) (timers s)). cbn [app]. by rewrite <- !Permutation_middle.
Qed.

(** The scan of getNextTimer over the slots in visiting order. *)
Fixpoint scan_expired (now : Z) (l : list TimerSlot) (next : Z) : Z :=
  match l with
  | [] => next
  | s :: l =>
    match timers s with
    | [] => scan_expired now l next
    | _ :: _ => if expiration s <=? now then 0 else scan_expired now l (Z.min next (expiration s - now))
    end
  end.

Lemma next_loop_scan w now n i next :
  wheel_wf w → (i + n = m_slotSize w)%nat →
  next_loop w now n i next = Some (scan_expired now (drop i (rot w)) next).
Proof.
  intros H. revert i next. induction n as [|n IH]; intros i next Hn.
  { rewrite drop_ge; [done|]. rewrite length_rot by done. lia. }
  cbn [next_loop]. rewrite rot_lookup by (done || lia).
  destruct (lookup_lt_is_Some_2 (rot w) i) as [s Hs]; [rewrite length_rot by done; lia|].
  rewrite Hs, (drop_S _ _ _ Hs). cbn [scan_expired].
  destruct (timers s); [apply IH; lia|]. destruct (expiration s <=? now); [done|]. apply IH. lia.
Qed.

Definition pending (s : TimerSlot) : Prop := timers s ≠ [].

Lemma scan_spec now l next :
  let r := scan_expired now l next in
  (Exists (λ s, pending s ∧ expiration s <= now) l → r = 0) ∧
  (Forall (λ s, pending s → now < expiration s) l →
    r <= next ∧ Forall (λ s, pending s → r <= expiration s - now) l ∧
    (r = next ∨ Exists (λ s, pending s ∧ r = expiration s - now) l)).
Proof.
  revert next. induction l as [|s l IH]; intros next; simpl.
  { split; [by intros ?%Exists_nil|]. intros _. split_and!; auto. lia. }
  destruct (timers s) as [|t ts] eqn:Et.
  - assert (Hp : ¬ pending s) by (unfold pending; rewrite Et; tauto).
    destruct (IH next) as [IH1 IH2]. split.
    + intros [[? _]|Hex]%Exists_cons; [done|auto].
    + intros [_ Hall]%Forall_cons_1. destruct (IH2 Hall) as (? & ? & Hor).
      split_and!; [done|by constructor|]. destruct Hor; [by left|right; by apply Exists_cons_tl].
  - assert (Hp : pending s) by (unfold pending; by rewrite Et).
    destruct (Z.leb_spec (expiration s) now) as [Hle|Hgt].
    { split; [done|]. intros [Hs _]%Forall_cons_1. specialize (Hs Hp). lia. }
    destruct (IH (Z.min next (expiration s - now))) as [IH1 IH2]. split.
    + intros [[_ ?]|Hex]%Exists_cons; [lia|auto].
    + intros [_ Hall]%Forall_cons_1. destruct (IH2 Hall) as (Hle & ? & Hor).
      split_and!; [lia|constructor; [lia|done]|].
      destruct Hor as [->|Hex]; [|right; by apply Exists_cons_tl].
      destruct (Z.min_spec next (expiration s - now)) as [[_ ->]|[_ ->]]; [by left|].
      right. by apply Exists_cons_hd.
Qed.

Lemma Forall_rot (P : TimerSlot → Prop) w : Forall P (rot w) ↔ Forall P (m_slots w).
Proof. by rewrite rot_perm. Qed.

Lemma Exists_rot (P : TimerSlot → Prop) w : Exists P (rot w) ↔ Exists P (m_slots w).
Proof.
  rewrite !Exists_exists. split; intros (s & Hs & HP); exists s; split; auto.
  - by rewrite <- rot_perm.
  - by rewrite rot_perm.
Qed.

Lemma entries_rot w : entries w ≡ₚ concat (timers <$> rot w).
Proof. unfold entries. by rewrite rot_perm. Qed.

Lemma concat_empty_slots n : concat (timers <$> replicate n empty_slot) = [].
Proof. induction n; simpl; auto. Qed.

(** getExpiredTimers, when it returns: nothing is lost or invented. *)
Lemma expired_conserves fuel now w out w' :
  wheel_wf w → wheel_getExpiredTimers fuel now [] w = Ret out w' → (m_slotSize w <= fuel)%nat → 0 <= now →
  wheel_wf w' ∧ entries w ≡ₚ out ++ entries w' ∧
  ∃ pre post, rot w = pre ++ post ∧ out = concat (timers <$> pre) ∧
    Forall (λ s, expiration s <= now) pre ∧ rot w' = post ++ replicate (length pre) empty_slot.
Proof.
  intros H Hr Hf Hnow.
  destruct (first_later now (rot w)) as [Hall|(pre & s & post & Hrot & Hpre & Hs)].
  { by rewrite expired_diverges in Hr. }
  destruct (expired_loop_spec pre s post fuel now [] w H Hrot Hpre Hs) as (w2 & Hr2 & H2 & Hrot2 & _).
  { pose proof (length_rot w H) as Hl. rewrite Hrot, length_app in Hl. simpl in Hl. lia. }
  rewrite Hr2 in Hr. simplify_eq. split_and!; [done| |].
  - rewrite !entries_rot, Hrot, Hrot2. rewrite fmap_app, concat_app. simpl.
    rewrite fmap_app, concat_app, concat_empty_slots, app_nil_r. done.
  - exists pre, (s :: post). split_and!; auto.
Qed.
End wheel_operations.

(** ** Re-arming *)

(** What listExpiredCb makes of an expired timer. *)
Definition rearmed (now_ms : Z) (x : Timer) : Timer :=
  if m_recurring x then mkTimer (m_recurring x) (m_ms x) (u64 (now_ms + m_ms x)) (m_cb x)
  else mkTimer (m_recurring x) (m_ms x) (m_next x) None.

Section rearm.
Implicit Types m : TimerManager.

Definition cb_of (h : gmap nat Timer) (t : nat) : option callback := h !! t ≫= m_cb.
Definition is_recurring (h : gmap nat Timer) (t : nat) : Prop :=
  ∃ x, h !! t = Some x ∧ m_recurring x = true.
#[export] Instance is_recurring_dec h t : Decision (is_recurring h t).
Proof.
  refine (match h !! t as o return (h !! t = o → _) with
          | Some x => λ E, match decide (m_recurring x = true) with left _ => left _ | right _ => right _ end
          | None => λ E, right _
          end eq_refl); unfold is_recurring; (by eauto) || (intros (y & Hy & ?); congruence).
Defined.

(** One iteration of the loop. *)
Lemma rearm_step now_ms now' i t expired cbs m x :
  wheel_wf (m_timeWheel m) → m_heap m !! t = Some x →
  (m_recurring x = true → now' i <= u64 (now_ms + m_ms x)) →
  ∃ m2, rearm_loop now_ms now' i (t :: expired) cbs m =
          rearm_loop now_ms now' (S i) expired (cbs ++ [m_cb x]) m2 ∧
    m_heap m2 = <[t := rearmed now_ms x]> (m_heap m) ∧ wheel_wf (m_timeWheel m2) ∧
    entries (m_timeWheel m2) ≡ₚ (if m_recurring x then [t] else []) ++ entries (m_timeWheel m).
Proof.
  intros Hw Hx Hnow. cbn [rearm_loop]. unfold cbind at 1, get_timer. rewrite Hx.
  unfold rearmed. destruct (m_recurring x) eqn:Er.
  - pose proof (wheel_addTimer_spec (m_timeWheel m) (now' i) t (u64 (now_ms + m_ms x)) Hw) as Ha.
    rewrite (proj2 (Z.ltb_ge _ _)) in Ha by auto.
    destruct Ha as (s & w' & _ & Ha & Hw' & _ & _ & He).
    unfold cbind, put_timer, cmodify, on_wheel. simpl. rewrite Ha.
    eexists. split_and!; [reflexivity|done|done|done].
  - unfold cbind, put_timer, cmodify. eexists. split_and!; [reflexivity|done|done|done].
Qed.

Lemma filter_recurring_ext (h1 h2 : gmap nat Timer) (l : list nat) :
  (∀ t, t ∈ l → h1 !! t = h2 !! t) → filter (is_recurring h1) l = filter (is_recurring h2) l.
Proof.
  intros Hag. induction l as [|a l IH]; [done|]. rewrite !filter_cons.
  rewrite IH by (intros; apply Hag; by right).
  assert (is_recurring h1 a ↔ is_recurring h2 a)
    by (unfold is_recurring; rewrite Hag by (by left); done).
  do 2 case_decide; tauto || done.
Qed.

Lemma rearm_loop_spec now_ms now' i expired cbs m :
  wheel_wf (m_timeWheel m) → NoDup expired →
  (∀ t, t ∈ expired → is_Some (m_heap m !! t)) →
  (∀ j t x, t ∈ expired → m_heap m !! t = Some x → m_recurring x = true →
     now' j <= u64 (now_ms + m_ms x)) →
  ∃ m', rearm_loop now_ms now' i expired cbs m =
      Ret (cbs ++ (cb_of (m_heap m) <$> expired)) m' ∧
    wheel_wf (m_timeWheel m') ∧
    (∀ t, m_heap m' !! t = (if decide (t ∈ expired) then rearmed now_ms else id) <$> m_heap m !! t) ∧
    entries (m_timeWheel m') ≡ₚ
      filter (is_recurring (m_heap m)) expired ++ entries (m_timeWheel m).
Proof.
  revert i cbs m. induction expired as [|t expired IH]; intros i cbs m Hw Hnd Hdom Hnow.
  { exists m. simpl. rewrite app_nil_r. split_and!; auto. intros t. by destruct (m_heap m !! t). }
  apply list.NoDup_cons in Hnd as [Hnin Hnd].
  destruct (Hdom t ltac:(by left)) as [x Hx].
  destruct (rearm_step now_ms now' i t expired cbs m x Hw Hx) as (m2 & Hrun & Hh2 & Hw2 & He2).
  { eapply Hnow; [by left|done]. }
  assert (Hag : ∀ t', t' ∈ expired → m_heap m2 !! t' = m_heap m !! t').
  { intros t' Ht'. rewrite Hh2. apply lookup_insert_ne. congruence. }
  destruct (IH (S i) (cbs ++ [m_cb x]) m2) as (m' & Hr & Hw' & Hh' & He'); [done|done| | |].
  { intros t' Ht'. rewrite Hag by done. apply Hdom. by right. }
  { intros j t' x' Ht'. rewrite Hag by done. apply Hnow. by right. }
  exists m'. split_and!; [| done | |].
  - rewrite Hrun, Hr, <- (assoc_L (++)). simpl. unfold cb_of at 2. rewrite Hx. simpl.
    do 3 f_equal. apply list_fmap_ext. intros j t' Hj. unfold cb_of.
    rewrite Hag; [done|]. by eapply list_elem_of_lookup_2.
  - intros t'. rewrite Hh', Hh2. destruct (decide (t' = t)) as [->|Hne].
    + rewrite lookup_insert_eq, Hx, (decide_False (P := t ∈ expired)) by done.
      by rewrite decide_True by (by left).
    + rewrite lookup_insert_ne by done.
      destruct (decide (t' ∈ expired)); [by rewrite decide_True by (by right)|].
      rewrite decide_False; [done|]. rewrite elem_of_cons. tauto.
  - rewrite He', He2, (filter_recurring_ext _ _ _ Hag), filter_cons.
    destruct (m_recurring x) eqn:Er.
    + rewrite decide_True by (exists x; done). simpl. by rewrite <- Permutation_middle.
    + rewrite decide_False by (intros (y & Hy & ?); congruence). done.
Qed.
End rearm.

(** ** Properties of the wheel and of the manager *)

(** A slot whose timers are all due at the slot's expiration. *)
Definition slot_exact (h : gmap nat Timer) (s : TimerSlot) : Prop :=
  ∀ t x, t ∈ timers s → h !! t = Some x → m_next x = expiration s.

Section properties.
Implicit Types (w : TimeWheel) (m : TimerManager).

(** [TimeWheel::addTimer] on both branches: a timer already due is
    refused and nothing changes; any other goes to the end of the slot
    [(current + (next - now) / tick) mod slots], which takes over its
    expiration; no other slot changes, no entry is lost, and the wheel
    stays well-formed. *)
Theorem timewheel_addTimer w now t next :
  wheel_wf w →
  if next <? now then wheel_addTimer now t next w = Ret false w
  else ∃ s w', m_slots w !! slot_for w (next - now) = Some s ∧
    wheel_addTimer now t next w = Ret true w' ∧ wheel_wf w' ∧
    m_slots w' = <[slot_for w (next - now) := mkSlot (timers s ++ [t]) next]> (m_slots w) ∧
    m_currentSlot w' = m_currentSlot w ∧ entries w' ≡ₚ t :: entries w.
Proof. apply wheel_addTimer_spec. Qed.

(** [getNextTimer] is 0 when a slot with timers has expired; otherwise
    it is the least distance to an expiration of a slot with timers, and
    [~0ull] when there is none that is nearer. *)
Theorem timewheel_getNextTimer w now :
  wheel_wf w →
  ∃ r, wheel_getNextTimer now w = Ret r w ∧
    (Exists (λ s, pending s ∧ expiration s <= now) (m_slots w) → r = 0) ∧
    (Forall (λ s, pending s → now < expiration s) (m_slots w) →
      r <= no_timer ∧ Forall (λ s, pending s → r <= expiration s - now) (m_slots w) ∧
      (r = no_timer ∨ Exists (λ s, pending s ∧ r = expiration s - now) (m_slots w))).
Proof.
  intros H. exists (scan_expired now (rot w) no_timer). split.
  - unfold wheel_getNextTimer, cbind, cget. by rewrite next_loop_scan.
  - rewrite <- !Forall_rot, <- !Exists_rot. apply (scan_spec now (rot w) no_timer).
Qed.

(** C19: [getExpiredTimers] terminates exactly when some slot expires after
    [now]: one turn of the wheel is then enough; when none does — a wheel
    without timers, or whose timers are all due — the loop never ends, for
    any bound. *)
Theorem getExpiredTimers_termination w now :
  wheel_wf w → 0 <= now →
  (Exists (λ s, now < expiration s) (m_slots w) →
    ∃ out w', wheel_getExpiredTimers (m_slotSize w) now [] w = Ret out w') ∧
  (Forall (λ s, expiration s <= now) (m_slots w) →
    ∀ fuel, wheel_getExpiredTimers fuel now [] w = Stuck OutOfFuel).
Proof.
  intros H Hnow. rewrite <- Forall_rot, <- Exists_rot. split.
  - intros Hex. destruct (first_later now (rot w)) as [Hall|(pre & s & post & Hrot & Hpre & Hs)].
    { apply Exists_exists in Hex as (s & Hs & Hlt). rewrite Forall_forall in Hall.
      specialize (Hall s Hs). lia. }
    destruct (expired_loop_spec pre s post (m_slotSize w) now [] w H Hrot Hpre Hs) as (w' & Hr & _).
    { pose proof (length_rot w H) as Hl. rewrite Hrot, length_app in Hl. simpl in Hl. lia. }
    eauto.
  - intros Hall fuel. by apply expired_diverges.
Qed.

(** a turn of [getExpiredTimers] moves timers, it does not lose them:
    what the wheel held is what was reported plus what it still holds; the
    reported timers are those of the slots passed, in order, all expired;
    and where every slot holds timers of its own due time only, no timer
    is reported early. *)
Theorem getExpiredTimers_conserves w now out w' h :
  wheel_wf w → 0 <= now →
  wheel_getExpiredTimers (m_slotSize w) now [] w = Ret out w' →
  wheel_wf w' ∧ entries w ≡ₚ out ++ entries w' ∧
  (∃ pre post, rot w = pre ++ post ∧ out = concat (timers <$> pre) ∧
     Forall (λ s, expiration s <= now) pre ∧
     rot w' = post ++ replicate (length pre) empty_slot) ∧
  (Forall (slot_exact h) (m_slots w) →
     ∀ t x, t ∈ out → h !! t = Some x → m_next x <= now).
Proof.
  intros H Hnow Hr.
  destruct (expired_conserves _ now w out w' H Hr ltac:(lia) Hnow)
    as (Hw' & Hp & pre & post & Hrot & Hout & Hpre & Hrot').
  split_and!; [done|done|eauto 10|]. intros Hex t x Ht Hx.
  rewrite <- Forall_rot, Hrot, Forall_app in Hex. destruct Hex as [Hex _].
  subst out. apply list_elem_of_In, in_concat in Ht as (ts & Hts & Ht).
  apply list_elem_of_In, list_elem_of_fmap in Hts as (s & -> & Hs).
  apply list_elem_of_In in Hs.
  rewrite Forall_forall in Hex, Hpre. specialize (Hpre s Hs).
  rewrite (Hex s Hs t x); [done|by apply list_elem_of_In|done].
Qed.

(** [listExpiredCb] returns the callbacks of the expired timers in
    order, disarms the one-shot ones, re-arms the recurring ones from
    [now_ms] and puts exactly those back into the wheel, as long as a
    re-armed timer is not due again before it is put back. *)
Theorem listExpiredCb_rearms m now now_ms now' out w' :
  let w := m_timeWheel m in
  wheel_wf w → 0 <= now →
  wheel_getExpiredTimers (m_slotSize w) now [] w = Ret out w' → NoDup out →
  (∀ t, t ∈ out → is_Some (m_heap m !! t)) →
  (∀ j t x, t ∈ out → m_heap m !! t = Some x → m_recurring x = true →
     now' j <= u64 (now_ms + m_ms x)) →
  ∃ m', listExpiredCb (m_slotSize w) now now_ms now' m = Ret (cb_of (m_heap m) <$> out) m' ∧
    wheel_wf (m_timeWheel m') ∧
    (∀ t, m_heap m' !! t = (if decide (t ∈ out) then rearmed now_ms else id) <$> m_heap m !! t) ∧
    entries (m_timeWheel m') ≡ₚ filter (is_recurring (m_heap m)) out ++ entries w'.
Proof.
  intros w H Hnow Hr Hnd Hdom Hclk.
  destruct (expired_conserves _ now w out w' H Hr ltac:(lia) Hnow) as (Hw' & _).
  assert (Hon : on_wheel (wheel_getExpiredTimers (m_slotSize w) now []) m = Ret out (set_wheel w' m))
    by (unfold on_wheel; fold w; by rewrite Hr).
  unfold listExpiredCb. rewrite (cbind_Ret _ _ _ _ _ Hon).
  apply (rearm_loop_spec now_ms now' 0 out [] (set_wheel w' m)); done.
Qed.

(** [Timer::refresh] of a live timer adds a second entry for it: the old
    slot keeps the timer, so the wheel holds it one more time than before
    whenever the new due time is not past. *)
Theorem refresh_adds_an_entry m now now' t x cb :
  wheel_wf (m_timeWheel m) → m_heap m !! t = Some x → m_cb x = Some cb →
  now' <= u64 (now + m_ms x) →
  ∃ m', refresh now now' t m = Ret true m' ∧
    m_heap m' = <[t := mkTimer (m_recurring x) (m_ms x) (u64 (now + m_ms x)) (Some cb)]> (m_heap m) ∧
    entries (m_timeWheel m') ≡ₚ t :: entries (m_timeWheel m).
Proof.
  intros H Hx Hcb Hn. unfold refresh, cbind, get_timer. rewrite Hx, Hcb.
  pose proof (wheel_addTimer_spec (m_timeWheel m) now' t (u64 (now + m_ms x)) H) as Ha.
  rewrite (proj2 (Z.ltb_ge _ _)) in Ha by done. destruct Ha as (s & w' & _ & Ha & _ & _ & _ & He).
  unfold put_timer, cmodify, on_wheel. simpl. rewrite Ha. eexists. split_and!; done.
Qed.

(** a manager whose timers are all due, and in particular a new one,
    never gets its expired callbacks: [listExpiredCb] does not return for
    any bound on the wheel's loop. *)
Theorem listExpiredCb_hangs m now now_ms now' fuel :
  wheel_wf (m_timeWheel m) → 0 <= now →
  Forall (λ s, expiration s <= now) (m_slots (m_timeWheel m)) →
  listExpiredCb fuel now now_ms now' m = Stuck OutOfFuel.
Proof.
  intros H Hnow Hall. unfold listExpiredCb, cbind, on_wheel.
  by rewrite expired_diverges by (done || by rewrite Forall_rot).
Qed.

(** slots do not separate turns of the wheel: a timer added for 61 s and
    one added for 1 s share a slot, and the later call decides when the
    slot expires. Added in this order the first is reported 60 s early;
    in the other order the second is not reported when due. *)
Theorem wheel_turns_collide :
  let cb f := Plain f in
  let m0 := TimerManager_new 0 0 in
  (∃ m, (let! _ := addTimer 0 0 1 61000 (cb 1%nat) false in
         let! _ := addTimer 0 0 2 1000 (cb 2%nat) false in
         let! _ := addTimer 0 0 3 2000 (cb 3%nat) false in
         listExpiredCb 60 1000 1000 (λ _, 1000)) m0
        = Ret [Some (cb 1%nat); Some (cb 2%nat)] m) ∧
  (∃ m, (let! _ := addTimer 0 0 2 1000 (cb 2%nat) false in
         let! _ := addTimer 0 0 1 61000 (cb 1%nat) false in
         let! _ := addTimer 0 0 3 2000 (cb 3%nat) false in
         listExpiredCb 60 1000 1000 (λ _, 1000)) m0
        = Ret [] m).
Proof. split; eexists; vm_compute; reflexivity. Qed.

(** the comparator of timers is a strict total order on live timers and
    the null pointer, by due time and then by address. *)
Theorem comparator_strict_total h (a b c : option nat) :
  (∀ t, a = Some t ∨ b = Some t ∨ c = Some t → is_Some (h !! t)) →
  Comparator h a a = false ∧
  (Comparator h a b = true → Comparator h b c = true → Comparator h a c = true) ∧
  (a ≠ b → Comparator h a b = true ∨ Comparator h b a = true).
Proof.
  intros Hl.
  assert (Hl' : ∀ t, a = Some t ∨ b = Some t ∨ c = Some t → ∃ x, h !! t = Some x) by (intros; by apply Hl).
  clear Hl. unfold Comparator. split_and!.
  - destruct a as [t|]; [|done]. destruct (h !! t) as [x|]; [|done].
    rewrite Z.ltb_irrefl. apply Nat.ltb_irrefl.
  - destruct a as [ta|], b as [tb|], c as [tc|]; try done.
    destruct (Hl' ta) as [xa ->]; [auto|]. destruct (Hl' tb) as [xb ->]; [auto|].
    destruct (Hl' tc) as [xc ->]; [auto|].
    repeat (match goal with |- context [(?x <? ?y)%Z] => destruct (Z.ltb_spec x y) end); try done; try lia.
    rewrite !Nat.ltb_lt. lia.
  - intros Hne. destruct a as [ta|], b as [tb|]; auto.
    destruct (Hl' ta) as [xa ->]; [auto|]. destruct (Hl' tb) as [xb ->]; [auto|].
    assert (ta ≠ tb) by congruence.
    repeat (match goal with |- context [(?x <? ?y)%Z] => destruct (Z.ltb_spec x y) end); auto; try lia.
    rewrite !Nat.ltb_lt. lia.
Qed.
End properties.

(** A wheel of three one-second slots with timers 7 (due at 1000) and 8 (due
    at 2000). *)
Definition wheel_ex : TimeWheel :=
  mkWheel 3 1000 0 [mkSlot [] 0; mkSlot [7%nat] 1000; mkSlot [8%nat] 2000].
Definition heap_ex : gmap nat Timer :=
  {[ 7%nat := mkTimer true 1000 1000 (Some (Plain 70));
     8%nat := mkTimer false 2000 2000 (Some (Plain 80)) ]}.
Definition manager_ex : TimerManager := mkManager heap_ex wheel_ex false 0 0.

Lemma wheel_ex_wf : wheel_wf wheel_ex.
Proof. constructor; simpl; lia. Qed.

Lemma timewheel_addTimer_witness :
  wheel_wf wheel_ex ∧ ∃ w', wheel_addTimer 500 9 2600 wheel_ex = Ret true w' ∧
    entries w' ≡ₚ 9%nat :: entries wheel_ex.
Proof.
  split; [apply wheel_ex_wf|].
  destruct (timewheel_addTimer wheel_ex 500 9 2600 wheel_ex_wf) as (s & w' & _ & Hr & _ & _ & _ & He).
  eauto.
Defined.

Lemma timewheel_getNextTimer_witness :
  wheel_wf wheel_ex ∧ wheel_getNextTimer 1500 wheel_ex = Ret 0 wheel_ex.
Proof.
  split; [apply wheel_ex_wf|].
  destruct (timewheel_getNextTimer wheel_ex 1500 wheel_ex_wf) as (r & Hr & H0 & _).
  rewrite Hr, H0; [done|]. right. left. split; [done|]. simpl. lia.
Defined.

Lemma getExpiredTimers_termination_witness :
  (∃ out w', wheel_getExpiredTimers 3 1500 [] wheel_ex = Ret out w') ∧
  (∀ fuel, wheel_getExpiredTimers fuel 5000 [] wheel_ex = Stuck OutOfFuel).
Proof.
  split.
  - apply (proj1 (getExpiredTimers_termination wheel_ex 1500 wheel_ex_wf ltac:(lia))).
    do 2 right. left. simpl. lia.
  - apply (proj2 (getExpiredTimers_termination wheel_ex 5000 wheel_ex_wf ltac:(lia))).
    repeat constructor; simpl; lia.
Defined.

Lemma getExpiredTimers_conserves_witness :
  ∃ out w', wheel_getExpiredTimers 3 1500 [] wheel_ex = Ret out w' ∧
    entries wheel_ex ≡ₚ out ++ entries w'.
Proof.
  exists [7%nat], (mkWheel 3 1000 2 [empty_slot; empty_slot; mkSlot [8%nat] 2000]).
  split; [reflexivity|].
  apply (getExpiredTimers_conserves wheel_ex 1500 [7%nat] _ heap_ex wheel_ex_wf ltac:(lia) eq_refl).
Defined.

Lemma listExpiredCb_rearms_witness :
  ∃ m', listExpiredCb 3 1500 1500 (λ _, 1600) manager_ex = Ret [Some (Plain 70)] m' ∧
    entries (m_timeWheel m') ≡ₚ [7; 8]%nat.
Proof.
  destruct (listExpiredCb_rearms manager_ex 1500 1500 (λ _, 1600) [7%nat]
              (mkWheel 3 1000 2 [empty_slot; empty_slot; mkSlot [8%nat] 2000]) wheel_ex_wf
              ltac:(lia) eq_refl) as (m' & Hr & _ & _ & He).
  - apply NoDup_singleton.
  - intros t ->%list_elem_of_singleton. by eexists.
  - intros _ t x ->%list_elem_of_singleton [= <-] _. vm_compute. congruence.
  - exists m'. split; [exact Hr|]. exact He.
Defined.

Lemma refresh_adds_an_entry_witness :
  ∃ m', refresh 500 600 7 manager_ex = Ret true m' ∧
    entries (m_timeWheel m') ≡ₚ [7; 7; 8]%nat.
Proof.
  destruct (refresh_adds_an_entry manager_ex 500 600 7 _ (Plain 70) wheel_ex_wf eq_refl eq_refl)
    as (m' & Hr & _ & He); [vm_compute; congruence|]. exists m'. split; [exact Hr|exact He].
Defined.

Lemma listExpiredCb_hangs_witness :
  listExpiredCb 1000 3000 3000 (λ _, 3000) (TimerManager_new 0 0) = Stuck OutOfFuel.
Proof.
  apply listExpiredCb_hangs; [apply TimeWheel_new_wf; lia|lia|].
  apply Forall_replicate. simpl. lia.
Defined.

Lemma comparator_strict_total_witness :
  Comparator heap_ex (Some 7%nat) (Some 8%nat) = true ∧ Comparator heap_ex None None = false.
Proof.
  split; [reflexivity|].
  apply (comparator_strict_total heap_ex None None None). intros t [?|[?|?]]; done.
Defined.
