(* ===== verification/LruCache.v ===== *)
(** * The LRU cache (Sylar/DataStructure/LRU_Cache.h, cache_status.h)

    [std::list] nodes have identities, so that the iterators the hash map
    stores are node numbers: [m_keys] is the list of nodes, most recently
    used first, and [m_cache] maps a key to the number of its node. The
    status counters are a separate object, which the buckets of a hashed
    cache share. Each operation runs under the mutex. *)
From Stdlib Require Import ZArith Lia.
From stdpp Require Import base list gmap list_numbers numbers.
From S2P Require Import Prelude.

(** ** Counters (cache_status.h) *)
Record CacheStatus := mkStatus {
  m_get : Z; m_set : Z; m_del : Z; m_timeout : Z; m_prune : Z; m_hit : Z
}.

Definition CacheStatus_new : CacheStatus := mkStatus 0 0 0 0 0 0.
Definition incGet (v : Z) (s : CacheStatus) : CacheStatus :=
  mkStatus (i64 (m_get s + v)) (m_set s) (m_del s) (m_timeout s) (m_prune s) (m_hit s).
Definition incSet (v : Z) (s : CacheStatus) : CacheStatus :=
  mkStatus (m_get s) (i64 (m_set s + v)) (m_del s) (m_timeout s) (m_prune s) (m_hit s).
Definition incDel (v : Z) (s : CacheStatus) : CacheStatus :=
  mkStatus (m_get s) (m_set s) (i64 (m_del s + v)) (m_timeout s) (m_prune s) (m_hit s).
Definition incTimeout (v : Z) (s : CacheStatus) : CacheStatus :=
  mkStatus (m_get s) (m_set s) (m_del s) (i64 (m_timeout s + v)) (m_prune s) (m_hit s).
Definition incPrune (v : Z) (s : CacheStatus) : CacheStatus :=
  mkStatus (m_get s) (m_set s) (m_del s) (m_timeout s) (i64 (m_prune s + v)) (m_hit s).
Definition incHit (v : Z) (s : CacheStatus) : CacheStatus :=
  mkStatus (m_get s) (m_set s) (m_del s) (m_timeout s) (m_prune s) (i64 (m_hit s + v)).
Definition decGet (v : Z) (s : CacheStatus) : CacheStatus :=
  mkStatus (i64 (m_get s - v)) (m_set s) (m_del s) (m_timeout s) (m_prune s) (m_hit s).
Definition decSet (v : Z) (s : CacheStatus) : CacheStatus :=
  mkStatus (m_get s) (i64 (m_set s - v)) (m_del s) (m_timeout s) (m_prune s) (m_hit s).
Definition decDel (v : Z) (s : CacheStatus) : CacheStatus :=
  mkStatus (m_get s) (m_set s) (i64 (m_del s - v)) (m_timeout s) (m_prune s) (m_hit s).
Definition decTimeout (v : Z) (s : CacheStatus) : CacheStatus :=
  mkStatus (m_get s) (m_set s) (m_del s) (i64 (m_timeout s - v)) (m_prune s) (m_hit s).
Definition decPrune (v : Z) (s : CacheStatus) : CacheStatus :=
  mkStatus (m_get s) (m_set s) (m_del s) (m_timeout s) (i64 (m_prune s - v)) (m_hit s).
Definition decHit (v : Z) (s : CacheStatus) : CacheStatus :=
  mkStatus (m_get s) (m_set s) (m_del s) (m_timeout s) (m_prune s) (i64 (m_hit s - v)).
Definition merge (o s : CacheStatus) : CacheStatus :=
  mkStatus (i64 (m_get s + m_get o)) (i64 (m_set s + m_set o)) (i64 (m_del s + m_del o))
    (i64 (m_timeout s + m_timeout o)) (i64 (m_prune s + m_prune o)) (i64 (m_hit s + m_hit o)).

(** Node lists shared by the two list-based caches. *)
Section nodes.
Context {A : Type}.

(** The node an iterator designates. *)
Fixpoint find_node (n : nat) (l : list (nat * A)) : option A :=
  match l with
  | [] => None
  | (m, a) :: l => if m =? n then Some a else find_node n l
  end.
(** [list.erase(it)] *)
Fixpoint erase_node (n : nat) (l : list (nat * A)) : list (nat * A) :=
  match l with
  | [] => []
  | (m, a) :: l => if m =? n then l else (m, a) :: erase_node n l
  end.
(** [list.splice(list.begin(), list, it)] *)
Definition splice_front (n : nat) (l : list (nat * A)) : option (list (nat * A)) :=
  match find_node n l with
  | Some a => Some ((n, a) :: erase_node n l)
  | None => None
  end.
(** [it->... = a] *)
Fixpoint assign_node (n : nat) (a : A) (l : list (nat * A)) : list (nat * A) :=
  match l with
  | [] => []
  | (m, x) :: l => if m =? n then (m, a) :: l else (m, x) :: assign_node n a l
  end.
End nodes.

Section lru.
Context {K V : Type} `{Countable K}.

Record LruCache := mkLru {
  m_cache : gmap K nat;
  m_keys : list (nat * (K * V));
  m_maxSize : Z;
  m_elasticity : Z;
  m_cb : bool;               (* a prune callback is installed *)
  m_fresh : nat;             (* the next node allocated *)
  m_pruned : list (K * V)    (* what the callback has been called with *)
}.

Definition lru_state : Type := CacheStatus * LruCache.

Definition LruCache_new (max_size elasticity : Z) : LruCache :=
  mkLru ∅ [] max_size elasticity false 0 [].

Definition with_status (f : CacheStatus → CacheStatus) : M lru_state unit :=
  cmodify (λ s, (f s.1, s.2)).
Definition with_cache (f : LruCache → LruCache) : M lru_state unit :=
  cmodify (λ s, (s.1, f s.2)).

Definition getMaxAllowedSize (c : LruCache) : Z := u64 (m_maxSize c + m_elasticity c).
Definition cache_size (c : LruCache) : Z := Z.of_nat (size (m_cache c)).

(** One round of the loop of prune: the last node goes, through the
    callback, from the map and from the list. *)
Definition prune_back (c : LruCache) : option LruCache :=
  match list.last (m_keys c) with
  | None => None
  | Some (n, (k, v)) =>
    Some (mkLru (delete k (m_cache c)) (removelast (m_keys c)) (m_maxSize c) (m_elasticity c)
            (m_cb c) (m_fresh c) (if m_cb c then m_pruned c ++ [(k, v)] else m_pruned c))
  end.

Fixpoint prune_loop (fuel count : nat) : M lru_state nat := λ s,
  let c := s.2 in
  if (m_maxSize c <? cache_size c)%Z then
    match fuel with
    | O => Stuck OutOfFuel
    | S fuel =>
      match prune_back c with
      | None => Stuck OutOfBounds
      | Some c' => prune_loop fuel (S count) (s.1, c')
      end
    end
  else Ret count s.

(** LruCache::prune *)
Definition prune : M lru_state nat := λ s,
  let c := s.2 in
  if ((m_maxSize c =? 0) || (cache_size c <? getMaxAllowedSize c))%Z then Ret 0 s
  else (let! count := prune_loop (size (m_cache c)) 0 in
        let! _ := with_status (incPrune (Z.of_nat count)) in
        cret count) s.

Definition set_keys (l : list (nat * (K * V))) (c : LruCache) : LruCache :=
  mkLru (m_cache c) l (m_maxSize c) (m_elasticity c) (m_cb c) (m_fresh c) (m_pruned c).

(** LruCache::set *)
Definition lru_set (k : K) (v : V) : M lru_state unit :=
  let! _ := with_status (incSet 1) in
  let! s := cget in
  let c := s.2 in
  match m_cache c !! k with
  | Some it =>
    match find_node it (m_keys c) with
    | None => cstuck OutOfBounds
    | Some (k', _) =>
      match splice_front it (assign_node it (k', v) (m_keys c)) with
      | None => cstuck OutOfBounds
      | Some l => with_cache (set_keys l)
      end
    end
  | None =>
    let! _ := with_cache (λ c,
      mkLru (<[k := m_fresh c]> (m_cache c)) ((m_fresh c, (k, v)) :: m_keys c)
        (m_maxSize c) (m_elasticity c) (m_cb c) (S (m_fresh c)) (m_pruned c)) in
    let! _ := prune in cret tt
  end.

(** LruCache::get; the two overloads differ in how they report a miss. *)
Definition lru_get (k : K) : M lru_state (option V) :=
  let! _ := with_status (incGet 1) in
  let! s := cget in
  let c := s.2 in
  match m_cache c !! k with
  | None => cret None
  | Some it =>
    match splice_front it (m_keys c), find_node it (m_keys c) with
    | Some l, Some (_, v) =>
      let! _ := with_cache (set_keys l) in
      let! _ := with_status (incHit 1) in
      cret (Some v)
    | _, _ => cstuck OutOfBounds
    end
  end.

(** LruCache::del *)
Definition lru_del (k : K) : M lru_state bool :=
  let! _ := with_status (incDel 1) in
  let! s := cget in
  let c := s.2 in
  match m_cache c !! k with
  | None => cret false
  | Some it =>
    let! _ := with_cache (λ c,
      mkLru (delete k (m_cache c)) (erase_node it (m_keys c)) (m_maxSize c) (m_elasticity c)
        (m_cb c) (m_fresh c) (m_pruned c)) in
    cret true
  end.

Definition lru_exists (k : K) (c : LruCache) : bool := bool_decide (is_Some (m_cache c !! k)).
Definition lru_size (c : LruCache) : Z := cache_size c.
Definition lru_empty (c : LruCache) : bool := size (m_cache c) =? 0.
(** LruCache::clear *)
Definition lru_clear (c : LruCache) : LruCache :=
  mkLru ∅ [] (m_maxSize c) (m_elasticity c) (m_cb c) (m_fresh c) (m_pruned c).
Definition setMaxSize (v : Z) (c : LruCache) : LruCache :=
  mkLru (m_cache c) (m_keys c) v (m_elasticity c) (m_cb c) (m_fresh c) (m_pruned c).
Definition setElasticity (v : Z) (c : LruCache) : LruCache :=
  mkLru (m_cache c) (m_keys c) (m_maxSize c) v (m_cb c) (m_fresh c) (m_pruned c).
Definition setPruneCallback (cb : bool) (c : LruCache) : LruCache :=
  mkLru (m_cache c) (m_keys c) (m_maxSize c) (m_elasticity c) cb (m_fresh c) (m_pruned c).
End lru.
Arguments LruCache K V {_ _}.
Arguments lru_state K V {_ _}.
Arguments prune {K V _ _} _ : simpl never.


(** ** Node lists indexed by a map of keys

    [nodes_ok key l m fresh]: the map [m] has exactly the keys of the nodes
    of [l], each with the number of its node; numbers and keys are unique,
    and numbers from [fresh] on are unused. *)
Section indexed.
Context {K A : Type} `{Countable K} (key : A → K).
Implicit Types (l : list (nat * A)) (m : gmap K nat).

Definition index_entry (x : nat * A) : K * nat := (key x.2, x.1).

Definition nodes_ok l m (fresh : nat) : Prop :=
  NoDup ((key ∘ snd) <$> l) ∧ NoDup l.*1 ∧ Forall (λ n, n < fresh) l.*1 ∧
  m = list_to_map (index_entry <$> l).

Lemma fst_index_entry l : (index_entry <$> l).*1 = (key ∘ snd) <$> l.
Proof. by rewrite <- list_fmap_compose. Qed.

Lemma nodes_ok_size l m fresh : nodes_ok l m fresh → size m = length l.
Proof.
  intros (Hk & _ & _ & ->). rewrite map_size_list_to_map, length_fmap; [done|].
  by rewrite fst_index_entry.
Qed.

Lemma nodes_ok_perm l l' m fresh :
  l ≡ₚ l' → nodes_ok l m fresh → nodes_ok l' m fresh.
Proof.
  intros Hp (Hk & Hn & Hf & ->). unfold nodes_ok.
  pose proof (fmap_Permutation (key ∘ snd) _ _ Hp) as Hp1.
  pose proof (fmap_Permutation fst _ _ Hp) as Hp2.
  rewrite <- Hp1, <- Hp2. split_and!; [done..|].
  apply list_to_map_proper; [by rewrite fst_index_entry|by apply fmap_Permutation].
Qed.

Lemma nodes_ok_lookup l m fresh k n :
  nodes_ok l m fresh → m !! k = Some n ↔ ∃ a, (n, a) ∈ l ∧ key a = k.
Proof.
  intros (Hk & _ & _ & ->).
  rewrite <- elem_of_list_to_map by (by rewrite fst_index_entry).
  rewrite list_elem_of_fmap. split.
  - intros ([n' a] & [= -> ->] & ?). eauto.
  - intros (a & Ha & <-). by exists (n, a).
Qed.

Lemma nodes_ok_lookup_None l m fresh k :
  nodes_ok l m fresh → m !! k = None ↔ k ∉ ((key ∘ snd) <$> l).
Proof.
  intros (Hk & _ & _ & ->). rewrite <- fst_index_entry. split.
  - by apply not_elem_of_list_to_map_2.
  - by apply not_elem_of_list_to_map_1.
Qed.

(** The node of a key, and what the node operations do to it. *)
Lemma node_ops l1 n a l2 :
  n ∉ l1.*1 →
  find_node n (l1 ++ (n, a) :: l2) = Some a ∧
  erase_node n (l1 ++ (n, a) :: l2) = l1 ++ l2 ∧
  splice_front n (l1 ++ (n, a) :: l2) = Some ((n, a) :: l1 ++ l2) ∧
  ∀ b, assign_node n b (l1 ++ (n, a) :: l2) = l1 ++ (n, b) :: l2.
Proof.
  intros Hn. unfold splice_front.
  assert (find_node n (l1 ++ (n, a) :: l2) = Some a ∧
          erase_node n (l1 ++ (n, a) :: l2) = l1 ++ l2 ∧
          ∀ b, assign_node n b (l1 ++ (n, a) :: l2) = l1 ++ (n, b) :: l2)
    as (-> & -> & ?); [|done].
  induction l1 as [|[n' a'] l1 IH]; simpl in *.
  { by rewrite Nat.eqb_refl. }
  apply not_elem_of_cons in Hn as [Hne Hn].
  destruct (Nat.eqb_spec n' n); [by subst|].
  destruct (IH Hn) as (-> & -> & Hb). split_and!; [done..|].
  intros b. by rewrite Hb.
Qed.

Lemma nodes_ok_find l m fresh k n :
  nodes_ok l m fresh → m !! k = Some n →
  ∃ l1 a l2, l = l1 ++ (n, a) :: l2 ∧ (n ∉ l1.*1) ∧ key a = k.
Proof.
  intros Hok Hm. destruct (proj1 (nodes_ok_lookup _ _ _ _ _ Hok) Hm) as (a & Hin & Hk).
  apply list_elem_of_split in Hin as (l1 & l2 & ->).
  exists l1, a, l2. split_and!; [done| |done].
  destruct Hok as (_ & Hn & _). rewrite fmap_app, fmap_cons in Hn.
  apply list.NoDup_app in Hn as (_ & Hd & _). intros Hin.
  apply (Hd n Hin). left.
Qed.

Lemma nodes_ok_cons l m fresh a :
  nodes_ok l m fresh → m !! key a = None →
  nodes_ok ((fresh, a) :: l) (<[key a := fresh]> m) (S fresh).
Proof.
  intros Hok Hm. pose proof (proj1 (nodes_ok_lookup_None _ _ _ _ Hok) Hm).
  destruct Hok as (Hk & Hn & Hf & ->). unfold nodes_ok. simpl.
  rewrite Forall_forall in Hf. split_and!.
  - by apply list.NoDup_cons.
  - apply list.NoDup_cons. split; [|done]. intros Hin%list_elem_of_In%Hf. lia.
  - constructor; [lia|]. apply Forall_forall. intros x Hx%Hf. lia.
  - done.
Qed.

Lemma nodes_ok_erase l1 n a l2 m fresh :
  nodes_ok (l1 ++ (n, a) :: l2) m fresh → nodes_ok (l1 ++ l2) (delete (key a) m) fresh.
Proof.
  intros Hok. apply (nodes_ok_perm _ ((n, a) :: l1 ++ l2)) in Hok;
    [|by rewrite Permutation_middle].
  destruct Hok as (Hk & Hn & Hf & ->).
  csimpl in *.
  apply list.NoDup_cons in Hk as [Hk1 Hk], Hn as [_ Hn].
  apply Forall_cons_1 in Hf as [_ Hf].
  split_and!; [done..|]. simpl. rewrite delete_insert_id; [done|].
  apply not_elem_of_list_to_map_1. by rewrite fst_index_entry.
Qed.

Lemma nodes_ok_assign l1 n a b l2 m fresh :
  key b = key a →
  nodes_ok (l1 ++ (n, a) :: l2) m fresh → nodes_ok (l1 ++ (n, b) :: l2) m fresh.
Proof.
  intros Hb. unfold nodes_ok. rewrite !fmap_app, !fmap_cons. simpl.
  unfold index_entry. simpl. by rewrite Hb.
Qed.

Lemma nodes_ok_nil fresh : nodes_ok [] ∅ fresh.
Proof. repeat split; constructor. Qed.
End indexed.

(** ** The specification: a list of entries in order of recency *)
Section recency.
Context {K V : Type} `{Countable K}.

Record Recency := mkRecency {
  r_items : list (K * V);      (* most recently used first *)
  r_max : Z;
  r_elasticity : Z;
  r_cb : bool;
  r_dropped : list (K * V);    (* handed to the callback, oldest call first *)
  r_status : CacheStatus
}.
Definition r_update (items dropped : list (K * V)) (st : CacheStatus) (r : Recency) : Recency :=
  mkRecency items (r_max r) (r_elasticity r) (r_cb r) dropped st.

Definition without (k : K) (l : list (K * V)) : list (K * V) := filter (λ e, e.1 ≠ k) l.
Definition find_item (k : K) (l : list (K * V)) : option V := (list_to_map l : gmap K V) !! k.

Definition rec_prune (r : Recency) : Recency :=
  let n := length (r_items r) in
  if ((r_max r =? 0) || (Z.of_nat n <? u64 (r_max r + r_elasticity r)))%Z then r
  else let max := Z.to_nat (r_max r) in
       r_update (take max (r_items r))
         (r_dropped r ++ if r_cb r then reverse (drop max (r_items r)) else [])
         (incPrune (Z.of_nat (n - max)) (r_status r)) r.

Inductive lru_op :=
  | OSet (k : K) (v : V) | OGet (k : K) | ODel (k : K) | OExists (k : K) | OClear
  | OSetMaxSize (n : Z) | OSetElasticity (n : Z) | OSetPruneCallback (b : bool).
Inductive lru_res := RUnit | RVal (v : option V) | RBool (b : bool).

Definition rec_step (o : lru_op) (r : Recency) : lru_res * Recency :=
  match o with
  | OSet k v =>
    let st := incSet 1 (r_status r) in
    (RUnit, match find_item k (r_items r) with
            | Some _ => r_update ((k, v) :: without k (r_items r)) (r_dropped r) st r
            | None => rec_prune (r_update ((k, v) :: r_items r) (r_dropped r) st r)
            end)
  | OGet k =>
    let st := incGet 1 (r_status r) in
    match find_item k (r_items r) with
    | Some v => (RVal (Some v),
                 r_update ((k, v) :: without k (r_items r)) (r_dropped r) (incHit 1 st) r)
    | None => (RVal None, r_update (r_items r) (r_dropped r) st r)
    end
  | ODel k =>
    (RBool (bool_decide (is_Some (find_item k (r_items r)))),
     r_update (without k (r_items r)) (r_dropped r) (incDel 1 (r_status r)) r)
  | OExists k => (RBool (bool_decide (is_Some (find_item k (r_items r)))), r)
  | OClear => (RBool true, r_update [] (r_dropped r) (r_status r) r)
  | OSetMaxSize n =>
    (RUnit, mkRecency (r_items r) n (r_elasticity r) (r_cb r) (r_dropped r) (r_status r))
  | OSetElasticity n =>
    (RUnit, mkRecency (r_items r) (r_max r) n (r_cb r) (r_dropped r) (r_status r))
  | OSetPruneCallback b =>
    (RUnit, mkRecency (r_items r) (r_max r) (r_elasticity r) b (r_dropped r) (r_status r))
  end.

Fixpoint rec_run (os : list lru_op) (r : Recency) : list lru_res * Recency :=
  match os with
  | [] => ([], r)
  | o :: os => let '(x, r1) := rec_step o r in
               let '(xs, r2) := rec_run os r1 in (x :: xs, r2)
  end.

(** The same histories on the cache. *)
Definition lru_step (o : lru_op) : M (lru_state K V) lru_res :=
  match o with
  | OSet k v => let! _ := lru_set k v in cret RUnit
  | OGet k => let! r := lru_get k in cret (RVal r)
  | ODel k => let! b := lru_del k in cret (RBool b)
  | OExists k => creads (λ s, RBool (lru_exists k s.2))
  | OClear => let! _ := with_cache lru_clear in cret (RBool true)
  | OSetMaxSize n => let! _ := with_cache (setMaxSize n) in cret RUnit
  | OSetElasticity n => let! _ := with_cache (setElasticity n) in cret RUnit
  | OSetPruneCallback b => let! _ := with_cache (setPruneCallback b) in cret RUnit
  end.

Fixpoint lru_run (os : list lru_op) : M (lru_state K V) (list lru_res) :=
  match os with
  | [] => cret []
  | o :: os => let! x := lru_step o in let! xs := lru_run os in cret (x :: xs)
  end.

Definition entries (c : LruCache K V) : list (K * V) := (m_keys c).*2.
Definition abs (s : lru_state K V) : Recency :=
  mkRecency (entries s.2) (m_maxSize s.2) (m_elasticity s.2) (m_cb s.2) (m_pruned s.2) s.1.
Definition lru_wf (c : LruCache K V) : Prop :=
  nodes_ok fst (m_keys c) (m_cache c) (m_fresh c) ∧
  in_u 64 (m_maxSize c) ∧ in_u 64 (m_elasticity c).
(** The arguments of a history are values of [size_t]. *)
Definition op_ok (o : lru_op) : Prop :=
  match o with OSetMaxSize n | OSetElasticity n => in_u 64 n | _ => True end.
End recency.
Arguments Recency K V : clear implicits.
Arguments lru_op K V : clear implicits.
Arguments lru_res V : clear implicits.

Section lru_refinement.
Context {K V : Type} `{Countable K}.
Implicit Types (c : LruCache K V) (st : CacheStatus).

(** *** Entry lists with unique keys *)
Lemma without_notin k (l : list (K * V)) : k ∉ l.*1 → without k l = l.
Proof.
  unfold without. induction l as [|[k' v] l IH]; csimpl; [done|].
  intros [Hne Hk]%not_elem_of_cons.
  rewrite filter_cons_True by done. by rewrite IH.
Qed.

Lemma without_app_cons k v (l1 l2 : list (K * V)) :
  NoDup ((l1 ++ (k, v) :: l2).*1) → without k (l1 ++ (k, v) :: l2) = l1 ++ l2.
Proof.
  rewrite fmap_app. csimpl. intros (_ & Hd & Hn)%list.NoDup_app.
  apply list.NoDup_cons in Hn as [Hn _].
  unfold without. rewrite list.filter_app, filter_cons_False by (simpl; naive_solver).
  f_equal; [|by apply without_notin].
  apply without_notin. intros Hin. apply (Hd k Hin). left.
Qed.

Lemma find_item_app_cons k v (l1 l2 : list (K * V)) :
  NoDup ((l1 ++ (k, v) :: l2).*1) → find_item k (l1 ++ (k, v) :: l2) = Some v.
Proof.
  intros Hn. apply elem_of_list_to_map_1; [done|]. apply elem_of_app. right. left.
Qed.

Lemma find_item_None k (l : list (K * V)) : find_item k l = None ↔ k ∉ l.*1.
Proof.
  split; [apply not_elem_of_list_to_map_2|apply not_elem_of_list_to_map_1].
Qed.

Lemma lru_wf_keys c : lru_wf c → NoDup (entries c).*1.
Proof.
  intros [(Hk & _) _]. unfold entries. by rewrite <- list_fmap_compose.
Qed.

(** What the map of a well-formed cache knows about a key. *)
Lemma lru_wf_find c k n :
  lru_wf c → m_cache c !! k = Some n →
  ∃ (l1 : list (nat * (K * V))) v (l2 : list (nat * (K * V))),
    m_keys c = l1 ++ (n, (k, v)) :: l2 ∧ (n ∉ l1.*1) ∧
    entries c = l1.*2 ++ (k, v) :: l2.*2 ∧
    find_item k (entries c) = Some v ∧ without k (entries c) = l1.*2 ++ l2.*2.
Proof.
  intros Hwf Hm. pose proof (lru_wf_keys _ Hwf) as Hn. destruct Hwf as [Hok _].
  destruct (nodes_ok_find _ _ _ _ _ _ Hok Hm) as (l1 & [k' v] & l2 & Hl & Hn1 & Hk).
  simpl in Hk. subst k'.
  assert (entries c = l1.*2 ++ (k, v) :: l2.*2) as He.
  { unfold entries. by rewrite Hl, fmap_app. }
  rewrite He in Hn. exists l1, v, l2. split_and!; [done..| |].
  - rewrite He. by apply find_item_app_cons.
  - rewrite He. by apply without_app_cons.
Qed.

Lemma lru_wf_find_None c k :
  lru_wf c → m_cache c !! k = None → find_item k (entries c) = None.
Proof.
  intros [Hok _] Hm. apply find_item_None. unfold entries.
  rewrite <- list_fmap_compose. by apply (nodes_ok_lookup_None _ _ _ _ _ Hok).
Qed.

(** *** Each operation refines its specification *)
Definition pruned_to (c : LruCache K V) : LruCache K V :=
  let max := Z.to_nat (m_maxSize c) in
  mkLru (list_to_map (index_entry fst <$> take max (m_keys c))) (take max (m_keys c))
    (m_maxSize c) (m_elasticity c) (m_cb c) (m_fresh c)
    (m_pruned c ++ if m_cb c then reverse (drop max (m_keys c)).*2 else []).

Lemma pruned_to_small c :
  lru_wf c → length (m_keys c) ≤ Z.to_nat (m_maxSize c) → pruned_to c = c.
Proof.
  intros [(_ & _ & _ & Hm) _] Hl. unfold pruned_to.
  rewrite take_ge, drop_ge, <- Hm by done. destruct c; simpl.
  f_equal. case_match; by rewrite app_nil_r.
Qed.

Lemma prune_back_spec c (l : list (nat * (K * V))) n k v :
  lru_wf c → m_keys c = l ++ [(n, (k, v))] → Z.to_nat (m_maxSize c) ≤ length l →
  ∃ c', prune_back c = Some c' ∧ lru_wf c' ∧ m_keys c' = l ∧
    m_maxSize c' = m_maxSize c ∧ pruned_to c' = pruned_to c.
Proof.
  intros [Hok Hsz] Hl Hlen. unfold prune_back. rewrite Hl, last_snoc.
  eexists. split; [done|]. rewrite removelast_last. split_and!; simpl.
  - split; [|done]. simpl. rewrite Hl in Hok.
    apply nodes_ok_erase in Hok. by rewrite app_nil_r in Hok.
  - done.
  - done.
  - unfold pruned_to. simpl. rewrite Hl, take_app_le, drop_app_le by lia.
    f_equal. destruct (m_cb c); [|done].
    rewrite fmap_app, reverse_app, <- (assoc_L (++)). done.
Qed.

Lemma prune_loop_spec fuel count st c :
  lru_wf c → length (m_keys c) ≤ fuel →
  lru_wf (pruned_to c) ∧
  prune_loop fuel count (st, c) =
    Ret (count + (length (m_keys c) - Z.to_nat (m_maxSize c))) (st, pruned_to c).
Proof.
  revert count c. induction fuel as [|fuel IH]; intros count c Hwf Hf; simpl;
    unfold cache_size; rewrite (nodes_ok_size _ _ _ _ (proj1 Hwf)).
  all: pose proof (proj1 (proj2 Hwf)) as Hmax; unfold in_u in Hmax.
  all: destruct (Z.ltb_spec (m_maxSize c) (Z.of_nat (length (m_keys c)))) as [Hlt|Hge];
    [|rewrite pruned_to_small by (done || lia); split; [done|]; f_equal; lia].
  { lia. }
  destruct (m_keys c) as [|x l] eqn:Hl using rev_ind; [simpl in Hlt; lia|].
  clear IHl. destruct x as [n [k v]].
  rewrite length_app in *. simpl in *.
  destruct (prune_back_spec c l n k v Hwf Hl ltac:(lia)) as (c' & -> & Hwf' & Hl' & Hm' & <-).
  destruct (IH (S count) c' Hwf' ltac:(rewrite Hl'; lia)) as [? ->].
  split; [done|]. rewrite Hl', Hm'. f_equal. lia.
Qed.

Lemma prune_refines st c :
  lru_wf c →
  ∃ n st' c', prune (st, c) = Ret n (st', c') ∧ lru_wf c' ∧
    abs (st', c') = rec_prune (abs (st, c)).
Proof.
  intros Hwf. unfold prune, rec_prune, cache_size, getMaxAllowedSize. simpl.
  unfold entries. rewrite (nodes_ok_size _ _ _ _ (proj1 Hwf)), length_fmap.
  case_match; [by eexists _, _, _|].
  destruct (prune_loop_spec (length (m_keys c)) 0 st c Hwf) as [Hwf' Hp]; [done|].
  rewrite (cbind_Ret _ _ _ _ _ Hp). eexists _, _, _. split; [done|].
  split; [done|]. unfold abs, r_update, entries. simpl.
  by rewrite fmap_take, fmap_drop.
Qed.

Lemma lru_wf_set_keys c l1 n k v v' l2 :
  lru_wf c → m_keys c = l1 ++ (n, (k, v)) :: l2 →
  lru_wf (set_keys ((n, (k, v')) :: l1 ++ l2) c).
Proof.
  intros [Hok Hsz] Hl. split; [|done]. simpl. rewrite Hl in Hok.
  apply (nodes_ok_assign _ _ _ _ (k, v')) in Hok; [|done].
  eapply nodes_ok_perm, Hok. by rewrite Permutation_middle.
Qed.

Lemma lru_set_refines k v st c :
  lru_wf c →
  ∃ st' c', lru_set k v (st, c) = Ret tt (st', c') ∧ lru_wf c' ∧
    rec_step (OSet k v) (abs (st, c)) = (RUnit, abs (st', c')).
Proof.
  intros Hwf. unfold lru_set, with_status, with_cache, cmodify, cget, cbind. simpl.
  destruct (m_cache c !! k) as [n|] eqn:Hm.
  - destruct (lru_wf_find c k n Hwf Hm) as (l1 & v0 & l2 & Hl & Hn & He & -> & Hw).
    rewrite Hl. destruct (node_ops l1 n (k, v0) l2 Hn) as (-> & _ & _ & ->).
    destruct (node_ops l1 n (k, v) l2 Hn) as (_ & _ & -> & _).
    eexists _, _. split; [done|]. split; [by eapply lru_wf_set_keys|].
    rewrite Hw. unfold abs, r_update, entries. simpl. by rewrite fmap_app.
  - rewrite (lru_wf_find_None _ _ Hwf Hm). cbn [fst snd].
    set (c1 := mkLru _ _ _ _ _ _ _).
    assert (lru_wf c1) as Hwf1.
    { destruct Hwf as [Hok Hsz]. split; [|done]. by apply (nodes_ok_cons fst). }
    destruct (prune_refines (incSet 1 st) c1 Hwf1) as (cnt & st' & c' & -> & Hwf' & Habs).
    eexists _, _. split; [done|]. split; [done|]. by rewrite Habs.
Qed.

Lemma lru_get_refines k st c :
  lru_wf c →
  ∃ r st' c', lru_get k (st, c) = Ret r (st', c') ∧ lru_wf c' ∧
    rec_step (OGet k) (abs (st, c)) = (RVal r, abs (st', c')).
Proof.
  intros Hwf. unfold lru_get, with_status, with_cache, cmodify, cget, cbind. simpl.
  destruct (m_cache c !! k) as [n|] eqn:Hm.
  - destruct (lru_wf_find c k n Hwf Hm) as (l1 & v & l2 & Hl & Hn & He & -> & Hw).
    rewrite Hl. destruct (node_ops l1 n (k, v) l2 Hn) as (-> & _ & -> & _).
    eexists _, _, _. split; [done|]. split; [by eapply lru_wf_set_keys|].
    rewrite Hw. unfold abs, r_update, entries. simpl. by rewrite fmap_app.
  - rewrite (lru_wf_find_None _ _ Hwf Hm). by eexists _, _, _.
Qed.

Lemma lru_del_refines k st c :
  lru_wf c →
  ∃ b st' c', lru_del k (st, c) = Ret b (st', c') ∧ lru_wf c' ∧
    rec_step (ODel k) (abs (st, c)) = (RBool b, abs (st', c')).
Proof.
  intros Hwf. unfold lru_del, with_status, with_cache, cmodify, cget, cbind. simpl.
  destruct (m_cache c !! k) as [n|] eqn:Hm.
  - destruct (lru_wf_find c k n Hwf Hm) as (l1 & v & l2 & Hl & Hn & He & -> & ->).
    cbn [fst snd]. rewrite Hl. destruct (node_ops l1 n (k, v) l2 Hn) as (_ & -> & _ & _).
    eexists _, _, _. split; [done|]. split.
    + destruct Hwf as [Hok Hsz]. split; [|done]. simpl. rewrite Hl in Hok.
      by apply nodes_ok_erase in Hok.
    + unfold abs, r_update, entries. simpl. by rewrite fmap_app.
  - rewrite (lru_wf_find_None _ _ Hwf Hm). eexists _, _, _. split; [done|]. split; [done|].
    unfold abs, r_update. simpl.
    rewrite without_notin by (by apply find_item_None, lru_wf_find_None). done.
Qed.

Lemma lru_exists_refines k c :
  lru_wf c → lru_exists k c = bool_decide (is_Some (find_item k (entries c))).
Proof.
  intros Hwf. unfold lru_exists. apply bool_decide_ext.
  destruct (m_cache c !! k) as [n|] eqn:Hm.
  - destruct (lru_wf_find c k n Hwf Hm) as (? & ? & ? & _ & _ & _ & -> & _). done.
  - by rewrite (lru_wf_find_None _ _ Hwf Hm).
Qed.

Lemma lru_step_refines o st c :
  lru_wf c → op_ok o →
  ∃ r st' c', lru_step o (st, c) = Ret r (st', c') ∧ lru_wf c' ∧
    rec_step o (abs (st, c)) = (r, abs (st', c')).
Proof.
  intros Hwf Ho. pose proof Hwf as [Hok [? ?]]. destruct o; simpl in Ho; cbn [lru_step].
  - destruct (lru_set_refines k v st c Hwf) as (? & ? & Hs & ? & ?).
    rewrite (cbind_Ret _ _ _ _ _ Hs). by eexists _, _, _.
  - destruct (lru_get_refines k st c Hwf) as (? & ? & ? & Hs & ? & ?).
    rewrite (cbind_Ret _ _ _ _ _ Hs). by eexists _, _, _.
  - destruct (lru_del_refines k st c Hwf) as (? & ? & ? & Hs & ? & ?).
    rewrite (cbind_Ret _ _ _ _ _ Hs). by eexists _, _, _.
  - unfold creads. eexists _, _, _. split; [done|]. split; [done|].
    simpl. by rewrite lru_exists_refines.
  - eexists _, _, _. split; [done|]. split; [|done]. split; [apply nodes_ok_nil|done].
  - by eexists _, _, _.
  - by eexists _, _, _.
  - by eexists _, _, _.
Qed.

Lemma LruCache_new_wf max el : in_u 64 max → in_u 64 el → lru_wf (LruCache_new (K := K) (V := V) max el).
Proof. intros. split; [apply nodes_ok_nil|done]. Qed.

Lemma lru_refines_recency_aux os st c :
  lru_wf c → Forall op_ok os →
  ∃ rs st' c', lru_run os (st, c) = Ret rs (st', c') ∧ lru_wf c' ∧
    rec_run os (abs (st, c)) = (rs, abs (st', c')).
Proof.
  intros Hwf Hos. revert st c Hwf.
  induction Hos as [|o os Ho _ IH]; intros st c Hwf; [by eexists _, _, _|].
  destruct (lru_step_refines o st c Hwf Ho) as (r & st1 & c1 & Hs & Hwf1 & Hr).
  destruct (IH st1 c1 Hwf1) as (rs & st2 & c2 & Hs2 & Hwf2 & Hr2).
  exists (r :: rs), st2, c2. cbn [lru_run rec_run].
  rewrite (cbind_Ret _ _ _ _ _ Hs), (cbind_Ret _ _ _ _ _ Hs2), Hr, Hr2. done.
Qed.

(** C3: The LRU cache implements the recency list. From any well-formed
    state (in particular a new cache), every history of set, get, del,
    exists, clear and of changes of the limits and of the callback runs
    without touching a dead node, answers what the recency list answers,
    and ends in the same entries in the same order, the same calls of the
    prune callback and the same counters; the hash map and the node list
    stay in correspondence. *)
Theorem lru_refines_recency os st c :
  lru_wf c → Forall op_ok os →
  ∃ rs st' c', lru_run os (st, c) = Ret rs (st', c') ∧ lru_wf c' ∧
    rec_run os (abs (st, c)) = (rs, abs (st', c')).
Proof. apply lru_refines_recency_aux. Qed.
End lru_refinement.

(** ** What the recency list keeps *)
Section most_recent.
Context {K V : Type} `{Countable K}.
Implicit Types (r : Recency K V) (os : list (lru_op K V)) (rs : list (lru_res V)).

Definition access_op (o : lru_op K V) : Prop :=
  match o with OSet _ _ | OGet _ | OExists _ => True | _ => False end.

(** The keys a history uses: those set and those found by get. *)
Fixpoint accesses os rs : list K :=
  match os, rs with
  | OSet k _ :: os, _ :: rs => k :: accesses os rs
  | OGet k :: os, RVal (Some _) :: rs => k :: accesses os rs
  | _ :: os, _ :: rs => accesses os rs
  | _, _ => []
  end.
(** The distinct keys of a sequence of uses, the latest first. *)
Definition recent : list K → list K → list K :=
  foldl (λ acc k, k :: filter (λ k', k' ≠ k) acc).
(** The value last set for each key. *)
Definition last_values : gmap K V → list (lru_op K V) → gmap K V :=
  foldl (λ m o, match o with OSet k v => <[k := v]> m | _ => m end).

(** The most allowed entries between two operations. *)
Definition size_limit (max el : Z) : Z := Z.max max (max + el - 1).

Definition recency_inv r (R : list K) (m : gmap K V) : Prop :=
  NoDup (r_items r).*1 ∧
  (r_items r).*1 `prefix_of` R ∧
  (r_max r = 0%Z → (r_items r).*1 = R) ∧
  Z.to_nat (r_max r) `min` length R ≤ length (r_items r) ∧
  (0 < r_max r → r_max r + r_elasticity r < 2 ^ 64 →
    Z.of_nat (length (r_items r)) ≤ size_limit (r_max r) (r_elasticity r))%Z ∧
  (list_to_map (r_items r) : gmap K V) ⊆ m.

Lemma keys_without k (l : list (K * V)) :
  (without k l).*1 = filter (λ k', k' ≠ k) l.*1.
Proof.
  unfold without. induction l as [|[k' v] l IH]; csimpl; [done|].
  rewrite !filter_cons. simpl. case_decide; csimpl; by rewrite IH.
Qed.

Lemma filter_keys_notin k (ks : list K) : k ∉ ks → filter (λ k', k' ≠ k) ks = ks.
Proof.
  induction ks as [|k' ks IH]; [done|]. intros [Hne Hk]%not_elem_of_cons.
  rewrite filter_cons_True by done. by rewrite IH.
Qed.

Lemma prefix_filter k (P R : list K) :
  P `prefix_of` R → filter (λ k', k' ≠ k) P `prefix_of` filter (λ k', k' ≠ k) R.
Proof. intros [R' ->]. rewrite list.filter_app. by eexists. Qed.

Lemma find_item_Some k v (l : list (K * V)) :
  NoDup l.*1 → find_item k l = Some v → ∃ l1 l2, l = l1 ++ (k, v) :: l2.
Proof.
  unfold find_item. intros Hn Hf%elem_of_list_to_map_2. by apply list_elem_of_split in Hf.
Qed.

Lemma list_to_map_without k (l : list (K * V)) :
  (list_to_map (without k l) : gmap K V) = delete k (list_to_map l).
Proof.
  unfold without. induction l as [|[k' v] l IH]; csimpl; [by rewrite delete_empty|].
  rewrite filter_cons. simpl. destruct (decide (k' ≠ k)) as [Hd|Hd%dec_stable];
    csimpl; rewrite IH.
  - by rewrite delete_insert_ne.
  - subst. by rewrite delete_insert_eq.
Qed.

(** Using a key that is present moves it to the front. *)
Lemma recency_inv_touch r R m k v0 v m' dr st :
  recency_inv r R m → find_item k (r_items r) = Some v0 → <[k := v]> m ⊆ m' →
  recency_inv (r_update ((k, v) :: without k (r_items r)) dr st r)
    (k :: filter (λ k', k' ≠ k) R) m'.
Proof.
  intros (Hn & Hp & H0 & Hmin & Hmax & Hm) Hf Hm'.
  destruct (find_item_Some k v0 _ Hn Hf) as (l1 & l2 & Hl).
  assert (length (r_items r) = S (length (without k (r_items r)))) as Hlen.
  { rewrite Hl, without_app_cons by (by rewrite <- Hl).
    rewrite !length_app. simpl. lia. }
  assert (k ∈ R) as HkR.
  { destruct Hp as [R' ->]. rewrite Hl, !fmap_app. set_solver. }
  pose proof (length_filter_lt (λ k', k' ≠ k) R k HkR ltac:(naive_solver)).
  unfold recency_inv; simpl. rewrite keys_without. split_and!.
  - apply list.NoDup_cons. split; [|by apply list.NoDup_filter].
    intros [? _]%list_elem_of_filter. done.
  - by apply prefix_cons, prefix_filter.
  - intros HH. by rewrite H0.
  - lia.
  - intros. rewrite <- Hlen. auto.
  - rewrite list_to_map_without, insert_delete_eq.
    etrans; [by apply insert_mono|done].
Qed.

Lemma recency_inv_prune r R m :
  NoDup (r_items r).*1 → (r_items r).*1 `prefix_of` R →
  (0 ≤ r_max r)%Z → (0 ≤ r_elasticity r)%Z →
  (r_max r = 0%Z → (r_items r).*1 = R) →
  Z.to_nat (r_max r) `min` length R ≤ length (r_items r) →
  (list_to_map (r_items r) : gmap K V) ⊆ m →
  recency_inv (rec_prune r) R m.
Proof.
  intros Hn Hp Hpos Hel H0 Hmin Hm. unfold rec_prune, recency_inv, size_limit.
  destruct (Z.eqb_spec (r_max r) 0) as [Hz|Hz]; simpl.
  { split_and!; [done..| |done]. lia. }
  destruct (Z.ltb_spec (Z.of_nat (length (r_items r))) (u64 (r_max r + r_elasticity r)))
    as [Hlt|Hge]; simpl.
  { split_and!; [done..| |done]. intros.
    rewrite uwrap_id in Hlt by (unfold in_u; lia). lia. }
  set (n := Z.to_nat (r_max r)) in *. rewrite fmap_take, length_take. split_and!.
  - eapply sublist_NoDup; [done|]. apply sublist_take.
  - etrans; [|done]. exists (drop n (r_items r).*1). by rewrite take_drop.
  - done.
  - lia.
  - intros. lia.
  - etrans; [|done]. rewrite <- (take_drop n (r_items r)) at 2.
    rewrite list_to_map_app. apply map_union_subseteq_l.
Qed.

Lemma recency_inv_step o r R m x r' :
  recency_inv r R m → (0 ≤ r_max r)%Z → (0 ≤ r_elasticity r)%Z → access_op o →
  rec_step o r = (x, r') →
  recency_inv r' (recent R (accesses [o] [x])) (last_values m [o]) ∧
  r_max r' = r_max r ∧ r_elasticity r' = r_elasticity r.
Proof.
  intros Hinv Hmax Hel Ho. pose proof Hinv as (Hn & Hp & H0 & Hmin & Hlim & Hm).
  destruct o; try done; cbn [rec_step]; intros Hs; simplify_eq; cbn [accesses].
  - destruct (find_item k (r_items r)) as [v0|] eqn:Hf; simpl.
    { split; [|done]. by eapply recency_inv_touch. }
    pose proof (proj1 (find_item_None _ _) Hf) as Hk.
    split; [|by unfold rec_prune; case_match].
    apply recency_inv_prune; csimpl; [by apply list.NoDup_cons| | | | | |].
    + rewrite <- (filter_keys_notin k (r_items r).*1) by done.
      by apply prefix_cons, prefix_filter.
    + done.
    + done.
    + intros Hz. rewrite <- (H0 Hz), filter_keys_notin by done. done.
    + pose proof (length_filter (λ k', k' ≠ k) R). lia.
    + by apply insert_mono.
  - destruct (find_item k (r_items r)) as [v0|] eqn:Hf; simplify_eq; simpl; [|done].
    split; [|done]. eapply recency_inv_touch; [done..|].
    rewrite insert_id; [done|]. eapply lookup_weaken; [exact Hf|done].
  - done.
Qed.

Lemma recency_inv_run os r R m rs r' :
  recency_inv r R m → (0 ≤ r_max r)%Z → (0 ≤ r_elasticity r)%Z → Forall access_op os →
  rec_run os r = (rs, r') →
  recency_inv r' (recent R (accesses os rs)) (last_values m os) ∧
  r_max r' = r_max r ∧ r_elasticity r' = r_elasticity r.
Proof.
  intros Hinv Hmax Hel Hos. revert r R m rs Hinv Hmax Hel.
  induction Hos as [|o os Ho _ IH]; intros r R m rs Hinv Hmax Hel; cbn [rec_run].
  { intros [= <- <-]. done. }
  destruct (rec_step o r) as [x r1] eqn:Hs.
  destruct (rec_run os r1) as [xs r2] eqn:Hr. intros [= <- <-].
  destruct (recency_inv_step _ _ _ _ _ _ Hinv Hmax Hel Ho Hs) as (Hinv1 & Hm1 & He1).
  destruct (IH _ _ _ _ Hinv1 ltac:(lia) ltac:(lia) Hr) as (Hinv2 & Hm2 & He2).
  split; [|split; congruence].
  replace (recent R (accesses (o :: os) (x :: xs)))
    with (recent (recent R (accesses [o] [x])) (accesses os xs)); [done|].
  destruct o; try done; cbn [accesses]; destruct x as [|[]|]; done.
Qed.

(** The LRU cache keeps the most recently used keys. After any history
    of set, get and exists on a new cache, the cached keys, in list order,
    are a prefix of the distinct keys used, latest use first; the prefix is
    the whole list when the maximum is 0 (unlimited), has at least the
    maximum number of keys (or all of them), and at most the larger of max
    and max + elasticity - 1. Every cached value is the last one set for
    its key. *)
Theorem lru_keeps_most_recent max el os :
  in_u 64 max → in_u 64 el → Forall access_op os →
  ∃ rs st c, lru_run os (CacheStatus_new, LruCache_new max el) = Ret rs (st, c) ∧
    let R := recent [] (accesses os rs) in
    (entries c).*1 `prefix_of` R ∧
    (max = 0%Z → (entries c).*1 = R) ∧
    Z.to_nat max `min` length R ≤ length (entries c) ∧
    (0 < max → max + el < 2 ^ 64 → lru_size c ≤ size_limit max el)%Z ∧
    (list_to_map (entries c) : gmap K V) ⊆ last_values ∅ os.
Proof.
  intros Hmax Hel Hos.
  destruct (lru_refines_recency_aux os CacheStatus_new (LruCache_new max el))
    as (rs & st & c & Hrun & Hwf & Hrec).
  { by apply LruCache_new_wf. }
  { revert Hos. apply Forall_impl. by intros []. }
  exists rs, st, c. split; [done|].
  assert (recency_inv (abs (CacheStatus_new, LruCache_new (K := K) (V := V) max el)) [] ∅) as Hinv.
  { unfold recency_inv, abs, size_limit; simpl. split_and!; try done; [constructor|lia..]. }
  destruct (recency_inv_run _ _ _ _ _ _ Hinv (proj1 Hmax) (proj1 Hel) Hos Hrec)
    as ((_ & Hp & H0 & Hmin & Hlim & Hm) & Hx & Hy).
  simpl in *. rewrite Hx, Hy in *. split_and!; try done.
  unfold lru_size, cache_size. rewrite (nodes_ok_size _ _ _ _ (proj1 Hwf)).
  unfold entries in Hlim. by rewrite length_fmap in Hlim.
Qed.
End most_recent.

(** Witnesses: a cache of two entries without slack, a prune callback, and
    a history that evicts the least recently used key. *)
Definition lru_example : list (lru_op nat nat) :=
  [OSetPruneCallback true; OSet 1 10; OSet 2 20; OGet 1; OSet 3 30; OGet 2; ODel 1].

Lemma lru_refines_recency_witness :
  ∃ rs st c,
    lru_run lru_example (CacheStatus_new, LruCache_new 2 0) = Ret rs (st, c) ∧ lru_wf c ∧
    rec_run lru_example (abs (CacheStatus_new, LruCache_new 2 0)) = (rs, abs (st, c)).
Proof.
  apply (lru_refines_recency lru_example).
  - apply LruCache_new_wf; done.
  - repeat constructor.
Defined.

Example lru_example_runs :
  match lru_run lru_example (CacheStatus_new, LruCache_new 2 0) with
  | Ret rs (st, c) =>
    rs = [RUnit; RUnit; RUnit; RVal (Some 10); RUnit; RVal None; RBool true] ∧
    entries c = [(3, 30)] ∧ m_pruned c = [(2, 20)] ∧ st = mkStatus 2 3 1 0 1 1
  | _ => False
  end.
Proof. vm_compute. done. Qed.

Lemma lru_keeps_most_recent_witness :
  ∃ rs st c,
    lru_run [OSet 1 10; OSet 2 20; OGet 1; OSet 3 30] (CacheStatus_new, LruCache_new 2 0)
      = Ret rs (st, c) ∧
    let R := recent [] (accesses [OSet 1 10; OSet 2 20; OGet 1; OSet 3 30] rs) in
    (entries c).*1 `prefix_of` R ∧
    (2%Z = 0%Z → (entries c).*1 = R) ∧
    Z.to_nat 2 `min` length R ≤ length (entries c) ∧
    (0 < 2 → 2 + 0 < 2 ^ 64 → lru_size c ≤ size_limit 2 0)%Z ∧
    (list_to_map (entries c) : gmap nat nat) ⊆
      last_values ∅ [OSet 1 10; OSet 2 20; OGet 1; OSet 3 30].
Proof.
  apply (lru_keeps_most_recent 2 0 [OSet 1 10; OSet 2 20; OGet 1; OSet 3 30]); [done..|].
  repeat constructor.
Defined.
