(* ===== verification/OrderedSet.v ===== *)
(** * std::set ordered by deadline and key

    The timed caches keep a [std::set] ordered by [(ts, key)]. The set is
    its sequence in iteration order; [insert] and [erase] of a value compare
    with the elements, and an element equivalent to the argument counts as
    equal to it. *)
From Stdlib Require Import ZArith Lia Sorting.Sorted.
From stdpp Require Import base list sorting gmap list_numbers numbers.
From S2P Require Import Prelude.

(** [operator<] of the key type: a strict total order. *)
Class KeyOrder {K} (klt : K → K → bool) : Prop := {
  klt_irrefl k : klt k k = false;
  klt_trans a b c : klt a b = true → klt b c = true → klt a c = true;
  klt_total a b : a ≠ b → klt a b = true ∨ klt b a = true
}.

#[export] Instance nat_key_order : KeyOrder Nat.ltb.
Proof.
  split; intros *; rewrite ?Nat.ltb_lt, ?Nat.ltb_irrefl; try done; lia.
Qed.

Definition bool_lt (a b : bool) : bool := negb a && b.
#[export] Instance bool_key_order : KeyOrder bool_lt.
Proof. split; [by intros []|by intros [] [] []|intros [] []; cbn; auto]. Qed.

Section ordered.
Context {A K : Type} (klt : K → K → bool) (rank : A → Z * K).
Implicit Types (x y : A) (l : list A).

Definition rank_lt x y : bool :=
  if ((rank x).1 =? (rank y).1)%Z then klt (rank x).2 (rank y).2
  else ((rank x).1 <? (rank y).1)%Z.

Fixpoint os_insert x l : list A :=
  match l with
  | [] => [x]
  | y :: l' => if rank_lt x y then x :: y :: l'
               else if rank_lt y x then y :: os_insert x l'
               else y :: l'
  end.
Definition os_equiv x y : bool := negb (rank_lt x y) && negb (rank_lt y x).
Definition os_find x l : option A := snd <$> list_find (λ y, os_equiv x y = true) l.
Definition os_erase x l : list A := filter (λ y, os_equiv x y = false) l.

Definition os_sorted l : Prop := StronglySorted (λ x y, rank_lt x y = true) l.

Context `{!EqDecision K, !KeyOrder klt}.

Lemma rank_lt_irrefl x : rank_lt x x = false.
Proof. unfold rank_lt. rewrite Z.eqb_refl. apply (klt_irrefl (klt := klt)). Qed.

Lemma rank_lt_trans x y z : rank_lt x y = true → rank_lt y z = true → rank_lt x z = true.
Proof.
  unfold rank_lt.
  destruct (Z.eqb_spec (rank x).1 (rank y).1), (Z.eqb_spec (rank y).1 (rank z).1),
    (Z.eqb_spec (rank x).1 (rank z).1); rewrite ?Z.ltb_lt; try lia.
  apply klt_trans.
Qed.

Lemma rank_lt_total x y : rank x ≠ rank y → rank_lt x y = true ∨ rank_lt y x = true.
Proof.
  intros Hne. unfold rank_lt. rewrite (Z.eqb_sym (rank y).1).
  destruct (Z.eqb_spec (rank x).1 (rank y).1) as [He|]; [|rewrite !Z.ltb_lt; lia].
  apply klt_total. intros Hk. apply Hne. destruct (rank x), (rank y). by simpl in *; subst.
Qed.

Lemma rank_lt_ne x y : rank_lt x y = true → rank x ≠ rank y.
Proof.
  unfold rank_lt. intros Hlt Heq. rewrite Heq, Z.eqb_refl, (klt_irrefl (klt := klt)) in Hlt. done.
Qed.

Lemma rank_lt_asym x y : rank_lt x y = true → rank_lt y x = false.
Proof.
  intros Hlt. destruct (rank_lt y x) eqn:E; [|done].
  pose proof (rank_lt_trans _ _ _ Hlt E) as Hx. by rewrite rank_lt_irrefl in Hx.
Qed.

Lemma os_equiv_true x y : os_equiv x y = true ↔ rank x = rank y.
Proof.
  unfold os_equiv. split.
  - intros [H1%negb_true_iff H2%negb_true_iff]%andb_true_iff.
    destruct (decide (rank x = rank y)) as [|Hne]; [done|].
    destruct (rank_lt_total x y Hne); congruence.
  - intros Heq. unfold rank_lt. by rewrite Heq, Z.eqb_refl, (klt_irrefl (klt := klt)).
Qed.

Lemma os_equiv_false x y : os_equiv x y = false ↔ rank x ≠ rank y.
Proof. rewrite <- not_true_iff_false, os_equiv_true. done. Qed.

Lemma os_insert_perm x l :
  (∀ y, y ∈ l → rank y ≠ rank x) → os_insert x l ≡ₚ x :: l.
Proof.
  induction l as [|y l IH]; simpl; intros Hl; [done|].
  destruct (rank_lt x y) eqn:E1; [done|].
  destruct (rank_lt_total y x) as [->|]; [apply Hl; left| |congruence].
  rewrite IH by (intros; apply Hl; by right). apply Permutation_swap.
Qed.

Lemma Forall_os_insert (P : A → Prop) x l : P x → Forall P l → Forall P (os_insert x l).
Proof.
  intros Hx. induction 1 as [|y l Hy Hl IH]; simpl; [by repeat constructor|].
  repeat case_match; by repeat constructor.
Qed.

Lemma os_insert_sorted x l : os_sorted l → os_sorted (os_insert x l).
Proof.
  unfold os_sorted. induction 1 as [|y l Hl IH Hy]; simpl; [by repeat constructor|].
  destruct (rank_lt x y) eqn:E1; [|destruct (rank_lt y x) eqn:E2].
  - constructor; [by constructor|]. constructor; [done|].
    eapply Forall_impl; [|exact Hy]. intros z. by apply rank_lt_trans.
  - constructor; [done|]. by apply Forall_os_insert.
  - by constructor.
Qed.

(** An equivalent element blocks an insertion. *)
Lemma os_insert_present x y l :
  os_sorted l → y ∈ l → rank y = rank x → os_insert x l = l.
Proof.
  induction 1 as [|z l Hl IH Hz]; [by intros ?%elem_of_nil|].
  intros [->|Hin]%elem_of_cons Hr; simpl.
  - destruct (rank_lt x z) eqn:E1; [by apply rank_lt_ne in E1|].
    destruct (rank_lt z x) eqn:E2; [by apply rank_lt_ne in E2|]. done.
  - rewrite Forall_forall in Hz. pose proof (Hz y ltac:(by apply list_elem_of_In)) as Hzy.
    assert (rank_lt z x = true) as Hzx.
    { unfold rank_lt in *. by rewrite <- Hr. }
    rewrite Hzx, (rank_lt_asym _ _ Hzx). by rewrite IH.
Qed.

Lemma os_sorted_filter (P : A → Prop) `{∀ x, Decision (P x)} l :
  os_sorted l → os_sorted (filter P l).
Proof.
  unfold os_sorted. induction 1 as [|y l Hl IH Hy]; [constructor|].
  rewrite filter_cons. case_decide; [|done]. constructor; [done|].
  rewrite Forall_forall in *. intros z Hz. apply Hy.
  by apply list_elem_of_In, list_elem_of_filter, proj2, list_elem_of_In in Hz.
Qed.

Lemma os_erase_sorted x l : os_sorted l → os_sorted (os_erase x l).
Proof. apply os_sorted_filter. Qed.

Lemma os_sorted_ranks l : os_sorted l → NoDup (rank <$> l).
Proof.
  unfold os_sorted. induction 1 as [|y l Hl IH Hy]; csimpl; [constructor|].
  apply list.NoDup_cons. split; [|done]. intros (z & Hr & Hz)%list_elem_of_fmap.
  rewrite Forall_forall in Hy. apply list_elem_of_In, Hy in Hz.
  by apply rank_lt_ne in Hz.
Qed.

Lemma os_erase_notin x l : (∀ y, y ∈ l → rank y ≠ rank x) → os_erase x l = l.
Proof.
  unfold os_erase. induction l as [|y l IH]; intros Hl; [done|].
  rewrite filter_cons_True.
  - f_equal. apply IH. intros. apply Hl. by right.
  - apply os_equiv_false. intros ?. by apply (Hl y); [left|].
Qed.

Lemma os_erase_perm x l : NoDup (rank <$> l) → x ∈ l → l ≡ₚ x :: os_erase x l.
Proof.
  intros Hn Hx. apply list_elem_of_split in Hx as (l1 & l2 & ->).
  rewrite fmap_app, fmap_cons in Hn.
  apply list.NoDup_app in Hn as (_ & Hd & [Hx _]%list.NoDup_cons).
  assert (os_erase x (l1 ++ x :: l2) = l1 ++ l2) as ->; [|by rewrite Permutation_middle].
  unfold os_erase. rewrite list.filter_app, filter_cons_False.
  - f_equal; apply os_erase_notin; intros y Hy Hr.
    + apply (Hd (rank y)); [by apply list_elem_of_fmap_2|]. rewrite Hr. left.
    + apply Hx. rewrite <- Hr. by apply list_elem_of_fmap_2.
  - by rewrite not_false_iff_true, os_equiv_true.
Qed.
End ordered.
