(* ===== verification/TimedLruCache.v ===== *)
(** * The timed LRU cache (Sylar/DataStructure/timed_lru_cache.h)

    As in the LRU cache, list nodes have identities. [m_timed] is a
    [std::set] of node iterators ordered by [ItemTimeOp], which reads the
    deadline and the key of the nodes it compares: the set is the sequence
    of node numbers in iteration order, and comparing a node that is no
    longer in the list is undefined. The clock ([Sylar::GetCurrentMS]) is an
    argument of the operations that read it. *)
From Stdlib Require Import ZArith Lia Sorting.Sorted.
From stdpp Require Import base list sorting gmap list_numbers numbers.
From S2P Require Import Prelude LruCache OrderedSet.

Record Item (K V : Type) := mkItem { key : K; val : V; ts : Z }.
Arguments mkItem {K V} _ _ _.
Arguments key {K V} _.
Arguments val {K V} _.
Arguments ts {K V} _.

Section tlru.
Context {K V : Type} `{Countable K} (klt : K → K → bool).

Record TimedLruCache := mkTLru {
  t_cache : gmap K nat;
  t_keys : list (nat * Item K V);
  t_timed : list nat;
  t_maxSize : Z;
  t_elasticity : Z;
  t_cb : bool;               (* a prune callback is installed *)
  t_fresh : nat;             (* the next node allocated *)
  t_pruned : list (K * V)    (* what the callback has been called with *)
}.
Definition tlru_state : Type := CacheStatus * TimedLruCache.

Definition TimedLruCache_new (max_size elasticity : Z) : TimedLruCache :=
  mkTLru ∅ [] [] max_size elasticity false 0 [].

Definition upd_keys l (c : TimedLruCache) : TimedLruCache :=
  mkTLru (t_cache c) l (t_timed c) (t_maxSize c) (t_elasticity c) (t_cb c) (t_fresh c) (t_pruned c).
Definition upd_timed l (c : TimedLruCache) : TimedLruCache :=
  mkTLru (t_cache c) (t_keys c) l (t_maxSize c) (t_elasticity c) (t_cb c) (t_fresh c) (t_pruned c).
Definition upd_cache m (c : TimedLruCache) : TimedLruCache :=
  mkTLru m (t_keys c) (t_timed c) (t_maxSize c) (t_elasticity c) (t_cb c) (t_fresh c) (t_pruned c).
(** [if(m_cb) m_cb(key, val)] *)
Definition run_cb (x : Item K V) (c : TimedLruCache) : TimedLruCache :=
  mkTLru (t_cache c) (t_keys c) (t_timed c) (t_maxSize c) (t_elasticity c) (t_cb c) (t_fresh c)
    (if t_cb c then t_pruned c ++ [(key x, val x)] else t_pruned c).

Definition on_status (f : CacheStatus → CacheStatus) : M tlru_state unit :=
  cmodify (λ s, (f s.1, s.2)).
Definition on_cache (f : TimedLruCache → TimedLruCache) : M tlru_state unit :=
  cmodify (λ s, (s.1, f s.2)).
(** A step through iterators: undefined on a dangling one. *)
Definition on_nodes (f : TimedLruCache → option TimedLruCache) : M tlru_state unit := λ s,
  match f s.2 with Some c => Ret tt (s.1, c) | None => Stuck OutOfBounds end.

(** *** The set of deadlines: ItemTimeOp on list iterators *)
Definition node_rank (x : nat * Item K V) : Z * K := (ts x.2, key x.2).
Definition resolve (l : list (nat * Item K V)) : list nat → option (list (nat * Item K V)) :=
  mapM (λ n, a ← find_node n l; Some (n, a)).
Definition timed_insert (n : nat) (c : TimedLruCache) : option TimedLruCache :=
  a ← find_node n (t_keys c);
  rl ← resolve (t_keys c) (t_timed c);
  Some (upd_timed (os_insert klt node_rank (n, a) rl).*1 c).
Definition timed_erase (n : nat) (c : TimedLruCache) : option TimedLruCache :=
  a ← find_node n (t_keys c);
  rl ← resolve (t_keys c) (t_timed c);
  Some (upd_timed (os_erase klt node_rank (n, a) rl).*1 c).
Definition keys_splice (n : nat) (c : TimedLruCache) : option TimedLruCache :=
  l ← splice_front n (t_keys c); Some (upd_keys l c).
Definition keys_assign (n : nat) (v : V) (t : Z) (c : TimedLruCache) : option TimedLruCache :=
  a ← find_node n (t_keys c);
  Some (upd_keys (assign_node n (mkItem (key a) v t) (t_keys c)) c).

Definition t_size (c : TimedLruCache) : Z := Z.of_nat (size (t_cache c)).

(** One round of the loop of prune. *)
Definition tprune_back (c : TimedLruCache) : option TimedLruCache :=
  match list.last (t_keys c) with
  | None => None
  | Some (n, x) =>
    c2 ← timed_erase n (upd_cache (delete (key x) (t_cache c)) (run_cb x c));
    Some (upd_keys (removelast (t_keys c2)) c2)
  end.

Fixpoint tprune_loop (fuel count : nat) : M tlru_state nat := λ s,
  let c := s.2 in
  if (t_maxSize c <? t_size c)%Z then
    match fuel with
    | O => Stuck OutOfFuel
    | S fuel =>
      match tprune_back c with
      | None => Stuck OutOfBounds
      | Some c' => tprune_loop fuel (S count) (s.1, c')
      end
    end
  else Ret count s.

(** TimedLruCache::prune *)
Definition tprune : M tlru_state nat := λ s,
  let c := s.2 in
  if ((t_maxSize c =? 0) || (t_size c <? u64 (t_maxSize c + t_elasticity c)))%Z then Ret 0 s
  else (let! count := tprune_loop (size (t_cache c)) 0 in
        let! _ := on_status (incPrune (Z.of_nat count)) in
        cret count) s.

(** TimedLruCache::set *)
Definition tlru_set (now : Z) (k : K) (v : V) (expired : Z) : M tlru_state unit :=
  let! _ := on_status (incSet 1) in
  let! s := cget in
  match t_cache s.2 !! k with
  | Some it =>
    let! _ := on_nodes (keys_splice it) in
    let! _ := on_nodes (timed_erase it) in
    let! _ := on_nodes (keys_assign it v (u64 (expired + now))) in
    on_nodes (timed_insert it)
  | None =>
    let it := t_fresh s.2 in
    let! _ := on_cache (λ c,
      mkTLru (<[k := it]> (t_cache c)) ((it, mkItem k v (u64 (expired + now))) :: t_keys c)
        (t_timed c) (t_maxSize c) (t_elasticity c) (t_cb c) (S it) (t_pruned c)) in
    let! _ := on_nodes (timed_insert it) in
    let! _ := tprune in cret tt
  end.

(** TimedLruCache::get *)
Definition tlru_get (k : K) : M tlru_state (option V) :=
  let! _ := on_status (incGet 1) in
  let! s := cget in
  match t_cache s.2 !! k with
  | None => cret None
  | Some it =>
    let! _ := on_nodes (keys_splice it) in
    let! s := cget in
    match find_node it (t_keys s.2) with
    | None => cstuck OutOfBounds
    | Some a => let! _ := on_status (incHit 1) in cret (Some (val a))
    end
  end.

(** TimedLruCache::del *)
Definition tlru_del (k : K) : M tlru_state bool :=
  let! _ := on_status (incDel 1) in
  let! s := cget in
  match t_cache s.2 !! k with
  | None => cret false
  | Some it =>
    let! _ := on_nodes (timed_erase it) in
    let! _ := on_cache (λ c, upd_cache (delete k (t_cache c)) (upd_keys (erase_node it (t_keys c)) c)) in
    cret true
  end.

Definition tlru_exists (k : K) (c : TimedLruCache) : bool := bool_decide (is_Some (t_cache c !! k)).
Definition tlru_clear (c : TimedLruCache) : TimedLruCache :=
  upd_timed [] (upd_keys [] (upd_cache ∅ c)).
Definition tsetMaxSize (v : Z) (c : TimedLruCache) : TimedLruCache :=
  mkTLru (t_cache c) (t_keys c) (t_timed c) v (t_elasticity c) (t_cb c) (t_fresh c) (t_pruned c).
Definition tsetElasticity (v : Z) (c : TimedLruCache) : TimedLruCache :=
  mkTLru (t_cache c) (t_keys c) (t_timed c) (t_maxSize c) v (t_cb c) (t_fresh c) (t_pruned c).
Definition tsetPruneCallback (b : bool) (c : TimedLruCache) : TimedLruCache :=
  mkTLru (t_cache c) (t_keys c) (t_timed c) (t_maxSize c) (t_elasticity c) b (t_fresh c) (t_pruned c).

(** TimedLruCache::checkTimeout: erasing through the set's own iterator
    does not compare. *)
Fixpoint timeout_loop (fuel : nat) (t : Z) (count : nat) : M tlru_state nat := λ s,
  let c := s.2 in
  match t_timed c with
  | [] => Ret count s
  | n :: rest =>
    match find_node n (t_keys c) with
    | None => Stuck OutOfBounds
    | Some x =>
      if (ts x <=? t)%Z then
        match fuel with
        | O => Stuck OutOfFuel
        | S fuel =>
          let c1 := run_cb x c in
          let c2 := upd_cache (delete (key x) (t_cache c1)) c1 in
          let c3 := upd_keys (erase_node n (t_keys c2)) c2 in
          timeout_loop fuel t (S count) (s.1, upd_timed rest c3)
        end
      else Ret count s
    end
  end.
Definition tlru_checkTimeout (t : Z) : M tlru_state nat := λ s,
  timeout_loop (length (t_timed s.2)) t 0 s.
End tlru.
Arguments TimedLruCache K V {_ _}.
Arguments tlru_state K V {_ _}.
Arguments tprune {K V _ _} klt _ : simpl never.

(** ** The invariant *)
Section invariant.
Context {K V : Type} `{Countable K} (klt : K → K → bool) `{!KeyOrder klt}.
Implicit Types (c : TimedLruCache K V) (l rl : list (nat * Item K V)).

(** [m_timed] holds every node of the list once, by deadline, then key. *)
Definition timed_ok l (timed : list nat) : Prop :=
  ∃ rl, timed = rl.*1 ∧ rl ≡ₚ l ∧ os_sorted klt node_rank rl.

Definition tlru_wf c : Prop :=
  nodes_ok key (t_keys c) (t_cache c) (t_fresh c) ∧
  timed_ok (t_keys c) (t_timed c) ∧
  in_u 64 (t_maxSize c) ∧ in_u 64 (t_elasticity c).

Lemma timed_ok_intro l rl : rl ≡ₚ l → os_sorted klt node_rank rl → timed_ok l rl.*1.
Proof. intros. by exists rl. Qed.

Lemma find_node_elem l n a : NoDup l.*1 → (n, a) ∈ l → find_node n l = Some a.
Proof.
  intros Hn Hin. apply list_elem_of_split in Hin as (l1 & l2 & ->).
  apply node_ops. rewrite fmap_app, fmap_cons in Hn.
  apply list.NoDup_app in Hn as (_ & Hd & _). intros Hin. apply (Hd n Hin). left.
Qed.

Lemma resolve_ok l rl : NoDup l.*1 → (∀ x, x ∈ rl → x ∈ l) → resolve l rl.*1 = Some rl.
Proof.
  intros Hn. induction rl as [|[n a] rl IH]; intros Hsub; csimpl; [done|].
  unfold resolve in *. simpl.
  rewrite (find_node_elem l n a) by (done || apply Hsub; left). simpl.
  rewrite IH; [done|]. intros x Hx. apply Hsub. by right.
Qed.

Lemma timed_insert_spec c n a rl :
  NoDup (t_keys c).*1 → (n, a) ∈ t_keys c → t_timed c = rl.*1 →
  (∀ x, x ∈ rl → x ∈ t_keys c ∧ key x.2 ≠ key a) → os_sorted klt node_rank rl →
  ∃ rl', timed_insert klt n c = Some (upd_timed rl'.*1 c) ∧
    rl' ≡ₚ (n, a) :: rl ∧ os_sorted klt node_rank rl'.
Proof.
  intros Hn Hin Ht Hsub Hs. unfold timed_insert.
  rewrite (find_node_elem _ n a) by done. simpl.
  rewrite Ht, resolve_ok by (done || intros; by apply Hsub). simpl.
  eexists. split; [done|]. split.
  - apply (os_insert_perm klt node_rank). intros y Hy [= _ Hk]. by apply Hsub in Hy as [_ ?].
  - by apply (os_insert_sorted klt node_rank).
Qed.

Lemma timed_erase_spec c n a l' rl :
  NoDup (t_keys c).*1 → t_timed c = rl.*1 → rl ≡ₚ t_keys c → rl ≡ₚ (n, a) :: l' →
  os_sorted klt node_rank rl →
  ∃ rl', timed_erase klt n c = Some (upd_timed rl'.*1 c) ∧
    rl' ≡ₚ l' ∧ os_sorted klt node_rank rl'.
Proof.
  intros Hn Ht Hp Hp' Hs. unfold timed_erase.
  assert ((n, a) ∈ rl) as Hin by (rewrite Hp'; left).
  rewrite (find_node_elem _ n a) by (done || by rewrite <- Hp). simpl.
  rewrite Ht, resolve_ok by (done || intros; by rewrite <- Hp). simpl.
  eexists. split; [done|]. split; [|by apply os_erase_sorted].
  apply (Permutation_cons_inv (a := (n, a))). rewrite <- Hp'. symmetry.
  apply (os_erase_perm klt node_rank); [|done]. by apply (os_sorted_ranks klt).
Qed.

(** Removing a node by value keeps the two views together. *)
Lemma tlru_wf_erase c l1 n a l2 c1 :
  tlru_wf c → t_keys c = l1 ++ (n, a) :: l2 →
  t_keys c1 = t_keys c → t_timed c1 = t_timed c →
  ∃ timed, timed_erase klt n c1 = Some (upd_timed timed c1) ∧ timed_ok (l1 ++ l2) timed.
Proof.
  intros (Hok & (rl & Ht & Hp & Hs) & _) Hl Hk1 Ht1.
  destruct (timed_erase_spec c1 n a (l1 ++ l2) rl) as (rl' & -> & Hp' & Hs').
  - rewrite Hk1. by apply Hok.
  - congruence.
  - by rewrite Hk1.
  - by rewrite Hp, Hl, Permutation_middle.
  - done.
  - eexists. split; [done|]. by exists rl'.
Qed.

Lemma tlru_wf_find c k n :
  tlru_wf c → t_cache c !! k = Some n →
  ∃ l1 a l2, t_keys c = l1 ++ (n, a) :: l2 ∧ (n ∉ l1.*1) ∧ key a = k.
Proof. intros [Hok _] Hm. by eapply nodes_ok_find. Qed.

Lemma tlru_wf_node c n a l1 l2 :
  tlru_wf c → t_keys c = l1 ++ (n, a) :: l2 → n ∉ l1.*1.
Proof.
  intros [(_ & Hn & _) _] Hl. rewrite Hl, fmap_app, fmap_cons in Hn.
  apply list.NoDup_app in Hn as (_ & Hd & _). intros Hin. apply (Hd n Hin). left.
Qed.

Lemma nodes_ok_other_key l1 n a l2 m fresh x :
  nodes_ok key (l1 ++ (n, a) :: l2) m fresh → x ∈ l1 ++ l2 → key x.2 ≠ key a.
Proof.
  intros (Hk & _) Hx. rewrite <- Permutation_middle in Hk. csimpl in *.
  apply list.NoDup_cons in Hk as [Hk _]. intros Heq. apply Hk.
  rewrite <- Heq. by apply (list_elem_of_fmap_2 (key ∘ snd)).
Qed.
End invariant.

(** ** The specification: the recency list of the LRU cache, at values
    paired with their deadline, and the expiry of the overdue entries *)
Section specification.
Context {K V : Type} `{Countable K} (klt : K → K → bool).

Inductive tlru_op :=
  | TSet (now : Z) (k : K) (v : V) (expired : Z) | TGet (k : K) | TDel (k : K)
  | TExists (k : K) | TClear | TSetMaxSize (n : Z) | TSetElasticity (n : Z)
  | TSetPruneCallback (b : bool) | TCheckTimeout (t : Z).
Inductive tlru_res := TUnit | TVal (v : option V) | TBool (b : bool) | TCount (n : nat).

Definition entry_rank (e : K * (V * Z)) : Z * K := (e.2.2, e.1).
Definition entry_kv (e : K * (V * Z)) : K * V := (e.1, e.2.1).
Definition by_deadline : list (K * (V * Z)) → list (K * (V * Z)) :=
  foldr (os_insert klt entry_rank) [].
Definition overdue (t : Z) (l : list (K * (V * Z))) : list (K * (V * Z)) :=
  filter (λ e, (e.2.2 ≤ t)%Z) l.
Definition alive (t : Z) (l : list (K * (V * Z))) : list (K * (V * Z)) :=
  filter (λ e, (t < e.2.2)%Z) l.

Definition res_of (r : lru_res (V * Z)) : tlru_res :=
  match r with RUnit => TUnit | RVal v => TVal (fst <$> v) | RBool b => TBool b end.
Definition lru_op_of (o : tlru_op) : option (lru_op K (V * Z)) :=
  match o with
  | TSet now k v expired => Some (OSet k (v, u64 (expired + now)))
  | TGet k => Some (OGet k)
  | TDel k => Some (ODel k)
  | TExists k => Some (OExists k)
  | TClear => Some OClear
  | TSetMaxSize n => Some (OSetMaxSize n)
  | TSetElasticity n => Some (OSetElasticity n)
  | TSetPruneCallback b => Some (OSetPruneCallback b)
  | TCheckTimeout _ => None
  end.
Definition trec_timeout (t : Z) (r : Recency K (V * Z)) : tlru_res * Recency K (V * Z) :=
  let e := overdue t (r_items r) in
  (TCount (length e),
   r_update (alive t (r_items r)) (r_dropped r ++ if r_cb r then by_deadline e else [])
     (r_status r) r).
Definition trec_step (o : tlru_op) (r : Recency K (V * Z)) : tlru_res * Recency K (V * Z) :=
  match o, lru_op_of o with
  | TCheckTimeout t, _ => trec_timeout t r
  | _, Some o => let '(x, r') := rec_step o r in (res_of x, r')
  | _, None => (TUnit, r)
  end.
Fixpoint trec_run (os : list tlru_op) (r : Recency K (V * Z)) : list tlru_res * Recency K (V * Z) :=
  match os with
  | [] => ([], r)
  | o :: os => let '(x, r1) := trec_step o r in
               let '(xs, r2) := trec_run os r1 in (x :: xs, r2)
  end.

Definition tlru_step (o : tlru_op) : M (tlru_state K V) tlru_res :=
  match o with
  | TSet now k v expired => let! _ := tlru_set klt now k v expired in cret TUnit
  | TGet k => let! r := tlru_get k in cret (TVal r)
  | TDel k => let! b := tlru_del klt k in cret (TBool b)
  | TExists k => creads (λ s, TBool (tlru_exists k s.2))
  | TClear => let! _ := on_cache tlru_clear in cret (TBool true)
  | TSetMaxSize n => let! _ := on_cache (tsetMaxSize n) in cret TUnit
  | TSetElasticity n => let! _ := on_cache (tsetElasticity n) in cret TUnit
  | TSetPruneCallback b => let! _ := on_cache (tsetPruneCallback b) in cret TUnit
  | TCheckTimeout t => let! n := tlru_checkTimeout t in cret (TCount n)
  end.
Fixpoint tlru_run (os : list tlru_op) : M (tlru_state K V) (list tlru_res) :=
  match os with
  | [] => cret []
  | o :: os => let! x := tlru_step o in let! xs := tlru_run os in cret (x :: xs)
  end.

Definition item_entry (x : Item K V) : K * (V * Z) := (key x, (val x, ts x)).
Definition node_entry (x : nat * Item K V) : K * (V * Z) := item_entry x.2.

(** The cache [s] implements the recency list [r]. *)
Record tlru_sim (s : tlru_state K V) (r : Recency K (V * Z)) : Prop := {
  sim_wf : tlru_wf klt s.2;
  sim_items : r_items r = node_entry <$> t_keys s.2;
  sim_max : r_max r = t_maxSize s.2;
  sim_elasticity : r_elasticity r = t_elasticity s.2;
  sim_cb : r_cb r = t_cb s.2;
  sim_dropped : entry_kv <$> r_dropped r = t_pruned s.2;
  sim_status : r_status r = s.1
}.
Definition top_ok (o : tlru_op) : Prop :=
  match o with TSetMaxSize n | TSetElasticity n => in_u 64 n | _ => True end.
End specification.
Arguments tlru_op K V : clear implicits.
Arguments tlru_res V : clear implicits.

Section refinement.
Context {K V : Type} `{Countable K} (klt : K → K → bool) `{!KeyOrder klt}.
Implicit Types (c : TimedLruCache K V) (l rl : list (nat * Item K V)) (r : Recency K (V * Z)).

Lemma node_entry_keys l : (node_entry <$> l).*1 = (key ∘ snd) <$> l.
Proof. by rewrite <- list_fmap_compose. Qed.

Lemma tlru_find_None c k :
  tlru_wf klt c → t_cache c !! k = None → find_item k (node_entry <$> t_keys c) = None.
Proof.
  intros [Hok _] Hm. apply find_item_None. rewrite node_entry_keys.
  by apply (nodes_ok_lookup_None _ _ _ _ _ Hok).
Qed.

Lemma tlru_find_Some c l1 n a l2 :
  tlru_wf klt c → t_keys c = l1 ++ (n, a) :: l2 →
  find_item (key a) (node_entry <$> t_keys c) = Some (val a, ts a) ∧
  without (key a) (node_entry <$> t_keys c) = node_entry <$> l1 ++ l2.
Proof.
  intros [(Hk & _) _] Hl. rewrite Hl, <- node_entry_keys, fmap_app, fmap_cons in Hk.
  rewrite Hl, !fmap_app, fmap_cons.
  change (node_entry (n, a)) with (key a, (val a, ts a)) in *. split.
  - by apply find_item_app_cons.
  - by apply without_app_cons.
Qed.

Lemma tprune_back_spec c l n x :
  tlru_wf klt c → t_keys c = l ++ [(n, x)] →
  ∃ c', tprune_back klt c = Some c' ∧ tlru_wf klt c' ∧ t_keys c' = l ∧
    t_maxSize c' = t_maxSize c ∧ t_elasticity c' = t_elasticity c ∧ t_cb c' = t_cb c ∧
    t_pruned c' = t_pruned c ++ if t_cb c then [(key x, val x)] else [].
Proof.
  intros Hwf Hl. unfold tprune_back. rewrite Hl, last_snoc.
  destruct (tlru_wf_erase klt c l n x [] (upd_cache (delete (key x) (t_cache c)) (run_cb x c)))
    as (timed & -> & Ht); [done..|]. simpl.
  eexists. split; [done|]. destruct Hwf as (Hok & _ & Hsz).
  rewrite Hl in Hok. apply nodes_ok_erase in Hok. rewrite app_nil_r in Hok, Ht.
  unfold tlru_wf. simpl. rewrite Hl, removelast_last. split_and!; try apply Hsz; try done.
  case_match; [done|by rewrite app_nil_r].
Qed.

Lemma tprune_loop_spec fuel count st c :
  tlru_wf klt c → length (t_keys c) ≤ fuel →
  let max := Z.to_nat (t_maxSize c) in
  ∃ c', tprune_loop klt fuel count (st, c) = Ret (count + (length (t_keys c) - max)) (st, c') ∧
    tlru_wf klt c' ∧ t_keys c' = take max (t_keys c) ∧
    t_maxSize c' = t_maxSize c ∧ t_elasticity c' = t_elasticity c ∧ t_cb c' = t_cb c ∧
    t_pruned c' = t_pruned c ++
      if t_cb c then (λ x, (key x.2, val x.2)) <$> reverse (drop max (t_keys c)) else [].
Proof.
  intros Hwf Hf max. subst max.
  revert count c Hwf Hf. induction fuel as [|fuel IH]; intros count c Hwf Hf; simpl;
    unfold t_size; rewrite (nodes_ok_size _ _ _ _ (proj1 Hwf)).
  all: pose proof (proj1 (proj2 (proj2 Hwf))) as Hmax; unfold in_u in Hmax.
  all: destruct (Z.ltb_spec (t_maxSize c) (Z.of_nat (length (t_keys c)))) as [Hlt|Hge];
    [|exists c; rewrite take_ge, drop_ge by lia; split_and!; try done;
      [f_equal; lia|case_match; by rewrite app_nil_r]].
  { lia. }
  destruct (t_keys c) as [|[n x] l] eqn:Hl using rev_ind; [simpl in Hlt; lia|].
  clear IHl. rewrite length_app in *. simpl in *.
  destruct (tprune_back_spec c l n x Hwf Hl) as (c1 & -> & Hwf1 & Hl1 & Hm1 & He1 & Hc1 & Hp1).
  destruct (IH (S count) c1 Hwf1 ltac:(rewrite Hl1; lia))
    as (c2 & -> & Hwf2 & Hl2 & Hm2 & He2 & Hc2 & Hp2).
  exists c2. rewrite Hl1, Hm1 in *. rewrite take_app_le, drop_app_le by lia.
  split_and!; try congruence. 1: f_equal; lia.
  rewrite Hp2, Hp1, Hc1, <- (assoc_L (++)). f_equal. destruct (t_cb c); [|done].
  by rewrite reverse_app, fmap_app.
Qed.

Lemma tprune_refines st c r :
  tlru_sim klt (st, c) r →
  ∃ n s', tprune klt (st, c) = Ret n s' ∧ tlru_sim klt s' (rec_prune r).
Proof.
  intros [Hwf Hi Hm He Hc Hd Hs]. simpl in *. unfold tprune, rec_prune, t_size. simpl.
  rewrite Hi, Hm, He, length_fmap, (nodes_ok_size _ _ _ _ (proj1 Hwf)).
  case_match; [by eexists _, _|].
  destruct (tprune_loop_spec (length (t_keys c)) 0 st c Hwf)
    as (c' & Hp & Hwf' & Hl' & Hm' & He' & Hc' & Hp'); [done|].
  rewrite (cbind_Ret _ _ _ _ _ Hp). eexists _, _. split; [done|].
  split; simpl; try congruence.
  - by rewrite Hl', fmap_take.
  - rewrite fmap_app, Hd, Hp', Hc. f_equal. case_match; [|done].
    rewrite <- fmap_drop, <- fmap_reverse, <- list_fmap_compose. done.
Qed.

(** The path of set on a key that is present: splice, erase from the set
    under the old deadline, assign, insert under the new one. *)
Lemma tlru_set_hit c l1 n a l2 v t :
  tlru_wf klt c → t_keys c = l1 ++ (n, a) :: l2 →
  ∃ c1 c2 c3 c4, keys_splice n c = Some c1 ∧ timed_erase klt n c1 = Some c2 ∧
    keys_assign n v t c2 = Some c3 ∧ timed_insert klt n c3 = Some c4 ∧
    tlru_wf klt c4 ∧ t_keys c4 = (n, mkItem (key a) v t) :: l1 ++ l2 ∧
    t_maxSize c4 = t_maxSize c ∧ t_elasticity c4 = t_elasticity c ∧ t_cb c4 = t_cb c ∧
    t_pruned c4 = t_pruned c.
Proof.
  intros Hwf Hl. pose proof (tlru_wf_node klt c n a l1 l2 Hwf Hl) as Hn.
  pose proof Hwf as (Hok & (rl & Ht & Hp & Hs) & Hsz). rewrite Hl in Hok, Hp.
  rewrite <- Permutation_middle in Hp.
  pose proof (nodes_ok_perm _ _ ((n, a) :: l1 ++ l2) _ _ (symmetry (Permutation_middle _ _ _)) Hok)
    as Hok1.
  unfold keys_splice. rewrite Hl. destruct (node_ops l1 n a l2 Hn) as (_ & _ & -> & _). simpl.
  destruct (timed_erase_spec klt (upd_keys ((n, a) :: l1 ++ l2) c) n a (l1 ++ l2) rl)
    as (rl1 & He & Hp1 & Hs1); [apply Hok1|done..|].
  set (b := mkItem (key a) v t).
  pose proof (nodes_ok_assign key [] n a b _ _ _ eq_refl Hok1) as Hok2. simpl in Hok2.
  destruct (timed_insert_spec klt (upd_keys ((n, b) :: l1 ++ l2)
      (upd_timed rl1.*1 (upd_keys ((n, a) :: l1 ++ l2) c))) n b rl1)
    as (rl2 & Hi & Hp2 & Hs2); [apply Hok2|left|done| |done|].
  { intros x Hx. rewrite Hp1 in Hx. split; [by right|].
    by eapply nodes_ok_other_key in Hok. }
  eexists _, _, _, _. split; [done|]. split; [exact He|].
  split; [unfold keys_assign; simpl; by rewrite Nat.eqb_refl|].
  split; [exact Hi|]. split_and!; try done. split_and!; simpl; try apply Hsz; [done|].
  apply timed_ok_intro; [|done]. by rewrite Hp2, Hp1.
Qed.

Lemma tlru_set_refines st c r now k v expired :
  tlru_sim klt (st, c) r →
  ∃ s', tlru_set klt now k v expired (st, c) = Ret tt s' ∧
    tlru_sim klt s' (rec_step (OSet k (v, u64 (expired + now))) r).2.
Proof.
  intros Hsim. pose proof Hsim as [Hwf Hi Hm He Hc Hd Hs]. simpl in *.
  set (t := u64 (expired + now)).
  unfold tlru_set, on_status, on_cache, cmodify, cget, cbind, on_nodes. simpl.
  rewrite Hi. destruct (t_cache c !! k) as [n|] eqn:Hk.
  - destruct (tlru_wf_find klt c k n Hwf Hk) as (l1 & a & l2 & Hl & Hn & <-).
    destruct (tlru_find_Some c l1 n a l2 Hwf Hl) as [-> ->]. fold t. cbn [fst snd].
    destruct (tlru_set_hit c l1 n a l2 v t Hwf Hl)
      as (c1 & c2 & c3 & c4 & -> & He1 & Ha & Hi4 & Hwf4 & Hl4 & Hm4 & He4 & Hc4 & Hp4).
    simpl. rewrite He1. simpl. rewrite Ha. simpl. rewrite Hi4.
    eexists. split; [done|]. split; simpl; try congruence. by rewrite Hl4.
  - rewrite (tlru_find_None c k Hwf Hk). fold t. cbn [fst snd].
    set (c1 := mkTLru _ _ _ _ _ _ _ _).
    pose proof Hwf as (Hok & (rl & Ht & Hp & Hsr) & Hsz).
    assert (nodes_ok key (t_keys c1) (t_cache c1) (t_fresh c1)) as Hok1
      by (by apply (nodes_ok_cons key _ _ _ (mkItem k v t))).
    destruct (timed_insert_spec klt c1 (t_fresh c) (mkItem k v t) rl)
      as (rl1 & -> & Hp1 & Hs1); simpl.
    + apply Hok1.
    + left.
    + done.
    + intros x Hx. rewrite Hp in Hx. split; [by right|].
      eapply (nodes_ok_other_key [] _ (mkItem k v t)); [exact Hok1|done].
    + done.
    + destruct (tprune_refines (incSet 1 st) (upd_timed rl1.*1 c1)
        (r_update ((k, (v, t)) :: (node_entry <$> t_keys c)) (r_dropped r) (incSet 1 (r_status r)) r))
        as (cnt & s' & -> & Hsim'); [|by eexists].
      split; simpl; try congruence; [|done]. split_and!; simpl; try apply Hsz; [done|].
      apply timed_ok_intro; [|done]. by rewrite Hp1, Hp.
Qed.

Lemma tlru_get_refines st c r k :
  tlru_sim klt (st, c) r →
  ∃ s', tlru_get k (st, c) = Ret (fst <$> find_item k (r_items r)) s' ∧
    tlru_sim klt s' (rec_step (OGet k) r).2.
Proof.
  intros Hsim. pose proof Hsim as [Hwf Hi Hm He Hc Hd Hs]. simpl in *.
  unfold tlru_get, on_status, on_cache, cmodify, cget, cbind, on_nodes, keys_splice. simpl.
  rewrite Hi. destruct (t_cache c !! k) as [n|] eqn:Hk.
  - destruct (tlru_wf_find klt c k n Hwf Hk) as (l1 & a & l2 & Hl & Hn & <-).
    destruct (tlru_find_Some c l1 n a l2 Hwf Hl) as [-> ->]. cbn [fst snd].
    rewrite Hl. destruct (node_ops l1 n a l2 Hn) as (_ & _ & -> & _). simpl.
    rewrite Nat.eqb_refl. eexists. split; [done|].
    split; simpl; try congruence; [|done].
    destruct Hwf as (Hok & (rl & Ht & Hp & Hsr) & Hsz). rewrite Hl in Hok, Hp.
    split_and!; simpl; try apply Hsz.
    + eapply nodes_ok_perm, Hok. by rewrite Permutation_middle.
    + rewrite Ht. apply timed_ok_intro; [|done]. by rewrite Hp, Permutation_middle.
  - rewrite (tlru_find_None c k Hwf Hk). eexists. split; [done|].
    split; simpl; congruence.
Qed.

Lemma tlru_del_refines st c r k :
  tlru_sim klt (st, c) r →
  ∃ s', tlru_del klt k (st, c) = Ret (bool_decide (is_Some (find_item k (r_items r)))) s' ∧
    tlru_sim klt s' (rec_step (ODel k) r).2.
Proof.
  intros Hsim. pose proof Hsim as [Hwf Hi Hm He Hc Hd Hs]. simpl in *.
  unfold tlru_del, on_status, on_cache, cmodify, cget, cbind, on_nodes. simpl.
  rewrite Hi. destruct (t_cache c !! k) as [n|] eqn:Hk.
  - destruct (tlru_wf_find klt c k n Hwf Hk) as (l1 & a & l2 & Hl & Hn & <-).
    destruct (tlru_find_Some c l1 n a l2 Hwf Hl) as [-> ->]. cbn [fst snd].
    destruct (tlru_wf_erase klt c l1 n a l2 c Hwf Hl) as (timed & -> & Htk); [done..|].
    simpl. eexists. split; [done|].
    assert (erase_node n (t_keys c) = l1 ++ l2) as Hl'
      by (rewrite Hl; by apply node_ops).
    split; simpl; try congruence.
    destruct Hwf as (Hok & _ & Hsz). rewrite Hl in Hok. apply nodes_ok_erase in Hok.
    split_and!; simpl; try apply Hsz; rewrite ?Hl'; done.
  - rewrite (tlru_find_None c k Hwf Hk). eexists. split; [done|].
    rewrite without_notin by (by apply find_item_None, tlru_find_None).
    split; simpl; congruence.
Qed.

(** *** checkTimeout *)
Lemma by_deadline_sorted (l : list (K * (V * Z))) :
  os_sorted klt entry_rank (by_deadline klt l).
Proof.
  induction l as [|e l IH]; [constructor|]. by apply (os_insert_sorted klt entry_rank).
Qed.

Lemma by_deadline_perm (l : list (K * (V * Z))) :
  NoDup l.*1 → by_deadline klt l ≡ₚ l.
Proof.
  induction l as [|e l IH]; csimpl; [done|]. intros [He Hl]%list.NoDup_cons.
  unfold by_deadline. cbn [foldr]. fold (by_deadline klt l).
  rewrite (os_insert_perm klt entry_rank); [by rewrite (IH Hl)|].
  intros y Hy [= _ Hk]. apply He. rewrite (IH Hl) in Hy. rewrite <- Hk.
  by apply list_elem_of_fmap_2.
Qed.

Lemma by_deadline_unique (l l' : list (K * (V * Z))) :
  NoDup l.*1 → l' ≡ₚ l → os_sorted klt entry_rank l' → l' = by_deadline klt l.
Proof.
  intros Hn Hp Hs. eapply StronglySorted_unique_strong; [|done|apply by_deadline_sorted|].
  - intros x1 x2 _ _ Hx Hy. apply (rank_lt_asym klt entry_rank) in Hx. congruence.
  - by rewrite by_deadline_perm.
Qed.

Lemma os_sorted_entries rl :
  os_sorted klt node_rank rl → os_sorted klt entry_rank (node_entry <$> rl).
Proof.
  unfold os_sorted. induction 1 as [|x rl Hrl IH Hx]; csimpl; [constructor|].
  constructor; [done|]. by apply Forall_fmap.
Qed.

Definition late t : nat * Item K V → Prop := λ x, (ts x.2 ≤ t)%Z.

#[local] Instance late_dec t x : Decision (late t x).
Proof. unfold late. apply _. Defined.

Lemma overdue_nodes t l : overdue t (node_entry <$> l) = node_entry <$> filter (late t) l.
Proof.
  unfold overdue. induction l as [|x l IH]; csimpl; [done|].
  rewrite !filter_cons.
  repeat case_decide; csimpl; rewrite ?IH; try done; unfold late in *; simpl in *; lia.
Qed.
Lemma alive_nodes t l :
  alive t (node_entry <$> l) = node_entry <$> filter (λ x, ¬ late t x) l.
Proof.
  unfold alive. induction l as [|x l IH]; csimpl; [done|].
  rewrite !filter_cons.
  repeat case_decide; csimpl; rewrite ?IH; try done; unfold late in *; simpl in *; lia.
Qed.

Lemma filter_none {A} (P : A → Prop) `{∀ x, Decision (P x)} (l : list A) :
  Forall (λ x, ¬ P x) l → filter P l = [] ∧ filter (λ x, ¬ P x) l = l.
Proof.
  induction 1 as [|x l Hx _ [IH1 IH2]]; [done|].
  rewrite filter_cons_False, filter_cons_True, IH2 by done. done.
Qed.

(** The loop takes the overdue prefix of the set. *)
Lemma timeout_loop_spec rl fuel t count st c :
  tlru_wf klt c → t_timed c = rl.*1 → rl ≡ₚ t_keys c → os_sorted klt node_rank rl →
  length rl ≤ fuel →
  ∃ c', timeout_loop fuel t count (st, c) =
      Ret (count + length (filter (late t) rl)) (st, c') ∧
    tlru_wf klt c' ∧ t_keys c' = filter (λ x, ¬ late t x) (t_keys c) ∧
    t_maxSize c' = t_maxSize c ∧ t_elasticity c' = t_elasticity c ∧ t_cb c' = t_cb c ∧
    t_pruned c' = t_pruned c ++
      if t_cb c then entry_kv <$> (node_entry <$> filter (late t) rl) else [].
Proof.
  revert fuel count c. induction rl as [|[n x] rl IH]; intros fuel count c Hwf Ht Hp Hs Hf.
  { exists c. apply Permutation_nil_l in Hp. rewrite <- Hp.
    destruct fuel; simpl; rewrite Ht; csimpl; split_and!; try done;
      [f_equal; lia|case_match; by rewrite app_nil_r|f_equal; lia|
       case_match; by rewrite app_nil_r]. }
  apply StronglySorted_inv in Hs as [Hs Hx].
  assert ((n, x) ∈ t_keys c) as Hin by (rewrite <- Hp; left).
  apply list_elem_of_split in Hin as (l1 & l2 & Hl).
  pose proof (tlru_wf_node klt c n x l1 l2 Hwf Hl) as Hn.
  destruct (node_ops l1 n x l2 Hn) as (Hfind & Herase & _ & _). rewrite <- Hl in Hfind, Herase.
  destruct (decide (late t (n, x))) as [Hlate|Hlate].
  - rewrite (filter_cons_True (late t)) by done.
    destruct fuel as [|fuel]; [simpl in Hf; lia|]. cbn [timeout_loop snd fst].
    rewrite Ht. cbn. rewrite Hfind. unfold late in Hlate. simpl in Hlate.
    apply Z.leb_le in Hlate as Hleb. rewrite Hleb.
    rewrite Herase.
    match goal with |- context [timeout_loop fuel t (S count) (st, ?c1)] =>
      destruct (IH fuel (S count) c1) as (c' & Hr & Hwf' & Hl' & Hm' & He' & Hc' & Hp') end.
    + destruct Hwf as (Hok & _ & Hsz). rewrite Hl in Hok.
      split_and!; simpl; try apply Hsz; [by apply nodes_ok_erase in Hok|].
      apply timed_ok_intro; [|done].
      apply (Permutation_cons_inv (a := (n, x))). by rewrite Hp, Hl, Permutation_middle.
    + done.
    + simpl. apply (Permutation_cons_inv (a := (n, x))).
      by rewrite Hp, Hl, Permutation_middle.
    + done.
    + simpl in Hf. lia.
    + exists c'. rewrite Hr. simpl in *.
      split_and!; try done; [f_equal; lia| |].
      * rewrite Hl', Hl, !list.filter_app, filter_cons_False by (unfold late; simpl; lia).
        done.
      * rewrite Hp'. destruct (t_cb c); [|done]. by rewrite <- (assoc_L (++)).
  - assert (Forall (λ y, ¬ late t y) ((n, x) :: rl)) as Hall.
    { constructor; [done|]. eapply Forall_impl; [|exact Hx]. intros y Hy.
      unfold rank_lt in Hy. simpl in Hy. unfold late in *. simpl in *.
      destruct (Z.eqb_spec (ts x) (ts y.2)); [lia|]. apply Z.ltb_lt in Hy. lia. }
    destruct (filter_none (late t) _ Hall) as [-> _].
    assert (Forall (λ y, ¬ late t y) (t_keys c)) as Hall2 by (by rewrite <- Hp).
    destruct (filter_none (late t) _ Hall2) as [_ ->].
    exists c. unfold late in Hlate. simpl in Hlate. apply Z.leb_nle in Hlate.
    split_and!; try done; [|by case_match; rewrite app_nil_r].
    destruct fuel; cbn; rewrite Ht; cbn; rewrite Hfind, Hlate; f_equal; lia.
Qed.

Lemma tlru_checkTimeout_refines st c r t :
  tlru_sim klt (st, c) r →
  ∃ s', tlru_checkTimeout t (st, c) = Ret (length (overdue t (r_items r))) s' ∧
    tlru_sim klt s' (trec_timeout klt t r).2.
Proof.
  intros [Hwf Hi Hm He Hc Hd Hs]. simpl in *.
  pose proof Hwf as ((Hk & _) & (rl & Ht & Hp & Hsr) & _).
  unfold tlru_checkTimeout. simpl.
  destruct (timeout_loop_spec rl (length (t_timed c)) t 0 st c)
    as (c' & -> & Hwf' & Hl' & Hm' & He' & Hc' & Hp'); [done..|by rewrite Ht, length_fmap|].
  assert (filter (late t) rl ≡ₚ filter (late t) (t_keys c)) as Hpf by (by rewrite Hp).
  rewrite Hi, overdue_nodes, length_fmap, <- (Permutation_length Hpf). eexists. split; [done|].
  split; simpl; try congruence.
  - by rewrite Hl', alive_nodes.
  - rewrite Hp', fmap_app, Hd, Hc. f_equal. case_match; [|done]. f_equal. symmetry.
    apply by_deadline_unique; rewrite ?overdue_nodes.
    + rewrite node_entry_keys. eapply sublist_NoDup; [exact Hk|].
      apply (fmap_sublist (key ∘ snd)), sublist_filter.
    + by apply fmap_Permutation.
    + by apply os_sorted_entries, os_sorted_filter.
Qed.

Lemma tlru_step_refines o s r :
  tlru_sim klt s r → top_ok o →
  ∃ x s', tlru_step klt o s = Ret x s' ∧ (trec_step klt o r).1 = x ∧
    tlru_sim klt s' (trec_step klt o r).2.
Proof.
  destruct s as [st c]. intros Hsim Ho. pose proof Hsim as [Hwf Hi Hm He Hc Hd Hs].
  pose proof Hwf as (Hok & Ht & Hmx & Hel). simpl in *.
  destruct o; simpl in Ho; cbn [tlru_step]; unfold trec_step; cbn [lru_op_of].
  - destruct (tlru_set_refines st c r now k v expired Hsim) as (s' & Hr & Hsim').
    rewrite (cbind_Ret _ _ _ _ _ Hr). destruct (rec_step _ r) as [x r'] eqn:Hrec.
    eexists _, _. split; [done|]. split; [|done]. cbn in Hrec. by injection Hrec as <- _.
  - destruct (tlru_get_refines st c r k Hsim) as (s' & Hr & Hsim').
    rewrite (cbind_Ret _ _ _ _ _ Hr). destruct (rec_step _ r) as [x r'] eqn:Hrec.
    eexists _, _. split; [done|]. split; [|done]. cbn in Hrec.
    destruct (find_item k (r_items r)); by injection Hrec as <- _.
  - destruct (tlru_del_refines st c r k Hsim) as (s' & Hr & Hsim').
    rewrite (cbind_Ret _ _ _ _ _ Hr). eexists _, _. split; [done|]. split; [|exact Hsim'].
    by cbn.
  - eexists _, _. split; [done|]. split; [|done]. cbn. f_equal. apply bool_decide_ext.
    rewrite Hi. destruct (t_cache c !! k) as [n|] eqn:Hk.
    + destruct (tlru_wf_find klt c k n Hwf Hk) as (l1 & a & l2 & Hl & _ & <-).
      by destruct (tlru_find_Some c l1 n a l2 Hwf Hl) as [-> _].
    + by rewrite (tlru_find_None c k Hwf Hk).
  - eexists _, _. split; [done|]. split; [done|]. split; simpl; try done.
    split_and!; try done; [apply nodes_ok_nil|]. exists []. split_and!; try done. constructor.
  - eexists _, _. split; [done|]. split; [done|]. split; simpl; try done.
  - eexists _, _. split; [done|]. split; [done|]. split; simpl; try done.
  - eexists _, _. split; [done|]. split; [done|]. split; simpl; try done.
  - destruct (tlru_checkTimeout_refines st c r t Hsim) as (s' & Hr & Hsim').
    rewrite (cbind_Ret _ _ _ _ _ Hr). by eexists _, _.
Qed.

Lemma TimedLruCache_new_sim max el :
  in_u 64 max → in_u 64 el →
  tlru_sim klt (CacheStatus_new, TimedLruCache_new (K := K) (V := V) max el)
    (mkRecency [] max el false [] CacheStatus_new).
Proof.
  intros. split; simpl; try done. split_and!; try done; [apply nodes_ok_nil|].
  exists []. split_and!; try done. constructor.
Qed.

(** The timed LRU cache implements the recency list with deadlines.
    Every history of operations, checkTimeout included, runs from a state
    that implements a recency list to one that implements its result, with
    the same answers: set, get and del behave as in the LRU cache; an
    entry's deadline is its lifetime added to the clock when it was last
    set; checkTimeout removes exactly the overdue entries, keeps the others
    in their order, and calls the callback on the removed ones by deadline,
    then key. No step follows a dangling iterator, and the set of deadlines
    stays the list of nodes sorted. *)
Theorem timed_lru_refines_recency os s r :
  tlru_sim klt s r → Forall top_ok os →
  ∃ xs s', tlru_run klt os s = Ret xs s' ∧ (trec_run klt os r).1 = xs ∧
    tlru_sim klt s' (trec_run klt os r).2.
Proof.
  intros Hsim Hos. revert s r Hsim.
  induction Hos as [|o os Ho _ IH]; intros s r Hsim; [by eexists _, _|].
  destruct (tlru_step_refines o s r Hsim Ho) as (x & s1 & Hs & Hx & Hsim1).
  destruct (IH s1 _ Hsim1) as (xs & s2 & Hs2 & Hxs & Hsim2).
  cbn [tlru_run trec_run].
  rewrite (cbind_Ret _ _ _ _ _ Hs), (cbind_Ret _ _ _ _ _ Hs2).
  destruct (trec_step klt o r) as [x' r1]. simpl in *.
  destruct (trec_run klt os r1) as [xs' r2]. simpl in *. subst. by eexists _, _.
Qed.
End refinement.

Definition timed_lru_example : list (tlru_op nat nat) :=
  [TSetPruneCallback true; TSet 100 1 10 50; TSet 100 2 20 30; TSet 110 3 30 500;
   TSet 120 1 11 5; TCheckTimeout 130; TGet 3; TExists 1].

Lemma timed_lru_refines_recency_witness :
  ∃ xs s', tlru_run Nat.ltb timed_lru_example (CacheStatus_new, TimedLruCache_new 0 0) = Ret xs s' ∧
    (trec_run Nat.ltb timed_lru_example (mkRecency [] 0 0 false [] CacheStatus_new)).1 = xs ∧
    tlru_sim Nat.ltb s'
      (trec_run Nat.ltb timed_lru_example (mkRecency [] 0 0 false [] CacheStatus_new)).2.
Proof.
  apply (timed_lru_refines_recency Nat.ltb timed_lru_example).
  - apply TimedLruCache_new_sim; done.
  - repeat constructor.
Defined.

Example timed_lru_example_runs :
  match tlru_run Nat.ltb timed_lru_example (CacheStatus_new, TimedLruCache_new 0 0) with
  | Ret xs (_, c) =>
    xs = [TUnit; TUnit; TUnit; TUnit; TUnit; TCount 2; TVal (Some 30); TBool false] ∧
    t_pruned c = [(1, 11); (2, 20)] ∧ t_timed c = [2]
  | _ => False
  end.
Proof. vm_compute. done. Qed.
