(* ===== verification/TimedCache.v ===== *)
(** * The timed cache (Sylar/DataStructure/timed_cache.h)

    [m_timed] is a [std::set<Item>] ordered by deadline, then key; its
    elements are nodes with identities, since [m_cache] stores iterators to
    them. The clock is an argument of the operations that read it. *)
From Stdlib Require Import ZArith Lia Sorting.Sorted.
From stdpp Require Import base list sorting gmap list_numbers numbers.
From S2P Require Import Prelude LruCache OrderedSet TimedLruCache.

Section tcache.
Context {K V : Type} `{Countable K} (klt : K → K → bool).

Record TimedCache := mkTC {
  c_cache : gmap K nat;
  c_timed : list (nat * Item K V);
  c_maxSize : Z;
  c_elasticity : Z;
  c_cb : bool;               (* a prune callback is installed *)
  c_fresh : nat;             (* the next node allocated *)
  c_pruned : list (K * V)    (* what the callback has been called with *)
}.
Definition tc_state : Type := CacheStatus * TimedCache.

Definition TimedCache_new (max_size elasticity : Z) : TimedCache :=
  mkTC ∅ [] max_size elasticity false 0 [].

Definition tc_status (f : CacheStatus → CacheStatus) : M tc_state unit :=
  cmodify (λ s, (f s.1, s.2)).
Definition tc_modify (f : TimedCache → TimedCache) : M tc_state unit :=
  cmodify (λ s, (s.1, f s.2)).

(** [m_timed.insert(item)]: a new node unless an equivalent item is there;
    the iterator to the item of the set. *)
Definition set_insert (x : Item K V) (c : TimedCache) : nat * TimedCache :=
  match os_find klt node_rank (c_fresh c, x) (c_timed c) with
  | Some (n, _) => (n, c)
  | None =>
    (c_fresh c,
     mkTC (c_cache c) (os_insert klt node_rank (c_fresh c, x) (c_timed c)) (c_maxSize c)
       (c_elasticity c) (c_cb c) (S (c_fresh c)) (c_pruned c))
  end.
(** [m_timed.erase(it)] *)
Definition set_erase (n : nat) (c : TimedCache) : TimedCache :=
  mkTC (c_cache c) (erase_node n (c_timed c)) (c_maxSize c) (c_elasticity c) (c_cb c)
    (c_fresh c) (c_pruned c).
Definition map_set (f : gmap K nat → gmap K nat) (c : TimedCache) : TimedCache :=
  mkTC (f (c_cache c)) (c_timed c) (c_maxSize c) (c_elasticity c) (c_cb c) (c_fresh c) (c_pruned c).

(** The body shared by prune and checkTimeout: callback, then both erases. *)
Definition pop_front (n : nat) (x : Item K V) (rest : list (nat * Item K V)) (c : TimedCache)
  : TimedCache :=
  mkTC (delete (key x) (c_cache c)) rest (c_maxSize c) (c_elasticity c) (c_cb c) (c_fresh c)
    (if c_cb c then c_pruned c ++ [(key x, val x)] else c_pruned c).

Definition tc_size (c : TimedCache) : Z := Z.of_nat (size (c_cache c)).

Fixpoint tc_prune_loop (fuel count : nat) : M tc_state nat := λ s,
  let c := s.2 in
  if (c_maxSize c <? tc_size c)%Z then
    match fuel with
    | O => Stuck OutOfFuel
    | S fuel =>
      match c_timed c with
      | [] => Stuck OutOfBounds
      | (n, x) :: rest => tc_prune_loop fuel (S count) (s.1, pop_front n x rest c)
      end
    end
  else Ret count s.

(** TimedCache::prune *)
Definition tc_prune : M tc_state nat := λ s,
  let c := s.2 in
  if ((c_maxSize c =? 0) || (tc_size c <? u64 (c_maxSize c + c_elasticity c)))%Z then Ret 0 s
  else (let! count := tc_prune_loop (S (length (c_timed c))) 0 in
        let! _ := tc_status (incPrune (Z.of_nat count)) in
        cret count) s.

(** TimedCache::set *)
Definition tc_set (now : Z) (k : K) (v : V) (expired : Z) : M tc_state unit :=
  let! _ := tc_status (incSet 1) in
  let! s := cget in
  let! _ := match c_cache s.2 !! k with
            | Some _ => tc_modify (map_set (delete k))
            | None => cret tt
            end in
  let! s := cget in
  let '(sit, c) := set_insert (mkItem k v (u64 (expired + now))) s.2 in
  let! _ := cput (s.1, map_set (<[k := sit]>) c) in
  let! _ := tc_prune in cret tt.

(** TimedCache::get *)
Definition tc_get (k : K) : M tc_state (option V) :=
  let! _ := tc_status (incGet 1) in
  let! s := cget in
  match c_cache s.2 !! k with
  | None => cret None
  | Some it =>
    match find_node it (c_timed s.2) with
    | None => cstuck OutOfBounds
    | Some x => let! _ := tc_status (incHit 1) in cret (Some (val x))
    end
  end.

(** TimedCache::del: the path that erases reaches the end of a [bool]
    function without a return statement. *)
Definition tc_del (k : K) : M tc_state bool :=
  let! _ := tc_status (incDel 1) in
  let! s := cget in
  match c_cache s.2 !! k with
  | None => cret false
  | Some it =>
    let! _ := tc_modify (λ c, map_set (delete k) (set_erase it c)) in
    let! _ := tc_status (incHit 1) in
    cstuck NoReturn
  end.

(** TimedCache::expired *)
Definition tc_expired (now : Z) (k : K) (t : Z) : M tc_state bool :=
  let! s := cget in
  match c_cache s.2 !! k with
  | None => cret false
  | Some it =>
    let tts := u64 (t + now) in
    match find_node it (c_timed s.2) with
    | None => cstuck OutOfBounds
    | Some item =>
      if (ts item =? tts)%Z then cret true
      else
        let! _ := tc_modify (set_erase it) in
        let! s := cget in
        let '(iit, c) := set_insert item s.2 in
        let! _ := cput (s.1, map_set (<[k := iit]>) c) in
        cret true
    end
  end.

Definition tc_exists (k : K) (c : TimedCache) : bool := bool_decide (is_Some (c_cache c !! k)).
Definition tc_clear (c : TimedCache) : TimedCache :=
  mkTC ∅ [] (c_maxSize c) (c_elasticity c) (c_cb c) (c_fresh c) (c_pruned c).
Definition tc_setMaxSize (v : Z) (c : TimedCache) : TimedCache :=
  mkTC (c_cache c) (c_timed c) v (c_elasticity c) (c_cb c) (c_fresh c) (c_pruned c).
Definition tc_setElasticity (v : Z) (c : TimedCache) : TimedCache :=
  mkTC (c_cache c) (c_timed c) (c_maxSize c) v (c_cb c) (c_fresh c) (c_pruned c).
Definition tc_setPruneCallback (b : bool) (c : TimedCache) : TimedCache :=
  mkTC (c_cache c) (c_timed c) (c_maxSize c) (c_elasticity c) b (c_fresh c) (c_pruned c).

(** TimedCache::checkTimeout: the set shrinks in every round. *)
Fixpoint tc_timeout_loop (timed : list (nat * Item K V)) (t : Z) (count : nat) (c : TimedCache)
  : nat * TimedCache :=
  match timed with
  | [] => (count, c)
  | (n, x) :: rest =>
    if (ts x <=? t)%Z then tc_timeout_loop rest t (S count) (pop_front n x rest c)
    else (count, c)
  end.
Definition tc_checkTimeout (t : Z) : M tc_state nat := λ s,
  let '(n, c) := tc_timeout_loop (c_timed s.2) t 0 s.2 in Ret n (s.1, c).
End tcache.
Arguments TimedCache K V {_ _}.
Arguments tc_state K V {_ _}.
Arguments tc_prune {K V _ _} _ : simpl never.

(** ** Histories *)
Section histories.
Context {K V : Type} `{Countable K} (klt : K → K → bool).

Inductive tc_op :=
  | CSet (now : Z) (k : K) (v : V) (expired : Z) | CGet (k : K) | CExpired (now : Z) (k : K) (t : Z)
  | CExists (k : K) | CClear | CSetMaxSize (n : Z) | CSetElasticity (n : Z)
  | CSetPruneCallback (b : bool) | CCheckTimeout (t : Z).

Definition tc_step (o : tc_op) : M (tc_state K V) (tlru_res V) :=
  match o with
  | CSet now k v expired => let! _ := tc_set klt now k v expired in cret TUnit
  | CGet k => let! r := tc_get k in cret (TVal r)
  | CExpired now k t => let! b := tc_expired klt now k t in cret (TBool b)
  | CExists k => creads (λ s, TBool (tc_exists k s.2))
  | CClear => let! _ := tc_modify tc_clear in cret (TBool true)
  | CSetMaxSize n => let! _ := tc_modify (tc_setMaxSize n) in cret TUnit
  | CSetElasticity n => let! _ := tc_modify (tc_setElasticity n) in cret TUnit
  | CSetPruneCallback b => let! _ := tc_modify (tc_setPruneCallback b) in cret TUnit
  | CCheckTimeout t => let! n := tc_checkTimeout t in cret (TCount n)
  end.
Fixpoint tc_run (os : list tc_op) : M (tc_state K V) (list (tlru_res V)) :=
  match os with
  | [] => cret []
  | o :: os => let! x := tc_step o in let! xs := tc_run os in cret (x :: xs)
  end.

(** The invariant of every history: the set is sorted, and an iterator of
    the map designates a node of the set with the key it is filed under.
    The set may hold items no key is mapped to. *)
Record tc_wf (c : TimedCache K V) : Prop := {
  tc_ids : NoDup (c_timed c).*1;
  tc_below : Forall (λ n, n < c_fresh c) (c_timed c).*1;
  tc_sorted : os_sorted klt node_rank (c_timed c);
  tc_mapped : ∀ k n, c_cache c !! k = Some n → ∃ x, (n, x) ∈ c_timed c ∧ key x = k
}.
End histories.
Arguments tc_op K V : clear implicits.

Section safety.
Context {K V : Type} `{Countable K} (klt : K → K → bool) `{!KeyOrder klt}.
Implicit Types (c : TimedCache K V) (x : Item K V) (l : list (nat * Item K V)).

Lemma os_find_spec l (n : nat) x :
  match os_find klt node_rank (n, x) l with
  | Some y => y ∈ l ∧ key y.2 = key x ∧ ts y.2 = ts x
  | None => ∀ y, y ∈ l → node_rank y ≠ node_rank (n, x)
  end.
Proof.
  unfold os_find. destruct (list_find _ l) as [[i y]|] eqn:E; simpl.
  - apply list_find_Some in E as (Hi & Heq%(os_equiv_true klt node_rank) & _).
    split; [by eapply list_elem_of_lookup_2|]. by injection Heq.
  - intros y Hy Heq. apply list_find_None in E. rewrite Forall_forall in E.
    apply (E y); [by apply list_elem_of_In|]. by apply (os_equiv_true klt node_rank).
Qed.

(** What an insertion gives back and keeps. *)
Lemma set_insert_spec x c :
  NoDup (c_timed c).*1 → Forall (λ n, n < c_fresh c) (c_timed c).*1 →
  os_sorted klt node_rank (c_timed c) →
  ∃ n y c', set_insert klt x c = (n, c') ∧
    (n, y) ∈ c_timed c' ∧ key y = key x ∧ ts y = ts x ∧
    (∀ z, z ∈ c_timed c → z ∈ c_timed c') ∧
    NoDup (c_timed c').*1 ∧ Forall (λ n, n < c_fresh c') (c_timed c').*1 ∧
    os_sorted klt node_rank (c_timed c') ∧ c_cache c' = c_cache c ∧
    ((∀ z, z ∈ c_timed c → key z.2 ≠ key x) →
     y = x ∧ n = c_fresh c ∧ c_timed c' ≡ₚ (n, x) :: c_timed c ∧ c_fresh c' = S n ∧
     c_timed c' = os_insert klt node_rank (n, x) (c_timed c) ∧
     c_maxSize c' = c_maxSize c ∧ c_elasticity c' = c_elasticity c ∧ c_cb c' = c_cb c ∧
     c_pruned c' = c_pruned c).
Proof.
  intros Hn Hb Hs. unfold set_insert.
  pose proof (os_find_spec (c_timed c) (c_fresh c) x) as Hf.
  destruct (os_find klt node_rank (c_fresh c, x) (c_timed c)) as [[n y]|].
  - destruct Hf as (Hin & Hk & Ht). exists n, y, c. split_and!; try done.
    intros Hno. by apply Hno in Hin.
  - pose proof (os_insert_perm klt node_rank _ _ Hf) as Hp.
    pose proof (fmap_Permutation fst _ _ Hp) as Hp1. csimpl in *.
    eexists _, x, _. split; [done|]. simpl. rewrite Hp1. split_and!; try done.
    + rewrite Hp. left.
    + intros z Hz. rewrite Hp. by right.
    + apply list.NoDup_cons. split; [|done]. intros Hin%list_elem_of_In.
      rewrite Forall_forall in Hb. apply Hb in Hin. lia.
    + constructor; [lia|]. eapply Forall_impl; [|exact Hb]. intros z Hz. simpl in *. lia.
    + by apply (os_insert_sorted klt node_rank).
Qed.

Lemma pop_front_wf n x rest c :
  tc_wf klt c → c_timed c = (n, x) :: rest → tc_wf klt (pop_front n x rest c).
Proof.
  intros [Hn Hb Hs Hm] Hl. rewrite Hl in *. csimpl in *.
  apply list.NoDup_cons in Hn as [Hn1 Hn]. apply Forall_cons_1 in Hb as [_ Hb].
  apply StronglySorted_inv in Hs as [Hs _]. split; simpl; try done.
  intros k m [Hk Hkm]%lookup_delete_Some.
  destruct (Hm k m Hkm) as (y & [[= -> ->]|Hin]%elem_of_cons & <-); [done|]. eauto.
Qed.

Lemma tc_timeout_loop_wf timed t count c :
  tc_wf klt c → c_timed c = timed → tc_wf klt (tc_timeout_loop timed t count c).2.
Proof.
  revert count c. induction timed as [|[n x] rest IH]; intros count c Hwf Hl; simpl; [done|].
  case_match; [|done]. apply IH; [|done]. by apply pop_front_wf.
Qed.

Lemma tc_prune_loop_total fuel count st c :
  tc_wf klt c → (0 ≤ c_maxSize c)%Z → length (c_timed c) < fuel →
  ∃ n c', tc_prune_loop fuel count (st, c) = Ret n (st, c') ∧ tc_wf klt c' ∧
    (tc_size c' ≤ c_maxSize c' ∧ c_maxSize c' = c_maxSize c)%Z.
Proof.
  revert count c. induction fuel as [|fuel IH]; intros count c Hwf Hmax Hf; [lia|].
  cbn [tc_prune_loop snd fst].
  destruct (Z.ltb_spec (c_maxSize c) (tc_size c)) as [Hlt|Hge]; [|by exists count, c].
  destruct (c_timed c) as [|[n x] rest] eqn:Hl.
  - exfalso. unfold tc_size in Hlt. destruct (map_choose (c_cache c)) as (k & m & Hk).
    { intros He. rewrite He, map_size_empty in Hlt. lia. }
    destruct (tc_mapped _ _ Hwf k m Hk) as (y & Hy & _). rewrite Hl in Hy.
    by apply elem_of_nil in Hy.
  - apply (IH (S count) (pop_front n x rest c)); [by apply pop_front_wf|done|].
    simpl in *. lia.
Qed.

Lemma tc_prune_total st c :
  tc_wf klt c → (0 ≤ c_maxSize c)%Z →
  ∃ n st' c', tc_prune (st, c) = Ret n (st', c') ∧ tc_wf klt c' ∧ c_maxSize c' = c_maxSize c.
Proof.
  intros Hwf Hmax. unfold tc_prune. simpl. case_match; [by eexists _, _, _|].
  destruct (tc_prune_loop_total (S (length (c_timed c))) 0 st c Hwf Hmax ltac:(lia))
    as (n & c' & Hp & Hwf' & _ & Hm').
  rewrite (cbind_Ret _ _ _ _ _ Hp). by eexists _, _, _.
Qed.

Lemma erase_node_wf c it x k :
  tc_wf klt c → (it, x) ∈ c_timed c → key x = k →
  ∃ l1 l2, c_timed c = l1 ++ (it, x) :: l2 ∧ find_node it (c_timed c) = Some x ∧
    erase_node it (c_timed c) = l1 ++ l2 ∧
    tc_wf klt (map_set (delete k) (set_erase it c)).
Proof.
  intros [Hn Hb Hs Hm] Hin Hk. apply list_elem_of_split in Hin as (l1 & l2 & Hl).
  assert (it ∉ l1.*1) as Hn1.
  { rewrite Hl, fmap_app, fmap_cons in Hn. apply list.NoDup_app in Hn as (_ & Hd & _).
    intros Hi. apply (Hd it Hi). left. }
  destruct (node_ops l1 it x l2 Hn1) as (Hf & He & _). rewrite <- Hl in Hf, He.
  exists l1, l2. split_and!; try done. split; simpl; rewrite ?He.
  - eapply sublist_NoDup; [exact Hn|]. rewrite Hl. apply fmap_sublist.
    apply sublist_app; [done|]. by apply sublist_cons.
  - rewrite Hl, fmap_app in Hb. apply Forall_app in Hb as [? [_ ?]%Forall_cons_1].
    rewrite fmap_app. by apply Forall_app.
  - unfold os_sorted in *. rewrite Hl in Hs.
    apply StronglySorted_app in Hs as (Hc & Hs1 & [_ Hs2]%StronglySorted_cons).
    apply StronglySorted_app. split_and!; try done.
    intros y z Hy Hz. apply Hc; [done|]. by right.
  - intros k' m [Hne Hk'%Hm]%lookup_delete_Some. destruct Hk' as (y & Hy & Hky).
    exists y. split; [|done]. rewrite Hl in Hy.
    apply elem_of_app in Hy as [?|[[= -> ->]|?]%elem_of_cons]; [| |];
      rewrite elem_of_app; [by left|by subst|by right].
Qed.

Lemma tc_set_total st c now k v expired :
  tc_wf klt c → (0 ≤ c_maxSize c)%Z →
  ∃ st' c', tc_set klt now k v expired (st, c) = Ret tt (st', c') ∧ tc_wf klt c' ∧
    (0 ≤ c_maxSize c')%Z.
Proof.
  intros Hwf Hmax. unfold tc_set, tc_status, tc_modify, cmodify, cget, cbind. simpl.
  set (c1 := match c_cache c !! k with Some _ => map_set (delete k) c | None => c end).
  match goal with |- context [match ?m with Ret a s1 => _ | Exn e s2 => _ | Stuck r => _ end] =>
    assert (m = Ret tt (incSet 1 st, c1)) as -> by (subst c1; by destruct (c_cache c !! k)) end.
  assert (c_timed c1 = c_timed c ∧ c_fresh c1 = c_fresh c ∧ c_cache c1 = delete k (c_cache c) ∧
          c_maxSize c1 = c_maxSize c) as (Ht1 & Hf1 & Hc1 & Hm1).
  { subst c1. destruct (c_cache c !! k) eqn:E; simpl; [done|]. by rewrite delete_id. }
  destruct Hwf as [Hn Hb Hs Hm].
  destruct (set_insert_spec (mkItem k v (u64 (expired + now))) c1)
    as (n & y & c2 & Hi & Hin & Hk & _ & Hold & Hn2 & Hb2 & Hs2 & Hc2 & _);
    [by rewrite ?Ht1, ?Hf1..|].
  simpl. rewrite Hi. unfold cput. simpl.
  assert (c_maxSize c2 = c_maxSize c) as Hm2.
  { unfold set_insert in Hi. repeat case_match; by simplify_eq. }
  destruct (tc_prune_total (incSet 1 st) (map_set <[k:=n]> c2)) as (cnt & st' & c' & -> & Hwf' & Hm');
    simpl; [|lia|].
  - split; simpl; try done. intros k' m. rewrite Hc2, Hc1, insert_delete_eq.
    intros [[-> ->]|[Hne (x & Hx & Hkx)%Hm]]%lookup_insert_Some; [by exists y|].
    exists x. split; [|done]. apply Hold. by rewrite Ht1.
  - eexists _, _. split; [done|]. split; [done|]. simpl in Hm'. lia.
Qed.

(** [expired] answers true on a present key, and leaves the item as it was. *)
Lemma tc_expired_spec st c now k t n x :
  tc_wf klt c → c_cache c !! k = Some n → (n, x) ∈ c_timed c → key x = k →
  ∃ c' n', tc_expired klt now k t (st, c) = Ret true (st, c') ∧ tc_wf klt c' ∧
    c_cache c' !! k = Some n' ∧ (n', x) ∈ c_timed c' ∧
    (c_timed c').*2 ≡ₚ (c_timed c).*2 ∧ c_maxSize c' = c_maxSize c.
Proof.
  intros Hwf Hk Hin Hkx.
  destruct (erase_node_wf c n x k Hwf Hin Hkx) as (l1 & l2 & Hl & Hf & He & Hwf1).
  unfold tc_expired, tc_modify, cmodify, cget, cbind, cput. simpl. rewrite Hk, Hf.
  case_match; [exists c, n; by split_and!|]. simpl.
  set (c1 := set_erase n c). destruct Hwf1 as [Hn Hb Hs Hm].
  destruct (set_insert_spec x c1)
    as (n' & y & c2 & Hi & Hin2 & Hk2 & Ht2 & Hold & Hn2 & Hb2 & Hs2 & Hc2 & _); [done..|].
  assert (∀ z, z ∈ c_timed c1 → node_rank z ≠ node_rank (c_fresh c, x)) as Hne.
  { destruct Hwf as [_ _ Hs0 _]. apply (os_sorted_ranks klt node_rank) in Hs0.
    rewrite Hl, <- Permutation_middle in Hs0. csimpl in Hs0.
    apply list.NoDup_cons in Hs0 as [Hs0 _]. intros z Hz Heq. apply Hs0.
    simpl in Hz. rewrite He in Hz. change (node_rank (n, x)) with (node_rank (c_fresh c, x)).
    rewrite <- Heq. by apply list_elem_of_fmap_2. }
  assert (c_timed c2 ≡ₚ (c_fresh c, x) :: c_timed c1 ∧ n' = c_fresh c ∧ c_maxSize c2 = c_maxSize c)
    as (Hp & -> & Hmx).
  { unfold set_insert in Hi. pose proof (os_find_spec (c_timed c1) (c_fresh c1) x) as Hfs.
    destruct (os_find klt node_rank (c_fresh c1, x) (c_timed c1)) as [[n0 y0]|].
    { destruct Hfs as (Hy & Hky & Hty). destruct (Hne _ Hy).
      unfold node_rank. simpl in *. by rewrite Hky, Hty. }
    injection Hi as <- <-. split_and!; try done. simpl.
    by apply (os_insert_perm klt node_rank). }
  rewrite Hi. eexists _, _. split; [done|]. split_and!; simpl.
  - split; simpl; try done. intros k' m. rewrite Hc2. simpl.
    intros [[<- <-]|[Hnek Hk']]%lookup_insert_Some.
    + exists x. split; [rewrite Hp; left|done].
    + destruct (Hm k' m) as (z & Hz & Hkz); [by simpl; rewrite lookup_delete_ne|].
      exists z. split; [by apply Hold|done].
  - by rewrite lookup_insert_eq.
  - rewrite Hp. left.
  - rewrite Hp. simpl. rewrite He, Hl. csimpl. by rewrite !fmap_app, Permutation_middle.
  - done.
Qed.

Definition cop_ok (o : tc_op K V) : Prop :=
  match o with CSetMaxSize n | CSetElasticity n => in_u 64 n | _ => True end.

Lemma tc_step_total o st c :
  tc_wf klt c → (0 ≤ c_maxSize c)%Z → cop_ok o →
  ∃ r st' c', tc_step klt o (st, c) = Ret r (st', c') ∧ tc_wf klt c' ∧ (0 ≤ c_maxSize c')%Z.
Proof.
  intros Hwf Hmax Ho. destruct o; simpl in Ho; cbn [tc_step].
  - destruct (tc_set_total st c now k v expired Hwf Hmax) as (? & ? & Hs & ? & ?).
    rewrite (cbind_Ret _ _ _ _ _ Hs). by eexists _, _, _.
  - unfold tc_get, tc_status, cmodify, cget, cbind. simpl.
    destruct (c_cache c !! k) as [n|] eqn:Hk; [|by eexists _, _, _].
    destruct (tc_mapped _ _ Hwf _ _ Hk) as (x & Hin & Hkx).
    destruct (erase_node_wf c n x k Hwf Hin Hkx) as (? & ? & _ & -> & _). by eexists _, _, _.
  - destruct (c_cache c !! k) as [n|] eqn:Hk.
    + destruct (tc_mapped _ _ Hwf _ _ Hk) as (x & Hin & Hkx).
      destruct (tc_expired_spec st c now k t n x Hwf Hk Hin Hkx)
        as (c' & n' & Hs & ? & _ & _ & _ & Hm).
      rewrite (cbind_Ret _ _ _ _ _ Hs). eexists _, _, _. split; [done|]. split; [done|lia].
    + unfold tc_expired, cget, cbind. simpl. rewrite Hk. by eexists _, _, _.
  - by eexists _, _, _.
  - eexists _, _, _. split; [done|]. split; [|done].
    split; simpl; try constructor. by intros ? ? ?.
  - eexists _, _, _. split; [done|]. split; [|by destruct Ho]. by destruct Hwf.
  - eexists _, _, _. split; [done|]. split; [|done]. by destruct Hwf.
  - eexists _, _, _. split; [done|]. split; [|done]. by destruct Hwf.
  - unfold tc_checkTimeout, cbind. simpl.
    pose proof (tc_timeout_loop_wf (c_timed c) t 0 c Hwf eq_refl) as Hwf'.
    assert (∀ l n c0, c_maxSize (tc_timeout_loop l t n c0).2 = c_maxSize c0) as Hmx.
    { clear. induction l as [|[m x] l IH]; intros n c0; simpl; [done|].
      case_match; [by rewrite IH|done]. }
    specialize (Hmx (c_timed c) 0 c).
    destruct (tc_timeout_loop (c_timed c) t 0 c) as [m c']. simpl in *.
    eexists _, _, _. split; [done|]. split; [done|lia].
Qed.

(** The timed cache never follows a dangling iterator. Every history
    of set, get, expired, exists, clear, checkTimeout and of changes of the
    limits and the callback terminates normally from a well-formed state,
    and the result is well formed: each iterator of the map designates a
    node of the set filed under the same key, although overwriting a key
    leaves its earlier items in the set. *)
Theorem timed_cache_safe os st c :
  tc_wf klt c → (0 ≤ c_maxSize c)%Z → Forall cop_ok os →
  ∃ rs st' c', tc_run klt os (st, c) = Ret rs (st', c') ∧ tc_wf klt c'.
Proof.
  intros Hwf Hmax Hos. revert st c Hwf Hmax.
  induction Hos as [|o os Ho _ IH]; intros st c Hwf Hmax; [by eexists _, _, _|].
  destruct (tc_step_total o st c Hwf Hmax Ho) as (r & st1 & c1 & Hs & Hwf1 & Hmax1).
  destruct (IH st1 c1 Hwf1 Hmax1) as (rs & st2 & c2 & Hs2 & Hwf2).
  exists (r :: rs), st2, c2. cbn [tc_run].
  by rewrite (cbind_Ret _ _ _ _ _ Hs), (cbind_Ret _ _ _ _ _ Hs2).
Qed.
End safety.

(** ** The specification: a list of items by deadline

    It describes the histories in which a key is set only while it is
    absent. *)
Section deadlines.
Context {K V : Type} `{Countable K} (klt : K → K → bool).

Record Deadlines := mkDeadlines {
  d_items : list (Item K V);   (* earliest deadline first, then by key *)
  d_max : Z;
  d_elasticity : Z;
  d_cb : bool;
  d_dropped : list (K * V);
  d_status : CacheStatus
}.
Definition d_update items dropped st (d : Deadlines) : Deadlines :=
  mkDeadlines items (d_max d) (d_elasticity d) (d_cb d) dropped st.
Definition item_rank (x : Item K V) : Z * K := (ts x, key x).
Definition item_kv (x : Item K V) : K * V := (key x, val x).
Definition lookup_item (k : K) (l : list (Item K V)) : option (Item K V) :=
  snd <$> list_find (λ x, key x = k) l.
Definition report (d : Deadlines) (l : list (Item K V)) : list (K * V) :=
  d_dropped d ++ if d_cb d then item_kv <$> l else [].

Definition dl_prune (d : Deadlines) : Deadlines :=
  let n := length (d_items d) in
  if ((d_max d =? 0) || (Z.of_nat n <? u64 (d_max d + d_elasticity d)))%Z then d
  else let out := n - Z.to_nat (d_max d) in
       d_update (drop out (d_items d)) (report d (take out (d_items d)))
         (incPrune (Z.of_nat out) (d_status d)) d.

Definition dl_step (o : tc_op K V) (d : Deadlines) : tlru_res V * Deadlines :=
  match o with
  | CSet now k v expired =>
    (TUnit, dl_prune (d_update (os_insert klt item_rank (mkItem k v (u64 (expired + now))) (d_items d))
                        (d_dropped d) (incSet 1 (d_status d)) d))
  | CGet k =>
    let st := incGet 1 (d_status d) in
    match lookup_item k (d_items d) with
    | Some x => (TVal (Some (val x)), d_update (d_items d) (d_dropped d) (incHit 1 st) d)
    | None => (TVal None, d_update (d_items d) (d_dropped d) st d)
    end
  | CExpired _ k _ => (TBool (bool_decide (is_Some (lookup_item k (d_items d)))), d)
  | CExists k => (TBool (bool_decide (is_Some (lookup_item k (d_items d)))), d)
  | CClear => (TBool true, d_update [] (d_dropped d) (d_status d) d)
  | CSetMaxSize n =>
    (TUnit, mkDeadlines (d_items d) n (d_elasticity d) (d_cb d) (d_dropped d) (d_status d))
  | CSetElasticity n =>
    (TUnit, mkDeadlines (d_items d) (d_max d) n (d_cb d) (d_dropped d) (d_status d))
  | CSetPruneCallback b =>
    (TUnit, mkDeadlines (d_items d) (d_max d) (d_elasticity d) b (d_dropped d) (d_status d))
  | CCheckTimeout t =>
    let late := filter (λ x, (ts x ≤ t)%Z) (d_items d) in
    (TCount (length late),
     d_update (filter (λ x, (t < ts x)%Z) (d_items d)) (report d late) (d_status d) d)
  end.
Fixpoint dl_run (os : list (tc_op K V)) (d : Deadlines) : list (tlru_res V) * Deadlines :=
  match os with
  | [] => ([], d)
  | o :: os => let '(x, d1) := dl_step o d in
               let '(xs, d2) := dl_run os d1 in (x :: xs, d2)
  end.

(** No key is set while it is present. *)
Definition set_absent (o : tc_op K V) (d : Deadlines) : Prop :=
  match o with CSet _ k _ _ => lookup_item k (d_items d) = None | _ => True end.
Fixpoint sets_absent (os : list (tc_op K V)) (d : Deadlines) : Prop :=
  match os with
  | [] => True
  | o :: os => cop_ok o ∧ set_absent o d ∧ sets_absent os (dl_step o d).2
  end.

Definition tc_view (s : tc_state K V) : Deadlines :=
  mkDeadlines (c_timed s.2).*2 (c_maxSize s.2) (c_elasticity s.2) (c_cb s.2) (c_pruned s.2) s.1.
(** The set holds exactly the items of the map. *)
Definition tc_exact (c : TimedCache K V) : Prop :=
  nodes_ok key (c_timed c) (c_cache c) (c_fresh c) ∧ os_sorted klt node_rank (c_timed c) ∧
  (0 ≤ c_maxSize c)%Z.
End deadlines.
Arguments Deadlines K V : clear implicits.

Section exact.
Context {K V : Type} `{Countable K} (klt : K → K → bool) `{!KeyOrder klt}.
Implicit Types (c : TimedCache K V) (x : Item K V) (l : list (nat * Item K V)).

Lemma tc_exact_wf c : tc_exact klt c → tc_wf klt c.
Proof.
  intros (Hok & Hs & _). pose proof Hok as (_ & Hn & Hb & _). split; try done.
  intros k n Hk. by apply (nodes_ok_lookup _ _ _ _ _ _ Hok).
Qed.

Lemma os_insert_snd n x l :
  (os_insert klt node_rank (n, x) l).*2 = os_insert klt item_rank x l.*2.
Proof.
  induction l as [|[m y] l IH]; csimpl; [done|].
  change (rank_lt klt node_rank (n, x) (m, y)) with (rank_lt klt item_rank x y).
  change (rank_lt klt node_rank (m, y) (n, x)) with (rank_lt klt item_rank y x).
  repeat case_match; csimpl; by rewrite ?IH.
Qed.

Lemma os_sorted_snd l : os_sorted klt node_rank l → os_sorted klt item_rank l.*2.
Proof.
  unfold os_sorted. induction 1 as [|y l Hl IH Hy]; csimpl; [constructor|].
  constructor; [done|]. by apply Forall_fmap.
Qed.

Lemma lookup_item_None k (l : list (Item K V)) : lookup_item k l = None ↔ k ∉ key <$> l.
Proof.
  unfold lookup_item. rewrite fmap_None, list_find_None, Forall_forall.
  rewrite list_elem_of_fmap. setoid_rewrite <- list_elem_of_In.
  split; [intros Hl (x & -> & Hx); by apply (Hl x)|].
  intros Hl x Hx Hk. apply Hl. eauto.
Qed.

Lemma lookup_item_Some k x (l : list (Item K V)) :
  NoDup (key <$> l) → x ∈ l → key x = k → lookup_item k l = Some x.
Proof.
  intros Hn Hin <-. unfold lookup_item. apply list_elem_of_split in Hin as (l1 & l2 & ->).
  rewrite fmap_app, fmap_cons in Hn. apply list.NoDup_app in Hn as (_ & Hd & _).
  rewrite list_find_app_r; [|apply list_find_None, Forall_forall; intros y Hy%list_elem_of_In Hk].
  - simpl. by rewrite decide_True.
  - apply (Hd (key y)); [by apply list_elem_of_fmap_2|]. rewrite Hk. left.
Qed.

Lemma tc_exact_lookup c k :
  tc_exact klt c →
  match c_cache c !! k with
  | Some n => ∃ l1 x l2, c_timed c = l1 ++ (n, x) :: l2 ∧ (n ∉ l1.*1) ∧ key x = k ∧
      lookup_item k (c_timed c).*2 = Some x
  | None => lookup_item k (c_timed c).*2 = None
  end.
Proof.
  intros (Hok & _). destruct (c_cache c !! k) as [n|] eqn:Hk.
  - destruct (nodes_ok_find _ _ _ _ _ _ Hok Hk) as (l1 & x & l2 & Hl & Hn & Hkx).
    exists l1, x, l2. split_and!; try done. apply lookup_item_Some; [|rewrite Hl|done].
    + rewrite <- list_fmap_compose. apply Hok.
    + rewrite fmap_app, elem_of_app. right. left.
  - apply lookup_item_None. rewrite <- list_fmap_compose.
    by apply (nodes_ok_lookup_None _ _ _ _ _ Hok).
Qed.

Lemma pop_front_exact n x rest c :
  tc_exact klt c → c_timed c = (n, x) :: rest → tc_exact klt (pop_front n x rest c).
Proof.
  intros (Hok & Hs & Hm) Hl. rewrite Hl in *. split_and!; simpl; [|by inversion Hs|done].
  by apply (nodes_ok_erase key []) in Hok.
Qed.

Lemma tc_prune_loop_exact out fuel count st c :
  tc_exact klt c → length (c_timed c) < fuel →
  out = length (c_timed c) - Z.to_nat (c_maxSize c) →
  ∃ c', tc_prune_loop fuel count (st, c) = Ret (count + out) (st, c') ∧ tc_exact klt c' ∧
    c_timed c' = drop out (c_timed c) ∧
    c_maxSize c' = c_maxSize c ∧ c_elasticity c' = c_elasticity c ∧ c_cb c' = c_cb c ∧
    c_pruned c' = c_pruned c ++ if c_cb c then item_kv <$> (take out (c_timed c)).*2 else [].
Proof.
  revert fuel count c. induction out as [|out IH]; intros fuel count c Hex Hf Hout;
    (destruct fuel as [|fuel]; [lia|]); cbn [tc_prune_loop snd fst];
    unfold tc_size; rewrite (nodes_ok_size _ _ _ _ (proj1 Hex));
    pose proof (proj2 (proj2 Hex)) as Hm0.
  - destruct (Z.ltb_spec (c_maxSize c) (Z.of_nat (length (c_timed c)))); [lia|].
    exists c. split_and!; try done; [f_equal; lia|]. case_match; by rewrite app_nil_r.
  - destruct (Z.ltb_spec (c_maxSize c) (Z.of_nat (length (c_timed c)))) as [Hlt|]; [|lia].
    destruct (c_timed c) as [|[n x] rest] eqn:Hl; [simpl in *; lia|].
    destruct (IH fuel (S count) (pop_front n x rest c))
      as (c' & -> & Hex' & Ht' & Hm' & He' & Hc' & Hp'); simpl in *;
      [by apply pop_front_exact|lia..|].
    exists c'. split_and!; try done; [f_equal; lia|].
    rewrite Hp'. destruct (c_cb c); [|done]. by rewrite <- (assoc_L (++)).
Qed.

Lemma tc_prune_refines st c :
  tc_exact klt c →
  ∃ n st' c', tc_prune (st, c) = Ret n (st', c') ∧ tc_exact klt c' ∧
    tc_view (st', c') = dl_prune (tc_view (st, c)).
Proof.
  intros Hex. unfold tc_prune, dl_prune, tc_size. simpl.
  rewrite (nodes_ok_size _ _ _ _ (proj1 Hex)), length_fmap.
  case_match; [by eexists _, _, _|].
  destruct (tc_prune_loop_exact _ (S (length (c_timed c))) 0 st c Hex ltac:(lia) eq_refl)
    as (c' & Hp & Hex' & Ht' & Hm' & He' & Hc' & Hp').
  rewrite (cbind_Ret _ _ _ _ _ Hp). eexists _, _, _. split; [done|]. split; [done|].
  unfold tc_view, d_update, report. simpl.
  rewrite Ht', Hm', He', Hc', Hp', fmap_drop, fmap_take. done.
Qed.

Lemma tc_set_refines st c now k v expired :
  tc_exact klt c → lookup_item k (c_timed c).*2 = None →
  ∃ st' c', tc_set klt now k v expired (st, c) = Ret tt (st', c') ∧ tc_exact klt c' ∧
    dl_step klt (CSet now k v expired) (tc_view (st, c)) = (TUnit, tc_view (st', c')).
Proof.
  intros Hex Hno. pose proof (tc_exact_lookup c k Hex) as Hk.
  destruct (c_cache c !! k) as [n|] eqn:Hm.
  { destruct Hk as (? & ? & ? & _ & _ & _ & Hk). congruence. }
  pose proof Hex as (Hok & Hs & Hmax). pose proof Hok as (_ & Hn & Hb & _).
  set (x := mkItem k v (u64 (expired + now))).
  assert (∀ z, z ∈ c_timed c → key z.2 ≠ key x) as Hfresh.
  { intros z Hz Hkz. apply lookup_item_None in Hno. apply Hno.
    change k with (key x). rewrite <- Hkz, <- list_fmap_compose.
    by apply (list_elem_of_fmap_2 (key ∘ snd)). }
  destruct (set_insert_spec klt x c Hn Hb Hs)
    as (n & y & c1 & Hi & _ & _ & _ & _ & _ & _ & Hs1 & Hc1 & Hf1).
  destruct (Hf1 Hfresh) as (-> & -> & Hp1 & Hfr1 & Ht1 & Hm1 & He1 & Hcb1 & Hpr1).
  unfold tc_set, tc_status, tc_modify, cmodify, cget, cbind, cput. simpl.
  rewrite Hm. cbn [cret fst snd]. fold x. rewrite Hi. cbn [fst snd].
  destruct (tc_prune_refines (incSet 1 st) (map_set <[k:=c_fresh c]> c1))
    as (cnt & st' & c' & -> & Hex' & Hv').
  { split_and!; simpl; [|done|lia]. rewrite Hc1, Hfr1.
    eapply nodes_ok_perm; [symmetry; exact Hp1|]. by apply (nodes_ok_cons key _ _ _ x). }
  eexists _, _. split; [done|]. split; [done|]. rewrite Hv'. cbn [dl_step].
  do 2 f_equal. unfold tc_view, d_update. simpl. fold x.
  by rewrite Ht1, os_insert_snd, Hm1, He1, Hcb1, Hpr1.
Qed.

Lemma tc_expired_refines st c now k t :
  tc_exact klt c →
  ∃ b c', tc_expired klt now k t (st, c) = Ret b (st, c') ∧ tc_exact klt c' ∧
    dl_step klt (CExpired now k t) (tc_view (st, c)) = (TBool b, tc_view (st, c')).
Proof.
  intros Hex. pose proof (tc_exact_lookup c k Hex) as Hk.
  pose proof Hex as (Hok & Hs & Hmax). pose proof Hok as (Hks & Hn & Hb & _).
  unfold tc_expired, tc_modify, cmodify, cget, cbind, cput. simpl.
  destruct (c_cache c !! k) as [n|] eqn:Hm; [|exists false, c; by rewrite Hk].
  destruct Hk as (l1 & x & l2 & Hl & Hnl & Hkx & ->). subst k.
  destruct (node_ops l1 n x l2 Hnl) as (Hf & He & _). rewrite <- Hl in Hf, He. rewrite Hf.
  case_match; [by exists true, c|]. cbn [fst snd].
  rewrite Hl in Hok. pose proof (nodes_ok_erase _ _ _ _ _ _ _ Hok) as Hok1.
  pose proof Hok1 as (_ & Hn1 & Hb1 & _).
  assert (os_sorted klt node_rank (l1 ++ l2)) as Hs0.
  { unfold os_sorted in *. rewrite Hl in Hs.
    apply StronglySorted_app in Hs as (Hc & Hs1 & [_ Hs2]%StronglySorted_cons).
    apply StronglySorted_app. split_and!; try done. intros y z Hy Hz. apply Hc; [done|]. by right. }
  destruct (set_insert_spec klt x (set_erase n c))
    as (n' & y & c1 & Hi & _ & _ & _ & _ & _ & _ & Hs1 & Hc1 & Hf1); simpl in *;
    rewrite ?He; [done..|]. rewrite He in Hf1.
  destruct Hf1 as (-> & -> & Hp1 & Hfr1 & Ht1 & Hm1 & He1 & Hcb1 & Hpr1).
  { intros z Hz. by eapply nodes_ok_other_key in Hok. }
  rewrite Hi. eexists _, _. split; [done|]. split.
  - split_and!; simpl; [|done|lia]. rewrite Hc1, Hfr1, <- insert_delete_eq.
    eapply nodes_ok_perm; [symmetry; exact Hp1|].
    apply nodes_ok_cons; [done|]. by rewrite lookup_delete_eq.
  - f_equal. unfold tc_view. simpl. rewrite Hm1, He1, Hcb1, Hpr1. f_equal.
    eapply (StronglySorted_unique_strong (λ a b, rank_lt klt item_rank a b = true)).
    + intros a b _ _ Ha Hb0. apply (rank_lt_asym klt item_rank) in Ha. congruence.
    + by apply os_sorted_snd.
    + by apply os_sorted_snd.
    + rewrite Hp1, Hl. csimpl. by rewrite !fmap_app, Permutation_middle.
Qed.

Lemma filter_late_sorted l t :
  os_sorted klt node_rank l →
  ∀ count c, c_timed c = l → tc_exact klt c →
  ∃ c', tc_timeout_loop l t count c =
      (count + length (filter (λ x, (ts x ≤ t)%Z) l.*2), c') ∧ tc_exact klt c' ∧
    (c_timed c').*2 = filter (λ x, (t < ts x)%Z) l.*2 ∧
    c_maxSize c' = c_maxSize c ∧ c_elasticity c' = c_elasticity c ∧ c_cb c' = c_cb c ∧
    c_pruned c' = c_pruned c ++ if c_cb c then item_kv <$> filter (λ x, (ts x ≤ t)%Z) l.*2 else [].
Proof.
  induction 1 as [|[n x] l Hs IH Hx]; intros count c Hl Hex; csimpl.
  { exists c. rewrite Hl. split_and!; try done; [f_equal; lia|].
    case_match; by rewrite app_nil_r. }
  destruct (Z.leb_spec (ts x) t) as [Hle|Hgt].
  - destruct (IH (S count) (pop_front n x l c)) as (c' & -> & Hex' & Ht' & Hm' & He' & Hc' & Hp');
      [done|by apply pop_front_exact|].
    rewrite filter_cons_True, filter_cons_False by (simpl; lia).
    exists c'. split_and!; try done; [f_equal; simpl; lia|].
    rewrite Hp'. simpl. destruct (c_cb c); [|done]. by rewrite <- (assoc_L (++)).
  - assert (Forall (λ y, ¬ (ts y ≤ t)%Z) ((n, x) :: l).*2) as Hall.
    { csimpl. constructor; [simpl; lia|]. apply Forall_fmap.
      eapply Forall_impl; [|exact Hx]. intros y Hy. unfold rank_lt in Hy. simpl in *.
      destruct (Z.eqb_spec (ts x) (ts y.2)); [lia|]. apply Z.ltb_lt in Hy. lia. }
    destruct (filter_none (λ y : Item K V, (ts y ≤ t)%Z) _ Hall) as [H1 H2]. csimpl in *.
    rewrite H1. exists c. split_and!; try done; [f_equal; simpl; lia| |].
    + rewrite Hl. csimpl. rewrite <- H2 at 1. apply list_filter_iff. intros; lia.
    + case_match; by rewrite app_nil_r.
Qed.

Lemma tc_step_refines o st c :
  tc_exact klt c → cop_ok o → set_absent o (tc_view (st, c)) →
  ∃ r st' c', tc_step klt o (st, c) = Ret r (st', c') ∧ tc_exact klt c' ∧
    dl_step klt o (tc_view (st, c)) = (r, tc_view (st', c')).
Proof.
  intros Hex Ho Ha. pose proof Hex as (Hok & Hs & Hmax).
  destruct o; simpl in Ho, Ha; cbn [tc_step].
  - destruct (tc_set_refines st c now k v expired Hex Ha) as (? & ? & Hr & ? & ?).
    rewrite (cbind_Ret _ _ _ _ _ Hr). by eexists _, _, _.
  - pose proof (tc_exact_lookup c k Hex) as Hk.
    unfold tc_get, tc_status, cmodify, cget, cbind. simpl.
    destruct (c_cache c !! k) as [n|] eqn:Hm; [|rewrite Hk; by eexists _, _, _].
    destruct Hk as (l1 & x & l2 & Hl & Hnl & _ & ->).
    destruct (node_ops l1 n x l2 Hnl) as (Hf & _). rewrite <- Hl in Hf. rewrite Hf.
    by eexists _, _, _.
  - destruct (tc_expired_refines st c now k t Hex) as (? & ? & Hr & ? & ?).
    rewrite (cbind_Ret _ _ _ _ _ Hr). by eexists _, _, _.
  - eexists _, _, _. split; [done|]. split; [done|]. simpl. do 2 f_equal.
    apply bool_decide_ext. pose proof (tc_exact_lookup c k Hex) as Hk.
    destruct (c_cache c !! k); [|by rewrite Hk]. by destruct Hk as (? & ? & ? & _ & _ & _ & ->).
  - eexists _, _, _. split; [done|]. split; [|done].
    split_and!; simpl; [apply nodes_ok_nil|constructor|done].
  - eexists _, _, _. split; [done|]. split; [|done]. split_and!; try done. by destruct Ho.
  - by eexists _, _, _.
  - by eexists _, _, _.
  - destruct (filter_late_sorted _ t Hs 0 c eq_refl Hex)
      as (c' & Hr & Hex' & Ht' & Hm' & He' & Hc' & Hp').
    unfold tc_checkTimeout, cbind. simpl. rewrite Hr. eexists _, _, _. split; [done|].
    split; [done|]. unfold tc_view, report. simpl. by rewrite Ht', Hm', He', Hc', Hp'.
Qed.

(** As long as a key is set only while it is absent, the timed cache
    implements the list of items by deadline: get answers the value set,
    checkTimeout removes exactly the items whose deadline has passed and
    counts them, pruning drops the earliest deadlines, and the callback
    sees the removed items in that order. (expired answers whether the key
    is present and changes nothing.) *)
Theorem timed_cache_refines_deadlines os st c :
  tc_exact klt c → sets_absent klt os (tc_view (st, c)) →
  ∃ rs st' c', tc_run klt os (st, c) = Ret rs (st', c') ∧ tc_exact klt c' ∧
    dl_run klt os (tc_view (st, c)) = (rs, tc_view (st', c')).
Proof.
  revert st c. induction os as [|o os IH]; intros st c Hex Ha; [by eexists _, _, _|].
  destruct Ha as (Ho & Ha & Has).
  destruct (tc_step_refines o st c Hex Ho Ha) as (r & st1 & c1 & Hs & Hex1 & Hd).
  rewrite Hd in Has. destruct (IH st1 c1 Hex1 Has) as (rs & st2 & c2 & Hs2 & Hex2 & Hd2).
  exists (r :: rs), st2, c2. cbn [tc_run dl_run].
  by rewrite (cbind_Ret _ _ _ _ _ Hs), (cbind_Ret _ _ _ _ _ Hs2), Hd, Hd2.
Qed.
End exact.

(** ** Overwriting a key, and expired *)
Section overwriting.
Context {K V : Type} `{Countable K} (klt : K → K → bool) `{!KeyOrder klt}.

(** Setting a key twice in an unlimited cache: where the second iterator
    points depends on whether the deadlines differ. *)
Lemma tc_set_new now k v e :
  tc_run klt [CSet now k v e] (CacheStatus_new, TimedCache_new (K := K) (V := V) 0 0) =
  Ret [TUnit] (incSet 1 CacheStatus_new,
    mkTC {[k := 0]} [(0, mkItem k v (u64 (e + now)))] 0 0 false 1 []).
Proof.
  cbn [tc_run tc_step]. unfold tc_set, tc_status, cmodify, cget, cput, cbind, cret. simpl.
  by rewrite lookup_empty.
Qed.

Lemma tc_set_again now k (v0 : V) d0 v e st :
  tc_set klt now k v e (st, mkTC {[k := 0]} [(0, mkItem k v0 d0)] 0 0 false 1 []) =
  Ret tt (incSet 1 st,
    if (d0 =? u64 (e + now))%Z then mkTC {[k := 0]} [(0, mkItem k v0 d0)] 0 0 false 1 []
    else mkTC {[k := 1]}
           (os_insert klt node_rank (1, mkItem k v (u64 (e + now))) [(0, mkItem k v0 d0)])
           0 0 false 2 []).
Proof.
  unfold tc_set, tc_status, tc_modify, cmodify, cget, cput, cbind, cret. simpl.
  rewrite lookup_singleton_eq. unfold set_insert, os_find, map_set. cbn [fst snd c_timed c_fresh list_find].
  destruct (Z.eqb_spec d0 (u64 (e + now))) as [<-|Hne].
  - rewrite decide_True by (by apply (os_equiv_true klt node_rank)).
    cbn. by rewrite delete_singleton_eq.
  - rewrite decide_False; [cbn; by rewrite delete_singleton_eq|].
    rewrite (os_equiv_true klt node_rank). by intros [= ].
Qed.

(** An overwritten entry dies at its old deadline. When a key is set
    with one deadline and then set again with a later one, a checkTimeout
    between the two deadlines removes the key: get then misses although the
    current deadline has not passed. *)
Theorem timed_cache_stale_timeout now1 now2 k (v1 v2 : V) e1 e2 t :
  (u64 (e1 + now1) ≤ t < u64 (e2 + now2))%Z →
  ∃ s, tc_run klt [CSet now1 k v1 e1; CSet now2 k v2 e2; CGet k; CCheckTimeout t; CGet k]
         (CacheStatus_new, TimedCache_new 0 0) =
       Ret [TUnit; TUnit; TVal (Some v2); TCount 1; TVal None] s.
Proof.
  intros Ht. pose proof (tc_set_new now1 k v1 e1) as Hnew. cbn [tc_run tc_step] in *.
  apply cbind_inv_Ret in Hnew as (? & s1 & Hr1 & [= -> ->]).
  rewrite (cbind_Ret _ _ _ _ _ Hr1). unfold cbind at 1. unfold cbind at 1. unfold cbind at 1.
  rewrite tc_set_again. destruct (Z.eqb_spec (u64 (e1 + now1)) (u64 (e2 + now2))); [lia|].
  unfold os_insert, rank_lt. simpl.
  destruct (Z.eqb_spec (u64 (e2 + now2)) (u64 (e1 + now1))); [lia|].
  destruct (Z.ltb_spec (u64 (e2 + now2)) (u64 (e1 + now1))); [lia|].
  destruct (Z.eqb_spec (u64 (e1 + now1)) (u64 (e2 + now2))); [lia|].
  destruct (Z.ltb_spec (u64 (e1 + now1)) (u64 (e2 + now2))); [|lia].
  unfold tc_get, tc_checkTimeout, tc_status, cmodify, cget, cbind, cret. simpl.
  rewrite lookup_singleton_eq. simpl.
  destruct (Z.leb_spec (u64 (e1 + now1)) t); [|lia].
  destruct (Z.leb_spec (u64 (e2 + now2)) t); [lia|]. simpl.
  rewrite delete_singleton_eq, lookup_empty. by eexists.
Qed.

(** Setting a key again with the deadline it already has keeps the old
    value: the set refuses the equivalent item and the map is pointed at the
    one it holds. *)
Theorem timed_cache_same_deadline now1 now2 k (v1 v2 : V) e1 e2 :
  u64 (e1 + now1) = u64 (e2 + now2) →
  ∃ s, tc_run klt [CSet now1 k v1 e1; CSet now2 k v2 e2; CGet k]
         (CacheStatus_new, TimedCache_new 0 0) =
       Ret [TUnit; TUnit; TVal (Some v1)] s.
Proof.
  intros Ht. pose proof (tc_set_new now1 k v1 e1) as Hnew. cbn [tc_run tc_step] in *.
  apply cbind_inv_Ret in Hnew as (? & s1 & Hr1 & [= -> ->]).
  rewrite (cbind_Ret _ _ _ _ _ Hr1). unfold cbind at 1. unfold cbind at 1. unfold cbind at 1.
  rewrite tc_set_again, Ht, Z.eqb_refl.
  unfold tc_get, tc_status, cmodify, cget, cbind, cret. simpl.
  rewrite lookup_singleton_eq. simpl. by eexists.
Qed.

(** expired does not change a deadline. On a key the map holds it
    answers true whatever the new lifetime is, and the item of the key is
    the same afterwards, with its old deadline. *)
Theorem timed_cache_expired_keeps_deadline st (c : TimedCache K V) now k t n x :
  tc_wf klt c → c_cache c !! k = Some n → (n, x) ∈ c_timed c → key x = k →
  ∃ c' n', tc_expired klt now k t (st, c) = Ret true (st, c') ∧ tc_wf klt c' ∧
    c_cache c' !! k = Some n' ∧ (n', x) ∈ c_timed c' ∧ (c_timed c').*2 ≡ₚ (c_timed c).*2.
Proof.
  intros Hwf Hk Hin Hkx.
  destruct (tc_expired_spec klt st c now k t n x Hwf Hk Hin Hkx) as (c' & n' & ? & ? & ? & ? & ? & _).
  by exists c', n'.
Qed.

(** del of a present key erases it, then runs off the end of the function. *)
Lemma timed_cache_del_no_return st (c : TimedCache K V) k n :
  c_cache c !! k = Some n → tc_del k (st, c) = Stuck NoReturn.
Proof.
  intros Hk. unfold tc_del, tc_status, tc_modify, cmodify, cget, cbind. simpl. by rewrite Hk.
Qed.
End overwriting.

(** Witnesses *)
Definition tc_ex : TimedCache nat nat :=
  mkTC {[1 := 0]} [(0, mkItem 1 10 100)] 0 0 true 1 [].

Lemma tc_ex_exact : tc_exact Nat.ltb tc_ex.
Proof.
  split_and!; [|by repeat constructor|done].
  split_and!; simpl; [| |by repeat constructor|done]; apply NoDup_singleton.
Qed.

Lemma timed_cache_safe_witness :
  ∃ rs st c,
    tc_run Nat.ltb [CSet 0 1 20 300; CCheckTimeout 100; CGet 1] (CacheStatus_new, tc_ex)
      = Ret rs (st, c) ∧ tc_wf Nat.ltb c.
Proof.
  apply (timed_cache_safe Nat.ltb [CSet 0 1 20 300; CCheckTimeout 100; CGet 1] CacheStatus_new tc_ex).
  - apply tc_exact_wf, tc_ex_exact.
  - done.
  - repeat constructor.
Defined.

Lemma timed_cache_refines_deadlines_witness :
  ∃ rs st c,
    tc_run Nat.ltb [CSet 0 2 20 50; CCheckTimeout 60; CGet 1] (CacheStatus_new, tc_ex)
      = Ret rs (st, c) ∧ tc_exact Nat.ltb c ∧
    dl_run Nat.ltb [CSet 0 2 20 50; CCheckTimeout 60; CGet 1] (tc_view (CacheStatus_new, tc_ex))
      = (rs, tc_view (st, c)).
Proof.
  apply (timed_cache_refines_deadlines Nat.ltb [CSet 0 2 20 50; CCheckTimeout 60; CGet 1]
           CacheStatus_new tc_ex).
  - apply tc_ex_exact.
  - vm_compute. done.
Defined.

Lemma timed_cache_stale_timeout_witness :
  ∃ s, tc_run Nat.ltb [CSet 0 1 10 5; CSet 0 1 20 1000; CGet 1; CCheckTimeout 7; CGet 1]
         (CacheStatus_new, TimedCache_new 0 0) =
       Ret [TUnit; TUnit; TVal (Some 20); TCount 1; TVal None] s.
Proof. apply (timed_cache_stale_timeout Nat.ltb 0 0 1 10 20 5 1000 7). vm_compute. done. Defined.

Lemma timed_cache_same_deadline_witness :
  ∃ s, tc_run Nat.ltb [CSet 3 1 10 5; CSet 2 1 20 6; CGet 1]
         (CacheStatus_new, TimedCache_new 0 0) =
       Ret [TUnit; TUnit; TVal (Some 10)] s.
Proof. apply (timed_cache_same_deadline Nat.ltb 3 2 1 10 20 5 6). reflexivity. Defined.

Lemma timed_cache_expired_keeps_deadline_witness :
  ∃ c' n', tc_expired Nat.ltb 0 1 5000 (CacheStatus_new, tc_ex) = Ret true (CacheStatus_new, c') ∧
    tc_wf Nat.ltb c' ∧ c_cache c' !! 1 = Some n' ∧ (n', mkItem 1 10 100) ∈ c_timed c' ∧
    (c_timed c').*2 ≡ₚ (c_timed tc_ex).*2.
Proof.
  apply (timed_cache_expired_keeps_deadline Nat.ltb CacheStatus_new tc_ex 0 1 5000 0 (mkItem 1 10 100)).
  - apply tc_exact_wf, tc_ex_exact.
  - reflexivity.
  - left.
  - reflexivity.
Defined.
