(* ===== verification/HashCache.v ===== *)
(** * The hashed caches (HashLruCache, HashTimedLruCache, HashTimedCache)

    The three classes have one shape: an array of caches, each responsible
    for the keys whose hash falls in its bucket, all counting in one shared
    [CacheStatus]. What the wrapper needs of the cache it wraps is the class
    [Bucketed]; the wrapped caches provide its instances. The hash function
    is a parameter. *)
From Stdlib Require Import ZArith Lia.
From stdpp Require Import base list gmap list_numbers numbers.
From S2P Require Import Prelude LruCache OrderedSet TimedLruCache TimedCache.

Section hashed.
Context {K C : Type} (hash : K → Z).

Record HashCache := mkHash {
  h_datas : list C;
  h_maxSize : Z;
  h_bucket : Z;
  h_elasticity : Z;
  h_status : CacheStatus
}.

(** [std::ceil(v * 1.0 / bucket)], exact while [v] is below 2^52. *)
Definition ceil_quot (v bucket : Z) : Z := (v + bucket - 1) / bucket.

(** The constructor; [make] constructs one cache. A bucket count of 0 makes
    the quotient infinite or NaN, and its conversion undefined. *)
Definition HashCache_new (make : Z → Z → C) (bucket max_size elasticity : Z) : option HashCache :=
  if (bucket =? 0)%Z then None
  else let pre_max_size := ceil_quot max_size bucket in
       let pre_elasticity := ceil_quot elasticity bucket in
       Some (mkHash (replicate (Z.to_nat bucket) (make pre_max_size pre_elasticity))
               (u64 (pre_max_size * bucket)) bucket (u64 (pre_elasticity * bucket))
               CacheStatus_new).

Definition bucket_of (n : Z) (k : K) : nat := Z.to_nat (hash k mod n).

(** [m_datas[m_hash(k) % m_bucket]->op] *)
Definition on_bucket {A} (k : K) (op : M (CacheStatus * C) A) : M HashCache A := λ h,
  if (h_bucket h =? 0)%Z then Stuck DivByZero
  else
    let i := bucket_of (h_bucket h) k in
    match h_datas h !! i with
    | None => Stuck OutOfBounds
    | Some c =>
      let put s := mkHash (<[i := s.2]> (h_datas h)) (h_maxSize h) (h_bucket h) (h_elasticity h) s.1 in
      match op (h_status h, c) with
      | Ret a s => Ret a (put s)
      | Exn e s => Exn e (put s)
      | Stuck r => Stuck r
      end
    end.

(** [for(auto& i : m_datas) total += i->op()] *)
Fixpoint buckets_loop (ops : CacheStatus → C → outcome (CacheStatus * C) nat)
    (done todo : list C) (total : nat) (st : CacheStatus) : option (nat * list C * CacheStatus) :=
  match todo with
  | [] => Some (total, done, st)
  | c :: todo =>
    match ops st c with
    | Ret n (st', c') => buckets_loop ops (done ++ [c']) todo (total + n) st'
    | _ => None
    end
  end.
Definition each_bucket (op : M (CacheStatus * C) nat) : M HashCache nat := λ h,
  match buckets_loop (λ st c, op (st, c)) [] (h_datas h) 0 (h_status h) with
  | Some (n, l, st) => Ret n (mkHash l (h_maxSize h) (h_bucket h) (h_elasticity h) st)
  | None => Stuck OutOfBounds
  end.
(** [for(auto& i : m_datas) i->f()] *)
Definition map_buckets (f : C → C) (h : HashCache) : HashCache :=
  mkHash (f <$> h_datas h) (h_maxSize h) (h_bucket h) (h_elasticity h) (h_status h).

Definition hash_size (size : C → Z) (h : HashCache) : Z := u64 (foldl (λ n c, n + size c)%Z 0%Z (h_datas h)).
Definition hash_empty (empty : C → bool) (h : HashCache) : bool := forallb empty (h_datas h).
Definition hash_setMaxSize (set : Z → C → C) (v : Z) (h : HashCache) : option HashCache :=
  if (h_bucket h =? 0)%Z then None
  else let pre := ceil_quot v (h_bucket h) in
       Some (mkHash (set pre <$> h_datas h) (u64 (pre * h_bucket h)) (h_bucket h) (h_elasticity h)
               (h_status h)).
Definition hash_setElasticity (set : Z → C → C) (v : Z) (h : HashCache) : option HashCache :=
  if (h_bucket h =? 0)%Z then None
  else let pre := ceil_quot v (h_bucket h) in
       Some (mkHash (set pre <$> h_datas h) (h_maxSize h) (h_bucket h) (u64 (pre * h_bucket h))
               (h_status h)).
End hashed.
Arguments HashCache C : clear implicits.

(** ** The three classes *)
Section classes.
Context {K V : Type} `{Countable K} (hash : K → Z) (klt : K → K → bool).

Abbreviation HashLruCache := (HashCache (LruCache K V)).
Definition HashLruCache_new : Z → Z → Z → option HashLruCache := HashCache_new LruCache_new.
Definition hlru_set k v : M HashLruCache unit := on_bucket hash k (lru_set k v).
Definition hlru_get k : M HashLruCache (option V) := on_bucket hash k (lru_get k).
Definition hlru_del k : M HashLruCache bool := on_bucket hash k (lru_del k).
Definition hlru_exists k : M HashLruCache bool := on_bucket hash k (creads (λ s, lru_exists k s.2)).
Definition hlru_size : HashLruCache → Z := hash_size lru_size.
Definition hlru_empty : HashLruCache → bool := hash_empty lru_empty.
Definition hlru_clear : HashLruCache → HashLruCache := map_buckets lru_clear.
Definition hlru_setMaxSize : Z → HashLruCache → option HashLruCache := hash_setMaxSize setMaxSize.
Definition hlru_setElasticity : Z → HashLruCache → option HashLruCache := hash_setElasticity setElasticity.
Definition hlru_setPruneCallback b : HashLruCache → HashLruCache := map_buckets (setPruneCallback b).

Abbreviation HashTimedLruCache := (HashCache (TimedLruCache K V)).
Definition HashTimedLruCache_new : Z → Z → Z → option HashTimedLruCache := HashCache_new TimedLruCache_new.
Definition htlru_set now k v expired : M HashTimedLruCache unit :=
  on_bucket hash k (tlru_set klt now k v expired).
Definition htlru_get k : M HashTimedLruCache (option V) := on_bucket hash k (tlru_get k).
Definition htlru_del k : M HashTimedLruCache bool := on_bucket hash k (tlru_del klt k).
Definition htlru_exists k : M HashTimedLruCache bool :=
  on_bucket hash k (creads (λ s, tlru_exists k s.2)).
Definition htlru_size : HashTimedLruCache → Z := hash_size t_size.
Definition htlru_empty : HashTimedLruCache → bool := hash_empty (λ c, (t_size c =? 0)%Z).
Definition htlru_clear : HashTimedLruCache → HashTimedLruCache := map_buckets tlru_clear.
Definition htlru_setMaxSize : Z → HashTimedLruCache → option HashTimedLruCache :=
  hash_setMaxSize tsetMaxSize.
Definition htlru_setElasticity : Z → HashTimedLruCache → option HashTimedLruCache :=
  hash_setElasticity tsetElasticity.
Definition htlru_setPruneCallback b : HashTimedLruCache → HashTimedLruCache :=
  map_buckets (tsetPruneCallback b).
Definition htlru_checkTimeout t : M HashTimedLruCache nat := each_bucket (tlru_checkTimeout t).

Abbreviation HashTimedCache := (HashCache (TimedCache K V)).
Definition HashTimedCache_new : Z → Z → Z → option HashTimedCache := HashCache_new TimedCache_new.
Definition htc_set now k v expired : M HashTimedCache unit :=
  on_bucket hash k (tc_set klt now k v expired).
Definition htc_expired now k t : M HashTimedCache bool := on_bucket hash k (tc_expired klt now k t).
Definition htc_get k : M HashTimedCache (option V) := on_bucket hash k (tc_get k).
Definition htc_del k : M HashTimedCache bool := on_bucket hash k (tc_del k).
Definition htc_exists k : M HashTimedCache bool := on_bucket hash k (creads (λ s, tc_exists k s.2)).
Definition htc_size : HashTimedCache → Z := hash_size tc_size.
Definition htc_empty : HashTimedCache → bool := hash_empty (λ c, (tc_size c =? 0)%Z).
Definition htc_clear : HashTimedCache → HashTimedCache := map_buckets tc_clear.
Definition htc_setMaxSize : Z → HashTimedCache → option HashTimedCache := hash_setMaxSize tc_setMaxSize.
Definition htc_setElasticity : Z → HashTimedCache → option HashTimedCache :=
  hash_setElasticity tc_setElasticity.
Definition htc_setPruneCallback b : HashTimedCache → HashTimedCache :=
  map_buckets (tc_setPruneCallback b).
Definition htc_checkTimeout t : M HashTimedCache nat := each_bucket (tc_checkTimeout t).
End classes.

(** ** What the wrapper needs of the cache *)

(** An operation that counts in the status and does not read it. *)
Definition oblivious {C A} (m : M (CacheStatus * C) A) : Prop :=
  ∀ st st' c,
    match m (st, c), m (st', c) with
    | Ret a s, Ret a' s' => a = a' ∧ s.2 = s'.2
    | Exn e s, Exn e' s' => e = e' ∧ s.2 = s'.2
    | Stuck r, Stuck r' => r = r'
    | _, _ => False
    end.

Class Bucketed (C K Op Res : Type) := {
  b_key : Op → K;
  b_step : Op → M (CacheStatus * C) Res;
  b_inv : C → Prop;
  b_total o st c : b_inv c → ∃ r st' c', b_step o (st, c) = Ret r (st', c') ∧ b_inv c';
  b_oblivious o : oblivious (b_step o)
}.

Section oblivious.
Context {C A B : Type}.
Implicit Types m : M (CacheStatus * C) A.

Lemma oblivious_ret (a : A) : oblivious (C := C) (cret a).
Proof. intros ???. done. Qed.
Lemma oblivious_stuck r : oblivious (C := C) (A := A) (cstuck r).
Proof. intros ???. done. Qed.
Lemma oblivious_bind m (k : A → M (CacheStatus * C) B) :
  oblivious m → (∀ a, oblivious (k a)) → oblivious (cbind m k).
Proof.
  intros Hm Hk st st' c. unfold cbind. specialize (Hm st st' c).
  destruct (m (st, c)) as [a [s1 c1]|e [s1 c1]|r], (m (st', c)) as [a' [s1' c1']|e' [s1' c1']|r'];
    try done.
  destruct Hm as [-> [= ->]]. apply Hk.
Qed.
Lemma oblivious_get (k : CacheStatus * C → M (CacheStatus * C) A) :
  (∀ st st' c, k (st, c) = k (st', c)) → (∀ s, oblivious (k s)) → oblivious (cbind cget k).
Proof.
  intros He Hk st st' c. unfold cbind, cget. rewrite (He st st' c). apply Hk.
Qed.
Lemma oblivious_modify (f : CacheStatus * C → CacheStatus * C) :
  (∀ st st' c, (f (st, c)).2 = (f (st', c)).2) → oblivious (cmodify f).
Proof. intros Hf st st' c. unfold cmodify. split; [done|apply Hf]. Qed.
Lemma oblivious_reads (f : CacheStatus * C → A) :
  (∀ st st' c, f (st, c) = f (st', c)) → oblivious (creads f).
Proof. intros Hf st st' c. unfold creads. split; [apply Hf|done]. Qed.
(** Reading the cache and writing it back under the same status. *)
Lemma oblivious_get_put {X} (f : C → X * C) (g : X → C → C) (m : X → M (CacheStatus * C) A) :
  (∀ x, oblivious (m x)) →
  oblivious (let! s := cget in
             let '(x, c) := f s.2 in let! _ := cput (s.1, g x c) in m x).
Proof.
  intros Hm st st' c. unfold cbind, cget, cput. simpl. destruct (f c) as [x c']. apply Hm.
Qed.
End oblivious.

Ltac solve_oblivious :=
  repeat match goal with
  | |- oblivious (cret _) => apply oblivious_ret
  | |- oblivious (cstuck _) => apply oblivious_stuck
  | |- oblivious (cmodify _) => apply oblivious_modify; done
  | |- oblivious (creads _) => apply oblivious_reads; done
  | |- oblivious (cbind cget _) => apply oblivious_get_put; intros ?
  | |- oblivious (cbind cget _) => apply oblivious_get; [done|intros ?]
  | |- oblivious (cbind _ _) => apply oblivious_bind; [|intros ?]
  | |- oblivious (match ?x with _ => _ end) => destruct x
  | |- oblivious (let _ := _ in _) => cbv zeta
  end.

(** ** Buckets are independent caches *)
Section bucketwise.
Context {C K Op Res : Type} `{!Bucketed C K Op Res} (hash : K → Z).
Implicit Types (h : HashCache C) (os : list Op) (rs : list Res).

Definition hash_step (o : Op) : M (HashCache C) Res := on_bucket hash (b_key o) (b_step o).
Fixpoint hash_run os : M (HashCache C) (list Res) :=
  match os with
  | [] => cret []
  | o :: os => let! x := hash_step o in let! xs := hash_run os in cret (x :: xs)
  end.
(** A history on one cache. *)
Fixpoint cache_run os : M (CacheStatus * C) (list Res) :=
  match os with
  | [] => cret []
  | o :: os => let! x := b_step o in let! xs := cache_run os in cret (x :: xs)
  end.

(** The operations of a history that go to bucket [i], and their results. *)
Definition ops_of (n : Z) (i : nat) os : list Op :=
  filter (λ o, bucket_of hash n (b_key o) = i) os.
Fixpoint results_of (n : Z) (i : nat) os rs : list Res :=
  match os, rs with
  | o :: os, r :: rs =>
    if decide (bucket_of hash n (b_key o) = i) then r :: results_of n i os rs
    else results_of n i os rs
  | _, _ => []
  end.

Definition hash_inv h : Prop :=
  (0 < h_bucket h)%Z ∧ h_bucket h = Z.of_nat (length (h_datas h)) ∧ Forall b_inv (h_datas h).

Lemma bucket_of_lt h k : hash_inv h → bucket_of hash (h_bucket h) k < length (h_datas h).
Proof.
  intros (Hp & Hn & _). unfold bucket_of.
  pose proof (Z.mod_pos_bound (hash k) (h_bucket h) Hp). lia.
Qed.

(** One step on a bucket, whatever the status it is run with. *)
Lemma hash_step_spec o h :
  hash_inv h →
  let j := bucket_of hash (h_bucket h) (b_key o) in
  ∃ c r c' st', h_datas h !! j = Some c ∧ b_inv c' ∧
    hash_step o h =
      Ret r (mkHash (<[j := c']> (h_datas h)) (h_maxSize h) (h_bucket h) (h_elasticity h) st') ∧
    ∀ st, ∃ st1, b_step o (st, c) = Ret r (st1, c').
Proof.
  intros Hinv j. pose proof (bucket_of_lt h (b_key o) Hinv) as Hj.
  apply lookup_lt_is_Some in Hj as [c Hc]. destruct Hinv as (Hp & Hn & Hall).
  destruct (b_total o (h_status h) c) as (r & st' & c' & Hr & Hc'); [by eapply Forall_lookup_1 in Hc|].
  exists c, r, c', st'. split_and!; try done.
  - unfold hash_step, on_bucket. destruct (Z.eqb_spec (h_bucket h) 0); [lia|].
    by rewrite Hc, Hr.
  - intros st. pose proof (b_oblivious o (h_status h) st c) as Ho. rewrite Hr in Ho.
    destruct (b_step o (st, c)) as [r1 [st1 c1]| |]; try done.
    destruct Ho as [<- [= <-]]. by eexists.
Qed.

Lemma hashed_cache_bucketwise_aux os h :
  hash_inv h →
  ∃ rs h', hash_run os h = Ret rs h' ∧ hash_inv h' ∧
    ∀ i c st, h_datas h !! i = Some c →
    ∃ st' c', h_datas h' !! i = Some c' ∧
      cache_run (ops_of (h_bucket h) i os) (st, c) =
        Ret (results_of (h_bucket h) i os rs) (st', c').
Proof.
  revert h. induction os as [|o os IH]; intros h Hinv.
  { exists [], h. split_and!; try done. intros i c st Hc. by exists st, c. }
  destruct (hash_step_spec o h Hinv) as (c0 & r & c0' & st1 & Hc0 & Hinv0 & Hs & Hobl).
  set (j := bucket_of hash (h_bucket h) (b_key o)) in *.
  set (h1 := mkHash _ _ _ _ _) in Hs.
  assert (hash_inv h1) as Hinv1.
  { destruct Hinv as (Hp & Hn & Hall). split_and!; simpl; [done| |].
    - by rewrite length_insert.
    - by apply Forall_insert. }
  destruct (IH h1 Hinv1) as (rs & h2 & Hrun & Hinv2 & Hb).
  exists (r :: rs), h2. cbn [hash_run].
  rewrite (cbind_Ret _ _ _ _ _ Hs), (cbind_Ret _ _ _ _ _ Hrun). split_and!; try done.
  intros i c st Hc. cbn [results_of]. unfold ops_of in *. rewrite filter_cons. fold j.
  destruct (decide (j = i)) as [<-|Hne].
  - simplify_eq. destruct (Hobl st) as [st2 Hst2].
    destruct (Hb j c0' st2) as (st3 & c3 & Hc3 & Hr3).
    { simpl. apply list_lookup_insert_eq. by eapply lookup_lt_Some. }
    exists st3, c3. split; [done|]. cbn [cache_run].
    by rewrite (cbind_Ret _ _ _ _ _ Hst2), (cbind_Ret _ _ _ _ _ Hr3).
  - apply Hb. simpl. by rewrite list_lookup_insert_ne.
Qed.

(** A hashed cache is its buckets run side by side. Every history of
    keyed operations runs without an index out of range, and each bucket
    ends as if the operations on its keys alone had run on that cache, with
    the same answers; only the status counters are shared. *)
Theorem hashed_cache_bucketwise os h :
  hash_inv h →
  ∃ rs h', hash_run os h = Ret rs h' ∧ hash_inv h' ∧
    ∀ i c st, h_datas h !! i = Some c →
    ∃ st' c', h_datas h' !! i = Some c' ∧
      cache_run (ops_of (h_bucket h) i os) (st, c) =
        Ret (results_of (h_bucket h) i os rs) (st', c').
Proof. apply hashed_cache_bucketwise_aux. Qed.

Lemma HashCache_new_inv make bucket max_size elasticity h :
  (0 ≤ bucket)%Z → (∀ a b, (0 ≤ a)%Z → (0 ≤ b)%Z → b_inv (make a b)) →
  (0 ≤ max_size)%Z → (0 ≤ elasticity)%Z →
  HashCache_new make bucket max_size elasticity = Some h → hash_inv h.
Proof.
  unfold HashCache_new. intros Hb Hmake ??. destruct (Z.eqb_spec bucket 0); [done|].
  intros [= <-]. split_and!; simpl; [lia|rewrite length_replicate; lia|].
  apply Forall_replicate, Hmake; unfold ceil_quot; apply Z.div_pos; lia.
Qed.
End bucketwise.

(** The capacity of a hashed cache: the requested one rounded up to a
    multiple of the bucket count. *)
Lemma ceil_div_bounds v b : (0 < b → v ≤ ceil_quot v b * b < v + b)%Z.
Proof.
  intros Hb. unfold ceil_quot.
  pose proof (Z.mod_pos_bound (v + b - 1) b Hb).
  pose proof (Z.div_mod (v + b - 1) b ltac:(lia)). lia.
Qed.

(** ** The three caches as buckets *)
Section instances.
Context {K V : Type} `{Countable K} (klt : K → K → bool) `{!KeyOrder klt}.

Inductive hash_op := HSet (k : K) (v : V) | HGet (k : K) | HDel (k : K) | HExists (k : K).
Definition hash_op_key (o : hash_op) : K :=
  match o with HSet k _ | HGet k | HDel k | HExists k => k end.
Definition hash_op_lru (o : hash_op) : lru_op K V :=
  match o with HSet k v => OSet k v | HGet k => OGet k | HDel k => ODel k | HExists k => OExists k end.

Lemma prune_loop_status fuel count st st' (c : LruCache K V) :
  match prune_loop fuel count (st, c), prune_loop fuel count (st', c) with
  | Ret a s, Ret a' s' => a = a' ∧ s.2 = s'.2
  | Exn e s, Exn e' s' => e = e' ∧ s.2 = s'.2
  | Stuck r, Stuck r' => r = r'
  | _, _ => False
  end.
Proof.
  revert count c. induction fuel as [|fuel IH]; intros count c; simpl;
    (destruct (m_maxSize c <? cache_size c)%Z; [|done]); [done|].
  destruct (prune_back c); [apply IH|done].
Qed.

Lemma prune_oblivious : oblivious (prune (K := K) (V := V)).
Proof.
  intros st st' c. unfold prune. simpl.
  destruct ((m_maxSize c =? 0) || (cache_size c <? getMaxAllowedSize c))%Z; [done|].
  apply (oblivious_bind (prune_loop (size (m_cache c)) 0)).
  - intros ???. apply prune_loop_status.
  - intros. unfold with_status. solve_oblivious.
Qed.

Lemma lru_step_oblivious o : oblivious (lru_step (K := K) (V := V) o).
Proof.
  destruct o; cbn [lru_step]; unfold lru_set, lru_get, lru_del, with_status, with_cache;
    solve_oblivious; apply prune_oblivious.
Qed.

Lemma lru_hash_total o st (c : LruCache K V) :
  lru_wf c → ∃ r st' c', lru_step (hash_op_lru o) (st, c) = Ret r (st', c') ∧ lru_wf c'.
Proof.
  intros Hwf.
  destruct (lru_step_refines (hash_op_lru o) st c Hwf) as (r & st' & c' & ? & ? & _); [by destruct o|].
  eauto.
Qed.

#[export] Instance lru_bucketed : Bucketed (LruCache K V) K hash_op (lru_res V) := {
  b_key := hash_op_key;
  b_step o := lru_step (hash_op_lru o);
  b_inv := lru_wf;
  b_total := lru_hash_total;
  b_oblivious o := lru_step_oblivious (hash_op_lru o)
}.

(** The timed caches, with the clock an argument of each operation. *)
Inductive thash_op :=
  | HTSet (now : Z) (k : K) (v : V) (expired : Z) | HTGet (k : K) | HTDel (k : K) | HTExists (k : K).
Definition thash_op_key (o : thash_op) : K :=
  match o with HTSet _ k _ _ | HTGet k | HTDel k | HTExists k => k end.
Definition thash_op_tlru (o : thash_op) : tlru_op K V :=
  match o with
  | HTSet now k v e => TSet now k v e | HTGet k => TGet k | HTDel k => TDel k | HTExists k => TExists k
  end.

Lemma oblivious_nodes f : oblivious (on_nodes (K := K) (V := V) f).
Proof. intros st st' c. unfold on_nodes. simpl. by destruct (f c). Qed.

Lemma tprune_oblivious : oblivious (tprune (K := K) (V := V) klt).
Proof.
  intros st st' c. unfold tprune. simpl.
  destruct ((t_maxSize c =? 0) || (t_size c <? u64 (t_maxSize c + t_elasticity c)))%Z; [done|].
  apply (oblivious_bind (tprune_loop klt (size (t_cache c)) 0)).
  - intros st1 st1'. generalize 0, (size (t_cache c)). intros count fuel. revert count.
    induction fuel as [|fuel IH]; intros count c1; simpl;
      (destruct (t_maxSize c1 <? t_size c1)%Z; [|done]); [done|].
    destruct (tprune_back klt c1); [apply IH|done].
  - intros. unfold on_status. solve_oblivious.
Qed.

Lemma tlru_step_oblivious o : oblivious (tlru_step (K := K) (V := V) klt (thash_op_tlru o)).
Proof.
  destruct o; cbn [tlru_step thash_op_tlru]; unfold tlru_set, tlru_get, tlru_del, on_status, on_cache;
    solve_oblivious; try apply oblivious_nodes; apply tprune_oblivious.
Qed.

Definition tlru_inv (c : TimedLruCache K V) : Prop := ∃ st r, tlru_sim klt (st, c) r.

Lemma tlru_hash_total o st (c : TimedLruCache K V) :
  tlru_inv c →
  ∃ r st' c', tlru_step klt (thash_op_tlru o) (st, c) = Ret r (st', c') ∧ tlru_inv c'.
Proof.
  intros (st0 & r & Hsim).
  assert (tlru_sim klt (st, c) (r_update (r_items r) (r_dropped r) st r)) as Hsim'
    by (by destruct Hsim; split).
  destruct (tlru_step_refines klt (thash_op_tlru o) _ _ Hsim') as (x & [st' c'] & ? & _ & ?);
    [by destruct o|]. eexists _, _, _. split; [done|]. by eexists _, _.
Qed.

#[export] Instance tlru_bucketed : Bucketed (TimedLruCache K V) K thash_op (tlru_res V) := {
  b_key := thash_op_key;
  b_step o := tlru_step klt (thash_op_tlru o);
  b_inv := tlru_inv;
  b_total := tlru_hash_total;
  b_oblivious := tlru_step_oblivious
}.

Inductive chash_op :=
  | HCSet (now : Z) (k : K) (v : V) (expired : Z) | HCExpired (now : Z) (k : K) (t : Z)
  | HCGet (k : K) | HCExists (k : K).
Definition chash_op_key (o : chash_op) : K :=
  match o with HCSet _ k _ _ | HCExpired _ k _ | HCGet k | HCExists k => k end.
Definition chash_op_tc (o : chash_op) : tc_op K V :=
  match o with
  | HCSet now k v e => CSet now k v e | HCExpired now k t => CExpired now k t
  | HCGet k => CGet k | HCExists k => CExists k
  end.

Lemma tc_prune_oblivious : oblivious (tc_prune (K := K) (V := V)).
Proof.
  intros st st' c. unfold tc_prune. simpl.
  destruct ((c_maxSize c =? 0) || (tc_size c <? u64 (c_maxSize c + c_elasticity c)))%Z; [done|].
  apply (oblivious_bind (tc_prune_loop (S (length (c_timed c))) 0)).
  - intros st1 st1'. generalize 0, (S (length (c_timed c))). intros count fuel. revert count.
    induction fuel as [|fuel IH]; intros count c1; simpl;
      (destruct (c_maxSize c1 <? tc_size c1)%Z; [|done]); [done|].
    destruct (c_timed c1) as [|[n x] rest]; [done|apply IH].
  - intros. unfold tc_status. solve_oblivious.
Qed.

Lemma tc_step_oblivious o : oblivious (tc_step (K := K) (V := V) klt (chash_op_tc o)).
Proof.
  destruct o; cbn [tc_step chash_op_tc]; unfold tc_set, tc_get, tc_expired, tc_status, tc_modify;
    solve_oblivious.
  apply tc_prune_oblivious.
Qed.

Definition tc_inv (c : TimedCache K V) : Prop := tc_wf klt c ∧ (0 ≤ c_maxSize c)%Z.

Lemma tc_hash_total o st (c : TimedCache K V) :
  tc_inv c →
  ∃ r st' c', tc_step klt (chash_op_tc o) (st, c) = Ret r (st', c') ∧ tc_inv c'.
Proof.
  intros [Hwf Hm].
  destruct (tc_step_total klt (chash_op_tc o) st c Hwf Hm) as (r & st' & c' & ? & ? & ?);
    [by destruct o|]. by eexists _, _, _.
Qed.

#[export] Instance tc_bucketed : Bucketed (TimedCache K V) K chash_op (tlru_res V) := {
  b_key := chash_op_key;
  b_step o := tc_step klt (chash_op_tc o);
  b_inv := tc_inv;
  b_total := tc_hash_total;
  b_oblivious := tc_step_oblivious
}.
End instances.
Arguments hash_op K V : clear implicits.
Arguments thash_op K V : clear implicits.
Arguments chash_op K V : clear implicits.

(** Operations through the wrapper are the class's member functions. *)
Section hashed_lru.
Context {K V : Type} `{Countable K} (hash : K → Z).

Definition hlru_step (o : hash_op K V) : M (HashCache (LruCache K V)) (lru_res V) :=
  match o with
  | HSet k v => let! _ := hlru_set hash k v in cret RUnit
  | HGet k => let! r := hlru_get hash k in cret (RVal r)
  | HDel k => let! b := hlru_del hash k in cret (RBool b)
  | HExists k => let! b := hlru_exists hash k in cret (RBool b)
  end.
Fixpoint hlru_run (os : list (hash_op K V)) : M (HashCache (LruCache K V)) (list (lru_res V)) :=
  match os with
  | [] => cret []
  | o :: os => let! x := hlru_step o in let! xs := hlru_run os in cret (x :: xs)
  end.

Lemma on_bucket_map {C A B} k (m : M (CacheStatus * C) A) (f : A → B) h :
  on_bucket hash k (cbind m (λ a, cret (f a))) h = cbind (on_bucket hash k m) (λ a, cret (f a)) h.
Proof.
  unfold on_bucket, cbind, cret. repeat case_match; by simplify_eq.
Qed.

Lemma hlru_step_hash o h : hlru_step o h = hash_step hash o h.
Proof.
  destruct o; unfold hash_step; cbn [hlru_step b_step b_key lru_bucketed hash_op_lru lru_step hash_op_key].
  - symmetry. apply (on_bucket_map k (lru_set k v) (λ _, RUnit)).
  - symmetry. apply (on_bucket_map k (lru_get k) RVal).
  - symmetry. apply (on_bucket_map k (lru_del k) RBool).
  - unfold hlru_exists, cbind, creads, on_bucket. simpl. repeat case_match; by simplify_eq.
Qed.

Lemma hlru_run_hash os h : hlru_run os h = hash_run hash os h.
Proof.
  revert h. induction os as [|o os IH]; intros h; [done|]. cbn [hlru_run hash_run].
  unfold cbind. rewrite hlru_step_hash. case_match; [|done..]. by rewrite IH.
Qed.

Lemma cache_run_lru os s : cache_run (C := LruCache K V) os s = lru_run (hash_op_lru <$> os) s.
Proof.
  revert s. induction os as [|o os IH]; intros s; [done|]. cbn [cache_run lru_run fmap list_fmap].
  unfold cbind. cbn [b_step lru_bucketed]. case_match; [|done..].
  change (list_fmap _ _ hash_op_lru os) with (hash_op_lru <$> os). by rewrite IH.
Qed.

(** A hashed LRU cache keeps, in every bucket, what the recency list of
    the bucket's own operations keeps: a history of set, get, del and exists
    on a well-formed hashed cache runs to completion, answers each operation
    as the recency list of its bucket would, and each bucket ends in that
    list's order. *)
Theorem hash_lru_refines os h :
  (0 < h_bucket h)%Z → h_bucket h = Z.of_nat (length (h_datas h)) → Forall lru_wf (h_datas h) →
  ∃ rs h', hlru_run os h = Ret rs h' ∧
    ∀ i c, h_datas h !! i = Some c →
    ∃ c', h_datas h' !! i = Some c' ∧ lru_wf c' ∧
      let '(xs, r) := rec_run (hash_op_lru <$> ops_of hash (h_bucket h) i os)
                        (abs (CacheStatus_new, c)) in
      xs = results_of hash (h_bucket h) i os rs ∧ r_items r = entries c' ∧
      r_dropped r = m_pruned c'.
Proof.
  intros Hp Hn Hall.
  destruct (hashed_cache_bucketwise_aux hash os h) as (rs & h' & Hr & _ & Hb); [done|].
  exists rs, h'. rewrite hlru_run_hash. split; [done|]. intros i c Hc.
  destruct (Hb i c CacheStatus_new Hc) as (st' & c' & Hc' & Hr'). exists c'. split; [done|].
  rewrite cache_run_lru in Hr'.
  destruct (lru_refines_recency_aux (hash_op_lru <$> ops_of hash (h_bucket h) i os)
    CacheStatus_new c) as (xs & st1 & c1 & Hr1 & Hwf1 & ->).
  - by eapply Forall_lookup_1 in Hall.
  - apply Forall_fmap, Forall_true. by intros [].
  - rewrite Hr' in Hr1. by injection Hr1 as <- <- <-.
Qed.
End hashed_lru.

Definition hash_ex : HashCache (LruCache nat nat) :=
  mkHash [LruCache_new 1 0; LruCache_new 1 0] 2 2 0 CacheStatus_new.

Lemma hashed_cache_bucketwise_witness :
  ∃ rs h', hash_run Z.of_nat [HSet 4 40; HSet 7 70; HSet 6 60; HGet 4] hash_ex = Ret rs h' ∧
    hash_inv h' ∧
    ∀ i c st, h_datas hash_ex !! i = Some c →
    ∃ st' c', h_datas h' !! i = Some c' ∧
      cache_run (ops_of Z.of_nat 2 i [HSet 4 40; HSet 7 70; HSet 6 60; HGet 4]) (st, c) =
        Ret (results_of Z.of_nat 2 i [HSet 4 40; HSet 7 70; HSet 6 60; HGet 4] rs) (st', c').
Proof.
  apply (hashed_cache_bucketwise Z.of_nat [HSet 4 40; HSet 7 70; HSet 6 60; HGet 4] hash_ex).
  split_and!; [done..|]. repeat constructor; done.
Defined.

Lemma hash_lru_refines_witness :
  ∃ rs h', hlru_run Z.of_nat [HSet 4 40; HSet 7 70; HSet 6 60; HGet 4] hash_ex = Ret rs h' ∧
    ∀ i c, h_datas hash_ex !! i = Some c →
    ∃ c', h_datas h' !! i = Some c' ∧ lru_wf c' ∧
      let '(xs, r) := rec_run (hash_op_lru <$> ops_of Z.of_nat 2 i [HSet 4 40; HSet 7 70; HSet 6 60; HGet 4])
                        (abs (CacheStatus_new, c)) in
      xs = results_of Z.of_nat 2 i [HSet 4 40; HSet 7 70; HSet 6 60; HGet 4] rs ∧
      r_items r = entries c' ∧ r_dropped r = m_pruned c'.
Proof.
  apply (hash_lru_refines Z.of_nat [HSet 4 40; HSet 7 70; HSet 6 60; HGet 4] hash_ex); [done..|].
  repeat constructor; done.
Defined.
