(* ===== verification/Stream.v ===== *)
(** * Streams over sockets (Sylar/stream.cc, Sylar/streams/socket_stream.cc)

    A socket is a state with the calls the operating system offers: the
    class [Socket] has the calls, [SocketLaws] what their manual pages
    promise about the bytes that arrive and leave, and [SocketLive] that a
    connected peer makes progress. SocketStream and the fixed-size loops of
    Stream are written against the calls; their theorems use the laws. *)
From Stdlib Require Import ZArith Lia Strings.Byte.
From stdpp Require Import base list list_numbers numbers.
From S2P Require Import Prelude ByteArray Codec.

(** recv and send: the count, 0 when the peer has closed, negative on an
    error. *)
Class Socket (S : Type) := {
  sock_connected : S → bool;
  sock_recv : nat → S → Z * list byte * S;
  sock_send : list byte → S → Z * S;
  sock_close : S → S
}.

Class SocketLaws (S : Type) `{!Socket S} := {
  incoming : S → list byte;        (* what the peer has sent and recv has not returned *)
  outgoing : S → list byte;        (* what send has accepted so far *)
  recv_ok n s rt bs s' :
    sock_recv n s = (rt, bs, s') → (0 < rt)%Z →
    length bs = Z.to_nat rt ∧ length bs ≤ n ∧ incoming s = bs ++ incoming s' ∧
    outgoing s' = outgoing s;
  recv_fail n s rt bs s' :
    sock_recv n s = (rt, bs, s') → (rt ≤ 0)%Z →
    bs = [] ∧ incoming s' = incoming s ∧ outgoing s' = outgoing s;
  send_ok bs s rt s' :
    sock_send bs s = (rt, s') → (0 < rt)%Z →
    Z.to_nat rt ≤ length bs ∧ outgoing s' = outgoing s ++ take (Z.to_nat rt) bs ∧
    incoming s' = incoming s;
  send_fail bs s rt s' :
    sock_send bs s = (rt, s') → (rt ≤ 0)%Z → incoming s' = incoming s ∧ outgoing s' = outgoing s
}.

Class SocketLive (S : Type) `{!Socket S, !SocketLaws S} := {
  live : S → Prop;
  live_connected s : live s → sock_connected s = true;
  live_recv n s rt bs s' :
    live s → 0 < n → incoming s ≠ [] → sock_recv n s = (rt, bs, s') → (0 < rt)%Z ∧ live s';
  live_send bs s rt s' :
    live s → bs ≠ [] → sock_send bs s = (rt, s') → (0 < rt)%Z ∧ live s'
}.

Section stream.
Context {S : Type} `{!Socket S} (junk : nat → nat → byte).

(** SocketStream::read(buffer, length) and write(buffer, length) *)
Definition stream_read (length : nat) : M S (Z * list byte) := λ s,
  if sock_connected s then let '(rt, bs, s') := sock_recv length s in Ret (rt, bs) s'
  else Ret ((-1)%Z, []) s.
Definition stream_write (buffer : list byte) : M S Z := λ s,
  if sock_connected s then let '(rt, s') := sock_send buffer s in Ret rt s' else Ret (-1)%Z s.
Definition stream_close : M S unit := cmodify sock_close.

(** Stream::readFixSize(buffer, length): the result and what has been
    stored in the buffer. Every round but the last stores a byte. *)
Fixpoint readFix_loop (fuel : nat) (left : Z) (buffer : list byte) : M S (option Z * list byte) :=
  if (left <=? 0)%Z then cret (None, buffer)
  else match fuel with
  | O => cstuck OutOfFuel
  | Datatypes.S fuel =>
    let! (len, bs) := stream_read (Z.to_nat left) in
    if (len <=? 0)%Z then cret (Some len, buffer)
    else readFix_loop fuel (left - len) (buffer ++ bs)
  end.
Definition readFixSize (length : Z) : M S (Z * list byte) :=
  let left := i64 length in
  let! (r, bs) := readFix_loop (Z.to_nat left) left [] in
  cret (default (i32 length) r, bs).

(** Stream::writeFixSize(buffer, length) *)
Fixpoint writeFix_loop (fuel : nat) (buffer : list byte) (left : Z) : M S (option Z) :=
  if (left <=? 0)%Z then cret None
  else match fuel with
  | O => cstuck OutOfFuel
  | Datatypes.S fuel =>
    let! len := stream_write (take (Z.to_nat left) buffer) in
    if (len <=? 0)%Z then cret (Some len)
    else writeFix_loop fuel (drop (Z.to_nat len) buffer) (left - len)
  end.
Definition writeFixSize (buffer : list byte) (length : Z) : M S Z :=
  let left := i64 length in
  let! r := writeFix_loop (Z.to_nat left) buffer left in
  cret (default (i32 length) r).

(** ** Through a ByteArray *)
Definition on_stream {A} (m : M S A) : M (S * ByteArray) A := λ s,
  match m s.1 with
  | Ret a s1 => Ret a (s1, s.2) | Exn e s1 => Exn e (s1, s.2) | Stuck r => Stuck r
  end.
Definition on_ba {A} (m : M ByteArray A) : M (S * ByteArray) A := λ s,
  match m s.2 with
  | Ret a b => Ret a (s.1, b) | Exn e b => Exn e (s.1, b) | Stuck r => Stuck r
  end.

(** The bytes recv places in the blocks the [iovec]s point to. *)
Fixpoint scatter (iovs : list iovec) (bs : list byte) (b : ByteArray) : option ByteArray :=
  match bs, iovs with
  | [], _ => Some b
  | _, [] => None
  | _, v :: iovs =>
    nd ← m_nodes b !! iov_node v;
    nd' ← blit nd (iov_off v) (take (iov_len v) bs);
    scatter iovs (drop (iov_len v) bs) (set_nodes (<[iov_node v := nd']> (m_nodes b)) b)
  end.

(** SocketStream::read(ba, length) *)
Definition stream_read_ba (length : nat) : M (S * ByteArray) Z :=
  let! s := cget in
  if negb (sock_connected s.1) then cret (-1)%Z
  else
    let! (_, iovs) := on_ba (getWriteBuffers junk [] length) in
    let! (rt, bs) := on_stream (λ s, let '(rt, bs, s') := sock_recv length s in Ret (rt, bs) s') in
    let! _ := on_ba (let! b := cget in
                     let! b' := cinbounds (scatter iovs bs b) in cput b') in
    let! _ := if (0 <? rt)%Z then on_ba (let! b := cget in setPosition (m_position b + Z.to_nat rt))
              else cret tt in
    cret rt.

(** SocketStream::write(ba, length) *)
Definition stream_write_ba (length : nat) : M (S * ByteArray) Z :=
  let! s := cget in
  if negb (sock_connected s.1) then cret (-1)%Z
  else
    let! (_, iovs) := on_ba (getReadBuffers [] length) in
    let! s := cget in
    let! rt := on_stream (λ s1, let '(rt, s') := sock_send (iov_data s.2 iovs) s1 in Ret rt s') in
    let! _ := if (0 <? rt)%Z then on_ba (let! b := cget in setPosition (m_position b + Z.to_nat rt))
              else cret tt in
    cret rt.

(** Stream::readFixSize(ba, length) and writeFixSize(ba, length) *)
Fixpoint fix_loop_ba (step : nat → M (S * ByteArray) Z) (fuel : nat) (left : Z)
  : M (S * ByteArray) (option Z) :=
  if (left <=? 0)%Z then cret None
  else match fuel with
  | O => cstuck OutOfFuel
  | Datatypes.S fuel =>
    let! len := step (Z.to_nat left) in
    if (len <=? 0)%Z then cret (Some len)
    else fix_loop_ba step fuel (left - len)
  end.
Definition readFixSize_ba (length : Z) : M (S * ByteArray) Z :=
  let left := i64 length in
  let! r := fix_loop_ba stream_read_ba (Z.to_nat left) left in
  cret (default (i32 length) r).
Definition writeFixSize_ba (length : Z) : M (S * ByteArray) Z :=
  let left := i64 length in
  let! r := fix_loop_ba stream_write_ba (Z.to_nat left) left in
  cret (default (i32 length) r).
End stream.

(** ** Scatter writes *)
Section scatter.
Context (junk : nat → nat → byte).
Implicit Types b : ByteArray.

(** A vector of [iovec]s that covers the memory from [p] on, in order. *)
Fixpoint contiguous (base count p : nat) (iovs : list iovec) : Prop :=
  match iovs with
  | [] => True
  | v :: iovs =>
    iov_node v * base + iov_off v = p ∧ iov_off v + iov_len v ≤ base ∧ iov_node v < count ∧
    contiguous base count (p + iov_len v) iovs
  end.
Definition iov_total (iovs : list iovec) : nat := sum_list (iov_len <$> iovs).

Lemma iov_loop_contiguous b fuel len npos i nd buffers :
  0 < m_baseSize b → uniform (m_baseSize b) (m_nodes b) →
  m_nodes b !! i = Some nd → npos < m_baseSize b → 0 < len ≤ fuel →
  i * m_baseSize b + npos + len ≤ m_baseSize b * length (m_nodes b) →
  ∃ iovs, iov_loop b fuel len npos (m_baseSize b - npos) (Some i) buffers = Ret (buffers ++ iovs) b ∧
    contiguous (m_baseSize b) (length (m_nodes b)) (i * m_baseSize b + npos) iovs ∧
    iov_total iovs = len.
Proof.
  revert len npos i nd buffers.
  induction fuel as [|fuel IH]; intros len npos i nd buffers Hb Hu Hi Hn Hlen Hcap; [lia|].
  pose proof (lookup_lt_Some _ _ _ Hi).
  cbn [iov_loop]. rewrite (proj2 (Nat.eqb_neq _ _)) by lia.
  destruct (Nat.leb_spec len (m_baseSize b - npos)) as [Hfit|Hbig].
  - eexists [_]. split; [done|]. unfold iov_total; simpl. split_and!; lia.
  - assert (HSi : Datatypes.S i < length (m_nodes b)) by nia.
    destruct (lookup_lt_is_Some_2 (m_nodes b) (Datatypes.S i) HSi) as [nd2 Hnd2].
    unfold node_next. rewrite (proj2 (Nat.ltb_lt _ _)) by done.
    cbn [node_at mbind option_bind]. rewrite Hnd2, (uniform_lookup _ _ _ _ Hu Hnd2).
    destruct (IH (len - (m_baseSize b - npos)) 0 (Datatypes.S i) nd2
                (buffers ++ [mkIovec i npos (m_baseSize b - npos)]))
      as (iovs & Hrun & Hc & Ht); [done|done|done|done|lia|lia|].
    rewrite Nat.sub_0_r in Hrun. rewrite Hrun.
    eexists (_ :: iovs). rewrite <- (assoc_L (++)). split; [done|].
    unfold iov_total in *. csimpl. cbn [contiguous iov_node iov_off iov_len].
    split_and!; try lia.
    replace (i * m_baseSize b + npos + (m_baseSize b - npos))
      with (Datatypes.S i * m_baseSize b + 0) by lia. done.
Qed.

Lemma getWriteBuffers_contiguous b len :
  wf b →
  ∃ b' iovs, getWriteBuffers junk [] len b = Ret (len, iovs) b' ∧
    wf b' ∧ abs b' = abs b ∧ m_endian b' = m_endian b ∧ m_baseSize b' = m_baseSize b ∧
    m_position b' = m_position b ∧ m_size b' = m_size b ∧
    m_position b' + len ≤ m_capacity b' ∧
    contiguous (m_baseSize b') (length (m_nodes b')) (m_position b') iovs ∧ iov_total iovs = len.
Proof.
  intros H. unfold getWriteBuffers. destruct (Nat.eqb_spec len 0) as [->|E].
  { exists b, []. pose proof (wf_position _ H). pose proof (wf_size _ H). split_and!; try done; lia. }
  destruct (addCapacity_spec junk len b H) as (b1 & Hrun & H1 & Hcap & Hp & Hs & He & Hb & [k Hk]).
  rewrite (cbind_Ret _ _ _ _ _ Hrun). unfold cbind, cget. rewrite modBase_ret by done.
  unfold getCapacity in *. pose proof (wf_capacity _ H1).
  destruct (wf_cursor b1 H1 ltac:(lia)) as (i & nd & npos & Hcur & Hnd & <- & Hnpos & Hpos & Hlen).
  rewrite Hcur. cbn [node_at mbind option_bind]. rewrite Hnd. cbn [cderef cret].
  rewrite Hlen, Hcur.
  destruct (iov_loop_contiguous b1 len len npos i nd []) as (iovs & -> & Hd & Ht);
    [apply H1|apply H1|done|done|lia|lia|].
  exists b1, iovs. rewrite Hpos. split_and!; try done; try lia.
  unfold abs, content. rewrite Hp, Hs, Hk, take_app_le; [done|].
  rewrite length_flat by done. apply (wf_size _ H).
Qed.

(** Scattering overwrites the memory from the first [iovec] on. *)
Lemma scatter_spec iovs bs b p :
  uniform (m_baseSize b) (m_nodes b) →
  contiguous (m_baseSize b) (length (m_nodes b)) p iovs → length bs ≤ iov_total iovs →
  p + length bs ≤ length (flat b) →
  ∃ ns, scatter iovs bs b = Some (set_nodes ns b) ∧ uniform (m_baseSize b) ns ∧
    length ns = length (m_nodes b) ∧ concat ns = overwrite (flat b) p bs.
Proof.
  revert bs b p. induction iovs as [|v iovs IH]; intros bs b p Hu Hc Ht Hp.
  { destruct bs; [|unfold iov_total in Ht; simpl in Ht; lia]. exists (m_nodes b). simpl. split_and!; try done.
    - by destruct b.
    - unfold overwrite. simpl. by rewrite Nat.add_0_r, take_drop. }
  destruct bs as [|c bs].
  { exists (m_nodes b). simpl. split_and!; try done; [by destruct b|].
    unfold overwrite. simpl. by rewrite Nat.add_0_r, take_drop. }
  set (w := c :: bs) in *. destruct Hc as (Hv & Hl & Hn & Hc).
  unfold iov_total in Ht. csimpl in Ht.
  change (Datatypes.S (length bs)) with (length w) in Ht.
  destruct (lookup_lt_is_Some_2 _ _ Hn) as [nd Hnd].
  pose proof (uniform_lookup _ _ _ _ Hu Hnd) as Hlen.
  set (a := take (iov_len v) w).
  assert (Ha : length a = iov_len v `min` length w) by (unfold a; apply length_take).
  assert (Hsc : scatter (v :: iovs) w b =
    scatter iovs (drop (iov_len v) w)
      (set_nodes (<[iov_node v := overwrite nd (iov_off v) a]> (m_nodes b)) b)).
  { unfold w at 1. cbn [scatter]. fold w. rewrite Hnd. cbn [mbind option_bind].
    fold a. rewrite blit_overwrite by lia. done. }
  rewrite Hsc. set (b1 := set_nodes _ b).
  assert (Hu1 : uniform (m_baseSize b1) (m_nodes b1)).
  { simpl. apply uniform_insert; [done|]. rewrite length_overwrite; lia. }
  assert (Hf1 : flat b1 = overwrite (flat b) p a).
  { unfold flat; simpl. rewrite <- Hv. apply overwrite_concat; [done|done|lia]. }
  destruct (IH (drop (iov_len v) w) b1 (p + iov_len v)) as (ns & Hr & Hu' & Hn' & Hf').
  - done.
  - simpl. by rewrite length_insert.
  - rewrite length_drop. unfold iov_total. lia.
  - rewrite length_drop, Hf1, length_overwrite by lia.
    unfold flat. rewrite (length_concat_uniform (m_baseSize b)) by done.
    unfold flat in Hp. rewrite (length_concat_uniform (m_baseSize b)) in Hp by done. nia.
  - exists ns. split_and!; [done|done|by rewrite Hn'; simpl; rewrite length_insert|].
    rewrite Hf', Hf1. destruct (decide (iov_len v ≤ length w)).
    + replace (iov_len v) with (length a) at 1 by lia. rewrite overwrite_app by lia.
      f_equal. apply take_drop.
    + rewrite drop_ge by lia. unfold a. rewrite take_ge by lia.
      unfold overwrite at 1. simpl. by rewrite Nat.add_0_r, take_drop.
Qed.
End scatter.

(** ** What the fixed-size loops do *)
Section fixed_size.
Context {S : Type} `{!Socket S, !SocketLaws S, !SocketLive S} (junk : nat → nat → byte).
Implicit Types (s : S) (b : ByteArray).

Lemma Z2Nat_nonpos z : (z ≤ 0)%Z → Z.to_nat z = 0.
Proof. lia. Qed.

Lemma stream_read_spec n s :
  ∃ rt bs s', stream_read n s = Ret (rt, bs) s' ∧
    incoming s = bs ++ incoming s' ∧ outgoing s' = outgoing s ∧
    ((0 < rt)%Z ∧ length bs = Z.to_nat rt ∧ length bs ≤ n ∨ (rt ≤ 0)%Z ∧ bs = []) ∧
    (live s → 0 < n → incoming s ≠ [] → (0 < rt)%Z ∧ live s').
Proof.
  unfold stream_read. destruct (sock_connected s) eqn:Hc.
  - destruct (sock_recv n s) as [[rt bs] s'] eqn:Hr. exists rt, bs, s'.
    destruct (Z_lt_le_dec 0 rt) as [Hp|Hp].
    + destruct (recv_ok _ _ _ _ _ Hr Hp) as (? & ? & ? & ?). split_and!; try done; [by left|].
      intros Hl Hn Hi. by destruct (live_recv _ _ _ _ _ Hl Hn Hi Hr).
    + destruct (recv_fail _ _ _ _ _ Hr Hp) as (-> & ? & ?). split_and!; try done; [by right|].
      intros Hl Hn Hi. by destruct (live_recv _ _ _ _ _ Hl Hn Hi Hr).
  - eexists _, _, _. split_and!; try done; [right; split; [lia|done]|].
    intros Hl%live_connected. congruence.
Qed.

Lemma stream_write_spec bs s :
  ∃ rt s', stream_write bs s = Ret rt s' ∧ incoming s' = incoming s ∧
    Z.to_nat rt ≤ length bs ∧ outgoing s' = outgoing s ++ take (Z.to_nat rt) bs ∧
    (live s → bs ≠ [] → (0 < rt)%Z ∧ live s').
Proof.
  unfold stream_write. destruct (sock_connected s) eqn:Hc.
  - destruct (sock_send bs s) as [rt s'] eqn:Hr. exists rt, s'.
    destruct (Z_lt_le_dec 0 rt) as [Hp|Hp].
    + destruct (send_ok _ _ _ _ Hr Hp) as (? & ? & ?). split_and!; try done.
      intros Hl Hn. by destruct (live_send _ _ _ _ Hl Hn Hr).
    + destruct (send_fail _ _ _ _ Hr Hp) as (? & Ho). rewrite Z2Nat_nonpos by done.
      simpl. rewrite app_nil_r. split_and!; try done; [lia|].
      intros Hl Hn. by destruct (live_send _ _ _ _ Hl Hn Hr).
  - exists (-1)%Z, s. simpl. rewrite app_nil_r. split_and!; try done; [lia|].
    intros Hl%live_connected. congruence.
Qed.

Lemma readFix_loop_spec fuel left buf s :
  (0 ≤ left)%Z → Z.to_nat left ≤ fuel →
  ∃ r bs s', readFix_loop fuel left buf s = Ret (r, buf ++ bs) s' ∧
    incoming s = bs ++ incoming s' ∧ outgoing s' = outgoing s ∧
    match r with
    | None => length bs = Z.to_nat left
    | Some e => (e ≤ 0)%Z ∧ length bs < Z.to_nat left
    end ∧
    (live s → Z.to_nat left ≤ length (incoming s) → r = None ∧ live s').
Proof.
  revert left buf s. induction fuel as [|fuel IH]; intros left buf s Hl Hf; cbn [readFix_loop].
  all: destruct (Z.leb_spec left 0) as [H0|H0];
    [exists None, [], s; rewrite app_nil_r; simpl; split_and!; try done; lia|].
  { lia. }
  destruct (stream_read_spec (Z.to_nat left) s) as (rt & bs & s1 & Hr & Hi & Ho & Hcase & Hlive).
  rewrite (cbind_Ret _ _ _ _ _ Hr). destruct (Z.leb_spec rt 0) as [Hneg|Hpos].
  - destruct Hcase as [(? & _)|(_ & ->)]; [lia|]. exists (Some rt), [], s1.
    rewrite app_nil_r. split_and!; try done; [simpl; lia|].
    intros Hlv Hlen. destruct (Hlive Hlv) as [? _]; [lia| |lia].
    intros He. rewrite He in Hlen. simpl in Hlen. lia.
  - destruct Hcase as [(_ & Hb & Hn)|(? & _)]; [|lia].
    destruct (IH (left - rt)%Z (buf ++ bs) s1) as (r & bs2 & s2 & Hr2 & Hi2 & Ho2 & Hcase2 & Hlive2);
      [lia|lia|].
    exists r, (bs ++ bs2), s2. rewrite Hr2, Hi, Hi2, !(assoc_L (++)), length_app.
    split_and!; try congruence; [destruct r; lia|].
    intros Hlv Hlen. rewrite !length_app in *. apply Hlive2; [|rewrite Hi2, length_app; lia].
    apply Hlive; [done|lia|]. rewrite Hi. by destruct bs; simpl in *; [lia|].
Qed.

Lemma writeFix_loop_spec fuel buffer left s :
  (0 ≤ left)%Z → Z.to_nat left ≤ fuel → Z.to_nat left ≤ length buffer →
  ∃ r n s', writeFix_loop fuel buffer left s = Ret r s' ∧
    incoming s' = incoming s ∧ outgoing s' = outgoing s ++ take n buffer ∧
    match r with
    | None => n = Z.to_nat left
    | Some e => (e ≤ 0)%Z ∧ n < Z.to_nat left
    end ∧
    (live s → r = None ∧ live s').
Proof.
  revert left buffer s. induction fuel as [|fuel IH]; intros left buffer s Hl Hf Hbuf; cbn [writeFix_loop].
  all: destruct (Z.leb_spec left 0) as [H0|H0];
    [exists None, 0, s; simpl; rewrite app_nil_r; split_and!; try done; lia|].
  { lia. }
  destruct (stream_write_spec (take (Z.to_nat left) buffer) s) as (rt & s1 & Hr & Hi & Hn & Ho & Hlive).
  rewrite length_take in Hn.
  rewrite (cbind_Ret _ _ _ _ _ Hr). rewrite take_take in Ho.
  destruct (Z.leb_spec rt 0) as [Hneg|Hpos].
  - exists (Some rt), 0, s1. rewrite Z2Nat_nonpos in Ho by done.
    split_and!; try done; [lia|]. intros Hlv. destruct (Hlive Hlv) as [? _]; [|lia].
    intros He. apply (f_equal length) in He. rewrite length_take in He. simpl in He. lia.
  - rewrite Nat.min_l in Ho by lia.
    destruct (IH (left - rt)%Z (drop (Z.to_nat rt) buffer) s1)
      as (r & n & s2 & Hr2 & Hi2 & Ho2 & Hcase2 & Hlive2); [lia|lia|rewrite length_drop; lia|].
    exists r, (Z.to_nat rt + n), s2. rewrite Hr2, Hi2, Ho2, Ho, <- (assoc_L (++)).
    split_and!; try congruence.
    + f_equal. rewrite <- (take_drop (Z.to_nat rt) (take (Z.to_nat rt + n) buffer)).
      rewrite take_take, skipn_firstn_comm. do 2 f_equal; f_equal; lia.
    + destruct r; lia.
    + intros Hlv. apply Hlive2. apply Hlive; [done|]. intros He.
      apply (f_equal length) in He. rewrite length_take in He. simpl in He. lia.
Qed.

Lemma i64_small z : (0 ≤ z < 2 ^ 63)%Z → i64 z = z.
Proof. intros. apply swrap_small; lia. Qed.
Lemma i32_small z : (0 ≤ z < 2 ^ 31)%Z → i32 z = z.
Proof. intros. apply swrap_small; lia. Qed.

Lemma readFixSize_spec length s :
  (0 ≤ length < 2 ^ 63)%Z →
  ∃ rt bs s', readFixSize length s = Ret (rt, bs) s' ∧
    incoming s = bs ++ incoming s' ∧ outgoing s' = outgoing s ∧
    (rt = i32 length ∧ List.length bs = Z.to_nat length ∨
     (rt ≤ 0)%Z ∧ List.length bs < Z.to_nat length) ∧
    (live s → Z.to_nat length ≤ List.length (incoming s) → rt = i32 length ∧
       List.length bs = Z.to_nat length ∧ live s').
Proof.
  intros Hl. unfold readFixSize. rewrite i64_small by done.
  destruct (readFix_loop_spec (Z.to_nat length) length [] s)
    as (r & bs & s' & Hr & Hi & Ho & Hcase & Hlive); [lia|done|].
  rewrite (cbind_Ret _ _ _ _ _ Hr). eexists _, bs, s'. split; [done|].
  split_and!; try done.
  - destruct r; simpl; [by right|by left].
  - intros Hlv Hlen. destruct (Hlive Hlv Hlen) as [-> ?]. done.
Qed.

Lemma writeFixSize_spec buffer length s :
  (0 ≤ length < 2 ^ 63)%Z → Z.to_nat length ≤ List.length buffer →
  ∃ rt n s', writeFixSize buffer length s = Ret rt s' ∧
    incoming s' = incoming s ∧ outgoing s' = outgoing s ++ take n buffer ∧
    (rt = i32 length ∧ n = Z.to_nat length ∨ (rt ≤ 0)%Z ∧ n < Z.to_nat length) ∧
    (live s → rt = i32 length ∧ n = Z.to_nat length ∧ live s').
Proof.
  intros Hl Hb. unfold writeFixSize. rewrite i64_small by done.
  destruct (writeFix_loop_spec (Z.to_nat length) buffer length s)
    as (r & n & s' & Hr & Hi & Ho & Hcase & Hlive); [lia|done|done|].
  rewrite (cbind_Ret _ _ _ _ _ Hr). eexists _, n, s'. split; [done|].
  split_and!; try done.
  - destruct r; simpl; [by right|by left].
  - intros Hlv. by destruct (Hlive Hlv) as [-> ?].
Qed.

(** A scatter read appends what arrived at the cursor of the ByteArray. *)
Lemma stream_read_ba_spec n s b :
  wf b →
  ∃ rt bs s' b', stream_read_ba junk n (s, b) = Ret rt (s', b') ∧
    wf b' ∧ abs b' = Spec.put bs (abs b) ∧ m_endian b' = m_endian b ∧ m_baseSize b' = m_baseSize b ∧
    incoming s = bs ++ incoming s' ∧ outgoing s' = outgoing s ∧
    ((0 < rt)%Z ∧ length bs = Z.to_nat rt ∧ length bs ≤ n ∨ (rt ≤ 0)%Z ∧ bs = []) ∧
    (live s → 0 < n → incoming s ≠ [] → (0 < rt)%Z ∧ live s').
Proof.
  intros Hwf. unfold stream_read_ba, cbind at 1, cget. cbn [fst].
  pose proof (stream_read_spec n s) as Hread. unfold stream_read in Hread.
  destruct (sock_connected s) eqn:Hc; simpl.
  2:{ destruct Hread as (rt & bs & s' & [= <- <- <-] & Hi & Ho & Hcase & Hlive).
      exists (-1)%Z, [], s, b. split_and!; try done.
      unfold Spec.put, overwrite, abs. simpl. by rewrite !Nat.add_0_r, take_drop. }
  destruct (sock_recv n s) as [[rt bs] s'] eqn:Hr.
  destruct Hread as (? & ? & ? & [= <- <- <-] & Hi & Ho & Hcase & Hlive).
  destruct (getWriteBuffers_contiguous junk b n Hwf)
    as (b1 & iovs & Hg & Hwf1 & Ha1 & He1 & Hb1 & Hp1 & Hs1 & Hcap & Hcont & Htot).
  unfold on_ba at 1, on_stream, cbind. simpl. rewrite Hg. simpl. rewrite Hr. simpl.
  assert (length bs ≤ n) as Hbn by (destruct Hcase as [(_ & _ & ?)|(_ & ->)]; simpl; lia).
  destruct (scatter_spec iovs bs b1 (m_position b1)) as (ns & Hsc & Hu & Hn & Hf).
  { apply Hwf1. } { done. } { lia. } { rewrite length_flat by done. lia. }
  unfold on_ba, cbind, cget, cinbounds, cput, cret. simpl. rewrite Hsc. simpl.
  set (b2 := set_nodes ns b1).
  assert (wf b2) as Hwf2 by (destruct Hwf1; constructor; simpl; rewrite ?Hn; auto).
  destruct Hcase as [(Hpos & Hlen & _)|(Hneg & ->)].
  - rewrite (proj2 (Z.ltb_lt _ _)) by done. simpl.
    rewrite (setPosition_run _ _ Hwf2) by (simpl; lia). simpl.
    eexists rt, bs, s', _. split; [done|].
    pose proof (wf_position _ Hwf1). pose proof (wf_size _ Hwf1).
    split_and!; try done.
    + destruct Hwf2. constructor; simpl in *; auto; lia.
    + rewrite <- Ha1. unfold abs, Spec.put, content, flat. simpl. f_equal; [|lia].
      rewrite Hf, <- Hlen. pose proof (length_flat _ Hwf1).
      change (concat (m_nodes b1)) with (flat b1). apply take_overwrite_grow; lia.
    + by left.
  - destruct (Z.ltb_spec 0 rt); [lia|]. exists rt, [], s', b2. split; [done|].
    split_and!; try done; [|by right].
    rewrite <- Ha1. unfold abs, Spec.put, content, flat. simpl. rewrite Hf, !Nat.add_0_r.
    unfold overwrite. simpl. by rewrite !Nat.add_0_r, !take_drop.
Qed.

Lemma Spec_write_nil f : Spec.put [] f = f.
Proof.
  destruct f. unfold Spec.put, overwrite. simpl. by rewrite !Nat.add_0_r, take_drop.
Qed.

Lemma readFix_loop_ba_spec fuel left s b :
  wf b → (0 ≤ left)%Z → Z.to_nat left ≤ fuel →
  ∃ r bs s' b', fix_loop_ba (stream_read_ba junk) fuel left (s, b) = Ret r (s', b') ∧
    wf b' ∧ abs b' = Spec.put bs (abs b) ∧ m_endian b' = m_endian b ∧ m_baseSize b' = m_baseSize b ∧
    incoming s = bs ++ incoming s' ∧ outgoing s' = outgoing s ∧
    match r with
    | None => length bs = Z.to_nat left
    | Some e => (e ≤ 0)%Z ∧ length bs < Z.to_nat left
    end ∧
    (live s → Z.to_nat left ≤ length (incoming s) → r = None ∧ live s').
Proof.
  revert left s b. induction fuel as [|fuel IH]; intros left s b Hwf Hl Hf; cbn [fix_loop_ba].
  all: destruct (Z.leb_spec left 0) as [H0|H0];
    [exists None, [], s, b; rewrite Spec_write_nil; simpl; split_and!; try done; lia|].
  { lia. }
  destruct (stream_read_ba_spec (Z.to_nat left) s b Hwf)
    as (rt & bs & s1 & b1 & Hr & Hwf1 & Ha1 & He1 & Hb1 & Hi & Ho & Hcase & Hlive).
  rewrite (cbind_Ret _ _ _ _ _ Hr). destruct (Z.leb_spec rt 0) as [Hneg|Hpos].
  - destruct Hcase as [(? & _)|(_ & ->)]; [lia|]. exists (Some rt), [], s1, b1.
    split_and!; try done; [simpl; lia|].
    intros Hlv Hlen. destruct (Hlive Hlv) as [? _]; [lia| |lia].
    intros He. rewrite He in Hlen. simpl in Hlen. lia.
  - destruct Hcase as [(_ & Hb & Hn)|(? & _)]; [|lia].
    destruct (IH (left - rt)%Z s1 b1) as (r & bs2 & s2 & b2 & Hr2 & Hwf2 & Ha2 & He2 & Hb2 & Hi2 & Ho2 & Hcase2 & Hlive2);
      [done|lia|lia|].
    exists r, (bs ++ bs2), s2, b2. rewrite Hr2, Hi, Hi2, (assoc_L (++)), length_app.
    split_and!; try congruence; [|destruct r; lia|].
    + rewrite Ha2, Ha1. apply Spec.write_app. unfold abs; simpl. rewrite length_content by done.
      by apply wf_position.
    + intros Hlv Hlen. rewrite !length_app in *. apply Hlive2; [|rewrite Hi2, length_app; lia].
      apply Hlive; [done|lia|]. rewrite Hi. by destruct bs; simpl in *; [lia|].
Qed.

Lemma readFixSize_ba_spec length s b :
  wf b → (0 ≤ length < 2 ^ 63)%Z →
  ∃ rt bs s' b', readFixSize_ba junk length (s, b) = Ret rt (s', b') ∧
    wf b' ∧ abs b' = Spec.put bs (abs b) ∧ m_endian b' = m_endian b ∧ m_baseSize b' = m_baseSize b ∧
    incoming s = bs ++ incoming s' ∧ outgoing s' = outgoing s ∧
    (rt = i32 length ∧ List.length bs = Z.to_nat length ∨
     (rt ≤ 0)%Z ∧ List.length bs < Z.to_nat length) ∧
    (live s → Z.to_nat length ≤ List.length (incoming s) → rt = i32 length ∧
       List.length bs = Z.to_nat length ∧ live s').
Proof.
  intros Hwf Hl. unfold readFixSize_ba. rewrite i64_small by done.
  destruct (readFix_loop_ba_spec (Z.to_nat length) length s b)
    as (r & bs & s' & b' & Hr & Hwf' & Ha' & He' & Hb' & Hi & Ho & Hcase & Hlive); [done|lia|done|].
  rewrite (cbind_Ret _ _ _ _ _ Hr). eexists _, bs, s', b'. split; [done|].
  split_and!; try done.
  - destruct r; simpl; [by right|by left].
  - intros Hlv Hlen. destruct (Hlive Hlv Hlen) as [-> ?]. done.
Qed.

(** A gather write sends a prefix of the unread data and moves past it. *)
Lemma stream_write_ba_spec n s b :
  wf b →
  ∃ rt s' b', stream_write_ba n (s, b) = Ret rt (s', b') ∧
    wf b' ∧ content b' = content b ∧ m_endian b' = m_endian b ∧
    m_position b' = m_position b + Z.to_nat rt ∧ Z.to_nat rt ≤ n ∧ incoming s' = incoming s ∧
    outgoing s' = outgoing s ++ take (Z.to_nat rt) (unread b) ∧
    (live s → 0 < n → unread b ≠ [] → (0 < rt)%Z ∧ live s').
Proof.
  intros Hwf. unfold stream_write_ba, cbind at 1, cget. cbn [fst].
  destruct (getReadBuffers_spec b [] n Hwf) as (iovs & Hg & Hd & _).
  pose proof (stream_write_spec (iov_data b iovs) s) as Hw. unfold stream_write in Hw.
  destruct (sock_connected s) eqn:Hc; simpl.
  2:{ destruct Hw as (rt & s' & [= <- <-] & Hi & _ & Ho & Hlive). exists (-1)%Z, s, b.
      simpl in *. split_and!; try done; [lia..|]. intros Hl%live_connected. congruence. }
  destruct (sock_send (iov_data b iovs) s) as [rt s'] eqn:Hr.
  destruct Hw as (? & ? & [= <- <-] & Hi & Hle & Ho & Hlive).
  fold (unread b) in Hd. rewrite Hd, length_take, length_unread in Hle by done.
  rewrite Hd, take_take, Nat.min_l in Ho by lia.
  unfold on_ba at 1, on_stream, cbind. simpl. rewrite Hg. simpl. unfold cget. simpl.
  rewrite Hr. simpl. pose proof (wf_position _ Hwf). pose proof (wf_size _ Hwf).
  destruct (Z.ltb_spec 0 rt) as [Hpos|Hneg].
  - unfold on_ba, cget, cbind. simpl.
    destruct (setPosition_seek (m_position b + Z.to_nat rt) b Hwf ltac:(lia))
      as (b' & -> & Hwf' & Ha' & He' & _). simpl. injection Ha' as Hct Hp.
    exists rt, s', b'. split_and!; try done; [lia|].
    intros Hl Hn Hu. apply Hlive; [done|]. rewrite Hd. intros He. apply Hu.
    apply (f_equal length) in He. rewrite length_take in He.
    destruct (unread b); [done|]. simpl in He. lia.
  - exists rt, s', b. rewrite Z2Nat_nonpos in * by done. split_and!; try done; [lia..|].
    intros Hl Hn Hu. exfalso. destruct (Hlive Hl) as [? _]; [|lia]. rewrite Hd. intros He. apply Hu.
    apply (f_equal length) in He. rewrite length_take in He.
    destruct (unread b); [done|]. simpl in He. lia.
Qed.

Lemma writeFix_loop_ba_spec fuel left s b :
  wf b → (0 ≤ left)%Z → Z.to_nat left ≤ fuel → Z.to_nat left ≤ length (unread b) →
  ∃ r n s' b', fix_loop_ba stream_write_ba fuel left (s, b) = Ret r (s', b') ∧
    wf b' ∧ content b' = content b ∧ m_endian b' = m_endian b ∧ m_position b' = m_position b + n ∧
    incoming s' = incoming s ∧ outgoing s' = outgoing s ++ take n (unread b) ∧
    match r with
    | None => n = Z.to_nat left
    | Some e => (e ≤ 0)%Z ∧ n < Z.to_nat left
    end ∧
    (live s → r = None ∧ live s').
Proof.
  revert left s b. induction fuel as [|fuel IH]; intros left s b Hwf Hl Hf Hu; cbn [fix_loop_ba].
  all: destruct (Z.leb_spec left 0) as [H0|H0];
    [exists None, 0, s, b; simpl; rewrite app_nil_r; split_and!; try done; lia|].
  { lia. }
  destruct (stream_write_ba_spec (Z.to_nat left) s b Hwf)
    as (rt & s1 & b1 & Hr & Hwf1 & Hc1 & He1 & Hp1 & Hn1 & Hi1 & Ho1 & Hlive).
  assert (unread b ≠ []) as Hne by (intros E; rewrite E in Hu; simpl in Hu; lia).
  rewrite (cbind_Ret _ _ _ _ _ Hr). destruct (Z.leb_spec rt 0) as [Hneg|Hpos].
  - exists (Some rt), 0, s1, b1. rewrite Z2Nat_nonpos in * by done.
    split_and!; try done; [lia|]. intros Hlv. destruct (Hlive Hlv) as [? _]; [lia|done|lia].
  - assert (unread b1 = drop (Z.to_nat rt) (unread b)) as Hu1.
    { unfold unread. by rewrite Hc1, Hp1, drop_drop. }
    destruct (IH (left - rt)%Z s1 b1)
      as (r & n & s2 & b2 & Hr2 & Hwf2 & Hc2 & He2 & Hp2 & Hi2 & Ho2 & Hcase2 & Hlive2);
      [done|lia|lia|rewrite Hu1, length_drop; lia|].
    exists r, (Z.to_nat rt + n), s2, b2. rewrite Hr2, Ho2, Ho1, Hu1, <- (assoc_L (++)).
    split_and!; try congruence; [lia| |destruct r; lia|].
    + f_equal. rewrite <- (take_drop (Z.to_nat rt) (take (Z.to_nat rt + n) (unread b))).
      rewrite take_take, skipn_firstn_comm. do 2 f_equal; f_equal; lia.
    + intros Hlv. apply Hlive2. apply Hlive; [done|lia|done].
Qed.

Lemma writeFixSize_ba_spec length s b :
  wf b → (0 ≤ length < 2 ^ 63)%Z → Z.to_nat length ≤ List.length (unread b) →
  ∃ rt n s' b', writeFixSize_ba length (s, b) = Ret rt (s', b') ∧
    wf b' ∧ content b' = content b ∧ m_endian b' = m_endian b ∧ m_position b' = m_position b + n ∧
    incoming s' = incoming s ∧ outgoing s' = outgoing s ++ take n (unread b) ∧
    (rt = i32 length ∧ n = Z.to_nat length ∨ (rt ≤ 0)%Z ∧ n < Z.to_nat length) ∧
    (live s → rt = i32 length ∧ n = Z.to_nat length ∧ live s').
Proof.
  intros Hwf Hl Hu. unfold writeFixSize_ba. rewrite i64_small by done.
  destruct (writeFix_loop_ba_spec (Z.to_nat length) length s b)
    as (r & n & s' & b' & Hr & Hwf' & Hc' & He' & Hp' & Hi & Ho & Hcase & Hlive); [done|lia|done|done|].
  rewrite (cbind_Ret _ _ _ _ _ Hr). eexists _, n, s', b'. split; [done|].
  split_and!; try done.
  - destruct r; simpl; [by right|by left].
  - intros Hlv. by destruct (Hlive Hlv) as [-> ?].
Qed.

(** readFixSize and writeFixSize are all or nothing to the caller. On
    any socket that obeys the laws of recv and send they terminate; below
    2^31 bytes the result is the requested length exactly when every byte
    has been transferred, and otherwise at most 0, the bytes moved so far
    being lost to the caller. On a live socket with enough data they
    succeed. *)
Theorem stream_fixed_size buffer length s :
  (0 < length < 2 ^ 31)%Z → Z.to_nat length ≤ List.length buffer →
  (∃ rt bs s', readFixSize length s = Ret (rt, bs) s' ∧ incoming s = bs ++ incoming s' ∧
     (rt = length ↔ List.length bs = Z.to_nat length) ∧ (rt = length ∨ rt ≤ 0)%Z ∧
     (live s → Z.to_nat length ≤ List.length (incoming s) → rt = length)) ∧
  (∃ rt n s', writeFixSize buffer length s = Ret rt s' ∧ outgoing s' = outgoing s ++ take n buffer ∧
     (rt = length ↔ n = Z.to_nat length) ∧ (rt = length ∨ rt ≤ 0)%Z ∧ (live s → rt = length)).
Proof.
  intros Hl Hb. split.
  - destruct (readFixSize_spec length s) as (rt & bs & s' & ? & ? & _ & Hcase & Hlive); [lia|].
    exists rt, bs, s'. rewrite i32_small in * by lia. split_and!; try done; try lia; intros; by apply Hlive.
  - destruct (writeFixSize_spec buffer length s) as (rt & n & s' & ? & ? & ? & Hcase & Hlive); [lia|done|].
    exists rt, n, s'. rewrite i32_small in * by lia. split_and!; try done; try lia; intros; by apply Hlive.
Qed.

(** The ByteArray forms move whole messages. Reading [length] bytes into
    a well-formed ByteArray appends exactly the bytes taken from the socket
    at the cursor, through whatever blocks the scatter list covers; writing
    sends exactly the unread bytes it moves the cursor over. *)
Theorem stream_fixed_size_bytearray length s b :
  wf b → (0 < length < 2 ^ 31)%Z →
  (∃ rt bs s' b', readFixSize_ba junk length (s, b) = Ret rt (s', b') ∧ wf b' ∧
     abs b' = Spec.put bs (abs b) ∧ incoming s = bs ++ incoming s' ∧
     (rt = length ↔ List.length bs = Z.to_nat length) ∧
     (live s → Z.to_nat length ≤ List.length (incoming s) → rt = length)) ∧
  (Z.to_nat length ≤ List.length (unread b) →
   ∃ rt n s' b', writeFixSize_ba length (s, b) = Ret rt (s', b') ∧ wf b' ∧
     abs b' = Spec.seek (m_position b + n) (abs b) ∧
     outgoing s' = outgoing s ++ take n (unread b) ∧
     (rt = length ↔ n = Z.to_nat length) ∧ (live s → rt = length)).
Proof.
  intros Hwf Hl. split.
  - destruct (readFixSize_ba_spec length s b Hwf)
      as (rt & bs & s' & b' & ? & ? & ? & _ & _ & ? & _ & Hcase & Hlive); [lia|].
    exists rt, bs, s', b'. rewrite i32_small in * by lia. split_and!; try done; try lia; intros; by apply Hlive.
  - intros Hu.
    destruct (writeFixSize_ba_spec length s b Hwf) as (rt & n & s' & b' & ? & ? & Hc & _ & Hp & _ & ? & Hcase & Hlive);
      [lia|done|].
    exists rt, n, s', b'. rewrite i32_small in * by lia. unfold Spec.seek, abs. rewrite Hc, Hp.
    split_and!; try done; try lia; intros; by apply Hlive.
Qed.
End fixed_size.

(** ** A concrete socket

    A connection whose peer has sent [w_in], where recv delivers at most
    [w_chunk] bytes a call and send accepts as many. *)
Record wire := mkWire { w_in : list byte; w_out : list byte; w_chunk : nat; w_open : bool }.

#[export] Instance wire_socket : Socket wire := {
  sock_connected := w_open;
  sock_recv n s :=
    let bs := take (n `min` w_chunk s) (w_in s) in
    (Z.of_nat (length bs), bs, mkWire (drop (n `min` w_chunk s) (w_in s)) (w_out s) (w_chunk s) (w_open s));
  sock_send bs s :=
    (Z.of_nat (length bs `min` w_chunk s),
     mkWire (w_in s) (w_out s ++ take (w_chunk s) bs) (w_chunk s) (w_open s));
  sock_close s := mkWire (w_in s) (w_out s) (w_chunk s) false
}.

Lemma wire_recv_ok n s rt bs (s' : wire) :
  sock_recv n s = (rt, bs, s') →
  length bs = Z.to_nat rt ∧ length bs ≤ n ∧ w_in s = bs ++ w_in s' ∧ w_out s' = w_out s.
Proof.
  intros [= <- <- <-]. rewrite Nat2Z.id, length_take. simpl.
  rewrite take_drop. split_and!; try done. lia.
Qed.
Lemma wire_send_ok bs s rt (s' : wire) :
  sock_send bs s = (rt, s') →
  Z.to_nat rt ≤ length bs ∧ w_out s' = w_out s ++ take (Z.to_nat rt) bs ∧ w_in s' = w_in s.
Proof.
  intros [= <- <-]. rewrite Nat2Z.id. simpl. split_and!; [lia| |done]. f_equal.
  destruct (decide (length bs ≤ w_chunk s)); [rewrite !take_ge by lia; done|f_equal; lia].
Qed.

#[export] Instance wire_laws : SocketLaws wire.
Proof.
  refine {| incoming := w_in; outgoing := w_out |}.
  - intros n s rt bs s' Hr _. by apply wire_recv_ok.
  - intros n s rt bs s' Hr%wire_recv_ok Hn. destruct Hr as (Hl & _ & Hi & Ho).
    assert (bs = []) as -> by (apply nil_length_inv; lia). split_and!; by auto.
  - intros bs s rt s' Hr _. by apply wire_send_ok.
  - intros bs s rt s' Hr%wire_send_ok Hn. destruct Hr as (_ & Ho & Hi).
    rewrite Z2Nat_nonpos, app_nil_r in Ho by done. done.
Defined.

#[export] Instance wire_live : SocketLive wire.
Proof.
  refine {| live s := w_open s = true ∧ 0 < w_chunk s |}.
  - by intros s [? _].
  - intros n s rt bs s' [Ho Hc] Hn Hi [= <- <- <-]. split; [|done].
    rewrite length_take. cbn [incoming wire_laws] in Hi. destruct (w_in s); [done|].
    cbn [length]. lia.
  - intros bs s rt s' [Ho Hc] Hb [= <- <-]. split; [|done].
    destruct bs; [done|]. cbn [length]. lia.
Defined.

Definition wire_ex : wire := mkWire [x01; x02; x03; x04; x05] [] 2 true.

Lemma stream_fixed_size_witness :
  (∃ rt bs s', readFixSize 5 wire_ex = Ret (rt, bs) s' ∧ incoming wire_ex = bs ++ incoming s' ∧
     (rt = 5%Z ↔ length bs = Z.to_nat 5) ∧ (rt = 5 ∨ rt ≤ 0)%Z ∧
     (live wire_ex → Z.to_nat 5 ≤ length (incoming wire_ex) → rt = 5%Z)) ∧
  (∃ rt n s', writeFixSize [x0a; x0b; x0c; x0d; x0e] 5 wire_ex = Ret rt s' ∧
     outgoing s' = outgoing wire_ex ++ take n [x0a; x0b; x0c; x0d; x0e] ∧
     (rt = 5%Z ↔ n = Z.to_nat 5) ∧ (rt = 5 ∨ rt ≤ 0)%Z ∧ (live wire_ex → rt = 5%Z)).
Proof.
  apply (stream_fixed_size [x0a; x0b; x0c; x0d; x0e] 5 wire_ex); [done|]. simpl. lia.
Defined.

Example wire_ex_reads : readFixSize 5 wire_ex = Ret (5%Z, [x01; x02; x03; x04; x05]) (mkWire [] [] 2 true).
Proof. reflexivity. Qed.

Lemma stream_fixed_size_bytearray_witness :
  (∃ rt bs s' b', readFixSize_ba junk0 5 (wire_ex, ba_ex) = Ret rt (s', b') ∧ wf b' ∧
     abs b' = Spec.put bs (abs ba_ex) ∧ incoming wire_ex = bs ++ incoming s' ∧
     (rt = 5%Z ↔ length bs = Z.to_nat 5) ∧
     (live wire_ex → Z.to_nat 5 ≤ length (incoming wire_ex) → rt = 5%Z)) ∧
  (Z.to_nat 5 ≤ length (unread ba_ex) →
   ∃ rt n s' b', writeFixSize_ba 5 (wire_ex, ba_ex) = Ret rt (s', b') ∧ wf b' ∧
     abs b' = Spec.seek (m_position ba_ex + n) (abs ba_ex) ∧
     outgoing s' = outgoing wire_ex ++ take n (unread ba_ex) ∧
     (rt = 5%Z ↔ n = Z.to_nat 5) ∧ (live wire_ex → rt = 5%Z)).
Proof. apply (stream_fixed_size_bytearray junk0 5 wire_ex ba_ex); [apply ba_ex_wf|done]. Defined.
