(* ===== verification/Zlib.v ===== *)
(** * Compressed streams (Sylar/streams/zlib_stream.cc)

    ZlibStream feeds a list of buffers to zlib and collects the output in
    buffers of a fixed size. deflate and inflate are zlib's: parameters, with
    what its manual says of them as the laws of a class; the loops around
    them are the repository's. *)
From Stdlib Require Import ZArith Lia Strings.Byte.
From stdpp Require Import base list list_numbers numbers.
From S2P Require Import Prelude ByteArray Codec.

(** ** zlib

    [zrun encode z inp room finish] is a call of deflate ([encode]) or
    inflate on the state [z] with the input [inp], [room] bytes of output
    and the flush mode Z_FINISH or Z_NO_FLUSH: the new state, the output,
    the input that is left and whether the result is not Z_STREAM_ERROR.
    [zbound] is a bound on what zlib can still give for a state and an
    input, used as fuel. *)
Class Zlib (Zs : Type) := {
  zinit : bool → Zs;
  zrun : bool → Zs → list byte → nat → bool → Zs * list byte * list byte * bool;
  zbound : bool → Zs → list byte → nat
}.

(** The states of a stream that was initialised and called with room for
    output; the flag says that Z_FINISH was given, after which there is no
    more input. *)
Inductive zreach {Zs} `{!Zlib Zs} (e : bool) : bool → Zs → Prop :=
  | zreach_init : zreach e false (zinit e)
  | zreach_run z inp room z' out rest :
      zreach e false z → 0 < room → zrun e z inp room false = (z', out, rest, true) → zreach e false z'
  | zreach_finish f z room z' out rest :
      zreach e f z → 0 < room → zrun e z [] room true = (z', out, rest, true) → zreach e true z'.

(** The manual: a call consumes input and gives output, at most [room]
    bytes; deflate stops when the input is empty or the output full, and so
    does inflate inside a valid stream; a deflate with Z_FINISH that leaves
    room has written the whole stream; inflate of a valid stream is not an
    error, and when it has consumed it all and leaves room it has given back
    all that was compressed. [zin] and [zout] are what a state has consumed
    and given in all, [packed x y] says that [y] is a whole stream for
    [x]. *)
Class ZlibLaws (Zs : Type) `{!Zlib Zs} := {
  zin : Zs → list byte;
  zout : Zs → list byte;
  packed : list byte → list byte → Prop;
  zinit_empty e : zin (zinit e) = [] ∧ zout (zinit e) = [];
  zrun_flow e z inp room fin z' out rest ok : zrun e z inp room fin = (z', out, rest, ok) →
    ∃ used, inp = used ++ rest ∧ zin z' = zin z ++ used ∧ zout z' = zout z ++ out ∧ length out ≤ room;
  zrun_bound e z inp room fin z' out rest ok : zrun e z inp room fin = (z', out, rest, ok) →
    length out + zbound e z' rest ≤ zbound e z inp;
  deflate_eager z inp room z' out rest :
    zreach true false z → zrun true z inp room false = (z', out, rest, true) → length out < room → rest = [];
  deflate_done f z room z' out rest : zreach true f z → zrun true z [] room true = (z', out, rest, true) →
    length out < room → packed (zin z') (zout z');
  inflate_eager f z inp room fin z' out rest x y : zreach false f z → packed x y → zin z ++ inp `prefix_of` y →
    zrun false z inp room fin = (z', out, rest, true) → length out < room → rest = [];
  inflate_ok f z inp room fin z' out rest ok x y : zreach false f z → packed x y → zin z ++ inp `prefix_of` y →
    zrun false z inp room fin = (z', out, rest, ok) → ok = true;
  inflate_done f z inp room fin z' out rest x y : zreach false f z → packed x y →
    zrun false z inp room fin = (z', out, rest, true) → length out < room → zin z' = y → zout z' = x
}.

(** ** ZlibStream *)
Record ZlibStream (Zs : Type) := mkZ { m_zstream : Zs; m_buffs : list (list byte) }.
Arguments mkZ {Zs}.
Arguments m_zstream {Zs}.
Arguments m_buffs {Zs}.

(** What CreateGzip(encode), write and flush give: the filled buffers, or the
    call that did not return Z_OK. *)
Inductive gzip_result := GzOk (buffs : list (list byte)) | GzWriteError | GzFlushError | GzStuck (r : stuck).

Section stream.
Context {Zs : Type} `{!Zlib Zs} (m_buffSize : nat).
#[local] Abbreviation zs := (ZlibStream Zs).

(** The buffer that is filled next: the last one unless it is full, or a new
    one. *)
Definition next_buff (buffs : list (list byte)) : list (list byte) * list byte :=
  match list.last buffs with
  | Some b => if length b =? m_buffSize then (buffs, []) else (take (length buffs - 1) buffs, b)
  | None => (buffs, [])
  end.

(** The do-while loop of encode and decode for one input buffer; false for
    Z_STREAM_ERROR. *)
Fixpoint zs_pump (fuel : nat) (e flush : bool) (inp : list byte) : M zs bool := λ s,
  match fuel with
  | O => Stuck OutOfFuel
  | S fuel =>
    let '(buffs, ivc) := next_buff (m_buffs s) in
    let avail_out := m_buffSize - length ivc in
    let '(z, out, rest, ok) := zrun e (m_zstream s) inp avail_out flush in
    if negb ok then Ret false (mkZ z (buffs ++ [ivc]))
    else
      let s := mkZ z (buffs ++ [ivc ++ out]) in
      if length out =? avail_out then zs_pump fuel e flush rest s else Ret true s
  end.
(** encode and decode: one loop per buffer, Z_FINISH with the last when
    asked. *)
Fixpoint zs_code (e finish : bool) (v : list (list byte)) : M zs bool :=
  match v with
  | [] => cret true
  | inp :: v =>
    let! s := cget in
    let! ok := zs_pump (S (zbound e (m_zstream s) inp)) e (finish && bool_decide (v = [])) inp in
    if ok : bool then zs_code e finish v else cret false
  end.
(** write(ba, length) with a length of at least what is unread, such as -1;
    the address of the first buffer is taken, so there has to be one. *)
Definition zs_write (e : bool) (ba : ByteArray) : M zs bool := λ s,
  match getReadBuffers [] (getReadSize ba) ba with
  | Ret (_, []) _ => Stuck OutOfBounds
  | Ret (_, iovs) _ => zs_code e false (iov_bytes ba <$> iovs) s
  | Exn x _ => Exn x s
  | Stuck r => Stuck r
  end.
Definition zs_flush (e : bool) : M zs bool := zs_code e true [[]].

Definition gzip_run (e : bool) : M zs (option bool) → gzip_result := λ m,
  match m (mkZ (zinit e) []) with
  | Ret None s => GzOk (m_buffs s)
  | Ret (Some true) _ => GzWriteError
  | Ret (Some false) _ => GzFlushError
  | Exn _ _ => GzStuck NoReturn
  | Stuck r => GzStuck r
  end.
Definition zs_gzip (e : bool) (ba : ByteArray) : gzip_result :=
  gzip_run e
    (let! ok := zs_write e ba in
     if negb ok then cret (Some true)
     else
       let! ok := zs_flush e in
       if negb ok then cret (Some false) else cret None).

(** ** The buffers hold what zlib gave *)
Context `{!ZlibLaws Zs} (Hsize : 0 < m_buffSize).

Record zs_inv (e f : bool) (s : zs) : Prop := {
  zi_reach : zreach e f (m_zstream s);
  zi_out : concat (m_buffs s) = zout (m_zstream s);
  zi_len : Forall (λ b, length b ≤ m_buffSize) (m_buffs s)
}.
(** The last call left room. *)
Definition settled (e flush : bool) (z' : Zs) : Prop :=
  ∃ f z inp room out rest, zreach e f z ∧ (flush = true → inp = []) ∧
    zrun e z inp room flush = (z', out, rest, true) ∧ length out < room.
(** Input that zlib takes: anything to deflate, the start of a stream to
    inflate. *)
Definition takes (e : bool) (inp : list byte) : Prop := e = true ∨ ∃ x y, packed x y ∧ inp `prefix_of` y.
(** What a part of the code does with [inp]. *)
Definition feeds (e flush : bool) (inp : list byte) (s : zs) (r : M zs bool) (f' : bool) : Prop :=
  ∃ ok s', r s = Ret ok s' ∧
    (ok = true → zs_inv e f' s' ∧
       (takes e (zin (m_zstream s) ++ inp) →
        zin (m_zstream s') = zin (m_zstream s) ++ inp ∧ settled e flush (m_zstream s'))) ∧
    (e = false → takes e (zin (m_zstream s) ++ inp) → ok = true).

Lemma next_buff_spec buffs b ivc :
  Forall (λ b, length b ≤ m_buffSize) buffs → next_buff buffs = (b, ivc) →
  concat b ++ ivc = concat buffs ∧ length ivc < m_buffSize ∧ Forall (λ b, length b ≤ m_buffSize) b.
Proof.
  unfold next_buff. destruct buffs as [|x l _] using rev_ind; intros Hf; [intros [= <- <-]; done|].
  rewrite last_snoc. apply Forall_app in Hf as [Hf Hx%Forall_inv].
  destruct (Nat.eqb_spec (length x) m_buffSize) as [E|E]; intros [= <- <-].
  - rewrite app_nil_r. split_and!; [done|done|]. apply Forall_app. split; [done|by constructor].
  - rewrite length_app. cbn [length]. replace (length l + 1 - 1) with (length l) by lia. rewrite take_app_length.
    rewrite concat_app. cbn. rewrite app_nil_r. split_and!; [done|cbn in Hx; lia|done].
Qed.

Lemma takes_prefix e i j : takes e (i ++ j) → takes e i.
Proof.
  intros [->|(x & y & Hp & Hpre)]; [by left|]. right. exists x, y. split; [done|]. etrans; [|exact Hpre].
  by apply prefix_app_r.
Qed.

(** One call that leaves room has consumed its input. *)
Lemma zrun_all e f z inp room flush z' out rest :
  zreach e f z → (flush = true → inp = []) → (f = true → flush = true) → takes e (zin z ++ inp) →
  zrun e z inp room flush = (z', out, rest, true) → length out < room → rest = [].
Proof.
  intros Hr Hfl Hf Ht Hz Hl. destruct e.
  - destruct flush.
    + rewrite (Hfl eq_refl) in Hz. destruct (zrun_flow _ _ _ _ _ _ _ _ _ Hz) as (u & Hu & _).
      symmetry in Hu. by apply app_nil in Hu as [_ ->].
    + destruct f; [by specialize (Hf eq_refl)|]. by eapply deflate_eager.
  - destruct Ht as [?|(x & y & Hp & Hpre)]; [done|]. by eapply inflate_eager.
Qed.

Lemma zs_pump_spec fuel e f flush inp s :
  zs_inv e f s → (flush = true → inp = []) → (f = true → flush = true) → zbound e (m_zstream s) inp < fuel →
  feeds e flush inp s (zs_pump fuel e flush inp) (f || flush).
Proof.
  revert f inp s. induction fuel as [|fuel IH]; intros f inp s [Hr Ho Hl] Hfl Hff Hf; [lia|]. unfold feeds. cbn [zs_pump].
  destruct (next_buff (m_buffs s)) as [buffs ivc] eqn:Hn. destruct (next_buff_spec _ _ _ Hl Hn) as (Hc & Hi & Hlb).
  destruct (zrun e (m_zstream s) inp (m_buffSize - length ivc) flush) as [[[z out] rest] ok] eqn:Hz.
  pose proof (zrun_bound _ _ _ _ _ _ _ _ _ Hz) as Hb.
  destruct (zrun_flow _ _ _ _ _ _ _ _ _ Hz) as (used & Hin & Hzi & Hzo & Hlo).
  destruct ok; cbn [negb].
  2: { eexists false, _. split; [done|]. split; [done|]. intros -> [?|(x & y & Hp & Hpre)]; [done|].
       by eapply inflate_ok in Hz. }
  assert (Hinv : zs_inv e (f || flush) (mkZ z (buffs ++ [ivc ++ out]))).
  { split; cbn.
    - destruct flush; [rewrite orb_true_r, (Hfl eq_refl) in *; eapply zreach_finish; [done| |done]; lia|].
      destruct f; [by specialize (Hff eq_refl)|]. eapply zreach_run; [done| |done]. lia.
    - rewrite concat_app. cbn. rewrite app_nil_r, (assoc_L (++)), Hc, Ho. done.
    - apply Forall_app. split; [done|]. apply Forall_singleton. rewrite length_app. lia. }
  destruct (Nat.eqb_spec (length out) (m_buffSize - length ivc)) as [E|E].
  - destruct (IH _ rest (mkZ z (buffs ++ [ivc ++ out])) Hinv) as (ok & s' & Hrun & Hok & Hno).
    { intros Ht. rewrite (Hfl Ht) in Hin. symmetry in Hin. by apply app_nil in Hin as [_ ->]. }
    { destruct flush; [done|]. rewrite orb_false_r. apply Hff. }
    { cbn. lia. }
    exists ok, s'. split; [done|]. cbn in Hok, Hno. rewrite Hzi, <- (assoc_L (++)), <- Hin in Hok, Hno.
    split; [|done]. intros Ht. destruct (Hok Ht) as (Hi' & Hs'). split; [|done].
    destruct flush; [by rewrite !orb_true_r in *|by rewrite !orb_false_r in *].
  - eexists true, _. split; [done|]. split; [|done]. intros _. split; [done|]. cbn. intros Ht.
    assert (rest = []) as -> by (eapply zrun_all; [exact Hr|done..|lia]).
    rewrite app_nil_r in Hin. subst used. split; [done|].
    eexists _, _, _, _, _, _. split_and!; [exact Hr|exact Hfl|exact Hz|lia].
Qed.

Lemma zs_write_spec e v s : zs_inv e false s → v ≠ [] → feeds e false (concat v) s (zs_code e false v) false.
Proof.
  revert s. induction v as [|inp v IH]; intros s Hs Hne; [done|]. unfold feeds. cbn [zs_code concat andb].
  rewrite (cbind_Ret cget _ s s s eq_refl).
  destruct (zs_pump_spec (S (zbound e (m_zstream s) inp)) e false false inp s Hs) as (ok & s1 & H1 & Hok & Hno); [done|done|lia|].
  rewrite (cbind_Ret _ _ _ _ _ H1). rewrite (assoc_L (++)).
  destruct ok; [|exists false, s1; split_and!; [done|done|intros He Ht%takes_prefix; auto]].
  destruct (Hok eq_refl) as (Hs1 & Hz1). destruct v as [|inp' v].
  - exists true, s1. cbn [concat]. rewrite app_nil_r. auto.
  - destruct (IH s1 Hs1 ltac:(done)) as (ok & s2 & H2 & Hok2 & Hno2). exists ok, s2. split; [done|]. split.
    + intros Ht. destruct (Hok2 Ht) as (Hs2 & Hz2). split; [done|]. intros Htk.
      destruct (Hz1 (takes_prefix _ _ _ Htk)) as (E1 & _). rewrite E1 in Hz2. auto.
    + intros He Htk. destruct (Hz1 (takes_prefix _ _ _ Htk)) as (E1 & _). rewrite E1 in Hno2. auto.
Qed.
Lemma zs_flush_spec e s : zs_inv e false s → feeds e true [] s (zs_flush e) true.
Proof.
  intros Hs. unfold feeds, zs_flush. cbn [zs_code]. rewrite (cbind_Ret cget _ s s s eq_refl), bool_decide_true by done.
  destruct (zs_pump_spec (S (zbound e (m_zstream s) [])) e false true [] s Hs) as (ok & s1 & H1 & Hok & Hno); [done|done|lia|].
  exists ok, s1. rewrite (cbind_Ret _ _ _ _ _ H1). by destruct ok.
Qed.

Lemma zs_inv_init e : zs_inv e false (mkZ (zinit e) []).
Proof. split; cbn; [constructor|by rewrite (proj2 (zinit_empty e))|done]. Qed.

(** The buffers a non-empty ByteArray gives. *)
Lemma read_buffs ba : wf ba → unread ba ≠ [] →
  ∃ n iovs, getReadBuffers [] (getReadSize ba) ba = Ret (n, iovs) ba ∧ iovs ≠ [] ∧ concat (iov_bytes ba <$> iovs) = unread ba.
Proof.
  intros Hw Hne. destruct (getReadBuffers_spec ba [] (getReadSize ba) Hw) as (iovs & Hr & Hd & _).
  exists (getReadSize ba `min` getReadSize ba), iovs. split; [exact Hr|]. unfold iov_data in Hd.
  assert (Hu : concat (iov_bytes ba <$> iovs) = unread ba).
  { rewrite Hd. unfold unread. apply take_ge. rewrite length_drop, length_content by done. unfold getReadSize. lia. }
  split; [|done]. intros ->. by rewrite <- Hu in Hne.
Qed.

(** What the two calls give, compressing or not. *)
Lemma zs_gzip_spec e ba : wf ba → unread ba ≠ [] →
  match zs_gzip e ba with
  | GzOk buffs => takes e (unread ba) →
      ∃ z', concat buffs = zout z' ∧ zin z' = unread ba ∧ settled e true z'
  | GzWriteError | GzFlushError => takes e (unread ba) → e = true
  | GzStuck _ => False
  end.
Proof.
  intros Hw Hne. destruct (read_buffs ba Hw Hne) as (n & iovs & Hr & Hio & Hu).
  unfold zs_gzip, gzip_run. unfold cbind at 1. unfold zs_write. rewrite Hr. destruct iovs as [|v iovs]; [done|].
  destruct (zs_write_spec e (iov_bytes ba <$> v :: iovs) _ (zs_inv_init e)) as (ok & s1 & H1 & Hok & Hno); [done|].
  rewrite H1, Hu in *. cbn in Hok, Hno. rewrite (proj1 (zinit_empty e)) in Hok, Hno. cbn [app] in Hok, Hno.
  destruct ok; cbn [negb cret]; [|destruct e; [done|intros Ht; by specialize (Hno eq_refl Ht)]].
  destruct (Hok eq_refl) as (Hs1 & Hz1). destruct (zs_flush_spec e s1 Hs1) as (ok & s2 & H2 & Hok2 & Hno2).
  unfold cbind. rewrite H2. rewrite app_nil_r in Hok2, Hno2. destruct ok; cbn.
  - intros Ht. destruct (Hz1 Ht) as (E1 & _). rewrite E1 in Hok2. destruct (Hok2 eq_refl) as (Hs2 & Hz2).
    destruct (Hz2 Ht) as (E2 & Hst). exists (m_zstream s2). split_and!; [by destruct Hs2|done|done].
  - destruct e; [done|]. intros Ht. destruct (Hz1 Ht) as (E1 & _). rewrite E1 in Hno2. by specialize (Hno2 eq_refl Ht).
Qed.

(** Compression gives a whole stream for the unread data of a ByteArray, or
    reports the call that failed. *)
Lemma gzip_encode ba buffs : wf ba → unread ba ≠ [] → zs_gzip true ba = GzOk buffs → packed (unread ba) (concat buffs).
Proof.
  intros Hw Hne Hg. pose proof (zs_gzip_spec true ba Hw Hne) as H. rewrite Hg in H.
  destruct H as (z' & -> & <- & (f & z & inp & room & out & rest & Hr & Hfl & Hz & Hl)); [by left|].
  rewrite (Hfl eq_refl) in Hz. by eapply deflate_done.
Qed.
(** Decompression of a whole stream gives back what was compressed. *)
Lemma gzip_decode ba x : wf ba → unread ba ≠ [] → packed x (unread ba) →
  ∃ buffs, zs_gzip false ba = GzOk buffs ∧ concat buffs = x.
Proof.
  intros Hw Hne Hp. pose proof (zs_gzip_spec false ba Hw Hne) as H.
  assert (takes false (unread ba)) as Ht by (right; by exists x, (unread ba)).
  destruct (zs_gzip false ba) as [buffs| | |r]; [|by specialize (H Ht)..|done].
  exists buffs. split; [done|]. destruct (H Ht) as (z' & -> & Hin & (f & z & inp & room & out & rest & Hr & _ & Hz & Hl)).
  by eapply inflate_done.
Qed.
End stream.

(** ** A zlib

    A format that complements every byte. Like zlib it may keep what it was
    given: the compressor gives nothing before Z_FINISH. *)
Definition complement (b : byte) : byte := byte_of_Z (255 - Z_of_byte b).
Record toy := mkToy { toy_in : list byte; toy_out : list byte }.
Definition toy_left (z : toy) : list byte := drop (length (toy_out z)) (complement <$> toy_in z).
#[export] Instance toy_zlib : Zlib toy := {
  zinit _ := mkToy [] [];
  zrun e z inp room fin :=
    let z := mkToy (toy_in z ++ inp) (toy_out z) in
    let out := if e && negb fin then [] else take room (toy_left z) in
    (mkToy (toy_in z) (toy_out z ++ out), out, [], true);
  zbound e z inp := length (toy_in z) + length inp - length (toy_out z)
}.

Lemma complement_involutive b : complement (complement b) = b.
Proof. by destruct b. Qed.
Lemma complement_twice (l : list byte) : complement <$> (complement <$> l) = l.
Proof. rewrite <- list_fmap_compose. rewrite <- (list_fmap_id l) at 2. apply list_fmap_ext. intros _ b _. apply complement_involutive. Qed.

(** What was given is a prefix of what is due. *)
Lemma toy_reach e f z : zreach e f z → toy_out z `prefix_of` (complement <$> toy_in z).
Proof.
  assert (∀ z inp room (c : bool), toy_out z `prefix_of` (complement <$> toy_in z) →
    toy_out z ++ (if c then [] else take room (toy_left (mkToy (toy_in z ++ inp) (toy_out z))))
      `prefix_of` (complement <$> toy_in z ++ inp)) as Hstep.
  { intros z0 inp room c [k Hk]. unfold toy_left. cbn. rewrite fmap_app, Hk, <- (assoc_L (++)), drop_app_length.
    destruct c; [rewrite app_nil_r; by apply prefix_app_r|]. apply prefix_app. eexists. symmetry. apply take_drop. }
  induction 1 as [|z inp room z' out rest _ IH _ Hz|f z room z' out rest _ IH _ Hz]; [done|..]; cbn in Hz; simplify_eq;
    cbn; by apply Hstep.
Qed.
Lemma toy_all f e z inp room : zreach e f z →
  length (take room (toy_left (mkToy (toy_in z ++ inp) (toy_out z)))) < room →
  toy_out z ++ take room (toy_left (mkToy (toy_in z ++ inp) (toy_out z))) = complement <$> (toy_in z ++ inp).
Proof.
  intros [k Hk]%toy_reach. unfold toy_left. cbn. rewrite fmap_app, Hk, <- (assoc_L (++)), drop_app_length, length_take.
  intros Hl. rewrite take_ge by lia. done.
Qed.

#[export] Instance toy_laws : ZlibLaws toy.
Proof.
  refine {| zin := toy_in; zout := toy_out; packed x y := y = complement <$> x |}.
  - done.
  - intros e z inp room fin z' out rest ok [= <- <- <- <-]. exists inp. rewrite app_nil_r. split_and!; try done.
    destruct (_ && _); [cbn; lia|]. rewrite length_take. lia.
  - intros e z inp room fin z' out rest ok [= <- <- <- <-]. cbn. rewrite !length_app.
    destruct (_ && _); [cbn; lia|]. rewrite length_take. unfold toy_left. cbn.
    rewrite length_drop, length_fmap, length_app. lia.
  - by intros z inp room z' out rest _ [= <- <- <-].
  - intros f z room z' out rest Hr [= <- <- <-] Hl. cbn in *. by apply (toy_all f true).
  - by intros f z inp room fin z' out rest x y _ _ _ [= <- <- <-].
  - by intros f z inp room fin z' out rest ok x y _ _ _ [= <- <- <- <-].
  - intros f z inp room fin z' out rest x y Hr -> [= <- <- <-] Hl Hin. cbn in *.
    etrans; [by apply (toy_all f false)|]. by rewrite Hin, complement_twice.
Defined.
