(* ===== verification/Rock.v ===== *)
(** * Messages and the rock protocol (Sylar/protocol.cc, Sylar/rock/rock_protocol.cc)

    A message is a type byte, its fields as variable-length integers and
    its body as a length-prefixed string, in a ByteArray; on a stream it is
    preceded by an eight-byte header and, from a configured size on, gzipped.
    Compression is ZlibStream's, over zlib. *)
From Stdlib Require Import ZArith Lia Strings.Byte.
From stdpp Require Import base list list_numbers numbers.
From S2P Require Import Prelude ByteArray Codec Stream Zlib.

(** ** Messages *)
Definition REQUEST : Z := 1.
Definition RESPONSE : Z := 2.
Definition NOTIFY : Z := 3.

Record Request := mkRequest { rq_sn : Z; rq_cmd : Z }.
Record Response := mkResponse { rs_sn : Z; rs_cmd : Z; rs_result : Z; rs_resultStr : list byte }.
Record Notify := mkNotify { nt_notify : Z }.

Definition Request_new : Request := mkRequest 0 0.
(** ["unhandle"] *)
Definition unhandle : list byte := [x75; x6e; x68; x61; x6e; x64; x6c; x65].
Definition Response_new : Response := mkResponse 0 0 404 unhandle.
Definition Notify_new : Notify := mkNotify 0.

(** RockRequest, RockResponse and RockNotify: a message with a RockBody. *)
Inductive RockMessage :=
  | RockRequest (r : Request) (body : list byte)
  | RockResponse (r : Response) (body : list byte)
  | RockNotify (n : Notify) (body : list byte).

Definition getType (m : RockMessage) : Z :=
  match m with RockRequest _ _ => REQUEST | RockResponse _ _ => RESPONSE | RockNotify _ _ => NOTIFY end.

(** RockRequest::createResponse *)
Definition createResponse (r : Request) : RockMessage :=
  RockResponse (mkResponse (rq_sn r) (rq_cmd r) (rs_result Response_new) (rs_resultStr Response_new)) [].

Section messages.
Context (host : endian) (junk : nat → nat → byte).

Definition Request_serialize (type : Z) (r : Request) : M ByteArray bool :=
  let! _ := (let! _ := writeFuint8 host junk (u8 type) in
             let! _ := writeUint32 junk (rq_sn r) in
             writeUint32 junk (rq_cmd r)) in cret true.
Definition Request_parse : M ByteArray Request :=
  let! sn := readUint32 host in
  let! cmd := readUint32 host in
  cret (mkRequest sn cmd).

Definition Response_serialize (type : Z) (r : Response) : M ByteArray bool :=
  let! _ := (let! _ := writeFuint8 host junk (u8 type) in
             let! _ := writeUint32 junk (rs_sn r) in
             let! _ := writeUint32 junk (rs_cmd r) in
             let! _ := writeUint32 junk (rs_result r) in
             writeStringVint junk (rs_resultStr r)) in cret true.
Definition Response_parse : M ByteArray Response :=
  let! sn := readUint32 host in
  let! cmd := readUint32 host in
  let! result := readUint32 host in
  let! resultStr := readStringVint host in
  cret (mkResponse sn cmd result resultStr).

Definition Notify_serialize (type : Z) (n : Notify) : M ByteArray bool :=
  let! _ := (let! _ := writeFuint8 host junk (u8 type) in
             writeUint32 junk (nt_notify n)) in cret true.
Definition Notify_parse : M ByteArray Notify :=
  let! notify := readUint32 host in cret (mkNotify notify).

Definition RockBody_serialize (body : list byte) : M ByteArray bool :=
  let! _ := writeStringVint junk body in cret true.
Definition RockBody_parse : M ByteArray (list byte) := readStringVint host.

(** serializeToByteArray of the three Rock messages *)
Definition rock_serialize (m : RockMessage) : M ByteArray bool :=
  ccatch
    (let! v := match m with
               | RockRequest r _ => Request_serialize (getType m) r
               | RockResponse r _ => Response_serialize (getType m) r
               | RockNotify n _ => Notify_serialize (getType m) n
               end in
     let! w := match m with
               | RockRequest _ body | RockResponse _ body | RockNotify _ body =>
                 RockBody_serialize body
               end in
     cret (v && w))
    (cret false).

(** parseFromByteArray of the three Rock messages; [None] for [false]. *)
Definition rock_parse_request : M ByteArray (option RockMessage) :=
  ccatch (let! r := Request_parse in let! body := RockBody_parse in
          cret (Some (RockRequest r body))) (cret None).
Definition rock_parse_response : M ByteArray (option RockMessage) :=
  ccatch (let! r := Response_parse in let! body := RockBody_parse in
          cret (Some (RockResponse r body))) (cret None).
Definition rock_parse_notify : M ByteArray (option RockMessage) :=
  ccatch (let! n := Notify_parse in let! body := RockBody_parse in
          cret (Some (RockNotify n body))) (cret None).
End messages.

(** ** The decoder *)

Definition s_rock_magic : list byte := [xab; xcd].
Record RockMsgHeader := mkHeader { h_magic : list byte; h_version : byte; h_flag : byte; h_length : Z }.
Definition RockMsgHeader_new : RockMsgHeader := mkHeader s_rock_magic x01 x00 0.
(** [sizeof(RockMsgHeader)] *)
Definition header_size : Z := 8.

Section decoder.
Context {S : Type} `{!Socket S} {Zs : Type} `{!Zlib Zs} (host : endian) (junk : nat → nat → byte).
(** rock.protocol.max_length and rock.protocol.gzip_min_length *)
Context (max_length gzip_min_length : Z).

(** The header in memory, and the header read over eight bytes. *)
Definition header_image (h : RockMsgHeader) : list byte :=
  h_magic h ++ [h_version h; h_flag h] ++ mem_image host 4 (h_length h).
Definition header_of (bs : list byte) : RockMsgHeader :=
  mkHeader (take 2 bs) (default x00 (bs !! 2)) (default x00 (bs !! 3))
    (i32 (mem_value host (take 4 (drop 4 bs)))).

(** CreateGzip with its default buffer size, write and flush. *)
Definition gzip (e : bool) (ba : ByteArray) : gzip_result := zs_gzip 4096 e ba.

(** Run on a ByteArray of the function's own. *)
Definition with_ba {A} (b : ByteArray) (m : M (S * ByteArray) A) : M S (A * ByteArray) := λ s,
  match m (s, b) with
  | Ret a (s', b') => Ret (a, b') s'
  | Exn e (s', _) => Exn e s'
  | Stuck r => Stuck r
  end.
Definition new_ba : ByteArray := ByteArray_new junk 4096.

(** ZlibStream::getByteArray *)
Definition getByteArray (buffs : list (list byte)) : M S ByteArray :=
  let! (_, ba) := with_ba new_ba (on_ba (let! _ := readFromFile junk buffs in setPosition 0)) in
  cret ba.

(** RockMessageDecoder::parseFrom *)
Definition parse_body (ba : ByteArray) : M S (option RockMessage) :=
  let! (type, ba) := with_ba ba (on_ba (readFuint8 host)) in
  let parse := if (type =? REQUEST)%Z then Some (rock_parse_request host)
               else if (type =? RESPONSE)%Z then Some (rock_parse_response host)
               else if (type =? NOTIFY)%Z then Some (rock_parse_notify host)
               else None in
  match parse with
  | None => cret None
  | Some parse => let! (msg, _) := with_ba ba (on_ba parse) in cret msg
  end.

Definition parseFrom : M S (option RockMessage) :=
  ccatch
    (let! (rt, bs) := readFixSize header_size in
     if (rt <=? 0)%Z then cret None else
     let header := header_of bs in
     if bool_decide (h_magic header ≠ s_rock_magic) then cret None else
     if bool_decide (h_version header ≠ x01) then cret None else
     let length := i32 (byteswapOnLittleEndian host 4 (h_length header)) in
     if (max_length <=? u32 length)%Z then cret None else
     let! (rt, ba) := with_ba new_ba (readFixSize_ba junk (u64 length)) in
     if (rt <=? 0)%Z then cret None else
     let! (_, ba) := with_ba ba (on_ba (setPosition 0)) in
     if Z.testbit (Z_of_byte (h_flag header)) 0 then
       match gzip false ba with
       | GzOk buffs => let! ba := getByteArray buffs in parse_body ba
       | GzStuck r => cstuck r
       | _ => cret None
       end
     else parse_body ba)
    (cret None).

(** RockMessageDecoder::serializeTo; toByteArray returns null when the
    serialization fails, and the pointer is used unchecked. *)
Definition send_frame (flag : byte) (length : Z) (ba : ByteArray) : M S Z :=
  let header := mkHeader (h_magic RockMsgHeader_new) (h_version RockMsgHeader_new) flag
                  (i32 (byteswapOnLittleEndian host 4 length)) in
  let! rt := writeFixSize (header_image header) header_size in
  if (rt <=? 0)%Z then cret (-3)%Z else
  let! (rt, ba) := with_ba ba (writeFixSize_ba (Z.of_nat (getReadSize ba))) in
  if (rt <=? 0)%Z then cret (-4)%Z else
  cret (i32 (header_size + Z.of_nat (m_size ba))).

Definition serializeTo (msg : RockMessage) : M S Z :=
  let! (ok, ba) := with_ba new_ba (on_ba (rock_serialize host junk msg)) in
  if negb ok then cstuck NullDeref else
  let! (_, ba) := with_ba ba (on_ba (setPosition 0)) in
  let length := i32 (Z.of_nat (m_size ba)) in
  if (gzip_min_length <=? u32 length)%Z then
    match gzip true ba with
    | GzStuck r => cstuck r
    | GzWriteError => cret (-1)%Z
    | GzFlushError => cret (-2)%Z
    | GzOk buffs =>
      let! ba := getByteArray buffs in
      send_frame x01 (i32 (Z.of_nat (m_size ba))) ba
    end
  else send_frame x00 length ba.
End decoder.

(** ** Messages in a ByteArray *)
Definition string_image (s : list byte) : list byte := varint_image 10 (ssize s) ++ s.
Definition uint32_image (v : Z) : list byte := varint_image 5 v.

(** The bytes of a message after the type byte. *)
Definition fields_image (m : RockMessage) : list byte :=
  match m with
  | RockRequest r body => uint32_image (rq_sn r) ++ uint32_image (rq_cmd r) ++ string_image body
  | RockResponse r body =>
    uint32_image (rs_sn r) ++ uint32_image (rs_cmd r) ++ uint32_image (rs_result r) ++
    string_image (rs_resultStr r) ++ string_image body
  | RockNotify n body => uint32_image (nt_notify n) ++ string_image body
  end.
Definition msg_image (m : RockMessage) : list byte := byte_of_Z (getType m) :: fields_image m.
Definition msg_body (m : RockMessage) : list byte :=
  match m with RockRequest _ body | RockResponse _ body | RockNotify _ body => body end.

(** Fields in range, strings that memory can hold. *)
Definition msg_valid (m : RockMessage) : Prop :=
  fits 64 (msg_body m) ∧
  match m with
  | RockRequest r _ => in_u 32 (rq_sn r) ∧ in_u 32 (rq_cmd r)
  | RockResponse r _ =>
    in_u 32 (rs_sn r) ∧ in_u 32 (rs_cmd r) ∧ in_u 32 (rs_result r) ∧ fits 64 (rs_resultStr r)
  | RockNotify n _ => in_u 32 (nt_notify n)
  end.

Create HintDb rock.

Section message_codec.
Context (host : endian) (junk : nat → nat → byte).

Lemma type_encodes t :
  in_u 8 t → encodes (writeFuint8 host junk (u8 t)) (λ _, [byte_of_Z t]).
Proof.
  intros Ht. rewrite uwrap_id by done.
  apply encodes_ext with (λ e, mem_image e 1 t); [by intros []|]. apply one_byte_encodes.
Qed.
Lemma uint32_encodes v : in_u 32 v → encodes (writeUint32 junk v) (λ _, uint32_image v).
Proof. intros Hv. by apply (varint_encodes host junk 5 32); [lia|lia|]. Qed.
Lemma uint32_decodes v : in_u 32 v → decodes false (readUint32 host) (λ _, uint32_image v) v.
Proof. intros Hv. by apply (varint_decodes host 5 32); [lia|lia|]. Qed.
Lemma body_encodes s : fits 64 s → encodes (writeStringVint junk s) (λ _, string_image s).
Proof. apply (stringVint_encodes host). Qed.
Lemma body_decodes s : fits 64 s → decodes (length s =? 0) (readStringVint host) (λ _, string_image s) s.
Proof. apply stringVint_decodes. Qed.
Lemma uint32_image_ne v : uint32_image v ≠ [].
Proof. apply varint_image_ne. Qed.
Lemma string_image_nonempty s : string_image s ≠ [].
Proof. unfold string_image. intros [E _]%app_nil. by apply varint_image_ne in E. Qed.
Lemma app_ne_l (i j : list byte) : i ≠ [] → i ++ j ≠ [].
Proof. by destruct i. Qed.

Lemma decodes_catch {A} z (m h : M ByteArray A) i a :
  decodes z m i a → decodes z (ccatch m h) i a.
Proof.
  intros H b rest Hw Hun Hz. destruct (H b rest Hw Hun Hz) as (b' & Hr & ?).
  exists b'. by rewrite (ccatch_Ret _ _ _ _ _ Hr).
Qed.

(** A write of the fields and a write of the body, as serializeToByteArray
    combines them. *)
Lemma serialize_parts (w1 w2 : M ByteArray unit) (i1 i2 : list byte) :
  encodes w1 (λ _, i1) → encodes w2 (λ _, i2) →
  ∀ b, wf b → ∃ b',
    ccatch (let! v := (let! _ := w1 in cret true) in
            let! w := (let! _ := w2 in cret true) in cret (v && w)) (cret false) b = Ret true b' ∧
    wf b' ∧ abs b' = Spec.put (i1 ++ i2) (abs b) ∧
    m_endian b' = m_endian b ∧ m_baseSize b' = m_baseSize b.
Proof.
  intros H1 H2 b Hb. destruct (encodes_bind _ _ _ _ H1 H2 b Hb) as (b' & Hr & Hw & Ha & He & Hbs).
  exists b'. split_and!; try done. apply ccatch_Ret.
  apply cbind_inv_Ret in Hr as ([] & b1 & Hr1 & Hr2).
  unfold cbind. rewrite Hr1. cbn [cret]. by rewrite Hr2.
Qed.

Lemma decodes_run {A} z (m m' : M ByteArray A) i a :
  (∀ b, m b = m' b) → decodes z m i a → decodes z m' i a.
Proof. intros E H b rest. setoid_rewrite <- E. apply H. Qed.

(** A field, then what follows it. *)
Lemma decodes_uint32 {B} z v (k : Z → M ByteArray B) (i : list byte) c :
  in_u 32 v → i ≠ [] → decodes z (k v) (λ _, i) c →
  decodes z (let! v := readUint32 host in k v) (λ _, uint32_image v ++ i) c.
Proof.
  intros Hv Hi Hk. by apply (decodes_bind false z _ _ (λ _, uint32_image v) (λ _, i) _ _ (uint32_decodes _ Hv)).
Qed.
Lemma decodes_string {B} z s (k : list byte → M ByteArray B) (i : list byte) c :
  fits 64 s → i ≠ [] → decodes z (k s) (λ _, i) c →
  decodes z (let! s := readStringVint host in k s) (λ _, string_image s ++ i) c.
Proof.
  intros Hv Hi Hk. by apply (decodes_bind (length s =? 0) z _ _ (λ _, string_image s) (λ _, i) _ _ (body_decodes _ Hv)).
Qed.
Hint Resolve uint32_image_ne string_image_nonempty app_ne_l : rock.

Lemma rock_serialize_spec m b :
  msg_valid m → wf b →
  ∃ b', rock_serialize host junk m b = Ret true b' ∧ wf b' ∧
    abs b' = Spec.put (msg_image m) (abs b) ∧
    m_endian b' = m_endian b ∧ m_baseSize b' = m_baseSize b.
Proof.
  assert (in_u 8 REQUEST ∧ in_u 8 RESPONSE ∧ in_u 8 NOTIFY) as (Hq & Hs & Hn)
    by (unfold in_u, REQUEST, RESPONSE, NOTIFY; lia).
  intros [Hb Hf] Hw. destruct m as [r body|r body|n body]; simpl in Hb, Hf.
  - destruct (serialize_parts _ _ _ _
      (encodes_bind _ _ _ _ (type_encodes _ Hq)
         (encodes_bind _ _ _ _ (uint32_encodes _ (proj1 Hf)) (uint32_encodes _ (proj2 Hf))))
      (body_encodes body Hb) b Hw) as (b' & Hr & ?).
    exists b'. unfold msg_image, fields_image. rewrite <- !(assoc_L (++)) in *. done.
  - destruct Hf as (H1 & H2 & H3 & H4).
    destruct (serialize_parts _ _ _ _
      (encodes_bind _ _ _ _ (type_encodes _ Hs)
        (encodes_bind _ _ _ _ (uint32_encodes _ H1)
          (encodes_bind _ _ _ _ (uint32_encodes _ H2)
            (encodes_bind _ _ _ _ (uint32_encodes _ H3) (body_encodes _ H4)))))
      (body_encodes body Hb) b Hw) as (b' & Hr & ?).
    exists b'. unfold msg_image, fields_image. rewrite <- !(assoc_L (++)) in *. done.
  - destruct (serialize_parts _ _ _ _
      (encodes_bind _ _ _ _ (type_encodes _ Hn) (uint32_encodes _ Hf))
      (body_encodes body Hb) b Hw) as (b' & Hr & ?).
    exists b'. unfold msg_image, fields_image. rewrite <- !(assoc_L (++)) in *. done.
Qed.

Definition rock_parse (type : Z) : M ByteArray (option RockMessage) :=
  if (type =? REQUEST)%Z then rock_parse_request host
  else if (type =? RESPONSE)%Z then rock_parse_response host else rock_parse_notify host.

(** Parsing undoes serialization; an empty body needs a block under the
    cursor. *)
Lemma rock_parse_decodes m :
  msg_valid m →
  decodes (length (msg_body m) =? 0) (rock_parse (getType m)) (λ _, fields_image m) (Some m).
Proof.
  intros [Hb Hf]. destruct m as [[sn cmd] body|[sn cmd res str] body|[nt] body];
    simpl in Hb, Hf; apply decodes_catch; cbn [msg_body fields_image rq_sn rq_cmd rs_sn rs_cmd rs_result rs_resultStr nt_notify].
  - destruct Hf as [H1 H2].
    eapply decodes_run;
      [|apply (decodes_uint32 _ sn (λ sn, let! cmd := readUint32 host in
                 let! body := readStringVint host in cret (Some (RockRequest (mkRequest sn cmd) body))));
        [done|auto with rock|]].
    { intros b. unfold Request_parse, RockBody_parse, cbind, cret. repeat case_match; by simplify_eq. }
    apply decodes_uint32; [done|auto with rock|].
    by apply (decodes_ret _ _ (λ body, Some (RockRequest (mkRequest sn cmd) body))), body_decodes.
  - destruct Hf as (H1 & H2 & H3 & H4).
    eapply decodes_run;
      [|apply (decodes_uint32 _ sn (λ sn, let! cmd := readUint32 host in
                 let! res := readUint32 host in let! str := readStringVint host in
                 let! body := readStringVint host in
                 cret (Some (RockResponse (mkResponse sn cmd res str) body))));
        [done|auto with rock|]].
    { intros b. unfold Response_parse, RockBody_parse, cbind, cret. repeat case_match; by simplify_eq. }
    apply decodes_uint32; [done|auto with rock|].
    apply decodes_uint32; [done|auto with rock|].
    apply decodes_string; [done|auto with rock|].
    by apply (decodes_ret _ _ (λ body, Some (RockResponse (mkResponse sn cmd res str) body))), body_decodes.
  - eapply decodes_run;
      [|apply (decodes_uint32 _ nt (λ nt, let! body := readStringVint host in
                 cret (Some (RockNotify (mkNotify nt) body)))); [done|auto with rock|]].
    { intros b. unfold Notify_parse, RockBody_parse, cbind, cret. repeat case_match; by simplify_eq. }
    by apply (decodes_ret _ _ (λ body, Some (RockNotify (mkNotify nt) body))), body_decodes.
Qed.
End message_codec.

(** ** Messages on a stream *)

(** What travels: the header and the body, compressed or not. *)
Definition frame (flag : byte) (bs : list byte) : list byte :=
  [xab; xcd; x01; flag] ++ mem_image BigEndian 4 (Z.of_nat (length bs)) ++ bs.

Lemma le_bytes_i32_inj a c : in_s 32 a → in_s 32 c → le_bytes 4 a = le_bytes 4 c → a = c.
Proof.
  intros Ha Hc E. apply (f_equal le_value) in E. rewrite !le_value_bytes in E.
  apply (f_equal i32) in E. rewrite !(conv_wrap (n := 4) (conv := i32)) in E.
  by rewrite !swrap_id in E by (done || lia).
Qed.

Section on_the_wire.
Context {S : Type} `{!Socket S, !SocketLaws S, !SocketLive S}.
Context {Zs : Type} `{!Zlib Zs, !ZlibLaws Zs}.
Context (host : endian) (junk : nat → nat → byte).
Context (max_length gzip_min_length : Z).
Implicit Types (s : S) (b : ByteArray) (m : RockMessage).

(** Header flag and body bytes of a message, if it can be compressed. *)
Definition wire_body m : option (byte * list byte) :=
  if (gzip_min_length <=? Z.of_nat (length (msg_image m)))%Z then
    match (let! _ := rock_serialize host junk m in setPosition 0) (new_ba junk) with
    | Ret _ ba => match gzip true ba with GzOk buffs => Some (x01, concat buffs) | _ => None end
    | _ => None
    end
  else Some (x00, msg_image m).

Lemma with_ba_on_ba {A} b (m : M ByteArray A) a b' s :
  m b = Ret a b' → with_ba b (on_ba m) s = Ret (a, b') s.
Proof. intros H. unfold with_ba, on_ba. simpl. by rewrite H. Qed.

Lemma swapped_image n v :
  in_s 32 v → n = 4 → mem_image host n (i32 (byteswapOnLittleEndian host n v)) = mem_image BigEndian n v.
Proof.
  intros Hv ->. destruct host; cbn [byteswapOnLittleEndian mem_image].
  - rewrite (conv_bytes (n := 4) (conv := i32)). apply byteswap_bytes.
  - by rewrite (conv_bytes (n := 4) (conv := i32)).
Qed.

Lemma header_image_frame flag length :
  in_s 32 length →
  header_image host (mkHeader (h_magic RockMsgHeader_new) (h_version RockMsgHeader_new) flag
      (i32 (byteswapOnLittleEndian host 4 length))) =
  [xab; xcd; x01; flag] ++ mem_image BigEndian 4 length.
Proof.
  intros Hl. unfold header_image. cbn [h_magic h_version h_flag h_length RockMsgHeader_new].
  rewrite swapped_image by done. done.
Qed.

Lemma header_of_image flag length :
  in_s 32 length →
  let h := header_of host ([xab; xcd; x01; flag] ++ mem_image BigEndian 4 length) in
  h_magic h = s_rock_magic ∧ h_version h = x01 ∧ h_flag h = flag ∧
  i32 (byteswapOnLittleEndian host 4 (h_length h)) = length.
Proof.
  intros Hl. split_and!; try done. unfold header_of. cbn [h_length].
  change (drop 4 ([xab; xcd; x01; flag] ++ mem_image BigEndian 4 length))
    with (mem_image BigEndian 4 length).
  rewrite take_ge by (rewrite length_mem_image; lia).
  rewrite <- (swapped_image 4 length Hl eq_refl), mem_value_image.
  rewrite (conv_wrap (n := 4) (conv := i32)).
  rewrite (swrap_id 32 (i32 (byteswapOnLittleEndian host 4 length))) by (lia || apply swrap_range; lia).
  apply le_bytes_i32_inj; [apply swrap_range; lia|done|].
  rewrite (conv_bytes (n := 4) (conv := i32)).
  destruct host; cbn [byteswapOnLittleEndian]; [|by rewrite !(conv_bytes (n := 4) (conv := i32))].
  rewrite byteswap_bytes, (conv_bytes (n := 4) (conv := i32)), byteswap_bytes. apply rev_involutive.
Qed.

(** A fresh ByteArray holding [bs], rewound. *)
Definition holds (bs : list byte) b : Prop :=
  wf b ∧ abs b = Spec.mkBuffer bs 0 ∧ m_endian b = BigEndian ∧ m_baseSize b = 4096.

Lemma new_ba_holds : holds [] (new_ba junk).
Proof. destruct (ByteArray_new_wf junk 4096) as [? ?]; [lia|]. done. Qed.

Lemma holds_unread bs b : holds bs b → unread b = bs ∧ m_size b = length bs ∧ m_position b = 0.
Proof.
  intros (Hw & [= Hc Hp] & _). unfold unread. rewrite Hc, Hp, <- Hc, length_content by done. done.
Qed.

Lemma rewind bs b :
  wf b → abs b = Spec.put bs (Spec.mkBuffer [] 0) → m_endian b = BigEndian → m_baseSize b = 4096 →
  ∃ b', setPosition 0 b = Ret tt b' ∧ holds bs b'.
Proof.
  intros Hw Ha He Hb. destruct (setPosition_seek 0 b Hw) as (b' & Hr & Hw' & Ha' & He' & Hb' & _); [lia|].
  exists b'. split; [done|]. split_and!; try congruence. rewrite Ha', Ha.
  unfold Spec.put, Spec.seek, overwrite. simpl. by rewrite drop_nil, app_nil_r.
Qed.

Lemma getByteArray_spec buffs s :
  ∃ b, getByteArray junk buffs s = Ret b s ∧ holds (concat buffs) b.
Proof.
  destruct new_ba_holds as (Hw & Ha & He & Hb).
  destruct (readFromFile_spec junk buffs (new_ba junk) Hw) as (b1 & Hr1 & Hw1 & Ha1 & He1 & Hb1).
  rewrite Ha in Ha1. destruct (rewind _ b1 Hw1 Ha1) as (b2 & Hr2 & Hh); [congruence..|].
  exists b2. split; [|done]. unfold getByteArray, cbind. unfold with_ba, on_ba. simpl.
  unfold cbind. by rewrite Hr1, Hr2.
Qed.

Lemma send_frame_spec flag bs b s :
  live s → holds bs b → 0 < length bs → (Z.of_nat (length bs) + 8 < 2 ^ 31)%Z →
  ∃ s', send_frame host flag (Z.of_nat (length bs)) b s = Ret (8 + Z.of_nat (length bs))%Z s' ∧
    outgoing s' = outgoing s ++ frame flag bs ∧ incoming s' = incoming s ∧ live s'.
Proof.
  intros Hl Hh Hpos Hlen. pose proof Hh as (Hw & Ha & _).
  destruct (holds_unread _ _ Hh) as (Hu & Hsz & Hp).
  unfold send_frame. rewrite header_image_frame by (unfold in_s; change (32 - 1)%Z with 31%Z; lia).
  set (hd := [xab; xcd; x01; flag] ++ mem_image BigEndian 4 (Z.of_nat (length bs))).
  assert (length hd = 8) as Hhd by (unfold hd; rewrite length_app, length_mem_image; done).
  destruct (writeFixSize_spec hd header_size s) as (rt & n & s1 & Hr & Hi1 & Ho1 & _ & Hlive);
    [unfold header_size; lia|unfold header_size; lia|].
  destruct (Hlive Hl) as (-> & -> & Hl1). rewrite (cbind_Ret _ _ _ _ _ Hr). cbn [Z.leb].
  change (i32 header_size) with 8%Z. change (8 <=? 0)%Z with false. cbn iota.
  assert (getReadSize b = length bs) as Hgs by (unfold getReadSize; lia).
  destruct (writeFixSize_ba_spec (Z.of_nat (getReadSize b)) s1 b Hw)
    as (rt & n & s2 & b2 & Hr2 & Hw2 & Hc2 & _ & _ & Hi2 & Ho2 & _ & Hlive2);
    [rewrite Hgs; lia|rewrite Hu, Hgs; lia|].
  destruct (Hlive2 Hl1) as (-> & -> & Hl2). rewrite Hgs, Nat2Z.id in *.
  rewrite i32_small in Hr2 by lia.
  exists s2. split; [|split_and!; [|congruence|done]].
  - erewrite cbind_Ret by (unfold with_ba; rewrite Hr2; done). cbv beta iota.
    rewrite (proj2 (Z.leb_gt _ _)) by lia. unfold cret, header_size. f_equal.
    pose proof (length_content _ Hw2) as Hs2. rewrite Hc2, length_content in Hs2 by done.
    rewrite <- Hs2, Hsz. rewrite i32_small by lia. done.
  - rewrite Ho2, Ho1, Hu, firstn_all, <- (assoc_L (++)). unfold frame. fold hd.
    rewrite (assoc_L (++) [xab; xcd; x01; flag]). fold hd.
    rewrite (take_ge hd) by (change (Z.to_nat header_size) with 8; lia). done.
Qed.

(** The message in a ByteArray of its own, as it is compressed or sent. *)
Lemma serialized m : msg_valid m →
  ∃ b1 b2, rock_serialize host junk m (new_ba junk) = Ret true b1 ∧ setPosition 0 b1 = Ret tt b2 ∧ holds (msg_image m) b2.
Proof.
  intros Hv. destruct new_ba_holds as (Hw & Ha & He & Hb).
  destruct (rock_serialize_spec host junk m (new_ba junk) Hv Hw) as (b1 & Hr1 & Hw1 & Ha1 & He1 & Hb1).
  rewrite Ha in Ha1. destruct (rewind _ b1 Hw1 Ha1) as (b2 & Hr2 & Hh); [congruence..|]. by exists b1, b2.
Qed.

(** A compressed body is a whole stream for the message. *)
Lemma wire_body_packed m flag bs : msg_valid m → wire_body m = Some (flag, bs) →
  (flag = x01 ∧ packed (msg_image m) bs) ∨ (flag = x00 ∧ bs = msg_image m).
Proof.
  intros Hv. unfold wire_body. destruct (_ <=? _)%Z; [|by intros [= <- <-]; right].
  destruct (serialized m Hv) as (b1 & b2 & H1 & H2 & Hh). unfold cbind. rewrite H1, H2.
  destruct (gzip true b2) as [buffs| | |r] eqn:Hg; [|done..]. intros [= <- <-]. left. split; [done|].
  destruct (holds_unread _ _ Hh) as (<- & _). apply (gzip_encode 4096); [lia|apply Hh| |done].
  by rewrite (proj1 (holds_unread _ _ Hh)).
Qed.

Lemma serializeTo_spec m s flag bs :
  live s → msg_valid m → wire_body m = Some (flag, bs) →
  (Z.of_nat (length (msg_image m)) < 2 ^ 31)%Z → 0 < length bs → (Z.of_nat (length bs) + 8 < 2 ^ 31)%Z →
  ∃ s', serializeTo host junk gzip_min_length m s = Ret (8 + Z.of_nat (length bs))%Z s' ∧
    outgoing s' = outgoing s ++ frame flag bs ∧ incoming s' = incoming s ∧ live s'.
Proof.
  intros Hl Hv Hwb Himg Hpos Hlen. destruct (serialized m Hv) as (b1 & b2 & Hr1 & Hr2 & Hh).
  destruct (holds_unread _ _ Hh) as (Hu & Hsz & Hp).
  unfold serializeTo. rewrite (cbind_Ret _ _ _ _ _ (with_ba_on_ba _ _ _ _ _ Hr1)). cbn [negb].
  rewrite (cbind_Ret _ _ _ _ _ (with_ba_on_ba _ _ _ _ _ Hr2)).
  rewrite Hsz, i32_small by lia. rewrite uwrap_id by (unfold in_u; lia).
  unfold wire_body, cbind in Hwb. rewrite Hr1, Hr2 in Hwb.
  destruct (gzip_min_length <=? Z.of_nat (length (msg_image m)))%Z.
  - destruct (gzip true b2) as [buffs| | |]; [|done..]. simplify_eq.
    destruct (getByteArray_spec buffs s) as (b3 & Hr3 & Hh3).
    rewrite (cbind_Ret _ _ _ _ _ Hr3). destruct (holds_unread _ _ Hh3) as (_ & -> & _).
    rewrite i32_small by lia. by apply send_frame_spec.
  - simplify_eq. by apply send_frame_spec.
Qed.

Lemma below_multiple n base count : n ≤ base * count → n mod base ≠ 0 → n < base * count.
Proof.
  intros Hle Hne. destruct (decide (n = base * count)) as [->|]; [|lia].
  destruct Hne. rewrite Nat.mul_comm. apply Nat.Div0.mod_mul.
Qed.

Lemma parse_body_spec m b s :
  msg_valid m → holds (msg_image m) b →
  (msg_body m = [] → length (msg_image m) mod 4096 ≠ 0) →
  parse_body host b s = Ret (Some m) s.
Proof.
  intros Hv Hh Hne. pose proof Hh as (Hw & _ & _ & Hb).
  destruct (holds_unread _ _ Hh) as (Hu & Hsz & Hp).
  unfold parse_body.
  destruct (readFuint8_decodes host (byte_of_Z (getType m)) b (fields_image m) Hw)
    as (b1 & Hr1 & Hw1 & Ha1 & Hu1 & He1 & Hb1 & Hc1); [done..|].
  rewrite (cbind_Ret _ _ _ _ _ (with_ba_on_ba _ _ _ _ _ Hr1)).
  assert (Z_of_byte (byte_of_Z (getType m)) = getType m) as ->
    by (rewrite Z_of_byte_of_Z; by destruct m).
  injection Ha1 as Hct1 Hp1. simpl in Hp1.
  destruct (rock_parse_decodes host m Hv b1 [] Hw1) as (b2 & Hr2 & _).
  { by rewrite Hu1, app_nil_r. }
  { intros Hz%Nat.eqb_eq%nil_length_inv. specialize (Hne Hz).
    rewrite Hp1, Hp, Hc1, (wf_capacity _ Hw), Hb.
    change (length (msg_image m) < 4096 * length (m_nodes b)).
    apply below_multiple; [|done].
    rewrite <- Hb, <- (wf_capacity _ Hw), <- Hsz. apply (wf_size _ Hw). }
  unfold rock_parse in Hr2. destruct m; cbn in Hr2 |- *;
    rewrite (cbind_Ret _ _ _ _ _ (with_ba_on_ba _ _ _ _ _ Hr2)); done.
Qed.

Lemma parseFrom_spec m s flag bs rest :
  live s → msg_valid m → wire_body m = Some (flag, bs) →
  incoming s = frame flag bs ++ rest →
  0 < length bs → (Z.of_nat (length bs) < max_length)%Z → (Z.of_nat (length bs) < 2 ^ 31)%Z →
  (msg_body m = [] → length (msg_image m) mod 4096 ≠ 0) →
  ∃ s', parseFrom host junk max_length s = Ret (Some m) s' ∧
    incoming s' = rest ∧ outgoing s' = outgoing s ∧ live s'.
Proof.
  intros Hl Hv Hwb Hin Hpos Hmax Hlen Hne.
  set (hd := [xab; xcd; x01; flag] ++ mem_image BigEndian 4 (Z.of_nat (length bs))).
  assert (length hd = 8) as Hhd by (unfold hd; rewrite length_app, length_mem_image; done).
  assert (frame flag bs ++ rest = hd ++ bs ++ rest) as Hfr.
  { unfold frame, hd. by rewrite <- !(assoc_L (++)). }
  rewrite Hfr in Hin.
  destruct (readFixSize_spec header_size s) as (rt & hb & s1 & Hr & Hi1 & Ho1 & _ & Hlive);
    [unfold header_size; lia|].
  destruct (Hlive Hl) as (-> & Hhb & Hl1).
  { rewrite Hin, length_app, Hhd. unfold header_size. lia. }
  rewrite Hin in Hi1. change (Z.to_nat header_size) with 8 in Hhb.
  apply app_inj_1 in Hi1 as [<- Hi1]; [|lia].
  destruct (header_of_image flag (Z.of_nat (length bs))) as (Hm & Hver & Hflag & Hlg);
    [unfold in_s; change (32 - 1)%Z with 31%Z; lia|]. fold hd in Hm, Hver, Hflag, Hlg.
  destruct new_ba_holds as (Hw & Ha & He & Hb).
  destruct (readFixSize_ba_spec junk (Z.of_nat (length bs)) s1 (new_ba junk) Hw)
    as (rt & bs2 & s2 & b2 & Hr2 & Hw2 & Ha2 & He2 & Hb2 & Hi2 & Ho2 & _ & Hlive2); [lia|].
  destruct (Hlive2 Hl1) as (-> & Hbs2 & Hl2).
  { rewrite <- Hi1, length_app. lia. }
  rewrite <- Hi1 in Hi2. apply app_inj_1 in Hi2 as [<- Hi2]; [|lia].
  rewrite Ha in Ha2. destruct (rewind _ b2 Hw2 Ha2) as (b3 & Hr3 & Hh3); [congruence..|].
  destruct (holds_unread _ _ Hh3) as (Hu3 & _).
  exists s2. split; [|split_and!; [by rewrite Hi2|congruence|done]].
  unfold parseFrom. apply ccatch_Ret.
  rewrite (cbind_Ret _ _ _ _ _ Hr). change (i32 header_size <=? 0)%Z with false. cbn iota zeta.
  rewrite bool_decide_false by (rewrite Hm; by intros []).
  rewrite bool_decide_false by (rewrite Hver; by intros []).
  rewrite Hlg, uwrap_id by (unfold in_u; lia).
  destruct (Z.leb_spec max_length (Z.of_nat (length bs))); [lia|].
  rewrite uwrap_id by (unfold in_u; lia).
  erewrite cbind_Ret by (unfold with_ba; rewrite Hr2; done).
  rewrite i32_small by lia. destruct (Z.leb_spec (Z.of_nat (length bs)) 0); [lia|].
  rewrite (cbind_Ret _ _ _ _ _ (with_ba_on_ba _ _ _ _ _ Hr3)).
  rewrite Hflag. destruct (wire_body_packed _ _ _ Hv Hwb) as [[-> Hp]|[-> ->]].
  - change (Z.testbit (Z_of_byte x01) 0) with true. cbn iota.
    destruct (gzip_decode 4096 ltac:(lia) b3 (msg_image m)) as (buffs & Hg & Hx); [apply Hh3|rewrite Hu3; by destruct bs|by rewrite Hu3|].
    unfold gzip. rewrite Hg. destruct (getByteArray_spec buffs s2) as (b4 & Hr4 & Hh4).
    rewrite (cbind_Ret _ _ _ _ _ Hr4). rewrite Hx in Hh4. by apply parse_body_spec.
  - change (Z.testbit (Z_of_byte x00) 0) with false. cbn iota. by apply parse_body_spec.
Qed.

(** C13: A rock message sent over a stream is received. Serializing a valid
    message to a live stream returns the size of its frame and sends exactly
    the frame: header, big-endian length and the body, from the configured
    size on compressed by ZlibStream over a zlib that keeps its manual's
    promises. A peer whose stream starts with the frame parses the
    message back, whatever pieces it arrives in, and stops where the frame
    ends. An empty body is parsed unless the message fills its 4096-byte
    blocks exactly. *)
Theorem rock_stream_roundtrip m flag bs (s s2 : S) rest :
  msg_valid m → wire_body m = Some (flag, bs) →
  (Z.of_nat (length (msg_image m)) < 2 ^ 31)%Z →
  0 < length bs → (Z.of_nat (length bs) < max_length)%Z → (Z.of_nat (length bs) + 8 < 2 ^ 31)%Z →
  (msg_body m = [] → length (msg_image m) mod 4096 ≠ 0) →
  live s → live s2 → incoming s2 = frame flag bs ++ rest →
  (∃ s', serializeTo host junk gzip_min_length m s = Ret (8 + Z.of_nat (length bs))%Z s' ∧
     outgoing s' = outgoing s ++ frame flag bs) ∧
  (∃ s2', parseFrom host junk max_length s2 = Ret (Some m) s2' ∧ incoming s2' = rest).
Proof.
  intros Hv Hwb Himg Hpos Hmax Hlen Hne Hl Hl2 Hin. split.
  - destruct (serializeTo_spec m s flag bs) as (s' & ? & ? & _); [done..|]. eauto.
  - destruct (parseFrom_spec m s2 flag bs rest) as (s' & ? & ? & _); [done..|lia|done|]. eauto.
Qed.

(** *** Arbitrary input *)
Lemma catch_safe {A} (m : M ByteArray (option A)) b :
  reads_safely m → wf b → m_size b < m_capacity b →
  ∃ a b', ccatch m (cret None) b = Ret a b'.
Proof.
  intros Hm Hw Hs. destruct (Hm b Hw Hs) as (b' & [E|[a E]] & _).
  - exists None, b'. by rewrite (ccatch_Exn _ _ _ _ _ E).
  - exists a, b'. by rewrite (ccatch_Ret _ _ _ _ _ E).
Qed.

Lemma readUint32_safe : reads_safely (readUint32 host).
Proof. apply unvarint_loop_safe. Qed.
Lemma readStringVint_safe : reads_safely (readStringVint host).
Proof. unfold readStringVint. apply bind_safe; [apply unvarint_loop_safe|]. apply read_len_safe. Qed.

Lemma rock_parse_safely :
  reads_safely (Request_parse host) ∧ reads_safely (Response_parse host) ∧
  reads_safely (Notify_parse host).
Proof.
  pose proof readUint32_safe. pose proof readStringVint_safe.
  unfold Request_parse, Response_parse, Notify_parse.
  split_and!; repeat (apply bind_safe; [done|intros ?]); apply ret_safe.
Qed.

Lemma parse_body_safe b s :
  wf b → m_size b < m_capacity b →
  ∃ r, parse_body host b s = Ret r s ∨ parse_body host b s = Exn OutOfRange s.
Proof.
  intros Hw Hs. unfold parse_body.
  destruct (readFuint8_safe host b Hw Hs) as (b1 & [E|[t E]] & Hw1 & Hc1 & _ & Hcap1 & _).
  { exists None. right. apply cbind_Exn. unfold with_ba, on_ba. simpl. by rewrite E. }
  rewrite (cbind_Ret _ _ _ _ _ (with_ba_on_ba _ _ _ _ _ E)).
  assert (m_size b1 < m_capacity b1) as Hs1.
  { pose proof (length_content _ Hw). pose proof (length_content _ Hw1). congruence. }
  destruct rock_parse_safely as (H1 & H2 & H3). pose proof readStringVint_safe as H4.
  assert (∀ parse : M ByteArray (option RockMessage), (∃ a b', parse b1 = Ret a b') →
    ∃ r, (let! (msg, _) := with_ba b1 (on_ba parse) in cret msg) s = Ret r s) as Hgo.
  { intros parse (a & b' & Hp). exists a.
    by rewrite (cbind_Ret _ _ _ _ _ (with_ba_on_ba _ _ _ _ _ Hp)). }
  assert (∀ A (m : M ByteArray A) (f : A → list byte → RockMessage), reads_safely m →
    ∃ a b', ccatch (let! r := m in let! body := RockBody_parse host in cret (Some (f r body)))
              (cret None) b1 = Ret a b') as Hcatch.
  { intros A m f Hm. apply catch_safe; [|done|done].
    apply bind_safe; [done|intros r]. apply bind_safe; [done|intros body]. apply ret_safe. }
  cbv zeta.
  destruct (t =? REQUEST)%Z; [destruct (Hgo _ (Hcatch _ _ RockRequest H1)) as [r Hr]; exists r; by left|].
  destruct (t =? RESPONSE)%Z; [destruct (Hgo _ (Hcatch _ _ RockResponse H2)) as [r Hr]; exists r; by left|].
  destruct (t =? NOTIFY)%Z; [destruct (Hgo _ (Hcatch _ _ RockNotify H3)) as [r Hr]; exists r; by left|].
  exists None. by left.
Qed.

(** The length a stream announces. *)
Definition announced (bs : list byte) : Z :=
  i32 (byteswapOnLittleEndian host 4 (h_length (header_of host (take 8 bs)))).

Lemma readFixSize_ba_negative l s b :
  (- 2 ^ 31 ≤ l < 0)%Z → readFixSize_ba junk (u64 l) (s, b) = Ret l (s, b).
Proof.
  intros Hl. unfold readFixSize_ba.
  assert (i64 (u64 l) = l) as -> by (rewrite swrap_uwrap by lia; apply swrap_id; [lia|unfold in_s; lia]).
  rewrite Z2Nat_nonpos by lia. cbn [fix_loop_ba].
  rewrite (proj2 (Z.leb_le _ _)) by lia. unfold cbind, cret. simpl. f_equal.
  assert (i32 (u64 l) = i32 l) as ->.
  { unfold swrap, uwrap. f_equal.
    change (2 ^ 64)%Z with (2 ^ 32 * 2 ^ 32)%Z. change (2 ^ (32 - 1))%Z with (2 ^ 31)%Z.
    rewrite <- Zplus_mod_idemp_l, <- (Zplus_mod_idemp_l l). do 2 f_equal.
    rewrite Z.rem_mul_r by lia. rewrite Z.mul_comm, Z.mod_add, Z.mod_mod by lia. done. }
  apply swrap_id; [lia|]. unfold in_s. change (32 - 1)%Z with 31%Z. lia.
Qed.

(** Parsing is safe on arbitrary input. Whatever the stream delivers, in
    whatever pieces, parseFrom returns a message or null, throws nothing,
    follows no bad pointer and consumes a prefix of the input, as long as
    the announced body is not compressed and its length is not a positive
    multiple of 4096. *)
Theorem rock_parse_safe s :
  Z.testbit (Z_of_byte (h_flag (header_of host (take 8 (incoming s))))) 0 = false →
  (announced (incoming s) mod 4096 = 0 → announced (incoming s) ≤ 0)%Z →
  ∃ r s' used, parseFrom host junk max_length s = Ret r s' ∧
    incoming s = used ++ incoming s' ∧ outgoing s' = outgoing s.
Proof.
  intros Hflag Hann.
  destruct (readFixSize_spec header_size s) as (rt & hb & s1 & Hr & Hi1 & Ho1 & Hcase & _);
    [unfold header_size; lia|].
  unfold parseFrom, ccatch. rewrite (cbind_Ret _ _ _ _ _ Hr).
  destruct (Z.leb_spec rt 0) as [Hneg|Hpos]; [by exists None, s1, hb|].
  destruct Hcase as [(_ & Hhb)|(? & _)]; [|lia]. change (Z.to_nat header_size) with 8 in Hhb.
  assert (take 8 (incoming s) = hb) as Htk by (rewrite Hi1, <- Hhb; apply take_app_length).
  unfold announced in Hann. rewrite Htk in Hflag, Hann. cbv zeta.
  case_bool_decide; [by exists None, s1, hb|]. case_bool_decide; [by exists None, s1, hb|].
  set (l := i32 (byteswapOnLittleEndian host 4 (h_length (header_of host hb)))) in *.
  assert (in_s 32 l) as Hls by (apply swrap_range; lia). unfold in_s in Hls.
  change (2 ^ (32 - 1))%Z with (2 ^ 31)%Z in Hls.
  destruct (Z.leb_spec max_length (u32 l)); [by exists None, s1, hb|].
  destruct new_ba_holds as (Hw & Ha & He & Hb).
  destruct (decide (l < 0)%Z) as [Hlneg|Hlpos].
  { exists None, s1, hb. split; [|done].
    erewrite cbind_Ret by (unfold with_ba; rewrite readFixSize_ba_negative by lia; done).
    cbv beta iota. by rewrite (proj2 (Z.leb_le _ _)) by lia. }
  rewrite uwrap_id by (unfold in_u; lia).
  destruct (readFixSize_ba_spec junk l s1 (new_ba junk) Hw)
    as (rt2 & bs2 & s2 & b2 & Hr2 & Hw2 & Ha2 & He2 & Hb2 & Hi2 & Ho2 & Hcase2 & _); [lia|].
  erewrite cbind_Ret by (unfold with_ba; rewrite Hr2; done). cbv beta iota.
  assert (incoming s = (hb ++ bs2) ++ incoming s2 ∧ outgoing s2 = outgoing s) as [Hin Hout].
  { rewrite Hi1, Hi2, (assoc_L (++)). split; congruence. }
  destruct (Z.leb_spec rt2 0) as [|Hpos2]; [by exists None, s2, (hb ++ bs2)|].
  destruct Hcase2 as [(Hrt2 & Hlen2)|(? & _)]; [|lia]. rewrite i32_small in Hrt2 by lia.
  rewrite Ha in Ha2. destruct (rewind _ b2 Hw2 Ha2) as (b3 & Hr3 & Hh3); [congruence..|].
  destruct (holds_unread _ _ Hh3) as (_ & Hsz & _). destruct Hh3 as (Hw3 & _ & _ & Hb3).
  rewrite (cbind_Ret _ _ _ _ _ (with_ba_on_ba _ _ _ _ _ Hr3)), Hflag.
  destruct (parse_body_safe b3 s2 Hw3) as (r & Hres).
  { rewrite (wf_capacity _ Hw3), Hb3. pose proof (wf_size _ Hw3) as Hle.
    rewrite (wf_capacity _ Hw3), Hb3 in Hle. apply below_multiple; [done|].
    rewrite Hsz, Hlen2. intros Hmod. clear - Hann Hmod Hlpos Hrt2 Hpos2.
    apply (f_equal Z.of_nat) in Hmod. rewrite Nat2Z.inj_mod, Z2Nat.id in Hmod by lia.
    change (Z.of_nat 4096) with 4096%Z in Hmod. specialize (Hann Hmod). lia. }
  destruct Hres as [->| ->]; [by exists r, s2, (hb ++ bs2)|by exists None, s2, (hb ++ bs2)].
Qed.
End on_the_wire.

(** ** Concrete runs *)
Definition request_ex : RockMessage := RockRequest (mkRequest 7 300) [x68; x69].
Definition frame_ex : list byte :=
  [xab; xcd; x01; x00; x00; x00; x00; x07; x01; x07; xac; x02; x02; x68; x69].
(** The same with every byte of the body complemented. *)
Definition gzip_frame_ex : list byte :=
  [xab; xcd; x01; x01; x00; x00; x00; x07; xfe; xf8; x53; xfd; xfd; x97; x96].

Example frame_ex_frame :
  wire_body LittleEndian junk0 4096 request_ex = Some (x00, drop 8 frame_ex) ∧ frame x00 (drop 8 frame_ex) = frame_ex.
Proof. split; reflexivity. Qed.

Lemma rock_stream_roundtrip_witness :
  (∃ s', serializeTo LittleEndian junk0 0 request_ex (mkWire [] [] 3 true)
           = Ret (8 + Z.of_nat (length (drop 8 gzip_frame_ex)))%Z s' ∧
     outgoing s' = outgoing (mkWire [] [] 3 true) ++ gzip_frame_ex) ∧
  (∃ s2', parseFrom LittleEndian junk0 67108864 (mkWire (gzip_frame_ex ++ [xff]) [] 3 true)
           = Ret (Some request_ex) s2' ∧ incoming s2' = [xff]).
Proof.
  apply (rock_stream_roundtrip (Zs := toy) LittleEndian junk0 67108864 0 request_ex x01
           (drop 8 gzip_frame_ex) (mkWire [] [] 3 true) (mkWire (gzip_frame_ex ++ [xff]) [] 3 true) [xff]).
  - unfold msg_valid, fits, in_u. simpl. lia.
  - vm_compute. reflexivity.
  - vm_compute. done.
  - vm_compute. lia.
  - vm_compute. done.
  - vm_compute. done.
  - done.
  - split; [done|simpl; lia].
  - split; [done|simpl; lia].
  - reflexivity.
Defined.

Lemma rock_parse_safe_witness :
  ∃ r s' used,
    parseFrom LittleEndian junk0 67108864 (mkWire (frame_ex ++ [xff]) [] 3 true) = Ret r s' ∧
    incoming (mkWire (frame_ex ++ [xff]) [] 3 true) = used ++ incoming s' ∧
    outgoing s' = outgoing (mkWire (frame_ex ++ [xff]) [] 3 true).
Proof.
  apply (rock_parse_safe LittleEndian junk0 67108864 (mkWire (frame_ex ++ [xff]) [] 3 true)).
  - reflexivity.
  - vm_compute. done.
Defined.

(** A response whose 4096 bytes end with an empty body. *)
Definition crash_frame : list byte :=
  [xab; xcd; x01; x00; x00; x00; x10; x00; x02; x01; x01; x00; xf9; x1f] ++
  replicate 4089 x61 ++ [x00].

(** A response whose 4096 bytes end in an empty body makes the receiver
    dereference a null pointer: the empty string is read with the cursor
    behind the last full block. *)
Theorem rock_empty_body_crash :
  parseFrom LittleEndian junk0 67108864 (mkWire crash_frame [] 1500 true) = Stuck NullDeref.
Proof. vm_compute. reflexivity. Qed.
