(* ===== verification/WebSocket.v ===== *)
(** * WebSocket framing (Sylar/HttpServer/ws_session.cc)

    WSRecvMessage, WSSendMessage, WSPing and WSPong over a stream. The mask
    of a client's frame is an argument (the code takes it from rand()). The
    handshake (HTTP, SHA-1, base64) is not modelled. *)
From Stdlib Require Import ZArith Lia Strings.Byte.
From stdpp Require Import base list list_numbers numbers.
From S2P Require Import Prelude ByteArray Codec Stream.

(** ** Frame heads: two bytes of bit fields *)
Definition CONTINUE : Z := 0.
Definition TEXT_FRAME : Z := 1.
Definition BIN_FRAME : Z := 2.
Definition CLOSE : Z := 8.
Definition PING : Z := 9.
Definition PONG : Z := 10.

Record WSFrameHead := mkHead {
  opcode : Z; rsv3 : bool; rsv2 : bool; rsv1 : bool; fin : bool; payload : Z; mask : bool
}.
(** [memset(&ws_head, 0, sizeof(ws_head))] *)
Definition head0 : WSFrameHead := mkHead 0 false false false false 0 false.

(** The packed layout: each byte filled from its low bit. *)
Definition head_image (h : WSFrameHead) : list byte :=
  [byte_of_Z (opcode h + 16 * Z.b2z (rsv3 h) + 32 * Z.b2z (rsv2 h) + 64 * Z.b2z (rsv1 h) + 128 * Z.b2z (fin h));
   byte_of_Z (payload h + 128 * Z.b2z (mask h))].
Definition head_of (bs : list byte) : WSFrameHead :=
  let b0 := Z_of_byte (default x00 (bs !! 0)) in
  let b1 := Z_of_byte (default x00 (bs !! 1)) in
  mkHead (Z.land b0 15) (Z.testbit b0 4) (Z.testbit b0 5) (Z.testbit b0 6) (Z.testbit b0 7)
    (Z.land b1 127) (Z.testbit b1 7).
(** [sizeof(WSFrameHead)] *)
Definition head_size : Z := 2.

Record WSFrameMessage := mkMessage { m_opcode : Z; m_data : list byte }.

Definition bxor (a b : byte) : byte := byte_of_Z (Z.lxor (Z_of_byte a) (Z_of_byte b)).
(** [data[i] ^= mask[i % 4]] for the first [n] bytes. *)
Definition apply_mask (mask : list byte) (n : nat) (data : list byte) : list byte :=
  imap (λ i b, if i <? n then bxor b (default x00 (mask !! (i mod 4))) else b) data.

Section websocket.
Context {S : Type} `{!Socket S} (host : endian).
(** websocket.message.max_size *)
Context (max_size : Z).

(** WSPing and WSPong *)
Definition send_control (op : Z) : M S Z :=
  let ws_head := mkHead op false false false true 0 false in
  let! v := writeFixSize (head_image ws_head) head_size in
  let! _ := if (v <=? 0)%Z then stream_close else cret tt in
  cret v.
Definition WSPing : M S Z := send_control PING.
Definition WSPong : M S Z := send_control PONG.

(** The payload length, from the head or from the bytes after it;
    [None] when they cannot be read. *)
Definition read_length (ws_head : WSFrameHead) : M S (option Z) :=
  if (payload ws_head =? 126)%Z then
    let! (rt, bs) := readFixSize 2 in
    if (rt <=? 0)%Z then cret None
    else cret (Some (u16 (byteswapOnLittleEndian host 2 (u16 (mem_value host bs)))))
  else if (payload ws_head =? 127)%Z then
    let! (rt, bs) := readFixSize 8 in
    if (rt <=? 0)%Z then cret None
    else cret (Some (u64 (byteswapOnLittleEndian host 8 (u64 (mem_value host bs)))))
  else cret (Some (payload ws_head)).

(** The data part of a frame: the data so far extended, or [None] to leave
    the loop. *)
Definition read_data (client : bool) (ws_head : WSFrameHead) (data : list byte) (cur_len : Z)
  : M S (option (list byte * Z)) :=
  if negb client && negb (mask ws_head) then cret None else
  let! length := read_length ws_head in
  match length with
  | None => cret None
  | Some length =>
    if (max_size <=? u64 (cur_len + length))%Z then cret None else
    let! key := if mask ws_head
                 then let! (rt, bs) := readFixSize 4 in
                      cret (if (rt <=? 0)%Z then None else Some bs)
                 else cret (Some (replicate 4 x00)) in
    match key with
    | None => cret None
    | Some key =>
      (* data.resize(cur_len + length), then &data[cur_len] *)
      if (u64 (cur_len + length) <? cur_len)%Z then cstuck OutOfBounds else
      let! (rt, bs) := readFixSize length in
      if (rt <=? 0)%Z then cret None
      else
        let bs := if mask ws_head then apply_mask key (Z.to_nat (i32 length)) bs else bs in
        cret (Some (data ++ bs, i32 (cur_len + length)))
    end
  end.

(** WSRecvMessage: the loop over frames; [None] after a break. *)
Fixpoint recv_loop (fuel : nat) (client : bool) (op : Z) (data : list byte) (cur_len : Z)
  : M S (option WSFrameMessage) :=
  match fuel with
  | O => cstuck OutOfFuel
  | Datatypes.S fuel =>
    let! (rt, bs) := readFixSize head_size in
    if (rt <=? 0)%Z then cret None else
    let ws_head := head_of bs in
    if (opcode ws_head =? PING)%Z then
      let! v := WSPong in
      if (v <=? 0)%Z then cret None else recv_loop fuel client op data cur_len
    else if (opcode ws_head =? PONG)%Z then recv_loop fuel client op data cur_len
    else if ((opcode ws_head =? CONTINUE) || (opcode ws_head =? TEXT_FRAME)
             || (opcode ws_head =? BIN_FRAME))%Z then
      let! r := read_data client ws_head data cur_len in
      match r with
      | None => cret None
      | Some (data, cur_len) =>
        let op := if ((op =? 0) && negb (opcode ws_head =? CONTINUE))%Z then opcode ws_head else op in
        if fin ws_head then cret (Some (mkMessage op data))
        else recv_loop fuel client op data cur_len
      end
    else recv_loop fuel client op data cur_len
  end.
Definition WSRecvMessage (fuel : nat) (client : bool) : M S (option WSFrameMessage) :=
  let! r := recv_loop fuel client 0 [] 0 in
  match r with
  | Some msg => cret (Some msg)
  | None => let! _ := stream_close in cret None
  end.

(** WSSendMessage: the result and the message, whose data a client leaves
    masked. *)
Definition send_parts (msg : WSFrameMessage) (client fin : bool) (rand_value : Z)
  : M S (option Z * WSFrameMessage) :=
  let size := Z.of_nat (length (m_data msg)) in
  let payload := (if size <? 126 then size else if size <? 65536 then 126 else 127)%Z in
  let ws_head := mkHead (Z.land (m_opcode msg) 15) false false false fin payload client in
  let! rt := writeFixSize (head_image ws_head) head_size in
  if (rt <=? 0)%Z then cret (None, msg) else
  let! rt := if (payload =? 126)%Z then
               writeFixSize (mem_image host 2 (u16 (byteswapOnLittleEndian host 2 (u16 size)))) 2
             else if (payload =? 127)%Z then
               writeFixSize (mem_image host 8 (u64 (byteswapOnLittleEndian host 8 size))) 8
             else cret 1%Z in
  if (rt <=? 0)%Z then cret (None, msg) else
  let mask := mem_image host 4 rand_value in
  let msg := if client
             then mkMessage (m_opcode msg) (apply_mask mask (length (m_data msg)) (m_data msg))
             else msg in
  let! rt := if client then writeFixSize mask 4 else cret 1%Z in
  if (rt <=? 0)%Z then cret (None, msg) else
  let! rt := writeFixSize (m_data msg) size in
  if (rt <=? 0)%Z then cret (None, msg) else
  cret (Some (i32 (size + head_size)), msg).
Definition WSSendMessage (msg : WSFrameMessage) (client fin : bool) (rand_value : Z)
  : M S (Z * WSFrameMessage) :=
  let! (r, msg) := send_parts msg client fin rand_value in
  match r with
  | Some v => cret (v, msg)
  | None => let! _ := stream_close in cret ((-1)%Z, msg)
  end.

(** WSSession is the server's end of a stream, WSConnection the client's. *)
Definition WSSession_recvMessage (fuel : nat) := WSRecvMessage fuel false.
Definition WSSession_sendMessage (msg : WSFrameMessage) (fin : bool) := WSSendMessage msg false fin 0.
Definition WSConnection_recvMessage (fuel : nat) := WSRecvMessage fuel true.
Definition WSConnection_sendMessage (msg : WSFrameMessage) (fin : bool) (rand_value : Z) :=
  WSSendMessage msg true fin rand_value.
End websocket.

(** ** Masking and heads *)
Lemma u8_lxor a b : in_u 8 a → in_u 8 b → in_u 8 (Z.lxor a b).
Proof.
  intros Ha Hb. assert (Z.lxor a b = uwrap 8 (Z.lxor a b)) as ->; [|apply uwrap_range; lia].
  unfold uwrap. rewrite <- Z.land_ones by lia. apply Z.bits_inj'. intros n Hn.
  rewrite Z.land_spec, Z.testbit_ones_nonneg by lia. destruct (Z.ltb_spec n 8); [by rewrite andb_true_r|].
  rewrite Z.lxor_spec, !(testbit_above 8) by (done || lia). done.
Qed.

Lemma bxor_involutive a b : bxor (bxor a b) b = a.
Proof.
  apply Z_of_byte_inj. unfold bxor. rewrite !Z_of_byte_of_Z.
  pose proof (Z_of_byte_range a). pose proof (Z_of_byte_range b).
  rewrite (uwrap_id 8 (Z.lxor (Z_of_byte a) (Z_of_byte b))) by (by apply u8_lxor).
  rewrite Z.lxor_assoc, Z.lxor_nilpotent, Z.lxor_0_r. by apply uwrap_id.
Qed.

Lemma length_apply_mask key n data : length (apply_mask key n data) = length data.
Proof. apply length_imap. Qed.

Lemma apply_mask_involutive key n data : apply_mask key n (apply_mask key n data) = data.
Proof.
  apply list_eq. intros i. unfold apply_mask. rewrite !list_lookup_imap.
  destruct (data !! i); simpl; [|done]. case_match; by rewrite ?bxor_involutive.
Qed.

Definition head_ok (h : WSFrameHead) : Prop := (0 ≤ opcode h < 16)%Z ∧ (0 ≤ payload h < 128)%Z.

Definition byte0_ok (op : nat) : bool :=
  forallb (λ f, forallb (λ r1, forallb (λ r2, forallb (λ r3,
    let b := Z_of_byte (byte_of_Z (Z.of_nat op + 16 * Z.b2z r3 + 32 * Z.b2z r2 + 64 * Z.b2z r1 + 128 * Z.b2z f)) in
    (Z.land b 15 =? Z.of_nat op)%Z && Bool.eqb (Z.testbit b 4) r3 && Bool.eqb (Z.testbit b 5) r2 &&
    Bool.eqb (Z.testbit b 6) r1 && Bool.eqb (Z.testbit b 7) f)
    [true; false]) [true; false]) [true; false]) [true; false].
Definition byte1_ok (p : nat) : bool :=
  forallb (λ m, let b := Z_of_byte (byte_of_Z (Z.of_nat p + 128 * Z.b2z m)) in
    (Z.land b 127 =? Z.of_nat p)%Z && Bool.eqb (Z.testbit b 7) m) [true; false].

Lemma heads_ok : forallb byte0_ok (seq 0 16) = true ∧ forallb byte1_ok (seq 0 128) = true.
Proof. split; vm_compute; reflexivity. Qed.

Lemma forallb_bool (f : bool → bool) x : forallb f [true; false] = true → f x = true.
Proof. simpl. rewrite andb_true_r. destruct x; by intros [? ?]%andb_true_iff. Qed.

Lemma head_of_image h rest : head_ok h → head_of (head_image h ++ rest) = h.
Proof.
  intros [Ho Hp]. destruct heads_ok as [H0 H1]. rewrite forallb_forall in H0, H1.
  specialize (H0 (Z.to_nat (opcode h)) ltac:(apply in_seq; lia)).
  specialize (H1 (Z.to_nat (payload h)) ltac:(apply in_seq; lia)).
  unfold byte0_ok, byte1_ok in H0, H1. rewrite Z2Nat.id in H0, H1 by lia.
  apply (forallb_bool _ (fin h)), (forallb_bool _ (rsv1 h)), (forallb_bool _ (rsv2 h)),
    (forallb_bool _ (rsv3 h)) in H0. apply (forallb_bool _ (mask h)) in H1.
  rewrite !andb_true_iff, !Bool.eqb_true_iff, Z.eqb_eq in *.
  destruct H0 as ((((E1 & E2) & E3) & E4) & E5), H1 as (E6 & E7).
  unfold head_of, head_image.
  cbn [app lookup list_lookup default from_option id].
  rewrite E1, E2, E3, E4, E5, E6, E7. by destruct h.
Qed.

(** ** Lengths in network order *)
Lemma network_value host n conv `{!IntConv n conv} v :
  conv v = v →
  conv (byteswapOnLittleEndian host n (conv (mem_value host (mem_image BigEndian n v)))) = v.
Proof.
  intros Hv. destruct host; cbn [byteswapOnLittleEndian mem_value mem_image].
  - unfold byteswap. rewrite conv_bytes. change (rev (le_bytes n v)) with (rev (le_bytes n v)).
    rewrite <- (length_le_bytes n v) at 1. rewrite <- (length_rev (le_bytes n v)), le_bytes_value.
    rewrite rev_involutive, le_value_bytes, conv_wrap. done.
  - rewrite rev_involutive, le_value_bytes, conv_wrap, Hv. done.
Qed.

Lemma network_image host n conv `{!IntConv n conv} v :
  mem_image host n (conv (byteswapOnLittleEndian host n v)) = mem_image BigEndian n v.
Proof.
  destruct host; cbn [byteswapOnLittleEndian mem_image]; rewrite conv_bytes; [|done].
  apply byteswap_bytes.
Qed.

(** ** Frames as RFC 6455 lays them out *)
Definition length_code (size : Z) : Z :=
  if (size <? 126)%Z then size else if (size <? 65536)%Z then 126 else 127.
Definition length_image (size : Z) : list byte :=
  if (size <? 126)%Z then []
  else if (size <? 65536)%Z then mem_image BigEndian 2 size else mem_image BigEndian 8 size.
(** A data frame: its opcode, its masking key if it has one, its data. *)
Record ws_frame := mkFrame { f_opcode : Z; f_key : option (list byte); f_data : list byte }.
Definition frame_head (fin : bool) (f : ws_frame) : WSFrameHead :=
  mkHead (f_opcode f) false false false fin (length_code (Z.of_nat (length (f_data f))))
    (bool_decide (is_Some (f_key f))).
Definition frame_payload (f : ws_frame) : list byte :=
  match f_key f with
  | Some key => key ++ apply_mask key (length (f_data f)) (f_data f)
  | None => f_data f
  end.
Definition frame_image (fin : bool) (f : ws_frame) : list byte :=
  head_image (frame_head fin f) ++ length_image (Z.of_nat (length (f_data f))) ++ frame_payload f.
Definition control_image (op : Z) : list byte := head_image (mkHead op false false false true 0 false).

(** The frames of one message: data frames before the last one, with
    control frames between them. *)
Inductive ws_item := IFrame (f : ws_frame) | IPing | IPong.
Definition is_ping (it : ws_item) : bool := match it with IPing => true | _ => false end.
Definition item_image (it : ws_item) : list byte :=
  match it with
  | IFrame f => frame_image false f
  | IPing => control_image PING
  | IPong => control_image PONG
  end.
Definition item_data (it : ws_item) : list byte :=
  match it with IFrame f => f_data f | _ => [] end.
Definition item_reply (it : ws_item) : list byte :=
  match it with IPing => control_image PONG | _ => [] end.
Definition next_opcode (op : Z) (it : ws_item) : Z :=
  match it with IFrame f => if (op =? 0)%Z then f_opcode f else op | _ => op end.

(** What a receiver accepts: [client] frames need no mask. *)
Definition frame_ok (client : bool) (f : ws_frame) : Prop :=
  f_data f ≠ [] ∧ (0 ≤ f_opcode f ≤ 2)%Z ∧
  match f_key f with Some key => length key = 4 | None => client = true end.
Definition item_ok (client : bool) (it : ws_item) : Prop :=
  match it with IFrame f => frame_ok client f | _ => True end.

Section frames.
Context {S : Type} `{!Socket S, !SocketLaws S, !SocketLive S} (host : endian).
Implicit Types s : S.

Lemma length_head_image h : length (head_image h) = 2.
Proof. done. Qed.

Lemma length_code_range size : (0 ≤ size)%Z → (0 ≤ length_code size < 128)%Z.
Proof. unfold length_code. repeat case_match; lia. Qed.

(** A whole write and a whole read on a live stream. *)
Lemma write_live bs n s :
  live s → n = Z.of_nat (length bs) → (0 < n < 2 ^ 31)%Z →
  ∃ s', writeFixSize bs n s = Ret n s' ∧ live s' ∧ incoming s' = incoming s ∧
    outgoing s' = outgoing s ++ bs.
Proof.
  intros Hlv Hn Hr.
  destruct (writeFixSize_spec bs n s) as (rt & k & s' & Hrun & Hi & Ho & _ & Hlive); [lia|lia|].
  destruct (Hlive Hlv) as (-> & -> & ?). rewrite i32_small in Hrun by lia.
  rewrite take_ge in Ho by lia. eauto.
Qed.

Lemma read_live bs rest n s :
  live s → n = Z.of_nat (length bs) → (0 < n < 2 ^ 31)%Z → incoming s = bs ++ rest →
  ∃ s', readFixSize n s = Ret (n, bs) s' ∧ live s' ∧ incoming s' = rest ∧ outgoing s' = outgoing s.
Proof.
  intros Hlv Hn Hr Hin.
  destruct (readFixSize_spec n s) as (rt & bs' & s' & Hrun & Hi & Ho & _ & Hlive); [lia|].
  destruct (Hlive Hlv) as (-> & Hl & ?); [rewrite Hin, length_app; lia|].
  rewrite Hin in Hi. apply app_inj_1 in Hi as [<- Hrest]; [|lia].
  rewrite i32_small in Hrun by lia. eauto.
Qed.

Lemma send_control_live op s :
  live s → ∃ s', send_control op s = Ret 2%Z s' ∧ live s' ∧ incoming s' = incoming s ∧
    outgoing s' = outgoing s ++ control_image op.
Proof.
  intros Hlv. unfold send_control.
  destruct (write_live (control_image op) head_size s) as (s' & Hw & ?); [done|done|done|].
  rewrite (cbind_Ret _ _ _ _ _ Hw). eauto.
Qed.

Lemma length_length_image size : length (length_image size) ≤ 8.
Proof. unfold length_image. repeat case_match; rewrite ?length_mem_image; simpl; lia. Qed.

(** The length field is read back from the image the sender gives it. *)
Lemma read_length_live h size rest s :
  live s → payload h = length_code size → (0 ≤ size < 2 ^ 63)%Z →
  incoming s = length_image size ++ rest →
  ∃ s', read_length host h s = Ret (Some size) s' ∧ live s' ∧ incoming s' = rest ∧
    outgoing s' = outgoing s.
Proof.
  intros Hlv Hp Hs Hin. unfold read_length. rewrite Hp. unfold length_code, length_image in *.
  destruct (Z.ltb_spec size 126).
  { rewrite !(proj2 (Z.eqb_neq _ _)) by lia. exists s. simpl in Hin. by rewrite <- Hin. }
  destruct (Z.ltb_spec size 65536); cbn [Z.eqb Pos.eqb].
  - destruct (read_live (mem_image BigEndian 2 size) rest 2 s) as (s' & Hr & Hrest);
      [done|by rewrite length_mem_image|lia|done|].
    rewrite (cbind_Ret _ _ _ _ _ Hr). exists s'. split; [|done]. unfold cret. simpl Z.leb. cbv iota.
    rewrite (network_value host 2 u16); [done|]. apply uwrap_id. unfold in_u. lia.
  - destruct (read_live (mem_image BigEndian 8 size) rest 8 s) as (s' & Hr & Hrest);
      [done|by rewrite length_mem_image|lia|done|].
    rewrite (cbind_Ret _ _ _ _ _ Hr). exists s'. split; [|done]. unfold cret. simpl Z.leb. cbv iota.
    rewrite (network_value host 8 u64); [done|]. apply uwrap_id. unfold in_u. lia.
Qed.

Lemma frame_head_ok fin f : (0 ≤ f_opcode f < 16)%Z → head_ok (frame_head fin f).
Proof. intros. split; [done|]. apply length_code_range. lia. Qed.

(** The frame a sender writes. *)
Definition sent_frame (msg : WSFrameMessage) (client : bool) (rand_value : Z) : ws_frame :=
  mkFrame (Z.land (m_opcode msg) 15) (if client then Some (mem_image host 4 rand_value) else None)
    (m_data msg).
Definition masked_message (msg : WSFrameMessage) (client : bool) (rand_value : Z) : WSFrameMessage :=
  if client
  then mkMessage (m_opcode msg)
         (apply_mask (mem_image host 4 rand_value) (length (m_data msg)) (m_data msg))
  else msg.

Lemma send_length_live size s :
  live s → (0 ≤ size < 2 ^ 63)%Z →
  ∃ rt s', (if (length_code size =? 126)%Z then
              writeFixSize (mem_image host 2 (u16 (byteswapOnLittleEndian host 2 (u16 size)))) 2
            else if (length_code size =? 127)%Z then
              writeFixSize (mem_image host 8 (u64 (byteswapOnLittleEndian host 8 size))) 8
            else cret 1%Z) s = Ret rt s' ∧ (0 < rt)%Z ∧ live s' ∧ incoming s' = incoming s ∧
    outgoing s' = outgoing s ++ length_image size.
Proof.
  intros Hlv Hs. unfold length_code, length_image. destruct (Z.ltb_spec size 126).
  { rewrite !(proj2 (Z.eqb_neq _ _)) by lia. exists 1%Z, s. by rewrite app_nil_r. }
  destruct (Z.ltb_spec size 65536); cbn [Z.eqb Pos.eqb].
  - rewrite (network_image host 2 u16), (uwrap_id 16) by (unfold in_u; lia).
    destruct (write_live (mem_image BigEndian 2 size) 2 s) as (s' & ? & ? & ? & ?);
      [done|by rewrite length_mem_image|lia|]. by exists 2%Z, s'.
  - rewrite (network_image host 8 u64).
    destruct (write_live (mem_image BigEndian 8 size) 8 s) as (s' & ? & ? & ? & ?);
      [done|by rewrite length_mem_image|lia|]. by exists 8%Z, s'.
Qed.

Lemma send_live msg client fin rand_value s :
  live s → m_data msg ≠ [] → (Z.of_nat (length (m_data msg)) + 2 < 2 ^ 31)%Z →
  ∃ s', WSSendMessage host msg client fin rand_value s =
      Ret (Z.of_nat (length (m_data msg)) + 2, masked_message msg client rand_value)%Z s' ∧
    live s' ∧ incoming s' = incoming s ∧
    outgoing s' = outgoing s ++ frame_image fin (sent_frame msg client rand_value).
Proof.
  intros Hlv Hne Hsize. unfold WSSendMessage, send_parts.
  assert (0 < length (m_data msg)) as Hpos by (destruct (m_data msg); simpl; [done|lia]).
  set (size := Z.of_nat (length (m_data msg))) in *.
  change (if size <? 126 then size else if size <? 65536 then 126 else 127)%Z with (length_code size).
  set (h := mkHead _ _ _ _ _ _ _).
  assert (h = frame_head fin (sent_frame msg client rand_value)) as Hh.
  { unfold h, frame_head, sent_frame. cbn [f_opcode f_key f_data]. f_equal. by destruct client. }
  destruct (write_live (head_image h) head_size s) as (s1 & H1 & Hl1 & Hi1 & Ho1); [done..|].
  rewrite cbind_assoc, (cbind_Ret _ _ _ _ _ H1). change (head_size <=? 0)%Z with false. cbv iota.
  destruct (send_length_live size s1) as (rt2 & s2 & H2 & Hp2 & Hl2 & Hi2 & Ho2); [done|lia|].
  rewrite cbind_assoc, (cbind_Ret _ _ _ _ _ H2), (proj2 (Z.leb_gt _ _)) by done. cbv iota.
  set (msg' := if client then _ else msg).
  change msg' with (masked_message msg client rand_value).
  assert (∃ rt3 s3, (if client then writeFixSize (mem_image host 4 rand_value) 4 else cret 1%Z) s2 = Ret rt3 s3 ∧
    (0 < rt3)%Z ∧ live s3 ∧ incoming s3 = incoming s2 ∧
    outgoing s3 = outgoing s2 ++ (if client then mem_image host 4 rand_value else []))
    as (rt3 & s3 & H3 & Hp3 & Hl3 & Hi3 & Ho3).
  { destruct client; [|exists 1%Z, s2; by rewrite app_nil_r].
    destruct (write_live (mem_image host 4 rand_value) 4 s2) as (s3 & ? & ? & ? & ?);
      [done|by rewrite length_mem_image|lia|]. by exists 4%Z, s3. }
  rewrite cbind_assoc, (cbind_Ret _ _ _ _ _ H3), (proj2 (Z.leb_gt _ _)) by done. cbv iota.
  assert (length (m_data (masked_message msg client rand_value)) = length (m_data msg)) as Hlen.
  { unfold masked_message. destruct client; [apply length_apply_mask|done]. }
  destruct (write_live (m_data (masked_message msg client rand_value)) size s3)
    as (s4 & H4 & Hl4 & Hi4 & Ho4); [done|by rewrite Hlen|lia|].
  rewrite cbind_assoc, (cbind_Ret _ _ _ _ _ H4), (proj2 (Z.leb_gt _ _)) by lia. cbv iota.
  exists s4. cbn. unfold head_size. rewrite i32_small by lia. split_and!; try congruence; [done|].
  rewrite Ho4, Ho3, Ho2, Ho1, Hh, <- !(assoc_L (++)). unfold frame_image. do 3 f_equal.
  unfold frame_payload, masked_message, sent_frame. by destruct client.
Qed.

Context (max_size : Z).

(** The rest of a data frame after its head. *)
Lemma read_data_live client fin f data rest s :
  live s → frame_ok client f →
  (Z.of_nat (length data + length (f_data f)) < max_size ≤ 2 ^ 31)%Z →
  incoming s = length_image (Z.of_nat (length (f_data f))) ++ frame_payload f ++ rest →
  ∃ s', read_data host max_size client (frame_head fin f) data (Z.of_nat (length data)) s =
      Ret (Some (data ++ f_data f, Z.of_nat (length (data ++ f_data f)))) s' ∧
    live s' ∧ incoming s' = rest ∧ outgoing s' = outgoing s.
Proof.
  intros Hlv (Hne & Hop & Hkey) Hmax Hin. unfold read_data.
  assert (0 < length (f_data f)) as Hpos by (destruct (f_data f); simpl; [done|lia]).
  assert (negb client && negb (mask (frame_head fin f)) = false) as ->.
  { simpl. destruct (f_key f); [by rewrite andb_false_r|by subst]. }
  destruct (read_length_live (frame_head fin f) (Z.of_nat (length (f_data f)))
              (frame_payload f ++ rest) s) as (s1 & H1 & Hl1 & Hi1 & Ho1); [done|done|lia|done|].
  rewrite (cbind_Ret _ _ _ _ _ H1).
  assert (u64 (Z.of_nat (length data) + Z.of_nat (length (f_data f))) =
          Z.of_nat (length (data ++ f_data f))) as ->.
  { rewrite length_app, Nat2Z.inj_add. apply uwrap_id. unfold in_u. lia. }
  rewrite length_app, (proj2 (Z.leb_gt _ _)) by lia.
  rewrite i32_small by lia. rewrite <- Nat2Z.inj_add, i32_small by lia.
  rewrite (proj2 (Z.ltb_ge _ _)) by lia. rewrite Nat2Z.id.
  cbn [mask frame_head]. unfold frame_payload in Hi1. destruct (f_key f) as [key|] eqn:Hk.
  - rewrite bool_decide_eq_true_2 by eauto. rewrite <- !(assoc_L (++)) in Hi1.
    destruct (read_live key (apply_mask key (length (f_data f)) (f_data f) ++ rest) 4 s1)
      as (s2 & H2 & Hl2 & Hi2 & Ho2); [done|lia|lia|done|].
    unfold cbind at 1. rewrite (cbind_Ret _ _ _ _ _ H2). unfold cret at 1. cbn [Z.leb Z.compare].
    destruct (read_live (apply_mask key (length (f_data f)) (f_data f)) rest
                (Z.of_nat (length (f_data f))) s2) as (s3 & H3 & Hl3 & Hi3 & Ho3);
      [done|by rewrite length_apply_mask|lia|done|].
    rewrite (cbind_Ret _ _ _ _ _ H3), (proj2 (Z.leb_gt _ _)) by lia.
    rewrite apply_mask_involutive. exists s3. split_and!; try done; congruence.
  - rewrite bool_decide_eq_false_2 by (by intros [? ?]).
    unfold cbind at 1, cret at 1.
    destruct (read_live (f_data f) rest (Z.of_nat (length (f_data f))) s1)
      as (s3 & H3 & Hl3 & Hi3 & Ho3); [done|done|lia|done|].
    rewrite (cbind_Ret _ _ _ _ _ H3), (proj2 (Z.leb_gt _ _)) by lia.
    exists s3. split_and!; try done; congruence.
Qed.

Definition is_data (op : Z) : bool := ((op =? CONTINUE) || (op =? TEXT_FRAME) || (op =? BIN_FRAME))%Z.

Lemma frame_opcode_is_data client f :
  frame_ok client f → (0 ≤ f_opcode f < 16)%Z ∧ (f_opcode f =? PING)%Z = false ∧
    (f_opcode f =? PONG)%Z = false ∧ is_data (f_opcode f) = true.
Proof.
  intros (_ & Hop & _). unfold is_data, PING, PONG, CONTINUE, TEXT_FRAME, BIN_FRAME.
  assert (f_opcode f = 0 ∨ f_opcode f = 1 ∨ f_opcode f = 2)%Z as [->|[->| ->]] by lia; by split_and!.
Qed.

Lemma next_opcode_eq op o :
  (if ((op =? 0) && negb (o =? CONTINUE))%Z then o else op) = (if (op =? 0)%Z then o else op).
Proof.
  unfold CONTINUE. destruct (Z.eqb_spec op 0) as [->|]; [|done].
  by destruct (Z.eqb_spec o 0) as [->|].
Qed.

(** A data frame at the head of the stream. *)
Lemma recv_frame_live fuel client fin f op data rest s :
  live s → frame_ok client f →
  (Z.of_nat (length data + length (f_data f)) < max_size ≤ 2 ^ 31)%Z →
  incoming s = frame_image fin f ++ rest →
  ∃ s', live s' ∧ incoming s' = rest ∧ outgoing s' = outgoing s ∧
    recv_loop host max_size (Datatypes.S fuel) client op data (Z.of_nat (length data)) s =
    (if fin then cret (Some (mkMessage (next_opcode op (IFrame f)) (data ++ f_data f)))
     else recv_loop host max_size fuel client (next_opcode op (IFrame f)) (data ++ f_data f)
            (Z.of_nat (length (data ++ f_data f)))) s'.
Proof.
  intros Hlv Hok Hmax Hin. unfold frame_image in Hin. rewrite <- !(assoc_L (++)) in Hin.
  destruct (frame_opcode_is_data _ _ Hok) as (Ho & Hping & Hpong & Hdata).
  destruct (read_live (head_image (frame_head fin f)) _ head_size s ltac:(done) eq_refl ltac:(done) Hin)
    as (s1 & H1 & Hl1 & Hi1 & Ho1).
  destruct (read_data_live client fin f data rest s1) as (s2 & H2 & Hl2 & Hi2 & Ho2); [done..|].
  exists s2. split_and!; try congruence.
  cbn [recv_loop]. rewrite (cbind_Ret _ _ _ _ _ H1). change (head_size <=? 0)%Z with false.
  pose proof (head_of_image (frame_head fin f) [] (frame_head_ok fin f Ho)) as Hhead.
  rewrite app_nil_r in Hhead. rewrite Hhead.
  cbn [opcode frame_head]. rewrite Hping, Hpong.
  fold (is_data (f_opcode f)). rewrite Hdata.
  rewrite (cbind_Ret _ _ _ _ _ H2), next_opcode_eq. cbn [next_opcode]. by destruct fin.
Qed.

Lemma recv_control_live fuel client it op data cur_len rest s :
  live s → it = IPing ∨ it = IPong → incoming s = item_image it ++ rest →
  ∃ s', live s' ∧ incoming s' = rest ∧ outgoing s' = outgoing s ++ item_reply it ∧
    recv_loop host max_size (Datatypes.S fuel) client op data cur_len s =
    recv_loop host max_size fuel client op data cur_len s'.
Proof.
  intros Hlv Hit Hin.
  set (o := match it with IPing => PING | _ => PONG end).
  assert (item_image it = control_image o) as Himg by (destruct Hit; by subst).
  rewrite Himg in Hin.
  destruct (read_live (control_image o) rest head_size s) as (s1 & H1 & Hl1 & Hi1 & Ho1); [done..|].
  cbn [recv_loop]. rewrite (cbind_Ret _ _ _ _ _ H1). change (head_size <=? 0)%Z with false.
  pose proof (head_of_image (mkHead o false false false true 0 false) []) as Hhead.
  rewrite app_nil_r in Hhead. fold (control_image o) in Hhead.
  destruct Hit as [-> | ->]; (rewrite Hhead by (split; done)); unfold o; cbn [opcode].
  - destruct (send_control_live PONG s1) as (s2 & H2 & Hl2 & Hi2 & Ho2); [done|].
    exists s2. split_and!; [done|congruence|by rewrite Ho2, Ho1|].
    change (PING =? PING)%Z with true. cbv iota. unfold WSPong. by rewrite (cbind_Ret _ _ _ _ _ H2).
  - exists s1. simpl. rewrite app_nil_r. by split_and!.
Qed.

(** The frames before the last one. *)
Lemma recv_items_live items fuel client op data rest s :
  live s → Forall (item_ok client) items →
  (Z.of_nat (length data + length (concat (item_data <$> items))) < max_size ≤ 2 ^ 31)%Z →
  incoming s = concat (item_image <$> items) ++ rest →
  ∃ s', live s' ∧ incoming s' = rest ∧ outgoing s' = outgoing s ++ concat (item_reply <$> items) ∧
    recv_loop host max_size (length items + fuel) client op data (Z.of_nat (length data)) s =
    recv_loop host max_size fuel client (foldl next_opcode op items)
      (data ++ concat (item_data <$> items)) (Z.of_nat (length (data ++ concat (item_data <$> items)))) s'.
Proof.
  intros Hlv Hok. revert op data s Hlv.
  induction Hok as [|it items Hit _ IH]; intros op data s Hlv Hmax Hin.
  { exists s. simpl. rewrite !app_nil_r. by split_and!. }
  csimpl in Hmax. csimpl in Hin. cbn [fmap list_fmap concat length Nat.add foldl]. rewrite length_app in Hmax. rewrite <- (assoc_L (++)) in Hin.
  assert (∃ s1, live s1 ∧ incoming s1 = concat (item_image <$> items) ++ rest ∧
    outgoing s1 = outgoing s ++ item_reply it ∧
    recv_loop host max_size (Datatypes.S (length items + fuel)) client op data (Z.of_nat (length data)) s =
    recv_loop host max_size (length items + fuel) client (next_opcode op it) (data ++ item_data it)
      (Z.of_nat (length (data ++ item_data it))) s1) as (s1 & Hl1 & Hi1 & Ho1 & ->).
  { destruct it as [f| |]; cbn [item_data item_reply next_opcode]; rewrite ?app_nil_r.
    - destruct (recv_frame_live (length items + fuel) client false f op data
                  (concat (item_image <$> items) ++ rest) s) as (s1 & ? & ? & ? & ?);
        [done|done|simpl in Hmax; lia|done|]. exists s1. by split_and!.
    - apply (recv_control_live _ _ IPing); auto.
    - rewrite <- (app_nil_r (outgoing s)). apply (recv_control_live _ _ IPong); auto. }
  destruct (IH (next_opcode op it) (data ++ item_data it) s1) as (s2 & Hl2 & Hi2 & Ho2 & Hrun);
    [done|rewrite length_app; lia|done|].
  exists s2. rewrite Hrun, Ho2, Ho1, <- !(assoc_L (++)). by split_and!.
Qed.

Lemma recv_message_live items f fuel client rest s :
  live s → Forall (item_ok client) items → frame_ok client f →
  (Z.of_nat (length (concat (item_data <$> items) ++ f_data f)) < max_size ≤ 2 ^ 31)%Z →
  incoming s = concat (item_image <$> items) ++ frame_image true f ++ rest → length items < fuel →
  ∃ s', WSRecvMessage host max_size fuel client s =
      Ret (Some (mkMessage (foldl next_opcode 0%Z (items ++ [IFrame f]))
                   (concat (item_data <$> items) ++ f_data f))) s' ∧
    live s' ∧ incoming s' = rest ∧ outgoing s' = outgoing s ++ concat (item_reply <$> items).
Proof.
  intros Hlv Hok Hf Hmax Hin Hfuel. rewrite length_app in Hmax.
  destruct (recv_items_live items (Datatypes.S (fuel - length items - 1)) client 0 []
              (frame_image true f ++ rest) s) as (s1 & Hl1 & Hi1 & Ho1 & Hrun); [done|done|simpl; lia|done|].
  replace (length items + Datatypes.S (fuel - length items - 1)) with fuel in Hrun by lia.
  destruct (recv_frame_live (fuel - length items - 1) client true f (foldl next_opcode 0%Z items)
              ([] ++ concat (item_data <$> items)) rest s1) as (s2 & ? & ? & ? & Hrun2);
    [done|done|simpl; lia|done|].
  rewrite Hrun2 in Hrun. exists s2. rewrite foldl_app. unfold WSRecvMessage.
  rewrite (cbind_Ret _ _ _ _ _ Hrun). cbn. split_and!; try congruence. done.
Qed.

(** ** Arbitrary input *)
Lemma read_any n s :
  (0 ≤ n < 2 ^ 31)%Z →
  ∃ rt bs s', readFixSize n s = Ret (rt, bs) s' ∧ incoming s' `suffix_of` incoming s ∧
    ((rt ≤ 0)%Z ∨ Z.of_nat (length bs) = n ∧ length (incoming s) = length bs + length (incoming s')).
Proof.
  intros Hn. destruct (readFixSize_spec n s) as (rt & bs & s' & Hr & Hi & _ & Hcase & _); [lia|].
  exists rt, bs, s'. split_and!; [done|by exists bs|].
  rewrite Hi, length_app. destruct Hcase as [[_ Hl]|[? _]]; [right; lia|by left].
Qed.

Lemma read_length_any h s :
  (0 ≤ payload h < 128)%Z →
  ∃ r s', read_length host h s = Ret r s' ∧ incoming s' `suffix_of` incoming s ∧
    (∀ n, r = Some n → in_u 64 n).
Proof.
  intros Hp. unfold read_length, in_u.
  destruct (payload h =? 126)%Z; [|destruct (payload h =? 127)%Z].
  - destruct (read_any 2 s) as (rt & bs & s' & Hr & Hi & _); [lia|]. rewrite (cbind_Ret _ _ _ _ _ Hr).
    destruct (rt <=? 0)%Z; eexists _, s'; (split_and!; [done|done|]); [done|].
    intros n [= <-]. pose proof (uwrap_range 16 (byteswapOnLittleEndian host 2 (u16 (mem_value host bs)))).
    unfold in_u in *. lia.
  - destruct (read_any 8 s) as (rt & bs & s' & Hr & Hi & _); [lia|]. rewrite (cbind_Ret _ _ _ _ _ Hr).
    destruct (rt <=? 0)%Z; eexists _, s'; (split_and!; [done|done|]); [done|].
    intros n [= <-]. pose proof (uwrap_range 64 (byteswapOnLittleEndian host 8 (u64 (mem_value host bs)))).
    unfold in_u in *. lia.
  - eexists _, s. split_and!; [done|done|]. intros n [= <-]. lia.
Qed.

Lemma read_data_any client h data s :
  (0 ≤ payload h < 128)%Z → (Z.of_nat (length data) < max_size ≤ 2 ^ 31)%Z →
  read_data host max_size client h data (Z.of_nat (length data)) s = Stuck OutOfBounds ∨
  ∃ r s', read_data host max_size client h data (Z.of_nat (length data)) s = Ret r s' ∧
    incoming s' `suffix_of` incoming s ∧
    match r with
    | Some (data', n) => n = Z.of_nat (length data') ∧ (n < max_size)%Z
    | None => True
    end.
Proof.
  intros Hp Hmax. unfold read_data.
  destruct (negb client && negb (mask h)); [right; by eexists None, s|].
  destruct (read_length_any h s Hp) as ([n|] & s1 & H1 & Hi1 & Hn1);
    rewrite (cbind_Ret _ _ _ _ _ H1); [|right; by eexists None, s1].
  specialize (Hn1 n eq_refl). set (cur := Z.of_nat (length data)) in *.
  destruct (Z.leb_spec max_size (u64 (cur + n))) as [Hbig|Hlt]; [right; by eexists None, s1|].
  assert (∃ key s2, (if mask h
     then let! (rt, bs) := readFixSize 4 in cret (if (rt <=? 0)%Z then None else Some bs)
     else cret (Some (replicate 4 x00))) s1 = Ret key s2 ∧ incoming s2 `suffix_of` incoming s1)
    as (key & s2 & H2 & Hi2).
  { destruct (mask h); [|by eexists _, s1].
    destruct (read_any 4 s1) as (rt & bs & s2 & Hr & ? & _); [lia|].
    rewrite (cbind_Ret _ _ _ _ _ Hr). by eexists _, s2. }
  rewrite (cbind_Ret _ _ _ _ _ H2).
  destruct key as [key|]; [|right; exists None, s2; split_and!; [done|by etrans|done]].
  destruct (Z.ltb_spec (u64 (cur + n)) cur) as [|Hle]; [by left|right].
  assert (u64 (cur + n) = (cur + n)%Z) as Hsum.
  { unfold in_u in Hn1. destruct (Z_lt_le_dec (cur + n) (2 ^ 64)); [apply uwrap_id; unfold in_u; lia|].
    exfalso. assert (u64 (cur + n) = (cur + n - 2 ^ 64)%Z); [|lia]. unfold uwrap.
    rewrite <- (Z.mod_small (cur + n - 2 ^ 64) (2 ^ 64)) by lia.
    rewrite <- (Z.mod_add (cur + n - 2 ^ 64) 1 (2 ^ 64)) by lia. f_equal. lia. }
  unfold in_u in Hn1. rewrite Hsum in *.
  destruct (read_any n s2) as (rt & bs & s3 & H3 & Hi3 & Hcase); [lia|].
  rewrite (cbind_Ret _ _ _ _ _ H3). assert (incoming s3 `suffix_of` incoming s) by (by do 2 etrans).
  destruct (Z.leb_spec rt 0); [by exists None, s3|].
  destruct Hcase as [|[Hl _]]; [lia|]. rewrite !i32_small by lia.
  eexists _, s3. split; [done|]. split; [done|]. split; [|lia].
  rewrite length_app. destruct (mask h); rewrite ?length_apply_mask; lia.
Qed.

Lemma send_control_any op s :
  ∃ v s', send_control op s = Ret v s' ∧ ((v ≤ 0)%Z ∨ incoming s' = incoming s).
Proof.
  unfold send_control. set (h := mkHead _ _ _ _ _ _ _).
  destruct (writeFixSize_spec (head_image h) head_size s) as (rt & n & s1 & Hr & Hi & _);
    [done|done|].
  rewrite (cbind_Ret _ _ _ _ _ Hr). destruct (Z.leb_spec rt 0).
  - eexists rt, _. split; [done|by left].
  - exists rt, s1. split; [done|by right].
Qed.

Lemma head_of_fields bs : (0 ≤ payload (head_of bs) < 128)%Z ∧ (0 ≤ opcode (head_of bs) < 16)%Z.
Proof.
  unfold head_of. cbn [payload opcode]. change 127%Z with (Z.ones 7). change 15%Z with (Z.ones 4).
  rewrite !Z.land_ones by lia. split; apply Z.mod_pos_bound; lia.
Qed.

Definition recv_result (s : S) (o : outcome S (option WSFrameMessage)) : Prop :=
  o = Stuck OutOfBounds ∨
  ∃ r s', o = Ret r s' ∧
    match r with
    | Some msg => incoming s' `suffix_of` incoming s ∧
        (Z.of_nat (length (m_data msg)) < max_size)%Z ∧ (0 ≤ m_opcode msg ≤ 2)%Z
    | None => True
    end.

Lemma recv_result_suffix s s1 o :
  incoming s1 `suffix_of` incoming s → recv_result s1 o → recv_result s o.
Proof.
  intros Hs [?|(r & s' & -> & Hr)]; [by left|right]. eexists r, s'. split; [done|].
  destruct r; [|done]. destruct Hr as (? & ?). split; [by etrans|done].
Qed.

Lemma recv_loop_any fuel client op data s :
  (0 ≤ op ≤ 2)%Z → (Z.of_nat (length data) < max_size ≤ 2 ^ 31)%Z → length (incoming s) < fuel →
  recv_result s (recv_loop host max_size fuel client op data (Z.of_nat (length data)) s).
Proof.
  revert op data s. induction fuel as [|fuel IH]; intros op data s Hop Hmax Hfuel; [lia|].
  cbn [recv_loop]. destruct (read_any head_size s) as (rt & bs & s1 & H1 & Hi1 & Hcase); [done|].
  rewrite (cbind_Ret _ _ _ _ _ H1). destruct (Z.leb_spec rt 0); [right; by eexists None, s1|].
  destruct Hcase as [|[Hbs Hlen]]; [lia|]. unfold head_size in Hbs.
  destruct (head_of_fields bs) as [Hpay Hopc]. set (h := head_of bs) in *.
  assert (∀ s2, incoming s2 = incoming s1 →
    recv_result s (recv_loop host max_size fuel client op data (Z.of_nat (length data)) s2)) as Hnext.
  { intros s2 E2. apply (recv_result_suffix _ s2); [by rewrite E2|]. apply IH; [done|done|rewrite E2; lia]. }
  destruct (opcode h =? PING)%Z.
  { destruct (send_control_any PONG s1) as (v & s2 & H2 & Hi2). unfold WSPong.
    rewrite (cbind_Ret _ _ _ _ _ H2). destruct (Z.leb_spec v 0); [right; by eexists None, s2|].
    apply Hnext. destruct Hi2; [lia|done]. }
  destruct (opcode h =? PONG)%Z; [by apply Hnext|].
  fold (is_data (opcode h)). destruct (is_data (opcode h)) eqn:Hd; [|by apply Hnext].
  destruct (read_data_any client h data s1 Hpay Hmax) as [Hst|(r & s2 & H2 & Hi2 & Hr)].
  { left. by rewrite (cbind_Stuck _ _ _ _ Hst). }
  rewrite (cbind_Ret _ _ _ _ _ H2). destruct r as [[data' n]|]; [|right; by eexists None, s2].
  destruct Hr as [-> Hmax']. set (op' := if (_ && _)%bool then _ else op).
  assert (0 ≤ op' ≤ 2)%Z as Hop'.
  { unfold op'. destruct ((op =? 0)%Z && _); [|done]. unfold is_data in Hd.
    unfold CONTINUE, TEXT_FRAME, BIN_FRAME in Hd. lia. }
  destruct (fin h).
  - right. eexists _, s2. split; [done|]. split_and!; [by etrans|done|apply Hop'|apply Hop'].
  - apply (recv_result_suffix _ s2); [by etrans|]. apply IH; [done|lia|].
    apply suffix_length in Hi2. lia.
Qed.

(** ** A fragmented message from one end to the other *)

(** Every fragment but the last is sent with [fin] false; each has its own
    masking key. *)
Fixpoint send_fragments (client : bool) (parts : list (WSFrameMessage * Z)) (last : WSFrameMessage * Z)
  : M S Z :=
  match parts with
  | [] => let! (rt, _) := WSSendMessage host last.1 client true last.2 in cret rt
  | part :: parts =>
    let! (rt, _) := WSSendMessage host part.1 client false part.2 in
    if (rt <=? 0)%Z then cret rt else send_fragments client parts last
  end.
Definition part_frame (client : bool) (part : WSFrameMessage * Z) : ws_frame :=
  sent_frame part.1 client part.2.
Definition part_ok (part : WSFrameMessage * Z) : Prop :=
  m_data part.1 ≠ [] ∧ (0 ≤ m_opcode part.1 ≤ 2)%Z ∧
  (Z.of_nat (length (m_data part.1)) + 2 < 2 ^ 31)%Z.

Lemma part_frame_ok client part : part_ok part → frame_ok (negb client) (part_frame client part).
Proof.
  intros (Hne & Hop & _). split_and!; try done.
  1-2: simpl; change 15%Z with (Z.ones 4); rewrite Z.land_ones, Z.mod_small; lia.
  unfold part_frame, sent_frame. destruct client; cbn [f_key]; [apply length_mem_image|done].
Qed.
Lemma part_frame_opcode client part : part_ok part → f_opcode (part_frame client part) = m_opcode part.1.
Proof.
  intros (_ & Hop & _). simpl. change 15%Z with (Z.ones 4). rewrite Z.land_ones, Z.mod_small; lia.
Qed.

Lemma send_fragments_live client parts last s :
  live s → Forall part_ok parts → part_ok last →
  ∃ s', send_fragments client parts last s = Ret (Z.of_nat (length (m_data last.1)) + 2)%Z s' ∧
    live s' ∧ incoming s' = incoming s ∧
    outgoing s' = outgoing s ++ concat (item_image ∘ IFrame ∘ part_frame client <$> parts) ++
                    frame_image true (part_frame client last).
Proof.
  intros Hlv Hok Hlast. revert s Hlv.
  induction Hok as [|part parts (Hne & _ & Hsz) _ IH]; intros s Hlv; cbn [send_fragments].
  - destruct Hlast as (Hne & _ & Hsz).
    destruct (send_live last.1 client true last.2 s) as (s' & Hr & ?); [done..|].
    rewrite (cbind_Ret _ _ _ _ _ Hr). by exists s'.
  - destruct (send_live part.1 client false part.2 s) as (s1 & Hr & Hl1 & Hi1 & Ho1); [done..|].
    rewrite (cbind_Ret _ _ _ _ _ Hr). rewrite (proj2 (Z.leb_gt _ _)) by lia.
    destruct (IH s1 Hl1) as (s2 & Hr2 & Hl2 & Hi2 & Ho2). exists s2.
    rewrite Hr2, Ho2, Ho1. split_and!; try congruence. cbn [fmap list_fmap concat]. by rewrite <- !(assoc_L (++)).
Qed.

(** The opcode of a message is that of its first non-continuation frame. *)
Definition first_opcode (ops : list Z) : Z := foldl (λ op o, if (op =? 0)%Z then o else op) 0%Z ops.

Lemma fragments_opcode client parts op :
  Forall part_ok parts →
  foldl next_opcode op (IFrame ∘ part_frame client <$> parts) =
  foldl (λ op o, if (op =? 0)%Z then o else op) op ((λ p, m_opcode p.1) <$> parts).
Proof.
  intros Hok. revert op. induction Hok as [|p parts Hp _ IH]; intros op; [done|].
  cbn [fmap list_fmap foldl]. rewrite IH. f_equal. cbn [next_opcode compose].
  by rewrite part_frame_opcode.
Qed.

(** C12: A message survives the wire. On a live stream one end sends a
    message in any number of non-empty fragments, each masked with its own
    key when the sender is a client; every call reports success. When the
    other end's input starts with these bytes, WSRecvMessage returns the
    concatenation of the fragments with the first opcode, whatever sizes
    recv delivers, and leaves the bytes that follow. *)
Theorem ws_message_roundtrip client parts last s1 s2 fuel rest :
  live s1 → live s2 → Forall part_ok parts → part_ok last →
  (Z.of_nat (length (concat ((λ p, m_data p.1) <$> parts ++ [last]))) < max_size ≤ 2 ^ 31)%Z →
  length parts < fuel →
  ∃ s1', send_fragments client parts last s1 = Ret (Z.of_nat (length (m_data last.1)) + 2)%Z s1' ∧
    (outgoing s1 ++ incoming s2 = outgoing s1' ++ rest →
     ∃ s2', WSRecvMessage host max_size fuel (negb client) s2 =
         Ret (Some (mkMessage (first_opcode ((λ p, m_opcode p.1) <$> parts ++ [last]))
                      (concat ((λ p, m_data p.1) <$> parts ++ [last])))) s2' ∧
       incoming s2' = rest ∧ live s2').
Proof.
  intros Hl1 Hl2 Hok Hlast Hmax Hfuel.
  destruct (send_fragments_live client parts last s1) as (s1' & Hr & _ & _ & Ho); [done..|].
  exists s1'. split; [done|]. intros Hin. rewrite Ho, <- (assoc_L (++)) in Hin.
  apply (inj (app _)) in Hin. rewrite <- (assoc_L (++)) in Hin.
  set (items := IFrame ∘ part_frame client <$> parts).
  assert (concat (item_data <$> items) = concat ((λ p, m_data p.1) <$> parts)) as Hdata.
  { unfold items. by rewrite <- list_fmap_compose. }
  assert (concat ((λ p, m_data p.1) <$> parts ++ [last]) =
          concat ((λ p, m_data p.1) <$> parts) ++ m_data last.1) as Hcat.
  { rewrite fmap_app, concat_app. simpl. by rewrite app_nil_r. }
  rewrite Hcat in *.
  destruct (recv_message_live items (part_frame client last) fuel (negb client) rest s2)
    as (s2' & Hrecv & ? & ? & _); [done| |by apply part_frame_ok|by rewrite Hdata| |by unfold items; rewrite length_fmap|].
  { unfold items. apply Forall_fmap. eapply Forall_impl; [|done]. intros p. apply part_frame_ok. }
  { unfold items. by rewrite <- list_fmap_compose. }
  exists s2'. split_and!; [|done|done]. rewrite Hrecv, Hdata. do 3 f_equal.
  unfold first_opcode. rewrite fmap_app, !foldl_app. unfold items. rewrite fragments_opcode by done.
  cbn [foldl fmap list_fmap next_opcode]. by rewrite part_frame_opcode.
Qed.

(** A receiver reassembles a message whose data frames are interleaved
    with PINGs and PONGs: it answers each PING with one PONG, in order,
    ignores the PONGs, returns exactly the data of the frames, and reads
    nothing past the final frame. *)
Theorem ws_interleaved_control items f client rest s fuel :
  live s → Forall (item_ok client) items → frame_ok client f →
  (Z.of_nat (length (concat (item_data <$> items) ++ f_data f)) < max_size ≤ 2 ^ 31)%Z →
  incoming s = concat (item_image <$> items) ++ frame_image true f ++ rest → length items < fuel →
  ∃ s', WSRecvMessage host max_size fuel client s =
      Ret (Some (mkMessage (foldl next_opcode 0%Z (items ++ [IFrame f]))
                   (concat (item_data <$> items) ++ f_data f))) s' ∧
    incoming s' = rest ∧
    outgoing s' = outgoing s ++
      concat (replicate (length (List.filter is_ping items)) (control_image PONG)).
Proof.
  intros Hlv Hok Hf Hmax Hin Hfuel.
  destruct (recv_message_live items f fuel client rest s) as (s' & Hr & _ & Hi & Ho); [done..|].
  exists s'. split_and!; [done|done|]. rewrite Ho. f_equal. clear.
  induction items as [|[fr| |] items IH]; [done|exact IH| |exact IH].
  cbn [fmap list_fmap concat List.filter is_ping length replicate item_reply]. by rewrite IH.
Qed.

(** Receiving terminates on any input and any socket behaviour: with at
    most as many rounds as there are bytes to read, it returns a message of
    fewer than max_size bytes with a data opcode, having consumed a prefix
    of the input, or it closes the stream and returns null. The one other
    outcome is an access past the end of the string. *)
Theorem ws_recv_total client s fuel :
  (0 < max_size ≤ 2 ^ 31)%Z → length (incoming s) < fuel →
  WSRecvMessage host max_size fuel client s = Stuck OutOfBounds ∨
  (∃ s', WSRecvMessage host max_size fuel client s = Ret None (sock_close s')) ∨
  (∃ msg s', WSRecvMessage host max_size fuel client s = Ret (Some msg) s' ∧
     incoming s' `suffix_of` incoming s ∧ (Z.of_nat (length (m_data msg)) < max_size)%Z ∧
     (0 ≤ m_opcode msg ≤ 2)%Z).
Proof.
  intros Hmax Hfuel. unfold WSRecvMessage.
  destruct (recv_loop_any fuel client 0 [] s) as [Hst|(r & s' & Hr & Hcase)]; [lia|simpl; lia|done|..].
  - left. by rewrite (cbind_Stuck _ _ _ _ Hst).
  - right. rewrite (cbind_Ret _ _ _ _ _ Hr). destruct r as [msg|]; [right|left; by exists s'].
    exists msg, s'. by split.
Qed.

Lemma send_empty op client fin rand_value s :
  live s →
  ∃ s1, WSSendMessage host (mkMessage op []) client fin rand_value s =
      Ret (-1, mkMessage op [])%Z (sock_close s1) ∧
    outgoing s1 = outgoing s ++ frame_image fin (sent_frame (mkMessage op []) client rand_value).
Proof.
  intros Hl. unfold WSSendMessage, send_parts. cbn [m_data m_opcode length].
  change (Z.of_nat 0) with 0%Z. cbn [Z.ltb Z.compare]. set (h := mkHead _ _ _ _ _ _ _).
  assert (h = frame_head fin (sent_frame (mkMessage op []) client rand_value)) as Hh.
  { unfold h, frame_head. cbn. by destruct client. }
  destruct (write_live (head_image h) head_size s) as (s1 & H1 & Hl1 & Hi1 & Ho1); [done..|].
  rewrite cbind_assoc, (cbind_Ret _ _ _ _ _ H1). change (head_size <=? 0)%Z with false. cbv iota.
  unfold frame_image. rewrite <- Hh. destruct client.
  - destruct (write_live (mem_image host 4 rand_value) 4 s1) as (s2 & H2 & Hl2 & Hi2 & Ho2);
      [done|by rewrite length_mem_image|lia|].
    exists s2. split; [unfold cbind, cret; cbn -[writeFixSize mem_image]; by rewrite H2|].
    rewrite Ho2, Ho1, <- (assoc_L (++)). cbn -[mem_image head_image]. by rewrite app_nil_r.
  - exists s1. by split.
Qed.

Lemma recv_empty op key fin fuel rest s :
  live s → (0 ≤ op ≤ 2)%Z → length key = 4 → (0 < max_size)%Z →
  incoming s = frame_image fin (mkFrame op (Some key) []) ++ rest →
  ∃ s', WSRecvMessage host max_size (Datatypes.S fuel) false s = Ret None (sock_close s') ∧
    incoming s' = rest.
Proof.
  intros Hl Hop Hkey Hmax Hin. set (f := mkFrame op (Some key) []) in *.
  unfold frame_image in Hin. rewrite <- !(assoc_L (++)) in Hin.
  destruct (read_live (head_image (frame_head fin f)) _ head_size s ltac:(done) eq_refl ltac:(done) Hin)
    as (s3 & H3 & Hl3 & Hi3 & Ho3).
  destruct (read_live key rest 4 s3) as (s4 & H4 & Hl4 & Hi4 & Ho4); [done|lia|lia| |].
  { rewrite Hi3. cbn. by rewrite app_nil_r. }
  exists s4. split; [|done]. unfold WSRecvMessage. cbn [recv_loop].
  rewrite cbind_assoc, (cbind_Ret _ _ _ _ _ H3). change (head_size <=? 0)%Z with false. cbv iota.
  pose proof (head_of_image (frame_head fin f) []) as Hhead. rewrite app_nil_r in Hhead.
  rewrite Hhead by (apply frame_head_ok; unfold f; simpl; lia). cbn [opcode frame_head f_opcode f].
  assert ((op =? PING)%Z = false ∧ (op =? PONG)%Z = false ∧ is_data op = true) as (-> & -> & Hd).
  { unfold PING, PONG, is_data, CONTINUE, TEXT_FRAME, BIN_FRAME. lia. }
  fold (is_data op). rewrite Hd.
  assert (read_data host max_size false (frame_head fin f) [] 0 s3 = Ret None s4) as Hrd; [|by unfold cbind; rewrite Hrd].
  unfold read_data. change (read_length host (frame_head fin f)) with (@cret S _ (Some 0%Z)).
  unfold cbind, cret. cbn [negb andb mask frame_head f f_key]. change (u64 (0 + 0)) with 0%Z.
  rewrite (proj2 (Z.leb_gt _ _)) by done. rewrite bool_decide_eq_true_2 by eauto. cbn [negb]. by rewrite H4.
Qed.

(** Empty messages do not work. WSSendMessage of a message without data
    puts the whole frame on the wire, then takes the 0 that writeFixSize
    returns for it as an error, closes the stream and returns -1; likewise
    a server that gets a frame without data closes the stream. *)
Theorem ws_empty_message op client key fin s fuel rest s2 :
  live s → live s2 → (0 ≤ op ≤ 2)%Z → length key = 4 → (0 < max_size)%Z →
  incoming s2 = frame_image fin (mkFrame op (Some key) []) ++ rest →
  (∃ s1, WSSendMessage host (mkMessage op []) client fin (le_value key) s =
       Ret (-1, mkMessage op [])%Z (sock_close s1) ∧
     outgoing s1 = outgoing s ++ frame_image fin (sent_frame (mkMessage op []) client (le_value key))) ∧
  (∃ s2', WSRecvMessage host max_size (Datatypes.S fuel) false s2 = Ret None (sock_close s2') ∧
     incoming s2' = rest).
Proof. intros. split; [by apply send_empty|by eapply recv_empty]. Qed.
End frames.

(** ** On the concrete wire *)
Definition ws_max : Z := 33554432.

(** The size check adds an int to the 64-bit length of the frame and can
    wrap around. A one-byte fragment followed by a frame that announces
    2^64 - 1 bytes passes it; the string is then cut to 0 bytes and the
    code takes the address of its byte 1, past its end. *)
Theorem ws_length_overflow :
  WSRecvMessage LittleEndian ws_max 30 false
    (mkWire ([x01; x81; x00; x00; x00; x00; x61] ++
             [x80; xff] ++ replicate 8 xff ++ [x00; x00; x00; x00]) [] 64 true)
  = Stuck OutOfBounds.
Proof. vm_compute. reflexivity. Qed.

Definition ws_sender : wire := mkWire [] [] 3 true.
Definition ws_parts : list (WSFrameMessage * Z) := [(mkMessage TEXT_FRAME [x48; x65], 305419896%Z)].
Definition ws_last : WSFrameMessage * Z := (mkMessage CONTINUE [x6c; x6c; x6f], 19088743%Z).
(** The bytes of the two frames, and two more that follow them. *)
Definition ws_bytes : list byte :=
  concat (item_image ∘ IFrame ∘ part_frame LittleEndian true <$> ws_parts) ++
  frame_image true (part_frame LittleEndian true ws_last).
Definition ws_receiver : wire := mkWire (ws_bytes ++ [x01; x02]) [] 2 true.

Lemma ws_parts_ok : Forall part_ok ws_parts ∧ part_ok ws_last.
Proof. split; [apply Forall_singleton|]; (split_and!; [done|cbv; congruence..|done]). Qed.

Lemma ws_message_roundtrip_witness :
  ∃ s1', send_fragments LittleEndian true ws_parts ws_last ws_sender = Ret 5%Z s1' ∧
    (outgoing ws_sender ++ incoming ws_receiver = outgoing s1' ++ [x01; x02] →
     ∃ s2', WSRecvMessage LittleEndian ws_max 9 false ws_receiver =
         Ret (Some (mkMessage TEXT_FRAME [x48; x65; x6c; x6c; x6f])) s2' ∧
       incoming s2' = [x01; x02] ∧ live s2').
Proof.
  apply (ws_message_roundtrip LittleEndian ws_max true ws_parts ws_last ws_sender ws_receiver 9 [x01; x02]);
    [split; [done|simpl; lia]..|apply ws_parts_ok|apply ws_parts_ok|by vm_compute|simpl; lia].
Defined.

(** The hypothesis on the bytes is what the sender does. *)
Example ws_roundtrip_bytes :
  send_fragments LittleEndian true ws_parts ws_last ws_sender = Ret 5%Z (mkWire [] ws_bytes 3 true).
Proof. vm_compute. reflexivity. Qed.

Definition ws_items : list ws_item :=
  [IPing; IFrame (mkFrame TEXT_FRAME (Some [x11; x22; x33; x44]) [x48; x65]); IPong; IPing].
Definition ws_final : ws_frame := mkFrame CONTINUE (Some [x01; x02; x03; x04]) [x6c].
Definition ws_talker : wire :=
  mkWire (concat (item_image <$> ws_items) ++ frame_image true ws_final ++ [x99]) [] 2 true.

Lemma ws_interleaved_control_witness :
  ∃ s', WSRecvMessage LittleEndian ws_max 9 false ws_talker =
      Ret (Some (mkMessage TEXT_FRAME [x48; x65; x6c])) s' ∧
    incoming s' = [x99] ∧
    outgoing s' = outgoing ws_talker ++ concat (replicate 2 (control_image PONG)).
Proof.
  apply (ws_interleaved_control LittleEndian ws_max ws_items ws_final false [x99] ws_talker 9);
    [split; [done|simpl; lia]| | |by vm_compute|done|simpl; lia].
  - repeat constructor; simpl; try done.
  - by split_and!.
Defined.

Lemma ws_recv_total_witness :
  WSRecvMessage LittleEndian ws_max 40 false ws_talker = Stuck OutOfBounds ∨
  (∃ s', WSRecvMessage LittleEndian ws_max 40 false ws_talker = Ret None (sock_close s')) ∨
  (∃ msg s', WSRecvMessage LittleEndian ws_max 40 false ws_talker = Ret (Some msg) s' ∧
     incoming s' `suffix_of` incoming ws_talker ∧ (Z.of_nat (length (m_data msg)) < ws_max)%Z ∧
     (0 ≤ m_opcode msg ≤ 2)%Z).
Proof. apply (ws_recv_total LittleEndian ws_max false ws_talker 40); [done|vm_compute; lia]. Defined.

Definition ws_empty_wire : wire :=
  mkWire (frame_image true (mkFrame TEXT_FRAME (Some [x01; x02; x03; x04]) []) ++ [x77]) [] 8 true.

Lemma ws_empty_message_witness :
  (∃ s1, WSSendMessage LittleEndian (mkMessage TEXT_FRAME []) true true (le_value [x01; x02; x03; x04]) ws_sender =
       Ret (-1, mkMessage TEXT_FRAME [])%Z (sock_close s1) ∧
     outgoing s1 = outgoing ws_sender ++
       frame_image true (sent_frame LittleEndian (mkMessage TEXT_FRAME []) true (le_value [x01; x02; x03; x04]))) ∧
  (∃ s2', WSRecvMessage LittleEndian ws_max 4 false ws_empty_wire = Ret None (sock_close s2') ∧
     incoming s2' = [x77]).
Proof.
  apply (ws_empty_message LittleEndian ws_max TEXT_FRAME true [x01; x02; x03; x04] true ws_sender 3 [x77] ws_empty_wire);
    [split; [done|simpl; lia]..|done|done|done|done].
Defined.
