(* ===== verification/Bitmap.v ===== *)
(** * Bitmaps (Sylar/DataStructure/bitmap.h, bitmap.cc)

    The class with its default word type, uint16_t: a word holds 14 bits of
    the map; in a compressed map its two top bits tell a run from a literal.
    This file has the data, every operation, and the theorems on single
    bits and whole-map operations of uncompressed maps. *)
From Stdlib Require Import ZArith Lia Strings.Byte.
From stdpp Require Import base list list_numbers numbers.
From S2P Require Import Prelude ByteArray Codec.

Ltac Zify.zify_post_hook ::= Z.div_mod_to_equations.

Definition VALUE_SIZE : Z := 14.
Definition COMPRESS_MASK : Z := 32768.
Definition VALUE_MASK : Z := 16384.
Definition COUNT_MASK : Z := 16383.
Definition NOT_VALUE_MASK : Z := u16 (Z.lnot VALUE_MASK).
Definition U64_DIV_BASE : Z := 4.
Definition U64_VALUE_SIZE : Z := 56.

(** The tables init() fills. *)
Definition POS (i : Z) : Z := Z.shiftl 1 i.
Definition NPOS (i : Z) : Z := u16 (Z.lnot (POS i)).
Definition MASK (i : Z) : Z := (POS i - 1)%Z.

(** [bm_data] is what m_data points to, [None] for NULL. Its length is the
    size of the allocation, which resize can leave larger than m_dataSize. *)
Record Bitmap := mkBitmap {
  bm_compress : bool; bm_size : Z; bm_dataSize : Z; bm_data : option (list Z)
}.
Definition words (b : Bitmap) : list Z := default [] (bm_data b).
Definition set_words (ws : list Z) (b : Bitmap) : Bitmap :=
  mkBitmap (bm_compress b) (bm_size b) (bm_dataSize b) (Some ws).

(** [x != 0], and [ceil(size * 1.0 / VALUE_SIZE)] *)
Definition truthy (z : Z) : bool := negb (z =? 0)%Z.
Definition data_size (size : Z) : Z := ((size + VALUE_SIZE - 1) / VALUE_SIZE)%Z.

(** Bitmap(size, def): memset fills both bytes of each word. *)
Definition Bitmap_new (size def : Z) : Bitmap :=
  let n := data_size size in
  mkBitmap false size n (if truthy n then Some (replicate (Z.to_nat n) (def + 256 * def)%Z) else None).
(** Bitmap(), the copy constructor and operator= (which does nothing when
    an object is assigned to itself) *)
Definition Bitmap_empty : Bitmap := mkBitmap true 0 0 None.
Definition Bitmap_copy (b : Bitmap) : Bitmap :=
  mkBitmap (bm_compress b) (bm_size b) (bm_dataSize b) (Some (take (Z.to_nat (bm_dataSize b)) (words b))).
Definition bm_assign (same_object : bool) (b : Bitmap) : M Bitmap unit :=
  if same_object then cret tt else cput (Bitmap_copy b).

(** ** Access to the words, one by one and four at a time

    [((uint64_t* )m_data)[i]] is words [4i .. 4i+3]. The operations used on
    it do not depend on their order; the low word comes first here. *)
Definition word (b : Bitmap) (i : Z) : option Z :=
  if (0 <=? i)%Z then words b !! Z.to_nat i else None.
Definition load {S} (b : Bitmap) (i : Z) : M S Z := cinbounds (word b i).
Definition store (i w : Z) : M Bitmap unit := λ b,
  match word b i with
  | Some _ => Ret tt (set_words (<[Z.to_nat i := w]> (words b)) b)
  | None => Stuck OutOfBounds
  end.

Definition dvalue (w0 w1 w2 w3 : Z) : Z :=
  (w0 + Z.shiftl w1 16 + Z.shiftl w2 32 + Z.shiftl w3 48)%Z.
Definition piece (k v : Z) : Z := u16 (Z.shiftr v (16 * k)).
Definition load64 {S} (b : Bitmap) (i : Z) : M S Z :=
  let! w0 := load b (4 * i) in
  let! w1 := load b (4 * i + 1) in
  let! w2 := load b (4 * i + 2) in
  let! w3 := load b (4 * i + 3) in
  cret (dvalue w0 w1 w2 w3).
Definition store64 (i v : Z) : M Bitmap unit :=
  cfor [0; 1; 2; 3]%Z (λ k, store (4 * i + k) (piece k v)).

(** ** Single bits *)
Definition bm_get {S} (b : Bitmap) (idx : Z) : M S bool :=
  let! w := load b (idx / VALUE_SIZE) in cret (truthy (Z.land w (POS (idx mod VALUE_SIZE)))).
Definition bm_set (idx : Z) (v : bool) : M Bitmap unit :=
  let cur := (idx / VALUE_SIZE)%Z in
  let pos := (idx mod VALUE_SIZE)%Z in
  let! b := cget in
  let! w := load b cur in
  store cur (if v then Z.lor w (POS pos) else Z.land w (NPOS pos)).

(** set(from, size, v) and get(from, size, v): whole words *)
Definition set_range (from size : Z) (v : bool) : M Bitmap unit :=
  if (size =? 0)%Z then cret tt else
  let cur_from := (from / VALUE_SIZE)%Z in
  let cur_to := (u32 (from + size) / VALUE_SIZE)%Z in
  let! _ := cassert (from mod VALUE_SIZE =? 0)%Z in
  let! _ := cassert (u32 (from + size) mod VALUE_SIZE =? 0)%Z in
  cfor (seqZ cur_from (cur_to - cur_from)) (λ i, store i (if v then COUNT_MASK else 0%Z)).
Definition get_range {S} (b : Bitmap) (from size : Z) (v : bool) : M S bool :=
  if (size =? 0)%Z then cret false else
  let cur_from := (from / VALUE_SIZE)%Z in
  let cur_to := (u32 (from + size) / VALUE_SIZE)%Z in
  let! _ := cassert (from mod VALUE_SIZE =? 0)%Z in
  let! _ := cassert (u32 (from + size) mod VALUE_SIZE =? 0)%Z in
  let! (none, _) := cfold (seqZ cur_from (cur_to - cur_from)) tt (λ i _,
    let! w := load b i in
    cret (if v then negb (truthy (Z.land w COUNT_MASK)) else truthy (Z.land w COUNT_MASK), tt)) in
  cret (negb none).

(** ** Reading a compressed map

    &=, |=, uncompress and compressCross share this loop over the words of
    a compressed map: words of one run are gathered into its length, 14
    bits each, the low bits first. *)
Inductive segment := Run (v : bool) (count : Z) | Literal (w : Z).
Definition is_run (w : Z) : bool := truthy (Z.land w COMPRESS_MASK).
Definition run_value (w : Z) : bool := truthy (Z.land w VALUE_MASK).

Fixpoint run_count {S} (ws : list Z) (v : bool) (k count : Z) : M S (Z * list Z) :=
  match ws with
  | [] => cret (count, [])
  | w :: ws' =>
    if is_run w && Bool.eqb v (run_value w) then
      if (32 <=? VALUE_SIZE * k)%Z then cstuck BadShift
      else run_count ws' v (k + 1)
             (Z.lor (u32 (Z.shiftl (Z.land w COUNT_MASK) (VALUE_SIZE * k))) count)
    else cret (count, ws)
  end.

(** [body] gets the position and the segment, and says whether to leave. *)
Fixpoint each_segment {S} (fuel : nat) (ws : list Z) (cur_pos : Z) (body : Z → segment → M S bool)
  : M S bool :=
  match ws with
  | [] => cret false
  | w :: ws' =>
    match fuel with
    | O => cstuck OutOfFuel
    | Datatypes.S fuel =>
      if is_run w then
        let! (count, rest) := run_count ws' (run_value w) 1 (Z.land w COUNT_MASK) in
        let! stop := body cur_pos (Run (run_value w) count) in
        if stop : bool then cret true else each_segment fuel rest (u32 (cur_pos + count)) body
      else
        let! stop := body cur_pos (Literal (Z.land w COUNT_MASK)) in
        if stop : bool then cret true else each_segment fuel ws' (u32 (cur_pos + VALUE_SIZE)) body
    end
  end.

(** The words [m_data[0 .. m_dataSize)] *)
Definition stored {S} (b : Bitmap) : M S (list Z) :=
  if (bm_dataSize b <=? Z.of_nat (length (words b)))%Z
  then cret (take (Z.to_nat (bm_dataSize b)) (words b)) else cstuck OutOfBounds.
Definition segments_of {S} (b : Bitmap) (body : Z → segment → M S bool) : M S bool :=
  let! ws := stored b in each_segment (length ws) ws 0 body.

(** ** Whole-map operations *)
Definition bitop (f : Z → Z → Z) (b : Bitmap) : M Bitmap unit :=
  let! this := cget in
  let max_size := (bm_size this / U64_VALUE_SIZE)%Z in
  let! _ := cfor (seqZ 0 max_size) (λ i,
    let! this := cget in
    let! x := load64 this i in
    let! y := load64 b i in
    store64 i (f x y)) in
  cfor (seqZ (max_size * U64_DIV_BASE) (bm_dataSize this - max_size * U64_DIV_BASE)) (λ i,
    let! this := cget in
    let! x := load this i in
    let! y := load b i in
    store i (f x y)).
Definition combine_word (f : Z → Z → Z) (cur_pos w : Z) : M Bitmap bool :=
  let! this := cget in
  let! x := load this (cur_pos / VALUE_SIZE) in
  let! _ := store (cur_pos / VALUE_SIZE) (f x w) in
  cret false.

(** The guards of operator&= and operator|=. *)
Definition binary (f : Z → Z → Z) (on_run : Z → bool → Z → M Bitmap unit) (b : Bitmap) : M Bitmap unit :=
  let! this := cget in
  if negb (bm_size this =? bm_size b)%Z then cthrow LogicError
  else if negb (bm_compress this) && negb (bm_compress b) then bitop f b
  else if xorb (bm_compress this) (bm_compress b) then
    if bm_compress this then cthrow LogicError
    else
      let! _ := segments_of b (λ cur_pos seg,
        match seg with
        | Run v count => let! _ := on_run cur_pos v count in cret false
        | Literal w => combine_word f cur_pos w
        end) in
      cret tt
  else cthrow LogicError.

(** operator&= and operator|=, operator& and operator| *)
Definition and_assign : Bitmap → M Bitmap unit :=
  binary Z.land (λ cur_pos v count, if negb v then set_range cur_pos count false else cret tt).
Definition or_assign : Bitmap → M Bitmap unit :=
  binary Z.lor (λ cur_pos v count, if v then set_range cur_pos count true else cret tt).
Definition on_copy {S} (m : M Bitmap unit) (b : Bitmap) : M S Bitmap := λ s,
  match m (Bitmap_copy b) with Ret _ t => Ret t s | Exn e _ => Exn e s | Stuck r => Stuck r end.
Definition bm_and {S} (a b : Bitmap) : M S Bitmap := on_copy (and_assign b) a.
Definition bm_or {S} (a b : Bitmap) : M S Bitmap := on_copy (or_assign b) a.

(** operator~ *)
Definition not_word (cur : Z) : Z :=
  if is_run cur
  then if run_value cur then Z.land cur NOT_VALUE_MASK else Z.lor cur VALUE_MASK
  else Z.land (u16 (Z.lnot cur)) COUNT_MASK.
Definition bm_not : M Bitmap unit :=
  let! this := cget in
  if negb (bm_compress this) then
    let max_size := (bm_size this / U64_VALUE_SIZE)%Z in
    let! _ := cfor (seqZ 0 max_size) (λ i,
      let! this := cget in
      let! x := load64 this i in store64 i (u64 (Z.lnot x))) in
    cfor (seqZ (max_size * U64_DIV_BASE) (bm_dataSize this - max_size * U64_DIV_BASE)) (λ i,
      let! this := cget in
      let! x := load this i in store i (u16 (Z.lnot x)))
  else
    cfor (seqZ 0 (bm_dataSize this)) (λ i,
      let! this := cget in
      let! x := load this i in store i (not_word x)).

(** operator==, of two different objects *)
Definition bm_eq {S} (a b : Bitmap) : M S bool :=
  if xorb (bm_compress a) (bm_compress b) || negb (bm_size a =? bm_size b)%Z
     || negb (bm_dataSize a =? bm_dataSize b)%Z then cret false else
  let! wa := stored a in
  let! wb := stored b in
  if bool_decide (wa ≠ wb) then cret false else
  let left := (bm_size a mod VALUE_SIZE)%Z in
  if truthy left then
    let! x := load a (bm_dataSize a - 1) in
    let! y := load b (bm_dataSize b - 1) in
    cret (Z.land x (MASK left) =? Z.land y (MASK left))%Z
  else cret true.

(** resize *)
Definition bm_resize (size : Z) (v : bool) : M Bitmap unit :=
  let! this := cget in
  if bm_compress this then cthrow LogicError else
  let len := data_size size in
  let! _ := if (bm_dataSize this <? len)%Z then
      let! old := stored this in
      let! _ := cput (set_words (old ++ replicate (Z.to_nat (len - bm_dataSize this))
                                   (if v then 65535 else 0)%Z) this) in
      let left := (bm_size this mod VALUE_SIZE)%Z in
      let! this := cget in
      let! w := load this (bm_dataSize this - 1) in
      store (bm_dataSize this - 1) (if v then Z.lor w (MASK left) else Z.land w (MASK left))
    else cret tt in
  cmodify (λ b, mkBitmap (bm_compress b) size len (bm_data b)).

(** ** The map as a set of bits *)
Definition wordv (b : Bitmap) (i : Z) : Z := default 0%Z (word b i).
Definition bit (b : Bitmap) (i : Z) : bool := Z.testbit (wordv b (i / VALUE_SIZE)) (i mod VALUE_SIZE).
(** The set bits in order. *)
Definition positions (b : Bitmap) : list Z := filter (λ i, bit b i = true) (seqZ 0 (bm_size b)).

(** An uncompressed map in its allocation; [tidy] when no bit outside the
    map is set in its words. *)
Record bm_wf (b : Bitmap) : Prop := {
  wf_plain : bm_compress b = false;
  wf_range : (0 ≤ bm_size b < 2 ^ 32 - 64)%Z;
  wf_dataSize : bm_dataSize b = data_size (bm_size b);
  wf_alloc : (bm_dataSize b ≤ Z.of_nat (length (words b)))%Z;
  wf_words : Forall (in_u 16) (words b)
}.
Definition tidy (b : Bitmap) : Prop :=
  ∀ k j, (0 ≤ k < bm_dataSize b)%Z → (0 ≤ j)%Z → Z.testbit (wordv b k) j = true →
    (j < VALUE_SIZE ∧ VALUE_SIZE * k + j < bm_size b)%Z.
(** No bit above the 14 of the map in any word. *)
Definition clean (b : Bitmap) : Prop :=
  ∀ k, (0 ≤ k < bm_dataSize b)%Z → in_u 14 (wordv b k).

(** [b'] is [b] with its words from [lo] to [hi] changed by [g]. *)
Definition shape (b : Bitmap) : bool * Z * Z * nat :=
  (bm_compress b, bm_size b, bm_dataSize b, length (words b)).
Record updates (lo hi : Z) (g : Z → Z → Z) (b b' : Bitmap) : Prop := {
  upd_shape : shape b' = shape b;
  upd_word j : word b' j = if ((lo <=? j) && (j <? hi))%Z then g j <$> word b j else word b j
}.

Section updates.
Local Open Scope Z_scope.
Implicit Types b : Bitmap.

Lemma shape_inv b b' : shape b' = shape b →
  bm_compress b' = bm_compress b ∧ bm_size b' = bm_size b ∧ bm_dataSize b' = bm_dataSize b ∧
  length (words b') = length (words b).
Proof. intros [= -> -> -> ->]. done. Qed.

Lemma word_Some b i : 0 ≤ i < Z.of_nat (length (words b)) → ∃ w, word b i = Some w.
Proof.
  intros Hi. unfold word. rewrite (proj2 (Z.leb_le _ _)) by lia.
  apply lookup_lt_is_Some_2. lia.
Qed.
Lemma word_Some_inv b i w : word b i = Some w → 0 ≤ i < Z.of_nat (length (words b)).
Proof.
  unfold word. destruct (Z.leb_spec 0 i); [|done]. intros ?%lookup_lt_Some. lia.
Qed.
Lemma wordv_Some b i w : word b i = Some w → wordv b i = w.
Proof. unfold wordv. by intros ->. Qed.
Lemma load_Some {S} b i w (s : S) : word b i = Some w → load b i s = Ret w s.
Proof. unfold load. by intros ->. Qed.

Lemma updates_refl lo g b : updates lo lo g b b.
Proof. split; [done|]. intros j. destruct (Z.leb_spec lo j), (Z.ltb_spec j lo); simpl; done || lia. Qed.
Lemma updates_trans lo mid hi g b b1 b2 :
  lo ≤ mid ≤ hi → updates lo mid g b b1 → updates mid hi g b1 b2 → updates lo hi g b b2.
Proof.
  intros Hm [Hs1 Hw1] [Hs2 Hw2]. split; [congruence|]. intros j. rewrite Hw2, Hw1.
  destruct (Z.leb_spec mid j), (Z.ltb_spec j hi), (Z.leb_spec lo j), (Z.ltb_spec j mid); simpl; done || lia.
Qed.
Lemma updates_ext lo hi g g' b b' :
  (∀ j w, lo ≤ j < hi → word b j = Some w → g j w = g' j w) → updates lo hi g b b' → updates lo hi g' b b'.
Proof.
  intros Hg [Hs Hw]. split; [done|]. intros j. rewrite Hw.
  destruct (Z.leb_spec lo j), (Z.ltb_spec j hi); simpl; try done.
  destruct (word b j) eqn:E; simpl; [|done]. by rewrite (Hg j).
Qed.

Lemma store_updates i w v b g :
  word b i = Some w → v = g i w → ∃ b', store i v b = Ret tt b' ∧ updates i (i + 1) g b b'.
Proof.
  intros Hw ->. unfold store. rewrite Hw. eexists. split; [done|].
  pose proof (word_Some_inv _ _ _ Hw) as Hi. split.
  { unfold shape, words. simpl. by rewrite length_insert. }
  intros j. unfold word in Hw |- *. unfold words at 1. simpl.
  destruct (Z.leb_spec 0 j), (Z.leb_spec i j), (Z.ltb_spec j (i + 1)); simpl; try done; try lia.
  - assert (j = i) as -> by lia. rewrite list_lookup_insert_eq by lia.
    destruct (Z.leb_spec 0 i); [|lia]. by rewrite Hw.
  - rewrite list_lookup_insert_ne by lia. done.
  - rewrite list_lookup_insert_ne by lia. done.
Qed.

(** A loop whose rounds each change a block of [k] words. *)
Lemma cfor_updates a k lo n body g b :
  0 ≤ k → 0 ≤ n →
  (∀ i b1, lo ≤ i < lo + n → updates (a + k * lo) (a + k * i) g b b1 →
     ∃ b2, body i b1 = Ret tt b2 ∧ updates (a + k * i) (a + k * i + k) g b1 b2) →
  ∃ b', cfor (seqZ lo n) body b = Ret tt b' ∧ updates (a + k * lo) (a + k * (lo + n)) g b b'.
Proof.
  intros Hk Hn. revert lo b. pattern n. apply natlike_ind; [| |done]; clear n Hn.
  { intros lo b _. exists b. rewrite Z.add_0_r. split; [done|apply updates_refl]. }
  intros n Hn IH lo b Hbody. rewrite seqZ_cons by lia. cbn [cfor].
  destruct (Hbody lo b) as (b1 & H1 & Hu1); [lia|apply updates_refl|]. rewrite (cbind_Ret _ _ _ _ _ H1).
  replace (Z.pred (Z.succ n)) with n by lia.
  replace (a + k * lo + k) with (a + k * Z.succ lo) in Hu1 by lia.
  destruct (IH (Z.succ lo) b1) as (b2 & H2 & Hu2).
  { intros i b0 Hi Hs. apply Hbody; [lia|]. apply updates_trans with (a + k * Z.succ lo) b1; [nia|done|done]. }
  exists b2. split; [done|]. replace (lo + Z.succ n) with (Z.succ lo + n) by lia.
  apply updates_trans with (a + k * Z.succ lo) b1; [nia|done|done].
Qed.

Lemma updates_later lo mid g b b' j : updates lo mid g b b' → mid ≤ j → word b' j = word b j.
Proof. intros [_ ->] Hj. destruct (Z.ltb_spec j mid); [lia|]. by rewrite andb_false_r. Qed.
Lemma updates_length lo hi g b b' : updates lo hi g b b' → length (words b') = length (words b).
Proof. intros [Hs _]. by apply shape_inv in Hs as (? & ? & ? & ?). Qed.

(** Four words as one. *)
Lemma testbit_wrap w x n : 0 ≤ w → 0 ≤ n → Z.testbit (uwrap w x) n = (n <? w) && Z.testbit x n.
Proof.
  intros Hw Hn. unfold uwrap. destruct (Z.ltb_spec n w).
  - by rewrite Z.mod_pow2_bits_low by lia.
  - by rewrite Z.mod_pow2_bits_high by lia.
Qed.
Lemma testbit_piece k v n : 0 ≤ k → 0 ≤ n → Z.testbit (piece k v) n = (n <? 16) && Z.testbit v (n + 16 * k).
Proof. intros. unfold piece. rewrite testbit_wrap, Z.shiftr_spec by lia. done. Qed.

Lemma split_word A a w r :
  0 ≤ a < A → 0 ≤ w < 65536 → ((a + (w + r * 65536) * A) / A) mod 65536 = w.
Proof.
  intros Ha Hw. rewrite Z.div_add, Z.div_small, Z.add_0_l by lia.
  by rewrite Z.mod_add, Z.mod_small by lia.
Qed.
Lemma piece_dvalue w0 w1 w2 w3 :
  in_u 16 w0 → in_u 16 w1 → in_u 16 w2 → in_u 16 w3 →
  piece 0 (dvalue w0 w1 w2 w3) = w0 ∧ piece 1 (dvalue w0 w1 w2 w3) = w1 ∧
  piece 2 (dvalue w0 w1 w2 w3) = w2 ∧ piece 3 (dvalue w0 w1 w2 w3) = w3.
Proof.
  unfold in_u, piece, dvalue, uwrap. intros.
  rewrite !Z.shiftr_div_pow2, !Z.shiftl_mul_pow2 by lia.
  change (2 ^ (16 * 0)) with 1. change (2 ^ (16 * 1)) with 65536. change (2 ^ (16 * 2)) with 4294967296.
  change (2 ^ (16 * 3)) with 281474976710656.
  change (2 ^ 16) with 65536 in *. change (2 ^ 32) with 4294967296. change (2 ^ 48) with 281474976710656.
  split_and!.
  - rewrite <- (split_word 1 0 w0 (w1 + w2 * 65536 + w3 * 4294967296)) at 2 by lia. f_equal. f_equal. lia.
  - rewrite <- (split_word 65536 w0 w1 (w2 + w3 * 65536)) at 2 by lia. f_equal. f_equal. lia.
  - rewrite <- (split_word 4294967296 (w0 + w1 * 65536) w2 w3) at 2 by lia. f_equal. f_equal. lia.
  - rewrite <- (split_word 281474976710656 (w0 + w1 * 65536 + w2 * 4294967296) w3 0) at 2 by lia. f_equal. f_equal. lia.
Qed.

(** A binary operation on bits, and its action on words and on pieces. *)
Class BitOp (f : Z → Z → Z) (fb : bool → bool → bool) := {
  bitop_spec x y n : 0 ≤ n → Z.testbit (f x y) n = fb (Z.testbit x n) (Z.testbit y n);
  bitop_ff : fb false false = false
}.
#[export] Instance land_bitop : BitOp Z.land andb.
Proof. split; [intros; apply Z.land_spec|done]. Qed.
#[export] Instance lor_bitop : BitOp Z.lor orb.
Proof. split; [intros; apply Z.lor_spec|done]. Qed.

Lemma piece_bitop f fb `{!BitOp f fb} k x y : 0 ≤ k → piece k (f x y) = f (piece k x) (piece k y).
Proof.
  intros Hk. apply Z.bits_inj'. intros n Hn.
  rewrite testbit_piece, !bitop_spec, !testbit_piece by lia.
  destruct (n <? 16); simpl; [done|]. by rewrite bitop_ff.
Qed.
Lemma piece_lnot k x : 0 ≤ k < 4 → piece k (u64 (Z.lnot x)) = u16 (Z.lnot (piece k x)).
Proof.
  intros Hk. apply Z.bits_inj'. intros n Hn.
  rewrite testbit_piece, !testbit_wrap, !Z.lnot_spec, testbit_piece by lia.
  destruct (Z.ltb_spec n 16); simpl; [|done]. destruct (Z.ltb_spec (n + 16 * k) 64); [done|lia].
Qed.
Lemma bitop_range f fb `{!BitOp f fb} w x y : 0 ≤ w → in_u w x → in_u w y → in_u w (f x y).
Proof.
  intros Hw Hx Hy. assert (f x y = uwrap w (f x y)) as ->; [|by apply uwrap_range].
  apply Z.bits_inj'. intros n Hn. rewrite testbit_wrap by lia.
  destruct (Z.ltb_spec n w); simpl; [done|].
  rewrite bitop_spec, !(testbit_above w) by done. apply bitop_ff.
Qed.

Definition four (b : Bitmap) (i : Z) : Z :=
  dvalue (wordv b (4 * i)) (wordv b (4 * i + 1)) (wordv b (4 * i + 2)) (wordv b (4 * i + 3)).
Lemma load64_Some {S} b i (s : S) :
  0 ≤ i → 4 * i + 4 ≤ Z.of_nat (length (words b)) → load64 b i s = Ret (four b i) s.
Proof.
  intros Hi Hl. unfold load64, four.
  destruct (word_Some b (4 * i)) as [w0 E0], (word_Some b (4 * i + 1)) as [w1 E1],
    (word_Some b (4 * i + 2)) as [w2 E2], (word_Some b (4 * i + 3)) as [w3 E3]; [lia..|].
  rewrite (cbind_Ret _ _ _ _ _ (load_Some _ _ _ s E0)), (cbind_Ret _ _ _ _ _ (load_Some _ _ _ s E1)),
    (cbind_Ret _ _ _ _ _ (load_Some _ _ _ s E2)), (cbind_Ret _ _ _ _ _ (load_Some _ _ _ s E3)).
  by rewrite (wordv_Some _ _ _ E0), (wordv_Some _ _ _ E1), (wordv_Some _ _ _ E2), (wordv_Some _ _ _ E3).
Qed.

Lemma store64_updates i v b g :
  0 ≤ i → 4 * i + 4 ≤ Z.of_nat (length (words b)) →
  (∀ k, 0 ≤ k < 4 → piece k v = g (4 * i + k) (wordv b (4 * i + k))) →
  ∃ b', store64 i v b = Ret tt b' ∧ updates (4 * i) (4 * i + 4) g b b'.
Proof.
  intros Hi Hl Hv. unfold store64. change [0; 1; 2; 3] with (seqZ 0 4).
  destruct (cfor_updates (4 * i) 1 0 4 (λ k, store (4 * i + k) (piece k v)) g b)
    as (b' & Hr & Hu); [lia|lia| |exists b'; by rewrite Z.mul_0_r, Z.add_0_r in Hu].
  intros k b1 Hk Hu1. rewrite Z.mul_1_l.
  destruct (word_Some b (4 * i + k)) as [w Hw]; [lia|].
  apply store_updates with w; [by rewrite (updates_later _ _ _ _ _ _ Hu1) by lia|].
  rewrite Hv by lia. f_equal. by apply wordv_Some.
Qed.
End updates.

(** ** What the operations do to the bits *)
Section operations.
Local Open Scope Z_scope.
Implicit Types a b : Bitmap.

Lemma data_size_spec size : 0 ≤ size →
  0 ≤ data_size size ∧ VALUE_SIZE * (data_size size - 1) < size ≤ VALUE_SIZE * data_size size.
Proof. unfold data_size, VALUE_SIZE. intros. split; [|split]; lia. Qed.
Lemma data_size_blocks size : 0 ≤ size → 0 ≤ size / U64_VALUE_SIZE ∧ 4 * (size / U64_VALUE_SIZE) ≤ data_size size.
Proof. unfold data_size, VALUE_SIZE, U64_VALUE_SIZE. intros. lia. Qed.
Lemma bit_index size i : 0 ≤ i < size →
  0 ≤ i / VALUE_SIZE < data_size size ∧ 0 ≤ i mod VALUE_SIZE < VALUE_SIZE.
Proof. unfold data_size, VALUE_SIZE. intros. lia. Qed.

Lemma wf_word b k : bm_wf b → 0 ≤ k < bm_dataSize b → ∃ w, word b k = Some w ∧ in_u 16 w.
Proof.
  intros Hwf Hk. pose proof (wf_alloc _ Hwf). destruct (word_Some b k) as [w Hw]; [lia|].
  exists w. split; [done|]. unfold word in Hw. destruct (0 <=? k)%Z; [|done].
  by eapply Forall_lookup_1 in Hw; [|apply Hwf].
Qed.
Lemma wordv_range b k : bm_wf b → in_u 16 (wordv b k).
Proof.
  intros Hwf. unfold wordv, word. destruct (0 <=? k); [|done].
  destruct (words b !! Z.to_nat k) eqn:E; [|done]. by eapply Forall_lookup_1 in E; [|apply Hwf].
Qed.
Lemma wf_load {S} b k (s : S) : bm_wf b → 0 ≤ k < bm_dataSize b → load b k s = Ret (wordv b k) s.
Proof.
  intros Hwf Hk. destruct (wf_word b k Hwf Hk) as (w & Hw & _).
  by rewrite (load_Some _ _ _ _ Hw), (wordv_Some _ _ _ Hw).
Qed.

Lemma Forall_words b (P : Z → Prop) : (∀ j w, word b j = Some w → P w) → Forall P (words b).
Proof.
  intros H. apply Forall_lookup_2. intros i w Hi. apply (H (Z.of_nat i)).
  unfold word. rewrite (proj2 (Z.leb_le _ _)) by lia. by rewrite Nat2Z.id.
Qed.
Lemma updates_wf lo hi g b b' :
  bm_wf b → (∀ j w, in_u 16 w → in_u 16 (g j w)) → updates lo hi g b b' → bm_wf b'.
Proof.
  intros [Hp Hr Hd Ha Hw] Hg [Hs Hword]. apply shape_inv in Hs as (E1 & E2 & E3 & E4).
  split; rewrite ?E1, ?E2, ?E3, ?E4; try done. apply Forall_words. intros j w'. rewrite Hword. intros Hj.
  assert (∀ w0, word b j = Some w0 → in_u 16 w0) as Hb.
  { unfold word. destruct (0 <=? j); [|done]. intros w0. by apply Forall_lookup_1. }
  destruct ((lo <=? j) && (j <? hi))%bool; [|by apply Hb].
  destruct (word b j) eqn:E; [|done]. simpl in Hj. injection Hj as <-. apply Hg, Hb. done.
Qed.
Lemma updates_wordv lo hi g b b' k :
  updates lo hi g b b' → 0 ≤ k < Z.of_nat (length (words b)) →
  wordv b' k = if (lo <=? k) && (k <? hi) then g k (wordv b k) else wordv b k.
Proof.
  intros [_ Hw] Hk. unfold wordv. rewrite Hw. destruct (word_Some b k Hk) as [w ->].
  by destruct ((lo <=? k) && (k <? hi)).
Qed.
Lemma updates_all_wordv g b b' k :
  bm_wf b → updates 0 (bm_dataSize b) g b b' → 0 ≤ k < bm_dataSize b → wordv b' k = g k (wordv b k).
Proof.
  intros Hwf Hu Hk. pose proof (wf_alloc _ Hwf). rewrite (updates_wordv _ _ _ _ _ _ Hu) by lia.
  destruct (Z.leb_spec 0 k), (Z.ltb_spec k (bm_dataSize b)); simpl; done || lia.
Qed.
Lemma updates_size lo hi g b b' : updates lo hi g b b' →
  bm_size b' = bm_size b ∧ bm_dataSize b' = bm_dataSize b ∧ bm_compress b' = bm_compress b.
Proof. intros [Hs _]. by apply shape_inv in Hs as (? & ? & ? & _). Qed.

Lemma truthy_land w n : 0 ≤ n → truthy (Z.land w (POS n)) = Z.testbit w n.
Proof.
  intros Hn. unfold truthy, POS. rewrite Z.shiftl_1_l. destruct (Z.testbit w n) eqn:E.
  - destruct (Z.eqb_spec (Z.land w (2 ^ n)) 0) as [H|]; [|done].
    apply (f_equal (λ x, Z.testbit x n)) in H.
    rewrite Z.land_spec, E, Z.pow2_bits_true, Z.bits_0 in H by lia. done.
  - assert (Z.land w (2 ^ n) = 0) as ->; [|done]. apply Z.bits_inj'. intros m Hm.
    rewrite Z.land_spec, Z.bits_0, Z.pow2_bits_eqb by lia.
    destruct (Z.eqb_spec n m) as [->|]; [by rewrite E|apply andb_false_r].
Qed.

Lemma POS_range n : 0 ≤ n < 16 → in_u 16 (POS n).
Proof.
  intros. unfold in_u, POS. rewrite Z.shiftl_1_l.
  split; [apply Z.pow_nonneg; lia|apply Z.pow_lt_mono_r; lia].
Qed.
Lemma testbit_POS n m : 0 ≤ n → 0 ≤ m → Z.testbit (POS n) m = (n =? m).
Proof. intros. unfold POS. rewrite Z.shiftl_1_l. by apply Z.pow2_bits_eqb. Qed.

(** Single bits *)
Lemma bm_get_spec {S} b idx (s : S) : bm_wf b → 0 ≤ idx < bm_size b → bm_get b idx s = Ret (bit b idx) s.
Proof.
  intros Hwf Hi. destruct (bit_index (bm_size b) idx Hi) as [Hk Hj]. rewrite <- wf_dataSize in Hk by done.
  unfold bm_get. rewrite (cbind_Ret _ _ _ _ _ (wf_load b _ s Hwf Hk)). unfold cret. f_equal.
  unfold bit. rewrite truthy_land; [done|]. unfold VALUE_SIZE in *. lia.
Qed.

Definition set_word (pos : Z) (v : bool) (w : Z) : Z :=
  if v then Z.lor w (POS pos) else Z.land w (NPOS pos).
Lemma testbit_set_word pos v w n :
  in_u 16 w → 0 ≤ pos < 16 → 0 ≤ n →
  Z.testbit (set_word pos v w) n = if n =? pos then v else Z.testbit w n.
Proof.
  intros Hw Hp Hn. unfold set_word. destruct v.
  - rewrite Z.lor_spec, testbit_POS by lia. rewrite (Z.eqb_sym pos n).
    destruct (n =? pos); [apply orb_true_r|apply orb_false_r].
  - unfold NPOS. rewrite Z.land_spec, testbit_wrap, Z.lnot_spec, testbit_POS by lia.
    rewrite (Z.eqb_sym pos n). destruct (Z.eqb_spec n pos); simpl; [by rewrite !andb_false_r|].
    rewrite andb_true_r. destruct (Z.ltb_spec n 16); [apply andb_true_r|].
    by rewrite (testbit_above 16) by (done || lia).
Qed.
Lemma set_word_range pos v w : in_u 16 w → 0 ≤ pos < 16 → in_u 16 (set_word pos v w).
Proof.
  intros Hw Hp. unfold set_word. destruct v.
  - apply (bitop_range Z.lor orb); [lia|done|by apply POS_range].
  - apply (bitop_range Z.land andb); [lia|done|]. apply uwrap_range. lia.
Qed.

Lemma bm_set_updates idx v b :
  bm_wf b → 0 ≤ idx < bm_size b →
  ∃ b', bm_set idx v b = Ret tt b' ∧
    updates (idx / VALUE_SIZE) (idx / VALUE_SIZE + 1) (λ _, set_word (idx mod VALUE_SIZE) v) b b'.
Proof.
  intros Hwf Hi. destruct (bit_index (bm_size b) idx Hi) as [Hk Hj]. rewrite <- wf_dataSize in Hk by done.
  unfold bm_set, cbind at 1, cget. rewrite (cbind_Ret _ _ _ _ _ (wf_load b _ b Hwf Hk)).
  destruct (wf_word b _ Hwf Hk) as (w & Hw & _).
  apply store_updates with w; [done|]. by rewrite (wordv_Some _ _ _ Hw).
Qed.

(** The two-part loops of &=, |= and ~ change every word. *)
Lemma blocks_then_words g body1 body2 a :
  let m := bm_size a / U64_VALUE_SIZE in
  bm_wf a →
  (∀ i a0, 0 ≤ i < m → updates 0 (4 * i) g a a0 →
     ∃ a1, body1 i a0 = Ret tt a1 ∧ updates (4 * i) (4 * i + 4) g a0 a1) →
  (∀ i a0, 0 ≤ i < bm_dataSize a → updates 0 i g a a0 →
     ∃ a1, body2 i a0 = Ret tt a1 ∧ updates i (i + 1) g a0 a1) →
  ∃ a', (let! _ := cfor (seqZ 0 m) body1 in
         cfor (seqZ (m * U64_DIV_BASE) (bm_dataSize a - m * U64_DIV_BASE)) body2) a = Ret tt a' ∧
    updates 0 (bm_dataSize a) g a a'.
Proof.
  intros m Ha H1 H2. destruct (data_size_blocks (bm_size a)) as [Hm0 Hm]; [apply Ha|].
  rewrite <- (wf_dataSize _ Ha) in Hm. fold m in Hm0, Hm. unfold U64_DIV_BASE.
  destruct (cfor_updates 0 4 0 m body1 g a) as (a1 & Hr1 & Hu1); [lia|lia| |].
  { intros i a0 Hi Hu. rewrite Z.add_0_l. apply H1; [lia|]. exact Hu. }
  rewrite (cbind_Ret _ _ _ _ _ Hr1). replace (0 + 4 * (0 + m)) with (m * 4) in Hu1 by lia.
  destruct (cfor_updates 0 1 (m * 4) (bm_dataSize a - m * 4) body2 g a1) as (a2 & Hr2 & Hu2); [lia|lia| |].
  { intros i a0 Hi Hu. rewrite !Z.mul_1_l, !Z.add_0_l in *. apply H2; [lia|].
    apply updates_trans with (m * 4) a1; [lia|done|done]. }
  exists a2. split; [done|]. rewrite !Z.mul_1_l, !Z.add_0_l in *.
  apply updates_trans with (m * 4) a1; [lia|done|].
  by replace (m * 4 + (bm_dataSize a - m * 4)) with (bm_dataSize a) in Hu2 by lia.
Qed.

Lemma piece_four b i k :
  (∀ j, 4 * i ≤ j → in_u 16 (wordv b j)) → 0 ≤ k < 4 → piece k (four b i) = wordv b (4 * i + k).
Proof.
  intros Hb Hk. destruct (piece_dvalue (wordv b (4 * i)) (wordv b (4 * i + 1)) (wordv b (4 * i + 2))
    (wordv b (4 * i + 3))) as (P0 & P1 & P2 & P3); [apply Hb; lia..|].
  unfold four. assert (k = 0 ∨ k = 1 ∨ k = 2 ∨ k = 3) as [->|[->|[->| ->]]] by lia; by rewrite ?Z.add_0_r.
Qed.
Lemma updates_later_range lo mid g a a0 j :
  bm_wf a → updates lo mid g a a0 → mid ≤ j → in_u 16 (wordv a0 j).
Proof.
  intros Ha Hu Hj. unfold wordv. rewrite (updates_later _ _ _ _ _ _ Hu) by done. by apply wordv_range.
Qed.

Lemma bitop_updates f fb `{!BitOp f fb} a b :
  bm_wf a → bm_wf b → bm_size b = bm_size a →
  ∃ a', bitop f b a = Ret tt a' ∧ updates 0 (bm_dataSize a) (λ j w, f w (wordv b j)) a a'.
Proof.
  intros Ha Hb Hsize. unfold bitop, cbind at 1, cget.
  pose proof (wf_alloc _ Ha). pose proof (wf_alloc _ Hb).
  assert (bm_dataSize b = bm_dataSize a) as Hd by (rewrite !wf_dataSize by done; by rewrite Hsize).
  destruct (data_size_blocks (bm_size a)) as [_ Hm]; [apply Ha|]. rewrite <- wf_dataSize in Hm by done.
  apply blocks_then_words; [done|..]; intros i a0 Hi Hu;
    unfold cbind at 1; pose proof (updates_length _ _ _ _ _ Hu) as Hlen.
  - rewrite (cbind_Ret _ _ _ _ _ (load64_Some a0 i a0 ltac:(lia) ltac:(lia))).
    rewrite (cbind_Ret _ _ _ _ _ (load64_Some b i a0 ltac:(lia) ltac:(lia))).
    apply store64_updates; [lia|lia|]. intros k Hk. rewrite (piece_bitop f fb) by lia.
    rewrite !piece_four; try done; intros j Hj; (by apply wordv_range) || (exact (updates_later_range _ _ _ _ _ _ Ha Hu Hj)).
  - destruct (word_Some a0 i) as [x Hx]; [lia|]. destruct (word_Some b i) as [y Hy]; [lia|].
    rewrite (cbind_Ret _ _ _ _ _ (load_Some _ _ _ a0 Hx)), (cbind_Ret _ _ _ _ _ (load_Some _ _ _ a0 Hy)).
    apply store_updates with x; [done|]. by rewrite (wordv_Some _ _ _ Hy).
Qed.

Lemma bm_not_updates a :
  bm_wf a → ∃ a', bm_not a = Ret tt a' ∧ updates 0 (bm_dataSize a) (λ _ w, u16 (Z.lnot w)) a a'.
Proof.
  intros Ha. unfold bm_not, cbind at 1, cget. rewrite (wf_plain _ Ha). cbn [negb].
  pose proof (wf_alloc _ Ha).
  destruct (data_size_blocks (bm_size a)) as [_ Hm]; [apply Ha|]. rewrite <- wf_dataSize in Hm by done.
  apply blocks_then_words; [done|..]; intros i a0 Hi Hu;
    unfold cbind at 1; pose proof (updates_length _ _ _ _ _ Hu) as Hlen.
  - rewrite (cbind_Ret _ _ _ _ _ (load64_Some a0 i a0 ltac:(lia) ltac:(lia))).
    apply store64_updates; [lia|lia|]. intros k Hk. rewrite piece_lnot by lia.
    rewrite piece_four; [done| |done]. intros j Hj. exact (updates_later_range _ _ _ _ _ _ Ha Hu Hj).
  - destruct (word_Some a0 i) as [x Hx]; [lia|].
    rewrite (cbind_Ret _ _ _ _ _ (load_Some _ _ _ a0 Hx)). by apply store_updates with x.
Qed.

(** ** Histories of operations *)
Inductive bm_op := OSet (idx : Z) (v : bool) | OAnd (b : Bitmap) | OOr (b : Bitmap) | ONot.
Definition bm_step (op : bm_op) : M Bitmap unit :=
  match op with
  | OSet idx v => bm_set idx v
  | OAnd b => and_assign b
  | OOr b => or_assign b
  | ONot => bm_not
  end.
Definition op_ok (size : Z) (op : bm_op) : Prop :=
  match op with
  | OSet idx _ => 0 ≤ idx < size
  | OAnd b | OOr b => bm_wf b ∧ bm_size b = size
  | ONot => True
  end.
(** The operations on sets of indices. *)
Definition bits_step (f : Z → bool) (op : bm_op) : Z → bool :=
  match op with
  | OSet idx v => λ i, if i =? idx then v else f i
  | OAnd b => λ i, f i && bit b i
  | OOr b => λ i, f i || bit b i
  | ONot => λ i, negb (f i)
  end.

Lemma binary_plain f on_run a b :
  bm_wf a → bm_wf b → bm_size b = bm_size a → binary f on_run b a = bitop f b a.
Proof.
  intros Ha Hb Hs. unfold binary, cbind at 1, cget. rewrite Hs, Z.eqb_refl, !wf_plain by done. done.
Qed.

Lemma updates_bit g b b' i :
  bm_wf b → updates 0 (bm_dataSize b) g b b' → 0 ≤ i < bm_size b →
  bit b' i = Z.testbit (g (i / VALUE_SIZE) (wordv b (i / VALUE_SIZE))) (i mod VALUE_SIZE).
Proof.
  intros Hwf Hu Hi. destruct (bit_index (bm_size b) i Hi) as [Hk _]. rewrite <- wf_dataSize in Hk by done.
  unfold bit. by rewrite (updates_all_wordv g b b').
Qed.

Lemma bm_set_spec idx v a :
  bm_wf a → 0 ≤ idx < bm_size a →
  ∃ a', bm_set idx v a = Ret tt a' ∧ bm_wf a' ∧ bm_size a' = bm_size a ∧
    (∀ i, 0 ≤ i < bm_size a → bit a' i = if i =? idx then v else bit a i) ∧ (tidy a → tidy a').
Proof.
  intros Ha Hok. pose proof (wf_alloc _ Ha) as Hal.
  destruct (bm_set_updates idx v a Ha Hok) as (a' & Hr & Hu). exists a'.
  destruct (bit_index (bm_size a) idx Hok) as [Hk Hj]. rewrite <- wf_dataSize in Hk by done.
  destruct (updates_size _ _ _ _ _ Hu) as (Es & Ed & _). unfold VALUE_SIZE in Hj.
  split_and!; [done| |done| |].
  - refine (updates_wf _ _ _ _ _ Ha _ Hu). intros j w Hw.
    apply set_word_range; [done|unfold VALUE_SIZE; lia].
  - intros i Hi. destruct (bit_index (bm_size a) i Hi) as [Hk' Hj']. rewrite <- wf_dataSize in Hk' by done.
    unfold bit. rewrite (updates_wordv _ _ _ _ _ _ Hu) by lia. unfold VALUE_SIZE in *.
    destruct (Z.leb_spec (idx / 14) (i / 14)), (Z.ltb_spec (i / 14) (idx / 14 + 1)); simpl;
      try (destruct (Z.eqb_spec i idx); [subst; lia|done]).
    rewrite testbit_set_word by (try apply wordv_range; done || lia).
    destruct (Z.eqb_spec (i mod 14) (idx mod 14)), (Z.eqb_spec i idx); try done; exfalso; subst; lia.
  - intros Ht k j Hk' Hj'. rewrite Es. rewrite Ed in Hk'.
    rewrite (updates_wordv _ _ _ _ _ _ Hu) by lia. unfold VALUE_SIZE in *.
    destruct (Z.leb_spec (idx / 14) k), (Z.ltb_spec k (idx / 14 + 1)); simpl; try by apply Ht.
    rewrite testbit_set_word by (try apply wordv_range; done || lia).
    destruct (Z.eqb_spec j (idx mod 14)); [|by apply Ht]. intros _. lia.
Qed.

Lemma bitop_bits f fb `{!BitOp f fb} a b :
  bm_wf a → bm_wf b → bm_size b = bm_size a →
  ∃ a', bitop f b a = Ret tt a' ∧ bm_wf a' ∧ bm_size a' = bm_size a ∧
    (∀ i, 0 ≤ i < bm_size a → bit a' i = fb (bit a i) (bit b i)) ∧ (tidy a → tidy b → tidy a').
Proof.
  intros Ha Hb Hs. destruct (bitop_updates f fb a b Ha Hb Hs) as (a' & Hr & Hu). exists a'.
  destruct (updates_size _ _ _ _ _ Hu) as (Es & Ed & _). split_and!; [done| |done| |].
  - refine (updates_wf _ _ _ _ _ Ha _ Hu). intros j w Hw.
    apply (bitop_range f fb); [lia|done|by apply wordv_range].
  - intros i Hi. rewrite (updates_bit _ a a') by done. cbv beta. unfold bit.
    rewrite <- Hs in *. apply (bitop_spec (f:=f) (fb:=fb)). unfold VALUE_SIZE. lia.
  - intros Ht Htb k j Hk Hj. rewrite Es. rewrite Ed in Hk. rewrite (updates_all_wordv _ a a') by done.
    cbv beta. rewrite (bitop_spec (f:=f) (fb:=fb)) by done. intros Hfb.
    destruct (Z.testbit (wordv a k) j) eqn:E; [by apply Ht|].
    destruct (Z.testbit (wordv b k) j) eqn:E'; [|by rewrite bitop_ff in Hfb].
    rewrite <- Hs. apply Htb; [|done|done]. by rewrite !wf_dataSize, Hs, <- wf_dataSize by done.
Qed.

Lemma bm_not_bits a :
  bm_wf a → ∃ a', bm_not a = Ret tt a' ∧ bm_wf a' ∧ bm_size a' = bm_size a ∧
    ∀ i, 0 ≤ i < bm_size a → bit a' i = negb (bit a i).
Proof.
  intros Ha. destruct (bm_not_updates a Ha) as (a' & Hr & Hu). exists a'.
  destruct (updates_size _ _ _ _ _ Hu) as (Es & Ed & _). split_and!; [done| |done|].
  - refine (updates_wf _ _ _ _ _ Ha _ Hu). intros j w Hw. apply uwrap_range. lia.
  - intros i Hi. rewrite (updates_bit _ a a') by done. unfold bit, VALUE_SIZE.
    rewrite testbit_wrap, Z.lnot_spec by lia. destruct (Z.ltb_spec (i mod 14) 16); [done|lia].
Qed.

(** Each operation in one form; all but ~ keep a map tidy. *)
Definition op_tidy (op : bm_op) : Prop :=
  match op with OSet _ _ => True | OAnd b | OOr b => tidy b | ONot => False end.
Lemma bm_step_spec op a :
  bm_wf a → op_ok (bm_size a) op →
  ∃ a', bm_step op a = Ret tt a' ∧ bm_wf a' ∧ bm_size a' = bm_size a ∧
    (∀ i, 0 ≤ i < bm_size a → bit a' i = bits_step (bit a) op i) ∧
    (op_tidy op → tidy a → tidy a').
Proof.
  intros Ha Hok. destruct op as [idx v|b|b|]; simpl in *.
  - destruct (bm_set_spec idx v a Ha Hok) as (a' & ? & ? & ? & ? & ?). exists a'. by split_and!.
  - destruct Hok as [Hb Hs]. unfold and_assign. rewrite binary_plain by done.
    destruct (bitop_bits Z.land andb a b Ha Hb Hs) as (a' & ? & ? & ? & ? & Ht). exists a'.
    split_and!; try done. intros. by apply Ht.
  - destruct Hok as [Hb Hs]. unfold or_assign. rewrite binary_plain by done.
    destruct (bitop_bits Z.lor orb a b Ha Hb Hs) as (a' & ? & ? & ? & ? & Ht). exists a'.
    split_and!; try done. intros. by apply Ht.
  - destruct (bm_not_bits a Ha) as (a' & ? & ? & ? & ?). exists a'. by split_and!.
Qed.

Fixpoint bm_run (ops : list bm_op) : M Bitmap unit :=
  match ops with [] => cret tt | op :: ops => let! _ := bm_step op in bm_run ops end.

(** C15: An uncompressed bitmap implements a set of indices. Any history of
    set, &=, |= and ~ with indices in range and operands of the same size
    runs without an access out of bounds, although &=, |= and ~ work on
    blocks of four words where they can, and afterwards get answers for
    every index what the same history does to the set. *)
Theorem bitmap_refines_bits ops a :
  bm_wf a → Forall (op_ok (bm_size a)) ops →
  ∃ a', bm_run ops a = Ret tt a' ∧ bm_wf a' ∧ bm_size a' = bm_size a ∧
    ∀ i, 0 ≤ i < bm_size a → bm_get a' i a' = Ret (foldl bits_step (bit a) ops i) a'.
Proof.
  intros Ha Hok. assert (∃ a', bm_run ops a = Ret tt a' ∧ bm_wf a' ∧ bm_size a' = bm_size a ∧
    ∀ i, 0 ≤ i < bm_size a → bit a' i = foldl bits_step (bit a) ops i) as (a' & Hr & Hwf & Hs & Hb).
  2:{ exists a'. split_and!; try done. intros i Hi. rewrite bm_get_spec by (rewrite ?Hs; done).
      by rewrite Hb. }
  assert (∀ f, (∀ i, 0 ≤ i < bm_size a → bit a i = f i) → ∃ a', bm_run ops a = Ret tt a' ∧ bm_wf a' ∧
    bm_size a' = bm_size a ∧ ∀ i, 0 ≤ i < bm_size a → bit a' i = foldl bits_step f ops i) as H; [|by apply H].
  revert a Ha Hok. induction ops as [|op ops IH]; intros a Ha Hok f Hf; [by exists a|].
  apply Forall_cons_1 in Hok as [Hop Hok]. cbn [bm_run foldl].
  destruct (bm_step_spec op a Ha Hop) as (a1 & Hr1 & Ha1 & Hs1 & Hb1 & _).
  rewrite (cbind_Ret _ _ _ _ _ Hr1).
  destruct (IH a1 Ha1 ltac:(by rewrite Hs1) (bits_step f op)) as (a2 & ? & ? & ? & Hb2).
  { intros i Hi. rewrite Hs1 in Hi. rewrite Hb1 by done. destruct op; simpl; by rewrite Hf. }
  exists a2. rewrite Hs1 in *. by split_and!.
Qed.
End operations.

(** ** Concrete maps *)
Section concrete.
Local Open Scope Z_scope.

(** A test for maps given word by word. *)
Definition bm_check (b : Bitmap) : bool :=
  negb (bm_compress b) && (0 <=? bm_size b) && (bm_size b <? 2 ^ 32 - 64) &&
  (bm_dataSize b =? data_size (bm_size b)) && (bm_dataSize b <=? Z.of_nat (length (words b))) &&
  forallb (λ w, (0 <=? w) && (w <? 65536)) (words b) &&
  forallb (λ k, (0 <=? wordv b k) && (wordv b k <? 2 ^ (VALUE_SIZE `min` (bm_size b - VALUE_SIZE * k))))
    (seqZ 0 (bm_dataSize b)).

Lemma bm_check_sound b : bm_check b = true → bm_wf b ∧ tidy b.
Proof.
  unfold bm_check. rewrite !andb_true_iff, !forallb_forall.
  intros ((((((Hc & Hs0) & Hs1) & Hd) & Ha) & Hw) & Ht).
  apply negb_true_iff in Hc. apply Z.leb_le in Hs0, Ha. apply Z.ltb_lt in Hs1. apply Z.eqb_eq in Hd. split.
  - split; try done. apply Forall_forall. intros w Hin%Hw. apply andb_true_iff in Hin as [H1 H2].
    apply Z.leb_le in H1. apply Z.ltb_lt in H2. by split.
  - intros k j Hk Hj Hb. destruct (data_size_spec (bm_size b) Hs0) as (_ & Hlo & _). rewrite <- Hd in Hlo.
    specialize (Ht k). rewrite <- list_elem_of_In, elem_of_seqZ in Ht. specialize (Ht ltac:(lia)).
    apply andb_true_iff in Ht as [H1%Z.leb_le H2%Z.ltb_lt].
    destruct (Z.lt_ge_cases j (VALUE_SIZE `min` (bm_size b - VALUE_SIZE * k))); [lia|].
    rewrite (testbit_above (VALUE_SIZE `min` (bm_size b - VALUE_SIZE * k))) in Hb; [done| |done|done].
    unfold VALUE_SIZE in *. lia.
Qed.

(** Bits 0, 2, 29, and bits 13, 29, 30, of maps of 31 bits. *)
Definition bm_ex1 : Bitmap := mkBitmap false 31 3 (Some [5; 0; 2]).
Definition bm_ex2 : Bitmap := mkBitmap false 31 3 (Some [8192; 0; 6]).
Lemma bm_ex1_ok : bm_wf bm_ex1 ∧ tidy bm_ex1.
Proof. by apply bm_check_sound. Qed.
Lemma bm_ex2_ok : bm_wf bm_ex2 ∧ tidy bm_ex2.
Proof. by apply bm_check_sound. Qed.

Lemma bitmap_refines_bits_witness :
  ∃ a', bm_run [OSet 7 true; OOr bm_ex2; ONot; OAnd bm_ex1] bm_ex1 = Ret tt a' ∧ bm_wf a' ∧ bm_size a' = 31 ∧
    ∀ i, 0 ≤ i < 31 →
      bm_get a' i a' = Ret (foldl bits_step (bit bm_ex1) [OSet 7 true; OOr bm_ex2; ONot; OAnd bm_ex1] i) a'.
Proof.
  apply (bitmap_refines_bits [OSet 7 true; OOr bm_ex2; ONot; OAnd bm_ex1] bm_ex1); [apply bm_ex1_ok|].
  repeat constructor; simpl; try lia; try apply bm_ex1_ok; apply bm_ex2_ok.
Defined.
End concrete.
