(* ===== verification/BitmapScan.v ===== *)
(** * Scanning bitmaps (Sylar/DataStructure/bitmap.cc)

    foreach, rforeach, listPosAsc, the two iterators, getCount, any, == and
    the intersection test, all on uncompressed maps: they agree with the
    set of bits the map stands for. *)
From Stdlib Require Import ZArith Lia Strings.Byte.
From stdpp Require Import base list list_numbers numbers.
From S2P Require Import Prelude ByteArray Codec Bitmap.

Section scan.
Context {C : Type}.
Implicit Types b : Bitmap.

(** [for(n = 0; n < VALUE_SIZE && cur_pos < m_size; ++n, ++cur_pos)] over
    the bits of a word; the callback runs on a state of its own. *)
Definition visit_up (m_size : Z) (cb : Z → M C bool) (w cur_pos : Z) : M C (bool * Z) :=
  cfold (seqZ 0 VALUE_SIZE) cur_pos (λ n p,
    if (p <? m_size)%Z then
      if truthy (Z.land w (POS n))
      then let! go := cb p in cret (go, (p + 1)%Z)
      else cret (true, (p + 1)%Z)
    else cret (true, p)).

(** foreach *)
Definition bm_foreach (b : Bitmap) (cb : Z → M C bool) : M C unit :=
  let max_size := (bm_size b / U64_VALUE_SIZE)%Z in
  let! (go, cur_pos) := cfold (seqZ 0 max_size) 0%Z (λ i cur_pos,
    let! tmp := load64 b i in
    if negb (truthy tmp) then cret (true, (cur_pos + U64_VALUE_SIZE)%Z)
    else cfold (seqZ 0 U64_DIV_BASE) cur_pos (λ n cur_pos,
           let! tmp := load b (i * U64_DIV_BASE + n) in
           visit_up (bm_size b) cb tmp cur_pos)) in
  if negb go then cret tt else
  let! _ := cfold (seqZ (max_size * U64_DIV_BASE) (bm_dataSize b - max_size * U64_DIV_BASE)) cur_pos
    (λ i cur_pos,
      let! tmp := load b i in
      if negb (truthy tmp) then cret (true, (cur_pos + VALUE_SIZE)%Z)
      else visit_up (bm_size b) cb tmp cur_pos) in
  cret tt.

(** [for(n = from; n >= 0; --n, --cur_pos)]; cur_pos is a uint32_t *)
Definition visit_down (cb : Z → M C bool) (from w cur_pos : Z) : M C (bool * Z) :=
  cfold (reverse (seqZ 0 (from + 1))) cur_pos (λ n p,
    if truthy (Z.land w (POS n))
    then let! go := cb p in cret (go, u32 (p - 1))
    else cret (true, u32 (p - 1))).

(** rforeach *)
Definition bm_rforeach (b : Bitmap) (cb : Z → M C bool) : M C unit :=
  let m_size := bm_size b in
  let max_size := (m_size / U64_VALUE_SIZE)%Z in
  let left := (m_size mod VALUE_SIZE)%Z in
  let start := (bm_dataSize b - 1)%Z in
  let! (go, cur_pos) :=
    if truthy (m_size mod U64_VALUE_SIZE) then
      cfold (reverse (seqZ (max_size * U64_DIV_BASE) (bm_dataSize b - max_size * U64_DIV_BASE)))
        (u32 (m_size - 1)) (λ i cur_pos,
          let! tmp := load b i in
          if negb (truthy tmp) then
            cret (true, u32 (cur_pos - (if (i =? start)%Z then if (left =? 0)%Z then VALUE_SIZE else left
                                        else VALUE_SIZE)))
          else if (i =? start)%Z then
            if (left =? 0)%Z then visit_down cb (VALUE_SIZE - 1) tmp cur_pos
            else visit_down cb left tmp (u32 (cur_pos + 1))
          else visit_down cb (VALUE_SIZE - 1) tmp cur_pos)
    else cret (true, u32 (m_size - 1)) in
  if negb go then cret tt else
  let! _ := cfold (reverse (seqZ 0 max_size)) cur_pos (λ i cur_pos,
    let! tmp := load64 b i in
    if negb (truthy tmp) then cret (true, u32 (cur_pos - U64_VALUE_SIZE))
    else cfold (seqZ 0 U64_DIV_BASE) cur_pos (λ n cur_pos,
           let! tmp := load b ((i + 1) * U64_DIV_BASE - 1 - n) in
           visit_down cb (VALUE_SIZE - 1) tmp cur_pos)) in
  cret tt.
End scan.

(** listPosAsc: the loops of foreach, with push_back for the callback *)
Definition bm_listPosAsc (b : Bitmap) : M (list Z) unit :=
  bm_foreach b (λ p, let! _ := cmodify (λ pos, pos ++ [p]) in cret true).

(** ** Iterators: m_pos is their state, the rest is the map *)
Section iterators.
Context {S : Type}.

(** operator! is true while the iterator points into the map. *)
Definition iter_valid (b : Bitmap) (m_pos : Z) : bool := negb ((bm_size b <=? m_pos) || (m_pos <? 0))%Z.

(** Look for a set bit from [m_pos] on; [false] when it is found. *)
Definition find_up (b : Bitmap) (ns : list Z) (v m_pos : Z) : M S (bool * Z) :=
  cfold ns m_pos (λ n p,
    if (p <? bm_size b)%Z then
      if truthy (Z.land v (POS n)) then cret (false, p) else cret (true, (p + 1)%Z)
    else cret (true, p)).
Definition iter_next (b : Bitmap) (m_pos : Z) : M S Z :=
  let m_pos := (m_pos + 1)%Z in
  let left := (m_pos mod VALUE_SIZE)%Z in
  let! (go, m_pos) :=
    if truthy left then
      let! v := load b (m_pos / VALUE_SIZE) in
      find_up b (seqZ left (VALUE_SIZE - left)) v m_pos
    else cret (true, m_pos) in
  if negb go then cret m_pos else
  let! (_, m_pos) := cfold (seqZ (m_pos / VALUE_SIZE) (bm_dataSize b - m_pos / VALUE_SIZE)) m_pos (λ i p,
    if (p <? bm_size b)%Z then
      let! v := load b i in
      if negb (truthy v) then cret (true, (p + VALUE_SIZE)%Z) else find_up b (seqZ 0 VALUE_SIZE) v p
    else cret (true, p)) in
  cret m_pos.
Definition iter_begin (b : Bitmap) : M S Z := iter_next b (-1).

(** iterator_reverse *)
Definition find_down (ns : list Z) (v m_pos : Z) : M S (bool * Z) :=
  cfold ns m_pos (λ n p,
    if (0 <=? p)%Z then
      if truthy (Z.land v (POS n)) then cret (false, p) else cret (true, (p - 1)%Z)
    else cret (true, p)).
Definition iter_prev (b : Bitmap) (m_pos : Z) : M S Z :=
  if (m_pos <=? 0)%Z then cret (-1)%Z else
  let m_pos := (m_pos - 1)%Z in
  let left := (m_pos mod VALUE_SIZE)%Z in
  let pos := (m_pos / VALUE_SIZE)%Z in
  let! (go, m_pos) :=
    if negb (left =? VALUE_SIZE - 1)%Z then
      let! v := load b pos in
      find_down (reverse (seqZ 0 (left + 1))) v m_pos
    else cret (true, m_pos) in
  if negb go then cret m_pos else
  let pos := if negb (left =? VALUE_SIZE - 1)%Z then (pos - 1)%Z else pos in
  let! (_, m_pos) := cfold (reverse (seqZ 0 (pos + 1))) m_pos (λ i p,
    if (0 <=? p)%Z then
      let! v := load b i in
      if negb (truthy v) then cret (true, (p - VALUE_SIZE)%Z)
      else find_down (reverse (seqZ 0 VALUE_SIZE)) v p
    else cret (true, p)) in
  cret m_pos.
Definition iter_rbegin (b : Bitmap) : M S Z := iter_prev b (bm_size b).

(** [for(it = begin; !it; it.next()) out.push_back( *it )], as callers write it *)
Fixpoint iter_collect (next : Z → M S Z) (b : Bitmap) (fuel : nat) (m_pos : Z) (out : list Z) : M S (list Z) :=
  if negb (iter_valid b m_pos) then cret out
  else match fuel with
  | O => cstuck OutOfFuel
  | Datatypes.S fuel => let! p := next m_pos in iter_collect next b fuel p (out ++ [m_pos])
  end.
End iterators.

(** ** Questions about the whole map *)
Section queries.
Context {S : Type}.

(** __builtin_popcount over the low [n] bits *)
Definition popcount (n w : Z) : Z := Z.of_nat (length (filter (λ i, Z.testbit w i = true) (seqZ 0 n))).
Definition count_bits64 (v : Z) : Z := (popcount 32 (Z.land v (Z.ones 32)) + popcount 32 (Z.shiftr v 32))%Z.

(** getCount *)
Definition bm_getCount (b : Bitmap) : M S Z :=
  if negb (bm_compress b) then
    let len := (bm_dataSize b / U64_DIV_BASE)%Z in
    let! (_, (count, cur_pos)) := cfold (seqZ 0 len) (0, 0)%Z (λ i '(count, cur_pos),
      let! tmp := load64 b i in
      cret (true, (u32 (count + count_bits64 tmp), (cur_pos + U64_VALUE_SIZE)%Z))) in
    let! (_, (count, _)) := cfold (seqZ (len * U64_DIV_BASE) (bm_dataSize b - len * U64_DIV_BASE))
        (count, cur_pos) (λ i '(count, cur_pos),
      let! tmp := load b i in
      if truthy tmp then
        cfold (seqZ 0 VALUE_SIZE) (count, cur_pos) (λ n '(count, p),
          if (p <? bm_size b)%Z
          then cret (true, (if truthy (Z.land tmp (POS n)) then u32 (count + 1) else count, (p + 1)%Z))
          else cret (true, (count, p)))
      else cret (true, (count, (cur_pos + VALUE_SIZE)%Z))) in
    cret count
  else
    let! ws := stored b in
    cret (foldl (λ count tmp,
      if is_run tmp then if run_value tmp then u32 (count + Z.land tmp COUNT_MASK) else count
      else u32 (count + popcount 16 tmp)) 0%Z ws).

(** any; in a compressed map the word is first cut to a uint8_t *)
Fixpoint any_words (ws : list Z) (n : Z) : M S bool :=
  if (n <=? 0)%Z then cret false
  else match ws with
  | [] => cstuck OutOfBounds
  | w :: ws => if truthy w then cret true else any_words ws (n - 1)
  end.
Definition bm_any (b : Bitmap) : M S bool :=
  match bm_data b with
  | None => cret false
  | Some _ =>
    if negb (bm_compress b) then
      let! r := any_words (words b) (u32 (bm_dataSize b - 1)) in
      if r : bool then cret true else
      let! w := load b (bm_dataSize b - 1) in
      cret (truthy (Z.land w (MASK (bm_size b mod VALUE_SIZE))))
    else
      let! ws := stored b in
      cret (existsb (λ w, let cur := u8 w in if is_run cur then run_value cur else truthy cur) ws)
  end.

(** cross: an uncompressed map with another, compressed or not *)
Definition normalCross (a b : Bitmap) : M S bool :=
  let max_size := (bm_size a / U64_VALUE_SIZE)%Z in
  let! (none, _) := cfold (seqZ 0 max_size) tt (λ i _,
    let! x := load64 a i in
    if truthy x then let! y := load64 b i in cret (negb (truthy (Z.land x y)), tt) else cret (true, tt)) in
  if negb none then cret true else
  let! (none, _) := cfold (seqZ (max_size * U64_DIV_BASE) (bm_dataSize a - max_size * U64_DIV_BASE)) tt
    (λ i _, let! x := load a i in let! y := load b i in cret (negb (truthy (Z.land x y)), tt)) in
  cret (negb none).
Definition compressCross (a b : Bitmap) : M S bool :=
  segments_of b (λ cur_pos seg,
    match seg with
    | Run v count => if v then get_range a cur_pos count true else cret false
    | Literal w => let! x := load a (cur_pos / VALUE_SIZE) in cret (truthy (Z.land x w))
    end).
Definition bm_cross (a b : Bitmap) : M S bool :=
  if negb (bm_compress a) && bm_compress b then compressCross a b
  else if negb (bm_compress a) && negb (bm_compress b) then normalCross a b
  else cret false.
End queries.

Lemma seqZ_end lo n : (0 ≤ n)%Z → seqZ lo (Z.succ n) = seqZ lo n ++ [(lo + n)%Z].
Proof.
  intros Hn. unfold Z.succ. rewrite seqZ_app by lia. done.
Qed.

Lemma reverse_seqZ_succ lo n : (0 ≤ n)%Z → reverse (seqZ lo (Z.succ n)) = (lo + n)%Z :: reverse (seqZ lo n).
Proof. intros Hn. rewrite seqZ_end, reverse_app by lia. done. Qed.

(** ** Calling back on a list of positions *)
Section call_all.
Context {C : Type} (cb : Z → M C bool).
Local Open Scope Z_scope.

Fixpoint call_all (ps : list Z) : M C bool :=
  match ps with
  | [] => cret true
  | p :: ps => let! go := cb p in if go : bool then call_all ps else cret false
  end.

(** A loop that calls back exactly on [ps] and, if it is not told to stop,
    leaves its counter in [K]. *)
Definition tracks {B} (m : M C (bool * B)) (ps : list Z) (K : B → Prop) : Prop :=
  ∀ s, match call_all ps s with
       | Ret true s' => ∃ p, m s = Ret (true, p) s' ∧ K p
       | Ret false s' => ∃ p, m s = Ret (false, p) s'
       | Exn e s' => m s = Exn e s'
       | Stuck r => m s = Stuck r
       end.

Lemma tracks_ret {B} (p : B) (K : B → Prop) : K p → tracks (cret (true, p)) [] K.
Proof. intros HK s. by exists p. Qed.
Lemma tracks_cb {B} p (q : B) (K : B → Prop) : K q → tracks (let! go := cb p in cret (go, q)) [p] K.
Proof.
  intros HK s. unfold call_all, cbind, cret. destruct (cb p s) as [[]| |]; [by exists q|by exists q|done|done].
Qed.
Lemma tracks_weaken {B} (m : M C (bool * B)) ps (K K' : B → Prop) :
  (∀ p, K p → K' p) → tracks m ps K → tracks m ps K'.
Proof. intros HK H s. specialize (H s). destruct (call_all ps s) as [[]| |]; [|done..]. destruct H as (q & ? & ?). eauto. Qed.
Lemma tracks_load {B} b i (k : Z → M C (bool * B)) ps K :
  bm_wf b → 0 ≤ i < bm_dataSize b → tracks (k (wordv b i)) ps K → tracks (let! w := load b i in k w) ps K.
Proof.
  intros Hwf Hi H s. specialize (H s). by rewrite (cbind_Ret _ _ _ _ _ (wf_load b i s Hwf Hi)).
Qed.

(** A round and the rounds after it. *)
Lemma tracks_round {A B} (body : A → B → M C (bool * B)) a l p ps qs (K K' : B → Prop) :
  tracks (body a p) ps K → (∀ q, K q → tracks (cfold l q body) qs K') →
  tracks (cfold (a :: l) p body) (ps ++ qs) K'.
Proof.
  intros H1 H2 s. specialize (H1 s). revert H1.
  assert (call_all (ps ++ qs) s =
          (let! go := call_all ps in if go : bool then call_all qs else cret false) s) as ->.
  { clear. revert s. induction ps as [|x ps IH]; intros s; [done|]. simpl. unfold cbind in *.
    destruct (cb x s) as [[] ?| |]; [apply IH|done|done|done]. }
  unfold cbind. cbn [cfold]. unfold cbind. destruct (call_all ps s) as [[] s1|e s1|r].
  - intros (q & -> & HK). specialize (H2 q HK s1). done.
  - intros (q & ->). by exists q.
  - by intros ->.
  - by intros ->.
Qed.

Lemma tracks_up {B} (body : Z → B → M C (bool * B)) (Q : Z → list Z) (K : Z → B → Prop) lo n p :
  0 ≤ n → K lo p →
  (∀ i p, lo ≤ i < lo + n → K i p → tracks (body i p) (Q i) (K (i + 1))) →
  tracks (cfold (seqZ lo n) p body) (concat (Q <$> seqZ lo n)) (K (lo + n)).
Proof.
  intros Hn. revert lo p. pattern n. apply natlike_ind; [| |done]; clear n Hn.
  { intros lo p HK _. simpl. apply tracks_ret. by rewrite Z.add_0_r. }
  intros n Hn IH lo p HK Hbody. rewrite seqZ_cons by lia. cbn [fmap list_fmap concat].
  apply tracks_round with (K (lo + 1)); [apply Hbody; [lia|done]|].
  intros q Hq. replace (Z.pred (Z.succ n)) with n by lia.
  replace (lo + Z.succ n) with (Z.succ lo + n) by lia. apply IH; [done|]. intros i p' Hi. apply Hbody. lia.
Qed.

Lemma tracks_down {B} (body : Z → B → M C (bool * B)) (Q : Z → list Z) (K : Z → B → Prop) lo n p :
  0 ≤ n → K (lo + n) p →
  (∀ i p, lo ≤ i < lo + n → K (i + 1) p → tracks (body i p) (Q i) (K i)) →
  tracks (cfold (reverse (seqZ lo n)) p body) (concat (Q <$> reverse (seqZ lo n))) (K lo).
Proof.
  intros Hn. revert p. pattern n. apply natlike_ind; [| |done]; clear n Hn.
  { intros p HK _. simpl. apply tracks_ret. by rewrite Z.add_0_r in HK. }
  intros n Hn IH p HK Hbody. rewrite reverse_seqZ_succ by lia. cbn [fmap list_fmap concat].
  apply tracks_round with (K (lo + n)).
  - apply Hbody; [lia|]. by replace (lo + n + 1) with (lo + Z.succ n) by lia.
  - intros q Hq. apply IH; [done|]. intros i p' Hi. apply Hbody. lia.
Qed.
End call_all.

(** ** The set bits, word by word *)
Section positions.
Local Open Scope Z_scope.
Implicit Types b : Bitmap.

Definition bits_in (b : Bitmap) (lo n : Z) : list Z := filter (λ i, bit b i = true) (seqZ lo n).
(** The set bits of word [k]. *)
Definition word_bits (b : Bitmap) (k : Z) : list Z :=
  bits_in b (VALUE_SIZE * k) (VALUE_SIZE `min` (bm_size b - VALUE_SIZE * k)).

Lemma bits_in_app b lo n m : 0 ≤ n → 0 ≤ m → bits_in b lo (n + m) = bits_in b lo n ++ bits_in b (lo + n) m.
Proof. intros. unfold bits_in. rewrite seqZ_app by lia. apply list.filter_app. Qed.
Lemma bits_in_single b i : bits_in b i 1 = if bit b i then [i] else [].
Proof.
  unfold bits_in. change (seqZ i 1) with [i]. rewrite filter_cons. destruct (bit b i); by case_decide.
Qed.

Lemma words_bits b n :
  0 ≤ n → VALUE_SIZE * (n - 1) ≤ bm_size b →
  concat (word_bits b <$> seqZ 0 n) = bits_in b 0 (((VALUE_SIZE * n) `min` bm_size b) `max` 0).
Proof.
  intros Hn. pattern n. apply natlike_ind; [| |done]; clear n Hn.
  { intros _. rewrite Z.mul_0_r. replace (Z.max (Z.min 0 (bm_size b)) 0) with 0 by lia. done. }
  intros n Hn IH Hs. rewrite seqZ_end by lia. rewrite fmap_app, concat_app, IH by (unfold VALUE_SIZE in *; lia).
  simpl. rewrite app_nil_r, Z.add_0_l. unfold word_bits, VALUE_SIZE in *.
  replace (Z.max (Z.min (14 * Z.succ n) (bm_size b)) 0)
    with (14 * n + Z.max (Z.min 14 (bm_size b - 14 * n)) 0) by lia.
  replace (Z.max (Z.min (14 * n) (bm_size b)) 0) with (14 * n) by lia.
  rewrite bits_in_app by lia. f_equal. unfold bits_in.
  destruct (Z.le_gt_cases 0 (Z.min 14 (bm_size b - 14 * n))); [by rewrite Z.max_l by lia|].
  rewrite Z.max_r by lia. by rewrite !seqZ_nil by lia.
Qed.

Lemma positions_words b : bm_wf b → positions b = concat (word_bits b <$> seqZ 0 (bm_dataSize b)).
Proof.
  intros Hwf. destruct (data_size_spec (bm_size b)) as (Hd & Hlo & Hhi); [apply Hwf|].
  rewrite <- (wf_dataSize _ Hwf) in *. pose proof (wf_range _ Hwf).
  rewrite words_bits by lia. unfold positions, bits_in. do 2 f_equal. lia.
Qed.

Lemma word_bits_zero b k : 0 ≤ k → wordv b k = 0 → word_bits b k = [].
Proof.
  intros Hk Hw. unfold word_bits, bits_in. apply elem_of_nil_inv.
  intros i [Hb Hi%elem_of_seqZ]%list_elem_of_filter. revert Hb.
  assert (bit b i = false) as ->; [|done]. unfold bit, VALUE_SIZE in *.
  replace (i / 14) with k by lia. by rewrite Hw, Z.bits_0.
Qed.

(** The bits of word [k] in the order of their numbers. *)
Lemma word_bits_enum b k n :
  0 ≤ k → 0 ≤ n ≤ VALUE_SIZE → VALUE_SIZE * k ≤ bm_size b →
  concat ((λ j, if (VALUE_SIZE * k + j <? bm_size b) && Z.testbit (wordv b k) j
                then [VALUE_SIZE * k + j] else []) <$> seqZ 0 n) =
  bits_in b (VALUE_SIZE * k) (n `min` (bm_size b - VALUE_SIZE * k)).
Proof.
  intros Hk [Hn Hn2] Hs. revert Hn2. pattern n. apply natlike_ind; [| |done]; clear n Hn.
  { intros _. rewrite Z.min_l by lia. done. }
  intros n Hn IH Hn2. rewrite seqZ_end by lia. rewrite fmap_app, concat_app, IH by lia.
  cbn [fmap list_fmap concat]. rewrite app_nil_r, Z.add_0_l. set (c := VALUE_SIZE * k) in *.
  destruct (Z.ltb_spec (c + n) (bm_size b)); simpl.
  - replace (Z.succ n `min` (bm_size b - c)) with (n + 1) by lia.
    rewrite Z.min_l by lia. rewrite bits_in_app by lia. f_equal. rewrite bits_in_single.
    unfold bit. unfold c, VALUE_SIZE in *. replace ((14 * k + n) / 14) with k by lia.
    by replace ((14 * k + n) mod 14) with n by lia.
  - rewrite app_nil_r. f_equal. lia.
Qed.

Lemma four_zero b i : bm_wf b → four b i = 0 → ∀ k, 0 ≤ k < 4 → wordv b (4 * i + k) = 0.
Proof.
  intros Hwf H0 k Hk. rewrite <- (piece_four b i k); [by rewrite H0; unfold piece; rewrite Z.shiftr_0_l| |done].
  intros j _. by apply wordv_range.
Qed.
Lemma truthy_false z : truthy z = false ↔ z = 0.
Proof. unfold truthy. rewrite negb_false_iff. apply Z.eqb_eq. Qed.
End positions.

(** ** foreach and rforeach *)
Section scanning.
Context {C : Type} (cb : Z → M C bool).
Local Open Scope Z_scope.
Implicit Types b : Bitmap.

Lemma visit_up_tracks b k :
  0 ≤ k → VALUE_SIZE * k ≤ bm_size b →
  tracks cb (visit_up (bm_size b) cb (wordv b k) (VALUE_SIZE * k)) (word_bits b k)
    (λ p, p = (VALUE_SIZE * (k + 1)) `min` bm_size b).
Proof.
  intros Hk Hs. unfold word_bits. rewrite <- word_bits_enum by (unfold VALUE_SIZE in *; lia).
  set (c := VALUE_SIZE * k) in *.
  apply tracks_weaken with (λ p, p = (c + (0 + VALUE_SIZE)) `min` bm_size b); [unfold c; intros; lia|].
  apply (tracks_up cb _ _ (λ n p, p = (c + n) `min` bm_size b)); [done|lia|].
  intros n p Hn ->. destruct (Z.ltb_spec (c + n) (bm_size b)).
  - rewrite Z.min_l, (proj2 (Z.ltb_lt _ _)) by lia. cbn [andb]. rewrite truthy_land by lia.
    destruct (Z.testbit (wordv b k) n); [apply tracks_cb; lia|apply tracks_ret; lia].
  - rewrite Z.min_r, (proj2 (Z.ltb_ge _ _)) by lia. apply tracks_ret. lia.
Qed.

(** A word, or four, that is zero is skipped. *)
Lemma word_tracks b i :
  bm_wf b → 0 ≤ i < bm_dataSize b →
  tracks cb (let! tmp := load b i in
             if negb (truthy tmp) then cret (true, VALUE_SIZE * i + VALUE_SIZE)
             else visit_up (bm_size b) cb tmp (VALUE_SIZE * i))
    (word_bits b i) (λ p, i + 1 < bm_dataSize b → p = VALUE_SIZE * (i + 1)).
Proof.
  intros Hwf Hi. apply tracks_load; [done|done|].
  destruct (data_size_spec (bm_size b)) as (_ & Hlo & _); [apply Hwf|]. rewrite <- wf_dataSize in Hlo by done.
  unfold VALUE_SIZE in Hlo. destruct (truthy (wordv b i)) eqn:E; cbn [negb].
  - eapply tracks_weaken; [|apply visit_up_tracks; unfold VALUE_SIZE; lia].
    simpl. intros p -> ?. unfold VALUE_SIZE. lia.
  - apply truthy_false in E. rewrite word_bits_zero by (done || lia). apply tracks_ret. lia.
Qed.

Definition block_bits (b : Bitmap) (i : Z) : list Z := concat ((λ n, word_bits b (4 * i + n)) <$> seqZ 0 4).

Lemma block_tracks b i :
  bm_wf b → 0 ≤ i < bm_size b / U64_VALUE_SIZE →
  tracks cb (let! tmp := load64 b i in
             if negb (truthy tmp) then cret (true, U64_VALUE_SIZE * i + U64_VALUE_SIZE)
             else cfold (seqZ 0 U64_DIV_BASE) (U64_VALUE_SIZE * i) (λ n cur_pos,
                    let! tmp := load b (i * U64_DIV_BASE + n) in
                    visit_up (bm_size b) cb tmp cur_pos))
    (block_bits b i) (λ p, p = U64_VALUE_SIZE * (i + 1)).
Proof.
  intros Hwf Hi. destruct (data_size_blocks (bm_size b)) as [_ Hm]; [apply Hwf|].
  pose proof (wf_alloc _ Hwf). rewrite <- wf_dataSize in Hm by done.
  intros s. rewrite (cbind_Ret _ _ _ _ _ (load64_Some b i s ltac:(lia) ltac:(lia))). revert s.
  unfold U64_VALUE_SIZE, U64_DIV_BASE in *. destruct (truthy (four b i)) eqn:E; cbn [negb].
  - unfold block_bits.
    apply tracks_weaken with (λ p, p = VALUE_SIZE * (4 * i + (0 + 4))); [unfold VALUE_SIZE; intros; lia|].
    apply (tracks_up cb _ _ (λ n p, p = VALUE_SIZE * (4 * i + n))); [lia|unfold VALUE_SIZE; lia|].
    intros n p Hn ->. rewrite (Z.mul_comm i 4). apply tracks_load; [done|lia|].
    eapply tracks_weaken; [|apply visit_up_tracks; unfold VALUE_SIZE; lia].
    simpl. intros p ->. unfold VALUE_SIZE. lia.
  - apply truthy_false in E. assert (block_bits b i = []) as ->; [|apply tracks_ret; lia].
    pose proof (four_zero b i Hwf E) as Hz. unfold block_bits.
    change (seqZ 0 4) with [0; 1; 2; 3].
    cbn [fmap list_fmap concat]. rewrite !word_bits_zero by (try apply Hz; lia). done.
Qed.

Lemma blocks_bits b m : 0 ≤ m →
  concat (block_bits b <$> seqZ 0 m) = concat (word_bits b <$> seqZ 0 (4 * m)).
Proof.
  intros Hm. pattern m. apply natlike_ind; [done| |done]; clear m Hm.
  intros m Hm IH. rewrite seqZ_end, fmap_app, concat_app, IH by lia.
  replace (4 * Z.succ m) with (4 * m + 4) by lia. rewrite seqZ_app, fmap_app, concat_app by lia.
  f_equal. cbn [fmap list_fmap concat]. rewrite app_nil_r, !Z.add_0_l. unfold block_bits.
  replace (seqZ (4 * m) 4) with (Z.add (4 * m) <$> seqZ 0 4) by (by rewrite fmap_add_seqZ, Z.add_0_r).
  by rewrite <- list_fmap_compose.
Qed.
Lemma positions_blocks b : bm_wf b → let m := bm_size b / U64_VALUE_SIZE in
  positions b = concat (block_bits b <$> seqZ 0 m) ++
    concat (word_bits b <$> seqZ (m * U64_DIV_BASE) (bm_dataSize b - m * U64_DIV_BASE)).
Proof.
  intros Hwf m. destruct (data_size_blocks (bm_size b)) as [Hm0 Hm]; [apply Hwf|].
  rewrite <- wf_dataSize in Hm by done. fold m in Hm0, Hm. unfold U64_DIV_BASE.
  rewrite positions_words, blocks_bits, <- concat_app, <- fmap_app by done. do 2 f_equal.
  replace (bm_dataSize b) with (4 * m + (bm_dataSize b - 4 * m)) at 1 by lia.
  rewrite seqZ_app by lia. f_equal. f_equal; lia.
Qed.

Lemma call_all_app ps qs s :
  call_all cb (ps ++ qs) s =
  (let! go := call_all cb ps in if go : bool then call_all cb qs else cret false) s.
Proof.
  revert s. induction ps as [|x ps IH]; intros s; [done|]. simpl. unfold cbind in *.
  destruct (cb x s) as [[] ?| |]; [apply IH|done|done|done].
Qed.

(** Two tracked loops, the second one run unless the first has stopped. *)
Lemma tracks_then (m1 : M C (bool * Z)) (m2 : Z → M C (bool * Z)) ps qs K K' s :
  tracks cb m1 ps K → (∀ p, K p → tracks cb (m2 p) qs K') →
  (let! (go, p) := m1 in if negb go then cret tt else let! _ := m2 p in cret tt) s =
  (let! _ := call_all cb (ps ++ qs) in cret tt) s.
Proof.
  intros H1 H2. unfold cbind at 1 3. rewrite call_all_app. unfold cbind at 2. specialize (H1 s).
  destruct (call_all cb ps s) as [[] s1|e s1|r].
  - destruct H1 as (p & -> & HK). cbn [negb]. specialize (H2 p HK s1). unfold cbind.
    destruct (call_all cb qs s1) as [[] ?| |]; [destruct H2 as (? & -> & _); done|destruct H2 as (? & ->); done|..];
      by rewrite H2.
  - destruct H1 as (p & ->). done.
  - by rewrite H1.
  - by rewrite H1.
Qed.

Lemma foreach_spec b s : bm_wf b →
  bm_foreach b cb s = (let! _ := call_all cb (positions b) in cret tt) s.
Proof.
  intros Hwf. rewrite (positions_blocks b Hwf). unfold bm_foreach.
  destruct (data_size_blocks (bm_size b)) as [Hm0 Hm]; [apply Hwf|]. rewrite <- wf_dataSize in Hm by done.
  apply tracks_then with (K := λ p, p = U64_VALUE_SIZE * (0 + bm_size b / U64_VALUE_SIZE)) (K' := λ _, True).
  - apply (tracks_up cb _ _ (λ i p, p = U64_VALUE_SIZE * i)); [done|lia|].
    intros i p Hi ->. apply block_tracks; [done|lia].
  - intros p ->. unfold U64_DIV_BASE. eapply tracks_weaken; [done|].
    apply (tracks_up cb _ _ (λ i p, i < bm_dataSize b → p = VALUE_SIZE * i)); [lia| |].
    { intros _. unfold U64_VALUE_SIZE, VALUE_SIZE. lia. }
    intros i p Hi Hp. rewrite Hp by lia. apply word_tracks; [done|lia].
Qed.

(** Downwards *)
Lemma u32_sub a k : u32 (u32 a - k) = u32 (a - k).
Proof. unfold uwrap. by rewrite Zminus_mod_idemp_l. Qed.
Lemma u32_add a k : u32 (u32 a + k) = u32 (a + k).
Proof. unfold uwrap. by rewrite Zplus_mod_idemp_l. Qed.
Lemma u32_id a : 0 ≤ a < 2 ^ 32 → u32 a = a.
Proof. intros. by apply uwrap_id. Qed.

Lemma reverse_concat_fmap {A B} (Q : A → list B) l :
  reverse (concat (Q <$> l)) = concat (reverse ∘ Q <$> reverse l).
Proof.
  induction l as [|a l IH]; [done|]. cbn [fmap list_fmap concat].
  rewrite reverse_app, reverse_cons, fmap_app, concat_app, IH. simpl. by rewrite app_nil_r.
Qed.

Lemma visit_down_tracks b k from :
  bm_wf b → tidy b → 0 ≤ k < bm_dataSize b → 0 ≤ from < VALUE_SIZE →
  bm_size b - VALUE_SIZE * k ≤ from ∨ from = VALUE_SIZE - 1 →
  tracks cb (visit_down cb from (wordv b k) (u32 (VALUE_SIZE * k + from))) (reverse (word_bits b k))
    (λ p, p = u32 (VALUE_SIZE * k - 1)).
Proof.
  intros Hwf Ht Hk Hf Hfrom. unfold word_bits.
  destruct (data_size_spec (bm_size b)) as (_ & Hlo & _); [apply Hwf|]. rewrite <- wf_dataSize in Hlo by done.
  pose proof (wf_range _ Hwf).
  replace (VALUE_SIZE `min` (bm_size b - VALUE_SIZE * k))
    with ((from + 1) `min` (bm_size b - VALUE_SIZE * k)) by (unfold VALUE_SIZE in *; lia).
  rewrite <- word_bits_enum by (unfold VALUE_SIZE in *; lia). rewrite reverse_concat_fmap.
  set (c := VALUE_SIZE * k) in *.
  apply tracks_weaken with (λ p, p = u32 (c + 0 - 1)); [intros p ->; f_equal; lia|].
  apply (tracks_down cb _ _ (λ n p, p = u32 (c + n - 1))); [lia|f_equal; lia|].
  intros n p Hn ->. rewrite truthy_land by lia. replace (c + (n + 1) - 1) with (c + n) by lia.
  assert (Z.testbit (wordv b k) n = true → c + n < bm_size b) as Hin by (intros; by apply Ht; [|lia|]).
  unfold compose. rewrite u32_sub.
  destruct (Z.testbit (wordv b k) n); [|rewrite andb_false_r; by apply tracks_ret].
  rewrite (proj2 (Z.ltb_lt _ _)) by auto. rewrite (u32_id (c + n)) by (unfold c, VALUE_SIZE in *; lia).
  by apply tracks_cb.
Qed.

(** The position after the last bit of word [i - 1]. *)
Definition word_end (b : Bitmap) (i : Z) : Z := if i =? bm_dataSize b then bm_size b else VALUE_SIZE * i.

Lemma rword_tracks b i cur_pos :
  let left := bm_size b mod VALUE_SIZE in
  bm_wf b → tidy b → 0 ≤ i < bm_dataSize b → cur_pos = u32 (word_end b (i + 1) - 1) →
  tracks cb
    (let! tmp := load b i in
     if negb (truthy tmp) then
       cret (true, u32 (cur_pos - (if i =? bm_dataSize b - 1 then if left =? 0 then VALUE_SIZE else left
                                   else VALUE_SIZE)))
     else if i =? bm_dataSize b - 1 then
       if left =? 0 then visit_down cb (VALUE_SIZE - 1) tmp cur_pos
       else visit_down cb left tmp (u32 (cur_pos + 1))
     else visit_down cb (VALUE_SIZE - 1) tmp cur_pos)
    (reverse (word_bits b i)) (λ p, p = u32 (word_end b i - 1)).
Proof.
  intros left Hwf Ht Hi ->. apply tracks_load; [done|done|].
  destruct (data_size_spec (bm_size b)) as (_ & Hlo & Hhi); [apply Hwf|]. rewrite <- wf_dataSize in Hlo, Hhi by done.
  assert (word_end b i = VALUE_SIZE * i) as -> by (unfold word_end; by rewrite (proj2 (Z.eqb_neq _ _)) by lia).
  assert (word_end b (i + 1) = VALUE_SIZE * i +
    (if i =? bm_dataSize b - 1 then if left =? 0 then VALUE_SIZE else left else VALUE_SIZE)) as Hend.
  { unfold word_end, left, VALUE_SIZE in *. destruct (Z.eqb_spec (i + 1) (bm_dataSize b)), (Z.eqb_spec i (bm_dataSize b - 1));
      try lia. destruct (Z.eqb_spec (bm_size b mod 14) 0); lia. }
  destruct (truthy (wordv b i)) eqn:E; cbn [negb].
  2:{ apply truthy_false in E. rewrite word_bits_zero by (done || lia). apply tracks_ret.
      rewrite u32_sub, Hend. f_equal. lia. }
  assert (0 ≤ left < VALUE_SIZE) by (unfold left, VALUE_SIZE; lia).
  destruct (Z.eqb_spec i (bm_dataSize b - 1)); [destruct (Z.eqb_spec left 0)|].
  - replace (word_end b (i + 1) - 1) with (VALUE_SIZE * i + (VALUE_SIZE - 1)) by (unfold VALUE_SIZE in *; lia).
    apply visit_down_tracks; [done|done|done|unfold VALUE_SIZE; lia|by right].
  - rewrite u32_add. replace (word_end b (i + 1) - 1 + 1) with (VALUE_SIZE * i + left) by lia.
    apply visit_down_tracks; [done|done|done|done|left].
    subst i. unfold word_end in Hend. rewrite (proj2 (Z.eqb_eq _ _)) in Hend by lia. lia.
  - replace (word_end b (i + 1) - 1) with (VALUE_SIZE * i + (VALUE_SIZE - 1)) by (unfold VALUE_SIZE in *; lia).
    apply visit_down_tracks; [done|done|done|unfold VALUE_SIZE; lia|by right].
Qed.

Lemma rblock_tracks b i :
  bm_wf b → tidy b → 0 ≤ i < bm_size b / U64_VALUE_SIZE →
  tracks cb (let! tmp := load64 b i in
             if negb (truthy tmp) then cret (true, u32 (u32 (U64_VALUE_SIZE * (i + 1) - 1) - U64_VALUE_SIZE))
             else cfold (seqZ 0 U64_DIV_BASE) (u32 (U64_VALUE_SIZE * (i + 1) - 1)) (λ n cur_pos,
                    let! tmp := load b ((i + 1) * U64_DIV_BASE - 1 - n) in
                    visit_down cb (VALUE_SIZE - 1) tmp cur_pos))
    (reverse (block_bits b i)) (λ p, p = u32 (U64_VALUE_SIZE * i - 1)).
Proof.
  intros Hwf Ht Hi. destruct (data_size_blocks (bm_size b)) as [_ Hm]; [apply Hwf|].
  pose proof (wf_alloc _ Hwf). rewrite <- wf_dataSize in Hm by done.
  intros s. rewrite (cbind_Ret _ _ _ _ _ (load64_Some b i s ltac:(lia) ltac:(lia))). revert s.
  unfold U64_VALUE_SIZE, U64_DIV_BASE in *. destruct (truthy (four b i)) eqn:E; cbn [negb].
  - assert (reverse (block_bits b i) =
      concat ((λ n, reverse (word_bits b ((i + 1) * 4 - 1 - n))) <$> seqZ 0 4)) as ->.
    { unfold block_bits. rewrite reverse_concat_fmap. change (seqZ 0 4) with [0; 1; 2; 3].
      change (reverse [0; 1; 2; 3]) with [3; 2; 1; 0]. cbn [fmap list_fmap concat]. unfold compose.
      replace ((i + 1) * 4 - 1 - 0) with (4 * i + 3) by lia. replace ((i + 1) * 4 - 1 - 1) with (4 * i + 2) by lia.
      replace ((i + 1) * 4 - 1 - 2) with (4 * i + 1) by lia. by replace ((i + 1) * 4 - 1 - 3) with (4 * i + 0) by lia. }
    apply tracks_weaken with (λ p, p = u32 (VALUE_SIZE * (4 * (i + 1) - (0 + 4)) - 1));
      [intros p ->; unfold VALUE_SIZE; f_equal; lia|].
    apply (tracks_up cb _ _ (λ n p, p = u32 (VALUE_SIZE * (4 * (i + 1) - n) - 1)));
      [lia|unfold VALUE_SIZE; f_equal; lia|].
    intros n p Hn ->. apply tracks_load; [done|lia|].
    replace (VALUE_SIZE * (4 * (i + 1) - n) - 1) with (VALUE_SIZE * ((i + 1) * 4 - 1 - n) + (VALUE_SIZE - 1))
      by (unfold VALUE_SIZE; lia).
    eapply tracks_weaken; [|apply visit_down_tracks; try done; [lia|by right]].
    simpl. intros p ->. f_equal. unfold VALUE_SIZE. lia.
  - apply truthy_false in E. assert (block_bits b i = []) as ->; [|apply tracks_ret; rewrite u32_sub; f_equal; lia].
    pose proof (four_zero b i Hwf E) as Hz. unfold block_bits. change (seqZ 0 4) with [0; 1; 2; 3].
    cbn [fmap list_fmap concat]. rewrite !word_bits_zero by (try apply Hz; lia). done.
Qed.

Lemma rforeach_spec b s : bm_wf b → tidy b →
  bm_rforeach b cb s = (let! _ := call_all cb (reverse (positions b)) in cret tt) s.
Proof.
  intros Hwf Ht. rewrite (positions_blocks b Hwf), reverse_app, !reverse_concat_fmap. unfold bm_rforeach.
  destruct (data_size_blocks (bm_size b)) as [Hm0 Hm]; [apply Hwf|]. rewrite <- wf_dataSize in Hm by done.
  destruct (data_size_spec (bm_size b)) as (_ & Hlo & Hhi); [apply Hwf|]. rewrite <- wf_dataSize in Hlo, Hhi by done.
  set (m := bm_size b / U64_VALUE_SIZE) in *. unfold U64_DIV_BASE.
  apply tracks_then with (K := λ p, p = u32 (U64_VALUE_SIZE * (0 + m) - 1)) (K' := λ _, True).
  - destruct (truthy (bm_size b mod U64_VALUE_SIZE)) eqn:E.
    + assert (m * 4 < bm_dataSize b).
      { unfold truthy in E. apply negb_true_iff, Z.eqb_neq in E. unfold m, U64_VALUE_SIZE, VALUE_SIZE in *. lia. }
      eapply tracks_weaken; [|apply (tracks_down cb _ _ (λ i p, p = u32 (word_end b i - 1)))].
      * simpl. intros p ->. unfold word_end. rewrite (proj2 (Z.eqb_neq _ _)) by lia.
        unfold U64_VALUE_SIZE, VALUE_SIZE. f_equal. lia.
      * lia.
      * unfold word_end. by rewrite (proj2 (Z.eqb_eq _ _)) by lia.
      * intros i p Hi ->. apply rword_tracks; [done|done|lia|done].
    + apply truthy_false in E. assert (bm_dataSize b = m * 4 ∧ bm_size b = 56 * m) as [-> ->].
      { unfold m, U64_VALUE_SIZE, VALUE_SIZE in *. lia. }
      rewrite Z.sub_diag. simpl. by apply tracks_ret.
  - intros p ->. eapply tracks_weaken; [done|].
    apply (tracks_down cb _ _ (λ i p, p = u32 (U64_VALUE_SIZE * i - 1))); [lia|done|].
    intros i p Hi ->. apply rblock_tracks; [done|done|unfold m in Hi; lia].
Qed.
End scanning.

(** ** Iterators *)
Section iterating.
Context {S : Type}.
Local Open Scope Z_scope.
Implicit Types (b : Bitmap) (s : S).

(** Loops that only read: an invariant, and what holds when they leave. *)
Lemma cfold_up {B} (body : Z → B → M S (bool * B)) (I : Z → B → Prop) (F : B → Prop) lo n p s :
  0 ≤ n → I lo p →
  (∀ i p, lo ≤ i < lo + n → I i p →
     ∃ (go : bool) p', body i p s = Ret (go, p') s ∧ if go then I (i + 1) p' else F p') →
  ∃ (go : bool) p', cfold (seqZ lo n) p body s = Ret (go, p') s ∧ if go then I (lo + n) p' else F p'.
Proof.
  intros Hn. revert lo p. pattern n. apply natlike_ind; [| |done]; clear n Hn.
  { intros lo p HI _. exists true, p. by rewrite Z.add_0_r. }
  intros n Hn IH lo p HI Hbody. rewrite seqZ_cons by lia. cbn [cfold].
  destruct (Hbody lo p) as (go & q & Hr & Hgo); [lia|done|]. rewrite (cbind_Ret _ _ _ _ _ Hr).
  destruct go; [|by exists false, q]. replace (Z.pred (Z.succ n)) with n by lia.
  replace (lo + Z.succ n) with (Z.succ lo + n) by lia. apply IH; [done|].
  intros i p' Hi. apply Hbody. lia.
Qed.
Lemma cfold_down {B} (body : Z → B → M S (bool * B)) (I : Z → B → Prop) (F : B → Prop) lo n p s :
  0 ≤ n → I (lo + n) p →
  (∀ i p, lo ≤ i < lo + n → I (i + 1) p →
     ∃ (go : bool) p', body i p s = Ret (go, p') s ∧ if go then I i p' else F p') →
  ∃ (go : bool) p', cfold (reverse (seqZ lo n)) p body s = Ret (go, p') s ∧ if go then I lo p' else F p'.
Proof.
  intros Hn. revert p. pattern n. apply natlike_ind; [| |done]; clear n Hn.
  { intros p HI _. exists true, p. by rewrite Z.add_0_r in HI. }
  intros n Hn IH p HI Hbody. rewrite reverse_seqZ_succ by lia. cbn [cfold].
  destruct (Hbody (lo + n) p) as (go & q & Hr & Hgo);
    [lia|by replace (lo + n + 1) with (lo + Z.succ n) by lia|].
  rewrite (cbind_Ret _ _ _ _ _ Hr). destruct go; [|by exists false, q].
  apply IH; [done|]. intros i p' Hi. apply Hbody. lia.
Qed.

(** No set bit from [lo] up to [p], none from [p] down to [hi]. *)
Definition none_up b lo p := lo ≤ p ∧ ∀ i, lo ≤ i < p → i < bm_size b → bit b i = false.
Definition found_up b lo p := none_up b lo p ∧ p < bm_size b ∧ bit b p = true.
Definition none_down b hi p := p ≤ hi ∧ ∀ i, p < i ≤ hi → 0 ≤ i → bit b i = false.
Definition found_down b hi p := none_down b hi p ∧ 0 ≤ p ∧ bit b p = true.

Lemma bit_word b k n : 0 ≤ n < VALUE_SIZE → bit b (VALUE_SIZE * k + n) = Z.testbit (wordv b k) n.
Proof.
  intros Hn. unfold bit, VALUE_SIZE in *. replace ((14 * k + n) / 14) with k by lia.
  by replace ((14 * k + n) mod 14) with n by lia.
Qed.

Lemma find_up_spec b k n0 lo p s :
  0 ≤ n0 ≤ VALUE_SIZE → none_up b lo p → p = (VALUE_SIZE * k + n0) `min` bm_size b →
  ∃ (go : bool) p', find_up b (seqZ n0 (VALUE_SIZE - n0)) (wordv b k) p s = Ret (go, p') s ∧
    if go then none_up b lo p' ∧ p' = (VALUE_SIZE * (k + 1)) `min` bm_size b else found_up b lo p'.
Proof.
  intros Hn Hnone Hp. unfold find_up.
  destruct (cfold_up (λ n p, if p <? bm_size b then
      if truthy (Z.land (wordv b k) (POS n)) then cret (false, p) else cret (true, p + 1)
    else cret (true, p)) (λ n p, none_up b lo p ∧ p = (VALUE_SIZE * k + n) `min` bm_size b) (found_up b lo)
    n0 (VALUE_SIZE - n0) p s) as (go & q & Hr & Hq); [lia|done| |].
  - intros n q Hn' [Hno ->]. destruct (Z.ltb_spec ((VALUE_SIZE * k + n) `min` bm_size b) (bm_size b)).
    2:{ eexists true, _. split; [done|]. split; [done|lia]. }
    rewrite Z.min_l in * by lia. rewrite truthy_land, <- bit_word by lia.
    destruct (bit b (VALUE_SIZE * k + n)) eqn:E.
    + eexists false, _. split; [done|]. by split_and!.
    + eexists true, _. split; [done|]. split; [|lia]. destruct Hno as [Hle Hno]. split; [lia|].
      intros i Hi Hs. destruct (Z.eq_dec i (VALUE_SIZE * k + n)) as [->|]; [done|]. apply Hno; [lia|done].
  - exists go, q. split; [done|]. destruct go; [|done]. destruct Hq as [? ->]. split; [done|].
    f_equal. unfold VALUE_SIZE. lia.
Qed.

Lemma none_up_word b k lo p :
  wordv b k = 0 → p = VALUE_SIZE * k → none_up b lo p → none_up b lo (p + VALUE_SIZE).
Proof.
  intros Hw -> [Hle Hno]. unfold VALUE_SIZE in *. split; [lia|]. intros i Hi Hs.
  destruct (Z.lt_ge_cases i (14 * k)); [apply Hno; lia|].
  replace i with (VALUE_SIZE * k + (i - 14 * k)) by (unfold VALUE_SIZE; lia).
  rewrite bit_word by (unfold VALUE_SIZE; lia). by rewrite Hw, Z.bits_0.
Qed.

(** The rest of the word the iterator is in. *)
Lemma iter_head_spec b q s :
  bm_wf b → 0 ≤ q ≤ bm_size b →
  ∃ (go : bool) p', (if truthy (q mod VALUE_SIZE) then
      let! v := load b (q / VALUE_SIZE) in
      find_up b (seqZ (q mod VALUE_SIZE) (VALUE_SIZE - q mod VALUE_SIZE)) v q
    else cret (true, q)) s = Ret (go, p') s ∧
    if go then none_up b q p' ∧ (p' < bm_size b → p' mod VALUE_SIZE = 0) else found_up b q p'.
Proof.
  intros Hwf Hq.
  destruct (data_size_spec (bm_size b)) as (_ & Hlo & Hhi); [apply Hwf|].
  rewrite <- (wf_dataSize _ Hwf) in Hlo, Hhi.
  assert (none_up b q q) as Hq0 by (split; [done|lia]).
  destruct (truthy (q mod VALUE_SIZE)) eqn:E.
  - assert (q mod VALUE_SIZE ≠ 0) as Hm by (intros Hz; unfold truthy in E; by rewrite Hz in E).
    rewrite (cbind_Ret _ _ _ _ _ (wf_load b (q / VALUE_SIZE) s Hwf ltac:(unfold VALUE_SIZE in *; lia))).
    destruct (find_up_spec b (q / VALUE_SIZE) (q mod VALUE_SIZE) q q s) as (go & p' & Hr & Hr');
      [unfold VALUE_SIZE; lia|done|unfold VALUE_SIZE in *; lia|].
    exists go, p'. split; [done|]. destruct go; [|done]. destruct Hr' as [? ->].
    split; [done|]. unfold VALUE_SIZE in *. lia.
  - apply truthy_false in E. exists true, q. split; [done|]. by split.
Qed.

(** The words after it. *)
Lemma iter_words_spec b lo p s :
  bm_wf b → 0 ≤ p → none_up b lo p → (p < bm_size b → p mod VALUE_SIZE = 0) →
  ∃ (go : bool) p', cfold (seqZ (p / VALUE_SIZE) (bm_dataSize b - p / VALUE_SIZE)) p (λ i p,
      if p <? bm_size b then
        let! v := load b i in
        if negb (truthy v) then cret (true, p + VALUE_SIZE) else find_up b (seqZ 0 VALUE_SIZE) v p
      else cret (true, p)) s = Ret (go, p') s ∧
    if go then none_up b lo p' ∧ bm_size b ≤ p' else found_up b lo p'.
Proof.
  intros Hwf Hp Hno Hmod.
  destruct (data_size_spec (bm_size b)) as (_ & Hlo & Hhi); [apply Hwf|].
  rewrite <- (wf_dataSize _ Hwf) in Hlo, Hhi.
  destruct (Z.le_gt_cases 0 (bm_dataSize b - p / VALUE_SIZE)) as [Hd|Hd].
  2:{ rewrite seqZ_nil by lia. exists true, p. split; [done|]. split; [done|unfold VALUE_SIZE in *; lia]. }
  match goal with |- context [cfold _ _ ?f] => set (body := f) end.
  destruct (cfold_up body (λ i p, none_up b lo p ∧ (p < bm_size b → p = VALUE_SIZE * i)) (found_up b lo)
              (p / VALUE_SIZE) (bm_dataSize b - p / VALUE_SIZE) p s)
    as (go & p2 & Hr & H2); [lia|split; [done|unfold VALUE_SIZE in *; lia]| |].
  - intros i p' Hi [Hno' Hpi]. unfold body. destruct (Z.ltb_spec p' (bm_size b)) as [Hlt|Hge].
    2:{ exists true, p'. split; [done|]. split; [done|lia]. }
    specialize (Hpi Hlt). subst p'.
    rewrite (cbind_Ret _ _ _ _ _ (wf_load b i s Hwf ltac:(unfold VALUE_SIZE in *; lia))).
    destruct (truthy (wordv b i)) eqn:E; cbn [negb].
    + destruct (find_up_spec b i 0 lo (VALUE_SIZE * i) s) as (go & p' & Hr & Hr');
        [unfold VALUE_SIZE; lia|done|lia|]. change (VALUE_SIZE - 0) with VALUE_SIZE in Hr.
      exists go, p'. split; [done|]. destruct go; [|done]. destruct Hr' as [? ->]. split; [done|lia].
    + apply truthy_false in E. eexists true, _. split; [done|].
      split; [by apply (none_up_word b i)|unfold VALUE_SIZE; lia].
  - exists go, p2. split; [done|]. destruct go; [|done]. destruct H2 as [Hno2 Hp2]. split; [done|].
    unfold VALUE_SIZE in *. lia.
Qed.

Lemma iter_next_spec b p s :
  bm_wf b → -1 ≤ p < bm_size b →
  ∃ p', iter_next b p s = Ret p' s ∧ none_up b (p + 1) p' ∧ (p' < bm_size b → bit b p' = true).
Proof.
  intros Hwf Hp. unfold iter_next.
  destruct (iter_head_spec b (p + 1) s Hwf) as (go & p1 & Hr1 & H1); [lia|].
  rewrite (cbind_Ret _ _ _ _ _ Hr1).
  destruct go; cbn [negb]; [|exists p1; split; [done|]; split; [apply H1|intros _; apply H1]].
  destruct H1 as (Hno1 & Hmod).
  destruct (iter_words_spec b (p + 1) p1 s Hwf) as (go & p2 & Hr2 & H2); [|done|done|].
  { destruct Hno1. lia. }
  rewrite (cbind_Ret _ _ _ _ _ Hr2). exists p2. split; [done|].
  destruct go; [destruct H2; split; [done|lia]|split; [apply H2|intros _; apply H2]].
Qed.

(** Backwards *)
Lemma find_down_spec k n0 hi p s b :
  0 ≤ k → 0 ≤ n0 < VALUE_SIZE → none_down b hi p → p = VALUE_SIZE * k + n0 →
  ∃ (go : bool) p', find_down (reverse (seqZ 0 (n0 + 1))) (wordv b k) p s = Ret (go, p') s ∧
    if go then none_down b hi p' ∧ p' = VALUE_SIZE * k - 1 else found_down b hi p'.
Proof.
  intros Hk Hn Hnone Hp. unfold find_down.
  match goal with |- context [cfold _ _ ?f] => set (body := f) end.
  destruct (cfold_down body (λ n p, none_down b hi p ∧ p = VALUE_SIZE * k + n - 1) (found_down b hi)
    0 (n0 + 1) p s) as (go & q & Hr & Hq); [lia|split; [done|lia]| |].
  - intros n q Hn' [Hno ->]. unfold body. rewrite (proj2 (Z.leb_le _ _)) by (unfold VALUE_SIZE; lia).
    replace (VALUE_SIZE * k + (n + 1) - 1) with (VALUE_SIZE * k + n) in * by lia.
    rewrite truthy_land, <- bit_word by lia. destruct (bit b (VALUE_SIZE * k + n)) eqn:E.
    + eexists false, _. split; [done|]. split; [done|]. split; [unfold VALUE_SIZE; lia|done].
    + eexists true, _. split; [done|]. split; [|done]. destruct Hno as [Hle Hno]. split; [lia|].
      intros i Hi Hs. destruct (Z.eq_dec i (VALUE_SIZE * k + n)) as [->|]; [done|]. apply Hno; [lia|done].
  - exists go, q. split; [done|]. destruct go; [|done]. destruct Hq as [? ->]. split; [done|lia].
Qed.

Lemma none_down_word b k hi p :
  wordv b k = 0 → p = VALUE_SIZE * k + (VALUE_SIZE - 1) → none_down b hi p → none_down b hi (p - VALUE_SIZE).
Proof.
  intros Hw -> [Hle Hno]. unfold VALUE_SIZE in *. split; [lia|]. intros i Hi Hs.
  destruct (Z.lt_ge_cases (14 * k + (14 - 1)) i); [apply Hno; lia|].
  replace i with (VALUE_SIZE * k + (i - 14 * k)) by (unfold VALUE_SIZE; lia).
  rewrite bit_word by (unfold VALUE_SIZE; lia). by rewrite Hw, Z.bits_0.
Qed.

Lemma iter_rwords_spec b hi pos s :
  bm_wf b → -1 ≤ pos < bm_dataSize b → none_down b hi (VALUE_SIZE * (pos + 1) - 1) →
  ∃ (go : bool) p', cfold (reverse (seqZ 0 (pos + 1))) (VALUE_SIZE * (pos + 1) - 1) (λ i p,
      if 0 <=? p then
        let! v := load b i in
        if negb (truthy v) then cret (true, p - VALUE_SIZE)
        else find_down (reverse (seqZ 0 VALUE_SIZE)) v p
      else cret (true, p)) s = Ret (go, p') s ∧
    if go then none_down b hi p' ∧ p' = -1 else found_down b hi p'.
Proof.
  intros Hwf Hpos Hno. match goal with |- context [cfold _ _ ?f] => set (body := f) end.
  destruct (cfold_down body (λ i p, none_down b hi p ∧ p = VALUE_SIZE * i - 1) (found_down b hi)
              0 (pos + 1) (VALUE_SIZE * (pos + 1) - 1) s) as (go & p2 & Hr & H2); [lia|by split| |].
  - intros i p' Hi [Hno' ->]. unfold body.
    replace (VALUE_SIZE * (i + 1) - 1) with (VALUE_SIZE * i + (VALUE_SIZE - 1)) in * by (unfold VALUE_SIZE; lia).
    rewrite (proj2 (Z.leb_le _ _)) by (unfold VALUE_SIZE; lia).
    rewrite (cbind_Ret _ _ _ _ _ (wf_load b i s Hwf ltac:(lia))).
    destruct (truthy (wordv b i)) eqn:E; cbn [negb].
    + destruct (find_down_spec i (VALUE_SIZE - 1) hi (VALUE_SIZE * i + (VALUE_SIZE - 1)) s b)
        as (go & p' & Hr & Hr'); [lia|unfold VALUE_SIZE; lia|done|done|]. by exists go, p'.
    + apply truthy_false in E. eexists true, _. split; [done|].
      split; [by apply (none_down_word b i)|unfold VALUE_SIZE; lia].
  - exists go, p2. split; [done|]. destruct go; [|done]. destruct H2 as [? ->]. by split.
Qed.

Lemma iter_prev_spec b p s :
  bm_wf b → 0 ≤ p ≤ bm_size b →
  ∃ p', iter_prev b p s = Ret p' s ∧ none_down b (p - 1) p' ∧ -1 ≤ p' ∧ (0 ≤ p' → bit b p' = true).
Proof.
  intros Hwf Hp. unfold iter_prev. destruct (Z.leb_spec p 0).
  { exists (-1). split; [done|]. split_and!; [split; lia|lia|lia]. }
  set (q := p - 1). set (left := q mod VALUE_SIZE). set (k := q / VALUE_SIZE).
  destruct (data_size_spec (bm_size b)) as (_ & Hlo & Hhi); [apply Hwf|].
  rewrite <- (wf_dataSize _ Hwf) in Hlo, Hhi.
  assert (q = VALUE_SIZE * k + left ∧ 0 ≤ left < VALUE_SIZE ∧ 0 ≤ k < bm_dataSize b) as (Hq & Hleft & Hk)
    by (unfold q, left, k, VALUE_SIZE in *; lia).
  assert (none_down b q q) as Hq0 by (split; [done|lia]).
  assert (∃ (go : bool) p', (if negb (left =? VALUE_SIZE - 1) then
      let! v := load b k in find_down (reverse (seqZ 0 (left + 1))) v q
    else cret (true, q)) s = Ret (go, p') s ∧
    if go then none_down b q p' ∧
      p' = VALUE_SIZE * ((if negb (left =? VALUE_SIZE - 1) then k - 1 else k) + 1) - 1
    else found_down b q p') as (go & p1 & Hr1 & H1).
  { destruct (Z.eqb_spec left (VALUE_SIZE - 1)) as [E|E]; cbn [negb].
    - exists true, q. split; [done|]. split; [done|]. unfold VALUE_SIZE in *. lia.
    - rewrite (cbind_Ret _ _ _ _ _ (wf_load b k s Hwf ltac:(lia))).
      destruct (find_down_spec k left q q s b) as (go & p' & Hr & Hr'); [lia|done|done|done|].
      exists go, p'. split; [done|]. destruct go; [|done]. destruct Hr' as [? ->]. split; [done|].
      unfold VALUE_SIZE. lia. }
  rewrite (cbind_Ret _ _ _ _ _ Hr1). clear Hr1.
  destruct go; cbn [negb]; [|exists p1; split; [done|]; destruct H1 as (? & ? & ?); split_and!; [done|lia|done]].
  destruct H1 as [Hno ->]. set (pos := if negb (left =? VALUE_SIZE - 1) then k - 1 else k) in *.
  destruct (iter_rwords_spec b q pos s Hwf) as (go & p2 & Hr2 & H2);
    [unfold pos; destruct (left =? _); simpl; lia|done|].
  rewrite (cbind_Ret _ _ _ _ _ Hr2). exists p2. split; [done|].
  destruct go; [destruct H2 as [? ->]; split_and!; [done|lia|lia]|].
  destruct H2 as (? & ? & ?). split_and!; [done|lia|done].
Qed.

(** ** Collecting what an iterator visits *)
Lemma bits_in_none b lo n : (∀ i, lo ≤ i < lo + n → bit b i = false) → bits_in b lo n = [].
Proof.
  intros H. apply elem_of_nil_inv. intros i [Hb Hi%elem_of_seqZ]%list_elem_of_filter.
  rewrite H in Hb by lia. done.
Qed.

Lemma iter_collect_up b fuel p s :
  bm_wf b → 0 ≤ p → bm_size b - p ≤ Z.of_nat fuel → (p < bm_size b → bit b p = true) →
  iter_collect (iter_next b) b fuel p (bits_in b 0 (p `min` bm_size b)) s = Ret (positions b) s.
Proof.
  intros Hwf. revert p. induction fuel as [|fuel IH]; intros p Hp Hf Hb; cbn [iter_collect]; unfold iter_valid.
  all: destruct (Z.leb_spec (bm_size b) p); cbn [orb negb]; [by rewrite Z.min_r by lia|].
  { lia. }
  rewrite (proj2 (Z.ltb_ge p 0)) by lia. cbn [negb].
  destruct (iter_next_spec b p s Hwf) as (p' & Hr & [Hle Hno] & Hb'); [lia|].
  rewrite (cbind_Ret _ _ _ _ _ Hr).
  assert (bits_in b 0 (p `min` bm_size b) ++ [p] = bits_in b 0 (p' `min` bm_size b)) as ->;
    [|apply IH; [lia|lia|done]].
  rewrite Z.min_l by lia.
  replace (p' `min` bm_size b) with (p + (1 + (p' `min` bm_size b - p - 1))) by lia.
  rewrite !bits_in_app, bits_in_single, Z.add_0_l, Hb by lia.
  rewrite (bits_in_none b (p + 1)); [by rewrite app_nil_r|]. intros i Hi. apply Hno; lia.
Qed.

Lemma iter_collect_down b fuel p s :
  bm_wf b → -1 ≤ p < bm_size b → p + 1 ≤ Z.of_nat fuel → (0 ≤ p → bit b p = true) →
  iter_collect (iter_prev b) b fuel p (reverse (bits_in b (p + 1) (bm_size b - p - 1))) s =
  Ret (reverse (positions b)) s.
Proof.
  intros Hwf. revert p. induction fuel as [|fuel IH]; intros p Hp Hf Hb; cbn [iter_collect]; unfold iter_valid.
  all: rewrite (proj2 (Z.leb_gt (bm_size b) p)) by lia; cbn [orb];
    destruct (Z.ltb_spec p 0); cbn [negb];
    [assert (p = -1) as -> by lia; unfold cret, bits_in, positions; do 4 f_equal; lia|].
  { lia. }
  destruct (iter_prev_spec b p s Hwf) as (p' & Hr & [Hle Hno] & Hlo & Hb'); [lia|].
  rewrite (cbind_Ret _ _ _ _ _ Hr).
  assert (reverse (bits_in b (p + 1) (bm_size b - p - 1)) ++ [p] =
          reverse (bits_in b (p' + 1) (bm_size b - p' - 1))) as ->; [|apply IH; [lia|lia|done]].
  rewrite <- reverse_cons. f_equal.
  replace (bm_size b - p' - 1) with ((p - p' - 1) + (1 + (bm_size b - p - 1))) by lia.
  rewrite !bits_in_app by lia. rewrite (bits_in_none b (p' + 1)) by (intros i Hi; apply Hno; lia).
  replace (p' + 1 + (p - p' - 1)) with p by lia. rewrite bits_in_single, Hb by lia. done.
Qed.
End iterating.

(** ** Counting and comparing *)
Section querying.
Context {S : Type}.
Local Open Scope Z_scope.
Implicit Types (a b : Bitmap) (s : S).

Lemma filter_length_ext {A} (P Q : A → Prop) `{!∀ x, Decision (P x), !∀ x, Decision (Q x)} (l : list A) :
  (∀ x, x ∈ l → P x ↔ Q x) → length (filter P l) = length (filter Q l).
Proof.
  induction l as [|x l IH]; intros Hext; [done|]. rewrite !filter_cons.
  assert (length (filter P l) = length (filter Q l)) as E by (apply IH; intros; apply Hext; by right).
  pose proof (Hext x ltac:(by left)). do 2 case_decide; simpl; try lia; tauto.
Qed.

Lemma filter_length_fmap {A B} (P : B → Prop) `{!∀ x, Decision (P x)} (f : A → B) l :
  length (filter P (f <$> l)) = length (filter (λ x, P (f x)) l).
Proof.
  induction l as [|x l IH]; [done|]. cbn [fmap list_fmap]. rewrite !filter_cons.
  case_decide; simpl; by rewrite IH.
Qed.

Lemma popcount_ext n v w : (∀ i, 0 ≤ i < n → Z.testbit v i = Z.testbit w i) → popcount n v = popcount n w.
Proof.
  intros H. unfold popcount. f_equal. apply filter_length_ext. intros i Hi%elem_of_seqZ.
  by rewrite H by lia.
Qed.
Lemma popcount_split n m v : 0 ≤ n → 0 ≤ m → popcount (n + m) v = popcount n v + popcount m (Z.shiftr v n).
Proof.
  intros Hn Hm. unfold popcount. rewrite seqZ_app by lia. rewrite list.filter_app, length_app, Nat2Z.inj_add.
  f_equal. f_equal. replace (seqZ (0 + n) m) with (Z.add n <$> seqZ 0 m) by (by rewrite fmap_add_seqZ, Z.add_0_r, Z.add_0_l).
  rewrite filter_length_fmap. apply filter_length_ext. intros i Hi%elem_of_seqZ. rewrite Z.shiftr_spec by lia.
  by rewrite (Z.add_comm n i).
Qed.
Lemma popcount_wrap n v : 0 ≤ n → popcount n (uwrap n v) = popcount n v.
Proof.
  intros Hn. apply popcount_ext. intros i Hi. rewrite testbit_wrap by lia.
  by rewrite (proj2 (Z.ltb_lt _ _)) by lia.
Qed.

Lemma popcount_zero n : popcount n 0 = 0.
Proof.
  unfold popcount. apply (f_equal Z.of_nat (y := O)). apply length_zero_iff_nil, elem_of_nil_inv.
  intros i [Hb _]%list_elem_of_filter. by rewrite Z.bits_0 in Hb.
Qed.

Lemma count_bits64_pieces v :
  count_bits64 v = popcount 16 (piece 0 v) + popcount 16 (piece 1 v) + popcount 16 (piece 2 v) + popcount 16 (piece 3 v).
Proof.
  unfold count_bits64, piece. rewrite Z.land_ones by lia. change (v mod 2 ^ 32) with (uwrap 32 v).
  rewrite popcount_wrap by lia. rewrite !(popcount_wrap 16) by lia.
  change 32 with (16 + 16) at 1. rewrite popcount_split by lia.
  change 32 with (16 + 16) at 1. rewrite popcount_split by lia.
  rewrite Z.shiftr_shiftr by lia. change (32 + 16) with 48. change (16 * 0) with 0. change (16 * 1) with 16.
  change (16 * 2) with 32. change (16 * 3) with 48. rewrite Z.shiftr_0_r. lia.
Qed.

Lemma popcount_word b k :
  bm_wf b → tidy b → 0 ≤ k < bm_dataSize b → popcount 16 (wordv b k) = Z.of_nat (length (word_bits b k)).
Proof.
  intros Hwf Ht Hk. destruct (data_size_spec (bm_size b)) as (_ & Hlo & _); [apply Hwf|].
  rewrite <- (wf_dataSize _ Hwf) in Hlo. set (n := VALUE_SIZE `min` (bm_size b - VALUE_SIZE * k)).
  assert (0 ≤ n ≤ 14) as Hn by (unfold n, VALUE_SIZE in *; lia).
  assert (popcount 16 (wordv b k) = popcount n (wordv b k)) as ->.
  { replace 16 with (n + (16 - n)) by lia. rewrite popcount_split by lia.
    rewrite (popcount_ext (16 - n) _ 0); [by rewrite (popcount_zero (16 - n)), Z.add_0_r|].
    intros i Hi. rewrite Z.shiftr_spec, Z.bits_0 by lia.
    destruct (Z.testbit (wordv b k) (i + n)) eqn:E; [|done].
    destruct (Ht k (i + n)) as [? ?]; [done|lia|done|]. unfold n, VALUE_SIZE in *. lia. }
  unfold popcount, word_bits, bits_in. fold n. f_equal.
  replace (seqZ (VALUE_SIZE * k) n) with (Z.add (VALUE_SIZE * k) <$> seqZ 0 n) by (by rewrite fmap_add_seqZ, Z.add_0_r).
  rewrite filter_length_fmap. apply filter_length_ext. intros i Hi%elem_of_seqZ.
  by rewrite bit_word by (unfold VALUE_SIZE; lia).
Qed.

(** The set bits of the first [n] words. *)
Definition cnt (b : Bitmap) (n : Z) : Z := Z.of_nat (length (concat (word_bits b <$> seqZ 0 n))).
Lemma cnt_succ b n : 0 ≤ n → cnt b (n + 1) = cnt b n + Z.of_nat (length (word_bits b n)).
Proof.
  intros Hn. unfold cnt. change (n + 1) with (Z.succ n).
  rewrite seqZ_end, fmap_app, concat_app, length_app, Nat2Z.inj_add by lia.
  cbn [fmap list_fmap concat]. rewrite app_nil_r, Z.add_0_l. done.
Qed.
Lemma length_bits_in b lo n : Z.of_nat (length (bits_in b lo n)) ≤ n `max` 0.
Proof.
  unfold bits_in. pose proof (length_filter (λ i, bit b i = true) (seqZ lo n)) as Hle.
  rewrite length_seqZ in Hle. lia.
Qed.
Lemma cnt_bound b n : 0 ≤ n → 0 ≤ cnt b n ≤ VALUE_SIZE * n.
Proof.
  intros Hn. pattern n. apply natlike_ind; [done| |done]; clear n Hn. intros n Hn IH.
  unfold Z.succ. rewrite cnt_succ by done. unfold word_bits.
  pose proof (length_bits_in b (VALUE_SIZE * n) (VALUE_SIZE `min` (bm_size b - VALUE_SIZE * n))).
  unfold VALUE_SIZE in *. lia.
Qed.
Lemma cnt_four b i : 0 ≤ i → cnt b (4 * (i + 1)) = cnt b (4 * i) +
  Z.of_nat (length (word_bits b (4 * i + 0))) + Z.of_nat (length (word_bits b (4 * i + 1))) +
  Z.of_nat (length (word_bits b (4 * i + 2))) + Z.of_nat (length (word_bits b (4 * i + 3))).
Proof.
  intros Hi. replace (4 * (i + 1)) with (4 * i + 1 + 1 + 1 + 1) by lia. rewrite !cnt_succ by lia.
  rewrite Z.add_0_r. replace (4 * i + 1 + 1) with (4 * i + 2) by lia.
  replace (4 * i + 2 + 1) with (4 * i + 3) by lia. lia.
Qed.

(** The bits of a word counted one by one. *)
Lemma count_word_spec b k c s :
  bm_wf b → 0 ≤ k < bm_dataSize b → 0 ≤ c → c + VALUE_SIZE < 2 ^ 32 →
  ∃ p, cfold (seqZ 0 VALUE_SIZE) (c, VALUE_SIZE * k) (λ n '(count, p),
      if p <? bm_size b
      then cret (true, (if truthy (Z.land (wordv b k) (POS n)) then u32 (count + 1) else count, p + 1))
      else cret (true, (count, p))) s = Ret (true, (c + Z.of_nat (length (word_bits b k)), p)) s ∧
    p = (VALUE_SIZE * (k + 1)) `min` bm_size b.
Proof.
  intros Hwf Hk Hc Hb. destruct (data_size_spec (bm_size b)) as (_ & Hlo & _); [apply Hwf|].
  rewrite <- (wf_dataSize _ Hwf) in Hlo.
  set (Q := λ j, if (VALUE_SIZE * k + j <? bm_size b) && Z.testbit (wordv b k) j then [VALUE_SIZE * k + j] else []).
  match goal with |- context [cfold _ _ ?f] => set (body := f) end.
  destruct (cfold_up body (λ n '(count, p), count = c + Z.of_nat (length (concat (Q <$> seqZ 0 n))) ∧
      count ≤ c + n ∧ p = (VALUE_SIZE * k + n) `min` bm_size b) (λ _, False) 0 VALUE_SIZE (c, VALUE_SIZE * k) s)
    as (go & [c' p'] & Hr & Hgo); [done|simpl; unfold VALUE_SIZE in *; lia| |].
  - intros n [c' p'] Hn (-> & Hle & ->). unfold body, Q.
    change (n + 1) with (Z.succ n). rewrite seqZ_end, fmap_app, concat_app, length_app by lia.
    cbn [fmap list_fmap concat]. rewrite app_nil_r, !Z.add_0_l. rewrite truthy_land by lia. fold Q.
    destruct (Z.ltb_spec ((VALUE_SIZE * k + n) `min` bm_size b) (bm_size b)).
    + rewrite (proj2 (Z.ltb_lt (VALUE_SIZE * k + n) _)) by lia. cbn [andb].
      destruct (Z.testbit (wordv b k) n); eexists true, _; (split; [done|]); simpl.
      * rewrite u32_id by lia. lia.
      * lia.
    + rewrite (proj2 (Z.ltb_ge (VALUE_SIZE * k + n) _)) by lia. cbn [andb].
      eexists true, _; (split; [done|]). simpl. lia.
  - destruct go; [|done]. destruct Hgo as (-> & _ & ->). eexists. rewrite Hr. split.
    + do 3 f_equal. f_equal. f_equal. unfold Q. rewrite Z.add_0_l.
      rewrite word_bits_enum by (unfold VALUE_SIZE in *; lia). done.
    + unfold VALUE_SIZE. lia.
Qed.

Lemma getCount_spec b s :
  bm_wf b → tidy b → bm_getCount b s = Ret (Z.of_nat (length (positions b))) s.
Proof.
  intros Hwf Ht. rewrite positions_words by done. fold (cnt b (bm_dataSize b)).
  unfold bm_getCount. rewrite (wf_plain _ Hwf). cbn [negb].
  destruct (data_size_spec (bm_size b)) as (Hd0 & Hlo & _); [apply Hwf|].
  rewrite <- (wf_dataSize _ Hwf) in Hlo, Hd0.
  pose proof (wf_range _ Hwf) as Hrange. pose proof (wf_alloc _ Hwf) as Halloc.
  unfold U64_DIV_BASE. set (len := bm_dataSize b / 4).
  match goal with |- context [cfold (seqZ 0 len) _ ?f] => set (body1 := f) end.
  destruct (cfold_up body1 (λ i '(count, p), count = cnt b (4 * i) ∧ p = U64_VALUE_SIZE * i) (λ _, False)
              0 len (0, 0) s) as (go & [c1 p1] & Hr & Hgo); [lia|done| |].
  { intros i [c p] Hi [-> ->]. unfold body1.
    rewrite (cbind_Ret _ _ _ _ _ (load64_Some b i s ltac:(lia) ltac:(lia))).
    eexists true, _. split; [done|]. simpl. split; [|unfold U64_VALUE_SIZE; lia].
    rewrite count_bits64_pieces, !piece_four by (done || (intros; by apply wordv_range)).
    rewrite !popcount_word by (done || lia). rewrite cnt_four by lia.
    pose proof (cnt_bound b (4 * (i + 1)) ltac:(lia)) as Hb. rewrite cnt_four in Hb by lia.
    unfold VALUE_SIZE in *. rewrite u32_id; lia. }
  rewrite (cbind_Ret _ _ _ _ _ Hr). destruct go; [|done]. destruct Hgo as [-> ->]. rewrite Z.add_0_l.
  match goal with |- context [cfold _ (cnt b _, _) ?f] => set (body2 := f) end.
  destruct (cfold_up body2 (λ i '(count, p), count = cnt b i ∧ (i < bm_dataSize b → p = VALUE_SIZE * i)) (λ _, False)
              (len * 4) (bm_dataSize b - len * 4) (cnt b (4 * len), U64_VALUE_SIZE * len) s)
    as (go & [c2 p2] & Hr2 & Hgo); [lia| | |].
  { split; [f_equal; lia|unfold U64_VALUE_SIZE, VALUE_SIZE; lia]. }
  { intros i [c p] Hi [-> Hp]. rewrite Hp by lia. unfold body2.
    rewrite (cbind_Ret _ _ _ _ _ (wf_load b i s Hwf ltac:(lia))).
    pose proof (cnt_bound b i ltac:(lia)). rewrite cnt_succ by lia. destruct (truthy (wordv b i)) eqn:E.
    - destruct (count_word_spec b i (cnt b i) s Hwf) as (p' & Hr' & ->); [lia|lia|unfold VALUE_SIZE in *; lia|].
      eexists true, _. rewrite Hr'. split; [done|]. split; [done|]. intros. unfold VALUE_SIZE in *. lia.
    - apply truthy_false in E. rewrite word_bits_zero by (done || lia).
      eexists true, _. split; [done|]. simpl. split; [lia|unfold VALUE_SIZE; lia]. }
  rewrite (cbind_Ret _ _ _ _ _ Hr2). destruct go; [|done]. destruct Hgo as [-> _].
  unfold cret. do 2 f_equal. lia.
Qed.

(** operator== *)
Lemma tidy_words_ext a b :
  bm_wf a → bm_wf b → tidy a → tidy b → bm_size b = bm_size a →
  (∀ i, 0 ≤ i < bm_size a → bit a i = bit b i) ↔ (∀ k, 0 ≤ k < bm_dataSize a → wordv a k = wordv b k).
Proof.
  intros Ha Hb Hta Htb Hs.
  assert (bm_dataSize b = bm_dataSize a) as Hd by (rewrite !wf_dataSize by done; by rewrite Hs).
  split; intros Hx.
  - intros k Hk. apply Z.bits_inj'. intros j Hj.
    destruct (decide (j < VALUE_SIZE ∧ VALUE_SIZE * k + j < bm_size a)) as [[Hj1 Hj2]|Hout].
    { rewrite <- !bit_word by lia. apply Hx. unfold VALUE_SIZE in *. lia. }
    destruct (Z.testbit (wordv a k) j) eqn:E; [by apply Hta in E|].
    destruct (Z.testbit (wordv b k) j) eqn:E'; [|done]. apply Htb in E'; [|lia|done]. rewrite Hs in E'. tauto.
  - intros i Hi. destruct (bit_index (bm_size a) i Hi) as [Hk _]. rewrite <- wf_dataSize in Hk by done.
    unfold bit. by rewrite Hx.
Qed.

Lemma stored_spec b s : bm_wf b → stored b s = Ret (take (Z.to_nat (bm_dataSize b)) (words b)) s.
Proof. intros Hwf. unfold stored. by rewrite (proj2 (Z.leb_le _ _)) by apply Hwf. Qed.

Lemma take_words_eq a b n :
  0 ≤ n ≤ Z.of_nat (length (words a)) → n ≤ Z.of_nat (length (words b)) →
  take (Z.to_nat n) (words a) = take (Z.to_nat n) (words b) ↔ (∀ k, 0 ≤ k < n → wordv a k = wordv b k).
Proof.
  intros Hn Hn2. unfold wordv, word. split.
  - intros E k Hk. rewrite (proj2 (Z.leb_le _ _)) by lia.
    rewrite <- (lookup_take_lt (words a) (Z.to_nat n)), E, lookup_take_lt by lia. done.
  - intros E. apply list_eq. intros i. destruct (Nat.lt_ge_cases i (Z.to_nat n)).
    2:{ by rewrite !lookup_take_ge by lia. }
    rewrite !lookup_take_lt by lia. specialize (E (Z.of_nat i) ltac:(lia)).
    rewrite (proj2 (Z.leb_le _ _)), Nat2Z.id in E by lia.
    destruct (lookup_lt_is_Some_2 (words a) i) as [x Hx]; [lia|].
    destruct (lookup_lt_is_Some_2 (words b) i) as [y Hy]; [lia|].
    rewrite Hx, Hy in *. simpl in E. by subst.
Qed.

Lemma bm_eq_spec a b s :
  bm_wf a → bm_wf b → tidy a → tidy b →
  ∃ r, bm_eq a b s = Ret r s ∧
    (r = true ↔ bm_size a = bm_size b ∧ ∀ i, 0 ≤ i < bm_size a → bit a i = bit b i).
Proof.
  intros Ha Hb Hta Htb. unfold bm_eq. rewrite !wf_plain by done. cbn [xorb orb].
  destruct (Z.eqb_spec (bm_size a) (bm_size b)) as [Hs|Hs]; cbn [negb orb].
  2:{ exists false. split; [done|]. split; [done|]. by intros [? _]. }
  assert (bm_dataSize b = bm_dataSize a) as Hd by (rewrite !wf_dataSize by done; by rewrite Hs).
  rewrite Hd, Z.eqb_refl. cbn [negb].
  rewrite (cbind_Ret _ _ _ _ _ (stored_spec a s Ha)), (cbind_Ret _ _ _ _ _ (stored_spec b s Hb)), Hd.
  destruct (data_size_spec (bm_size a)) as (Hd0 & Hlo & Hhi); [apply Ha|]. rewrite <- wf_dataSize in Hd0, Hlo, Hhi by done.
  pose proof (take_words_eq a b (bm_dataSize a)) as Hwords.
  rewrite <- (tidy_words_ext a b) in Hwords by done.
  specialize (Hwords (conj Hd0 (wf_alloc _ Ha)) ltac:(rewrite <- Hd; apply Hb)).
  destruct (decide (take (Z.to_nat (bm_dataSize a)) (words a) = take (Z.to_nat (bm_dataSize a)) (words b))) as [E|E].
  - rewrite bool_decide_eq_false_2 by (by intros Hne). exists true. split; [|split; [intros _; split; [done|by apply Hwords]|done]].
    destruct (truthy (bm_size a mod VALUE_SIZE)) eqn:El; [|done].
    assert (0 < bm_dataSize a).
    { destruct (Z.eq_dec (bm_dataSize a) 0) as [Hz|]; [|lia]. rewrite Hz in Hhi.
      assert (bm_size a = 0) as Hz' by (pose proof (wf_range _ Ha); unfold VALUE_SIZE in *; lia). by rewrite Hz' in El. }
    rewrite (cbind_Ret _ _ _ _ _ (wf_load a (bm_dataSize a - 1) s Ha ltac:(lia))).
    rewrite (cbind_Ret _ _ _ _ _ (wf_load b (bm_dataSize a - 1) s Hb ltac:(lia))).
    apply take_words_eq with (k := bm_dataSize a - 1) in E;
      [by rewrite E, Z.eqb_refl|split; [lia|apply Ha]|rewrite <- Hd; apply Hb|lia].
  - rewrite bool_decide_eq_true_2 by done. exists false. split; [done|]. split; [done|]. intros [_ Hx].
    exfalso. apply E, Hwords, Hx.
Qed.

(** any *)
Lemma any_words_spec ws n s :
  n ≤ Z.of_nat (length ws) →
  ∃ r, any_words ws n s = Ret r s ∧
    (r = true ↔ ∃ k w, ws !! k = Some w ∧ Z.of_nat k < n ∧ w ≠ 0).
Proof.
  revert n. induction ws as [|w ws IH]; intros n Hn; cbn [any_words];
    (destruct (Z.leb_spec n 0); [exists false; split; [done|]; split; [done|]; intros (k & ? & _ & ? & _); lia|]).
  { simpl in Hn. lia. }
  destruct (truthy w) eqn:E.
  - exists true. split; [done|]. split; [|done]. intros _. exists 0%nat, w. split_and!; [done|simpl; lia|].
    intros ->. done.
  - destruct (IH (n - 1)) as (r & Hr & Hiff); [simpl in Hn; lia|]. exists r. split; [done|].
    rewrite Hiff. apply truthy_false in E as ->. split.
    + intros (k & w & Hk & Hlt & Hw). exists (Datatypes.S k), w. split_and!; [done|lia|done].
    + intros ([|k] & w & Hk & Hlt & Hw); [by simplify_eq/=|]. exists k, w. split_and!; [done|lia|done].
Qed.

Lemma nonzero_bit w : 0 ≤ w → w ≠ 0 → ∃ j, 0 ≤ j ∧ Z.testbit w j = true.
Proof.
  intros Hw Hn. exists (Z.log2 w). split; [apply Z.log2_nonneg|]. apply Z.bit_log2. lia.
Qed.
Lemma testbit_MASK n j : 0 ≤ n → 0 ≤ j → Z.testbit (MASK n) j = (j <? n).
Proof.
  intros Hn Hj. unfold MASK, POS. rewrite Z.shiftl_1_l.
  replace (2 ^ n - 1) with (Z.ones n) by (rewrite Z.ones_equiv; lia). by apply Z.testbit_ones_nonneg.
Qed.
Lemma truthy_bit w : 0 ≤ w → truthy w = true ↔ ∃ j, 0 ≤ j ∧ Z.testbit w j = true.
Proof.
  intros Hw. unfold truthy. rewrite negb_true_iff, Z.eqb_neq. split; [by apply nonzero_bit|].
  intros (j & Hj & Hb) ->. by rewrite Z.bits_0 in Hb.
Qed.

(** What any() looks at: not the last word when the map fills it. *)
Definition any_scope (b : Bitmap) : Z :=
  if bm_size b mod VALUE_SIZE =? 0 then bm_size b - VALUE_SIZE else bm_size b.

Lemma any_spec b s :
  bm_wf b → tidy b → 0 < bm_size b →
  ∃ r, bm_any b s = Ret r s ∧ (r = true ↔ ∃ i, 0 ≤ i < any_scope b ∧ bit b i = true).
Proof.
  intros Hwf Ht Hs. destruct (data_size_spec (bm_size b)) as (_ & Hlo & Hhi); [apply Hwf|].
  rewrite <- (wf_dataSize _ Hwf) in Hlo, Hhi. pose proof (wf_range _ Hwf). pose proof (wf_alloc _ Hwf).
  assert (0 < bm_dataSize b) by (unfold VALUE_SIZE in *; lia).
  unfold bm_any. destruct (bm_data b) as [d|] eqn:Hdata.
  2:{ unfold words in *. rewrite Hdata in *. simpl in *. lia. }
  rewrite (wf_plain _ Hwf). cbn [negb]. rewrite u32_id by (unfold VALUE_SIZE in *; lia).
  set (k0 := bm_dataSize b - 1) in *.
  destruct (any_words_spec (words b) k0 s) as (r1 & Hr1 & Hany); [lia|].
  rewrite (cbind_Ret _ _ _ _ _ Hr1).
  assert (∀ k, 0 ≤ k < bm_dataSize b → ∀ j, 0 ≤ j → Z.testbit (wordv b k) j = true →
    bit b (VALUE_SIZE * k + j) = true ∧ j < VALUE_SIZE) as Hbit.
  { intros k Hk j Hj E. destruct (Ht k j Hk Hj E). rewrite bit_word by lia. done. }
  set (left := bm_size b mod VALUE_SIZE). assert (0 ≤ left < VALUE_SIZE) by (unfold left, VALUE_SIZE; lia).
  assert (any_scope b = VALUE_SIZE * k0 + left) as ->.
  { unfold any_scope. fold left. unfold left, k0, VALUE_SIZE in *. destruct (Z.eqb_spec (bm_size b mod 14) 0); lia. }
  destruct r1.
  - exists true. split; [done|]. split; [|done]. intros _. destruct Hany as [(k & w & Hk & Hlt & Hw) _]; [done|].
    assert (wordv b (Z.of_nat k) = w) as Hv by (unfold wordv, word; rewrite (proj2 (Z.leb_le _ _)), Nat2Z.id by lia; by rewrite Hk).
    pose proof (wordv_range b (Z.of_nat k) Hwf) as Hr. rewrite Hv in Hr. unfold in_u in Hr.
    destruct (nonzero_bit w) as (j & Hj & Hb); [lia|done|]. rewrite <- Hv in Hb.
    destruct (Hbit (Z.of_nat k) ltac:(lia) j Hj Hb) as [? ?].
    exists (VALUE_SIZE * Z.of_nat k + j). split; [|done]. unfold k0, VALUE_SIZE in *. lia.
  - rewrite (cbind_Ret _ _ _ _ _ (wf_load b k0 s Hwf ltac:(lia))). eexists. split; [done|].
    pose proof (wordv_range b k0 Hwf) as Hr. unfold in_u in Hr.
    rewrite truthy_bit by (apply Z.land_nonneg; lia). split.
    + intros (j & Hj & Hb). rewrite Z.land_spec, testbit_MASK in Hb by lia.
      apply andb_true_iff in Hb as [Hb Hlt%Z.ltb_lt]. exists (VALUE_SIZE * k0 + j).
      rewrite bit_word by lia. split; [unfold k0, VALUE_SIZE in *; lia|done].
    + intros (i & Hi & Hb). destruct (Z.lt_ge_cases i (VALUE_SIZE * k0)) as [Hlt|Hge].
      * exfalso. assert (false = true) as ?; [|done]. apply Hany. unfold bit in Hb.
        assert (0 ≤ i / VALUE_SIZE < k0) by (unfold VALUE_SIZE in *; lia).
        destruct (wf_word b (i / VALUE_SIZE) Hwf) as (w & Hw & _); [lia|]. rewrite (wordv_Some _ _ _ Hw) in Hb.
        unfold word in Hw. rewrite (proj2 (Z.leb_le _ _)) in Hw by lia.
        exists (Z.to_nat (i / VALUE_SIZE)), w. split_and!; [done|lia|]. intros ->. by rewrite Z.bits_0 in Hb.
      * exists (i - VALUE_SIZE * k0). rewrite Z.land_spec, testbit_MASK, <- bit_word by lia.
        replace (VALUE_SIZE * k0 + (i - VALUE_SIZE * k0)) with i by lia.
        rewrite Hb, (proj2 (Z.ltb_lt _ _)) by lia. split; [lia|done].
Qed.

(** cross of two uncompressed maps *)
Definition meets a b := ∃ i, 0 ≤ i < bm_size a ∧ bit a i = true ∧ bit b i = true.

Lemma meets_word a b k :
  bm_wf a → bm_wf b → tidy a → 0 ≤ k < bm_dataSize a → truthy (Z.land (wordv a k) (wordv b k)) = true → meets a b.
Proof.
  intros Ha Hb Ht Hk. pose proof (wordv_range a k Ha) as H1. pose proof (wordv_range b k Hb) as H2. unfold in_u in *.
  rewrite truthy_bit by (apply Z.land_nonneg; lia). intros (j & Hj & E). rewrite Z.land_spec in E.
  apply andb_true_iff in E as [E1 E2]. destruct (Ht k j Hk Hj E1). exists (VALUE_SIZE * k + j).
  rewrite !bit_word by lia. unfold VALUE_SIZE in *. split_and!; [lia|lia|done|done].
Qed.
Lemma meets_words a b :
  bm_wf a → meets a b → ∃ k, 0 ≤ k < bm_dataSize a ∧ truthy (Z.land (wordv a k) (wordv b k)) = true.
Proof.
  intros Ha (i & Hi & E1 & E2). destruct (bit_index (bm_size a) i Hi) as [Hk Hj].
  rewrite <- wf_dataSize in Hk by done. exists (i / VALUE_SIZE). split; [done|]. unfold bit in *.
  unfold truthy. apply negb_true_iff, Z.eqb_neq. intros E.
  apply (f_equal (λ x, Z.testbit x (i mod VALUE_SIZE))) in E. by rewrite Z.land_spec, E1, E2, Z.bits_0 in E.
Qed.
Lemma four_land_zero a b i :
  bm_wf a → bm_wf b → Z.land (four a i) (four b i) = 0 → ∀ k, 0 ≤ k < 4 →
  Z.land (wordv a (4 * i + k)) (wordv b (4 * i + k)) = 0.
Proof.
  intros Ha Hb H0 k Hk. rewrite <- !piece_four by (done || (intros; by apply wordv_range)).
  rewrite <- (piece_bitop Z.land andb), H0 by lia. unfold piece. by rewrite Z.shiftr_0_l.
Qed.
Lemma four_land_bit a b i :
  bm_wf a → bm_wf b → truthy (Z.land (four a i) (four b i)) = true →
  ∃ k, 0 ≤ k < 4 ∧ truthy (Z.land (wordv a (4 * i + k)) (wordv b (4 * i + k))) = true.
Proof.
  intros Ha Hb Ht.
  assert (∀ b0, bm_wf b0 → in_u 64 (four b0 i)) as Hrange.
  { intros b0 Hb0. pose proof (wordv_range b0 (4 * i) Hb0). pose proof (wordv_range b0 (4 * i + 1) Hb0).
    pose proof (wordv_range b0 (4 * i + 2) Hb0). pose proof (wordv_range b0 (4 * i + 3) Hb0).
    unfold in_u, four, dvalue in *. rewrite !Z.shiftl_mul_pow2 by lia. lia. }
  pose proof (Hrange a Ha) as Hra. pose proof (Hrange b Hb) as Hrb. unfold in_u in Hrb.
  apply truthy_bit in Ht as (n & Hn & E); [|apply Z.land_nonneg; lia].
  assert (n < 64).
  { destruct (Z.lt_ge_cases n 64); [done|]. by rewrite Z.land_spec, (testbit_above 64) in E by (done || lia). }
  assert (∀ k, 0 ≤ k < 4 → ∀ b0, bm_wf b0 → wordv b0 (4 * i + k) = piece k (four b0 i)) as Hp.
  { intros k Hk b0 Hb0. symmetry. apply piece_four; [|done]. intros; by apply wordv_range. }
  exists (n / 16). split; [lia|]. rewrite !Hp by (done || lia). rewrite <- (piece_bitop Z.land andb) by lia.
  apply truthy_bit; [apply uwrap_range; lia|]. exists (n mod 16). split; [lia|].
  rewrite testbit_piece by lia. replace (n mod 16 + 16 * (n / 16)) with n by lia.
  rewrite E, andb_true_r. apply Z.ltb_lt. lia.
Qed.

Lemma normalCross_spec a b s :
  bm_wf a → bm_wf b → tidy a → bm_size b = bm_size a →
  ∃ r, bm_cross a b s = Ret r s ∧ (r = true ↔ meets a b).
Proof.
  intros Ha Hb Ht Hs. unfold bm_cross. rewrite !wf_plain by done. cbn [negb andb]. unfold normalCross.
  assert (bm_dataSize b = bm_dataSize a) as Hd by (rewrite !wf_dataSize by done; by rewrite Hs).
  destruct (data_size_blocks (bm_size a)) as [Hm0 Hm]; [apply Ha|]. rewrite <- wf_dataSize in Hm by done.
  pose proof (wf_alloc _ Ha). pose proof (wf_alloc _ Hb). unfold U64_DIV_BASE.
  set (m := bm_size a / U64_VALUE_SIZE) in *.
  set (I := λ k, ∀ j, 0 ≤ j < k → truthy (Z.land (wordv a j) (wordv b j)) = false).
  match goal with |- context [cfold (seqZ 0 m) _ ?f] => set (body1 := f) end.
  destruct (cfold_up body1 (λ i _, I (4 * i)) (λ _, meets a b) 0 m tt s) as (go & [] & Hr & Hgo);
    [done|intros j; lia| |].
  { intros i [] Hi HI. unfold body1.
    rewrite (cbind_Ret _ _ _ _ _ (load64_Some a i s ltac:(lia) ltac:(lia))).
    assert (truthy (Z.land (four a i) (four b i)) = false → I (4 * (i + 1))) as Hzero.
    { intros E%truthy_false j Hj. destruct (Z.lt_ge_cases j (4 * i)); [by apply HI; lia|].
      apply truthy_false. replace j with (4 * i + (j - 4 * i)) by lia. apply four_land_zero; [done|done|done|lia]. }
    destruct (truthy (four a i)) eqn:E.
    - rewrite (cbind_Ret _ _ _ _ _ (load64_Some b i s ltac:(lia) ltac:(lia))).
      destruct (truthy (Z.land (four a i) (four b i))) eqn:E2.
      + exists false, tt. split; [done|]. destruct (four_land_bit a b i Ha Hb E2) as (k & Hk & ?).
        apply (meets_word a b (4 * i + k)); [done|done|done|lia|done].
      + exists true, tt. split; [done|]. by apply Hzero.
    - exists true, tt. split; [done|]. apply Hzero. apply truthy_false in E as ->. done. }
  rewrite (cbind_Ret _ _ _ _ _ Hr). destruct go; cbn [negb]; [|exists true; split; [done|]; by split].
  rewrite Z.add_0_l in Hgo.
  match goal with |- context [cfold _ _ ?f] => set (body2 := f) end.
  destruct (cfold_up body2 (λ i _, I i) (λ _, meets a b) (m * 4) (bm_dataSize a - m * 4) tt s)
    as (go & [] & Hr2 & Hgo2); [lia|by rewrite Z.mul_comm| |].
  { intros i [] Hi HI. unfold body2. rewrite (cbind_Ret _ _ _ _ _ (wf_load a i s Ha ltac:(lia))).
    rewrite (cbind_Ret _ _ _ _ _ (wf_load b i s Hb ltac:(lia))).
    destruct (truthy (Z.land (wordv a i) (wordv b i))) eqn:E.
    - exists false, tt. split; [done|]. apply (meets_word a b i); [done|done|done|lia|done].
    - exists true, tt. split; [done|]. intros j Hj. destruct (Z.eq_dec j i) as [->|]; [done|]. apply HI. lia. }
  rewrite (cbind_Ret _ _ _ _ _ Hr2). exists (negb go). split; [done|].
  destruct go; [|by split]. split; [done|]. intros (k & Hk & E)%meets_words; [|done].
  rewrite (Hgo2 k) in E by lia. done.
Qed.

(** The ways to walk an uncompressed bitmap agree. foreach calls back
    on the set bits in increasing order until it is told to stop;
    listPosAsc appends exactly these positions; stepping the iterator and
    the reverse iterator from begin and rbegin visits them in both orders.
    rforeach goes through them downwards when no bit past the end is set. *)
Theorem bitmap_scans_agree (cb : Z → M S bool) b s (pos : list Z) :
  bm_wf b →
  bm_foreach b cb s = (let! _ := call_all cb (positions b) in cret tt) s ∧
  bm_listPosAsc b pos = Ret tt (pos ++ positions b) ∧
  (let! p := iter_begin b in iter_collect (iter_next b) b (Z.to_nat (bm_size b)) p []) s
    = Ret (positions b) s ∧
  (let! p := iter_rbegin b in iter_collect (iter_prev b) b (Z.to_nat (bm_size b)) p []) s
    = Ret (reverse (positions b)) s ∧
  (tidy b → bm_rforeach b cb s = (let! _ := call_all cb (reverse (positions b)) in cret tt) s).
Proof.
  intros Hwf. pose proof (wf_range _ Hwf). split_and!.
  - by apply foreach_spec.
  - unfold bm_listPosAsc. rewrite foreach_spec by done.
    assert (∀ ps pos0, call_all (λ p, let! _ := cmodify (λ l : list Z, l ++ [p]) in cret true) ps pos0 =
      Ret true (pos0 ++ ps)) as Hpush.
    { induction ps as [|q ps IH]; intros pos0; cbn [call_all]; [by rewrite app_nil_r|].
      unfold cbind, cmodify, cret in *. rewrite IH, <- (assoc_L (++)). done. }
    by rewrite (cbind_Ret _ _ _ _ _ (Hpush _ _)).
  - unfold iter_begin. destruct (iter_next_spec b (-1) s Hwf) as (p & Hr & [Hle Hno] & Hb); [lia|].
    rewrite (cbind_Ret _ _ _ _ _ Hr).
    rewrite <- (bits_in_none b 0 (p `min` bm_size b)) by (intros; apply Hno; lia).
    apply iter_collect_up; [done|lia|lia|done].
  - unfold iter_rbegin. destruct (iter_prev_spec b (bm_size b) s Hwf) as (p & Hr & [Hle Hno] & Hlo & Hb); [lia|].
    rewrite (cbind_Ret _ _ _ _ _ Hr).
    change [] with (reverse ([] : list Z)). rewrite <- (bits_in_none b (p + 1) (bm_size b - p - 1)) at 1
      by (intros; apply Hno; lia).
    apply iter_collect_down; [done|lia|lia|done].
  - intros. by apply rforeach_spec.
Qed.

(** The questions a bitmap answers without listing its bits, for maps
    with no stray bits: getCount is the number of set bits, == holds
    exactly for maps of the same size with the same bits, and cross tells
    whether two maps of one size have a bit in common. *)
Theorem bitmap_queries a b s :
  bm_wf a → bm_wf b → tidy a → tidy b → bm_size b = bm_size a →
  bm_getCount a s = Ret (Z.of_nat (length (positions a))) s ∧
  (∃ r, bm_eq a b s = Ret r s ∧ (r = true ↔ ∀ i, 0 ≤ i < bm_size a → bit a i = bit b i)) ∧
  (∃ r, bm_cross a b s = Ret r s ∧
     (r = true ↔ ∃ i, 0 ≤ i < bm_size a ∧ bit a i = true ∧ bit b i = true)).
Proof.
  intros Ha Hb Hta Htb Hs. split_and!.
  - by apply getCount_spec.
  - destruct (bm_eq_spec a b s Ha Hb Hta Htb) as (r & Hr & Hiff). exists r. split; [done|]. rewrite Hiff.
    split; [by intros [_ ?]|done].
  - by apply normalCross_spec.
Qed.

(** any overlooks the last word of a map whose size is a multiple of 14:
    it answers whether some bit before that word is set. For other sizes
    it answers whether any bit is set. *)
Theorem bitmap_any_scope b s :
  bm_wf b → tidy b → 0 < bm_size b →
  ∃ r, bm_any b s = Ret r s ∧
    (r = true ↔ ∃ i, 0 ≤ i < (if bm_size b mod VALUE_SIZE =? 0 then bm_size b - VALUE_SIZE else bm_size b) ∧
                     bit b i = true).
Proof. apply any_spec. Qed.
End querying.

Lemma bitmap_scans_agree_witness :
  bm_foreach bm_ex1 (λ p, let! _ := cmodify (cons p) in cret (p <? 2)%Z) []
    = (let! _ := call_all (λ p, let! _ := cmodify (cons p) in cret (p <? 2)%Z) (positions bm_ex1) in cret tt) [] ∧
  bm_listPosAsc bm_ex1 [] = Ret tt ([] ++ positions bm_ex1) ∧
  (let! p := iter_begin bm_ex1 in iter_collect (iter_next bm_ex1) bm_ex1 (Z.to_nat 31) p []) []
    = Ret (positions bm_ex1) ([] : list Z) ∧
  (let! p := iter_rbegin bm_ex1 in iter_collect (iter_prev bm_ex1) bm_ex1 (Z.to_nat 31) p []) []
    = Ret (reverse (positions bm_ex1)) ([] : list Z) ∧
  (tidy bm_ex1 → bm_rforeach bm_ex1 (λ p, let! _ := cmodify (cons p) in cret (p <? 2)%Z) [] =
     (let! _ := call_all (λ p, let! _ := cmodify (cons p) in cret (p <? 2)%Z) (reverse (positions bm_ex1)) in cret tt) []).
Proof.
  apply (bitmap_scans_agree (λ p, let! _ := cmodify (cons p) in cret (p <? 2)%Z) bm_ex1 ([] : list Z) []).
  apply bm_ex1_ok.
Defined.

Lemma bitmap_queries_witness :
  bm_getCount bm_ex1 () = Ret (Z.of_nat (length (positions bm_ex1))) () ∧
  (∃ r, bm_eq bm_ex1 bm_ex2 () = Ret r () ∧ (r = true ↔ ∀ i, (0 ≤ i < 31)%Z → bit bm_ex1 i = bit bm_ex2 i)) ∧
  (∃ r, bm_cross bm_ex1 bm_ex2 () = Ret r () ∧
     (r = true ↔ ∃ i, (0 ≤ i < 31)%Z ∧ bit bm_ex1 i = true ∧ bit bm_ex2 i = true)).
Proof.
  apply (bitmap_queries bm_ex1 bm_ex2 ()); [apply bm_ex1_ok|apply bm_ex2_ok|apply bm_ex1_ok|apply bm_ex2_ok|done].
Defined.

(** A map of 28 bits with only its last bit set: any does not see it. *)
Definition bm_last : Bitmap := mkBitmap false 28 2 (Some [0; 8192]%Z).
Lemma bm_last_ok : bm_wf bm_last ∧ tidy bm_last.
Proof. by apply bm_check_sound. Qed.
Lemma bitmap_any_scope_witness :
  ∃ r, bm_any bm_last () = Ret r () ∧ (r = true ↔ ∃ i, (0 ≤ i < 14)%Z ∧ bit bm_last i = true).
Proof. apply (bitmap_any_scope bm_last ()); [apply bm_last_ok|apply bm_last_ok|done]. Defined.
Example bm_last_any : bm_any bm_last () = Ret false () ∧ bm_get bm_last 27 () = Ret true ().
Proof. split; reflexivity. Qed.
