(* ===== verification/BitmapCompress.v ===== *)
(** * Compressed bitmaps (Sylar/DataStructure/bitmap.cc)

    compress and uncompress, the operations that take a compressed operand,
    resize, and the serialized form. *)
From Stdlib Require Import ZArith Lia Strings.Byte.
From stdpp Require Import base list list_numbers numbers.
From S2P Require Import Prelude ByteArray Codec Bitmap BitmapScan.

Ltac Zify.zify_post_hook ::= Z.div_mod_to_equations.

Section compress.
Context {S : Type}.

(** [while(cur_count)]: one word for each 14 bits of the count. A uint64_t
    has no more than five such groups. *)
Fixpoint emit_run (fuel : nat) (v : bool) (cur_count : Z) : M S (list Z) :=
  if negb (truthy cur_count) then cret []
  else match fuel with
  | O => cstuck OutOfFuel
  | Datatypes.S fuel =>
    let w := if v then Z.lor (Z.lor COMPRESS_MASK VALUE_MASK) (Z.land cur_count COUNT_MASK)
             else Z.lor COMPRESS_MASK (Z.land cur_count COUNT_MASK) in
    let! rest := emit_run fuel v (Z.shiftr cur_count VALUE_SIZE) in
    cret (w :: rest)
  end.
(** The pending run: words of a run when it is longer than a word. The
    assertion is in the loop only. *)
Definition flush_run (in_loop cur_value : bool) (cur_count : Z) : M S (list Z) :=
  if (1 <? cur_count / VALUE_SIZE)%Z then
    let! _ := if in_loop then cassert (cur_count mod VALUE_SIZE =? 0)%Z else cret tt in
    emit_run 5 cur_value cur_count
  else cret (if truthy cur_count then [if cur_value then COUNT_MASK else 0%Z] else []).
(** [data[dst_cur_pos++] = ...] in an array of [cap] words *)
Definition push_words (cap : nat) (out ws : list Z) : M S (list Z) :=
  if length (out ++ ws) <=? cap then cret (out ++ ws) else cstuck OutOfBounds.

Fixpoint compress_loop (cap : nat) (ws : list Z) (cur_value : bool) (cur_count : Z) (out : list Z)
  : M S (bool * Z * list Z) :=
  match ws with
  | [] => cret (cur_value, cur_count, out)
  | cur :: ws =>
    let c := popcount 16 (Z.land cur COUNT_MASK) in
    if ((c =? 0)%Z && negb cur_value) || ((c =? VALUE_SIZE)%Z && cur_value) then
      compress_loop cap ws cur_value (cur_count + VALUE_SIZE) out
    else
      let! xs := flush_run true cur_value cur_count in
      let! out := push_words cap out xs in
      if (c =? 0)%Z || (c =? VALUE_SIZE)%Z then compress_loop cap ws (c =? VALUE_SIZE)%Z VALUE_SIZE out
      else
        let! out := push_words cap out [cur] in
        compress_loop cap ws cur_value 0 out
  end.
Definition bm_compressed (b : Bitmap) : M S Bitmap :=
  if bm_compress b then cret (Bitmap_copy b)
  else
    let! ws := stored b in
    let! (cur_value, cur_count, out) := compress_loop (length ws) ws false 0 [] in
    let! xs := if (0 <? cur_count)%Z then flush_run false cur_value cur_count else cret [] in
    let! out := push_words (length ws) out xs in
    cret (mkBitmap true (bm_size b) (Z.of_nat (length out)) (Some out)).

(** uncompress *)
Definition expand (cur_pos : Z) (seg : segment) : M Bitmap bool :=
  match seg with
  | Run v count => let! _ := set_range cur_pos count v in cret false
  | Literal w => let! _ := store (cur_pos / VALUE_SIZE) w in cret false
  end.
Definition bm_uncompressed (b : Bitmap) : M S Bitmap :=
  if negb (bm_compress b) then cret (Bitmap_copy b)
  else λ s,
    match segments_of b expand (Bitmap_new (bm_size b) 0) with
    | Ret _ u => Ret u s | Exn e _ => Exn e s | Stuck r => Stuck r
    end.
End compress.

(** ** writeTo and readFrom: the words as they lie in memory *)
Section serialized.
Context (host : endian) (junk : nat → nat → byte).

Definition words_image (ws : list Z) : list byte := concat (mem_image host 2 <$> ws).
Fixpoint words_of (n : nat) (bs : list byte) : list Z :=
  match n with
  | O => []
  | Datatypes.S n => mem_value host (take 2 bs) :: words_of n (drop 2 bs)
  end.

Definition bm_writeTo (b : Bitmap) : M ByteArray unit :=
  let! _ := writeFuint8 host junk (Z.b2z (bm_compress b)) in
  let! _ := writeFuint32 host junk (bm_size b) in
  let! _ := writeFuint32 host junk (bm_dataSize b) in
  let! ws := stored b in
  write junk (words_image ws).
(** readFrom: [false], and a map in an unspecified state, after an
    exception; its fields are given back only on success here. *)
Definition bm_readFrom : M ByteArray (option Bitmap) :=
  ccatch
    (let! compress := readFuint8 host in
     let! size := readFuint32 host in
     let! dataSize := readFuint32 host in
     let! bs := read (Z.to_nat (2 * dataSize)) in
     cret (Some (mkBitmap (truthy compress) size dataSize (Some (words_of (Z.to_nat dataSize) bs)))))
    (cret None).
End serialized.

(** ** Runs as they are written and read *)
Section runs.
Local Open Scope Z_scope.

(** The word of a run with 14 bits of its length. *)
Definition rw (v : bool) (x : Z) : Z := COMPRESS_MASK + (if v then VALUE_MASK else 0) + x.
Definition full (v : bool) : Z := if v then COUNT_MASK else 0.
Definition run_words (v : bool) (count : Z) : list Z :=
  if count <? 2 ^ 14 then [rw v count]
  else if count <? 2 ^ 28 then [rw v (count mod 2 ^ 14); rw v (count / 2 ^ 14)]
  else [rw v (count mod 2 ^ 14); rw v (count / 2 ^ 14 mod 2 ^ 14); rw v (count / 2 ^ 28)].

Lemma COUNT_MASK_wrap w : Z.land w COUNT_MASK = uwrap 14 w.
Proof. change COUNT_MASK with (Z.ones 14). by apply Z.land_ones. Qed.
Lemma is_run_bit w : is_run w = Z.testbit w 15.
Proof. unfold is_run. change COMPRESS_MASK with (POS 15). by apply truthy_land. Qed.
Lemma run_value_bit w : run_value w = Z.testbit w 14.
Proof. unfold run_value. change VALUE_MASK with (POS 14). by apply truthy_land. Qed.

Lemma rw_spec v x : in_u 14 x →
  rw v x = Z.lor (if v then Z.lor COMPRESS_MASK VALUE_MASK else COMPRESS_MASK) x ∧
  is_run (rw v x) = true ∧ run_value (rw v x) = v ∧ Z.land (rw v x) COUNT_MASK = x.
Proof.
  intros Hx. pose proof Hx as Hx'. unfold in_u in Hx'.
  assert (rw v x = Z.lor (if v then Z.lor COMPRESS_MASK VALUE_MASK else COMPRESS_MASK) x) as E.
  { rewrite Z.lor_comm. unfold rw.
    assert ((if v then Z.lor COMPRESS_MASK VALUE_MASK else COMPRESS_MASK) = Z.shiftl (if v then 3 else 2) 14)
      as -> by (by destruct v).
    rewrite lor_shiftl_add by lia. unfold COMPRESS_MASK, VALUE_MASK. destruct v; lia. }
  split_and!; [done|..].
  - rewrite is_run_bit, E, Z.lor_spec. by destruct v.
  - rewrite run_value_bit, E, Z.lor_spec. destruct v; [done|]. by rewrite (testbit_above 14 x) by done.
  - rewrite COUNT_MASK_wrap. unfold rw, uwrap, COMPRESS_MASK, VALUE_MASK. destruct v; lia.
Qed.

Lemma emit_run_spec {S} v count (s : S) :
  0 < count < 2 ^ 32 → emit_run 5 v count s = Ret (run_words v count) s.
Proof.
  intros Hc.
  assert (∀ fuel c, 0 < c → emit_run (Datatypes.S fuel) v c s =
    (let! rest := emit_run fuel v (c / 2 ^ 14) in cret (rw v (c mod 2 ^ 14) :: rest)) s) as Hstep.
  { intros fuel c Hc0. cbn [emit_run]. unfold truthy. rewrite (proj2 (Z.eqb_neq _ _)) by lia. cbn [negb].
    rewrite Z.shiftr_div_pow2, COUNT_MASK_wrap by done. change (uwrap 14 c) with (c mod 2 ^ 14).
    destruct (rw_spec v (c mod 2 ^ 14)) as (-> & _); [apply Z.mod_pos_bound; lia|]. by destruct v. }
  assert (∀ fuel, emit_run fuel v 0 s = Ret [] s) as Hzero by (by intros []).
  unfold run_words. rewrite Hstep by lia. destruct (Z.ltb_spec count (2 ^ 14)).
  { rewrite Z.div_small, Z.mod_small by lia. by rewrite (cbind_Ret _ _ _ _ _ (Hzero _)). }
  unfold cbind at 1. rewrite Hstep by (apply Z.div_str_pos; lia). destruct (Z.ltb_spec count (2 ^ 28)).
  { rewrite (Z.div_small (count / 2 ^ 14)) by lia. rewrite (cbind_Ret _ _ _ _ _ (Hzero _)).
    unfold cret. rewrite (Z.mod_small (count / 2 ^ 14)) by lia. done. }
  rewrite Z.div_div by lia. change (2 ^ 14 * 2 ^ 14) with (2 ^ 28).
  unfold cbind at 1. rewrite Hstep by (apply Z.div_str_pos; lia).
  rewrite (Z.div_small (count / 2 ^ 28)) by lia. rewrite (cbind_Ret _ _ _ _ _ (Hzero _)).
  unfold cret. by rewrite (Z.mod_small (count / 2 ^ 28)) by lia.
Qed.

(** A stream does not go on with a run of the same value. *)
Definition stops_run (v : bool) (out : list Z) : Prop :=
  match out with [] => True | w :: _ => is_run w && Bool.eqb v (run_value w) = false end.

Lemma run_count_stop {S} v k count out (s : S) :
  stops_run v out → run_count out v k count s = Ret (count, out) s.
Proof. destruct out as [|w out]; [done|]. simpl. by intros ->. Qed.
Lemma run_count_step {S} v k count x out (s : S) :
  in_u 14 x → 0 ≤ k ≤ 2 → 0 ≤ count < 2 ^ (14 * k) → x * 2 ^ (14 * k) < 2 ^ 32 →
  run_count (rw v x :: out) v k count s = run_count out v (k + 1) (count + x * 2 ^ (14 * k)) s.
Proof.
  intros Hx Hk Hc Hfit. destruct (rw_spec v x Hx) as (_ & Hr & Hv & Hm). unfold in_u in Hx. cbn [run_count].
  rewrite Hr, Hv, Hm. rewrite eqb_reflx. cbn [andb]. unfold VALUE_SIZE.
  rewrite (proj2 (Z.leb_gt _ _)) by lia.
  assert (u32 (Z.shiftl x (14 * k)) = Z.shiftl x (14 * k)) as ->.
  { rewrite Z.shiftl_mul_pow2 by lia. apply uwrap_id. unfold in_u. split; [|lia].
    apply Z.mul_nonneg_nonneg; [lia|]. apply Z.pow_nonneg. lia. }
  rewrite Z.lor_comm, lor_shiftl_add by lia. done.
Qed.

(** Reading the words of a run gives back its length. *)
Lemma run_words_read {S} v count out (s : S) :
  0 < count < 2 ^ 32 → stops_run v out →
  ∃ x ws, run_words v count = rw v x :: ws ∧ in_u 14 x ∧
    run_count (ws ++ out) v 1 x s = Ret (count, out) s.
Proof.
  intros Hc Hout. unfold run_words, in_u. destruct (Z.ltb_spec count (2 ^ 14)).
  { exists count, []. split_and!; [done|lia|lia|]. by apply run_count_stop. }
  destruct (Z.ltb_spec count (2 ^ 28)).
  - exists (count mod 2 ^ 14), [rw v (count / 2 ^ 14)]. split_and!; [done|lia|lia|]. cbn [app].
    rewrite run_count_step; [|unfold in_u; lia|lia|change (2 ^ (14 * 1)) with (2 ^ 14); lia|change (2 ^ (14 * 1)) with (2 ^ 14); lia].
    rewrite run_count_stop by done. do 2 f_equal. change (2 ^ (14 * 1)) with (2 ^ 14). lia.
  - exists (count mod 2 ^ 14), [rw v (count / 2 ^ 14 mod 2 ^ 14); rw v (count / 2 ^ 28)].
    split_and!; [done|lia|lia|]. cbn [app].
    rewrite run_count_step; [|unfold in_u; lia|lia|change (2 ^ (14 * 1)) with (2 ^ 14); lia|change (2 ^ (14 * 1)) with (2 ^ 14); lia].
    change (1 + 1) with 2. change (2 ^ (14 * 1)) with (2 ^ 14).
    rewrite run_count_step; [|unfold in_u; lia|lia|change (2 ^ (14 * 2)) with (2 ^ 28); lia|change (2 ^ (14 * 2)) with (2 ^ 28); lia].
    rewrite run_count_stop by done. do 2 f_equal. change (2 ^ (14 * 2)) with (2 ^ 28). lia.
Qed.
Lemma length_run_words v n : 2 ≤ n → Z.of_nat (length (run_words v (14 * n))) ≤ n.
Proof. intros Hn. unfold run_words. repeat case_match; simpl; lia. Qed.
Lemma run_words_head v count : 0 < count < 2 ^ 32 → ∃ x ws, run_words v count = rw v x :: ws ∧ in_u 14 x.
Proof. intros Hc. destruct (run_words_read v count [] () Hc I) as (x & ws & ? & ? & _). eauto. Qed.
End runs.

(** ** What a compressed stream stands for *)
Section denotation.
Local Open Scope Z_scope.

Inductive denotes : list Z → list Z → Prop :=
  | den_nil : denotes [] []
  | den_run v n out ws :
      1 ≤ n → 14 * n < 2 ^ 32 → stops_run v out → denotes out ws →
      denotes (run_words v (14 * n) ++ out) (replicate (Z.to_nat n) (full v) ++ ws)
  | den_lit w out ws : in_u 14 w → denotes out ws → denotes (w :: out) (w :: ws).

(** compress as a function: the pending run of [n] words and the words to
    come. *)
Definition flushed (v : bool) (n : Z) : list Z :=
  if 1 <? n then run_words v (14 * n) else if n =? 1 then [full v] else [].
Fixpoint compressing (ws : list Z) (v : bool) (n : Z) : list Z :=
  match ws with
  | [] => flushed v n
  | cur :: ws =>
    if decide (cur = full v) then compressing ws v (n + 1)
    else flushed v n ++
         (if decide (cur = full (negb v)) then compressing ws (negb v) 1 else cur :: compressing ws v 0)
  end.

Lemma replicate_snoc_full v n ws : 0 ≤ n →
  replicate (Z.to_nat (n + 1)) (full v) ++ ws = replicate (Z.to_nat n) (full v) ++ full v :: ws.
Proof.
  intros Hn. replace (Z.to_nat (n + 1)) with (Z.to_nat n + 1)%nat by lia.
  rewrite replicate_add, <- (assoc_L (++)). done.
Qed.

Lemma literal_not_run w : in_u 14 w → is_run w = false.
Proof. intros Hw. rewrite is_run_bit. by apply (testbit_above 14). Qed.
Lemma full_range v : in_u 14 (full v).
Proof. by destruct v. Qed.

Lemma flushed_denotes v n out ws :
  0 ≤ n → 14 * n < 2 ^ 32 → stops_run v out → denotes out ws →
  denotes (flushed v n ++ out) (replicate (Z.to_nat n) (full v) ++ ws).
Proof.
  intros Hn Hb Hs Hd. unfold flushed. destruct (Z.ltb_spec 1 n).
  - apply den_run; [lia|done|done|done].
  - destruct (Z.eqb_spec n 1) as [->|]; [apply den_lit; [apply full_range|done]|].
    assert (n = 0) as -> by lia. done.
Qed.

Lemma compressing_head ws v n : Forall (in_u 14) ws → 1 ≤ n → 14 * (n + Z.of_nat (length ws)) < 2 ^ 32 →
  stops_run (negb v) (compressing ws v n).
Proof.
  intros Hws. revert n. induction Hws as [|cur ws Hcur _ IH]; intros n Hn Hb; cbn [compressing length] in *.
  - unfold flushed. destruct (Z.ltb_spec 1 n).
    + destruct (run_words_head v (14 * n)) as (x & xs & -> & Hx); [lia|]. simpl.
      destruct (rw_spec v x Hx) as (_ & -> & -> & _). by destruct v.
    + assert (n = 1) as -> by lia. simpl. by rewrite literal_not_run by apply full_range.
  - case_decide; [apply IH; lia|]. unfold flushed. destruct (Z.ltb_spec 1 n).
    + destruct (run_words_head v (14 * n)) as (x & xs & -> & Hx); [lia|]. simpl.
      destruct (rw_spec v x Hx) as (_ & -> & -> & _). by destruct v.
    + assert (n = 1) as -> by lia. simpl. by rewrite literal_not_run by apply full_range.
Qed.

Lemma compressing_denotes ws v n :
  Forall (in_u 14) ws → 0 ≤ n → 14 * (n + Z.of_nat (length ws)) < 2 ^ 32 →
  denotes (compressing ws v n) (replicate (Z.to_nat n) (full v) ++ ws).
Proof.
  intros Hws. revert v n. induction Hws as [|cur ws Hcur Hws IH]; intros v n Hn Hb; cbn [compressing length] in *.
  - rewrite <- (app_nil_r (flushed v n)). apply flushed_denotes; [done|lia|done|constructor].
  - case_decide as E; [subst cur; rewrite <- replicate_snoc_full by done; apply IH; lia|].
    apply flushed_denotes; [done|lia|..].
    + case_decide; [rewrite <- (negb_involutive v) at 1; apply compressing_head; [done|lia|lia]|].
      simpl. by rewrite literal_not_run.
    + case_decide as E2; [|apply den_lit; [done|]; apply (IH v 0); lia].
      rewrite E2. apply (IH (negb v) 1); lia.
Qed.

Lemma length_flushed v n : 0 ≤ n → Z.of_nat (length (flushed v n)) ≤ n.
Proof.
  intros Hn. unfold flushed. destruct (Z.ltb_spec 1 n); [apply length_run_words; lia|].
  destruct (Z.eqb_spec n 1); simpl; lia.
Qed.
Lemma length_compressing ws v n : 0 ≤ n →
  Z.of_nat (length (compressing ws v n)) ≤ n + Z.of_nat (length ws).
Proof.
  revert v n. induction ws as [|cur ws IH]; intros v n Hn; cbn [compressing length].
  - pose proof (length_flushed v n Hn). lia.
  - case_decide; [specialize (IH v (n + 1)); lia|]. rewrite length_app. pose proof (length_flushed v n Hn).
    case_decide; [specialize (IH (negb v) 1 ltac:(lia))|specialize (IH v 0 ltac:(lia)); simpl]; lia.
Qed.

(** ** The loop computes it *)
Lemma popcount_bounds n w : 0 ≤ n → 0 ≤ popcount n w ≤ n.
Proof.
  intros Hn. unfold popcount. pose proof (length_filter (λ i, Z.testbit w i = true) (seqZ 0 n)) as Hle.
  rewrite length_seqZ in Hle. lia.
Qed.
Lemma popcount_full n w : 0 ≤ n →
  (popcount n w = n ↔ ∀ i, 0 ≤ i < n → Z.testbit w i = true) ∧
  (popcount n w = 0 ↔ ∀ i, 0 ≤ i < n → Z.testbit w i = false).
Proof.
  intros Hn. pattern n. apply natlike_ind; [split; split; intros; (done || lia)| |done]; clear n Hn.
  intros n Hn [IH1 IH0]. unfold Z.succ. rewrite popcount_split by lia.
  assert (popcount 1 (Z.shiftr w n) = Z.b2z (Z.testbit w n)) as ->.
  { unfold popcount. change (seqZ 0 1) with [0]. rewrite filter_cons, Z.shiftr_spec, Z.add_0_l by lia.
    case_decide as E; [by rewrite E|]. apply not_true_iff_false in E. by rewrite E. }
  pose proof (popcount_bounds n w Hn). split; split.
  - intros E i Hi. assert (popcount n w = n ∧ Z.b2z (Z.testbit w n) = 1) as [E1 E2]
      by (destruct (Z.testbit w n); simpl in *; lia).
    destruct (Z.eq_dec i n) as [->|]; [by destruct (Z.testbit w n)|]. apply IH1; [done|lia].
  - intros E. rewrite (proj2 IH1) by (intros; apply E; lia). rewrite E by lia. done.
  - intros E i Hi. assert (popcount n w = 0 ∧ Z.b2z (Z.testbit w n) = 0) as [E1 E2]
      by (destruct (Z.testbit w n); simpl in *; lia).
    destruct (Z.eq_dec i n) as [->|]; [by destruct (Z.testbit w n)|]. apply IH0; [done|lia].
  - intros E. rewrite (proj2 IH0) by (intros; apply E; lia). rewrite E by lia. done.
Qed.

(** A clean word is full or empty as its count of bits says. *)
Lemma popcount_clean w (v : bool) : in_u 14 w →
  popcount 16 (Z.land w COUNT_MASK) = (if v then VALUE_SIZE else 0) ↔ w = full v.
Proof.
  intros Hw. rewrite COUNT_MASK_wrap, uwrap_id by done. change 16 with (14 + 2).
  rewrite popcount_split by lia.
  assert (popcount 2 (Z.shiftr w 14) = 0) as ->.
  { apply popcount_full; [lia|]. intros i Hi. rewrite Z.shiftr_spec by lia. apply (testbit_above 14); [lia|done|lia]. }
  rewrite Z.add_0_r. destruct (popcount_full 14 w) as [Hp1 Hp0]; [lia|]. unfold full, VALUE_SIZE. destruct v.
  - rewrite Hp1. split; [|intros -> i Hi; change COUNT_MASK with (Z.ones 14); by apply Z.ones_spec_low].
    intros Hb. apply Z.bits_inj'. intros i Hi. change COUNT_MASK with (Z.ones 14).
    rewrite Z.testbit_ones_nonneg by lia. destruct (Z.ltb_spec i 14); [apply Hb; lia|by apply (testbit_above 14)].
  - rewrite Hp0. split; [|intros -> i Hi; apply Z.bits_0].
    intros Hb. apply Z.bits_inj'. intros i Hi. rewrite Z.bits_0.
    destruct (Z.lt_ge_cases i 14); [apply Hb; lia|by apply (testbit_above 14)].
Qed.

Lemma flush_run_spec {S} l v n (s : S) :
  0 ≤ n → 14 * n < 2 ^ 32 → flush_run l v (14 * n) s = Ret (flushed v n) s.
Proof.
  intros Hn Hb. unfold flush_run, flushed, VALUE_SIZE. replace (14 * n / 14) with n by lia.
  destruct (Z.ltb_spec 1 n).
  - replace (14 * n mod 14) with 0 by lia. destruct l; apply emit_run_spec; lia.
  - unfold truthy, full. destruct (Z.eqb_spec (14 * n) 0), (Z.eqb_spec n 1); simpl; try done; lia.
Qed.
Lemma push_words_spec {S} cap out ws (s : S) :
  (length out + length ws ≤ cap)%nat → push_words cap out ws s = Ret (out ++ ws) s.
Proof.
  intros Hl. unfold push_words. rewrite (proj2 (Nat.leb_le _ _)); [done|]. rewrite length_app. lia.
Qed.

Lemma compress_loop_spec {S} cap ws v n out (s : S) :
  Forall (in_u 14) ws → 0 ≤ n → 14 * (n + Z.of_nat (length ws)) < 2 ^ 32 →
  Z.of_nat (length out) + n + Z.of_nat (length ws) ≤ Z.of_nat cap →
  ∃ v' n' out', compress_loop cap ws v (14 * n) out s = Ret (v', 14 * n', out') s ∧ 0 ≤ n' ∧
    14 * n' < 2 ^ 32 ∧ out' ++ flushed v' n' = out ++ compressing ws v n ∧
    Z.of_nat (length out') + n' ≤ Z.of_nat cap.
Proof.
  intros Hws. revert v n out. induction Hws as [|cur ws Hcur Hws IH]; intros v n out Hn Hb Hcap;
    cbn [compress_loop compressing length] in *.
  { exists v, n, out. split_and!; [done|lia|lia|done|lia]. }
  pose proof (popcount_clean cur true Hcur) as Ht. pose proof (popcount_clean cur false Hcur) as Hf.
  cbv iota in Ht, Hf. set (c := popcount 16 (Z.land cur COUNT_MASK)) in *.
  assert (((c =? 0) && negb v) || ((c =? VALUE_SIZE) && v) = bool_decide (cur = full v)) as ->.
  { destruct v; simpl; rewrite ?andb_true_r, ?andb_false_r, ?orb_false_r; simpl; apply eq_true_iff_eq;
      rewrite Z.eqb_eq, bool_decide_eq_true; done. }
  destruct (decide (cur = full v)) as [E|E].
  { rewrite bool_decide_eq_true_2 by done. replace (14 * n + VALUE_SIZE) with (14 * (n + 1)) by (unfold VALUE_SIZE; lia).
    apply IH; lia. }
  rewrite bool_decide_eq_false_2 by done. pose proof (length_flushed v n Hn) as Hfl.
  rewrite (cbind_Ret _ _ _ _ _ (flush_run_spec true v n s Hn ltac:(lia))).
  rewrite (cbind_Ret _ _ _ _ _ (push_words_spec cap out (flushed v n) s ltac:(lia))).
  assert ((c =? 0) || (c =? VALUE_SIZE) = bool_decide (cur = full (negb v))) as ->.
  { apply eq_true_iff_eq. rewrite orb_true_iff, !Z.eqb_eq, bool_decide_eq_true, Hf, Ht. clear -E. destruct v; simpl; tauto. }
  rewrite (assoc_L (++)). destruct (decide (cur = full (negb v))) as [E2|E2].
  - rewrite bool_decide_eq_true_2 by done. assert ((c =? VALUE_SIZE) = negb v) as ->.
    { apply eq_true_iff_eq. rewrite Z.eqb_eq, Ht, E2. destruct v; split; done. }
    change VALUE_SIZE with (14 * 1). apply IH; [lia|lia|]. rewrite length_app. lia.
  - rewrite bool_decide_eq_false_2 by done.
    rewrite (cbind_Ret _ _ _ _ _ (push_words_spec cap (out ++ flushed v n) [cur] s ltac:(rewrite length_app; simpl; lia))).
    change 0 with (14 * 0) at 1. destruct (IH v 0 ((out ++ flushed v n) ++ [cur])) as (v' & n' & out' & ? & ? & ? & E' & ?);
      [lia|lia|rewrite !length_app; simpl; lia|].
    exists v', n', out'. split_and!; try done. rewrite E', <- (assoc_L (++) _ [cur]). done.
Qed.
End denotation.

(** ** Reading a stream back *)
Section reading.
Local Open Scope Z_scope.
Implicit Types b : Bitmap.

(** Word [j] of a list that starts at index [k]. *)
Definition from (k : Z) (ws : list Z) (j : Z) : Z := default 0 (ws !! Z.to_nat (j - k)).

Lemma from_app_l k l ws j : 0 ≤ j - k < Z.of_nat (length l) → from k (l ++ ws) j = from k l j.
Proof. intros. unfold from. by rewrite lookup_app_l by lia. Qed.
Lemma from_app_r k l ws j : Z.of_nat (length l) ≤ j - k → from k (l ++ ws) j = from (k + Z.of_nat (length l)) ws j.
Proof. intros. unfold from. rewrite lookup_app_r by lia. do 2 f_equal. lia. Qed.
Lemma from_replicate k n x j : 0 ≤ j - k < Z.of_nat n → from k (replicate n x) j = x.
Proof. intros. unfold from. by rewrite lookup_replicate_2 by lia. Qed.

(** A consumer that combines each word of the map with the word the stream
    has for it. *)
Definition combines (f : Z → Z → Z) (b : Bitmap) (body : Z → segment → M Bitmap bool) : Prop :=
  (∀ k v n b1, 0 ≤ k → 1 ≤ n → 14 * (k + n) < 2 ^ 32 → k + n ≤ Z.of_nat (length (words b)) →
     shape b1 = shape b → (∀ j, k ≤ j → word b1 j = word b j) →
     ∃ b2, body (14 * k) (Run v (14 * n)) b1 = Ret false b2 ∧ updates k (k + n) (λ _ x, f x (full v)) b1 b2) ∧
  (∀ k w b1, 0 ≤ k → in_u 14 w → k + 1 ≤ Z.of_nat (length (words b)) →
     shape b1 = shape b → (∀ j, k ≤ j → word b1 j = word b j) →
     ∃ b2, body (14 * k) (Literal w) b1 = Ret false b2 ∧ updates k (k + 1) (λ _ x, f x w) b1 b2).

Lemma each_segment_updates f b body out ws k b1 fuel :
  combines f b body → denotes out ws → (length out ≤ fuel)%nat → 0 ≤ k →
  k + Z.of_nat (length ws) ≤ Z.of_nat (length (words b)) → 14 * (k + Z.of_nat (length ws)) < 2 ^ 32 →
  shape b1 = shape b → (∀ j, k ≤ j → word b1 j = word b j) →
  ∃ b2, each_segment fuel out (14 * k) body b1 = Ret false b2 ∧
    updates k (k + Z.of_nat (length ws)) (λ j x, f x (from k ws j)) b1 b2.
Proof.
  intros [Hrun Hlit] Hd. revert k b1 fuel.
  induction Hd as [|v n out ws Hn Hb Hs Hd IH|w out ws Hw Hd IH]; intros k b1 fuel Hfuel Hk Hlen Hmax Hsh Hlater.
  - exists b1. rewrite Z.add_0_r. split; [by destruct fuel|apply updates_refl].
  - rewrite length_app, length_replicate in *.
    destruct (run_words_read v (14 * n) out b1) as (x & xs & Hwords & Hx & Hread); [lia|done|].
    rewrite Hwords in Hfuel |- *. cbn [app length] in Hfuel |- *. destruct fuel as [|fuel]; [lia|].
    destruct (rw_spec v x Hx) as (_ & Hr & Hv & Hm). cbn [each_segment]. rewrite Hr, Hv, Hm.
    rewrite (cbind_Ret _ _ _ _ _ Hread).
    destruct (Hrun k v n b1) as (b2 & Hr2 & Hu2); [lia|lia|lia|lia|done|done|].
    rewrite (cbind_Ret _ _ _ _ _ Hr2). rewrite u32_id by lia.
    replace (14 * k + 14 * n) with (14 * (k + n)) by lia.
    destruct (IH (k + n) b2 fuel) as (b3 & Hr3 & Hu3); [lia|lia|lia|lia| | |].
    { rewrite <- Hsh. apply Hu2. }
    { intros j Hj. rewrite (updates_later _ _ _ _ _ _ Hu2) by lia. apply Hlater. lia. }
    exists b3. split; [done|].
    apply updates_trans with (k + n) b2; [lia| |].
    + apply updates_ext with (2 := Hu2). intros j y Hj _.
      rewrite from_app_l, from_replicate by (rewrite ?length_replicate; lia). done.
    + replace (k + Z.of_nat (Z.to_nat n + length ws)) with (k + n + Z.of_nat (length ws)) by lia.
      apply updates_ext with (2 := Hu3). intros j y Hj _.
      rewrite from_app_r by (rewrite length_replicate; lia). rewrite length_replicate. do 2 f_equal. lia.
  - cbn [length] in *. destruct fuel as [|fuel]; [lia|]. cbn [each_segment].
    rewrite literal_not_run by done.
    rewrite COUNT_MASK_wrap, uwrap_id by done.
    destruct (Hlit k w b1) as (b2 & Hr2 & Hu2); [lia|done|lia|done|done|].
    rewrite (cbind_Ret _ _ _ _ _ Hr2). unfold VALUE_SIZE. rewrite u32_id by lia.
    replace (14 * k + 14) with (14 * (k + 1)) by lia.
    destruct (IH (k + 1) b2 fuel) as (b3 & Hr3 & Hu3); [lia|lia|lia|lia| | |].
    { rewrite <- Hsh. apply Hu2. }
    { intros j Hj. rewrite (updates_later _ _ _ _ _ _ Hu2) by lia. apply Hlater. lia. }
    exists b3. split; [done|].
    apply updates_trans with (k + 1) b2; [lia| |].
    + apply updates_ext with (2 := Hu2). intros j y Hj _. assert (j = k) as -> by lia.
      unfold from. by rewrite Z.sub_diag.
    + replace (k + Z.of_nat (Datatypes.S (length ws))) with (k + 1 + Z.of_nat (length ws)) by lia.
      apply updates_ext with (2 := Hu3). intros j y Hj _.
      change (w :: ws) with ([w] ++ ws). rewrite (from_app_r k [w]) by (simpl; lia). done.
Qed.

(** set(from, size, v) on whole words *)
Lemma set_range_updates k n v b :
  0 ≤ k → 1 ≤ n → 14 * (k + n) < 2 ^ 32 → k + n ≤ Z.of_nat (length (words b)) →
  ∃ b', set_range (14 * k) (14 * n) v b = Ret tt b' ∧ updates k (k + n) (λ _ _, full v) b b'.
Proof.
  intros Hk Hn Hb Hl. unfold set_range. rewrite (proj2 (Z.eqb_neq _ _)) by lia.
  rewrite u32_id by lia. unfold VALUE_SIZE. replace (14 * k + 14 * n) with (14 * (k + n)) by lia.
  replace (14 * k mod 14) with 0 by lia. replace (14 * (k + n) mod 14) with 0 by lia.
  replace (14 * k / 14) with k by lia. replace (14 * (k + n) / 14) with (k + n) by lia.
  replace (k + n - k) with n by lia. unfold cbind. simpl.
  destruct (cfor_updates 0 1 k n (λ i, store i (full v)) (λ _ _, full v) b) as (b' & Hr & Hu); [lia|lia| |].
  - intros i b1 Hi Hu. rewrite Z.add_0_l, Z.mul_1_l.
    destruct (word_Some b1 i) as [w Hw]; [rewrite (updates_length _ _ _ _ _ Hu); lia|].
    by apply (store_updates i w (full v) b1 (λ _ _, full v)).
  - exists b'. split; [exact Hr|]. by rewrite !Z.mul_1_l, !Z.add_0_l in Hu.
Qed.

Lemma expand_combines b : combines (λ _ w, w) b expand.
Proof.
  split.
  - intros k v n b1 Hk Hn Hb Hl Hs _. apply shape_inv in Hs as (_ & _ & _ & Hlen).
    destruct (set_range_updates k n v b1) as (b2 & Hr & Hu); [done|done|done|lia|].
    unfold expand. rewrite (cbind_Ret _ _ _ _ _ Hr). by exists b2.
  - intros k w b1 Hk Hw Hl Hs _. apply shape_inv in Hs as (_ & _ & _ & Hlen).
    destruct (word_Some b1 k) as [x Hx]; [lia|].
    destruct (store_updates k x w b1 (λ _ _, w)) as (b2 & Hr & Hu); [done|done|].
    unfold expand, VALUE_SIZE. replace (14 * k / 14) with k by lia.
    rewrite (cbind_Ret _ _ _ _ _ Hr). by exists b2.
Qed.

(** A compressed map that stands for the words [ws]. *)
Definition packs (c : Bitmap) (size : Z) (ws : list Z) : Prop :=
  bm_compress c = true ∧ bm_size c = size ∧ bm_dataSize c = Z.of_nat (length (words c)) ∧
  denotes (words c) ws ∧ Z.of_nat (length ws) = data_size size ∧ 14 * Z.of_nat (length ws) < 2 ^ 32.

Lemma segments_updates f c size ws body b :
  packs c size ws → combines f b body → data_size size ≤ Z.of_nat (length (words b)) →
  ∃ b', segments_of c body b = Ret false b' ∧ updates 0 (data_size size) (λ j x, f x (from 0 ws j)) b b'.
Proof.
  intros (_ & _ & Hds & Hd & Hlen & Hmax) Hbody Hl. unfold segments_of, stored.
  rewrite Hds, Z.leb_refl, Nat2Z.id, take_ge by done. rewrite (cbind_Ret _ _ _ _ _ eq_refl).
  destruct (each_segment_updates f b body (words c) ws 0 b (length (words c)) Hbody Hd) as (b' & Hr & Hu);
    [done|done|lia|lia|done|done|].
  exists b'. rewrite Z.add_0_l, Hlen in Hu. done.
Qed.

Lemma clean_stored b : bm_wf b → clean b →
  Forall (in_u 14) (take (Z.to_nat (bm_dataSize b)) (words b)).
Proof.
  intros Hwf Hc. apply Forall_lookup_2. intros i w Hi.
  apply lookup_take_Some in Hi as [Hi Hlt]. specialize (Hc (Z.of_nat i) ltac:(lia)).
  unfold wordv, word in Hc. rewrite (proj2 (Z.leb_le _ _)), Nat2Z.id, Hi in Hc by lia. done.
Qed.
Lemma from_stored b k : bm_wf b → 0 ≤ k < bm_dataSize b →
  from 0 (take (Z.to_nat (bm_dataSize b)) (words b)) k = wordv b k.
Proof.
  intros Hwf Hk. unfold from, wordv, word. rewrite Z.sub_0_r, (proj2 (Z.leb_le _ _)) by lia.
  by rewrite lookup_take_lt by lia.
Qed.

Lemma compressed_packs {S} b (s : S) :
  bm_wf b → clean b →
  ∃ c, bm_compressed b s = Ret c s ∧ packs c (bm_size b) (take (Z.to_nat (bm_dataSize b)) (words b)) ∧
    bm_dataSize c ≤ bm_dataSize b.
Proof.
  intros Hwf Hc. unfold bm_compressed. rewrite (wf_plain _ Hwf).
  rewrite (cbind_Ret _ _ _ _ _ (stored_spec b s Hwf)).
  pose proof (clean_stored b Hwf Hc) as Hcl. set (ws := take (Z.to_nat (bm_dataSize b)) (words b)) in *.
  destruct (data_size_spec (bm_size b)) as (Hd0 & Hlo & Hhi); [apply Hwf|].
  rewrite <- (wf_dataSize _ Hwf) in *. pose proof (wf_alloc _ Hwf). pose proof (wf_range _ Hwf).
  assert (Z.of_nat (length ws) = bm_dataSize b) as Hlen by (unfold ws; rewrite length_take; lia).
  destruct (compress_loop_spec (length ws) ws false 0 [] s Hcl) as (v & n & out & Hr & Hn & Hnb & Hout & Hcap);
    [lia|unfold VALUE_SIZE in *; lia|simpl; lia|]. rewrite Z.mul_0_r in Hr.
  rewrite (cbind_Ret _ _ _ _ _ Hr). cbv iota beta.
  assert ((if 0 <? 14 * n then flush_run false v (14 * n) else cret []) s = Ret (flushed v n) s) as Hfl.
  { destruct (Z.ltb_spec 0 (14 * n)); [by apply flush_run_spec|]. assert (n = 0) as -> by lia. done. }
  rewrite (cbind_Ret _ _ _ _ _ Hfl). pose proof (length_flushed v n Hn).
  rewrite (cbind_Ret _ _ _ _ _ (push_words_spec (length ws) out (flushed v n) s ltac:(lia))). rewrite Hout.
  eexists. split; [done|]. pose proof (length_compressing ws false 0). simpl. split; [|lia].
  split_and!; [done|done|done| |by rewrite <- wf_dataSize|unfold VALUE_SIZE in *; lia].
  apply (compressing_denotes ws false 0 Hcl); [lia|unfold VALUE_SIZE in *; lia].
Qed.

Lemma new_zero size : 0 ≤ size < 2 ^ 32 - 64 →
  bm_wf (Bitmap_new size 0) ∧ Z.of_nat (length (words (Bitmap_new size 0))) = data_size size ∧
  ∀ k, wordv (Bitmap_new size 0) k = 0.
Proof.
  intros Hs. destruct (data_size_spec size) as (Hd & _); [lia|].
  assert (words (Bitmap_new size 0) = replicate (Z.to_nat (data_size size)) 0) as Hw.
  { unfold words, Bitmap_new, truthy. cbn [bm_data]. destruct (Z.eqb_spec (data_size size) 0) as [->|]; done. }
  split_and!.
  - split; [done|done|done|rewrite Hw, length_replicate; simpl; lia|]. rewrite Hw. by apply Forall_replicate.
  - rewrite Hw, length_replicate. lia.
  - intros k. unfold wordv, word. destruct (0 <=? k); [|done]. rewrite Hw.
    destruct (replicate _ _ !! _) eqn:E; [|done]. by apply lookup_replicate in E as [-> _].
Qed.

Lemma uncompressed_packs {S} c size ws (s : S) :
  packs c size ws → 0 ≤ size < 2 ^ 32 - 64 → Forall (in_u 14) ws →
  ∃ u, bm_uncompressed c s = Ret u s ∧ bm_wf u ∧ bm_size u = size ∧
    ∀ k, 0 ≤ k < data_size size → wordv u k = from 0 ws k.
Proof.
  intros Hp Hsize Hws. destruct (new_zero size Hsize) as (Hwf & Hlen & _).
  destruct (segments_updates (λ _ w, w) c size ws expand (Bitmap_new size 0) Hp (expand_combines _))
    as (u & Hr & Hu); [lia|].
  destruct Hp as (Hc & Hs & _). unfold bm_uncompressed. rewrite Hc, Hs, Hr. cbn [negb].
  exists u. split; [done|]. destruct (updates_size _ _ _ _ _ Hu) as (Es & _ & _). split_and!.
  - refine (updates_wf _ _ _ _ _ Hwf _ Hu). intros j x _. unfold from.
    destruct (ws !! Z.to_nat (j - 0)) eqn:E; [|done]. eapply Forall_lookup_1 in E; [|done].
    unfold in_u in *. simpl. lia.
  - done.
  - intros k Hk. rewrite (updates_wordv _ _ _ _ _ _ Hu) by lia.
    rewrite (proj2 (Z.leb_le _ _)), (proj2 (Z.ltb_lt _ _)) by lia. done.
Qed.
End reading.

(** ** Operations with a compressed operand *)
Section mixed.
Local Open Scope Z_scope.
Implicit Types a b c : Bitmap.

Lemma updates_none lo hi g b : (∀ j w, lo ≤ j < hi → word b j = Some w → g j w = w) → updates lo hi g b b.
Proof.
  intros Hg. split; [done|]. intros j. destruct (Z.leb_spec lo j), (Z.ltb_spec j hi); simpl; try done.
  destruct (word b j) eqn:E; [|done]. simpl. by rewrite Hg.
Qed.

(** The allocation beyond m_dataSize plays no part. *)
Definition clean_all a : Prop := ∀ j w, word a j = Some w → in_u 14 w.

Lemma combine_word_updates f k w b :
  0 ≤ k → k + 1 ≤ Z.of_nat (length (words b)) →
  ∃ b', combine_word f (14 * k) w b = Ret false b' ∧ updates k (k + 1) (λ _ x, f x w) b b'.
Proof.
  intros Hk Hl. destruct (word_Some b k) as [x Hx]; [lia|].
  unfold combine_word, VALUE_SIZE, cbind at 1, cget. replace (14 * k / 14) with k by lia.
  rewrite (cbind_Ret _ _ _ _ _ (load_Some _ _ _ b Hx)).
  destruct (store_updates k x (f x w) b (λ _ x, f x w)) as (b' & Hr & Hu); [done|done|].
  rewrite (cbind_Ret _ _ _ _ _ Hr). by exists b'.
Qed.

(** A run of [same] leaves clean words as they are, the other one sets
    them: the bodies of &= and |= over segments. *)
Lemma run_combines f same a :
  clean_all a → (∀ x, in_u 14 x → f x (full same) = x) → (∀ x, in_u 14 x → f x (full (negb same)) = full (negb same)) →
  combines f a (λ cur_pos seg,
    match seg with
    | Run v count =>
      let! _ := if Bool.eqb v same then cret tt else set_range cur_pos count v in cret false
    | Literal w => combine_word f cur_pos w
    end).
Proof.
  intros Ha Hid Hset. split.
  - intros k v n b1 Hk Hn Hb Hl Hs Hlater. apply shape_inv in Hs as (_ & _ & _ & Hlen).
    destruct (Bool.eqb_spec v same) as [->|Hne].
    + exists b1. split; [done|]. apply updates_none. intros j w Hj Hw. rewrite Hlater in Hw by lia.
      apply Hid. by eapply Ha.
    + assert (v = negb same) as -> by (by destruct v, same).
      destruct (set_range_updates k n (negb same) b1) as (b2 & Hr & Hu); [done|done|done|lia|].
      rewrite (cbind_Ret _ _ _ _ _ Hr). exists b2. split; [done|].
      apply updates_ext with (2 := Hu). intros j w Hj Hw. rewrite Hlater in Hw by lia.
      symmetry. apply Hset. by eapply Ha.
  - intros k w b1 Hk Hw Hl Hs _. apply shape_inv in Hs as (_ & _ & _ & Hlen).
    apply combine_word_updates; lia.
Qed.

Lemma land_full x : in_u 14 x → Z.land x (full true) = x ∧ Z.land x (full false) = full false.
Proof. intros Hx. split; [|by apply Z.land_0_r]. unfold full. by rewrite COUNT_MASK_wrap, uwrap_id. Qed.
Lemma lor_full x : in_u 14 x → Z.lor x (full false) = x ∧ Z.lor x (full true) = full true.
Proof.
  intros Hx. split; [apply Z.lor_0_r|]. apply Z.bits_inj'. intros n Hn. rewrite Z.lor_spec. simpl.
  change COUNT_MASK with (Z.ones 14). rewrite Z.testbit_ones_nonneg by lia.
  destruct (Z.ltb_spec n 14); [apply orb_true_r|]. by rewrite (testbit_above 14).
Qed.

Lemma combines_ext f b body body' :
  (∀ p seg s, body p seg s = body' p seg s) → combines f b body → combines f b body'.
Proof.
  intros Hext [Hr Hl]. split.
  - intros k v n b1 ? ? ? ? ? ?. destruct (Hr k v n b1) as (b2 & Hb1 & Hb2); [done..|]. exists b2.
    by rewrite <- Hext.
  - intros k w b1 ? ? ? ? ?. destruct (Hl k w b1) as (b2 & Hb1 & Hb2); [done..|]. exists b2. by rewrite <- Hext.
Qed.

(** One lemma for the compressed branch of &= and |=. *)
Lemma binary_compressed f same on_run a c ws :
  (∀ p v count s, on_run p v count s = (if Bool.eqb v same then cret tt else set_range p count v) s) →
  (∀ x, in_u 14 x → f x (full same) = x) → (∀ x, in_u 14 x → f x (full (negb same)) = full (negb same)) →
  bm_wf a → clean_all a → packs c (bm_size a) ws →
  ∃ a', binary f on_run c a = Ret tt a' ∧ updates 0 (bm_dataSize a) (λ j x, f x (from 0 ws j)) a a'.
Proof.
  intros Hrun Hid Hset Ha Hc Hp. pose proof Hp as (Hcc & Hcs & _).
  unfold binary, cbind at 1, cget. rewrite Hcs, Z.eqb_refl, Hcc, (wf_plain _ Ha). cbn [negb andb xorb].
  match goal with |- context [segments_of c ?g] => set (body := g) end.
  assert (combines f a body) as Hbody.
  { eapply combines_ext; [|by apply (run_combines f same a)]. intros p [v n|w] s; [|done].
    unfold body, cbind. by rewrite Hrun. }
  destruct (segments_updates f c (bm_size a) ws body a Hp Hbody) as (a' & Hr & Hu).
  { rewrite <- wf_dataSize by done. apply Ha. }
  exists a'. rewrite (wf_dataSize _ Ha). by rewrite (cbind_Ret _ _ _ _ _ Hr).
Qed.

(** The same words as with the uncompressed operand. *)
Lemma and_compressed a b c :
  bm_wf a → clean_all a → bm_wf b → packs c (bm_size a) (take (Z.to_nat (bm_dataSize b)) (words b)) →
  bm_size b = bm_size a →
  ∃ a', and_assign c a = Ret tt a' ∧ updates 0 (bm_dataSize a) (λ j x, Z.land x (wordv b j)) a a'.
Proof.
  intros Ha Hc Hb Hp Hs. destruct (binary_compressed Z.land true
    (λ cur_pos v count, if negb v then set_range cur_pos count false else cret tt) a c (take (Z.to_nat (bm_dataSize b)) (words b))) as (a' & Hr & Hu);
    [by intros ? [] ? ?|by intros; apply land_full|by intros; apply land_full|done|done|done|].
  exists a'. split; [done|]. apply updates_ext with (2 := Hu). intros j w Hj _.
  rewrite from_stored; [done|done|]. by rewrite !wf_dataSize, Hs, <- wf_dataSize by done.
Qed.
Lemma or_compressed a b c :
  bm_wf a → clean_all a → bm_wf b → packs c (bm_size a) (take (Z.to_nat (bm_dataSize b)) (words b)) →
  bm_size b = bm_size a →
  ∃ a', or_assign c a = Ret tt a' ∧ updates 0 (bm_dataSize a) (λ j x, Z.lor x (wordv b j)) a a'.
Proof.
  intros Ha Hc Hb Hp Hs. destruct (binary_compressed Z.lor false
    (λ cur_pos v count, if v then set_range cur_pos count true else cret tt) a c (take (Z.to_nat (bm_dataSize b)) (words b))) as (a' & Hr & Hu);
    [by intros ? [] ? ?|by intros; apply lor_full|by intros; apply lor_full|done|done|done|].
  exists a'. split; [done|]. apply updates_ext with (2 := Hu). intros j w Hj _.
  rewrite from_stored; [done|done|]. by rewrite !wf_dataSize, Hs, <- wf_dataSize by done.
Qed.

(** ~ on a compressed map *)
Lemma not_word_rw v x : in_u 14 x → not_word (rw v x) = rw (negb v) x.
Proof.
  intros Hx. destruct (rw_spec v x Hx) as (E & Hr & Hv & _). unfold not_word. rewrite Hr, Hv.
  destruct (rw_spec (negb v) x Hx) as (E' & _). rewrite E', E. unfold in_u in Hx. destruct v; cbn [negb].
  - apply Z.bits_inj'. intros n Hn. rewrite Z.land_spec, !Z.lor_spec.
    unfold NOT_VALUE_MASK, COMPRESS_MASK, VALUE_MASK. rewrite testbit_wrap, Z.lnot_spec by lia.
    change 16384 with (POS 14). change 32768 with (POS 15). rewrite !testbit_POS by lia.
    assert (14 ≤ n → Z.testbit x n = false) as Hhigh by (intros; by apply (testbit_above 14)).
    destruct (Z.testbit x n); destruct (Z.eqb_spec 15 n), (Z.eqb_spec 14 n), (Z.ltb_spec n 16);
      cbn; try done; try lia; (assert (14 ≤ n) as Hn' by lia; by specialize (Hhigh Hn')).
  - rewrite <- Z.lor_assoc, (Z.lor_comm x), Z.lor_assoc. done.
Qed.
Lemma not_word_literal w : in_u 14 w → not_word w = Z.land (u16 (Z.lnot w)) COUNT_MASK ∧ in_u 14 (not_word w).
Proof.
  intros Hw. unfold not_word. rewrite literal_not_run by done. split; [done|].
  rewrite COUNT_MASK_wrap. by apply uwrap_range.
Qed.
Lemma not_word_full v : not_word (full v) = full (negb v).
Proof. by destruct v. Qed.

Lemma not_run_words v count : 0 < count < 2 ^ 32 → not_word <$> run_words v count = run_words (negb v) count.
Proof.
  intros Hc. unfold run_words. repeat case_match; cbn [fmap list_fmap]; rewrite ?not_word_rw; try done;
    rewrite ?Z.ltb_lt, ?Z.ltb_ge in *; unfold in_u; lia.
Qed.
Lemma stops_run_head v out ws : denotes out ws → stops_run v out → stops_run (negb v) (not_word <$> out).
Proof.
  intros Hd. destruct Hd as [|v' n out ws Hn Hb _ _|w out ws Hw _]; [done| |].
  - rewrite fmap_app, not_run_words by lia. destruct (run_words_head v' (14 * n)) as (x & xs & -> & Hx); [lia|].
    destruct (run_words_head (negb v') (14 * n)) as (y & ys & -> & Hy); [lia|]. simpl.
    destruct (rw_spec v' x Hx) as (_ & -> & -> & _). destruct (rw_spec (negb v') y Hy) as (_ & -> & -> & _).
    by destruct v, v'.
  - intros _. simpl. by rewrite literal_not_run by (by apply not_word_literal).
Qed.
Lemma denotes_not out ws : denotes out ws → denotes (not_word <$> out) (not_word <$> ws).
Proof.
  induction 1 as [|v n out ws Hn Hb Hs Hd IH|w out ws Hw Hd IH]; [constructor| |].
  - rewrite !fmap_app, not_run_words, fmap_replicate, not_word_full by lia.
    apply den_run; [done|done|by eapply stops_run_head|done].
  - cbn [fmap list_fmap]. apply den_lit; [by apply not_word_literal|done].
Qed.

Lemma not_compressed c size ws : packs c size ws →
  ∃ c', bm_not c = Ret tt c' ∧ packs c' size (not_word <$> ws).
Proof.
  intros (Hc & Hs & Hds & Hd & Hlen & Hmax). unfold bm_not, cbind at 1, cget. rewrite Hc. cbn [negb].
  destruct (cfor_updates 0 1 0 (bm_dataSize c) (λ i, let! this := cget in let! x := load this i in store i (not_word x))
    (λ _, not_word) c) as (c' & Hr & Hu); [lia|lia| |].
  { intros i c1 Hi Hu. unfold cbind at 1, cget. rewrite Z.add_0_l, Z.mul_1_l.
    destruct (word_Some c1 i) as [x Hx]; [rewrite (updates_length _ _ _ _ _ Hu); lia|].
    rewrite (cbind_Ret _ _ _ _ _ (load_Some _ _ _ c1 Hx)). by apply store_updates with x. }
  exists c'. split; [done|]. rewrite !Z.mul_1_l, !Z.add_0_l in Hu.
  pose proof (updates_length _ _ _ _ _ Hu) as Hlen'. destruct (updates_size _ _ _ _ _ Hu) as (Es & Ed & Ec).
  assert (words c' = not_word <$> words c) as Hw.
  { apply list_eq. intros i. rewrite list_lookup_fmap. pose proof (upd_word _ _ _ _ _ Hu (Z.of_nat i)) as Hi.
    unfold word in Hi. rewrite (proj2 (Z.leb_le _ _)), Nat2Z.id in Hi by lia. rewrite Hi. cbn [andb].
    destruct (Z.ltb_spec (Z.of_nat i) (bm_dataSize c)); [done|]. by rewrite lookup_ge_None_2 by lia. }
  split_and!; [by rewrite Ec|by rewrite Es|rewrite Ed, Hw, length_fmap; done|rewrite Hw; by apply denotes_not|
    by rewrite length_fmap|by rewrite length_fmap].
Qed.
End mixed.

(** ** The intersection test with a compressed map *)
Section crossing.
Context {S : Type}.
Local Open Scope Z_scope.
Implicit Types (a b c : Bitmap) (s : S).

Lemma each_segment_exists (P : Z → Z → Prop) (top : Z) body out ws k fuel s :
  (∀ k v n, 0 ≤ k → 1 ≤ n → k + n ≤ top →
     ∃ r, body (14 * k) (Run v (14 * n)) s = Ret r s ∧ (r = true ↔ ∃ j, k ≤ j < k + n ∧ P j (full v))) →
  (∀ k w, 0 ≤ k < top → ∃ r, body (14 * k) (Literal w) s = Ret r s ∧ (r = true ↔ P k w)) →
  denotes out ws → (length out ≤ fuel)%nat → 0 ≤ k → k + Z.of_nat (length ws) ≤ top → 14 * top < 2 ^ 32 →
  ∃ r, each_segment fuel out (14 * k) body s = Ret r s ∧
    (r = true ↔ ∃ j, k ≤ j < k + Z.of_nat (length ws) ∧ P j (from k ws j)).
Proof.
  intros Hrun Hlit Hd. revert k fuel.
  induction Hd as [|v n out ws Hn Hb Hs Hd IH|w out ws Hw Hd IH]; intros k fuel Hfuel Hk Hlen Hmax.
  - exists false. split; [by destruct fuel|]. split; [done|]. intros (j & Hj & _). simpl in Hj. lia.
  - rewrite length_app, length_replicate in *.
    destruct (run_words_read v (14 * n) out s) as (x & xs & Hwords & Hx & Hread); [lia|done|].
    rewrite Hwords in Hfuel |- *. cbn [app length] in Hfuel |- *. destruct fuel as [|fuel]; [lia|].
    destruct (rw_spec v x Hx) as (_ & Hr & Hv & Hm). cbn [each_segment]. rewrite Hr, Hv, Hm.
    rewrite (cbind_Ret _ _ _ _ _ Hread).
    destruct (Hrun k v n) as (r & Hr2 & Hiff); [lia|lia|lia|]. rewrite (cbind_Ret _ _ _ _ _ Hr2).
    assert (∀ j, k ≤ j < k + n → from k (replicate (Z.to_nat n) (full v) ++ ws) j = full v) as Hfrom.
    { intros j Hj. rewrite from_app_l, from_replicate by (rewrite ?length_replicate; lia). done. }
    destruct r.
    { exists true. split; [done|]. split; [|done]. intros _. destruct Hiff as [(j & Hj & Hp) _]; [done|].
      exists j. rewrite Hfrom by done. split; [lia|done]. }
    rewrite u32_id by lia. replace (14 * k + 14 * n) with (14 * (k + n)) by lia.
    destruct (IH (k + n) fuel) as (r & Hr3 & Hiff3); [lia|lia|lia|lia|]. exists r. split; [done|].
    assert (∀ j, k + n ≤ j → from k (replicate (Z.to_nat n) (full v) ++ ws) j = from (k + n) ws j) as Hfrom2.
    { intros j Hj. rewrite from_app_r by (rewrite length_replicate; lia). rewrite length_replicate. f_equal. lia. }
    rewrite Hiff3. split.
    + intros (j & Hj & Hp). exists j. rewrite Hfrom2 by lia. split; [lia|done].
    + intros (j & Hj & Hp). destruct (Z.lt_ge_cases j (k + n)) as [Hlt|Hge].
      * rewrite Hfrom in Hp by lia. exfalso. assert (false = true); [|done]. apply Hiff. exists j. split; [lia|done].
      * rewrite Hfrom2 in Hp by lia. exists j. split; [lia|done].
  - cbn [length] in *. destruct fuel as [|fuel]; [lia|]. cbn [each_segment].
    rewrite literal_not_run, COUNT_MASK_wrap, uwrap_id by done.
    destruct (Hlit k w) as (r & Hr2 & Hiff); [lia|]. rewrite (cbind_Ret _ _ _ _ _ Hr2).
    assert (from k (w :: ws) k = w) as Hfrom by (unfold from; by rewrite Z.sub_diag).
    destruct r.
    { exists true. split; [done|]. split; [|done]. intros _. exists k. rewrite Hfrom. split; [lia|by apply Hiff]. }
    unfold VALUE_SIZE. rewrite u32_id by lia. replace (14 * k + 14) with (14 * (k + 1)) by lia.
    destruct (IH (k + 1) fuel) as (r & Hr3 & Hiff3); [lia|lia|lia|lia|]. exists r. split; [done|].
    assert (∀ j, k + 1 ≤ j → from k (w :: ws) j = from (k + 1) ws j) as Hfrom2.
    { intros j Hj. change (w :: ws) with ([w] ++ ws). rewrite (from_app_r k [w]) by (simpl; lia). done. }
    rewrite Hiff3. split.
    + intros (j & Hj & Hp). exists j. rewrite Hfrom2 by lia. split; [lia|done].
    + intros (j & Hj & Hp). destruct (Z.eq_dec j k) as [->|].
      * rewrite Hfrom in Hp. exfalso. assert (false = true); [|done]. by apply Hiff.
      * rewrite Hfrom2 in Hp by lia. exists j. split; [lia|done].
Qed.

Lemma get_range_spec a k n s :
  bm_wf a → 0 ≤ k → 1 ≤ n → k + n ≤ bm_dataSize a →
  ∃ r, get_range a (14 * k) (14 * n) true s = Ret r s ∧
    (r = true ↔ ∃ j, k ≤ j < k + n ∧ truthy (Z.land (wordv a j) COUNT_MASK) = true).
Proof.
  intros Ha Hk Hn Hl. destruct (data_size_spec (bm_size a)) as (_ & Hlo & _); [apply Ha|].
  rewrite <- (wf_dataSize _ Ha) in Hlo. pose proof (wf_range _ Ha). unfold VALUE_SIZE in Hlo.
  unfold get_range. rewrite (proj2 (Z.eqb_neq _ _)) by lia.
  rewrite u32_id by lia. unfold VALUE_SIZE. replace (14 * k + 14 * n) with (14 * (k + n)) by lia.
  replace (14 * k mod 14) with 0 by lia. replace (14 * (k + n) mod 14) with 0 by lia.
  replace (14 * k / 14) with k by lia. replace (14 * (k + n) / 14) with (k + n) by lia.
  replace (k + n - k) with n by lia. rewrite !(cbind_Ret (cassert true) _ s tt s eq_refl).
  match goal with |- context [cfold _ _ ?f] => set (body := f) end.
  destruct (cfold_up body (λ i _, ∀ j, k ≤ j < i → truthy (Z.land (wordv a j) COUNT_MASK) = false)
    (λ _, ∃ j, k ≤ j < k + n ∧ truthy (Z.land (wordv a j) COUNT_MASK) = true) k n tt s) as (go & [] & Hr & Hgo);
    [lia|lia| |].
  - intros i [] Hi HI. unfold body. rewrite (cbind_Ret _ _ _ _ _ (wf_load a i s Ha ltac:(lia))).
    destruct (truthy (Z.land (wordv a i) COUNT_MASK)) eqn:E; cbn [negb].
    + exists false, tt. split; [done|]. exists i. split; [lia|done].
    + exists true, tt. split; [done|]. intros j Hj. destruct (Z.eq_dec j i) as [->|]; [done|]. apply HI. lia.
  - rewrite (cbind_Ret _ _ _ _ _ Hr). exists (negb go). split; [done|]. destruct go; [|by split].
    split; [done|]. intros (j & Hj & E). by rewrite Hgo in E.
Qed.

Lemma compressCross_spec a c ws s :
  bm_wf a → packs c (bm_size a) ws →
  ∃ r, bm_cross a c s = Ret r s ∧
    (r = true ↔ ∃ j, 0 ≤ j < bm_dataSize a ∧ truthy (Z.land (wordv a j) (from 0 ws j)) = true).
Proof.
  intros Ha (Hc & Hs & Hds & Hd & Hlen & Hmax). unfold bm_cross. rewrite Hc, (wf_plain _ Ha). cbn [negb andb].
  rewrite <- (wf_dataSize _ Ha) in Hlen.
  unfold compressCross, segments_of, stored. rewrite Hds, Z.leb_refl, Nat2Z.id, take_ge by done.
  rewrite (cbind_Ret _ _ _ _ _ eq_refl). match goal with |- context [each_segment _ _ _ ?f] => set (body := f) end.
  destruct (each_segment_exists (λ j w, truthy (Z.land (wordv a j) w) = true) (bm_dataSize a) body (words c) ws 0
    (length (words c)) s) as (r & Hr & Hiff); [| |done|done|lia|lia|lia|exists r; rewrite Z.add_0_l, Hlen in Hiff; done].
  - intros k v n Hk Hn Hl. unfold body. destruct v; [by apply get_range_spec|].
    exists false. split; [done|]. split; [done|]. intros (j & _ & Hz). simpl in Hz. by rewrite Z.land_0_r in Hz.
  - intros k w Hk. unfold body, VALUE_SIZE. replace (14 * k / 14) with k by lia.
    rewrite (cbind_Ret _ _ _ _ _ (wf_load a k s Ha ltac:(lia))). by eexists.
Qed.
End crossing.

(** ** Theorems *)
Section theorems.
Local Open Scope Z_scope.
Implicit Types a b c : Bitmap.

Lemma tidy_clean b : bm_wf b → tidy b → clean b.
Proof.
  intros Hwf Ht k Hk. pose proof (wordv_range b k Hwf) as Hr. unfold in_u in *. split; [lia|].
  destruct (Z.eq_dec (wordv b k) 0) as [->|]; [lia|]. apply Z.log2_lt_pow2; [lia|].
  destruct (Ht k (Z.log2 (wordv b k)) Hk) as [? _]; [apply Z.log2_nonneg|apply Z.bit_log2; lia|].
  unfold VALUE_SIZE in *. lia.
Qed.

(** compress loses nothing. A well-formed map whose words have only
    their 14 bits compresses, within an array as large as its own, to a map
    that is never larger; uncompress gives back a well-formed map with the
    same words. *)
Theorem bitmap_compress_roundtrip {S} b (s : S) :
  bm_wf b → clean b →
  ∃ c u, bm_compressed b s = Ret c s ∧ bm_dataSize c ≤ bm_dataSize b ∧
    bm_uncompressed c s = Ret u s ∧ bm_wf u ∧ bm_size u = bm_size b ∧
    ∀ k, 0 ≤ k < bm_dataSize b → wordv u k = wordv b k.
Proof.
  intros Hwf Hc. destruct (compressed_packs b s Hwf Hc) as (c & Hr & Hp & Hle).
  destruct (uncompressed_packs c (bm_size b) _ s Hp) as (u & Hu & Hwfu & Hsu & Hk);
    [apply Hwf|by apply clean_stored|].
  exists c, u. split_and!; try done. intros k Hk'. rewrite Hk by (by rewrite <- wf_dataSize).
  by apply from_stored.
Qed.

(** A compressed operand is as good as the map it was made from: &=, |=
    and cross give the same result with it, and ~ of a compressed map
    uncompresses to the complement. *)
Theorem bitmap_compressed_operands {S} a b (s : S) :
  bm_wf a → tidy a → Z.of_nat (length (words a)) = bm_dataSize a → bm_wf b → clean b → bm_size b = bm_size a →
  ∃ c, bm_compressed b s = Ret c s ∧
    (∃ a', and_assign c a = Ret tt a' ∧ ∀ i, 0 ≤ i < bm_size a → bit a' i = bit a i && bit b i) ∧
    (∃ a', or_assign c a = Ret tt a' ∧ ∀ i, 0 ≤ i < bm_size a → bit a' i = bit a i || bit b i) ∧
    (∃ r, bm_cross a c s = Ret r s ∧ (r = true ↔ ∃ i, 0 ≤ i < bm_size a ∧ bit a i = true ∧ bit b i = true)) ∧
    (∃ c' u, bm_not c = Ret tt c' ∧ bm_uncompressed c' s = Ret u s ∧
       ∀ i, 0 ≤ i < bm_size b → bit u i = negb (bit b i)).
Proof.
  intros Ha Hta Hlen Hb Hc Hs. destruct (compressed_packs b s Hb Hc) as (c & Hr & Hp & _).
  pose proof (clean_stored b Hb Hc) as Hst. set (ws := take (Z.to_nat (bm_dataSize b)) (words b)) in *.
  assert (clean_all a) as Hca.
  { intros j w Hw. pose proof (word_Some_inv _ _ _ Hw). rewrite <- (wordv_Some _ _ _ Hw).
    apply tidy_clean; [done|done|lia]. }
  assert (bm_dataSize b = bm_dataSize a) as Hd by (rewrite !wf_dataSize by done; by rewrite Hs).
  pose proof Hp as Hpa. rewrite Hs in Hpa. exists c. split; [done|]. split_and!.
  - destruct (and_compressed a b c) as (a' & Hr' & Hu); [done..|]. exists a'. split; [done|]. intros i Hi.
    rewrite (updates_bit _ a a') by done. apply Z.land_spec.
  - destruct (or_compressed a b c) as (a' & Hr' & Hu); [done..|]. exists a'. split; [done|]. intros i Hi.
    rewrite (updates_bit _ a a') by done. apply Z.lor_spec.
  - destruct (compressCross_spec a c ws s Ha Hpa) as (r & Hr' & Hiff). exists r. split; [done|]. rewrite Hiff.
    fold (meets a b). split.
    + intros (j & Hj & E). unfold ws in E. rewrite from_stored in E by (done || lia). by eapply meets_word.
    + intros (k & Hk & E)%meets_words; [|done]. exists k. split; [done|]. unfold ws. by rewrite from_stored by (done || lia).
  - destruct (not_compressed c _ _ Hp) as (c' & Hr' & Hp').
    destruct (uncompressed_packs c' (bm_size b) _ s Hp') as (u & Hu & Hwfu & Hsu & Hk); [apply Hb| |].
    { apply Forall_fmap. eapply Forall_impl; [|done]. intros w Hw. by apply not_word_literal. }
    exists c', u. split_and!; [done|done|]. intros i Hi. destruct (bit_index (bm_size b) i Hi) as [Hki Hji].
    unfold bit. rewrite Hk by done. rewrite <- (wf_dataSize _ Hb) in Hki. unfold from. rewrite list_lookup_fmap.
    assert (ws !! Z.to_nat (i / VALUE_SIZE - 0) = Some (wordv b (i / VALUE_SIZE))) as ->.
    { destruct (wf_word b (i / VALUE_SIZE) Hb Hki) as (w & Hw & _). rewrite (wordv_Some _ _ _ Hw).
      unfold word in Hw. rewrite (proj2 (Z.leb_le _ _)) in Hw by lia. unfold ws.
      rewrite lookup_take_lt by lia. by rewrite Z.sub_0_r. }
    simpl. destruct (not_word_literal (wordv b (i / VALUE_SIZE))) as [-> _]; [by apply Hc|].
    rewrite COUNT_MASK_wrap, !testbit_wrap, Z.lnot_spec by lia. unfold VALUE_SIZE in *.
    by rewrite !(proj2 (Z.ltb_lt _ _)) by lia.
Qed.
End theorems.

(** ** Serialization *)
Section serialization.
Context (host : endian) (junk : nat → nat → byte).
Implicit Types b : Bitmap.

(** A map as the constructors, copies and compress build it, not empty. *)
Definition storable b : Prop :=
  in_u 32 (bm_size b) ∧ (0 < bm_dataSize b < 2 ^ 32)%Z ∧
  ∃ ws, bm_data b = Some ws ∧ Z.of_nat (length ws) = bm_dataSize b ∧ Forall (in_u 16) ws.

Lemma words_image_length ws : length (words_image host ws) = 2 * length ws.
Proof.
  unfold words_image. induction ws as [|w ws IH]; [done|]. cbn [fmap list_fmap concat length].
  rewrite length_app, length_mem_image, IH. lia.
Qed.
Lemma words_of_image ws : Forall (in_u 16) ws → words_of host (length ws) (words_image host ws) = ws.
Proof.
  induction 1 as [|w ws Hw _ IH]; [done|]. unfold words_image in *. cbn [fmap list_fmap concat length words_of].
  rewrite take_app_length', drop_app_length' by (by rewrite length_mem_image).
  rewrite IH, mem_value_image. f_equal. by apply uwrap_id.
Qed.

Definition bitmap_image (b : Bitmap) (e : endian) : list byte :=
  mem_image e 1 (Z.b2z (bm_compress b)) ++ mem_image e 4 (bm_size b) ++ mem_image e 4 (bm_dataSize b) ++
  words_image host (words b).

Lemma writeTo_encodes b : storable b → encodes (bm_writeTo host junk b) (bitmap_image b).
Proof.
  intros (Hs & Hd & ws & Hdata & Hlen & Hws). unfold bm_writeTo, bitmap_image.
  apply (encodes_bind (writeFuint8 host junk (Z.b2z (bm_compress b))) _ (λ e, mem_image e 1 (Z.b2z (bm_compress b)))).
  { apply one_byte_encodes. }
  apply (encodes_bind (writeFuint32 host junk (bm_size b)) _ (λ e, mem_image e 4 (bm_size b))).
  { apply (write_fixed_encodes host junk 4 u32). }
  apply (encodes_bind (writeFuint32 host junk (bm_dataSize b)) _ (λ e, mem_image e 4 (bm_dataSize b))).
  { apply (write_fixed_encodes host junk 4 u32). }
  intros ba Hwf. unfold stored, words. rewrite Hdata. cbn [default from_option id].
  rewrite (proj2 (Z.leb_le _ _)), take_ge by lia.
  rewrite (cbind_Ret (cret ws) _ ba ws ba eq_refl).
  by apply (write_encodes junk (words_image host ws)).
Qed.

Lemma readFrom_decodes b : storable b → decodes false (bm_readFrom host) (bitmap_image b) (Some b).
Proof.
  intros (Hs & Hd & ws & Hdata & Hlen & Hws). unfold bitmap_image.
  assert (words_image host (words b) ≠ []) as Hne.
  { unfold words. rewrite Hdata. intros E. apply (f_equal length) in E. rewrite words_image_length in E. simpl in E. lia. }
  assert (decodes false
    (let! compress := readFuint8 host in
     let! size := readFuint32 host in
     let! dataSize := readFuint32 host in
     let! bs := read (Z.to_nat (2 * dataSize)) in
     cret (Some (mkBitmap (truthy compress) size dataSize (Some (words_of host (Z.to_nat dataSize) bs)))))
    (bitmap_image b) (Some b)) as H.
  2:{ intros ba rest Hw Hun Hz. destruct (H ba rest Hw Hun Hz) as (ba' & Hr & ?). exists ba'.
      unfold bm_readFrom. by rewrite (ccatch_Ret _ _ _ _ _ Hr). }
  unfold bitmap_image.
  apply (decodes_bind false false (readFuint8 host) _ (λ e, mem_image e 1 (Z.b2z (bm_compress b))) _ (Z.b2z (bm_compress b))).
  { apply (one_byte_decodes host u8). by destruct (bm_compress b). }
  2:{ intros e E. by apply app_nil in E as [_ [_ ?]%app_nil]. }
  apply (decodes_bind false false (readFuint32 host) _ (λ e, mem_image e 4 (bm_size b)) _ (bm_size b)).
  { refine (read_fixed_decodes host 4 u32 _ (Nat.lt_0_succ 3) _). by apply uwrap_id. }
  2:{ intros e E. by apply app_nil in E as [_ ?]. }
  apply (decodes_bind false false (readFuint32 host) _ (λ e, mem_image e 4 (bm_dataSize b)) _ (bm_dataSize b)).
  { refine (read_fixed_decodes host 4 u32 _ (Nat.lt_0_succ 3) _). apply uwrap_id. unfold in_u. lia. }
  2:{ done. }
  unfold words in *. rewrite Hdata in *. cbn [default from_option id] in *.
  replace (Z.to_nat (2 * bm_dataSize b)) with (2 * length ws) by lia.
  apply (decodes_last _ _ _ _ (words_image host ws)).
  - pose proof (read_decodes (words_image host ws) (2 * length ws) (words_image_length ws)) as Hr.
    rewrite (proj2 (Nat.eqb_neq _ _)) in Hr by lia. exact Hr.
  - replace (Z.to_nat (bm_dataSize b)) with (length ws) by lia. rewrite words_of_image by done.
    destruct b as [[] ? ? ?]; simpl in *; by rewrite Hdata.
Qed.

(** A bitmap, compressed or not, written to a ByteArray and read back
    from where it was written is the same object, whatever the byte order
    of the buffer; the cursor ends behind it. *)
Theorem bitmap_serialization b ba :
  storable b → wf ba →
  ∃ ba', (let! _ := bm_writeTo host junk b in let! _ := setPosition (m_position ba) in bm_readFrom host) ba
    = Ret (Some b) ba' ∧ wf ba' ∧ abs ba' = Spec.put (bitmap_image b (m_endian ba)) (abs ba).
Proof.
  intros Hb H. destruct (writeTo_encodes b Hb ba H) as (b1 & Hr1 & Hw1 & Ha1 & He1 & Hb1).
  rewrite (cbind_Ret _ _ _ _ _ Hr1). injection Ha1 as Hc1 Hp1.
  pose proof (wf_position _ H) as Hpos. pose proof (wf_position _ Hw1) as Hpos1.
  destruct (setPosition_seek (m_position ba) b1 Hw1) as (b2 & Hr2 & Hw2 & Ha2 & He2 & _ & _); [lia|].
  rewrite (cbind_Ret _ _ _ _ _ Hr2). injection Ha2 as Hc2 Hp2.
  assert (Hun : unread b2 = bitmap_image b (m_endian b2)
            ++ drop (m_position ba + length (bitmap_image b (m_endian b2))) (content ba)).
  { unfold unread. rewrite Hc2, Hp2, Hc1, He2, He1. unfold overwrite. simpl.
    apply drop_app_length'. rewrite length_take, length_content by done. lia. }
  destruct (readFrom_decodes b Hb b2 _ Hw2 Hun) as (b3 & Hr3 & Hw3 & Ha3 & _); [congruence|].
  exists b3. split_and!; [done|done|]. rewrite Ha3, Hc2, Hc1, Hp2, He2, He1. done.
Qed.
End serialization.

(** ** resize *)
Section resizing.
Local Open Scope Z_scope.

Lemma wordv_list ws c sz ds k : 0 ≤ k → wordv (mkBitmap c sz ds (Some ws)) k = default 0 (ws !! Z.to_nat k).
Proof. intros Hk. unfold wordv, word. by rewrite (proj2 (Z.leb_le _ _)). Qed.

(** The words after resize(size, false) with a larger allocation. *)
Lemma resize_words a size :
  bm_wf a → 0 < bm_size a → bm_dataSize a < data_size size →
  ∃ ws, bm_resize size false a = Ret tt (mkBitmap false size (data_size size) (Some ws)) ∧
    Z.of_nat (length ws) = data_size size ∧
    ∀ k, 0 ≤ k → default 0 (ws !! Z.to_nat k) =
      if k <? bm_dataSize a - 1 then wordv a k
      else if k =? bm_dataSize a - 1 then Z.land (wordv a k) (MASK (bm_size a mod VALUE_SIZE)) else 0.
Proof.
  intros Ha Hpos Hlt. destruct (data_size_spec (bm_size a)) as (_ & Hlo & Hhi); [lia|].
  rewrite <- (wf_dataSize _ Ha) in *. pose proof (wf_alloc _ Ha).
  assert (0 < bm_dataSize a) by (unfold VALUE_SIZE in *; lia). set (ds := bm_dataSize a) in *.
  unfold bm_resize, cbind at 1, cget. rewrite (wf_plain _ Ha). fold ds.
  rewrite (proj2 (Z.ltb_lt ds _)) by done. rewrite cbind_assoc, (cbind_Ret _ _ _ _ _ (stored_spec a a Ha)). fold ds.
  set (old := take (Z.to_nat ds) (words a)). set (pad := replicate (Z.to_nat (data_size size - ds)) 0).
  assert (Z.of_nat (length old) = ds) as Hold by (unfold old; rewrite length_take; lia).
  set (a1 := set_words (old ++ pad) a).
  assert (∀ k, 0 ≤ k → word a1 k = (old ++ pad) !! Z.to_nat k) as Hw1.
  { intros k Hk. unfold word. by rewrite (proj2 (Z.leb_le _ _)). }
  assert (∀ k, 0 ≤ k < ds → (old ++ pad) !! Z.to_nat k = Some (wordv a k)) as Hin.
  { intros k Hk. rewrite lookup_app_l by lia. unfold old. rewrite lookup_take_lt by lia.
    destruct (wf_word a k Ha Hk) as (w & Hw & _). rewrite (wordv_Some _ _ _ Hw). unfold word in Hw.
    by rewrite (proj2 (Z.leb_le _ _)) in Hw by lia. }
  assert (word a1 (ds - 1) = Some (wordv a (ds - 1))) as Hlast by (rewrite Hw1, Hin by lia; done).
  change (bm_dataSize a1) with ds.
  rewrite cbind_assoc, (cbind_Ret (cput a1) _ a tt a1 eq_refl).
  rewrite cbind_assoc, (cbind_Ret cget _ a1 a1 a1 eq_refl).
  change (bm_dataSize a1) with ds. rewrite cbind_assoc, (cbind_Ret _ _ _ _ _ (load_Some a1 (ds - 1) _ a1 Hlast)).
  unfold store, cbind at 1. rewrite Hlast. unfold cmodify. cbn [set_words bm_compress bm_data].
  change (bm_compress a1) with (bm_compress a). rewrite (wf_plain _ Ha). eexists. split; [done|]. split.
  { rewrite length_insert. unfold words. simpl. unfold pad. rewrite length_app, length_replicate. lia. }
  intros k Hk. change (words a1) with (old ++ pad).
  destruct (Z.ltb_spec k (ds - 1)); [by rewrite list_lookup_insert_ne, Hin by lia|].
  destruct (Z.eqb_spec k (ds - 1)) as [->|].
  - rewrite list_lookup_insert_eq by (rewrite length_app; lia). done.
  - rewrite list_lookup_insert_ne, lookup_app_r by lia. unfold pad.
    destruct (replicate _ _ !! _) eqn:E; [|done]. by apply lookup_replicate in E as [-> _].
Qed.

(** resize with zeros to more words keeps the bits and appends zeros,
    unless the old size is a multiple of 14: then the last 14 bits of the
    old map are lost. *)
Theorem bitmap_resize_grow a size :
  bm_wf a → 0 < bm_size a → bm_dataSize a < data_size size → 0 ≤ size < 2 ^ 32 - 64 →
  let kept := if bm_size a mod VALUE_SIZE =? 0 then bm_size a - VALUE_SIZE else bm_size a in
  ∃ a', bm_resize size false a = Ret tt a' ∧ bm_wf a' ∧ bm_size a' = size ∧
    ∀ i, 0 ≤ i < size → bit a' i = if i <? kept then bit a i else false.
Proof.
  intros Ha Hpos Hlt Hsize kept. destruct (resize_words a size Ha Hpos Hlt) as (ws & Hr & Hlen & Hws).
  destruct (data_size_spec (bm_size a)) as (_ & Hlo & Hhi); [lia|]. rewrite <- (wf_dataSize _ Ha) in Hlo, Hhi.
  set (left := bm_size a mod VALUE_SIZE) in *.
  assert (0 ≤ left < VALUE_SIZE) as Hleft by (unfold left, VALUE_SIZE; lia).
  assert (kept = VALUE_SIZE * (bm_dataSize a - 1) + left) as Hkept.
  { unfold kept. fold left. unfold left, VALUE_SIZE in *. destruct (Z.eqb_spec (bm_size a mod 14) 0); lia. }
  eexists. split; [exact Hr|]. split_and!; [|done|].
  - split; [done|done|done|unfold words; simpl; lia|]. unfold words. simpl.
    apply Forall_lookup_2. intros i w Hi. specialize (Hws (Z.of_nat i) ltac:(lia)).
    rewrite Nat2Z.id, Hi in Hws. simpl in Hws. subst w.
    pose proof (wordv_range a (Z.of_nat i) Ha) as Hw. repeat case_match; [done| |done].
    apply (bitop_range Z.land andb); [lia|done|].
    assert (MASK left = Z.ones left) as -> by (unfold MASK, POS; rewrite Z.shiftl_1_l, Z.ones_equiv; lia).
    unfold in_u. rewrite Z.ones_equiv. pose proof (Z.pow_le_mono_r 2 left 16).
    pose proof (Z.pow_pos_nonneg 2 left). unfold VALUE_SIZE in *. lia.
  - intros i Hi. unfold bit. rewrite wordv_list, Hws by (unfold VALUE_SIZE; lia).
    assert (0 ≤ i mod VALUE_SIZE < VALUE_SIZE ∧ i = VALUE_SIZE * (i / VALUE_SIZE) + i mod VALUE_SIZE) as [Hj Hij]
      by (unfold VALUE_SIZE; lia).
    set (k := i / VALUE_SIZE) in *. set (j := i mod VALUE_SIZE) in *.
    destruct (Z.ltb_spec i kept), (Z.ltb_spec k (bm_dataSize a - 1)), (Z.eqb_spec k (bm_dataSize a - 1));
      try done; try (unfold VALUE_SIZE in *; lia).
    + rewrite Z.land_spec, testbit_MASK by lia. rewrite (proj2 (Z.ltb_lt j left)); [apply andb_true_r|].
      unfold VALUE_SIZE in *. lia.
    + rewrite Z.land_spec, testbit_MASK by lia. rewrite (proj2 (Z.ltb_ge j left)); [apply andb_false_r|].
      unfold VALUE_SIZE in *. lia.
    + apply Z.bits_0.
Qed.
End resizing.

(** ** Concrete maps *)
Section concrete.
Local Open Scope Z_scope.

(** 1171 words of ones: a run of 16394 bits, whose length takes two words. *)
Definition bm_ones : Bitmap := mkBitmap false 16394 1171 (Some (replicate 1171 16383)).
Definition bm_zero : Bitmap := Bitmap_new 28 0.

(** Four things that go wrong, on concrete maps: getCount of a long
    compressed run counts 11 bits instead of 16394; any of a compressed map
    without any bit is true; resize(30, true) of a map of 5 clear bits sets
    them; and uncompressing a map that was complemented before it was
    compressed fails an assertion. *)
Theorem bitmap_defects :
  (let! c := bm_compressed bm_ones in bm_getCount c) tt = Ret 11 tt ∧
  bm_getCount bm_ones tt = Ret 16394 tt ∧
  (let! c := bm_compressed bm_zero in bm_any c) tt = Ret true tt ∧
  bm_any bm_zero tt = Ret false tt ∧
  (let! _ := bm_resize 30 true in let! b := cget in bm_get b 0) (Bitmap_new 5 0)
    = Ret true (mkBitmap false 30 3 (Some [31; 65535; 65535])) ∧
  (let! _ := bm_not in let! b := cget in let! c := bm_compressed b in bm_uncompressed c) bm_ex1
    = Stuck AssertFailed.
Proof. split_and!; vm_compute; reflexivity. Qed.

Lemma bitmap_compress_roundtrip_witness :
  ∃ c u, bm_compressed bm_ones tt = Ret c tt ∧ bm_dataSize c ≤ bm_dataSize bm_ones ∧
    bm_uncompressed c tt = Ret u tt ∧ bm_wf u ∧ bm_size u = bm_size bm_ones ∧
    ∀ k, 0 ≤ k < bm_dataSize bm_ones → wordv u k = wordv bm_ones k.
Proof.
  assert (bm_wf bm_ones ∧ tidy bm_ones) as [? ?] by (apply bm_check_sound; vm_compute; reflexivity).
  apply (bitmap_compress_roundtrip bm_ones tt); [done|by apply tidy_clean].
Defined.

Lemma bitmap_compressed_operands_witness :
  ∃ c, bm_compressed bm_ex2 tt = Ret c tt ∧
    (∃ a', and_assign c bm_ex1 = Ret tt a' ∧ ∀ i, 0 ≤ i < bm_size bm_ex1 → bit a' i = bit bm_ex1 i && bit bm_ex2 i) ∧
    (∃ a', or_assign c bm_ex1 = Ret tt a' ∧ ∀ i, 0 ≤ i < bm_size bm_ex1 → bit a' i = bit bm_ex1 i || bit bm_ex2 i) ∧
    (∃ r, bm_cross bm_ex1 c tt = Ret r tt ∧
       (r = true ↔ ∃ i, 0 ≤ i < bm_size bm_ex1 ∧ bit bm_ex1 i = true ∧ bit bm_ex2 i = true)) ∧
    (∃ c' u, bm_not c = Ret tt c' ∧ bm_uncompressed c' tt = Ret u tt ∧
       ∀ i, 0 ≤ i < bm_size bm_ex2 → bit u i = negb (bit bm_ex2 i)).
Proof.
  apply (bitmap_compressed_operands bm_ex1 bm_ex2 tt); [apply bm_ex1_ok|apply bm_ex1_ok|done|apply bm_ex2_ok| |done].
  apply tidy_clean; apply bm_ex2_ok.
Defined.

Lemma bitmap_serialization_witness :
  ∃ ba', (let! _ := bm_writeTo LittleEndian junk0 bm_ex1 in
          let! _ := setPosition (m_position ba_ex) in bm_readFrom LittleEndian) ba_ex
    = Ret (Some bm_ex1) ba' ∧ wf ba' ∧
    abs ba' = Spec.put (bitmap_image LittleEndian bm_ex1 (m_endian ba_ex)) (abs ba_ex).
Proof.
  apply (bitmap_serialization LittleEndian junk0 bm_ex1 ba_ex); [|apply ba_ex_wf].
  split; [done|]. split; [done|]. exists [5; 0; 2]. split; [done|]. split; [done|].
  repeat constructor; done.
Defined.

Lemma bitmap_resize_grow_witness :
  ∃ a', bm_resize 60 false bm_ex1 = Ret tt a' ∧ bm_wf a' ∧ bm_size a' = 60 ∧
    ∀ i, 0 ≤ i < 60 → bit a' i = if i <? 31 then bit bm_ex1 i else false.
Proof. apply (bitmap_resize_grow bm_ex1 60); [apply bm_ex1_ok|done|done|done]. Defined.
End concrete.
