(* ===== verification/Scheduler.v ===== *)
(** * Fibers and the scheduler (Sylar/fiber.cc, Sylar/scheduler.h, scheduler.cc)

    The threads of a scheduler as one transition system. A step of a thread
    is what run() does between two points where another thread can
    interfere: the scan of the queue under the mutex, a context switch, a
    change of a fiber's state, a change of a counter. The code of the fibers
    is arbitrary: while a fiber runs it may create fibers, schedule, yield,
    return or throw. *)
From Stdlib Require Import ZArith Lia.
From stdpp Require Import base list list_numbers numbers gmap.
From S2P Require Import Prelude.

(** ** Data *)
Inductive FiberState := INIT | HOLD | EXEC | TERM | READY | EXCEPT.
#[export] Instance FiberState_eq_dec : EqDecision FiberState.
Proof. solve_decision. Defined.

(** Fibers and callbacks are named by numbers, threads by their ids; thread
    -1 stands for any. *)
Record FiberAndThread := mkFT { ft_fiber : option nat; ft_cb : option nat; ft_thread : Z }.

(** What a thread swapped in: a scheduled fiber, its own callback fiber, or
    its idle fiber. *)
Inductive kind := KFiber | KCb | KIdle.
(** Where a thread is in run(). *)
Inductive pc :=
  | PLoop                               (* at the head of while(true) *)
  | PGot (ft : FiberAndThread)          (* has taken a task, before swapIn *)
  | PNone                               (* has found no task *)
  | PRun (f : nat) (k : kind)           (* runs the code of [f] *)
  | PLeave (f : nat) (k : kind)         (* state of [f] set, context not yet saved *)
  | POut (f : nat) (k : kind)           (* back in run(), after swapIn *)
  | PPost (f : nat) (k : kind)          (* counter decremented *)
  | PExit.

Record thread := mkThread {
  th_id : Z; th_pc : pc; th_cb : option nat (* cb_fiber *); th_idle : nat (* idle_fiber *)
}.

(** The shared state. [asked] and [begun] record the callbacks given to
    schedule and those started, with the thread asked for and the thread
    that started them; the code does not read them. *)
(** m_rootFiber, made only with use_caller: the fiber whose function is run()
    on the thread that made the scheduler. No other code can name it, so its
    state stands for it; while it is EXEC the thread is entry [i] of
    [threads]. *)
Inductive root := RNone | RInit | RExec (i : nat) | RTerm.
Record workers := mkWorkers {
  m_rootFiber : root; m_rootThread : Z; m_threadCount : nat;
  m_threads : list nat                  (* the entries of [threads] start() made *)
}.
Record world := mkWorld {
  m_fibers : list FiberAndThread;
  fstate : gmap nat FiberState;
  next_fiber : nat;
  m_activeThreadCount : nat;
  m_idleThreadCount : nat;
  m_stopping : bool;
  m_autoStop : bool;
  threads : list thread;
  asked : list (nat * Z);
  begun : list (nat * Z * Z);
  m_pool : workers
}.

Definition set_queue q w := mkWorld q (fstate w) (next_fiber w) (m_activeThreadCount w) (m_idleThreadCount w)
  (m_stopping w) (m_autoStop w) (threads w) (asked w) (begun w) (m_pool w).
Definition set_fstate s w := mkWorld (m_fibers w) s (next_fiber w) (m_activeThreadCount w) (m_idleThreadCount w)
  (m_stopping w) (m_autoStop w) (threads w) (asked w) (begun w) (m_pool w).
Definition set_next n w := mkWorld (m_fibers w) (fstate w) n (m_activeThreadCount w) (m_idleThreadCount w)
  (m_stopping w) (m_autoStop w) (threads w) (asked w) (begun w) (m_pool w).
Definition set_active n w := mkWorld (m_fibers w) (fstate w) (next_fiber w) n (m_idleThreadCount w)
  (m_stopping w) (m_autoStop w) (threads w) (asked w) (begun w) (m_pool w).
Definition set_idle n w := mkWorld (m_fibers w) (fstate w) (next_fiber w) (m_activeThreadCount w) n
  (m_stopping w) (m_autoStop w) (threads w) (asked w) (begun w) (m_pool w).
Definition set_flags s a w := mkWorld (m_fibers w) (fstate w) (next_fiber w) (m_activeThreadCount w) (m_idleThreadCount w)
  s a (threads w) (asked w) (begun w) (m_pool w).
Definition set_threads t w := mkWorld (m_fibers w) (fstate w) (next_fiber w) (m_activeThreadCount w) (m_idleThreadCount w)
  (m_stopping w) (m_autoStop w) t (asked w) (begun w) (m_pool w).
Definition set_log a b w := mkWorld (m_fibers w) (fstate w) (next_fiber w) (m_activeThreadCount w) (m_idleThreadCount w)
  (m_stopping w) (m_autoStop w) (threads w) a b (m_pool w).
Definition set_pool p w := mkWorld (m_fibers w) (fstate w) (next_fiber w) (m_activeThreadCount w) (m_idleThreadCount w)
  (m_stopping w) (m_autoStop w) (threads w) (asked w) (begun w) p.

(** ** Fibers *)
Definition getState (f : nat) : M world FiberState := λ w,
  match fstate w !! f with Some s => Ret s w | None => Stuck NullDeref end.
Definition setState (f : nat) (s : FiberState) : M world unit :=
  cmodify (λ w, set_fstate (<[f := s]> (fstate w)) w).
Definition is_state (s : FiberState) (l : list FiberState) : bool := bool_decide (s ∈ l).

(** Fiber(cb, stacksize, use_caller) *)
Definition Fiber_new : M world nat := λ w,
  let f := next_fiber w in
  Ret f (set_next (S f) (set_fstate (<[f := INIT]> (fstate w)) w)).
(** reset(cb) *)
Definition Fiber_reset (f : nat) : M world unit :=
  let! s := getState f in
  let! _ := cassert (is_state s [TERM; EXCEPT; INIT]) in
  setState f INIT.
(** swapIn, up to the switch *)
Definition swapIn (f : nat) : M world unit :=
  let! s := getState f in
  let! _ := cassert (negb (is_state s [EXEC])) in
  setState f EXEC.

(** ~Fiber(), for a fiber with a stack *)
Definition Fiber_delete (f : nat) : M world unit :=
  let! s := getState f in cassert (is_state s [TERM; EXCEPT; INIT]).

(** ** The queue *)

(** FiberAndThread is built from a fiber or a callback, either may be null. *)
Definition scheduleNoLock (ft : FiberAndThread) : M world bool := λ w,
  let need_tickle := bool_decide (m_fibers w = []) in
  match ft_fiber ft, ft_cb ft with
  | None, None => Ret need_tickle w
  | _, _ =>
    let w := set_queue (m_fibers w ++ [ft]) w in
    Ret need_tickle
      (match ft_cb ft with
       | Some c => set_log (asked w ++ [(c, ft_thread ft)]) (begun w) w
       | None => w
       end)
  end.
(** tickle() of the base class only logs. *)
Definition schedule (ft : FiberAndThread) : M world unit :=
  let! need_tickle := scheduleNoLock ft in cret tt.
(** schedule(begin, end): the whole range under one lock *)
Definition schedule_range (l : list FiberAndThread) : M world unit :=
  cfor l (λ ft, let! _ := scheduleNoLock (mkFT (ft_fiber ft) (ft_cb ft) (-1)) in cret tt).

(** The scan of the queue: the first task this thread may run is removed.
    [None] when there is none; the flag is tickle_me. *)
Fixpoint scan (me : Z) (st : gmap nat FiberState) (seen q : list FiberAndThread) (tickle_me : bool)
  : M world (option (FiberAndThread * list FiberAndThread) * bool) :=
  match q with
  | [] => cret (None, tickle_me)
  | it :: q =>
    if negb (ft_thread it =? -1)%Z && negb (ft_thread it =? me)%Z then scan me st (seen ++ [it]) q true
    else
      let! _ := cassert (bool_decide (is_Some (ft_fiber it)) || bool_decide (is_Some (ft_cb it))) in
      if match ft_fiber it with Some f => bool_decide (st !! f = Some EXEC) | None => false end
      then scan me st (seen ++ [it]) q tickle_me
      else cret (Some (it, seen ++ q), tickle_me || bool_decide (q ≠ []))
  end.

(** stopping() of the base class *)
Definition stopping (w : world) : bool :=
  m_autoStop w && m_stopping w && bool_decide (m_fibers w = []) && (m_activeThreadCount w =? 0).

(** ** The steps of a thread in run() *)
Definition get_thread (i : nat) : M world thread := λ w,
  match threads w !! i with Some th => Ret th w | None => Stuck OutOfBounds end.
Definition put_thread (i : nat) (th : thread) : M world unit :=
  cmodify (λ w, set_threads (<[i := th]> (threads w)) w).
Definition goto (i : nat) (p : pc) : M world unit :=
  let! th := get_thread i in put_thread i (mkThread (th_id th) p (th_cb th) (th_idle th)).
Definition set_cb (i : nat) (c : option nat) : M world unit :=
  let! th := get_thread i in put_thread i (mkThread (th_id th) (th_pc th) c (th_idle th)).

(** The task just taken: a fiber that has not ended, else a callback, else
    nothing to do. *)
Definition run_task (i : nat) (ft : FiberAndThread) : M world unit :=
  let! th := get_thread i in
  let! alive := match ft_fiber ft with
                | Some f =>
                  let! s := getState f in
                  cret (if negb (is_state s [TERM; EXCEPT]) then Some f else None)
                | None => cret None
                end in
  match alive, ft_cb ft with
  | Some f, _ => let! _ := swapIn f in goto i (PRun f KFiber)
  | None, Some c =>
    let! g := match th_cb th with
              | Some g => let! _ := Fiber_reset g in cret g
              | None => let! g := Fiber_new in let! _ := set_cb i (Some g) in cret g
              end in
    let! _ := swapIn g in
    let! _ := cmodify (λ w, set_log (asked w) (begun w ++ [(c, ft_thread ft, th_id th)]) w) in
    goto i (PRun g KCb)
  | None, None =>
    let! _ := cmodify (λ w, set_active (m_activeThreadCount w - 1) w) in goto i PLoop
  end.

(** After swapIn: the counters, then the state of the fiber. *)
Definition leave_counter (k : kind) : M world unit :=
  cmodify (λ w, match k with
                | KIdle => set_idle (m_idleThreadCount w - 1) w
                | _ => set_active (m_activeThreadCount w - 1) w
                end).
Definition settle (i f : nat) (k : kind) : M world unit :=
  let! s := getState f in
  match k with
  | KFiber =>
    if is_state s [READY] then schedule (mkFT (Some f) None (-1))
    else if negb (is_state s [TERM; EXCEPT]) then setState f HOLD
    else cret tt
  | KCb =>
    if is_state s [READY] then
      let! _ := schedule (mkFT (Some f) None (-1)) in set_cb i None
    else if is_state s [EXCEPT; TERM] then Fiber_reset f
    else let! _ := setState f HOLD in set_cb i None
  | KIdle =>
    if negb (is_state s [TERM; EXCEPT]) then setState f HOLD else cret tt
  end.

(** run() returns on thread [i]: cb_fiber and idle_fiber are destroyed, and on
    the root fiber CallerMainFunc sets TERM and goes back to stop(). *)
Definition root_done (i : nat) (p : workers) : workers :=
  match m_rootFiber p with
  | RExec j => if i =? j then mkWorkers RTerm (m_rootThread p) (m_threadCount p) (m_threads p) else p
  | _ => p
  end.
Definition leave_run (i : nat) (th : thread) : M world unit :=
  let! _ := match th_cb th with Some g => Fiber_delete g | None => cret tt end in
  let! _ := Fiber_delete (th_idle th) in
  let! _ := cmodify (λ w, set_pool (root_done i (m_pool w)) w) in
  goto i PExit.

(** One step of thread [i]; a thread that runs the code of a fiber, or has
    left run(), does not move by itself. *)
Definition tstep (i : nat) : M world unit :=
  let! th := get_thread i in
  match th_pc th with
  | PLoop =>
    let! w := cget in
    let! (r, tickle_me) := scan (th_id th) (fstate w) [] (m_fibers w) false in
    match r with
    | Some (ft, q) =>
      let! _ := cmodify (λ w, set_active (S (m_activeThreadCount w)) (set_queue q w)) in goto i (PGot ft)
    | None => goto i PNone
    end
  | PGot ft => run_task i ft
  | PNone =>
    let! s := getState (th_idle th) in
    if is_state s [TERM] then leave_run i th
    else
      let! _ := cmodify (λ w, set_idle (S (m_idleThreadCount w)) w) in
      let! _ := swapIn (th_idle th) in
      goto i (PRun (th_idle th) KIdle)
  | PRun f KIdle =>
    (* idle(): while(!stopping()) YieldToHold(); then MainFunc *)
    let! w := cget in
    if stopping w then let! _ := setState f TERM in goto i (PLeave f KIdle)
    else
      let! s := getState f in
      let! _ := cassert (is_state s [EXEC]) in
      goto i (POut f KIdle)
  | PLeave f k => goto i (POut f k)
  | POut f k => let! _ := leave_counter k in goto i (PPost f k)
  | PPost f k => let! _ := settle i f k in goto i PLoop
  | PRun _ _ | PExit => cret tt
  end.

(** ** What the code of a running fiber does *)
Inductive action :=
  | ACreate                               (* new Fiber(cb) *)
  | ASchedule (ft : FiberAndThread)
  | AYieldToReady | AYieldToHold
  | AReturn | AThrow.                     (* MainFunc: the callback is over *)

Definition yield_state (f : nat) (i : nat) (k : kind) (s : option FiberState) (p : pc) : M world unit :=
  let! cur := getState f in
  let! _ := cassert (is_state cur [EXEC]) in
  let! _ := match s with Some s => setState f s | None => cret tt end in
  goto i p.
Definition ustep (i : nat) (a : action) : M world unit :=
  let! th := get_thread i in
  match th_pc th with
  | PRun f k =>
    match a with
    | ACreate => let! _ := Fiber_new in cret tt
    | ASchedule ft => schedule ft
    | AYieldToReady => yield_state f i k (Some READY) (PLeave f k)
    | AYieldToHold => yield_state f i k None (POut f k)
    | AReturn => let! _ := setState f TERM in goto i (PLeave f k)
    | AThrow => let! _ := setState f EXCEPT in goto i (PLeave f k)
    end
  | _ => cret tt
  end.

(** switchTo(thread) of the running fiber *)
Definition switchTo (i : nat) (thread : Z) : M world unit :=
  let! th := get_thread i in
  match th_pc th with
  | PRun f k =>
    if (thread =? -1)%Z || (thread =? th_id th)%Z then cret tt
    else
      let! _ := ustep i (ASchedule (mkFT (Some f) None thread)) in
      ustep i AYieldToHold
  | _ => cret tt
  end.

(** ** The scheduler *)

(** The members' initial values. *)
Definition Scheduler_init : world := mkWorld [] ∅ 0 0 0 true false [] [] [] (mkWorkers RNone 0 0 []).
(** Scheduler(threads, use_caller): [bound] says that the calling thread has
    a scheduler already, [id] is its thread id. *)
Definition Scheduler_new (threads : nat) (use_caller bound : bool) (id : Z) : M world unit :=
  let! _ := cassert (0 <? threads) in
  if use_caller then
    let! _ := cassert (negb bound) in
    cmodify (set_pool (mkWorkers RInit id (threads - 1) []))
  else cmodify (set_pool (mkWorkers RNone (-1) threads [])).
(** ~Scheduler() *)
Definition Scheduler_delete : M world unit := let! w := cget in cassert (m_stopping w).

(** A thread enters run() and makes its idle fiber; the result is its entry
    in [threads]. *)
Definition enter_run (id : Z) : M world nat :=
  let! f := Fiber_new in
  let! w := cget in
  let! _ := cmodify (λ w, set_threads (threads w ++ [mkThread id PLoop None f]) w) in
  cret (length (threads w)).
Definition add_thread (t : nat) (p : workers) : workers :=
  mkWorkers (m_rootFiber p) (m_rootThread p) (m_threadCount p) (m_threads p ++ [t]).
Definition spawn (id : Z) : M world unit :=
  let! t := enter_run id in
  cmodify (λ w, set_pool (add_thread t (m_pool w)) w).
(** start(), the operating system gives the new threads [ids] *)
Definition start (ids : list Z) : M world unit :=
  let! w := cget in
  if negb (m_stopping w) then cret tt
  else
    let! _ := cmodify (λ w, set_flags false (m_autoStop w) w) in
    let! _ := cassert (bool_decide (m_threads (m_pool w) = [])) in
    cfor ids spawn.

(** stop(), in the steps between which other threads can act: m_autoStop is
    set; a scheduler without threads of its own, whose root fiber is not in
    use, may be done; m_stopping is set, [mine] says whether GetThis() is this
    scheduler; run() is called on the root fiber; the call comes back; the
    threads are taken from m_threads; they are joined. *)
Definition stop_auto : M world unit := cmodify (λ w, set_flags (m_stopping w) true w).
Definition stop_check : M world bool :=
  let! w := cget in
  match m_rootFiber (m_pool w) with
  | RInit | RTerm =>
    if m_threadCount (m_pool w) =? 0 then
      let! _ := cmodify (λ w, set_flags true (m_autoStop w) w) in creads stopping
    else cret false
  | RNone | RExec _ => cret false
  end.
Definition stop_signal (mine : bool) : M world unit :=
  let! w := cget in
  let! _ := cassert (if negb (m_rootThread (m_pool w) =? -1)%Z then mine else negb mine) in
  cmodify (λ w, set_flags true (m_autoStop w) w).
(** call() of a root fiber that has ended resumes it behind its last switch,
    where the code asserts false; called while it runs it would be entered a
    second time. *)
Definition set_root (r : root) (p : workers) : workers := mkWorkers r (m_rootThread p) (m_threadCount p) (m_threads p).
Definition stop_call : M world unit :=
  let! w := cget in
  match m_rootFiber (m_pool w) with
  | RNone => cret tt
  | r =>
    if stopping w then cret tt
    else match r with
         | RInit =>
           let! t := enter_run (m_rootThread (m_pool w)) in
           cmodify (λ w, set_pool (set_root (RExec t) (m_pool w)) w)
         | RTerm => cstuck AssertFailed
         | _ => cstuck BadSwitch
         end
  end.
Definition stop_back : M world unit := λ w,
  match m_rootFiber (m_pool w) with RExec _ => Stuck NoReturn | _ => Ret tt w end.
Definition stop_swap : M world (list nat) :=
  let! w := cget in
  let! _ := cmodify (λ w, set_pool (mkWorkers (m_rootFiber (m_pool w)) (m_rootThread (m_pool w))
                                           (m_threadCount (m_pool w)) []) w) in
  cret (m_threads (m_pool w)).
Definition exited (th : thread) : bool := match th_pc th with PExit => true | _ => false end.
Definition joined (w : world) (t : nat) : bool :=
  match threads w !! t with Some th => exited th | None => true end.
Definition stop_join (thrs : list nat) : M world unit := λ w,
  if forallb (joined w) thrs then Ret tt w else Stuck NoReturn.

(** ** Ownership

    A thread holds its idle fiber, its callback fiber, the scheduled fiber it
    is running and the one it has just taken from the queue. *)
Definition task (p : pc) : list nat :=
  match p with
  | PRun f KFiber | PLeave f KFiber | POut f KFiber | PPost f KFiber => [f]
  | PGot ft => option_list (ft_fiber ft)
  | _ => []
  end.
Definition hold (th : thread) : list nat :=
  th_idle th :: option_list (th_cb th) ++ task (th_pc th).
(** The fibers that wait in the queue. *)
Definition queued (w : world) : list nat := omap ft_fiber (m_fibers w).

(** The fiber a thread is executing or switching away from. *)
Definition on_cpu (p : pc) : option (nat * kind) :=
  match p with
  | PRun f k | PLeave f k | POut f k | PPost f k => Some (f, k)
  | _ => None
  end.
Definition on_kind (k : kind) (p : pc) : bool :=
  match on_cpu p, k with
  | Some (_, KFiber), KFiber | Some (_, KCb), KCb | Some (_, KIdle), KIdle => true
  | _, _ => false
  end.
Definition slot (th : thread) (f : nat) (k : kind) : Prop :=
  match k with KFiber => True | KCb => th_cb th = Some f | KIdle => th_idle th = f end.

(** A task as the constructors of FiberAndThread make it. *)
Definition task_ok (ft : FiberAndThread) : Prop :=
  (is_Some (ft_fiber ft) ∧ ft_cb ft = None) ∨ (ft_fiber ft = None ∧ is_Some (ft_cb ft)).

(** The states a fiber can be in, by the place of its thread in run(). *)
Definition pc_state (st : gmap nat FiberState) (p : pc) : Prop :=
  match p with
  | PRun f _ => st !! f = Some EXEC
  | PLeave f KIdle => st !! f = Some TERM
  | PLeave f _ => ∃ s, st !! f = Some s ∧ s ∈ [READY; TERM; EXCEPT]
  | POut f KIdle | PPost f KIdle => ∃ s, st !! f = Some s ∧ s ∈ [EXEC; TERM]
  | POut f _ | PPost f _ => ∃ s, st !! f = Some s ∧ s ∈ [EXEC; READY; TERM; EXCEPT]
  | PGot ft => task_ok ft ∧
               ∀ f, ft_fiber ft = Some f → ∃ s, st !! f = Some s ∧ s ≠ EXEC
  | PLoop | PNone | PExit => True
  end.
Record thread_ok (st : gmap nat FiberState) (th : thread) : Prop := {
  ok_pc : pc_state st (th_pc th);
  ok_slot : ∀ f k, on_cpu (th_pc th) = Some (f, k) → slot th f k;
  ok_cb : ∀ g, th_cb th = Some g → on_kind KCb (th_pc th) = false → st !! g = Some INIT;
  ok_idle : on_kind KIdle (th_pc th) = false →
            ∃ s, st !! th_idle th = Some s ∧ s ∈ [INIT; HOLD; TERM];
  ok_exit : th_pc th = PExit → st !! th_idle th = Some TERM;
  ok_dup : NoDup (hold th)
}.

(** What a thread counts for in the two counters, and the callbacks it has
    taken and not started. *)
Definition busy (th : thread) : nat :=
  match th_pc th with
  | PGot _ | PRun _ (KFiber | KCb) | PLeave _ (KFiber | KCb) | POut _ (KFiber | KCb) => 1
  | _ => 0
  end.
Definition idling (th : thread) : nat :=
  match th_pc th with
  | PRun _ KIdle | PLeave _ KIdle | POut _ KIdle => 1
  | _ => 0
  end.
Definition request (ft : FiberAndThread) : list (nat * Z) :=
  match ft_cb ft with Some c => [(c, ft_thread ft)] | None => [] end.
Definition taken (th : thread) : list (nat * Z) :=
  match th_pc th with PGot ft => request ft | _ => [] end.
Definition count (x : nat * Z) (l : list (nat * Z)) : nat := length (filter (x =.) l).
#[global] Arguments count : simpl never.
Definition waiting (x : nat * Z) (w : world) : nat :=
  count x (m_fibers w ≫= request) + sum_list_with (λ th, count x (taken th)) (threads w).

Record Inv (w : world) : Prop := {
  inv_dom : ∀ f, is_Some (fstate w !! f) ↔ f < next_fiber w;
  inv_tasks : Forall task_ok (m_fibers w);
  inv_queue : NoDup (queued w);
  inv_known : ∀ f, f ∈ queued w → f < next_fiber w;
  inv_threads : ∀ i th, threads w !! i = Some th → thread_ok (fstate w) th;
  inv_disjoint : ∀ i j th th' f, threads w !! i = Some th → threads w !! j = Some th' →
                 f ∈ hold th → f ∈ hold th' → i = j;
  inv_sep : ∀ i th f, threads w !! i = Some th → f ∈ hold th → f ∈ queued w →
            fstate w !! f = Some EXEC ∧ f ≠ th_idle th
}.
Record Accounts (w : world) : Prop := {
  acc_active : m_activeThreadCount w = sum_list_with busy (threads w);
  acc_idle : m_idleThreadCount w = sum_list_with idling (threads w);
  acc_calls : ∀ x, count x (asked w) = count x (fst <$> begun w) + waiting x w
}.
Record Affine (w : world) : Prop := {
  aff_got : ∀ i th ft, threads w !! i = Some th → th_pc th = PGot ft →
            ft_thread ft = (-1)%Z ∨ ft_thread ft = th_id th;
  aff_begun : Forall (λ '((c, thr), id), thr = (-1)%Z ∨ thr = id) (begun w)
}.

(** ** Lemmas on ownership *)
Lemma elem_of_option_list {A} (o : option A) x : x ∈ option_list o ↔ o = Some x.
Proof. destruct o; cbn; set_solver. Qed.

Lemma on_cpu_hold th f k st :
  thread_ok st th → on_cpu (th_pc th) = Some (f, k) → f ∈ hold th.
Proof.
  intros Hok Hon. pose proof (ok_slot _ _ Hok f k Hon) as Hs.
  unfold hold. destruct k; cbn in Hs.
  - right. apply elem_of_app. right. destruct (th_pc th); cbn in *; simplify_eq; set_solver.
  - rewrite Hs. set_solver.
  - subst. set_solver.
Qed.

Lemma hold_inv th f st :
  thread_ok st th → f ∈ hold th →
  f = th_idle th ∨ th_cb th = Some f ∨ on_cpu (th_pc th) = Some (f, KFiber) ∨
  ∃ ft, th_pc th = PGot ft ∧ ft_fiber ft = Some f.
Proof.
  intros _. unfold hold. rewrite elem_of_cons, elem_of_app, elem_of_option_list.
  intros [?|[?|Ht]]; eauto. do 2 right.
  destruct (th_pc th) as [|ft| |f' k|f' k|f' k|f' k|]; cbn in *; try set_solver;
    try (destruct k; cbn in *; set_solver).
  rewrite elem_of_option_list in Ht. eauto.
Qed.

Lemma pc_state_known st p f k : pc_state st p → on_cpu p = Some (f, k) → is_Some (st !! f).
Proof. destruct p as [|?| |? []|? []|? []|? []|]; cbn; intros; naive_solver. Qed.

Lemma hold_known th f st : thread_ok st th → f ∈ hold th → is_Some (st !! f).
Proof.
  intros Hok Hf.
  destruct (on_cpu (th_pc th)) as [[g k]|] eqn:Hon.
  - destruct (decide (f = g)) as [->|Hne]; [by eapply pc_state_known; [apply Hok|]|].
    pose proof (ok_slot _ _ Hok _ _ Hon) as Hs.
    destruct (hold_inv _ _ _ Hok Hf) as [->|[Hcb|[?|(ft & Hp & _)]]].
    + destruct (ok_idle _ _ Hok) as (s & -> & _); [|done].
      unfold on_kind. rewrite Hon. destruct k; cbn in *; congruence.
    + rewrite (ok_cb _ _ Hok _ Hcb); [done|].
      unfold on_kind. rewrite Hon. destruct k; cbn in *; congruence.
    + congruence.
    + rewrite Hp in Hon. done.
  - assert (Hk : ∀ k, on_kind k (th_pc th) = false) by (intros []; unfold on_kind; by rewrite Hon).
    destruct (hold_inv _ _ _ Hok Hf) as [->|[Hcb|[?|(ft & Hp & Hft)]]].
    + destruct (ok_idle _ _ Hok) as (s & -> & _); done.
    + rewrite (ok_cb _ _ Hok _ Hcb); done.
    + congruence.
    + pose proof (ok_pc _ _ Hok) as Hpc. rewrite Hp in Hpc.
      destruct (proj2 Hpc _ Hft) as (s & -> & _). done.
Qed.

Lemma thread_ok_frame st st' th :
  thread_ok st th → (∀ f, f ∈ hold th → st' !! f = st !! f) → thread_ok st' th.
Proof.
  intros Hok Hfr.
  assert (Hidle : st' !! th_idle th = st !! th_idle th) by (apply Hfr; unfold hold; set_solver).
  assert (Hcb : ∀ g, th_cb th = Some g → st' !! g = st !! g).
  { intros g Hg. apply Hfr. unfold hold. rewrite Hg. set_solver. }
  assert (Hon : ∀ f k, on_cpu (th_pc th) = Some (f, k) → st' !! f = st !! f).
  { intros f k Hk. apply Hfr. by eapply on_cpu_hold. }
  split.
  - pose proof (ok_pc _ _ Hok) as Hpc.
    destruct (th_pc th) as [|ft| |f k|f k|f k|f k|] eqn:Hp; cbn in *; try done;
      try (rewrite (Hon f k) by done; done).
    destruct Hpc as [? Hft]. split; [done|]. intros f Hf.
    rewrite Hfr; [by apply Hft|]. unfold hold. rewrite Hp. cbn. rewrite Hf. set_solver.
  - apply Hok.
  - intros g Hg Hk. rewrite Hcb by done. by apply Hok.
  - intros Hk. rewrite Hidle. by apply Hok.
  - intros Hk. rewrite Hidle. by apply Hok.
  - apply Hok.
Qed.

(** A step of one thread: it may change the fibers it holds, give some to
    the queue and take new ones, or one from the queue that is not running. *)
Lemma Inv_update w w' i th th' :
  Inv w → threads w !! i = Some th → threads w' = <[i := th']> (threads w) →
  (∀ f, is_Some (fstate w' !! f) ↔ f < next_fiber w') → next_fiber w ≤ next_fiber w' →
  (∀ f, f < next_fiber w → f ∉ hold th → fstate w' !! f = fstate w !! f) →
  thread_ok (fstate w') th' →
  (∀ f, f ∈ hold th' → f ∈ hold th ∨ next_fiber w ≤ f ∨ (f ∈ queued w ∧ fstate w !! f ≠ Some EXEC)) →
  Forall task_ok (m_fibers w') →
  NoDup (queued w') → (∀ f, f ∈ queued w' → f ∈ queued w ∨ f ∈ hold th) →
  (∀ f, f ∈ queued w' → f ∈ hold th' → fstate w' !! f = Some EXEC ∧ f ≠ th_idle th') → Inv w'.
Proof.
  intros HI Hi Hth Hdom Hnext Hfr Hok Hnew Htasks Hnd Hq Hsep.
  assert (Hlen : i < length (threads w)) by (by eapply lookup_lt_Some).
  assert (Hkn : ∀ j thj f, threads w !! j = Some thj → f ∈ hold thj → f < next_fiber w).
  { intros j thj f Hj Hf. apply HI. eapply hold_known; [by eapply inv_threads|done]. }
  assert (Hoth : ∀ j thj f, j ≠ i → threads w !! j = Some thj → f ∈ hold thj → f ∉ hold th).
  { intros j thj f Hne Hj Hf Hf'. apply Hne. by eapply inv_disjoint. }
  assert (Hout : ∀ j thj f, j ≠ i → threads w !! j = Some thj → f ∈ hold thj → f ∉ hold th').
  { intros j thj f Hne Hj Hf Hf'. destruct (Hnew f Hf') as [?|[?|[? He]]].
    - by eapply Hoth.
    - pose proof (Hkn _ _ _ Hj Hf). lia.
    - by destruct (inv_sep _ HI _ _ _ Hj Hf) as [? _]. }
  split; try done.
  - intros f Hf. apply Hdom. destruct (Hq f Hf) as [Hf'|Hf'].
    + apply Hdom. pose proof (inv_known _ HI _ Hf'). lia.
    + apply Hdom. pose proof (Hkn _ _ _ Hi Hf'). lia.
  - intros j thj. rewrite Hth. intros [(-> & -> & _)|[Hne Hj]]%list_lookup_insert_Some; [done|].
    eapply thread_ok_frame; [by eapply inv_threads|]. intros f Hf. apply Hfr; [by eapply Hkn|].
    eapply Hoth; eauto.
  - intros j k thj thk f. rewrite Hth.
    intros [(-> & -> & _)|[Hne Hj]]%list_lookup_insert_Some
           [(-> & -> & _)|[Hne' Hk]]%list_lookup_insert_Some Hfj Hfk; try done.
    + exfalso. eapply Hout; [|apply Hk|done|done]. done.
    + exfalso. eapply Hout; [|apply Hj|done|done]. done.
    + by eapply inv_disjoint.
  - intros j thj f. rewrite Hth.
    intros [(-> & -> & _)|[Hne Hj]]%list_lookup_insert_Some Hfj Hfq; [by apply Hsep|].
    assert (f ∉ hold th) by (eapply Hoth; eauto).
    rewrite Hfr; [|by eapply Hkn|done].
    apply (inv_sep _ HI _ _ _ Hj Hfj). by destruct (Hq f Hfq).
Qed.

(** ** The counters and the threads tasks ask for *)
Lemma count_nil x : count x [] = 0.
Proof. done. Qed.
Lemma sum_list_with_insert {A} (μ : A → nat) l i a b :
  l !! i = Some a → sum_list_with μ (<[i := b]> l) + μ a = sum_list_with μ l + μ b.
Proof.
  revert i. induction l as [|x l IH]; intros [|i] Hi; try done; simpl in *; simplify_eq.
  - lia.
  - specialize (IH _ Hi). lia.
Qed.
Lemma sum_list_with_ge {A} (μ : A → nat) l i a : l !! i = Some a → μ a ≤ sum_list_with μ l.
Proof.
  revert i. induction l as [|x l IH]; intros [|i] Hi; try done; simpl in *; simplify_eq; [lia|].
  specialize (IH _ Hi). lia.
Qed.
Lemma count_app x l1 l2 : count x (l1 ++ l2) = count x l1 + count x l2.
Proof. unfold count. by rewrite list.filter_app, length_app. Qed.

Lemma Accounts_update w w' i th th' :
  Accounts w → threads w !! i = Some th → threads w' = <[i := th']> (threads w) →
  m_activeThreadCount w' = m_activeThreadCount w + busy th' - busy th →
  m_idleThreadCount w' = m_idleThreadCount w + idling th' - idling th →
  (∀ x, count x (asked w') + count x (fst <$> begun w) + count x (m_fibers w ≫= request) + count x (taken th)
        = count x (asked w) + count x (fst <$> begun w') + count x (m_fibers w' ≫= request) + count x (taken th')) →
  Accounts w'.
Proof.
  intros [Ha Hid Hc] Hi Hth Ha' Hid' Hc'. split.
  - rewrite Ha', Hth, Ha.
    pose proof (sum_list_with_insert busy _ _ _ th' Hi).
    pose proof (sum_list_with_ge busy _ _ _ Hi). lia.
  - rewrite Hid', Hth, Hid.
    pose proof (sum_list_with_insert idling _ _ _ th' Hi).
    pose proof (sum_list_with_ge idling _ _ _ Hi). lia.
  - intros x. specialize (Hc x). specialize (Hc' x). unfold waiting in *. rewrite Hth.
    pose proof (sum_list_with_insert (λ th, count x (taken th)) _ _ _ th' Hi) as Hs.
    cbn beta in Hs. lia.
Qed.

Lemma Affine_update w w' i th th' :
  Affine w → threads w !! i = Some th → threads w' = <[i := th']> (threads w) →
  (∀ ft, th_pc th' = PGot ft → ft_thread ft = (-1)%Z ∨ ft_thread ft = th_id th') →
  Forall (λ '((c, thr), id), thr = (-1)%Z ∨ thr = id) (begun w') → Affine w'.
Proof.
  intros [Hg Hb] Hi Hth Hgot Hbg. split; [|done].
  intros j thj ft. rewrite Hth.
  intros [(-> & -> & _)|[Hne Hj]]%list_lookup_insert_Some Hp; [by apply Hgot|by eapply Hg].
Qed.

(** ** The scan of the queue *)
Definition eligible (me : Z) (st : gmap nat FiberState) (ft : FiberAndThread) : bool :=
  ((ft_thread ft =? -1) || (ft_thread ft =? me))%Z &&
  match ft_fiber ft with Some f => negb (bool_decide (st !! f = Some EXEC)) | None => true end.
(** A task of another thread, for which the others are woken. *)
Definition foreign (me : Z) (ft : FiberAndThread) : bool :=
  (negb (ft_thread ft =? -1) && negb (ft_thread ft =? me))%Z.

Lemma scan_result me st seen q t w :
  Forall task_ok q →
  (Forall (λ ft, eligible me st ft = false) q ∧
   scan me st seen q t w = Ret (None, t || existsb (foreign me) q) w) ∨
  (∃ q1 ft q2, q = q1 ++ ft :: q2 ∧ Forall (λ ft, eligible me st ft = false) q1 ∧
     eligible me st ft = true ∧
     scan me st seen q t w =
       Ret (Some (ft, seen ++ q1 ++ q2), t || existsb (foreign me) q1 || bool_decide (q2 ≠ [])) w).
Proof.
  revert seen t. induction q as [|it q IH]; intros seen t Hwf.
  { left. cbn. rewrite orb_false_r. done. }
  apply Forall_cons_1 in Hwf as [Hit Hwf]. cbn [scan].
  assert (Hadd : ∀ t', eligible me st it = false → t' = t || foreign me it →
    scan me st seen (it :: q) t w = scan me st (seen ++ [it]) q t' w →
    (Forall (λ ft, eligible me st ft = false) (it :: q) ∧
     scan me st seen (it :: q) t w = Ret (None, t || existsb (foreign me) (it :: q)) w) ∨
    (∃ q1 ft q2, it :: q = q1 ++ ft :: q2 ∧ Forall (λ ft, eligible me st ft = false) q1 ∧
       eligible me st ft = true ∧ scan me st seen (it :: q) t w =
         Ret (Some (ft, seen ++ q1 ++ q2), t || existsb (foreign me) q1 || bool_decide (q2 ≠ [])) w)).
  { intros t' He -> Hs. rewrite Hs. cbn [existsb]. rewrite !orb_assoc.
    destruct (IH (seen ++ [it]) (t || foreign me it) Hwf) as [[Hf Hr]|(q1 & ft & q2 & -> & Hf & Hel & Hr)].
    - left. split; [by constructor|]. by rewrite Hr.
    - right. exists (it :: q1), ft, q2. rewrite Hr. cbn [existsb]. rewrite !orb_assoc, <- app_assoc.
      repeat split; try done. by constructor. }
  cbn [scan] in Hadd. unfold eligible, foreign in Hadd |- *.
  destruct (negb (ft_thread it =? -1)%Z && negb (ft_thread it =? me)%Z) eqn:Hthr.
  { apply (Hadd true); [|by rewrite orb_true_r|done].
    apply andb_true_iff in Hthr as [H1%negb_true_iff H2%negb_true_iff]. by rewrite H1, H2. }
  assert (Hmine : ((ft_thread it =? -1) || (ft_thread it =? me))%Z = true).
  { apply negb_true_iff in Hthr. rewrite <- negb_orb, negb_involutive in Hthr. done. }
  rewrite Hmine in *. rewrite orb_false_r in Hadd.
  assert (Has : bool_decide (is_Some (ft_fiber it)) || bool_decide (is_Some (ft_cb it)) = true).
  { apply orb_true_iff. rewrite !bool_decide_eq_true. destruct Hit; naive_solver. }
  rewrite Has in *. unfold cassert, cbind, cret in *.
  destruct (match ft_fiber it with Some f => bool_decide (st !! f = Some EXEC) | None => false end) eqn:Hex.
  { apply (Hadd t); try done. destruct (ft_fiber it); [by rewrite Hex|done]. }
  right. exists [], it, q. cbn [existsb]. rewrite orb_false_r. repeat split; try done.
  rewrite Hmine. cbn. destruct (ft_fiber it); [by rewrite Hex|done].
Qed.

(** ** One step of one thread *)
Record Good (w : world) : Prop := {
  good_inv : Inv w; good_accounts : Accounts w; good_affine : Affine w
}.
Definition at_pc (p : pc) (th : thread) : thread := mkThread (th_id th) p (th_cb th) (th_idle th).

Lemma get_thread_eq i w th : threads w !! i = Some th → get_thread i w = Ret th w.
Proof. unfold get_thread. by intros ->. Qed.
Lemma goto_eq i p w th :
  threads w !! i = Some th → goto i p w = Ret tt (set_threads (<[i := at_pc p th]> (threads w)) w).
Proof. intros Hi. unfold goto. by rewrite (cbind_Ret _ _ _ _ _ (get_thread_eq _ _ _ Hi)). Qed.
Lemma getState_eq f w s : fstate w !! f = Some s → getState f w = Ret s w.
Proof. unfold getState. by intros ->. Qed.
Lemma swapIn_eq f w s :
  fstate w !! f = Some s → s ≠ EXEC → swapIn f w = Ret tt (set_fstate (<[f := EXEC]> (fstate w)) w).
Proof.
  intros Hf Hs. unfold swapIn. rewrite (cbind_Ret _ _ _ _ _ (getState_eq _ _ _ Hf)).
  destruct s; try done.
Qed.

(** The state of the fiber on the processor changes, the rest of the thread
    stays as it was. *)
Lemma thread_ok_cpu st th p f k s :
  thread_ok st th → on_cpu p = Some (f, k) → slot th f k →
  (∀ j, on_kind j (th_pc th) = true → j = k) → pc_state (<[f := s]> st) p →
  NoDup (hold (at_pc p th)) → thread_ok (<[f := s]> st) (at_pc p th).
Proof.
  intros Hok Hon Hs Hk Hpc Hnd.
  assert (Hkind : ∀ j, j ≠ k → on_kind j (th_pc th) = false).
  { intros j Hj. destruct (on_kind j (th_pc th)) eqn:E; [|done]. by apply Hk in E. }
  assert (Hkp : ∀ j, on_kind j p = false → j ≠ k).
  { intros j Hj ->. unfold on_kind in Hj. rewrite Hon in Hj. by destruct k. }
  assert (Htask : k = KFiber → task p = [f]).
  { intros ->. destruct p; cbn in *; simplify_eq; done. }
  unfold hold in Hnd. cbn in Hnd. apply list.NoDup_cons in Hnd as [Hni Hnd].
  apply NoDup_app in Hnd as (_ & Hnt & _).
  split; cbn.
  - done.
  - intros f' k'. rewrite Hon. intros [= <- <-]. by destruct k.
  - intros g Hg Hj%Hkp. rewrite lookup_insert_ne; [apply Hok; auto|].
    intros ->. destruct k; cbn in Hs; [|done|].
    + rewrite Htask, Hg in *; [|done..]. apply (Hnt g); set_solver.
    + subst. rewrite Hg in Hni. set_solver.
  - intros Hj%Hkp. rewrite lookup_insert_ne; [apply Hok; auto|].
    intros ->. destruct k; cbn in Hs; [| |done].
    + rewrite Htask in Hni by done. set_solver.
    + rewrite Hs in Hni. set_solver.
  - intros ->. done.
  - unfold hold. cbn. apply list.NoDup_cons. split; [done|]. apply NoDup_app.
    repeat split; [|done|].
    + destruct (th_cb th); [apply NoDup_singleton|apply NoDup_nil_2].
    + destruct p as [|[[] ? ?]| |? []|? []|? []|? []|]; cbn; try apply NoDup_singleton; apply NoDup_nil_2.
Qed.

(** A step that leaves the queue alone and changes at most the state of a
    fiber the thread holds. *)
Lemma Good_own w w' i th th' f s :
  Good w → threads w !! i = Some th → threads w' = <[i := th']> (threads w) →
  f ∈ hold th → fstate w' = <[f := s]> (fstate w) → next_fiber w' = next_fiber w →
  m_fibers w' = m_fibers w → hold th' ⊆ hold th → th_idle th' = th_idle th →
  thread_ok (fstate w') th' → (f ∈ queued w → f ∈ hold th' → s = EXEC) →
  m_activeThreadCount w' = m_activeThreadCount w + busy th' - busy th →
  m_idleThreadCount w' = m_idleThreadCount w + idling th' - idling th →
  asked w' = asked w → (∀ ft, th_pc th' ≠ PGot ft) →
  (∃ log, begun w' = begun w ++ log ∧ fst <$> log = taken th ∧ Forall (λ '((c, thr), id), thr = (-1)%Z ∨ thr = id) log) →
  Good w'.
Proof.
  intros [HI HA HF] Hi Hth Hf Hst Hn Hq Hsub Hid Hok Hfs Hact Hidl Hask Hng (log & Hlog & Hfst & Hlaff).
  assert (Hkf : is_Some (fstate w !! f)) by (eapply hold_known; [by eapply inv_threads|done]).
  split.
  - eapply Inv_update; try done.
    + intros g. rewrite Hst, Hn, <- (inv_dom _ HI). destruct (decide (f = g)) as [->|].
      * rewrite lookup_insert_eq. naive_solver.
      * by rewrite lookup_insert_ne.
    + by rewrite Hn.
    + intros g _ Hg. rewrite Hst, lookup_insert_ne; [done|]. by intros ->.
    + intros g Hg. left. by apply Hsub.
    + rewrite Hq. apply HI.
    + unfold queued. rewrite Hq. apply HI.
    + intros g. unfold queued. rewrite Hq. auto.
    + intros g Hg Hh. unfold queued in Hg. rewrite Hq in Hg.
      destruct (inv_sep _ HI _ _ _ Hi (Hsub _ Hh) Hg) as [He Hne]. rewrite Hid, Hst. split; [|done].
      destruct (decide (f = g)) as [->|].
      * rewrite lookup_insert_eq. f_equal. auto.
      * by rewrite lookup_insert_ne.
  - eapply Accounts_update; try done. intros x. rewrite Hq, Hlog, fmap_app, count_app, Hfst, Hask.
    assert (Ht : taken th' = []) by (unfold taken; destruct (th_pc th'); try done; exfalso; by eapply Hng).
    rewrite Ht, count_nil. lia.
  - eapply Affine_update; try done; [by intros ft ?%Hng|].
    rewrite Hlog. apply Forall_app. split; [apply HF|done].
Qed.

Lemma Good_goto w w' i th p :
  Good w → threads w !! i = Some th → threads w' = <[i := at_pc p th]> (threads w) →
  fstate w' = fstate w → next_fiber w' = next_fiber w → m_fibers w' = m_fibers w →
  hold (at_pc p th) ⊆ hold th → thread_ok (fstate w) (at_pc p th) →
  m_activeThreadCount w' = m_activeThreadCount w + busy (at_pc p th) - busy th →
  m_idleThreadCount w' = m_idleThreadCount w + idling (at_pc p th) - idling th →
  asked w' = asked w → begun w' = begun w → (∀ ft, p ≠ PGot ft) → taken th = [] → Good w'.
Proof.
  intros HG Hi Hth Hst Hn Hq Hsub Hok Ha Hid Hask Hb Hp Ht.
  assert (Hh : th_idle th ∈ hold th) by (unfold hold; set_solver).
  destruct (hold_known th (th_idle th) (fstate w)) as [s Hs]; [by apply HG in Hi|done|].
  eapply (Good_own w w' i th (at_pc p th) (th_idle th) s); try done.
  - by rewrite insert_id.
  - by rewrite Hst.
  - intros Hq' _. destruct (inv_sep _ (good_inv _ HG) _ _ _ Hi Hh Hq') as [_ ?]. done.
  - exists []. rewrite app_nil_r. by rewrite Ht.
Qed.

Lemma queued_app q1 q2 : omap ft_fiber (q1 ++ q2) = omap ft_fiber q1 ++ omap ft_fiber q2.
Proof. apply omap_app. Qed.

(** Taking the first eligible task. *)
Lemma Good_take w i th q1 ft q2 :
  Good w → threads w !! i = Some th → th_pc th = PLoop → m_fibers w = q1 ++ ft :: q2 →
  eligible (th_id th) (fstate w) ft = true →
  Good (set_threads (<[i := at_pc (PGot ft) th]> (threads w))
          (set_active (S (m_activeThreadCount w)) (set_queue (q1 ++ q2) w))).
Proof.
  intros [HI HA HF] Hi Hp Hq Hel.
  pose proof (inv_threads _ HI _ _ Hi) as Hok.
  unfold eligible in Hel. apply andb_true_iff in Hel as [Hthr Hex].
  pose proof (inv_queue _ HI) as Hnd. unfold queued in Hnd. rewrite Hq, queued_app in Hnd.
  assert (Hin : ∀ f, f ∈ omap ft_fiber (q1 ++ q2) ∨ ft_fiber ft = Some f ↔ f ∈ queued w).
  { intros f. unfold queued. rewrite Hq, !queued_app, !elem_of_app. cbn.
    destruct (ft_fiber ft) as [g|]; [rewrite elem_of_cons|]; naive_solver. }
  assert (Hne : ∀ f, ft_fiber ft = Some f → fstate w !! f ≠ Some EXEC).
  { intros f Hf. rewrite Hf in Hex. by apply negb_true_iff, bool_decide_eq_false in Hex. }
  assert (Hfree : ∀ f, ft_fiber ft = Some f → f ∉ hold th).
  { intros f Hf Hh. apply (Hne f Hf). eapply (inv_sep _ HI); [done..|]. apply Hin. auto. }
  assert (Hhold : hold (at_pc (PGot ft) th) = hold th ++ option_list (ft_fiber ft)).
  { unfold hold. cbn. rewrite Hp. cbn. by rewrite app_nil_r. }
  assert (Hout : ∀ f, ft_fiber ft = Some f → f ∉ omap ft_fiber (q1 ++ q2)).
  { intros f Hf. rewrite queued_app. cbn in Hnd. rewrite Hf in Hnd.
    rewrite <- Permutation_middle in Hnd. by apply list.NoDup_cons in Hnd as [? _]. }
  pose proof (inv_tasks _ HI) as Hwf. rewrite Hq in Hwf. apply Forall_app in Hwf as [Hwf1 Hwf2].
  apply Forall_cons_1 in Hwf2 as [Hwf Hwf2].
  split.
  - eapply (Inv_update w _ i th (at_pc (PGot ft) th)); try done; cbn.
    + apply HI.
    + split; cbn.
      * split; [done|]. intros f Hf. destruct (proj2 (inv_dom _ HI f)) as [s Hs].
        { apply (inv_known _ HI), Hin. auto. }
        exists s. split; [done|]. intros ->. by eapply Hne.
      * done.
      * intros g Hg _. apply Hok; [done|]. unfold on_kind. by rewrite Hp.
      * intros _. apply Hok. unfold on_kind. by rewrite Hp.
      * done.
      * rewrite Hhold. apply NoDup_app. split; [apply Hok|].
        split; [|destruct (ft_fiber ft); [apply NoDup_singleton|apply NoDup_nil_2]].
        intros f Hf Hf'%elem_of_option_list. by eapply Hfree.
    + intros f. rewrite Hhold, elem_of_app, elem_of_option_list. intros [?|Hf]; [auto|].
      right; right. split; [apply Hin; auto|by apply Hne].
    + by apply Forall_app.
    + unfold queued. cbn. rewrite queued_app. cbn in Hnd.
      destruct (ft_fiber ft); [|done]. rewrite <- Permutation_middle in Hnd.
      by apply list.NoDup_cons in Hnd as [_ ?].
    + intros f Hf. left. apply Hin. auto.
    + intros f Hf. rewrite Hhold, elem_of_app, elem_of_option_list. intros [Hh|Hf'].
      * apply (inv_sep _ HI _ _ _ Hi Hh). apply Hin. auto.
      * by apply Hout in Hf'.
  - eapply (Accounts_update w _ i th); try done; cbn.
    + unfold busy. cbn. rewrite Hp. lia.
    + unfold idling. cbn. rewrite Hp. lia.
    + intros x. unfold taken. cbn. rewrite Hp, Hq, !bind_app. cbn. rewrite !count_app, count_nil. lia.
  - eapply (Affine_update w _ i th); try done; cbn; [|apply HF].
    intros ft' [= <-]. apply orb_true_iff in Hthr as [?%Z.eqb_eq|?%Z.eqb_eq]; auto.
Qed.

(** A thread whose callback fiber is new: its first callback. *)
Lemma Good_first_callback w i th c thr :
  Good w → threads w !! i = Some th → th_pc th = PGot (mkFT None (Some c) thr) → th_cb th = None →
  let g := next_fiber w in
  Good (set_threads (<[i := mkThread (th_id th) (PRun g KCb) (Some g) (th_idle th)]> (threads w))
          (set_log (asked w) (begun w ++ [((c, thr), th_id th)])
             (set_next (S g) (set_fstate (<[g := EXEC]> (fstate w)) w)))).
Proof.
  intros [HI HA HF] Hi Hp Hcb g.
  pose proof (inv_threads _ HI _ _ Hi) as Hok.
  assert (Hh : hold th = [th_idle th]) by (unfold hold; by rewrite Hp, Hcb).
  assert (Hgi : th_idle th ≠ g).
  { intros Heq. destruct (hold_known th (th_idle th) (fstate w)) as [s Hs]; [done|rewrite Hh; set_solver|].
    assert (th_idle th < next_fiber w) by (apply HI; by rewrite Hs). subst g. lia. }
  assert (Hid : on_kind KIdle (th_pc th) = false) by (unfold on_kind; by rewrite Hp).
  split.
  - eapply (Inv_update w _ i th); try done; cbn.
    + intros f. destruct (decide (f = g)) as [->|].
      * rewrite lookup_insert_eq. split; [lia|done].
      * rewrite lookup_insert_ne by done. rewrite (inv_dom _ HI). subst g. lia.
    + lia.
    + intros f Hf _. rewrite lookup_insert_ne; [done|]. subst g. lia.
    + split; cbn.
      * by rewrite lookup_insert_eq.
      * by intros f k [= <- <-].
      * done.
      * intros _. rewrite lookup_insert_ne by done. by apply Hok.
      * done.
      * unfold hold. cbn. apply list.NoDup_cons. split; [set_solver|apply NoDup_singleton].
    + intros f. rewrite Hh. unfold hold. cbn. rewrite !elem_of_cons. subst g. intros [->|[->|?]]; auto.
    + apply HI.
    + apply HI.
    + auto.
    + intros f Hf. unfold hold. cbn. rewrite !elem_of_cons. intros [->|[->|Hx]].
      * destruct (inv_sep _ HI _ _ (th_idle th) Hi) as [_ ?]; [rewrite Hh; set_solver|done|done].
      * apply (inv_known _ HI) in Hf. subst g. lia.
      * by apply not_elem_of_nil in Hx.
  - eapply (Accounts_update w _ i th); try done; cbn.
    + unfold busy. cbn. rewrite Hp. lia.
    + unfold idling. cbn. rewrite Hp. lia.
    + intros x. unfold taken. rewrite Hp. cbn. rewrite fmap_app, count_app. cbn. rewrite count_nil. lia.
  - eapply (Affine_update w _ i th); try done; cbn.
    apply Forall_app. split; [apply HF|]. apply Forall_singleton. by apply (aff_got _ HF _ _ _ Hi Hp).
Qed.

Ltac stepM H := rewrite (cbind_Ret _ _ _ _ _ H); cbn beta iota.
Ltac own_side Hp := solve [unfold busy, idling, taken; cbn; rewrite ?Hp; cbn; first [done | lia]].

Lemma tstep_loop w i th :
  Good w → threads w !! i = Some th → th_pc th = PLoop → ∃ w', tstep i w = Ret tt w' ∧ Good w'.
Proof.
  intros HG Hi Hp. unfold tstep. stepM (get_thread_eq _ _ _ Hi). rewrite Hp.
  rewrite (cbind_Ret cget _ w w w eq_refl).
  assert (Hidle : on_kind KIdle (th_pc th) = false) by (unfold on_kind; by rewrite Hp).
  assert (Hcb : on_kind KCb (th_pc th) = false) by (unfold on_kind; by rewrite Hp).
  pose proof (inv_threads _ (good_inv _ HG) _ _ Hi) as Hok.
  destruct (scan_result (th_id th) (fstate w) [] (m_fibers w) false w (inv_tasks _ (good_inv _ HG)))
    as [[_ Hs]|(q1 & ft & q2 & Hq & _ & Hel & Hs)]; stepM Hs.
  - rewrite (goto_eq _ _ _ _ Hi). eexists. split; [done|].
    eapply (Good_goto w _ i th PNone); try done; try own_side Hp.
    + unfold hold. cbn. rewrite Hp. done.
    + split; cbn; try done.
      * intros g Hg _. by apply Hok.
      * intros _. by apply Hok.
      * pose proof (ok_dup _ _ Hok) as Hnd. unfold hold in *. rewrite Hp in Hnd. done.
  - rewrite (cbind_Ret (cmodify _) _ w tt _ eq_refl), (goto_eq _ _ _ th) by done.
    eexists. split; [done|]. exact (Good_take w i th q1 ft q2 HG Hi Hp Hq Hel).
Qed.

(** A fiber on the processor changes its state or its thread moves on; the
    fiber stays with the thread. *)
Lemma Good_cpu w w' i th p f k s :
  Good w → threads w !! i = Some th → threads w' = <[i := at_pc p th]> (threads w) →
  fstate w' = <[f := s]> (fstate w) → next_fiber w' = next_fiber w → m_fibers w' = m_fibers w →
  on_cpu p = Some (f, k) → slot th f k → task p = task (th_pc th) →
  f ∈ hold th → (∀ j, on_kind j (th_pc th) = true → j = k) →
  pc_state (<[f := s]> (fstate w)) p → (f ∈ queued w → s = EXEC) →
  m_activeThreadCount w' = m_activeThreadCount w + busy (at_pc p th) - busy th →
  m_idleThreadCount w' = m_idleThreadCount w + idling (at_pc p th) - idling th →
  asked w' = asked w →
  (∃ log, begun w' = begun w ++ log ∧ fst <$> log = taken th ∧ Forall (λ '((c, thr), id), thr = (-1)%Z ∨ thr = id) log) →
  Good w'.
Proof.
  intros HG Hi Hth Hst Hn Hq Hon Hsl Htask Hf Hk Hpc Hfq Ha Hid Hask Hlog.
  pose proof (inv_threads _ (good_inv _ HG) _ _ Hi) as Hok.
  assert (Hh : hold (at_pc p th) = hold th) by (unfold hold; cbn; by rewrite Htask).
  eapply (Good_own w w' i th (at_pc p th) f s); try done.
  - by rewrite Hh.
  - rewrite Hst. eapply thread_ok_cpu; try done. rewrite Hh. apply Hok.
  - auto.
  - intros ft Heq. cbn in Heq. by subst p.
Qed.

Lemma tstep_got_fiber w i th f thr :
  Good w → threads w !! i = Some th → th_pc th = PGot (mkFT (Some f) None thr) →
  ∃ w', tstep i w = Ret tt w' ∧ Good w'.
Proof.
  intros HG Hi Hp. unfold tstep. stepM (get_thread_eq _ _ _ Hi). rewrite Hp.
  unfold run_task. stepM (get_thread_eq _ _ _ Hi). cbn [ft_fiber ft_cb].
  pose proof (inv_threads _ (good_inv _ HG) _ _ Hi) as Hok.
  pose proof (ok_pc _ _ Hok) as Hpc. rewrite Hp in Hpc. destruct Hpc as [_ Hpc].
  destruct (Hpc f eq_refl) as (s & Hs & Hne).
  assert (Hf : f ∈ hold th) by (unfold hold; rewrite Hp; set_solver).
  assert (Halive : (let! s := getState f in
                    cret (if negb (is_state s [TERM; EXCEPT]) then Some f else None)) w =
                   Ret (if negb (is_state s [TERM; EXCEPT]) then Some f else None) w).
  { by stepM (getState_eq _ _ _ Hs). }
  stepM Halive.
  assert (Hkind : ∀ j, on_kind j (th_pc th) = false) by (intros []; unfold on_kind; by rewrite Hp).
  destruct (negb (is_state s [TERM; EXCEPT])) eqn:Hal.
  - stepM (swapIn_eq _ _ _ Hs Hne). rewrite (goto_eq _ _ _ th) by done. eexists. split; [done|].
    eapply (Good_cpu w _ i th (PRun f KFiber) f KFiber EXEC); try done; try own_side Hp.
    + cbn. by rewrite lookup_insert_eq.
    + exists []. rewrite app_nil_r. unfold taken. by rewrite Hp.
  - rewrite (cbind_Ret (cmodify _) _ w tt _ eq_refl), (goto_eq _ _ _ th) by done.
    eexists. split; [done|].
    eapply (Good_goto w _ i th PLoop); try done; try own_side Hp.
    + unfold hold. cbn. rewrite app_nil_r. set_solver.
    + split; cbn; try done.
      * intros g Hg _. by apply Hok.
      * intros _. by apply Hok.
      * pose proof (ok_dup _ _ Hok) as Hnd. unfold hold in *. cbn. rewrite app_nil_r.
        apply list.NoDup_cons in Hnd as [Hni Hnd]. apply NoDup_app in Hnd as (Hnd & _ & _).
        apply list.NoDup_cons. set_solver.
Qed.

Lemma tstep_got_callback w i th c thr :
  Good w → threads w !! i = Some th → th_pc th = PGot (mkFT None (Some c) thr) →
  ∃ w' g, tstep i w = Ret tt w' ∧ Good w' ∧ m_fibers w' = m_fibers w ∧
    begun w' = begun w ++ [((c, thr), th_id th)] ∧
    threads w' !! i = Some (mkThread (th_id th) (PRun g KCb) (Some g) (th_idle th)).
Proof.
  intros HG Hi Hp. unfold tstep. stepM (get_thread_eq _ _ _ Hi). rewrite Hp.
  unfold run_task. stepM (get_thread_eq _ _ _ Hi). cbn [ft_fiber ft_cb ft_thread].
  rewrite (cbind_Ret (cret None) _ w None w eq_refl).
  pose proof (inv_threads _ (good_inv _ HG) _ _ Hi) as Hok.
  assert (Hlen : i < length (threads w)) by (by eapply lookup_lt_Some).
  assert (Hcbk : on_kind KCb (th_pc th) = false) by (unfold on_kind; by rewrite Hp).
  destruct (th_cb th) as [g|] eqn:Hcb.
  - pose proof (ok_cb _ _ Hok _ Hcb Hcbk) as Hg.
    assert (Hr : (let! _ := Fiber_reset g in cret g) w =
                 Ret g (set_fstate (<[g := INIT]> (fstate w)) w)).
    { unfold Fiber_reset. rewrite cbind_assoc. by stepM (getState_eq _ _ _ Hg). }
    stepM Hr.
    erewrite cbind_Ret; [|apply (swapIn_eq g _ INIT); [cbn; by rewrite lookup_insert_eq|done]].
    rewrite (cbind_Ret (cmodify _) _ _ tt _ eq_refl), (goto_eq _ _ _ th) by done.
    eexists _, g. split; [done|]. cbn [m_fibers begun threads set_threads set_log set_fstate].
    rewrite list_lookup_insert_eq by done. unfold at_pc. rewrite Hcb.
    split; [|done].
    replace (Some g) with (th_cb th) at 1 by done. fold (at_pc (PRun g KCb) th).
    eapply (Good_cpu w _ i th (PRun g KCb) g KCb EXEC); try done; try own_side Hp.
    + cbn. by rewrite insert_insert_eq.
    + unfold hold. rewrite Hcb. set_solver.
    + cbn. by rewrite lookup_insert_eq.
    + exists [((c, thr), th_id th)]. cbn. unfold taken. rewrite Hp. repeat split.
      apply Forall_singleton. by apply (aff_got _ (good_affine _ HG) _ _ _ Hi Hp).
  - assert (Hr : (let! g := Fiber_new in let! _ := set_cb i (Some g) in cret g) w =
       Ret (next_fiber w)
         (set_threads (<[i := mkThread (th_id th) (th_pc th) (Some (next_fiber w)) (th_idle th)]> (threads w))
            (set_next (S (next_fiber w)) (set_fstate (<[next_fiber w := INIT]> (fstate w)) w)))).
    { unfold Fiber_new, cbind, set_cb, get_thread, cbind. cbn. by rewrite Hi. }
    stepM Hr.
    erewrite cbind_Ret; [|apply (swapIn_eq (next_fiber w) _ INIT); [cbn; by rewrite lookup_insert_eq|done]].
    rewrite (cbind_Ret (cmodify _) _ _ tt _ eq_refl).
    erewrite goto_eq; [|cbn; apply list_lookup_insert_eq; by eapply lookup_lt_Some].
    eexists _, (next_fiber w). split; [done|].
    cbn [m_fibers begun threads asked fstate set_threads set_log set_fstate set_next th_id th_idle th_cb at_pc].
    rewrite list_insert_insert_eq, list_lookup_insert_eq by done. split; [|done]. rewrite insert_insert_eq.
    exact (Good_first_callback w i th c thr HG Hi Hp Hcb).
Qed.

Lemma Fiber_delete_eq f w s :
  fstate w !! f = Some s → s ∈ [TERM; EXCEPT; INIT] → Fiber_delete f w = Ret tt w.
Proof.
  intros Hf Hs. unfold Fiber_delete. rewrite (cbind_Ret _ _ _ _ _ (getState_eq _ _ _ Hf)).
  unfold is_state. by rewrite bool_decide_true.
Qed.
Lemma leave_run_eq i th w :
  threads w !! i = Some th → fstate w !! th_idle th = Some TERM →
  (∀ g, th_cb th = Some g → fstate w !! g = Some INIT) →
  leave_run i th w =
    Ret tt (set_threads (<[i := at_pc PExit th]> (threads w)) (set_pool (root_done i (m_pool w)) w)).
Proof.
  intros Hi Ht Hcb. unfold leave_run.
  assert (Hd : (match th_cb th with Some g => Fiber_delete g | None => cret tt end) w = Ret tt w).
  { destruct (th_cb th) as [g|]; [|done]. apply (Fiber_delete_eq g w INIT); [by apply Hcb|set_solver]. }
  stepM Hd. erewrite cbind_Ret; [|apply (Fiber_delete_eq _ w TERM Ht); set_solver].
  rewrite (cbind_Ret (cmodify _) _ w tt _ eq_refl). by rewrite (goto_eq _ _ _ th).
Qed.

Lemma tstep_none w i th :
  Good w → threads w !! i = Some th → th_pc th = PNone → ∃ w', tstep i w = Ret tt w' ∧ Good w'.
Proof.
  intros HG Hi Hp. unfold tstep. stepM (get_thread_eq _ _ _ Hi). rewrite Hp.
  pose proof (inv_threads _ (good_inv _ HG) _ _ Hi) as Hok.
  assert (Hkind : ∀ j, on_kind j (th_pc th) = false) by (intros []; unfold on_kind; by rewrite Hp).
  destruct (ok_idle _ _ Hok (Hkind _)) as (s & Hs & Hin).
  stepM (getState_eq _ _ _ Hs). destruct (is_state s [TERM]) eqn:Ht.
  - assert (s = TERM) as -> by (unfold is_state in Ht; apply bool_decide_eq_true in Ht; set_solver).
    rewrite leave_run_eq; [|done|done|intros g Hg; by apply Hok]. eexists. split; [done|].
    eapply (Good_goto w _ i th PExit); try done; try own_side Hp.
    + unfold hold. cbn. rewrite Hp. done.
    + split; cbn; try done.
      * intros g Hg _. by apply Hok.
      * intros _. by apply Hok.
      * pose proof (ok_dup _ _ Hok) as Hnd. unfold hold in *. rewrite Hp in Hnd. done.
  - rewrite (cbind_Ret (cmodify _) _ w tt _ eq_refl).
    assert (Hne : s ≠ EXEC) by (intros ->; set_solver).
    rewrite (cbind_Ret _ _ _ _ _ (swapIn_eq (th_idle th) (set_idle (S (m_idleThreadCount w)) w) s Hs Hne)).
    rewrite (goto_eq _ _ _ th) by done. eexists. split; [done|].
    eapply (Good_cpu w _ i th (PRun (th_idle th) KIdle) (th_idle th) KIdle EXEC); try done; try own_side Hp.
    + unfold hold. set_solver.
    + cbn. by rewrite lookup_insert_eq.
    + exists []. rewrite app_nil_r. unfold taken. by rewrite Hp.
Qed.

(** The thread moves on with the fiber it has, whose state stays. *)
Lemma Good_move w w' i th p f k :
  Good w → threads w !! i = Some th → threads w' = <[i := at_pc p th]> (threads w) →
  fstate w' = fstate w → next_fiber w' = next_fiber w → m_fibers w' = m_fibers w →
  on_cpu (th_pc th) = Some (f, k) → on_cpu p = Some (f, k) → pc_state (fstate w) p →
  m_activeThreadCount w' = m_activeThreadCount w + busy (at_pc p th) - busy th →
  m_idleThreadCount w' = m_idleThreadCount w + idling (at_pc p th) - idling th →
  asked w' = asked w → begun w' = begun w → Good w'.
Proof.
  intros HG Hi Hth Hst Hn Hq Hon Hon' Hpc Ha Hid Hask Hb.
  pose proof (inv_threads _ (good_inv _ HG) _ _ Hi) as Hok.
  destruct (pc_state_known _ _ _ _ (ok_pc _ _ Hok) Hon) as [s Hs].
  assert (Hf : f ∈ hold th) by (by eapply on_cpu_hold).
  eapply (Good_cpu w w' i th p f k s); try done.
  - by rewrite insert_id.
  - by eapply ok_slot.
  - destruct (th_pc th), p; cbn in *; simplify_eq; try done; by destruct k.
  - intros j. unfold on_kind. rewrite Hon. by destruct j, k.
  - by rewrite insert_id.
  - intros Hfq. destruct (inv_sep _ (good_inv _ HG) _ _ _ Hi Hf Hfq) as [He _]. congruence.
  - exists []. rewrite app_nil_r. unfold taken. by destruct (th_pc th).
Qed.

Lemma tstep_idle w i th f :
  Good w → threads w !! i = Some th → th_pc th = PRun f KIdle → ∃ w', tstep i w = Ret tt w' ∧ Good w'.
Proof.
  intros HG Hi Hp. unfold tstep. stepM (get_thread_eq _ _ _ Hi). rewrite Hp.
  rewrite (cbind_Ret cget _ w w w eq_refl).
  pose proof (inv_threads _ (good_inv _ HG) _ _ Hi) as Hok.
  pose proof (ok_pc _ _ Hok) as Hpc. rewrite Hp in Hpc. cbn in Hpc.
  pose proof (ok_slot _ _ Hok f KIdle) as Hsl. rewrite Hp in Hsl. specialize (Hsl eq_refl).
  assert (Hf : f ∈ hold th) by (eapply on_cpu_hold; [done|by rewrite Hp]).
  destruct (stopping w).
  - unfold setState. rewrite (cbind_Ret (cmodify _) _ w tt _ eq_refl), (goto_eq _ _ _ th) by done.
    eexists. split; [done|].
    eapply (Good_cpu w _ i th (PLeave f KIdle) f KIdle TERM); try done; try own_side Hp.
    + intros j. unfold on_kind. rewrite Hp. by destruct j.
    + cbn. by rewrite lookup_insert_eq.
    + intros Hq. destruct (inv_sep _ (good_inv _ HG) _ _ _ Hi Hf Hq) as [_ Hne].
      by rewrite Hsl in Hne.
    + exists []. rewrite app_nil_r. unfold taken. by rewrite Hp.
  - stepM (getState_eq _ _ _ Hpc). rewrite (cbind_Ret (cassert (is_state EXEC [EXEC])) _ w tt w eq_refl), (goto_eq _ _ _ _ Hi). eexists. split; [done|].
    eapply (Good_move w _ i th (POut f KIdle) f KIdle); try done; try own_side Hp.
    exists EXEC. split; [done|set_solver].
Qed.

Lemma tstep_leave w i th f k :
  Good w → threads w !! i = Some th → th_pc th = PLeave f k → ∃ w', tstep i w = Ret tt w' ∧ Good w'.
Proof.
  intros HG Hi Hp. unfold tstep. stepM (get_thread_eq _ _ _ Hi). rewrite Hp.
  rewrite (goto_eq _ _ _ _ Hi). eexists. split; [done|].
  pose proof (ok_pc _ _ (inv_threads _ (good_inv _ HG) _ _ Hi)) as Hpc. rewrite Hp in Hpc.
  eapply (Good_move w _ i th (POut f k) f k); try done.
  1: by rewrite Hp.
  2-3: destruct k; own_side Hp.
  destruct k; cbn in *; [destruct Hpc as (s & ? & ?); exists s..|exists TERM]; (split; [done|set_solver]).
Qed.

Lemma tstep_out w i th f k :
  Good w → threads w !! i = Some th → th_pc th = POut f k → ∃ w', tstep i w = Ret tt w' ∧ Good w'.
Proof.
  intros HG Hi Hp. unfold tstep. stepM (get_thread_eq _ _ _ Hi). rewrite Hp.
  pose proof (ok_pc _ _ (inv_threads _ (good_inv _ HG) _ _ Hi)) as Hpc. rewrite Hp in Hpc.
  unfold leave_counter. rewrite (cbind_Ret (cmodify _) _ w tt _ eq_refl), (goto_eq _ _ _ th) by (by destruct k).
  eexists. split; [done|].
  eapply (Good_move w _ i th (PPost f k) f k); try done; try (by destruct k).
  1: by rewrite Hp.
  all: destruct k; own_side Hp.
Qed.

(** Back at the head of the loop: the fiber that ran is parked with the
    thread or given up. *)
Lemma thread_ok_park st th f k s cb :
  thread_ok st th → on_cpu (th_pc th) = Some (f, k) → cb = None ∨ cb = th_cb th →
  (k = KCb → cb = None ∨ s = INIT) → (k = KIdle → s ∈ [HOLD; TERM]) →
  thread_ok (<[f := s]> st) (mkThread (th_id th) PLoop cb (th_idle th)).
Proof.
  intros Hok Hon Hcb Hkc Hki.
  pose proof (ok_slot _ _ Hok _ _ Hon) as Hsl.
  pose proof (ok_dup _ _ Hok) as Hnd. unfold hold in Hnd.
  apply list.NoDup_cons in Hnd as [Hni Hnd]. apply NoDup_app in Hnd as (_ & Hnt & _).
  assert (Htask : k = KFiber → task (th_pc th) = [f]).
  { intros ->. destruct (th_pc th); cbn in *; simplify_eq; done. }
  assert (Hkind : ∀ j, j ≠ k → on_kind j (th_pc th) = false).
  { intros j Hj. unfold on_kind. rewrite Hon. by destruct j, k. }
  split; cbn; try done.
  - intros g -> _. destruct Hcb as [?|Hcb]; [done|]. symmetry in Hcb.
    destruct (decide (g = f)) as [->|].
    + rewrite lookup_insert_eq. destruct k; cbn in Hsl.
      * exfalso. rewrite Htask, Hcb in Hnt by done. apply (Hnt f); set_solver.
      * by destruct (Hkc eq_refl) as [?| ->].
      * exfalso. rewrite Hcb in Hni. set_solver.
    + rewrite lookup_insert_ne by done. apply Hok; [done|]. apply Hkind. intros <-. cbn in Hsl. congruence.
  - intros _. destruct (decide (th_idle th = f)) as [He|].
    + rewrite He, lookup_insert_eq. exists s. split; [done|]. destruct k; cbn in Hsl.
      * exfalso. rewrite Htask in Hni by done. set_solver.
      * exfalso. rewrite Hsl in Hni. set_solver.
      * specialize (Hki eq_refl). set_solver.
    + rewrite lookup_insert_ne by done. apply Hok, Hkind. by intros <-.
  - unfold hold. cbn. rewrite app_nil_r. apply list.NoDup_cons. split.
    + destruct Hcb as [-> | ->]; set_solver.
    + destruct cb; [apply NoDup_singleton|apply NoDup_nil_2].
Qed.

Lemma Good_park w w' i th f k s cb :
  Good w → threads w !! i = Some th → th_pc th = PPost f k →
  threads w' = <[i := mkThread (th_id th) PLoop cb (th_idle th)]> (threads w) →
  fstate w' = <[f := s]> (fstate w) → next_fiber w' = next_fiber w → m_fibers w' = m_fibers w →
  cb = None ∨ cb = th_cb th → (k = KCb → cb = None ∨ s = INIT) → (k = KIdle → s ∈ [HOLD; TERM]) →
  (k = KCb → cb ≠ None → fstate w !! f ≠ Some EXEC) →
  m_activeThreadCount w' = m_activeThreadCount w → m_idleThreadCount w' = m_idleThreadCount w →
  asked w' = asked w → begun w' = begun w → Good w'.
Proof.
  intros HG Hi Hp Hth Hst Hn Hq Hcb Hkc Hki Hexec Ha Hid Hask Hb.
  pose proof (inv_threads _ (good_inv _ HG) _ _ Hi) as Hok.
  assert (Hon : on_cpu (th_pc th) = Some (f, k)) by (by rewrite Hp).
  assert (Hf : f ∈ hold th) by (by eapply on_cpu_hold).
  eapply (Good_own w w' i th _ f s HG Hi Hth); try done.
  - unfold hold. cbn. rewrite app_nil_r. destruct Hcb as [-> | ->]; cbn; set_solver.
  - rewrite Hst. by eapply thread_ok_park.
  - intros Hfq Hfh. destruct (inv_sep _ (good_inv _ HG) _ _ _ Hi Hf Hfq) as [He Hne].
    exfalso. unfold hold in Hfh. cbn in Hfh. rewrite app_nil_r in Hfh.
    apply elem_of_cons in Hfh as [?|Hfc%elem_of_option_list]; [done|].
    destruct Hcb as [?|Hcb]; [congruence|]. rewrite Hfc in Hcb.
    destruct k.
    + pose proof (ok_dup _ _ Hok) as Hnd. unfold hold in Hnd. rewrite <- Hcb, Hp in Hnd. cbn in Hnd.
      apply list.NoDup_cons in Hnd as [_ Hnd]. apply list.NoDup_cons in Hnd as [Hnd _]. set_solver.
    + eapply Hexec; [done|congruence|done].
    + pose proof (ok_slot _ _ Hok _ _ Hon). cbn in *. congruence.
  - rewrite Ha. unfold busy. rewrite Hp. cbn. lia.
  - rewrite Hid. unfold idling. rewrite Hp. cbn. lia.
  - exists []. rewrite app_nil_r. unfold taken. by rewrite Hp.
Qed.

(** A fiber that is READY goes back to the queue. *)
Lemma Good_requeue w w' i th f k cb :
  Good w → threads w !! i = Some th → th_pc th = PPost f k → k ≠ KIdle →
  fstate w !! f = Some READY → cb = None ∨ cb = th_cb th → (k = KCb → cb = None) →
  threads w' = <[i := mkThread (th_id th) PLoop cb (th_idle th)]> (threads w) →
  fstate w' = fstate w → next_fiber w' = next_fiber w →
  m_fibers w' = m_fibers w ++ [mkFT (Some f) None (-1)] →
  m_activeThreadCount w' = m_activeThreadCount w → m_idleThreadCount w' = m_idleThreadCount w →
  asked w' = asked w → begun w' = begun w → Good w'.
Proof.
  intros [HI HA HF] Hi Hp Hk Hr Hcb Hkc Hth Hst Hn Hq Ha Hid Hask Hb.
  pose proof (inv_threads _ HI _ _ Hi) as Hok.
  assert (Hon : on_cpu (th_pc th) = Some (f, k)) by (by rewrite Hp).
  assert (Hf : f ∈ hold th) by (by eapply on_cpu_hold).
  pose proof (ok_slot _ _ Hok _ _ Hon) as Hsl.
  assert (Hnq : f ∉ queued w).
  { intros Hfq. destruct (inv_sep _ HI _ _ _ Hi Hf Hfq) as [He _]. congruence. }
  assert (Hqd : queued w' = queued w ++ [f]).
  { unfold queued. by rewrite Hq, queued_app. }
  assert (Hok' : thread_ok (fstate w') (mkThread (th_id th) PLoop cb (th_idle th))).
  { rewrite Hst, <- (insert_id (fstate w) f READY) by done. eapply thread_ok_park; try done. intros ->. auto. }
  assert (Hnf : f ∉ hold (mkThread (th_id th) PLoop cb (th_idle th))).
  { intros Hfh. destruct (hold_inv _ _ _ Hok' Hfh) as [Hx|[Hx|[Hx|(ft & Hx & _)]]]; try done; cbn in Hx.
    - subst f. destruct (ok_idle _ _ Hok') as (s & Hs & Hin); [done|]. cbn in Hs.
      rewrite Hst, Hr in Hs. injection Hs as <-. set_solver.
    - pose proof (ok_cb _ _ Hok' _ Hx eq_refl) as Hs. rewrite Hst in Hs. congruence. }
  split.
  - eapply (Inv_update w _ i th); try done.
    + intros g. rewrite Hst, Hn. apply HI.
    + by rewrite Hn.
    + intros g _ _. by rewrite Hst.
    + intros g Hg. left. unfold hold in *. cbn in Hg. rewrite app_nil_r in Hg.
      destruct Hcb as [-> | ->]; cbn in *; set_solver.
    + rewrite Hq. apply Forall_app. split; [apply HI|]. apply Forall_singleton. left. cbn. eauto.
    + rewrite Hqd. apply NoDup_app. split; [apply HI|]. split; [set_solver|apply NoDup_singleton].
    + intros g. rewrite Hqd. set_solver.
    + intros g. rewrite Hqd, elem_of_app, list_elem_of_singleton. intros [Hg| ->] Hh; [|done].
      assert (Hh' : g ∈ hold th).
      { unfold hold in *. cbn in Hh. rewrite app_nil_r in Hh. destruct Hcb as [-> | ->]; cbn in *; set_solver. }
      rewrite Hst. by apply (inv_sep _ HI _ _ _ Hi Hh').
  - eapply (Accounts_update w _ i th); try done.
    + rewrite Ha. unfold busy. rewrite Hp. cbn. lia.
    + rewrite Hid. unfold idling. rewrite Hp. cbn. lia.
    + intros x. rewrite Hask, Hb, Hq, bind_app, count_app. unfold taken. rewrite Hp. cbn. rewrite count_nil. lia.
  - eapply (Affine_update w _ i th); try done. rewrite Hb. apply HF.
Qed.

Lemma set_cb_goto i c p w th :
  threads w !! i = Some th →
  (let! _ := set_cb i c in goto i p) w =
  Ret tt (set_threads (<[i := mkThread (th_id th) p c (th_idle th)]> (threads w)) w).
Proof.
  intros Hi. unfold set_cb. rewrite cbind_assoc. stepM (get_thread_eq _ _ _ Hi).
  unfold put_thread. rewrite (cbind_Ret (cmodify _) _ w tt _ eq_refl).
  erewrite goto_eq by (apply list_lookup_insert_eq; by eapply lookup_lt_Some).
  cbn [set_threads threads]. by rewrite list_insert_insert_eq.
Qed.
Lemma schedule_eq f thr w :
  schedule (mkFT (Some f) None thr) w = Ret tt (set_queue (m_fibers w ++ [mkFT (Some f) None thr]) w).
Proof. done. Qed.
Lemma is_state_eq s l : is_state s l = true ↔ s ∈ l.
Proof. apply bool_decide_eq_true. Qed.
Lemma getState_bind {A} f s w (k : FiberState → M world A) :
  fstate w !! f = Some s → cbind (getState f) k w = k s w.
Proof. intros Hf. by rewrite (cbind_Ret _ _ _ _ _ (getState_eq _ _ _ Hf)). Qed.

Ltac eval_states :=
  repeat match goal with
  | |- context [is_state ?a ?b] =>
    let v := eval vm_compute in (is_state a b) in change (is_state a b) with v
  end; cbn [negb].

Lemma tstep_post w i th f k :
  Good w → threads w !! i = Some th → th_pc th = PPost f k → ∃ w', tstep i w = Ret tt w' ∧ Good w'.
Proof.
  intros HG Hi Hp. unfold tstep. stepM (get_thread_eq _ _ _ Hi). rewrite Hp.
  pose proof (ok_pc _ _ (inv_threads _ (good_inv _ HG) _ _ Hi)) as Hpc. rewrite Hp in Hpc.
  assert (Hs : ∃ s, fstate w !! f = Some s ∧ s ∈ [EXEC; READY; TERM; EXCEPT] ∧
                    (k = KIdle → s ∈ [EXEC; TERM])).
  { destruct k; destruct Hpc as (s & ? & ?); exists s; set_solver. }
  clear Hpc. destruct Hs as (s & Hs & Hin & Hki).
  unfold settle. rewrite cbind_assoc, (getState_bind _ _ _ _ Hs).
  assert (Hreset : s ∈ [TERM; EXCEPT] → Fiber_reset f w = Ret tt (set_fstate (<[f := INIT]> (fstate w)) w)).
  { intros Ht. unfold Fiber_reset. rewrite (getState_bind _ _ _ _ Hs). by destruct s; try (exfalso; set_solver). }
  destruct k.
  - destruct s; try (exfalso; set_solver); eval_states.
    + rewrite (cbind_Ret (setState f HOLD) _ w tt _ eq_refl), (goto_eq _ _ _ th) by done.
      eexists; split; [done|]. eapply (Good_park w _ i th f KFiber HOLD (th_cb th)); try done; eauto.
    + rewrite (cbind_Ret (cret tt) _ w tt _ eq_refl), (goto_eq _ _ _ th) by done.
      eexists; split; [done|]. eapply (Good_park w _ i th f KFiber TERM (th_cb th)); try done; eauto; cbn; by rewrite insert_id.
    + rewrite (cbind_Ret _ _ _ _ _ (schedule_eq _ _ _)), (goto_eq _ _ _ th) by done.
      eexists; split; [done|]. eapply (Good_requeue w _ i th f KFiber (th_cb th)); try done; eauto.
    + rewrite (cbind_Ret (cret tt) _ w tt _ eq_refl), (goto_eq _ _ _ th) by done.
      eexists; split; [done|]. eapply (Good_park w _ i th f KFiber EXCEPT (th_cb th)); try done; eauto; cbn; by rewrite insert_id.
  - destruct s; try (exfalso; set_solver); eval_states;
      rewrite ?cbind_assoc.
    + rewrite (cbind_Ret (setState f HOLD) _ w tt _ eq_refl), (set_cb_goto _ _ _ _ th) by done.
      eexists; split; [done|]. eapply (Good_park w _ i th f KCb HOLD None); try done; eauto.
    + rewrite (cbind_Ret _ _ _ _ _ (Hreset ltac:(set_solver))), (goto_eq _ _ _ th) by done.
      eexists; split; [done|]. eapply (Good_park w _ i th f KCb INIT (th_cb th)); try done; eauto.
      intros _ _. congruence.
    + rewrite (cbind_Ret _ _ _ _ _ (schedule_eq _ _ _)), (set_cb_goto _ _ _ _ th) by done.
      eexists; split; [done|]. eapply (Good_requeue w _ i th f KCb None); try done; eauto.
    + rewrite (cbind_Ret _ _ _ _ _ (Hreset ltac:(set_solver))), (goto_eq _ _ _ th) by done.
      eexists; split; [done|]. eapply (Good_park w _ i th f KCb INIT (th_cb th)); try done; eauto.
      intros _ _. congruence.
  - specialize (Hki eq_refl).
    destruct s; try (exfalso; set_solver); eval_states.
    + rewrite (cbind_Ret (setState f HOLD) _ w tt _ eq_refl), (goto_eq _ _ _ th) by done.
      eexists; split; [done|]. eapply (Good_park w _ i th f KIdle HOLD (th_cb th)); try done; eauto. set_solver.
    + rewrite (cbind_Ret (cret tt) _ w tt _ eq_refl), (goto_eq _ _ _ th) by done.
      eexists; split; [done|]. eapply (Good_park w _ i th f KIdle TERM (th_cb th)); try done; eauto; [cbn; by rewrite insert_id|set_solver].
Qed.

Lemma tstep_good w i th :
  Good w → threads w !! i = Some th → ∃ w', tstep i w = Ret tt w' ∧ Good w'.
Proof.
  intros HG Hi. destruct (th_pc th) as [|[[f|] [c|] thr]| |f []|f k|f k|f k|] eqn:Hp.
  - by eapply tstep_loop.
  - pose proof (ok_pc _ _ (inv_threads _ (good_inv _ HG) _ _ Hi)) as Hpc.
    rewrite Hp in Hpc. destruct Hpc as [[[_ ?]|[? _]] _]; done.
  - by eapply tstep_got_fiber.
  - destruct (tstep_got_callback w i th c thr HG Hi Hp) as (w' & g & ? & ? & _). by exists w'.
  - pose proof (ok_pc _ _ (inv_threads _ (good_inv _ HG) _ _ Hi)) as Hpc.
    rewrite Hp in Hpc. destruct Hpc as [[[[] _]|[_ []]] _]; done.
  - by eapply tstep_none.
  - exists w. unfold tstep. stepM (get_thread_eq _ _ _ Hi). by rewrite Hp.
  - exists w. unfold tstep. stepM (get_thread_eq _ _ _ Hi). by rewrite Hp.
  - by eapply tstep_idle.
  - by eapply tstep_leave.
  - by eapply tstep_out.
  - by eapply tstep_post.
  - exists w. unfold tstep. stepM (get_thread_eq _ _ _ Hi). by rewrite Hp.
Qed.

(** ** Steps that leave the threads where they are *)
Lemma Good_frame w w' :
  Good w → threads w' = threads w →
  (∀ f, is_Some (fstate w' !! f) ↔ f < next_fiber w') → next_fiber w ≤ next_fiber w' →
  (∀ f, f < next_fiber w → fstate w' !! f = fstate w !! f) →
  Forall task_ok (m_fibers w') → NoDup (queued w') → (∀ f, f ∈ queued w' → f < next_fiber w') →
  (∀ i th f, threads w !! i = Some th → f ∈ hold th → f ∈ queued w' →
             fstate w !! f = Some EXEC ∧ f ≠ th_idle th) →
  m_activeThreadCount w' = m_activeThreadCount w → m_idleThreadCount w' = m_idleThreadCount w →
  begun w' = begun w →
  (∀ x, count x (asked w') + count x (m_fibers w ≫= request) = count x (asked w) + count x (m_fibers w' ≫= request)) →
  Good w'.
Proof.
  intros [HI HA HF] Hth Hdom Hn Hst Htasks Hnd Hkn Hsep Ha Hid Hb Hc.
  assert (Hkh : ∀ i th f, threads w !! i = Some th → f ∈ hold th → f < next_fiber w).
  { intros i th f Hi Hf. apply HI. eapply hold_known; [by eapply inv_threads|done]. }
  split; [split; try done|split|split].
  - intros i th. rewrite Hth. intros Hi. eapply thread_ok_frame; [by eapply inv_threads|].
    intros f Hf. apply Hst. by eapply Hkh.
  - intros i j th th' f. rewrite Hth. apply HI.
  - intros i th f. rewrite Hth. intros Hi Hf Hq. rewrite Hst; [by eapply Hsep|by eapply Hkh].
  - rewrite Ha, Hth. apply HA.
  - rewrite Hid, Hth. apply HA.
  - intros x. pose proof (acc_calls _ HA x) as Hx. unfold waiting in *. rewrite Hb, Hth.
    specialize (Hc x). lia.
  - intros i th ft. rewrite Hth. apply HF.
  - rewrite Hb. apply HF.
Qed.

(** What may be scheduled: a callback, or a fiber that is not in the queue
    already and that is either with no thread or running on one (it is then
    to leave by YieldToHold). *)
Definition can_schedule (w : world) (ft : FiberAndThread) : Prop :=
  match ft_fiber ft with
  | None => True
  | Some f =>
    ft_cb ft = None ∧ f < next_fiber w ∧ (f ∉ queued w) ∧
    (∀ i th, threads w !! i = Some th → f ∈ hold th → fstate w !! f = Some EXEC ∧ f ≠ th_idle th)
  end.

Lemma Good_schedule w ft :
  Good w → can_schedule w ft → ∃ w', schedule ft w = Ret tt w' ∧ Good w'.
Proof.
  intros HG Hcan. destruct ft as [[f|] [c|] thr]; cbn in Hcan.
  - by destruct Hcan.
  - destruct Hcan as (_ & Hf & Hq & Hh). eexists. split; [done|].
    assert (Hqd : omap ft_fiber (m_fibers w ++ [mkFT (Some f) None thr]) = queued w ++ [f]) by apply queued_app.
    eapply (Good_frame w); try done; cbn.
    + apply HG.
    + apply Forall_app. split; [apply HG|]. apply Forall_singleton. left. cbn. eauto.
    + unfold queued. cbn. rewrite Hqd. apply NoDup_app.
      split; [apply HG|]. split; [set_solver|apply NoDup_singleton].
    + intros g. unfold queued. cbn. rewrite Hqd, elem_of_app, list_elem_of_singleton.
      intros [?| ->]; [by apply (inv_known _ (good_inv _ HG))|done].
    + intros i th g Hi Hg. unfold queued. cbn. rewrite Hqd, elem_of_app, list_elem_of_singleton.
      intros [?| ->]; [by eapply (inv_sep _ (good_inv _ HG))|by eapply Hh].
    + intros x. rewrite bind_app. cbn. by rewrite app_nil_r.
  - eexists. split; [done|]. cbn.
    assert (Hqd : omap ft_fiber (m_fibers w ++ [mkFT None (Some c) thr]) = queued w).
    { unfold queued. rewrite queued_app. by rewrite app_nil_r. }
    eapply (Good_frame w); try done; cbn.
    + apply HG.
    + apply Forall_app. split; [apply HG|]. apply Forall_singleton. right. cbn. eauto.
    + unfold queued. cbn. rewrite Hqd. apply (good_inv _ HG).
    + intros g. unfold queued. cbn. rewrite Hqd. apply (good_inv _ HG).
    + intros i th g Hi Hg. unfold queued. cbn. rewrite Hqd. by eapply (inv_sep _ (good_inv _ HG)).
    + intros x. rewrite bind_app, !count_app. cbn. lia.
  - eexists. by split.
Qed.

Lemma Good_create w : Good w → ∃ w', (let! _ := Fiber_new in cret tt) w = Ret tt w' ∧ Good w'.
Proof.
  intros HG. eexists. split; [done|]. pose proof (good_inv _ HG) as HI.
  eapply (Good_frame w); try done; cbn.
  - intros f. destruct (decide (f = next_fiber w)) as [->|].
    + rewrite lookup_insert_eq. split; [lia|done].
    + rewrite lookup_insert_ne by done. rewrite (inv_dom _ HI). lia.
  - lia.
  - intros f Hf. rewrite lookup_insert_ne; [done|lia].
  - apply HI.
  - apply HI.
  - intros f Hf. apply (inv_known _ HI) in Hf. lia.
  - apply HI.
Qed.

(** ** The code of the fibers

    What a fiber may do while it runs: a fiber that someone has put in the
    queue leaves by YieldToHold. *)
Definition may (w : world) (i : nat) (a : action) : Prop :=
  match th_pc <$> threads w !! i with
  | Some (PRun f k) =>
    k ≠ KIdle ∧
    match a with
    | ASchedule ft => can_schedule w ft
    | AYieldToReady | AReturn | AThrow => f ∉ queued w
    | ACreate | AYieldToHold => True
    end
  | _ => False
  end.

Lemma Good_leave w i th f k s :
  Good w → threads w !! i = Some th → th_pc th = PRun f k → k ≠ KIdle → f ∉ queued w →
  s ∈ [READY; TERM; EXCEPT] →
  ∃ w', (let! _ := setState f s in goto i (PLeave f k)) w = Ret tt w' ∧ Good w'.
Proof.
  intros HG Hi Hp Hk Hq Hs. unfold setState.
  rewrite (cbind_Ret (cmodify _) _ w tt _ eq_refl), (goto_eq _ _ _ th) by done.
  eexists. split; [done|].
  pose proof (inv_threads _ (good_inv _ HG) _ _ Hi) as Hok.
  assert (Hon : on_cpu (th_pc th) = Some (f, k)) by (by rewrite Hp).
  eapply (Good_cpu w _ i th (PLeave f k) f k s); try done.
  - by eapply ok_slot.
  - rewrite Hp. by destruct k.
  - by eapply on_cpu_hold.
  - intros j. unfold on_kind. rewrite Hon. by destruct j, k.
  - destruct k; try done; exists s; by rewrite lookup_insert_eq.
  - destruct k; own_side Hp.
  - destruct k; own_side Hp.
  - exists []. rewrite app_nil_r. unfold taken. by rewrite Hp.
Qed.

Lemma ustep_good w i a : Good w → may w i a → ∃ w', ustep i a w = Ret tt w' ∧ Good w'.
Proof.
  intros HG Hmay. unfold may in Hmay.
  destruct (threads w !! i) as [th|] eqn:Hi; [|done]. cbn in Hmay.
  destruct (th_pc th) as [|?| |f k|f k|f k|f k|] eqn:Hp; try done. destruct Hmay as [Hk Hmay].
  unfold ustep. stepM (get_thread_eq _ _ _ Hi). rewrite Hp.
  pose proof (ok_pc _ _ (inv_threads _ (good_inv _ HG) _ _ Hi)) as Hpc. rewrite Hp in Hpc. cbn in Hpc.
  destruct a as [|ft| | | |].
  - by apply Good_create.
  - by apply Good_schedule.
  - unfold yield_state. rewrite (getState_bind _ _ _ _ Hpc).
    rewrite (cbind_Ret (cassert (is_state EXEC [EXEC])) _ w tt w eq_refl).
    eapply Good_leave; try done. set_solver.
  - unfold yield_state. rewrite (getState_bind _ _ _ _ Hpc).
    rewrite (cbind_Ret (cassert (is_state EXEC [EXEC])) _ w tt w eq_refl).
    rewrite (cbind_Ret (cret tt) _ w tt w eq_refl), (goto_eq _ _ _ th) by done.
    eexists. split; [done|].
    eapply (Good_move w _ i th (POut f k) f k); try done.
    + by rewrite Hp.
    + destruct k; [exists EXEC; set_solver..|done].
    + destruct k; own_side Hp.
    + destruct k; own_side Hp.
  - eapply Good_leave; try done. set_solver.
  - eapply Good_leave; try done. set_solver.
Qed.

(** ** start() and stop() *)
Lemma sum_list_with_app {A} (μ : A → nat) l1 l2 :
  sum_list_with μ (l1 ++ l2) = sum_list_with μ l1 + sum_list_with μ l2.
Proof. induction l1; simpl; lia. Qed.

Lemma Good_pool w p : Good w → Good (set_pool p w).
Proof. intros [[] [] []]. split; split; done. Qed.

Lemma Good_enter w id : Good w → ∃ t w', enter_run id w = Ret t w' ∧ Good w'.
Proof.
  intros [HI HA HF]. eexists _, _. split; [done|]. cbn.
  set (g := next_fiber w).
  assert (Hkh : ∀ i th f, threads w !! i = Some th → f ∈ hold th → f < g).
  { intros i th f Hi Hf. apply HI. eapply hold_known; [by eapply inv_threads|done]. }
  assert (Hlk : ∀ i th, (threads w ++ [mkThread id PLoop None g]) !! i = Some th →
            threads w !! i = Some th ∨ (i = length (threads w) ∧ th = mkThread id PLoop None g)).
  { intros i th [?|(? & Hx)]%lookup_app_Some; [auto|]. right.
    apply list_lookup_singleton_Some in Hx as [? <-]. split; [lia|done]. }
  split; [split|split|split]; cbn.
  - intros f. destruct (decide (f = g)) as [->|].
    + rewrite lookup_insert_eq. split; [lia|done].
    + rewrite lookup_insert_ne by done. rewrite (inv_dom _ HI). subst g. lia.
  - apply HI.
  - apply HI.
  - intros f Hf. apply (inv_known _ HI) in Hf. subst g. lia.
  - intros i th [Hi|[_ ->]]%Hlk.
    + eapply thread_ok_frame; [by eapply inv_threads|]. intros f Hf.
      rewrite lookup_insert_ne; [done|]. apply (Hkh _ _ _ Hi) in Hf. lia.
    + split; cbn; try done.
      * intros _. exists INIT. rewrite lookup_insert_eq. set_solver.
      * apply NoDup_singleton.
  - intros i j th th' f [Hi|[-> ->]]%Hlk [Hj|[-> ->]]%Hlk Hf Hf'; try done.
    + by eapply (inv_disjoint _ HI).
    + apply (Hkh _ _ _ Hi) in Hf. apply list_elem_of_singleton in Hf'. cbn in Hf'. lia.
    + apply (Hkh _ _ _ Hj) in Hf'. apply list_elem_of_singleton in Hf. cbn in Hf. lia.
  - intros i th f [Hi|[-> ->]]%Hlk Hf Hq.
    + rewrite lookup_insert_ne; [by eapply (inv_sep _ HI)|]. apply (Hkh _ _ _ Hi) in Hf. lia.
    + apply (inv_known _ HI) in Hq. apply list_elem_of_singleton in Hf. cbn in Hf. subst g. lia.
  - rewrite sum_list_with_app, (acc_active _ HA). cbn. lia.
  - rewrite sum_list_with_app, (acc_idle _ HA). cbn. lia.
  - intros x. rewrite (acc_calls _ HA x). unfold waiting. cbn. rewrite sum_list_with_app. cbn.
    rewrite count_nil. lia.
  - intros i th ft [Hi|[_ ->]]%Hlk; [by apply (aff_got _ HF _ _ _ Hi)|done].
  - apply HF.
Qed.

Lemma Good_spawn w id : Good w → ∃ w', spawn id w = Ret tt w' ∧ Good w'.
Proof.
  intros HG. destruct (Good_enter w id HG) as (t & w1 & H1 & HG1). unfold spawn. stepM H1.
  eexists. split; [done|]. by apply Good_pool.
Qed.

Lemma Good_flags w s a : Good w → Good (set_flags s a w).
Proof. intros [[] [] []]. split; split; done. Qed.

Lemma Good_spawns w ids : Good w → ∃ w', cfor ids spawn w = Ret tt w' ∧ Good w'.
Proof.
  revert w. induction ids as [|id ids IH]; intros w HG; [by eexists|].
  destruct (Good_spawn w id HG) as (w1 & H1 & HG1). cbn [cfor]. stepM H1. by apply IH.
Qed.

Lemma Good_start w ids :
  Good w → if m_stopping w && negb (bool_decide (m_threads (m_pool w) = [])) then start ids w = Stuck AssertFailed
           else ∃ w', start ids w = Ret tt w' ∧ Good w'.
Proof.
  intros HG. unfold start. rewrite (cbind_Ret cget _ w w w eq_refl).
  destruct (m_stopping w); cbn [negb andb]; [|by exists w].
  rewrite (cbind_Ret (cmodify _) _ w tt _ eq_refl).
  destruct (bool_decide (m_threads (m_pool w) = [])); cbn [negb]; [|done].
  rewrite (cbind_Ret (cassert true) _ _ tt _ eq_refl).
  apply Good_spawns. by apply Good_flags.
Qed.

(** ** Runs of the scheduler *)
Inductive event :=
  | EThread (i : nat) | EUser (i : nat) (a : action) | ESchedule (ft : FiberAndThread)
  | EStart (ids : list Z)
  | EStopAuto | EStopCheck | EStopSignal (mine : bool) | EStopCall | EStopBack | EStopSwap | EStopJoin (thrs : list nat)
  | EDelete.
Definition forget {A} (m : M world A) : M world unit := let! _ := m in cret tt.
Definition exec (e : event) : M world unit :=
  match e with
  | EThread i => tstep i
  | EUser i a => ustep i a
  | ESchedule ft => schedule ft
  | EStart ids => start ids
  | EStopAuto => stop_auto
  | EStopCheck => forget stop_check
  | EStopSignal mine => stop_signal mine
  | EStopCall => stop_call
  | EStopBack => stop_back
  | EStopSwap => forget stop_swap
  | EStopJoin thrs => stop_join thrs
  | EDelete => Scheduler_delete
  end.
(** The contract of the callers: the code of a fiber does what it may, a
    thread schedules only what can be scheduled, the system gives start() as
    many threads as it asks for, and stop() does not call run() on the root
    fiber while it is running there already. *)
Definition root_running (w : world) : bool :=
  match m_rootFiber (m_pool w) with RExec _ => true | _ => false end.
Definition allowed (w : world) (e : event) : Prop :=
  match e with
  | EThread i => i < length (threads w)
  | EUser i a => may w i a
  | ESchedule ft => can_schedule w ft
  | EStart ids => length ids = m_threadCount (m_pool w)
  | EStopCall => root_running w = false
  | EStopAuto | EStopCheck | EStopSignal _ | EStopBack | EStopSwap | EStopJoin _ | EDelete => True
  end.
(** The states of a scheduler made with any number of threads, with or
    without use_caller, in any interleaving of its threads and its users that
    keeps the contract. *)
Inductive reachable : world → Prop :=
  | reach_new n use_caller id w : Scheduler_new n use_caller false id Scheduler_init = Ret tt w → reachable w
  | reach_step w e w' : reachable w → allowed w e → exec e w = Ret tt w' → reachable w'.

Lemma Good_init : Good Scheduler_init.
Proof.
  split; split; cbn; try done.
  - intros f. rewrite lookup_empty. split; [by intros []|lia].
  - apply NoDup_nil_2.
  - intros f Hf. by apply not_elem_of_nil in Hf.
Qed.
Lemma Good_new n use_caller id w : Scheduler_new n use_caller false id Scheduler_init = Ret tt w → Good w.
Proof.
  unfold Scheduler_new. destruct (0 <? n); [|done]. rewrite (cbind_Ret (cassert true) _ Scheduler_init tt _ eq_refl).
  destruct use_caller; intros [= <-]; apply Good_pool, Good_init.
Qed.

(** Which steps fail an assertion and which have to wait. *)
Definition aborts (w : world) (e : event) : bool :=
  match e with
  | EStart _ => m_stopping w && negb (bool_decide (m_threads (m_pool w) = []))
  | EStopSignal mine => negb (Bool.eqb mine (negb (m_rootThread (m_pool w) =? -1)%Z))
  | EStopCall => match m_rootFiber (m_pool w) with RTerm => negb (stopping w) | _ => false end
  | EDelete => negb (m_stopping w)
  | _ => false
  end.
Definition blocks (w : world) (e : event) : bool :=
  match e with
  | EStopBack => root_running w
  | EStopJoin thrs => negb (forallb (joined w) thrs)
  | _ => false
  end.

Lemma Good_check w : Good w → ∃ w', forget stop_check w = Ret tt w' ∧ Good w'.
Proof.
  intros HG. unfold forget, stop_check, cbind, cget.
  destruct (m_rootFiber (m_pool w)); [by exists w| |by exists w|];
    (destruct (m_threadCount (m_pool w) =? 0); [|by exists w]); eexists; (split; [done|]); by apply Good_flags.
Qed.
Lemma Good_signal w mine :
  Good w → if negb (Bool.eqb mine (negb (m_rootThread (m_pool w) =? -1)%Z)) then stop_signal mine w = Stuck AssertFailed
           else ∃ w', stop_signal mine w = Ret tt w' ∧ Good w'.
Proof.
  intros HG. unfold stop_signal. rewrite (cbind_Ret cget _ w w w eq_refl).
  destruct (m_rootThread (m_pool w) =? -1)%Z, mine; cbn [negb Bool.eqb]; try done;
    (eexists; split; [done|]; by apply Good_flags).
Qed.
Lemma Good_call w :
  Good w → root_running w = false →
  if match m_rootFiber (m_pool w) with RTerm => negb (stopping w) | _ => false end then stop_call w = Stuck AssertFailed
  else ∃ w', stop_call w = Ret tt w' ∧ Good w'.
Proof.
  intros HG. unfold root_running, stop_call. rewrite (cbind_Ret cget _ w w w eq_refl).
  destruct (m_rootFiber (m_pool w)); intros Hr; try done; [by exists w| |];
    destruct (stopping w); cbn [negb]; try (by exists w); try done.
  destruct (Good_enter w (m_rootThread (m_pool w)) HG) as (t & w1 & H1 & HG1). stepM H1.
  eexists. split; [done|]. by apply Good_pool.
Qed.

Lemma exec_good w e :
  Good w → allowed w e →
  if aborts w e then exec e w = Stuck AssertFailed
  else if blocks w e then exec e w = Stuck NoReturn
  else ∃ w', exec e w = Ret tt w' ∧ Good w'.
Proof.
  intros HG Hal. destruct e as [i|i a|ft|ids| | |mine| | | |thrs|]; cbn in *.
  - apply lookup_lt_is_Some in Hal as [th Hi]. by eapply tstep_good.
  - by apply ustep_good.
  - by apply Good_schedule.
  - by apply Good_start.
  - eexists. split; [done|]. by apply Good_flags.
  - by apply Good_check.
  - by apply Good_signal.
  - by apply Good_call.
  - unfold root_running, stop_back. destruct (m_rootFiber (m_pool w)); try done; by exists w.
  - eexists. split; [done|]. by apply Good_pool.
  - unfold stop_join. destruct (forallb (joined w) thrs); [by exists w|done].
  - unfold Scheduler_delete, cbind, cget. destruct (m_stopping w); [by exists w|done].
Qed.
Lemma reachable_good w : reachable w → Good w.
Proof.
  induction 1 as [n uc id w Hn|w e w' _ IH Hal He]; [by eapply Good_new|].
  pose proof (exec_good w e IH Hal) as Hx.
  destruct (aborts w e); [congruence|]. destruct (blocks w e); [congruence|].
  destruct Hx as (w'' & Hx & ?). rewrite Hx in He. by injection He as <-.
Qed.

(** C1: A fiber runs on one thread at a time, as long as the callers keep the
    contract of [allowed]: a fiber is given to schedule only when it is not in
    the queue and no thread has it, or while it is running and then leaves by
    YieldToHold. In every state reached by an interleaving of the threads, the
    fibers and the users that keeps it, of a scheduler with or without
    use_caller, no two threads are executing the same fiber, or still
    switching away from it; and a fiber that is running, or whose context is
    not yet saved, has not been taken from the queue by any thread. Without
    the contract this fails ([double_schedule_aborts]). *)
Theorem scheduler_mutual_exclusion (w : world) (Hw : reachable w) (i j : nat) (th th' : thread) (f : nat) (k : kind)
  (Hi : threads w !! i = Some th) (Hj : threads w !! j = Some th')
  (Hf : on_cpu (th_pc th) = Some (f, k)) :
  (∀ k', on_cpu (th_pc th') = Some (f, k') → i = j) ∧
  (∀ ft, th_pc th' = PGot ft → ft_fiber ft ≠ Some f).
Proof.
  apply reachable_good in Hw as [HI _ _].
  pose proof (inv_threads _ HI _ _ Hi) as Hok. pose proof (inv_threads _ HI _ _ Hj) as Hok'.
  pose proof (on_cpu_hold _ _ _ _ Hok Hf) as Hh. split.
  - intros k' Hf'. pose proof (on_cpu_hold _ _ _ _ Hok' Hf') as Hh'.
    exact (inv_disjoint _ HI i j th th' f Hi Hj Hh Hh').
  - intros ft Hp Hft.
    assert (Hh' : f ∈ hold th') by (unfold hold; rewrite Hp; cbn; rewrite Hft; set_solver).
    assert (i = j) as -> by exact (inv_disjoint _ HI i j th th' f Hi Hj Hh Hh').
    assert (th = th') as -> by congruence. by rewrite Hp in Hf.
Qed.


(** The counters of active and idle threads are the number of threads
    that have a task, from taking it to the return of swapIn, and the number
    of those in their idle fiber; in particular they never wrap below
    zero. *)
Theorem scheduler_counters (w : world) (Hw : reachable w) :
  m_activeThreadCount w = sum_list_with busy (threads w) ∧
  m_idleThreadCount w = sum_list_with idling (threads w) ∧
  m_activeThreadCount w + m_idleThreadCount w ≤ length (threads w).
Proof.
  apply reachable_good in Hw as [_ HA _]. rewrite (acc_active _ HA), (acc_idle _ HA).
  repeat split. induction (threads w) as [|th l IH]; [done|]. simpl.
  assert (busy th + idling th ≤ 1) by (unfold busy, idling; destruct (th_pc th) as [| | |? []|? []|? []|? []|]; lia).
  lia.
Qed.

(** C18: Every callback handed to schedule is started once: for each callback
    and the thread asked for, the number of times it was scheduled is the
    number of times it was started plus the number of copies that wait in
    the queue or have just been taken by a thread. *)
Theorem scheduler_callbacks_once (w : world) (Hw : reachable w) (x : nat * Z) :
  count x (asked w) = count x (fst <$> begun w) + waiting x w.
Proof. apply reachable_good in Hw as [_ HA _]. apply HA. Qed.

(** A task runs on the thread it was scheduled for: each callback started,
    and each task a thread has taken, either named no thread (-1) or named
    this one. *)
Theorem scheduler_affinity (w : world) (Hw : reachable w) :
  (∀ c thr id, ((c, thr), id) ∈ begun w → thr = (-1)%Z ∨ thr = id) ∧
  (∀ i th ft, threads w !! i = Some th → th_pc th = PGot ft →
     ft_thread ft = (-1)%Z ∨ ft_thread ft = th_id th).
Proof.
  apply reachable_good in Hw as [_ _ [Hg Hb]]. split; [|done].
  intros c thr id Hin. rewrite Forall_forall in Hb. by apply (Hb ((c, thr), id)).
Qed.

Lemma sum_list_with_zero {A} (μ : A → nat) l i a : sum_list_with μ l = 0 → l !! i = Some a → μ a = 0.
Proof. intros Hz Hi. pose proof (sum_list_with_ge μ _ _ _ Hi). lia. Qed.

(** When stopping() says yes no work is left but for one window: the queue
    is empty, no thread has taken a task or is running one; a thread may only
    be at the end of run()'s branch for a task, with the counter already
    decremented and the fiber not yet put back. *)
Theorem stopping_quiescent (w : world) (Hw : reachable w) (Hs : stopping w = true) :
  m_fibers w = [] ∧
  ∀ i th, threads w !! i = Some th →
    (∀ ft, th_pc th ≠ PGot ft) ∧
    (∀ f k, on_cpu (th_pc th) = Some (f, k) → k ≠ KIdle → th_pc th = PPost f k).
Proof.
  apply reachable_good in Hw as [_ HA _]. unfold stopping in Hs.
  apply andb_true_iff in Hs as [[[_ _]%andb_true_iff Hq]%andb_true_iff Ha%Nat.eqb_eq].
  apply bool_decide_eq_true in Hq. split; [done|]. intros i th Hi.
  rewrite (acc_active _ HA) in Ha. pose proof (sum_list_with_zero busy _ _ _ Ha Hi) as Hb.
  unfold busy in Hb. split.
  - intros ft Hp. by rewrite Hp in Hb.
  - intros f k Hon Hk. destruct (th_pc th); cbn in *; simplify_eq; try done; by destruct k.
Qed.

(** The scan takes the first task of the queue that this thread may run:
    the tasks before it are bound to another thread or their fiber is still
    running, they and those after it stay in their order, and the others are
    woken exactly when a task of another thread was passed over or tasks are
    left behind the one taken. *)
Theorem scan_takes_first (w : world) (Hw : reachable w) (me : Z) :
  match scan me (fstate w) [] (m_fibers w) false w with
  | Ret (Some (ft, q), tickle_me) w' =>
    w' = w ∧ ∃ q1 q2, m_fibers w = q1 ++ ft :: q2 ∧ q = q1 ++ q2 ∧
      eligible me (fstate w) ft = true ∧ Forall (λ ft, eligible me (fstate w) ft = false) q1 ∧
      tickle_me = existsb (foreign me) q1 || bool_decide (q2 ≠ [])
  | Ret (None, tickle_me) w' =>
    w' = w ∧ Forall (λ ft, eligible me (fstate w) ft = false) (m_fibers w) ∧
      tickle_me = existsb (foreign me) (m_fibers w)
  | _ => False
  end.
Proof.
  apply reachable_good in Hw as [HI _ _].
  destruct (scan_result me (fstate w) [] (m_fibers w) false w (inv_tasks _ HI))
    as [[Hf ->]|(q1 & ft & q2 & Hq & Hf & Hel & ->)]; [done|].
  split; [done|]. by exists q1, q2.
Qed.

(** ** Concrete runs *)
Definition can_scheduleb (w : world) (ft : FiberAndThread) : bool :=
  match ft_fiber ft with
  | None => true
  | Some f =>
    bool_decide (ft_cb ft = None) && bool_decide (f < next_fiber w) && bool_decide (f ∉ queued w) &&
    forallb (λ th, bool_decide (f ∉ hold th) ||
                   (bool_decide (fstate w !! f = Some EXEC) && bool_decide (f ≠ th_idle th))) (threads w)
  end.
Definition allowedb (w : world) (e : event) : bool :=
  match e with
  | EThread i => bool_decide (i < length (threads w))
  | EUser i a =>
    match th_pc <$> threads w !! i with
    | Some (PRun f k) =>
      match k with KIdle => false | _ => true end &&
      match a with
      | ASchedule ft => can_scheduleb w ft
      | AYieldToReady | AReturn | AThrow => bool_decide (f ∉ queued w)
      | ACreate | AYieldToHold => true
      end
    | _ => false
    end
  | ESchedule ft => can_scheduleb w ft
  | EStart ids => length ids =? m_threadCount (m_pool w)
  | EStopCall => negb (root_running w)
  | _ => true
  end.
Fixpoint run (es : list event) (w : world) : option world :=
  match es with
  | [] => Some w
  | e :: es =>
    if allowedb w e then match exec e w with Ret _ w' => run es w' | _ => None end else None
  end.

Lemma can_scheduleb_sound w ft : can_scheduleb w ft = true → can_schedule w ft.
Proof.
  unfold can_scheduleb, can_schedule. destruct (ft_fiber ft) as [f|]; [|done].
  intros [[[Hcb Hn]%andb_true_iff Hq]%andb_true_iff Hth]%andb_true_iff.
  apply bool_decide_eq_true in Hcb, Hn, Hq. repeat split; try done;
    rewrite forallb_forall in Hth; intros; specialize (Hth th);
    rewrite orb_true_iff, andb_true_iff, !bool_decide_eq_true in Hth;
    (destruct Hth as [?|[? ?]]; [|done..]); by eapply list_elem_of_In, list_elem_of_lookup_2.
Qed.
Lemma allowedb_sound w e : allowedb w e = true → allowed w e.
Proof.
  destruct e as [i|i a|ft|ids| | |mine| | | |thrs|]; cbn; try done.
  - by intros ?%bool_decide_eq_true.
  - unfold may. destruct (th_pc <$> threads w !! i) as [[| | |f k|?|?|?|]|]; try done.
    intros [Hk Ha]%andb_true_iff. split; [by destruct k|].
    destruct a; try done; [by apply can_scheduleb_sound|by apply bool_decide_eq_true in Ha..].
  - apply can_scheduleb_sound.
  - by intros ?%Nat.eqb_eq.
  - by intros ?%negb_true_iff.
Qed.
Lemma run_reachable es w w' : reachable w → run es w = Some w' → reachable w'.
Proof.
  revert w. induction es as [|e es IH]; intros w Hw; cbn; [by intros [= <-]|].
  destruct (allowedb w e) eqn:Ha; [|done]. destruct (exec e w) as [[] w1| |] eqn:He; try done.
  apply IH. by eapply reach_step; [|apply allowedb_sound|].
Qed.

(** ** Progress *)
Definition yields (a : action) : bool := match a with AYieldToHold => true | _ => false end.
Section progress.
Context (i : nat) (th : thread) (w : world) (Hi : threads w !! i = Some th).
Let to (p : pc) : world → world := set_threads (<[i := at_pc p th]> (threads w)).

Lemma scan_foreign me seen q1 q t :
  Forall (λ ft, foreign me ft = true) q1 →
  ∃ t', scan me (fstate w) seen (q1 ++ q) t w = scan me (fstate w) (seen ++ q1) q t' w.
Proof.
  revert seen t. induction q1 as [|it q1 IH]; intros seen t Hf; [exists t; by rewrite app_nil_r|].
  apply Forall_cons_1 in Hf as [Hit Hf]. cbn [scan app]. unfold foreign in Hit. rewrite Hit.
  destruct (IH (seen ++ [it]) true Hf) as [t' ->]. exists t'. by rewrite <- app_assoc.
Qed.
Lemma loop_take_eq q1 c thr q2 :
  th_pc th = PLoop → m_fibers w = q1 ++ mkFT None (Some c) thr :: q2 →
  Forall (λ ft, foreign (th_id th) ft = true) q1 → foreign (th_id th) (mkFT None (Some c) thr) = false →
  tstep i w = Ret tt (to (PGot (mkFT None (Some c) thr)) (set_active (S (m_activeThreadCount w)) (set_queue (q1 ++ q2) w))).
Proof.
  intros Hp Hq Hf Hm. unfold tstep. stepM (get_thread_eq _ _ _ Hi). rewrite Hp.
  rewrite (cbind_Ret cget _ w w w eq_refl), Hq.
  destruct (scan_foreign (th_id th) [] q1 (mkFT None (Some c) thr :: q2) false Hf) as [t' Hs].
  unfold foreign in Hm. cbn [scan ft_fiber ft_cb] in Hs. rewrite Hm in Hs.
  cbn -[scan] in Hs. stepM Hs. cbn -[goto]. by rewrite (goto_eq _ _ _ th).
Qed.
Lemma loop_none_eq : th_pc th = PLoop → m_fibers w = [] → tstep i w = Ret tt (to PNone w).
Proof.
  intros Hp Hq. unfold tstep. stepM (get_thread_eq _ _ _ Hi). rewrite Hp.
  rewrite (cbind_Ret cget _ w w w eq_refl), Hq. cbn -[goto]. by rewrite (goto_eq _ _ _ th).
Qed.
Lemma none_exit_eq :
  th_pc th = PNone → fstate w !! th_idle th = Some TERM → (∀ g, th_cb th = Some g → fstate w !! g = Some INIT) →
  tstep i w = Ret tt (to PExit (set_pool (root_done i (m_pool w)) w)).
Proof.
  intros Hp Hs Hcb. unfold tstep. stepM (get_thread_eq _ _ _ Hi). rewrite Hp.
  rewrite (getState_bind _ _ _ _ Hs). eval_states. by rewrite leave_run_eq.
Qed.
Lemma none_idle_eq s :
  th_pc th = PNone → fstate w !! th_idle th = Some s → s ≠ TERM → s ≠ EXEC →
  tstep i w = Ret tt (to (PRun (th_idle th) KIdle)
    (set_fstate (<[th_idle th := EXEC]> (fstate w)) (set_idle (S (m_idleThreadCount w)) w))).
Proof.
  intros Hp Hs Ht He. unfold tstep. stepM (get_thread_eq _ _ _ Hi). rewrite Hp.
  rewrite (getState_bind _ _ _ _ Hs).
  assert (is_state s [TERM] = false) as -> by (by destruct s).
  rewrite (cbind_Ret (cmodify _) _ w tt _ eq_refl).
  erewrite cbind_Ret; [|by apply (swapIn_eq (th_idle th) _ s)]. by rewrite (goto_eq _ _ _ th).
Qed.
Lemma idle_stop_eq f :
  th_pc th = PRun f KIdle → stopping w = true →
  tstep i w = Ret tt (to (PLeave f KIdle) (set_fstate (<[f := TERM]> (fstate w)) w)).
Proof.
  intros Hp Hs. unfold tstep. stepM (get_thread_eq _ _ _ Hi). rewrite Hp.
  rewrite (cbind_Ret cget _ w w w eq_refl), Hs. unfold setState.
  rewrite (cbind_Ret (cmodify _) _ w tt _ eq_refl). by rewrite (goto_eq _ _ _ th).
Qed.
Lemma return_eq f k :
  th_pc th = PRun f k →
  ustep i AReturn w = Ret tt (to (PLeave f k) (set_fstate (<[f := TERM]> (fstate w)) w)).
Proof.
  intros Hp. unfold ustep. stepM (get_thread_eq _ _ _ Hi). rewrite Hp. unfold setState.
  rewrite (cbind_Ret (cmodify _) _ w tt _ eq_refl). by rewrite (goto_eq _ _ _ th).
Qed.
Lemma leave_eq f k : th_pc th = PLeave f k → tstep i w = Ret tt (to (POut f k) w).
Proof.
  intros Hp. unfold tstep. stepM (get_thread_eq _ _ _ Hi). rewrite Hp. by rewrite (goto_eq _ _ _ th).
Qed.
Lemma out_eq f k :
  th_pc th = POut f k →
  tstep i w = Ret tt (to (PPost f k)
    match k with
    | KIdle => set_idle (m_idleThreadCount w - 1) w
    | _ => set_active (m_activeThreadCount w - 1) w
    end).
Proof.
  intros Hp. unfold tstep. stepM (get_thread_eq _ _ _ Hi). rewrite Hp. unfold leave_counter.
  rewrite (cbind_Ret (cmodify _) _ w tt _ eq_refl). rewrite (goto_eq _ _ _ th); by destruct k.
Qed.
(** A callback ends its turn: it returns, throws or yields to HOLD, and the
    thread goes back to the head of its loop. *)
Lemma end_turn_eq f a :
  th_pc th = PRun f KCb → a ∈ [AReturn; AThrow; AYieldToHold] → fstate w !! f = Some EXEC →
  ∃ s p, ustep i a w = Ret tt (to p (set_fstate (<[f := s]> (fstate w)) w)) ∧ s ∈ [TERM; EXCEPT; EXEC] ∧
    p = (if yields a then POut f KCb else PLeave f KCb).
Proof.
  intros Hp Ha Hs. unfold ustep. stepM (get_thread_eq _ _ _ Hi). rewrite Hp.
  assert (Hcases : a = AReturn ∨ a = AThrow ∨ a = AYieldToHold) by set_solver.
  destruct Hcases as [-> |[-> | ->]]; unfold setState, yield_state.
  - rewrite (cbind_Ret (cmodify _) _ w tt _ eq_refl), (goto_eq _ _ _ th) by done. eexists TERM, _. split; [done|]. set_solver.
  - rewrite (cbind_Ret (cmodify _) _ w tt _ eq_refl), (goto_eq _ _ _ th) by done. eexists EXCEPT, _. split; [done|]. set_solver.
  - rewrite (getState_bind _ _ _ _ Hs). eval_states.
    rewrite (cbind_Ret (cassert true) _ w tt w eq_refl), (cbind_Ret (cret tt) _ w tt w eq_refl).
    rewrite (goto_eq _ _ _ th) by done. eexists EXEC, _. rewrite insert_id by done.
    split; [by destruct w|]. set_solver.
Qed.
Lemma post_cb_eq f s :
  th_pc th = PPost f KCb → fstate w !! f = Some s → s ∈ [TERM; EXCEPT; EXEC] →
  ∃ w' th', tstep i w = Ret tt w' ∧ m_fibers w' = m_fibers w ∧ begun w' = begun w ∧
    threads w' !! i = Some th' ∧ th_pc th' = PLoop ∧ th_id th' = th_id th.
Proof.
  intros Hp Hs Hin. unfold tstep. stepM (get_thread_eq _ _ _ Hi). rewrite Hp. unfold settle.
  assert (Hlen : i < length (threads w)) by (by eapply lookup_lt_Some).
  rewrite cbind_assoc, (getState_bind _ _ _ _ Hs).
  assert (Hcases : s ∈ [TERM; EXCEPT] ∨ s = EXEC) by set_solver. destruct Hcases as [Hte| ->].
  - assert (is_state s [READY] = false) as -> by (apply bool_decide_eq_false; set_solver).
    assert (is_state s [EXCEPT; TERM] = true) as -> by (apply bool_decide_eq_true; set_solver).
    unfold Fiber_reset. rewrite cbind_assoc, (getState_bind _ _ _ _ Hs).
    assert (is_state s [TERM; EXCEPT; INIT] = true) as -> by (apply bool_decide_eq_true; set_solver).
    rewrite cbind_assoc. unfold setState.
    rewrite (cbind_Ret (cassert true) _ w tt w eq_refl), (cbind_Ret (cmodify _) _ w tt _ eq_refl).
    rewrite (goto_eq _ _ _ th) by done. eexists _, _. split; [done|]. cbn.
    by rewrite list_lookup_insert_eq.
  - eval_states. rewrite cbind_assoc. unfold setState. rewrite (cbind_Ret (cmodify _) _ w tt _ eq_refl).
    rewrite (set_cb_goto _ _ _ _ th) by done. eexists _, _. split; [done|]. cbn.
    by rewrite list_lookup_insert_eq.
Qed.
Lemma post_term_eq f k :
  th_pc th = PPost f k → fstate w !! f = Some TERM →
  tstep i w = Ret tt (to PLoop
    match k with KCb => set_fstate (<[f := INIT]> (fstate w)) w | _ => w end).
Proof.
  intros Hp Hs. unfold tstep. stepM (get_thread_eq _ _ _ Hi). rewrite Hp. unfold settle.
  rewrite cbind_assoc, (getState_bind _ _ _ _ Hs). destruct k; eval_states.
  - rewrite (cbind_Ret (cret tt) _ w tt w eq_refl). by rewrite (goto_eq _ _ _ th).
  - unfold Fiber_reset. rewrite cbind_assoc, (getState_bind _ _ _ _ Hs). eval_states.
    rewrite cbind_assoc. unfold setState.
    rewrite (cbind_Ret (cassert true) _ w tt w eq_refl), (cbind_Ret (cmodify _) _ w tt _ eq_refl).
    by rewrite (goto_eq _ _ _ th).
  - rewrite (cbind_Ret (cret tt) _ w tt w eq_refl). by rewrite (goto_eq _ _ _ th).
Qed.
End progress.

Definition callback (c : nat) : FiberAndThread := mkFT None (Some c) (-1).
(** Thread [i] takes a callback and runs it; the callback ends its turn by
    [a], and the thread is back at the head of the loop. *)
Definition cycle (i : nat) (a : action) : list event :=
  [EThread i; EThread i; EUser i a] ++ replicate (if yields a then 2 else 3) (EThread i).

Lemma queued_callbacks q : Forall (λ ft, ft_fiber ft = None) q → omap ft_fiber q = [].
Proof. induction 1 as [|ft q Hft _ IH]; [done|]. cbn. by rewrite Hft. Qed.

(** From the end of the callback's turn to the head of the loop. *)
Lemma turn_back w i th f s :
  Good w → threads w !! i = Some th → th_pc th = POut f KCb → fstate w !! f = Some s → s ∈ [TERM; EXCEPT; EXEC] →
  ∃ w' th', cfor (replicate 2 (EThread i)) exec w = Ret tt w' ∧ Good w' ∧ m_fibers w' = m_fibers w ∧
    begun w' = begun w ∧ threads w' !! i = Some th' ∧ th_pc th' = PLoop ∧ th_id th' = th_id th.
Proof.
  intros HG Hi Hp Hs Hin. cbn [replicate cfor exec].
  destruct (tstep_good w i _ HG Hi) as (w1 & H1 & HG1). stepM H1.
  rewrite (out_eq i _ w Hi f KCb Hp) in H1. injection H1 as <-.
  match type of HG1 with Good ?x => set (w1 := x) in * end.
  assert (Hi1 : threads w1 !! i = Some (at_pc (PPost f KCb) th)).
  { apply list_lookup_insert_eq. by eapply lookup_lt_Some. }
  destruct (tstep_good w1 i _ HG1 Hi1) as (w2 & H2 & HG2). stepM H2.
  destruct (post_cb_eq i _ w1 Hi1 f s eq_refl Hs Hin) as (w2' & th2 & H2' & Hq2 & Hb2 & Hi2 & Hp2 & Hid2).
  rewrite H2 in H2'. injection H2' as <-. by exists w2, th2.
Qed.

Lemma cycle_runs w i th q1 c thr q2 a :
  Good w → threads w !! i = Some th → th_pc th = PLoop → m_fibers w = q1 ++ mkFT None (Some c) thr :: q2 →
  Forall (λ ft, foreign (th_id th) ft = true) q1 → foreign (th_id th) (mkFT None (Some c) thr) = false →
  Forall (λ ft, ft_fiber ft = None) (q1 ++ q2) → a ∈ [AReturn; AThrow; AYieldToHold] →
  ∃ w' th', cfor (cycle i a) exec w = Ret tt w' ∧ Good w' ∧ threads w' !! i = Some th' ∧
    th_pc th' = PLoop ∧ th_id th' = th_id th ∧ m_fibers w' = q1 ++ q2 ∧ begun w' = begun w ++ [((c, thr), th_id th)].
Proof.
  intros HG Hi Hp Hq Hfo Hmi Hcbs Ha. assert (Hlen : i < length (threads w)) by (by eapply lookup_lt_Some).
  unfold cycle. cbn [cfor app exec].
  pose proof (loop_take_eq i th w Hi _ _ _ _ Hp Hq Hfo Hmi) as H1. stepM H1.
  assert (HG1 : Good (set_threads (<[i := at_pc (PGot (mkFT None (Some c) thr)) th]> (threads w))
     (set_active (S (m_activeThreadCount w)) (set_queue (q1 ++ q2) w)))).
  { apply (Good_take w i th q1 (mkFT None (Some c) thr) q2 HG Hi Hp Hq).
    unfold eligible, foreign in *. cbn in *. rewrite <- negb_orb in Hmi. apply negb_false_iff in Hmi. by rewrite Hmi. }
  match goal with |- context [set_threads ?a ?b] => set (w1 := set_threads a b) in * end.
  assert (Hi1 : threads w1 !! i = Some (at_pc (PGot (mkFT None (Some c) thr)) th)) by (by apply list_lookup_insert_eq).
  destruct (tstep_got_callback w1 i _ c thr HG1 Hi1 eq_refl) as (w2 & g & H2 & HG2 & Hq2 & Hb2 & Hi2).
  stepM H2. assert (Hlen2 : i < length (threads w2)) by (by eapply lookup_lt_Some).
  assert (Hex : fstate w2 !! g = Some EXEC) by exact (ok_pc _ _ (inv_threads _ (good_inv _ HG2) _ _ Hi2)).
  assert (Hmay : may w2 i a).
  { unfold may. rewrite Hi2. cbn. split; [done|]. unfold queued. rewrite Hq2. cbn.
    rewrite queued_callbacks by done.
    assert (Hcases : a = AReturn ∨ a = AThrow ∨ a = AYieldToHold) by set_solver.
    destruct Hcases as [-> |[-> | ->]]; try done; apply not_elem_of_nil. }
  destruct (ustep_good w2 i a HG2 Hmay) as (w3 & H3 & HG3). stepM H3.
  destruct (end_turn_eq i _ w2 Hi2 g a eq_refl Ha Hex) as (s & p & H3' & Hs & Hpe).
  rewrite H3 in H3'. injection H3' as ->.
  match type of HG3 with Good ?x => set (w3 := x) in * end.
  assert (Hi3 : threads w3 !! i = Some (mkThread (th_id th) p (Some g) (th_idle th))) by (by apply list_lookup_insert_eq).
  assert (Hs3 : fstate w3 !! g = Some s) by apply lookup_insert_eq.
  assert (Hfin : ∀ w4, Good w4 → threads w4 !! i = Some (mkThread (th_id th) (POut g KCb) (Some g) (th_idle th)) →
    fstate w4 !! g = Some s → m_fibers w4 = m_fibers w3 → begun w4 = begun w3 →
    ∃ w' th', cfor (replicate 2 (EThread i)) exec w4 = Ret tt w' ∧ Good w' ∧ threads w' !! i = Some th' ∧
      th_pc th' = PLoop ∧ th_id th' = th_id th ∧ m_fibers w' = q1 ++ q2 ∧ begun w' = begun w ++ [((c, thr), th_id th)]).
  { intros w4 HG4 Hi4 Hs4 Hq4 Hb4.
    destruct (turn_back w4 i _ g s HG4 Hi4 eq_refl Hs4 Hs) as (w5 & th5 & H5 & HG5 & Hq5 & Hb5 & Hi5 & Hp5 & Hid5).
    exists w5, th5. split_and!; try done; [rewrite Hq5, Hq4; exact Hq2|rewrite Hb5, Hb4; exact Hb2]. }
  destruct (yields a); subst p; [by apply Hfin|].
  change (replicate 3 (EThread i)) with (EThread i :: replicate 2 (EThread i)). cbn [cfor exec].
  destruct (tstep_good w3 i _ HG3 Hi3) as (w4 & H4 & HG4). stepM H4.
  rewrite (leave_eq i _ w3 Hi3 g KCb eq_refl) in H4. injection H4 as <-.
  apply Hfin; try done. apply list_lookup_insert_eq. by eapply lookup_lt_Some.
Qed.

(** The tasks thread [me] may take, and those of other threads. *)
Definition own_tasks (me : Z) (q : list FiberAndThread) : list FiberAndThread := filter (λ ft, foreign me ft = false) q.
Definition other_tasks (me : Z) (q : list FiberAndThread) : list FiberAndThread := filter (λ ft, foreign me ft = true) q.
Lemma first_own me q :
  (own_tasks me q = [] ∧ Forall (λ ft, foreign me ft = true) q) ∨
  ∃ q1 ft q2, q = q1 ++ ft :: q2 ∧ Forall (λ ft, foreign me ft = true) q1 ∧ foreign me ft = false ∧
    own_tasks me q = ft :: own_tasks me (q1 ++ q2) ∧ other_tasks me q = other_tasks me (q1 ++ q2).
Proof.
  unfold own_tasks, other_tasks. induction q as [|ft q IH]; [by left|]. destruct (foreign me ft) eqn:Hf.
  - destruct IH as [[He HF]|(q1 & g & q2 & -> & HF & Hg & Ho & Ht)].
    + left. rewrite filter_cons_False by congruence. split; [done|by constructor].
    + right. exists (ft :: q1), g, q2. cbn [app]. rewrite !(filter_cons_False (λ ft, foreign me ft = false) ft) by congruence.
      rewrite !(filter_cons_True (λ ft, foreign me ft = true) ft) by done. rewrite Ho, Ht.
      split_and!; try done. by constructor.
  - right. exists [], ft, q. cbn [app]. rewrite filter_cons_True by done. rewrite filter_cons_False by congruence. done.
Qed.

Lemma list_filter_all {A} (P : A → Prop) `{!∀ x, Decision (P x)} l : Forall P l → filter P l = l.
Proof. induction 1 as [|x l Hx _ IH]; [done|]. by rewrite filter_cons_True, IH. Qed.
Lemma drains w i th ends :
  Good w → threads w !! i = Some th → th_pc th = PLoop → Forall (λ ft, ft_fiber ft = None) (m_fibers w) →
  length ends = length (own_tasks (th_id th) (m_fibers w)) → Forall (.∈ [AReturn; AThrow; AYieldToHold]) ends →
  ∃ w' th', cfor (concat (cycle i <$> ends)) exec w = Ret tt w' ∧
    m_fibers w' = other_tasks (th_id th) (m_fibers w) ∧
    begun w' = begun w ++ ((λ x, (x, th_id th)) <$> (own_tasks (th_id th) (m_fibers w) ≫= request)) ∧
    threads w' !! i = Some th' ∧ th_pc th' = PLoop.
Proof.
  revert w th. induction ends as [|a ends IH]; intros w th HG Hi Hp Hcb Hl Hends.
  - destruct (first_own (th_id th) (m_fibers w)) as [[He HF]|(q1 & ft & q2 & _ & _ & _ & He & _)]; rewrite He in Hl; [|done].
    exists w, th. rewrite He. cbn. rewrite app_nil_r. unfold other_tasks. by rewrite list_filter_all.
  - destruct (first_own (th_id th) (m_fibers w)) as [[He HF]|(q1 & ft & q2 & Hq & HF & Hm & He & Ho)]; rewrite He in Hl; [done|].
    apply Forall_cons_1 in Hends as [Ha Hends].
    assert (Hok : task_ok ft). { eapply Forall_forall; [apply HG|]. rewrite Hq. set_solver. }
    assert (Hcb' : Forall (λ ft, ft_fiber ft = None) (q1 ++ q2) ∧ ft_fiber ft = None).
    { rewrite Hq, Forall_app, Forall_cons in Hcb. rewrite Forall_app. tauto. }
    destruct Hcb' as [Hcb' Hnf]. destruct ft as [f [c|] thr]; cbn in Hnf; subst f; [|by destruct Hok as [[[? ?] _]|[_ [? ?]]]].
    destruct (cycle_runs w i th q1 c thr q2 a HG Hi Hp Hq HF Hm Hcb' Ha) as (w1 & th1 & H1 & HG1 & Hi1 & Hp1 & Hid & Hq1 & Hb1).
    destruct (IH w1 th1 HG1 Hi1 Hp1) as (w2 & th2 & H2 & Hq2 & Hb2 & Hi2 & Hp2); [by rewrite Hq1| |done|].
    { rewrite Hid, Hq1. cbn in Hl. lia. }
    exists w2, th2. cbn [fmap list_fmap concat]. rewrite (cfor_app _ _ _ _ _ H1). split; [done|].
    rewrite Hq2, Hb2, Hid, Hq1, Hb1, He, Ho. split; [done|]. cbn. by rewrite <- app_assoc.
Qed.

Lemma stopping_inv w :
  stopping w = true ↔ m_autoStop w = true ∧ m_stopping w = true ∧ m_fibers w = [] ∧ m_activeThreadCount w = 0.
Proof. unfold stopping. rewrite !andb_true_iff, bool_decide_eq_true, Nat.eqb_eq. tauto. Qed.

(** From the point where it has found no task, to the end. *)
Lemma exits_none w i th s :
  threads w !! i = Some th → th_pc th = PNone → stopping w = true → fstate w !! th_idle th = Some s →
  s ≠ EXEC → s ≠ TERM → (∀ g, th_cb th = Some g → g ≠ th_idle th ∧ fstate w !! g = Some INIT) →
  ∃ w', cfor (replicate 7 (EThread i)) exec w = Ret tt w' ∧
    threads w' !! i = Some (at_pc PExit th) ∧ fstate w' !! th_idle th = Some TERM.
Proof.
  intros Hi Hp Hst Hs He Ht Hcb. assert (Hlen : i < length (threads w)) by (by eapply lookup_lt_Some).
  pose proof (proj1 (stopping_inv w) Hst) as (Hau & Hsg & Hq & Hac).
  assert (Hl : ∀ p w0, length (threads w0) = length (threads w) →
            threads (set_threads (<[i := at_pc p th]> (threads w0)) w0) !! i = Some (at_pc p th)).
  { intros p w0 Hl. apply list_lookup_insert_eq. by rewrite Hl. }
  cbn [replicate cfor exec].
  stepM (none_idle_eq i th w Hi s Hp Hs Ht He).
  match goal with |- context [set_threads ?a ?b] => set (w1 := set_threads a b) end.
  assert (Hi1 : threads w1 !! i = Some (at_pc (PRun (th_idle th) KIdle) th)) by (by apply list_lookup_insert_eq).
  assert (Hst1 : stopping w1 = true) by (by apply stopping_inv).
  stepM (idle_stop_eq i _ w1 Hi1 (th_idle th) eq_refl Hst1).
  match goal with |- context [set_threads ?a ?b] => set (w2 := set_threads a b) end.
  assert (Hi2 : threads w2 !! i = Some (at_pc (PLeave (th_idle th) KIdle) th)).
  { apply list_lookup_insert_eq. by eapply lookup_lt_Some. }
  stepM (leave_eq i _ w2 Hi2 (th_idle th) KIdle eq_refl).
  match goal with |- context [set_threads ?a ?b] => set (w3 := set_threads a b) end.
  assert (Hi3 : threads w3 !! i = Some (at_pc (POut (th_idle th) KIdle) th)).
  { apply list_lookup_insert_eq. by eapply lookup_lt_Some. }
  stepM (out_eq i _ w3 Hi3 (th_idle th) KIdle eq_refl).
  match goal with |- context [set_threads ?a ?b] => set (w4 := set_threads a b) end.
  assert (Hi4 : threads w4 !! i = Some (at_pc (PPost (th_idle th) KIdle) th)).
  { apply list_lookup_insert_eq. by eapply lookup_lt_Some. }
  assert (Ht4 : fstate w4 !! th_idle th = Some TERM) by apply lookup_insert_eq.
  stepM (post_term_eq i _ w4 Hi4 (th_idle th) KIdle eq_refl Ht4).
  match goal with |- context [set_threads ?a ?b] => set (w5 := set_threads a b) end.
  assert (Hi5 : threads w5 !! i = Some (at_pc PLoop th)).
  { apply list_lookup_insert_eq. by eapply lookup_lt_Some. }
  stepM (loop_none_eq i _ w5 Hi5 eq_refl Hq).
  match goal with |- context [set_threads ?a ?b] => set (w6 := set_threads a b) end.
  assert (Hi6 : threads w6 !! i = Some (at_pc PNone th)).
  { apply list_lookup_insert_eq. by eapply lookup_lt_Some. }
  assert (Hcb6 : ∀ g, th_cb th = Some g → fstate w6 !! g = Some INIT).
  { intros g Hg. destruct (Hcb g Hg) as [Hne Hin]. cbn. by rewrite !lookup_insert_ne by done. }
  stepM (none_exit_eq i _ w6 Hi6 eq_refl Ht4 Hcb6).
  eexists. split; [done|]. split; [|done]. apply list_lookup_insert_eq. by eapply lookup_lt_Some.
Qed.

(** C16: Callbacks are not stranded while a thread is free. A thread at the
    head of its loop, with a queue that holds callbacks only (no fibers) and
    callbacks that each end their turn at once, by returning, throwing or
    yielding to HOLD, starts in one pass, stepping alone, every callback that
    is for any thread or for this one, in the order they were scheduled; the
    callbacks bound to other threads stay in the queue in their order. Each
    takes five or six steps of the thread. *)
Theorem scheduler_drains (w : world) (Hw : reachable w) (i : nat) (th : thread) (ends : list action)
  (Hi : threads w !! i = Some th) (Hp : th_pc th = PLoop) (Hcb : Forall (λ ft, ft_fiber ft = None) (m_fibers w))
  (Hl : length ends = length (own_tasks (th_id th) (m_fibers w)))
  (Hends : Forall (.∈ [AReturn; AThrow; AYieldToHold]) ends) :
  ∃ w' th', cfor (concat (cycle i <$> ends)) exec w = Ret tt w' ∧
    m_fibers w' = other_tasks (th_id th) (m_fibers w) ∧
    begun w' = begun w ++ ((λ x, (x, th_id th)) <$> (own_tasks (th_id th) (m_fibers w) ≫= request)) ∧
    threads w' !! i = Some th' ∧ th_pc th' = PLoop.
Proof. eapply drains; try done. by apply reachable_good. Qed.

(** Once stopping() holds a thread leaves run(): from the head of its loop
    eight of its own steps take it out, through its idle fiber, which it
    leaves terminated; its callback fiber, if any, is then in the state the
    destructor of Fiber asks for. *)
Theorem scheduler_thread_exits (w : world) (Hw : reachable w) (i : nat) (th : thread)
  (Hi : threads w !! i = Some th) (Hp : th_pc th = PLoop) (Hs : stopping w = true) :
  ∃ w', cfor (replicate 8 (EThread i)) exec w = Ret tt w' ∧
    threads w' !! i = Some (at_pc PExit th) ∧ fstate w' !! th_idle th = Some TERM ∧
    ∀ g, th_cb th = Some g → fstate w !! g = Some INIT.
Proof.
  apply reachable_good in Hw as [HI _ _]. pose proof (inv_threads _ HI _ _ Hi) as Hok.
  assert (Hkind : ∀ j, on_kind j (th_pc th) = false) by (intros []; unfold on_kind; by rewrite Hp).
  assert (Hcb : ∀ g, th_cb th = Some g → fstate w !! g = Some INIT) by (intros g Hg; by apply Hok).
  assert (Hni : ∀ g, th_cb th = Some g → g ≠ th_idle th ∧ fstate w !! g = Some INIT).
  { intros g Hg. split; [|by apply Hcb]. intros ->. pose proof (ok_dup _ _ Hok) as Hnd.
    unfold hold in Hnd. rewrite Hg in Hnd. apply list.NoDup_cons in Hnd as [Hni _]. set_solver. }
  destruct (ok_idle _ _ Hok (Hkind _)) as (s & Hst & Hin).
  pose proof (proj1 (stopping_inv w) Hs) as (_ & _ & Hq & _).
  pose proof (loop_none_eq i th w Hi Hp Hq) as H1.
  match type of H1 with _ = Ret tt ?x => set (w1 := x) in * end.
  assert (Hi1 : threads w1 !! i = Some (at_pc PNone th)).
  { apply list_lookup_insert_eq. by eapply lookup_lt_Some. }
  change (replicate 8 (EThread i)) with (EThread i :: replicate 7 (EThread i)).
  cbn [cfor exec]. stepM H1.
  destruct (decide (s = TERM)) as [->|Hne].
  - pose proof (none_exit_eq i _ w1 Hi1 eq_refl Hst Hcb) as H2.
    match type of H2 with _ = Ret tt ?x => set (w2 := x) in * end.
    assert (Hi2 : threads w2 !! i = Some (at_pc PExit th)).
    { apply list_lookup_insert_eq. by eapply lookup_lt_Some. }
    assert (H3 : tstep i w2 = Ret tt w2) by (unfold tstep; by stepM (get_thread_eq _ _ _ Hi2)).
    exists w2. cbn [replicate cfor exec]. stepM H2. do 6 stepM H3. done.
  - destruct (exits_none w1 i _ s Hi1 eq_refl Hs Hst) as (w2 & H2 & Hi2 & Ht2); [by intros ->; set_solver|done|done|].
    by exists w2.
Qed.

Lemma cfor_fmap {S A B} (f : A → B) (l : list A) (body : B → M S unit) s :
  cfor (f <$> l) body s = cfor l (λ a, body (f a)) s.
Proof.
  revert s. induction l as [|a l IH]; intros s; [done|]. cbn. unfold cbind.
  destruct (body (f a) s); [apply IH|done..].
Qed.
Lemma schedule_range_eq l w :
  schedule_range l w = cfor ((λ ft, mkFT (ft_fiber ft) (ft_cb ft) (-1)) <$> l) schedule w.
Proof. by rewrite cfor_fmap. Qed.

(** switchTo moves a fiber to another thread: called by a fiber that runs
    on a different thread it puts the fiber in the queue, bound to that
    thread, and leaves it by YieldToHold, so that no thread takes it before
    its context is saved; called with -1 or the thread's own id it does
    nothing. *)
Theorem switchTo_moves (w : world) (Hw : reachable w) (i : nat) (th : thread) (f : nat) (k : kind) (thread : Z)
  (Hi : threads w !! i = Some th) (Hp : th_pc th = PRun f k) (Hk : k ≠ KIdle) (Hq : f ∉ queued w) :
  ∃ w', switchTo i thread w = Ret tt w' ∧ reachable w' ∧
    if ((thread =? -1) || (thread =? th_id th))%Z then w' = w
    else m_fibers w' = m_fibers w ++ [mkFT (Some f) None thread] ∧
         threads w' !! i = Some (at_pc (POut f k) th) ∧ fstate w' !! f = Some EXEC.
Proof.
  pose proof (reachable_good _ Hw) as [HI _ _]. pose proof (inv_threads _ HI _ _ Hi) as Hok.
  unfold switchTo. stepM (get_thread_eq _ _ _ Hi). rewrite Hp.
  destruct ((thread =? -1) || (thread =? th_id th))%Z; [by exists w|].
  assert (Hpc : fstate w !! f = Some EXEC) by (pose proof (ok_pc _ _ Hok) as Hx; by rewrite Hp in Hx).
  assert (Hon : on_cpu (th_pc th) = Some (f, k)) by (by rewrite Hp).
  assert (Hcan : can_schedule w (mkFT (Some f) None thread)).
  { cbn. split; [done|]. split; [apply HI; by rewrite Hpc|]. split; [done|].
    intros j thj Hj Hf. split; [done|].
    assert (j = i) as ->.
    { eapply (inv_disjoint _ HI j i thj th f); try done. by eapply on_cpu_hold. }
    assert (thj = th) as -> by congruence. intros ->.
    pose proof (ok_slot _ _ Hok _ _ Hon) as Hsl. pose proof (ok_dup _ _ Hok) as Hnd.
    unfold hold in Hnd. apply list.NoDup_cons in Hnd as [Hni _]. rewrite Hp in Hni.
    destruct k; cbn in *; [|rewrite Hsl in Hni|done]; set_solver. }
  assert (H1 : ustep i (ASchedule (mkFT (Some f) None thread)) w =
               Ret tt (set_queue (m_fibers w ++ [mkFT (Some f) None thread]) w)).
  { unfold ustep. stepM (get_thread_eq _ _ _ Hi). by rewrite Hp. }
  stepM H1. match type of H1 with _ = Ret tt ?x => set (w1 := x) in * end.
  assert (Hm1 : may w i (ASchedule (mkFT (Some f) None thread))) by (unfold may; rewrite Hi; cbn; by rewrite Hp).
  assert (Hr1 : reachable w1) by exact (reach_step w (EUser i _) w1 Hw Hm1 H1).
  assert (H2 : ustep i AYieldToHold w1 = Ret tt (set_threads (<[i := at_pc (POut f k) th]> (threads w1)) w1)).
  { unfold ustep. stepM (get_thread_eq i w1 th Hi). rewrite Hp. unfold yield_state.
    rewrite (getState_bind f EXEC w1 _ Hpc). eval_states.
    rewrite (cbind_Ret (cassert true) _ w1 tt w1 eq_refl), (cbind_Ret (cret tt) _ w1 tt w1 eq_refl).
    by rewrite (goto_eq _ _ _ th). }
  rewrite H2. eexists. split; [done|]. split.
  - refine (reach_step w1 (EUser i AYieldToHold) _ Hr1 _ H2). unfold allowed, may. cbn. rewrite Hi. cbn. by rewrite Hp.
  - split; [done|]. split; [|done]. apply list_lookup_insert_eq. by eapply lookup_lt_Some.
Qed.

(** Schedulers with two threads of their own, and with one and the calling
    thread. *)
Definition base : world := set_pool (mkWorkers RNone (-1) 2 []) Scheduler_init.
Lemma base_reachable : reachable base.
Proof. by apply (reach_new 2 false 7). Qed.
Definition base_caller : world := set_pool (mkWorkers RInit 7 1 []) Scheduler_init.
Lemma base_caller_reachable : reachable base_caller.
Proof. by apply (reach_new 2 true 7). Qed.
(** Two threads; a callback has begun on the first, one for the second
    waits. *)
Definition demo_events : list event :=
  [EStart [10; 11]%Z; ESchedule (callback 5); ESchedule (mkFT None (Some 6) 11); EThread 0; EThread 0].
Definition demo : world := default base (run demo_events base).
Lemma demo_reachable : reachable demo.
Proof. eapply (run_reachable demo_events); [apply base_reachable|]. vm_compute. reflexivity. Qed.
(** A callback runs on each of two threads; the second entry is the calling
    thread, inside stop(). *)
Definition twin_events : list event :=
  [EStart [11]%Z; ESchedule (callback 5); ESchedule (callback 6); EStopAuto; EStopCheck; EStopSignal true; EStopCall;
   EThread 1; EThread 1; EThread 0; EThread 0].
Definition twin : world := default base_caller (run twin_events base_caller).
Lemma twin_reachable : reachable twin.
Proof. eapply (run_reachable twin_events); [apply base_caller_reachable|]. vm_compute. reflexivity. Qed.
(** Two threads, four callbacks, one of them for the first thread, nothing
    done yet. *)
Definition full_events : list event :=
  [EStart [10; 11]%Z; ESchedule (callback 5); ESchedule (mkFT None (Some 8) 10); ESchedule (mkFT None (Some 6) 11);
   ESchedule (callback 7)].
Definition demo_full : world := default base (run full_events base).
Lemma demo_full_reachable : reachable demo_full.
Proof. eapply (run_reachable full_events); [apply base_reachable|]. vm_compute. reflexivity. Qed.
(** A callback has yielded with YieldToReady; stop() is called after the
    counter went down and before the fiber is back in the queue. *)
Definition window_events : list event :=
  [EStart [10; 11]%Z; ESchedule (callback 5); EThread 0; EThread 0; EUser 0 AYieldToReady; EThread 0; EThread 0;
   EStopAuto; EStopCheck; EStopSignal false].
Definition window : world := default base (run window_events base).
Lemma window_reachable : reachable window.
Proof. eapply (run_reachable window_events); [apply base_reachable|]. vm_compute. reflexivity. Qed.

Lemma scheduler_mutual_exclusion_witness : ∃ th th',
  threads twin !! 0 = Some th ∧ threads twin !! 1 = Some th' ∧
  on_cpu (th_pc th) = Some (3, KCb) ∧ on_cpu (th_pc th') = Some (2, KCb) ∧
  (∀ k', on_cpu (th_pc th') = Some (3, k') → 0 = 1) ∧ (∀ ft, th_pc th' = PGot ft → ft_fiber ft ≠ Some 3).
Proof.
  eexists _, _. split; [vm_compute; reflexivity|]. split; [vm_compute; reflexivity|].
  split; [reflexivity|]. split; [reflexivity|].
  eapply (scheduler_mutual_exclusion twin twin_reachable 0 1); vm_compute; reflexivity.
Defined.
Lemma scheduler_counters_witness :
  m_activeThreadCount demo = 1 ∧ m_activeThreadCount demo = sum_list_with busy (threads demo) ∧
  m_idleThreadCount demo = sum_list_with idling (threads demo) ∧
  m_activeThreadCount demo + m_idleThreadCount demo ≤ length (threads demo).
Proof. split; [vm_compute; reflexivity|]. exact (scheduler_counters demo demo_reachable). Defined.
Lemma scheduler_callbacks_once_witness :
  begun demo = [((5, (-1)%Z), 10%Z)] ∧ waiting (6, 11%Z) demo = 1 ∧
  count (6, 11%Z) (asked demo) = count (6, 11%Z) (fst <$> begun demo) + waiting (6, 11%Z) demo.
Proof.
  split; [vm_compute; reflexivity|]. split; [vm_compute; reflexivity|].
  exact (scheduler_callbacks_once demo demo_reachable (6, 11%Z)).
Defined.
Lemma scheduler_affinity_witness :
  begun demo = [((5, (-1)%Z), 10%Z)] ∧
  (∀ c thr id, ((c, thr), id) ∈ begun demo → thr = (-1)%Z ∨ thr = id) ∧
  (∀ i th ft, threads demo !! i = Some th → th_pc th = PGot ft →
     ft_thread ft = (-1)%Z ∨ ft_thread ft = th_id th).
Proof. split; [vm_compute; reflexivity|]. exact (scheduler_affinity demo demo_reachable). Defined.
Lemma stopping_quiescent_witness :
  stopping window = true ∧ m_fibers window = [] ∧
  ∀ i th, threads window !! i = Some th →
    (∀ ft, th_pc th ≠ PGot ft) ∧
    (∀ f k, on_cpu (th_pc th) = Some (f, k) → k ≠ KIdle → th_pc th = PPost f k).
Proof.
  split; [vm_compute; reflexivity|]. apply (stopping_quiescent window window_reachable). vm_compute. reflexivity.
Defined.
Lemma scan_takes_first_witness :
  m_fibers demo = [mkFT None (Some 6) 11] ∧
  match scan 10 (fstate demo) [] (m_fibers demo) false demo with
  | Ret (Some (ft, q), tickle_me) w' =>
    w' = demo ∧ ∃ q1 q2, m_fibers demo = q1 ++ ft :: q2 ∧ q = q1 ++ q2 ∧
      eligible 10 (fstate demo) ft = true ∧ Forall (λ ft, eligible 10 (fstate demo) ft = false) q1 ∧
      tickle_me = existsb (foreign 10) q1 || bool_decide (q2 ≠ [])
  | Ret (None, tickle_me) w' =>
    w' = demo ∧ Forall (λ ft, eligible 10 (fstate demo) ft = false) (m_fibers demo) ∧
      tickle_me = existsb (foreign 10) (m_fibers demo)
  | _ => False
  end.
Proof. split; [vm_compute; reflexivity|]. exact (scan_takes_first demo demo_reachable 10%Z). Defined.
Lemma scheduler_drains_witness : ∃ th w' th',
  threads demo_full !! 1 = Some th ∧ m_fibers demo_full = [callback 5; mkFT None (Some 8) 10; mkFT None (Some 6) 11; callback 7] ∧
  cfor (concat (cycle 1 <$> [AReturn; AYieldToHold; AThrow])) exec demo_full = Ret tt w' ∧
  m_fibers w' = [mkFT None (Some 8) 10] ∧
  begun w' = [((5, (-1)%Z), 11%Z); ((6, 11%Z), 11%Z); ((7, (-1)%Z), 11%Z)] ∧ threads w' !! 1 = Some th' ∧ th_pc th' = PLoop.
Proof.
  exists (mkThread 11 PLoop None 1).
  destruct (scheduler_drains demo_full demo_full_reachable 1 (mkThread 11 PLoop None 1) [AReturn; AYieldToHold; AThrow])
    as (w' & th' & Hr & Hq & Hb & Hi & Hp); [vm_compute; reflexivity|reflexivity| | | |].
  - vm_compute. repeat constructor.
  - vm_compute. reflexivity.
  - repeat (apply Forall_cons_2; [set_solver|]). apply Forall_nil_2.
  - exists w', th'. split; [vm_compute; reflexivity|]. split; [vm_compute; reflexivity|]. split; [exact Hr|].
    split; [rewrite Hq; vm_compute; reflexivity|]. split; [rewrite Hb; vm_compute; reflexivity|]. split; [exact Hi|exact Hp].
Defined.
Lemma scheduler_thread_exits_witness : ∃ th,
  threads window !! 1 = Some th ∧ th_pc th = PLoop ∧ stopping window = true ∧
  ∃ w', cfor (replicate 8 (EThread 1)) exec window = Ret tt w' ∧
    threads w' !! 1 = Some (at_pc PExit th) ∧ fstate w' !! th_idle th = Some TERM ∧
    ∀ g, th_cb th = Some g → fstate window !! g = Some INIT.
Proof.
  eexists. split; [vm_compute; reflexivity|]. split; [reflexivity|]. split; [vm_compute; reflexivity|].
  apply (scheduler_thread_exits window window_reachable 1); vm_compute; reflexivity.
Defined.
Lemma switchTo_moves_witness : ∃ th,
  threads demo !! 0 = Some th ∧ th_pc th = PRun 2 KCb ∧ KCb ≠ KIdle ∧ (2 ∉ queued demo) ∧
  ∃ w', switchTo 0 11 demo = Ret tt w' ∧ reachable w' ∧
    if ((11 =? -1) || (11 =? th_id th))%Z then w' = demo
    else m_fibers w' = m_fibers demo ++ [mkFT (Some 2) None 11] ∧
         threads w' !! 0 = Some (at_pc (POut 2 KCb) th) ∧ fstate w' !! 2 = Some EXEC.
Proof.
  assert (Hq : 2 ∉ queued demo) by (apply (bool_decide_unpack _); vm_compute; exact I).
  eexists. split; [vm_compute; reflexivity|]. split; [reflexivity|]. split; [discriminate|]. split; [exact Hq|].
  apply (switchTo_moves demo demo_reachable 0 _ 2 KCb 11%Z); [vm_compute; reflexivity|reflexivity|discriminate|exact Hq].
Defined.

(** The window of [stopping_quiescent] is real: stopping() holds although a
    fiber that has yielded to READY is about to be put back in the queue;
    the other thread may leave run() for good and the fiber is left to the
    thread that ran it. *)
Lemma stopping_too_early :
  reachable window ∧ stopping window = true ∧
  ∃ w', cfor (replicate 8 (EThread 1) ++ [EThread 0]) exec window = Ret tt w' ∧
    th_pc <$> threads w' = [PLoop; PExit] ∧ m_fibers w' = [mkFT (Some 2) None (-1)].
Proof.
  split; [apply window_reachable|]. split; [vm_compute; reflexivity|].
  eexists. split; [vm_compute; reflexivity|]. split; vm_compute; reflexivity.
Qed.

(** The condition on schedule is needed: a fiber put in the queue twice is
    taken by two threads, and the second to swap it in fails the assertion
    of swapIn. *)
Lemma double_schedule_aborts :
  ∃ w, cfor [EStart [10; 11]%Z; EThread 0; EThread 0; EUser 0 ACreate] exec base = Ret tt w ∧
    cfor [ESchedule (mkFT (Some 2) None (-1)); ESchedule (mkFT (Some 2) None (-1));
          EThread 0; EThread 0; EThread 0; EThread 0; EThread 1; EThread 0; EThread 1] exec w = Stuck AssertFailed.
Proof. eexists. split; vm_compute; reflexivity. Qed.

(** With use_caller a second stop() after more work was scheduled calls the
    root fiber again, which has ended: the code behind its last switch asserts
    false. *)
Definition stop_steps : list event := [EStopAuto; EStopCheck; EStopSignal true; EStopCall].
Definition twice_events : list event :=
  [EStart [11]%Z; ESchedule (callback 4)] ++ stop_steps ++ cycle 1 AReturn ++ replicate 8 (EThread 1) ++
  [EStopBack; ESchedule (callback 5); EStopAuto; EStopCheck; EStopSignal true].
Definition twice : world := default base_caller (run twice_events base_caller).
Lemma twice_reachable : reachable twice.
Proof. eapply (run_reachable twice_events); [apply base_caller_reachable|]. vm_compute. reflexivity. Qed.
Lemma second_stop_aborts :
  reachable twice ∧ m_fibers twice = [callback 5] ∧ exec EStopCall twice = Stuck AssertFailed.
Proof. split; [exact twice_reachable|]. split; vm_compute; reflexivity. Qed.
