(* ===== verification/Text.v ===== *)
(** * Strings (Sylar/util.cc, Sylar/util/hash_util.cc)

    The string utilities: searching, replacing, splitting and trimming, path
    names, URL encoding, hexadecimal and Base64 text. A std::string is a list
    of bytes, a position a number, npos is [None]. *)
From Stdlib Require Import ZArith Lia Strings.Byte.
From stdpp Require Import base list list_numbers numbers.
From S2P Require Import Prelude.

Local Open Scope Z_scope.
Local Open Scope nat_scope.
#[local] Open Scope byte_scope.

Abbreviation str := (list byte).

(** ** Searching, as std::string does *)
Fixpoint find_if (p : byte → bool) (s : str) : option nat :=
  match s with
  | [] => None
  | b :: s => if p b then Some 0 else S <$> find_if p s
  end.
Definition find_from (p : byte → bool) (pos : nat) (s : str) : option nat :=
  Nat.add pos <$> find_if p (drop pos s).
Fixpoint find_last (p : byte → bool) (s : str) : option nat :=
  match s with
  | [] => None
  | b :: s => match find_last p s with Some i => Some (S i) | None => if p b then Some 0 else None end
  end.
Fixpoint starts_with (pat s : str) : bool :=
  match pat, s with
  | [], _ => true
  | a :: pat, b :: s => bool_decide (a = b) && starts_with pat s
  | _ :: _, [] => false
  end.
Fixpoint find_str (pat s : str) : option nat :=
  if starts_with pat s then Some 0
  else match s with [] => None | _ :: s => S <$> find_str pat s end.
Definition find_str_from (pat : str) (pos : nat) (s : str) : option nat :=
  if pos <=? length s then Nat.add pos <$> find_str pat (drop pos s) else None.
Definition isc (c : byte) (b : byte) : bool := bool_decide (b = c).
Definition among (cs : str) (b : byte) : bool := bool_decide (b ∈ cs).

(** ** replace *)

(** The loops of the three overloads; [None] when the fuel runs out. *)
Fixpoint replace_char_loop (fuel : nat) (f r : byte) (s : str) (index : option nat) : option str :=
  match index with
  | None => Some s
  | Some i =>
    match fuel with
    | O => None
    | S fuel => let s := <[i := r]> s in replace_char_loop fuel f r s (find_from (isc f) (i + 1) s)
    end
  end.
Definition replace_char (fuel : nat) (s : str) (f r : byte) : option str :=
  replace_char_loop fuel f r s (find_from (isc f) 0 s).
Fixpoint replace_loop (fuel : nat) (find : nat → str → option nat) (n : nat) (r s : str) (index : option nat)
  : option str :=
  match index with
  | None => Some s
  | Some i =>
    match fuel with
    | O => None
    | S fuel =>
      let s := take i s ++ r ++ drop (i + n) s in
      replace_loop fuel find n r s (find (i + length r) s)
    end
  end.
Definition replace_char_by (fuel : nat) (s : str) (f : byte) (r : str) : option str :=
  replace_loop fuel (find_from (isc f)) 1 r s (find_from (isc f) 0 s).
Definition replace_str (fuel : nat) (s f r : str) : option str :=
  replace_loop fuel (find_str_from f) (length f) r s (find_str_from f 0 s).

(** ** split: [p] recognises the delimiters, [max] is a size_t *)
Fixpoint split_loop (fuel : nat) (p : byte → bool) (s : str) (max : Z) (last : nat) (pos : option nat)
  (result : list str) : option (list str) :=
  match pos with
  | None => Some (result ++ [drop last s])
  | Some pos =>
    match fuel with
    | O => None
    | S fuel =>
      let result := result ++ [take (pos - last) (drop last s)] in
      let last := pos + 1 in
      let max := u64 (max - 1) in
      if (max =? 1)%Z then Some (result ++ [drop last s])
      else split_loop fuel p s max last (find_from p last s) result
    end
  end.
Definition split (fuel : nat) (p : byte → bool) (s : str) (max : Z) : option (list str) :=
  match s with
  | [] => Some []
  | _ => split_loop fuel p s max 0 (find_from p 0 s) []
  end.

(** ** Trimming and path names *)
Definition Trim (s delimit : str) : str :=
  match find_if (λ b, negb (among delimit b)) s with
  | None => []
  | Some b =>
    match find_last (λ b, negb (among delimit b)) s with
    | Some e => take (e - b + 1) (drop b s)
    | None => drop b s
    end
  end.
Definition TrimLeft (s delimit : str) : str :=
  match find_if (λ b, negb (among delimit b)) s with None => [] | Some b => drop b s end.
Definition TrimRight (s delimit : str) : str :=
  match find_last (λ b, negb (among delimit b)) s with None => [] | Some e => take e s end.

Definition Dirname (s : str) : str :=
  match s with
  | [] => ["."]
  | _ => match find_last (isc "/") s with
         | Some 0 => ["/"]
         | None => ["."]
         | Some pos => take pos s
         end
  end.
Definition Basename (s : str) : str :=
  match s with
  | [] => []
  | _ => match find_last (isc "/") s with None => s | Some pos => drop (pos + 1) s end
  end.

(** ** URL encoding *)
Local Open Scope Z_scope.
Definition between (lo hi b : byte) : bool := (Z_of_byte lo <=? Z_of_byte b) && (Z_of_byte b <=? Z_of_byte hi).
(** The entries of uri_chars that are 1. *)
Definition unreserved (b : byte) : bool :=
  between "0" "9" b || between "A" "Z" b || between "a" "z" b || among ["-"; "."; "="; "_"; "~"] b.
Definition hexdigit_upper (n : Z) : byte :=
  byte_of_Z (if n <=? 9 then Z_of_byte "0" + n else Z_of_byte "A" + n - 10).
(** What one character adds to the result. *)
Definition url_char (space_as_plus : bool) (b : byte) : str :=
  if unreserved b then [b]
  else if bool_decide (b = " ") && space_as_plus then ["+"]
  else ["%"; hexdigit_upper (Z.shiftr (Z_of_byte b) 4); hexdigit_upper (Z.land (Z_of_byte b) 15)].
(** The loop of UrlEncode; [ss] is allocated at the first character that
    needs it, [done] the characters passed. *)
Fixpoint url_encode_loop (plus : bool) (done rest : str) (ss : option str) : option str :=
  match rest with
  | [] => ss
  | c :: rest =>
    let ss' :=
      if unreserved c then match ss with Some t => Some (t ++ [c]) | None => None end
      else Some (default done ss ++ url_char plus c) in
    url_encode_loop plus (done ++ [c]) rest ss'
  end.
Definition UrlEncode (s : str) (plus : bool) : str := default s (url_encode_loop plus [] s None).

Definition isxdigit (b : byte) : bool := between "0" "9" b || between "A" "F" b || between "a" "f" b.
(** xdigit_chars *)
Definition xdigit (b : byte) : Z :=
  if between "0" "9" b then Z_of_byte b - Z_of_byte "0"
  else if between "A" "F" b then Z_of_byte b - Z_of_byte "A" + 10
  else if between "a" "f" b then Z_of_byte b - Z_of_byte "a" + 10
  else 0.
Fixpoint url_decode_loop (plus : bool) (done rest : str) (ss : option str) : option str :=
  match rest with
  | [] => ss
  | c :: rest' =>
    if bool_decide (c = "+") && plus then url_decode_loop plus (done ++ [c]) rest' (Some (default done ss ++ [" "%byte]))
    else
      match rest' with
      | h :: l :: rest'' =>
        if bool_decide (c = "%") && isxdigit h && isxdigit l then
          url_decode_loop plus (done ++ [c; h; l]) rest''
            (Some (default done ss ++ [byte_of_Z (Z.lor (Z.shiftl (xdigit h) 4) (xdigit l))]))
        else url_decode_loop plus (done ++ [c]) rest' (match ss with Some t => Some (t ++ [c]) | None => None end)
      | _ => url_decode_loop plus (done ++ [c]) rest' (match ss with Some t => Some (t ++ [c]) | None => None end)
      end
  end.
Definition UrlDecode (s : str) (plus : bool) : str := default s (url_decode_loop plus [] s None).
Local Open Scope nat_scope.

(** ** Reference definitions *)
Definition subst_char (f r b : byte) : byte := if isc f b then r else b.
(** Leftmost, non-overlapping replacement; [skip] characters belong to the
    occurrence just replaced. *)
Fixpoint replace_ref (f r : str) (skip : nat) (s : str) : str :=
  match s with
  | [] => []
  | b :: s' =>
    match skip with
    | S k => replace_ref f r k s'
    | O => if starts_with f s then r ++ replace_ref f r (length f - 1) s' else b :: replace_ref f r 0 s'
    end
  end.
(** Cutting at the first [n] delimiters. *)
Fixpoint pieces (n : Z) (p : byte → bool) (s : str) : list str :=
  match s with
  | [] => [[]]
  | b :: s =>
    if p b && (0 <? n)%Z then [] :: pieces (n - 1) p s
    else match pieces n p s with x :: xs => (b :: x) :: xs | [] => [[b]] end
  end.
(** How many cuts a value of [max] allows: the count goes down before it is
    compared with 1. *)
Definition cuts (max : Z) : Z := if decide (max = 1%Z) then 2 ^ 64 else u64 (max - 1).
Fixpoint join (d : byte) (ps : list str) : str :=
  match ps with [] => [] | [x] => x | x :: ps => x ++ d :: join d ps end.
Fixpoint lstrip (p : byte → bool) (s : str) : str :=
  match s with [] => [] | b :: s' => if p b then lstrip p s' else s end.
Fixpoint rstrip (p : byte → bool) (s : str) : str :=
  match s with
  | [] => []
  | b :: s => match rstrip p s with [] => if p b then [] else [b] | t => b :: t end
  end.
(** strtol and strtoull read blanks, a sign and decimal digits; they clamp the
    value to their type afterwards. *)
Fixpoint strto_digits (s : str) (v : Z) : Z :=
  match s with
  | b :: s => if between "0" "9" b then strto_digits s (v * 10 + (Z_of_byte b - 48))%Z else v
  | [] => v
  end.
Definition isspace (b : byte) : bool := isc " " b || between "009" "013" b.
Definition strto (s : str) : bool * Z :=
  match lstrip isspace s with
  | b :: r => if isc "-" b then (true, strto_digits r 0) else if isc "+" b then (false, strto_digits r 0) else (false, strto_digits (b :: r) 0)
  | [] => (false, 0%Z)
  end.
Fixpoint url_decode_ref (plus : bool) (s : str) : str :=
  match s with
  | [] => []
  | c :: s' =>
    if bool_decide (c = "+") && plus then " " :: url_decode_ref plus s'
    else
      match s' with
      | h :: l :: s'' =>
        if bool_decide (c = "%") && isxdigit h && isxdigit l
        then byte_of_Z (Z.lor (Z.shiftl (xdigit h) 4) (xdigit l)) :: url_decode_ref plus s''
        else c :: url_decode_ref plus s'
      | _ => c :: url_decode_ref plus s'
      end
  end.

(** ** Searching *)
Lemma find_if_Some p s i :
  find_if p s = Some i → ∃ pre b suf, s = pre ++ b :: suf ∧ length pre = i ∧ p b = true ∧ Forall (λ b, p b = false) pre.
Proof.
  revert i. induction s as [|b s IH]; intros i Hf; cbn in Hf; [done|]. destruct (p b) eqn:Hb.
  - injection Hf as <-. by exists [], b, s.
  - apply fmap_Some in Hf as (j & Hj & ->). destruct (IH j Hj) as (pre & c & suf & -> & <- & Hc & Hpre).
    exists (b :: pre), c, suf. repeat split; try done. by constructor.
Qed.
Lemma find_if_None p s : find_if p s = None → Forall (λ b, p b = false) s.
Proof.
  induction s as [|b s IH]; intros Hf; cbn in Hf; [constructor|]. destruct (p b) eqn:Hb; [done|].
  constructor; [done|]. apply IH. by destruct (find_if p s).
Qed.
Lemma find_from_app p pre suf : find_from p (length pre) (pre ++ suf) = Nat.add (length pre) <$> find_if p suf.
Proof. unfold find_from. by rewrite drop_app_length. Qed.
Lemma isc_true c b : isc c b = true ↔ b = c.
Proof. apply bool_decide_eq_true. Qed.

Lemma subst_char_none f r s : Forall (λ b, isc f b = false) s → subst_char f r <$> s = s.
Proof. induction 1 as [|b s Hb _ IH]; [done|]. cbn. unfold subst_char at 1. by rewrite Hb, IH. Qed.
Lemma insert_middle (a c : str) x r : <[length a := r]> (a ++ x :: c) = a ++ r :: c.
Proof. induction a as [|y a IH]; [done|]. cbn. f_equal. apply IH. Qed.
Lemma replace_char_loop_spec fuel f r pre suf :
  length suf ≤ fuel →
  replace_char_loop fuel f r (pre ++ suf) (find_from (isc f) (length pre) (pre ++ suf)) =
  Some (pre ++ (subst_char f r <$> suf)).
Proof.
  revert pre suf. induction fuel as [|fuel IH]; intros pre suf Hlen; rewrite find_from_app;
    (destruct (find_if (isc f) suf) as [i|] eqn:Hf; cbn [fmap option_fmap option_map replace_char_loop];
     [|by rewrite subst_char_none by (by apply find_if_None)]);
    destruct (find_if_Some _ _ _ Hf) as (a & b & c & -> & <- & Hb & Ha).
  - rewrite length_app in Hlen. cbn in Hlen. lia.
  - rewrite length_app in Hlen. cbn in Hlen. apply isc_true in Hb as ->.
    replace (<[length pre + length a := r]> (pre ++ a ++ f :: c)) with ((pre ++ a ++ [r]) ++ c).
    2: { rewrite (app_assoc pre a (f :: c)), <- (length_app pre a), insert_middle. by rewrite <- !app_assoc. }
    replace (length pre + length a + 1) with (length (pre ++ a ++ [r])) by (rewrite !length_app; cbn; lia).
    rewrite IH by lia. rewrite fmap_app, (subst_char_none f r a) by done. cbn.
    assert (subst_char f r f = r) as -> by (unfold subst_char; by rewrite (proj2 (isc_true f f) eq_refl)).
    by rewrite <- !app_assoc.
Qed.

(** The two loops that put a string for what they find: at each turn the
    text before the index is final. *)
Lemma replace_loop_char fuel f r pre suf :
  length suf ≤ fuel →
  replace_loop fuel (find_from (isc f)) 1 r (pre ++ suf) (find_from (isc f) (length pre) (pre ++ suf)) =
  Some (pre ++ (suf ≫= λ b, if isc f b then r else [b])).
Proof.
  revert pre suf. induction fuel as [|fuel IH]; intros pre suf Hlen; rewrite find_from_app;
    (destruct (find_if (isc f) suf) as [i|] eqn:Hf; cbn [fmap option_fmap option_map replace_loop];
     [destruct (find_if_Some _ _ _ Hf) as (a & b & c & -> & <- & Hb & Ha);
      rewrite length_app in Hlen; cbn in Hlen|]).
  - lia.
  - f_equal. f_equal. apply find_if_None in Hf. clear Hlen.
    induction Hf as [|x s Hx _ IHs]; [done|]. cbn. rewrite Hx. cbn. by f_equal.
  - rewrite (app_assoc pre a), <- length_app, take_app_length.
    replace (drop (length (pre ++ a) + 1) ((pre ++ a) ++ b :: c)) with c.
    2: { rewrite drop_app_ge by lia. by replace (length (pre ++ a) + 1 - length (pre ++ a)) with 1 by lia. }
    rewrite (app_assoc _ r c).
    replace (length (pre ++ a) + length r) with (length ((pre ++ a) ++ r)) by (rewrite length_app; lia).
    rewrite IH by lia. rewrite bind_app. cbn. rewrite Hb.
    assert ((a ≫= λ b0, if isc f b0 then r else [b0]) = a) as ->.
    { clear -Ha. induction Ha as [|x s Hx _ IHs]; [done|]. cbn. rewrite Hx. cbn. by f_equal. }
    by rewrite <- !app_assoc.
  - f_equal. f_equal. apply find_if_None in Hf. clear Hlen.
    induction Hf as [|x s Hx _ IHs]; [done|]. cbn. rewrite Hx. cbn. by f_equal.
Qed.

Lemma starts_with_app pat s : starts_with pat (pat ++ s) = true.
Proof. induction pat as [|a pat IH]; [done|]. cbn. by rewrite bool_decide_true. Qed.
Lemma starts_with_inv pat s : starts_with pat s = true → ∃ t, s = pat ++ t.
Proof.
  revert s. induction pat as [|a pat IH]; intros s Hs; [by exists s|].
  destruct s as [|b s]; cbn in Hs; [done|].
  apply andb_true_iff in Hs as [->%bool_decide_eq_true [t ->]%IH]. by exists t.
Qed.
Lemma find_str_le pat s i : find_str pat s = Some i → ∃ a t, s = a ++ pat ++ t ∧ length a = i.
Proof.
  revert i. induction s as [|b s IH]; intros i; cbn [find_str].
  - destruct (starts_with pat []) eqn:Hs; [|done]. intros [= <-].
    destruct (starts_with_inv _ _ Hs) as [t Ht]. by exists [], t.
  - destruct (starts_with pat (b :: s)) eqn:Hs.
    + intros [= <-]. destruct (starts_with_inv _ _ Hs) as [t Ht]. by exists [], t.
    + intros (j & Hj & ->)%fmap_Some. destruct (IH _ Hj) as (a & t & -> & <-). by exists (b :: a), t.
Qed.
Lemma replace_ref_skip f r k s : replace_ref f r k s = replace_ref f r 0 (drop k s).
Proof. revert k. induction s as [|b s IH]; intros [|k]; try done. cbn. apply IH. Qed.
Lemma replace_ref_None f r s : f ≠ [] → find_str f s = None → replace_ref f r 0 s = s.
Proof.
  intros Hf. induction s as [|b s IH]; [done|]. cbn [find_str replace_ref].
  destruct (starts_with f (b :: s)); [done|]. intros Hn. f_equal. apply IH. by destruct (find_str f s).
Qed.
Lemma replace_ref_Some f r a s :
  f ≠ [] → find_str f (a ++ f ++ s) = Some (length a) →
  replace_ref f r 0 (a ++ f ++ s) = a ++ r ++ replace_ref f r 0 s.
Proof.
  intros Hf. induction a as [|x a IH].
  - destruct f as [|y f]; [done|]. intros _.
    change ([] ++ (y :: f) ++ s) with (y :: (f ++ s)). cbn [replace_ref].
    change (y :: f ++ s) with ((y :: f) ++ s). rewrite starts_with_app. cbn.
    rewrite replace_ref_skip. f_equal. f_equal. by rewrite Nat.sub_0_r, drop_app_length.
  - change ((x :: a) ++ f ++ s) with (x :: (a ++ f ++ s)). cbn [find_str replace_ref].
    destruct (starts_with f (x :: a ++ f ++ s)); [done|]. cbn. intros Hx.
    rewrite IH; [done|]. destruct (find_str f (a ++ f ++ s)); by simplify_eq/=.
Qed.
Lemma find_str_from_app pat pre suf :
  find_str_from pat (length pre) (pre ++ suf) = Nat.add (length pre) <$> find_str pat suf.
Proof.
  unfold find_str_from. rewrite drop_app_length, length_app.
  destruct (Nat.leb_spec (length pre) (length pre + length suf)); [done|lia].
Qed.
Lemma replace_loop_str fuel f r pre suf :
  f ≠ [] → length suf ≤ fuel →
  replace_loop fuel (find_str_from f) (length f) r (pre ++ suf) (find_str_from f (length pre) (pre ++ suf)) =
  Some (pre ++ replace_ref f r 0 suf).
Proof.
  intros Hne. revert pre suf. induction fuel as [|fuel IH]; intros pre suf Hlen; rewrite find_str_from_app;
    (destruct (find_str f suf) as [i|] eqn:Hf; cbn [fmap option_fmap option_map replace_loop];
     [destruct (find_str_le _ _ _ Hf) as (a & t & -> & <-); rewrite !length_app in Hlen|
      by rewrite replace_ref_None]); [destruct f; cbn in Hlen; [done|lia]|].
  rewrite (app_assoc pre a (f ++ t)), <- length_app, take_app_length.
  replace (drop (length (pre ++ a) + length f) ((pre ++ a) ++ f ++ t)) with t.
  2: { rewrite <- length_app, (app_assoc (pre ++ a) f t). by rewrite drop_app_length. }
  rewrite (app_assoc (pre ++ a) r t).
  replace (length (pre ++ a) + length r) with (length ((pre ++ a) ++ r)) by (rewrite length_app; lia).
  rewrite IH by (destruct f; cbn in Hlen; [done|lia]).
  rewrite replace_ref_Some by done. by rewrite <- !app_assoc.
Qed.

(** An empty pattern is found at every position. *)
Lemma find_str_nil s : find_str [] s = Some 0.
Proof. by destruct s. Qed.
Lemma replace_loop_nil fuel r s i :
  i ≤ length s → replace_loop fuel (find_str_from []) 0 r s (Some i) = None.
Proof.
  revert s i. induction fuel as [|fuel IH]; intros s i Hi; [done|]. cbn [replace_loop].
  assert (Hl : length (take i s ++ r ++ drop (i + 0) s) = length s + length r).
  { rewrite !length_app, length_take, length_drop. lia. }
  unfold find_str_from at 2. rewrite Hl.
  destruct (Nat.leb_spec (i + length r) (length s + length r)); [|lia].
  rewrite find_str_nil. cbn. apply IH. rewrite Hl. lia.
Qed.

(** The three overloads of replace do what their names say. Replacing a
    character by a character or a string maps the text; replacing a
    non-empty string replaces its leftmost, non-overlapping occurrences, and
    what was put in is not searched again. Each loop ends within as many
    turns as the text has characters. With an empty string to find the loop
    never ends. *)
Theorem replace_correct (s : str) (f r : byte) (pat rep : str) :
  replace_char (length s) s f r = Some (subst_char f r <$> s) ∧
  replace_char_by (length s) s f rep = Some (s ≫= λ b, if isc f b then rep else [b]) ∧
  (pat ≠ [] → replace_str (length s) s pat rep = Some (replace_ref pat rep 0 s)) ∧
  (∀ fuel, replace_str fuel s [] rep = None).
Proof.
  split_and!.
  - exact (replace_char_loop_spec (length s) f r [] s (le_n _)).
  - exact (replace_loop_char (length s) f rep [] s (le_n _)).
  - intros Hp. exact (replace_loop_str (length s) pat rep [] s Hp (le_n _)).
  - intros fuel. unfold replace_str, find_str_from. cbn. rewrite drop_0, find_str_nil. apply replace_loop_nil. lia.
Qed.

(** ** split *)
Lemma pieces_nonempty n p s : pieces n p s ≠ [].
Proof. destruct s as [|b s]; [done|]. cbn. destruct (_ && _); [done|]. by destruct (pieces n p s). Qed.
Lemma pieces_none n p s : Forall (λ b, p b = false) s → pieces n p s = [s].
Proof. induction 1 as [|b s Hb _ IH]; [done|]. cbn. by rewrite Hb, IH. Qed.
Lemma pieces_zero p s : pieces 0 p s = [s].
Proof. induction s as [|b s IH]; [done|]. cbn. rewrite andb_false_r. by rewrite IH. Qed.
Lemma pieces_cut n p a b s :
  (0 < n)%Z → p b = true → Forall (λ b, p b = false) a → pieces n p (a ++ b :: s) = a :: pieces (n - 1) p s.
Proof.
  intros Hn Hb. induction 1 as [|x a Hx _ IH].
  - cbn. rewrite Hb. by rewrite (proj2 (Z.ltb_lt 0 n) Hn).
  - cbn. rewrite Hx. cbn. cbn in IH. by rewrite IH.
Qed.

Lemma cuts_step m :
  in_u 64 m → (0 < cuts m)%Z ∧ in_u 64 (u64 (m - 1)) ∧
  (u64 (m - 1) = 1%Z → cuts m = 1%Z) ∧ (u64 (m - 1) ≠ 1%Z → cuts (u64 (m - 1)) = (cuts m - 1)%Z).
Proof.
  intros Hm. unfold in_u in *. assert (H64 : (2 ^ 64 = 18446744073709551616)%Z) by done.
  assert (Hdec : u64 (m - 1) = if decide (m = 0%Z) then (2 ^ 64 - 1)%Z else (m - 1)%Z).
  { destruct (decide (m = 0%Z)) as [->|]; [done|]. apply uwrap_id. unfold in_u. lia. }
  unfold cuts at 1 2 4. rewrite Hdec.
  destruct (decide (m = 1%Z)) as [E1|E1]; destruct (decide (m = 0%Z)) as [E0|E0]; try lia.
  - split_and!; try lia. intros _. unfold cuts. rewrite decide_False by lia.
    replace (m - 1 - 1)%Z with (-1)%Z by lia. done.
  - split_and!; try lia. intros _. unfold cuts. rewrite decide_False by lia.
    rewrite !uwrap_id by (unfold in_u; lia). lia.
  - split_and!; try lia. intros Hne. unfold cuts. rewrite decide_False by lia.
    rewrite uwrap_id by (unfold in_u; lia). lia.
Qed.

Lemma split_loop_spec fuel p max pre suf result :
  in_u 64 max → length suf ≤ fuel →
  split_loop fuel p (pre ++ suf) max (length pre) (find_from p (length pre) (pre ++ suf)) result =
  Some (result ++ pieces (cuts max) p suf).
Proof.
  revert max pre suf result. induction fuel as [|fuel IH]; intros max pre suf result Hm Hlen;
    rewrite find_from_app;
    (destruct (find_if p suf) as [i|] eqn:Hf; cbn [fmap option_fmap option_map split_loop];
     [destruct (find_if_Some _ _ _ Hf) as (a & b & c & -> & <- & Hb & Ha); rewrite length_app in Hlen; cbn in Hlen|
      by rewrite drop_app_length, pieces_none by (by apply find_if_None)]); [lia|].
  destruct (cuts_step max Hm) as (Hc & Hm' & H1 & H2).
  replace (length pre + length a - length pre) with (length a) by lia.
  rewrite drop_app_length, take_app_length, pieces_cut by done.
  replace (pre ++ a ++ b :: c) with ((pre ++ a ++ [b]) ++ c) by (by rewrite <- !app_assoc).
  replace (length pre + length a + 1) with (length (pre ++ a ++ [b])) by (rewrite !length_app; cbn; lia).
  destruct (Z.eqb_spec (u64 (max - 1)) 1) as [He|Hne].
  - rewrite drop_app_length, (H1 He), pieces_zero. by rewrite <- app_assoc.
  - rewrite IH by (done || lia). rewrite H2 by done. by rewrite <- app_assoc.
Qed.

Lemma pieces_join n d s : join d (pieces n (isc d) s) = s.
Proof.
  revert n. induction s as [|b s IH]; intros n; [done|]. cbn. destruct (isc d b) eqn:Hb; cbn.
  - destruct (0 <? n)%Z.
    + cbn. pose proof (pieces_nonempty (n - 1) (isc d) s) as Hne.
      destruct (pieces (n - 1) (isc d) s) eqn:Hp; [done|]. rewrite <- Hp, IH. apply isc_true in Hb as ->. done.
    + specialize (IH n). pose proof (pieces_nonempty n (isc d) s).
      destruct (pieces n (isc d) s) as [|x [|y xs]]; [done|..]; cbn in *; by rewrite IH.
  - specialize (IH n). pose proof (pieces_nonempty n (isc d) s).
    destruct (pieces n (isc d) s) as [|x [|y xs]]; [done|..]; cbn in *; by rewrite IH.
Qed.
Definition delimiters (p : byte → bool) (s : str) : nat := length (filter (λ b, p b = true) s).
Lemma delimiters_cons p b s : delimiters p (b :: s) = (if p b then 1 else 0) + delimiters p s.
Proof. unfold delimiters. rewrite list.filter_cons. by destruct (p b). Qed.
Lemma pieces_length n p s :
  (0 ≤ n)%Z → Z.of_nat (length (pieces n p s)) = (Z.min n (Z.of_nat (delimiters p s)) + 1)%Z.
Proof.
  revert n. induction s as [|b s IH]; intros n Hn; [unfold delimiters; cbn; lia|].
  rewrite delimiters_cons. cbn [pieces]. pose proof (pieces_nonempty n p s) as Hne.
  destruct (p b) eqn:Hb; cbn [andb].
  - destruct (Z.ltb_spec 0 n).
    + cbn [length]. rewrite Nat2Z.inj_succ, IH by lia. lia.
    + specialize (IH n Hn). destruct (pieces n p s); [done|]. cbn [length] in *. lia.
  - specialize (IH n Hn). destruct (pieces n p s); [done|]. cbn [length] in *. lia.
Qed.

(** split cuts a non-empty string at its delimiters, giving back the string
    when joined again; it ends within as many turns as the string has
    characters. A limit [max] of two or more bounds the number of pieces;
    with a limit of 1, which goes down to 0 before it is compared, the string
    is cut at every delimiter all the same. An empty string has no pieces. *)
Theorem split_correct (s : str) (d : byte) (p : byte → bool) (max : Z) (Hs : s ≠ []) (Hmax : in_u 64 max) :
  split (length s) p s max = Some (pieces (cuts max) p s) ∧
  (split (length s) (isc d) s max = Some (pieces (cuts max) (isc d) s) ∧ join d (pieces (cuts max) (isc d) s) = s) ∧
  ((2 ≤ max)%Z → (Z.of_nat (length (pieces (cuts max) p s)) ≤ max)%Z) ∧
  ((max = 1)%Z → (Z.of_nat (length s) < 2 ^ 64)%Z → length (pieces (cuts max) p s) = S (delimiters p s)) ∧
  split 0 p [] max = Some [].
Proof.
  assert (Hsplit : ∀ p, split (length s) p s max = Some (pieces (cuts max) p s)).
  { intros q. unfold split. destruct s as [|b s]; [done|].
    exact (split_loop_spec (length (b :: s)) q max [] (b :: s) [] Hmax (le_n _)). }
  destruct (cuts_step max Hmax) as (Hc & _). unfold in_u in Hmax.
  split_and!; try done.
  - apply pieces_join.
  - intros H2. rewrite pieces_length by lia.
    assert (cuts max = max - 1)%Z as ->; [|lia].
    unfold cuts. rewrite decide_False by lia. apply uwrap_id. unfold in_u. lia.
  - intros -> Hl. assert (Hd : delimiters p s ≤ length s) by apply length_filter.
    pose proof (pieces_length (cuts 1) p s ltac:(lia)) as Hx. unfold cuts in *.
    rewrite decide_True in * by done. lia.
Qed.

(** ** Trimming *)
Section strip.
Context (p : byte → bool).
Let keep (b : byte) : bool := negb (p b).

Lemma lstrip_app a s : Forall (λ b, p b = true) a → lstrip p (a ++ s) = lstrip p s.
Proof. induction 1 as [|x a Hx _ IH]; [done|]. cbn. by rewrite Hx. Qed.
Lemma find_keep s :
  match find_if keep s with
  | None => lstrip p s = []
  | Some i => lstrip p s = drop i s ∧ ∃ b t, drop i s = b :: t ∧ p b = false
  end.
Proof.
  induction s as [|b s IH]; [done|]. cbn. unfold keep at 1. destruct (p b) eqn:Hb; cbn; [|by eauto].
  by destruct (find_if keep s).
Qed.
Lemma rstrip_find s :
  match find_last keep s with
  | None => rstrip p s = []
  | Some e => rstrip p s = take (S e) s ∧ e < length s
  end.
Proof.
  induction s as [|b s IH]; [done|]. cbn. destruct (find_last keep s) as [e|] eqn:He.
  - destruct IH as [-> Hl]. destruct s as [|c s]; [cbn in Hl; lia|]. cbn. split; [done|]. cbn in Hl. lia.
  - rewrite IH. unfold keep. destruct (p b) eqn:Hb; cbn; [done|]. split; [done|lia].
Qed.
Lemma find_last_drop i s :
  i ≤ length s → find_last keep (drop i s) ≠ None →
  find_last keep s = Nat.add i <$> find_last keep (drop i s).
Proof.
  revert i. induction s as [|b s IH]; intros i Hi Hn; [destruct i; [done|cbn in Hi; lia]|].
  destruct i as [|i].
  - cbn [drop]. by destruct (find_last keep (b :: s)).
  - cbn [drop] in *. cbn. rewrite (IH i) by (cbn in Hi; lia || done). by destruct (find_last keep (drop i s)).
Qed.
Lemma find_last_head b t : p b = false → find_last keep (b :: t) ≠ None.
Proof. intros Hb. cbn. destruct (find_last keep t); [done|]. unfold keep. by rewrite Hb. Qed.
End strip.

(** Trim and TrimLeft remove exactly the delimiters at the ends and at the
    front. TrimRight removes the delimiters at the end and the last character
    that is none: what it should give is its result with that character put
    back. *)
Theorem trim_correct (s delimit : str) :
  Trim s delimit = rstrip (among delimit) (lstrip (among delimit) s) ∧
  TrimLeft s delimit = lstrip (among delimit) s ∧
  TrimRight s delimit = take (length (rstrip (among delimit) s) - 1) (rstrip (among delimit) s).
Proof.
  set (p := among delimit). pose proof (find_keep p s) as Hl. pose proof (rstrip_find p s) as Hr.
  unfold Trim, TrimLeft, TrimRight. fold p. split_and!.
  - destruct (find_if _ s) as [i|] eqn:Hi; [|by rewrite Hl].
    destruct Hl as (-> & b & t & Hd & Hb).
    pose proof (find_last_head p b t Hb) as Hn. rewrite <- Hd in Hn.
    assert (Hil : i ≤ length s).
    { destruct (Nat.le_gt_cases i (length s)); [done|]. rewrite drop_ge in Hd by lia. done. }
    rewrite (find_last_drop p i s Hil Hn).
    pose proof (rstrip_find p (drop i s)) as Hrd.
    destruct (find_last _ (drop i s)) as [e|]; [|done]. cbn. destruct Hrd as [-> _].
    by replace (i + e - i + 1) with (S e) by lia.
  - destruct (find_if _ s) as [i|]; [by destruct Hl|done].
  - destruct (find_last _ s) as [e|]; [|by rewrite Hr]. destruct Hr as [-> He].
    rewrite length_take, take_take. f_equal. lia.
Qed.

(** ** Path names *)
Lemma find_last_spec p s :
  match find_last p s with
  | None => Forall (λ b, p b = false) s
  | Some i => ∃ b, s = take i s ++ b :: drop (S i) s ∧ p b = true ∧ Forall (λ b, p b = false) (drop (S i) s)
  end.
Proof.
  induction s as [|b s IH]; [constructor|]. cbn. destruct (find_last p s) as [i|].
  - destruct IH as (c & Hc & Hp & Hf). exists c. cbn. split; [by rewrite Hc at 1|]. done.
  - destruct (p b) eqn:Hb; [by exists b|by constructor].
Qed.

(** Dirname and Basename take a path apart: the base name holds no slash,
    and the path is the directory, a slash and the base name; without a slash
    the directory is the current one, and for a file in the root directory it
    is the slash itself. *)
Theorem dirname_basename (s : str) :
  Forall (λ b, b ≠ "/") (Basename s) ∧
  ( (Forall (λ b, b ≠ "/") s ∧ Dirname s = ["."] ∧ Basename s = s) ∨
    (s = "/" :: Basename s ∧ Dirname s = ["/"]) ∨
    (s = Dirname s ++ "/" :: Basename s ∧ Dirname s ≠ [])).
Proof.
  pose proof (find_last_spec (isc "/") s) as Hf.
  assert (Hall : ∀ t, Forall (λ b, isc "/" b = false) t → Forall (λ b, b ≠ "/") t).
  { intros t. apply Forall_impl. intros b Hb ->. by rewrite (proj2 (isc_true "/" "/") eq_refl) in Hb. }
  unfold Dirname, Basename. destruct s as [|x s]; [split; [done|left; done]|].
  destruct (find_last (isc "/") (x :: s)) as [[|i]|].
  - destruct Hf as (b & Hb & ->%isc_true & Ha). split; [by apply Hall|]. right. left. split; [exact Hb|done].
  - destruct Hf as (b & Hb & ->%isc_true & Ha). rewrite Nat.add_1_r. split; [by apply Hall|].
    right. right. split; [exact Hb|done].
  - split; [by apply Hall|]. left. split; [by apply Hall|done].
Qed.

(** ** URL encoding *)
Lemma url_encode_loop_spec plus dn rest ss :
  default (default dn ss ++ rest) (url_encode_loop plus dn rest ss) = default dn ss ++ (rest ≫= url_char plus).
Proof.
  revert dn ss. induction rest as [|c rest IH]; intros dn ss.
  { destruct ss; cbn; by rewrite app_nil_r. }
  cbn [url_encode_loop]. change ((c :: rest) ≫= url_char plus) with (url_char plus c ++ (rest ≫= url_char plus)).
  destruct (unreserved c) eqn:Hc.
  - assert (Hu : url_char plus c = [c]) by (unfold url_char; by rewrite Hc). rewrite Hu.
    destruct ss as [t|].
    + specialize (IH (dn ++ [c]) (Some (t ++ [c]))). cbn in IH |- *. rewrite <- !app_assoc in IH. exact IH.
    + specialize (IH (dn ++ [c]) None). cbn in IH |- *. rewrite <- !app_assoc in IH. exact IH.
  - specialize (IH (dn ++ [c]) (Some (default dn ss ++ url_char plus c))). cbn in IH.
    rewrite <- !app_assoc in IH. rewrite <- IH. cbn.
    assert (Hs : ∀ d l t, url_encode_loop plus d l (Some t) ≠ None).
    { clear. intros d l. revert d. induction l as [|x l IHl]; intros d t; [done|]. cbn. destruct (unreserved x); apply IHl. }
    destruct (url_encode_loop plus (dn ++ [c]) rest _) eqn:E; [done|]. by apply Hs in E.
Qed.
Lemma UrlEncode_spec s plus : UrlEncode s plus = s ≫= url_char plus.
Proof. exact (url_encode_loop_spec plus [] s None). Qed.

Lemma url_decode_loop_spec plus n rest : length rest ≤ n → ∀ dn ss,
  default (default dn ss ++ rest) (url_decode_loop plus dn rest ss) = default dn ss ++ url_decode_ref plus rest.
Proof.
  assert (Hs : ∀ n l, length l ≤ n → ∀ d t, url_decode_loop plus d l (Some t) ≠ None).
  { clear. induction n as [|n IHn]; intros [|x l] Hl d t; try done; [cbn in Hl; lia|].
    cbn in Hl. cbn. destruct (_ && plus); [apply IHn; lia|].
    destruct l as [|h [|l l']]; try (apply IHn; cbn in *; lia).
    destruct (_ && _ && _); apply IHn; cbn in *; lia. }
  revert rest. induction n as [|n IH]; intros rest Hl dn ss.
  { destruct rest; [|cbn in Hl; lia]. destruct ss; cbn; by rewrite app_nil_r. }
  destruct rest as [|c rest]; [destruct ss; cbn; by rewrite app_nil_r|]. cbn in Hl.
  assert (Hkeep : default (default dn ss ++ c :: rest)
      (url_decode_loop plus (dn ++ [c]) rest (match ss with Some t => Some (t ++ [c]) | None => None end)) =
      default dn ss ++ c :: url_decode_ref plus rest).
  { specialize (IH rest ltac:(lia) (dn ++ [c]) (match ss with Some t => Some (t ++ [c]) | None => None end)).
    destruct ss as [t|]; cbn in IH |- *; rewrite <- !app_assoc in IH; exact IH. }
  assert (Hput : ∀ dn' rest' x, length rest' ≤ n →
    default (default dn ss ++ c :: rest) (url_decode_loop plus dn' rest' (Some (default dn ss ++ [x]))) =
    default dn ss ++ x :: url_decode_ref plus rest').
  { intros dn' rest' x Hl'. specialize (IH rest' Hl' dn' (Some (default dn ss ++ [x]))). cbn in IH.
    rewrite <- !app_assoc in IH. cbn in IH. rewrite <- IH.
    destruct (url_decode_loop plus dn' rest' _) eqn:E; [done|]. by apply (Hs _ _ (le_n _)) in E. }
  cbn [url_decode_loop url_decode_ref]. destruct (_ && plus); [apply Hput; lia|].
  destruct rest as [|h [|l rest]]; [exact Hkeep|exact Hkeep|].
  destruct (_ && _ && _); [|exact Hkeep]. apply Hput. cbn in Hl. lia.
Qed.
Lemma UrlDecode_spec s plus : UrlDecode s plus = url_decode_ref plus s.
Proof. exact (url_decode_loop_spec plus (length s) s (le_n _) [] None). Qed.

(** Each escape decodes to the character it stands for. *)
Lemma escape_decodes b :
  let h := hexdigit_upper (Z.shiftr (Z_of_byte b) 4) in
  let l := hexdigit_upper (Z.land (Z_of_byte b) 15) in
  isxdigit h && isxdigit l = true ∧ byte_of_Z (Z.lor (Z.shiftl (xdigit h) 4) (xdigit l)) = b.
Proof. destruct b; vm_compute; done. Qed.
Lemma unreserved_plain b : unreserved b = true → b ≠ "+" ∧ b ≠ "%".
Proof. destruct b; vm_compute; (discriminate || done). Qed.

Lemma url_char_decodes (p q : bool) b s :
  (p = true → q = true) → url_decode_ref q (url_char p b ++ s) = b :: url_decode_ref q s.
Proof.
  intros Hpq. unfold url_char. destruct (unreserved b) eqn:Hu.
  - apply unreserved_plain in Hu as [H1 H2]. cbn [app url_decode_ref]. rewrite (bool_decide_false (b = "+")) by done. cbn [andb].
    rewrite (bool_decide_false (b = "%")) by done. by destruct s as [|h [|l s]].
  - destruct (bool_decide (b = " ") && p) eqn:Hb.
    + apply andb_true_iff in Hb as [->%bool_decide_eq_true ->]. cbn. by rewrite Hpq.
    + destruct (escape_decodes b) as [Hx Hd]. cbv zeta in Hx, Hd.
      cbn [app url_decode_ref]. rewrite (bool_decide_false ("%" = "+")) by done.
      cbn [andb]. rewrite (bool_decide_true ("%" = "%")) by done. cbn [andb].
      by rewrite Hx, Hd.
Qed.

(** URL decoding undoes URL encoding for every string of bytes, whether
    the encoder writes a space as a plus sign or as an escape, as long as the
    decoder reads plus signs as spaces when the encoder writes them; and the
    encoded text holds only unreserved characters, plus signs and
    escapes. *)
Theorem url_roundtrip (s : str) (p q : bool) (Hpq : p = true → q = true) :
  UrlDecode (UrlEncode s p) q = s ∧
  Forall (λ b, unreserved b = true ∨ b = "+" ∨ b = "%") (UrlEncode s p).
Proof.
  rewrite UrlDecode_spec, UrlEncode_spec. split.
  - induction s as [|b s IH]; [done|]. change ((b :: s) ≫= url_char p) with (url_char p b ++ (s ≫= url_char p)).
    by rewrite url_char_decodes, IH.
  - apply Forall_bind. apply Forall_true. intros b. unfold compose, url_char.
    destruct (unreserved b) eqn:Hu; [repeat (constructor; auto)|].
    destruct (_ && p); [repeat (constructor; auto)|].
    assert (Hx : unreserved (hexdigit_upper (Z.shiftr (Z_of_byte b) 4)) = true ∧
                 unreserved (hexdigit_upper (Z.land (Z_of_byte b) 15)) = true).
    { clear. destruct b; vm_compute; done. }
    destruct Hx. repeat (constructor; auto).
Qed.

(** ** Witnesses *)
Lemma replace_correct_witness :
  ["/"; "/"] ≠ [] ∧ replace_str 5 ["a"; "/"; "/"; "/"; "b"] ["/"; "/"] ["-"] = Some ["a"; "-"; "/"; "b"] ∧
  (["/"; "/"] ≠ [] → replace_str (length ["a"; "/"; "/"; "/"; "b"]) ["a"; "/"; "/"; "/"; "b"] ["/"; "/"] ["-"] =
     Some (replace_ref ["/"; "/"] ["-"] 0 ["a"; "/"; "/"; "/"; "b"])).
Proof.
  split; [discriminate|]. split; [vm_compute; reflexivity|].
  exact (proj1 (proj2 (proj2 (replace_correct ["a"; "/"; "/"; "/"; "b"] "a" "b" ["/"; "/"] ["-"])))).
Defined.
Lemma split_correct_witness :
  ["a"; ","; "b"; ","; "c"] ≠ [] ∧ in_u 64 1 ∧
  split 5 (isc ",") ["a"; ","; "b"; ","; "c"] 1 = Some [["a"]; ["b"]; ["c"]] ∧
  split (length ["a"; ","; "b"; ","; "c"]) (isc ",") ["a"; ","; "b"; ","; "c"] 1 =
    Some (pieces (cuts 1) (isc ",") ["a"; ","; "b"; ","; "c"]).
Proof.
  assert (H1 : in_u 64 1) by (unfold in_u; lia).
  split; [discriminate|]. split; [exact H1|]. split; [vm_compute; reflexivity|].
  apply (split_correct ["a"; ","; "b"; ","; "c"] "," (isc ",") 1); [discriminate|exact H1].
Defined.
Lemma url_roundtrip_witness :
  UrlEncode ["a"; " "; "+"] true = ["a"; "+"; "%"; "2"; "B"] ∧ (true = true → true = true) ∧
  UrlDecode (UrlEncode ["a"; " "; "+"] true) true = ["a"; " "; "+"] ∧
  Forall (λ b, unreserved b = true ∨ b = "+" ∨ b = "%") (UrlEncode ["a"; " "; "+"] true).
Proof.
  split; [vm_compute; reflexivity|]. split; [trivial|].
  apply (url_roundtrip ["a"; " "; "+"] true true). trivial.
Defined.
(** TrimRight drops the last character of a string without delimiters. *)
Example TrimRight_drops : TrimRight ["a"; "b"] [" "] = ["a"].
Proof. reflexivity. Qed.
