(* ===== verification/Encoding.v ===== *)
(** * Encodings and hashes (Sylar/util/hash_util.cc)

    Base64 and hexadecimal text, the MurmurHash3 and multiplicative hashes
    used for keys, HMAC over a digest that is a parameter, and random
    strings over a parameter for rand(). *)
From Stdlib Require Import ZArith Lia Strings.Byte Strings.String.
From stdpp Require Import base list list_numbers numbers.
From S2P Require Import Prelude Text.

#[local] Open Scope byte_scope.
Local Open Scope Z_scope.

(** ** Base64 *)
Definition base64_chars : str :=
  list_byte_of_string "ABCDEFGHIJKLMNOPQRSTUVWXYZabcdefghijklmnopqrstuvwxyz0123456789+/"%string.
(** base64[i] *)
Definition b64_char (i : Z) : byte := default x00 (base64_chars !! Z.to_nat i).
(** The value of a character in base64decode, [None] for an invalid one. *)
Definition b64_value (c : byte) : option Z :=
  if between "A" "Z" c then Some (Z_of_byte c - Z_of_byte "A")
  else if between "a" "z" c then Some (Z_of_byte c - Z_of_byte "a" + 26)
  else if between "0" "9" c then Some (Z_of_byte c - Z_of_byte "0" + 52)
  else if bool_decide (c = "+") then Some 62
  else if bool_decide (c = "/") then Some 63
  else None.

(** The inner loop of base64decode, [k] characters left of the group: [None]
    where the function returns the empty string at once. *)
Fixpoint b64_group (k : nat) (ptr : str) (padding packed : Z) : option (nat * Z * Z * str) :=
  match k, ptr with
  | S k', c :: ptr' =>
    if bool_decide (c = "=") then b64_group k' ptr' (padding + 1) (Z.shiftl packed 6)
    else if 0 <? padding then None
    else match b64_value c with
         | None => None
         | Some val => b64_group k' ptr' padding (Z.lor (Z.shiftl packed 6) val)
         end
  | _, _ => Some ((4 - k)%nat, padding, packed, ptr)
  end.
Fixpoint base64decode_loop (fuel : nat) (ptr out : str) : option str :=
  match ptr with
  | [] => Some out
  | _ =>
    match fuel with
    | O => None
    | S fuel =>
      match b64_group 4 ptr 0 0 with
      | None => Some []
      | Some (i, padding, packed, ptr) =>
        if negb (bool_decide (i = 4%nat)) then Some []
        else if (0 <? padding) && negb (bool_decide (ptr = [])) then Some []
        else if 2 <? padding then Some []
        else
          let out := out ++ [byte_of_Z (Z.land (Z.shiftr packed 16) 255)] in
          let out := if negb (padding =? 2) then out ++ [byte_of_Z (Z.land (Z.shiftr packed 8) 255)] else out in
          let out := if padding =? 0 then out ++ [byte_of_Z (Z.land packed 255)] else out in
          base64decode_loop fuel ptr out
      end
    end
  end.
Definition base64decode (src : str) : option str := base64decode_loop (length src) src [].

(** The inner loop of base64encode: at most [k] bytes into [packed], and how
    many were missing. *)
Fixpoint b64_pack (k : nat) (ptr : str) (packed : Z) : nat * Z * str :=
  match k, ptr with
  | S k', c :: ptr' => b64_pack k' ptr' (u32 (Z.lor (Z.shiftl packed 8) (Z_of_byte c)))
  | _, _ => (k, packed, ptr)
  end.
Fixpoint base64encode_loop (fuel : nat) (ptr ret : str) : option str :=
  match ptr with
  | [] => Some ret
  | _ =>
    match fuel with
    | O => None
    | S fuel =>
      let '(padding, packed, ptr) := b64_pack 3 ptr 0 in
      let packed := u32 (Z.shiftl packed (8 * Z.of_nat padding)) in
      let ret := ret ++ [b64_char (Z.shiftr packed 18); b64_char (Z.land (Z.shiftr packed 12) 63)] in
      let ret := if negb (bool_decide (padding = 2%nat)) then ret ++ [b64_char (Z.land (Z.shiftr packed 6) 63)] else ret in
      let ret := if bool_decide (padding = 0%nat) then ret ++ [b64_char (Z.land packed 63)] else ret in
      base64encode_loop fuel ptr (ret ++ replicate padding "=")
    end
  end.
Definition base64encode (data : str) : option str := base64encode_loop (length data) data [].

(** ** Hexadecimal *)
Definition hexdigit (c : Z) : byte := byte_of_Z (if 9 <? c then c + Z_of_byte "a" - 10 else c + Z_of_byte "0").
Fixpoint hexstring_from_data (data : str) : str :=
  match data with
  | [] => []
  | b :: data =>
    hexdigit (Z.land (Z.shiftr (Z_of_byte b) 4) 15) :: hexdigit (Z.land (Z_of_byte b) 15) :: hexstring_from_data data
  end.
(** The two switches: the digit, [None] in the default case. *)
Definition hex_value (c : byte) : option Z :=
  if between "a" "f" c then Some (Z_of_byte c - Z_of_byte "a" + 10)
  else if between "A" "F" c then Some (Z_of_byte c - Z_of_byte "A" + 10)
  else if between "0" "9" c then Some (Z_of_byte c - Z_of_byte "0")
  else None.
Fixpoint hex_loop (s : str) : exn + str :=
  match s with
  | h :: l :: s =>
    match hex_value h with
    | None => inl LogicError
    | Some hv =>
      match hex_value l with
      | None => inl LogicError
      | Some lv =>
        match hex_loop s with
        | inl e => inl e
        | inr out => inr (byte_of_Z (Z.lor (u8 (Z.shiftl hv 4)) lv) :: out)
        end
      end
    end
  | _ => inr []
  end.
Definition data_from_hexstring (s : str) : exn + str :=
  if Nat.odd (length s) then inl LogicError
  else match s with [] => inr [] | _ => hex_loop s end.

(** ** Hashes *)
Definition ROTL (x r : Z) : Z := u32 (Z.lor (Z.shiftl x r) (Z.shiftr x (32 - r))).
Definition fmix32 (h : Z) : Z :=
  let h := Z.lxor h (Z.shiftr h 16) in
  let h := u32 (h * 0x85ebca6b) in
  let h := Z.lxor h (Z.shiftr h 13) in
  let h := u32 (h * 0xc2b2ae35) in
  Z.lxor h (Z.shiftr h 16).
Definition seed1 : Z := 0xcc9e2d51.
Definition seed2 : Z := 0x1b873593.
Definition mix_k (s : Z) : Z := u32 (ROTL (u32 (s * seed1)) 15 * seed2).
Definition mix_h (h s : Z) : Z := u32 (u32 (ROTL (Z.lxor h (mix_k s)) 13 * 5) + 0xe6546b64).
(** ptr[i], a little-endian word; [None] past the end of the data. *)
Definition word_at (data : str) (i : nat) : option Z :=
  if (4 * i + 4 <=? length data)%nat then Some (le_value (take 4 (drop (4 * i) data))) else None.
(** for(i = 0; i < blk; i++), [n] turns from block [i] *)
Fixpoint murmur_blocks (data : str) (n i : nat) (h : Z) : option Z :=
  match n with
  | O => Some h
  | S n => s ← word_at data i; murmur_blocks data n (S i) (mix_h h s)
  end.
(** The switch over len & 3, which falls through. *)
Definition murmur_tail (tail : str) (rest : nat) (h : Z) : option Z :=
  match rest with
  | O => Some h
  | _ =>
    s2 ← (if (3 <=? rest)%nat then b ← tail !! 2%nat; Some (Z.shiftl (Z_of_byte b) 16) else Some 0);
    s1 ← (if (2 <=? rest)%nat then b ← tail !! 1%nat; Some (Z.lor s2 (Z.shiftl (Z_of_byte b) 8)) else Some s2);
    b ← tail !! 0%nat;
    Some (Z.lxor h (mix_k (Z.lor s1 (Z_of_byte b))))
  end.
(** murmur3_hash(data, size, seed) for a size below 2^31; [data] null gives
    0. A size past the data is an access out of bounds. *)
Definition murmur3_hash (data : option str) (size : nat) (seed : Z) : option Z :=
  match data with
  | None => Some 0
  | Some data =>
    let blk := (size / 4)%nat in
    h ← murmur_blocks data blk 0 seed;
    h ← murmur_tail (drop (blk * 4) data) (size mod 4)%nat h;
    Some (fmix32 (Z.lxor h (Z.of_nat size)))
  end.
(** murmur3_hash(str, seed): up to the terminating zero. *)
Definition c_str (data : str) : str := match find_if (isc x00) data with Some i => take i data | None => data end.
Definition murmur3_hash_str (data : option str) (seed : Z) : option Z :=
  match data with None => Some 0 | Some data => murmur3_hash (Some (c_str data)) (length (c_str data)) seed end.
Definition murmur3_hash64 (data : option str) (size : nat) (s1 s2 : Z) : option Z :=
  a ← murmur3_hash data size s1; b ← murmur3_hash data size s2; Some (Z.lor (Z.shiftl a 32) b).

(** quick_hash(str); a char is signed. *)
Definition quick_step (h : Z) (c : byte) : Z := u32 (31 * h + i8 (Z_of_byte c)).
Definition quick_hash (data : str) : Z := fold_left quick_step (c_str data) 0.
(** quick_hash(tmp, size): the pointer is not advanced. *)
Fixpoint quick_hash_loop (n : nat) (c : byte) (h : Z) : Z :=
  match n with O => h | S n => quick_hash_loop n c (quick_step h c) end.
Definition quick_hash_size (data : str) (size : nat) : option Z :=
  match size with O => Some 0 | _ => c ← data !! 0%nat; Some (quick_hash_loop size c 0) end.

(** ** HMAC

    [digest] is what Init, Update and Final of a digest with blocks of [B]
    bytes and results of [L] bytes compute of the bytes fed. *)
Section hmac.
Context (digest : str → str) (B L : nat).

Definition xorStruct (value : Z) (b : byte) : byte := byte_of_Z (Z.lxor (Z_of_byte b) value).
Definition hmac (text key : str) : str :=
  let keyLocal := if (B <? length key)%nat then digest key else key in
  let keyLocal := keyLocal ++ replicate (B - length keyLocal) x00 in
  let ipad := xorStruct 0x36 <$> keyLocal in
  let opad := xorStruct 0x5c <$> keyLocal in
  let result := digest (take B ipad ++ text) in
  digest (take B opad ++ take L result).
End hmac.

(** random_string(len, chars), [rand] the successive results of rand() *)
Definition random_string (rand : nat → Z) (len : nat) (chars : str) : str :=
  match len, chars with
  | O, _ | _, [] => []
  | _, _ => (λ i, default x00 (chars !! Z.to_nat (rand i mod Z.of_nat (length chars)))) <$> seq 0 len
  end.

Example murmur3_hello : murmur3_hash_str (Some (list_byte_of_string "hello"%string)) 0 = Some 0x248bfa47.
Proof. reflexivity. Qed.
Example murmur3_default_seed : murmur3_hash_str (Some (list_byte_of_string "test"%string)) 1060627423 = Some 0x28cef3ec.
Proof. reflexivity. Qed.

Ltac Zify.zify_post_hook ::= Z.div_mod_to_equations.

(** ** Base64 *)
Lemma b64_char_value v :
  0 ≤ v < 64 → b64_value (b64_char v) = Some v ∧ b64_char v ≠ "=".
Proof.
  intros Hv.
  assert (Hall : forallb (λ v, bool_decide (b64_value (b64_char (Z.of_nat v)) = Some (Z.of_nat v) ∧ b64_char (Z.of_nat v) ≠ "="))
                   (seq 0 64) = true) by (vm_compute; reflexivity).
  rewrite forallb_forall in Hall. specialize (Hall (Z.to_nat v)).
  rewrite Z2Nat.id in Hall by lia. apply bool_decide_eq_true in Hall; [done|]. apply in_seq. lia.
Qed.
Lemma b64_group_char k v ptr packed :
  0 ≤ v < 64 → 0 ≤ packed →
  b64_group (S k) (b64_char v :: ptr) 0 packed = b64_group k ptr 0 (packed * 64 + v).
Proof.
  intros Hv Hp. destruct (b64_char_value v Hv) as [Hval Hne]. cbn [b64_group].
  rewrite bool_decide_false, Hval by done. change (0 <? 0) with false. cbn iota.
  f_equal. rewrite Z.lor_comm, lor_shiftl_add by lia. lia.
Qed.
Lemma b64_group_pad k ptr padding packed :
  b64_group (S k) ("=" :: ptr) padding packed = b64_group k ptr (padding + 1) (packed * 64).
Proof. cbn [b64_group]. rewrite bool_decide_true by done. by rewrite Z.shiftl_mul_pow2. Qed.

Lemma land_63 x : Z.land x 63 = x mod 64.
Proof. change 63 with (Z.ones 6). by rewrite Z.land_ones. Qed.
Lemma land_255 x : Z.land x 255 = x mod 256.
Proof. change 255 with (Z.ones 8). by rewrite Z.land_ones. Qed.
Lemma byte_of_div (b : byte) x : x mod 256 = Z_of_byte b → byte_of_Z (Z.land x 255) = b.
Proof. rewrite land_255. intros ->. apply byte_of_Z_of_byte. Qed.

Lemma pack_byte packed (c : byte) :
  0 ≤ packed < 2 ^ 16 → u32 (Z.lor (Z.shiftl packed 8) (Z_of_byte c)) = packed * 256 + Z_of_byte c.
Proof.
  intros Hp. pose proof (Z_of_byte_range c). rewrite Z.lor_comm, lor_shiftl_add by lia.
  rewrite uwrap_id; [lia|]. unfold in_u. lia.
Qed.

(** The characters of one group: [n] is 24 bits, [pad] the bytes missing. *)
Definition group_text (n : Z) (pad : nat) : str :=
  match pad with
  | 0%nat => [b64_char (n / 2 ^ 18); b64_char (n / 2 ^ 12 mod 64); b64_char (n / 2 ^ 6 mod 64); b64_char (n mod 64)]
  | 1%nat => [b64_char (n / 2 ^ 18); b64_char (n / 2 ^ 12 mod 64); b64_char (n / 2 ^ 6 mod 64); "="]
  | _ => [b64_char (n / 2 ^ 18); b64_char (n / 2 ^ 12 mod 64); "="; "="]
  end.

Lemma encode_group fuel ptr ret pad packed rest :
  ptr ≠ [] → b64_pack 3 ptr 0 = (pad, packed, rest) → (pad ≤ 2)%nat →
  0 ≤ packed → packed * 2 ^ (8 * Z.of_nat pad) < 2 ^ 24 →
  base64encode_loop (S fuel) ptr ret =
  base64encode_loop fuel rest (ret ++ group_text (packed * 2 ^ (8 * Z.of_nat pad)) pad).
Proof.
  intros Hne Hp Hpad H0 H24. destruct ptr as [|x ptr]; [done|]. cbn [base64encode_loop]. rewrite Hp.
  rewrite Z.shiftl_mul_pow2 by lia. rewrite uwrap_id by (unfold in_u; lia).
  rewrite !land_63, !Z.shiftr_div_pow2 by lia.
  destruct pad as [|[|[|]]]; [..|lia]; repeat (case_bool_decide; try done);
    cbn -[base64encode_loop b64_char Z.div Z.modulo Z.pow Z.mul]; by rewrite <- ?app_assoc, ?app_nil_r.
Qed.

Lemma decode_group fuel n (pad : nat) rest out :
  (pad ≤ 2)%nat → 0 ≤ n < 2 ^ 24 → n mod 2 ^ (8 * Z.of_nat pad) = 0 → (pad ≠ 0%nat → rest = []) →
  base64decode_loop (S fuel) (group_text n pad ++ rest) out =
  base64decode_loop fuel rest
    (out ++ take (3 - pad) [byte_of_Z (n / 2 ^ 16); byte_of_Z (n / 2 ^ 8); byte_of_Z n]).
Proof.
  intros Hpad Hn Hm Hr.
  assert (Hb : ∀ x, byte_of_Z (Z.land x 255) = byte_of_Z x).
  { intros x. rewrite land_255. apply Z_of_byte_inj. rewrite !Z_of_byte_of_Z. unfold uwrap. apply Z.mod_mod. lia. }
  destruct pad as [|[|[|]]]; [..|lia]; cbn [group_text app base64decode_loop]; change (2 ^ (8 * Z.of_nat 0)) with 1 in *;
    change (2 ^ (8 * Z.of_nat 1)) with 256 in *; change (2 ^ (8 * Z.of_nat 2)) with 65536 in *;
    rewrite !b64_group_char, ?b64_group_pad by lia; cbn [b64_group];
    [|rewrite Hr by done|rewrite Hr by done]; repeat (case_bool_decide; try done); cbn -[base64decode_loop byte_of_Z Z.div Z.modulo Z.pow Z.mul Z.land Z.shiftr Z.add];
    rewrite !Hb, !Z.shiftr_div_pow2 by lia; rewrite <- ?app_assoc; cbn [app];
    repeat (f_equal; try lia).
Qed.

Definition b64_text (t : str) : Prop := Forall (λ b, b ∈ base64_chars ∨ b = "=") t.
Lemma b64_char_in v : 0 ≤ v < 64 → b64_char v ∈ base64_chars.
Proof.
  intros Hv. unfold b64_char. destruct (base64_chars !! Z.to_nat v) as [b|] eqn:E.
  - by eapply list_elem_of_lookup_2.
  - apply lookup_ge_None in E. change (length base64_chars) with 64%nat in E. lia.
Qed.
Lemma group_text_ok n pad : 0 ≤ n < 2 ^ 24 → b64_text (group_text n pad) ∧ length (group_text n pad) = 4%nat.
Proof.
  intros Hn. unfold b64_text. destruct pad as [|[|]]; cbn [group_text]; (split; [|done]);
    repeat (constructor; [first [by right | left; apply b64_char_in; lia]|]); constructor.
Qed.

(** One group of the encoder against one group of the decoder. *)
Lemma group_roundtrip fuel d : d ≠ [] → ∃ pad n rest chunk,
  d = chunk ++ rest ∧ (length chunk = 3 - pad)%nat ∧ (pad ≤ 2)%nat ∧ (pad ≠ 0%nat → rest = []) ∧ 0 ≤ n < 2 ^ 24 ∧
  (∀ ret, base64encode_loop (S fuel) d ret = base64encode_loop fuel rest (ret ++ group_text n pad)) ∧
  (∀ k t out, (pad ≠ 0%nat → t = []) →
     base64decode_loop (S k) (group_text n pad ++ t) out = base64decode_loop k t (out ++ chunk)).
Proof.
  intros Hne. destruct d as [|a d]; [done|].
  pose proof (Z_of_byte_range a) as Ra.
  assert (Hby : ∀ (b : byte) x, x mod 256 = Z_of_byte b → byte_of_Z x = b).
  { intros b x Hx. rewrite <- (byte_of_Z_of_byte b), <- Hx. apply Z_of_byte_inj. rewrite !Z_of_byte_of_Z.
    unfold uwrap. by rewrite Z.mod_mod. }
  destruct d as [|b [|c d]].
  - exists 2%nat, (Z_of_byte a * 65536), [], [a]. split_and!; try done; try lia.
    + intros ret. rewrite (encode_group fuel [a] ret 2 (Z_of_byte a) []); try done; try lia.
      cbn. change (Z.lor 0 (Z_of_byte a)) with (Z.lor (Z.shiftl 0 8) (Z_of_byte a)). by rewrite (pack_byte 0 a).
    + intros k t out Ht. rewrite decode_group; try done; try lia. cbn [take Nat.sub].
      by rewrite (Hby a) by lia.
  - pose proof (Z_of_byte_range b) as Rb.
    exists 1%nat, ((Z_of_byte a * 256 + Z_of_byte b) * 256), [], [a; b]. split_and!; try done; try lia.
    + intros ret. rewrite (encode_group fuel [a; b] ret 1 (Z_of_byte a * 256 + Z_of_byte b) []); try done; try lia.
      cbn [b64_pack]. rewrite (pack_byte 0 a), pack_byte by lia. done.
    + intros k t out Ht. rewrite decode_group; try done; try lia. cbn [take Nat.sub].
      by rewrite (Hby a), (Hby b) by lia.
  - pose proof (Z_of_byte_range b) as Rb. pose proof (Z_of_byte_range c) as Rc.
    exists 0%nat, ((Z_of_byte a * 256 + Z_of_byte b) * 256 + Z_of_byte c), d, [a; b; c]. split_and!; try done; try lia.
    + intros ret.
      rewrite (encode_group fuel (a :: b :: c :: d) ret 0 ((Z_of_byte a * 256 + Z_of_byte b) * 256 + Z_of_byte c) d);
        try done; try lia.
      * change (2 ^ (8 * Z.of_nat 0)) with 1. by rewrite Z.mul_1_r.
      * cbn [b64_pack]. rewrite (pack_byte 0 a), (pack_byte (0 * 256 + _) b), (pack_byte ((0 * 256 + _) * 256 + _) c) by lia. by destruct d.
    + intros k t out Ht. rewrite decode_group; try done; try (change (2 ^ (8 * Z.of_nat 0)) with 1; lia).
      cbn [take Nat.sub]. by rewrite (Hby a), (Hby b), (Hby c) by lia.
Qed.

Lemma base64_loops m : ∀ d fuel ret, (length d ≤ m)%nat → (length d ≤ fuel)%nat → ∃ t,
  base64encode_loop fuel d ret = Some (ret ++ t) ∧ b64_text t ∧
  length t = (4 * ((length d + 2) / 3))%nat ∧
  ∀ k out, (length t ≤ k)%nat → base64decode_loop k t out = Some (out ++ d).
Proof.
  assert (Hnil : ∀ fuel ret, ∃ t, base64encode_loop fuel [] ret = Some (ret ++ t) ∧ b64_text t ∧
    length t = (4 * ((@length byte [] + 2) / 3))%nat ∧
    ∀ k out, (length t ≤ k)%nat → base64decode_loop k t out = Some (out ++ [])).
  { intros fuel ret. exists []. rewrite app_nil_r. split_and!; [by destruct fuel|constructor|done|].
    intros k out _. rewrite app_nil_r. by destruct k. }
  induction m as [|m IH]; intros d fuel ret Hm Hf; [destruct d; [apply Hnil|cbn in Hm; lia]|].
  destruct (decide (d = [])) as [->|Hne]; [apply Hnil|].
  destruct fuel as [|fuel]; [destruct d; [done|cbn in Hf; lia]|].
  destruct (group_roundtrip fuel d Hne) as (pad & n & rest & chunk & -> & Hlen & Hpad & Hrest & Hn & Henc & Hdec).
  rewrite length_app in Hm, Hf.
  destruct (IH rest fuel (ret ++ group_text n pad)) as (t & Ht & Htt & Hlt & Hd); [lia..|].
  destruct (group_text_ok n pad Hn) as [Hg Hgl].
  exists (group_text n pad ++ t). rewrite Henc, Ht, <- app_assoc. split_and!; [done|by apply Forall_app|..].
  - rewrite !length_app, Hgl, Hlt. destruct (decide (pad = 0%nat)) as [->|Hp].
    + replace (length chunk + length rest + 2)%nat with (length rest + 2 + 1 * 3)%nat by lia.
      rewrite Nat.div_add by lia. lia.
    + rewrite Hrest in * by done. destruct pad as [|[|[|]]]; try lia; rewrite Hlen; done.
  - intros k out Hk. rewrite length_app, Hgl in Hk. destruct k as [|k]; [lia|].
    rewrite Hdec.
    + rewrite Hd by lia. by rewrite <- app_assoc.
    + intros Hp. rewrite Hrest in * by done. cbn in Hlt. destruct t; [done|]. cbn in Hlt. lia.
Qed.

(** Base64: every string of bytes is encoded, in four characters for each
    three bytes begun, all from the alphabet or padding, and decoding gives
    the string back. *)
Theorem base64_roundtrip (d : str) : ∃ t,
  base64encode d = Some t ∧ b64_text t ∧ length t = (4 * ((length d + 2) / 3))%nat ∧ base64decode t = Some d.
Proof.
  destruct (base64_loops (length d) d (length d) [] (le_n _) (le_n _)) as (t & Ht & Htt & Hl & Hd).
  exists t. split_and!; try done. exact (Hd (length t) [] (le_n _)).
Qed.

Lemma b64_group_length k ptr padding packed i p q rest :
  (k ≤ 4)%nat → b64_group k ptr padding packed = Some (i, p, q, rest) →
  (i + length rest = 4 - k + length ptr)%nat.
Proof.
  revert ptr padding packed. induction k as [|k IH]; intros ptr padding packed Hk Hg.
  { destruct ptr; cbn in Hg; by simplify_eq. }
  destruct ptr as [|c ptr]; cbn [b64_group] in Hg; [simplify_eq; done|].
  destruct (bool_decide (c = "=")); [apply IH in Hg; cbn; lia|].
  destruct (0 <? padding); [done|]. destruct (b64_value c); [|done]. apply IH in Hg; cbn; lia.
Qed.
Lemma base64decode_loop_total fuel ptr out :
  (length ptr ≤ fuel)%nat →
  ∃ t, base64decode_loop fuel ptr out = Some t ∧ (4 * length t ≤ 4 * length out + 3 * length ptr)%nat.
Proof.
  revert ptr out. induction fuel as [|fuel IH]; intros [|c ptr] out Hf; try (cbn in Hf; lia);
    try (exists out; split; [done|cbn; lia]).
  cbn [base64decode_loop]. destruct (b64_group 4 (c :: ptr) 0 0) as [[[[i p] q] rest]|] eqn:Hg;
    [|exists []; split; [done|cbn; lia]].
  apply b64_group_length in Hg as Hl; [|done].
  case_bool_decide as Hi; cbn [negb]; [|exists []; split; [done|cbn; lia]]. subst i.
  destruct (_ && _); [exists []; split; [done|cbn; lia]|].
  destruct (2 <? p); [exists []; split; [done|cbn; lia]|].
  match goal with |- context [base64decode_loop fuel rest ?o] => set (o' := o) end.
  assert (Ho : (length o' ≤ length out + 3)%nat).
  { subst o'. destruct (negb (p =? 2)), (p =? 0); rewrite !length_app; cbn; lia. }
  destruct (IH rest o') as (t & Ht & Hlt); [lia|]. exists t. split; [done|]. lia.
Qed.

(** Base64 decoding of any string ends and stays inside its buffer: the
    result has at most three bytes for four characters, the size reserved. *)
Theorem base64decode_bounded (src : str) :
  ∃ out, base64decode src = Some out ∧ (length out ≤ length src * 3 / 4)%nat.
Proof.
  destruct (base64decode_loop_total (length src) src [] (le_n _)) as (t & Ht & Hl).
  exists t. split; [done|]. apply Nat.div_le_lower_bound; cbn in *; lia.
Qed.

(** ** Hexadecimal *)
Lemma hex_byte_roundtrip b :
  hex_value (hexdigit (Z.land (Z.shiftr (Z_of_byte b) 4) 15)) = Some (Z.shiftr (Z_of_byte b) 4) ∧
  hex_value (hexdigit (Z.land (Z_of_byte b) 15)) = Some (Z.land (Z_of_byte b) 15) ∧
  byte_of_Z (Z.lor (u8 (Z.shiftl (Z.shiftr (Z_of_byte b) 4) 4)) (Z.land (Z_of_byte b) 15)) = b.
Proof. destruct b; vm_compute; done. Qed.
(** tolower on the hexadecimal digits *)
Definition lower_hex (b : byte) : byte := if between "A" "F" b then byte_of_Z (Z_of_byte b + 32) else b.
Lemma hex_digit_roundtrip h l hv lv :
  hex_value h = Some hv → hex_value l = Some lv →
  let b := byte_of_Z (Z.lor (u8 (Z.shiftl hv 4)) lv) in
  hexdigit (Z.land (Z.shiftr (Z_of_byte b) 4) 15) = lower_hex h ∧ hexdigit (Z.land (Z_of_byte b) 15) = lower_hex l.
Proof.
  assert (Hall : ∀ c v, hex_value c = Some v → 0 ≤ v < 16 ∧ hexdigit v = lower_hex c).
  { intros c v Hv. assert (Hc : match hex_value c with
      | Some v => (0 <=? v) && (v <? 16) && bool_decide (hexdigit v = lower_hex c) | None => true end = true)
      by (clear; destruct c; reflexivity).
    rewrite Hv in Hc. apply andb_true_iff in Hc as [[?%Z.leb_le ?%Z.ltb_lt]%andb_true_iff ?%bool_decide_eq_true]. done. }
  intros Hh Hl b. destruct (Hall _ _ Hh) as [Rh <-]. destruct (Hall _ _ Hl) as [Rl <-].
  assert (Hb : Z_of_byte b = hv * 16 + lv).
  { unfold b. rewrite Z_of_byte_of_Z. rewrite (uwrap_id 8 (Z.shiftl hv 4)).
    - rewrite Z.lor_comm, lor_shiftl_add by lia. rewrite uwrap_id; [lia|]. unfold in_u. lia.
    - rewrite Z.shiftl_mul_pow2 by lia. unfold in_u. lia. }
  rewrite Hb. change 15 with (Z.ones 4). rewrite !Z.land_ones, Z.shiftr_div_pow2 by lia.
  split; f_equal; lia.
Qed.
Lemma hex_loop_inv n : ∀ s out, (length s ≤ n)%nat → Nat.odd (length s) = false →
  hex_loop s = inr out → hexstring_from_data out = lower_hex <$> s.
Proof.
  induction n as [|n IH]; intros [|h [|l s]] out Hl Ho Hr; try done; cbn in Hr; try (by simplify_eq); [cbn in Hl; lia|].
  destruct (hex_value h) as [hv|] eqn:Hh; [|done]. destruct (hex_value l) as [lv|] eqn:Hlv; [|done].
  destruct (hex_loop s) as [|out'] eqn:E; [done|]. injection Hr as <-.
  destruct (hex_digit_roundtrip h l hv lv Hh Hlv) as [H1 H2]. cbn [hexstring_from_data]. cbv zeta in H1, H2.
  rewrite H1, H2. cbn. do 2 f_equal. apply IH; [cbn in Hl; lia|done|done].
Qed.
Lemma hex_loop_fails s :
  Nat.odd (length s) = false → Exists (λ c, hex_value c = None) s → hex_loop s = inl LogicError.
Proof.
  revert s. fix IH 1. intros [|h [|l s]] Ho He; [by inversion He|done|]. cbn [hex_loop].
  destruct (hex_value h) eqn:Hh; [|done]. destruct (hex_value l) eqn:Hl; [|done].
  rewrite IH; [done|done|]. inversion He as [? ? Hx|? ? Hx]; subst; [congruence|].
  inversion Hx as [? ? Hy|? ? Hy]; subst; [congruence|done].
Qed.

(** Hexadecimal text: decoding what was encoded gives the data back;
    whatever decodes is, in lower case, the encoding of what it decodes to;
    an odd number of characters or one that is no hexadecimal digit throws
    invalid_argument. *)
Theorem hex_roundtrip (d s : str) :
  data_from_hexstring (hexstring_from_data d) = inr d ∧
  (∀ out, data_from_hexstring s = inr out → hexstring_from_data out = lower_hex <$> s) ∧
  (Nat.odd (length s) = true ∨ Exists (λ c, hex_value c = None) s → data_from_hexstring s = inl LogicError).
Proof.
  split_and!.
  - assert (Hl : length (hexstring_from_data d) = (2 * length d)%nat) by (induction d; cbn in *; lia).
    unfold data_from_hexstring. rewrite Hl, Nat.odd_mul. cbn [Nat.odd].
    assert (Hloop : hex_loop (hexstring_from_data d) = inr d).
    { clear Hl. induction d as [|b d IH]; [done|]. cbn [hexstring_from_data hex_loop].
      destruct (hex_byte_roundtrip b) as (H1 & H2 & H3). by rewrite H1, H2, IH, H3. }
    change (Nat.odd 2) with false. cbn [andb]. destruct (hexstring_from_data d) eqn:E; [|by rewrite <- E in *].
    by destruct d.
  - intros out. unfold data_from_hexstring. destruct (Nat.odd (length s)) eqn:Ho; [done|].
    intros Hr. apply (hex_loop_inv (length s)); [done|done|]. by destruct s.
  - unfold data_from_hexstring. destruct (Nat.odd (length s)) eqn:Ho; [done|]. intros [?|He]; [done|].
    destruct s as [|c s]; [by inversion He|]. by apply hex_loop_fails.
Qed.

(** ** Hashes *)
Lemma lxor_range w a b : 0 ≤ w → in_u w a → in_u w b → in_u w (Z.lxor a b).
Proof.
  intros Hw Ha Hb.
  assert (He : Z.lxor a b = Z.lxor a b mod 2 ^ w).
  { apply Z.bits_inj'. intros n Hn. destruct (Z.lt_ge_cases n w).
    - by rewrite Z.mod_pow2_bits_low.
    - rewrite Z.mod_pow2_bits_high by lia. rewrite Z.lxor_spec, !(testbit_above w) by done. done. }
  rewrite He. apply Z.mod_pos_bound. by apply Z.pow_pos_nonneg.
Qed.
Lemma shiftr_range w a n : 0 ≤ w → 0 ≤ n → in_u w a → in_u w (Z.shiftr a n).
Proof.
  intros Hw Hn [Ha1 Ha2]. rewrite Z.shiftr_div_pow2 by done.
  assert (0 < 2 ^ n) by (by apply Z.pow_pos_nonneg). split; [by apply Z.div_pos|].
  apply Z.le_lt_trans with a; [|done]. apply Z.div_le_upper_bound; [done|]. nia.
Qed.
Lemma fmix32_range h : in_u 32 h → in_u 32 (fmix32 h).
Proof.
  intros Hh. unfold fmix32. assert (Hu : ∀ z, in_u 32 (u32 z)) by (intros; by apply uwrap_range).
  apply lxor_range; [done|apply Hu|]. apply shiftr_range; [done|done|apply Hu].
Qed.

(** MurmurHash3 on the text itself: four bytes at a time, then what is
    left. *)
Fixpoint murmur_ref (s : str) (h : Z) : Z :=
  match s with
  | a :: b :: c :: d :: s => murmur_ref s (mix_h h (le_value [a; b; c; d]))
  | [] => h
  | tail => Z.lxor h (mix_k (le_value tail))
  end.
Lemma word_at_drop data i a b c d s :
  drop (4 * i) data = a :: b :: c :: d :: s → word_at data i = Some (le_value [a; b; c; d]).
Proof.
  intros Hd. unfold word_at. rewrite Hd.
  assert (Hl : length (drop (4 * i) data) = (4 + length s)%nat) by (by rewrite Hd). rewrite length_drop in Hl.
  destruct (Nat.leb_spec (4 * i + 4) (length data)); [done|lia].
Qed.
Lemma murmur_blocks_ref data n i h :
  (4 * (i + n) ≤ length data)%nat →
  ∃ h', murmur_blocks data n i h = Some h' ∧ murmur_ref (drop (4 * i) data) h = murmur_ref (drop (4 * (i + n)) data) h'.
Proof.
  revert i h. induction n as [|n IH]; intros i h Hl.
  { exists h. by rewrite Nat.add_0_r. }
  assert (Hd : ∃ a b c d s, drop (4 * i) data = a :: b :: c :: d :: s).
  { assert (Hl' : (4 ≤ length (drop (4 * i) data))%nat) by (rewrite length_drop; lia).
    destruct (drop (4 * i) data) as [|a [|b [|c [|d s]]]]; cbn in Hl'; try lia. by exists a, b, c, d, s. }
  destruct Hd as (a & b & c & d & s & Hd). cbn [murmur_blocks]. rewrite (word_at_drop _ _ _ _ _ _ _ Hd). cbn [mbind option_bind].
  destruct (IH (S i) (mix_h h (le_value [a; b; c; d]))) as (h' & Hb & Hr); [lia|].
  exists h'. split; [done|]. rewrite Hd. cbn [murmur_ref].
  replace (4 * (i + S n))%nat with (4 * (S i + n))%nat by lia. rewrite <- Hr. f_equal.
  replace (4 * S i)%nat with (4 * i + 4)%nat by lia. by rewrite <- drop_drop, Hd.
Qed.
Lemma murmur_blocks_range data n i h h' :
  in_u 32 h → murmur_blocks data n i h = Some h' → in_u 32 h'.
Proof.
  revert i h. induction n as [|n IH]; intros i h Hh Hb; cbn [murmur_blocks] in Hb; [by injection Hb as <-|].
  destruct (word_at data i) as [s|]; [|done]. cbn [mbind option_bind] in Hb. eapply IH; [|exact Hb]. by apply uwrap_range.
Qed.
Lemma murmur_tail_ref t h :
  (length t < 4)%nat → murmur_tail t (length t) h = Some (murmur_ref t h).
Proof.
  intros Hl. destruct t as [|a [|b [|c [|d t]]]]; cbn in Hl; try lia; try done.
  - cbn. by rewrite Z.add_0_r.
  - cbn -[Z.lor Z.shiftl Z.add Z.mul]. do 3 f_equal. pose proof (Z_of_byte_range a).
    rewrite Z.lor_0_l, Z.lor_comm, lor_shiftl_add by lia. lia.
  - cbn -[Z.lor Z.shiftl Z.add Z.mul]. do 3 f_equal.
    pose proof (Z_of_byte_range a). pose proof (Z_of_byte_range b). pose proof (Z_of_byte_range c).
    replace (Z.lor (Z.shiftl (Z_of_byte c) 16) (Z.shiftl (Z_of_byte b) 8))
      with (Z.shiftl (Z_of_byte b + Z_of_byte c * 2 ^ 8) 8).
    2: { rewrite <- (lor_shiftl_add 8) by lia. rewrite Z.shiftl_lor, Z.shiftl_shiftl by lia. by rewrite Z.lor_comm. }
    rewrite Z.lor_comm, lor_shiftl_add by lia. lia.
Qed.

Lemma c_str_noz s : Forall (λ b, b ≠ x00) s → c_str s = s.
Proof.
  intros Hs. unfold c_str. destruct (find_if (isc x00) s) as [i|] eqn:E; [|done].
  destruct (find_if_Some _ _ _ E) as (pre & b & suf & -> & _ & ->%isc_true & _).
  apply Forall_app in Hs as [_ Hs]. by apply Forall_cons_1 in Hs as [? _].
Qed.

(** The indexed loops of murmur3_hash compute MurmurHash3 of the data: the
    words it reads through the cast pointer and the tail it picks in the
    switch are the data, four bytes at a time and what is left; the result
    is a 32-bit value. The overload for C strings agrees on strings without a
    zero byte, and a size beyond the data reads out of bounds. *)
Theorem murmur3_reference (data : str) (seed : Z) (Hseed : in_u 32 seed) (Hsize : Z.of_nat (length data) < 2 ^ 31) :
  (∃ h, murmur3_hash (Some data) (length data) seed = Some h ∧ in_u 32 h ∧
        h = fmix32 (Z.lxor (murmur_ref data seed) (Z.of_nat (length data)))) ∧
  (Forall (λ b, b ≠ x00) data → murmur3_hash_str (Some data) seed = murmur3_hash (Some data) (length data) seed) ∧
  (∀ size, (length data < size)%nat → (4 * (size / 4) > length data)%nat → murmur3_hash (Some data) size seed = None).
Proof.
  split_and!.
  - pose proof (Nat.div_mod_eq (length data) 4) as Hdm. pose proof (Nat.mod_upper_bound (length data) 4 ltac:(lia)).
    destruct (murmur_blocks_ref data (length data / 4) 0 seed) as (h' & Hb & Hr); [lia|].
    eexists. unfold murmur3_hash. rewrite Hb. cbn [mbind option_bind].
    assert (Hlt : length (drop (length data / 4 * 4) data) = (length data mod 4)%nat) by (rewrite length_drop; lia).
    rewrite <- Hlt, murmur_tail_ref by lia. cbn [mbind option_bind].
    rewrite Nat.mul_0_r, drop_0 in Hr. rewrite Hr. replace (4 * (0 + length data / 4))%nat with (length data / 4 * 4)%nat by lia.
    split_and!; [done| |done].
    assert (Hmix : ∀ s h, in_u 32 h → in_u 32 (murmur_ref s h)).
    { clear. fix IH 1. intros [|a [|b [|c [|d s]]]] h Hh; cbn [murmur_ref]; try done.
      1-3: apply lxor_range; [done|done|by apply uwrap_range].
      apply IH. by apply uwrap_range. }
    assert (Hh' : in_u 32 h') by exact (murmur_blocks_range _ _ _ _ _ Hseed Hb).
    apply fmix32_range, lxor_range; [done|by apply Hmix|]. unfold in_u. lia.
  - intros Hz. unfold murmur3_hash_str. by rewrite c_str_noz.
  - intros size _ Hs. unfold murmur3_hash.
    assert (Hx : ∀ n i h, (4 * (i + n) > length data)%nat → (4 * i ≤ length data)%nat → murmur_blocks data n i h = None).
    { clear. induction n as [|n IH]; intros i h Hl Hi; [lia|]. cbn. unfold word_at.
      destruct (Nat.leb_spec (4 * i + 4) (length data)); [|done]. cbn. apply IH; lia. }
    rewrite Hx; [done|lia|lia].
Qed.

(** quick_hash of a sized buffer does not advance its pointer: the result
    depends on the first byte and the size alone. *)
Theorem quick_hash_size_first (c : byte) (d d' : str) (size : nat) :
  quick_hash_size (c :: d) size = quick_hash_size (c :: d') size.
Proof. by destruct size. Qed.

(** ** HMAC *)
Section hmac_laws.
Context (digest : str → str) (B L : nat).
Context (digest_length : ∀ s, length (digest s) = L) (LB : (L ≤ B)%nat).

(** The formula of RFC 2104 for a key of at most one block. *)
Lemma hmac_short text key :
  (length key ≤ B)%nat →
  let k := key ++ replicate (B - length key) x00 in
  hmac digest B L text key = digest ((xorStruct 0x5c <$> k) ++ digest ((xorStruct 0x36 <$> k) ++ text)).
Proof.
  intros Hk k. unfold hmac. destruct (Nat.ltb_spec B (length key)); [lia|]. fold k.
  assert (Hlen : length k = B) by (unfold k; rewrite length_app, length_replicate; lia).
  rewrite !take_ge by (rewrite ?length_fmap, ?digest_length; lia). done.
Qed.
Lemma hmac_long text key :
  (B < length key)%nat → hmac digest B L text key = hmac digest B L text (digest key).
Proof.
  intros Hk. unfold hmac. destruct (Nat.ltb_spec B (length key)); [|lia].
  rewrite digest_length. destruct (Nat.ltb_spec B L); [lia|]. by rewrite digest_length.
Qed.
Lemma hmac_zeros text key n :
  (length key + n ≤ B)%nat → hmac digest B L text (key ++ replicate n x00) = hmac digest B L text key.
Proof.
  intros Hk. rewrite !hmac_short by (rewrite ?length_app, ?length_replicate; lia).
  assert (Hp : (key ++ replicate n x00) ++ replicate (B - length (key ++ replicate n x00)) x00 =
               key ++ replicate (B - length key) x00).
  { rewrite <- app_assoc, <- replicate_add, length_app, length_replicate. do 2 f_equal. lia. }
  by rewrite Hp.
Qed.
End hmac_laws.

(** hmac is HMAC for any digest of [L] bytes over blocks of [B] >= [L]
    bytes: the digest of the outer pad and the digest of the inner pad and
    the text, with the key padded by zeros to a block; a longer key counts as
    its digest, and zeros at the end of a short key do not count. *)
Theorem hmac_correct (digest : str → str) (B L : nat)
  (Hdigest : ∀ s, length (digest s) = L) (HB : (L ≤ B)%nat) (text key : str) :
  ((length key ≤ B)%nat →
     let k := key ++ replicate (B - length key) x00 in
     hmac digest B L text key = digest ((xorStruct 0x5c <$> k) ++ digest ((xorStruct 0x36 <$> k) ++ text))) ∧
  ((B < length key)%nat → hmac digest B L text key = hmac digest B L text (digest key)) ∧
  (∀ n, (length key + n ≤ B)%nat → hmac digest B L text (key ++ replicate n x00) = hmac digest B L text key).
Proof.
  split_and!.
  - by apply hmac_short.
  - by apply hmac_long.
  - intros n. by apply hmac_zeros.
Qed.

Lemma random_string_chars rand len chars :
  chars ≠ [] → length (random_string rand len chars) = len ∧ Forall (λ b, b ∈ chars) (random_string rand len chars).
Proof.
  intros Hne. destruct chars as [|c cs]; [done|]. destruct len as [|len]; [split; [done|constructor]|].
  cbn [random_string]. rewrite length_fmap, length_seq. split; [done|]. apply Forall_fmap, Forall_true.
  intros i. unfold compose. destruct ((c :: cs) !! _) as [b|] eqn:E; [by eapply list_elem_of_lookup_2|].
  apply lookup_ge_None in E. cbn [length] in *.
  pose proof (Z.mod_pos_bound (rand i) (Z.of_nat (S (length cs))) ltac:(lia)). lia.
Qed.

(** ** Witnesses *)
Lemma hex_roundtrip_witness :
  data_from_hexstring ["0"; "A"] = inr [x0a] ∧
  (∀ out, data_from_hexstring ["0"; "A"] = inr out → hexstring_from_data out = lower_hex <$> ["0"; "A"]).
Proof. split; [vm_compute; reflexivity|]. exact (proj1 (proj2 (hex_roundtrip [] ["0"; "A"]))). Defined.
Lemma murmur3_reference_witness :
  in_u 32 7 ∧ Z.of_nat (length ["a"; "b"; "c"; "d"; "e"]) < 2 ^ 31 ∧
  (∃ h, murmur3_hash (Some ["a"; "b"; "c"; "d"; "e"]) (length ["a"; "b"; "c"; "d"; "e"]) 7 = Some h ∧ in_u 32 h ∧
        h = fmix32 (Z.lxor (murmur_ref ["a"; "b"; "c"; "d"; "e"] 7) (Z.of_nat (length ["a"; "b"; "c"; "d"; "e"])))).
Proof.
  assert (H7 : in_u 32 7) by (unfold in_u; lia).
  assert (Hl : Z.of_nat (length ["a"; "b"; "c"; "d"; "e"]) < 2 ^ 31) by (cbn; lia).
  split; [exact H7|]. split; [exact Hl|]. exact (proj1 (murmur3_reference ["a"; "b"; "c"; "d"; "e"] 7 H7 Hl)).
Defined.
(** A digest of two bytes over blocks of three. *)
Definition toy_digest (s : str) : str := le_bytes 2 (fold_left (λ h b, h * 31 + Z_of_byte b) s 0).
Lemma hmac_correct_witness :
  (∀ s, length (toy_digest s) = 2%nat) ∧ (2 ≤ 3)%nat ∧ (3 < length ["k"; "e"; "y"; "s"])%nat ∧
  ((3 < length ["k"; "e"; "y"; "s"])%nat →
   hmac toy_digest 3 2 ["t"] ["k"; "e"; "y"; "s"] = hmac toy_digest 3 2 ["t"] (toy_digest ["k"; "e"; "y"; "s"])).
Proof.
  assert (Hd : ∀ s, length (toy_digest s) = 2%nat) by (intros s; apply length_le_bytes).
  split; [exact Hd|]. split; [lia|]. split; [cbn; lia|].
  exact (proj1 (proj2 (hmac_correct toy_digest 3 2 Hd ltac:(lia) ["t"] ["k"; "e"; "y"; "s"]))).
Defined.
