(* ===== verification/IOManager.v ===== *)
(** * The IO manager (Sylar/iomanager.h, iomanager.cc)

    Registration of a fiber or a callback for the readiness of a descriptor,
    on top of the scheduler. epoll is the kernel's: its state and epoll_ctl
    are parameters, with what the code relies on as the laws of a class. *)
From Stdlib Require Import ZArith Lia.
From stdpp Require Import base list list_numbers numbers gmap.
From S2P Require Import Prelude Scheduler.

Local Open Scope Z_scope.
Local Open Scope nat_scope.

(** ** epoll *)
Inductive ctlop := EPOLL_CTL_ADD | EPOLL_CTL_MOD | EPOLL_CTL_DEL.
Definition EPOLLIN : Z := 1.
Definition EPOLLOUT : Z := 4.
Definition EPOLLERR : Z := 8.
Definition EPOLLHUP : Z := 16.
Definition EPOLLET : Z := 2 ^ 31.

(** [epoll_ctl k op fd events] gives the new state and whether the call
    succeeded; [interest k fd] is what the kernel watches of a descriptor,
    0 when it is not in the set. *)
Class Epoll (K : Type) := {
  epoll_ctl : K → ctlop → nat → Z → K * bool;
  interest : K → nat → Z;
  ctl_fail : ∀ k op fd ev k', epoll_ctl k op fd ev = (k', false) → k' = k;
  ctl_set : ∀ k op fd ev k', epoll_ctl k op fd ev = (k', true) →
    interest k' fd = match op with EPOLL_CTL_DEL => 0%Z | _ => ev end;
  ctl_del : ∀ k fd ev, epoll_ctl k EPOLL_CTL_DEL fd ev = epoll_ctl k EPOLL_CTL_DEL fd 0;
  ctl_other : ∀ k op fd ev k' ok g, epoll_ctl k op fd ev = (k', ok) → g ≠ fd → interest k' g = interest k g
}.

(** ** Data *)
Inductive Event := NONE | READ | WRITE.
Definition ebit (e : Event) : Z := match e with NONE => 0 | READ => 1 | WRITE => 4 end.
#[export] Instance Event_eq_dec : EqDecision Event.
Proof. solve_decision. Defined.

Record EventContext := mkEvent {
  ec_scheduler : bool;                  (* the pointer is set *)
  ec_fiber : option nat;
  ec_cb : option nat
}.
Definition empty_event : EventContext := mkEvent false None None.
Record FdContext := mkFd {
  fc_read : EventContext; fc_write : EventContext; fc_fd : nat; fc_events : Z
}.
Definition new_fd (fd : nat) : FdContext := mkFd empty_event empty_event fd 0.

Record io (K : Type) := mkIO {
  m_fdContexts : list FdContext;
  m_pendingEventCount : nat;
  kernel : K;
  sched : world
}.
Arguments mkIO {K}.
Arguments m_fdContexts {K}.
Arguments m_pendingEventCount {K}.
Arguments kernel {K}.
Arguments sched {K}.

Section operations.
Context {K : Type} `{!Epoll K}.
Implicit Types s : io K.

Definition set_contexts l s : io K := mkIO l (m_pendingEventCount s) (kernel s) (sched s).
Definition set_pending n s : io K := mkIO (m_fdContexts s) n (kernel s) (sched s).
Definition set_kernel k s : io K := mkIO (m_fdContexts s) (m_pendingEventCount s) k (sched s).
Definition set_sched w s : io K := mkIO (m_fdContexts s) (m_pendingEventCount s) (kernel s) w.

(** A call into the scheduler. *)
Definition on_sched {A} (m : M world A) : M (io K) A := λ s,
  match m (sched s) with
  | Ret a w => Ret a (set_sched w s)
  | Exn e w => Exn e (set_sched w s)
  | Stuck r => Stuck r
  end.

Definition getContext (c : FdContext) (e : Event) : M (io K) EventContext :=
  match e with
  | READ => cret (fc_read c)
  | WRITE => cret (fc_write c)
  | NONE => cstuck AssertFailed
  end.
(** The context with the event context of [e] replaced. *)
Definition put_event (e : Event) (ec : EventContext) (c : FdContext) : FdContext :=
  match e with
  | READ => mkFd ec (fc_write c) (fc_fd c) (fc_events c)
  | WRITE => mkFd (fc_read c) ec (fc_fd c) (fc_events c)
  | NONE => c
  end.
Definition put_events (ev : Z) (c : FdContext) : FdContext := mkFd (fc_read c) (fc_write c) (fc_fd c) ev.

Definition get_fd (fd : nat) : M (io K) FdContext := λ s,
  match m_fdContexts s !! fd with Some c => Ret c s | None => Stuck OutOfBounds end.
Definition put_fd (fd : nat) (c : FdContext) : M (io K) unit :=
  cmodify (λ s, set_contexts (<[fd := c]> (m_fdContexts s)) s).

(** resize, then a fresh context for each new slot *)
Definition contextResize (size : nat) : M (io K) unit :=
  cmodify (λ s,
    let l := take size (m_fdContexts s) in
    set_contexts (l ++ (new_fd <$> seq (length l) (size - length l))) s).

(** epoll_ctl; the result is whether it returned 0. *)
Definition ctl (op : ctlop) (fd : nat) (ev : Z) : M (io K) bool := λ s,
  let '(k, ok) := epoll_ctl (kernel s) op fd ev in Ret ok (set_kernel k s).

(** ** Registration *)

(** addEvent after the context is found, under its mutex. [this] is the
    running fiber, [sch] whether the thread has a scheduler. *)
Definition add_locked (this : nat) (sch : bool) (fd : nat) (e : Event) (cb : option nat) : M (io K) Z :=
  let! c := get_fd fd in
  let! _ := cassert (Z.land (fc_events c) (ebit e) =? 0)%Z in
  let op := if (fc_events c =? 0)%Z then EPOLL_CTL_ADD else EPOLL_CTL_MOD in
  let! ok := ctl op fd (Z.lor (Z.lor EPOLLET (fc_events c)) (ebit e)) in
  if negb ok then cret (-1)%Z
  else
    let! _ := cmodify (λ s, set_pending (S (m_pendingEventCount s)) s) in
    let c := put_events (Z.lor (fc_events c) (ebit e)) c in
    let! _ := put_fd fd c in
    let! ec := getContext c e in
    let! _ := cassert (negb (ec_scheduler ec) && bool_decide (ec_fiber ec = None) && bool_decide (ec_cb ec = None)) in
    match cb with
    | Some _ =>
      let! _ := put_fd fd (put_event e (mkEvent sch None cb) c) in cret 0%Z
    | None =>
      let! _ := put_fd fd (put_event e (mkEvent sch (Some this) None) c) in
      let! st := on_sched (getState this) in
      let! _ := cassert (is_state st [EXEC]) in
      cret 0%Z
    end.
(** The two ways to the context: present, or after growing the vector to
    fd * 1.5, which takes the write lock anew. *)
Definition has_context (fd : nat) : M (io K) bool := creads (λ s, fd <? length (m_fdContexts s)).
Definition grow_for (fd : nat) : M (io K) unit :=
  let! _ := contextResize (fd * 3 / 2) in
  let! _ := get_fd fd in cret tt.
Definition addEvent (this : nat) (sch : bool) (fd : nat) (e : Event) (cb : option nat) : M (io K) Z :=
  let! there := has_context fd in
  let! _ := if there : bool then cret tt else grow_for fd in
  add_locked this sch fd e cb.

Definition delEvent (fd : nat) (e : Event) : M (io K) bool :=
  let! there := has_context fd in
  if negb there then cret false
  else
    let! c := get_fd fd in
    if (Z.land (fc_events c) (ebit e) =? 0)%Z then cret false
    else
      let new_events := Z.ldiff (fc_events c) (ebit e) in
      let op := if (new_events =? 0)%Z then EPOLL_CTL_DEL else EPOLL_CTL_MOD in
      let! ok := ctl op fd (Z.lor EPOLLET new_events) in
      if negb ok then cret false
      else
        let! _ := cmodify (λ s, set_pending (m_pendingEventCount s - 1) s) in
        let c := put_events new_events c in
        let! _ := getContext c e in
        let! _ := put_fd fd (put_event e empty_event c) in
        cret true.

(** triggerEvent: schedule() takes the callback or the fiber out of the
    context by swapping it with null. *)
Definition triggerEvent (fd : nat) (e : Event) : M (io K) unit :=
  let! c := get_fd fd in
  let! _ := cassert (negb (Z.land (fc_events c) (ebit e) =? 0)%Z) in
  let c := put_events (Z.ldiff (fc_events c) (ebit e)) c in
  let! ec := getContext c e in
  let! _ := if ec_scheduler ec then cret tt else cstuck NullDeref in
  match ec_cb ec with
  | Some cb =>
    let! _ := on_sched (schedule (mkFT None (Some cb) (-1))) in
    put_fd fd (put_event e (mkEvent false (ec_fiber ec) None) c)
  | None =>
    let! _ := on_sched (schedule (mkFT (ec_fiber ec) None (-1))) in
    put_fd fd (put_event e (mkEvent false None None) c)
  end.

Definition cancelEvent (fd : nat) (e : Event) : M (io K) bool :=
  let! there := has_context fd in
  if negb there then cret false
  else
    let! c := get_fd fd in
    if (Z.land (fc_events c) (ebit e) =? 0)%Z then cret false
    else
      let new_events := Z.ldiff (fc_events c) (ebit e) in
      let op := if (new_events =? 0)%Z then EPOLL_CTL_DEL else EPOLL_CTL_MOD in
      let! ok := ctl op fd (Z.lor EPOLLET new_events) in
      if negb ok then cret false
      else
        let! _ := cmodify (λ s, set_pending (m_pendingEventCount s - 1) s) in
        let! _ := triggerEvent fd e in
        let! c := get_fd fd in
        let! _ := put_fd fd (put_events new_events c) in
        cret true.

(** if(fd_ctx->events & e) { triggerEvent(e); --m_pendingEventCount; } *)
Definition trigger_if (on : bool) (fd : nat) (e : Event) : M (io K) unit :=
  if on then
    let! _ := triggerEvent fd e in
    cmodify (λ s, set_pending (m_pendingEventCount s - 1) s)
  else cret tt.
Definition cancelAll (fd : nat) : M (io K) bool :=
  let! there := has_context fd in
  if negb there then cret false
  else
    let! c := get_fd fd in
    if (fc_events c =? 0)%Z then cret false
    else
      let! ok := ctl EPOLL_CTL_DEL fd 0 in
      if negb ok then cret false
      else
        let! _ := trigger_if (negb (Z.land (fc_events c) (ebit READ) =? 0)%Z) fd READ in
        let! c := get_fd fd in
        let! _ := trigger_if (negb (Z.land (fc_events c) (ebit WRITE) =? 0)%Z) fd WRITE in
        let! c := get_fd fd in
        let! _ := put_fd fd (put_events 0 c) in
        cret true.

(** ** idle() *)

(** The timeout given to epoll_wait; next_timeout is a uint64_t, cut to an
    int for the comparison and the call. *)
Definition wait_timeout (next_timeout : Z) : Z :=
  let t := if negb (next_timeout =? 2 ^ 64 - 1)%Z
           then if (3000 <? i32 next_timeout)%Z then 3000%Z else next_timeout
           else 3000%Z in
  i32 t.

(** One entry of the array epoll_wait filled: the pipe, or a descriptor with
    the events that are ready. *)
Inductive ready := Tickle | Ready (fd : nat) (events : Z).
Definition handle_event (r : ready) : M (io K) unit :=
  match r with
  | Tickle => cret tt
  | Ready fd events =>
    let! c := get_fd fd in
    let events := if negb (Z.land events (Z.lor EPOLLERR EPOLLHUP) =? 0)%Z
                  then Z.lor events (Z.land (Z.lor EPOLLIN EPOLLOUT) (fc_events c)) else events in
    let real_events := Z.lor (if negb (Z.land events EPOLLIN =? 0)%Z then ebit READ else 0)
                             (if negb (Z.land events EPOLLOUT =? 0)%Z then ebit WRITE else 0) in
    if (Z.land (fc_events c) real_events =? 0)%Z then cret tt
    else
      let left_events := Z.ldiff (fc_events c) real_events in
      let op := if (left_events =? 0)%Z then EPOLL_CTL_DEL else EPOLL_CTL_MOD in
      let! ok := ctl op (fc_fd c) (Z.lor EPOLLET left_events) in
      if negb ok then cret tt
      else
        let! _ := trigger_if (negb (Z.land real_events (ebit READ) =? 0)%Z) fd READ in
        trigger_if (negb (Z.land real_events (ebit WRITE) =? 0)%Z) fd WRITE
  end.
(** One turn of idle() after epoll_wait: the callbacks of expired timers,
    then the events. *)
Definition idle_turn (cbs : list nat) (rs : list ready) : M (io K) unit :=
  let! _ := match cbs with
            | [] => cret tt
            | _ => on_sched (schedule_range ((λ c, mkFT None (Some c) (-1)) <$> cbs))
            end in
  cfor rs handle_event.

(** stopping(timeout), [next] what getNextTimer returned *)
Definition io_stopping (next : Z) (s : io K) : bool :=
  (next =? 2 ^ 64 - 1)%Z && (m_pendingEventCount s =? 0) && stopping (sched s).
(** tickle(): whether the pipe is written. *)
Definition io_tickle (s : io K) : bool := 0 <? m_idleThreadCount (sched s).

(** The constructor: 32 contexts, over the scheduler the base class has
    made. *)
Definition IOManager_new (k : K) (w : world) : io K := mkIO (new_fd <$> seq 0 32) 0 k w.
End operations.

(** ** The registry

    What the contexts stand for: who waits for which event. *)
Inductive waiter := WFiber (f : nat) | WCb (c : nat).
Definition task_of (w : waiter) : FiberAndThread :=
  match w with WFiber f => mkFT (Some f) None (-1) | WCb c => mkFT None (Some c) (-1) end.
Definition waiter_of (ec : EventContext) : option waiter :=
  match ec_scheduler ec, ec_cb ec, ec_fiber ec with
  | true, Some c, None => Some (WCb c)
  | true, None, Some f => Some (WFiber f)
  | _, _, _ => None
  end.
Definition event_ctx (c : FdContext) (e : Event) : EventContext :=
  match e with READ => fc_read c | WRITE => fc_write c | NONE => empty_event end.
Definition some_bit {A} (o : option A) (e : Event) : Z := match o with Some _ => ebit e | None => 0 end.
Definition some_one {A} (o : option A) : nat := match o with Some _ => 1 | None => 0 end.
Definition evbits (c : FdContext) : Z :=
  Z.lor (some_bit (waiter_of (fc_read c)) READ) (some_bit (waiter_of (fc_write c)) WRITE).
Definition nev (c : FdContext) : nat :=
  some_one (waiter_of (fc_read c)) + some_one (waiter_of (fc_write c)).
(** What epoll is to watch. *)
Definition watch (ev : Z) : Z := if (ev =? 0)%Z then 0 else Z.lor EPOLLET ev.

Record ctx_ok (fd : nat) (c : FdContext) : Prop := {
  ok_fd : fc_fd c = fd;
  ok_events : fc_events c = evbits c;
  ok_empty : ∀ e, waiter_of (event_ctx c e) = None → event_ctx c e = empty_event
}.
Record IoInv {K} `{!Epoll K} (s : io K) : Prop := {
  io_ctx : ∀ fd c, m_fdContexts s !! fd = Some c → ctx_ok fd c;
  io_len : 2 ≤ length (m_fdContexts s);
  io_pending : m_pendingEventCount s = sum_list_with nev (m_fdContexts s);
  io_watch : ∀ fd, interest (kernel s) fd =
    match m_fdContexts s !! fd with Some c => watch (fc_events c) | None => 0%Z end
}.
Definition reg {K} (s : io K) (fd : nat) (e : Event) : option waiter :=
  c ← m_fdContexts s !! fd; waiter_of (event_ctx c e).
(** The registry by itself: its updates, the event bits of a descriptor, and
    the call that brings what epoll watches of a descriptor in line with a
    new registry. *)
Definition registry := nat → Event → option waiter.
Definition update (fd : nat) (e : Event) (o : option waiter) (R : registry) : registry :=
  λ g e', if bool_decide (g = fd) && bool_decide (e' = e) then o else R g e'.
Definition drop_if (b : bool) (fd : nat) (e : Event) (R : registry) : registry :=
  if b then update fd e None R else R.
Definition wake_if (b : bool) (fd : nat) (e : Event) (R : registry) : list waiter :=
  if b then option_list (R fd e) else [].
Definition bits (R : registry) (fd : nat) : Z :=
  Z.lor (some_bit (R fd READ) READ) (some_bit (R fd WRITE) WRITE).
Definition sync {K} `{!Epoll K} (fd : nat) (R R' : registry) (k : K) : K * bool :=
  epoll_ctl k (if (bits R' fd =? 0)%Z then EPOLL_CTL_DEL
               else if (bits R fd =? 0)%Z then EPOLL_CTL_ADD else EPOLL_CTL_MOD) fd (watch (bits R' fd)).
(** The scheduler after schedule(ft). *)
Definition push (ft : FiberAndThread) (w : world) : world :=
  match schedule ft w with Ret _ w' => w' | _ => w end.

Section registry.
Context {K : Type} `{!Epoll K}.
Implicit Types s : io K.

Lemma push_task w t : schedule (task_of t) w = Ret tt (push (task_of t) w).
Proof. by destruct t. Qed.
Lemma push_queue w t : m_fibers (push (task_of t) w) = m_fibers w ++ [task_of t].
Proof. by destruct t. Qed.

(** The bits of a context. *)
Lemma events_bit fd c e :
  ctx_ok fd c → e ≠ NONE →
  Z.land (fc_events c) (ebit e) = some_bit (waiter_of (event_ctx c e)) e.
Proof.
  intros Hok He. rewrite (ok_events _ _ Hok). unfold evbits.
  destruct e; [done|..]; cbn [event_ctx];
    destruct (waiter_of (fc_read c)), (waiter_of (fc_write c)); reflexivity.
Qed.
Lemma events_bit_zero fd c e :
  ctx_ok fd c → e ≠ NONE →
  (Z.land (fc_events c) (ebit e) =? 0)%Z = match waiter_of (event_ctx c e) with Some _ => false | None => true end.
Proof.
  intros Hok He. rewrite (events_bit fd) by done. unfold some_bit.
  destruct (waiter_of _), e; done.
Qed.

Lemma bits_reg s fd c : IoInv s → m_fdContexts s !! fd = Some c → fc_events c = bits (reg s) fd.
Proof. intros HI Hc. rewrite (ok_events _ _ (io_ctx _ HI _ _ Hc)). unfold bits, reg, evbits. by rewrite Hc. Qed.
Lemma bits_drop R fd e : e ≠ NONE → bits (update fd e None R) fd = Z.ldiff (bits R fd) (ebit e).
Proof.
  intros He. unfold bits, update. rewrite bool_decide_true by done.
  destruct e; [done|..]; cbn; destruct (R fd READ), (R fd WRITE); reflexivity.
Qed.
Lemma bits_add R fd e x : e ≠ NONE → bits (update fd e (Some x) R) fd = Z.lor (bits R fd) (ebit e).
Proof.
  intros He. unfold bits, update. rewrite bool_decide_true by done.
  destruct e; [done|..]; cbn; destruct (R fd READ), (R fd WRITE); reflexivity.
Qed.
Lemma bits_some R fd e : e ≠ NONE → is_Some (R fd e) → (bits R fd =? 0)%Z = false.
Proof. intros He [w Hw]. unfold bits. destruct e; [done|..]; rewrite Hw; [by destruct (R fd WRITE)|by destruct (R fd READ)]. Qed.
(** The call the code makes when something of the descriptor is registered. *)
Lemma sync_change R R' fd (k : K) ev :
  (bits R fd =? 0)%Z = false → bits R' fd = ev →
  sync fd R R' k = epoll_ctl k (if (ev =? 0)%Z then EPOLL_CTL_DEL else EPOLL_CTL_MOD) fd (Z.lor EPOLLET ev).
Proof.
  intros Hb <-. unfold sync, watch. rewrite Hb. destruct (bits R' fd =? 0)%Z; [|done]. symmetry. apply ctl_del.
Qed.

(** The event is taken out of the context. *)
Definition cleared (e : Event) (c : FdContext) : FdContext :=
  put_event e empty_event (put_events (Z.ldiff (fc_events c) (ebit e)) c).
Lemma cleared_ok fd c e : ctx_ok fd c → e ≠ NONE → ctx_ok fd (cleared e c).
Proof.
  intros Hok He. split.
  - rewrite <- (ok_fd _ _ Hok). by destruct e.
  - unfold cleared. rewrite (ok_events _ _ Hok). unfold evbits.
    destruct e; [done|..]; cbn; destruct (waiter_of (fc_read c)), (waiter_of (fc_write c)); reflexivity.
  - intros e'. pose proof (ok_empty _ _ Hok e') as H'. destruct e, e'; cbn in *; try done.
Qed.
Lemma cleared_nev c e w :
  e ≠ NONE → waiter_of (event_ctx c e) = Some w → nev c = S (nev (cleared e c)).
Proof. intros He Hw. unfold nev. destruct e; [done|..]; cbn in *; rewrite Hw; cbn; lia. Qed.
Lemma cleared_reg c e e' :
  e ≠ NONE → waiter_of (event_ctx (cleared e c) e') = if decide (e' = e) then None else waiter_of (event_ctx c e').
Proof. intros He. destruct e, e'; try done. Qed.
Lemma cleared_events c e : e ≠ NONE → fc_events (cleared e c) = Z.ldiff (fc_events c) (ebit e).
Proof. by destruct e. Qed.

Lemma get_fd_eq fd s c : m_fdContexts s !! fd = Some c → get_fd fd s = Ret c s.
Proof. unfold get_fd. by intros ->. Qed.
Lemma on_sched_eq {A} (m : M world A) s a w : m (sched s) = Ret a w → on_sched m s = Ret a (set_sched w s).
Proof. unfold on_sched. by intros ->. Qed.

Lemma triggerEvent_eq fd e s c w :
  m_fdContexts s !! fd = Some c → ctx_ok fd c → e ≠ NONE → waiter_of (event_ctx c e) = Some w →
  triggerEvent fd e s =
    Ret tt (set_contexts (<[fd := cleared e c]> (m_fdContexts s)) (set_sched (push (task_of w) (sched s)) s)).
Proof.
  intros Hc Hok He Hw. unfold triggerEvent. stepM (get_fd_eq _ _ _ Hc).
  rewrite (events_bit_zero fd) by done. rewrite Hw. cbn [negb].
  rewrite (cbind_Ret (cassert true) _ s tt s eq_refl).
  assert (Hg : getContext (put_events (Z.ldiff (fc_events c) (ebit e)) c) e s = Ret (event_ctx c e) s) by (by destruct e).
  stepM Hg. unfold waiter_of in Hw.
  destruct (ec_scheduler (event_ctx c e)); [|done]. rewrite (cbind_Ret (cret tt) _ s tt s eq_refl).
  destruct (ec_cb (event_ctx c e)) as [cb|], (ec_fiber (event_ctx c e)) as [f|]; try done; injection Hw as <-.
  - pose proof (on_sched_eq _ s _ _ (push_task (sched s) (WCb cb))) as Hs. stepM Hs. done.
  - pose proof (on_sched_eq _ s _ _ (push_task (sched s) (WFiber f))) as Hs. stepM Hs. done.
Qed.

(** Changing one context. *)
Lemma IoInv_update s s' fd c c' :
  IoInv s → m_fdContexts s !! fd = Some c → m_fdContexts s' = <[fd := c']> (m_fdContexts s) → ctx_ok fd c' →
  m_pendingEventCount s' = m_pendingEventCount s + nev c' - nev c →
  interest (kernel s') fd = watch (fc_events c') → (∀ g, g ≠ fd → interest (kernel s') g = interest (kernel s) g) →
  IoInv s'.
Proof.
  intros HI Hc Hs Hok Hp Hw Ho. split; [|by rewrite Hs, length_insert; apply HI|..].
  - intros g d. rewrite Hs. intros [(<- & <- & _)|[_ Hg]]%list_lookup_insert_Some; [done|]. by apply HI.
  - rewrite Hp, Hs, (io_pending _ HI). pose proof (sum_list_with_insert nev _ _ _ c' Hc).
    pose proof (sum_list_with_ge nev _ _ _ Hc). lia.
  - intros g. rewrite Hs. destruct (decide (g = fd)) as [->|Hne].
    + rewrite list_lookup_insert_eq by (by eapply lookup_lt_Some). done.
    + rewrite list_lookup_insert_ne by done. rewrite Ho by done. apply HI.
Qed.
Lemma reg_update s s' fd c' g e :
  is_Some (m_fdContexts s !! fd) → m_fdContexts s' = <[fd := c']> (m_fdContexts s) →
  reg s' g e = if decide (g = fd) then waiter_of (event_ctx c' e) else reg s g e.
Proof.
  intros [c Hc] Hs. unfold reg. rewrite Hs. destruct (decide (g = fd)) as [->|Hne].
  - by rewrite list_lookup_insert_eq by (by eapply lookup_lt_Some).
  - by rewrite list_lookup_insert_ne.
Qed.

(** epoll_ctl as it is called: a failure changes nothing. *)
Lemma ctl_eq op fd ev s : ∃ ok k,
  epoll_ctl (kernel s) op fd ev = (k, ok) ∧
  ctl op fd ev s = Ret ok (set_kernel k s) ∧ (ok = false → k = kernel s) ∧
  (ok = true → interest k fd = match op with EPOLL_CTL_DEL => 0%Z | _ => ev end) ∧
  (∀ g, g ≠ fd → interest k g = interest (kernel s) g).
Proof.
  unfold ctl. destruct (epoll_ctl (kernel s) op fd ev) as [k ok] eqn:E. exists ok, k. split_and!.
  - done.
  - done.
  - intros ->. by eapply ctl_fail.
  - intros ->. by eapply ctl_set.
  - intros g Hg. by eapply ctl_other.
Qed.
Lemma watch_op ev k fd :
  interest k fd = match (if (ev =? 0)%Z then EPOLL_CTL_DEL else EPOLL_CTL_MOD) with
                  | EPOLL_CTL_DEL => 0%Z | _ => Z.lor EPOLLET ev end →
  interest k fd = watch ev.
Proof. unfold watch. by destruct (ev =? 0)%Z. Qed.

(** Taking one registration out: the state after delEvent and, with the
    waiter scheduled, after cancelEvent. *)
Lemma Inv_cleared s s' fd c e w :
  IoInv s → m_fdContexts s !! fd = Some c → e ≠ NONE → waiter_of (event_ctx c e) = Some w →
  m_fdContexts s' = <[fd := cleared e c]> (m_fdContexts s) →
  m_pendingEventCount s' = m_pendingEventCount s - 1 →
  interest (kernel s') fd = watch (Z.ldiff (fc_events c) (ebit e)) →
  (∀ g, g ≠ fd → interest (kernel s') g = interest (kernel s) g) →
  IoInv s' ∧ ∀ g e', reg s' g e' = if decide (g = fd ∧ e' = e) then None else reg s g e'.
Proof.
  intros HI Hc He Hw Hs Hp Hk Ho. pose proof (io_ctx _ HI _ _ Hc) as Hok. split.
  - eapply (IoInv_update s s' fd c (cleared e c)); try done.
    + by apply cleared_ok.
    + rewrite Hp, (cleared_nev c e w) by done. lia.
    + by rewrite cleared_events.
  - intros g e'. rewrite (reg_update s s' fd (cleared e c)) by (rewrite ?Hc; done).
    destruct (decide (g = fd)) as [->|Hne].
    + rewrite cleared_reg by done. unfold reg. rewrite Hc. cbn.
      destruct (decide (e' = e)) as [->|]; [by rewrite decide_True|]. rewrite decide_False; [done|]. tauto.
    + rewrite decide_False; [done|]. tauto.
Qed.
Lemma Inv_same s s' :
  IoInv s → m_fdContexts s' = m_fdContexts s → m_pendingEventCount s' = m_pendingEventCount s →
  kernel s' = kernel s → IoInv s' ∧ ∀ g e', reg s' g e' = reg s g e'.
Proof.
  intros HI Hs Hp Hk. split; [|unfold reg; by rewrite Hs].
  split; [by rewrite Hs; apply HI|by rewrite Hs; apply HI|by rewrite Hp, Hs; apply HI|by rewrite Hk, Hs; apply HI].
Qed.
Lemma has_context_eq fd s : has_context fd s = Ret (fd <? length (m_fdContexts s)) s.
Proof. done. Qed.
Lemma reg_beyond s fd e : (fd <? length (m_fdContexts s)) = false → reg s fd e = None.
Proof. intros Hf%Nat.ltb_ge. unfold reg. by rewrite lookup_ge_None_2. Qed.

(** How the answer of an operation comes about: when it asks epoll ([ask]),
    for the registry [R'], the answer is epoll's; else it is false and the
    kernel is left alone. *)
Definition is_Some_b {A} (o : option A) : bool := match o with Some _ => true | None => false end.
Definition asked_epoll s fd (ask : bool) (R' : registry) (b : bool) s' : Prop :=
  if ask then sync fd (reg s) R' (kernel s) = (kernel s', b) else b = false ∧ kernel s' = kernel s.
Lemma not_asked s fd R' e : reg s fd e = None → asked_epoll s fd (is_Some_b (reg s fd e)) R' false s.
Proof. intros Hr. unfold asked_epoll. by rewrite Hr. Qed.
Lemma asked_drop s fd c e b k s' :
  IoInv s → m_fdContexts s !! fd = Some c → e ≠ NONE → is_Some (reg s fd e) → kernel s' = k →
  epoll_ctl (kernel s) (if (Z.ldiff (fc_events c) (ebit e) =? 0)%Z then EPOLL_CTL_DEL else EPOLL_CTL_MOD) fd
    (Z.lor EPOLLET (Z.ldiff (fc_events c) (ebit e))) = (k, b) →
  asked_epoll s fd (is_Some_b (reg s fd e)) (update fd e None (reg s)) b s'.
Proof.
  intros HI Hc He Hw <- Hep. unfold asked_epoll. destruct (Hw) as [w ->]. cbn.
  rewrite (sync_change _ _ fd _ (Z.ldiff (fc_events c) (ebit e))); [done|by apply (bits_some _ _ e)|].
  by rewrite bits_drop, (bits_reg s fd c).
Qed.

Lemma delEvent_spec s fd e :
  IoInv s → e ≠ NONE → ∃ b s', delEvent fd e s = Ret b s' ∧ IoInv s' ∧ sched s' = sched s ∧
    asked_epoll s fd (is_Some_b (reg s fd e)) (update fd e None (reg s)) b s' ∧
    ∀ g e', reg s' g e' = if b && bool_decide (g = fd ∧ e' = e) then None else reg s g e'.
Proof.
  intros HI He. unfold delEvent. rewrite (cbind_Ret _ _ _ _ _ (has_context_eq fd s)).
  destruct (fd <? length (m_fdContexts s)) eqn:Hlt; [|exists false, s; pose proof (not_asked s fd (update fd e None (reg s)) e (reg_beyond _ _ e Hlt)); done].
  apply Nat.ltb_lt, lookup_lt_is_Some in Hlt as [c Hc]. cbn [negb]. stepM (get_fd_eq _ _ _ Hc).
  pose proof (io_ctx _ HI _ _ Hc) as Hok. rewrite (events_bit_zero fd) by done.
  assert (Hrg : reg s fd e = waiter_of (event_ctx c e)) by (unfold reg; by rewrite Hc).
  destruct (waiter_of (event_ctx c e)) as [w|] eqn:Hw;
    [|exists false, s; pose proof (not_asked s fd (update fd e None (reg s)) e Hrg); done].
  assert (Hsm : is_Some (reg s fd e)) by (by rewrite Hrg).
  destruct (ctl_eq (if (Z.ldiff (fc_events c) (ebit e) =? 0)%Z then EPOLL_CTL_DEL else EPOLL_CTL_MOD) fd
              (Z.lor EPOLLET (Z.ldiff (fc_events c) (ebit e))) s) as (ok & k & Hep & Hctl & Hf & Ht & Ho).
  stepM Hctl. destruct ok; cbn [negb].
  - rewrite (cbind_Ret (cmodify _) _ _ tt _ eq_refl).
    assert (Hg : ∀ s0, getContext (put_events (Z.ldiff (fc_events c) (ebit e)) c) e s0 = Ret (event_ctx c e) s0)
      by (by destruct e).
    rewrite (cbind_Ret _ _ _ _ _ (Hg _)). unfold put_fd. rewrite (cbind_Ret (cmodify _) _ _ tt _ eq_refl).
    eexists true, _. split; [done|].
    edestruct (Inv_cleared s) as [HI' Hr]; [done|exact Hc|exact He|exact Hw|..].
    5: { split; [exact HI'|]. split; [done|]. split; [by eapply asked_drop|].
         intros g e'. rewrite Hr. cbn [andb]. by case_bool_decide; destruct (decide _). }
    + done.
    + done.
    + apply watch_op. by apply Ht.
    + done.
  - eexists false, _. split; [done|].
    assert (Hak : asked_epoll s fd (is_Some_b (reg s fd e)) (update fd e None (reg s)) false (set_kernel k s)) by (by eapply asked_drop).
    rewrite Hf in Hak |- * by done.
    destruct (Inv_same s (set_kernel (kernel s) s)) as [HI' Hr]; try done.
Qed.

Lemma cancelEvent_spec s fd e :
  IoInv s → e ≠ NONE → ∃ b s', cancelEvent fd e s = Ret b s' ∧ IoInv s' ∧
    (if b then ∃ w, reg s fd e = Some w ∧ sched s' = push (task_of w) (sched s) else sched s' = sched s) ∧
    asked_epoll s fd (is_Some_b (reg s fd e)) (update fd e None (reg s)) b s' ∧
    ∀ g e', reg s' g e' = if b && bool_decide (g = fd ∧ e' = e) then None else reg s g e'.
Proof.
  intros HI He. unfold cancelEvent. rewrite (cbind_Ret _ _ _ _ _ (has_context_eq fd s)).
  destruct (fd <? length (m_fdContexts s)) eqn:Hlt; [|exists false, s; pose proof (not_asked s fd (update fd e None (reg s)) e (reg_beyond _ _ e Hlt)); done].
  apply Nat.ltb_lt, lookup_lt_is_Some in Hlt as [c Hc]. cbn [negb]. stepM (get_fd_eq _ _ _ Hc).
  pose proof (io_ctx _ HI _ _ Hc) as Hok. rewrite (events_bit_zero fd) by done.
  assert (Hrg : reg s fd e = waiter_of (event_ctx c e)) by (unfold reg; by rewrite Hc).
  destruct (waiter_of (event_ctx c e)) as [w|] eqn:Hw;
    [|exists false, s; pose proof (not_asked s fd (update fd e None (reg s)) e Hrg); done].
  assert (Hsm : is_Some (reg s fd e)) by (by rewrite Hrg).
  destruct (ctl_eq (if (Z.ldiff (fc_events c) (ebit e) =? 0)%Z then EPOLL_CTL_DEL else EPOLL_CTL_MOD) fd
              (Z.lor EPOLLET (Z.ldiff (fc_events c) (ebit e))) s) as (ok & k & Hep & Hctl & Hf & Ht & Ho).
  stepM Hctl. destruct ok; cbn [negb].
  - rewrite (cbind_Ret (cmodify _) _ _ tt _ eq_refl).
    erewrite cbind_Ret; [|by apply (triggerEvent_eq fd e _ c w)].
    assert (Hlen : fd < length (m_fdContexts s)) by (by eapply lookup_lt_Some).
    erewrite cbind_Ret; [|apply (get_fd_eq fd _ (cleared e c)); by apply list_lookup_insert_eq].
    assert (Hput : put_events (Z.ldiff (fc_events c) (ebit e)) (cleared e c) = cleared e c) by (by destruct e).
    rewrite Hput. unfold put_fd. rewrite (cbind_Ret (cmodify _) _ _ tt _ eq_refl).
    eexists true, _. split; [done|].
    edestruct (Inv_cleared s) as [HI' Hr]; [done|exact Hc|exact He|exact Hw|..].
    5: { split; [exact HI'|]. split; [exists w; split; [unfold reg; by rewrite Hc|done]|]. split; [by eapply asked_drop|].
         intros g e'. rewrite Hr. cbn [andb]. by case_bool_decide; destruct (decide _). }
    + cbn. by rewrite list_insert_insert_eq.
    + done.
    + apply watch_op. by apply Ht.
    + done.
  - eexists false, _. split; [done|].
    assert (Hak : asked_epoll s fd (is_Some_b (reg s fd e)) (update fd e None (reg s)) false (set_kernel k s)) by (by eapply asked_drop).
    rewrite Hf in Hak |- * by done.
    destruct (Inv_same s (set_kernel (kernel s) s)) as [HI' Hr]; try done.
Qed.

Lemma drop_both (r w : bool) fd R g e :
  drop_if r fd READ (drop_if w fd WRITE R) g e =
  if bool_decide (g = fd) && ((r && bool_decide (e = READ)) || (w && bool_decide (e = WRITE))) then None else R g e.
Proof.
  unfold drop_if, update. destruct r, w; cbn [andb orb]; try done;
    destruct (bool_decide (g = fd)); cbn [andb]; try done; by destruct e.
Qed.
(** Triggering under a condition; the waiters in the order they are
    scheduled. *)
Definition push_all (ts : list waiter) (w : world) : world := fold_left (λ w t, push (task_of t) w) ts w.
Definition fired (on : bool) (e : Event) (c : FdContext) : FdContext := if on then cleared e c else c.
Definition woken (on : bool) (e : Event) (c : FdContext) : list waiter :=
  if on then option_list (waiter_of (event_ctx c e)) else [].

Lemma push_all_queue ts w : m_fibers (push_all ts w) = m_fibers w ++ (task_of <$> ts).
Proof.
  revert w. induction ts as [|t ts IH]; intros w; cbn; [by rewrite app_nil_r|].
  unfold push_all in IH. rewrite IH, push_queue. by rewrite <- app_assoc.
Qed.
Lemma push_all_app ts ts' w : push_all (ts ++ ts') w = push_all ts' (push_all ts w).
Proof. unfold push_all. by rewrite fold_left_app. Qed.

Lemma trigger_if_eq on fd e s c :
  m_fdContexts s !! fd = Some c → ctx_ok fd c → e ≠ NONE →
  (on = true → is_Some (waiter_of (event_ctx c e))) →
  trigger_if on fd e s = Ret tt (mkIO (<[fd := fired on e c]> (m_fdContexts s))
    (m_pendingEventCount s - length (woken on e c)) (kernel s) (push_all (woken on e c) (sched s))).
Proof.
  intros Hc Hok He Hon. unfold trigger_if. destruct on; cbn [fired woken].
  - destruct (Hon eq_refl) as [w Hw]. rewrite Hw. erewrite cbind_Ret; [|by apply (triggerEvent_eq fd e s c w)]. done.
  - rewrite list_insert_id by done. rewrite Nat.sub_0_r. by destruct s.
Qed.
Lemma fired_ok on fd e c : ctx_ok fd c → e ≠ NONE → ctx_ok fd (fired on e c).
Proof. intros. destruct on; [by apply cleared_ok|done]. Qed.
Lemma fired_nev on c e :
  e ≠ NONE → (on = true → is_Some (waiter_of (event_ctx c e))) → nev c = length (woken on e c) + nev (fired on e c).
Proof.
  intros He Hon. destruct on; [|done]. destruct (Hon eq_refl) as [w Hw]. cbn [fired woken].
  rewrite (cleared_nev c e w) by done. rewrite Hw. cbn. lia.
Qed.
Lemma fired_reg on c e e' :
  e ≠ NONE → waiter_of (event_ctx (fired on e c) e') = if on && bool_decide (e' = e) then None else waiter_of (event_ctx c e').
Proof.
  intros He. destruct on; cbn [fired andb]; [|done]. rewrite cleared_reg by done.
  by case_bool_decide; destruct (decide _).
Qed.

(** Both events of a descriptor, READ before WRITE: cancelAll and idle(). *)
Lemma trigger_both s fd c r w :
  m_fdContexts s !! fd = Some c → ctx_ok fd c →
  (r = true → is_Some (waiter_of (fc_read c))) → (w = true → is_Some (waiter_of (fc_write c))) →
  let c' := fired w WRITE (fired r READ c) in
  let ts := woken r READ c ++ woken w WRITE c in
  ∃ s', (let! _ := trigger_if r fd READ in trigger_if w fd WRITE) s = Ret tt s' ∧
    m_fdContexts s' = <[fd := c']> (m_fdContexts s) ∧ ctx_ok fd c' ∧
    m_pendingEventCount s' = m_pendingEventCount s - length ts ∧ nev c = length ts + nev c' ∧
    kernel s' = kernel s ∧ sched s' = push_all ts (sched s).
Proof.
  intros Hc Hok Hr Hw c' ts.
  assert (Hlen : fd < length (m_fdContexts s)) by (by eapply lookup_lt_Some).
  pose proof (trigger_if_eq r fd READ s c Hc Hok ltac:(done) Hr) as H1.
  assert (Hw1 : waiter_of (event_ctx (fired r READ c) WRITE) = waiter_of (fc_write c)).
  { rewrite fired_reg by done. by rewrite andb_false_r. }
  assert (Hwk : woken w WRITE (fired r READ c) = woken w WRITE c) by (unfold woken; by rewrite Hw1).
  stepM H1. eexists. split.
  { apply (trigger_if_eq w fd WRITE _ (fired r READ c)); [by apply list_lookup_insert_eq|by apply fired_ok|done|].
    by rewrite Hw1. }
  cbn. rewrite list_insert_insert_eq, Hwk. split; [done|]. split; [apply fired_ok; [by apply fired_ok|done]|].
  unfold ts. rewrite length_app, push_all_app. split; [lia|]. split; [|done].
  rewrite (fired_nev r c READ) by done. rewrite (fired_nev w (fired r READ c) WRITE) by (rewrite ?Hw1; done).
  rewrite Hwk. unfold c'. lia.
Qed.

Lemma both_events c fd r w :
  ctx_ok fd c → (r = true → is_Some (waiter_of (fc_read c))) → (w = true → is_Some (waiter_of (fc_write c))) →
  fc_events (fired w WRITE (fired r READ c)) =
  Z.ldiff (fc_events c) (Z.lor (if r then ebit READ else 0) (if w then ebit WRITE else 0)).
Proof.
  intros Hok _ _. rewrite (ok_events _ _ Hok). destruct r, w; cbn [fired];
    rewrite ?cleared_events by done; rewrite ?(ok_events _ _ Hok); unfold evbits, some_bit;
    destruct (waiter_of (fc_read c)), (waiter_of (fc_write c)); reflexivity.
Qed.

Definition waiting_on (c : FdContext) (e : Event) : bool :=
  match waiter_of (event_ctx c e) with Some _ => true | None => false end.
Lemma waiting_on_Some c e : waiting_on c e = true → is_Some (waiter_of (event_ctx c e)).
Proof. unfold waiting_on. by destruct (waiter_of _). Qed.
Lemma bit_waiting fd c e :
  ctx_ok fd c → e ≠ NONE → negb (Z.land (fc_events c) (ebit e) =? 0)%Z = waiting_on c e.
Proof. intros. rewrite (events_bit_zero fd) by done. unfold waiting_on. by destruct (waiter_of _). Qed.

(** After both triggers, with the descriptor's interest set to what is
    left. *)
Lemma both_done s s' fd c r w k :
  IoInv s → m_fdContexts s !! fd = Some c →
  (r = true → is_Some (waiter_of (fc_read c))) → (w = true → is_Some (waiter_of (fc_write c))) →
  let c' := fired w WRITE (fired r READ c) in
  m_fdContexts s' = <[fd := c']> (m_fdContexts s) →
  m_pendingEventCount s' = m_pendingEventCount s - length (woken r READ c ++ woken w WRITE c) →
  kernel s' = k → interest k fd = watch (fc_events c') → (∀ g, g ≠ fd → interest k g = interest (kernel s) g) →
  IoInv s' ∧ ∀ g e', reg s' g e' =
    if bool_decide (g = fd) && ((r && bool_decide (e' = READ)) || (w && bool_decide (e' = WRITE)))
    then None else reg s g e'.
Proof.
  intros HI Hc Hr Hw c' Hs Hp Hk Hwt Ho. pose proof (io_ctx _ HI _ _ Hc) as Hok.
  assert (Hok' : ctx_ok fd c') by (apply fired_ok; [by apply fired_ok|done]).
  assert (Hnev : nev c = length (woken r READ c ++ woken w WRITE c) + nev c').
  { destruct (trigger_both s fd c r w Hc Hok Hr Hw) as (s0 & _ & _ & _ & _ & Hn & _). exact Hn. }
  split.
  - eapply (IoInv_update s s' fd c c'); try done; rewrite ?Hk; try done. rewrite Hp. lia.
  - intros g e'. rewrite (reg_update s s' fd c') by (rewrite ?Hc; done).
    destruct (decide (g = fd)) as [->|Hne]; [|by rewrite bool_decide_false].
    rewrite bool_decide_true by done. unfold c'. rewrite !fired_reg by done. cbn [andb].
    unfold reg. rewrite Hc. cbn [mbind option_bind].
    destruct (w && bool_decide (e' = WRITE)); [by rewrite orb_true_r|]. rewrite orb_false_r.
    by destruct (r && bool_decide (e' = READ)).
Qed.

Lemma cancelAll_spec s fd :
  IoInv s → ∃ b s', cancelAll fd s = Ret b s' ∧ IoInv s' ∧
    (if b then sched s' = push_all (option_list (reg s fd READ) ++ option_list (reg s fd WRITE)) (sched s)
     else sched s' = sched s) ∧
    asked_epoll s fd (is_Some_b (reg s fd READ) || is_Some_b (reg s fd WRITE)) (update fd READ None (update fd WRITE None (reg s))) b s' ∧
    ∀ g e', reg s' g e' = if b && bool_decide (g = fd) then None else reg s g e'.
Proof.
  intros HI. unfold cancelAll. rewrite (cbind_Ret _ _ _ _ _ (has_context_eq fd s)).
  destruct (fd <? length (m_fdContexts s)) eqn:Hlt;
    [|exists false, s; unfold asked_epoll; by rewrite !(reg_beyond s fd _ Hlt)].
  apply Nat.ltb_lt, lookup_lt_is_Some in Hlt as [c Hc]. cbn [negb]. stepM (get_fd_eq _ _ _ Hc).
  pose proof (io_ctx _ HI _ _ Hc) as Hok. assert (Hlen : fd < length (m_fdContexts s)) by (by eapply lookup_lt_Some).
  set (R' := update fd READ None (update fd WRITE None (reg s))).
  assert (Hany : (is_Some_b (reg s fd READ) || is_Some_b (reg s fd WRITE)) = negb (fc_events c =? 0)%Z).
  { rewrite (bits_reg s fd c) by done. unfold bits. by destruct (reg s fd READ), (reg s fd WRITE). }
  rewrite Hany. destruct (fc_events c =? 0)%Z eqn:Hz; [by exists false, s|]. cbn [negb].
  assert (HR' : sync fd (reg s) R' (kernel s) = epoll_ctl (kernel s) EPOLL_CTL_DEL fd 0).
  { assert (Hb : bits R' fd = 0%Z) by (unfold bits, R', update; rewrite bool_decide_true by done; done).
    unfold sync. by rewrite Hb. }
  destruct (ctl_eq EPOLL_CTL_DEL fd 0 s) as (ok & k & Hep & Hctl & Hf & Ht & Ho). stepM Hctl. destruct ok; cbn [negb].
  2: { eexists false, _. split; [done|]. unfold asked_epoll. rewrite HR', Hep. rewrite Hf by done.
       destruct (Inv_same s (set_kernel (kernel s) s)) as [HI' Hr]; try done. }
  rewrite (bit_waiting fd) by done.
  erewrite cbind_Ret; [|apply (trigger_if_eq _ fd READ _ c); [done|done|done|apply waiting_on_Some]].
  set (c1 := fired (waiting_on c READ) READ c).
  assert (Hok1 : ctx_ok fd c1) by (by apply fired_ok).
  erewrite cbind_Ret; [|apply (get_fd_eq fd _ c1); by apply list_lookup_insert_eq].
  rewrite (bit_waiting fd) by done.
  erewrite cbind_Ret; [|apply (trigger_if_eq _ fd WRITE _ c1); [by apply list_lookup_insert_eq|done|done|apply waiting_on_Some]].
  assert (Hw1 : waiter_of (event_ctx c1 WRITE) = waiter_of (fc_write c)).
  { unfold c1. rewrite fired_reg by done. by rewrite andb_false_r. }
  assert (Hwo : waiting_on c1 WRITE = waiting_on c WRITE) by (unfold waiting_on; by rewrite Hw1).
  assert (Hwk : woken (waiting_on c WRITE) WRITE c1 = woken (waiting_on c WRITE) WRITE c) by (unfold woken; by rewrite Hw1).
  rewrite Hwo. set (c2 := fired (waiting_on c WRITE) WRITE c1).
  erewrite cbind_Ret; [|apply (get_fd_eq fd _ c2); apply list_lookup_insert_eq; cbn [m_fdContexts]; by rewrite length_insert].
  assert (He2 : fc_events c2 = 0%Z).
  { unfold c2, c1. rewrite (both_events c fd) by (done || apply waiting_on_Some).
    rewrite (ok_events _ _ Hok). unfold evbits, some_bit, waiting_on. cbn [event_ctx].
    destruct (waiter_of (fc_read c)), (waiter_of (fc_write c)); reflexivity. }
  assert (Hput : put_events 0 c2 = c2) by (rewrite <- He2; by destruct c2).
  rewrite Hput. unfold put_fd. rewrite (cbind_Ret (cmodify _) _ _ tt _ eq_refl).
  eexists true, _. split; [done|].
  edestruct (both_done s) as [HI' Hr]; [done|exact Hc|apply (waiting_on_Some c READ)|apply (waiting_on_Some c WRITE)|..].
  6: { split; [exact HI'|]. split.
       - cbn. unfold reg. rewrite Hc. cbn. rewrite Hwk, <- push_all_app. unfold woken, waiting_on. cbn [event_ctx].
         by destruct (waiter_of (fc_read c)), (waiter_of (fc_write c)).
       - split; [unfold asked_epoll; by rewrite HR', Hep|]. intros g e'. rewrite Hr. cbn [andb]. case_bool_decide as Hg; cbn [andb]; [|done]. subst g.
         unfold reg. rewrite Hc. unfold waiting_on. cbn.
         destruct e'; cbn; try done; by destruct (waiter_of (fc_read c)), (waiter_of (fc_write c)). }
  - cbn. by rewrite !list_insert_insert_eq.
  - cbn. rewrite Hwk, length_app. lia.
  - done.
  - fold c1 c2. rewrite He2. cbn. by apply Ht.
  - done.
Qed.

(** What idle() takes a ready entry for: the event itself, or an error on a
    descriptor that has it registered. *)
Definition ready_for (s : io K) (fd : nat) (events : Z) (e : Event) : bool :=
  negb (Z.land events (ebit e) =? 0)%Z ||
  (negb (Z.land events (Z.lor EPOLLERR EPOLLHUP) =? 0)%Z && match reg s fd e with Some _ => true | None => false end).

Lemma land_bit_test ev b n : (0 ≤ n)%Z → b = (2 ^ n)%Z → negb (Z.land ev b =? 0)%Z = Z.testbit ev n.
Proof.
  intros Hn ->. destruct (Z.testbit ev n) eqn:Ht.
  - apply negb_true_iff, Z.eqb_neq. intros Hz. assert (Hb : Z.testbit (Z.land ev (2 ^ n)) n = false) by (rewrite Hz; apply Z.bits_0).
    rewrite Z.land_spec, Ht, Z.pow2_bits_true in Hb by done. done.
  - apply negb_false_iff, Z.eqb_eq. apply Z.bits_inj'. intros m Hm. rewrite Z.land_spec, Z.bits_0, Z.pow2_bits_eqb by done.
    destruct (Z.eqb_spec n m) as [<-|]; [by rewrite Ht|by rewrite andb_false_r].
Qed.
Lemma ready_bits s fd c events e :
  m_fdContexts s !! fd = Some c → ctx_ok fd c → e ≠ NONE →
  negb (Z.land (if negb (Z.land events (Z.lor EPOLLERR EPOLLHUP) =? 0)%Z
                then Z.lor events (Z.land (Z.lor EPOLLIN EPOLLOUT) (fc_events c)) else events) (ebit e) =? 0)%Z =
  ready_for s fd events e.
Proof.
  intros Hc Hok He. unfold ready_for, reg. rewrite Hc. cbn [mbind option_bind].
  set (err := negb (Z.land events (Z.lor EPOLLERR EPOLLHUP) =? 0)%Z).
  assert (Hn : ∃ n, (0 ≤ n)%Z ∧ ebit e = (2 ^ n)%Z ∧ Z.testbit (Z.lor EPOLLIN EPOLLOUT) n = true).
  { destruct e; [done|exists 0%Z; done|exists 2%Z; done]. }
  destruct Hn as (n & Hn & Hb & Hio). rewrite !(land_bit_test _ _ n) by done.
  assert (Hev : Z.testbit (fc_events c) n = match waiter_of (event_ctx c e) with Some _ => true | None => false end).
  { rewrite <- (land_bit_test _ (ebit e) n) by done. rewrite (bit_waiting fd) by done. done. }
  destruct err; [|by rewrite orb_false_r].
  by rewrite Z.lor_spec, Z.land_spec, Hio, Hev.
Qed.

(** The events of a report, and what is left of the registration. *)
Definition reported s fd events : Z :=
  Z.lor (if ready_for s fd events READ then ebit READ else 0) (if ready_for s fd events WRITE then ebit WRITE else 0).
Definition left_after s fd events : registry :=
  drop_if (ready_for s fd events READ) fd READ (drop_if (ready_for s fd events WRITE) fd WRITE (reg s)).
(** Some registered event is reported. *)
Definition hits s fd events : bool :=
  (ready_for s fd events READ && is_Some_b (reg s fd READ)) || (ready_for s fd events WRITE && is_Some_b (reg s fd WRITE)).
(** A reported event is not registered any more. *)
Definition stale s fd events : bool :=
  (ready_for s fd events READ && negb (is_Some_b (reg s fd READ))) ||
  (ready_for s fd events WRITE && negb (is_Some_b (reg s fd WRITE))).

Lemma handle_event_eq s fd events c :
  IoInv s → m_fdContexts s !! fd = Some c →
  handle_event (Ready fd events) s =
  if hits s fd events then
    let '(k, ok) := sync fd (reg s) (left_after s fd events) (kernel s) in
    if ok then (let! _ := trigger_if (ready_for s fd events READ) fd READ in
                trigger_if (ready_for s fd events WRITE) fd WRITE) (set_kernel k s)
    else Ret tt (set_kernel k s)
  else Ret tt s.
Proof.
  intros HI Hc. pose proof (io_ctx _ HI _ _ Hc) as Hok. unfold handle_event. stepM (get_fd_eq _ _ _ Hc).
  pose proof (ready_bits s fd c events READ Hc Hok ltac:(done)) as HR.
  pose proof (ready_bits s fd c events WRITE Hc Hok ltac:(done)) as HW.
  set (ev' := if negb (Z.land events (Z.lor EPOLLERR EPOLLHUP) =? 0)%Z then _ else _) in HR, HW |- *.
  change (ebit READ) with EPOLLIN in HR. change (ebit WRITE) with EPOLLOUT in HW. rewrite HR, HW. clear HR HW ev'.
  fold (reported s fd events).
  assert (Hhit : (Z.land (fc_events c) (reported s fd events) =? 0)%Z = negb (hits s fd events)).
  { rewrite (bits_reg s fd c) by done. unfold bits, reported, hits.
    by destruct (ready_for s fd events READ), (ready_for s fd events WRITE), (reg s fd READ), (reg s fd WRITE). }
  rewrite Hhit. destruct (hits s fd events) eqn:Hh; cbn [negb]; [|done].
  assert (Hreal : (negb (Z.land (reported s fd events) (ebit READ) =? 0)%Z = ready_for s fd events READ) ∧
                  (negb (Z.land (reported s fd events) (ebit WRITE) =? 0)%Z = ready_for s fd events WRITE)).
  { unfold reported. by destruct (ready_for s fd events READ), (ready_for s fd events WRITE). }
  destruct Hreal as [-> ->].
  assert (Hsy : sync fd (reg s) (left_after s fd events) (kernel s) =
    epoll_ctl (kernel s) (if (Z.ldiff (fc_events c) (reported s fd events) =? 0)%Z then EPOLL_CTL_DEL else EPOLL_CTL_MOD)
      fd (Z.lor EPOLLET (Z.ldiff (fc_events c) (reported s fd events)))).
  { apply sync_change; rewrite ?(bits_reg s fd c) by done.
    - unfold hits in Hh. unfold bits.
      by destruct (reg s fd READ), (reg s fd WRITE), (ready_for s fd events READ), (ready_for s fd events WRITE).
    - unfold left_after, reported, bits. destruct (ready_for s fd events READ), (ready_for s fd events WRITE);
        unfold drop_if, update; rewrite ?bool_decide_true by done; cbn; by destruct (reg s fd READ), (reg s fd WRITE). }
  rewrite Hsy, (ok_fd _ _ Hok). unfold ctl.
  destruct (epoll_ctl (kernel s) _ fd _) as [k ok] eqn:Hep.
  erewrite cbind_Ret; [|by rewrite Hep]. by destruct ok.
Qed.

Lemma trigger_if_stale s fd e c :
  m_fdContexts s !! fd = Some c → ctx_ok fd c → e ≠ NONE → waiter_of (event_ctx c e) = None →
  trigger_if true fd e s = Stuck AssertFailed.
Proof.
  intros Hc Hok He Hw. unfold trigger_if, triggerEvent. rewrite cbind_assoc. stepM (get_fd_eq _ _ _ Hc).
  rewrite (events_bit_zero fd) by done. by rewrite Hw.
Qed.

Lemma handle_event_spec s fd events :
  IoInv s → fd < length (m_fdContexts s) →
  if hits s fd events then
    let '(k, ok) := sync fd (reg s) (left_after s fd events) (kernel s) in
    if ok && stale s fd events then handle_event (Ready fd events) s = Stuck AssertFailed
    else ∃ s', handle_event (Ready fd events) s = Ret tt s' ∧ IoInv s' ∧ kernel s' = k ∧
      if ok then sched s' = push_all (wake_if (ready_for s fd events READ) fd READ (reg s) ++
                                      wake_if (ready_for s fd events WRITE) fd WRITE (reg s)) (sched s) ∧
                 ∀ g e', reg s' g e' = left_after s fd events g e'
      else sched s' = sched s ∧ ∀ g e', reg s' g e' = reg s g e'
  else handle_event (Ready fd events) s = Ret tt s.
Proof.
  intros HI Hlen. apply lookup_lt_is_Some in Hlen as Hcc. destruct Hcc as [c Hc].
  pose proof (io_ctx _ HI _ _ Hc) as Hok. rewrite (handle_event_eq s fd events c) by done.
  destruct (hits s fd events) eqn:Hh; [|done].
  destruct (sync fd (reg s) (left_after s fd events) (kernel s)) as [k ok] eqn:Hsy.
  unfold sync in Hsy. destruct ok; cbn [andb].
  2: { apply ctl_fail in Hsy as ->. destruct (Inv_same s (set_kernel (kernel s) s)) as [HI' Hr']; try done.
       by exists (set_kernel (kernel s) s). }
  assert (HwR : reg s fd READ = waiter_of (fc_read c)) by (unfold reg; by rewrite Hc).
  assert (HwW : reg s fd WRITE = waiter_of (fc_write c)) by (unfold reg; by rewrite Hc).
  assert (Hlen' : fd < length (m_fdContexts s)) by done.
  destruct (stale s fd events) eqn:Hst; unfold stale in Hst; unfold hits in Hh.
  - destruct (ready_for s fd events READ) eqn:HR.
    + destruct (waiter_of (fc_read c)) as [x|] eqn:Hx; rewrite HwR in Hst, Hh; cbn in Hst, Hh.
      * destruct (ready_for s fd events WRITE); [|done]. rewrite HwW in Hst.
        pose proof (trigger_if_eq true fd READ (set_kernel k s) c Hc Hok ltac:(done) ltac:(cbn; by rewrite Hx)) as H1.
        stepM H1. apply (trigger_if_stale _ fd WRITE (fired true READ c)); [by apply list_lookup_insert_eq|by apply fired_ok|done|].
        rewrite fired_reg by done. cbn. by destruct (waiter_of (fc_write c)).
      * unfold cbind. by rewrite (trigger_if_stale _ fd READ c).
    + destruct (ready_for s fd events WRITE); [|done]. rewrite HwW in Hst, Hh. cbn in Hst, Hh.
      by destruct (waiter_of (fc_write c)).
  - set (r := ready_for s fd events READ) in *. set (w := ready_for s fd events WRITE) in *.
    assert (Hr : r = true → is_Some (waiter_of (fc_read c))).
    { intros Hr. rewrite Hr, HwR in Hst. by destruct (waiter_of (fc_read c)). }
    assert (Hw : w = true → is_Some (waiter_of (fc_write c))).
    { intros Hw. rewrite Hw, HwW in Hst. destruct (waiter_of (fc_write c)); [done|]. by rewrite orb_true_r in Hst. }
    destruct (trigger_both (set_kernel k s) fd c r w Hc Hok Hr Hw) as (s' & Hrun & Hs' & Hok' & Hp' & Hn' & Hk' & Hsc').
    exists s'. split; [exact Hrun|].
    destruct (both_done s s' fd c r w k HI Hc Hr Hw Hs' Hp' Hk') as [HI' Hreg'].
    + assert (Hb : bits (left_after s fd events) fd = fc_events (fired w WRITE (fired r READ c))).
      { rewrite (both_events c fd) by done. rewrite (bits_reg s fd c) by done. unfold left_after, bits. fold r w.
        destruct r, w; unfold drop_if, update; rewrite ?bool_decide_true by done; cbn; by destruct (reg s fd READ), (reg s fd WRITE). }
      rewrite <- Hb. apply ctl_set in Hsy. rewrite Hsy. unfold watch.
      destruct (bits (left_after s fd events) fd =? 0)%Z; [done|]. by destruct (bits (reg s) fd =? 0)%Z.
    + intros g Hg. by eapply ctl_other.
    + split; [done|]. split; [done|]. rewrite Hsc'. unfold wake_if. rewrite HwR, HwW. split; [done|].
      intros g e'. rewrite Hreg'. unfold left_after. fold r w. by rewrite drop_both.
Qed.

Lemma cassert_bind {A} (b : bool) (k : unit → M (io K) A) s : b = true → cbind (cassert b) k s = k tt s.
Proof. by intros ->. Qed.
Lemma new_fd_ok fd : ctx_ok fd (new_fd fd).
Proof. split; [done|done|]. by intros []. Qed.
Lemma resize_spec s size :
  IoInv s → length (m_fdContexts s) ≤ size →
  ∃ s', contextResize size s = Ret tt s' ∧ IoInv s' ∧ length (m_fdContexts s') = size ∧ sched s' = sched s ∧
    kernel s' = kernel s ∧ ∀ g e, reg s' g e = reg s g e.
Proof.
  intros HI Hle. eexists. split; [done|]. cbn. rewrite take_ge by done.
  set (l := m_fdContexts s). set (n := size - length l).
  assert (Hlk : ∀ g c, (l ++ (new_fd <$> seq (length l) n)) !! g = Some c →
            l !! g = Some c ∨ (l !! g = None ∧ c = new_fd g)).
  { intros g c [?|[Hg Hx]]%lookup_app_Some; [auto|]. right. split; [by apply lookup_ge_None|].
    apply list_lookup_fmap_Some in Hx as (j & -> & [-> _]%lookup_seq). f_equal. lia. }
  split_and!.
  - split; cbn; fold l.
    + intros g c [Hg|[_ ->]]%Hlk; [by apply HI|apply new_fd_ok].
    + rewrite length_app. pose proof (io_len _ HI). fold l in H. lia.
    + rewrite sum_list_with_app, (io_pending _ HI). fold l.
      assert (Hz : ∀ k m, sum_list_with nev (new_fd <$> seq k m) = 0).
      { intros k m. revert k. induction m as [|m IH]; intros k; [done|]. cbn. by rewrite IH. }
      rewrite Hz. lia.
    + intros g. rewrite (io_watch _ HI g). fold l.
      destruct ((l ++ (new_fd <$> seq (length l) n)) !! g) as [c|] eqn:Hg.
      * apply Hlk in Hg as [-> |[-> ->]]; done.
      * apply lookup_ge_None in Hg. rewrite length_app in Hg. by rewrite (lookup_ge_None_2 l) by lia.
  - rewrite length_app, length_fmap, length_seq. subst n. unfold l. lia.
  - done.
  - done.
  - intros g e. unfold reg. cbn. fold l.
    destruct ((l ++ (new_fd <$> seq (length l) n)) !! g) as [c|] eqn:Hg.
    + apply Hlk in Hg as [-> |[-> ->]]; [done|]. by destruct e.
    + apply lookup_ge_None in Hg. rewrite length_app in Hg. by rewrite (lookup_ge_None_2 l) by lia.
Qed.

Definition registered (e : Event) (ec : EventContext) (c : FdContext) : FdContext :=
  put_event e ec (put_events (Z.lor (fc_events c) (ebit e)) c).
Lemma registered_ok fd c e ec w :
  ctx_ok fd c → e ≠ NONE → waiter_of (event_ctx c e) = None → waiter_of ec = Some w →
  ctx_ok fd (registered e ec c) ∧ nev (registered e ec c) = S (nev c) ∧
  fc_events (registered e ec c) = Z.lor (fc_events c) (ebit e) ∧
  ∀ e', waiter_of (event_ctx (registered e ec c) e') = if decide (e' = e) then Some w else waiter_of (event_ctx c e').
Proof.
  intros Hok He Hn Hw. split_and!.
  - split.
    + rewrite <- (ok_fd _ _ Hok). by destruct e.
    + unfold registered. rewrite (ok_events _ _ Hok). unfold evbits, some_bit.
      destruct e; [done|..]; cbn in Hn |- *; rewrite Hw, Hn; [by destruct (waiter_of (fc_write c))|by destruct (waiter_of (fc_read c))].
    + intros e'. pose proof (ok_empty _ _ Hok e') as H'. destruct e, e'; cbn in *; try done; by rewrite Hw.
  - unfold nev. destruct e; [done|..]; cbn in Hn |- *; rewrite Hw, Hn; cbn; lia.
  - by destruct e.
  - intros e'. destruct e, e'; cbn in *; try done.
Qed.

Definition waiter_for (this : nat) (cb : option nat) : waiter :=
  match cb with Some x => WCb x | None => WFiber this end.
Lemma sync_add s fd c e x :
  IoInv s → m_fdContexts s !! fd = Some c → e ≠ NONE →
  sync fd (reg s) (update fd e (Some x) (reg s)) (kernel s) =
  epoll_ctl (kernel s) (if (fc_events c =? 0)%Z then EPOLL_CTL_ADD else EPOLL_CTL_MOD) fd
    (Z.lor (Z.lor EPOLLET (fc_events c)) (ebit e)).
Proof.
  intros HI Hc He. unfold sync, watch. rewrite bits_add by done. rewrite <- (bits_reg s fd c) by done.
  assert (Hnz : (Z.lor (fc_events c) (ebit e) =? 0)%Z = false).
  { apply Z.eqb_neq. intros [_ Hz]%Z.lor_eq_0_iff. by destruct e. }
  rewrite Hnz. by rewrite Z.lor_assoc.
Qed.
(** The assertions of addEvent: nobody waits for the event yet, and a fiber
    that registers itself is running. *)
Lemma add_locked_aborts s this fd e cb c :
  IoInv s → e ≠ NONE → m_fdContexts s !! fd = Some c → is_Some (waiter_of (event_ctx c e)) →
  add_locked this true fd e cb s = Stuck AssertFailed.
Proof.
  intros HI He Hc [w Hw]. unfold add_locked. stepM (get_fd_eq _ _ _ Hc).
  rewrite (events_bit_zero fd) by (done || by apply HI). by rewrite Hw.
Qed.

(** What addEvent answers, [ok] being epoll's answer: a fiber that registers
    itself has to be running. *)
Definition may_wait s (this : nat) (cb : option nat) : bool :=
  match cb with Some _ => true | None => bool_decide (fstate (sched s) !! this = Some EXEC) end.
Definition add_result s (this : nat) (cb : option nat) (ok : bool) s' : outcome (io K) Z :=
  if ok then if may_wait s this cb then Ret 0%Z s' else Stuck AssertFailed else Ret (-1)%Z s'.
Lemma add_result_fail s this cb s' : add_result s this cb false s' = Ret (-1)%Z s'.
Proof. done. Qed.
Lemma sync_ext fd R1 R2 R1' R2' (k : K) :
  (∀ g e, R2 g e = R1 g e) → (∀ g e, R2' g e = R1' g e) → sync fd R1 R1' k = sync fd R2 R2' k.
Proof. intros H H'. unfold sync, bits. by rewrite !H, !H'. Qed.

Lemma add_locked_spec s this fd e cb c :
  IoInv s → e ≠ NONE → m_fdContexts s !! fd = Some c → waiter_of (event_ctx c e) = None →
  (cb = None → is_Some (fstate (sched s) !! this)) →
  ∃ (ok : bool) s', add_locked this true fd e cb s = add_result s this cb ok s' ∧ IoInv s' ∧ sched s' = sched s ∧
    sync fd (reg s) (update fd e (Some (waiter_for this cb)) (reg s)) (kernel s) = (kernel s', ok) ∧
    ∀ g e', reg s' g e' =
      if ok && bool_decide (g = fd ∧ e' = e) then Some (waiter_for this cb) else reg s g e'.
Proof.
  intros HI He Hc Hn Hthis. unfold add_locked. stepM (get_fd_eq _ _ _ Hc).
  pose proof (io_ctx _ HI _ _ Hc) as Hok. rewrite (events_bit_zero fd) by done. rewrite Hn.
  rewrite (cbind_Ret (cassert true) _ s tt s eq_refl).
  destruct (ctl_eq (if (fc_events c =? 0)%Z then EPOLL_CTL_ADD else EPOLL_CTL_MOD) fd
              (Z.lor (Z.lor EPOLLET (fc_events c)) (ebit e)) s) as (ok & k & Hep & Hctl & Hf & Ht & Ho).
  stepM Hctl. exists ok. destruct ok; cbn [negb andb].
  2: { eexists. split; [by rewrite add_result_fail|]. rewrite (sync_add s fd c), Hep by done. rewrite Hf by done. destruct (Inv_same s (set_kernel (kernel s) s)) as [HI' Hr]; try done. }
  rewrite (cbind_Ret (cmodify _) _ _ tt _ eq_refl). unfold put_fd. rewrite (cbind_Ret (cmodify _) _ _ tt _ eq_refl).
  assert (Hg : ∀ s0, getContext (put_events (Z.lor (fc_events c) (ebit e)) c) e s0 = Ret empty_event s0).
  { intros s0. rewrite <- (ok_empty _ _ Hok e Hn). by destruct e. }
  rewrite (cbind_Ret _ _ _ _ _ (Hg _)).
  rewrite (cassert_bind (negb (ec_scheduler empty_event) && _ && _)) by done.
  set (ec := match cb with Some x => mkEvent true None (Some x) | None => mkEvent true (Some this) None end).
  set (wt := waiter_for this cb).
  destruct (registered_ok fd c e ec wt Hok He Hn) as (Hok' & Hnev & Hev & Hreg); [by destruct cb|].
  assert (Hfin : ∀ s', m_fdContexts s' = <[fd := registered e ec c]> (m_fdContexts s) →
     m_pendingEventCount s' = S (m_pendingEventCount s) → kernel s' = k → sched s' = sched s →
     IoInv s' ∧ sched s' = sched s ∧ sync fd (reg s) (update fd e (Some wt) (reg s)) (kernel s) = (kernel s', true) ∧
     ∀ g e', reg s' g e' = if bool_decide (g = fd ∧ e' = e) then Some wt else reg s g e').
  { intros s' Hs' Hp' Hk' Hsc'. split; [|split; [done|split; [by rewrite (sync_add s fd c), Hk', Hep|]]].
    - eapply (IoInv_update s s' fd c (registered e ec c)); try done.
      + rewrite Hp', Hnev. lia.
      + rewrite Hk', Hev. specialize (Ht eq_refl).
        assert (Hw : watch (Z.lor (fc_events c) (ebit e)) = Z.lor (Z.lor EPOLLET (fc_events c)) (ebit e)).
        { rewrite (ok_events _ _ Hok). unfold evbits, some_bit.
          destruct e; [done|..]; destruct (waiter_of (fc_read c)), (waiter_of (fc_write c)); reflexivity. }
        rewrite Hw. by destruct (fc_events c =? 0)%Z.
      + rewrite Hk'. done.
    - intros g e'. rewrite (reg_update s s' fd (registered e ec c)) by (rewrite ?Hc; done).
      destruct (decide (g = fd)) as [->|Hne].
      + rewrite Hreg. unfold reg. rewrite Hc. cbn.
        destruct (decide (e' = e)) as [->|]; [by rewrite bool_decide_true|]. rewrite bool_decide_false; [done|]. tauto.
      + rewrite bool_decide_false; [done|]. tauto. }
  destruct cb as [x|].
  - rewrite (cbind_Ret (cmodify _) _ _ tt _ eq_refl). eexists. split; [done|]. apply Hfin; try done.
    cbn. by rewrite list_insert_insert_eq.
  - rewrite (cbind_Ret (cmodify _) _ _ tt _ eq_refl). destruct (Hthis eq_refl) as [st Hst].
    erewrite cbind_Ret; [|apply on_sched_eq; by apply (getState_eq this _ st)].
    match goal with |- ∃ s', cbind _ _ ?x = _ ∧ _ => exists x end.
    split; [|apply Hfin; try done; cbn; by rewrite list_insert_insert_eq].
    unfold add_result. cbn [may_wait]. rewrite Hst. by destruct st.
Qed.

Lemma addEvent_spec s this fd e cb :
  IoInv s → e ≠ NONE → reg s fd e = None →
  (cb = None → is_Some (fstate (sched s) !! this)) →
  ∃ (ok : bool) s', addEvent this true fd e cb s = add_result s this cb ok s' ∧ IoInv s' ∧ sched s' = sched s ∧
    sync fd (reg s) (update fd e (Some (waiter_for this cb)) (reg s)) (kernel s) = (kernel s', ok) ∧
    ∀ g e', reg s' g e' =
      if ok && bool_decide (g = fd ∧ e' = e) then Some (waiter_for this cb) else reg s g e'.
Proof.
  intros HI He Hn Hthis. unfold addEvent. rewrite (cbind_Ret _ _ _ _ _ (has_context_eq fd s)).
  destruct (Nat.ltb_spec fd (length (m_fdContexts s))) as [Hlt|Hge].
  - apply lookup_lt_is_Some in Hlt as [c Hc]. rewrite (cbind_Ret (cret tt) _ s tt s eq_refl).
    apply (add_locked_spec s this fd e cb c); try done. unfold reg in Hn. by rewrite Hc in Hn.
  - pose proof (io_len _ HI) as H2.
    assert (Hsz : fd < fd * 3 / 2) by (apply Nat.div_le_lower_bound; lia).
    destruct (resize_spec s (fd * 3 / 2) HI ltac:(lia)) as (s1 & H1 & HI1 & Hl1 & Hsc1 & Hk1 & Hr1).
    assert (Hc : is_Some (m_fdContexts s1 !! fd)) by (apply lookup_lt_is_Some; lia). destruct Hc as [c Hc].
    assert (Hg : grow_for fd s = Ret tt s1).
    { unfold grow_for. stepM H1. by stepM (get_fd_eq _ _ _ Hc). }
    stepM Hg. rewrite <- Hr1 in Hn. unfold reg in Hn. rewrite Hc in Hn.
    destruct (add_locked_spec s1 this fd e cb c HI1 He Hc Hn ltac:(by rewrite Hsc1)) as (ok & s' & Hx & HI' & Hsc' & Hsy & Hr').
    exists ok, s'. split_and!; try done.
    + rewrite Hx. unfold add_result, may_wait. by rewrite Hsc1.
    + by rewrite Hsc'.
    + rewrite <- Hsy, Hk1. apply sync_ext; [done|]. intros. unfold update. by rewrite Hr1.
    + intros g e'. rewrite Hr', Hr1. done.
Qed.
Lemma addEvent_aborts s this fd e cb :
  IoInv s → e ≠ NONE → is_Some (reg s fd e) → addEvent this true fd e cb s = Stuck AssertFailed.
Proof.
  intros HI He Hr. unfold addEvent. rewrite (cbind_Ret _ _ _ _ _ (has_context_eq fd s)).
  destruct (fd <? length (m_fdContexts s)) eqn:Hlt; [|rewrite (reg_beyond _ _ _ Hlt) in Hr; by destruct Hr].
  apply Nat.ltb_lt, lookup_lt_is_Some in Hlt as [c Hc]. rewrite (cbind_Ret (cret tt) _ s tt s eq_refl).
  apply (add_locked_aborts s this fd e cb c); try done. unfold reg in Hr. by rewrite Hc in Hr.
Qed.
End registry.

(** ** The IO manager as a registry *)
Inductive ioop :=
  | OAdd (this fd : nat) (e : Event) (cb : option nat)
  | ODel (fd : nat) (e : Event) | OCancel (fd : nat) (e : Event) | OCancelAll (fd : nat)
  | OReady (fd : nat) (events : Z).

(** What is ready for idle(): the event itself, or an error on a descriptor
    that has it registered. *)
Definition is_ready (R : registry) (fd : nat) (events : Z) (e : Event) : bool :=
  negb (Z.land events (ebit e) =? 0)%Z ||
  (negb (Z.land events (Z.lor EPOLLERR EPOLLHUP) =? 0)%Z && is_Some_b (R fd e)).

Section refinement.
Context {K : Type} `{!Epoll K}.
Implicit Types s : io K.

(** The specification, a function of the registry, of epoll and of the
    operation: the answer, the registry afterwards, the waiters scheduled, in
    order, and epoll afterwards; [None] when an assertion fails. An operation
    that changes the registry asks epoll first: if it refuses nothing
    changes. *)
Definition verdict : Type := option (Z * registry * list waiter * K).
Definition attempt (fd : nat) (R R' : registry) (k : K) (ws : list waiter) (yes no : Z) (sound : bool) : verdict :=
  let '(k', ok) := sync fd R R' k in
  if ok then if sound then Some (yes, R', ws, k') else None else Some (no, R, [], k').
Definition spec (running : nat → bool) (o : ioop) (R : registry) (k : K) : verdict :=
  match o with
  | OAdd this fd e cb =>
    match R fd e with
    | Some _ => None
    | None => attempt fd R (update fd e (Some (waiter_for this cb)) R) k [] 0 (-1)
                (match cb with Some _ => true | None => running this end)
    end
  | ODel fd e =>
    match R fd e with Some _ => attempt fd R (update fd e None R) k [] 1 0 true | None => Some (0%Z, R, [], k) end
  | OCancel fd e =>
    match R fd e with Some x => attempt fd R (update fd e None R) k [x] 1 0 true | None => Some (0%Z, R, [], k) end
  | OCancelAll fd =>
    if is_Some_b (R fd READ) || is_Some_b (R fd WRITE) then
      attempt fd R (update fd READ None (update fd WRITE None R)) k
        (option_list (R fd READ) ++ option_list (R fd WRITE)) 1 0 true
    else Some (0%Z, R, [], k)
  | OReady fd ev =>
    let r := is_ready R fd ev READ in
    let w := is_ready R fd ev WRITE in
    if (r && is_Some_b (R fd READ)) || (w && is_Some_b (R fd WRITE)) then
      attempt fd R (drop_if r fd READ (drop_if w fd WRITE R)) k (wake_if r fd READ R ++ wake_if w fd WRITE R) 0 0
        (negb ((r && negb (is_Some_b (R fd READ))) || (w && negb (is_Some_b (R fd WRITE)))))
    else Some (0%Z, R, [], k)
  end.

Definition b2Z (b : bool) : Z := if b then 1 else 0.
Definition perform (o : ioop) : M (io K) Z :=
  match o with
  | OAdd this fd e cb => addEvent this true fd e cb
  | ODel fd e => let! b := delEvent fd e in cret (b2Z b)
  | OCancel fd e => let! b := cancelEvent fd e in cret (b2Z b)
  | OCancelAll fd => let! b := cancelAll fd in cret (b2Z b)
  | OReady fd ev => let! _ := handle_event (Ready fd ev) in cret 0%Z
  end.
(** How the operations may be called: with READ or WRITE, by a fiber there
    is; a report of epoll names a context there is. *)
Definition valid (o : ioop) (s : io K) : Prop :=
  match o with
  | OAdd this fd e cb => e ≠ NONE ∧ (cb = None → is_Some (fstate (sched s) !! this))
  | ODel _ e | OCancel _ e => e ≠ NONE
  | OCancelAll _ => True
  | OReady fd ev => fd < length (m_fdContexts s)
  end.
Definition runs (s : io K) (f : nat) : bool := bool_decide (fstate (sched s) !! f = Some EXEC).

(** An outcome against a verdict. *)
Definition meets (s : io K) (r : outcome (io K) Z) (v : verdict) : Prop :=
  match v with
  | None => r = Stuck AssertFailed
  | Some (a, R', ws, k') =>
    ∃ s', r = Ret a s' ∧ IoInv s' ∧ (∀ g e, e ≠ NONE → reg s' g e = R' g e) ∧
          sched s' = push_all ws (sched s) ∧ kernel s' = k'
  end.

Lemma bool_decide_and2 (P Q : Prop) `{!Decision P, !Decision Q} :
  bool_decide (P ∧ Q) = bool_decide P && bool_decide Q.
Proof. repeat case_bool_decide; tauto. Qed.
Lemma meets_same s : IoInv s → meets s (Ret 0%Z s) (Some (0%Z, reg s, [], kernel s)).
Proof. intros HI. by exists s. Qed.

Lemma perform_spec s o : IoInv s → valid o s → meets s (perform o s) (spec (runs s) o (reg s) (kernel s)).
Proof.
  intros HI Hv. destruct o as [this fd e cb|fd e|fd e|fd|fd ev]; cbn [valid perform spec] in *.
  - destruct Hv as (He & Hthis). destruct (reg s fd e) eqn:Hrg; [by apply addEvent_aborts|].
    destruct (addEvent_spec s this fd e cb HI He Hrg Hthis) as (ok & s' & Hx & HI' & Hsc & Hsy & Hr).
    unfold attempt. rewrite Hsy, Hx. unfold add_result. fold (may_wait s this cb).
    change (match cb with Some _ => true | None => runs s this end) with (may_wait s this cb).
    destruct ok; [destruct (may_wait s this cb); [|done]|]; exists s'; split_and!; try done;
      intros g e' _; rewrite Hr; unfold update; by rewrite ?bool_decide_and2.
  - destruct (delEvent_spec s fd e HI Hv) as (ok & s' & Hx & HI' & Hsc & Hsy & Hr). stepM Hx.
    unfold asked_epoll in Hsy. destruct (reg s fd e) eqn:Hrg; cbn in Hsy.
    + unfold attempt. rewrite Hsy. destruct ok; exists s'; split_and!; try done; intros g e' _; rewrite Hr;
        unfold update; by rewrite ?bool_decide_and2.
    + destruct Hsy as [-> Hk]. exists s'. split_and!; try done; intros g e' _; by rewrite Hr.
  - destruct (cancelEvent_spec s fd e HI Hv) as (ok & s' & Hx & HI' & Hsc & Hsy & Hr). stepM Hx.
    unfold asked_epoll in Hsy. destruct (reg s fd e) as [x|] eqn:Hrg; cbn in Hsy.
    + unfold attempt. rewrite Hsy. destruct ok.
      * destruct Hsc as (w & Hw & Hsc). injection Hw as <-. exists s'. split_and!; try done.
        intros g e' _. rewrite Hr. unfold update. by rewrite bool_decide_and2.
      * exists s'. split_and!; try done; intros g e' _; by rewrite Hr.
    + destruct Hsy as [-> Hk]. exists s'. split_and!; try done; intros g e' _; by rewrite Hr.
  - destruct (cancelAll_spec s fd HI) as (ok & s' & Hx & HI' & Hsc & Hsy & Hr). stepM Hx.
    unfold asked_epoll in Hsy. destruct (is_Some_b (reg s fd READ) || is_Some_b (reg s fd WRITE)).
    + unfold attempt. rewrite Hsy. destruct ok; exists s'; split_and!; try done; intros g e' He'; rewrite Hr;
        cbn [andb]; unfold update; destruct (bool_decide (g = fd)); try done; by destruct e'.
    + destruct Hsy as [-> Hk]. exists s'. split_and!; try done; intros g e' _; by rewrite Hr.
  - pose proof (handle_event_spec s fd ev HI Hv) as Hx.
    change (is_ready (reg s) fd ev) with (ready_for s fd ev).
    fold (hits s fd ev). fold (stale s fd ev). fold (left_after s fd ev).
    destruct (hits s fd ev); [|stepM Hx; by apply meets_same]. unfold attempt.
    destruct (sync fd (reg s) (left_after s fd ev) (kernel s)) as [k' ok]. destruct ok, (stale s fd ev); cbn [andb negb] in *.
    + unfold cbind. by rewrite Hx.
    + destruct Hx as (s' & Hx & HI' & Hk & Hsc & Hr). stepM Hx. exists s'. split_and!; try done; intros; apply Hr.
    + destruct Hx as (s' & Hx & HI' & Hk & Hsc & Hr). stepM Hx. exists s'. split_and!; try done; intros; apply Hr.
    + destruct Hx as (s' & Hx & HI' & Hk & Hsc & Hr). stepM Hx. exists s'. split_and!; try done; intros; apply Hr.
Qed.

(** Histories from a new manager over a kernel that watches nothing. *)
Inductive io_reach (k : K) : io K → Prop :=
  | io_start w : (∀ fd, interest k fd = 0%Z) → io_reach k (IOManager_new k w)
  | io_op s o v s' : io_reach k s → valid o s → perform o s = Ret v s' → io_reach k s'
  | io_sched s w : io_reach k s → io_reach k (set_sched w s).

Lemma new_inv (k : K) w : (∀ fd, interest k fd = 0%Z) → IoInv (IOManager_new k w).
Proof.
  intros Hk.
  assert (Hc : ∀ fd c, (new_fd <$> seq 0 32) !! fd = Some c → c = new_fd fd).
  { intros fd c (j & -> & [-> _]%lookup_seq)%list_lookup_fmap_Some. done. }
  split; cbn [IOManager_new m_fdContexts m_pendingEventCount kernel].
  - intros fd c ->%Hc. apply new_fd_ok.
  - cbn. lia.
  - done.
  - intros fd. rewrite Hk. destruct ((new_fd <$> seq 0 32) !! fd) as [c|] eqn:E; [|done]. by rewrite (Hc _ _ E).
Qed.
Lemma meets_inv s r v a s' : meets s r v → r = Ret a s' → IoInv s'.
Proof. destruct v as [[[[b R'] ws] k']|]; cbn; [intros (s1 & -> & HI & _)|intros ->]; congruence. Qed.
Lemma io_reach_inv k s : io_reach k s → IoInv s.
Proof.
  induction 1 as [w Hk|s o v s' _ IH Hv Hx|s w _ IH].
  - by apply new_inv.
  - by eapply meets_inv, Hx; apply perform_spec.
  - by destruct IH.
Qed.
End refinement.

(** C4: The IO manager implements a registry of waiters. In every state reached
    by any history of addEvent, delEvent, cancelEvent, cancelAll and reports
    of epoll, each a step of its own, interleaved with any activity of the
    scheduler, the next such operation behaves as [spec] computes it from the
    registry and epoll alone: addEvent answers 0 when epoll accepts the new
    interest of the descriptor and -1 when it refuses; the others answer true
    exactly when the event is registered and epoll accepts; on acceptance the
    registry changes at that event only and exactly the waiters removed by a
    cancel or a report are scheduled, the reader before the writer; otherwise
    nothing changes. An assertion fails exactly when an event is added twice,
    when a fiber that is not running registers itself, and when a report
    names an event that was removed in the meantime along with one that is
    still registered, and epoll accepts. *)
Theorem io_refines_registry {K} `{!Epoll K} (k : K) (s : io K) (Hs : io_reach k s) (o : ioop) (Ho : valid o s) :
  match spec (runs s) o (reg s) (kernel s) with
  | None => perform o s = Stuck AssertFailed
  | Some (v, R', ws, k') =>
    ∃ s', perform o s = Ret v s' ∧ io_reach k s' ∧ (∀ g e, e ≠ NONE → reg s' g e = R' g e) ∧
          sched s' = push_all ws (sched s) ∧ kernel s' = k'
  end.
Proof.
  pose proof (perform_spec s o (io_reach_inv k s Hs) Ho) as Hx. unfold meets in Hx.
  destruct (spec (runs s) o (reg s) (kernel s)) as [[[[v R'] ws] k']|]; [|done].
  destruct Hx as (s' & Hx & _ & Hr). exists s'. split; [done|]. split; [by eapply io_op|done].
Qed.

(** The bookkeeping agrees: in every reachable state the pending count is
    the number of waiters, the event bits of a descriptor are those with a
    waiter, epoll watches exactly them, edge-triggered, and the event
    contexts without a waiter are empty. So the manager does not stop while
    anyone waits, and when it does no task is queued. *)
Theorem io_bookkeeping {K} `{!Epoll K} (k : K) (s : io K) (Hs : io_reach k s) :
  m_pendingEventCount s = sum_list_with nev (m_fdContexts s) ∧
  (∀ fd c, m_fdContexts s !! fd = Some c → ctx_ok fd c) ∧
  (∀ fd, interest (kernel s) fd = watch (Z.lor (some_bit (reg s fd READ) READ) (some_bit (reg s fd WRITE) WRITE))) ∧
  (∀ next, io_stopping next s = true → m_fibers (sched s) = [] ∧ ∀ fd e, reg s fd e = None).
Proof.
  pose proof (io_reach_inv k s Hs) as HI. split_and!.
  - apply HI.
  - apply HI.
  - intros fd. rewrite (io_watch _ HI). unfold reg. destruct (m_fdContexts s !! fd) as [c|] eqn:Hc; [|done].
    by rewrite (ok_events _ _ (io_ctx _ HI _ _ Hc)).
  - intros next Hst. unfold io_stopping in Hst.
    apply andb_true_iff in Hst as [[_ Hp%Nat.eqb_eq]%andb_true_iff Hst]. apply stopping_inv in Hst as (_ & _ & Hq & _).
    split; [done|]. intros fd e. unfold reg. destruct (m_fdContexts s !! fd) as [c|] eqn:Hc; [|done]. cbn.
    rewrite (io_pending _ HI) in Hp. pose proof (sum_list_with_zero nev _ _ _ Hp Hc) as Hz. unfold nev in Hz.
    destruct e; cbn; [done|..]; destruct (waiter_of (fc_read c)), (waiter_of (fc_write c)); cbn in Hz; (done || lia).
Qed.

(** ** A kernel *)
Definition map_ctl (k : gmap nat Z) (op : ctlop) (fd : nat) (ev : Z) : gmap nat Z * bool :=
  match op, k !! fd with
  | EPOLL_CTL_ADD, None | EPOLL_CTL_MOD, Some _ => (<[fd := ev]> k, true)
  | EPOLL_CTL_DEL, Some _ => (delete fd k, true)
  | _, _ => (k, false)
  end.
#[export] Program Instance map_epoll : Epoll (gmap nat Z) := {
  epoll_ctl := map_ctl;
  interest := λ k fd, default 0%Z (k !! fd)
}.
Next Obligation. intros k op fd ev k'. unfold map_ctl. destruct op, (k !! fd); naive_solver. Qed.
Next Obligation.
  intros k op fd ev k'. unfold map_ctl. destruct op, (k !! fd); intros [= <-]; cbn;
    rewrite ?lookup_insert_eq, ?lookup_delete_eq; done.
Qed.
Next Obligation. done. Qed.
Next Obligation.
  intros k op fd ev k' ok g. unfold map_ctl. destruct op, (k !! fd); intros [= <- <-] Hg;
    rewrite ?lookup_insert_ne, ?lookup_delete_ne by done; done.
Qed.

Fixpoint perform_all (os : list ioop) (s : io (gmap nat Z)) : option (io (gmap nat Z)) :=
  match os with
  | [] => Some s
  | o :: os => match perform o s with Ret _ s' => perform_all os s' | _ => None end
  end.
Definition io_empty : io (gmap nat Z) := IOManager_new (∅ : gmap nat Z) base.
Lemma io_empty_reach : io_reach (∅ : gmap nat Z) io_empty.
Proof. apply io_start. intros fd. cbn. by rewrite lookup_empty. Qed.
(** A callback waits to read from descriptor 5, another to write to it. *)
Definition io_one : io (gmap nat Z) := default io_empty (perform_all [OAdd 0 5 READ (Some 7)] io_empty).
Definition io_two : io (gmap nat Z) := default io_empty (perform_all [OAdd 0 5 WRITE (Some 8)] io_one).
Lemma io_one_reach : io_reach (∅ : gmap nat Z) io_one.
Proof. apply (io_op ∅ io_empty (OAdd 0 5 READ (Some 7)) 0); [apply io_empty_reach|by split|vm_compute; reflexivity]. Qed.
Lemma io_two_reach : io_reach (∅ : gmap nat Z) io_two.
Proof. apply (io_op ∅ io_one (OAdd 0 5 WRITE (Some 8)) 0); [apply io_one_reach|by split|vm_compute; reflexivity]. Qed.
Lemma io_refines_registry_witness :
  valid (OReady 5 (EPOLLIN + EPOLLHUP)) io_two ∧ reg io_two 5 READ = Some (WCb 7) ∧
  (∃ s', perform (OReady 5 (EPOLLIN + EPOLLHUP)) io_two = Ret 0%Z s' ∧
     sched s' = push_all [WCb 7; WCb 8] (sched io_two) ∧ reg s' 5 READ = None ∧ kernel s' = ∅) ∧
  valid (OReady 5 (Z.lor EPOLLIN EPOLLOUT)) io_one ∧
  perform (OReady 5 (Z.lor EPOLLIN EPOLLOUT)) io_one = Stuck AssertFailed.
Proof.
  assert (Hv : valid (OReady 5 (EPOLLIN + EPOLLHUP)) io_two) by (vm_compute; lia).
  assert (Hv1 : valid (OReady 5 (Z.lor EPOLLIN EPOLLOUT)) io_one) by (vm_compute; lia).
  split; [exact Hv|]. split; [vm_compute; reflexivity|]. split; [|split; [exact Hv1|]].
  - destruct (io_refines_registry ∅ io_two io_two_reach _ Hv) as (s' & Hx & _ & Hr & Hsc & Hk).
    exists s'. split; [exact Hx|]. split; [exact Hsc|]. split; [by rewrite Hr|]. rewrite Hk. vm_compute. reflexivity.
  - exact (io_refines_registry ∅ io_one io_one_reach _ Hv1).
Defined.
Lemma io_bookkeeping_witness :
  m_pendingEventCount io_two = 2 ∧ m_pendingEventCount io_two = sum_list_with nev (m_fdContexts io_two) ∧
  (∀ fd c, m_fdContexts io_two !! fd = Some c → ctx_ok fd c) ∧
  (∀ fd, interest (kernel io_two) fd =
     watch (Z.lor (some_bit (reg io_two fd READ) READ) (some_bit (reg io_two fd WRITE) WRITE))) ∧
  (∀ next, io_stopping next io_two = true → m_fibers (sched io_two) = [] ∧ ∀ fd e, reg io_two fd e = None).
Proof. split; [vm_compute; reflexivity|]. exact (io_bookkeeping ∅ io_two io_two_reach). Defined.

(** ** Where the conditions fail *)

(** epoll_wait and the handling of what it returned are not one step: an
    event reported and then removed by another thread, while the other event
    of the descriptor is still registered, fails the assertion of
    triggerEvent. *)
Lemma stale_report_aborts :
  ∃ s b, delEvent 5 READ io_two = Ret b s ∧ b = true ∧
    handle_event (Ready 5 (Z.lor EPOLLIN EPOLLOUT)) s = Stuck AssertFailed.
Proof. eexists _, _. split; [vm_compute; reflexivity|]. split; [reflexivity|]. vm_compute. reflexivity. Qed.

(** addEvent looks for the context under the read lock and grows the vector
    under the write lock without looking again: a thread that found its
    descriptor 40 missing, and comes second, cuts the vector that another
    has grown for descriptor 100, and its registration is lost while it is
    still counted and watched. *)
Lemma late_resize_loses :
  ∃ s s', has_context 40 io_empty = Ret false io_empty ∧
    addEvent 0 true 100 READ (Some 7) io_empty = Ret 0%Z s ∧ reg s 100 READ = Some (WCb 7) ∧
    grow_for 40 s = Ret tt s' ∧ reg s' 100 READ = None ∧
    m_pendingEventCount s' = 1 ∧ interest (kernel s') 100 = Z.lor EPOLLET EPOLLIN.
Proof.
  eexists _, _. split; [vm_compute; reflexivity|]. split; [vm_compute; reflexivity|].
  split; [vm_compute; reflexivity|]. split; [vm_compute; reflexivity|]. split; [vm_compute; reflexivity|].
  split; vm_compute; reflexivity.
Qed.

(** The timeout idle() gives to epoll_wait: at most three seconds for every
    time to the next timer below 2^31 milliseconds, and three seconds when
    there is none; from 2^31 to 2^32 the value cut to an int is negative,
    which to epoll_wait means to wait without limit. *)
Theorem wait_timeout_bounds (next : Z) (Hnext : in_u 64 next) :
  (next < 2 ^ 31 → wait_timeout next = Z.min next 3000)%Z ∧
  (next = 2 ^ 64 - 1 → wait_timeout next = 3000)%Z ∧
  (2 ^ 31 ≤ next < 2 ^ 32 → wait_timeout next < 0)%Z.
Proof.
  unfold in_u in Hnext. unfold wait_timeout. split_and!.
  - intros Hn. destruct (Z.eqb_spec next (2 ^ 64 - 1)); [lia|]. cbn [negb].
    rewrite (swrap_small 32 next) by lia. destruct (Z.ltb_spec 3000 next).
    + rewrite swrap_small by lia. lia.
    + rewrite swrap_small by lia. lia.
  - intros ->. reflexivity.
  - intros Hn. destruct (Z.eqb_spec next (2 ^ 64 - 1)); [lia|]. cbn [negb].
    rewrite (swrap_big 32 next) by lia. destruct (Z.ltb_spec 3000 (next - 2 ^ 32)); [lia|].
    rewrite (swrap_big 32 next) by lia. lia.
Qed.
Lemma wait_timeout_bounds_witness :
  in_u 64 (2 ^ 31) ∧ (2 ^ 31 ≤ 2 ^ 31 < 2 ^ 32 → wait_timeout (2 ^ 31) < 0)%Z.
Proof.
  assert (H : in_u 64 (2 ^ 31)) by (unfold in_u; lia). split; [exact H|].
  exact (proj2 (proj2 (wait_timeout_bounds (2 ^ 31) H))).
Defined.
