(* ===== verification/Hook.v ===== *)
(** * Calls that wait in a fiber (Sylar/hook.cc)

    A hooked call on a socket that is not ready registers an event with the
    IO manager, arms a timer when the socket has a timeout, and gives up the
    thread; the event or the callback of the timer has the fiber scheduled
    again. This file is the life of one such call: the fiber, the callbacks of
    the timers it armed, which other threads run, and the kernel interleave
    freely. The IO manager appears as what it promises: an event that is
    registered schedules the fiber once, when it is triggered or cancelled. Of
    the timer wheel nothing is assumed: a timer may fire at any moment after it
    was armed, early or late, or never, unless it was cancelled before. *)
From Stdlib Require Import ZArith Lia.
From stdpp Require Import base list relations list_numbers numbers.
From S2P Require Import Prelude.
Local Open Scope Z_scope.

Definition EINTR : Z := 4.
Definition EBADF : Z := 9.
Definition EAGAIN : Z := 11.
Definition ETIMEDOUT : Z := 110.
Definition EINPROGRESS : Z := 115.
(** (uint64_t)-1: no timeout *)
Definition no_timeout : Z := 2 ^ 64 - 1.

(** What the system call gives: its value, or -1 and errno. *)
Inductive sysres := SysOk (n : Z) | SysErr (errno : Z).
#[export] Instance sysres_eq_dec : EqDecision sysres.
Proof. solve_decision. Defined.
(** do_io is the body of accept, read, recv, write, send and the like,
    connect_with_timeout that of connect. *)
Inductive hooked := DoIO | Connect.
Inductive result := RSys (r : sysres) | RTimedOut | RAddFailed (errno : Z).
#[export] Instance result_eq_dec : EqDecision result.
Proof. solve_decision. Defined.
Definition returned (r : result) : sysres := match r with RSys r => r | RTimedOut => SysErr ETIMEDOUT | RAddFailed e => SysErr e end.

(** Where the fiber is: before the call of the system, before the timer, before
    addEvent, before YieldToHold, away, back, before getsockopt(SO_ERROR). *)
Inductive fpc := FTry | FArm | FAdd | FYield | FWait | FWoken | FSoError | FDone (r : result).
#[export] Instance fpc_eq_dec : EqDecision fpc.
Proof. solve_decision. Defined.
(** A timer waits; its callback is about to lock the timer_info; it is about to
    call cancelEvent; it is over; the timer was cancelled while it waited. *)
Inductive tstate := Armed | Fired | Cancelling | Over | Dropped.
#[export] Instance tstate_eq_dec : EqDecision tstate.
Proof. solve_decision. Defined.
Record wait := mkWait {
  w_pc : fpc;
  w_cancelled : bool;                  (* tinfo->cancelled *)
  w_timers : list tstate;              (* those the call armed *)
  w_timer : option nat;                (* the variable timer *)
  w_registered : bool;                 (* the event, in the IO manager *)
  w_scheduled : bool;                  (* the fiber, with the scheduler *)
  w_tries : list sysres                (* what the system gave so far *)
}.
Definition set_pc pc w := mkWait pc (w_cancelled w) (w_timers w) (w_timer w) (w_registered w) (w_scheduled w) (w_tries w).
Definition set_timers ts t w := mkWait (w_pc w) (w_cancelled w) ts t (w_registered w) (w_scheduled w) (w_tries w).
Definition set_wake reg sch w := mkWait (w_pc w) (w_cancelled w) (w_timers w) (w_timer w) reg sch (w_tries w).
Definition add_try r w := mkWait (w_pc w) (w_cancelled w) (w_timers w) (w_timer w) (w_registered w) (w_scheduled w) (w_tries w ++ [r]).
Definition set_cancelled w := mkWait (w_pc w) true (w_timers w) (w_timer w) (w_registered w) (w_scheduled w) (w_tries w).
Definition set_timer i st w := set_timers (<[i := st]> (w_timers w)) (w_timer w) w.
Definition wait_start : wait := mkWait FTry false [] None false false [].

(** ** Steps of the fiber *)
Definition again (h : hooked) (r : sysres) : option fpc :=
  match h, r with
  | DoIO, SysErr e => if e =? EINTR then Some FTry else if e =? EAGAIN then Some FArm else None
  | Connect, SysErr e => if e =? EINPROGRESS then Some FArm else None
  | _, _ => None
  end.
(** timer->cancel() *)
Definition cancel_timer w : wait :=
  match w_timer w with
  | Some i => set_timers (alter (λ st, match st with Armed => Dropped | _ => st end) i (w_timers w)) (w_timer w) w
  | None => w
  end.
Definition arm_timer (timeout : Z) w : wait :=
  if timeout =? no_timeout then set_timers (w_timers w) None w
  else set_timers (w_timers w ++ [Armed]) (Some (length (w_timers w))) w.
Definition resume (h : hooked) w : wait :=
  let w := cancel_timer w in
  if w_cancelled w then set_pc (FDone RTimedOut) w else set_pc (match h with DoIO => FTry | Connect => FSoError end) w.
Inductive fiber_step (h : hooked) (timeout : Z) (w : wait) : wait → Prop :=
  | fs_try r : w_pc w = FTry → fiber_step h timeout w (add_try r (set_pc (default (FDone (RSys r)) (again h r)) w))
  | fs_arm : w_pc w = FArm → fiber_step h timeout w (set_pc FAdd (arm_timer timeout w))
  | fs_add : w_pc w = FAdd → fiber_step h timeout w (set_pc FYield (set_wake true (w_scheduled w) w))
  | fs_add_fail e : w_pc w = FAdd → fiber_step h timeout w (set_pc (match h with DoIO => FDone (RAddFailed e) | Connect => FSoError end) (cancel_timer w))
  | fs_yield : w_pc w = FYield → fiber_step h timeout w (set_pc FWait w)
  | fs_wake : w_pc w = FWait → w_scheduled w = true → fiber_step h timeout w (set_pc FWoken (set_wake (w_registered w) false w))
  | fs_resume : w_pc w = FWoken → fiber_step h timeout w (resume h w)
  | fs_error r : w_pc w = FSoError → fiber_step h timeout w (add_try r (set_pc (FDone (RSys r)) w)).

(** ** Steps of others *)
(** The timer's callback; [Over] at once when the call has returned and its
    timer_info is gone, or was cancelled before. *)
Definition is_done (pc : fpc) : bool := match pc with FDone _ => true | _ => false end.
Definition fire (i : nat) (w : wait) : option wait :=
  match w_timers w !! i with
  | Some Armed => Some (set_timer i Fired w)
  | Some Fired =>
    if is_done (w_pc w) || w_cancelled w then Some (set_timer i Over w)
    else Some (set_timer i Cancelling (set_cancelled w))
  | Some Cancelling => Some (set_timer i Over (set_wake false (w_scheduled w || w_registered w) w))
  | _ => None
  end.
(** The descriptor is ready, or somebody closes it. *)
Definition trigger (w : wait) : wait := set_wake false (w_scheduled w || w_registered w) w.
Inductive own_step (h : hooked) (timeout : Z) (w : wait) : wait → Prop :=
  | os_fiber w' : fiber_step h timeout w w' → own_step h timeout w w'
  | os_fire i w' : fire i w = Some w' → own_step h timeout w w'.
Inductive hook_step (h : hooked) (timeout : Z) (w : wait) : wait → Prop :=
  | hs_own w' : own_step h timeout w w' → hook_step h timeout w w'
  | hs_trigger : hook_step h timeout w (trigger w).

(** ** What holds at every moment *)
Section hook.
Context (h : hooked) (timeout : Z).
Implicit Types w : wait.
Definition waiting (pc : fpc) : Prop := pc = FYield ∨ pc = FWait.
Definition arming (pc : fpc) : Prop := pc = FArm ∨ pc = FAdd.
(** What a result says of the call. *)
Definition result_ok (r : result) (tries : list sysres) (cancelled : bool) : Prop :=
  match r with
  | RSys r => list.last tries = Some r ∧ (h = DoIO → again h r = None)
  | RTimedOut => cancelled = true
  | RAddFailed _ => h = DoIO ∧ list.last tries = Some (SysErr EAGAIN)
  end.
Record WaitInv w : Prop := {
  wi_reg : w_registered w = true → waiting (w_pc w) ∧ w_scheduled w = false;
  wi_sch : w_scheduled w = true → waiting (w_pc w);
  wi_wait : waiting (w_pc w) → w_registered w = true ∨ w_scheduled w = true;
  wi_timed i st : w_timers w !! i = Some st → timeout ≠ no_timeout;
  wi_cancel : w_cancelled w = true → ∃ i, w_timers w !! i = Some Cancelling ∨ w_timers w !! i = Some Over;
  wi_again : arming (w_pc w) → ∃ r, list.last (w_tries w) = Some r ∧ again h r = Some FArm;
  wi_connect : w_pc w = FSoError → h = Connect;
  wi_result r : w_pc w = FDone r → result_ok r (w_tries w) (w_cancelled w)
}.
Lemma idle w : WaitInv w → ¬ waiting (w_pc w) → w_registered w = false ∧ w_scheduled w = false.
Proof. intros HI Hn. split; apply not_true_iff_false; intros E; apply Hn; [by apply wi_reg|by apply wi_sch]. Qed.
Lemma not_waiting pc : pc ≠ FYield → pc ≠ FWait → ¬ waiting pc.
Proof. unfold waiting. naive_solver. Qed.
Ltac fixed := cbn; first [done | congruence | apply not_waiting; congruence | by intros [|] | (by intros ? [=])].

(** A step of the fiber that leaves its event and the scheduler alone. *)
Lemma move_inv w pc ts t tr : WaitInv w → ¬ waiting (w_pc w) → ¬ waiting pc →
  (∀ i st, ts !! i = Some st → timeout ≠ no_timeout) →
  (w_cancelled w = true → ∃ i, ts !! i = Some Cancelling ∨ ts !! i = Some Over) →
  (arming pc → ∃ r, list.last tr = Some r ∧ again h r = Some FArm) → (pc = FSoError → h = Connect) →
  (∀ r, pc = FDone r → result_ok r tr (w_cancelled w)) →
  WaitInv (mkWait pc (w_cancelled w) ts t (w_registered w) (w_scheduled w) tr).
Proof. intros HI Hn Hw Ht Hc Ha Hso Hr. destruct (idle w HI Hn) as [E1 E2]. split; cbn; try done; congruence. Qed.
(** timer->cancel() leaves the timers whose callback has started. *)
Lemma cancel_timer_eq w : ∃ ts, cancel_timer w = set_timers ts (w_timer w) w ∧ length ts = length (w_timers w) ∧
  (∀ i, (w_timers w !! i = Some Cancelling → ts !! i = Some Cancelling) ∧ (w_timers w !! i = Some Over → ts !! i = Some Over)).
Proof.
  unfold cancel_timer. destruct (w_timer w) as [i|] eqn:Et; [|exists (w_timers w); destruct w; cbn in *; by subst].
  eexists. split; [done|]. split; [apply length_alter|]. intros j.
  destruct (decide (i = j)) as [->|Hne]; [|by rewrite list_lookup_alter_ne]. rewrite list_lookup_alter_eq. by destruct (w_timers w !! j) as [[]|].
Qed.
Lemma cancel_inv w pc : WaitInv w → ¬ waiting (w_pc w) → ¬ waiting pc → ¬ arming pc → (pc = FSoError → h = Connect) →
  (∀ r, pc = FDone r → result_ok r (w_tries w) (w_cancelled w)) → WaitInv (set_pc pc (cancel_timer w)).
Proof.
  intros HI Hn Hw Ha Hso Hr. destruct (cancel_timer_eq w) as (ts & -> & Hl & Hk). apply (move_inv w); try done.
  - intros i st Hi. destruct (lookup_lt_is_Some_2 (w_timers w) i) as [st' Hi']; [rewrite <- Hl; by eapply lookup_lt_Some|]. by eapply wi_timed.
  - intros [i [Hi|Hi]]%(wi_cancel w HI); exists i; [left|right]; by apply Hk.
Qed.
Lemma again_cases r : again h r = None ∨ again h r = Some FTry ∨ again h r = Some FArm.
Proof. destruct h, r as [n|e]; cbn; auto; [destruct (e =? EINTR); auto; destruct (e =? EAGAIN); auto|destruct (e =? EINPROGRESS); auto]. Qed.
Lemma try_inv w r : WaitInv w → w_pc w = FTry → WaitInv (add_try r (set_pc (default (FDone (RSys r)) (again h r)) w)).
Proof.
  intros HI E. apply (move_inv w); [done|rewrite E; fixed|..]; try apply HI;
    destruct (again_cases r) as [Ea|[Ea|Ea]]; rewrite Ea; cbn [default from_option id]; try fixed.
  - intros _. exists r. by rewrite list.last_snoc.
  - intros r' [= <-]. split; [by rewrite list.last_snoc|done].
Qed.
Lemma arm_inv w : WaitInv w → w_pc w = FArm → WaitInv (set_pc FAdd (arm_timer timeout w)).
Proof.
  intros HI E. pose proof (wi_again w HI ltac:(left; exact E)) as Hag. unfold arm_timer. destruct (Z.eqb_spec timeout no_timeout) as [Et|Et]; (apply (move_inv w); [done|rewrite E; fixed|fixed|..]; try fixed).
  - intros i st. by apply (wi_timed w HI).
  - exact (wi_cancel w HI).
  - intros [i [Hi|Hi]]%(wi_cancel w HI); exists i; [left|right]; by apply lookup_app_l_Some.
Qed.
Lemma add_inv w : WaitInv w → w_pc w = FAdd → WaitInv (set_pc FYield (set_wake true (w_scheduled w) w)).
Proof.
  intros HI E. destruct (idle w HI) as [E1 E2]; [rewrite E; fixed|]. destruct HI as [H1 H2 H3 H4 H5 H6 H7 H8].
  split; cbn; try done; [by split; [left|]|by rewrite E2|by left|by intros [|]].
Qed.
Lemma yield_inv w : WaitInv w → w_pc w = FYield → WaitInv (set_pc FWait w).
Proof.
  intros [H1 H2 H3 H4 H5 H6 H7 H8] E. rewrite E in *.
  split; cbn; try done; [intros Hr; split; [by right|by apply H1]|by right|intros _; apply H3; by left|by intros [|]].
Qed.
Lemma wake_inv w : WaitInv w → w_pc w = FWait → w_scheduled w = true → WaitInv (set_pc FWoken (set_wake (w_registered w) false w)).
Proof.
  intros HI E Es. assert (Er : w_registered w = false) by (apply not_true_iff_false; intros Er; destruct (wi_reg w HI Er); congruence).
  destruct HI as [H1 H2 H3 H4 H5 H6 H7 H8]. split; cbn; try done; [congruence|by intros [|]|by intros [|]].
Qed.
Lemma hooked_cases {A} (a b : A) : h = DoIO ∧ match h with DoIO => a | Connect => b end = a ∨ h = Connect ∧ match h with DoIO => a | Connect => b end = b.
Proof. destruct h; auto. Qed.
Lemma resume_inv w : WaitInv w → w_pc w = FWoken → WaitInv (resume h w).
Proof.
  intros HI E. assert (Hn : ¬ waiting (w_pc w)) by (rewrite E; fixed). unfold resume. destruct (cancel_timer_eq w) as (ts & Ets & _).
  assert (Ec : w_cancelled (cancel_timer w) = w_cancelled w) by (by rewrite Ets). cbv zeta. rewrite Ec. destruct (w_cancelled w) eqn:Ew.
  - apply cancel_inv; try done; [fixed|fixed|]. intros r [= <-]. exact Ew.
  - destruct (hooked_cases FTry FSoError) as [[Eh ->]|[Eh ->]]; apply cancel_inv; fixed.
Qed.
Lemma fiber_inv w w' : WaitInv w → fiber_step h timeout w w' → WaitInv w'.
Proof.
  intros HI Hs. destruct Hs as [r E|E|E|e E|E|E Es|E|r E].
  - by apply try_inv.
  - by apply arm_inv.
  - by apply add_inv.
  - assert (Hn : ¬ waiting (w_pc w)) by (rewrite E; fixed). destruct (hooked_cases (FDone (RAddFailed e)) FSoError) as [[Eh ->]|[Eh ->]]; apply cancel_inv; try fixed.
    intros r [= <-]. split; [done|]. destruct (wi_again w HI ltac:(right; exact E)) as (r & Hl & Ha). rewrite Hl, Eh in *.
    destruct r as [n|e']; [done|]. cbn in Ha. destruct (e' =? EINTR); [done|]. by destruct (Z.eqb_spec e' EAGAIN) as [->|].
  - by apply yield_inv.
  - by apply wake_inv.
  - by apply resume_inv.
  - apply (move_inv w); [done|rewrite E; fixed|fixed|apply HI|apply HI|fixed|done|]. intros r' [= <-]. split; [by rewrite list.last_snoc|].
    rewrite (wi_connect w HI E). done.
Qed.
Lemma insert_at {A} (l : list A) i x j y z : l !! i = Some z → <[i := x]> l !! j = Some y → j = i ∧ y = x ∨ j ≠ i ∧ l !! j = Some y.
Proof. intros Hi. destruct (decide (i = j)) as [<-|Hne]; [rewrite list_lookup_insert_eq by (by eapply lookup_lt_Some); naive_solver|rewrite list_lookup_insert_ne by done; naive_solver]. Qed.
(** A callback goes one step on. *)
Lemma timer_inv w i st st' : WaitInv w → w_timers w !! i = Some st → (st = Cancelling ∨ st = Over → st' = Cancelling ∨ st' = Over) → WaitInv (set_timer i st' w).
Proof.
  intros [H1 H2 H3 H4 H5 H6 H7 H8] Hi Hst. split; cbn; try done.
  - intros j st'' Hj. by destruct (insert_at _ _ _ _ _ _ Hi Hj) as [[-> _]|[_ Hj']]; eapply H4.
  - intros [j Hj]%H5. exists j. destruct (decide (j = i)) as [->|Hne]; [|by rewrite list_lookup_insert_ne].
    rewrite list_lookup_insert_eq by (by eapply lookup_lt_Some). destruct Hst as [->| ->]; naive_solver.
Qed.
Lemma wake_now w : WaitInv w → WaitInv (trigger w).
Proof.
  intros [H1 H2 H3 H4 H5 H6 H7 H8]. split; cbn; try done.
  - intros Hs. apply orb_true_iff in Hs as [Hs|Hs]; [by apply H2|by apply H1].
  - intros Hw. right. apply orb_true_iff. destruct (H3 Hw); auto.
Qed.
Lemma cancelled_inv w i : WaitInv w → w_timers w !! i = Some Fired → is_done (w_pc w) = false → WaitInv (set_timer i Cancelling (set_cancelled w)).
Proof.
  intros HI Hi Hd. destruct (timer_inv w i Fired Cancelling HI Hi) as [H1 H2 H3 H4 H5 H6 H7 H8]; [by intros [|]|]. split; cbn; try done.
  - intros _. exists i. left. apply list_lookup_insert_eq. by eapply lookup_lt_Some.
  - intros r Hr. by rewrite Hr in Hd.
Qed.
Lemma fire_inv w i w' : WaitInv w → fire i w = Some w' → WaitInv w'.
Proof.
  intros HI. unfold fire. destruct (w_timers w !! i) as [[]|] eqn:Hi; [..|done|done|done].
  - intros [= <-]. eapply timer_inv; [done|done|by intros [|]].
  - destruct (is_done (w_pc w)) eqn:Ed; cbn [orb]; [intros [= <-]; eapply timer_inv; [done|done|by right]|].
    destruct (w_cancelled w); intros [= <-]; [eapply timer_inv; [done|done|by right]|by apply cancelled_inv].
  - intros [= <-]. apply (timer_inv (trigger w) i Cancelling); [by apply wake_now|done|by right].
Qed.
Lemma step_inv w w' : WaitInv w → hook_step h timeout w w' → WaitInv w'.
Proof. intros HI [w1 [w2 Hf|i w2 Hf]|]; [by eapply fiber_inv|by eapply fire_inv|by apply wake_now]. Qed.
Lemma wait_start_inv : WaitInv wait_start.
Proof. split; cbn; try done; by intros [|]. Qed.
Lemma hook_reach_inv w : rtc (hook_step h timeout) wait_start w → WaitInv w.
Proof. revert w. apply rtc_ind_r; [apply wait_start_inv|]. intros w w' _ Hs HI. by eapply step_inv. Qed.

(** C34: When a hooked call returns, its event is not registered and its fiber is
    not scheduled again, and it gives one of: what the last system call gave,
    which for reads and writes is neither an interruption nor "try again"; a
    timeout, then the socket has one and the callback of a timer of this call
    has run; or, for reads and writes, the failure of addEvent, after a "try
    again". Timers may fire at any moment after they were armed. *)
Theorem hook_result w r : rtc (hook_step h timeout) wait_start w → w_pc w = FDone r →
  w_registered w = false ∧ w_scheduled w = false ∧
  match r with
  | RSys r => list.last (w_tries w) = Some r ∧ (h = DoIO → r ≠ SysErr EINTR ∧ r ≠ SysErr EAGAIN)
  | RTimedOut => timeout ≠ no_timeout ∧ ∃ i, w_timers w !! i = Some Cancelling ∨ w_timers w !! i = Some Over
  | RAddFailed _ => h = DoIO ∧ list.last (w_tries w) = Some (SysErr EAGAIN)
  end.
Proof.
  intros HI%hook_reach_inv E. destruct (idle w HI) as [E1 E2]; [rewrite E; fixed|]. split_and!; [done|done|]. pose proof (wi_result w HI r E) as Hr. destruct r as [r| |e]; [| |done].
  - destruct Hr as [Hl Ha]. split; [done|]. intros Eh. specialize (Ha Eh). rewrite Eh in Ha. split; intros ->; done.
  - destruct (wi_cancel w HI Hr) as [i Hi]. split; [|by exists i]. destruct Hi as [Hi|Hi]; by eapply wi_timed.
Qed.
Lemma fiber_moves w : ¬ (w_pc w = FWait ∧ w_scheduled w = false) → is_done (w_pc w) = false → ∃ w', fiber_step h timeout w w'.
Proof.
  intros Hn Hd. destruct (w_pc w) eqn:E; [exact (ex_intro _ _ (fs_try _ _ w (SysOk 0) E))|exact (ex_intro _ _ (fs_arm _ _ w E))|exact (ex_intro _ _ (fs_add _ _ w E))|exact (ex_intro _ _ (fs_yield _ _ w E))|
    |exact (ex_intro _ _ (fs_resume _ _ w E))|exact (ex_intro _ _ (fs_error _ _ w (SysOk 0) E))|done].
  destruct (w_scheduled w) eqn:Es; [|by destruct Hn]. exact (ex_intro _ _ (fs_wake _ _ w E Es)).
Qed.
(** C33: No wakeup of a hooked call is lost. In every interleaving of the fiber,
    its timers' callbacks and the kernel, the call has returned, or its fiber
    can go on, or it is away with its event registered and itself not
    scheduled; and then both the kernel's trigger and a timer's callback at its
    cancelEvent have the fiber scheduled, once, so that it can go on. The
    fiber is scheduled only while it waits. (A callback that cancels before the
    event is registered does not end the wait: [timeout_lost].) *)
Theorem hook_no_lost_wakeup w : rtc (hook_step h timeout) wait_start w →
  (w_scheduled w = true → waiting (w_pc w) ∧ w_registered w = false) ∧
  (is_done (w_pc w) = true ∨ (∃ w', fiber_step h timeout w w') ∨
   (w_pc w = FWait ∧ w_registered w = true ∧ w_scheduled w = false ∧
    (∀ w', w' = trigger w ∨ (∃ i, w_timers w !! i = Some Cancelling ∧ fire i w = Some w') →
       w_registered w' = false ∧ w_scheduled w' = true ∧ ∃ w'', fiber_step h timeout w' w''))).
Proof.
  intros HI%hook_reach_inv. split.
  { intros Hs. split; [by apply wi_sch|]. apply not_true_iff_false. intros Hr. destruct (wi_reg w HI Hr). congruence. }
  destruct (is_done (w_pc w)) eqn:Ed; [by left|right]. destruct (decide (w_pc w = FWait ∧ w_scheduled w = false)) as [[E Es]|Hn]; [right|left; by apply fiber_moves].
  assert (Er : w_registered w = true) by (destruct (wi_wait w HI ltac:(right; exact E)); congruence). split_and!; [done..|].
  assert (Hgo : ∀ w', w_pc w' = w_pc w → w_scheduled w' = true → ∃ w'', fiber_step h timeout w' w'').
  { intros w' Ep Es'. eexists. apply fs_wake; congruence. }
  intros w' [->|(i & Hi & Hf)].
  - split_and!; [done|cbn; rewrite Er; apply orb_true_r|]. apply Hgo; [done|]. cbn. rewrite Er. apply orb_true_r.
  - unfold fire in Hf. rewrite Hi in Hf. injection Hf as <-. split_and!; [done|cbn; rewrite Er; apply orb_true_r|]. apply Hgo; [done|]. cbn. rewrite Er. apply orb_true_r.
Qed.
End hook.

(** ** Examples *)
Definition tries (rs : list sysres) : wait := mkWait FTry false [] None false false rs.
Lemma reach_again h timeout rs r : again h r = Some FTry → rtc (hook_step h timeout) (tries rs) (tries (rs ++ [r])).
Proof. intros Ha. apply rtc_once, hs_own, os_fiber. pose proof (fs_try h timeout (tries rs) r eq_refl) as Hs. rewrite Ha in Hs. exact Hs. Qed.
(** A read with a timeout of 100 ms that is away. *)
Definition away : wait := mkWait FWait false [Armed] (Some 0%nat) true false [SysErr EAGAIN].
Lemma reach_away : rtc (hook_step DoIO 100) wait_start away.
Proof.
  eapply rtc_l; [apply hs_own, os_fiber, (fs_try _ _ _ (SysErr EAGAIN)); reflexivity|]. eapply rtc_l; [apply hs_own, os_fiber, fs_arm; reflexivity|].
  eapply rtc_l; [apply hs_own, os_fiber, fs_add; reflexivity|]. apply rtc_once, hs_own, os_fiber. by eapply (fs_yield DoIO 100).
Qed.
(** Its timer fires; the callback has set tinfo->cancelled. *)
Definition expiring : wait := mkWait FWait true [Cancelling] (Some 0%nat) true false [SysErr EAGAIN].
Definition expired : wait := mkWait (FDone RTimedOut) true [Over] (Some 0%nat) false false [SysErr EAGAIN].
Lemma reach_expiring : rtc (hook_step DoIO 100) wait_start expiring.
Proof. etrans; [apply reach_away|]. eapply rtc_l; [apply hs_own, (os_fire _ _ _ 0%nat); reflexivity|]. apply rtc_once, hs_own. by apply (os_fire _ _ _ 0%nat). Qed.
Lemma reach_expired : rtc (hook_step DoIO 100) wait_start expired.
Proof.
  etrans; [apply reach_expiring|]. eapply rtc_l; [apply hs_own, (os_fire _ _ _ 0%nat); reflexivity|].
  eapply rtc_l; [apply hs_own, os_fiber, fs_wake; reflexivity|]. apply rtc_once, hs_own, os_fiber. by eapply (fs_resume DoIO 100).
Qed.
Lemma hook_result_witness :
  (∃ w, rtc (hook_step DoIO 100) wait_start w ∧ w_pc w = FDone (RSys (SysOk 3)) ∧ w_registered w = false ∧ w_scheduled w = false ∧ list.last (w_tries w) = Some (SysOk 3)) ∧
  rtc (hook_step DoIO 100) wait_start expired ∧ ∃ i, w_timers expired !! i = Some Cancelling ∨ w_timers expired !! i = Some Over.
Proof.
  split; [|split; [apply reach_expired|apply (hook_result DoIO 100 expired RTimedOut reach_expired eq_refl)]].
  set (w := mkWait (FDone (RSys (SysOk 3))) false [] None false false [SysErr EINTR; SysOk 3]).
  assert (Hr : rtc (hook_step DoIO 100) wait_start w).
  { etrans; [apply (reach_again DoIO 100 [] (SysErr EINTR)); reflexivity|]. apply rtc_once, hs_own, os_fiber. exact (fs_try DoIO 100 (tries [SysErr EINTR]) (SysOk 3) eq_refl). }
  exists w. destruct (hook_result DoIO 100 w (RSys (SysOk 3)) Hr eq_refl) as (E1 & E2 & E3 & _). split_and!; [exact Hr|reflexivity|exact E1|exact E2|exact E3].
Defined.
Lemma hook_no_lost_wakeup_witness : ∃ w', fire 0 expiring = Some w' ∧ w_scheduled w' = true ∧ ∃ w'', fiber_step DoIO 100 w' w''.
Proof.
  destruct (hook_no_lost_wakeup DoIO 100 expiring reach_expiring) as [_ [E|[[w' Hs]|(_ & _ & _ & H)]]]; [done|inversion Hs; done|].
  eexists. split; [reflexivity|]. destruct (H _ (or_intror (ex_intro _ 0%nat (conj eq_refl eq_refl)))) as (_ & E & Hs). split; [exact E|exact Hs].
Defined.

(** A timer that fires between its arming and addEvent cancels nothing: the
    fiber then waits for the kernel without a timeout, and will return
    ETIMEDOUT when the socket is ready. *)
Definition lost : wait := mkWait FWait true [Over] (Some 0%nat) true false [SysErr EAGAIN].
Lemma timeout_lost : rtc (hook_step DoIO 5) wait_start lost ∧ (∀ w, rtc (own_step DoIO 5) lost w → w_pc w = FWait ∧ w_registered w = true) ∧ w_pc (resume DoIO (set_pc FWoken (trigger lost))) = FDone RTimedOut.
Proof.
  split_and!; [| |reflexivity].
  - eapply rtc_l; [apply hs_own, os_fiber, (fs_try _ _ _ (SysErr EAGAIN)); reflexivity|]. eapply rtc_l; [apply hs_own, os_fiber, fs_arm; reflexivity|].
    do 3 (eapply rtc_l; [eapply hs_own, (os_fire _ _ _ 0); reflexivity|]). eapply rtc_l; [apply hs_own, os_fiber, fs_add; reflexivity|]. apply rtc_once, hs_own, os_fiber. by eapply (fs_yield DoIO 5).
  - intros w Hr. assert (Hq : w_pc w = FWait ∧ w_registered w = true ∧ w_scheduled w = false ∧ w_timers w = [Over]); [|naive_solver].
    revert w Hr. apply rtc_ind_r; [done|]. intros w w' _ Hs (E1 & E2 & E3 & E4). destruct Hs as [w' Hf|i w' Hf].
    + destruct Hf; congruence.
    + unfold fire in Hf. rewrite E4 in Hf. by destruct i as [|i].
Qed.
