(* ===== verification/FdManager.v ===== *)
(** * Descriptors behind the hooks (Sylar/fd_manager.{h,cc}, hook.cc)

    The manager remembers of each socket whether its user wants it to block
    and its timeouts, while the kernel has it non-blocking, so that a call
    can wait in its fiber. The hooked socket, close, fcntl, ioctl and
    setsockopt keep up the appearance. The kernel is a parameter with what
    is documented of the calls as the laws of a class. *)
From Stdlib Require Import ZArith Lia.
From stdpp Require Import base list gmap list_numbers numbers.
From S2P Require Import Prelude Hook.
Local Open Scope Z_scope.

Definition O_NONBLOCK : Z := 2048.
Definition nonblocking (flags : Z) : bool := Z.testbit flags 11.

(** fstat gives whether the descriptor is a socket, [None] for -1. *)
Class Kernel (K : Type) := {
  k_fstat : K → Z → option bool;
  k_getfl : K → Z → Z;
  k_setfl : K → Z → Z → Z * K;
  k_fionbio : K → Z → bool → Z * K;
  k_socket : K → Z → Z → Z → Z * K;
  k_close : K → Z → Z * K
}.
Class KernelLaws (K : Type) `{!Kernel K} : Prop := {
  setfl_bit k fd a : k_fstat k fd ≠ None → nonblocking (k_getfl (k_setfl k fd a).2 fd) = nonblocking a;
  setfl_other k fd a g : g ≠ fd → k_getfl (k_setfl k fd a).2 g = k_getfl k g;
  setfl_fstat k fd a g : k_fstat (k_setfl k fd a).2 g = k_fstat k g;
  socket_new k d t p fd k' : k_socket k d t p = (fd, k') →
    fd = -1 ∧ k' = k ∨ 0 <= fd < 2 ^ 30 ∧ k_fstat k fd = None ∧ k_fstat k' fd = Some true ∧ ∀ g, g ≠ fd → k_fstat k' g = k_fstat k g ∧ k_getfl k' g = k_getfl k g;
  close_other k fd g : g ≠ fd → k_fstat (k_close k fd).2 g = k_fstat k g ∧ k_getfl (k_close k fd).2 g = k_getfl k g
}.

Record FdCtx := mkFdCtx {
  m_isInit : bool; m_isSocket : bool; m_sysNonblock : bool; m_userNonblock : bool; m_isClosed : bool; m_fd : Z; m_recvTimeout : Z; m_sendTimeout : Z
}.
Inductive sock_timeout := SO_RCVTIMEO | SO_SNDTIMEO.
Definition setUserNonblock (v : bool) (c : FdCtx) : FdCtx :=
  mkFdCtx (m_isInit c) (m_isSocket c) (m_sysNonblock c) v (m_isClosed c) (m_fd c) (m_recvTimeout c) (m_sendTimeout c).
Definition setTimeout (type : sock_timeout) (v : Z) (c : FdCtx) : FdCtx :=
  match type with
  | SO_RCVTIMEO => mkFdCtx (m_isInit c) (m_isSocket c) (m_sysNonblock c) (m_userNonblock c) (m_isClosed c) (m_fd c) v (m_sendTimeout c)
  | SO_SNDTIMEO => mkFdCtx (m_isInit c) (m_isSocket c) (m_sysNonblock c) (m_userNonblock c) (m_isClosed c) (m_fd c) (m_recvTimeout c) v
  end.
Definition getTimeout (type : sock_timeout) (c : FdCtx) : Z := match type with SO_RCVTIMEO => m_recvTimeout c | SO_SNDTIMEO => m_sendTimeout c end.

(** The kernel, the table, and the descriptors given to IOManager::cancelAll. *)
Record fdw (K : Type) := mkFdw { fw_kernel : K; fw_datas : list (option FdCtx); fw_cancelled : list Z }.
Arguments mkFdw {K} fw_kernel fw_datas fw_cancelled.
Arguments fw_kernel {K} f.
Arguments fw_datas {K} f.
Arguments fw_cancelled {K} f.

Section fds.
Context {K : Type} `{!Kernel K}.
Abbreviation W := (fdw K).
Definition with_kernel (f : K → Z * K) : M W Z := λ w, let (r, k) := f (fw_kernel w) in Ret r (mkFdw k (fw_datas w) (fw_cancelled w)).
Definition set_datas (d : list (option FdCtx)) : M W unit := cmodify (λ w, mkFdw (fw_kernel w) d (fw_cancelled w)).

(** ** FdCtx and FdManager *)
Definition FdCtx_new (fd : Z) : M W FdCtx :=
  let! st := creads (λ w, k_fstat (fw_kernel w) fd) in
  match st with
  | Some true =>
    let! flags := creads (λ w, k_getfl (fw_kernel w) fd) in
    let! _ := if nonblocking flags then cret 0 else with_kernel (λ k, k_setfl k fd (Z.lor flags O_NONBLOCK)) in
    cret (mkFdCtx true true true false false fd no_timeout no_timeout)
  | st => cret (mkFdCtx (bool_decide (is_Some st)) false false false false fd no_timeout no_timeout)
  end.
Definition FdManager_new (k : K) : W := mkFdw k (replicate 64 None) [].
Definition fm_create (fd : Z) : M W FdCtx :=
  let! ctx := FdCtx_new fd in
  let! d := creads fw_datas in
  let d := if i32 (Z.of_nat (length d)) <=? fd then resize (Z.to_nat (fd * 3 / 2)) None d else d in
  if (0 <=? fd) && (fd <? Z.of_nat (length d)) then let! _ := set_datas (<[Z.to_nat fd := Some ctx]> d) in cret ctx else cstuck OutOfBounds.
Definition fm_get (fd : Z) (auto_create : bool) : M W (option FdCtx) :=
  if fd =? -1 then cret None
  else
    let! d := creads fw_datas in
    if i32 (Z.of_nat (length d)) <=? fd then
      if auto_create then let! c := fm_create fd in cret (Some c) else cret None
    else if fd <? 0 then cstuck OutOfBounds
    else match d !! Z.to_nat fd with
         | None => cstuck OutOfBounds
         | Some (Some c) => cret (Some c)
         | Some None => if auto_create then let! c := fm_create fd in cret (Some c) else cret None
         end.
Definition fm_del (fd : Z) : M W unit :=
  let! d := creads fw_datas in
  if i32 (Z.of_nat (length d)) <=? fd then cret tt
  else if fd <? 0 then cstuck OutOfBounds
  else set_datas (<[Z.to_nat fd := None]> d).
(** The context of a descriptor that fm_get found is changed in place. *)
Definition fm_update (fd : Z) (f : FdCtx → FdCtx) : M W unit := cmodify (λ w, mkFdw (fw_kernel w) (alter (fmap f) (Z.to_nat fd) (fw_datas w)) (fw_cancelled w)).

(** ** Hooked calls, in a thread that has the hooks on *)
Definition hook_socket (domain type protocol : Z) : M W Z :=
  let! fd := with_kernel (λ k, k_socket k domain type protocol) in
  if fd =? -1 then cret fd else let! _ := fm_get fd true in cret fd.
(** [iom]: the thread has an IO manager. *)
Definition hook_close (iom : bool) (fd : Z) : M W Z :=
  let! ctx := fm_get fd false in
  let! _ := match ctx with
            | Some _ =>
              let! _ := if iom then cmodify (λ w, mkFdw (fw_kernel w) (fw_datas w) (fw_cancelled w ++ [fd])) else cret tt in
              fm_del fd
            | None => cret tt
            end in
  with_kernel (λ k, k_close k fd).
Definition passive (ctx : option FdCtx) : bool := match ctx with None => true | Some c => m_isClosed c || negb (m_isSocket c) end.
Definition fcntl_setfl (fd arg : Z) : M W Z :=
  let! ctx := fm_get fd false in
  match ctx with
  | Some c =>
    if passive ctx then with_kernel (λ k, k_setfl k fd arg)
    else
      let! _ := fm_update fd (setUserNonblock (nonblocking arg)) in
      with_kernel (λ k, k_setfl k fd (if m_sysNonblock c then Z.lor arg O_NONBLOCK else Z.ldiff arg O_NONBLOCK))
  | None => with_kernel (λ k, k_setfl k fd arg)
  end.
Definition fcntl_getfl (fd : Z) : M W Z :=
  let! arg := creads (λ w, k_getfl (fw_kernel w) fd) in
  let! ctx := fm_get fd false in
  match ctx with
  | Some c => if passive ctx then cret arg else cret (if m_userNonblock c then Z.lor arg O_NONBLOCK else Z.ldiff arg O_NONBLOCK)
  | None => cret arg
  end.
Definition ioctl_fionbio (fd : Z) (on : bool) : M W Z :=
  let! ctx := fm_get fd false in
  let! _ := if passive ctx then cret tt else fm_update fd (setUserNonblock on) in
  with_kernel (λ k, k_fionbio k fd on).
(** setsockopt with a timeval; what the kernel does with it does not matter
    for a socket that never blocks. *)
Definition hook_setsockopt (fd : Z) (optname : sock_timeout) (tv_sec tv_usec : Z) : M W unit :=
  let! ctx := fm_get fd false in
  match ctx with Some _ => fm_update fd (setTimeout optname (u64 (tv_sec * 1000 + Z.quot tv_usec 1000))) | None => cret tt end.

(** How do_io and connect_with_timeout treat a descriptor: they call the system
    and return, fail with EBADF, or may wait with a timeout. *)
Inductive io_mode := Direct | BadFd | MayWait (timeout : Z).
Definition do_io_mode (fd : Z) (timeout_so : sock_timeout) : M W io_mode :=
  let! ctx := fm_get fd false in
  match ctx with
  | None => cret Direct
  | Some c => cret (if m_isClosed c then BadFd else if negb (m_isSocket c) || m_userNonblock c then Direct else MayWait (getTimeout timeout_so c))
  end.
Definition connect_mode (fd timeout_ms : Z) : M W io_mode :=
  let! ctx := fm_get fd false in
  match ctx with
  | None => cret BadFd
  | Some c => cret (if m_isClosed c then BadFd else if negb (m_isSocket c) then Direct else if m_userNonblock c then Direct else MayWait timeout_ms)
  end.
End fds.
(** The milliseconds of the hooked sleep, usleep and nanosleep. *)
Definition sleep_ms (seconds : Z) : Z := u32 (seconds * 1000).
Definition usleep_ms (usec : Z) : Z := usec / 1000.
Definition nanosleep_ms (tv_sec tv_nsec : Z) : Z := u64 (i32 (tv_sec * 1000 + Z.quot (Z.quot tv_nsec 1000) 1000)).

(** ** What the user sees

    The calls as their manual pages describe them: a socket blocks unless it
    was made with SOCK_NONBLOCK or F_SETFL set O_NONBLOCK last; its timeouts
    are the timevals that were set last, in microseconds, and a timeval of
    zero is no timeout. *)
Definition SOCK_NONBLOCK : Z := 2048.
Record ufd := mkUfd { u_nonblock : bool; u_recv : option Z; u_send : option Z }.
Definition u_timeout (type : sock_timeout) (u : ufd) : option Z := match type with SO_RCVTIMEO => u_recv u | SO_SNDTIMEO => u_send u end.
Definition timeval (tv_sec tv_usec : Z) : option Z := if (tv_sec =? 0) && (tv_usec =? 0) then None else Some (tv_sec * 1000000 + tv_usec).
Inductive fop := OSocket (domain type protocol : Z) | OClose (iom : bool) (fd : Z) | OSetfl (fd arg : Z) | OTimeout (fd : Z) (type : sock_timeout) (tv_sec tv_usec : Z).
(** [r] is the descriptor socket gave. *)
Definition uexec (o : fop) (r : Z) (u : gmap Z ufd) : gmap Z ufd :=
  match o with
  | OSocket _ type _ => if r =? -1 then u else <[r := mkUfd (negb (Z.land type SOCK_NONBLOCK =? 0)) None None]> u
  | OClose _ fd => delete fd u
  | OSetfl fd arg => alter (λ x, mkUfd (nonblocking arg) (u_recv x) (u_send x)) fd u
  | OTimeout fd SO_RCVTIMEO s us => alter (λ x, mkUfd (u_nonblock x) (timeval s us) (u_send x)) fd u
  | OTimeout fd SO_SNDTIMEO s us => alter (λ x, mkUfd (u_nonblock x) (u_recv x) (timeval s us)) fd u
  end.
(** The calls for which the hooks keep up the appearance: a socket that is not
    made with SOCK_NONBLOCK, timevals that are valid, not zero and small enough
    for their milliseconds. *)
Definition fop_ok (o : fop) : Prop :=
  match o with
  | OSocket _ type _ => Z.land type SOCK_NONBLOCK = 0
  | OClose _ fd | OSetfl fd _ => -1 <= fd < 2 ^ 31
  | OTimeout fd _ s us => -1 <= fd < 2 ^ 31 ∧ 0 <= s < 2 ^ 53 ∧ 0 <= us < 1000000 ∧ 0 < s + us
  end.
(** The timeout in milliseconds. *)
Definition wait_ms (t : option Z) : Z := match t with Some us => us / 1000 | None => no_timeout end.
Definition ctx_of (fd : Z) (u : ufd) : FdCtx := mkFdCtx true true true (u_nonblock u) false fd (wait_ms (u_recv u)) (wait_ms (u_send u)).
Lemma timeval_ms s us : 0 <= s < 2 ^ 53 → 0 <= us < 1000000 → 0 < s + us → wait_ms (timeval s us) = u64 (s * 1000 + Z.quot us 1000).
Proof.
  intros Hs Hu Hp. unfold timeval. replace ((s =? 0) && (us =? 0)) with false by (destruct (Z.eqb_spec s 0), (Z.eqb_spec us 0); cbn; lia). cbn.
  assert (Z.quot us 1000 <= 1000) by (rewrite Z.quot_div_nonneg by lia; apply Z.div_le_upper_bound; lia).
  assert (0 <= Z.quot us 1000) by (apply Z.quot_pos; lia).
  rewrite uwrap_id by (unfold in_u; lia). rewrite Z.quot_div_nonneg by lia.
  replace (s * 1000000 + us) with (us + s * 1000 * 1000) by lia. rewrite Z.div_add by lia. lia.
Qed.
Section transparent.
Context {K : Type} `{!Kernel K, !KernelLaws K}.
Abbreviation W := (fdw K).
Implicit Types (w : W) (u : gmap Z ufd).
Definition fexec (o : fop) : M W Z :=
  match o with
  | OSocket d t p => hook_socket d t p
  | OClose iom fd => hook_close iom fd
  | OSetfl fd arg => fcntl_setfl fd arg
  | OTimeout fd type s us => let! _ := hook_setsockopt fd type s us in cret 0
  end.
Fixpoint frun (os : list fop) (u : gmap Z ufd) : M W (gmap Z ufd) :=
  match os with [] => cret u | o :: os => let! r := fexec o in frun os (uexec o r u) end.
Record FdInv u w : Prop := {
  fi_ctx fd x : u !! fd = Some x → 0 <= fd ∧ fw_datas w !! Z.to_nat fd = Some (Some (ctx_of fd x)) ∧ k_fstat (fw_kernel w) fd = Some true ∧ nonblocking (k_getfl (fw_kernel w) fd) = true;
  fi_slot i c : fw_datas w !! i = Some (Some c) → is_Some (u !! Z.of_nat i);
  fi_size : 64 <= Z.of_nat (length (fw_datas w)) < 2 ^ 31
}.
Lemma fi_i32 u w : FdInv u w → i32 (Z.of_nat (length (fw_datas w))) = Z.of_nat (length (fw_datas w)).
Proof. intros HI. pose proof (fi_size _ _ HI). apply swrap_id; unfold in_s; lia. Qed.
Lemma fm_get_found u w fd auto x : FdInv u w → u !! fd = Some x → fm_get fd auto w = Ret (Some (ctx_of fd x)) w.
Proof.
  intros HI Hx. destruct (fi_ctx _ _ HI fd x Hx) as (H0 & Hd & _). pose proof (lookup_lt_Some _ _ _ Hd) as Hl. unfold fm_get. rewrite (proj2 (Z.eqb_neq fd (-1))) by lia. unfold cbind, creads.
  rewrite (fi_i32 u w HI), (proj2 (Z.leb_gt _ _)), (proj2 (Z.ltb_ge _ _)), Hd by lia. done.
Qed.
Lemma fm_get_none u w fd : FdInv u w → -1 <= fd → u !! fd = None → fm_get fd false w = Ret None w.
Proof.
  intros HI H0 Hx. unfold fm_get. destruct (Z.eqb_spec fd (-1)); [done|]. unfold cbind, creads. rewrite (fi_i32 u w HI). destruct (Z.leb_spec (Z.of_nat (length (fw_datas w))) fd); [done|].
  rewrite (proj2 (Z.ltb_ge _ _)) by lia. destruct (fw_datas w !! Z.to_nat fd) as [[c|]|] eqn:Hd; [|done|apply lookup_ge_None in Hd; lia]. destruct (fi_slot _ _ HI _ _ Hd) as [y Hy]. rewrite Z2Nat.id in Hy by lia. congruence.
Qed.
Lemma lor_nonblock a : nonblocking (Z.lor a O_NONBLOCK) = true.
Proof. unfold nonblocking. rewrite Z.lor_spec. apply orb_true_r. Qed.
Lemma ldiff_nonblock a : nonblocking (Z.ldiff a O_NONBLOCK) = false.
Proof. unfold nonblocking. rewrite Z.ldiff_spec. apply andb_false_r. Qed.
Lemma fm_update_inv u w fd x k' f g canc : FdInv u w → u !! fd = Some x → ctx_of fd (g x) = f (ctx_of fd x) →
  (∀ e, k_fstat k' e = k_fstat (fw_kernel w) e) → (∀ e, e ≠ fd → k_getfl k' e = k_getfl (fw_kernel w) e) → nonblocking (k_getfl k' fd) = true →
  FdInv (alter g fd u) (mkFdw k' (alter (fmap f) (Z.to_nat fd) (fw_datas w)) canc).
Proof.
  intros HI Hx Hf Hs Hg Hn. pose proof (fi_ctx _ _ HI fd x Hx) as (H0 & Hd & Hst & _). split; cbn.
  - intros e y. rewrite Hs. destruct (decide (e = fd)) as [->|Hne].
    + rewrite lookup_alter_eq, Hx. intros [= <-]. rewrite list_lookup_alter_eq, Hd. cbn. rewrite Hf. done.
    + rewrite lookup_alter_ne by done. intros Hy. destruct (fi_ctx _ _ HI e y Hy) as (? & ? & ? & ?). rewrite list_lookup_alter_ne by lia. rewrite Hg by done. done.
  - intros i c Hi. destruct (decide (Z.of_nat i = fd)) as [<-|Hne]; [rewrite lookup_alter_eq, Hx; by eexists|]. rewrite lookup_alter_ne by done. rewrite list_lookup_alter_ne in Hi by lia. by eapply fi_slot.
  - rewrite length_alter. by eapply fi_size.
Qed.
Lemma fm_delete_inv u w fd k' canc : FdInv u w → 0 <= fd → (∀ e, e ≠ fd → k_fstat k' e = k_fstat (fw_kernel w) e ∧ k_getfl k' e = k_getfl (fw_kernel w) e) →
  FdInv (delete fd u) (mkFdw k' (<[Z.to_nat fd := None]> (fw_datas w)) canc).
Proof.
  intros HI H0 Hk. split; cbn.
  - intros e y [Hne Hy]%lookup_delete_Some. destruct (fi_ctx _ _ HI e y Hy) as (? & ? & ? & ?). destruct (Hk e) as [-> ->]; [done|]. rewrite list_lookup_insert_ne by lia. done.
  - intros i c Hi. destruct (decide (Z.to_nat fd = i)) as [<-|Hne].
    + destruct (decide (Z.to_nat fd < length (fw_datas w))%nat); [by rewrite list_lookup_insert_eq in Hi|]. rewrite list_insert_ge in Hi by lia. apply lookup_lt_Some in Hi. lia.
    + rewrite list_lookup_insert_ne in Hi by done. rewrite lookup_delete_ne by lia. by eapply fi_slot.
  - rewrite length_insert. by eapply fi_size.
Qed.
Lemma fm_insert_inv u w fd k' d canc : FdInv u w → 0 <= fd < Z.of_nat (length d) → Z.of_nat (length d) < 2 ^ 31 → (length (fw_datas w) <= length d)%nat →
  (∀ i, fw_datas w !! i = d !! i ∨ (length (fw_datas w) <= i)%nat ∧ ∀ c, d !! i ≠ Some (Some c)) →
  (∀ e, e ≠ fd → k_fstat k' e = k_fstat (fw_kernel w) e ∧ k_getfl k' e = k_getfl (fw_kernel w) e) → k_fstat k' fd = Some true → nonblocking (k_getfl k' fd) = true →
  FdInv (<[fd := mkUfd false None None]> u) (mkFdw k' (<[Z.to_nat fd := Some (ctx_of fd (mkUfd false None None))]> d) canc).
Proof.
  intros HI H0 Hd Hl Hat Hk Hst Hn. pose proof (fi_size _ _ HI). split; cbn.
  - intros e y [[<- <-]|[Hne Hy]]%lookup_insert_Some; [rewrite list_lookup_insert_eq by lia; split_and!; [lia|done|done|done]|]. destruct (fi_ctx _ _ HI e y Hy) as (? & Hs & ? & ?). destruct (Hk e) as [-> ->]; [done|].
    rewrite list_lookup_insert_ne by lia. destruct (Hat (Z.to_nat e)) as [E|[Hge _]]; [by rewrite <- E|]. apply lookup_lt_Some in Hs. lia.
  - intros i c Hi. destruct (decide (Z.of_nat i = fd)) as [<-|Hne]; [rewrite lookup_insert_eq; by eexists|]. rewrite lookup_insert_ne by done. rewrite list_lookup_insert_ne in Hi by lia.
    destruct (Hat i) as [E|[_ Hno]]; [|by apply Hno in Hi]. rewrite <- E in Hi. by eapply fi_slot.
  - rewrite length_insert. lia.
Qed.
Lemma FdCtx_new_socket w fd : k_fstat (fw_kernel w) fd = Some true → ∃ k', FdCtx_new fd w = Ret (ctx_of fd (mkUfd false None None)) (mkFdw k' (fw_datas w) (fw_cancelled w)) ∧
  (∀ e, e ≠ fd → k_fstat k' e = k_fstat (fw_kernel w) e ∧ k_getfl k' e = k_getfl (fw_kernel w) e) ∧ k_fstat k' fd = Some true ∧ nonblocking (k_getfl k' fd) = true.
Proof.
  intros Hs. unfold FdCtx_new, cbind, creads. rewrite Hs. destruct (nonblocking (k_getfl (fw_kernel w) fd)) eqn:En.
  - exists (fw_kernel w). split_and!; [by destruct w|done|done|done].
  - unfold with_kernel. destruct (k_setfl (fw_kernel w) fd (Z.lor (k_getfl (fw_kernel w) fd) O_NONBLOCK)) as [r k'] eqn:Ek. assert (E : k' = (k_setfl (fw_kernel w) fd (Z.lor (k_getfl (fw_kernel w) fd) O_NONBLOCK)).2) by (by rewrite Ek).
    exists k'. split_and!; [done| | |]; subst k'.
    + intros e He. rewrite setfl_fstat, setfl_other by done. done.
    + by rewrite setfl_fstat.
    + rewrite setfl_bit by congruence. apply lor_nonblock.
Qed.
Lemma grown_slots (d : list (option FdCtx)) n i : (length d <= n)%nat → d !! i = resize n None d !! i ∨ (length d <= i)%nat ∧ ∀ c, resize n None d !! i ≠ Some (Some c).
Proof.
  intros Hn. destruct (decide (i < length d)%nat) as [Hi|Hi]; [left; by rewrite lookup_resize by lia|]. right. split; [lia|]. intros c.
  destruct (decide (i < n)%nat); [rewrite lookup_resize_new by lia; done|rewrite lookup_resize_old by lia; done].
Qed.
Lemma fm_create_spec u w w1 fd : FdInv u w → fw_datas w1 = fw_datas w → 0 <= fd < 2 ^ 30 → k_fstat (fw_kernel w1) fd = Some true →
  (∀ e, e ≠ fd → k_fstat (fw_kernel w1) e = k_fstat (fw_kernel w) e ∧ k_getfl (fw_kernel w1) e = k_getfl (fw_kernel w) e) →
  ∃ c w', fm_create fd w1 = Ret c w' ∧ FdInv (<[fd := mkUfd false None None]> u) w'.
Proof.
  intros HI Hd H0 Hs Hk. destruct (FdCtx_new_socket w1 fd Hs) as (k' & E & Hk' & Hst & Hn). unfold fm_create. rewrite (cbind_Ret _ _ _ _ _ E). unfold cbind, creads. cbn [fw_datas]. rewrite Hd, (fi_i32 u w HI).
  pose proof (fi_size _ _ HI) as Hsz. set (d := if Z.of_nat (length (fw_datas w)) <=? fd then _ else _).
  assert (Hlen : fd < Z.of_nat (length d) ∧ Z.of_nat (length d) < 2 ^ 31 ∧ (length (fw_datas w) <= length d)%nat ∧ ∀ i, fw_datas w !! i = d !! i ∨ (length (fw_datas w) <= i)%nat ∧ ∀ c, d !! i ≠ Some (Some c)).
  { subst d. destruct (Z.leb_spec (Z.of_nat (length (fw_datas w))) fd) as [Hle|Hlt]; [|split_and!; [lia|lia|lia|by left]].
    assert (Hq : fd < fd * 3 / 2 < 2 ^ 31) by (pose proof (Z.div_mod (fd * 3) 2 ltac:(lia)); pose proof (Z.mod_pos_bound (fd * 3) 2 ltac:(lia)); lia).
    rewrite length_resize. split_and!; [lia|lia|lia|]. intros i. apply grown_slots. lia. }
  destruct Hlen as (L1 & L2 & L3 & L4). rewrite (proj2 (Z.leb_le 0 fd)), (proj2 (Z.ltb_lt fd _)) by lia. cbn [andb]. eexists _, _. split; [reflexivity|].
  apply (fm_insert_inv u w fd k' d); try done; [lia|]. intros e He. destruct (Hk' e He) as [-> ->]. by apply Hk.
Qed.
Lemma socket_spec u w d t p : FdInv u w → Z.land t SOCK_NONBLOCK = 0 → ∃ r w', fexec (OSocket d t p) w = Ret r w' ∧ FdInv (uexec (OSocket d t p) r u) w'.
Proof.
  intros HI Ht. cbn [fexec uexec]. rewrite Ht. cbn [Z.eqb negb]. unfold hook_socket, with_kernel, cbind. destruct (k_socket (fw_kernel w) d t p) as [fd k'] eqn:Ek. destruct (socket_new _ _ _ _ _ _ Ek) as [[-> ->]|(H0 & Hno & Hst & Hk)].
  - exists (-1), w. cbn. split; [by destruct w|done].
  - set (w1 := mkFdw k' (fw_datas w) (fw_cancelled w)). destruct (fm_create_spec u w w1 fd HI eq_refl H0 Hst Hk) as (c & w' & Ec & HI'). rewrite (proj2 (Z.eqb_neq fd (-1))) by lia.
    assert (Hu : u !! fd = None). { destruct (u !! fd) as [x|] eqn:Hx; [|done]. destruct (fi_ctx _ _ HI fd x Hx) as (_ & _ & E & _). congruence. }
    assert (Hg : fm_get fd true w1 = Ret (Some c) w').
    { unfold fm_get. rewrite (proj2 (Z.eqb_neq fd (-1))) by lia. unfold cbind, creads. cbn [fw_datas w1]. rewrite (fi_i32 u w HI). destruct (Z.leb_spec (Z.of_nat (length (fw_datas w))) fd) as [Hle|Hlt]; [by rewrite Ec|].
      rewrite (proj2 (Z.ltb_ge _ _)) by lia. destruct (fw_datas w !! Z.to_nat fd) as [[c'|]|] eqn:Hd; [|by rewrite Ec|apply lookup_ge_None in Hd; lia]. destruct (fi_slot _ _ HI _ _ Hd) as [y Hy]. rewrite Z2Nat.id in Hy by lia. congruence. }
    rewrite Hg. exists fd, w'. split; [done|]. cbn. by rewrite (proj2 (Z.eqb_neq fd (-1))) by lia.
Qed.
Lemma kernel_inv u w k' canc : FdInv u w → (∀ e, is_Some (u !! e) → k_fstat k' e = k_fstat (fw_kernel w) e ∧ k_getfl k' e = k_getfl (fw_kernel w) e) → FdInv u (mkFdw k' (fw_datas w) canc).
Proof.
  intros HI Hk. split; cbn; [|by eapply fi_slot|by eapply fi_size]. intros fd x Hx. destruct (fi_ctx _ _ HI fd x Hx) as (? & ? & ? & ?). destruct (Hk fd) as [-> ->]; [by eexists|done].
Qed.
Lemma close_spec u w iom fd : FdInv u w → -1 <= fd → ∃ r w', fexec (OClose iom fd) w = Ret r w' ∧ FdInv (uexec (OClose iom fd) r u) w'.
Proof.
  intros HI H0. cbn. unfold hook_close. destruct (u !! fd) as [x|] eqn:Hx.
  - rewrite (cbind_Ret _ _ _ _ _ (fm_get_found u w fd false x HI Hx)). destruct (fi_ctx _ _ HI fd x Hx) as (Hp & Hd & _). apply lookup_lt_Some in Hd.
    set (w1 := mkFdw (fw_kernel w) (fw_datas w) (if iom then fw_cancelled w ++ [fd] else fw_cancelled w)).
    assert (Hm : (let! _ := if iom then cmodify (λ w : W, mkFdw (fw_kernel w) (fw_datas w) (fw_cancelled w ++ [fd])) else cret tt in fm_del fd) w = Ret tt (mkFdw (fw_kernel w) (<[Z.to_nat fd := None]> (fw_datas w)) (fw_cancelled w1))).
    { assert (E : (if iom then cmodify (λ w : W, mkFdw (fw_kernel w) (fw_datas w) (fw_cancelled w ++ [fd])) else cret tt) w = Ret tt w1) by (unfold w1; destruct w, iom; done). rewrite (cbind_Ret _ _ _ _ _ E).
      unfold fm_del, cbind, creads. cbn [fw_datas w1]. rewrite (fi_i32 u w HI), (proj2 (Z.leb_gt _ _)), (proj2 (Z.ltb_ge _ _)) by lia. done. }
    rewrite (cbind_Ret _ _ _ _ _ Hm). unfold with_kernel. cbn [fw_kernel]. destruct (k_close (fw_kernel w) fd) as [r k'] eqn:Ek. eexists _, _. split; [done|]. apply fm_delete_inv; [done|done|]. intros e He. replace k' with (k_close (fw_kernel w) fd).2 by (by rewrite Ek). by apply close_other.
  - rewrite (cbind_Ret _ _ _ _ _ (fm_get_none u w fd HI H0 Hx)). unfold cret, cbind, with_kernel. destruct (k_close (fw_kernel w) fd) as [r k'] eqn:Ek. eexists _, _. split; [done|]. rewrite delete_id by done. apply kernel_inv; [done|].
    intros e [y He]. replace k' with (k_close (fw_kernel w) fd).2 by (by rewrite Ek). apply close_other. congruence.
Qed.
Lemma setfl_spec u w fd arg : FdInv u w → -1 <= fd → ∃ r w', fexec (OSetfl fd arg) w = Ret r w' ∧ FdInv (uexec (OSetfl fd arg) r u) w'.
Proof.
  intros HI H0. cbn. unfold fcntl_setfl. destruct (u !! fd) as [x|] eqn:Hx.
  - rewrite (cbind_Ret _ _ _ _ _ (fm_get_found u w fd false x HI Hx)). cbn [passive ctx_of m_isClosed m_isSocket m_sysNonblock negb orb]. unfold fm_update, cmodify, cbind, with_kernel. cbn [fw_kernel].
    destruct (k_setfl (fw_kernel w) fd (Z.lor arg O_NONBLOCK)) as [r k'] eqn:Ek. assert (E : k' = (k_setfl (fw_kernel w) fd (Z.lor arg O_NONBLOCK)).2) by (by rewrite Ek). eexists _, _. split; [done|]. destruct (fi_ctx _ _ HI fd x Hx) as (_ & _ & Hs & _).
    eapply fm_update_inv; [done|done|done| | |]; subst k'; [intros e; apply setfl_fstat|intros e He; by apply setfl_other|rewrite setfl_bit by congruence; apply lor_nonblock].
  - rewrite (cbind_Ret _ _ _ _ _ (fm_get_none u w fd HI H0 Hx)). unfold with_kernel. destruct (k_setfl (fw_kernel w) fd arg) as [r k'] eqn:Ek. eexists _, _. split; [done|]. rewrite alter_id by (intros y Hy; congruence). apply kernel_inv; [done|].
    intros e [y He]. replace k' with (k_setfl (fw_kernel w) fd arg).2 by (by rewrite Ek). rewrite setfl_fstat, setfl_other by congruence. done.
Qed.
Lemma timeout_spec u w fd type s us : FdInv u w → fop_ok (OTimeout fd type s us) → ∃ r w', fexec (OTimeout fd type s us) w = Ret r w' ∧ FdInv (uexec (OTimeout fd type s us) r u) w'.
Proof.
  intros HI (H0 & Hs & Hu & Hp). cbn [fexec]. unfold hook_setsockopt. destruct (u !! fd) as [x|] eqn:Hx.
  - unfold cbind. rewrite (fm_get_found u w fd false x HI Hx). eexists _, _. split; [done|]. destruct (fi_ctx _ _ HI fd x Hx) as (_ & _ & _ & Hn). destruct type; (eapply fm_update_inv; [done|done| |done|done|done]); unfold ctx_of; cbn; by rewrite timeval_ms.
  - unfold cbind. rewrite (fm_get_none u w fd HI (proj1 H0) Hx). eexists _, _. split; [done|]. destruct type; cbn [uexec]; rewrite alter_id by (intros y Hy; congruence); done.
Qed.
Lemma fexec_spec o u w : FdInv u w → fop_ok o → ∃ r w', fexec o w = Ret r w' ∧ FdInv (uexec o r u) w'.
Proof. destruct o; cbn [fop_ok]; intros HI Ho; [by apply socket_spec|apply close_spec; [done|lia]|apply setfl_spec; [done|lia]|by apply timeout_spec]. Qed.
Lemma frun_spec os u w : FdInv u w → Forall fop_ok os → ∃ u' w', frun os u w = Ret u' w' ∧ FdInv u' w'.
Proof.
  intros HI Ho. revert u w HI. induction Ho as [|o os Ho _ IH]; intros u w HI; [by exists u, w|]. destruct (fexec_spec o u w HI Ho) as (r & w1 & E & HI1). cbn [frun]. rewrite (cbind_Ret _ _ _ _ _ E). by apply IH.
Qed.
Lemma manager_inv k : FdInv ∅ (FdManager_new k).
Proof. split; unfold FdManager_new; cbn [fw_datas fw_kernel]; [done| |rewrite length_replicate; lia]. by intros i c [Hi _]%lookup_replicate. Qed.

(** C35: The hooks hide that sockets are non-blocking. After any history of
    sockets made without SOCK_NONBLOCK, closed, set with F_SETFL and given
    valid, non-zero timeouts, no step of which is undefined, each socket the
    program has open is non-blocking for the kernel, F_GETFL tells what its
    user asked for last, and calls on it go to the system directly when the
    user wants no blocking and otherwise may wait in the fiber, with the
    timeout its user set last, rounded down to milliseconds, or none. (Outside
    these histories: [nonblock_hidden], [zero_timeout], [fionbio_blocks].) *)
Theorem fd_transparent k os : Forall fop_ok os → ∃ u w, frun os ∅ (FdManager_new k) = Ret u w ∧
  ∀ fd x, u !! fd = Some x →
    nonblocking (k_getfl (fw_kernel w) fd) = true ∧
    (∃ flags, fcntl_getfl fd w = Ret flags w ∧ nonblocking flags = u_nonblock x) ∧
    (∀ type, do_io_mode fd type w = Ret (if u_nonblock x then Direct else MayWait (wait_ms (u_timeout type x))) w) ∧
    ∀ ms, connect_mode fd ms w = Ret (if u_nonblock x then Direct else MayWait ms) w.
Proof.
  intros Ho. destruct (frun_spec os ∅ (FdManager_new k) (manager_inv k) Ho) as (u & w & E & HI). exists u, w. split; [done|]. intros fd x Hx. pose proof (fm_get_found u w fd false x HI Hx) as Hg. split_and!.
  - by eapply fi_ctx.
  - eexists. unfold fcntl_getfl, cbind, creads. rewrite Hg. cbn. split; [done|]. destruct (u_nonblock x); [apply lor_nonblock|apply ldiff_nonblock].
  - intros type. unfold do_io_mode, cbind. rewrite Hg. cbn. unfold cret. by destruct (u_nonblock x), type.
  - intros ms. unfold connect_mode, cbind. rewrite Hg. cbn. unfold cret. by destruct (u_nonblock x).
Qed.
End transparent.

(** ** A kernel *)
Record toy := mkToy { t_next : Z; t_open : gmap Z (bool * Z) }.
Definition set_bit (on : bool) (flags : Z) : Z := if on then Z.lor flags O_NONBLOCK else Z.ldiff flags O_NONBLOCK.
#[export] Instance toy_kernel : Kernel toy := {
  k_fstat k fd := fst <$> t_open k !! fd;
  k_getfl k fd := default (-1) (snd <$> t_open k !! fd);
  k_setfl k fd a := (0, mkToy (t_next k) (alter (λ p, (p.1, a)) fd (t_open k)));
  k_fionbio k fd on := (0, mkToy (t_next k) (alter (λ p, (p.1, set_bit on p.2)) fd (t_open k)));
  k_socket k _ _ _ :=
    if bool_decide (0 <= t_next k < 2 ^ 30) && bool_decide (t_open k !! t_next k = None) then (t_next k, mkToy (t_next k + 1) (<[t_next k := (true, 2)]> (t_open k)))
    else (-1, k);
  k_close k fd := (0, mkToy (t_next k) (delete fd (t_open k)))
}.
#[export] Instance toy_laws : KernelLaws toy.
Proof.
  split; cbn.
  - intros k fd a Hs. rewrite lookup_alter_eq. destruct (t_open k !! fd); done.
  - intros k fd a g Hg. by rewrite lookup_alter_ne.
  - intros k fd a g. destruct (decide (g = fd)) as [->|]; [rewrite lookup_alter_eq|by rewrite lookup_alter_ne]. by destruct (t_open k !! fd).
  - intros k d t p fd k'. case_bool_decide as H1; cbn; [|by intros [= <- <-]; left]. case_bool_decide as H2; [|by intros [= <- <-]; left]. intros [= <- <-]. right. cbn. rewrite lookup_insert_eq, H2. split_and!; [lia|lia|done|done|]. intros g Hg. by rewrite !lookup_insert_ne.
  - intros k fd g Hg. by rewrite !lookup_delete_ne.
Qed.
Definition toy_start : toy := mkToy 3 ∅.
Lemma fd_transparent_witness : ∃ u w, frun [OSocket 2 1 0; OTimeout 3 SO_RCVTIMEO 1 500000; OSetfl 3 0; OSocket 2 1 0; OSetfl 4 O_NONBLOCK] ∅ (FdManager_new toy_start) = Ret u w ∧
  do_io_mode 3 SO_RCVTIMEO w = Ret (MayWait 1500) w ∧ do_io_mode 4 SO_RCVTIMEO w = Ret Direct w.
Proof.
  destruct (fd_transparent toy_start [OSocket 2 1 0; OTimeout 3 SO_RCVTIMEO 1 500000; OSetfl 3 0; OSocket 2 1 0; OSetfl 4 O_NONBLOCK]) as (u & w & E & H); [repeat (apply Forall_cons_2; [first [reflexivity|cbn; lia]|]); apply Forall_nil_2|].
  exists u, w. split; [exact E|]. assert (Hu : u !! 3 = Some (mkUfd false (Some 1500000) None) ∧ u !! 4 = Some (mkUfd true None None)) by (vm_compute in E; injection E as <- _; vm_compute; split; reflexivity).
  destruct Hu as [H3 H4]. destruct (H 3 _ H3) as (_ & _ & M3 & _). destruct (H 4 _ H4) as (_ & _ & M4 & _). split; [exact (M3 SO_RCVTIMEO)|exact (M4 SO_RCVTIMEO)].
Defined.
(** ioctl(FIONBIO) with 0 makes the socket block in the kernel, and a call that
    should wait in its fiber blocks the thread. *)
Lemma fionbio_blocks : ∃ w, (let! fd := hook_socket 2 1 0 in ioctl_fionbio fd false) (FdManager_new toy_start) = Ret 0 w ∧ nonblocking (k_getfl (fw_kernel w) 3) = false ∧ do_io_mode 3 SO_RCVTIMEO w = Ret (MayWait no_timeout) w.
Proof. eexists. split; [vm_compute; reflexivity|]. split; vm_compute; reflexivity. Qed.
(** A socket made with SOCK_NONBLOCK is treated as one that blocks, and F_GETFL
    says that it does. *)
Lemma nonblock_hidden : ∃ u w flags, frun [OSocket 2 (Z.lor 1 SOCK_NONBLOCK) 0] ∅ (FdManager_new toy_start) = Ret u w ∧ u !! 3 = Some (mkUfd true None None) ∧
  fcntl_getfl 3 w = Ret flags w ∧ nonblocking flags = false ∧ do_io_mode 3 SO_RCVTIMEO w = Ret (MayWait no_timeout) w.
Proof. eexists _, _, _. split; [vm_compute; reflexivity|]. split_and!; vm_compute; reflexivity. Qed.
(** A timeout of zero, which means none, makes every wait end at once. *)
Lemma zero_timeout : ∃ w, (let! fd := hook_socket 2 1 0 in hook_setsockopt fd SO_RCVTIMEO 0 0) (FdManager_new toy_start) = Ret tt w ∧ do_io_mode 3 SO_RCVTIMEO w = Ret (MayWait 0) w.
Proof. eexists. split; [vm_compute; reflexivity|]. vm_compute. reflexivity. Qed.
(** A negative descriptor other than -1 is looked up outside the table. *)
Lemma negative_fd {K} `{!Kernel K} (k : K) : fm_get (-2) false (FdManager_new k) = Stuck OutOfBounds.
Proof. reflexivity. Qed.
(** Long sleeps wrap around: 4294968 seconds are 704 milliseconds, and a
    nanosleep of 25 days is 2^64 milliseconds less some. Short ones of usleep
    are none. *)
Lemma sleep_wraps : sleep_ms 4294968 = 704 ∧ nanosleep_ms 2160000 0 = 2 ^ 64 - 2134967296 ∧ usleep_ms 999 = 0.
Proof. vm_compute. done. Qed.
