(* ===== verification/TcpServer.v ===== *)
(** * The TCP server (Sylar/tcp_server.{h,cc})

    A server listens on sockets; for each a loop accepts clients in a fiber and
    has them handled. The loops, the tasks given to the schedulers and the
    callers of start and stop interleave freely. Sockets are numbered in the
    order they are made; bind, listen and accept of the system are arguments
    or steps. *)
From Stdlib Require Import ZArith Lia.
From stdpp Require Import base list gmap relations.
From S2P Require Import Prelude.

Inductive task := TAccept (sock : nat) | TClose.
#[export] Instance task_eq_dec : EqDecision task.
Proof. solve_decision. Defined.
Record tcp_server := mkTcp {
  ts_socks : list nat;              (* m_socks *)
  ts_isStop : bool;
  ts_open : gset nat;               (* the sockets that listen *)
  ts_next : nat;
  ts_tasks : list task;             (* with m_acceptWorker, not begun *)
  ts_loops : list (nat * bool);     (* in startAccept: before the test, or in accept *)
  ts_clients : list nat;            (* handleClient, given to m_ioWorker *)
  ts_fails : nat;                   (* accepts that gave nothing *)
  ts_orphans : gset nat             (* for the proofs: in a loop when a failed bind forgot them *)
}.
Definition TcpServer_new : tcp_server := mkTcp [] true ∅ 0 [] [] [] 0 ∅.
Implicit Types s : tcp_server.

(** ** Operations *)
(** bind: for each address whether bind and listen succeed. *)
Fixpoint bind_loop (addrs : list (bool * bool)) (i : nat) (s : tcp_server) : list nat * tcp_server :=
  match addrs with
  | [] => ([], s)
  | (bound, listens) :: addrs =>
    let k := ts_next s in
    if bound && listens then
      bind_loop addrs (S i) (mkTcp (ts_socks s ++ [k]) (ts_isStop s) ({[k]} ∪ ts_open s) (S k) (ts_tasks s) (ts_loops s) (ts_clients s) (ts_fails s) (ts_orphans s))
    else
      let '(fails, s) := bind_loop addrs (S i) (mkTcp (ts_socks s) (ts_isStop s) (ts_open s) (S k) (ts_tasks s) (ts_loops s) (ts_clients s) (ts_fails s) (ts_orphans s)) in (i :: fails, s)
  end.
(** A socket that nobody holds any more closes. *)
Definition held (k : nat) s : bool := bool_decide (TAccept k ∈ ts_tasks s) || bool_decide (k ∈ (ts_loops s).*1).
Definition tcp_bind (addrs : list (bool * bool)) (s : tcp_server) : bool * tcp_server :=
  let '(fails, s) := bind_loop addrs 0 s in
  match fails with
  | [] => (true, s)
  | _ => (false, mkTcp [] (ts_isStop s) (filter (λ k, k ∉ ts_socks s ∨ held k s = true) (ts_open s)) (ts_next s) (ts_tasks s) (ts_loops s) (ts_clients s) (ts_fails s)
                   (ts_orphans s ∪ filter (λ k, held k s = true) (list_to_set (ts_socks s))))
  end.
Definition tcp_start (s : tcp_server) : tcp_server :=
  if negb (ts_isStop s) then s
  else mkTcp (ts_socks s) false (ts_open s) (ts_next s) (ts_tasks s ++ (TAccept <$> ts_socks s)) (ts_loops s) (ts_clients s) (ts_fails s) (ts_orphans s).
Definition tcp_stop (s : tcp_server) : tcp_server := mkTcp (ts_socks s) true (ts_open s) (ts_next s) (ts_tasks s ++ [TClose]) (ts_loops s) (ts_clients s) (ts_fails s) (ts_orphans s).
(** What a task does first: startAccept enters its loop, stop's closes. *)
Definition tcp_task (t : task) (s : tcp_server) : tcp_server :=
  match t with
  | TAccept k => mkTcp (ts_socks s) (ts_isStop s) (ts_open s) (ts_next s) (ts_tasks s) (ts_loops s ++ [(k, false)]) (ts_clients s) (ts_fails s) (ts_orphans s)
  | TClose => mkTcp [] (ts_isStop s) (ts_open s ∖ list_to_set (ts_socks s)) (ts_next s) (ts_tasks s) (ts_loops s) (ts_clients s) (ts_fails s) (ts_orphans s)
  end.
Definition begin_task (i : nat) (s : tcp_server) : option tcp_server :=
  t ← ts_tasks s !! i; Some (tcp_task t (mkTcp (ts_socks s) (ts_isStop s) (ts_open s) (ts_next s) (delete i (ts_tasks s)) (ts_loops s) (ts_clients s) (ts_fails s) (ts_orphans s))).
(** A round of startAccept: the test of m_isStop, then accept, which gives a
    client or nothing. *)
Definition accept_test (j : nat) (s : tcp_server) : option tcp_server :=
  match ts_loops s !! j with
  | Some (k, false) => Some (mkTcp (ts_socks s) (ts_isStop s) (ts_open s) (ts_next s) (ts_tasks s) (if ts_isStop s then delete j (ts_loops s) else <[j := (k, true)]> (ts_loops s)) (ts_clients s) (ts_fails s) (ts_orphans s))
  | _ => None
  end.
Definition accept_return (j : nat) (client : option nat) (s : tcp_server) : option tcp_server :=
  match ts_loops s !! j with
  | Some (k, true) =>
    let loops := <[j := (k, false)]> (ts_loops s) in
    match client with
    | Some c => if decide (k ∈ ts_open s) then Some (mkTcp (ts_socks s) (ts_isStop s) (ts_open s) (ts_next s) (ts_tasks s) loops (ts_clients s ++ [c]) (ts_fails s) (ts_orphans s)) else None
    | None => Some (mkTcp (ts_socks s) (ts_isStop s) (ts_open s) (ts_next s) (ts_tasks s) loops (ts_clients s) (S (ts_fails s)) (ts_orphans s))
    end
  | _ => None
  end.
(** ** Steps *)
(** Of the server alone: accept gives nothing on a closed socket. *)
Inductive tcp_own s : tcp_server → Prop :=
  | to_begin i s' : begin_task i s = Some s' → tcp_own s s'
  | to_test j s' : accept_test j s = Some s' → tcp_own s s'
  | to_null j k s' : ts_loops s !! j = Some (k, true) → k ∉ ts_open s → accept_return j None s = Some s' → tcp_own s s'.
Inductive tcp_step s : tcp_server → Prop :=
  | ts_own s' : tcp_own s s' → tcp_step s s'
  | ts_accept j c s' : accept_return j c s = Some s' → tcp_step s s'
  | ts_bind addrs : tcp_step s (tcp_bind addrs s).2
  | ts_start : tcp_step s (tcp_start s)
  | ts_stop : tcp_step s (tcp_stop s).

(** ** What holds at every moment *)
Record TcpInv s : Prop := {
  ti_held k : held k s = true → k ∈ ts_open s → k ∈ ts_orphans s ∨ k ∈ ts_socks s ∧ (ts_isStop s = true → TClose ∈ ts_tasks s);
  ti_socks k : k ∈ ts_socks s → k < ts_next s;
  ti_fresh k : held k s = true → k < ts_next s
}.
Lemma held_true k s : held k s = true ↔ TAccept k ∈ ts_tasks s ∨ k ∈ (ts_loops s).*1.
Proof. unfold held. by rewrite orb_true_iff, !bool_decide_eq_true. Qed.
Lemma bind_loop_spec addrs i s : let s' := (bind_loop addrs i s).2 in
  ts_isStop s' = ts_isStop s ∧ ts_tasks s' = ts_tasks s ∧ ts_loops s' = ts_loops s ∧ ts_orphans s' = ts_orphans s ∧ ts_next s <= ts_next s' ∧ (∀ k, k ∈ ts_socks s → k ∈ ts_socks s') ∧
  (∀ k, k ∈ ts_socks s' → k ∈ ts_socks s ∨ ts_next s <= k < ts_next s') ∧ (∀ k, k ∈ ts_open s' → k ∈ ts_open s ∨ ts_next s <= k).
Proof.
  revert i s. induction addrs as [|[b l] addrs IH]; intros i s; cbn [bind_loop]; [split_and!; auto|]. destruct (b && l).
  - specialize (IH (S i) (mkTcp (ts_socks s ++ [ts_next s]) (ts_isStop s) ({[ts_next s]} ∪ ts_open s) (S (ts_next s)) (ts_tasks s) (ts_loops s) (ts_clients s) (ts_fails s) (ts_orphans s))). cbn [ts_socks ts_isStop ts_open ts_next ts_tasks ts_loops ts_orphans] in IH. destruct IH as (A & B & C & O & D & E & F & G). split_and!; [done|done|done|done|lia| | |].
    + intros k Hk. apply E. rewrite elem_of_app. by left.
    + intros k Hk. destruct (F k Hk) as [Hk'|Hk']; [|lia]. rewrite elem_of_app, list_elem_of_singleton in Hk'. destruct Hk' as [?| ->]; [by left|right; lia].
    + intros k Hk. destruct (G k Hk) as [Hk'|Hk']; [|lia]. set_solver by lia.
  - specialize (IH (S i) (mkTcp (ts_socks s) (ts_isStop s) (ts_open s) (S (ts_next s)) (ts_tasks s) (ts_loops s) (ts_clients s) (ts_fails s) (ts_orphans s))). destruct (bind_loop _ _ _) as [fails s2]. cbn in IH |- *. destruct IH as (A & B & C & O & D & E & F & G). split_and!; [done|done|done|done|lia|done| |].
    + intros k Hk. destruct (F k Hk) as [?|?]; [by left|right; lia].
    + intros k Hk. destruct (G k Hk) as [?|?]; [by left|right; lia].
Qed.
Lemma bind_inv addrs s : TcpInv s → TcpInv (tcp_bind addrs s).2.
Proof.
  intros [I1 I2 I3]. pose proof (bind_loop_spec addrs 0 s) as Hs. unfold tcp_bind in *. destruct (bind_loop addrs 0 s) as [fails s']. cbn [snd] in Hs. destruct Hs as (A & B & C & O & D & E & F & G). assert (Hh : ∀ k, held k s' = held k s) by (intros k; unfold held; by rewrite B, C).
  assert (Hold : ∀ k, held k s = true → k ∈ ts_open s' → k ∈ ts_orphans s' ∨ k ∈ ts_socks s' ∧ (ts_isStop s' = true → TClose ∈ ts_tasks s')).
  { intros k Hk Ho. destruct (G k Ho) as [Ho'|Ho']; [|apply I3 in Hk; lia]. rewrite A, B, O. destruct (I1 k Hk Ho') as [?|[? ?]]; auto. }
  destruct fails as [|f fails]; cbn [fst snd] in *.
  - split; [intros k; rewrite Hh; apply Hold|intros k Hk; destruct (F k Hk) as [?%I2|?]; lia|intros k; rewrite Hh; intros ?%I3; lia].
  - assert (Hn : ∀ k x y, held k (mkTcp [] (ts_isStop s') x (ts_next s') (ts_tasks s') (ts_loops s') (ts_clients s') (ts_fails s') y) = held k s) by (intros k x y; by rewrite <- Hh).
    split; cbn [ts_socks ts_open ts_orphans ts_next]; [|by intros k ?%not_elem_of_nil|intros k; rewrite Hn; intros ?%I3; lia].
    intros k. rewrite Hn. intros Hk [_ Ho]%elem_of_filter. left. apply elem_of_union. destruct (Hold k Hk Ho) as [?|[Hs _]]; [by left|]. right. apply elem_of_filter. rewrite Hh. split; [done|by apply elem_of_list_to_set].
Qed.
Lemma elem_of_delete_1 {A} (l : list A) i x : x ∈ delete i l → x ∈ l.
Proof. revert i. induction l as [|y l IH]; intros [|i]; cbn; [done|done|by right|]. intros [->|?%IH]%elem_of_cons; [by left|by right]. Qed.
Lemma elem_of_delete_2 {A} (l : list A) i x y : x ∈ l → l !! i = Some y → x ≠ y → x ∈ delete i l.
Proof. intros Hx Hi Hne. rewrite (delete_Permutation l i y Hi) in Hx. apply elem_of_cons in Hx as [->|?]; done. Qed.
(** Steps that hold no more sockets, open none and keep m_socks and the rest. *)
Lemma weaken_inv s s' : TcpInv s → (∀ k, held k s' = true → held k s = true) → ts_open s' = ts_open s → ts_orphans s' = ts_orphans s → ts_socks s' = ts_socks s → ts_next s' = ts_next s → (ts_isStop s' = true → ts_isStop s = true) → (TClose ∈ ts_tasks s → TClose ∈ ts_tasks s') → TcpInv s'.
Proof.
  intros [I1 I2 I3] Hh Ho Hr Hs Hn Hst Ht. split; rewrite ?Hs, ?Hn, ?Hr; [|done|eauto]. intros k Hk Hop. rewrite Ho in Hop. destruct (I1 k (Hh k Hk) Hop) as [?|[? ?]]; [by left|right; auto].
Qed.
Lemma fst_insert (l : list (nat * bool)) j k b b' : l !! j = Some (k, b) → (<[j := (k, b')]> l).*1 = l.*1.
Proof. intros Hj. rewrite list_fmap_insert. cbn. apply list_insert_id. by rewrite list_lookup_fmap, Hj. Qed.
Lemma begin_task_inv i s s' : TcpInv s → begin_task i s = Some s' → TcpInv s'.
Proof.
  intros HI. unfold begin_task. destruct (ts_tasks s !! i) as [t|] eqn:Ei; [|done]. intros [= <-]. destruct t as [k|]; cbn [tcp_task].
  - apply (weaken_inv s); try done; cbn.
    + intros q. rewrite !held_true. cbn. rewrite fmap_app, elem_of_app. cbn. rewrite list_elem_of_singleton. intros [?%elem_of_delete_1|[?| ->]]; [by left|by right|left; by eapply list_elem_of_lookup_2].
    + intros Hc. by eapply elem_of_delete_2.
  - destruct HI as [I1 I2 I3]. assert (Hh : ∀ q x, held q (mkTcp [] (ts_isStop s) x (ts_next s) (delete i (ts_tasks s)) (ts_loops s) (ts_clients s) (ts_fails s) (ts_orphans s)) = true → held q s = true) by (intros q x; rewrite !held_true; cbn; intros [?%elem_of_delete_1|?]; auto).
    split; cbn; [|by intros k ?%not_elem_of_nil|by intros k ?%Hh%I3]. intros k Hk Ho. apply Hh in Hk. left. apply elem_of_difference in Ho as [Ho Hn]. destruct (I1 k Hk Ho) as [?|[Hs _]]; [done|]. destruct Hn. by apply elem_of_list_to_set.
Qed.
Lemma accept_test_inv j s s' : TcpInv s → accept_test j s = Some s' → TcpInv s'.
Proof.
  intros HI. unfold accept_test. destruct (ts_loops s !! j) as [[k []]|] eqn:Ej; [done| |done]. intros [= <-]. apply (weaken_inv s); try done. intros q. rewrite !held_true. cbn. destruct (ts_isStop s); [|by rewrite (fst_insert _ _ _ _ _ Ej)]. intros [?|Hq]; [by left|right].
  rewrite list_elem_of_fmap in Hq. destruct Hq as (x & -> & Hx%elem_of_delete_1). by apply list_elem_of_fmap_2.
Qed.
Lemma return_inv j c s s' : TcpInv s → accept_return j c s = Some s' → TcpInv s'.
Proof.
  intros HI. unfold accept_return. destruct (ts_loops s !! j) as [[k []]|] eqn:Ej; [|done|done]. destruct c as [c|]; [destruct (decide _); [|done]|]; intros [= <-]; (apply (weaken_inv s); try done); intros q; rewrite !held_true; cbn; by rewrite (fst_insert _ _ _ _ _ Ej).
Qed.
Lemma tcp_own_inv s s' : TcpInv s → tcp_own s s' → TcpInv s'.
Proof. intros HI [i s1 E|j s1 E|j k s1 _ _ E]; [by eapply begin_task_inv|by eapply accept_test_inv|by eapply return_inv]. Qed.
Lemma tcp_step_inv s s' : TcpInv s → tcp_step s s' → TcpInv s'.
Proof.
  intros HI [s1 Ho|j c s1 E|addrs| |]; [by eapply tcp_own_inv|by eapply return_inv|by apply bind_inv| |].
  - unfold tcp_start. destruct (ts_isStop s) eqn:Es; [|done]. cbn [negb]. destruct HI as [I1 I2 I3]. assert (Hh : ∀ k, held k (mkTcp (ts_socks s) false (ts_open s) (ts_next s) (ts_tasks s ++ (TAccept <$> ts_socks s)) (ts_loops s) (ts_clients s) (ts_fails s) (ts_orphans s)) = true → held k s = true ∨ k ∈ ts_socks s).
    { intros k. rewrite !held_true. cbn. rewrite elem_of_app, list_elem_of_fmap. intros [[?|(? & [= ->] & ?)]|?]; auto. }
    split; cbn; [|done|intros k [?%I3|?%I2]%Hh; done]. intros k [Hk|Hk]%Hh Ho; [destruct (I1 k Hk Ho) as [?|[? _]]; [by left|by right]|by right].
  - destruct HI as [I1 I2 I3]. assert (Hh : ∀ k, held k (tcp_stop s) = true → held k s = true). { intros k. rewrite !held_true. cbn. rewrite elem_of_app, list_elem_of_singleton. intros [[?|?]|?]; [by left|done|by right]. }
    split; cbn; [|done|by intros k ?%Hh%I3]. intros k Hk%Hh Ho. destruct (I1 k Hk Ho) as [?|[? _]]; [by left|]. right. split; [done|]. intros _. rewrite elem_of_app, list_elem_of_singleton. by right.
Qed.
Lemma reach_tcp_inv s : rtc tcp_step TcpServer_new s → TcpInv s.
Proof.
  revert s. apply rtc_ind_r; [|intros s s' _ Hs HI; by eapply tcp_step_inv]. split; cbn; [intros k; by intros [?%not_elem_of_nil|?%not_elem_of_nil]%held_true|by intros k ?%not_elem_of_nil|intros k; by intros [?%not_elem_of_nil|?%not_elem_of_nil]%held_true].
Qed.
(** ** A server that is stopped comes to rest *)
(** What happens when nobody calls bind, start or stop: steps of the server,
    and what the kernel gives to accept. *)
Inductive tcp_run s : tcp_server → Prop :=
  | tr_own s' : tcp_own s s' → tcp_run s s'
  | tr_accept j c s' : accept_return j c s = Some s' → tcp_run s s'.
(** The steps that are left. *)
Definition task_work (t : task) : nat := match t with TAccept _ => 2 | TClose => 1 end.
Definition loop_work (l : nat * bool) : nat := if l.2 then 2 else 1.
Definition work s : nat := sum_list_with task_work (ts_tasks s) + sum_list_with loop_work (ts_loops s).
Lemma sum_delete {A} (f : A → nat) l i x : l !! i = Some x → sum_list_with f l = f x + sum_list_with f (delete i l).
Proof. intros H. rewrite (delete_Permutation l i x H) at 1. done. Qed.
Lemma sum_insert {A} (f : A → nat) l i x y : l !! i = Some x → sum_list_with f (<[i := y]> l) + f x = sum_list_with f l + f y.
Proof. intros H. pose proof (take_drop_middle l i x H) as E. rewrite (insert_take_drop l i y) by (by eapply lookup_lt_Some). rewrite <- E at 3. rewrite !sum_list_with_app. cbn. lia. Qed.
(** A step while stopped; it leaves the server stopped and less to do. *)
Definition quieter s s' : Prop := ts_isStop s' = true ∧ ts_orphans s' = ts_orphans s ∧ work s' < work s.
Lemma begin_work i s s' : ts_isStop s = true → begin_task i s = Some s' → quieter s s'.
Proof.
  intros Hs. unfold begin_task. destruct (ts_tasks s !! i) as [t|] eqn:Ei; [|done]. intros [= <-]. unfold quieter, work.
  pose proof (sum_delete task_work _ _ _ Ei). destruct t; cbn in *; split_and!; try done; [rewrite sum_list_with_app|]; cbn; lia.
Qed.
Lemma test_work j s s' : ts_isStop s = true → accept_test j s = Some s' → quieter s s'.
Proof.
  intros Hs. unfold accept_test. destruct (ts_loops s !! j) as [[k []]|] eqn:Ej; [done| |done]. rewrite Hs. intros [= <-].
  pose proof (sum_delete loop_work _ _ _ Ej). unfold quieter, work. cbn in *. split_and!; [done|done|lia].
Qed.
Lemma return_work j c s s' : ts_isStop s = true → accept_return j c s = Some s' → quieter s s'.
Proof.
  intros Hs. unfold accept_return. destruct (ts_loops s !! j) as [[k []]|] eqn:Ej; [|done|done].
  pose proof (sum_insert loop_work _ _ _ (k, false) Ej) as Hi. cbn in Hi.
  destruct c as [c|]; [destruct (decide _); [|done]|]; intros [= <-]; unfold quieter, work; cbn; (split_and!; [done|done|lia]).
Qed.
Lemma run_quieter s s' : ts_isStop s = true → tcp_run s s' → quieter s s'.
Proof. intros Hs [s1 [i s2 E|j s2 E|j k s2 _ _ E]|j c s1 E]; [by eapply begin_work|by eapply test_work|by eapply return_work|by eapply return_work]. Qed.
Lemma run_bounded n s s' : ts_isStop s = true → nsteps tcp_run n s s' → n <= work s.
Proof.
  intros Hs Hn. revert Hs. induction Hn as [|n s s1 s2 H1 _ IH]; intros Hs; [lia|]. destruct (run_quieter s s1 Hs H1) as (Hs1 & _ & Hw). specialize (IH Hs1). lia.
Qed.
Lemma run_stopped s s' : ts_isStop s = true → TcpInv s → rtc tcp_run s s' → ts_isStop s' = true ∧ ts_orphans s' = ts_orphans s ∧ TcpInv s'.
Proof.
  intros Hs HI Hr. revert Hs HI. induction Hr as [|s s1 s2 H1 _ IH]; intros Hs HI; [done|]. destruct (run_quieter s s1 Hs H1) as (Hs1 & Ho & _).
  destruct IH as (E1 & E2 & E3); [done|destruct H1 as [s1 H1|j c s1 H1]; [by eapply tcp_own_inv|by eapply return_inv]|]. split_and!; [done|congruence|done].
Qed.
(** At rest: the loops that are left wait for the kernel on open sockets. *)
Lemma rest_loops s : ts_isStop s = true → TcpInv s → (∀ s', ¬ tcp_own s s') → ts_tasks s = [] ∧ ∀ k b, (k, b) ∈ ts_loops s → b = true ∧ k ∈ ts_open s ∧ k ∈ ts_orphans s.
Proof.
  intros Hs HI Hr. assert (Ht : ts_tasks s = []).
  { destruct (ts_tasks s) as [|t ts] eqn:Et; [done|]. exfalso. eapply Hr, (to_begin _ 0). unfold begin_task. by rewrite Et. }
  split; [done|]. intros k b Hk. apply list_elem_of_lookup_1 in Hk as [j Hj]. destruct b.
  - assert (Ho : k ∈ ts_open s). { destruct (decide (k ∈ ts_open s)) as [?|Hn]; [done|]. exfalso. eapply Hr, (to_null _ j k); [done|done|]. unfold accept_return. by rewrite Hj. }
    split_and!; [done|done|]. destruct (ti_held s HI k) as [?|[_ Hc]]; [|done|done|].
    + apply held_true. right. apply (list_elem_of_fmap_2 fst (ts_loops s) (k, true)). by eapply list_elem_of_lookup_2.
    + specialize (Hc Hs). rewrite Ht in Hc. by apply not_elem_of_nil in Hc.
  - exfalso. eapply Hr, (to_test _ j). unfold accept_test. by rewrite Hj.
Qed.
(** C40: A server that is stopped comes to rest. From every moment of every history
    (binds that fail included) at which the server is stopped and until bind,
    start or stop is called again, every run of its tasks and accept loops has
    at most [work] steps, whatever the kernel gives to accept; and when none
    of its own steps is left, all tasks have run and every loop that is left
    waits in accept on an open socket that a failed bind forgot while the loop
    had it ([failed_bind_orphans]); there is no such loop if no bind failed
    while sockets were in use. While it is stopped, a loop is on a closed
    socket, on such an orphan, or on one the waiting task of stop will
    close. *)
Theorem tcp_stops s : rtc tcp_step TcpServer_new s → ts_isStop s = true →
  (∀ n s', nsteps tcp_run n s s' → n <= work s) ∧
  (∀ s', rtc tcp_run s s' → (∀ s'', ¬ tcp_own s' s'') →
     ts_tasks s' = [] ∧ (∀ k b, (k, b) ∈ ts_loops s' → b = true ∧ k ∈ ts_open s' ∧ k ∈ ts_orphans s) ∧ (ts_orphans s = ∅ → ts_loops s' = [])) ∧
  (∀ k b, (k, b) ∈ ts_loops s → k ∈ ts_open s → k ∈ ts_orphans s ∨ k ∈ ts_socks s ∧ TClose ∈ ts_tasks s).
Proof.
  intros HI%reach_tcp_inv Hs. split_and!.
  - intros n s'. by apply run_bounded.
  - intros s' Hr Hno. destruct (run_stopped s s' Hs HI Hr) as (Hs' & Ho & HI'). destruct (rest_loops s' Hs' HI' Hno) as [Ht Hl]. rewrite Ho in Hl. split_and!; [done|done|].
    intros He. destruct (ts_loops s') as [|[k b] ls]; [done|]. destruct (Hl k b) as (_ & _ & Hk); [by left|]. rewrite He in Hk. by apply not_elem_of_empty in Hk.
  - intros k b Hk Ho. destruct (ti_held s HI k) as [?|[? Hc]]; [apply held_true; right; by apply (list_elem_of_fmap_2 fst) in Hk|done|by left|right; auto].
Qed.
(** ** Examples *)
Definition running : tcp_server := mkTcp [0] false {[0]} 1 [] [(0, true)] [] 0 ∅.
Lemma running_reached : rtc tcp_step TcpServer_new running.
Proof.
  eapply rtc_l; [apply (ts_bind _ [(true, true)])|]. eapply rtc_l; [apply ts_start|]. eapply rtc_l; [apply ts_own, (to_begin _ 0); reflexivity|]. eapply rtc_l; [apply ts_own, (to_test _ 0); reflexivity|]. apply (rtc_refl tcp_step running).
Qed.
Definition rested : tcp_server := mkTcp [] true ∅ 1 [] [] [] 1 ∅.
Lemma stop_rests : rtc tcp_run (tcp_stop running) rested.
Proof.
  eapply rtc_l; [apply tr_own, (to_begin _ 0); reflexivity|]. eapply rtc_l; [apply (tr_accept _ 0 None); reflexivity|]. eapply rtc_l; [apply tr_own, (to_test _ 0); reflexivity|].
  apply reflexive_eq. vm_compute. reflexivity.
Qed.
Lemma tcp_stops_witness : ts_isStop (tcp_stop running) = true ∧ (∀ n s', nsteps tcp_run n (tcp_stop running) s' → n <= 3) ∧ ts_loops rested = [].
Proof.
  destruct (tcp_stops (tcp_stop running)) as (H1 & H2 & _); [eapply rtc_r; [apply running_reached|apply ts_stop]|reflexivity|].
  split; [reflexivity|]. split; [exact H1|]. apply (H2 rested stop_rests); [|reflexivity].
  intros s'' [[|i] s1 E|[|j] s1 E|[|j] k s1 E _ _]; discriminate E.
Defined.
(** A server started again before the task of stop has run: its sockets are closed
    under it, and its loop fails for ever. *)
Definition spinning (n : nat) : tcp_server := mkTcp [] false ∅ 1 [] [(0, true); (0, true)] [] n ∅.
Lemma restart_spins : rtc tcp_step TcpServer_new (spinning 0) ∧ ∀ n, rtc tcp_own (spinning n) (spinning (S n)).
Proof.
  split.
  - etrans; [apply running_reached|]. eapply rtc_l; [apply ts_stop|]. eapply rtc_l; [apply ts_start|]. eapply rtc_l; [apply ts_own, (to_begin _ 0); reflexivity|]. eapply rtc_l; [apply ts_own, (to_begin _ 0); reflexivity|]. eapply rtc_l; [apply ts_own, (to_test _ 1); reflexivity|]. apply reflexive_eq. vm_compute. reflexivity.
  - intros n. eapply rtc_l; [apply (to_null _ 0 0); [reflexivity|set_solver|reflexivity]|]. apply rtc_once, (to_test _ 0). reflexivity.
Qed.
(** A bind that fails forgets the sockets of earlier ones: their loops go on and
    stop does not end them. *)
Definition orphaned : tcp_server := tcp_task TClose (tcp_stop (tcp_bind [(false, true)] running).2).
Lemma failed_bind_orphans : 0 ∈ ts_open orphaned ∧ ts_loops orphaned = [(0, true)] ∧ ts_isStop orphaned = true ∧ ts_orphans orphaned = {[0]}.
Proof. split_and!; vm_compute; reflexivity. Qed.
