(* ===== verification/SortedVec.v ===== *)
(** * Sorted ranges (Sylar/DataStructure/util.h, array.h)

    The binary searches and the insertion step the hash tables share, the
    bucket count, and the sorted array. Elements are compared by a key with
    the strict total order [klt]. *)
From Stdlib Require Import ZArith Lia Sorting.Sorted.
From stdpp Require Import base list sets sorting list_numbers numbers.
From S2P Require Import Prelude OrderedSet.

Local Open Scope Z_scope.

(** ** Operations *)

(** basket(n), the argument converted to int: log2 of 0 is minus infinity
    and abs of the minimum overflows, both undefined when converted and
    shifted. The base-2 logarithm of an int is exact below its floor in
    double precision. *)
Definition basket (n : Z) : option Z :=
  let n := i32 n in
  if (n =? 0) || (n =? - 2 ^ 31) then None
  else Some (Z.shiftl 1 (Z.min (Z.log2 (Z.abs n) + 1) 30)).

Section ranges.
Context {A : Type}.
Local Open Scope nat_scope.

(** std::lower_bound, [less x] for [x < v]; it looks at [len] elements from
    [first]. Every turn shortens the range, so its length bounds the turns. *)
Fixpoint lower_bound_loop (fuel : nat) (less : A → bool) (l : list A) (first len : nat) : nat :=
  match fuel with
  | O => first
  | S fuel =>
    if len =? 0 then first
    else
      let half := len / 2 in
      let middle := first + half in
      match l !! middle with
      | Some x => if less x then lower_bound_loop fuel less l (S middle) (len - half - 1)
                  else lower_bound_loop fuel less l first half
      | None => first
      end
  end.
Definition lower_bound (less : A → bool) (l : list A) : nat :=
  lower_bound_loop (length l) less l 0 (length l).
(** BinarySearch: the position, or nothing for end; [more x] for [v < x]. *)
Definition BinarySearch (less more : A → bool) (l : list A) : option nat :=
  let tmp := lower_bound less l in
  match l !! tmp with
  | None => None
  | Some x => if negb (more x) then Some tmp else None
  end.

(** SortLast: the last element moves down while it is smaller. [j] is i + 1. *)
Fixpoint sort_last_loop (lt : A → A → bool) (j : nat) (l : list A) : list A :=
  match j with
  | O => l
  | S i =>
    match l !! S i, l !! i with
    | Some b, Some a => if lt b a then sort_last_loop lt i (<[i := b]> (<[S i := a]> l)) else l
    | _, _ => l
    end
  end.
Definition SortLast (lt : A → A → bool) (l : list A) : list A := sort_last_loop lt (length l - 1) l.

(** std::sort. The result is determined when no two elements are
    equivalent, as in the buckets. *)
Fixpoint sort_in (lt : A → A → bool) (x : A) (l : list A) : list A :=
  match l with
  | [] => [x]
  | y :: l' => if lt x y then x :: y :: l' else y :: sort_in lt x l'
  end.
Definition std_sort (lt : A → A → bool) (l : list A) : list A := foldr (sort_in lt) [] l.
End ranges.

(** ** Array *)
Section array.
Context {T : Type} (cmp : T → T → bool).
Implicit Types (v : T) (a : list T).

(** isSorted: adjacent elements only. *)
Fixpoint isSorted a : bool :=
  match a with
  | x :: (y :: _) as a' => if cmp y x then false else isSorted a'
  | _ => true
  end.
(** exists(v): the index, or -begin - 1 where [v] would go. [begin] and
    [end_] are int64_t: their sum fits for arrays of up to 2^62 elements. *)
Fixpoint exists_loop (fuel : nat) a v (begin end_ : Z) : option Z :=
  match fuel with
  | O => None
  | S fuel =>
    if end_ <? begin then Some (- begin - 1)
    else
      let m := Z.quot (begin + end_) 2 in
      match a !! Z.to_nat m with
      | None => None
      | Some x =>
        if cmp v x then exists_loop fuel a v begin (m - 1)
        else if cmp x v then exists_loop fuel a v (m + 1) end_
        else Some m
      end
  end.
Definition arr_exists (fuel : nat) a v : option Z := exists_loop fuel a v 0 (Z.of_nat (length a) - 1).
(** exists(v, cmp): the branch for smaller elements compares instead of
    assigning and leaves [end_]. *)
Fixpoint exists_cmp_loop (fuel : nat) a v (begin end_ : Z) : option Z :=
  match fuel with
  | O => None
  | S fuel =>
    if end_ <? begin then Some (- begin - 1)
    else
      let m := Z.quot (begin + end_) 2 in
      match a !! Z.to_nat m with
      | None => None
      | Some x =>
        if cmp v x then exists_cmp_loop fuel a v begin end_
        else if cmp x v then exists_cmp_loop fuel a v (m + 1) end_
        else Some m
      end
  end.
Definition arr_exists_cmp (fuel : nat) a v : option Z := exists_cmp_loop fuel a v 0 (Z.of_nat (length a) - 1).

(** insert(idx, v): the index is decoded, the tail moves up by one. A
    negative distance for memmove is out of bounds. *)
Definition arr_insert_at (idx : Z) v : M (list T) bool := λ a,
  let idx := - idx - 1 in
  if (0 <=? idx) && (idx <=? Z.of_nat (length a))
  then Ret true (take (Z.to_nat idx) a ++ v :: drop (Z.to_nat idx) a)
  else Stuck OutOfBounds.
(** insert(v) *)
Definition arr_insert (fuel : nat) v : M (list T) bool := λ a,
  match arr_exists fuel a v with
  | None => Stuck OutOfFuel
  | Some idx => if 0 <=? idx then Ret false (<[Z.to_nat idx := v]> a) else arr_insert_at idx v a
  end.
Definition arr_erase (idx : Z) : M (list T) bool := λ a,
  if (0 <=? idx) && (idx <? Z.of_nat (length a))
  then Ret true (take (Z.to_nat idx) a ++ drop (S (Z.to_nat idx)) a)
  else Stuck OutOfBounds.
Definition arr_append v : M (list T) unit := cmodify (λ a, a ++ [v]).
End array.

(** ** Laws *)
Section laws.
Context {A K : Type} (key : A → K) (klt : K → K → bool) `{!EqDecision K, !KeyOrder klt}.
Implicit Types (x y : A) (l : list A).
Local Open Scope nat_scope.

Definition elt_lt x y : bool := klt (key x) (key y).
(** Sorted, equal keys allowed, and strictly sorted. *)
Definition wsorted l : Prop := StronglySorted (λ x y, elt_lt y x = false) l.
Definition ssorted l : Prop := StronglySorted (λ x y, elt_lt x y = true) l.

Lemma klt_asym a b : klt a b = true → klt b a = false.
Proof.
  intros H. destruct (klt b a) eqn:E; [|done].
  pose proof (klt_trans _ _ _ H E) as Hx. by rewrite (klt_irrefl (klt := klt)) in Hx.
Qed.
Lemma klt_incomparable a b : klt a b = false → klt b a = false → a = b.
Proof. intros H1 H2. destruct (decide (a = b)) as [|Hn]; [done|]. destruct (klt_total a b Hn); congruence. Qed.
Lemma klt_le_trans a b c : klt b a = false → klt c b = false → klt c a = false.
Proof.
  intros H1 H2. destruct (klt c a) eqn:E; [|done].
  destruct (decide (b = c)) as [->|Hn]; [congruence|].
  destruct (klt_total b c Hn) as [Hb|Hb]; [|congruence].
  rewrite (klt_trans _ _ _ Hb E) in H1. done.
Qed.
Lemma klt_lt_le_trans a b c : klt a b = true → klt c b = false → klt a c = true.
Proof.
  intros H1 H2. destruct (decide (b = c)) as [->|Hn]; [done|].
  destruct (klt_total b c Hn) as [Hb|Hb]; [|congruence]. by apply (klt_trans _ b).
Qed.

Lemma ssorted_wsorted l : ssorted l → wsorted l.
Proof.
  induction 1 as [|x l _ IH Hx]; constructor; [done|].
  eapply Forall_impl; [|exact Hx]. intros y. apply klt_asym.
Qed.
Lemma ssorted_keys l : ssorted l → NoDup (key <$> l).
Proof.
  induction 1 as [|x l _ IH Hx]; csimpl; [constructor|].
  apply list.NoDup_cons. split; [|done]. intros (y & Hk & Hy)%list_elem_of_fmap.
  rewrite Forall_forall in Hx. apply list_elem_of_In, Hx in Hy. unfold elt_lt in Hy.
  by rewrite Hk, (klt_irrefl (klt := klt)) in Hy.
Qed.
Lemma wsorted_strict l : wsorted l → NoDup (key <$> l) → ssorted l.
Proof.
  induction 1 as [|x l _ IH Hx]; csimpl; [constructor|].
  intros [Hn Hd]%list.NoDup_cons. constructor; [by apply IH|].
  rewrite Forall_forall in *. intros y Hy. destruct (elt_lt x y) eqn:E; [done|].
  destruct Hn. rewrite (klt_incomparable _ _ E (Hx y Hy)).
  apply list_elem_of_fmap_2. by apply list_elem_of_In.
Qed.
Lemma wsorted_lookup l i j x y : wsorted l → l !! i = Some x → l !! j = Some y → i ≤ j → elt_lt y x = false.
Proof.
  intros Hs. revert i j. induction Hs as [|z l _ IH Hz]; intros i j; [done|].
  destruct i as [|i], j as [|j]; cbn; intros Hi Hj Hij; simplify_eq; try lia.
  - apply (klt_irrefl (klt := klt)).
  - rewrite Forall_forall in Hz. by apply Hz, list_elem_of_In, (list_elem_of_lookup_2 _ j).
  - by apply (IH i j); [| |lia].
Qed.

(** lower_bound gives the first element that is not smaller. *)
Lemma lower_bound_loop_spec (less : A → bool) l fuel first len :
  (∀ i j x y, l !! i = Some x → l !! j = Some y → i ≤ j → less y = true → less x = true) →
  len ≤ fuel → first + len ≤ length l →
  (∀ i x, i < first → l !! i = Some x → less x = true) →
  (∀ i x, first + len ≤ i → l !! i = Some x → less x = false) →
  let r := lower_bound_loop fuel less l first len in
  r ≤ length l ∧ (∀ i x, i < r → l !! i = Some x → less x = true) ∧
  (∀ i x, r ≤ i → l !! i = Some x → less x = false).
Proof.
  intros Hmono. revert first len. induction fuel as [|fuel IH]; intros first len Hf Hl Hlo Hhi; cbn [lower_bound_loop].
  { replace (first + len) with first in Hhi by lia. split_and!; [lia|done..]. }
  destruct (Nat.eqb_spec len 0) as [->|Hn].
  { rewrite Nat.add_0_r in Hhi. split_and!; [lia|done..]. }
  pose proof (Nat.div_lt len 2 ltac:(lia) ltac:(lia)).
  destruct (l !! (first + len / 2)) as [x|] eqn:Ex; [|apply lookup_ge_None in Ex; lia].
  destruct (less x) eqn:Hx; apply IH; try lia; try done.
  - intros i y Hi Hy. destruct (decide (i < first)); [by eapply Hlo|]. by eapply (Hmono i (first + len / 2)); [..|lia|].
  - intros i y Hi Hy. eapply Hhi; [|done]. lia.
  - intros i y Hi Hy. destruct (less y) eqn:E; [|done].
    rewrite (Hmono (first + len / 2) i x y Ex Hy ltac:(lia) E) in Hx. done.
Qed.

Lemma bsearch_mono l k : wsorted l →
  ∀ i j x y, l !! i = Some x → l !! j = Some y → i ≤ j → klt (key y) k = true → klt (key x) k = true.
Proof.
  intros Hs i j x y Hx Hy Hij Hk. pose proof (wsorted_lookup _ _ _ _ _ Hs Hx Hy Hij) as Hle. unfold elt_lt in Hle.
  destruct (klt (key x) k) eqn:E; [done|]. destruct (decide (key x = key y)) as [He|Hn]; [congruence|].
  destruct (klt_total _ _ Hn) as [Hxy|]; [|congruence]. by rewrite (klt_trans _ _ _ Hxy Hk) in E.
Qed.

(** Search for a key in a sorted range. *)
Definition search (k : K) l : option nat := BinarySearch (λ x, klt (key x) k) (λ x, klt k (key x)) l.

Lemma search_spec k l : wsorted l →
  match search k l with
  | Some i => ∃ x, l !! i = Some x ∧ key x = k
  | None => ∀ x, x ∈ l → key x ≠ k
  end.
Proof.
  intros Hs. unfold search, BinarySearch, lower_bound.
  destruct (lower_bound_loop_spec (λ x, klt (key x) k) l (length l) 0 (length l)) as (_ & Hlo & Hhi).
  { intros * Hx Hy Hij ?. eapply bsearch_mono; eassumption. }
  { lia. } { lia. } { intros; lia. }
  { intros i x Hi Hx. apply lookup_lt_Some in Hx. lia. }
  set (r := lower_bound_loop _ _ _ _ _) in *.
  assert (∀ i x, l !! i = Some x → key x = k → l !! r ≠ None ∧ r ≤ i) as Hin.
  { intros i x Hx Hk. assert (¬ i < r) as Hr.
    { intros Hi. specialize (Hlo i x Hi Hx). cbn in Hlo. rewrite Hk, (klt_irrefl (klt := klt)) in Hlo. done. }
    split; [|lia]. intros Hnone%lookup_ge_None. apply lookup_lt_Some in Hx. lia. }
  destruct (l !! r) as [x|] eqn:Ex.
  - pose proof (Hhi r x (le_n _) Ex) as Hx. cbn in Hx. destruct (klt k (key x)) eqn:Ek; cbn [negb].
    + intros y [i Hi]%list_elem_of_lookup Hk. destruct (Hin i y Hi Hk) as [_ Hri].
      pose proof (wsorted_lookup _ _ _ _ _ Hs Ex Hi Hri) as Hle. unfold elt_lt in Hle. congruence.
    + exists x. split; [done|]. by apply klt_incomparable.
  - intros y [i Hi]%list_elem_of_lookup Hk. destruct (Hin i y Hi Hk) as [Hn _]. done.
Qed.

Lemma search_Some k l i : wsorted l → search k l = Some i → ∃ x, l !! i = Some x ∧ key x = k.
Proof. intros Hs Hi. pose proof (search_spec k l Hs) as H. by rewrite Hi in H. Qed.
Lemma search_None k l : wsorted l → search k l = None ↔ ∀ x, x ∈ l → key x ≠ k.
Proof.
  intros Hs. pose proof (search_spec k l Hs) as H. split; [intros E; by rewrite E in H|].
  intros Hn. destruct (search k l) as [i|]; [|done].
  destruct H as (x & Hx & Hk). by destruct (Hn x); [eapply list_elem_of_lookup_2|].
Qed.

Lemma sort_last_loop_spec l1 x l2 :
  wsorted l1 → wsorted (x :: l2) → (∀ y z, y ∈ l1 → z ∈ l2 → elt_lt z y = false) →
  wsorted (sort_last_loop elt_lt (length l1) (l1 ++ x :: l2)) ∧
  sort_last_loop elt_lt (length l1) (l1 ++ x :: l2) ≡ₚ x :: l1 ++ l2.
Proof.
  revert l2. induction l1 as [|a l1 IH] using rev_ind; intros l2 H1 H2 H12; [done|].
  rewrite length_app. cbn [length]. rewrite Nat.add_1_r. cbn [sort_last_loop].
  rewrite <- (assoc_L (++)). cbn [app].
  assert ((l1 ++ a :: x :: l2) !! length l1 = Some a) as -> by (by apply list_lookup_middle).
  assert ((l1 ++ a :: x :: l2) !! S (length l1) = Some x) as ->
    by (rewrite lookup_app_r by lia; by replace (S (length l1) - length l1) with 1 by lia).
  assert (wsorted l1 ∧ (∀ y, y ∈ l1 → elt_lt a y = false)) as [Hs1 Ha].
  { clear -H1. induction l1 as [|b l1 IH]; [split; [constructor|intros ? ?%elem_of_nil; done]|].
    apply StronglySorted_inv in H1 as [H1 Hb]. destruct (IH H1) as [IH1 IH2].
    apply Forall_app in Hb as [Hb1 Hb2]. split; [by constructor|].
    intros y [->|Hy]%elem_of_cons; [by inversion_clear Hb2|by apply IH2]. }
  apply StronglySorted_inv in H2 as [H2 Hx].
  destruct (elt_lt x a) eqn:Exa.
  - assert (<[length l1:=x]> (<[S (length l1):=a]> (l1 ++ a :: x :: l2)) = l1 ++ x :: a :: l2) as ->.
    { replace (S (length l1)) with (length l1 + 1) by lia. rewrite insert_app_r. cbn.
      rewrite <- (Nat.add_0_r (length l1)), insert_app_r. done. }
    destruct (IH (a :: l2)) as [IH1 IH2]; [done| | |].
    + constructor.
      * constructor; [done|]. rewrite Forall_forall. intros z Hz. apply H12; [set_solver|by apply list_elem_of_In].
      * constructor; [by apply klt_asym|]. done.
    + intros y z Hy [->|Hz]%elem_of_cons; [by apply Ha|]. apply H12; [set_solver|done].
    + split; [done|]. rewrite IH2, <- !(assoc_L (++)). done.
  - split; [|rewrite <- !(assoc_L (++)); cbn; by rewrite Permutation_swap, Permutation_middle].
    rewrite Forall_forall in Hx.
    clear IH. induction l1 as [|b l1 IHl]; cbn [app].
    + constructor; [by constructor; [|rewrite Forall_forall]|]. constructor; [done|].
      rewrite Forall_forall. intros z Hz. apply H12; [set_solver|by apply list_elem_of_In].
    + apply StronglySorted_inv in Hs1 as [Hs1 Hb]. apply StronglySorted_inv in H1 as [H1 Hb'].
      constructor; [apply IHl; try done|].
      * intros y z Hy Hz. apply H12; [set_solver|done].
      * intros y Hy. apply Ha. by right.
      * apply Forall_app. split; [done|]. assert (elt_lt a b = false) as Hab by (apply Ha; by left).
        repeat (constructor; [try done; by apply (klt_le_trans _ (key a))|]).
        rewrite Forall_forall. intros z Hz. apply H12; [by left|by apply list_elem_of_In].
Qed.

Lemma SortLast_spec l x : wsorted l →
  wsorted (SortLast elt_lt (l ++ [x])) ∧ SortLast elt_lt (l ++ [x]) ≡ₚ x :: l.
Proof.
  intros Hs. unfold SortLast. rewrite length_app. replace (length l + length [x] - 1) with (length l) by (cbn; lia).
  destruct (sort_last_loop_spec l x []) as [H1 H2]; [done|by repeat constructor| |by rewrite app_nil_r in H2].
  by intros ? ? ? ?%elem_of_nil.
Qed.

Lemma sort_in_perm x l : sort_in elt_lt x l ≡ₚ x :: l.
Proof.
  induction l as [|y l IH]; cbn; [done|]. case_match; [done|]. rewrite IH. apply Permutation_swap.
Qed.
Lemma sort_in_sorted x l : wsorted l → wsorted (sort_in elt_lt x l).
Proof.
  induction 1 as [|y l Hl IH Hy]; cbn; [by repeat constructor|].
  destruct (elt_lt x y) eqn:E.
  - constructor; [by constructor|]. constructor; [by apply klt_asym|].
    eapply Forall_impl; [|exact Hy]. intros z Hz. apply (klt_le_trans _ (key y)); [by apply klt_asym|done].
  - constructor; [done|]. rewrite Forall_forall in *. intros z Hz%list_elem_of_In.
    rewrite sort_in_perm in Hz. apply elem_of_cons in Hz as [->|Hz]; [done|]. by apply Hy, list_elem_of_In.
Qed.
Lemma std_sort_spec l : wsorted (std_sort elt_lt l) ∧ std_sort elt_lt l ≡ₚ l.
Proof.
  unfold std_sort. induction l as [|x l [IH1 IH2]]; cbn; [by repeat constructor|].
  split; [by apply sort_in_sorted|]. by rewrite sort_in_perm, IH2.
Qed.
Lemma std_sort_strict l : NoDup (key <$> l) → ssorted (std_sort elt_lt l).
Proof.
  intros Hd. destruct (std_sort_spec l) as [Hs Hp]. apply wsorted_strict; [done|]. by rewrite Hp.
Qed.
End laws.

(** Sorted by the elements themselves, a list is determined by its elements. *)
Lemma wsorted_unique {K} (klt : K → K → bool) `{!EqDecision K, !KeyOrder klt} (l l' : list K) :
  wsorted id klt l → wsorted id klt l' → l ≡ₚ l' → l = l'.
Proof.
  intros Hs. revert l'. induction Hs as [|x l Hs IH Hx]; intros l' Hs' Hp.
  { symmetry in Hp. by apply Permutation_nil_r in Hp as ->. }
  destruct Hs' as [|y l' Hs' Hy]; [by symmetry in Hp; apply Permutation_nil_cons in Hp|].
  rewrite List.Forall_forall in Hx, Hy.
  assert (x = y) as ->.
  { assert (x ∈ y :: l') as Hx' by (rewrite <- Hp; left). assert (y ∈ x :: l) as Hy' by (rewrite Hp; left).
    apply elem_of_cons in Hx' as [|Hx']; [done|]. apply elem_of_cons in Hy' as [|Hy']; [done|].
    apply list_elem_of_In in Hx', Hy'. by apply (klt_incomparable klt); [apply (Hy x)|apply (Hx y)]. }
  f_equal. apply IH; [done|]. by apply Permutation_cons_inv in Hp.
Qed.

(** ** The sorted array *)
Section array_laws.
Context {T K : Type} (key : T → K) (klt : K → K → bool) `{!EqDecision K, !KeyOrder klt}.
Implicit Types (v : T) (a : list T).
#[local] Abbreviation lt := (elt_lt key klt).
#[local] Abbreviation ok := (ssorted key klt).

(** What exists(v) promises of its result. *)
Definition found a v (r : Z) : Prop :=
  (0 ≤ r ∧ ∃ l1 x l2, a = l1 ++ x :: l2 ∧ r = Z.of_nat (length l1) ∧ key x = key v) ∨
  (r < 0 ∧ ∃ l1 l2, a = l1 ++ l2 ∧ r = - Z.of_nat (length l1) - 1 ∧
     Forall (λ x, lt x v = true) l1 ∧ Forall (λ x, lt v x = true) l2).

Lemma exists_loop_spec a v fuel begin end_ :
  ok a → 0 ≤ begin → begin ≤ end_ + 1 → end_ < Z.of_nat (length a) → end_ + 1 - begin < Z.of_nat fuel →
  (∀ i x, Z.of_nat i < begin → a !! i = Some x → lt x v = true) →
  (∀ i x, end_ < Z.of_nat i → a !! i = Some x → lt v x = true) →
  ∃ r, exists_loop lt fuel a v begin end_ = Some r ∧ found a v r.
Proof.
  intros Hs. pose proof (ssorted_wsorted _ _ _ Hs) as Hw.
  revert begin end_. induction fuel as [|fuel IH]; intros begin end_ Hb Hbe He Hf Hlo Hhi; [lia|].
  cbn [exists_loop]. destruct (Z.ltb_spec end_ begin) as [Hlt|Hge].
  - eexists. split; [done|]. right. split; [lia|].
    exists (take (Z.to_nat begin) a), (drop (Z.to_nat begin) a). split_and!.
    + by rewrite take_drop.
    + rewrite length_take. lia.
    + apply Forall_lookup. intros i x [Hx Hi]%lookup_take_Some. apply (Hlo i x); [lia|done].
    + apply Forall_lookup. intros i x Hx. rewrite lookup_drop in Hx. eapply Hhi; [|exact Hx]. lia.
  - pose proof (Z.quot_pos (begin + end_) 2 ltac:(lia) ltac:(lia)) as Hq.
    rewrite Z.quot_div_nonneg in * by lia.
    pose proof (Z.div_le_lower_bound (begin + end_) 2 begin ltac:(lia) ltac:(lia)).
    pose proof (Z.div_le_upper_bound (begin + end_) 2 end_ ltac:(lia) ltac:(lia)).
    set (m := (begin + end_) / 2) in *.
    destruct (a !! Z.to_nat m) as [x|] eqn:Ex; [|apply lookup_ge_None in Ex; lia].
    destruct (lt v x) eqn:E1; [|destruct (lt x v) eqn:E2].
    + apply IH; try lia; try done. intros i y Hi Hy.
      pose proof (wsorted_lookup _ _ _ _ _ _ _ Hw Ex Hy ltac:(lia)). by apply (klt_lt_le_trans klt _ (key x)).
    + apply IH; try lia; try done. intros i y Hi Hy.
      pose proof (wsorted_lookup _ _ _ _ _ _ _ Hw Hy Ex ltac:(lia)) as Hle.
      destruct (lt y v) eqn:E3; [done|]. unfold elt_lt in *. rewrite (klt_le_trans klt _ (key y) _ E3 Hle) in E2. done.
    + eexists. split; [done|]. left. split; [lia|]. exists (take (Z.to_nat m) a), x, (drop (S (Z.to_nat m)) a).
      split_and!; [by rewrite take_drop_middle|rewrite length_take; lia|by apply (klt_incomparable klt)].
Qed.
Lemma arr_exists_spec a v fuel : ok a → (length a < fuel)%nat →
  ∃ r, arr_exists lt fuel a v = Some r ∧ found a v r.
Proof.
  intros Hs Hf. apply exists_loop_spec; [done|lia..| |].
  - intros; lia.
  - intros i x Hi Hx%lookup_lt_Some. lia.
Qed.

Lemma ssorted_insert l1 l2 v :
  ok (l1 ++ l2) → Forall (λ x, lt x v = true) l1 → Forall (λ x, lt v x = true) l2 → ok (l1 ++ v :: l2).
Proof.
  induction l1 as [|x l1 IH]; cbn [app]; intros Hs H1 H2; [by constructor|].
  apply StronglySorted_inv in Hs as [Hs Hx]. apply Forall_cons_1 in H1 as [Hxv H1].
  constructor; [by apply IH|]. apply Forall_app in Hx as [Hx1 Hx2]. apply Forall_app. split; [done|]. by constructor.
Qed.
Lemma ssorted_replace l1 x l2 v : ok (l1 ++ x :: l2) → key x = key v → ok (l1 ++ v :: l2).
Proof.
  intros Hs Hk. induction l1 as [|y l1 IH]; cbn [app] in *; apply StronglySorted_inv in Hs as [Hs Hy].
  - constructor; [done|]. unfold elt_lt in *. by rewrite <- Hk.
  - constructor; [by apply IH|]. apply Forall_app in Hy as [H1 [H2 H3]%Forall_cons_1]. apply Forall_app. split; [done|].
    constructor; [|done]. unfold elt_lt in *. by rewrite <- Hk.
Qed.
Lemma ssorted_delete l1 x l2 : ok (l1 ++ x :: l2) → ok (l1 ++ l2).
Proof.
  induction l1 as [|y l1 IH]; cbn [app]; intros [Hs Hy]%StronglySorted_inv; [done|].
  constructor; [by apply IH|]. apply Forall_app in Hy as [H1 H2]. apply Forall_cons_1 in H2 as [_ H2].
  by apply Forall_app.
Qed.
Lemma ssorted_others l1 x l2 y : ok (l1 ++ x :: l2) → y ∈ l1 ++ l2 → key y ≠ key x.
Proof.
  intros Hd%(ssorted_keys _ _) Hy Hk. rewrite fmap_app, fmap_cons, <- Permutation_middle, <- fmap_app in Hd.
  apply list.NoDup_cons in Hd as [Hd _]. apply Hd. rewrite <- Hk. by apply list_elem_of_fmap_2.
Qed.
Lemma elem_of_swap_middle l1 x l2 v : ok (l1 ++ x :: l2) → key x = key v →
  ∀ y, y ∈ l1 ++ v :: l2 ↔ y = v ∨ y ∈ l1 ++ x :: l2 ∧ key y ≠ key v.
Proof.
  intros Hs Hk y. pose proof (ssorted_others l1 x l2 y Hs) as Ho. rewrite <- !Permutation_middle, !elem_of_cons.
  rewrite <- Hk in *. naive_solver.
Qed.
Lemma exists_cmp_stuck a v x n :
  a !! Z.to_nat (Z.quot (Z.of_nat (length a) - 1) 2) = Some x → lt v x = true → arr_exists_cmp lt n a v = None.
Proof.
  intros Hx Hlt. unfold arr_exists_cmp. pose proof (lookup_lt_Some _ _ _ Hx).
  induction n as [|n IH]; cbn [exists_cmp_loop]; [done|].
  destruct (Z.ltb_spec (Z.of_nat (length a) - 1) 0); [lia|]. rewrite Z.add_0_l, Hx, Hlt. done.
Qed.
End array_laws.

(** The sorted array is a map from keys: exists finds a key exactly when it
    is there, insert replaces or adds, keeping the array strictly sorted,
    and erase of the place it went undoes an insertion. The comparator
    version of exists never returns once the middle element is larger than
    the value. *)
Theorem array_sorted_map {T K} (key : T → K) (klt : K → K → bool) `{!EqDecision K, !KeyOrder klt}
    (a : list T) (v : T) (fuel : nat) (Ha : ssorted key klt a) (Hfuel : (length a < fuel)%nat) :
  (∃ r, arr_exists (elt_lt key klt) fuel a v = Some r ∧ (0 ≤ r ↔ key v ∈ key <$> a) ∧
    ∃ a', arr_insert (elt_lt key klt) fuel v a = Ret (negb (0 <=? r)) a' ∧ ssorted key klt a' ∧
      (∀ x, x ∈ a' ↔ x = v ∨ x ∈ a ∧ key x ≠ key v) ∧
      (r < 0 → arr_erase (- r - 1) a' = Ret true a)) ∧
  (∀ x n, a !! Z.to_nat (Z.quot (Z.of_nat (length a) - 1) 2) = Some x → elt_lt key klt v x = true →
     arr_exists_cmp (elt_lt key klt) n a v = None).
Proof.
  split.
  - destruct (arr_exists_spec key klt a v fuel Ha Hfuel) as (r & Hr & Hres).
    exists r. split; [done|]. unfold arr_insert. rewrite Hr.
    destruct Hres as [(H0 & l1 & x & l2 & -> & Hrl & Hk)|(H0 & l1 & l2 & -> & Hrl & H1 & H2)].
    + split; [split; [intros _|lia]; rewrite <- Hk; apply list_elem_of_fmap_2; set_solver|].
      rewrite (proj2 (Z.leb_le 0 r) H0), Hrl, Nat2Z.id. cbn [negb].
      rewrite <- (Nat.add_0_r (length l1)), insert_app_r. eexists. split; [done|]. cbn.
      split_and!; [by apply (ssorted_replace key klt l1 x)|by apply (elem_of_swap_middle key klt)|lia].
    + rewrite (proj2 (Z.leb_gt 0 r) H0). cbn [negb]. rewrite Forall_forall in H1, H2.
      assert (∀ y, y ∈ l1 ++ l2 → key y ≠ key v) as Hne.
      { intros y [Hy|Hy]%elem_of_app Hk; apply list_elem_of_In in Hy;
          [apply H1 in Hy|apply H2 in Hy]; unfold elt_lt in Hy;
          by rewrite Hk, (klt_irrefl (klt := klt)) in Hy. }
      split.
      { split; [lia|]. intros (y & Hk & Hy)%list_elem_of_fmap. by destruct (Hne y Hy). }
      unfold arr_insert_at. replace (- r - 1) with (Z.of_nat (length l1)) by lia.
      rewrite length_app, Nat2Z.inj_add, (proj2 (Z.leb_le _ _)), (proj2 (Z.leb_le _ _)) by lia. cbn [andb].
      rewrite Nat2Z.id, take_app_length, drop_app_length. eexists. split; [done|]. split_and!.
      * apply ssorted_insert; [done|by rewrite Forall_forall..].
      * intros y. rewrite <- Permutation_middle, elem_of_cons. naive_solver.
      * intros _. unfold arr_erase. rewrite length_app. cbn [length].
        rewrite (proj2 (Z.leb_le _ _)), (proj2 (Z.ltb_lt _ _)) by lia. cbn [andb].
        rewrite Nat2Z.id, take_app_length, <- Nat.add_1_r, <- drop_drop, drop_app_length. done.
  - intros x n. apply exists_cmp_stuck.
Qed.

#[export] Instance Z_key_order : KeyOrder Z.ltb.
Proof. split; intros *; rewrite ?Z.ltb_lt, ?Z.ltb_irrefl; try done; lia. Qed.

Lemma array_sorted_map_witness :
  (∃ r, arr_exists (elt_lt fst Z.ltb) 4 [(1, 10); (5, 50); (9, 90)] (5, 55) = Some r ∧
    (0 ≤ r ↔ 5 ∈ [1; 5; 9]) ∧
    ∃ a', arr_insert (elt_lt fst Z.ltb) 4 (5, 55) [(1, 10); (5, 50); (9, 90)] = Ret (negb (0 <=? r)) a' ∧
      ssorted fst Z.ltb a' ∧
      (∀ x, x ∈ a' ↔ x = (5, 55) ∨ x ∈ [(1, 10); (5, 50); (9, 90)] ∧ x.1 ≠ 5) ∧
      (r < 0 → arr_erase (- r - 1) a' = Ret true [(1, 10); (5, 50); (9, 90)])) ∧
  (∀ x n, [(1, 10); (5, 50); (9, 90)] !! Z.to_nat (Z.quot (3 - 1) 2) = Some x →
     elt_lt fst Z.ltb (5, 55) x = true → arr_exists_cmp (elt_lt fst Z.ltb) n [(1, 10); (5, 50); (9, 90)] (5, 55) = None).
Proof.
  apply (array_sorted_map (T := Z * Z) fst Z.ltb [(1, 10); (5, 50); (9, 90)] (5, 55) 4).
  - repeat constructor.
  - cbn. lia.
Defined.

Lemma basket_bounds (n : Z) : 1 ≤ n < 2 ^ 31 → ∃ b, basket n = Some b ∧ 2 ≤ b ≤ 2 ^ 30 ∧ (n < 2 ^ 30 → n < b).
Proof.
  intros Hn. unfold basket. rewrite (swrap_small 32 n) by lia.
  destruct (Z.eqb_spec n 0), (Z.eqb_spec n (- 2 ^ 31)); [lia..|]. cbn [orb]. eexists. split; [done|].
  rewrite Z.shiftl_mul_pow2, Z.mul_1_l, Z.abs_eq by (pose proof (Z.log2_nonneg (Z.abs n)); lia).
  pose proof (Z.log2_nonneg n). pose proof (Z.log2_spec n ltac:(lia)) as [_ Hlog]. unfold Z.succ in Hlog. split.
  - split; [apply (Z.pow_le_mono_r 2 1); lia|apply Z.pow_le_mono_r; lia].
  - intros Hs. apply Z.log2_lt_pow2 in Hs; [|lia]. rewrite Z.min_l by lia. done.
Qed.
(** A bucket count is a power of two. *)
Lemma basket_divides (n b : Z) : basket n = Some b → (b | 2 ^ 32).
Proof.
  unfold basket. destruct (_ || _); [done|]. intros [= <-].
  pose proof (Z.log2_nonneg (Z.abs (i32 n))) as Hl.
  rewrite Z.shiftl_mul_pow2, Z.mul_1_l by lia. set (e := Z.min _ _).
  exists (2 ^ (32 - e)). rewrite <- Z.pow_add_r by lia. f_equal. lia.
Qed.
