(* ===== verification/Table.v ===== *)
(** * The bucket table of the hash containers

    HashMap, Dict and HashMultimap (Sylar/DataStructure) share one layout: an
    array of vectors kept sorted by key, a key's vector chosen by its hash,
    and the steps search, append-and-sort, swap-with-the-last-and-sort,
    rehash. The table is parametric in what a node carries besides its key
    and in the members [X] a container adds. *)
From Stdlib Require Import ZArith Lia Sorting.Sorted.
From stdpp Require Import base list sorting list_numbers numbers gmap.
From S2P Require Import Prelude OrderedSet SortedVec.

Local Open Scope Z_scope.

Record table (K P X : Type) := mkTable {
  m_size : Z;
  m_total : Z;
  m_datas : option (list (list (K * P)));   (* null after clear() and a failed readFrom *)
  m_rest : X
}.
Arguments mkTable {K P X}.
Arguments m_size {K P X}.
Arguments m_total {K P X}.
Arguments m_datas {K P X}.
Arguments m_rest {K P X}.

Lemma elem_of_concat {A} (x : A) (ls : list (list A)) : x ∈ concat ls ↔ ∃ l, x ∈ l ∧ l ∈ ls.
Proof.
  rewrite list_elem_of_In, in_concat. split; intros (l & H1 & H2); exists l; rewrite !list_elem_of_In in *; done.
Qed.

Section table.
Context {K P X : Type} (klt : K → K → bool) (hash : K → Z).
#[local] Abbreviation node := (K * P)%type.
#[local] Abbreviation T := (table K P X).
#[local] Abbreviation nlt := (elt_lt fst klt).
Implicit Types (t : T) (k : K) (b : list node).

Definition set_datas ds t : T := mkTable (m_size t) (m_total t) ds (m_rest t).
Definition set_total n t : T := mkTable (m_size t) n (m_datas t) (m_rest t).
Definition set_rest x t : T := mkTable (m_size t) (m_total t) (m_datas t) x.

(** The constructor *)
Definition table_new (size : Z) (x : X) : option T :=
  match basket size with
  | Some n => Some (mkTable n 0 (Some (replicate (Z.to_nat n) [])) x)
  | None => None
  end.

(** m_datas[hashvalue % m_size], the hash cut to a uint32_t, and the binary
    search in it *)
Definition locate k : M T (nat * list node * option nat) := λ t,
  if m_size t =? 0 then Stuck DivByZero
  else
    let pos := Z.to_nat (u32 (hash k) mod m_size t) in
    match m_datas t with
    | None => Stuck NullDeref
    | Some ds =>
      match ds !! pos with
      | Some b => Ret (pos, b, search fst klt k b) t
      | None => Stuck OutOfBounds
      end
    end.
Definition put_bucket (pos : nat) b : M T unit :=
  cmodify (λ t, set_datas ((λ ds, <[pos := b]> ds) <$> m_datas t) t).

(** push_back, SortLast, addFetch(m_total) *)
Definition push_node (pos : nat) b (n : node) : M T unit :=
  let! _ := put_bucket pos (SortLast nlt (b ++ [n])) in
  cmodify (λ t, set_total (u64 (m_total t + 1)) t).
(** swap with back() when there are two, resize, std::sort, subFetch(m_total) *)
Definition swap_back b (i : nat) : list node :=
  match b !! i, last b with
  | Some x, Some y => <[i := y]> (<[length b - 1 := x]> b)%nat
  | _, _ => b
  end.
Definition remove_node (pos : nat) b (i : nat) : M T unit :=
  let b := if (1 <? Z.of_nat (length b)) then swap_back b i else b in
  let! _ := put_bucket pos (std_sort nlt (take (length b - 1) b)) in
  cmodify (λ t, set_total (u64 (m_total t - 1)) t).

(** getRate() > 16. The quotient in double is rounded to float, where the
    step above 16 is 2^-19 and the tie goes to 16: exact for totals below
    2^53 and sizes that are powers of two or below 2^29. With no buckets the
    quotient is NaN or infinite. *)
Definition needRehash t : bool := m_size t * (2 ^ 24 + 1) <? m_total t * 2 ^ 20.

(** Every node to the vector of its hash, which is not cut here, then each vector sorted; the
    modulus must not be 0. *)
Definition deliver (size : Z) (ds : list (list node)) (n : node) : list (list node) :=
  alter (λ b, b ++ [n]) (Z.to_nat (hash n.1 mod size)) ds.
Definition distribute (size : Z) (ns : list node) : option (list (list node)) :=
  if (size =? 0) && negb (bool_decide (ns = [])) then None
  else Some (std_sort nlt <$> fold_left (deliver size) ns (replicate (Z.to_nat size) [])).

Definition rehashUnlock : M T unit := λ t,
  match basket (m_total t) with
  | None => Stuck BadShift
  | Some size =>
    if size =? m_size t then Ret tt t
    else
      match m_datas t with
      | None => if m_size t =? 0
                then Ret tt (mkTable size (m_total t) (Some (replicate (Z.to_nat size) [])) (m_rest t))
                else Stuck NullDeref
      | Some ds =>
        match distribute size (concat ds) with
        | Some ds' => Ret tt (mkTable size (m_total t) (Some ds') (m_rest t))
        | None => Stuck DivByZero
        end
      end
  end.
Definition rehash : M T unit := λ t, if needRehash t then rehashUnlock t else Ret tt t.

(** for(i < m_size) for(auto n : m_datas[i]) with a callback that carries a
    value and says whether to go on. With [whole], false leaves both loops
    (return), otherwise only the inner one (break). *)
Fixpoint visit_bucket {B} (cb : K → P → B → bool * B) b (z : B) : bool * B :=
  match b with
  | [] => (true, z)
  | n :: b => let '(go, z) := cb n.1 n.2 z in if go then visit_bucket cb b z else (false, z)
  end.
Fixpoint visit {B} (whole : bool) (cb : K → P → B → bool * B) (ds : list (list node)) (z : B) : B :=
  match ds with
  | [] => z
  | b :: ds => let '(go, z) := visit_bucket cb b z in
               if go || negb whole then visit whole cb ds z else z
  end.
Definition foreach {B} (whole : bool) (cb : K → P → B → bool * B) (z : B) : M T B := λ t,
  match m_datas t with
  | Some ds => Ret (visit whole cb (take (Z.to_nat (m_size t)) ds) z) t
  | None => if m_size t =? 0 then Ret z t else Stuck NullDeref
  end.

(** ** The table as a finite map *)
Context `{!EqDecision K, !Countable K, !KeyOrder klt}.

Definition buckets_ok (size : Z) (ds : list (list node)) : Prop :=
  0 < size ∧ Z.of_nat (length ds) = size ∧ (size | 2 ^ 32) ∧
  ∀ i b, ds !! i = Some b → ssorted fst klt b ∧ ∀ n, n ∈ b → Z.to_nat (hash n.1 mod size) = i.
Definition Rep t (m : gmap K P) : Prop :=
  ∃ ds, m_datas t = Some ds ∧ buckets_ok (m_size t) ds ∧ concat ds ≡ₚ map_to_list m ∧
    m_total t = Z.of_nat (size m).

Lemma concat_bucket (ds : list (list node)) pos b : ds !! pos = Some b →
  concat ds ≡ₚ b ++ (concat (take pos ds) ++ concat (drop (S pos) ds)) ∧
  ∀ b', concat (<[pos := b']> ds) ≡ₚ b' ++ (concat (take pos ds) ++ concat (drop (S pos) ds)).
Proof.
  intros Hb. split.
  - rewrite <- (take_drop_middle ds pos b Hb) at 1. rewrite concat_app. cbn. by rewrite Permutation_app_swap_app.
  - intros b'. rewrite insert_take_drop by (by eapply lookup_lt_Some). rewrite concat_app. cbn.
    by rewrite Permutation_app_swap_app.
Qed.

Lemma Rep_in t m ds k p : m_datas t = Some ds → Rep t m → (k, p) ∈ concat ds ↔ m !! k = Some p.
Proof.
  intros Hd (ds' & Hd' & _ & Hp & _). simplify_eq. rewrite Hp. apply elem_of_map_to_list.
Qed.

Lemma hash_cut size k : (size | 2 ^ 32) → u32 (hash k) mod size = hash k mod size.
Proof. intros Hd. unfold uwrap. by rewrite Z.mod_mod_divide. Qed.
Lemma locate_spec t m k : Rep t m →
  ∃ ds pos b r, locate k t = Ret (pos, b, r) t ∧ m_datas t = Some ds ∧ ds !! pos = Some b ∧
    pos = Z.to_nat (hash k mod m_size t) ∧
    match m !! k with
    | None => r = None ∧ ∀ p, (k, p) ∉ b
    | Some p => ∃ i, r = Some i ∧ b !! i = Some (k, p)
    end.
Proof.
  intros Hrep. destruct (id Hrep) as (ds & Hd & (H0 & Hlen & Hdv & Hok) & Hp & Ht).
  set (pos := Z.to_nat (hash k mod m_size t)).
  assert (pos < length ds)%nat as Hpos by (pose proof (Z.mod_pos_bound (hash k) (m_size t) H0); subst pos; lia).
  destruct (lookup_lt_is_Some_2 ds pos Hpos) as [b Hb]. destruct (Hok pos b Hb) as [Hs _].
  exists ds, pos, b, (search fst klt k b). unfold locate.
  destruct (Z.eqb_spec (m_size t) 0); [lia|]. rewrite hash_cut by done. fold pos. rewrite Hd, Hb. split_and!; [done..|].
  pose proof (search_spec fst klt k b (ssorted_wsorted _ _ _ Hs)) as Hsearch.
  assert (∀ p, (k, p) ∈ b → m !! k = Some p) as Hin.
  { intros p Hkp. apply (Rep_in t m ds); [done..|]. rewrite (proj1 (concat_bucket ds pos b Hb)). set_solver. }
  destruct (search fst klt k b) as [i|].
  - destruct Hsearch as ([k' p] & Hi & Hk). cbn in Hk. subst k'.
    rewrite (Hin p (list_elem_of_lookup_2 _ _ _ Hi)). by exists i.
  - destruct (m !! k) as [p|] eqn:Em; [|split; [done|]; intros p Hkp; by apply (Hsearch _ Hkp)].
    apply (Rep_in t m ds) in Em; [|done..]. apply list_elem_of_lookup_1 in Em as [j Hj].
    exfalso. assert ((k, p) ∈ concat ds) as Hc by (by eapply list_elem_of_lookup_2).
    apply elem_of_concat in Hc as (b' & Hkb & [i' Hi']%list_elem_of_lookup).
    destruct (Hok i' b' Hi') as [_ Hh]. specialize (Hh _ Hkb). cbn in Hh. fold pos in Hh. subst i'.
    simplify_eq. by apply (Hsearch _ Hkb).
Qed.

Lemma Rep_replace t m ds pos b b' m' x : Rep t m → m_datas t = Some ds → ds !! pos = Some b →
  ssorted fst klt b' → (∀ n, n ∈ b' → Z.to_nat (hash n.1 mod m_size t) = pos) →
  (∀ c, b ++ c ≡ₚ map_to_list m → b' ++ c ≡ₚ map_to_list m') →
  Rep (mkTable (m_size t) (Z.of_nat (size m')) (Some (<[pos := b']> ds)) x) m'.
Proof.
  intros (ds' & Hd' & (H0 & Hlen & Hdv & Hok) & Hp & Ht) Hd Hb Hs Hh Hm. rewrite Hd in Hd'. injection Hd' as <-.
  destruct (concat_bucket ds pos b Hb) as [Hc Hc'].
  exists (<[pos := b']> ds). split_and!; cbn; [done|split_and!| |done].
  - done.
  - by rewrite length_insert.
  - done.
  - intros i c Hi. destruct (decide (i = pos)) as [->|Hn].
    + rewrite list_lookup_insert_eq in Hi by (by eapply lookup_lt_Some). by simplify_eq.
    + rewrite list_lookup_insert_ne in Hi by done. by apply Hok.
  - rewrite Hc'. apply Hm. by rewrite <- Hc.
Qed.

Lemma Rep_push t m ds b k p : Rep t m → m_datas t = Some ds → m !! k = None → Z.of_nat (size m) < 2 ^ 64 - 1 →
  let pos := Z.to_nat (hash k mod m_size t) in ds !! pos = Some b →
  ∃ t', push_node pos b (k, p) t = Ret tt t' ∧ Rep t' (<[k := p]> m) ∧ m_rest t' = m_rest t.
Proof.
  intros Hrep Hd Hk Hsz pos Hb. destruct (id Hrep) as (ds' & Hd' & (H0 & Hlen & Hdv & Hok) & Hp & Ht).
  rewrite Hd in Hd'. injection Hd' as <-. destruct (Hok pos b Hb) as [Hs Hh].
  destruct (SortLast_spec fst klt b (k, p) (ssorted_wsorted _ _ _ Hs)) as [Hs' Hp'].
  eexists. split; [done|]. split; [|done]. cbn. rewrite Hd. cbn.
  assert (Z.of_nat (size (<[k := p]> m)) = m_total t + 1) as Hn by (rewrite map_size_insert_None by done; lia).
  rewrite (uwrap_id 64) by (unfold in_u; lia). rewrite <- Hn.
  apply (Rep_replace t m ds pos b); try done.
  - apply wsorted_strict; [done..|]. rewrite Hp'. csimpl. apply list.NoDup_cons. split; [|by apply (ssorted_keys _ klt)].
    intros ([k' p'] & Hk' & Hin)%list_elem_of_fmap. cbn in Hk'. subst k'.
    assert (m !! k = Some p') as Hx; [|congruence].
    apply (Rep_in t m ds); [done..|]. rewrite (proj1 (concat_bucket ds pos b Hb)). set_solver.
  - intros n. rewrite Hp'. intros [->|Hin]%elem_of_cons; [done|by apply Hh].
  - intros c Hc. rewrite Hp'. cbn. rewrite Hc. by rewrite map_to_list_insert.
Qed.

(** A node's payload replaced. *)
Lemma Rep_update t m ds b i k p p' x : Rep t m → m_datas t = Some ds →
  let pos := Z.to_nat (hash k mod m_size t) in ds !! pos = Some b → b !! i = Some (k, p) →
  Rep (mkTable (m_size t) (m_total t) (Some (<[pos := <[i := (k, p')]> b]> ds)) x) (<[k := p']> m).
Proof.
  intros Hrep Hd pos Hb Hi. destruct (id Hrep) as (ds' & Hd' & (H0 & Hlen & Hdv & Hok) & Hp & Ht).
  rewrite Hd in Hd'. injection Hd' as <-. destruct (Hok pos b Hb) as [Hs Hh].
  assert (m !! k = Some p) as Hm.
  { apply (Rep_in t m ds); [done..|]. rewrite (proj1 (concat_bucket ds pos b Hb)).
    apply list_elem_of_lookup_2 in Hi. set_solver. }
  assert (m_total t = Z.of_nat (size (<[k := p']> m))) as ->.
  { rewrite Ht. f_equal. symmetry. apply map_size_insert_Some. by rewrite Hm. }
  pose proof (take_drop_middle b i _ Hi) as Hsplit.
  assert (<[i := (k, p')]> b = take i b ++ (k, p') :: drop (S i) b) as ->
    by (apply insert_take_drop; by eapply lookup_lt_Some).
  apply (Rep_replace t m ds pos b); try done.
  - apply (ssorted_replace fst klt _ (k, p)); [by rewrite Hsplit|done].
  - intros n Hn. rewrite <- Permutation_middle in Hn. apply elem_of_cons in Hn as [->|Hn]; [done|].
    apply Hh. rewrite <- Hsplit, <- Permutation_middle. by right.
  - intros c Hc. rewrite <- (insert_delete_eq m k p') , map_to_list_insert by apply lookup_delete_eq.
    rewrite <- Permutation_middle. cbn. f_equiv. apply (Permutation_cons_inv (a := (k, p))).
    rewrite (map_to_list_delete m k p) by done. rewrite <- Hc.
    rewrite app_comm_cons. apply Permutation_app_tail. rewrite <- Hsplit at 3. apply Permutation_middle.
Qed.

Lemma swap_back_perm b i x : b !! i = Some x → (1 < length b)%nat →
  x :: take (length b - 1) (swap_back b i) ≡ₚ b ∧ length (swap_back b i) = length b.
Proof.
  intros Hi Hlen. unfold swap_back. rewrite Hi.
  destruct b as [|y b _] using rev_ind; [done|]. rewrite last_snoc, length_app. cbn [length] in *.
  replace (length b + 1 - 1)%nat with (length b) by lia. rewrite !length_insert, length_app. split; [|done].
  replace (length b) with (length b + 0)%nat at 2 by lia. rewrite insert_app_r. cbn.
  destruct (decide (i = length b)) as [->|Hn].
  - rewrite list_lookup_middle in Hi by done. simplify_eq.
    replace (length b) with (length b + 0)%nat at 2 by lia. rewrite insert_app_r, take_app_length. cbn.
    by rewrite Permutation_cons_append.
  - assert (i < length b)%nat as Hib by (apply lookup_lt_Some in Hi; rewrite length_app in Hi; cbn in Hi; lia).
    rewrite insert_app_l by done. rewrite take_app_length' by (by rewrite length_insert).
    rewrite lookup_app_l in Hi by done. rewrite insert_take_drop by done.
    rewrite <- Permutation_middle, <- Permutation_cons_append, Permutation_swap. f_equiv.
    rewrite <- (take_drop_middle b i x Hi) at 3. apply Permutation_middle.
Qed.
Lemma Rep_remove t m ds b i k p : Rep t m → m_datas t = Some ds → Z.of_nat (size m) < 2 ^ 64 →
  let pos := Z.to_nat (hash k mod m_size t) in ds !! pos = Some b → b !! i = Some (k, p) →
  ∃ t', remove_node pos b i t = Ret tt t' ∧ Rep t' (delete k m) ∧ m_rest t' = m_rest t.
Proof.
  intros Hrep Hd Hsz pos Hb Hi. destruct (id Hrep) as (ds' & Hd' & (H0 & Hlen & Hdv & Hok) & Hp & Ht).
  rewrite Hd in Hd'. injection Hd' as <-. destruct (Hok pos b Hb) as [Hs Hh].
  assert (m !! k = Some p) as Hm.
  { apply (Rep_in t m ds); [done..|]. rewrite (proj1 (concat_bucket ds pos b Hb)).
    apply list_elem_of_lookup_2 in Hi. set_solver. }
  unfold remove_node.
  set (b1 := if 1 <? Z.of_nat (length b) then swap_back b i else b).
  assert ((k, p) :: take (length b1 - 1) b1 ≡ₚ b) as Hb1.
  { subst b1. destruct (Z.ltb_spec 1 (Z.of_nat (length b))) as [Hl|Hl].
    - destruct (swap_back_perm b i _ Hi) as [Hperm Hl']; [lia|]. by rewrite Hl'.
    - destruct b as [|n [|]]; cbn in Hl; [done| |lia]. destruct i; cbn in Hi; [|done]. by simplify_eq. }
  set (b2 := take (length b1 - 1) b1) in *.
  destruct (std_sort_spec fst klt b2) as [Hs2 Hp2].
  eexists. split; [done|]. split; [|done]. cbn. rewrite Hd. cbn.
  assert (Z.of_nat (size (delete k m)) = m_total t - 1) as Hn.
  { rewrite map_size_delete_Some by (by rewrite Hm).
    assert (size m ≠ 0%nat) by (rewrite map_size_non_empty_iff; intros ->; by rewrite lookup_empty in Hm). lia. }
  rewrite (uwrap_id 64) by (unfold in_u; pose proof (Nat2Z.is_nonneg (size (delete k m))); lia). rewrite <- Hn.
  apply (Rep_replace t m ds pos b); try done.
  - apply std_sort_strict; [done..|]. pose proof (ssorted_keys fst klt b Hs) as Hnd. rewrite <- Hb1 in Hnd. csimpl in Hnd.
    by apply list.NoDup_cons in Hnd as [_ ?].
  - intros n Hin. apply Hh. rewrite <- Hb1. right. by rewrite Hp2 in Hin.
  - intros c Hc. rewrite Hp2. apply (Permutation_cons_inv (a := (k, p))).
    rewrite (map_to_list_delete m k p) by done. by rewrite app_comm_cons, Hb1.
Qed.

Lemma length_deliver size ns ds : length (fold_left (deliver size) ns ds) = length ds.
Proof. revert ds. induction ns as [|n ns IH]; intros ds; cbn [fold_left]; [done|]. unfold deliver at 2. by rewrite IH, length_alter. Qed.
(** Delivered nodes sit in the vector of their hash, and none is lost. *)
Lemma deliver_spec size ns ds : 0 < size → Z.of_nat (length ds) = size →
  (∀ i b, ds !! i = Some b → ∀ n, n ∈ b → Z.to_nat (hash n.1 mod size) = i) →
  let ds' := fold_left (deliver size) ns ds in
  concat ds' ≡ₚ ns ++ concat ds ∧
  ∀ i b, ds' !! i = Some b → ∀ n, n ∈ b → Z.to_nat (hash n.1 mod size) = i.
Proof.
  intros H0. revert ds. induction ns as [|n ns IH]; intros ds Hlen Hds; [done|]. cbn [fold_left].
  set (pos := Z.to_nat (hash n.1 mod size)).
  assert (pos < length ds)%nat as Hpos by (pose proof (Z.mod_pos_bound (hash n.1) size H0); subst pos; lia).
  destruct (lookup_lt_is_Some_2 ds pos Hpos) as [b Hb].
  assert (deliver size ds n = <[pos := b ++ [n]]> ds) as Hdel.
  { unfold deliver. fold pos. apply list_eq. intros i. destruct (decide (i = pos)) as [->|Hn].
    - by rewrite list_lookup_alter_eq, Hb, list_lookup_insert_eq.
    - by rewrite list_lookup_alter_ne, list_lookup_insert_ne by done. }
  rewrite Hdel. destruct (IH (<[pos := b ++ [n]]> ds)) as [IH1 IH2].
  - by rewrite length_insert.
  - intros i c Hc m Hm. destruct (decide (i = pos)) as [->|Hn].
    + rewrite list_lookup_insert_eq in Hc by done. simplify_eq.
      apply elem_of_app in Hm as [Hm| ->%list_elem_of_singleton]; [by eapply Hds|done].
    + rewrite list_lookup_insert_ne in Hc by done. by eapply Hds.
  - split; [|done]. rewrite IH1. destruct (concat_bucket ds pos b Hb) as [-> Hc]. rewrite Hc.
    rewrite <- Permutation_cons_append. cbn. by rewrite <- Permutation_middle.
Qed.
Lemma concat_sorted (ds : list (list node)) : concat (std_sort nlt <$> ds) ≡ₚ concat ds.
Proof.
  induction ds as [|b ds IH]; cbn; [done|]. destruct (std_sort_spec fst klt b) as [_ ->]. by rewrite IH.
Qed.
Lemma concat_NoDup_keys (ds : list (list node)) i b :
  NoDup (fst <$> concat ds) → ds !! i = Some b → NoDup (fst <$> b).
Proof.
  intros Hd Hb. rewrite (proj1 (concat_bucket ds i b Hb)), fmap_app in Hd. by apply list.NoDup_app in Hd as (? & _).
Qed.
Lemma concat_replicate_nil n : concat (replicate n ([] : list node)) = [].
Proof. by induction n. Qed.

Lemma distribute_spec size (ns : list node) : 0 < size → (size | 2 ^ 32) → NoDup (fst <$> ns) →
  ∃ ds, distribute size ns = Some ds ∧ buckets_ok size ds ∧ concat ds ≡ₚ ns.
Proof.
  intros H0 Hdv Hd. unfold distribute. destruct (Z.eqb_spec size 0); [lia|]. cbn [andb].
  destruct (deliver_spec size ns (replicate (Z.to_nat size) [])) as [Hp Hh]; [done|rewrite length_replicate; lia| |].
  { intros i b [-> _]%lookup_replicate n' []%elem_of_nil. }
  rewrite concat_replicate_nil, app_nil_r in Hp. set (ds := fold_left _ _ _) in *.
  eexists. split; [done|]. split; [split_and!|by rewrite concat_sorted].
  - done.
  - unfold ds. rewrite length_fmap, length_deliver, length_replicate. lia.
  - done.
  - intros i b (b0 & -> & Hb0)%list_lookup_fmap_Some. split.
    + apply std_sort_strict; [done..|]. apply (concat_NoDup_keys ds i); [by rewrite Hp|done].
    + intros n'. destruct (std_sort_spec fst klt b0) as [_ ->]. by apply Hh.
Qed.

Lemma Rep_keys t m ds : Rep t m → m_datas t = Some ds → NoDup (fst <$> concat ds).
Proof.
  intros (ds' & Hd' & _ & Hp & _) Hd. rewrite Hd in Hd'. injection Hd' as <-. rewrite Hp. apply NoDup_fst_map_to_list.
Qed.

Lemma Rep_rehash t m : Rep t m → Z.of_nat (size m) < 2 ^ 31 →
  ∃ t', rehash t = Ret tt t' ∧ Rep t' m ∧ m_rest t' = m_rest t.
Proof.
  intros Hrep Hsz. unfold rehash. destruct (needRehash t) eqn:Hneed; [|by exists t].
  pose proof Hrep as (ds & Hd & (H0 & Hlen & Hdv & Hok) & Hp & Ht).
  unfold needRehash in Hneed. apply Z.ltb_lt in Hneed. unfold rehashUnlock.
  destruct (basket_bounds (m_total t)) as (sz & Hbk & Hsz' & _); [lia|]. rewrite Hbk.
  destruct (Z.eqb_spec sz (m_size t)); [by exists t|]. rewrite Hd.
  destruct (distribute_spec sz (concat ds)) as (ds' & -> & Hok' & Hp'); [lia|by apply (basket_divides (m_total t))|by apply (Rep_keys t m)|].
  eexists. split; [done|]. split; [|done]. exists ds'. cbn. split_and!; [done..| |done]. by rewrite Hp'.
Qed.

Lemma Rep_new n x t : 1 ≤ n < 2 ^ 31 → table_new n x = Some t → Rep t ∅ ∧ m_rest t = x.
Proof.
  intros Hn. unfold table_new. destruct (basket_bounds n Hn) as (sz & Hbk & Hsz & _). rewrite Hbk. intros [= <-].
  split; [|done]. eexists. split; [done|]. cbn. rewrite map_to_list_empty, concat_replicate_nil. split_and!; [|done..].
  split_and!; [lia|rewrite length_replicate; lia|by apply (basket_divides n)|]. intros i b [-> _]%lookup_replicate.
  split; [constructor|]. by intros n' ?%elem_of_nil.
Qed.
Lemma table_new_defined n (x : X) : 1 ≤ n < 2 ^ 31 → is_Some (table_new n x).
Proof. intros Hn. unfold table_new. by destruct (basket_bounds n Hn) as (sz & -> & _). Qed.

(** A loop over all nodes that always goes on folds over them in order. *)
Lemma visit_bucket_all {B} (f : K → P → B → B) b z :
  visit_bucket (λ k p z, (true, f k p z)) b z = (true, fold_left (λ z n, f n.1 n.2 z) b z).
Proof. revert z. induction b as [|n b IH]; intros z; cbn; [done|]. apply IH. Qed.
Lemma visit_all {B} whole (f : K → P → B → B) ds z :
  visit whole (λ k p z, (true, f k p z)) ds z = fold_left (λ z n, f n.1 n.2 z) (concat ds) z.
Proof.
  revert z. induction ds as [|b ds IH]; intros z; cbn; [done|]. by rewrite visit_bucket_all, fold_left_app, IH.
Qed.
Lemma foreach_all {B} whole (f : K → P → B → B) z t m ds : Rep t m → m_datas t = Some ds →
  foreach whole (λ k p z, (true, f k p z)) z t = Ret (fold_left (λ z n, f n.1 n.2 z) (concat ds) z) t.
Proof.
  intros (ds' & Hd' & (H0 & Hlen & Hdv & Hok) & _) Hd. rewrite Hd in Hd'. injection Hd' as <-.
  unfold foreach. rewrite Hd, take_ge by lia. by rewrite visit_all.
Qed.
End table.
