(* ===== verification/PodStream.v ===== *)
(** * Raw values on streams (Sylar/util.h, util.cc)

    The helpers that move fixed amounts of memory to and from a standard
    stream, at once or in bounded chunks. An input stream is the bytes it
    still holds and whether it is good: a read that finds fewer bytes than
    asked for takes them and makes it fail. An output stream takes a bounded
    number of bytes ([os_room]) before it fails. *)
From Stdlib Require Import ZArith Lia Strings.Byte.
From stdpp Require Import base list list_numbers numbers.
From S2P Require Import Prelude ByteArray.

Local Open Scope nat_scope.

Record istream := mkIn { is_data : list byte; is_good : bool }.
Record ostream := mkOut { os_data : list byte; os_room : nat; os_good : bool }.

(** is.read(data, n): the bytes stored, whose number is gcount() *)
Definition is_read (n : nat) (s : istream) : list byte * istream :=
  if is_good s then
    if n <=? length (is_data s) then (take n (is_data s), mkIn (drop n (is_data s)) true)
    else (is_data s, mkIn [] false)
  else ([], s).
(** os.write(data, n) *)
Definition os_write (bs : list byte) (s : ostream) : ostream :=
  if os_good s then
    if length bs <=? os_room s then mkOut (os_data s ++ bs) (os_room s - length bs) true
    else mkOut (os_data s ++ take (os_room s) bs) 0 false
  else s.

(** ReadFixFromStream: the bytes stored so far, whether all were read. A
    turn that does not fill the buffer makes the stream fail, so two turns
    are enough. *)
Fixpoint read_fix_loop (fuel : nat) (size : nat) (got : list byte) (s : istream) : option (list byte * istream) :=
  match fuel with
  | O => None
  | S fuel =>
    if is_good s && (length got <? size) then
      let '(bs, s) := is_read (size - length got) s in read_fix_loop fuel size (got ++ bs) s
    else Some (got, s)
  end.
Definition ReadFixFromStream (size : nat) (s : istream) : option (bool * list byte * istream) :=
  match read_fix_loop 2 size [] s with
  | Some (got, s) => Some (length got =? size, got, s)
  | None => None
  end.

(** The chunk of the limited versions; ceil(speed / 100.0) is exact for
    speeds below 2^53. *)
Definition chunk (speed : Z) : nat := Z.to_nat (Z.max (Z.div (speed + 99) 100) (1024 * 64)).
Fixpoint read_speed_loop (fuel : nat) (size per : nat) (got : list byte) (s : istream) : option (list byte * istream) :=
  match fuel with
  | O => None
  | S fuel =>
    if is_good s && (length got <? size) then
      let n := if per <? size - length got then per else size - length got in
      let '(bs, s) := is_read n s in read_speed_loop fuel size per (got ++ bs) s
    else Some (got, s)
  end.
Definition ReadFixFromStreamWithSpeed (fuel size : nat) (speed : Z) (s : istream) : option (bool * list byte * istream) :=
  match read_speed_loop fuel size (chunk speed) [] s with
  | Some (got, s) => Some (length got =? size, got, s)
  | None => None
  end.
(** The limited writer counts a chunk whether or not it was written. *)
Fixpoint write_speed_loop (fuel : nat) (data : list byte) (per offset : nat) (s : ostream) : option (nat * ostream) :=
  match fuel with
  | O => None
  | S fuel =>
    if os_good s && (offset <? length data) then
      let n := if per <? length data - offset then per else length data - offset in
      write_speed_loop fuel data per (offset + n) (os_write (take n (drop offset data)) s)
    else Some (offset, s)
  end.
Definition WriteFixToStreamWithSpeed (fuel : nat) (data : list byte) (speed : Z) (s : ostream) : option (bool * ostream) :=
  match write_speed_loop fuel data (chunk speed) 0 s with
  | Some (offset, s) => Some (offset =? length data, s)
  | None => None
  end.
(** WriteToStream of a value with memory image [bs] *)
Definition WriteToStream (bs : list byte) (s : ostream) : bool * ostream :=
  if os_good s then let s := os_write bs s in (os_good s, s) else (false, s).

(** The raw transfer of an array, limited or not: a speed of -1 is none. *)
Definition NO_LIMIT : Z := 2 ^ 64 - 1.

Definition write_raw (bs : list byte) (speed : Z) (os : ostream) : option ostream :=
  if (speed =? NO_LIMIT)%Z then Some (os_write bs os)
  else snd <$> WriteFixToStreamWithSpeed (S (length bs)) bs speed os.
Definition read_raw (size : nat) (speed : Z) (inp : istream) : option (bool * list byte * istream) :=
  if (speed =? NO_LIMIT)%Z then ReadFixFromStream size inp
  else ReadFixFromStreamWithSpeed (S size) size speed inp.

(** ** What they do *)
Lemma is_read_bad n l : is_read n (mkIn l false) = ([], mkIn l false).
Proof. done. Qed.
Lemma ReadFix_good size l :
  ReadFixFromStream size (mkIn l true) =
    Some (if size <=? length l then (true, take size l, mkIn (drop size l) true) else (false, l, mkIn [] false)).
Proof.
  unfold ReadFixFromStream. cbn [read_fix_loop is_good andb length]. rewrite Nat.sub_0_r. unfold is_read. cbn [is_good is_data].
  destruct (Nat.ltb_spec 0 size) as [H0|H0].
  - destruct (Nat.leb_spec size (length l)); cbn [is_good andb app].
    + assert (length (take size l) = size) as Hl by (rewrite length_take; lia).
      rewrite Hl, Nat.ltb_irrefl, Hl, Nat.eqb_refl. done.
    + destruct (Nat.eqb_spec (length l) size); [lia|]. done.
  - assert (size = 0) as -> by lia. done.
Qed.
Lemma ReadFix_bad size l : ReadFixFromStream size (mkIn l false) = Some (0 =? size, [], mkIn l false).
Proof. done. Qed.

(** One full read of a prefix. *)
Lemma ReadFix_prefix n bs rest : length bs = n → ReadFixFromStream n (mkIn (bs ++ rest) true) = Some (true, bs, mkIn rest true).
Proof.
  intros <-. rewrite ReadFix_good, length_app. destruct (Nat.leb_spec (length bs) (length bs + length rest)); [|lia].
  by rewrite take_app_length, drop_app_length.
Qed.
Lemma ReadFix_short n bs : length bs < n → ReadFixFromStream n (mkIn bs true) = Some (false, bs, mkIn [] false).
Proof. intros Hl. rewrite ReadFix_good. destruct (Nat.leb_spec n (length bs)); [lia|done]. Qed.

Lemma chunk_pos speed : 0 < chunk speed.
Proof. unfold chunk. lia. Qed.

Lemma read_speed_loop_good per size l fuel got :
  0 < per → length got ≤ size → size - length got < fuel → read_speed_loop fuel size per got (mkIn l true) =
    Some (let n := size - length got in
          if n <=? length l then (got ++ take n l, mkIn (drop n l) true) else (got ++ l, mkIn [] false)).
Proof.
  intros Hper. revert l got. induction fuel as [|fuel IH]; intros l got Hg Hf; [lia|].
  cbn [read_speed_loop is_good andb]. destruct (Nat.ltb_spec (length got) size) as [Hlt|Hge].
  2:{ replace (size - length got) with 0 by lia. cbn. by rewrite app_nil_r. }
  set (n := if per <? size - length got then per else size - length got).
  assert (0 < n ≤ size - length got) as Hn by (subst n; destruct (Nat.ltb_spec per (size - length got)); lia).
  unfold is_read. cbn [is_good is_data]. destruct (Nat.leb_spec n (length l)) as [Hl|Hl].
  - assert (length (got ++ take n l) = length got + n) as Hlen by (rewrite length_app, length_take; lia).
    rewrite IH by lia. cbn zeta. rewrite Hlen, length_drop, <- !(assoc_L (++)), drop_drop. f_equal.
    set (m := size - (length got + n)). replace (size - length got) with (n + m) by lia.
    destruct (Nat.leb_spec m (length l - n)), (Nat.leb_spec (n + m) (length l)); try lia.
    + by rewrite (take_take_drop l n m).
    + by rewrite take_drop.
  - destruct fuel as [|fuel]; [lia|]. cbn. destruct (Nat.leb_spec (size - length got) (length l)); [lia|done].
Qed.

Lemma os_write_nil s : os_write [] s = s.
Proof. destruct s as [d r []]; [|done]. unfold os_write. cbn. by rewrite app_nil_r, Nat.sub_0_r. Qed.
Lemma os_write_app a b s : os_write b (os_write a s) = os_write (a ++ b) s.
Proof.
  destruct s as [d r []]; [|done]. unfold os_write. cbn [os_good os_room os_data]. rewrite length_app.
  destruct (Nat.leb_spec (length a) r) as [Ha|Ha]; cbn [os_good os_room os_data].
  - destruct (Nat.leb_spec (length b) (r - length a)), (Nat.leb_spec (length a + length b) r); try lia.
    + rewrite <- (assoc_L (++)). f_equal. lia.
    + rewrite <- (assoc_L (++)), take_app_ge by lia. done.
  - destruct (Nat.leb_spec (length a + length b) r); [lia|]. by rewrite take_app_le by lia.
Qed.
Lemma os_write_good bs s : os_good (os_write bs s) = true → os_good s = true.
Proof. destruct s as [d r []]; done. Qed.

Lemma write_speed_loop_spec data per fuel offset s :
  0 < per → offset ≤ length data → length data - offset < fuel →
  ∃ off, write_speed_loop fuel data per offset s = Some (off, os_write (drop offset data) s) ∧
    offset ≤ off ≤ length data ∧ (os_good (os_write (drop offset data) s) = true → off = length data) ∧
    (os_good s = true → length data - offset ≤ per → off = length data).
Proof.
  intros Hper. revert offset s. induction fuel as [|fuel IH]; intros offset s Ho Hf; [lia|].
  cbn [write_speed_loop]. destruct (os_good s) eqn:Hs; cbn [andb].
  2:{ exists offset. destruct s as [d r g]. cbn in Hs. subst g. done. }
  destruct (Nat.ltb_spec offset (length data)) as [Hlt|Hge].
  2:{ exists offset. rewrite drop_ge, os_write_nil by lia. split_and!; [done|lia..|intros; lia|intros; lia]. }
  set (n := if per <? length data - offset then per else length data - offset).
  assert (0 < n ≤ length data - offset ∧ (length data - offset ≤ per → n = length data - offset)) as [Hn Hn']
    by (subst n; destruct (Nat.ltb_spec per (length data - offset)); lia).
  destruct (IH (offset + n) (os_write (take n (drop offset data)) s)) as (off & -> & H1 & H2 & _); [lia..|].
  rewrite os_write_app, <- drop_drop, take_drop in *. exists off. split_and!; [done|lia..|done|].
  intros _ Hp. specialize (Hn' Hp). lia.
Qed.

Lemma read_speed_eq fuel size speed s : size < fuel →
  ReadFixFromStreamWithSpeed fuel size speed s = ReadFixFromStream size s.
Proof.
  intros Hsize. destruct s as [l []].
  - rewrite ReadFix_good. unfold ReadFixFromStreamWithSpeed.
    rewrite read_speed_loop_good by (cbn; try apply chunk_pos; lia). cbn zeta. cbn [length app]. rewrite Nat.sub_0_r.
    destruct (Nat.leb_spec size (length l)).
    + by rewrite length_take, Nat.min_l, Nat.eqb_refl by lia.
    + by destruct (Nat.eqb_spec (length l) size); [lia|].
  - rewrite ReadFix_bad. destruct fuel; [lia|]. done.
Qed.
Lemma write_speed_eq fuel data speed o : length data < fuel →
  ∃ b, WriteFixToStreamWithSpeed fuel data speed o = Some (b, os_write data o) ∧
    (os_good (os_write data o) = true → b = true) ∧
    (os_good o = true → length data ≤ chunk speed → b = true).
Proof.
  intros Hf. unfold WriteFixToStreamWithSpeed.
  destruct (write_speed_loop_spec data (chunk speed) fuel 0 o) as (off & -> & H1 & H2 & H3);
    [apply chunk_pos|lia..|]. rewrite Nat.sub_0_r in H3. rewrite drop_0 in *. eexists. split; [done|].
  split; [intros Hg; apply Nat.eqb_eq, H2, Hg|intros Hg Hc; by apply Nat.eqb_eq, H3].
Qed.
Lemma write_raw_eq bs speed os : write_raw bs speed os = Some (os_write bs os).
Proof.
  unfold write_raw. case_match; [done|].
  destruct (write_speed_eq (S (length bs)) bs speed os) as (b & -> & _); [lia|done].
Qed.
Lemma read_raw_eq size speed inp : read_raw size speed inp = ReadFixFromStream size inp.
Proof. unfold read_raw. case_match; [done|]. apply read_speed_eq. lia. Qed.

(** Reading in chunks gives exactly what reading at once gives, for every
    size, speed and stream. Writing in chunks stores exactly what one write
    stores, in a stream that fails in the middle too, and reports success
    when everything was stored; but a failure in the last chunk is reported
    as success as well. *)
Theorem stream_chunks (size fuel : nat) (speed : Z) (s : istream) (data : list byte) (o : ostream)
    (Hsize : size < fuel) (Hdata : length data < fuel) :
  ReadFixFromStreamWithSpeed fuel size speed s = ReadFixFromStream size s ∧
  ∃ b, WriteFixToStreamWithSpeed fuel data speed o = Some (b, os_write data o) ∧
    (os_good (os_write data o) = true → b = true) ∧
    (os_good o = true → length data ≤ chunk speed → b = true).
Proof. split; [by apply read_speed_eq|by apply write_speed_eq]. Qed.
Lemma stream_chunks_witness :
  ReadFixFromStreamWithSpeed 5 3 1 (mkIn [x01; x02] true) = ReadFixFromStream 3 (mkIn [x01; x02] true) ∧
  ∃ b, WriteFixToStreamWithSpeed 5 [x01; x02] 1 (mkOut [] 1 true) = Some (b, os_write [x01; x02] (mkOut [] 1 true)) ∧
    (os_good (os_write [x01; x02] (mkOut [] 1 true)) = true → b = true) ∧
    (os_good (mkOut [] 1 true) = true → length [x01; x02] ≤ chunk 1 → b = true).
Proof. apply (stream_chunks 3 5 1 (mkIn [x01; x02] true) [x01; x02] (mkOut [] 1 true)); cbn; lia. Defined.

(** ** Plain data

    The memory image of a type that is copied as raw memory: its layout is
    the compiler's, what the code relies on is that the image determines the
    value. *)
Class Pod (A : Type) := {
  sizeof : nat;
  image : A → list byte;
  value_of : list byte → A;
  sizeof_pos : 0 < sizeof;
  image_length a : length (image a) = sizeof;
  value_image a : value_of (image a) = a
}.
Arguments sizeof A {_}.

Section pod.
Context {A : Type} `{!Pod A}.

Definition images (l : list A) : list byte := concat (image <$> l).
Fixpoint values_of (n : nat) (bs : list byte) : list A :=
  match n with
  | O => []
  | S n => value_of (take (sizeof A) bs) :: values_of n (drop (sizeof A) bs)
  end.

Lemma length_images l : length (images l) = length l * sizeof A.
Proof.
  unfold images. induction l as [|a l IH]; cbn; [done|]. by rewrite length_app, image_length, IH.
Qed.
Lemma values_images l rest : values_of (length l) (images l ++ rest) = l.
Proof.
  unfold images. induction l as [|a l IH]; cbn; [done|].
  rewrite <- (assoc_L (++)), take_app_length', drop_app_length' by (by rewrite image_length). by rewrite value_image, IH.
Qed.
End pod.

(** 64-bit members in memory. *)
Definition word_image (host : endian) (z : Z) : list byte := mem_image host 8 z.
(** A member after [got] was read over the start of it. *)
Definition word_over (host : endian) (z : Z) (got : list byte) : Z :=
  mem_value host (got ++ drop (length got) (word_image host z)).

Lemma length_word_image host z : length (word_image host z) = 8.
Proof. apply length_mem_image. Qed.
Lemma word_over_image host z z' : in_u 64 z → word_over host z' (word_image host z) = z.
Proof.
  intros Hz. unfold word_over. rewrite drop_ge, app_nil_r by (by rewrite !length_word_image).
  unfold word_image. rewrite mem_value_image. by apply uwrap_id.
Qed.
