(* ===== verification/HashMap.v ===== *)
(** * HashMap (Sylar/DataStructure/hash_map.h)

    A hash map over the bucket table of Table.v. The theorems say that it
    implements a finite map, that its file format is read back, and what
    happens after clear() and after a failed readFrom. *)
From Stdlib Require Import ZArith Lia Strings.Byte.
From stdpp Require Import base list sorting list_numbers numbers gmap.
From S2P Require Import Prelude ByteArray OrderedSet SortedVec Table PodStream.

Local Open Scope Z_scope.

Section hash_map.
Context {K V : Type} (klt : K → K → bool) (hash : K → Z).
#[local] Abbreviation hmap := (table K V unit).
Implicit Types (k : K) (v : V).

Definition hm_new (size : Z) : option hmap := table_new size tt.

Definition hm_get k : M hmap (option V) :=
  let! (_, b, it) := locate klt hash k in
  match it with
  | None => cret None
  | Some i => match b !! i with Some n => cret (Some n.2) | None => cstuck OutOfBounds end
  end.
Definition hm_exists k : M hmap bool :=
  let! (_, _, it) := locate klt hash k in cret (bool_decide (it ≠ None)).
Definition hm_set k v : M hmap bool :=
  let! t := cget in
  let! _ := if needRehash t then rehash klt hash else cret tt in
  let! (pos, b, it) := locate klt hash k in
  match it with
  | None => let! _ := push_node klt pos b (k, v) in cret true
  | Some i =>
    match b !! i with
    | Some n => let! _ := put_bucket pos (<[i := (n.1, v)]> b) in cret false
    | None => cstuck OutOfBounds
    end
  end.
Definition hm_getTotal (t : hmap) : Z := m_total t.
Definition hm_del k : M hmap bool :=
  let! (pos, b, it) := locate klt hash k in
  match it with
  | None => cret false
  | Some i => let! _ := remove_node klt pos b i in cret true
  end.
(** clear(): the sizes are zeroed and the array is freed. *)
Definition hm_clear : M hmap unit := cmodify (λ _, mkTable 0 0 None tt).
Definition hm_swap (t oth : hmap) : hmap * hmap := (oth, t).

Definition hm_rforeach {B} (cb : K → V → B → bool * B) (z : B) : M hmap B := foreach true cb z.
(** The callback gets a reference to a copy of the node: what it stores is
    dropped. *)
Definition hm_wforeach {B} (cb : K → V → B → bool * V * B) (z : B) : M hmap B :=
  foreach true (λ k v z, let '(go, _, z) := cb k v z in (go, z)) z.
(** merge: the other map's nodes are collected first, then set one by one. *)
Definition hm_merge (oth : hmap) : M hmap unit :=
  match hm_rforeach (λ k v tmp, (true, tmp ++ [(k, v)])) [] oth with
  | Ret tmp _ => cfor tmp (λ kv, let! _ := hm_set kv.1 kv.2 in cret tt)
  | Exn e _ => cthrow e
  | Stuck r => cstuck r
  end.

(** ** Files *)
Context `{!Pod (K * V)} (host : endian).

Definition hm_writeTo (speed : Z) (os : ostream) : M hmap (bool * ostream) := λ t,
  let os := os_write (word_image host (m_size t)) os in
  match hm_rforeach (λ k v ns, (true, ns ++ [(k, v)])) [] t with
  | Ret ns _ =>
    let os := os_write (word_image host (Z.of_nat (length ns * sizeof (K * V)))) os in
    match write_raw (images ns) speed os with
    | Some os => Ret (os_good os, os) t
    | None => Stuck OutOfFuel
    end
  | Exn e _ => Exn e t
  | Stuck r => Stuck r
  end.

(** readFrom. [mem] is the largest allocation that does not throw; an
    exception makes it return false. The nodes are read over the vector
    sized by the quotient, so a size that is not a multiple overruns it. *)
Definition hm_readFrom (mem : Z) (speed : Z) (inp : istream) : M hmap (bool * istream) := λ t,
  let t : hmap := mkTable (m_size t) (m_total t) None tt in
  match ReadFixFromStream 8 inp with
  | None => Stuck OutOfFuel
  | Some (ok, got, inp) =>
    let t : hmap := mkTable (word_over host (m_size t) got) (m_total t) None tt in
    if negb ok then Ret (false, inp) t
    else
      match ReadFixFromStream 8 inp with
      | None => Stuck OutOfFuel
      | Some (ok, got, inp) =>
        if negb ok then Ret (false, inp) t
        else
          let size := word_over host 0 got in
          let n := size / Z.of_nat (sizeof (K * V)) in
          if mem <? size then Ret (false, inp) t
          else
            match read_raw (Z.to_nat size) speed inp with
            | None => Stuck OutOfFuel
            | Some (ok, got, inp) =>
              if (n * Z.of_nat (sizeof (K * V)) <? Z.of_nat (length got)) then Stuck OutOfBounds
              else if negb ok then Ret (false, inp) t
              else
                let t : hmap := mkTable (m_size t) n None tt in
                if mem <? m_size t then Ret (false, inp) t
                else
                  match distribute klt hash (m_size t) (values_of (Z.to_nat n) got) with
                  | None => Stuck DivByZero
                  | Some ds => Ret (true, inp) (mkTable (m_size t) n (Some ds) tt)
                  end
            end
      end
  end.
End hash_map.

(** ** The map it implements *)

(** The operations; merge and swap take another map, built for [n] entries
    from the settings [kvs]. *)
Inductive hop (K V : Type) :=
  | HSet (k : K) (v : V) | HGet (k : K) | HExists (k : K) | HDel (k : K) | HRehash
  | HMerge (n : Z) (kvs : list (K * V)) | HSwap (n : Z) (kvs : list (K * V)).
Arguments HSet {K V}.
Arguments HGet {K V}.
Arguments HExists {K V}.
Arguments HDel {K V}.
Arguments HRehash {K V}.
Arguments HMerge {K V}.
Arguments HSwap {K V}.

Section refinement.
Context {K V : Type} (klt : K → K → bool) (hash : K → Z).
Context `{!EqDecision K, !Countable K, !KeyOrder klt}.
#[local] Abbreviation hmap := (table K V unit).
Implicit Types (k : K) (v : V) (t : hmap) (m : gmap K V).
#[local] Abbreviation Repr := (Rep klt hash).

(** Another map. *)
Definition hm_build (n : Z) (kvs : list (K * V)) : option hmap :=
  t ← hm_new n;
  match cfor kvs (λ kv, let! _ := hm_set klt hash kv.1 kv.2 in cret tt) t with Ret _ t' => Some t' | _ => None end.
Definition map_build (kvs : list (K * V)) (m : gmap K V) : gmap K V := fold_left (λ m kv, <[kv.1 := kv.2]> m) kvs m.
(** An operation: the value it stores in its reference argument, and what
    it returns. *)
Definition hm_exec (o : hop K V) : M hmap (option V * bool) :=
  match o with
  | HSet k v => let! b := hm_set klt hash k v in cret (None, b)
  | HGet k => let! r := hm_get klt hash k in cret (r, bool_decide (is_Some r))
  | HExists k => let! b := hm_exists klt hash k in cret (None, b)
  | HDel k => let! b := hm_del klt hash k in cret (None, b)
  | HRehash => let! _ := rehash klt hash in cret (None, true)
  | HMerge n kvs =>
    match hm_build n kvs with
    | Some oth => let! _ := hm_merge klt hash oth in cret (None, true)
    | None => cstuck NullDeref
    end
  | HSwap n kvs =>
    match hm_build n kvs with
    | Some oth => let! _ := cmodify (λ t, (hm_swap t oth).1) in cret (None, true)
    | None => cstuck NullDeref
    end
  end.
Fixpoint hm_run (os : list (hop K V)) : M hmap (list (option V * bool)) :=
  match os with
  | [] => cret []
  | o :: os => let! r := hm_exec o in let! rs := hm_run os in cret (r :: rs)
  end.
(** The same on a finite map. *)
Definition map_exec (o : hop K V) (m : gmap K V) : (option V * bool) * gmap K V :=
  match o with
  | HSet k v => ((None, bool_decide (m !! k = None)), <[k := v]> m)
  | HGet k => ((m !! k, bool_decide (is_Some (m !! k))), m)
  | HExists k => ((None, bool_decide (is_Some (m !! k))), m)
  | HDel k => ((None, bool_decide (is_Some (m !! k))), delete k m)
  | HRehash => ((None, true), m)
  | HMerge _ kvs => ((None, true), map_build kvs ∅ ∪ m)
  | HSwap _ kvs => ((None, true), map_build kvs ∅)
  end.
(** How many entries an operation can add, and the sizes a map is built
    for. *)
Definition hop_weight (o : hop K V) : nat :=
  match o with HMerge _ kvs | HSwap _ kvs => S (length kvs) | _ => 1 end.
Definition hop_sized (o : hop K V) : Prop :=
  match o with HMerge n _ | HSwap n _ => 1 ≤ n < 2 ^ 31 | _ => True end.
Fixpoint map_run (os : list (hop K V)) (m : gmap K V) : list (option V * bool) * gmap K V :=
  match os with
  | [] => ([], m)
  | o :: os => let '(r, m) := map_exec o m in let '(rs, m) := map_run os m in (r :: rs, m)
  end.

Lemma hm_get_spec t m k : Repr t m → hm_get klt hash k t = Ret (m !! k) t.
Proof.
  intros Hr. destruct (locate_spec klt hash t m k Hr) as (ds & pos & b & r & Hl & Hd & Hb & _ & Hm).
  unfold hm_get. rewrite (cbind_Ret _ _ _ _ _ Hl). destruct (m !! k) as [v|].
  - destruct Hm as (i & -> & Hi). by rewrite Hi.
  - by destruct Hm as [-> _].
Qed.
Lemma hm_exists_spec t m k : Repr t m → hm_exists klt hash k t = Ret (bool_decide (is_Some (m !! k))) t.
Proof.
  intros Hr. destruct (locate_spec klt hash t m k Hr) as (ds & pos & b & r & Hl & Hd & Hb & _ & Hm).
  unfold hm_exists. rewrite (cbind_Ret _ _ _ _ _ Hl). destruct (m !! k) as [v|].
  - destruct Hm as (i & -> & Hi). done.
  - by destruct Hm as [-> _].
Qed.
Lemma hm_set_spec t m k v : Repr t m → Z.of_nat (size m) < 2 ^ 31 →
  ∃ t', hm_set klt hash k v t = Ret (bool_decide (m !! k = None)) t' ∧ Repr t' (<[k := v]> m).
Proof.
  intros Hr Hsz. unfold hm_set. rewrite (cbind_Ret cget _ _ t t eq_refl).
  assert (∃ t1, (if needRehash t then rehash klt hash else cret tt) t = Ret tt t1 ∧ Repr t1 m) as (t1 & Hre & Hr1).
  { destruct (needRehash t); [|by exists t].
    destruct (Rep_rehash klt hash t m Hr Hsz) as (t1 & ? & ? & _). by exists t1. }
  rewrite (cbind_Ret _ _ _ _ _ Hre).
  destruct (locate_spec klt hash t1 m k Hr1) as (ds & pos & b & r & Hl & Hd & Hb & -> & Hm).
  rewrite (cbind_Ret _ _ _ _ _ Hl). destruct (m !! k) as [v'|] eqn:Em.
  - destruct Hm as (i & -> & Hi). rewrite Hi. cbn [fst].
    eexists. split; [done|]. unfold set_datas. rewrite Hd. cbn [fmap option_fmap option_map].
    by apply (Rep_update klt hash t1 m ds b i k v').
  - destruct Hm as [-> _].
    destruct (Rep_push klt hash t1 m ds b k v) as (t' & Hp & Hr' & _); [done..|lia|done|].
    rewrite (cbind_Ret _ _ _ _ _ Hp). by exists t'.
Qed.
Lemma hm_del_spec t m k : Repr t m → Z.of_nat (size m) < 2 ^ 64 →
  ∃ t', hm_del klt hash k t = Ret (bool_decide (is_Some (m !! k))) t' ∧ Repr t' (delete k m).
Proof.
  intros Hr Hsz. unfold hm_del.
  destruct (locate_spec klt hash t m k Hr) as (ds & pos & b & r & Hl & Hd & Hb & -> & Hm).
  rewrite (cbind_Ret _ _ _ _ _ Hl). destruct (m !! k) as [v|] eqn:Em.
  - destruct Hm as (i & -> & Hi).
    destruct (Rep_remove klt hash t m ds b i k v) as (t' & Hp & Hr' & _); [done..|].
    rewrite (cbind_Ret _ _ _ _ _ Hp). by exists t'.
  - destruct Hm as [-> _]. exists t. split; [done|]. by rewrite delete_id.
Qed.

Lemma size_insert_le m k v : (size (<[k := v]> m) ≤ S (size m))%nat.
Proof. rewrite map_size_insert. case_match; cbn; lia. Qed.
Lemma map_build_size kvs m : (size (map_build kvs m) ≤ length kvs + size m)%nat.
Proof.
  revert m. induction kvs as [|[k v] kvs IH]; intros m; cbn; [lia|].
  pose proof (IH (<[k := v]> m)). pose proof (size_insert_le m k v). unfold map_build in *. cbn in *. lia.
Qed.
Lemma size_union_le m1 m2 : (size (m1 ∪ m2) ≤ size m1 + size m2)%nat.
Proof.
  induction m1 as [|k v m1 Hk IH] using map_ind; [by rewrite (left_id_L ∅ (∪)), map_size_empty|].
  rewrite <- insert_union_l. pose proof (size_insert_le (m1 ∪ m2) k v). rewrite (map_size_insert_None k v m1 Hk). lia.
Qed.
Lemma map_exec_size o m : (size (map_exec o m).2 ≤ hop_weight o + size m)%nat.
Proof.
  destruct o as [k v|k|k|k| |n kvs|n kvs]; cbn; try lia.
  - pose proof (size_insert_le m k v). lia.
  - rewrite map_size_delete. case_match; cbn; lia.
  - pose proof (size_union_le (map_build kvs ∅) m). pose proof (map_build_size kvs ∅). rewrite map_size_empty in *. lia.
  - pose proof (map_build_size kvs ∅). rewrite map_size_empty in *. lia.
Qed.
Lemma hm_sets_spec kvs t m : Repr t m → Z.of_nat (length kvs + size m) < 2 ^ 31 →
  ∃ t', cfor kvs (λ kv, let! _ := hm_set klt hash kv.1 kv.2 in cret tt) t = Ret tt t' ∧ Repr t' (map_build kvs m).
Proof.
  revert t m. induction kvs as [|[k v] kvs IH]; intros t m Hr Hsz; cbn [cfor length] in *; [by exists t|].
  destruct (hm_set_spec t m k v Hr ltac:(lia)) as (t1 & He & Hr1). cbn [fst snd].
  rewrite cbind_assoc, (cbind_Ret _ _ _ _ _ He). unfold cbind at 1, cret at 1.
  pose proof (size_insert_le m k v). exact (IH t1 (<[k := v]> m) Hr1 ltac:(lia)).
Qed.
Lemma hm_build_spec n kvs : 1 ≤ n < 2 ^ 31 → Z.of_nat (length kvs) < 2 ^ 31 →
  ∃ t, hm_build n kvs = Some t ∧ Repr t (map_build kvs ∅).
Proof.
  intros Hn Hl. destruct (table_new_defined (K := K) (P := V) n tt Hn) as [t0 Ht0].
  destruct (Rep_new klt hash n tt t0 Hn Ht0) as [Hr _].
  destruct (hm_sets_spec kvs t0 ∅ Hr) as (t & He & Ht); [rewrite map_size_empty; lia|].
  exists t. split; [|done]. unfold hm_build, hm_new. rewrite Ht0. cbn. by rewrite He.
Qed.
(** What a loop over the map collects: every entry once. *)
Lemma hm_collect t m : Repr t m →
  ∃ ns, hm_rforeach (λ k v ns, (true, ns ++ [(k, v)])) [] t = Ret ns t ∧ ns ≡ₚ map_to_list m.
Proof.
  intros Hr. destruct (id Hr) as (ds & Hd & _ & Hp & _). exists (concat ds). split; [|done].
  unfold hm_rforeach. rewrite (foreach_all klt hash true (λ k v ns, ns ++ [(k, v)]) [] t m ds) by done.
  f_equal. clear. assert (∀ l (acc : list (K * V)), fold_left (λ z n, z ++ [(n.1, n.2)]) l acc = acc ++ l) as H.
  { induction l as [|[k v] l IH]; intros acc; cbn; [by rewrite app_nil_r|]. by rewrite IH, <- (assoc_L (++)). }
  by rewrite H.
Qed.
Lemma hm_merge_spec t m oth mo : Repr t m → Repr oth mo → Z.of_nat (size m + size mo) < 2 ^ 31 →
  ∃ t', hm_merge klt hash oth t = Ret tt t' ∧ Repr t' (mo ∪ m).
Proof.
  intros Hr Ho Hsz. destruct (hm_collect oth mo Ho) as (ns & Hc & Hp). unfold hm_merge. rewrite Hc.
  assert (NoDup ns.*1) as Hnd by (rewrite Hp; apply NoDup_fst_map_to_list).
  assert (mo = list_to_map ns) as -> by (rewrite <- (list_to_map_to_list mo); symmetry; by apply list_to_map_proper).
  assert (length ns = size (list_to_map ns : gmap K V)) as Hlen by (by rewrite map_size_list_to_map).
  rewrite <- Hlen in Hsz. clear Hc Hp Hlen Ho oth. revert t m Hr Hsz Hnd.
  induction ns as [|[k v] ns IH]; intros t m Hr Hsz Hnd; cbn [cfor fst snd length] in *.
  { exists t. split; [done|]. by rewrite list_to_map_nil, (left_id_L ∅ (∪)). }
  csimpl in Hnd. apply list.NoDup_cons in Hnd as [Hk Hnd].
  destruct (hm_set_spec t m k v Hr ltac:(lia)) as (t1 & He & Hr1).
  rewrite cbind_assoc, (cbind_Ret _ _ _ _ _ He). unfold cbind at 1, cret at 1.
  pose proof (size_insert_le m k v).
  destruct (IH t1 (<[k := v]> m) Hr1 ltac:(lia) Hnd) as (t' & He' & Hr'). exists t'. split; [done|].
  rewrite list_to_map_cons. by rewrite <- insert_union_r, insert_union_l in * by (by apply not_elem_of_list_to_map_1).
Qed.
Lemma hm_exec_spec o t m : Repr t m → hop_sized o → Z.of_nat (hop_weight o + size m) ≤ 2 ^ 31 →
  ∃ t', hm_exec o t = Ret (map_exec o m).1 t' ∧ Repr t' (map_exec o m).2.
Proof.
  intros Hr Ho Hsz. destruct o as [k v|k|k|k| |n kvs|n kvs]; cbn [hm_exec map_exec fst snd hop_weight hop_sized] in *.
  - destruct (hm_set_spec t m k v Hr ltac:(lia)) as (t' & He & Hr'). rewrite (cbind_Ret _ _ _ _ _ He). by exists t'.
  - rewrite (cbind_Ret _ _ _ _ _ (hm_get_spec t m k Hr)). by exists t.
  - rewrite (cbind_Ret _ _ _ _ _ (hm_exists_spec t m k Hr)). by exists t.
  - destruct (hm_del_spec t m k Hr ltac:(lia)) as (t' & He & Hr'). rewrite (cbind_Ret _ _ _ _ _ He). by exists t'.
  - destruct (Rep_rehash klt hash t m Hr ltac:(lia)) as (t' & He & Hr' & _). rewrite (cbind_Ret _ _ _ _ _ He). by exists t'.
  - destruct (hm_build_spec n kvs Ho ltac:(lia)) as (oth & -> & Hoth). pose proof (map_build_size kvs ∅) as Hb.
    rewrite map_size_empty in Hb.
    destruct (hm_merge_spec t m oth _ Hr Hoth ltac:(lia)) as (t' & He & Hr'). rewrite (cbind_Ret _ _ _ _ _ He). by exists t'.
  - destruct (hm_build_spec n kvs Ho ltac:(lia)) as (oth & -> & Hoth). by exists oth.
Qed.
Definition hops_weight (os : list (hop K V)) : nat := sum_list_with hop_weight os.
Lemma hm_run_spec os t m : Repr t m → Forall hop_sized os → Z.of_nat (hops_weight os + size m) ≤ 2 ^ 31 →
  ∃ t', hm_run os t = Ret (map_run os m).1 t' ∧ Repr t' (map_run os m).2.
Proof.
  revert t m. induction os as [|o os IH]; intros t m Hr Hf Hsz; cbn [hm_run map_run] in *; [by exists t|].
  apply Forall_cons_1 in Hf as [Ho Hf]. unfold hops_weight in *. cbn [sum_list_with] in Hsz.
  destruct (hm_exec_spec o t m Hr Ho ltac:(lia)) as (t1 & He & Hr1). rewrite (cbind_Ret _ _ _ _ _ He).
  pose proof (map_exec_size o m). destruct (map_exec o m) as [r m1]. cbn [fst snd] in *.
  destruct (IH t1 m1 Hr1 Hf ltac:(lia)) as (t2 & He2 & Hr2). rewrite (cbind_Ret _ _ _ _ _ He2).
  destruct (map_run os m1) as [rs m2]. by exists t2.
Qed.
End refinement.

(** C5: HashMap implements a finite map: every history of set, get, exists,
    del, rehash, merge with another map and swap with another map, on maps
    built for 1 to 2^31 - 1 entries and with fewer than 2^31 settings in all,
    runs without undefined behaviour and answers what the same history on a
    finite map answers; at the end getTotal() is the number of entries, every
    bucket is strictly sorted and a loop over the map visits each entry once.
    The histories leave out clear() and readFrom, which can leave a map that
    is not usable ([hashmap_clear_unusable], [hashmap_file]), and maps built
    for 0 entries, the default ([hashmap_default_undefined]). *)
Theorem hashmap_refines_map {K V} (klt : K → K → bool) (hash : K → Z) `{!EqDecision K, !Countable K, !KeyOrder klt}
    (n : Z) (os : list (hop K V)) (Hn : 1 ≤ n < 2 ^ 31) (Hsized : Forall hop_sized os)
    (Hos : Z.of_nat (hops_weight os) ≤ 2 ^ 31) :
  ∃ t0 t rs m, hm_new n = Some t0 ∧ hm_run klt hash os t0 = Ret rs t ∧ map_run os ∅ = (rs, m) ∧
    hm_getTotal t = Z.of_nat (size m) ∧ Rep klt hash t m ∧
    ∃ ns, hm_rforeach (λ k v ns, (true, ns ++ [(k, v)])) [] t = Ret ns t ∧ ns ≡ₚ map_to_list m.
Proof.
  destruct (table_new_defined (K := K) (P := V) n tt Hn) as [t0 Ht0].
  destruct (Rep_new klt hash n tt t0 Hn Ht0) as [Hr _].
  destruct (hm_run_spec klt hash os t0 ∅ Hr Hsized) as (t & He & Ht); [rewrite map_size_empty; lia|].
  destruct (map_run os ∅) as [rs m]. cbn [fst snd] in *. exists t0, t, rs, m. split_and!; try done.
  - by destruct Ht as (ds & _ & _ & _ & ?).
  - by apply (hm_collect klt hash).
Qed.

(** merge adds the other map's entries over one's own. *)
Theorem hashmap_merge {K V} (klt : K → K → bool) (hash : K → Z) `{!EqDecision K, !Countable K, !KeyOrder klt}
    (t oth : table K V unit) (m mo : gmap K V) (Ht : Rep klt hash t m) (Ho : Rep klt hash oth mo)
    (Hsize : Z.of_nat (size m + size mo) < 2 ^ 31) :
  ∃ t', hm_merge klt hash oth t = Ret tt t' ∧ Rep klt hash t' (mo ∪ m).
Proof. by apply hm_merge_spec. Qed.

(** After clear() no operation on a key is defined any more: the bucket
    count is 0 and is divided by. *)
Theorem hashmap_clear_unusable {K V} (klt : K → K → bool) (hash : K → Z) (t : table K V unit) (k : K) (v : V) :
  ∃ t', hm_clear t = Ret tt t' ∧ hm_getTotal t' = 0 ∧
    hm_get klt hash k t' = Stuck DivByZero ∧ hm_exists klt hash k t' = Stuck DivByZero ∧
    hm_set klt hash k v t' = Stuck DivByZero ∧ hm_del klt hash k t' = Stuck DivByZero.
Proof. eexists. by split_and!. Qed.

Section files.
Context {K V : Type} (klt : K → K → bool) (hash : K → Z).
Context `{!EqDecision K, !Countable K, !KeyOrder klt, !Pod (K * V)} (host : endian).
Implicit Types (t : table K V unit) (m : gmap K V).

Definition file_image (size : Z) (ns : list (K * V)) : list byte :=
  word_image host size ++ word_image host (Z.of_nat (length ns * sizeof (K * V))) ++ images ns.

Lemma hm_writeTo_spec t m speed os : Rep klt hash t m →
  ∃ ns, ns ≡ₚ map_to_list m ∧
    hm_writeTo host speed os t = Ret (os_good (os_write (file_image (m_size t) ns) os), os_write (file_image (m_size t) ns) os) t.
Proof.
  intros Hr. destruct (hm_collect klt hash t m Hr) as (ns & Hc & Hp). exists ns. split; [done|].
  unfold hm_writeTo. rewrite Hc, write_raw_eq. by rewrite !os_write_app.
Qed.

Lemma hm_readFrom_spec t0 size ns m mem speed rest :
  0 < size → (size | 2 ^ 32) → in_u 64 size → ns ≡ₚ map_to_list m → in_u 64 (Z.of_nat (length ns * sizeof (K * V))) →
  size ≤ mem → Z.of_nat (length ns * sizeof (K * V)) ≤ mem →
  ∃ t, hm_readFrom klt hash host mem speed (mkIn (file_image size ns ++ rest) true) t0 = Ret (true, mkIn rest true) t ∧
    m_size t = size ∧ Rep klt hash t m.
Proof.
  intros H0 Hdv Hsz Hp Hn Hm1 Hm2. unfold hm_readFrom, file_image. rewrite <- !(assoc_L (++)).
  rewrite (ReadFix_prefix 8) by apply length_word_image. cbn [negb m_size m_total].
  rewrite (ReadFix_prefix 8) by apply length_word_image. cbn [negb].
  rewrite !word_over_image by done. pose proof (sizeof_pos (A := K * V)) as Hs.
  rewrite Nat2Z.id, Nat2Z.inj_mul, Z.div_mul by lia.
  destruct (Z.ltb_spec mem (Z.of_nat (length ns) * Z.of_nat (sizeof (K * V)))); [lia|].
  rewrite read_raw_eq, ReadFix_prefix by apply length_images. rewrite length_images, Nat2Z.inj_mul, Z.ltb_irrefl. cbn [negb].
  destruct (Z.ltb_spec mem size); [lia|]. rewrite Nat2Z.id.
  rewrite <- (app_nil_r (images ns)), values_images.
  destruct (distribute_spec klt hash size ns H0 Hdv) as (ds & -> & Hok & Hc); [rewrite Hp; apply NoDup_fst_map_to_list|].
  eexists. split; [done|]. split; [done|]. exists ds. cbn. split_and!; [done..| |].
  - by rewrite Hc.
  - rewrite Hp, length_map_to_list. done.
Qed.

(** A failed readFrom leaves no buckets. *)
Lemma hm_readFrom_false t0 mem speed inp inp' t :
  hm_readFrom klt hash host mem speed inp t0 = Ret (false, inp') t → m_datas t = None.
Proof. unfold hm_readFrom. intros H. repeat case_match; simplify_eq; done. Qed.
Lemma locate_null t k : m_datas t = None → ∃ r, locate klt hash k t = Stuck r.
Proof. intros Hd. unfold locate. rewrite Hd. case_match; eauto. Qed.

(** Reading [n] bytes of a file cut inside or before them. *)
Lemma ReadFix_cut n bs rest j : length bs = n → (j < length (bs ++ rest))%nat →
  (∃ l, ReadFixFromStream n (mkIn (take j (bs ++ rest)) true) = Some (false, l, mkIn [] false)) ∧ (length (take j (bs ++ rest)) < n)%nat ∨
  ReadFixFromStream n (mkIn (take j (bs ++ rest)) true) = Some (true, bs, mkIn (take (j - n) rest) true) ∧ (j - n < length rest)%nat.
Proof.
  intros <- Hj. rewrite length_app in Hj. destruct (decide (length bs ≤ j)%nat) as [Hle|Hgt].
  - right. rewrite take_app_ge, ReadFix_prefix by done. split; [done|lia].
  - left. assert (length (take j (bs ++ rest)) < length bs)%nat by (rewrite length_take, length_app; lia).
    rewrite ReadFix_short by done. eauto.
Qed.
Lemma hm_readFrom_cut t0 size ns mem speed j :
  in_u 64 (Z.of_nat (length ns * sizeof (K * V))) → (j < length (file_image size ns))%nat →
  ∃ inp t, hm_readFrom klt hash host mem speed (mkIn (take j (file_image size ns)) true) t0 = Ret (false, inp) t.
Proof.
  intros Hn Hj. unfold hm_readFrom, file_image in *.
  destruct (ReadFix_cut 8 _ _ j (length_word_image host size) Hj) as [[(l & ->) _]|[-> Hj1]]; [cbn; eauto|]. cbn [negb].
  destruct (ReadFix_cut 8 _ _ _ (length_word_image _ _) Hj1) as [[(l & ->) _]|[-> Hj2]]; [cbn; eauto|]. cbn [negb].
  rewrite word_over_image by done. destruct (mem <? _); [eauto|].
  pose proof (sizeof_pos (A := K * V)) as Hs. rewrite read_raw_eq, Nat2Z.id, Nat2Z.inj_mul, Z.div_mul by lia.
  rewrite ReadFix_short by (rewrite length_images in Hj2; rewrite length_take, length_images; lia).
  destruct (Z.ltb_spec (Z.of_nat (length ns) * Z.of_nat (sizeof (K * V))) (Z.of_nat (length (take (j - 8 - 8) (images ns))))) as [Hlt|_].
  { rewrite length_take, length_images in Hlt. lia. }
  cbn. eauto.
Qed.
End files.

(** The file format: writeTo stores a file readFrom turns back into the same
    map with the same bucket count, whatever the map read into and the speed
    limits. A file cut anywhere is refused, and the map read into has lost
    its buckets: every later lookup is undefined. *)
Theorem hashmap_file {K V} (klt : K → K → bool) (hash : K → Z)
    `{!EqDecision K, !Countable K, !KeyOrder klt, !Pod (K * V)} (host : endian)
    (t : table K V unit) (m : gmap K V) (speed : Z) (d : list byte) (room : nat)
    (Ht : Rep klt hash t m) (Hbuckets : in_u 64 (m_size t)) (Hbytes : in_u 64 (Z.of_nat (size m * sizeof (K * V))))
    (Hroom : (16 + size m * sizeof (K * V) ≤ room)%nat) :
  ∃ bs, hm_writeTo host speed (mkOut d room true) t = Ret (true, mkOut (d ++ bs) (room - length bs) true) t ∧
    (∀ t0 rest speed' mem, m_size t ≤ mem → Z.of_nat (size m * sizeof (K * V)) ≤ mem →
      ∃ t', hm_readFrom klt hash host mem speed' (mkIn (bs ++ rest) true) t0 = Ret (true, mkIn rest true) t' ∧
        m_size t' = m_size t ∧ Rep klt hash t' m) ∧
    (∀ t0 speed' mem j, (j < length bs)%nat →
      ∃ inp t', hm_readFrom klt hash host mem speed' (mkIn (take j bs) true) t0 = Ret (false, inp) t' ∧
        ∀ k, ∃ r, hm_get klt hash k t' = Stuck r).
Proof.
  destruct (hm_writeTo_spec klt hash host t m speed (mkOut d room true) Ht) as (ns & Hp & Hw).
  assert (length ns = size m) as Hlen by (by rewrite Hp, length_map_to_list).
  assert (length (file_image host (m_size t) ns) = 16 + length ns * sizeof (K * V))%nat as Hfile
    by (unfold file_image; rewrite !length_app, !length_word_image, length_images; lia).
  exists (file_image host (m_size t) ns). split_and!.
  - rewrite Hw. unfold os_write. cbn [os_good os_room os_data]. rewrite Hfile, Hlen.
    destruct (Nat.leb_spec (16 + size m * sizeof (K * V)) room); [done|lia].
  - intros t0 rest speed' mem Hm1 Hm2. destruct (id Ht) as (ds & _ & (H0 & _ & Hdv & _) & _).
    apply hm_readFrom_spec; rewrite ?Hlen; done.
  - intros t0 speed' mem j Hj.
    destruct (hm_readFrom_cut klt hash host t0 (m_size t) ns mem speed' j) as (inp & t' & He); [by rewrite Hlen|done|].
    exists inp, t'. split; [done|]. intros k. apply hm_readFrom_false in He.
    destruct (locate_null klt hash t' k He) as [r Hl]. exists r. unfold hm_get. by rewrite (cbind_Stuck _ _ _ _ Hl).
Qed.

(** ** Examples *)
Definition bool_byte_image (p : bool * byte) : list byte := [if p.1 then x01 else x00; p.2].
Definition bool_byte_value (bs : list byte) : bool * byte :=
  match bs with [k; v] => (bool_decide (k = x01), v) | _ => (false, x00) end.
#[export] Instance pod_bool_byte : Pod (bool * byte).
Proof.
  refine {| sizeof := 2; image := bool_byte_image; value_of := bool_byte_value |}; [lia|done|by intros [[] v]].
Defined.

Definition hash_ex (k : bool) : Z := if k then 7 else 3.
Definition table_ex : table bool byte unit :=
  default (mkTable 0 0 None tt)
    (t ← hm_new 1; match hm_set bool_lt hash_ex true x2a t with Ret _ t' => Some t' | _ => None end).
Lemma table_ex_rep : Rep bool_lt hash_ex table_ex {[true := x2a]}.
Proof.
  destruct (Rep_new (P := byte) bool_lt hash_ex 1 tt (mkTable 2 0 (Some [[]; []]) tt)) as [Hr _]; [lia|done|].
  destruct (hm_set_spec bool_lt hash_ex _ _ true x2a Hr) as (t' & He & Hr'); [done|].
  assert (t' = table_ex) as ->; [|done]. vm_compute in He. injection He as <-. reflexivity.
Qed.

Definition hops_ex : list (hop bool byte) :=
  [HSet true x01; HSet false x02; HDel true; HMerge 3 [(true, x03); (false, x04)]; HGet false; HSwap 1 [(true, x05)]; HGet true].
Lemma hashmap_refines_map_witness :
  ∃ t0 t rs m, hm_new 1 = Some t0 ∧ hm_run bool_lt hash_ex hops_ex t0 = Ret rs t ∧ map_run hops_ex ∅ = (rs, m) ∧
    hm_getTotal t = Z.of_nat (size m) ∧ Rep bool_lt hash_ex t m ∧
    ∃ ns, hm_rforeach (λ k v ns, (true, ns ++ [(k, v)])) [] t = Ret ns t ∧ ns ≡ₚ map_to_list m.
Proof.
  apply (hashmap_refines_map bool_lt hash_ex 1 hops_ex).
  - lia.
  - repeat (apply Forall_cons_2; [first [exact I | cbn; lia]|]). apply Forall_nil_2.
  - vm_compute. discriminate.
Defined.
Lemma hashmap_merge_witness :
  ∃ t', hm_merge bool_lt hash_ex table_ex table_ex = Ret tt t' ∧
    Rep bool_lt hash_ex t' ({[true := x2a]} ∪ {[true := x2a]}).
Proof.
  apply (hashmap_merge bool_lt hash_ex table_ex table_ex {[true := x2a]} {[true := x2a]});
    [apply table_ex_rep..|reflexivity].
Defined.
Lemma hashmap_file_witness :
  ∃ bs, hm_writeTo LittleEndian 1000 (mkOut [] 100 true) table_ex = Ret (true, mkOut ([] ++ bs) (100 - length bs) true) table_ex ∧
    (∀ t0 rest speed' mem, m_size table_ex ≤ mem → Z.of_nat (size ({[true := x2a]} : gmap bool byte) * sizeof (bool * byte)) ≤ mem →
      ∃ t', hm_readFrom bool_lt hash_ex LittleEndian mem speed' (mkIn (bs ++ rest) true) t0 = Ret (true, mkIn rest true) t' ∧
        m_size t' = m_size table_ex ∧ Rep bool_lt hash_ex t' {[true := x2a]}) ∧
    (∀ t0 speed' mem j, (j < length bs)%nat →
      ∃ inp t', hm_readFrom bool_lt hash_ex LittleEndian mem speed' (mkIn (take j bs) true) t0 = Ret (false, inp) t' ∧
        ∀ k, ∃ r, hm_get bool_lt hash_ex k t' = Stuck r).
Proof.
  apply (hashmap_file bool_lt hash_ex LittleEndian table_ex {[true := x2a]} 1000 [] 100).
  - apply table_ex_rep.
  - vm_compute. by split.
  - vm_compute. by split.
  - vm_compute. lia.
Defined.

(** A map built with the default size 0 is undefined from the start, and a
    file whose announced size is not a multiple of a node's overruns the
    vector it is read into. *)
Lemma hashmap_default_undefined K V : hm_new (K := K) (V := V) 0 = None.
Proof. done. Qed.
Lemma hashmap_file_overrun t0 :
  hm_readFrom bool_lt hash_ex LittleEndian 1000 NO_LIMIT
    (mkIn (word_image LittleEndian 2 ++ word_image LittleEndian 3 ++ [x01; x02; x03]) true) t0 = Stuck OutOfBounds.
Proof. by destruct t0. Qed.

(** The lookups cut the hash to 32 bits, readFrom and rehash do not: in a file
    whose bucket count is not a power of two a key whose hash needs more than
    32 bits is put where no lookup finds it. *)
Lemma hashmap_hash_cut t0 :
  ∃ t inp, hm_readFrom bool_lt (λ _, 2 ^ 32 + 1) LittleEndian 1000 NO_LIMIT
      (mkIn (word_image LittleEndian 3 ++ word_image LittleEndian 2 ++ [x01; x2a]) true) t0 = Ret (true, inp) t ∧
    hm_getTotal t = 1 ∧ hm_get bool_lt (λ _, 2 ^ 32 + 1) true t = Ret None t ∧
    hm_rforeach (λ k v ns, (true, ns ++ [(k, v)])) [] t = Ret [(true, x2a)] t.
Proof.
  eexists _, _. split; [destruct t0; vm_compute; reflexivity|]. split; [reflexivity|]. split; vm_compute; reflexivity.
Qed.
