(* ===== verification/ValueTable.v ===== *)
(** * Tables of arrays (Sylar/DataStructure/dict.h, hash_multimap.h)

    What Dict and HashMultimap share: a node of the bucket table carries a
    size and a pointer to an array, either allocated for the node or inside
    m_values, the pool readFrom loads all arrays of a file into. *)
From Stdlib Require Import ZArith Lia Strings.Byte.
From stdpp Require Import base list sorting list_numbers numbers gmap.
From S2P Require Import Prelude ByteArray OrderedSet SortedVec Table PodStream.

Local Open Scope Z_scope.

(** A non-null V*: an array of its own, or a position in m_values. *)
Inductive vptr (V : Type) := Heap (l : list V) | Pool (off : nat).
Arguments Heap {V}.
Arguments Pool {V}.
Record vnode (V : Type) := mkV { v_size : Z; v_val : vptr V }.
Arguments mkV {V}.
Arguments v_size {V}.
Arguments v_val {V}.
(** The members besides the table; only HashMultimap has m_elements. *)
Record pool (V : Type) := mkPool { m_elements : Z; m_values : list V }.
Arguments mkPool {V}.
Arguments m_elements {V}.
Arguments m_values {V}.

Section arrays.
Context {K V : Type} (klt : K → K → bool) (hash : K → Z).
#[local] Abbreviation vtable := (table K (vnode V) (pool V)).
Implicit Types (k : K) (l : list V) (n : vnode V) (r : pool V) (t : vtable).

(** The [v_size] elements at a pointer. *)
Definition contents r n : option (list V) :=
  let size := Z.to_nat (v_size n) in
  match v_val n with
  | Heap l => if (size <=? length l)%nat then Some (take size l) else None
  | Pool off => if (off + size <=? length (m_values r))%nat then Some (take size (drop off (m_values r))) else None
  end.
Definition read_val n : M vtable (list V) := λ t,
  match contents (m_rest t) n with Some l => Ret l t | None => Stuck OutOfBounds end.

(** inValues(ptr), the pointer not null *)
Definition inValues (p : vptr V) r : bool :=
  match p with
  | Heap _ => false
  | Pool off => negb (bool_decide (m_values r = [])) && (Z.of_nat off <=? Z.of_nat (length (m_values r)) - 1)
  end.
(** if(!inValues(p)) delete[] p: only an array of its own may be deleted. *)
Definition free_val (p : vptr V) : M vtable unit := λ t,
  if inValues p (m_rest t) then Ret tt t
  else match p with Heap _ => Ret tt t | Pool _ => Stuck OutOfBounds end.
(** memcpy(it->val, v, size) *)
Definition store_val (pos : nat) (b : list (K * vnode V)) (i : nat) (x : K * vnode V) l : M vtable unit :=
  match v_val (snd x) with
  | Heap l0 =>
    if (length l <=? length l0)%nat
    then put_bucket pos (<[i := (fst x, mkV (v_size (snd x)) (Heap (overwrite l0 0 l)))]> b)
    else cstuck OutOfBounds
  | Pool off => λ t,
    if (off + length l <=? length (m_values (m_rest t)))%nat
    then Ret tt (set_rest (mkPool (m_elements (m_rest t)) (overwrite (m_values (m_rest t)) off l)) t)
    else Stuck OutOfBounds
  end.
(** The node gets a new array: the old one is freed. *)
Definition replace_val (pos : nat) (b : list (K * vnode V)) (i : nat) (x : K * vnode V) l : M vtable unit :=
  let! _ := free_val (v_val (snd x)) in
  put_bucket pos (<[i := (fst x, mkV (i32 (Z.of_nat (length l))) (Heap l))]> b).
Definition add_elements (z : Z) : M vtable unit :=
  cmodify (λ t, set_rest (mkPool (u64 (m_elements (m_rest t) + z)) (m_values (m_rest t))) t).
(** The node at a position that a search returned. *)
Definition node_at (b : list (K * vnode V)) (i : nat) : M vtable (K * vnode V) :=
  match b !! i with Some x => cret x | None => cstuck OutOfBounds end.

(** freeDatas: every array that is not in the pool, then the buckets. Of a
    HashMultimap ([multi]) nodes without elements are passed over. *)
Fixpoint free_all (multi : bool) (ns : list (K * vnode V)) : M vtable unit :=
  match ns with
  | [] => cret tt
  | x :: ns =>
    let! _ := if multi && (v_size (snd x) =? 0) then cret tt else free_val (v_val (snd x)) in
    free_all multi ns
  end.
Definition freeDatas (multi : bool) : M vtable unit := λ t,
  match m_datas t with
  | None => Ret tt t
  | Some ds => (let! _ := free_all multi (concat ds) in cmodify (set_datas None)) t
  end.

(** ** The map of arrays *)
Context `{!EqDecision K, !Countable K, !KeyOrder klt}.

Definition apart (n1 n2 : vnode V) : Prop :=
  match v_val n1, v_val n2 with
  | Pool o1, Pool o2 => (o1 + Z.to_nat (v_size n1) ≤ o2 ∨ o2 + Z.to_nat (v_size n2) ≤ o1)%nat
  | _, _ => True
  end.
Definition array_ok r n : Prop :=
  (∃ l, contents r n = Some l ∧ v_size n = Z.of_nat (length l)) ∧ v_size n < 2 ^ 31 ∧
  match v_val n with Heap l => v_size n = Z.of_nat (length l) | Pool _ => 0 < v_size n end.
(** The table stands for [m]: each node's array is its value, and the parts
    of the pool do not overlap. *)
Definition Arrays r (pm : gmap K (vnode V)) (m : gmap K (list V)) : Prop :=
  (∀ k, m !! k = pm !! k ≫= contents r) ∧ (∀ k n, pm !! k = Some n → array_ok r n) ∧
  (∀ k1 k2 n1 n2, k1 ≠ k2 → pm !! k1 = Some n1 → pm !! k2 = Some n2 → apart n1 n2).
Definition View t (m : gmap K (list V)) : Prop := ∃ pm, Rep klt hash t pm ∧ Arrays (m_rest t) pm m.

Lemma Arrays_lookup r pm m k n : Arrays r pm m → pm !! k = Some n →
  ∃ l, m !! k = Some l ∧ contents r n = Some l ∧ v_size n = Z.of_nat (length l) ∧ Z.of_nat (length l) < 2 ^ 31.
Proof.
  intros (Hm & Hok & _) Hn. destruct (Hok k n Hn) as ((l & Hc & Hs) & Hlt & _).
  exists l. rewrite Hm, Hn. cbn. split_and!; [done..|lia].
Qed.
Lemma Arrays_dom r pm m k : Arrays r pm m → m !! k = None ↔ pm !! k = None.
Proof.
  intros Ha. destruct (pm !! k) as [n|] eqn:E.
  - destruct (Arrays_lookup _ _ _ _ _ Ha E) as (l & -> & _). done.
  - destruct Ha as (Hm & _). by rewrite Hm, E.
Qed.
Lemma Arrays_size r pm m : Arrays r pm m → size pm = size m.
Proof.
  intros Ha. rewrite <- !size_dom. f_equal. apply set_eq. intros k. rewrite !elem_of_dom, <- !not_eq_None_Some.
  by rewrite (Arrays_dom r pm m).
Qed.
Lemma View_size t m : View t m → m_total t = Z.of_nat (size m).
Proof. intros (pm & (ds & _ & _ & _ & ->) & Ha). f_equal. by eapply Arrays_size. Qed.

(** The laws of the four changes. *)
Lemma Arrays_heap r pm m k l : Arrays r pm m → Z.of_nat (length l) < 2 ^ 31 →
  Arrays r (<[k := mkV (Z.of_nat (length l)) (Heap l)]> pm) (<[k := l]> m).
Proof.
  intros (Hm & Hok & Hd) Hl. split_and!.
  - intros k'. destruct (decide (k' = k)) as [->|Hn].
    + rewrite !lookup_insert_eq. cbn. unfold contents. cbn. rewrite Nat2Z.id, Nat.leb_refl. by rewrite firstn_all.
    + by rewrite !lookup_insert_ne by done.
  - intros k' n. destruct (decide (k' = k)) as [->|Hn].
    + rewrite lookup_insert_eq. intros [= <-]. split_and!; cbn; [|done..]. exists l. split; [|done].
      unfold contents. cbn. by rewrite Nat2Z.id, Nat.leb_refl, firstn_all.
    + rewrite lookup_insert_ne by done. apply Hok.
  - intros k1 k2 n1 n2 Hne.
    destruct (decide (k1 = k)) as [->|], (decide (k2 = k)) as [->|]; [done|..];
      rewrite ?lookup_insert_eq, ?lookup_insert_ne by done; intros; simplify_eq; unfold apart; cbn; try done.
    + by case_match.
    + by apply (Hd k1 k2 n1 n2).
Qed.
Lemma Arrays_delete r pm m k : Arrays r pm m → Arrays r (delete k pm) (delete k m).
Proof.
  intros (Hm & Hok & Hd). split_and!.
  - intros k'. destruct (decide (k' = k)) as [->|Hn]; [by rewrite !lookup_delete_eq|].
    by rewrite !lookup_delete_ne by done.
  - intros k' n [_ Hn]%lookup_delete_Some. by eapply Hok.
  - intros k1 k2 n1 n2 Hne [_ H1]%lookup_delete_Some [_ H2]%lookup_delete_Some. by eapply Hd.
Qed.
(** memcpy into the part of the pool a node owns. *)
Lemma Arrays_pool r pm m k n off l l0 : Arrays r pm m → pm !! k = Some n → v_val n = Pool off →
  m !! k = Some l0 → length l = length l0 →
  (off + length l ≤ length (m_values r))%nat ∧
  Arrays (mkPool (m_elements r) (overwrite (m_values r) off l)) pm (<[k := l]> m).
Proof.
  intros Ha Hn Hv Hl0 Hlen. destruct (Arrays_lookup _ _ _ _ _ Ha Hn) as (l' & Hl' & Hc & Hs & Hlt). simplify_eq.
  destruct Ha as (Hm & Hok & Hd).
  assert (off + length l ≤ length (m_values r))%nat as Hin.
  { unfold contents in Hc. rewrite Hv, Hs, Nat2Z.id in Hc. case_match; [|done].
    rewrite Hlen. by apply Nat.leb_le. }
  split; [done|].
  assert (∀ k' n', k' ≠ k → pm !! k' = Some n' →
    contents (mkPool (m_elements r) (overwrite (m_values r) off l)) n' = contents r n') as Hother.
  { intros k' n' Hne Hn'. unfold contents. destruct (v_val n') as [|off'] eqn:Hv'; [done|]. cbn.
    rewrite length_overwrite by done. case_match; [|done]. f_equal.
    pose proof (Hd k' k n' n Hne Hn' Hn) as Hap. unfold apart in Hap. rewrite Hv, Hv', Hs, Nat2Z.id in Hap.
    assert (off' + Z.to_nat (v_size n') ≤ length (m_values r))%nat by (by apply Nat.leb_le).
    apply list_eq. intros i. destruct (decide (i < Z.to_nat (v_size n'))%nat);
      [|by rewrite !lookup_take_ge by lia]. rewrite !lookup_take_lt, !lookup_drop by lia.
    unfold overwrite. destruct Hap.
    - rewrite lookup_app_l by (rewrite length_take; lia). by rewrite lookup_take_lt by lia.
    - rewrite lookup_app_r, lookup_app_r by (rewrite length_take; lia).
      rewrite lookup_drop, length_take. f_equal. lia. }
  assert (contents (mkPool (m_elements r) (overwrite (m_values r) off l)) n = Some l) as Hown.
  { unfold contents. rewrite Hv, Hs, Nat2Z.id. cbn. rewrite length_overwrite, <- Hlen by done.
    rewrite (proj2 (Nat.leb_le _ _) Hin). f_equal. apply slice_overwrite. lia. }
  split_and!.
  - intros k'. destruct (decide (k' = k)) as [->|Hne].
    + rewrite lookup_insert_eq, Hn. by cbn.
    + rewrite lookup_insert_ne, Hm by done. destruct (pm !! k') as [n'|] eqn:E; [|done]. cbn. symmetry. by apply (Hother k').
  - intros k' n' Hn'. pose proof (Hok k' n' Hn') as (Hex & Hlt' & Hm').
    destruct (decide (k' = k)) as [->|Hne].
    + simplify_eq. split_and!; [|done..]. exists l. split; [done|]. by rewrite Hs, Hlen.
    + split_and!; [|done..]. by rewrite (Hother k' n').
  - done.
Qed.
Lemma Arrays_elements r r' pm m : m_values r' = m_values r → Arrays r pm m → Arrays r' pm m.
Proof.
  intros Hv. assert (∀ n, contents r' n = contents r n) as Hc by (intros n; unfold contents; by rewrite Hv).
  intros (Hm & Hok & Hd). split_and!; [|intros k n Hn; destruct (Hok k n Hn) as (? & ? & ?)|done].
  - intros k. rewrite Hm. destruct (pm !! k); cbn; by rewrite ?Hc.
  - split_and!; [|done..]. by rewrite Hc.
Qed.
Lemma free_val_ok t pm m k n : Arrays (m_rest t) pm m → pm !! k = Some n → free_val (v_val n) t = Ret tt t.
Proof.
  intros (_ & Hok & _) Hn. destruct (Hok k n Hn) as ((l & Hc & Hs) & _ & Hv).
  unfold free_val, contents in *. destruct (v_val n) as [l'|off] eqn:E; [done|]. case_match; [|done].
  assert (off + Z.to_nat (v_size n) ≤ length (m_values (m_rest t)))%nat by (by apply Nat.leb_le).
  unfold inValues. destruct (m_values (m_rest t)) as [|y ys]; cbn [length] in *; [lia|].
  rewrite (proj2 (Z.leb_le _ _)) by lia. done.
Qed.

Lemma View_locate t m k : View t m →
  ∃ pm ds pos b it, locate klt hash k t = Ret (pos, b, it) t ∧ m_datas t = Some ds ∧ ds !! pos = Some b ∧
    pos = Z.to_nat (hash k mod m_size t) ∧ Rep klt hash t pm ∧ Arrays (m_rest t) pm m ∧
    match m !! k with
    | None => it = None ∧ pm !! k = None
    | Some l => ∃ i n, it = Some i ∧ b !! i = Some (k, n) ∧ pm !! k = Some n ∧ contents (m_rest t) n = Some l ∧
        v_size n = Z.of_nat (length l) ∧ Z.of_nat (length l) < 2 ^ 31
    end.
Proof.
  intros (pm & Hr & Ha). destruct (locate_spec klt hash t pm k Hr) as (ds & pos & b & it & Hl & Hd & Hb & Hpos & Hm).
  exists pm, ds, pos, b, it. split_and!; [done..|]. destruct (pm !! k) as [n|] eqn:E.
  - destruct (Arrays_lookup _ _ _ _ _ Ha E) as (l & -> & Hc & Hs & Hlt). destruct Hm as (i & -> & Hi).
    by exists i, n.
  - rewrite (proj2 (Arrays_dom _ _ _ _ Ha) E). by destruct Hm as [-> _].
Qed.

Lemma node_at_spec (b : list (K * vnode V)) i x t : b !! i = Some x → node_at b i t = Ret x t.
Proof. intros Hi. unfold node_at. by rewrite Hi. Qed.
Lemma read_val_spec n l t : contents (m_rest t) n = Some l → read_val n t = Ret l t.
Proof. intros Hc. unfold read_val. by rewrite Hc. Qed.

(** The steps, at the place a search gave. *)
Lemma View_push t m pm ds b k l : Rep klt hash t pm → Arrays (m_rest t) pm m → m_datas t = Some ds →
  pm !! k = None → Z.of_nat (size m) < 2 ^ 64 - 1 → Z.of_nat (length l) < 2 ^ 31 →
  let pos := Z.to_nat (hash k mod m_size t) in ds !! pos = Some b →
  ∃ t', push_node klt pos b (k, mkV (i32 (Z.of_nat (length l))) (Heap l)) t = Ret tt t' ∧
    View t' (<[k := l]> m) ∧ m_rest t' = m_rest t.
Proof.
  intros Hr Ha Hd Hk Hsz Hl pos Hb. rewrite (swrap_small 32) by lia.
  destruct (Rep_push klt hash t pm ds b k (mkV (Z.of_nat (length l)) (Heap l))) as (t' & He & Hr' & Hx);
    [done..|rewrite (Arrays_size _ _ _ Ha); lia|done|].
  exists t'. split; [done|]. split; [|done]. eexists. split; [exact Hr'|]. rewrite Hx. by apply Arrays_heap.
Qed.
Lemma View_replace t m pm ds b i k n l : Rep klt hash t pm → Arrays (m_rest t) pm m → m_datas t = Some ds →
  pm !! k = Some n → Z.of_nat (length l) < 2 ^ 31 →
  let pos := Z.to_nat (hash k mod m_size t) in ds !! pos = Some b → b !! i = Some (k, n) →
  ∃ t', replace_val pos b i (k, n) l t = Ret tt t' ∧ View t' (<[k := l]> m) ∧ m_rest t' = m_rest t.
Proof.
  intros Hr Ha Hd Hk Hl pos Hb Hi. unfold replace_val. rewrite (swrap_small 32) by lia.
  rewrite (cbind_Ret _ _ _ _ _ (free_val_ok t pm m k n Ha Hk)).
  eexists. split; [done|]. split; [|done]. unfold set_datas. rewrite Hd.
  eexists. split; [by apply (Rep_update klt hash t pm ds b i k n)|]. by apply Arrays_heap.
Qed.
Lemma View_store t m pm ds b i k n l l0 : Rep klt hash t pm → Arrays (m_rest t) pm m → m_datas t = Some ds →
  pm !! k = Some n → m !! k = Some l0 → length l = length l0 →
  let pos := Z.to_nat (hash k mod m_size t) in ds !! pos = Some b → b !! i = Some (k, n) →
  ∃ t', store_val pos b i (k, n) l t = Ret tt t' ∧ View t' (<[k := l]> m) ∧
    m_elements (m_rest t') = m_elements (m_rest t).
Proof.
  intros Hr Ha Hd Hk Hl0 Hlen pos Hb Hi. unfold store_val. cbn [fst snd].
  destruct (Arrays_lookup _ _ _ _ _ Ha Hk) as (l1 & Hl1 & Hc & Hs & Hlt). simplify_eq.
  destruct (v_val n) as [h|off] eqn:Hv.
  - destruct (proj1 (proj2 Ha) k n Hk) as (_ & _ & Hh). rewrite Hv, Hs in Hh.
    assert (length h = length l) as Hhl by lia. rewrite Hhl, Nat.leb_refl.
    eexists. split; [done|]. split; [|done]. unfold set_datas. rewrite Hd. cbn [fmap option_fmap option_map].
    replace (overwrite h 0 l) with l by (unfold overwrite; cbn; rewrite drop_ge, app_nil_r by lia; done).
    rewrite Hs, <- Hlen. eexists. split; [by apply (Rep_update klt hash t pm ds b i k n)|].
    apply Arrays_heap; [done|lia].
  - destruct (Arrays_pool _ _ _ k n off l l0 Ha Hk Hv Hl0 Hlen) as [Hin Ha'].
    rewrite (proj2 (Nat.leb_le _ _) Hin). eexists. split; [done|]. split; [|done].
    exists pm. split; [|done]. destruct Hr as (ds' & ? & ? & ? & ?). by exists ds'.
Qed.
Lemma View_remove t m pm ds b i k n : Rep klt hash t pm → Arrays (m_rest t) pm m → m_datas t = Some ds →
  Z.of_nat (size m) < 2 ^ 64 →
  let pos := Z.to_nat (hash k mod m_size t) in ds !! pos = Some b → b !! i = Some (k, n) →
  ∃ t', remove_node klt pos b i t = Ret tt t' ∧ View t' (delete k m) ∧ m_rest t' = m_rest t.
Proof.
  intros Hr Ha Hd Hsz pos Hb Hi.
  destruct (Rep_remove klt hash t pm ds b i k n) as (t' & He & Hr' & Hx);
    [done..|rewrite (Arrays_size _ _ _ Ha); lia|done|done|].
  exists t'. split; [done|]. split; [|done]. eexists. split; [exact Hr'|]. rewrite Hx. by apply Arrays_delete.
Qed.
Lemma View_elements t m z : View t m → View (set_rest (mkPool z (m_values (m_rest t))) t) m.
Proof.
  intros (pm & (ds & ? & ? & ? & ?) & Ha). exists pm. split; [by exists ds|]. by apply (Arrays_elements (m_rest t)).
Qed.
Lemma View_rehash t m : View t m → Z.of_nat (size m) < 2 ^ 31 →
  ∃ t', rehash klt hash t = Ret tt t' ∧ View t' m ∧ m_rest t' = m_rest t.
Proof.
  intros (pm & Hr & Ha) Hsz.
  destruct (Rep_rehash klt hash t pm Hr) as (t' & He & Hr' & Hx); [by rewrite (Arrays_size _ _ _ Ha)|].
  exists t'. split; [done|]. split; [|done]. exists pm. by rewrite Hx.
Qed.
Lemma View_new (sz : Z) r t : 1 ≤ sz < 2 ^ 31 → table_new sz r = Some t → View t ∅ ∧ m_rest t = r.
Proof.
  intros Hn Ht. destruct (Rep_new klt hash sz r t Hn Ht) as [Hr Hx]. split; [|done]. exists ∅. split; [done|].
  split_and!; [done|by intros k ? ?|done].
Qed.
End arrays.

(** ** Files

    writeTo stores the bucket count, all arrays one after the other, and the
    nodes with the position of their array in place of the pointer. *)

(** The memory image of a node { K key; int size; V* val; }. *)
Class PodNode (K : Type) := {
  nsize : nat;
  nimage : K → Z → Z → list byte;
  nvalue : list byte → K * (Z * Z);
  nsize_pos : (0 < nsize)%nat;
  nimage_length k s o : length (nimage k s o) = nsize;
  nvalue_image k s o : in_s 32 s → in_u 64 o → nvalue (nimage k s o) = (k, (s, o))
}.
Arguments nsize K {_}.

Section files.
Context {K V : Type} (klt : K → K → bool) (hash : K → Z) `{!Pod V, !PodNode K, !Inhabited V} (host : endian).
#[local] Abbreviation vtable := (table K (vnode V) (pool V)).
Implicit Types (t : vtable) (r : pool V).

(** The loop that gathers the arrays [vs] and the nodes [ns]; HashMultimap
    leaves out nodes without elements. *)
Fixpoint gather (multi : bool) r (nodes : list (K * vnode V)) (vs : list V) (ns : list (K * (Z * Z)))
    : option (list V * list (K * (Z * Z))) :=
  match nodes with
  | [] => Some (vs, ns)
  | x :: nodes =>
    if multi && (v_size x.2 =? 0) then gather multi r nodes vs ns
    else
      match contents r x.2 with
      | None => None
      | Some l => gather multi r nodes (vs ++ l) (ns ++ [(x.1, (v_size x.2, Z.of_nat (length vs)))])
      end
  end.
Definition node_images (ns : list (K * (Z * Z))) : list byte := concat ((λ x, nimage x.1 x.2.1 x.2.2) <$> ns).
Fixpoint node_values (n : nat) (bs : list byte) : list (K * (Z * Z)) :=
  match n with
  | O => []
  | S n => nvalue (take (nsize K) bs) :: node_values n (drop (nsize K) bs)
  end.

Definition v_writeTo (multi : bool) (speed : Z) (os : ostream) : M vtable (bool * ostream) := λ t,
  let os := os_write (word_image host (m_size t)) os in
  match (match m_datas t with
         | Some ds => Some (concat (take (Z.to_nat (m_size t)) ds))
         | None => if m_size t =? 0 then Some [] else None
         end) with
  | None => Stuck NullDeref
  | Some nodes =>
    match gather multi (m_rest t) nodes [] [] with
    | None => Stuck OutOfBounds
    | Some (vs, ns) =>
      let os := os_write (word_image host (Z.of_nat (length vs * sizeof V))) os in
      match write_raw (images vs) speed os with
      | None => Stuck OutOfFuel
      | Some os =>
        let os := os_write (word_image host (Z.of_nat (length ns * nsize K))) os in
        match write_raw (node_images ns) speed os with
        | None => Stuck OutOfFuel
        | Some os => Ret (os_good os, os) t
        end
      end
    end
  end.

(** vs.resize(n), and the bytes read over it *)
Definition resized (n : nat) (vs : list V) : list V := take n vs ++ replicate (n - length vs) inhabitant.
Definition loaded (n : nat) (vs : list V) (got : list byte) : list V :=
  values_of n (overwrite (images (resized n vs)) 0 got).
(** n.val = &vs[0] + offset *)
Definition pooled (x : K * (Z * Z)) : K * vnode V := (x.1, mkV x.2.1 (Pool (Z.to_nat x.2.2))).
Definition total_size (ns : list (K * (Z * Z))) : Z := fold_left (λ z x, u64 (z + x.2.1)) ns 0.

(** A length word and that many bytes of elements of [unit] bytes each. *)
Definition read_block (unit : nat) (mem speed : Z) (inp : istream)
    : stuck + (bool * Z * bool * list byte * istream) :=
  match ReadFixFromStream 8 inp with
  | None => inl OutOfFuel
  | Some (ok, got, inp) =>
    if negb ok then inr (false, 0, false, [], inp)
    else
      let size := word_over host 0 got in
      if mem <? size then inr (false, 0, false, [], inp)
      else
        match read_raw (Z.to_nat size) speed inp with
        | None => inl OutOfFuel
        | Some (ok, got, inp) =>
          if size / Z.of_nat unit * Z.of_nat unit <? Z.of_nat (length got) then inl OutOfBounds
          else inr (true, size / Z.of_nat unit, ok, got, inp)
        end
  end.

(** readFrom; HashMultimap also sums the sizes. *)
Definition v_readFrom (multi : bool) (mem speed : Z) (inp : istream) : M vtable (bool * istream) :=
  let! _ := freeDatas multi in
  λ t,
  match ReadFixFromStream 8 inp with
  | None => Stuck OutOfFuel
  | Some (ok, got, inp) =>
    let t : vtable := mkTable (word_over host (m_size t) got) (m_total t) (m_datas t) (m_rest t) in
    if negb ok then Ret (false, inp) t
    else
      match read_block (sizeof V) mem speed inp with
      | inl e => Stuck e
      | inr (false, _, _, _, inp) => Ret (false, inp) t
      | inr (true, n, ok, got, inp) =>
        let r := mkPool (m_elements (m_rest t)) (loaded (Z.to_nat n) (m_values (m_rest t)) got) in
        let t : vtable := set_rest r t in
        if negb ok then Ret (false, inp) t
        else
          match read_block (nsize K) mem speed inp with
          | inl e => Stuck e
          | inr (false, _, _, _, inp) => Ret (false, inp) t
          | inr (true, n, ok, got, inp) =>
            if negb ok then Ret (false, inp) t
            else
              let ns := node_values (Z.to_nat n) got in
              let elements z := if multi then mkPool z (m_values r) else r in
              if mem <? m_size t then Ret (false, inp) (mkTable (m_size t) n None (elements 0))
              else
                match distribute klt hash (m_size t) (pooled <$> ns) with
                | None => Stuck DivByZero
                | Some ds => Ret (true, inp) (mkTable (m_size t) n (Some ds) (elements (total_size ns)))
                end
          end
      end
  end.

(** ** The file format read back *)
Context `{!EqDecision K, !Countable K, !KeyOrder klt}.

Lemma length_node_images (ns : list (K * (Z * Z))) : length (node_images ns) = (length ns * nsize K)%nat.
Proof.
  unfold node_images. induction ns as [|x ns IH]; cbn; [done|]. by rewrite length_app, nimage_length, IH.
Qed.
Lemma node_values_images (ns : list (K * (Z * Z))) rest : Forall (λ x, in_s 32 x.2.1 ∧ in_u 64 x.2.2) ns →
  node_values (length ns) (node_images ns ++ rest) = ns.
Proof.
  unfold node_images. induction 1 as [|[k [s o]] ns [Hs Ho] _ IH]; cbn; [done|].
  rewrite <- (assoc_L (++)), take_app_length', drop_app_length' by (by rewrite nimage_length).
  by rewrite nvalue_image, IH.
Qed.

(** The nodes of arrays laid out from [off]. *)
Fixpoint layout (off : nat) (es : list (K * list V)) : list (K * (Z * Z)) :=
  match es with
  | [] => []
  | (k, l) :: es => (k, (Z.of_nat (length l), Z.of_nat off)) :: layout (off + length l) es
  end.
Definition kept (multi : bool) (l : list V) : bool := negb (multi && bool_decide (l = [])).

Lemma layout_keys off es : (layout off es).*1 = es.*1.
Proof. revert off. induction es as [|[k l] es IH]; intros off; cbn; [done|]. by rewrite IH. Qed.
Lemma length_layout off es : length (layout off es) = length es.
Proof. revert off. induction es as [|[k l] es IH]; intros off; cbn; [done|]. by rewrite IH. Qed.
Lemma layout_elem off es k s o : (k, (s, o)) ∈ layout off es →
  ∃ l1 l l2, es = l1 ++ (k, l) :: l2 ∧ s = Z.of_nat (length l) ∧
    o = Z.of_nat (off + length (concat l1.*2)).
Proof.
  revert off. induction es as [|[k' l'] es IH]; intros off; cbn [layout]; [by intros ?%elem_of_nil|].
  intros [[= -> -> ->]|Hin]%elem_of_cons.
  - exists [], l', es. split_and!; [done..|]. cbn. lia.
  - destruct (IH _ Hin) as (l1 & l & l2 & -> & -> & ->). exists ((k', l') :: l1), l, l2. split_and!; [done..|].
    cbn. rewrite length_app. lia.
Qed.
Lemma layout_bounds off es k s o : (k, (s, o)) ∈ layout off es →
  Z.of_nat off ≤ o ∧ 0 ≤ s ∧ o + s ≤ Z.of_nat (off + length (concat es.*2)).
Proof.
  intros (l1 & l & l2 & -> & -> & ->)%layout_elem. rewrite fmap_app, fmap_cons, concat_app. cbn.
  rewrite !length_app. lia.
Qed.
Lemma layout_apart off es k1 k2 s1 s2 o1 o2 : k1 ≠ k2 → NoDup es.*1 →
  (k1, (s1, o1)) ∈ layout off es → (k2, (s2, o2)) ∈ layout off es → o1 + s1 ≤ o2 ∨ o2 + s2 ≤ o1.
Proof.
  intros Hne. revert off. induction es as [|[k l] es IH]; intros off; cbn [layout]; csimpl; [by intros ? ?%elem_of_nil|].
  intros [_ Hnd]%list.NoDup_cons [[= -> -> ->]|H1]%elem_of_cons [[= -> -> ->]|H2]%elem_of_cons; [done| | |by eapply IH].
  - apply layout_bounds in H2. lia.
  - apply layout_bounds in H1. lia.
Qed.
Lemma layout_arrays z es : NoDup es.*1 → Forall (λ x, x.2 ≠ [] ∧ Z.of_nat (length x.2) < 2 ^ 31) es →
  Arrays (mkPool z (concat es.*2)) (list_to_map (pooled <$> layout 0 es)) (list_to_map es).
Proof.
  intros Hnd Hes. assert (NoDup (pooled <$> layout 0 es).*1) as Hnd'.
  { rewrite <- list_fmap_compose. change (fst ∘ pooled) with (fst : K * (Z * Z) → K). by rewrite layout_keys. }
  assert (∀ k n, list_to_map (M := gmap K (vnode V)) (pooled <$> layout 0 es) !! k = Some n ↔
    ∃ s o, (k, (s, o)) ∈ layout 0 es ∧ n = mkV s (Pool (Z.to_nat o))) as Hpm.
  { intros k n. rewrite <- elem_of_list_to_map by done. rewrite list_elem_of_fmap. split.
    - intros ([k' [s o]] & [= -> ->] & Hin). eauto.
    - intros (s & o & Hin & ->). by exists (k, (s, o)). }
  assert (∀ k s o, (k, (s, o)) ∈ layout 0 es → ∃ l, (k, l) ∈ es ∧ s = Z.of_nat (length l) ∧ 0 < s < 2 ^ 31 ∧
    contents (mkPool z (concat es.*2)) (mkV s (Pool (Z.to_nat o))) = Some l) as Hc.
  { intros k s o Hin. destruct (layout_elem _ _ _ _ _ Hin) as (l1 & l & l2 & Hsplit & -> & ->). exists l.
    assert ((k, l) ∈ es) as Hkl by (rewrite Hsplit; set_solver).
    rewrite List.Forall_forall in Hes. destruct (Hes (k, l) (proj1 (list_elem_of_In _ _) Hkl)) as [Hne Hlt]. cbn in Hne, Hlt.
    split_and!; [done..|destruct l; cbn; [done|lia]|lia|].
    unfold contents. cbn [v_val v_size m_values]. rewrite Hsplit, fmap_app, fmap_cons, concat_app, !Nat2Z.id. cbn [snd concat].
    rewrite !length_app, (proj2 (Nat.leb_le _ _)) by lia. rewrite Nat.add_0_l, drop_app_length, take_app_length. done. }
  split_and!.
  - intros k. destruct (list_to_map (pooled <$> layout 0 es) !! k) as [n|] eqn:E.
    + apply Hpm in E as (s & o & Hin & ->). destruct (Hc k s o Hin) as (l & Hkl & _ & _ & Hcon). cbn [option_bind mbind].
      rewrite Hcon. by apply elem_of_list_to_map_1.
    + apply not_elem_of_list_to_map_2 in E. rewrite <- list_fmap_compose in E.
      change (fst ∘ pooled) with (fst : K * (Z * Z) → K) in E. rewrite layout_keys in E. by apply not_elem_of_list_to_map_1.
  - intros k n (s & o & Hin & ->)%Hpm. destruct (Hc k s o Hin) as (l & Hkl & Hs & Hlt & Hcon).
    split_and!; [by exists l|cbn; lia..].
  - intros k1 k2 n1 n2 Hne (s1 & o1 & H1 & ->)%Hpm (s2 & o2 & H2 & ->)%Hpm. unfold apart. cbn.
    destruct (layout_apart 0 es k1 k2 s1 s2 o1 o2 Hne Hnd H1 H2);
      apply layout_bounds in H1; apply layout_bounds in H2; lia.
Qed.

(** The file of the arrays [es], in order. *)
Definition vfile (size : Z) (es : list (K * list V)) : list byte :=
  word_image host size ++ word_image host (Z.of_nat (length (concat es.*2) * sizeof V)) ++ images (concat es.*2) ++
  word_image host (Z.of_nat (length es * nsize K)) ++ node_images (layout 0 es).

Lemma gather_spec multi r nodes vs ns :
  (∀ x, x ∈ nodes → ∃ l, contents r x.2 = Some l ∧ v_size x.2 = Z.of_nat (length l)) →
  let es := filter (λ e, kept multi e.2 = true) ((λ x, (x.1, default [] (contents r x.2))) <$> nodes) in
  gather multi r nodes vs ns = Some (vs ++ concat es.*2, ns ++ layout (length vs) es).
Proof.
  revert vs ns. induction nodes as [|[k n] nodes IH]; intros vs ns Hn; cbn [gather fmap list_fmap].
  { cbn. by rewrite !app_nil_r. }
  destruct (Hn (k, n) ltac:(left)) as (l & Hc & Hs). cbn [fst snd] in *. rewrite Hc, Hs. cbn [default id].
  assert ((Z.of_nat (length l) =? 0) = bool_decide (l = [])) as ->.
  { destruct l; [done|]. cbn [length]. rewrite bool_decide_eq_false_2 by done. apply Z.eqb_neq. lia. }
  destruct (multi && bool_decide (l = [])) eqn:Hk.
  - assert (kept multi l = false) as Hf by (unfold kept; by rewrite Hk).
    rewrite filter_cons_False by (cbn [snd]; by rewrite Hf). apply IH. intros x Hx. apply Hn. by right.
  - assert (kept multi l = true) as Hf by (unfold kept; by rewrite Hk).
    rewrite filter_cons_True by done. rewrite IH by (intros x Hx; apply Hn; by right).
    csimpl. rewrite length_app, <- !(assoc_L (++)). done.
Qed.

Lemma NoDup_fst_filter {B} (P : K * B → Prop) `{∀ x, Decision (P x)} (l : list (K * B)) :
  NoDup l.*1 → NoDup (filter P l).*1.
Proof.
  induction l as [|x l IH]; csimpl; [done|]. intros [Hx Hl]%list.NoDup_cons. rewrite filter_cons.
  case_decide; [|by apply IH]. csimpl. apply list.NoDup_cons. split; [|by apply IH].
  intros (y & Hy & [_ Hin]%list_elem_of_filter)%list_elem_of_fmap. apply Hx. rewrite Hy. by apply list_elem_of_fmap_2.
Qed.
Lemma View_entries t m multi : View klt hash t m →
  ∃ ds, m_datas t = Some ds ∧ Z.of_nat (length ds) = m_size t ∧
    let es := filter (λ e, kept multi e.2 = true) ((λ x, (x.1, default [] (contents (m_rest t) x.2))) <$> concat ds) in
    (∀ x, x ∈ concat ds → ∃ l, contents (m_rest t) x.2 = Some l ∧ v_size x.2 = Z.of_nat (length l)) ∧
    NoDup es.*1 ∧ (∀ k l, (k, l) ∈ es ↔ m !! k = Some l ∧ kept multi l = true) ∧
    Forall (λ x, Z.of_nat (length x.2) < 2 ^ 31) es.
Proof.
  intros (pm & Hr & Ha). destruct (id Hr) as (ds & Hd & (_ & Hlen & _) & Hp & _). exists ds. split_and!; [done..|].
  set (es0 := (λ x, (x.1, default [] (contents (m_rest t) x.2))) <$> concat ds). intros es.
  assert (∀ k n, (k, n) ∈ concat ds ↔ pm !! k = Some n) as Hin by (intros; rewrite Hp; apply elem_of_map_to_list).
  assert (∀ k l, (k, l) ∈ es0 ↔ m !! k = Some l) as Hes0.
  { intros k l. unfold es0. rewrite list_elem_of_fmap. split.
    - intros ([k' n] & [= -> ->] & Hn%Hin). destruct (Arrays_lookup _ _ _ _ _ Ha Hn) as (l & Hl & Hc & _).
      cbn. by rewrite Hc.
    - intros Hl. destruct (pm !! k) as [n|] eqn:E; [|apply (Arrays_dom _ _ _ _ Ha) in E; congruence].
      destruct (Arrays_lookup _ _ _ _ _ Ha E) as (l' & Hl' & Hc & _). exists (k, n). cbn. rewrite Hc, Hin.
      cbn. split; [congruence|done]. }
  assert (NoDup es0.*1) as Hnd.
  { unfold es0. rewrite <- list_fmap_compose. change (NoDup (concat ds).*1). rewrite Hp. apply NoDup_fst_map_to_list. }
  assert (∀ k l, (k, l) ∈ es ↔ m !! k = Some l ∧ kept multi l = true) as Hes.
  { intros k l. unfold es. rewrite list_elem_of_filter, Hes0. cbn. by rewrite (and_comm (m !! k = _)). }
  split_and!; [|by apply NoDup_fst_filter|done|].
  - intros [k n] Hn%Hin. destruct (Arrays_lookup _ _ _ _ _ Ha Hn) as (l & _ & Hc & Hs & _). by exists l.
  - apply List.Forall_forall. intros [k l] Hkl%list_elem_of_In. apply Hes in Hkl as [Hl _]. cbn.
    destruct (pm !! k) as [n|] eqn:E; [|apply (Arrays_dom _ _ _ _ Ha) in E; congruence].
    destruct (Arrays_lookup _ _ _ _ _ Ha E) as (l' & Hl' & _ & _ & Hlt). congruence.
Qed.
Lemma v_writeTo_spec t m multi speed os : View klt hash t m →
  ∃ es, NoDup es.*1 ∧ (∀ k l, (k, l) ∈ es ↔ m !! k = Some l ∧ kept multi l = true) ∧
    Forall (λ x, Z.of_nat (length x.2) < 2 ^ 31) es ∧
    v_writeTo multi speed os t = Ret (os_good (os_write (vfile (m_size t) es) os), os_write (vfile (m_size t) es) os) t.
Proof.
  intros Hv. destruct (View_entries t m multi Hv) as (ds & Hd & Hlen & Hn & Hnd & Hes & Hl).
  eexists. split_and!; [exact Hnd|exact Hes|exact Hl|]. unfold v_writeTo. rewrite Hd, take_ge by lia.
  rewrite (gather_spec multi (m_rest t) (concat ds) [] []) by done. cbn [app length].
  rewrite !write_raw_eq, !os_write_app, length_layout. done.
Qed.

Lemma free_all_ok multi t pm m nodes : Arrays (m_rest t) pm m → (∀ x, x ∈ nodes → pm !! x.1 = Some x.2) →
  free_all multi nodes t = Ret tt t.
Proof.
  intros Ha. induction nodes as [|x nodes IH]; intros Hn; [done|]. cbn [free_all].
  assert ((if multi && (v_size x.2 =? 0) then cret tt else free_val (v_val x.2)) t = Ret tt t) as He.
  { case_match; [done|]. apply (free_val_ok t pm m x.1); [done|]. apply Hn. by left. }
  rewrite (cbind_Ret _ _ _ _ _ He). apply IH. intros y Hy. apply Hn. by right.
Qed.
Lemma freeDatas_ok multi t m : View klt hash t m → freeDatas multi t = Ret tt (set_datas None t).
Proof.
  intros (pm & Hr & Ha). destruct (id Hr) as (ds & Hd & _ & Hp & _). unfold freeDatas. rewrite Hd.
  rewrite (cbind_Ret _ _ _ _ _ (free_all_ok multi t pm m (concat ds) Ha ltac:(intros [k n]; rewrite Hp; apply elem_of_map_to_list))).
  done.
Qed.

Lemma read_block_spec unit mem speed bs n rest : (0 < unit)%nat → length bs = (n * unit)%nat →
  Z.of_nat (n * unit) ≤ mem → in_u 64 (Z.of_nat (n * unit)) →
  read_block unit mem speed (mkIn (word_image host (Z.of_nat (n * unit)) ++ bs ++ rest) true) =
    inr (true, Z.of_nat n, true, bs, mkIn rest true).
Proof.
  intros Hu Hl Hm Hr. unfold read_block. rewrite (ReadFix_prefix 8) by apply length_word_image. cbn [negb].
  rewrite word_over_image by done. destruct (Z.ltb_spec mem (Z.of_nat (n * unit))); [lia|].
  rewrite read_raw_eq, Nat2Z.id, ReadFix_prefix by done. rewrite Nat2Z.inj_mul, Z.div_mul by lia.
  rewrite Hl, Nat2Z.inj_mul, Z.ltb_irrefl. done.
Qed.
Lemma loaded_full (vs old : list V) : loaded (length vs) old (images vs) = vs.
Proof.
  unfold loaded, overwrite. rewrite take_0, app_nil_l, Nat.add_0_l, drop_ge, values_images; [done|].
  rewrite !length_images. unfold resized. rewrite length_app, length_take, length_replicate. apply Nat.mul_le_mono_r. lia.
Qed.
Lemma total_size_layout off z es : in_u 64 z → fold_left (λ z x, u64 (z + x.2.1)) (layout off es) z = u64 (z + Z.of_nat (length (concat es.*2))).
Proof.
  revert off z. induction es as [|[k l] es IH]; intros off z Hz; cbn [layout fold_left fmap list_fmap concat length].
  { rewrite Z.add_0_r. symmetry. by apply uwrap_id. }
  rewrite IH by (by apply uwrap_range). csimpl. rewrite length_app, Nat2Z.inj_add. unfold uwrap.
  rewrite Zplus_mod_idemp_l. f_equal. lia.
Qed.

Lemma v_readFrom_spec t0 t1 multi mem speed size es rest :
  freeDatas multi t0 = Ret tt t1 → 0 < size → (size | 2 ^ 32) → in_u 64 size → NoDup es.*1 →
  Forall (λ x, x.2 ≠ [] ∧ Z.of_nat (length x.2) < 2 ^ 31) es →
  in_u 64 (Z.of_nat (length (concat es.*2) * sizeof V)) → in_u 64 (Z.of_nat (length es * nsize K)) →
  size ≤ mem → Z.of_nat (length (concat es.*2) * sizeof V) ≤ mem → Z.of_nat (length es * nsize K) ≤ mem →
  ∃ t, v_readFrom multi mem speed (mkIn (vfile size es ++ rest) true) t0 = Ret (true, mkIn rest true) t ∧
    m_size t = size ∧ View klt hash t (list_to_map es) ∧
    (multi = true → m_elements (m_rest t) = Z.of_nat (length (concat es.*2))).
Proof.
  intros Hfree H0 Hdv Hsz Hnd Hes Hv Hn Hm1 Hm2 Hm3. unfold v_readFrom, vfile.
  rewrite (cbind_Ret _ _ _ _ _ Hfree), <- !(assoc_L (++)).
  rewrite (ReadFix_prefix 8) by apply length_word_image. cbn [negb].
  rewrite word_over_image by done. pose proof sizeof_pos as Hs. pose proof nsize_pos as Hns.
  rewrite read_block_spec by (done || apply length_images). cbn [negb].
  rewrite Nat2Z.id, loaded_full.
  rewrite <- (length_layout 0 es) in Hn, Hm3. rewrite <- (length_layout 0 es).
  rewrite read_block_spec by (done || apply length_node_images). cbn [negb m_size set_rest m_rest m_values m_elements].
  destruct (Z.ltb_spec mem size); [lia|]. rewrite Nat2Z.id, <- (app_nil_r (node_images _)), node_values_images.
  2:{ apply List.Forall_forall. intros [k [s o]] Hin%list_elem_of_In. cbn.
      destruct (layout_elem _ _ _ _ _ Hin) as (l1 & l & l2 & He & -> & ->).
      apply layout_bounds in Hin. rewrite List.Forall_forall in Hes.
      destruct (Hes (k, l)) as [_ Hlt]; [apply list_elem_of_In; rewrite He; set_solver|]. cbn in Hlt.
      unfold in_s, in_u in *. split; [lia|]. nia. }
  assert (NoDup (pooled <$> layout 0 es).*1) as Hnd'.
  { rewrite <- list_fmap_compose. change (NoDup (layout 0 es).*1). by rewrite layout_keys. }
  destruct (distribute_spec klt hash size (pooled <$> layout 0 es) H0 Hdv Hnd') as (ds & -> & Hok & Hp).
  eexists. split; [done|]. split_and!; [done| |].
  - exists (list_to_map (pooled <$> layout 0 es)). split.
    + exists ds. cbn. split_and!; [done..| |].
      * rewrite Hp. symmetry. by apply map_to_list_to_map.
      * rewrite map_size_list_to_map by done. by rewrite length_fmap.
    + apply (Arrays_elements (mkPool 0 (concat es.*2))); [by destruct multi|]. by apply layout_arrays.
  - intros ->. cbn. unfold total_size. rewrite total_size_layout by (unfold in_u; lia). apply uwrap_id.
    unfold in_u in *. nia.
Qed.
End files.

(** ** Layouts for the examples *)
#[export] Instance byte_inhabited : Inhabited byte := populate x00.
#[export] Instance pod_byte : Pod byte.
Proof. refine {| sizeof := 1; image b := [b]; value_of bs := default x00 (head bs) |}; [lia|done|done]. Defined.
Definition bool_node_image (k : bool) (s o : Z) : list byte := (if k then x01 else x00) :: le_bytes 4 s ++ le_bytes 8 o.
Definition bool_node_value (bs : list byte) : bool * (Z * Z) :=
  (bool_decide (head bs = Some x01), (i32 (le_value (take 4 (drop 1 bs))), le_value (drop 5 bs))).
#[export] Instance pod_bool_node : PodNode bool.
Proof.
  refine {| nsize := 13; nimage := bool_node_image; nvalue := bool_node_value |}; [lia|done|].
  intros k s o Hs Ho. unfold bool_node_value, bool_node_image. f_equal; [by destruct k|].
  cbn [skipn]. rewrite drop_0, take_app_length', drop_app_length' by (by rewrite length_le_bytes).
  rewrite !le_value_bytes. f_equal; [|by apply uwrap_id].
  change (8 * Z.of_nat 4) with 32. rewrite swrap_uwrap by lia. by apply swrap_id.
Defined.
