(* ===== verification/Dict.v ===== *)
(** * Dict and StringDict (Sylar/DataStructure/dict.h)

    A map from keys to arrays, and the dictionary of strings keyed by their
    64-bit hash. *)
From Stdlib Require Import ZArith Lia Strings.Byte.
From stdpp Require Import base list sorting list_numbers numbers gmap.
From S2P Require Import Prelude ByteArray OrderedSet SortedVec Table PodStream ValueTable Text Encoding.

Local Open Scope Z_scope.

Section dict.
Context {K V : Type} (klt : K → K → bool) (hash : K → Z).
#[local] Abbreviation dict := (table K (vnode V) (pool V)).
Implicit Types (k : K) (l : list V).

Definition Dict_new (size : Z) : option dict := table_new size (mkPool 0 []).

(** get(k): a copy of the array, or an empty handle; get(k, v) and
    getString(k) read the same elements. *)
Definition Dict_get k : M dict (option (list V)) :=
  let! (_, b, it) := locate klt hash k in
  match it with
  | None => cret None
  | Some i => let! x := node_at b i in let! l := read_val x.2 in cret (Some l)
  end.
Definition Dict_exists k : M dict bool :=
  let! (_, _, it) := locate klt hash k in cret (bool_decide (it ≠ None)).
Definition Dict_insert k l : M dict bool :=
  if bool_decide (l = []) then cret true
  else
    let! t := cget in
    let! _ := if needRehash t then rehash klt hash else cret tt in
    let! (pos, b, it) := locate klt hash k in
    let! _ :=
      match it with
      | None => push_node klt pos b (k, mkV (i32 (Z.of_nat (length l))) (Heap l))
      | Some i =>
        let! x := node_at b i in
        if v_size x.2 =? i32 (Z.of_nat (length l)) then store_val pos b i x l
        else replace_val pos b i x l
      end in
    cret true.
(** foreach: false from the callback only ends its bucket. *)
Definition Dict_foreach {B} (cb : K → vnode V → B → bool * B) (z : B) : M dict B := foreach false cb z.
Definition Dict_getTotal (t : dict) : Z := m_total t.
Definition Dict_del k : M dict bool :=
  let! (pos, b, it) := locate klt hash k in
  match it with
  | None => cret false
  | Some i =>
    let! x := node_at b i in
    let! _ := free_val (v_val x.2) in
    let! _ := remove_node klt pos b i in
    cret true
  end.
End dict.

(** ** StringDict *)
Section string_dict.
Definition sd_hash (id : Z) : Z := u32 id.
#[local] Abbreviation dict := (table Z (vnode byte) (pool byte)).

Definition GetID (s : list byte) : option Z :=
  if bool_decide (s = []) then Some 0
  else murmur3_hash64 (Some s) (length s) 1060627423 1050126127.
Definition sd_update (s : list byte) : M dict Z :=
  match GetID s with
  | None => cstuck OutOfBounds
  | Some id =>
    if id =? 0 then cret 0
    else let! _ := Dict_insert Z.ltb sd_hash id s in cret id
  end.
Definition sd_get (id : Z) : M dict (list byte) :=
  let! r := Dict_get Z.ltb sd_hash id in cret (default [] r).
End string_dict.

(** ** The map of arrays it implements *)
Inductive dop (K V : Type) := DInsert (k : K) (l : list V) | DGet (k : K) | DExists (k : K) | DDel (k : K) | DRehash.
Arguments DInsert {K V}.
Arguments DGet {K V}.
Arguments DExists {K V}.
Arguments DDel {K V}.
Arguments DRehash {K V}.

Section refinement.
Context {K V : Type} (klt : K → K → bool) (hash : K → Z) `{!EqDecision K, !Countable K, !KeyOrder klt}.
#[local] Abbreviation dict := (table K (vnode V) (pool V)).
Implicit Types (k : K) (l : list V) (t : dict) (m : gmap K (list V)).
#[local] Abbreviation view := (View klt hash).

Definition Dict_exec (o : dop K V) : M dict (option (list V) * bool) :=
  match o with
  | DInsert k l => let! b := Dict_insert klt hash k l in cret (None, b)
  | DGet k => let! r := Dict_get klt hash k in cret (r, bool_decide (is_Some r))
  | DExists k => let! b := Dict_exists klt hash k in cret (None, b)
  | DDel k => let! b := Dict_del klt hash k in cret (None, b)
  | DRehash => let! _ := rehash klt hash in cret (None, true)
  end.
Fixpoint Dict_run (os : list (dop K V)) : M dict (list (option (list V) * bool)) :=
  match os with
  | [] => cret []
  | o :: os => let! r := Dict_exec o in let! rs := Dict_run os in cret (r :: rs)
  end.
Definition arrays_exec (o : dop K V) m : (option (list V) * bool) * gmap K (list V) :=
  match o with
  | DInsert k l => ((None, true), if bool_decide (l = []) then m else <[k := l]> m)
  | DGet k => ((m !! k, bool_decide (is_Some (m !! k))), m)
  | DExists k => ((None, bool_decide (is_Some (m !! k))), m)
  | DDel k => ((None, bool_decide (is_Some (m !! k))), delete k m)
  | DRehash => ((None, true), m)
  end.
Fixpoint arrays_run (os : list (dop K V)) m : list (option (list V) * bool) * gmap K (list V) :=
  match os with
  | [] => ([], m)
  | o :: os => let '(r, m) := arrays_exec o m in let '(rs, m) := arrays_run os m in (r :: rs, m)
  end.
Definition op_fits (o : dop K V) : Prop := match o with DInsert _ l => Z.of_nat (length l) < 2 ^ 31 | _ => True end.


Lemma Dict_get_spec t m k : view t m → Dict_get klt hash k t = Ret (m !! k) t.
Proof.
  intros Hv. destruct (View_locate klt hash t m k Hv) as (pm & ds & pos & b & it & Hl & _ & _ & _ & _ & _ & Hm).
  unfold Dict_get. rewrite (cbind_Ret _ _ _ _ _ Hl). destruct (m !! k) as [l|].
  - destruct Hm as (i & n & -> & Hi & _ & Hc & _). rewrite (cbind_Ret _ _ _ _ _ (node_at_spec _ _ _ _ Hi)).
    by rewrite (cbind_Ret _ _ _ _ _ (read_val_spec _ _ _ Hc)).
  - by destruct Hm as [-> _].
Qed.
Lemma Dict_exists_spec t m k : view t m → Dict_exists klt hash k t = Ret (bool_decide (is_Some (m !! k))) t.
Proof.
  intros Hv. destruct (View_locate klt hash t m k Hv) as (pm & ds & pos & b & it & Hl & _ & _ & _ & _ & _ & Hm).
  unfold Dict_exists. rewrite (cbind_Ret _ _ _ _ _ Hl). destruct (m !! k) as [l|].
  - by destruct Hm as (i & n & -> & _).
  - by destruct Hm as [-> _].
Qed.
Lemma maybe_rehash t m : view t m → Z.of_nat (size m) < 2 ^ 31 →
  ∃ t', (if needRehash t then rehash klt hash else cret tt) t = Ret tt t' ∧ view t' m ∧ m_rest t' = m_rest t.
Proof. intros Hv Hsz. destruct (needRehash t); [by apply View_rehash|]. by exists t. Qed.
Lemma Dict_insert_spec t m k l : view t m → Z.of_nat (size m) < 2 ^ 31 → Z.of_nat (length l) < 2 ^ 31 →
  ∃ t', Dict_insert klt hash k l t = Ret true t' ∧ view t' (if bool_decide (l = []) then m else <[k := l]> m).
Proof.
  intros Hv Hsz Hlen. unfold Dict_insert. destruct (bool_decide (l = [])) eqn:El; [by exists t|].
  rewrite (cbind_Ret cget _ _ t t eq_refl).
  destruct (maybe_rehash t m Hv Hsz) as (t1 & He & Hv1 & _). rewrite (cbind_Ret _ _ _ _ _ He).
  destruct (View_locate klt hash t1 m k Hv1) as (pm & ds & pos & b & it & Hl & Hd & Hb & -> & Hr & Ha & Hm).
  rewrite (cbind_Ret _ _ _ _ _ Hl). destruct (m !! k) as [l0|] eqn:Em.
  - destruct Hm as (i & n & -> & Hi & Hk & Hc & Hs & Hlt). rewrite cbind_assoc.
    rewrite (cbind_Ret _ _ _ _ _ (node_at_spec _ _ _ _ Hi)). cbn [snd]. rewrite Hs, (swrap_small 32) by lia.
    destruct (Z.eqb_spec (Z.of_nat (length l0)) (Z.of_nat (length l))) as [Heq|Hne].
    + destruct (View_store klt hash t1 m pm ds b i k n l l0) as (t' & Hst & Hv' & _); [done..|lia|done|done|].
      rewrite (cbind_Ret _ _ _ _ _ Hst). by exists t'.
    + destruct (View_replace klt hash t1 m pm ds b i k n l) as (t' & Hst & Hv' & _); [done..|].
      rewrite (cbind_Ret _ _ _ _ _ Hst). by exists t'.
  - destruct Hm as [-> Hk].
    destruct (View_push klt hash t1 m pm ds b k l) as (t' & Hst & Hv' & _); [done..|lia|done|done|].
    rewrite (cbind_Ret _ _ _ _ _ Hst). by exists t'.
Qed.
Lemma Dict_del_spec t m k : view t m → Z.of_nat (size m) < 2 ^ 64 →
  ∃ t', Dict_del klt hash k t = Ret (bool_decide (is_Some (m !! k))) t' ∧ view t' (delete k m).
Proof.
  intros Hv Hsz. unfold Dict_del.
  destruct (View_locate klt hash t m k Hv) as (pm & ds & pos & b & it & Hl & Hd & Hb & -> & Hr & Ha & Hm).
  rewrite (cbind_Ret _ _ _ _ _ Hl). destruct (m !! k) as [l0|] eqn:Em.
  - destruct Hm as (i & n & -> & Hi & Hk & _). rewrite (cbind_Ret _ _ _ _ _ (node_at_spec _ _ _ _ Hi)). cbn [snd].
    rewrite (cbind_Ret _ _ _ _ _ (free_val_ok t pm m k n Ha Hk)).
    destruct (View_remove klt hash t m pm ds b i k n) as (t' & Hst & Hv' & _); [done..|].
    rewrite (cbind_Ret _ _ _ _ _ Hst). by exists t'.
  - destruct Hm as [-> _]. exists t. split; [done|]. by rewrite delete_id.
Qed.

Lemma arrays_exec_size o m : (size (arrays_exec o m).2 ≤ S (size m))%nat.
Proof.
  destruct o; cbn; try lia.
  - case_bool_decide; [lia|]. rewrite map_size_insert. case_match; cbn; lia.
  - rewrite map_size_delete. case_match; cbn; lia.
Qed.
Lemma Dict_exec_spec o t m : view t m → Z.of_nat (size m) < 2 ^ 31 → op_fits o →
  ∃ t', Dict_exec o t = Ret (arrays_exec o m).1 t' ∧ view t' (arrays_exec o m).2.
Proof.
  intros Hv Hsz Ho. destruct o as [k l|k|k|k|]; cbn [Dict_exec arrays_exec fst snd op_fits] in *.
  - destruct (Dict_insert_spec t m k l Hv Hsz Ho) as (t' & He & Hv'). rewrite (cbind_Ret _ _ _ _ _ He). by exists t'.
  - rewrite (cbind_Ret _ _ _ _ _ (Dict_get_spec t m k Hv)). by exists t.
  - rewrite (cbind_Ret _ _ _ _ _ (Dict_exists_spec t m k Hv)). by exists t.
  - destruct (Dict_del_spec t m k Hv ltac:(lia)) as (t' & He & Hv'). rewrite (cbind_Ret _ _ _ _ _ He). by exists t'.
  - destruct (View_rehash klt hash t m Hv Hsz) as (t' & He & Hv' & _). rewrite (cbind_Ret _ _ _ _ _ He). by exists t'.
Qed.
Lemma Dict_run_spec os t m : view t m → Z.of_nat (size m + length os) < 2 ^ 31 → Forall op_fits os →
  ∃ t', Dict_run os t = Ret (arrays_run os m).1 t' ∧ view t' (arrays_run os m).2.
Proof.
  revert t m. induction os as [|o os IH]; intros t m Hv Hsz Hos; cbn [Dict_run arrays_run length] in *; [by exists t|].
  apply Forall_cons_1 in Hos as [Ho Hos].
  destruct (Dict_exec_spec o t m Hv ltac:(lia) Ho) as (t1 & He & Hv1). rewrite (cbind_Ret _ _ _ _ _ He).
  pose proof (arrays_exec_size o m). destruct (arrays_exec o m) as [r m1]. cbn [fst snd] in *.
  destruct (IH t1 m1 Hv1 ltac:(lia) Hos) as (t2 & He2 & Hv2). rewrite (cbind_Ret _ _ _ _ _ He2).
  destruct (arrays_run os m1) as [rs m2]. by exists t2.
Qed.
Lemma arrays_run_nonempty os m k l : (∀ k l, m !! k = Some l → l ≠ []) → (arrays_run os m).2 !! k = Some l → l ≠ [].
Proof.
  revert m. induction os as [|o os IH]; intros m Hm; cbn [arrays_run snd]; [apply Hm|].
  destruct (arrays_exec o m) as [r m1] eqn:E. destruct (arrays_run os m1) as [rs m2] eqn:E2. cbn [snd].
  intros Hl. apply (IH m1); [|by rewrite E2]. intros k' l' Hl'. destruct o; cbn in E; simplify_eq; try by eapply Hm.
  - case_bool_decide; [by eapply Hm|].
    apply lookup_insert_Some in Hl' as [[_ <-]|[_ ?]]; [done|by eapply Hm].
  - apply lookup_delete_Some in Hl' as [_ ?]. by eapply Hm.
Qed.
End refinement.

(** Dict implements a finite map to non-empty arrays: every history of
    insert, get, exists, del and rehash on a dictionary built for 1 to
    2^31 - 1 entries, starting from a new one or from any dictionary that
    stands for a map (one just read from a file included), runs without
    undefined behaviour and answers what the same history on the map
    answers, although arrays live partly in a shared pool that insert
    overwrites in place; getTotal() is the number of keys. *)
Theorem dict_refines_arrays {K V} (klt : K → K → bool) (hash : K → Z) `{!EqDecision K, !Countable K, !KeyOrder klt}
    (n : Z) (t : table K (vnode V) (pool V)) (m : gmap K (list V)) (os : list (dop K V))
    (Ht : View klt hash t m ∨ Dict_new n = Some t ∧ m = ∅ ∧ 1 ≤ n < 2 ^ 31)
    (Hsize : Z.of_nat (size m + length os) < 2 ^ 31) (Hos : Forall op_fits os) :
  ∃ t' rs m', Dict_run klt hash os t = Ret rs t' ∧ arrays_run os m = (rs, m') ∧
    View klt hash t' m' ∧ Dict_getTotal t' = Z.of_nat (size m').
Proof.
  assert (View klt hash t m) as Hv by (destruct Ht as [|(Hnew & -> & Hn)]; [done|by apply (View_new klt hash n (mkPool 0 []) t)]).
  destruct (Dict_run_spec klt hash os t m Hv Hsize Hos) as (t' & He & Hv').
  destruct (arrays_run os m) as [rs m']. cbn [fst snd] in *. exists t', rs, m'.
  split_and!; [done..|]. by apply (View_size klt hash).
Qed.

(** The file of a dictionary of non-empty arrays is read back, into any
    dictionary: all arrays then share one pool, and no two overlap. *)
Theorem dict_file {K V} (klt : K → K → bool) (hash : K → Z)
    `{!EqDecision K, !Countable K, !KeyOrder klt, !Pod V, !PodNode K, !Inhabited V} (host : endian)
    (t : table K (vnode V) (pool V)) (m : gmap K (list V)) (speed : Z) (d : list byte) (room : nat)
    (Ht : View klt hash t m) (Hfull : ∀ k l, m !! k = Some l → l ≠ []) (Hbuckets : in_u 64 (m_size t)) :
  ∃ bs vs, v_writeTo host false speed (mkOut d room true) t =
      Ret (os_good (os_write bs (mkOut d room true)), os_write bs (mkOut d room true)) t ∧
    length bs = (24 + vs * sizeof V + size m * nsize K)%nat ∧
    ∀ t0 m0 rest speed' mem, View klt hash t0 m0 →
      mem < 2 ^ 64 → m_size t ≤ mem → Z.of_nat (vs * sizeof V) ≤ mem → Z.of_nat (size m * nsize K) ≤ mem →
      ∃ t', v_readFrom klt hash host false mem speed' (mkIn (bs ++ rest) true) t0 = Ret (true, mkIn rest true) t' ∧
        m_size t' = m_size t ∧ View klt hash t' m.
Proof.
  destruct (v_writeTo_spec klt hash host t m false speed (mkOut d room true) Ht) as (es & Hnd & Hes & Hlen & Hw).
  assert (list_to_map es = m) as Hm.
  { apply map_eq. intros k. apply option_eq. intros l. rewrite <- elem_of_list_to_map, Hes by done.
    by split; [intros [? _]|intros ?; split]. }
  assert (length es = size m) as Hsz by (by rewrite <- Hm, map_size_list_to_map).
  exists (vfile host (m_size t) es), (length (concat es.*2)). split_and!; [done| |].
  - unfold vfile. rewrite !length_app, !length_word_image, length_images, length_node_images, length_layout, Hsz. lia.
  - intros t0 m0 rest speed' mem Hv0 Hmem Hm1 Hm2 Hm3. destruct (id Ht) as (pm & (ds & _ & (H0 & _ & Hdv & _) & _) & _).
    destruct (v_readFrom_spec klt hash host t0 (set_datas None t0) false mem speed' (m_size t) es rest)
      as (t' & He & Hs & Hv & _); try done; rewrite ?Hsz; try (unfold in_u; lia).
    + by apply (freeDatas_ok klt hash false t0 m0).
    + apply List.Forall_forall. intros [k l] Hin%list_elem_of_In. rewrite List.Forall_forall in Hlen.
      apply Hes in Hin as Hin'. cbn. split; [exact (Hfull k l (proj1 Hin'))|]. exact (Hlen (k, l) (proj1 (list_elem_of_In _ _) Hin)).
    + rewrite Hm in Hv. by exists t'.
Qed.

(** A string put in a StringDict is found under the id update returned, and
    strings with other ids are untouched. *)
Theorem string_dict_roundtrip (t : table Z (vnode byte) (pool byte)) (m : gmap Z (list byte)) (s : list byte) (id : Z)
    (Ht : View Z.ltb sd_hash t m) (Hsize : Z.of_nat (size m) < 2 ^ 31) (Hs : Z.of_nat (length s) < 2 ^ 31)
    (Hid : GetID s = Some id) (Hid0 : id ≠ 0) :
  ∃ t', sd_update s t = Ret id t' ∧ sd_get id t' = Ret s t' ∧ View Z.ltb sd_hash t' (<[id := s]> m) ∧
    ∀ id', id' ≠ id → ∃ s', sd_get id' t = Ret s' t ∧ sd_get id' t' = Ret s' t'.
Proof.
  assert (s ≠ []) as Hne by (intros ->; cbn in Hid; congruence).
  destruct (Dict_insert_spec Z.ltb sd_hash t m id s Ht Hsize Hs) as (t' & He & Hv).
  rewrite bool_decide_eq_false_2 in Hv by done. exists t'. unfold sd_update, sd_get. rewrite Hid.
  destruct (Z.eqb_spec id 0); [done|]. rewrite (cbind_Ret _ _ _ _ _ He). split_and!; [done| |done|].
  - rewrite (cbind_Ret _ _ _ _ _ (Dict_get_spec _ _ _ _ id Hv)), lookup_insert_eq. done.
  - intros id' Hn. eexists. rewrite (cbind_Ret _ _ _ _ _ (Dict_get_spec _ _ _ _ id' Hv)), lookup_insert_ne by done.
    rewrite (cbind_Ret _ _ _ _ _ (Dict_get_spec _ _ _ _ id' Ht)). done.
Qed.

(** ** Examples *)
Definition dict_ex0 : table Z (vnode byte) (pool byte) := mkTable 2 0 (Some [[]; []]) (mkPool 0 []).
Lemma dict_ex0_view : View Z.ltb sd_hash dict_ex0 ∅.
Proof. by apply (View_new Z.ltb sd_hash 1 (mkPool 0 [])). Qed.

Lemma dict_refines_arrays_witness :
  ∃ t' rs m', Dict_run Z.ltb sd_hash [DInsert 5 [x01; x02]; DInsert 5 [x03; x04]; DInsert 7 [x05]; DDel 5; DGet 7] dict_ex0 = Ret rs t' ∧
    arrays_run [DInsert 5 [x01; x02]; DInsert 5 [x03; x04]; DInsert 7 [x05]; DDel 5; DGet 7] ∅ = (rs, m') ∧
    View Z.ltb sd_hash t' m' ∧ Dict_getTotal t' = Z.of_nat (size m').
Proof.
  apply (dict_refines_arrays Z.ltb sd_hash 1 dict_ex0 ∅
    [DInsert 5 [x01; x02]; DInsert 5 [x03; x04]; DInsert 7 [x05]; DDel 5; DGet 7]).
  - right. split; [reflexivity|]. split; [reflexivity|lia].
  - reflexivity.
  - repeat constructor.
Defined.
Lemma string_dict_roundtrip_witness :
  ∃ t', sd_update [x61; x62] dict_ex0 = Ret 9661078016616009597 t' ∧ sd_get 9661078016616009597 t' = Ret [x61; x62] t' ∧
    View Z.ltb sd_hash t' (<[9661078016616009597 := [x61; x62]]> ∅) ∧
    ∀ id', id' ≠ 9661078016616009597 → ∃ s', sd_get id' dict_ex0 = Ret s' dict_ex0 ∧ sd_get id' t' = Ret s' t'.
Proof.
  apply (string_dict_roundtrip dict_ex0 ∅ [x61; x62] 9661078016616009597).
  - apply dict_ex0_view.
  - reflexivity.
  - reflexivity.
  - vm_compute. reflexivity.
  - lia.
Defined.
Definition bool_hash (k : bool) : Z := if k then 7 else 3.
Definition dict_ex1 : table bool (vnode byte) (pool byte) :=
  match Dict_insert bool_lt bool_hash true [x01; x02] (mkTable 2 0 (Some [[]; []]) (mkPool 0 [])) with
  | Ret _ t => t
  | _ => mkTable 0 0 None (mkPool 0 [])
  end.
Lemma dict_ex1_view : View bool_lt bool_hash dict_ex1 {[true := [x01; x02]]}.
Proof.
  destruct (View_new (V := byte) bool_lt bool_hash 1 (mkPool 0 []) (mkTable 2 0 (Some [[]; []]) (mkPool 0 []))) as [Hv _]; [lia|done|].
  destruct (Dict_insert_spec bool_lt bool_hash _ _ true [x01; x02] Hv) as (t' & He & Hv'); [done..|].
  rewrite bool_decide_eq_false_2 in Hv' by done. assert (t' = dict_ex1) as ->; [|done].
  unfold dict_ex1. by rewrite He.
Qed.
Lemma dict_file_witness :
  ∃ bs vs, v_writeTo LittleEndian false 1000 (mkOut [] 100 true) dict_ex1 =
      Ret (os_good (os_write bs (mkOut [] 100 true)), os_write bs (mkOut [] 100 true)) dict_ex1 ∧
    length bs = (24 + vs * sizeof byte + size ({[true := [x01; x02]]} : gmap bool (list byte)) * nsize bool)%nat ∧
    ∀ t0 m0 rest speed' mem, View bool_lt bool_hash t0 m0 →
      mem < 2 ^ 64 → m_size dict_ex1 ≤ mem → Z.of_nat (vs * sizeof byte) ≤ mem →
      Z.of_nat (size ({[true := [x01; x02]]} : gmap bool (list byte)) * nsize bool) ≤ mem →
      ∃ t', v_readFrom bool_lt bool_hash LittleEndian false mem speed' (mkIn (bs ++ rest) true) t0 = Ret (true, mkIn rest true) t' ∧
        m_size t' = m_size dict_ex1 ∧ View bool_lt bool_hash t' {[true := [x01; x02]]}.
Proof.
  apply (dict_file bool_lt bool_hash LittleEndian dict_ex1 {[true := [x01; x02]]} 1000 [] 100).
  - apply dict_ex1_view.
  - intros k l [<- <-]%lookup_singleton_Some. discriminate.
  - vm_compute. by split.
Defined.

(** foreach goes on with the next bucket after the callback said stop. *)
Lemma dict_foreach_goes_on :
  ∃ t : table bool (vnode byte) (pool byte),
    Dict_foreach (λ _ _ n, (false, n + 1)) 0 t = Ret 2 t.
Proof.
  exists (mkTable 2 2 (Some [[(false, mkV 1 (Heap [x01]))]; [(true, mkV 1 (Heap [x02]))]]) (mkPool 0 [])). reflexivity.
Qed.
