(* ===== verification/HashMultimap.v ===== *)
(** * HashMultimap (Sylar/DataStructure/hash_multimap.h)

    A map from keys to sorted arrays of values. del(k, v) is left out: its
    body passes an iterator where memcpy takes a pointer, so it cannot be
    instantiated. Values are compared by a strict total order, under which
    equivalent values are equal. *)
From Stdlib Require Import ZArith Lia Strings.Byte Sorting.Sorted.
From stdpp Require Import base list sorting list_numbers numbers gmap.
From S2P Require Import Prelude ByteArray OrderedSet SortedVec Table PodStream ValueTable.

Local Open Scope Z_scope.

Section multimap.
Context {K V : Type} (klt : K → K → bool) (vlt : V → V → bool) (hash : K → Z).
#[local] Abbreviation mmap := (table K (vnode V) (pool V)).
Implicit Types (k : K) (v : V) (l : list V).

Definition mm_new (size : Z) : option mmap := table_new size (mkPool 0 []).

(** The array of a key, as every operation reads it. *)
Definition mm_get k : M mmap (option (list V)) :=
  let! (_, b, it) := locate klt hash k in
  match it with
  | None => cret None
  | Some i => let! x := node_at b i in
              let! l := read_val x.2 in cret (Some l)
  end.
Definition vsearch v l : option nat := search id vlt v l.
(** get(k, v): the element equivalent to [v] *)
Definition mm_get_value k v : M mmap (option V) :=
  let! r := mm_get k in
  match r with
  | None => cret None
  | Some l => match vsearch v l with
              | Some i => match l !! i with Some x => cret (Some x) | None => cstuck OutOfBounds end
              | None => cret None
              end
  end.
Definition mm_exists k : M mmap bool :=
  let! (_, _, it) := locate klt hash k in cret (bool_decide (it ≠ None)).
Definition mm_exists_value k v : M mmap bool :=
  let! r := mm_get k in
  cret (match r with None => false | Some l => bool_decide (vsearch v l ≠ None) end).

(** A node for a new key. *)
Definition mm_push (pos : nat) (b : list (K * vnode V)) k l : M mmap unit :=
  let! _ := push_node klt pos b (k, mkV (i32 (Z.of_nat (length l))) (Heap l)) in
  add_elements (Z.of_nat (length l)).
(** What insert and set begin with: rehash if needed, find the node. *)
Definition mm_find k : M mmap (nat * list (K * vnode V) * option (nat * (K * vnode V) * list V)) :=
  let! t := cget in
  let! _ := if needRehash t then rehash klt hash else cret tt in
  let! (pos, b, it) := locate klt hash k in
  match it with
  | None => cret (pos, b, None)
  | Some i => let! x := node_at b i in
              let! l := read_val x.2 in cret (pos, b, Some (i, x, l))
  end.
(** insert(k, v) *)
Definition mm_insert k v : M mmap bool :=
  let! (pos, b, it) := mm_find k in
  match it with
  | None => let! _ := mm_push pos b k [v] in cret true
  | Some (i, x, l) =>
    match vsearch v l with
    | Some _ => cret true                        (* *iit = v *)
    | None =>
      let! _ := replace_val pos b i x (SortLast (elt_lt id vlt) (l ++ [v])) in
      let! _ := add_elements 1 in
      cret true
    end
  end.
(** std::set<V>::insert *)
Definition std_set_insert (news : list V) v : list V :=
  match vsearch v news with Some _ => news | None => sort_in (elt_lt id vlt) v news end.
(** insert(k, v, size): of the new values each is added once. *)
Definition mm_insert_all k l : M mmap bool :=
  let! (pos, b, it) := mm_find k in
  match it with
  | None => let! _ := mm_push pos b k (std_sort (elt_lt id vlt) l) in cret true
  | Some (i, x, l0) =>
    let news := fold_left (λ news v, match vsearch v l0 with Some _ => news | None => std_set_insert news v end) l [] in
    let! _ := replace_val pos b i x (std_sort (elt_lt id vlt) (l0 ++ news)) in
    let! _ := add_elements (Z.of_nat (length news)) in
    cret true
  end.
(** set(k, v, size): the size of an array that is replaced is not taken off. *)
Definition mm_set k l : M mmap bool :=
  let! (pos, b, it) := mm_find k in
  match it with
  | None => let! _ := mm_push pos b k (std_sort (elt_lt id vlt) l) in cret true
  | Some (i, x, _) =>
    let! _ := replace_val pos b i x (std_sort (elt_lt id vlt) l) in
    let! _ := add_elements (Z.of_nat (length l)) in
    cret true
  end.
(** del(k) *)
Definition mm_del k : M mmap bool :=
  let! (pos, b, it) := locate klt hash k in
  match it with
  | None => cret false
  | Some i =>
    let! x := node_at b i in
    let! _ := free_val (v_val x.2) in
    let! _ := add_elements (- v_size x.2) in
    let! _ := remove_node klt pos b i in
    cret true
  end.
Definition mm_getTotal (t : mmap) : Z := m_total t.
Definition mm_getElements (t : mmap) : Z := m_elements (m_rest t).
Definition mm_rforeach {B} (cb : K → vnode V → B → bool * B) (z : B) : M mmap B := foreach true cb z.
End multimap.

(** ** The map it implements *)
Inductive mop (K V : Type) :=
  | MInsert (k : K) (v : V) | MInsertAll (k : K) (l : list V) | MSet (k : K) (l : list V)
  | MGet (k : K) | MHas (k : K) (v : V) | MExists (k : K) | MDel (k : K).
Arguments MInsert {K V}.
Arguments MInsertAll {K V}.
Arguments MSet {K V}.
Arguments MGet {K V}.
Arguments MHas {K V}.
Arguments MExists {K V}.
Arguments MDel {K V}.

Section refinement.
Context {K V : Type} (klt : K → K → bool) (vlt : V → V → bool) (hash : K → Z).
Context `{!EqDecision K, !Countable K, !KeyOrder klt, !EqDecision V, !KeyOrder vlt}.
#[local] Abbreviation mmap := (table K (vnode V) (pool V)).
Implicit Types (k : K) (v : V) (l : list V) (t : mmap) (m : gmap K (list V)).
#[local] Abbreviation view := (View klt hash).
#[local] Abbreviation sort := (std_sort (elt_lt id vlt)).

Definition mm_exec (o : mop K V) : M mmap (option (list V) * bool) :=
  match o with
  | MInsert k v => let! b := mm_insert klt vlt hash k v in cret (None, b)
  | MInsertAll k l => let! b := mm_insert_all klt vlt hash k l in cret (None, b)
  | MSet k l => let! b := mm_set klt vlt hash k l in cret (None, b)
  | MGet k => let! r := mm_get klt hash k in cret (r, bool_decide (is_Some r))
  | MHas k v => let! b := mm_exists_value klt vlt hash k v in cret (None, b)
  | MExists k => let! b := mm_exists klt hash k in cret (None, b)
  | MDel k => let! b := mm_del klt hash k in cret (None, b)
  end.
Fixpoint mm_run (os : list (mop K V)) : M mmap (list (option (list V) * bool)) :=
  match os with
  | [] => cret []
  | o :: os => let! r := mm_exec o in let! rs := mm_run os in cret (r :: rs)
  end.

(** The specification: sorted arrays, and the counter the code keeps. *)
Definition fresh (l0 l : list V) : list V := remove_dups (filter (λ v, v ∉ l0) l).
Definition multi_exec (o : mop K V) (s : gmap K (list V) * Z) : (option (list V) * bool) * (gmap K (list V) * Z) :=
  let '(m, z) := s in
  match o with
  | MInsert k v =>
    ((None, true), match m !! k with
                   | None => (<[k := [v]]> m, z + 1)
                   | Some l => if bool_decide (v ∈ l) then (m, z) else (<[k := sort (v :: l)]> m, z + 1)
                   end)
  | MInsertAll k l =>
    ((None, true), match m !! k with
                   | None => (<[k := sort l]> m, z + Z.of_nat (length l))
                   | Some l0 => (<[k := sort (l0 ++ fresh l0 l)]> m, z + Z.of_nat (length (fresh l0 l)))
                   end)
  | MSet k l => ((None, true), (<[k := sort l]> m, z + Z.of_nat (length l)))
  | MGet k => ((m !! k, bool_decide (is_Some (m !! k))), s)
  | MHas k v => ((None, match m !! k with Some l => bool_decide (v ∈ l) | None => false end), s)
  | MExists k => ((None, bool_decide (is_Some (m !! k))), s)
  | MDel k => ((None, bool_decide (is_Some (m !! k))),
               (delete k m, z - match m !! k with Some l => Z.of_nat (length l) | None => 0 end))
  end.
Fixpoint multi_run (os : list (mop K V)) (s : gmap K (list V) * Z) : list (option (list V) * bool) * (gmap K (list V) * Z) :=
  match os with
  | [] => ([], s)
  | o :: os => let '(r, s) := multi_exec o s in let '(rs, s) := multi_run os s in (r :: rs, s)
  end.
(** The number of values an operation may add. *)
Definition op_load (o : mop K V) : nat :=
  match o with MInsert _ _ => 1 | MInsertAll _ l | MSet _ l => length l | _ => 0 end.

Lemma vsearch_in v l : wsorted id vlt l → bool_decide (vsearch vlt v l ≠ None) = bool_decide (v ∈ l).
Proof.
  intros Hs. apply bool_decide_ext. rewrite (search_None id vlt v l Hs). split.
  - intros Hn. destruct (decide (v ∈ l)) as [|Hv]; [done|]. destruct Hn. intros x Hx [= ->]. done.
  - intros Hv Hn. by apply (Hn v).
Qed.
Lemma vsearch_None v l : wsorted id vlt l → vsearch vlt v l = None ↔ v ∉ l.
Proof.
  intros Hs. rewrite (search_None id vlt v l Hs). split; [intros Hn Hv; by apply (Hn v)|intros Hv x Hx [= ->]; done].
Qed.
Lemma sort_eq l l' : l ≡ₚ l' → sort l = sort l'.
Proof.
  intros Hp. destruct (std_sort_spec id vlt l) as [H1 H2], (std_sort_spec id vlt l') as [H3 H4].
  apply (wsorted_unique vlt); [done..|]. by rewrite H2, H4.
Qed.
Lemma sort_wsorted l : wsorted id vlt (sort l).
Proof. by destruct (std_sort_spec id vlt l). Qed.
Lemma length_sort l : length (sort l) = length l.
Proof. destruct (std_sort_spec id vlt l) as [_ Hp]. by rewrite Hp. Qed.
Lemma SortLast_sort l v : wsorted id vlt l → SortLast (elt_lt id vlt) (l ++ [v]) = sort (v :: l).
Proof.
  intros Hs. destruct (SortLast_spec id vlt l v Hs) as [H1 H2].
  apply (wsorted_unique vlt); [done|apply sort_wsorted|]. destruct (std_sort_spec id vlt (v :: l)) as [_ ->]. done.
Qed.

(** The set of new values: each new value once. *)
Lemma news_spec l0 l news : wsorted id vlt l0 → wsorted id vlt news → NoDup news → (∀ v, v ∈ news → v ∉ l0) →
  let r := fold_left (λ news v, match vsearch vlt v l0 with Some _ => news | None => std_set_insert vlt news v end) l news in
  NoDup r ∧ ∀ v, v ∈ r ↔ v ∈ news ∨ v ∈ l ∧ v ∉ l0.
Proof.
  intros H0. revert news. induction l as [|v l IH]; intros news Hs Hnd Hd; cbn [fold_left]; [set_solver|].
  destruct (vsearch vlt v l0) as [i|] eqn:E.
  - destruct (IH news Hs Hnd Hd) as [IH1 IH2]. split; [done|]. intros x. rewrite IH2.
    assert (v ∈ l0) as Hv.
    { destruct (decide (v ∈ l0)) as [|Hn]; [done|]. apply vsearch_None in Hn; [congruence|done]. }
    set_solver.
  - apply vsearch_None in E; [|done]. unfold std_set_insert. destruct (vsearch vlt v news) as [j|] eqn:E2.
    + assert (v ∈ news) as Hv.
      { destruct (decide (v ∈ news)) as [|Hn]; [done|]. apply vsearch_None in Hn; [congruence|done]. }
      destruct (IH news Hs Hnd Hd) as [IH1 IH2]. split; [done|]. intros x. rewrite IH2. set_solver.
    + apply vsearch_None in E2; [|done].
      destruct (IH (sort_in (elt_lt id vlt) v news)) as [IH1 IH2].
      * by apply sort_in_sorted.
      * rewrite sort_in_perm. by apply list.NoDup_cons.
      * intros x. rewrite sort_in_perm. set_solver.
      * split; [done|]. intros x. rewrite IH2, sort_in_perm. set_solver.
Qed.
Lemma news_fresh l0 l : wsorted id vlt l0 →
  fold_left (λ news v, match vsearch vlt v l0 with Some _ => news | None => std_set_insert vlt news v end) l [] ≡ₚ fresh l0 l.
Proof.
  intros H0. destruct (news_spec l0 l []) as [H1 H2]; [done|constructor|constructor|by intros ? ?%elem_of_nil|].
  apply NoDup_Permutation; [done|apply NoDup_remove_dups|]. intros v. rewrite H2. unfold fresh.
  rewrite elem_of_remove_dups, list_elem_of_filter. set_solver.
Qed.

Lemma mm_get_spec t m k : view t m → mm_get klt hash k t = Ret (m !! k) t.
Proof.
  intros Hv. destruct (View_locate klt hash t m k Hv) as (pm & ds & pos & b & it & Hl & _ & _ & _ & _ & _ & Hm).
  unfold mm_get. rewrite (cbind_Ret _ _ _ _ _ Hl). destruct (m !! k) as [l|].
  - destruct Hm as (i & n & -> & Hi & _ & Hc & _). rewrite (cbind_Ret _ _ _ _ _ (node_at_spec _ _ _ _ Hi)).
    by rewrite (cbind_Ret _ _ _ _ _ (read_val_spec _ _ _ Hc)).
  - by destruct Hm as [-> _].
Qed.
Lemma mm_exists_spec t m k : view t m → mm_exists klt hash k t = Ret (bool_decide (is_Some (m !! k))) t.
Proof.
  intros Hv. destruct (View_locate klt hash t m k Hv) as (pm & ds & pos & b & it & Hl & _ & _ & _ & _ & _ & Hm).
  unfold mm_exists. rewrite (cbind_Ret _ _ _ _ _ Hl). destruct (m !! k) as [l|].
  - by destruct Hm as (i & n & -> & _).
  - by destruct Hm as [-> _].
Qed.

(** The map, its counter, and that the arrays are sorted and small. *)
Definition Multi t (s : gmap K (list V) * Z) (bound : nat) : Prop :=
  view t s.1 ∧ mm_getElements t = u64 s.2 ∧
  (∀ k l, s.1 !! k = Some l → wsorted id vlt l ∧ (length l ≤ bound)%nat).

Lemma Multi_insert t t' m z z' k l bound bound' : Multi t (m, z) bound → view t' (<[k := l]> m) →
  mm_getElements t' = u64 z' → wsorted id vlt l → (length l ≤ bound')%nat → (bound ≤ bound')%nat →
  Multi t' (<[k := l]> m, z') bound'.
Proof.
  intros (_ & _ & Hl) Hv He Hs Hb Hbb. split_and!; [done..|]. cbn. intros k' l' [[_ <-]|[_ H]]%lookup_insert_Some; [done|].
  destruct (Hl k' l' H). split; [done|lia].
Qed.
Lemma add_elements_spec z t : ∃ t', add_elements z t = Ret tt t' ∧ (∀ m, view t m → view t' m) ∧
  mm_getElements t' = u64 (mm_getElements t + z).
Proof. eexists. split; [done|]. split; [intros m; apply View_elements|done]. Qed.

Lemma mm_find_spec t m k : view t m → Z.of_nat (size m) < 2 ^ 31 →
  ∃ t1 pm ds b r, let pos := Z.to_nat (hash k mod m_size t1) in
    mm_find klt hash k t = Ret (pos, b, r) t1 ∧ m_rest t1 = m_rest t ∧
    Rep klt hash t1 pm ∧ Arrays (m_rest t1) pm m ∧ m_datas t1 = Some ds ∧ ds !! pos = Some b ∧
    match m !! k with
    | None => r = None ∧ pm !! k = None
    | Some l => ∃ i n, r = Some (i, (k, n), l) ∧ b !! i = Some (k, n) ∧ pm !! k = Some n
    end.
Proof.
  intros Hv Hsz. unfold mm_find. rewrite (cbind_Ret cget _ _ t t eq_refl).
  assert (∃ t1, (if needRehash t then rehash klt hash else cret tt) t = Ret tt t1 ∧ view t1 m ∧ m_rest t1 = m_rest t)
    as (t1 & He & Hv1 & Hx) by (destruct (needRehash t); [by apply View_rehash|by exists t]).
  rewrite (cbind_Ret _ _ _ _ _ He).
  destruct (View_locate klt hash t1 m k Hv1) as (pm & ds & pos & b & it & Hl & Hd & Hb & -> & Hr & Ha & Hm).
  rewrite (cbind_Ret _ _ _ _ _ Hl). destruct (m !! k) as [l|] eqn:Em.
  - destruct Hm as (i & n & -> & Hi & Hk & Hc & _). rewrite (cbind_Ret _ _ _ _ _ (node_at_spec _ _ _ _ Hi)).
    cbn [snd]. rewrite (cbind_Ret _ _ _ _ _ (read_val_spec _ _ _ Hc)).
    eexists t1, pm, ds, b, _. split; [done|]. split_and!; [done..|]. by exists i, n.
  - destruct Hm as [-> Hk]. eexists t1, pm, ds, b, _. split; [done|]. split_and!; done.
Qed.

(** The two ways an array changes. *)
Lemma mm_push_spec t m pm ds b k l : Rep klt hash t pm → Arrays (m_rest t) pm m → m_datas t = Some ds →
  pm !! k = None → Z.of_nat (size m) < 2 ^ 31 → Z.of_nat (length l) < 2 ^ 31 →
  let pos := Z.to_nat (hash k mod m_size t) in ds !! pos = Some b →
  ∃ t', mm_push klt pos b k l t = Ret tt t' ∧ view t' (<[k := l]> m) ∧
    mm_getElements t' = u64 (mm_getElements t + Z.of_nat (length l)).
Proof.
  intros Hr Ha Hd Hk Hsz Hl pos Hb. unfold mm_push.
  destruct (View_push klt hash t m pm ds b k l) as (t1 & He & Hv & Hx); [done..|lia|done|done|].
  rewrite (cbind_Ret _ _ _ _ _ He).
  destruct (add_elements_spec (Z.of_nat (length l)) t1) as (t' & He' & Hv' & Hel). exists t'. split; [done|].
  split; [by apply Hv'|]. rewrite Hel. unfold mm_getElements. by rewrite Hx.
Qed.
Lemma mm_replace_spec {A} t m pm ds b i k n l z (a : A) : Rep klt hash t pm → Arrays (m_rest t) pm m → m_datas t = Some ds →
  pm !! k = Some n → Z.of_nat (length l) < 2 ^ 31 →
  let pos := Z.to_nat (hash k mod m_size t) in ds !! pos = Some b → b !! i = Some (k, n) →
  ∃ t', (let! _ := replace_val pos b i (k, n) l in let! _ := add_elements z in cret a) t = Ret a t' ∧
    view t' (<[k := l]> m) ∧ mm_getElements t' = u64 (mm_getElements t + z).
Proof.
  intros Hr Ha Hd Hk Hl pos Hb Hi.
  destruct (View_replace klt hash t m pm ds b i k n l) as (t1 & He & Hv & Hx); [done..|].
  rewrite (cbind_Ret _ _ _ _ _ He).
  destruct (add_elements_spec z t1) as (t' & He' & Hv' & Hel). rewrite (cbind_Ret _ _ _ _ _ He'). exists t'. split; [done|].
  split; [by apply Hv'|]. rewrite Hel. unfold mm_getElements. by rewrite Hx.
Qed.
Lemma u64_add a b : u64 (u64 a + b) = u64 (a + b).
Proof. unfold uwrap. by rewrite Zplus_mod_idemp_l. Qed.

Lemma mm_insert_ok t m z k v bound : Multi t (m, z) bound → Z.of_nat (size m) < 2 ^ 31 → Z.of_nat (S bound) < 2 ^ 31 →
  ∃ t', mm_insert klt vlt hash k v t = Ret true t' ∧ Multi t' (multi_exec (MInsert k v) (m, z)).2 (S bound).
Proof.
  intros HM Hsz Hb. pose proof HM as (Hv & He & Hl). cbn [fst snd] in *. unfold mm_insert.
  destruct (mm_find_spec t m k Hv Hsz) as (t1 & pm & ds & b & r & Hf & Hx & Hr & Ha & Hd & Hds & Hm).
  rewrite (cbind_Ret _ _ _ _ _ Hf). cbn [multi_exec snd].
  assert (mm_getElements t1 = u64 z) as He1 by (unfold mm_getElements in *; by rewrite Hx).
  destruct (m !! k) as [l|] eqn:Em.
  - destruct Hm as (i & n & -> & Hi & Hk). destruct (Hl k l Em) as [Hs Hlen].
    destruct (vsearch vlt v l) as [j|] eqn:Ev.
    + assert (v ∈ l) as Hin by (destruct (decide (v ∈ l)) as [|Hn]; [done|]; apply (vsearch_None v l Hs) in Hn; congruence).
      rewrite bool_decide_eq_true_2 by done. exists t1. split; [done|]. split_and!; [|done|].
      * by exists pm.
      * intros k' l' Hl'. destruct (Hl k' l' Hl'). split; [done|lia].
    + apply (vsearch_None v l Hs) in Ev. rewrite bool_decide_eq_false_2 by done. rewrite SortLast_sort by done.
      destruct (mm_replace_spec t1 m pm ds b i k n (sort (v :: l)) 1 true) as (t' & Ht' & Hv' & Hel);
        [done..|rewrite length_sort; cbn; lia|done|done|].
      exists t'. split; [done|]. apply (Multi_insert t t' m z (z + 1) k _ bound); try done.
      * by rewrite Hel, He1, u64_add.
      * apply sort_wsorted.
      * rewrite length_sort. cbn. lia.
      * lia.
  - destruct Hm as [-> Hk].
    destruct (mm_push_spec t1 m pm ds b k [v]) as (t' & Ht' & Hv' & Hel); [done..|].
    rewrite (cbind_Ret _ _ _ _ _ Ht'). exists t'. split; [done|].
    apply (Multi_insert t t' m z (z + 1) k _ bound); try done; [by rewrite Hel, He1, u64_add|by repeat constructor|cbn; lia|lia].
Qed.
Lemma mm_insert_all_ok t m z k l bound : Multi t (m, z) bound → Z.of_nat (size m) < 2 ^ 31 →
  Z.of_nat (bound + length l) < 2 ^ 31 →
  ∃ t', mm_insert_all klt vlt hash k l t = Ret true t' ∧ Multi t' (multi_exec (MInsertAll k l) (m, z)).2 (bound + length l).
Proof.
  intros HM Hsz Hb. pose proof HM as (Hv & He & Hl). cbn [fst snd] in *. unfold mm_insert_all.
  destruct (mm_find_spec t m k Hv Hsz) as (t1 & pm & ds & b & r & Hf & Hx & Hr & Ha & Hd & Hds & Hm).
  rewrite (cbind_Ret _ _ _ _ _ Hf). cbn [multi_exec snd].
  assert (mm_getElements t1 = u64 z) as He1 by (unfold mm_getElements in *; by rewrite Hx).
  destruct (m !! k) as [l0|] eqn:Em.
  - destruct Hm as (i & n & -> & Hi & Hk). destruct (Hl k l0 Em) as [Hs Hlen].
    pose proof (news_fresh l0 l Hs) as Hnews. set (news := fold_left _ l []) in *.
    rewrite (sort_eq (l0 ++ news) (l0 ++ fresh l0 l)) by (by rewrite Hnews).
    assert (length news = length (fresh l0 l)) as -> by (by rewrite Hnews).
    assert (length (fresh l0 l) ≤ length l)%nat as Hfr.
    { apply submseteq_length, NoDup_submseteq; [apply NoDup_remove_dups|].
      intros v. unfold fresh. rewrite elem_of_remove_dups, list_elem_of_filter. by intros []. }
    destruct (mm_replace_spec t1 m pm ds b i k n (sort (l0 ++ fresh l0 l)) (Z.of_nat (length (fresh l0 l))) true)
      as (t' & Ht' & Hv' & Hel); [done..|rewrite length_sort, length_app; lia|done|done|].
    exists t'. split; [done|]. apply (Multi_insert t t' m z (z + Z.of_nat (length (fresh l0 l))) k _ bound); try done.
    + by rewrite Hel, He1, u64_add.
    + apply sort_wsorted.
    + rewrite length_sort, length_app. lia.
    + lia.
  - destruct Hm as [-> Hk].
    destruct (mm_push_spec t1 m pm ds b k (sort l)) as (t' & Ht' & Hv' & Hel); [done..|rewrite length_sort; lia|done|].
    rewrite (cbind_Ret _ _ _ _ _ Ht'). exists t'. split; [done|]. rewrite length_sort in Hel.
    apply (Multi_insert t t' m z (z + Z.of_nat (length l)) k _ bound); try done;
      [by rewrite Hel, He1, u64_add|apply sort_wsorted|rewrite length_sort; lia|lia].
Qed.
Lemma mm_set_ok t m z k l bound : Multi t (m, z) bound → Z.of_nat (size m) < 2 ^ 31 →
  Z.of_nat (bound + length l) < 2 ^ 31 →
  ∃ t', mm_set klt vlt hash k l t = Ret true t' ∧ Multi t' (multi_exec (MSet k l) (m, z)).2 (bound + length l).
Proof.
  intros HM Hsz Hb. pose proof HM as (Hv & He & Hl). cbn [fst snd] in *. unfold mm_set.
  destruct (mm_find_spec t m k Hv Hsz) as (t1 & pm & ds & b & r & Hf & Hx & Hr & Ha & Hd & Hds & Hm).
  rewrite (cbind_Ret _ _ _ _ _ Hf). cbn [multi_exec snd].
  assert (mm_getElements t1 = u64 z) as He1 by (unfold mm_getElements in *; by rewrite Hx).
  assert (∀ t', view t' (<[k := sort l]> m) → mm_getElements t' = u64 (mm_getElements t1 + Z.of_nat (length l)) →
    Multi t' (<[k := sort l]> m, z + Z.of_nat (length l)) (bound + length l)) as Hdone.
  { intros t' Hv' Hel. apply (Multi_insert t t' m z _ k _ bound); try done;
      [by rewrite Hel, He1, u64_add|apply sort_wsorted|rewrite length_sort; lia|lia]. }
  destruct (m !! k) as [l0|] eqn:Em.
  - destruct Hm as (i & n & -> & Hi & Hk).
    destruct (mm_replace_spec t1 m pm ds b i k n (sort l) (Z.of_nat (length l)) true)
      as (t' & Ht' & Hv' & Hel); [done..|rewrite length_sort; lia|done|done|].
    exists t'. split; [done|]. by apply Hdone.
  - destruct Hm as [-> Hk].
    destruct (mm_push_spec t1 m pm ds b k (sort l)) as (t' & Ht' & Hv' & Hel); [done..|rewrite length_sort; lia|done|].
    rewrite (cbind_Ret _ _ _ _ _ Ht'). exists t'. split; [done|]. rewrite length_sort in Hel. by apply Hdone.
Qed.
Lemma mm_del_ok t m z k bound : Multi t (m, z) bound → Z.of_nat (size m) < 2 ^ 64 →
  ∃ t', mm_del klt hash k t = Ret (bool_decide (is_Some (m !! k))) t' ∧ Multi t' (multi_exec (MDel k) (m, z)).2 bound.
Proof.
  intros (Hv & He & Hl) Hsz. cbn [fst snd] in *. unfold mm_del. cbn [multi_exec snd].
  destruct (View_locate klt hash t m k Hv) as (pm & ds & pos & b & it & Hloc & Hd & Hb & -> & Hr & Ha & Hm).
  rewrite (cbind_Ret _ _ _ _ _ Hloc). destruct (m !! k) as [l0|] eqn:Em.
  - destruct Hm as (i & n & -> & Hi & Hk & _ & Hs & _). rewrite (cbind_Ret _ _ _ _ _ (node_at_spec _ _ _ _ Hi)). cbn [snd].
    rewrite (cbind_Ret _ _ _ _ _ (free_val_ok t pm m k n Ha Hk)).
    set (t1 := set_rest (mkPool (u64 (m_elements (m_rest t) + - v_size n)) (m_values (m_rest t))) t).
    rewrite (cbind_Ret (add_elements (- v_size n)) _ t tt t1 eq_refl).
    assert (Rep klt hash t1 pm) as Hr1 by (destruct Hr as (ds' & ? & ? & ? & ?); by exists ds').
    destruct (View_remove klt hash t1 m pm ds b i k n) as (t' & Hst & Hv' & Hx); [done|by apply (Arrays_elements (m_rest t))|done..|].
    change (m_size t1) with (m_size t) in Hst. rewrite (cbind_Ret _ _ _ _ _ Hst). exists t'. split; [done|].
    split_and!; [done| |].
    + unfold mm_getElements. rewrite Hx. cbn. rewrite Hs. unfold mm_getElements in He. rewrite He, u64_add. done.
    + cbn. intros k' l' [_ H]%lookup_delete_Some. by apply (Hl k').
  - destruct Hm as [-> _]. exists t. split; [done|]. split_and!; cbn.
    + by rewrite delete_id.
    + by rewrite Z.sub_0_r.
    + by rewrite delete_id.
Qed.

Lemma Multi_mono t s bound bound' : (bound ≤ bound')%nat → Multi t s bound → Multi t s bound'.
Proof. intros Hb (Hv & He & Hl). split_and!; [done..|]. intros k l H. destruct (Hl k l H). split; [done|lia]. Qed.
Lemma mm_exec_ok o t s bound : Multi t s bound → Z.of_nat (size s.1) < 2 ^ 31 → Z.of_nat (bound + op_load o) < 2 ^ 31 →
  ∃ t', mm_exec o t = Ret (multi_exec o s).1 t' ∧ Multi t' (multi_exec o s).2 (bound + op_load o) ∧
    (size (multi_exec o s).2.1 ≤ S (size s.1))%nat.
Proof.
  destruct s as [m z]. intros HM Hsz Hb. cbn [fst] in Hsz. pose proof HM as (Hv & _ & Hl). cbn [fst snd] in *.
  assert (∀ k l, (size (<[k := l]> m) ≤ S (size m))%nat) as Hins by (intros; rewrite map_size_insert; case_match; cbn; lia).
  destruct o as [k v|k l|k l|k|k v|k|k]; cbn [mm_exec op_load] in *; rewrite ?Nat.add_0_r, ?Nat.add_1_r in *.
  - destruct (mm_insert_ok t m z k v bound HM Hsz Hb) as (t' & He & HM'). rewrite (cbind_Ret _ _ _ _ _ He).
    exists t'. split_and!; [done..|]. cbn. repeat case_match; cbn; auto.
  - destruct (mm_insert_all_ok t m z k l bound HM Hsz Hb) as (t' & He & HM'). rewrite (cbind_Ret _ _ _ _ _ He).
    exists t'. split_and!; [done..|]. cbn. case_match; cbn; auto.
  - destruct (mm_set_ok t m z k l bound HM Hsz Hb) as (t' & He & HM'). rewrite (cbind_Ret _ _ _ _ _ He).
    exists t'. split_and!; [done..|]. cbn. auto.
  - rewrite (cbind_Ret _ _ _ _ _ (mm_get_spec t m k Hv)). exists t. split_and!; [done..|]. cbn. lia.
  - unfold mm_exists_value. rewrite cbind_assoc, (cbind_Ret _ _ _ _ _ (mm_get_spec t m k Hv)). exists t.
    split_and!; [|done|cbn; lia]. cbn [multi_exec fst]. unfold cbind, cret. do 2 f_equal.
    destruct (m !! k) as [l|] eqn:Em; [|done]. by apply vsearch_in, (Hl k).
  - rewrite (cbind_Ret _ _ _ _ _ (mm_exists_spec t m k Hv)). exists t. split_and!; [done..|]. cbn. lia.
  - destruct (mm_del_ok t m z k bound HM ltac:(lia)) as (t' & He & HM'). rewrite (cbind_Ret _ _ _ _ _ He).
    exists t'. split_and!; [done..|]. cbn. rewrite map_size_delete. case_match; cbn; lia.
Qed.
Definition loads (os : list (mop K V)) : nat := foldr (λ o n, op_load o + n)%nat 0%nat os.
Lemma mm_run_ok os t s bound : Multi t s bound → Z.of_nat (size s.1 + length os) < 2 ^ 31 →
  Z.of_nat (bound + loads os) < 2 ^ 31 →
  ∃ t', mm_run os t = Ret (multi_run os s).1 t' ∧ Multi t' (multi_run os s).2 (bound + loads os).
Proof.
  revert t s bound. induction os as [|o os IH]; intros t s bound HM Hsz Hb; cbn [mm_run multi_run length loads foldr] in *.
  { exists t. split; [done|]. by rewrite Nat.add_0_r. }
  fold (loads os) in *. destruct (mm_exec_ok o t s bound HM ltac:(lia) ltac:(lia)) as (t1 & He & HM1 & Hs1).
  rewrite (cbind_Ret _ _ _ _ _ He). destruct (multi_exec o s) as [r s1]. cbn [fst snd] in *.
  destruct (IH t1 s1 (bound + op_load o)%nat HM1 ltac:(lia) ltac:(lia)) as (t2 & He2 & HM2).
  rewrite (cbind_Ret _ _ _ _ _ He2). destruct (multi_run os s1) as [rs s2]. exists t2. split; [done|].
  by rewrite Nat.add_assoc.
Qed.

(** The counter is the number of values unless set replaces an array. *)
Definition values (m : gmap K (list V)) : Z := map_fold (λ _ l z, Z.of_nat (length l) + z) 0 m.
Definition replaces (o : mop K V) (m : gmap K (list V)) : Prop :=
  match o with MSet k _ => is_Some (m !! k) | _ => False end.
Fixpoint no_replacing (os : list (mop K V)) (s : gmap K (list V) * Z) : Prop :=
  match os with
  | [] => True
  | o :: os => ¬ replaces o s.1 ∧ no_replacing os (multi_exec o s).2
  end.
Lemma values_insert m k l : m !! k = None → values (<[k := l]> m) = Z.of_nat (length l) + values m.
Proof. intros Hk. unfold values. rewrite map_fold_insert_L; [done|intros; lia|done]. Qed.
Lemma values_delete m k l : m !! k = Some l → values m = Z.of_nat (length l) + values (delete k m).
Proof. intros Hk. unfold values. rewrite (map_fold_delete_L _ _ k l m); [done|intros; lia|done]. Qed.
Lemma values_replace m k l l' : m !! k = Some l → values (<[k := l']> m) = values m + Z.of_nat (length l') - Z.of_nat (length l).
Proof.
  intros Hk. rewrite (values_delete (<[k := l']> m) k l') by apply lookup_insert_eq.
  rewrite delete_insert_eq, (values_delete m k l Hk). lia.
Qed.
Lemma multi_exec_values o m z : ¬ replaces o m → z = values m →
  (multi_exec o (m, z)).2.2 = values (multi_exec o (m, z)).2.1.
Proof.
  intros Hr ->. destruct o as [k v|k l|k l|k|k v|k|k]; cbn [multi_exec replaces fst snd] in *; try done.
  - destruct (m !! k) as [l|] eqn:Em; [case_bool_decide|]; cbn [fst snd]; [done| |].
    + rewrite (values_replace m k l) by done. rewrite length_sort. cbn [length]. lia.
    + rewrite values_insert by done. cbn [length]. lia.
  - destruct (m !! k) as [l0|] eqn:Em; cbn [fst snd].
    + rewrite (values_replace m k l0) by done. rewrite length_sort, length_app. lia.
    + rewrite values_insert by done. rewrite length_sort. lia.
  - destruct (m !! k) as [l0|] eqn:Em; [by destruct Hr|]. rewrite values_insert by done. rewrite length_sort. lia.
  - destruct (m !! k) as [l0|] eqn:Em; [rewrite (values_delete m k l0) by done; lia|].
    rewrite delete_id by done. lia.
Qed.
Lemma multi_run_values os s : no_replacing os s → s.2 = values s.1 → (multi_run os s).2.2 = values (multi_run os s).2.1.
Proof.
  revert s. induction os as [|o os IH]; intros [m z] Hn Hz; cbn [multi_run no_replacing] in *; [done|].
  destruct Hn as [Hr Hn]. pose proof (multi_exec_values o m z Hr Hz) as He.
  destruct (multi_exec o (m, z)) as [r s1]. cbn [fst snd] in *. specialize (IH s1 Hn He).
  by destruct (multi_run os s1) as [rs s2].
Qed.
End refinement.

(** HashMultimap implements a finite map to sorted arrays: every history of
    both inserts, set, get, exists (of a key and of a value) and del on a
    map built for 1 to 2^31 - 1 keys runs without undefined behaviour and
    answers what the specification answers; getTotal() is the number of
    keys, and getElements() is the number of values as long as set never
    replaces the array of a key. *)
Theorem multimap_refines_arrays {K V} (klt : K → K → bool) (vlt : V → V → bool) (hash : K → Z)
    `{!EqDecision K, !Countable K, !KeyOrder klt, !EqDecision V, !KeyOrder vlt}
    (n : Z) (t0 : table K (vnode V) (pool V)) (os : list (mop K V)) (Hn : 1 ≤ n < 2 ^ 31) (Ht0 : mm_new n = Some t0)
    (Hos : Z.of_nat (length os) < 2 ^ 31) (Hload : Z.of_nat (loads os) < 2 ^ 31) :
  ∃ t rs m z, mm_run klt vlt hash os t0 = Ret rs t ∧ multi_run vlt os (∅, 0) = (rs, (m, z)) ∧
    View klt hash t m ∧ (∀ k l, m !! k = Some l → wsorted id vlt l) ∧
    mm_getTotal t = Z.of_nat (size m) ∧ mm_getElements t = u64 z ∧
    (no_replacing vlt os (∅, 0) → z = values m).
Proof.
  destruct (View_new klt hash n (mkPool 0 []) t0 Hn Ht0) as [Hv Hx].
  assert (Multi klt vlt hash t0 (∅, 0) 0) as HM.
  { split_and!; [done|unfold mm_getElements; by rewrite Hx|]. cbn. intros k l. by rewrite lookup_empty. }
  destruct (mm_run_ok klt vlt hash os t0 (∅, 0) 0 HM) as (t & He & HM'); [cbn; rewrite map_size_empty; lia|lia|].
  pose proof (multi_run_values vlt os (∅, 0)) as Hval.
  destruct (multi_run vlt os (∅, 0)) as [rs [m z]]. destruct HM' as (Hv' & Hel & Hl). cbn [fst snd] in *.
  exists t, rs, m, z. split_and!; [done..| | |done|].
  - intros k l H. by apply (Hl k l H).
  - by apply (View_size klt hash).
  - intros Hno. apply Hval; [done|]. unfold values. by rewrite map_fold_empty.
Qed.

(** After set replaced an array of one value by another of one value,
    getElements() counts two. *)
Lemma multimap_set_miscounts :
  ∃ t0 t rs, mm_new (K := Z) (V := Z) 10 = Some t0 ∧
    mm_run Z.ltb Z.ltb u32 [MInsert 1 5; MSet 1 [6]] t0 = Ret rs t ∧ mm_getElements t = 2 ∧
    mm_get Z.ltb u32 1 t = Ret (Some [6]) t.
Proof. do 3 eexists. split; [vm_compute; reflexivity|]. split; [vm_compute; reflexivity|]. by split. Qed.

Lemma multimap_refines_arrays_witness :
  ∃ t rs m z, mm_run Z.ltb Z.ltb u32 [MInsert 1 5; MInsertAll 1 [7; 5; 6; 7]; MHas 1 6; MGet 1; MDel 1] (mkTable 16 0 (Some (replicate 16 [])) (mkPool 0 [])) = Ret rs t ∧
    multi_run Z.ltb [MInsert 1 5; MInsertAll 1 [7; 5; 6; 7]; MHas 1 6; MGet 1; MDel 1] (∅, 0) = (rs, (m, z)) ∧
    View Z.ltb u32 t m ∧ (∀ k l, m !! k = Some l → wsorted id Z.ltb l) ∧
    mm_getTotal t = Z.of_nat (size m) ∧ mm_getElements t = u64 z ∧
    (no_replacing Z.ltb [MInsert 1 5; MInsertAll 1 [7; 5; 6; 7]; MHas 1 6; MGet 1; MDel 1] (∅, 0) → z = values m).
Proof.
  apply (multimap_refines_arrays Z.ltb Z.ltb u32 10 (mkTable 16 0 (Some (replicate 16 [])) (mkPool 0 []))
    [MInsert 1 5; MInsertAll 1 [7; 5; 6; 7]; MHas 1 6; MGet 1; MDel 1]).
  - lia.
  - reflexivity.
  - reflexivity.
  - reflexivity.
Defined.

(** The file of a multimap is read back, into any multimap: keys without
    values are dropped, and getElements() is counted afresh. *)
Theorem multimap_file {K V} (klt : K → K → bool) (hash : K → Z)
    `{!EqDecision K, !Countable K, !KeyOrder klt, !Pod V, !PodNode K, !Inhabited V} (host : endian)
    (t : table K (vnode V) (pool V)) (m : gmap K (list V)) (speed : Z) (os : ostream)
    (Ht : View klt hash t m) (Hbuckets : in_u 64 (m_size t)) :
  ∃ bs vs m', v_writeTo host true speed os t = Ret (os_good (os_write bs os), os_write bs os) t ∧
    (∀ k l, m' !! k = Some l ↔ m !! k = Some l ∧ l ≠ []) ∧
    ∀ t0 m0 rest speed' mem, View klt hash t0 m0 →
      mem < 2 ^ 64 → m_size t ≤ mem → Z.of_nat (vs * sizeof V) ≤ mem → Z.of_nat (size m' * nsize K) ≤ mem →
      ∃ t', v_readFrom klt hash host true mem speed' (mkIn (bs ++ rest) true) t0 = Ret (true, mkIn rest true) t' ∧
        m_size t' = m_size t ∧ View klt hash t' m' ∧ mm_getElements t' = Z.of_nat vs.
Proof.
  destruct (v_writeTo_spec klt hash host t m true speed os Ht) as (es & Hnd & Hes & Hlen & Hw).
  assert (∀ l : list V, kept true l = true ↔ l ≠ []) as Hk.
  { intros l. unfold kept. cbn [andb]. by rewrite negb_true_iff, bool_decide_eq_false. }
  exists (vfile host (m_size t) es), (length (concat es.*2)), (list_to_map es). split_and!; [done| |].
  - intros k l. rewrite <- elem_of_list_to_map by done. by rewrite Hes, Hk.
  - intros t0 m0 rest speed' mem Hv0 Hmem Hm1 Hm2 Hm3. destruct (id Ht) as (pm & (ds & _ & (H0 & _ & Hdv & _) & _) & _).
    rewrite map_size_list_to_map in Hm3 by done.
    destruct (v_readFrom_spec klt hash host t0 (set_datas None t0) true mem speed' (m_size t) es rest)
      as (t' & He & Hs & Hv & Hel); try done; try (unfold in_u; lia).
    + by apply (freeDatas_ok klt hash true t0 m0).
    + apply List.Forall_forall. intros [k l] Hin. rewrite List.Forall_forall in Hlen.
      split; [|by apply Hlen]. cbn. apply list_elem_of_In, Hes in Hin as [_ Hkl]. by apply Hk.
    + exists t'. split_and!; [done..|]. by apply Hel.
Qed.
Lemma multimap_file_witness :
  ∃ bs vs m', v_writeTo LittleEndian true NO_LIMIT (mkOut [] 100 true) (mkTable 2 0 (Some [[]; []]) (mkPool 0 [])) =
      Ret (os_good (os_write bs (mkOut [] 100 true)), os_write bs (mkOut [] 100 true)) (mkTable 2 0 (Some [[]; []]) (mkPool 0 [])) ∧
    (∀ k l, m' !! k = Some l ↔ (∅ : gmap bool (list byte)) !! k = Some l ∧ l ≠ []) ∧
    ∀ t0 m0 rest speed' mem, View bool_lt Z.b2z t0 m0 →
      mem < 2 ^ 64 → 2 ≤ mem → Z.of_nat (vs * sizeof byte) ≤ mem → Z.of_nat (size m' * nsize bool) ≤ mem →
      ∃ t', v_readFrom bool_lt Z.b2z LittleEndian true mem speed' (mkIn (bs ++ rest) true) t0 = Ret (true, mkIn rest true) t' ∧
        m_size t' = 2 ∧ View bool_lt Z.b2z t' m' ∧ mm_getElements t' = Z.of_nat vs.
Proof.
  apply (multimap_file bool_lt Z.b2z LittleEndian (mkTable 2 0 (Some [[]; []]) (mkPool 0 [])) ∅ NO_LIMIT (mkOut [] 100 true)).
  - by apply (View_new bool_lt Z.b2z 1 (mkPool 0 [])).
  - by split.
Defined.
