(* ===== verification/LoadBalance.v ===== *)
(** * Load balancing: streams/load_balance.{h,cc}

    The statistics of a connection, the items of a balancer, the round-robin
    and the weighted balancer, and SDLoadBalance, which keeps one balancer
    per service in step with service discovery.

    Items are shared objects: they live in a store, balancers hold their
    addresses. What a stream reports (isConnected), the clock and rand() are
    inputs. The order in which an unordered_map is traversed is a parameter
    of the model, of which only the permutation law is used. *)
From Stdlib Require Import ZArith Lia SpecFloat.
From stdpp Require Import base list list_numbers numbers gmap strings.
From S2P Require Import Prelude SortedVec.
Local Open Scope Z_scope.

(** ** HolderStats: six uint32_t counters *)
Record HolderStats := mkStats
  { hs_usedTime : Z; hs_total : Z; hs_doing : Z; hs_timeouts : Z; hs_oks : Z; hs_errs : Z }.
Definition stats_clear : HolderStats := mkStats 0 0 0 0 0 0.
Definition incUsedTime (v : Z) (s : HolderStats) : HolderStats :=
  mkStats (u32 (hs_usedTime s + v)) (hs_total s) (hs_doing s) (hs_timeouts s) (hs_oks s) (hs_errs s).
Definition incTotal (v : Z) (s : HolderStats) : HolderStats :=
  mkStats (hs_usedTime s) (u32 (hs_total s + v)) (hs_doing s) (hs_timeouts s) (hs_oks s) (hs_errs s).
Definition incDoing (v : Z) (s : HolderStats) : HolderStats :=
  mkStats (hs_usedTime s) (hs_total s) (u32 (hs_doing s + v)) (hs_timeouts s) (hs_oks s) (hs_errs s).
Definition incTimeouts (v : Z) (s : HolderStats) : HolderStats :=
  mkStats (hs_usedTime s) (hs_total s) (hs_doing s) (u32 (hs_timeouts s + v)) (hs_oks s) (hs_errs s).
Definition incOks (v : Z) (s : HolderStats) : HolderStats :=
  mkStats (hs_usedTime s) (hs_total s) (hs_doing s) (hs_timeouts s) (u32 (hs_oks s + v)) (hs_errs s).
Definition incErrs (v : Z) (s : HolderStats) : HolderStats :=
  mkStats (hs_usedTime s) (hs_total s) (hs_doing s) (hs_timeouts s) (hs_oks s) (u32 (hs_errs s + v)).
Definition decDoing (v : Z) (s : HolderStats) : HolderStats :=
  mkStats (hs_usedTime s) (hs_total s) (u32 (hs_doing s - v)) (hs_timeouts s) (hs_oks s) (hs_errs s).

(** *** Floating point

    float and double are IEEE 754 binary32 and binary64, rounded to nearest
    even, every operation in the type C++ gives it. *)
Definition f32 (z : Z) : spec_float := binary_normalize 24 128 z 0 false.
Definition f64 (z : Z) : spec_float := binary_normalize 53 1024 z 0 false.
Definition to_f64 (x : spec_float) : spec_float :=
  match x with S754_finite s m e => binary_round 53 1024 s m e | x => x end.
Definition to_f32 (x : spec_float) : spec_float :=
  match x with S754_finite s m e => binary_round 24 128 s m e | x => x end.
Abbreviation dmul := (SFmul 53 1024).
Abbreviation ddiv := (SFdiv 53 1024).
Abbreviation dsub := (SFsub 53 1024).
(** the literal 0.1 *)
Definition tenth : spec_float := ddiv (f64 1) (f64 10).
(** std::min(a, b) *)
Definition fmin (a b : spec_float) : spec_float := if SFltb b a then b else a.
(** The conversion to int32_t drops the fraction; other values are undefined. *)
Definition to_i32 (x : spec_float) : option Z :=
  let z := match x with
           | S754_zero _ => Some 0
           | S754_finite s m e =>
             let a := if 0 <=? e then Zpos m * 2 ^ e else Zpos m / 2 ^ (- e) in
             Some (if s then - a else a)
           | _ => None
           end in
  match z with Some z => if (- 2 ^ 31 <=? z) && (z <? 2 ^ 31) then Some z else None | None => None end.

(** HolderStats::getWeight(rate) *)
Definition stats_weight (rate : spec_float) (s : HolderStats) : spec_float :=
  let base := f32 (u32 (hs_total s + 20)) in
  let speed := fmin (dmul (ddiv (dmul (f64 (hs_oks s)) (f64 1)) (f64 (u32 (hs_usedTime s + 1)))) (f64 2)) (f64 50) in
  let timeouts := dsub (f64 1) (ddiv (dmul (f64 4) (f64 (hs_timeouts s))) (to_f64 base)) in
  let doing := SFsub 24 128 (f32 1) (SFdiv 24 128 (f32 (u32 (1 * hs_doing s))) base) in
  let errs := dsub (f64 1) (ddiv (dmul (f64 10) (f64 (hs_errs s))) (to_f64 base)) in
  to_f32 (dmul (dmul (dmul (dmul speed timeouts) (to_f64 doing)) errs) (to_f64 rate)).

(** ** HolderStatsSet: a ring of seconds *)
Record HolderStatsSet := mkStatsSet { m_lastUpdateTime : Z; m_stats : list HolderStats }.
Definition HolderStatsSet_new (size : Z) : HolderStatsSet :=
  mkStatsSet 0 (replicate (Z.to_nat size) stats_clear).
Definition ring_slot (t : Z) (l : list HolderStats) : nat := Z.to_nat (t mod Z.of_nat (length l)).

(** The loop of init(now), [n] turns of i left. *)
Fixpoint init_loop (now : Z) (n : nat) (t : Z) (l : list HolderStats) : list HolderStats :=
  match n with
  | O => l
  | S n => if t <=? now then init_loop now n (u32 (t + 1)) (<[ring_slot t l := stats_clear]> l) else l
  end.
Definition stats_init (now : Z) (s : HolderStatsSet) : HolderStatsSet :=
  if m_lastUpdateTime s <? now
  then mkStatsSet now (init_loop now (length (m_stats s)) (u32 (m_lastUpdateTime s + 1)) (m_stats s))
  else s.
(** get(now): the reference returned, as a position. *)
Definition stats_get (now : Z) : M HolderStatsSet nat := λ s,
  let s := stats_init now s in
  match m_stats s with [] => Stuck DivByZero | _ => Ret (ring_slot now (m_stats s)) s end.
(** A counter changed through such a reference, at any later time. *)
Definition stats_at (i : nat) (f : HolderStats → HolderStats) : M HolderStatsSet unit := λ s,
  match m_stats s !! i with
  | Some x => Ret tt (mkStatsSet (m_lastUpdateTime s) (<[i := f x]> (m_stats s)))
  | None => Stuck OutOfBounds
  end.
(** getWeight(now): now - i is a uint64_t. *)
Definition set_weight (now : Z) (s : HolderStatsSet) : spec_float * HolderStatsSet :=
  let s := stats_init now s in
  (fold_left (λ v i,
     let x := default stats_clear (m_stats s !! ring_slot (u64 (now - i)) (m_stats s)) in
     SFadd 24 128 v (stats_weight (to_f32 (dsub (f64 1) (dmul tenth (f64 i)))) x))
     (seqZ 1 (Z.of_nat (length (m_stats s)) - 1)) (f32 0), s).
(** HolderStatsSet::getTotal *)
Definition stats_add (a b : HolderStats) : HolderStats :=
  mkStats (u32 (hs_usedTime a + hs_usedTime b)) (u32 (hs_total a + hs_total b)) (u32 (hs_doing a + hs_doing b))
    (u32 (hs_timeouts a + hs_timeouts b)) (u32 (hs_oks a + hs_oks b)) (u32 (hs_errs a + hs_errs b)).
Definition stats_total (s : HolderStatsSet) : HolderStats := fold_left stats_add (m_stats s) stats_clear.

(** ** Items and the store they live in *)
Record LoadBalanceItem := mkItem
  { it_id : Z; it_stream : option nat; it_weight : Z; it_stats : HolderStatsSet; it_fair : bool }.
(** [online] are the streams whose isConnected() is true, [closing] those
    handed to the service_io worker to be closed. *)
Record store := mkStore { objs : gmap nat LoadBalanceItem; online : gset nat; closing : list nat }.
Definition set_objs o (st : store) : store := mkStore o (online st) (closing st).
Definition set_item_stats x (it : LoadBalanceItem) : LoadBalanceItem :=
  mkItem (it_id it) (it_stream it) (it_weight it) x (it_fair it).

Definition deref_item (p : nat) : M store LoadBalanceItem := λ st,
  match objs st !! p with Some it => Ret it st | None => Stuck NullDeref end.
Definition put_item (p : nat) (it : LoadBalanceItem) : M store unit :=
  cmodify (λ st, set_objs (<[p := it]> (objs st)) st).

(** LoadBalanceItem::isValid *)
Definition valid_item (on : gset nat) (it : LoadBalanceItem) : bool :=
  match it_stream it with Some s => bool_decide (s ∈ on) | None => false end.
Definition item_isValid (p : nat) : M store bool :=
  let! it := deref_item p in
  creads (λ st, valid_item (online st) it).
(** LoadBalanceItem::close *)
Definition item_close (p : nat) : M store unit :=
  let! it := deref_item p in
  match it_stream it with
  | Some s => cmodify (λ st, mkStore (objs st) (online st) (closing st ++ [s]))
  | None => cret tt
  end.
(** LoadBalanceItem::get(now) *)
Definition item_get (now : Z) (p : nat) : M store nat :=
  let! it := deref_item p in
  match stats_get now (it_stats it) with
  | Ret i x => let! _ := put_item p (set_item_stats x it) in cret i
  | Exn e _ => cthrow e
  | Stuck r => cstuck r
  end.
(** LoadBalanceItem::getWeight and FairLoadBalanceItem::getWeight, at time(0)
    = [now] *)
Definition item_getWeight (now : Z) (p : nat) : M store Z :=
  let! it := deref_item p in
  if negb (it_fair it) then cret (it_weight it)
  else
    let (w, x) := set_weight now (it_stats it) in
    let! _ := put_item p (set_item_stats x it) in
    match to_i32 (SFmul 24 128 (f32 (it_weight it)) w) with
    | None => cstuck OutOfBounds
    | Some v =>
      match it_stream it with
      | None => cstuck NullDeref
      | Some s =>
        let! st := cget in
        cret (if bool_decide (s ∈ online st) then (if 1 <? v then v else 1) else 1)
      end
    end.

(** ** Balancers *)

(** The traversal of an unordered_map. *)
Class IterOrder (K : Type) `{Countable K} := {
  order {A} : gmap K A → list (K * A);
  order_perm {A} (m : gmap K A) : order m ≡ₚ map_to_list m
}.

Inductive lbclass := RoundRobinLoadBalance | WeightLoadBalance.
#[export] Instance lbclass_eq_dec : EqDecision lbclass.
Proof. solve_decision. Defined.
Record LoadBalance := mkLB
  { lb_class : lbclass; lb_datas : gmap Z nat; m_lastInitTime : Z; lb_items : list nat; m_weights : list Z }.
Definition LoadBalance_new (c : lbclass) : LoadBalance := mkLB c ∅ 0 [] [].
Definition lb_state : Type := store * LoadBalance.

Definition on_store {A} (m : M store A) : M lb_state A := λ s,
  match m s.1 with Ret a st => Ret a (st, s.2) | Exn e st => Exn e (st, s.2) | Stuck r => Stuck r end.
Definition on_lb (f : LoadBalance → LoadBalance) : M lb_state unit := cmodify (λ s, (s.1, f (s.2))).
Definition set_lb_datas d (b : LoadBalance) := mkLB (lb_class b) d (m_lastInitTime b) (lb_items b) (m_weights b).
Definition set_lb_items l (b : LoadBalance) := mkLB (lb_class b) (lb_datas b) (m_lastInitTime b) l (m_weights b).
Definition set_lb_weights w (b : LoadBalance) := mkLB (lb_class b) (lb_datas b) (m_lastInitTime b) (lb_items b) w.
Definition set_lb_time t (b : LoadBalance) := mkLB (lb_class b) (lb_datas b) t (lb_items b) (m_weights b).

(** The addresses of a list whose item is valid. *)
Fixpoint valid_items (ps : list nat) : M store (list nat) :=
  match ps with
  | [] => cret []
  | p :: ps =>
    let! v := item_isValid p in
    let! l := valid_items ps in
    cret (if v : bool then p :: l else l)
  end.
(** total += getWeight(); m_weights[i] = total *)
Fixpoint weigh (now : Z) (total : Z) (ps : list nat) : M store (list Z) :=
  match ps with
  | [] => cret []
  | p :: ps =>
    let! w := item_getWeight now p in
    let! l := weigh now (i64 (total + w)) ps in
    cret (i64 (total + w) :: l)
  end.

Section balancer.
Context `{!IterOrder Z}.
(** time(0) *)
Context (now : Z).

(** initNolock of the two classes *)
Definition initNolock : M lb_state unit :=
  let! s := cget in
  let! items := on_store (valid_items ((order (lb_datas s.2)).*2)) in
  let! _ := on_lb (set_lb_items items) in
  match lb_class s.2 with
  | RoundRobinLoadBalance => cret tt
  | WeightLoadBalance =>
    let! ws := on_store (weigh now 0 items) in
    on_lb (set_lb_weights ws)
  end.

Definition lb_getById (id : Z) (b : LoadBalance) : option nat := lb_datas b !! id.
Definition lb_add (p : nat) : M lb_state unit :=
  let! it := on_store (deref_item p) in
  let! _ := on_lb (λ b, set_lb_datas (<[it_id it := p]> (lb_datas b)) b) in
  initNolock.
Definition lb_del (p : nat) : M lb_state unit :=
  let! it := on_store (deref_item p) in
  let! _ := on_lb (λ b, set_lb_datas (delete (it_id it) (lb_datas b)) b) in
  initNolock.
(** update(adds, dels): an entry of dels that is found gets the item that
    was removed; the result is dels afterwards. *)
Definition lb_update (adds : gmap Z nat) (dels : gmap Z (option nat)) : M lb_state (gmap Z (option nat)) :=
  let! s := cget in
  let (dels, datas) := fold_left (λ '(dels, datas) '(id, _),
    match datas !! id with
    | Some p => (<[id := Some p]> dels, delete id datas)
    | None => (dels, datas)
    end) (order dels) (dels, lb_datas s.2) in
  let datas := fold_left (λ datas '(id, p), <[id := p]> datas) (order adds) datas in
  let! _ := on_lb (set_lb_datas datas) in
  let! _ := initNolock in
  cret dels.
Definition lb_set (vs : list nat) : M lb_state unit :=
  let! _ := on_lb (set_lb_datas ∅) in
  let! _ := cfor vs (λ p,
    let! it := on_store (deref_item p) in
    on_lb (λ b, set_lb_datas (<[it_id it := p]> (lb_datas b)) b)) in
  initNolock.
Definition lb_init : M lb_state unit := initNolock.
(** checkInit, GetCurrentMS() = [ts] *)
Definition checkInit (ts : Z) : M lb_state unit :=
  let! s := cget in
  if 500 <? u64 (ts - m_lastInitTime (s.2)) then
    let! _ := lb_init in on_lb (set_lb_time ts)
  else cret tt.

(** The loop over m_items from position [r]: the first that is valid;
    [n] turns are left, [i] are done. *)
Fixpoint first_valid (items : list nat) (r : Z) (n : nat) (i : Z) : M store (option nat) :=
  match n with
  | O => cret None
  | S n =>
    match items !! Z.to_nat ((r + i) mod Z.of_nat (length items)) with
    | None => cstuck OutOfBounds
    | Some h =>
      let! ok := item_isValid h in
      if ok : bool then cret (Some h) else first_valid items r n (i + 1)
    end
  end.

(** v, or rand() for the default argument (uint64_t)-1 *)
Definition pick (v rand : Z) : Z := if v =? 2 ^ 64 - 1 then rand else v.

Definition rr_get (v rand ts : Z) : M lb_state (option nat) :=
  let! _ := checkInit ts in
  let! s := cget in
  let items := lb_items s.2 in
  match items with
  | [] => cret None
  | _ =>
    let r := u32 (pick v rand mod Z.of_nat (length items)) in
    on_store (first_valid items r (length items) 0)
  end.

(** std::upper_bound over m_weights, whose elements are compared with the
    uint64_t as uint64_t. *)
Definition weights_upper_bound (dis : Z) (ws : list Z) : nat := lower_bound (λ w, negb (dis <? u64 w)) ws.
Definition getIdx (v rand : Z) (ws : list Z) : outcome unit Z :=
  match last ws with
  | None => Ret (-1) tt
  | Some total =>
    if u64 total =? 0 then Stuck DivByZero
    else
      let it := weights_upper_bound (pick v rand mod u64 total) ws in
      if (it <? length ws)%nat then Ret (i32 (Z.of_nat it)) tt else Stuck AssertFailed
  end.
Definition weight_get (v rand ts : Z) : M lb_state (option nat) :=
  let! _ := checkInit ts in
  let! s := cget in
  match getIdx v rand (m_weights s.2) with
  | Ret idx _ =>
    if idx =? -1 then cret None
    else on_store (first_valid (lb_items s.2) idx (length (lb_items s.2)) 0)
  | Exn e _ => cthrow e
  | Stuck r => cstuck r
  end.
(** the virtual get *)
Definition lb_get (v rand ts : Z) : M lb_state (option nat) :=
  let! s := cget in
  match lb_class s.2 with
  | RoundRobinLoadBalance => rr_get v rand ts
  | WeightLoadBalance => weight_get v rand ts
  end.
End balancer.

(** ** SDLoadBalance *)
Inductive lbtype := ROUNDROBIN | WEIGHT | FAIR.
Record sdlb := mkSD
  { sd_store : store; sd_lbs : gmap nat LoadBalance; sd_datas : gmap string (gmap string nat);
    sd_types : gmap string (gmap string lbtype); m_defaultType : lbtype; sd_next : nat }.
Definition SDLoadBalance_new (st : store) (next : nat) : sdlb := mkSD st ∅ ∅ ∅ FAIR next.
Definition set_sd_store st d := mkSD st (sd_lbs d) (sd_datas d) (sd_types d) (m_defaultType d) (sd_next d).
Definition set_sd_lbs b d := mkSD (sd_store d) b (sd_datas d) (sd_types d) (m_defaultType d) (sd_next d).

(** A member function of the balancer at an address. *)
Definition run_lb {A} (p : nat) (m : M lb_state A) : M sdlb A := λ d,
  match sd_lbs d !! p with
  | None => Stuck NullDeref
  | Some b =>
    let upd s := mkSD s.1 (<[p := s.2]> (sd_lbs d)) (sd_datas d) (sd_types d) (m_defaultType d) (sd_next d) in
    match m (sd_store d, b) with Ret a s => Ret a (upd s) | Exn e s => Exn e (upd s) | Stuck r => Stuck r end
  end.
Definition on_sd_store {A} (m : M store A) : M sdlb A := λ d,
  match m (sd_store d) with
  | Ret a st => Ret a (set_sd_store st d)
  | Exn e st => Exn e (set_sd_store st d)
  | Stuck r => Stuck r
  end.

Definition sd_getType (domain service : string) (d : sdlb) : lbtype :=
  match sd_types d !! domain with
  | None => m_defaultType d
  | Some m => match m !! service with None => m_defaultType d | Some t => t end
  end.
Definition createLoadBalance (t : lbtype) : LoadBalance :=
  LoadBalance_new (match t with ROUNDROBIN => RoundRobinLoadBalance | WEIGHT | FAIR => WeightLoadBalance end).
(** createLoadBalanceItem, then setId, setStream, setWeight *)
Definition createLoadBalanceItem (t : lbtype) (id : Z) (stream : nat) (weight : Z) : LoadBalanceItem :=
  mkItem id (Some stream) weight (HolderStatsSet_new 5) (match t with FAIR => true | _ => false end).
(** new *)
Definition alloc_lb (b : LoadBalance) : M sdlb nat := λ d,
  Ret (sd_next d) (mkSD (sd_store d) (<[sd_next d := b]> (sd_lbs d)) (sd_datas d) (sd_types d)
                     (m_defaultType d) (S (sd_next d))).
Definition alloc_item (it : LoadBalanceItem) : M sdlb nat := λ d,
  Ret (sd_next d) (mkSD (set_objs (<[sd_next d := it]> (objs (sd_store d))) (sd_store d)) (sd_lbs d) (sd_datas d)
                     (sd_types d) (m_defaultType d) (S (sd_next d))).

(** get(domain, service, auto_create): the search and the creation hold the
    lock separately. *)
Definition sd_find (domain service : string) (d : sdlb) : option nat := m ← sd_datas d !! domain; m !! service.
Definition sd_create (domain service : string) : M sdlb nat :=
  let! t := creads (sd_getType domain service) in
  let! lb := alloc_lb (createLoadBalance t) in
  let! _ := cmodify (λ d,
    mkSD (sd_store d) (sd_lbs d) (<[domain := <[service := lb]> (default ∅ (sd_datas d !! domain))]> (sd_datas d))
      (sd_types d) (m_defaultType d) (sd_next d)) in
  cret lb.
Definition lb_sd_get (domain service : string) (auto_create : bool) : M sdlb (option nat) :=
  let! r := creads (sd_find domain service) in
  match r with
  | Some lb => cret (Some lb)
  | None => if negb auto_create then cret None else let! lb := sd_create domain service in cret (Some lb)
  end.

Section service.
Context `{!IterOrder Z, !IterOrder string} {Info : Type}.
(** m_cb, which makes a stream for a provider, or fails; time(0) *)
Context (cb : Info → option nat) (now : Z).

(** The streams and items of the new providers. *)
Fixpoint make_items (t : lbtype) (adds : list (Z * Info)) (infos : gmap Z nat) : M sdlb (gmap Z nat) :=
  match adds with
  | [] => cret infos
  | (id, info) :: adds =>
    match cb info with
    | None => make_items t adds infos
    | Some stream =>
      let! p := alloc_item (createLoadBalanceItem t id stream 10000) in
      make_items t adds (<[id := p]> infos)
    end
  end.
Definition onServiceChange (domain service : string) (old_value new_value : gmap Z Info) : M sdlb unit :=
  let! t := creads (sd_getType domain service) in
  let! lb := lb_sd_get domain service true in
  match lb with
  | None => cstuck NullDeref
  | Some lb =>
    let del_infos := fold_left (λ m '(id, _),
      if bool_decide (new_value !! id = None) then <[id := @None nat]> m else m) (order old_value) ∅ in
    let add_values := fold_left (λ m '(id, info),
      if bool_decide (old_value !! id = None) then <[id := info]> m else m) (order new_value) (∅ : gmap Z Info) in
    let! add_infos := make_items t (order add_values) ∅ in
    let! del_infos := run_lb lb (lb_update now add_infos del_infos) in
    cfor (order del_infos) (λ x, match x.2 with Some p => on_sd_store (item_close p) | None => cret tt end)
  end.

(** initConf: the types, and the queries given to service discovery *)
Definition conf_type (v : string) : lbtype :=
  if bool_decide (v = "round_robin"%string) then ROUNDROBIN
  else if bool_decide (v = "weight"%string) then WEIGHT else FAIR.
Definition conf_put {A} (k1 k2 : string) (a : A) (m : gmap string (gmap string A)) : gmap string (gmap string A) :=
  <[k1 := <[k2 := a]> (default ∅ (m !! k1))]> m.
Definition initConf (confs : gmap string (gmap string string)) : M sdlb (gmap string (gmap string unit)) :=
  let (types, query) := fold_left (λ acc '(dom, m),
    fold_left (λ '(types, query) '(srv, v),
      (conf_put dom srv (conf_type v) types, conf_put dom srv tt query)) (order m) acc)
    (order confs) (∅, ∅) in
  let! _ := cmodify (λ d, mkSD (sd_store d) (sd_lbs d) (sd_datas d) types (m_defaultType d) (sd_next d)) in
  cret query.
End service.

(** ** The ring against a ledger of seconds *)

(** Which second a reference for second [t] stands for when the ring of [n]
    slots has reached second [T]. *)
Definition charged (n T t : Z) : Z := T - (T - t) mod n.
Definition ledger := Z → HolderStats.
Definition charge (t : Z) (f : HolderStats → HolderStats) (g : ledger) : ledger :=
  λ u, if u =? t then f (g u) else g u.

(** get(now), and a change through the reference that an earlier get(t)
    returned. *)
Inductive stats_op := SGet (now : Z) | SUse (t : Z) (f : HolderStats → HolderStats).
Definition stats_exec (n : Z) (o : stats_op) : M HolderStatsSet unit :=
  match o with
  | SGet now => let! _ := stats_get now in cret tt
  | SUse t f => stats_at (Z.to_nat (t mod n)) f
  end.
Definition stats_spec (n : Z) (o : stats_op) (l : Z * ledger) : Z * ledger :=
  match o with
  | SGet now => (Z.max (l.1) now, l.2)
  | SUse t f => (l.1, charge (charged n (l.1) t) f (l.2))
  end.
Definition stats_op_ok (o : stats_op) : Prop :=
  match o with SGet now => 0 ≤ now < 2 ^ 32 - 1 | SUse t _ => 0 ≤ t end.
Definition ring (n : Z) (s : HolderStatsSet) (l : Z * ledger) : Prop :=
  Z.of_nat (length (m_stats s)) = n ∧ m_lastUpdateTime s = l.1 ∧ 0 ≤ l.1 < 2 ^ 32 - 1 ∧
  (∀ t, l.1 < t → (l.2) t = stats_clear) ∧
  ∀ t, l.1 - n < t ≤ l.1 → m_stats s !! Z.to_nat (t mod n) = Some ((l.2) t).

Section ring.
Context (n : Z) (Hn : 1 ≤ n).

Lemma slot_inj (t u : Z) : t mod n = u mod n → - n < t - u < n → t = u.
Proof using Hn.
  intros He Hd. pose proof (Z.div_mod t n ltac:(lia)). pose proof (Z.div_mod u n ltac:(lia)).
  assert (t - u = n * (t / n - u / n)) by lia. assert (t / n - u / n = 0) by nia. lia.
Qed.
Lemma to_nat_mod_inj (t u : Z) : Z.to_nat (t mod n) = Z.to_nat (u mod n) → t mod n = u mod n.
Proof using Hn. pose proof (Z.mod_pos_bound t n ltac:(lia)). pose proof (Z.mod_pos_bound u n ltac:(lia)). lia. Qed.
Lemma charged_window T t : T - n < charged n T t ≤ T.
Proof using Hn. unfold charged. pose proof (Z.mod_pos_bound (T - t) n ltac:(lia)). lia. Qed.
Lemma charged_slot T t : charged n T t mod n = t mod n.
Proof using Hn.
  unfold charged. rewrite (Z.mod_eq (T - t) n) by lia.
  replace (T - (T - t - n * ((T - t) / n))) with (t + (T - t) / n * n) by lia. apply Z.mod_add. lia.
Qed.
Lemma charged_recent T t : T - n < t ≤ T → charged n T t = t.
Proof using Hn. intros H. unfold charged. rewrite Z.mod_small; lia. Qed.

Lemma length_init_loop now k t l : length (init_loop now k t l) = length l.
Proof. revert t l. induction k as [|k IH]; intros t l; cbn; [done|]. case_match; [|done]. by rewrite IH, length_insert. Qed.

Lemma init_loop_lookup now k t l u :
  Z.of_nat (length l) = n → 0 ≤ t → now < 2 ^ 32 - 1 → Z.of_nat k ≤ n →
  t - n ≤ u < t + Z.of_nat k →
  init_loop now k t l !! Z.to_nat (u mod n) =
    if (t <=? u) && (u <=? now) then Some stats_clear
    else if bool_decide (u + n ≤ now ∧ u + n < t + Z.of_nat k) then Some stats_clear else l !! Z.to_nat (u mod n).
Proof using Hn.
  revert t l u. induction k as [|k IH]; intros t l u Hl Ht Hnow Hk Hu.
  { cbn [init_loop]. destruct (Z.leb_spec t u); [lia|]. cbn [andb]. rewrite bool_decide_eq_false_2 by lia. done. }
  cbn [init_loop]. destruct (Z.leb_spec t now).
  2:{ destruct (Z.leb_spec u now), (Z.leb_spec t u); cbn [andb]; try lia; rewrite bool_decide_eq_false_2 by lia; done. }
  assert (Hw : u32 (t + 1) = t + 1) by (apply uwrap_id; unfold in_u; lia). rewrite Hw.
  assert (Hs : ring_slot t l = Z.to_nat (t mod n)) by (unfold ring_slot; by rewrite Hl). rewrite Hs.
  assert (Hb : (Z.to_nat (t mod n) < length l)%nat) by (pose proof (Z.mod_pos_bound t n ltac:(lia)); lia).
  destruct (decide (u = t - n)) as [->|Hne].
  - (* this turn's slot, which no later turn touches *)
    assert (Hm : (t - n) mod n = t mod n) by (rewrite <- (Z.mod_add (t - n) 1 n) by lia; f_equal; lia).
    destruct (Z.leb_spec t (t - n)); [lia|]. cbn [andb]. rewrite bool_decide_eq_true_2 by lia.
    rewrite Hm. destruct k as [|k].
    + cbn [init_loop]. by rewrite list_lookup_insert_eq.
    + rewrite (IH (t + 1) _ t); rewrite ?length_insert; try lia.
      destruct (Z.leb_spec (t + 1) t); [lia|]. cbn [andb]. rewrite bool_decide_eq_false_2 by lia.
      by rewrite list_lookup_insert_eq.
  - rewrite (IH (t + 1) _ u); rewrite ?length_insert; try lia.
    destruct (decide (u = t)) as [->|].
    + destruct (Z.leb_spec (t + 1) t); [lia|]. destruct (Z.leb_spec t t), (Z.leb_spec t now); try lia. cbn [andb].
      rewrite bool_decide_eq_false_2 by lia. by rewrite list_lookup_insert_eq.
    + assert (Hd : Z.to_nat (t mod n) ≠ Z.to_nat (u mod n)).
      { intros He. apply to_nat_mod_inj, slot_inj in He; lia. }
      rewrite list_lookup_insert_ne by done.
      destruct (Z.leb_spec (t + 1) u), (Z.leb_spec t u), (Z.leb_spec u now); cbn [andb]; try lia; try done;
        apply (f_equal (λ b : bool, if b then _ else _)), bool_decide_ext; lia.
Qed.

Lemma ring_new : ring n (HolderStatsSet_new n) (0, λ _, stats_clear).
Proof using Hn.
  split_and!; cbn; try done; try lia; [rewrite length_replicate; lia|].
  intros t Ht. apply lookup_replicate. split; [done|]. pose proof (Z.mod_pos_bound t n ltac:(lia)). lia.
Qed.

Lemma ring_init s l now : ring n s l → 0 ≤ now < 2 ^ 32 - 1 → ring n (stats_init now s) (Z.max (l.1) now, l.2).
Proof using Hn.
  intros (Hl & HT & HTb & Hnew & Hold) Hnow. unfold stats_init. rewrite HT.
  destruct (Z.ltb_spec (l.1) now); [|rewrite Z.max_l by lia; done]. rewrite Z.max_r by lia.
  split_and!; cbn [fst snd m_stats m_lastUpdateTime]; try done; try lia.
  - by rewrite length_init_loop.
  - intros t Ht. apply Hnew. lia.
  - intros t Ht. rewrite uwrap_id by (unfold in_u; lia).
    destruct (decide (t < l.1 + 1 + n)).
    + rewrite init_loop_lookup; try done; try lia.
      destruct (Z.leb_spec (l.1 + 1) t), (Z.leb_spec t now); cbn [andb]; try lia; [by rewrite Hnew by lia|].
      rewrite bool_decide_eq_false_2 by lia. apply Hold. lia.
    + (* more than a whole turn: every slot is new *)
      rewrite Hnew by lia. pose proof (charged_window (l.1) t) as Hc. rewrite <- (charged_slot (l.1) t).
      rewrite init_loop_lookup; try done; try lia.
      destruct (Z.leb_spec (l.1 + 1) (charged n (l.1) t)); [lia|]. cbn [andb].
      rewrite bool_decide_eq_true_2; [done|]. split; [|lia]. lia.
Qed.

Lemma ring_step s l o : ring n s l → stats_op_ok o →
  ∃ s', stats_exec n o s = Ret tt s' ∧ ring n s' (stats_spec n o l).
Proof using Hn.
  intros Hr Ho. destruct o as [now|t f]; cbn [stats_exec stats_spec stats_op_ok] in *.
  - pose proof (ring_init _ _ _ Hr Ho) as Hi. exists (stats_init now s). split; [|done].
    unfold cbind, stats_get. destruct Hi as (Hl & _). destruct (m_stats (stats_init now s)); [cbn in Hl; lia|done].
  - destruct Hr as (Hl & HT & HTb & Hnew & Hold). pose proof (charged_window (l.1) t) as Hc.
    pose proof (Hold _ Hc) as Hx. rewrite charged_slot in Hx. unfold stats_at. rewrite Hx.
    eexists; split; [done|]. split_and!; cbn [fst snd m_stats m_lastUpdateTime]; try done; try lia.
    + by rewrite length_insert.
    + intros u Hu. unfold charge. destruct (Z.eqb_spec u (charged n (l.1) t)); [lia|by apply Hnew].
    + intros u Hu. unfold charge. destruct (Z.eqb_spec u (charged n (l.1) t)) as [->|Hne].
      * rewrite charged_slot, list_lookup_insert_eq; [done|]. by apply lookup_lt_Some in Hx.
      * rewrite list_lookup_insert_ne; [by apply Hold|]. rewrite <- (charged_slot (l.1) t).
        intros He. apply to_nat_mod_inj, slot_inj in He; lia.
Qed.

Lemma ring_run os s l : ring n s l → Forall stats_op_ok os →
  ∃ s', cfor os (stats_exec n) s = Ret tt s' ∧ ring n s' (fold_left (λ l o, stats_spec n o l) os l).
Proof using Hn.
  intros Hr Hos. revert s l Hr. induction Hos as [|o os Ho _ IH]; intros s l Hr; cbn [cfor fold_left]; [by exists s|].
  destruct (ring_step _ _ _ Hr Ho) as (s1 & E1 & Hr1). destruct (IH _ _ Hr1) as (s2 & E2 & Hr2).
  exists s2. by rewrite (cbind_Ret _ _ _ _ _ E1).
Qed.
End ring.

(** The statistics are kept per second: for any history of get(now) and of
    changes through references from earlier calls, each change is accounted
    to the second it was taken for as long as that second is among the last
    [n], afterwards to the second that took over its slot, and the ring holds
    the accounts of the last [n] seconds. *)
Theorem stats_ring (n : Z) (os : list stats_op) (Hn : 1 ≤ n) (Hos : Forall stats_op_ok os) :
  let l := fold_left (λ l o, stats_spec n o l) os (0, λ _, stats_clear) in
  ∃ s, cfor os (stats_exec n) (HolderStatsSet_new n) = Ret tt s ∧ m_lastUpdateTime s = l.1 ∧
    (∀ t, l.1 - n < t ≤ l.1 → m_stats s !! Z.to_nat (t mod n) = Some ((l.2) t)) ∧
    (∀ t f, l.1 - n < t ≤ l.1 → (stats_spec n (SUse t f) l).2 = charge t f (l.2)).
Proof.
  destruct (ring_run n Hn os _ _ (ring_new n Hn) Hos) as (s & E & Hr). exists s. split; [done|].
  destruct Hr as (_ & HT & _ & _ & Hold). split_and!; [done..|].
  intros t f Ht. cbn [stats_spec snd]. by rewrite charged_recent.
Qed.

Lemma stats_ring_witness :
  let os := [SGet 7; SUse 7 (incDoing 1); SGet 9; SUse 7 (decDoing 1); SUse 9 (incTotal 2)] in
  let l := fold_left (λ l o, stats_spec 5 o l) os (0, λ _, stats_clear) in
  ∃ s, cfor os (stats_exec 5) (HolderStatsSet_new 5) = Ret tt s ∧ m_lastUpdateTime s = l.1 ∧
    (∀ t, l.1 - 5 < t ≤ l.1 → m_stats s !! Z.to_nat (t mod 5) = Some ((l.2) t)) ∧
    (∀ t f, l.1 - 5 < t ≤ l.1 → (stats_spec 5 (SUse t f) l).2 = charge t f (l.2)).
Proof. apply (stats_ring 5 [SGet 7; SUse 7 (incDoing 1); SGet 9; SUse 7 (decDoing 1); SUse 9 (incTotal 2)]); [lia|]. repeat constructor; cbn; lia. Defined.

(** ** The weighted draw *)
Definition zsum (l : list Z) : Z := foldr Z.add 0 l.
(** What initNolock stores in m_weights. *)
Fixpoint sums (total : Z) (ws : list Z) : list Z :=
  match ws with [] => [] | w :: ws => (total + w) :: sums (total + w) ws end.

Lemma zsum_app l1 l2 : zsum (l1 ++ l2) = zsum l1 + zsum l2.
Proof. induction l1 as [|x l1 IH]; cbn [app zsum foldr]; [done|]. fold (zsum (l1 ++ l2)) (zsum l1). lia. Qed.
Lemma zsum_nonneg l : Forall (λ w, 0 ≤ w) l → 0 ≤ zsum l.
Proof. induction 1 as [|x l Hx _ IH]; cbn [zsum foldr]; [done|]. fold (zsum l). lia. Qed.
Lemma zsum_take_S l i w : l !! i = Some w → zsum (take (S i) l) = zsum (take i l) + w.
Proof. intros H. rewrite (take_S_r _ _ _ H), zsum_app. cbn [zsum foldr]. lia. Qed.
Lemma zsum_take_mono l i j : Forall (λ w, 0 ≤ w) l → (i ≤ j)%nat → zsum (take i l) ≤ zsum (take j l).
Proof.
  intros Hl Hij. rewrite <- (take_drop i (take j l)), take_take, Nat.min_l by done. rewrite zsum_app.
  pose proof (zsum_nonneg (drop i (take j l)) ltac:(auto using Forall_take, Forall_drop)). lia.
Qed.
Lemma length_sums t ws : length (sums t ws) = length ws.
Proof. revert t. induction ws as [|w ws IH]; intros t; cbn; [done|]. by rewrite IH. Qed.
Lemma sums_lookup t ws i : (i < length ws)%nat → sums t ws !! i = Some (t + zsum (take (S i) ws)).
Proof.
  revert t i. induction ws as [|w ws IH]; intros t i Hi; cbn in Hi; [lia|]. cbn [sums]. destruct i as [|i].
  - change (Some (t + w) = Some (t + (w + 0))). f_equal. lia.
  - change (sums (t + w) ws !! i = Some (t + (w + zsum (take (S i) ws)))). rewrite IH by lia. f_equal. lia.
Qed.
Lemma last_sums ws : ws ≠ [] → last (sums 0 ws) = Some (zsum ws).
Proof.
  intros Hne. rewrite last_lookup, length_sums. destruct ws as [|w ws]; [done|].
  rewrite sums_lookup by (cbn; lia). rewrite take_ge by (cbn; lia). done.
Qed.

Lemma upper_bound_sums ws d : Forall (λ w, 0 ≤ w) ws → zsum ws < 2 ^ 64 → 0 ≤ d < zsum ws →
  let i := weights_upper_bound d (sums 0 ws) in
  (i < length ws)%nat ∧ zsum (take i ws) ≤ d < zsum (take (S i) ws).
Proof.
  intros Hws Hb Hd i.
  assert (Hval : ∀ j x, sums 0 ws !! j = Some x → (j < length ws)%nat ∧ u64 x = zsum (take (S j) ws)).
  { intros j x Hj. pose proof (lookup_lt_Some _ _ _ Hj) as Hlt. rewrite length_sums in Hlt. split; [done|].
    rewrite sums_lookup in Hj by done. injection Hj as <-. rewrite Z.add_0_l. apply uwrap_id. split.
    - by apply zsum_nonneg, Forall_take.
    - pose proof (zsum_take_mono ws (S j) (length ws) Hws Hlt). rewrite (take_ge ws (length ws)) in H by done. lia. }
  destruct (lower_bound_loop_spec (λ w, negb (d <? u64 w)) (sums 0 ws) (length (sums 0 ws)) 0 (length (sums 0 ws)))
    as (Hle & Hlo & Hhi); try done.
  - intros j k x y Hx Hy Hjk Hk. destruct (Hval _ _ Hx) as [_ Ex], (Hval _ _ Hy) as [_ Ey]. rewrite Ex, Ey in *.
    apply negb_true_iff, Z.ltb_ge in Hk. apply negb_true_iff, Z.ltb_ge.
    pose proof (zsum_take_mono ws (S j) (S k) Hws ltac:(lia)). lia.
  - intros j x Hj. lia.
  - intros j x Hj Hx. apply lookup_lt_Some in Hx. lia.
  - fold (lower_bound (λ w, negb (d <? u64 w)) (sums 0 ws)) in Hle, Hlo, Hhi. fold (weights_upper_bound d (sums 0 ws)) in Hle, Hlo, Hhi.
    fold i in Hle, Hlo, Hhi. clearbody i. rewrite length_sums in Hle.
    assert (Hbelow : ∀ k, (k < i)%nat → zsum (take (S k) ws) ≤ d).
    { intros k Hk. assert (Hlt : (k < length ws)%nat) by lia. pose proof (sums_lookup 0 ws k Hlt) as Hs.
      pose proof (Hlo _ _ Hk Hs) as H. destruct (Hval _ _ Hs) as [_ E]. rewrite E in H.
      by apply negb_true_iff, Z.ltb_ge in H. }
    assert (Hlt : (i < length ws)%nat).
    { destruct (decide (i < length ws)%nat); [done|]. assert (i = length ws) as Hi by lia.
      destruct ws as [|w ws]; [cbn in Hd; lia|]. pose proof (Hbelow (length ws) ltac:(rewrite Hi; cbn; lia)) as H.
      rewrite take_ge in H by (cbn; lia). lia. }
    split; [done|]. split.
    + destruct i as [|k]; [rewrite take_0; cbn; lia|]. apply Hbelow. lia.
    + pose proof (sums_lookup 0 ws i Hlt) as Hs. pose proof (Hhi _ _ (Nat.le_refl _) Hs) as H.
      destruct (Hval _ _ Hs) as [_ E]. rewrite E in H. by apply negb_false_iff, Z.ltb_lt in H.
Qed.

Lemma getIdx_sums ws v rand : ws ≠ [] → Forall (λ w, 0 ≤ w) ws → 0 < zsum ws < 2 ^ 64 → Z.of_nat (length ws) < 2 ^ 31 →
  ∃ i, getIdx v rand (sums 0 ws) = Ret (Z.of_nat i) tt ∧ (i < length ws)%nat ∧
    zsum (take i ws) ≤ pick v rand mod zsum ws < zsum (take (S i) ws).
Proof.
  intros Hne Hws Hs Hl. unfold getIdx. rewrite last_sums by done. rewrite uwrap_id by (unfold in_u; lia).
  destruct (Z.eqb_spec (zsum ws) 0); [lia|].
  destruct (upper_bound_sums ws (pick v rand mod zsum ws)) as [Hi Hd]; [done|lia|by apply Z.mod_pos_bound; lia|].
  exists (weights_upper_bound (pick v rand mod zsum ws) (sums 0 ws)). rewrite length_sums.
  rewrite (proj2 (Nat.ltb_lt _ _) Hi). rewrite swrap_small by lia. done.
Qed.

(** The weighted draw is exact: with weights that are not negative and not
    all zero, the draws [d] below the total that select item [i] are the
    consecutive ones from the sum of the weights before it on, as many as its
    weight; the assertion in getIdx holds. *)
Theorem weighted_share (ws : list Z) (i : nat) (w d : Z) (Hws : Forall (λ w, 0 ≤ w) ws)
    (Hs : zsum ws < 2 ^ 63) (Hl : Z.of_nat (length ws) < 2 ^ 31) (Hi : ws !! i = Some w) (Hd : 0 ≤ d < zsum ws) :
  (∃ j, getIdx d 0 (sums 0 ws) = Ret (Z.of_nat j) tt ∧ (j < length ws)%nat) ∧
  (getIdx d 0 (sums 0 ws) = Ret (Z.of_nat i) tt ↔ zsum (take i ws) ≤ d < zsum (take i ws) + w).
Proof.
  assert (Hne : ws ≠ []) by (intros ->; done).
  destruct (getIdx_sums ws d 0 Hne Hws ltac:(lia) Hl) as (j & E & Hj & Hdj).
  unfold pick in Hdj. destruct (Z.eqb_spec d (2 ^ 64 - 1)); [lia|]. rewrite Z.mod_small in Hdj by done.
  split; [by exists j|]. rewrite E, <- (zsum_take_S _ _ _ Hi). split.
  - intros [= He]. by replace i with j by lia.
  - intros Hdi. do 2 f_equal. destruct (lt_eq_lt_dec i j) as [[Hlt| ->]|Hlt]; [|done|].
    + pose proof (zsum_take_mono ws (S i) j Hws Hlt). lia.
    + pose proof (zsum_take_mono ws (S j) i Hws Hlt). lia.
Qed.

Lemma weighted_share_witness :
  (∃ j, getIdx 5 0 (sums 0 [3; 0; 4; 1]) = Ret (Z.of_nat j) tt ∧ (j < length [3; 0; 4; 1])%nat) ∧
  (getIdx 5 0 (sums 0 [3; 0; 4; 1]) = Ret (Z.of_nat 2) tt ↔
   zsum (take 2 [3; 0; 4; 1]) ≤ 5 < zsum (take 2 [3; 0; 4; 1]) + 4).
Proof. apply weighted_share; [repeat constructor; lia|cbn; lia|cbn; lia|reflexivity|cbn; lia]. Defined.

(** ** Traversals of maps *)
Section traversal.
Context {K A : Type} `{Countable K} `{!IterOrder K}.

Lemma order_elem (m : gmap K A) (k : K) (a : A) : (k, a) ∈ order m ↔ m !! k = Some a.
Proof. rewrite order_perm. apply elem_of_map_to_list. Qed.
Lemma order_NoDup (m : gmap K A) : NoDup ((order m).*1).
Proof. rewrite order_perm. apply NoDup_fst_map_to_list. Qed.
Lemma order_keys (m : gmap K A) (k : K) : k ∈ (order m).*1 ↔ is_Some (m !! k).
Proof.
  rewrite list_elem_of_fmap. split.
  - intros ([k' a] & -> & Hx). exists a. by apply order_elem.
  - intros [a Ha]. exists (k, a). split; [done|]. by apply order_elem.
Qed.
Lemma order_values (m : gmap K A) (a : A) : a ∈ (order m).*2 ↔ ∃ k, m !! k = Some a.
Proof.
  rewrite list_elem_of_fmap. split.
  - intros ([k a'] & -> & Hx). exists k. by apply order_elem.
  - intros [k Hk]. exists (k, a). split; [done|]. by apply order_elem.
Qed.
Lemma length_order (m : gmap K A) : length (order m) = size m.
Proof. rewrite order_perm. apply length_map_to_list. Qed.
Lemma order_to_map (m : gmap K A) : list_to_map (order m) = m.
Proof. rewrite <- (list_to_map_to_list m) at 2. apply list_to_map_proper; [apply order_NoDup|apply order_perm]. Qed.

(** A loop that inserts what it visits. *)
Lemma insert_loop (l : list (K * A)) (base : gmap K A) : NoDup (l.*1) →
  fold_left (λ m '(k, a), <[k := a]> m) l base = list_to_map l ∪ base.
Proof.
  revert base. induction l as [|[k a] l IH]; intros base Hnd; cbn [fold_left fmap list_fmap list_to_map foldr fst snd] in *.
  { by rewrite (left_id_L ∅ (∪)). }
  apply list.NoDup_cons in Hnd as [Hk Hnd]. rewrite IH by done.
  rewrite <- insert_union_r by (by apply not_elem_of_list_to_map_1). by rewrite insert_union_l.
Qed.
Lemma insert_order (m base : gmap K A) : fold_left (λ m '(k, a), <[k := a]> m) (order m) base = m ∪ base.
Proof. rewrite insert_loop by apply order_NoDup. by rewrite order_to_map. Qed.

(** A loop that keeps some of the keys it visits, with a value. *)
Lemma select_loop {B} (P : K → bool) (f : A → B) (l : list (K * A)) (base : gmap K B) (k : K) : NoDup (l.*1) →
  fold_left (λ m '(k, a), if P k then <[k := f a]> m else m) l base !! k =
  match (list_to_map l : gmap K A) !! k with
  | Some a => if P k then Some (f a) else base !! k
  | None => base !! k
  end.
Proof.
  revert base. induction l as [|[k' a] l IH]; intros base Hnd; cbn [fold_left fmap list_fmap list_to_map foldr fst snd] in *.
  { by rewrite lookup_empty. }
  apply list.NoDup_cons in Hnd as [Hk Hnd]. apply (not_elem_of_list_to_map_1 (M := gmap K)) in Hk.
  rewrite IH by done. destruct (decide (k' = k)) as [->|Hne].
  - rewrite Hk, lookup_insert_eq. destruct (P k); [by rewrite lookup_insert_eq|done].
  - rewrite (lookup_insert_ne (M := gmap K)) by done. destruct (list_to_map l !! k), (P k), (P k'); try done; by rewrite lookup_insert_ne.
Qed.
Lemma select_order {B} (P : K → bool) (f : A → B) (m : gmap K A) (k : K) :
  fold_left (λ m '(k, a), if P k then <[k := f a]> m else m) (order m) (∅ : gmap K B) !! k =
  if P k then f <$> m !! k else None.
Proof. rewrite select_loop by apply order_NoDup. rewrite order_to_map, lookup_empty. by destruct (m !! k), (P k). Qed.
End traversal.

(** ** What a refresh leaves *)
Definition validp (st : store) (p : nat) : bool :=
  match objs st !! p with Some it => valid_item (online st) it | None => false end.
Definition present (st : store) (p : nat) : Prop := is_Some (objs st !! p).

(** The weight of an item is defined: it is positive, or the value of a fair
    item fits in an int32_t. *)
Definition weighable (now : Z) (it : LoadBalanceItem) : Prop :=
  if it_fair it then is_Some (to_i32 (SFmul 24 128 (f32 (it_weight it)) (set_weight now (it_stats it)).1))
  else 1 ≤ it_weight it < 2 ^ 31.
Definition healthy (now : Z) (st : store) : Prop := map_Forall (λ _ it, weighable now it) (objs st).
(** Weighing an item at [now] changes nothing but its statistics, which may
    be brought forward to [now]. *)
Definition aged (now : Z) (it it' : LoadBalanceItem) : Prop :=
  it' = it ∨ it' = set_item_stats (stats_init now (it_stats it)) it.
Definition quiet (now : Z) (st st' : store) : Prop :=
  online st' = online st ∧ closing st' = closing st ∧
  ∀ p, match objs st !! p, objs st' !! p with Some it, Some it' => aged now it it' | None, None => True | _, _ => False end.

Lemma stats_init_idem now x : stats_init now (stats_init now x) = stats_init now x.
Proof.
  unfold stats_init at 2 3. destruct (Z.ltb_spec (m_lastUpdateTime x) now) as [H|H]; unfold stats_init; cbn [m_lastUpdateTime].
  - by rewrite Z.ltb_irrefl.
  - by rewrite (proj2 (Z.ltb_ge _ _) H).
Qed.
Lemma aged_trans now a b c : aged now a b → aged now b c → aged now a c.
Proof.
  intros [->| ->] [->| ->]; [by left|by right|by right|right]. unfold set_item_stats; cbn. by rewrite stats_init_idem.
Qed.
Lemma aged_weighable now it it' : aged now it it' → weighable now it → weighable now it'.
Proof.
  intros [->| ->]; [done|]. unfold weighable, set_weight; cbn [set_item_stats it_fair it_weight it_stats].
  by rewrite stats_init_idem.
Qed.
Lemma aged_valid now on it it' : aged now it it' → valid_item on it' = valid_item on it.
Proof. by intros [->| ->]. Qed.
Lemma quiet_refl now st : quiet now st st.
Proof. split_and!; [done..|]. intros p. destruct (objs st !! p); [by left|done]. Qed.
Lemma quiet_trans now a b c : quiet now a b → quiet now b c → quiet now a c.
Proof.
  intros (H1 & H2 & H3) (G1 & G2 & G3). split_and!; [congruence..|]. intros p. specialize (H3 p). specialize (G3 p).
  destruct (objs a !! p), (objs b !! p), (objs c !! p); try done. by eapply aged_trans.
Qed.
Lemma quiet_healthy now st st' : quiet now st st' → healthy now st → healthy now st'.
Proof.
  intros (_ & _ & H) Hh p it' Hp. specialize (H p). rewrite Hp in H. destruct (objs st !! p) as [it|] eqn:E; [|done].
  by eapply aged_weighable, Hh.
Qed.
Lemma quiet_validp now st st' p : quiet now st st' → validp st' p = validp st p.
Proof.
  intros (Ho & _ & H). unfold validp. specialize (H p). rewrite Ho.
  destruct (objs st !! p), (objs st' !! p); try done. by eapply aged_valid.
Qed.
Lemma quiet_present now st st' p : quiet now st st' → present st p → present st' p.
Proof. intros (_ & _ & H) [it Hp]. specialize (H p). rewrite Hp in H. unfold present. destruct (objs st' !! p); [done|done]. Qed.

Lemma valid_items_spec st ps : Forall (present st) ps → valid_items ps st = Ret (filter (λ p, validp st p = true) ps) st.
Proof.
  induction 1 as [|p ps [it Hp] _ IH]; [done|]. cbn [valid_items]. unfold cbind at 1, item_isValid, cbind at 1, deref_item, creads.
  rewrite Hp. rewrite (cbind_Ret _ _ _ _ _ IH). rewrite filter_cons.
  assert (Hv : validp st p = valid_item (online st) it) by (unfold validp; by rewrite Hp).
  destruct (valid_item (online st) it) eqn:E; [rewrite decide_True by done|rewrite decide_False by congruence]; done.
Qed.

(** The weight initNolock gives an item that is connected. *)
Definition weight_of (now : Z) (it : LoadBalanceItem) : Z :=
  if it_fair it then Z.max 1 (default 1 (to_i32 (SFmul 24 128 (f32 (it_weight it)) (set_weight now (it_stats it)).1)))
  else it_weight it.
Lemma weight_of_range now it : weighable now it → 1 ≤ weight_of now it < 2 ^ 31.
Proof.
  unfold weighable, weight_of. destruct (it_fair it); [|done]. intros [v Hv]. rewrite Hv. cbn [default].
  unfold to_i32 in Hv. repeat case_match; simplify_eq; try lia.
  all: apply andb_true_iff in H0 as [_ H0]; apply Z.ltb_lt in H0; cbn [id]; lia.
Qed.
Lemma aged_weight now it it' : aged now it it' → weight_of now it' = weight_of now it.
Proof.
  intros [->| ->]; [done|]. unfold weight_of, set_weight; cbn [set_item_stats it_fair it_weight it_stats].
  by rewrite stats_init_idem.
Qed.

Lemma item_getWeight_spec now p st it : objs st !! p = Some it → weighable now it → validp st p = true →
  ∃ st', item_getWeight now p st = Ret (weight_of now it) st' ∧ quiet now st st'.
Proof.
  intros Hp Hw Hv. unfold item_getWeight, deref_item. unfold cbind at 1. rewrite Hp.
  unfold weighable in Hw. unfold weight_of. destruct (it_fair it) eqn:Ef; cbn [negb]; [|by eexists; split; [|apply quiet_refl]].
  destruct Hw as [v Hv']. unfold set_weight at 1. unfold set_weight in Hv'; cbn [fst] in Hv'.
  unfold set_weight; cbn [fst]. rewrite Hv'. cbn [default id].
  unfold validp in Hv. rewrite Hp in Hv. unfold valid_item in Hv. destruct (it_stream it) as [s|]; [|done].
  unfold put_item, cbind, cmodify, cget, cret; cbn [online set_objs]. rewrite Hv.
  eexists; split.
  - f_equal. destruct (Z.ltb_spec 1 v); lia.
  - split_and!; [done..|]. intros q. cbn [objs set_objs]. destruct (decide (q = p)) as [->|Hne].
    + rewrite Hp, lookup_insert_eq. by right.
    + rewrite lookup_insert_ne by done. destruct (objs st !! q); [by left|done].
Qed.

(** The weights of a list of addresses. *)
Definition weights_of (now : Z) (st : store) (ps : list nat) : list Z :=
  (λ p, match objs st !! p with Some it => weight_of now it | None => 0 end) <$> ps.
Lemma weights_of_quiet now st st' ps : quiet now st st' → weights_of now st' ps = weights_of now st ps.
Proof.
  intros (_ & _ & H). apply list_fmap_ext. intros i p _. specialize (H p).
  destruct (objs st !! p), (objs st' !! p); try done. by apply aged_weight.
Qed.
Lemma weights_of_range now st ps : healthy now st → Forall (present st) ps → Forall (λ w, 1 ≤ w < 2 ^ 31) (weights_of now st ps).
Proof.
  intros Hh Hps. apply Forall_fmap. eapply Forall_impl; [done|]. intros p [it Hp]. cbn. rewrite Hp.
  by eapply weight_of_range, Hh.
Qed.
Lemma zsum_bound ws : Forall (λ w, 1 ≤ w < 2 ^ 31) ws →
  Z.of_nat (length ws) ≤ zsum ws ≤ (2 ^ 31 - 1) * Z.of_nat (length ws).
Proof. induction 1 as [|w ws Hw _ IH]; cbn [zsum foldr length]; [lia|]. fold (zsum ws). lia. Qed.

Lemma weigh_spec now t ps st : healthy now st → Forall (λ p, validp st p = true) ps →
  0 ≤ t → t + zsum (weights_of now st ps) < 2 ^ 63 →
  ∃ st', weigh now t ps st = Ret (sums t (weights_of now st ps)) st' ∧ quiet now st st'.
Proof.
  intros Hh Hv. revert t st Hh Hv. induction ps as [|p ps IH]; intros t st Hh Hv Ht Hs; cbn [weigh].
  { eexists; split; [done|apply quiet_refl]. }
  apply Forall_cons_1 in Hv as [Hp Hv].
  assert (∃ it, objs st !! p = Some it) as [it Eit] by (unfold validp in Hp; case_match; [by eexists|done]).
  pose proof (Hh _ _ Eit) as Hw. pose proof (weight_of_range _ _ Hw) as Hr.
  destruct (item_getWeight_spec _ _ _ _ Eit Hw Hp) as (st1 & E1 & Hq1). rewrite (cbind_Ret _ _ _ _ _ E1).
  assert (Hps : Forall (present st) ps).
  { eapply Forall_impl; [exact Hv|]. intros q. unfold validp, present. by destruct (objs st !! q). }
  pose proof (zsum_bound _ (weights_of_range _ _ _ Hh Hps)) as Hz.
  change (weights_of now st (p :: ps)) with
    (match objs st !! p with Some it => weight_of now it | None => 0 end :: weights_of now st ps) in *.
  rewrite Eit in *.
  change (zsum (weight_of now it :: weights_of now st ps)) with (weight_of now it + zsum (weights_of now st ps)) in Hs.
  rewrite (swrap_small 64 (t + weight_of now it)) by lia.
  destruct (IH (t + weight_of now it) st1) as (st2 & E2 & Hq2).
  - by eapply quiet_healthy.
  - eapply Forall_impl; [exact Hv|]. intros q. by rewrite (quiet_validp _ _ _ _ Hq1).
  - lia.
  - rewrite (weights_of_quiet _ _ _ _ Hq1). lia.
  - rewrite (cbind_Ret _ _ _ _ _ E2), (weights_of_quiet _ _ _ _ Hq1). eexists; split; [done|by eapply quiet_trans].
Qed.

(** The loop that looks for a valid item goes once around. *)
Definition turned {A} (r : nat) (l : list A) : list A := drop r l ++ take r l.
Lemma turned_lookup {A} (r i : nat) (l : list A) : (r < length l)%nat → (i < length l)%nat →
  turned r l !! i = l !! Z.to_nat ((Z.of_nat r + Z.of_nat i) mod Z.of_nat (length l)).
Proof.
  intros Hr Hi. unfold turned. destruct (decide (i < length l - r)%nat).
  - rewrite lookup_app_l by (rewrite length_drop; lia). rewrite lookup_drop, Z.mod_small by lia. f_equal. lia.
  - rewrite lookup_app_r, length_drop by (rewrite length_drop; lia). rewrite lookup_take_lt by lia.
    replace (Z.of_nat r + Z.of_nat i) with (Z.of_nat (i - (length l - r)) + 1 * Z.of_nat (length l)) by lia.
    rewrite Z.mod_add, Z.mod_small by lia. f_equal. lia.
Qed.
Lemma first_valid_spec st items (r : nat) : Forall (present st) items → (r < length items)%nat →
  first_valid items (Z.of_nat r) (length items) 0 st = Ret (List.find (validp st) (turned r items)) st.
Proof.
  intros Hpres Hr. assert (Hlen : length (turned r items) = length items).
  { unfold turned. rewrite length_app, length_drop, length_take. lia. }
  assert (G : ∀ n i, (n + i = length items)%nat →
    first_valid items (Z.of_nat r) n (Z.of_nat i) st = Ret (List.find (validp st) (drop i (turned r items))) st).
  { induction n as [|n IH]; intros i Hi; cbn [first_valid].
    { rewrite drop_ge by lia. done. }
    rewrite <- turned_lookup by lia. destruct (turned r items !! i) as [h|] eqn:Eh; [|apply lookup_ge_None in Eh; lia].
    rewrite (drop_S _ _ _ Eh). cbn [List.find].
    assert (present st h) as [it Hp].
    { rewrite turned_lookup in Eh by lia. by eapply (Forall_lookup_1 (present st) items). }
    unfold cbind at 1, item_isValid, cbind at 1, deref_item, creads. rewrite Hp.
    replace (validp st h) with (valid_item (online st) it) by (unfold validp; by rewrite Hp).
    destruct (valid_item (online st) it); [done|]. replace (Z.of_nat i + 1) with (Z.of_nat (S i)) by lia. apply IH. lia. }
  rewrite <- (drop_0 (turned r items)). apply (G _ 0%nat). lia.
Qed.
Lemma find_turned {A} (P : A → bool) r l :
  match List.find P (turned r l) with
  | Some p => p ∈ l ∧ P p = true
  | None => ∀ p, p ∈ l → P p = false
  end.
Proof.
  assert (Hin : ∀ x, In x (turned r l) ↔ x ∈ l).
  { intros x. rewrite <- list_elem_of_In. unfold turned. rewrite <- (take_drop r l) at 3. rewrite !elem_of_app. tauto. }
  destruct (List.find P (turned r l)) as [p|] eqn:E.
  - apply find_some in E as [H1 H2]. split; [by apply Hin|done].
  - intros p Hp. apply (find_none _ _ E). by apply Hin.
Qed.

(** ** The balancer as a registry *)
Inductive lbop :=
  | LAdd (p : nat) | LDel (p : nat) | LUpdate (adds : gmap Z nat) (dels : gmap Z (option nat))
  | LSet (ps : list nat) | LGet (v rand ts : Z).
Definition item_key (st : store) (p : nat) : Z := match objs st !! p with Some it => it_id it | None => 0 end.

Section registry.
Context `{!IterOrder Z}.

Definition lb_exec (now : Z) (o : lbop) : M lb_state (option nat) :=
  match o with
  | LAdd p => let! _ := lb_add now p in cret None
  | LDel p => let! _ := lb_del now p in cret None
  | LUpdate adds dels => let! _ := lb_update now adds dels in cret None
  | LSet ps => let! _ := lb_set now ps in cret None
  | LGet v rand ts => lb_get now v rand ts
  end.
(** The registered items after an operation. *)
Definition lb_spec (st : store) (o : lbop) (m : gmap Z nat) : gmap Z nat :=
  match o with
  | LAdd p => <[item_key st p := p]> m
  | LDel p => delete (item_key st p) m
  | LUpdate adds dels => adds ∪ filter (λ x, dels !! x.1 = None) m
  | LSet ps => fold_left (λ m p, <[item_key st p := p]> m) ps ∅
  | LGet _ _ _ => m
  end.
Definition lb_op_ok (st : store) (o : lbop) : Prop :=
  match o with
  | LAdd p | LDel p => present st p
  | LUpdate adds _ => map_Forall (λ _ p, present st p) adds
  | LSet ps => Forall (present st) ps
  | LGet _ _ _ => True
  end.

Definition lb_inv (st : store) (b : LoadBalance) : Prop :=
  map_Forall (λ _ p, present st p) (lb_datas b) ∧
  (∀ p, p ∈ lb_items b → ∃ id, lb_datas b !! id = Some p) ∧
  Z.of_nat (length (lb_items b)) < 2 ^ 31 ∧
  (lb_class b = WeightLoadBalance →
   ∃ ws, m_weights b = sums 0 ws ∧ length ws = length (lb_items b) ∧ Forall (λ w, 1 ≤ w < 2 ^ 31) ws).

Lemma inv_items st b : lb_inv st b → Forall (present st) (lb_items b).
Proof. intros (H1 & H2 & _). apply Forall_forall. intros p Hp. destruct (H2 p Hp) as [id Hid]. by eapply H1. Qed.
Lemma inv_env st st' b : (∀ p, present st p → present st' p) → lb_inv st b → lb_inv st' b.
Proof. intros Hp (H1 & H2). split; [|done]. intros id p Hid. by eapply Hp, H1. Qed.

(** What initNolock does. *)
Definition refreshed (now : Z) (st : store) (b : LoadBalance) (b' : LoadBalance) : Prop :=
  lb_class b' = lb_class b ∧ lb_datas b' = lb_datas b ∧ m_lastInitTime b' = m_lastInitTime b ∧
  lb_items b' = filter (λ p, validp st p = true) ((order (lb_datas b)).*2).
Lemma initNolock_spec now st b : healthy now st → map_Forall (λ _ p, present st p) (lb_datas b) →
  Z.of_nat (size (lb_datas b)) < 2 ^ 31 →
  ∃ st' b', initNolock now (st, b) = Ret tt (st', b') ∧ quiet now st st' ∧ refreshed now st b b' ∧ lb_inv st' b'.
Proof.
  intros Hh Hp Hs.
  assert (Hps : Forall (present st) ((order (lb_datas b)).*2)).
  { apply Forall_forall. intros p Hin. apply order_values in Hin as [id Hid]. by eapply Hp. }
  set (items := filter (λ p, validp st p = true) ((order (lb_datas b)).*2)).
  assert (Hlen : Z.of_nat (length items) < 2 ^ 31).
  { unfold items. pose proof (length_filter (λ p, validp st p = true) ((order (lb_datas b)).*2)) as Hl.
    rewrite length_fmap, length_order in Hl. lia. }
  assert (Hreg : ∀ p, p ∈ items → ∃ id, lb_datas b !! id = Some p).
  { intros p Hin. apply list_elem_of_filter in Hin as [_ Hin]. by apply order_values. }
  unfold initNolock. unfold cbind at 1, cget. cbn [fst snd].
  unfold on_store at 1. unfold cbind at 1. cbn [fst snd]. rewrite valid_items_spec by done. fold items.
  unfold on_lb at 1, cmodify at 1, cbind at 1. cbn [fst snd].
  destruct (lb_class b) eqn:Ec.
  - eexists st, _. split_and!; [done|apply quiet_refl|by repeat split..|].
    split_and!; cbn [lb_datas lb_items lb_class set_lb_items]; [done..|]. by rewrite Ec.
  - assert (Hpi : Forall (present st) items).
    { apply Forall_forall. intros p Hin. destruct (Hreg p Hin) as [id Hid]. by eapply Hp. }
    pose proof (weights_of_range now st items Hh Hpi) as Hw. pose proof (zsum_bound _ Hw) as Hz.
    unfold weights_of in Hz. rewrite length_fmap in Hz. fold (weights_of now st items) in Hz.
    destruct (weigh_spec now 0 items st Hh) as (st' & E & Hq).
    + apply Forall_forall. intros p Hin. by apply list_elem_of_filter in Hin as [Hv _].
    + done.
    + lia.
    + unfold on_store at 1, cbind at 1. cbn [fst snd]. rewrite E. unfold on_lb, cmodify. cbn [fst snd].
      eexists st', _. split_and!; [done|done|by repeat split..|].
      apply (inv_env st); [intros p; by apply (quiet_present _ _ _ _ Hq)|].
      split_and!; cbn [lb_datas lb_items lb_class set_lb_items set_lb_weights m_weights]; [done..|].
      intros _. exists (weights_of now st items). split_and!; [done|by unfold weights_of; rewrite length_fmap|done].
Qed.

Lemma checkInit_spec now ts st b : healthy now st → lb_inv st b → Z.of_nat (size (lb_datas b)) < 2 ^ 31 →
  ∃ st' b', checkInit now ts (st, b) = Ret tt (st', b') ∧ quiet now st st' ∧ lb_inv st' b' ∧
    lb_datas b' = lb_datas b ∧ lb_class b' = lb_class b ∧
    (500 < u64 (ts - m_lastInitTime b) → lb_items b' = filter (λ p, validp st p = true) ((order (lb_datas b)).*2)).
Proof.
  intros Hh Hi Hs. unfold checkInit. unfold cbind at 1, cget. cbn [snd].
  destruct (Z.ltb_spec 500 (u64 (ts - m_lastInitTime b))).
  - destruct (initNolock_spec now st b Hh (proj1 Hi) Hs) as (st' & b' & E & Hq & (Hc & Hd & Ht & Hit) & Hi').
    unfold lb_init. rewrite (cbind_Ret _ _ _ _ _ E). unfold on_lb, cmodify. cbn [fst snd].
    eexists st', _. by split_and!.
  - exists st, b. split_and!; try done; [apply quiet_refl|lia].
Qed.

(** The answer of get: a valid item of m_items, or none is valid. *)
Definition answer (st : store) (items : list nat) (res : option nat) : Prop :=
  match res with
  | Some p => p ∈ items ∧ validp st p = true
  | None => ∀ p, p ∈ items → validp st p = false
  end.
Lemma first_valid_answer st b (r : nat) : lb_inv st b → (r < length (lb_items b))%nat →
  ∃ res, on_store (first_valid (lb_items b) (Z.of_nat r) (length (lb_items b)) 0) (st, b) = Ret res (st, b) ∧
    answer st (lb_items b) res.
Proof.
  intros Hi Hr. unfold on_store. cbn [fst snd]. rewrite first_valid_spec by (done || by apply inv_items).
  eexists; split; [done|]. apply find_turned.
Qed.
Lemma answer_nil st : answer st [] None.
Proof. intros p Hp. by apply not_elem_of_nil in Hp. Qed.

Lemma rr_get_scan now v rand ts s st b : checkInit now ts s = Ret tt (st, b) → lb_inv st b →
  ∃ res, rr_get now v rand ts s = Ret res (st, b) ∧ answer st (lb_items b) res.
Proof.
  intros E Hi. unfold rr_get. rewrite (cbind_Ret _ _ _ _ _ E). unfold cbind, cget. cbn [fst snd].
  destruct (lb_items b) as [|x l] eqn:El; [exists None; split; [done|apply answer_nil]|].
  rewrite <- El. pose proof Hi as (_ & _ & Hl & _). assert (length (lb_items b) ≠ 0)%nat by (rewrite El; done).
  pose proof (Z.mod_pos_bound (pick v rand) (Z.of_nat (length (lb_items b))) ltac:(lia)) as Hm.
  rewrite uwrap_id by (unfold in_u; lia).
  destruct (first_valid_answer st b (Z.to_nat (pick v rand mod Z.of_nat (length (lb_items b)))) Hi ltac:(lia)) as (res & Er & Hres).
  rewrite Z2Nat.id in Er by lia. by exists res.
Qed.
Lemma weight_get_scan now v rand ts s st b : checkInit now ts s = Ret tt (st, b) → lb_inv st b → lb_class b = WeightLoadBalance →
  ∃ res, weight_get now v rand ts s = Ret res (st, b) ∧ answer st (lb_items b) res.
Proof.
  intros E Hi Hc. pose proof Hi as (_ & _ & Hl & Hw). destruct (Hw Hc) as (ws & Ew & Elen & Hws).
  unfold weight_get. rewrite (cbind_Ret _ _ _ _ _ E). unfold cbind, cget. cbn [fst snd]. rewrite Ew.
  destruct (decide (ws = [])) as [->|Hne].
  { symmetry in Elen. apply nil_length_inv in Elen. rewrite Elen. exists None. split; [done|apply answer_nil]. }
  pose proof (zsum_bound _ Hws) as Hz. assert (length ws ≠ 0)%nat by (intros Hx; by apply nil_length_inv in Hx).
  destruct (getIdx_sums ws v rand Hne) as (i & Ei & Hil & _); [eapply Forall_impl; [done|]; cbn; lia|lia|lia|].
  rewrite Ei. destruct (Z.eqb_spec (Z.of_nat i) (-1)); [lia|]. apply first_valid_answer; [done|lia].
Qed.
Lemma lb_get_spec now v rand ts st b : healthy now st → lb_inv st b → Z.of_nat (size (lb_datas b)) < 2 ^ 31 →
  ∃ res st' b', lb_get now v rand ts (st, b) = Ret res (st', b') ∧ quiet now st st' ∧ lb_inv st' b' ∧
    lb_datas b' = lb_datas b ∧
    (500 < u64 (ts - m_lastInitTime b) → lb_items b' = filter (λ p, validp st p = true) ((order (lb_datas b)).*2)) ∧
    answer st (lb_items b') res.
Proof.
  intros Hh Hi Hs. destruct (checkInit_spec now ts st b Hh Hi Hs) as (st' & b' & E & Hq & Hi' & Hd & Hc & Hit).
  assert (∃ res, lb_get now v rand ts (st, b) = Ret res (st', b') ∧ answer st' (lb_items b') res) as (res & Er & Hres).
  { unfold lb_get. unfold cbind at 1, cget. cbn [snd]. destruct (lb_class b) eqn:Ec;
      [by apply rr_get_scan|by apply weight_get_scan]. }
  exists res, st', b'. split_and!; try done. unfold answer in *.
  destruct res; [by rewrite <- (quiet_validp _ _ _ _ Hq)|]. intros p. rewrite <- (quiet_validp _ _ _ p Hq). apply Hres.
Qed.

Lemma dels_loop (l : list (Z * option nat)) (dels : gmap Z (option nat)) (m : gmap Z nat) :
  let r := fold_left (λ '(dels, datas) '(id, _),
    match (datas : gmap Z nat) !! id with
    | Some p => (<[id := Some p]> dels, delete id datas)
    | None => (dels, datas)
    end) l (dels, m) in
  (∀ id, (r.2) !! id = if bool_decide (id ∈ l.*1) then None else m !! id) ∧
  (∀ id, (r.1) !! id = match m !! id with
                       | Some p => if bool_decide (id ∈ l.*1) then Some (Some p) else dels !! id
                       | None => dels !! id
                       end).
Proof.
  revert dels m. induction l as [|[k x] l IH]; intros dels m; cbn [fold_left fmap list_fmap fst].
  { split; intros id; rewrite bool_decide_eq_false_2 by (by intros ?%not_elem_of_nil); [done|]. by destruct (m !! id). }
  destruct (m !! k) as [p|] eqn:Ek.
  - destruct (IH (<[k := Some p]> dels) (delete k m)) as [H1 H2]. split; intros id; rewrite ?H1, ?H2; destruct (decide (id = k)) as [->|Hne].
    + rewrite lookup_delete_eq, (bool_decide_eq_true_2 (k ∈ k :: _)) by left. by case_match.
    + rewrite lookup_delete_ne by done. erewrite bool_decide_ext; [done|]. rewrite elem_of_cons. naive_solver.
    + rewrite lookup_delete_eq, lookup_insert_eq, Ek, (bool_decide_eq_true_2 (k ∈ k :: _)) by left. done.
    + rewrite lookup_delete_ne, lookup_insert_ne by done.
      rewrite (bool_decide_ext (id ∈ k :: l.*1) (id ∈ l.*1)); [done|]. rewrite elem_of_cons. naive_solver.
  - destruct (IH dels m) as [H1 H2]. split; intros id; rewrite ?H1, ?H2; destruct (decide (id = k)) as [->|Hne].
    + rewrite Ek. by do 2 case_match.
    + erewrite bool_decide_ext; [done|]. rewrite elem_of_cons. naive_solver.
    + by rewrite Ek.
    + rewrite (bool_decide_ext (id ∈ k :: l.*1) (id ∈ l.*1)); [done|]. rewrite elem_of_cons. naive_solver.
Qed.

Lemma change_spec now (m : gmap Z nat) st b : healthy now st → map_Forall (λ _ p, present st p) m → Z.of_nat (size m) < 2 ^ 31 →
  ∃ st' b', initNolock now (st, set_lb_datas m b) = Ret tt (st', b') ∧ quiet now st st' ∧ lb_inv st' b' ∧ lb_datas b' = m.
Proof.
  intros Hh Hp Hs. destruct (initNolock_spec now st (set_lb_datas m b)) as (st' & b' & E & Hq & (_ & Hd & _) & Hi); [done..|].
  by exists st', b'.
Qed.
Lemma on_item st b p k (Hp : present st p) : ∃ it, objs st !! p = Some it ∧ it_id it = item_key st p ∧
  (let! it := on_store (deref_item p) in k it) (st, b) = (k it : M lb_state unit) (st, b).
Proof.
  destruct Hp as [it Hit]. exists it. split_and!; [done|unfold item_key; by rewrite Hit|].
  unfold cbind, on_store, deref_item. cbn [fst snd]. by rewrite Hit.
Qed.
Lemma lb_set_loop st b ps : Forall (present st) ps →
  cfor ps (λ p, let! it := on_store (deref_item p) in on_lb (λ b, set_lb_datas (<[it_id it := p]> (lb_datas b)) b)) (st, b) =
  Ret tt (st, set_lb_datas (fold_left (λ m p, <[item_key st p := p]> m) ps (lb_datas b)) b).
Proof.
  intros H. revert b. induction H as [|p ps Hp _ IH]; intros b; cbn [cfor fold_left]; [by destruct b|].
  destruct (on_item st b p (λ it, on_lb (λ b, set_lb_datas (<[it_id it := p]> (lb_datas b)) b)) Hp) as (it & _ & Ek & E).
  unfold cbind at 1. rewrite E. unfold on_lb, cmodify. cbn [fst snd]. rewrite IH, Ek. done.
Qed.
Lemma update_spec now adds dels st b : healthy now st → map_Forall (λ _ p, present st p) (lb_datas b) →
  map_Forall (λ _ p, present st p) adds → Z.of_nat (size (lb_spec st (LUpdate adds dels) (lb_datas b))) < 2 ^ 31 →
  ∃ dels' st' b', lb_update now adds dels (st, b) = Ret dels' (st', b') ∧ quiet now st st' ∧ lb_inv st' b' ∧
    lb_datas b' = lb_spec st (LUpdate adds dels) (lb_datas b) ∧
    ∀ id, dels' !! id = (λ x, match lb_datas b !! id with Some p => Some p | None => x end) <$> dels !! id.
Proof.
  intros Hh Hi Ha Hs. unfold lb_update. unfold cbind at 1, cget. cbn [snd].
  destruct (fold_left _ (order dels) (dels, lb_datas b)) as [dels' datas] eqn:Ef.
  pose proof (dels_loop (order dels) dels (lb_datas b)) as [H2 H1]. rewrite Ef in H1, H2. cbn [fst snd] in H1, H2.
  rewrite insert_order.
  assert (Hm : adds ∪ datas = lb_spec st (LUpdate adds dels) (lb_datas b)).
  { cbn [lb_spec]. f_equal. apply map_eq. intros id. rewrite H2. destruct (dels !! id) as [x|] eqn:Ed.
    - rewrite bool_decide_eq_true_2 by (by apply order_keys). symmetry. apply map_lookup_filter_None. right.
      intros y _. cbn. by rewrite Ed.
    - rewrite bool_decide_eq_false_2 by (rewrite order_keys, Ed; by intros [? ?]).
      destruct (lb_datas b !! id) as [p|] eqn:Ep; symmetry;
        [by apply map_lookup_filter_Some|apply map_lookup_filter_None; by left]. }
  rewrite Hm. set (m := lb_spec st (LUpdate adds dels) (lb_datas b)) in *.
  unfold on_lb at 1, cmodify at 1, cbind at 1. cbn [fst snd].
  destruct (change_spec now m st b Hh) as (st' & b' & E & Hq & Hi' & Hd); [|done|].
  { intros id p Hp. unfold m in Hp. cbn [lb_spec] in Hp. apply lookup_union_Some_raw in Hp as [Hp|[_ Hp]].
    - by eapply Ha.
    - apply map_lookup_filter_Some in Hp as [Hp _]. by eapply Hi. }
  rewrite (cbind_Ret _ _ _ _ _ E). exists dels', st', b'. split_and!; try done.
  intros id. rewrite H1. destruct (lb_datas b !! id) as [p|] eqn:Ep; destruct (dels !! id) as [x|] eqn:Ed; try done.
  - by rewrite bool_decide_eq_true_2 by (by apply order_keys).
  - by rewrite bool_decide_eq_false_2 by (rewrite order_keys, Ed; by intros [? ?]).
Qed.

Lemma lb_exec_step now o st b : healthy now st → lb_inv st b → lb_op_ok st o → Z.of_nat (size (lb_datas b)) < 2 ^ 31 →
  Z.of_nat (size (lb_spec st o (lb_datas b))) < 2 ^ 31 →
  ∃ r st' b', lb_exec now o (st, b) = Ret r (st', b') ∧ quiet now st st' ∧ lb_inv st' b' ∧
    lb_datas b' = lb_spec st o (lb_datas b) ∧
    match o with
    | LGet v rand ts =>
      (500 < u64 (ts - m_lastInitTime b) → lb_items b' = filter (λ p, validp st p = true) ((order (lb_datas b)).*2)) ∧
      answer st (lb_items b') r
    | _ => True
    end.
Proof.
  intros Hh Hi Ho Hs Hs'. destruct o as [p|p|adds dels|ps|v rand ts]; cbn [lb_exec lb_op_ok lb_spec] in *.
  - unfold lb_add. destruct (on_item st b p (λ it, let! _ := on_lb (λ b, set_lb_datas (<[it_id it := p]> (lb_datas b)) b) in
      initNolock now) Ho) as (it & _ & Ek & E). unfold cbind at 1. rewrite E. rewrite <- Ek in *.
    unfold on_lb, cmodify, cbind. cbn [fst snd].
    destruct (change_spec now (<[it_id it := p]> (lb_datas b)) st b Hh) as (st' & b' & -> & Hq & Hi' & Hd); [|done|].
    { apply map_Forall_insert_2; [done|apply Hi]. }
    by exists None, st', b'.
  - unfold lb_del. destruct (on_item st b p (λ it, let! _ := on_lb (λ b, set_lb_datas (delete (it_id it) (lb_datas b)) b) in
      initNolock now) Ho) as (it & _ & Ek & E). unfold cbind at 1. rewrite E. rewrite <- Ek in *.
    unfold on_lb, cmodify, cbind. cbn [fst snd].
    destruct (change_spec now (delete (it_id it) (lb_datas b)) st b Hh) as (st' & b' & -> & Hq & Hi' & Hd); [|done|].
    { apply map_Forall_delete, Hi. }
    by exists None, st', b'.
  - destruct (update_spec now adds dels st b Hh (proj1 Hi) Ho Hs') as (dels' & st' & b' & E & Hq & Hi' & Hd & _).
    rewrite (cbind_Ret _ _ _ _ _ E). by exists None, st', b'.
  - unfold lb_set, on_lb at 1, cmodify at 1. unfold cbind. cbn [fst snd]. rewrite lb_set_loop by done.
    change (lb_datas (set_lb_datas ∅ b)) with (∅ : gmap Z nat).
    change (set_lb_datas ?m (set_lb_datas ∅ b)) with (set_lb_datas m b).
    destruct (change_spec now (fold_left (λ m p, <[item_key st p := p]> m) ps ∅) st b Hh) as (st' & b' & E & Hq & Hi' & Hd); [|done|].
    { assert (G : ∀ m : gmap Z nat, map_Forall (λ _ p, present st p) m →
        map_Forall (λ _ p, present st p) (fold_left (λ m p, <[item_key st p := p]> m) ps m)).
      { clear -Ho. induction Ho as [|p ps Hp _ IH]; intros m Hm; [done|]. cbn. by apply IH, map_Forall_insert_2. }
      apply G, map_Forall_empty. }
    change (set_lb_datas (fold_left (λ m p, <[item_key st p := p]> m) ps ∅) (set_lb_datas ∅ b))
      with (set_lb_datas (fold_left (λ m p, <[item_key st p := p]> m) ps ∅) b). rewrite E.
    by exists None, st', b'.
  - destruct (lb_get_spec now v rand ts st b Hh Hi Hs) as (res & st' & b' & E & Hq & Hi' & Hd & Hit & Ha).
    by exists res, st', b'.
Qed.

(** The states of a balancer: new, changed by its operations at times when
    all weights are defined, while streams connect and disconnect, statistics
    and weights change and items are made. *)
Inductive lb_reach : store → LoadBalance → Prop :=
  | reach_new st c : lb_reach st (LoadBalance_new c)
  | reach_env st st' b : lb_reach st b → (∀ p, present st p → present st' p) → lb_reach st' b
  | reach_op now o st b r st' b' : lb_reach st b → healthy now st → lb_op_ok st o →
      Z.of_nat (size (lb_spec st o (lb_datas b))) < 2 ^ 31 →
      lb_exec now o (st, b) = Ret r (st', b') → lb_reach st' b'.

Lemma lb_reach_inv st b : lb_reach st b → lb_inv st b ∧ Z.of_nat (size (lb_datas b)) < 2 ^ 31.
Proof.
  induction 1 as [st c|st st' b _ [IH Hs] Hp|now o st b r st' b' _ [IH Hs] Hh Ho Hs' E].
  - split; [|cbn; rewrite map_size_empty; lia].
    split_and!; cbn; [apply map_Forall_empty|by intros p ?%not_elem_of_nil|lia|by exists []].
  - split; [by eapply inv_env|done].
  - destruct (lb_exec_step now o st b Hh IH Ho Hs Hs') as (r1 & st1 & b1 & E1 & _ & Hi & Hd & _).
    rewrite E in E1. injection E1 as <- <- <-. by rewrite Hd.
Qed.
End registry.
(** An order of traversal, for examples. *)
Definition natural_order {K} `{Countable K} : IterOrder K :=
  {| order _ m := map_to_list m; order_perm _ m := reflexivity (map_to_list m) |}.

(** C14: A balancer serves what is registered and connected. In every reachable
    state with defined weights the next add, del, update, set or get is
    defined and leaves the registered items the operation asks for; get
    returns an item that is registered and connected now, or null, and null
    only when none of the items seen at the last refresh is connected; when
    more than 500 ms have passed since it, when no registered item is. *)
Theorem balancer_serves `{!IterOrder Z} (now : Z) (o : lbop) (st : store) (b : LoadBalance)
    (Hr : lb_reach st b) (Hh : healthy now st) (Ho : lb_op_ok st o)
    (Hs : Z.of_nat (size (lb_spec st o (lb_datas b))) < 2 ^ 31) :
  ∃ r st' b', lb_exec now o (st, b) = Ret r (st', b') ∧ lb_reach st' b' ∧
    lb_datas b' = lb_spec st o (lb_datas b) ∧
    match o, r with
    | LGet _ _ _, Some p => validp st p = true ∧ ∃ id, lb_getById id b = Some p
    | LGet _ _ ts, None =>
      (∀ p, p ∈ lb_items b' → validp st p = false) ∧
      (500 < u64 (ts - m_lastInitTime b) → ∀ id p, lb_getById id b = Some p → validp st p = false)
    | _, _ => True
    end.
Proof.
  destruct (lb_reach_inv st b Hr) as [Hi Hs0].
  destruct (lb_exec_step now o st b Hh Hi Ho Hs0 Hs) as (r & st' & b' & E & _ & (_ & Hreg & _) & Hd & Ha).
  exists r, st', b'. split_and!; [done|by eapply reach_op|done|]. destruct o as [| | | |v rand ts]; try done.
  cbn [lb_spec] in Hd. destruct Ha as [Hit Ha]. destruct r as [p|].
  - destruct Ha as [Hin Hv]. split; [done|]. destruct (Hreg p Hin) as [id Hid]. exists id. unfold lb_getById. by rewrite <- Hd.
  - split; [exact Ha|]. intros Ht id p Hid. destruct (validp st p) eqn:Ev; [|done]. rewrite <- Ev. apply Ha.
    rewrite (Hit Ht). apply list_elem_of_filter. split; [done|]. apply order_values. by exists id.
Qed.

Definition lb_ex_store : store :=
  mkStore {[ 1%nat := mkItem 7 (Some 4%nat) 10 (HolderStatsSet_new 5) false;
             2%nat := mkItem 8 (Some 5%nat) 10000 (HolderStatsSet_new 5) true ]} {[ 4%nat; 5%nat ]} [].
Lemma balancer_serves_witness :
  let _ := natural_order (K := Z) in
  ∃ r st' b', lb_exec 9 (LUpdate {[ 7 := 1%nat; 8 := 2%nat ]} ∅) (lb_ex_store, LoadBalance_new WeightLoadBalance) = Ret r (st', b') ∧
    lb_reach st' b' ∧
    lb_datas b' = lb_spec lb_ex_store (LUpdate {[ 7 := 1%nat; 8 := 2%nat ]} ∅) (lb_datas (LoadBalance_new WeightLoadBalance)) ∧
    True.
Proof.
  intros H. refine (@balancer_serves H 9 (LUpdate {[ 7 := 1%nat; 8 := 2%nat ]} ∅) lb_ex_store _ (reach_new _ _) _ _ _).
  - apply map_Forall_insert_2; [cbn; lia|]. apply map_Forall_singleton. vm_compute. eauto.
  - apply map_Forall_insert_2; [by eexists|]. apply map_Forall_singleton. by eexists.
  - vm_compute. done.
Defined.

(** ** Service discovery keeps the balancers in step *)
Section in_step.
Context `{!IterOrder Z} {Info : Type} (cb : Info → option nat) (now : Z).

Definition sd_wf (d : sdlb) : Prop :=
  (∀ domain service lb, sd_find domain service d = Some lb → is_Some (sd_lbs d !! lb)) ∧
  map_Forall (λ _ b, lb_inv (sd_store d) b ∧ Z.of_nat (size (lb_datas b)) < 2 ^ 31) (sd_lbs d) ∧
  (∀ p, present (sd_store d) p ∨ is_Some (sd_lbs d !! p) → (p < sd_next d)%nat).

(** The stream of the item a service has registered under an id. *)
Definition item_stream (st : store) (p : nat) : option (option nat) := it_stream <$> objs st !! p.
Definition lb_streams (d : sdlb) (lb : nat) (id : Z) : option (option nat) :=
  b ← sd_lbs d !! lb; p ← lb_datas b !! id; item_stream (sd_store d) p.
Definition provider (domain service : string) (d : sdlb) (id : Z) : option (option nat) :=
  lb ← sd_find domain service d; lb_streams d lb id.
Definition registered (domain service : string) (d : sdlb) : gmap Z nat :=
  default ∅ (lb ← sd_find domain service d; b ← sd_lbs d !! lb; Some (lb_datas b)).
(** What a change of the providers asks for. *)
Definition provider_spec (old new : gmap Z Info) (f : Z → option (option nat)) (id : Z) : option (option nat) :=
  match old !! id, new !! id with
  | None, Some info => match cb info with Some s => Some (Some s) | None => f id end
  | Some _, None => None
  | _, _ => f id
  end.

(** The store with new items. *)
Definition extends (st st' : store) : Prop :=
  online st' = online st ∧ closing st' = closing st ∧ objs st ⊆ objs st'.
Lemma extends_refl st : extends st st.
Proof. by repeat split. Qed.
Lemma extends_trans a b c : extends a b → extends b c → extends a c.
Proof. intros (H1 & H2 & H3) (G1 & G2 & G3). split_and!; [congruence..|by etrans]. Qed.
Lemma extends_present st st' p : extends st st' → present st p → present st' p.
Proof. intros (_ & _ & H) [it Hp]. exists it. by eapply lookup_weaken. Qed.

(** A new item of any type has a weight. *)
Lemma fold_left_ext {A B} (f g : A → B → A) l a : (∀ a b, f a b = g a b) → fold_left f l a = fold_left g l a.
Proof. intros H. revert a. induction l as [|b l IH]; intros a; [done|]. cbn. by rewrite H, IH. Qed.
Lemma new_stats_clear : Forall (λ x, x = stats_clear) (m_stats (stats_init now (HolderStatsSet_new 5))) ∧
  length (m_stats (stats_init now (HolderStatsSet_new 5))) = 5%nat.
Proof.
  unfold stats_init. case_match; [|split; [by repeat constructor|done]]. cbn [m_stats]. rewrite length_init_loop. split; [|done].
  generalize (u32 (m_lastUpdateTime (HolderStatsSet_new 5) + 1)) (length (m_stats (HolderStatsSet_new 5))). intros t n.
  assert (Hc : Forall (λ x, x = stats_clear) (m_stats (HolderStatsSet_new 5))) by (by repeat constructor).
  revert Hc t. generalize (m_stats (HolderStatsSet_new 5)). induction n as [|n IH]; intros l Hc t; cbn [init_loop]; [done|].
  case_match; [|done]. by apply IH, Forall_insert.
Qed.
Lemma new_weighable t id s : weighable now (createLoadBalanceItem t id s 10000).
Proof.
  destruct t; [unfold weighable; cbn; lia..|]. unfold weighable, set_weight. cbn [it_fair it_weight it_stats createLoadBalanceItem fst].
  destruct new_stats_clear as [Hc Hl]. rewrite Hl.
  rewrite (fold_left_ext _ (λ v i, SFadd 24 128 v (stats_weight (to_f32 (dsub (f64 1) (dmul tenth (f64 i)))) stats_clear))).
  - vm_compute. eauto.
  - intros v i. f_equal. f_equal. destruct (m_stats _ !! _) as [x|] eqn:Ex; [|done]. exact (Forall_lookup_1 _ _ _ _ Hc Ex).
Qed.

Lemma make_items_spec t l infos d : sd_wf d → NoDup (l.*1) →
  ∃ infos' d', make_items cb t l infos d = Ret infos' d' ∧ extends (sd_store d) (sd_store d') ∧ sd_wf d' ∧
    sd_lbs d' = sd_lbs d ∧ sd_datas d' = sd_datas d ∧ (sd_next d ≤ sd_next d')%nat ∧
    (healthy now (sd_store d) → healthy now (sd_store d')) ∧
    (map_Forall (λ _ p, present (sd_store d) p) infos → map_Forall (λ _ p, present (sd_store d') p) infos') ∧
    ∀ id, match (list_to_map l : gmap Z Info) !! id ≫= cb with
          | Some s => ∃ p, infos' !! id = Some p ∧ objs (sd_store d') !! p = Some (createLoadBalanceItem t id s 10000)
          | None => infos' !! id = infos !! id
          end.
Proof.
  revert infos d. induction l as [|[k info] l IH]; intros infos d Hwf Hnd; cbn [make_items fmap list_fmap fst] in *.
  { by exists infos, d. }
  apply list.NoDup_cons in Hnd as [Hk Hnd]. pose proof Hk as Hk'. apply (not_elem_of_list_to_map_1 (M := gmap Z)) in Hk'.
  cbn [list_to_map foldr fst snd]. destruct (cb info) as [s|] eqn:Ecb.
  - unfold cbind, alloc_item. set (it := createLoadBalanceItem t k s 10000). set (p := sd_next d).
    set (d1 := mkSD _ _ _ _ _ _). pose proof Hwf as (Hlb & Hinv & Hfr).
    assert (Hnew : objs (sd_store d) !! p = None).
    { destruct (objs (sd_store d) !! p) eqn:E; [|done]. assert (p < p)%nat; [|lia]. apply Hfr. left. by eexists. }
    assert (Hx : extends (sd_store d) (sd_store d1)).
    { split_and!; [done..|]. by apply insert_subseteq. }
    assert (Hwf1 : sd_wf d1).
    { split_and!; [done| |].
      - eapply map_Forall_impl; [exact Hinv|]. intros q b [Hb Hs]. split; [|done]. eapply inv_env; [|done].
        intros. by eapply extends_present.
      - intros q [[x Hq]|Hq]; cbn [sd_next sd_store sd_lbs objs set_objs d1] in *.
        + destruct (decide (q = p)) as [->|Hne]; [unfold p; lia|]. rewrite lookup_insert_ne in Hq by done.
          assert (q < sd_next d)%nat by (apply Hfr; left; by eexists). lia.
        + assert (q < sd_next d)%nat by (apply Hfr; by right). lia. }
    destruct (IH (<[k := p]> infos) d1 Hwf1 Hnd) as (infos' & d' & E & Hx' & Hwf' & Hl' & Hd' & Hn' & Hh' & Hpr' & Hspec).
    exists infos', d'. split_and!; try done.
    + by eapply extends_trans.
    + cbn [sd_next d1] in Hn'. lia.
    + intros Hh. apply Hh'. apply map_Forall_insert_2; [apply new_weighable|done].
    + intros Hp. apply Hpr', map_Forall_insert_2.
      * exists it. cbn. by rewrite lookup_insert_eq.
      * eapply map_Forall_impl; [exact Hp|]. intros. by eapply extends_present.
    + intros id. specialize (Hspec id). destruct (decide (id = k)) as [->|Hne].
      * rewrite lookup_insert_eq. cbn [mbind option_bind]. rewrite Ecb. rewrite Hk' in Hspec. cbn [mbind option_bind] in Hspec.
        rewrite lookup_insert_eq in Hspec. exists p. split; [done|]. destruct Hx' as (_ & _ & Hsub).
        eapply lookup_weaken; [|exact Hsub]. cbn. by rewrite lookup_insert_eq.
      * rewrite lookup_insert_ne by done. by rewrite lookup_insert_ne in Hspec.
  - destruct (IH infos d Hwf Hnd) as (infos' & d' & E & Hx' & Hwf' & Hl' & Hd' & Hn' & Hh' & Hpr' & Hspec).
    exists infos', d'. split_and!; try done. intros id. specialize (Hspec id). destruct (decide (id = k)) as [->|Hne].
    + rewrite lookup_insert_eq. cbn [mbind option_bind]. rewrite Ecb. by rewrite Hk' in Hspec.
    + by rewrite lookup_insert_ne.
Qed.

Lemma sd_create_find domain service d dm sv (lb : nat) :
  sd_find dm sv (mkSD (sd_store d) (sd_lbs d)
    (<[domain := <[service := lb]> (default ∅ (sd_datas d !! domain))]> (sd_datas d)) (sd_types d) (m_defaultType d) (sd_next d)) =
  if bool_decide (dm = domain ∧ sv = service) then Some lb else sd_find dm sv d.
Proof.
  unfold sd_find; cbn [sd_datas]. destruct (decide (dm = domain)) as [->|Hne].
  - rewrite lookup_insert_eq. cbn [mbind option_bind]. destruct (decide (sv = service)) as [->|Hne].
    + by rewrite lookup_insert_eq, bool_decide_eq_true_2.
    + rewrite lookup_insert_ne by done. rewrite bool_decide_eq_false_2 by tauto.
      destruct (sd_datas d !! domain); cbn [default mbind option_bind id]; [done|]. by rewrite lookup_empty.
  - rewrite lookup_insert_ne by done. by rewrite bool_decide_eq_false_2 by tauto.
Qed.

Lemma sd_get_spec domain service d : sd_wf d →
  ∃ lb b d1, lb_sd_get domain service true d = Ret (Some lb) d1 ∧ sd_wf d1 ∧ sd_store d1 = sd_store d ∧
    sd_find domain service d1 = Some lb ∧ sd_lbs d1 !! lb = Some b ∧ lb_datas b = registered domain service d ∧
    (∀ q, q ≠ lb → sd_lbs d1 !! q = sd_lbs d !! q) ∧
    (∀ id, lb_streams d1 lb id = provider domain service d id).
Proof.
  intros Hwf. pose proof Hwf as (Hlb & Hinv & Hfr). unfold lb_sd_get. unfold cbind at 1, creads.
  destruct (sd_find domain service d) as [lb|] eqn:Ef.
  - destruct (Hlb _ _ _ Ef) as [b Hb]. exists lb, b, d. unfold provider, registered. rewrite Ef. cbn. rewrite Hb. by split_and!.
  - cbn [negb]. unfold sd_create, cbind, creads, alloc_lb, cmodify, cret.
    set (b := createLoadBalance (sd_getType domain service d)). set (p := sd_next d).
    set (da := mkSD (sd_store d) (<[p := b]> (sd_lbs d)) (sd_datas d) (sd_types d) (m_defaultType d) (S p)).
    change (mkSD (sd_store d) (<[p := b]> (sd_lbs d)) _ (sd_types d) (m_defaultType d) (S p)) with da.
    eexists p, b, _. split_and!; [done| |done| | |by unfold registered; rewrite Ef| |].
    + split_and!.
      * intros dm sv lb Hx. rewrite sd_create_find in Hx. cbn [sd_lbs da].
        destruct (decide (lb = p)) as [->|Hne]; [rewrite lookup_insert_eq; by eexists|]. rewrite lookup_insert_ne by done.
        case_match; [congruence|]. by eapply Hlb.
      * cbn [sd_lbs sd_store da]. apply map_Forall_insert_2; [|done].
        apply (lb_reach_inv (sd_store d) b), (reach_new (sd_store d)).
      * intros q Hq. cbn [sd_next sd_lbs sd_store da] in *. destruct (decide (q = p)) as [->|Hne]; [lia|].
        rewrite lookup_insert_ne in Hq by done. specialize (Hfr q Hq). lia.
    + rewrite sd_create_find. by rewrite bool_decide_eq_true_2.
    + cbn [sd_lbs da]. by rewrite lookup_insert_eq.
    + intros q Hq. cbn [sd_lbs da]. by rewrite lookup_insert_ne.
    + intros id. unfold provider, lb_streams. rewrite Ef. cbn [sd_lbs da]. rewrite lookup_insert_eq. done.
Qed.

Lemma close_loop (l : list (Z * option nat)) d :
  Forall (λ x, match x.2 with Some p => present (sd_store d) p | None => True end) l →
  cfor l (λ x, match x.2 with Some p => on_sd_store (item_close p) | None => cret tt end) d =
  Ret tt (set_sd_store (mkStore (objs (sd_store d)) (online (sd_store d))
    (closing (sd_store d) ++ omap (λ x, p ← x.2; it ← objs (sd_store d) !! p; it_stream it) l)) d).
Proof.
  intros H. revert d H. induction l as [|[k x] l IH]; intros d H; cbn [cfor omap list_omap].
  { rewrite app_nil_r. by destruct d as [[] ? ? ? ? ?]. }
  apply Forall_cons_1 in H as [Hp H]. cbn [snd] in *. destruct x as [p|]; cbn [mbind option_bind].
  - destruct Hp as [it Hp]. unfold cbind at 1, on_sd_store, item_close, cbind at 1, deref_item. rewrite Hp. cbn [mbind option_bind].
    destruct (it_stream it) as [s|]; unfold cmodify, cret; cbv beta iota; rewrite IH by done; cbn [sd_store set_sd_store objs online closing].
    + by rewrite <- app_assoc.
    + by destruct d as [[] ? ? ? ? ?].
  - unfold cbind at 1, cret. by rewrite IH.
Qed.

Lemma update_size (adds m : gmap Z nat) (dels : gmap Z (option nat)) (new : gmap Z Info) :
  (∀ id, is_Some (adds !! id) → is_Some (new !! id)) →
  (size (adds ∪ filter (λ x, dels !! x.1 = None) m) ≤ size m + size new)%nat.
Proof.
  intros Ha. rewrite <- !(size_dom (D := gset Z)). rewrite dom_union_L.
  etrans; [apply (subseteq_size _ (dom m ∪ dom new))|].
  - intros id. rewrite !elem_of_union, !elem_of_dom. intros [H|H]; [right; by apply Ha|left].
    destruct H as [p Hp]. apply map_lookup_filter_Some in Hp as [Hp _]. by eexists.
  - rewrite size_union_alt. pose proof (subseteq_size (dom new ∖ dom m) (dom new) ltac:(set_solver)). lia.
Qed.

Lemma run_update lb b adds dels d : sd_wf d → healthy now (sd_store d) → sd_lbs d !! lb = Some b →
  map_Forall (λ _ p, present (sd_store d) p) adds →
  Z.of_nat (size (lb_spec (sd_store d) (LUpdate adds dels) (lb_datas b))) < 2 ^ 31 →
  ∃ dels' d' b', run_lb lb (lb_update now adds dels) d = Ret dels' d' ∧ sd_wf d' ∧ quiet now (sd_store d) (sd_store d') ∧
    sd_datas d' = sd_datas d ∧ sd_lbs d' = <[lb := b']> (sd_lbs d) ∧
    lb_datas b' = lb_spec (sd_store d) (LUpdate adds dels) (lb_datas b) ∧
    ∀ id, dels' !! id = (λ x, match lb_datas b !! id with Some p => Some p | None => x end) <$> dels !! id.
Proof.
  intros (Hlb & Hinv & Hfr) Hh Hb Ha Hs. destruct (Hinv _ _ Hb) as [(Hp & _) _].
  destruct (update_spec now adds dels (sd_store d) b Hh Hp Ha Hs) as (dels' & st' & b' & E & Hq & Hi' & Hd' & Hdels).
  unfold run_lb. rewrite Hb, E. eexists dels', _, b'. split_and!; try done.
  split_and!; cbn [sd_lbs sd_store sd_next fst snd].
  - intros dm sv q Hx. destruct (decide (q = lb)) as [->|Hne]; [rewrite lookup_insert_eq; by eexists|].
    rewrite lookup_insert_ne by done. by eapply (Hlb dm sv).
  - apply map_Forall_insert_2; [by rewrite Hd'|]. eapply map_Forall_impl; [exact Hinv|]. intros q c [Hc Hsz].
    split; [|done]. eapply inv_env; [|done]. intros r. by apply (quiet_present now).
  - intros q [[it Hx]|Hx]; apply Hfr.
    + left. destruct Hq as (_ & _ & Hq). specialize (Hq q). rewrite Hx in Hq. unfold present.
      destruct (objs (sd_store d) !! q); [by eexists|done].
    + right. destruct (decide (q = lb)) as [->|Hne]; [by eexists|]. by rewrite lookup_insert_ne in Hx.
Qed.

Lemma item_stream_quiet st st' p : quiet now st st' → item_stream st' p = item_stream st p.
Proof.
  intros (_ & _ & Hq). unfold item_stream. specialize (Hq p). destruct (objs st !! p), (objs st' !! p); try done.
  by destruct Hq as [->| ->].
Qed.
Lemma item_stream_extends st st' p : extends st st' → present st p → item_stream st' p = item_stream st p.
Proof. intros (_ & _ & H) [it Hp]. unfold item_stream. by rewrite Hp, (lookup_weaken _ _ _ _ Hp H). Qed.

(** The maps onServiceChange builds. *)
Record changes (old new : gmap Z Info) (t : lbtype) (st st2 : store) (m infos : gmap Z nat) (dels : gmap Z (option nat)) : Prop := {
  ch_dels id : dels !! id = if bool_decide (new !! id = None) then (λ _, None) <$> old !! id else None;
  ch_infos id : match (if bool_decide (old !! id = None) then new !! id else None) ≫= cb with
                | Some s => ∃ p, infos !! id = Some p ∧ objs st2 !! p = Some (createLoadBalanceItem t id s 10000)
                | None => infos !! id = None
                end;
  ch_store : extends st st2;
  ch_items : map_Forall (λ _ p, present st p) m
}.
Lemma changes_streams old new t st st2 m infos dels id : changes old new t st st2 m infos dels →
  (infos ∪ filter (λ x, dels !! x.1 = None) m) !! id ≫= item_stream st2 =
  provider_spec old new (λ id, m !! id ≫= item_stream st) id.
Proof.
  intros [Hd Hi Hx Hm]. specialize (Hd id). specialize (Hi id). unfold provider_spec.
  assert (Hkeep : infos !! id = None → dels !! id = None →
    (infos ∪ filter (λ x, dels !! x.1 = None) m) !! id ≫= item_stream st2 = m !! id ≫= item_stream st).
  { intros Hn Hdn. rewrite lookup_union_r by done. destruct (m !! id) as [p|] eqn:Ep.
    - rewrite (proj2 (map_lookup_filter_Some _ _ _ _) (conj Ep Hdn)). cbn. by apply item_stream_extends; [|eapply Hm].
    - by rewrite (proj2 (map_lookup_filter_None _ _ _) (or_introl Ep)). }
  destruct (old !! id) as [io|], (new !! id) as [ie|]; cbn in Hd, Hi; try by apply Hkeep.
  - rewrite lookup_union_r by done. rewrite (proj2 (map_lookup_filter_None _ _ _)); [done|]. right. intros y _. cbn. by rewrite Hd.
  - destruct (cb ie) as [s|]; [|by apply Hkeep]. destruct Hi as (p & Hp & Ho).
    rewrite (lookup_union_Some_l _ _ _ _ Hp). cbn. unfold item_stream. by rewrite Ho.
Qed.
Lemma changes_closed old new t st st2 st3 m infos dels (dels' : gmap Z (option nat)) :
  changes old new t st st2 m infos dels → quiet now st2 st3 →
  (∀ id, dels' !! id = (λ x, match m !! id with Some p => Some p | None => x end) <$> dels !! id) →
  omap (λ x, p ← x.2; it ← objs st3 !! p; it_stream it) (order dels') ≡ₚ
  omap (λ id, mjoin (m !! id ≫= item_stream st)) ((map_to_list (old ∖ new)).*1).
Proof.
  intros [Hd Hi Hx Hm] Hq Hdels'.
  assert (Hval : ∀ id x, dels' !! id = Some x → x = m !! id).
  { intros id x. rewrite Hdels', Hd. destruct (bool_decide (new !! id = None)), (old !! id); cbn; try done.
    intros [= <-]. by destruct (m !! id). }
  assert (He : omap (λ x, p ← x.2; it ← objs st3 !! p; it_stream it) (order dels') =
               omap (λ id, mjoin (m !! id ≫= item_stream st)) ((order dels').*1)).
  { apply list_omap_ext, Forall2_fmap_r, Forall_Forall2_diag, Forall_forall. intros [id x] Hin. apply order_elem, Hval in Hin.
    unfold compose. cbn [fst snd]. subst x. destruct (m !! id) as [p|] eqn:Ep; [|done]. cbn [mbind option_bind].
    rewrite <- (item_stream_extends st st2 p Hx) by (by eapply Hm). rewrite <- (item_stream_quiet _ _ _ Hq).
    unfold item_stream. by destruct (objs st3 !! p). }
  rewrite He. apply omap_Permutation, NoDup_Permutation; [apply order_NoDup|apply NoDup_fst_map_to_list|].
  intros id. rewrite order_keys, Hdels', Hd. rewrite list_elem_of_fmap. split.
  - intros Hs. destruct (new !! id) eqn:En; [cbn in Hs; by destruct Hs|]. destruct (old !! id) as [io|] eqn:Eo; [|cbn in Hs; by destruct Hs].
    exists (id, io). split; [done|]. by apply elem_of_map_to_list, lookup_difference_Some.
  - intros ([k io] & -> & Hin). apply elem_of_map_to_list, lookup_difference_Some in Hin as [Ho Hn]. cbn [fst].
    rewrite bool_decide_eq_true_2 by done. rewrite Ho. by eexists.
Qed.

Lemma service_change_step domain service old new d : sd_wf d → healthy now (sd_store d) →
  Z.of_nat (size (registered domain service d) + size new) < 2 ^ 31 →
  ∃ lb d' cl, onServiceChange cb now domain service old new d = Ret tt d' ∧ sd_wf d' ∧ healthy now (sd_store d') ∧
    sd_find domain service d' = Some lb ∧ (∀ q, q ≠ lb → sd_lbs d' !! q = sd_lbs d !! q) ∧
    (∀ id, lb_streams d' lb id = provider_spec old new (provider domain service d) id) ∧
    closing (sd_store d') = closing (sd_store d) ++ cl ∧
    cl ≡ₚ omap (λ id, mjoin (provider domain service d id)) ((map_to_list (old ∖ new)).*1).
Proof.
  intros Hwf Hh Hs. unfold onServiceChange. unfold cbind at 1, creads.
  destruct (sd_get_spec domain service d Hwf) as (lb & b & d1 & E1 & Hwf1 & Hst1 & Hf1 & Hb1 & Hreg & Hq1 & Hstr).
  rewrite (cbind_Ret _ _ _ _ _ E1).
  set (dels := fold_left _ (order old) ∅). set (adds := fold_left _ (order new) ∅).
  assert (Hdels : ∀ id, dels !! id = if bool_decide (new !! id = None) then (λ _, None) <$> old !! id else None).
  { intros id. apply (select_order (λ id, bool_decide (new !! id = None)) (λ _, @None nat)). }
  assert (Hadds : ∀ id, adds !! id = if bool_decide (old !! id = None) then new !! id else None).
  { intros id. unfold adds. rewrite (select_order (λ id, bool_decide (old !! id = None)) (λ x, x)). case_match; [|done].
    by destruct (new !! id). }
  destruct (make_items_spec (sd_getType domain service d) (order adds) ∅ d1 Hwf1 (order_NoDup _))
    as (infos & d2 & E2 & Hx2 & Hwf2 & Hl2 & Hd2 & _ & Hh2 & Hpr2 & Hspec2).
  rewrite (cbind_Ret _ _ _ _ _ E2). rewrite order_to_map in Hspec2.
  rewrite Hst1 in Hx2, Hh2, Hpr2. specialize (Hh2 Hh). specialize (Hpr2 (map_Forall_empty _)).
  assert (Hb2 : sd_lbs d2 !! lb = Some b) by (by rewrite Hl2).
  assert (Hch : changes old new (sd_getType domain service d) (sd_store d) (sd_store d2) (lb_datas b) infos dels).
  { split; [done| |done|].
    - intros id. specialize (Hspec2 id). rewrite Hadds in Hspec2. by rewrite lookup_empty in Hspec2.
    - rewrite <- Hst1. apply (proj1 (proj1 (proj1 (proj2 Hwf1) _ _ Hb1))). }
  assert (Hin : ∀ id, is_Some (infos !! id) → is_Some (new !! id)).
  { intros id. pose proof (ch_infos _ _ _ _ _ _ _ _ Hch id) as Hi. destruct (new !! id); [by eexists|].
    destruct (bool_decide (old !! id = None)); cbn in Hi; rewrite Hi; by intros [? ?]. }
  destruct (run_update lb b infos dels d2 Hwf2 Hh2 Hb2 Hpr2) as (dels' & d3 & b' & E3 & Hwf3 & Hq3 & Hd3 & Hl3 & Hdat & Hdels').
  { cbn [lb_spec]. pose proof (update_size infos (lb_datas b) dels new Hin). rewrite Hreg in *. lia. }
  rewrite (cbind_Ret _ _ _ _ _ E3).
  assert (Hclose : Forall (λ x, match x.2 with Some p => present (sd_store d3) p | None => True end) (order dels')).
  { apply Forall_forall. intros [id x] Hx. apply order_elem in Hx. cbn [snd]. rewrite Hdels', Hdels in Hx.
    destruct (bool_decide (new !! id = None)), (old !! id); cbn in Hx; try done.
    destruct (lb_datas b !! id) as [p|] eqn:Ep; [|by simplify_eq]. simplify_eq. apply (quiet_present _ _ _ _ Hq3).
    by apply (proj1 (proj1 (proj1 (proj2 Hwf2) _ _ Hb2)) id). }
  assert (Hprov : ∀ id, provider domain service d id = lb_datas b !! id ≫= item_stream (sd_store d)).
  { intros id. rewrite <- Hstr. unfold lb_streams. by rewrite Hb1, Hst1. }
  rewrite close_loop by done. eexists lb, _, _. split_and!; [done|..].
  - exact Hwf3.
  - exact (quiet_healthy _ _ _ Hq3 Hh2).
  - unfold sd_find in *. cbn [sd_datas set_sd_store]. by rewrite Hd3, Hd2.
  - intros q Hq. cbn [sd_lbs set_sd_store]. rewrite Hl3, lookup_insert_ne by done. rewrite Hl2. by apply Hq1.
  - intros id. trans (provider_spec old new (λ id, lb_datas b !! id ≫= item_stream (sd_store d)) id).
    + rewrite <- (changes_streams _ _ _ _ _ _ _ _ id Hch). unfold lb_streams. cbn [sd_lbs set_sd_store].
      rewrite Hl3, lookup_insert_eq. cbn [mbind option_bind]. rewrite Hdat. cbn [lb_spec].
      destruct (_ !! id) as [p|]; [|done]. cbn. exact (item_stream_quiet _ _ p Hq3).
    + unfold provider_spec. by rewrite Hprov.
  - cbn [sd_store set_sd_store closing]. destruct Hq3 as (_ & -> & _). destruct Hx2 as (_ & -> & _). done.
  - rewrite (changes_closed _ _ _ _ _ _ _ _ _ _ Hch Hq3 Hdels'). erewrite list_omap_ext; [done|].
    apply Forall_Forall2_diag, Forall_true. intros id. by rewrite Hprov.
Qed.
End in_step.

(** Service discovery and the balancer stay in step. onServiceChange is
    defined on every well-formed state, makes the balancer of the service if
    there is none and leaves all others alone. Afterwards a provider that is
    new has an item with the stream the callback made (and none if the
    callback failed), one that is gone has none, and the others keep theirs;
    the streams of those that are gone are closed, each once. So if the ids
    registered before were those of the old providers and every stream can
    be made, the ids registered after are those of the new providers. *)
Theorem service_change `{!IterOrder Z} {Info} (cb : Info → option nat) (now : Z) (domain service : string)
    (old new : gmap Z Info) (d : sdlb) (Hwf : sd_wf d) (Hh : healthy now (sd_store d))
    (Hs : Z.of_nat (size (registered domain service d) + size new) < 2 ^ 31) :
  ∃ lb d' cl, onServiceChange cb now domain service old new d = Ret tt d' ∧ sd_wf d' ∧ healthy now (sd_store d') ∧
    sd_find domain service d' = Some lb ∧ (∀ q, q ≠ lb → sd_lbs d' !! q = sd_lbs d !! q) ∧
    (∀ id, provider domain service d' id = provider_spec cb old new (provider domain service d) id) ∧
    closing (sd_store d') = closing (sd_store d) ++ cl ∧
    cl ≡ₚ omap (λ id, mjoin (provider domain service d id)) ((map_to_list (old ∖ new)).*1) ∧
    ((∀ id, is_Some (provider domain service d id) ↔ is_Some (old !! id)) → (∀ info, is_Some (cb info)) →
     ∀ id, is_Some (provider domain service d' id) ↔ is_Some (new !! id)).
Proof.
  destruct (service_change_step cb now domain service old new d Hwf Hh Hs)
    as (lb & d' & cl & E & Hwf' & Hh' & Hf & Hq & Hstr & Hcl & Hperm).
  assert (Hp : ∀ id, provider domain service d' id = provider_spec cb old new (provider domain service d) id).
  { intros id. rewrite <- Hstr. unfold provider. by rewrite Hf. }
  exists lb, d', cl. split_and!; try done. intros Hold Hcb id. rewrite Hp. unfold provider_spec. specialize (Hold id).
  destruct (old !! id), (new !! id) as [info|]; [| |destruct (Hcb info) as [s ->]|]; rewrite ?Hold; split; (by intros [? ?]) || by eexists.
Qed.

Definition sd_ex_cb (info : Z) : option nat := Some (Z.to_nat info).
Lemma service_change_witness :
  let _ := natural_order (K := Z) in
  let d := SDLoadBalance_new (mkStore ∅ ∅ []) 0 in
  ∃ lb d' cl, onServiceChange sd_ex_cb 9 "a" "b" (∅ : gmap Z Z) {[ 7 := 4 ]} d = Ret tt d' ∧ sd_wf d' ∧ healthy 9 (sd_store d') ∧
    sd_find "a" "b" d' = Some lb ∧ (∀ q, q ≠ lb → sd_lbs d' !! q = sd_lbs d !! q) ∧
    (∀ id, provider "a" "b" d' id = provider_spec sd_ex_cb ∅ {[ 7 := 4 ]} (provider "a" "b" d) id) ∧
    closing (sd_store d') = closing (sd_store d) ++ cl ∧
    cl ≡ₚ omap (λ id, mjoin (provider "a" "b" d id)) ((map_to_list ((∅ : gmap Z Z) ∖ {[ 7 := 4 ]})).*1) ∧
    ((∀ id, is_Some (provider "a" "b" d id) ↔ is_Some ((∅ : gmap Z Z) !! id)) → (∀ info, is_Some (sd_ex_cb info)) →
     ∀ id, is_Some (provider "a" "b" d' id) ↔ is_Some (({[ 7 := 4 ]} : gmap Z Z) !! id)).
Proof.
  intros H d. refine (@service_change H Z sd_ex_cb 9 "a" "b" ∅ {[ 7 := 4 ]} d _ _ _).
  - split_and!; [by intros ? ? ?|apply map_Forall_empty|]. intros p [[? Hp]|[? Hp]]; cbn in Hp; by rewrite lookup_empty in Hp.
  - apply map_Forall_empty.
  - vm_compute. done.
Defined.

(** With no gap in the connections, round robin gives each item its turn. *)
Lemma rr_rotation now v ts st b `{!IterOrder Z} : lb_inv st b → u64 (ts - m_lastInitTime b) ≤ 500 → 0 ≤ v < 2 ^ 64 - 1 →
  Forall (λ p, validp st p = true) (lb_items b) → lb_items b ≠ [] →
  rr_get now v 0 ts (st, b) = Ret (lb_items b !! Z.to_nat (v mod Z.of_nat (length (lb_items b)))) (st, b).
Proof.
  intros Hi Ht Hv Hall Hne. unfold rr_get, checkInit. unfold cbind at 1 2, cget. cbn [snd].
  rewrite (proj2 (Z.ltb_ge _ _) Ht). unfold cbind, cret. cbn [fst snd].
  destruct (lb_items b) as [|x l] eqn:El; [done|]. rewrite <- El in *. assert (length (lb_items b) ≠ 0)%nat by (rewrite El; done).
  unfold pick. destruct (Z.eqb_spec v (2 ^ 64 - 1)); [lia|].
  pose proof (Z.mod_pos_bound v (Z.of_nat (length (lb_items b))) ltac:(lia)) as Hm.
  pose proof Hi as (_ & _ & Hl & _). rewrite uwrap_id by (unfold in_u; lia).
  set (r := Z.to_nat (v mod Z.of_nat (length (lb_items b)))). replace (v mod _) with (Z.of_nat r) by (unfold r; lia).
  unfold on_store. cbn [fst snd]. rewrite first_valid_spec by (lia || by apply inv_items). f_equal. unfold turned.
  destruct (lb_items b !! r) as [p|] eqn:Ep; [|apply lookup_ge_None in Ep; unfold r in Ep; lia].
  rewrite (drop_S _ _ _ Ep). cbn [List.find app]. by rewrite (Forall_lookup_1 _ _ _ _ Hall Ep).
Qed.

(** A request that lasts longer than the ring turns the doing counter of a
    later second around: RockSDLoadBalance::request keeps the reference of
    the second it started in. The weight of the item is then outside the
    range of int32_t, and its conversion undefined. *)
Lemma late_answer_undefined :
  ∃ s, cfor [SGet 10; SUse 10 (incDoing 1); SUse 10 (incTotal 1); SGet 15; SUse 15 (incTotal 9); SUse 15 (incOks 9);
             SUse 10 (incOks 1); SUse 10 (decDoing 1)] (stats_exec 5) (HolderStatsSet_new 5) = Ret tt s ∧
    hs_doing <$> m_stats s !! 0%nat = Some (2 ^ 32 - 1) ∧
    item_getWeight 16 0 (mkStore {[ 0%nat := mkItem 7 (Some 4%nat) 10000 s true ]} {[ 4%nat ]} []) = Stuck OutOfBounds.
Proof. eexists. split; [vm_compute; reflexivity|]. split; vm_compute; reflexivity. Qed.

(** Two threads that ask for the same service at once, before it has a
    balancer, both make one: the first is returned but not kept. *)
Lemma sd_get_race (st : store) :
  let d := SDLoadBalance_new st 0 in
  ∃ d1 d2, sd_find "a" "b" d = None ∧ sd_create "a" "b" d = Ret 0%nat d1 ∧ sd_create "a" "b" d1 = Ret 1%nat d2 ∧
    sd_find "a" "b" d2 = Some 1%nat.
Proof. intros d. eexists _, _. split_and!; [reflexivity..|]. vm_compute. reflexivity. Qed.
(** All weights zero: getIdx divides by zero. *)
Lemma getIdx_zero v rand n : getIdx v rand (sums 0 (replicate (S n) 0)) = Stuck DivByZero.
Proof.
  unfold getIdx. rewrite last_sums by done. replace (zsum (replicate (S n) 0)) with 0; [done|].
  generalize (S n). intros k. induction k as [|k IH]; [done|]. change (0 = 0 + zsum (replicate k 0)). lia.
Qed.
