(* ===== verification/FiberSemaphore.v ===== *)
(** * FiberSemaphore (Sylar/mutex.h, mutex.cc)

    A semaphore whose waiters are fibers: a wait without a permit queues the
    fiber and yields, a notify schedules the first waiter. AsyncStream takes
    such semaphores for counters; this file proves that they are. *)
From Stdlib Require Import ZArith Lia.
From stdpp Require Import base list list_numbers numbers.
From S2P Require Import Prelude.
Local Open Scope Z_scope.

Record FiberSemaphore := mkSem { fs_waiters : list nat; fs_concurrency : Z }.
Definition FiberSemaphore_new (initial_concurrency : Z) : FiberSemaphore := mkSem [] initial_concurrency.
Definition fs_tryWait : M FiberSemaphore bool := λ s,
  if 0 <? fs_concurrency s then Ret true (mkSem (fs_waiters s) (fs_concurrency s - 1)) else Ret false s.
(** Whether the fiber has to yield. *)
Definition fs_wait (fiber : nat) : M FiberSemaphore bool := λ s,
  if 0 <? fs_concurrency s then Ret false (mkSem (fs_waiters s) (fs_concurrency s - 1))
  else Ret true (mkSem (fs_waiters s ++ [fiber]) (fs_concurrency s)).
(** The fiber that is scheduled. *)
Definition fs_notify : M FiberSemaphore (option nat) := λ s,
  match fs_waiters s with
  | next :: ws => Ret (Some next) (mkSem ws (fs_concurrency s))
  | [] => Ret None (mkSem [] (u64 (fs_concurrency s + 1)))
  end.
(** ~FiberSemaphore *)
Definition fs_destroy : M FiberSemaphore unit := let! s := cget in cassert (bool_decide (fs_waiters s = [])).

(** ** The semaphore among fibers
    [resuming]: fibers a notify has scheduled and that have not run yet;
    [passed]: the waits that have returned, in order; [came]: the waits (and
    successful tries) in the order of their arrival. *)
Record sem_world := mkSW { sem : FiberSemaphore; resuming : list nat; passed : list nat; came : list nat; notified : nat }.
Inductive sem_event := SWait (f : nat) | STry (f : nat) | SNotify | SResume (f : nat).
Definition sem_exec (e : sem_event) : M sem_world unit := λ w,
  match e with
  | SWait f =>
    match fs_wait f (sem w) with
    | Ret false s => Ret tt (mkSW s (resuming w) (passed w ++ [f]) (came w ++ [f]) (notified w))
    | Ret true s => Ret tt (mkSW s (resuming w) (passed w) (came w ++ [f]) (notified w))
    | Exn x _ => Exn x w | Stuck r => Stuck r
    end
  | STry f =>
    match fs_tryWait (sem w) with
    | Ret true s => Ret tt (mkSW s (resuming w) (passed w ++ [f]) (came w ++ [f]) (notified w))
    | Ret false s => Ret tt w
    | Exn x _ => Exn x w | Stuck r => Stuck r
    end
  | SNotify =>
    match fs_notify (sem w) with
    | Ret (Some f) s => Ret tt (mkSW s (resuming w ++ [f]) (passed w) (came w) (S (notified w)))
    | Ret None s => Ret tt (mkSW s (resuming w) (passed w) (came w) (S (notified w)))
    | Exn x _ => Exn x w | Stuck r => Stuck r
    end
  | SResume f =>
    match list_find (λ g, g = f) (resuming w) with
    | Some (i, _) => Ret tt (mkSW (sem w) (delete i (resuming w)) (passed w ++ [f]) (came w) (notified w))
    | None => Stuck NoReturn
    end
  end.
Section history.
Context (initial : Z).
Inductive sem_reach : sem_world → Prop :=
  | sem_reach_new : sem_reach (mkSW (FiberSemaphore_new initial) [] [] [] 0)
  | sem_reach_step w e w' : sem_reach w → sem_exec e w = Ret tt w' → sem_reach w'.

(** The counter the semaphore stands for: what it may still let pass. *)
Definition permits (w : sem_world) : Z := fs_concurrency (sem w) + Z.of_nat (length (resuming w)).
Record SemInv (w : sem_world) : Prop := {
  sm_range : 0 <= fs_concurrency (sem w);
  sm_waiters : fs_waiters (sem w) ≠ [] → fs_concurrency (sem w) = 0;
  sm_order : came w ≡ₚ passed w ++ resuming w ++ fs_waiters (sem w);
  sm_count : initial + Z.of_nat (notified w) = permits w + Z.of_nat (length (passed w))
}.
Lemma sem_step w e w' : 0 <= initial → initial + Z.of_nat (notified w) + 1 < 2 ^ 64 → SemInv w → sem_exec e w = Ret tt w' → SemInv w'.
Proof.
  intros Hi Hb [H1 H2 H3 H4] E. unfold permits in H4. destruct e as [f|f| |f]; cbn [sem_exec] in E.
  - unfold fs_wait in E. destruct (Z.ltb_spec 0 (fs_concurrency (sem w))) as [Hc|Hc]; injection E as <-; split; unfold permits; cbn.
    + lia.
    + intros Hw. specialize (H2 Hw). lia.
    + rewrite H3. solve_Permutation.
    + rewrite length_app. cbn. lia.
    + done.
    + intros _. lia.
    + rewrite H3. solve_Permutation.
    + lia.
  - unfold fs_tryWait in E. destruct (Z.ltb_spec 0 (fs_concurrency (sem w))) as [Hc|Hc]; injection E as <-; [|by split].
    split; unfold permits; cbn; [lia|intros Hw; specialize (H2 Hw); lia|rewrite H3; solve_Permutation|rewrite length_app; cbn; lia].
  - unfold fs_notify in E. destruct (fs_waiters (sem w)) as [|f ws] eqn:Ew; injection E as <-.
    + assert (u64 (fs_concurrency (sem w) + 1) = fs_concurrency (sem w) + 1) as Eu by (apply uwrap_id; split; lia).
      split; unfold permits; cbn; rewrite ?Eu; [lia|done|done|lia].
    + split; unfold permits; cbn; [done|intros _; by apply H2|rewrite H3; solve_Permutation|rewrite length_app; cbn; lia].
  - destruct (list_find (λ g, g = f) (resuming w)) as [[i g]|] eqn:Ef; [|done]. injection E as <-.
    apply list_find_Some in Ef as (Hi' & -> & _). split; unfold permits; cbn; [done|done| |].
    + rewrite H3. rewrite (delete_Permutation _ _ _ Hi') at 1. solve_Permutation.
    + rewrite length_app, length_delete by (by eexists). cbn. apply lookup_lt_Some in Hi'. lia.
Qed.

(** A fiber semaphore is a counter that serves in order. In every
    interleaving of waits, tries, notifications and resumptions (without
    2^64 notifications) the counter, initial permits and notifications less
    the waits that returned, is not negative, a notification adds one to it
    and the return of a wait takes one off; every wait has returned, is about
    to be resumed or is queued, once; the queue is served first come, first
    served; and no wake-up is lost: a fiber is queued only while every permit
    is on its way to a fiber before it. *)
Theorem semaphore_counts (w : sem_world) (e : sem_event) (w' : sem_world) : 0 <= initial → sem_reach w →
  initial + Z.of_nat (notified w) + 1 < 2 ^ 64 → sem_exec e w = Ret tt w' →
  0 <= permits w ∧ initial + Z.of_nat (notified w) = permits w + Z.of_nat (length (passed w)) ∧
  permits w' = match e with
               | SNotify => permits w + 1
               | _ => permits w - (Z.of_nat (length (passed w')) - Z.of_nat (length (passed w)))
               end ∧
  came w ≡ₚ passed w ++ resuming w ++ fs_waiters (sem w) ∧
  (match e with SNotify => resuming w' ++ fs_waiters (sem w') = resuming w ++ fs_waiters (sem w) | _ => True end) ∧
  (fs_waiters (sem w) ≠ [] → permits w = Z.of_nat (length (resuming w))).
Proof.
  intros Hi Hr Hb E. assert (H : SemInv w).
  { clear E e w'. induction Hr as [|w0 e w1 Hr IH E]; [by split; unfold permits; cbn; [lia| | |lia]|]. assert (notified w0 ≤ notified w1)%nat.
    { destruct e; cbn [sem_exec fs_wait fs_tryWait fs_notify] in E; repeat case_match; simplify_eq; cbn; lia. }
    eapply sem_step; [done| |apply IH; lia|exact E]. destruct e; cbn [sem_exec] in E; unfold fs_wait, fs_tryWait, fs_notify in E; repeat case_match; simplify_eq; cbn in *; lia. }
  pose proof (sem_step _ _ _ Hi Hb H E) as [_ _ _ C']. destruct H as [H1 H2 H3 H4]. pose proof H4 as C. unfold permits in *. split_and!; [lia|lia| |done| |].
  - destruct e; cbn [sem_exec] in E; unfold fs_wait, fs_tryWait, fs_notify in E; repeat case_match; simplify_eq; cbn in *; lia.
  - destruct e; try done. cbn [sem_exec] in E. unfold fs_notify in E. destruct (fs_waiters (sem w)) eqn:Ew; simplify_eq; cbn; [done|]. by rewrite <- app_assoc.
  - intros Hw. rewrite (H2 Hw). lia.
Qed.
End history.

Lemma semaphore_counts_witness :
  sem_exec SNotify (mkSW (mkSem [7%nat] 0) [] [] [7%nat] 0) = Ret tt (mkSW (mkSem [] 0) [7%nat] [] [7%nat] 1) ∧
  permits (mkSW (mkSem [] 0) [7%nat] [] [7%nat] 1) = permits (mkSW (mkSem [7%nat] 0) [] [] [7%nat] 0) + 1.
Proof.
  split; [reflexivity|]. apply (semaphore_counts 0 (mkSW (mkSem [7%nat] 0) [] [] [7%nat] 0) SNotify); [lia| |cbn; lia|reflexivity].
  apply (sem_reach_step 0 (mkSW (FiberSemaphore_new 0) [] [] [] 0) (SWait 7)); [constructor|reflexivity].
Defined.
