(* ===== verification/Address.v ===== *)
(** * Addresses (Sylar/address.h, address.cc)

    IPv4, IPv6, Unix and unknown addresses: construction, masks, printing and
    comparison, and the look-up of a host. Structures of the socket API are
    records that hold what is in memory; the byte order of the host is a
    parameter. inet_pton, getaddrinfo and getifaddrs are parameters: what
    they return is an argument. Numbers are printed by [print_num]. *)
From Stdlib Require Import ZArith Lia Strings.Byte.
From stdpp Require Import base list list_numbers numbers.
From S2P Require Import Prelude ByteArray Text.
#[local] Open Scope byte_scope.
Local Open Scope Z_scope.

Definition AF_UNSPEC : Z := 0.
Definition AF_UNIX : Z := 1.
Definition AF_INET : Z := 2.
Definition AF_INET6 : Z := 10.

(** sockaddr_in, sockaddr_in6 and sockaddr_un as they are in memory; the
    family is the type. *)
Record sockaddr_in := mkIn { sin_port : Z; s_addr : Z; sin_zero : list byte }.
Record sockaddr_in6 := mkIn6 { sin6_port : Z; sin6_flowinfo : Z; s6_addr : list Z; sin6_scope_id : Z }.
Record UnixAddress := mkUnix { sun_path : list byte; un_length : Z }.
Inductive sockaddr := SIn (a : sockaddr_in) | SIn6 (a : sockaddr_in6) | SOther (family : Z) (data : list byte).
Inductive Address := IPv4Address (a : sockaddr_in) | IPv6Address (a : sockaddr_in6) | UnixAddr (u : UnixAddress) | UnknownAddress (family : Z) (data : list byte).

(** operator<< of an unsigned number, in base 10 or 16 *)
Definition num_digit (d : Z) : byte := byte_of_Z (if d <? 10 then d + Z_of_byte "0" else d - 10 + Z_of_byte "a").
Fixpoint num_digits (fuel : nat) (base v : Z) (acc : list byte) : list byte :=
  match fuel with
  | O => acc
  | S fuel => if v <? base then num_digit v :: acc else num_digits fuel base (v / base) (num_digit (v mod base) :: acc)
  end.
Definition print_num (base v : Z) : list byte := num_digits (S (Z.to_nat v)) base v [].

(** (1 << (sizeof(T) * 8 - bits)) - 1, computed in int *)
Definition CreateMask {S} (n : nat) (bits : Z) : M S Z :=
  let k := u64 (8 * Z.of_nat n - bits) in
  if k <? 31 then cret (uwrap (8 * Z.of_nat n) (2 ^ k - 1)) else cstuck BadShift.
(** value &= value - 1 until nothing is left; a value has at most [fuel] bits. *)
Fixpoint CountBytes_loop (fuel : nat) (value result : Z) : option Z :=
  match fuel with
  | O => if value =? 0 then Some result else None
  | S fuel => if value =? 0 then Some result else CountBytes_loop fuel (Z.land value (value - 1)) (result + 1)
  end.
Definition CountBytes (n : nat) (value : Z) : option Z := CountBytes_loop (8 * n) value 0.

(** The split of a host into node and service, before getaddrinfo. *)
Definition memchr (c : byte) (s : list byte) : option nat := fst <$> list_find (λ x, x = c) s.
Definition lookup_bracket (host : list byte) : list byte * option (list byte) :=
  match host with
  | "[" :: rest =>
    match memchr "]" rest with
    | Some k => (take k rest, match drop (S k) rest with ":" :: service => Some service | _ => None end)
    | None => ([], None)
    end
  | _ => ([], None)
  end.
Definition lookup_colon (host : list byte) : list byte * option (list byte) :=
  match memchr ":" host with
  | Some k =>
    let service := drop k host in
    match memchr ":" (drop (S k) host) with
    | None => (take k host, Some (drop (S k) host))
    | Some _ => ([], Some service)
    end
  | None => ([], None)
  end.
Definition lookup_split (host : list byte) : list byte * option (list byte) :=
  let (node, service) := lookup_bracket host in
  let (node, service) := if bool_decide (node = []) then lookup_colon host else (node, service) in
  (if bool_decide (node = []) then host else node, service).
(** Address::Create, of a sockaddr that may be null *)
Definition Address_Create (addr : option sockaddr) : option Address :=
  (λ a, match a with SIn a => IPv4Address a | SIn6 a => IPv6Address a | SOther f d => UnknownAddress f d end) <$> addr.
Definition is_ip (a : Address) : bool := match a with IPv4Address _ | IPv6Address _ => true | _ => false end.
Section lookup.
(** getaddrinfo: [None] is an error. *)
Context (getaddrinfo : list byte → option (list byte) → option (list (option sockaddr))).
Definition Lookup (result : list (option Address)) (host : list byte) : bool * list (option Address) :=
  let (node, service) := lookup_split host in
  match getaddrinfo node service with
  | None => (false, result)
  | Some l => let result := result ++ (Address_Create <$> l) in (negb (bool_decide (result = [])), result)
  end.
Definition LookupAny (host : list byte) : option Address :=
  let (ok, result) := Lookup [] host in if ok then a ← head result; a else None.
Definition LookupAnyIPAddress (host : list byte) : option Address :=
  let (ok, result) := Lookup [] host in
  if ok then r ← list_find (λ a, default false (is_ip <$> a) = true) result; r.2 else None.
End lookup.

(** getifaddrs: name, address and netmask of an interface; the pointers may
    be null. *)
Record ifaddr := mkIf { ifa_name : list byte; ifa_addr : option sockaddr; ifa_netmask : option sockaddr }.
Definition sa_family (a : sockaddr) : Z := match a with SIn _ => AF_INET | SIn6 _ => AF_INET6 | SOther f _ => f end.
Definition interface_entry (family : Z) (i : ifaddr) : M unit (option (list byte * (Address * Z))) :=
  let! a := cderef (ifa_addr i) in
  if negb (family =? AF_UNSPEC) && negb (family =? sa_family a) then cret None
  else
    match a with
    | SIn a =>
      let! m := cderef (ifa_netmask i) in
      match m with
      | SIn m => let! n := (match CountBytes 4 (s_addr m) with Some n => cret n | None => cstuck OutOfFuel end) in cret (Some (ifa_name i, (IPv4Address a, n)))
      | _ => cstuck OutOfBounds
      end
    | SIn6 a =>
      let! m := cderef (ifa_netmask i) in
      match m with
      | SIn6 m =>
        let! n := (match mapM (CountBytes 1) (s6_addr m) with Some l => cret (foldr Z.add 0 l) | None => cstuck OutOfFuel end) in
        cret (Some (ifa_name i, (IPv6Address a, n)))
      | _ => cstuck OutOfBounds
      end
    | SOther _ _ => cret None
    end.
Fixpoint interfaces (family : Z) (l : list ifaddr) : M unit (list (list byte * (Address * Z))) :=
  match l with
  | [] => cret []
  | i :: l =>
    let! e := interface_entry family i in
    let! es := interfaces family l in
    cret (match e with Some e => e :: es | None => es end)
  end.

(** GetInterfaceAddresses of a family, and of one interface; [ifs] is what
    getifaddrs gave, [None] an error. *)
Definition GetInterfaceAddresses (ifs : option (list ifaddr)) (family : Z) : M unit (bool * list (list byte * (Address * Z))) :=
  match ifs with
  | None => cret (false, [])
  | Some l => let! es := interfaces family l in cret (negb (bool_decide (es = [])), es)
  end.
Definition v4_any : sockaddr_in := mkIn 0 0 (replicate 8 x00).
Definition v6_any : sockaddr_in6 := mkIn6 0 0 (replicate 16 0) 0.
Definition GetInterfaceAddresses_of (ifs : option (list ifaddr)) (iface : list byte) (family : Z) : M unit (bool * list (Address * Z)) :=
  if bool_decide (iface = []) || bool_decide (iface = ["*"]) then
    cret (true, (if (family =? AF_INET) || (family =? AF_UNSPEC) then [(IPv4Address v4_any, 0)] else []) ++
                (if (family =? AF_INET6) || (family =? AF_UNSPEC) then [(IPv6Address v6_any, 0)] else []))
  else
    let! r := GetInterfaceAddresses ifs family in
    if negb r.1 then cret (false, [])
    else let result := (filter (λ e, e.1 = iface) r.2).*2 in cret (negb (bool_decide (result = [])), result).

(** ** IPv4 *)
Section order.
Context (host : endian).
#[local] Abbreviation bsle := (byteswapOnLittleEndian host).
Definition v4_new (address port : Z) : sockaddr_in := mkIn (bsle 2 port) (bsle 4 address) (replicate 8 x00).
(** [pton]: what inet_pton stored, [None] when it failed *)
Definition v4_Create (pton : option Z) (port : Z) : option sockaddr_in :=
  a ← pton; Some (mkIn (bsle 2 port) a (replicate 8 x00)).
Definition v4_insert (a : sockaddr_in) : list byte :=
  let addr := bsle 4 (s_addr a) in
  print_num 10 (Z.land (Z.shiftr addr 24) 255) ++ "." :: print_num 10 (Z.land (Z.shiftr addr 16) 255) ++ "." ::
  print_num 10 (Z.land (Z.shiftr addr 8) 255) ++ "." :: print_num 10 (Z.land addr 255) ++ ":" :: print_num 10 (bsle 2 (sin_port a)).
Definition with_s_addr (f : Z → Z) (a : sockaddr_in) : sockaddr_in := mkIn (sin_port a) (f (s_addr a)) (sin_zero a).
Definition v4_broadcastAddress {S} (prefix_len : Z) (a : sockaddr_in) : M S (option sockaddr_in) :=
  if 32 <? prefix_len then cret None
  else let! m := CreateMask 4 prefix_len in cret (Some (with_s_addr (λ x, Z.lor x (bsle 4 m)) a)).
Definition v4_networdAddress {S} (prefix_len : Z) (a : sockaddr_in) : M S (option sockaddr_in) :=
  if 32 <? prefix_len then cret None
  else let! m := CreateMask 4 prefix_len in cret (Some (with_s_addr (λ x, Z.land x (bsle 4 m)) a)).
Definition v4_subnetMask {S} (prefix_len : Z) : M S sockaddr_in :=
  let! m := CreateMask 4 prefix_len in cret (mkIn 0 (u32 (Z.lnot (bsle 4 m))) (replicate 8 x00)).
Definition v4_getPort (a : sockaddr_in) : Z := bsle 2 (sin_port a).
Definition v4_setPort (v : Z) (a : sockaddr_in) : sockaddr_in := mkIn (bsle 2 v) (s_addr a) (sin_zero a).

(** ** IPv6 *)
Definition v6_new (address : list Z) (port : Z) : sockaddr_in6 := mkIn6 (bsle 2 port) 0 address 0.
Definition v6_Create (pton : option (list Z)) (port : Z) : option sockaddr_in6 := a ← pton; Some (v6_new a port).
(** addr[i] of the uint16_t array, as printed: byteswapOnLittleEndian of two
    bytes in memory *)
Definition group16 (a : list Z) (i : nat) : Z :=
  bsle 2 (mem_value host [byte_of_Z (nth (2 * i) a 0); byte_of_Z (nth (2 * i + 1) a 0)]).
Definition is_zero (a : list Z) (i : nat) : bool := mem_value host [byte_of_Z (nth (2 * i) a 0); byte_of_Z (nth (2 * i + 1) a 0)] =? 0.
Fixpoint v6_insert_loop (n i : nat) (used_zeros : bool) (a : list Z) (os : list byte) : bool * list byte :=
  match n with
  | O => (used_zeros, os)
  | S n =>
    if is_zero a i && negb used_zeros then v6_insert_loop n (S i) used_zeros a os
    else
      let gap := negb (i =? 0)%nat && is_zero a (i - 1) && negb used_zeros in
      let os := if gap then os ++ [":"] else os in
      let os := if negb (i =? 0)%nat then os ++ [":"] else os in
      v6_insert_loop n (S i) (used_zeros || gap) a (os ++ print_num 16 (group16 a i))
  end.
Definition v6_insert (x : sockaddr_in6) : list byte :=
  let a := s6_addr x in
  let (used_zeros, os) := v6_insert_loop 8 0 false a ["["] in
  let os := if negb used_zeros && is_zero a 7 then os ++ [":"; ":"] else os in
  os ++ ["]"; ":"] ++ print_num 10 (bsle 2 (sin6_port x)).
(** a write to s6_addr[i] *)
Definition v6_byte {S} (i : nat) (f : Z → Z) (a : list Z) : M S (list Z) :=
  match a !! i with Some b => cret (<[i := f b]> a) | None => cstuck OutOfBounds end.
Definition v6_fill (i : nat) (v : Z) (a : list Z) : list Z := take i a ++ replicate (length a - i) v.
Definition v6_broadcastAddress {S} (prefix_len : Z) (x : sockaddr_in6) : M S sockaddr_in6 :=
  let! m := CreateMask 1 (prefix_len mod 8) in
  let! a := v6_byte (Z.to_nat (prefix_len / 8)) (λ b, Z.lor b m) (s6_addr x) in
  cret (mkIn6 (sin6_port x) (sin6_flowinfo x) (v6_fill (1 + Z.to_nat (prefix_len / 8)) 255 a) (sin6_scope_id x)).
Definition v6_networdAddress {S} (prefix_len : Z) (x : sockaddr_in6) : M S sockaddr_in6 :=
  let! m := CreateMask 1 (prefix_len mod 8) in
  let! a := v6_byte (Z.to_nat (prefix_len / 8)) (λ b, Z.land b m) (s6_addr x) in
  cret (mkIn6 (sin6_port x) (sin6_flowinfo x) (v6_fill (1 + Z.to_nat (prefix_len / 8)) 0 a) (sin6_scope_id x)).
Definition v6_subnetMask {S} (prefix_len : Z) : M S sockaddr_in6 :=
  let! m := CreateMask 1 (prefix_len mod 8) in
  let! a := v6_byte (Z.to_nat (prefix_len / 8)) (λ _, u8 (Z.lnot m)) (replicate 16 0) in
  cret (mkIn6 0 0 (replicate (Z.to_nat (prefix_len / 8)) 255 ++ drop (Z.to_nat (prefix_len / 8)) a) 0).
Definition v6_getPort (x : sockaddr_in6) : Z := bsle 2 (sin6_port x).
Definition v6_setPort (v : Z) (x : sockaddr_in6) : sockaddr_in6 := mkIn6 (bsle 2 v) (sin6_flowinfo x) (s6_addr x) (sin6_scope_id x).
(** IPAddress::Create: [res] the first result of getaddrinfo *)
Definition IPAddress_Create (res : option (option sockaddr)) (port : Z) : option Address :=
  r ← res; a ← Address_Create r;
  match a with
  | IPv4Address a => Some (IPv4Address (v4_setPort port a))
  | IPv6Address a => Some (IPv6Address (v6_setPort port a))
  | _ => None
  end.

(** ** Unix addresses: offsetof(sockaddr_un, sun_path) is 2, sun_path has 108
    bytes. *)
Definition path_offset : Z := 2.
Definition MAX_PATH_LEN : Z := 107.
Definition unix_empty : UnixAddress := mkUnix (replicate 108 x00) (path_offset + MAX_PATH_LEN).
Definition unix_new (path : list byte) : M unit UnixAddress :=
  let len := Z.of_nat (length path) + 1 in
  let len := match path with x00 :: _ => len - 1 | _ => len end in
  if 108 <? len then cthrow LogicError
  else
    let image := take (Z.to_nat len) (path ++ [x00]) in
    cret (mkUnix (image ++ replicate (108 - length image) x00) (u32 (len + path_offset))).
Definition setAddrLen (v : Z) (u : UnixAddress) : UnixAddress := mkUnix (sun_path u) v.
(** A NUL-terminated string in a buffer. *)
Definition c_str (s : list byte) : list byte := match memchr x00 s with Some k => take k s | None => s end.
Definition getPath (u : UnixAddress) : M unit (list byte) :=
  if (path_offset <? un_length u) && bool_decide (head (sun_path u) = Some x00) then
    let n := Z.to_nat (un_length u - path_offset - 1) in
    if (107 <? n)%nat then cstuck OutOfBounds else cret ("\" :: "0" :: take n (tail (sun_path u)))
  else if bool_decide (x00 ∈ sun_path u) then cret (c_str (sun_path u)) else cstuck OutOfBounds.

(** ** Comparison *)
Definition addr_image (a : Address) : list byte :=
  match a with
  | IPv4Address a => mem_image host 2 AF_INET ++ mem_image host 2 (sin_port a) ++ mem_image host 4 (s_addr a) ++ sin_zero a
  | IPv6Address a => mem_image host 2 AF_INET6 ++ mem_image host 2 (sin6_port a) ++ mem_image host 4 (sin6_flowinfo a) ++
      (byte_of_Z <$> s6_addr a) ++ mem_image host 4 (sin6_scope_id a)
  | UnixAddr u => mem_image host 2 AF_UNIX ++ sun_path u
  | UnknownAddress f d => mem_image host 2 f ++ d
  end.
Definition getAddrLen (a : Address) : Z :=
  match a with IPv4Address _ => 16 | IPv6Address _ => 28 | UnixAddr u => un_length u | UnknownAddress _ _ => 16 end.
Definition getFamily (a : Address) : Z :=
  match a with IPv4Address _ => AF_INET | IPv6Address _ => AF_INET6 | UnixAddr _ => AF_UNIX | UnknownAddress f _ => f end.
Fixpoint memcmp (n : nat) (a b : list byte) : M unit comparison :=
  match n with
  | O => cret Eq
  | S n =>
    match a, b with
    | x :: a, y :: b => match (Z_of_byte x ?= Z_of_byte y) with Eq => memcmp n a b | c => cret c end
    | _, _ => cstuck OutOfBounds
    end
  end.
Definition addr_lt (a b : Address) : M unit bool :=
  let! r := memcmp (Z.to_nat (Z.min (getAddrLen a) (getAddrLen b))) (addr_image a) (addr_image b) in
  cret (match r with Lt => true | Gt => false | Eq => getAddrLen a <? getAddrLen b end).
Definition addr_eq (a b : Address) : M unit bool :=
  if negb (getAddrLen a =? getAddrLen b) then cret false
  else let! r := memcmp (Z.to_nat (getAddrLen a)) (addr_image a) (addr_image b) in cret (match r with Eq => true | _ => false end).
Definition addr_ne (a b : Address) : M unit bool := let! r := addr_eq a b in cret (negb r).
End order.
