(* ===== verification/AddressMask.v ===== *)
(** * Masks of addresses (Sylar/address.cc)

    broadcastAddress, networdAddress and subnetMask of both IP versions, bit
    by bit, and the prefix length of a netmask. *)
From Stdlib Require Import ZArith Lia Strings.Byte.
From stdpp Require Import base list list_numbers numbers.
From S2P Require Import Prelude ByteArray Text Address.
Local Open Scope Z_scope.

(** ** Bits of byte sequences *)
Lemma le_value_testbit bs i : 0 <= i →
  Z.testbit (le_value bs) i = match bs !! Z.to_nat (i / 8) with Some b => Z.testbit (Z_of_byte b) (i mod 8) | None => false end.
Proof.
  revert i. induction bs as [|b bs IH]; intros i Hi; [by rewrite Z.bits_0|]. cbn [le_value].
  pose proof (Z_of_byte_range b) as Hb. unfold in_u in Hb. destruct (decide (i < 8)).
  - rewrite Z.div_small, Z.mod_small by lia. cbn. rewrite <- (Z.mod_pow2_bits_low _ 8) by lia. f_equal.
    change (2 ^ 8) with 256. rewrite Z.mul_comm, Z.mod_add by lia. apply Z.mod_small. cbn in Hb. lia.
  - replace (Z.to_nat (i / 8)) with (S (Z.to_nat ((i - 8) / 8))).
    2: { replace (i / 8) with ((i - 8) / 8 + 1) by (replace i with ((i - 8) + 1 * 8) at 2 by lia; rewrite Z.div_add by lia; lia). pose proof (Z.div_pos (i - 8) 8). lia. }
    cbn [lookup list_lookup]. replace (i mod 8) with ((i - 8) mod 8) by (replace i with ((i - 8) + 1 * 8) at 2 by lia; by rewrite Z.mod_add by lia).
    rewrite <- IH by lia. replace i with ((i - 8) + 8) at 1 by lia. rewrite <- Z.div_pow2_bits by lia. f_equal.
    change (2 ^ 8) with 256. rewrite Z.mul_comm, Z.div_add by lia. rewrite Z.div_small by (cbn in Hb; lia). lia.
Qed.
Lemma le_bytes_lookup n z i : (i < n)%nat → le_bytes n z !! i = Some (byte_of_Z (z / 256 ^ Z.of_nat i)).
Proof.
  revert z i. induction n as [|n IH]; intros z i Hi; [lia|]. destruct i as [|i]; cbn [le_bytes lookup list_lookup]; [by rewrite Z.pow_0_r, Z.div_1_r|].
  rewrite IH by lia. do 2 f_equal. rewrite Nat2Z.inj_succ, Z.pow_succ_r, Z.div_div by lia. done.
Qed.
Lemma byteswap_testbit n v i : 0 <= i < 8 * Z.of_nat n → Z.testbit (byteswap n v) i = Z.testbit v (8 * (Z.of_nat n - 1 - i / 8) + i mod 8).
Proof.
  intros Hi. unfold byteswap. rewrite le_value_testbit by lia.
  assert (Hd : 0 <= i / 8 < Z.of_nat n) by (split; [apply Z.div_pos; lia|apply Z.div_lt_upper_bound; lia]).
  pose proof (Z.mod_pos_bound i 8 ltac:(lia)). rewrite rev_alt; change (rev_append (le_bytes n v) []) with (reverse (le_bytes n v)); rewrite reverse_lookup by (rewrite length_le_bytes; lia).
  rewrite length_le_bytes, le_bytes_lookup by lia. rewrite Z_of_byte_of_Z. unfold uwrap. rewrite Z.mod_pow2_bits_low by lia.
  change 256 with (2 ^ 8). rewrite <- Z.pow_mul_r by lia. rewrite Z.div_pow2_bits by lia. f_equal. lia.
Qed.
Lemma byteswap_high n v i : 8 * Z.of_nat n <= i → Z.testbit (byteswap n v) i = false.
Proof.
  intros Hi. pose proof (le_value_range (rev (le_bytes n v))) as Hr. rewrite length_rev, length_le_bytes in Hr.
  unfold byteswap. rewrite <- (Z.mod_small (le_value _) (2 ^ (8 * Z.of_nat n))) by done. by apply Z.mod_pow2_bits_high; lia.
Qed.
Section swap.
Context (host : endian).
#[local] Abbreviation bsle := (byteswapOnLittleEndian host).
(** Where a bit of a value goes. *)
Definition swapped_bit (n : nat) (i : Z) : Z := match host with LittleEndian => 8 * (Z.of_nat n - 1 - i / 8) + i mod 8 | BigEndian => i end.
Lemma bsle_testbit n v i : 0 <= i < 8 * Z.of_nat n → Z.testbit (bsle n v) i = Z.testbit v (swapped_bit n i).
Proof. intros Hi. unfold swapped_bit. destruct host; cbn; [by apply byteswap_testbit|done]. Qed.
Lemma swapped_bit_range n i : 0 <= i < 8 * Z.of_nat n → 0 <= swapped_bit n i < 8 * Z.of_nat n.
Proof.
  intros Hi. unfold swapped_bit. destruct host; [|done]. assert (0 <= i / 8 < Z.of_nat n) by (split; [apply Z.div_pos; lia|apply Z.div_lt_upper_bound; lia]).
  pose proof (Z.mod_pos_bound i 8 ltac:(lia)). lia.
Qed.
Lemma swapped_bit_twice n i : 0 <= i < 8 * Z.of_nat n → swapped_bit n (swapped_bit n i) = i.
Proof.
  intros Hi. unfold swapped_bit. destruct host; [|done]. pose proof (Z.mod_pos_bound i 8 ltac:(lia)). pose proof (Z.div_mod i 8 ltac:(lia)).
  set (x := Z.of_nat n - 1 - i / 8) in *. replace ((8 * x + i mod 8) / 8) with x by (rewrite Z.mul_comm, Z.div_add_l, (Z.div_small (i mod 8)) by lia; lia).
  replace ((8 * x + i mod 8) mod 8) with (i mod 8) by (rewrite Z.mul_comm, Z.add_comm, Z.mod_add, Z.mod_mod by lia; done). lia.
Qed.
Lemma in_u_bits w v : 0 <= w → in_u w v ↔ 0 <= v ∧ ∀ i, w <= i → Z.testbit v i = false.
Proof.
  intros Hw. split.
  - intros [H1 H2]. split; [done|]. intros i Hi. rewrite <- (Z.mod_small v (2 ^ w)) by done. by apply Z.mod_pow2_bits_high; lia.
  - intros [H1 H2]. assert (v = v mod 2 ^ w) as ->; [|apply Z.mod_pos_bound, Z.pow_pos_nonneg; lia]. apply Z.bits_inj'. intros i Hi.
    destruct (decide (i < w)); [by rewrite Z.mod_pow2_bits_low|rewrite Z.mod_pow2_bits_high by lia; apply H2; lia].
Qed.
Lemma bsle_range n v : in_u (8 * Z.of_nat n) v → in_u (8 * Z.of_nat n) (bsle n v).
Proof. intros H. destruct host; cbn; [|done]. unfold byteswap. pose proof (le_value_range (rev (le_bytes n v))) as Hr. by rewrite length_rev, length_le_bytes in Hr. Qed.
(** Equality of values of n bytes, bit by bit. *)
Lemma bits_eq n x y : in_u (8 * Z.of_nat n) x → in_u (8 * Z.of_nat n) y → (∀ i, 0 <= i < 8 * Z.of_nat n → Z.testbit x i = Z.testbit y i) → x = y.
Proof.
  intros [_ Hx]%in_u_bits [_ Hy]%in_u_bits H; [|lia..]. apply Z.bits_inj'. intros i Hi. destruct (decide (i < 8 * Z.of_nat n)); [by apply H|].
  by rewrite Hx, Hy by lia.
Qed.
Lemma bsle_twice n v : in_u (8 * Z.of_nat n) v → bsle n (bsle n v) = v.
Proof.
  intros H. apply (bits_eq n); [by do 2 apply bsle_range|done|]. intros i Hi. rewrite !bsle_testbit, swapped_bit_twice by (done || by apply swapped_bit_range). done.
Qed.
Lemma in_u_lor n x y : in_u (8 * Z.of_nat n) x → in_u (8 * Z.of_nat n) y → in_u (8 * Z.of_nat n) (Z.lor x y).
Proof.
  intros [Hx0 Hx]%in_u_bits [Hy0 Hy]%in_u_bits; [|lia..]. apply in_u_bits; [lia|]. split; [by apply Z.lor_nonneg|]. intros i Hi. by rewrite Z.lor_spec, Hx, Hy.
Qed.
Lemma in_u_land n x y : in_u (8 * Z.of_nat n) x → 0 <= y → in_u (8 * Z.of_nat n) (Z.land x y).
Proof.
  intros [Hx0 Hx]%in_u_bits Hy; [|lia]. apply in_u_bits; [lia|]. split; [apply Z.land_nonneg; by left|]. intros i Hi. by rewrite Z.land_spec, Hx.
Qed.
Lemma bsle_lor n x y : in_u (8 * Z.of_nat n) x → in_u (8 * Z.of_nat n) y → bsle n (Z.lor x y) = Z.lor (bsle n x) (bsle n y).
Proof.
  intros Hx Hy. apply (bits_eq n); [by apply bsle_range, in_u_lor|by apply in_u_lor; apply bsle_range|]. intros i Hi.
  by rewrite Z.lor_spec, !bsle_testbit, Z.lor_spec.
Qed.
Lemma bsle_land n x y : in_u (8 * Z.of_nat n) x → in_u (8 * Z.of_nat n) y → bsle n (Z.land x y) = Z.land (bsle n x) (bsle n y).
Proof.
  intros Hx Hy. apply (bits_eq n); [by apply bsle_range, in_u_land, Hy|by apply in_u_land; [apply bsle_range|apply bsle_range in Hy; apply Hy]|]. intros i Hi.
  by rewrite Z.land_spec, !bsle_testbit, Z.land_spec.
Qed.
Lemma bsle_lnot n x : in_u (8 * Z.of_nat n) x → bsle n (uwrap (8 * Z.of_nat n) (Z.lnot x)) = uwrap (8 * Z.of_nat n) (Z.lnot (bsle n x)).
Proof.
  intros Hx. apply (bits_eq n); [apply bsle_range, uwrap_range; lia|apply uwrap_range; lia|]. intros i Hi. unfold uwrap.
  pose proof (swapped_bit_range n i Hi). rewrite bsle_testbit, !Z.mod_pow2_bits_low, !Z.lnot_spec, bsle_testbit by lia. done.
Qed.
End swap.

(** ** Masks *)
Lemma CreateMask_in {S} n bits (s : S) : 0 <= bits → (n = 4%nat ∧ 2 <= bits <= 32 ∨ n = 1%nat ∧ bits <= 8) →
  CreateMask n bits s = Ret (Z.ones (8 * Z.of_nat n - bits)) s.
Proof.
  intros H0 H. unfold CreateMask. assert (Hk : 0 <= 8 * Z.of_nat n - bits <= 30) by lia.
  rewrite (uwrap_id 64) by (split; lia). rewrite (proj2 (Z.ltb_lt _ _)) by lia. unfold cret. f_equal. rewrite Z.ones_equiv.
  rewrite uwrap_id; [lia|]. pose proof (Z.pow_pos_nonneg 2 (8 * Z.of_nat n - bits) ltac:(lia) ltac:(lia)).
  pose proof (Z.pow_le_mono_r 2 (8 * Z.of_nat n - bits) (8 * Z.of_nat n) ltac:(lia) ltac:(lia)). split; lia.
Qed.
Lemma CreateMask_out {S} bits (s : S) : 0 <= bits < 2 ^ 32 → ¬ (2 <= bits <= 32) → CreateMask 4 bits s = Stuck BadShift.
Proof.
  intros H0 H. unfold CreateMask. assert (31 <= u64 (8 * Z.of_nat 4 - bits)).
  { destruct (decide (bits <= 32)); [rewrite uwrap_id by (split; lia); lia|]. unfold uwrap.
    rewrite <- (Z.mod_unique_pos _ _ (-1) (2 ^ 64 + (8 * Z.of_nat 4 - bits))) by lia. lia. }
  by rewrite (proj2 (Z.ltb_ge _ _)) by lia.
Qed.
Lemma ones_in_u n k : 0 <= k <= 8 * Z.of_nat n → in_u (8 * Z.of_nat n) (Z.ones k).
Proof.
  intros Hk. rewrite Z.ones_equiv. pose proof (Z.pow_pos_nonneg 2 k ltac:(lia) ltac:(lia)).
  pose proof (Z.pow_le_mono_r 2 k (8 * Z.of_nat n) ltac:(lia) ltac:(lia)). split; lia.
Qed.
Lemma lnot_ones w k : 0 <= k <= w → uwrap w (Z.lnot (Z.ones k)) = 2 ^ w - 2 ^ k.
Proof.
  intros Hk. unfold uwrap, Z.lnot. rewrite Z.ones_equiv. pose proof (Z.pow_pos_nonneg 2 k ltac:(lia) ltac:(lia)). pose proof (Z.pow_le_mono_r 2 k w ltac:(lia) ltac:(lia)).
  rewrite <- (Z.mod_unique_pos _ _ (-1) (2 ^ w - 2 ^ k)) by lia. lia.
Qed.
Definition v4_value (host : endian) (a : sockaddr_in) : Z := byteswapOnLittleEndian host 4 (s_addr a).
Lemma v4_value_new host address port : in_u 32 address → v4_value host (v4_new host address port) = address.
Proof. intros H. by apply (bsle_twice host 4). Qed.

(** C25: The masks of an IPv4 address, for prefixes of 2 to 32 bits and on any
    host: broadcastAddress sets the host bits, subnetMask has the prefix bits
    set and no others, and networdAddress keeps the host bits and clears the
    prefix (the opposite of a network address). Prefixes of 0 and 1 bits shift
    or overflow an int, which is undefined; above 32 bits the first and the
    third return null and subnetMask is undefined. *)
Theorem v4_masks {S} (host : endian) (p : Z) (a : sockaddr_in) (s : S) : in_u 32 (s_addr a) → in_u 32 p →
  if decide (2 <= p <= 32) then
    ∃ b n m, v4_broadcastAddress host p a s = Ret (Some b) s ∧ v4_networdAddress host p a s = Ret (Some n) s ∧ v4_subnetMask host p s = Ret m s ∧
      v4_value host b = Z.lor (v4_value host a) (Z.ones (32 - p)) ∧ v4_value host n = v4_value host a mod 2 ^ (32 - p) ∧
      v4_value host m = 2 ^ 32 - 2 ^ (32 - p) ∧ sin_port b = sin_port a ∧ sin_port n = sin_port a
  else
    v4_subnetMask host p s = Stuck BadShift ∧
    (v4_broadcastAddress host p a s, v4_networdAddress host p a s) = if decide (p <= 1) then (Stuck BadShift, Stuck BadShift) else (Ret None s, Ret None s).
Proof.
  intros Ha [Hp0 Hp1]. unfold v4_broadcastAddress, v4_networdAddress, v4_subnetMask, v4_value. case_decide as Hp.
  - rewrite (proj2 (Z.ltb_ge _ _)) by lia. pose proof (CreateMask_in 4 p s Hp0 ltac:(left; done)) as E. change (8 * Z.of_nat 4 - p) with (32 - p) in E.
    rewrite !(cbind_Ret _ _ _ _ _ E). pose proof (ones_in_u 4 (32 - p) ltac:(lia)) as Ho. eexists _, _, _. split_and!; [done..| | | |done|done]; cbn [s_addr with_s_addr].
    + rewrite (bsle_lor host 4), (bsle_twice host 4); [done..|]. by apply (bsle_range host 4).
    + rewrite (bsle_land host 4), (bsle_twice host 4) by (done || by apply (bsle_range host 4)). apply Z.land_ones. lia.
    + change 32 with (8 * Z.of_nat 4) at 1. rewrite bsle_lnot, bsle_twice by (done || by apply bsle_range). apply lnot_ones. cbn. lia.
  - pose proof (CreateMask_out p s ltac:(lia) Hp) as E. rewrite !(cbind_Stuck _ _ _ _ E). split; [done|]. case_decide.
    + rewrite (proj2 (Z.ltb_ge _ _)) by lia. by rewrite !(cbind_Stuck _ _ _ _ E).
    + by rewrite (proj2 (Z.ltb_lt _ _)) by lia.
Qed.
Lemma v4_masks_witness : ∃ n, v4_networdAddress LittleEndian 24 (v4_new LittleEndian 0xC0A80105 80) tt = Ret (Some n) tt ∧ v4_value LittleEndian n = 5.
Proof.
  pose proof (v4_masks LittleEndian 24 (v4_new LittleEndian 0xC0A80105 80) tt ltac:(by vm_compute) ltac:(by vm_compute)) as H.
  destruct (decide (2 <= 24 <= 32)); [|lia]. destruct H as (b & n & m & _ & E & _ & _ & Hn & _). exists n. split; [exact E|]. rewrite Hn. by vm_compute.
Defined.

(** ** IPv6 *)
(** Bit [j] of an address, from the top. *)
Definition v6_bit (a : list Z) (j : Z) : bool := match a !! Z.to_nat (j / 8) with Some b => Z.testbit b (7 - j mod 8) | None => false end.
Lemma v6_fill_lookup k v a i : (i < length a)%nat → v6_fill k v a !! i = if (i <? k)%nat then a !! i else Some v.
Proof.
  intros Hi. unfold v6_fill. destruct (Nat.ltb_spec i k).
  - rewrite lookup_app_l by (rewrite length_take; lia). by rewrite lookup_take_lt.
  - rewrite lookup_app_r by (rewrite length_take; lia). rewrite length_take. apply lookup_replicate_2. lia.
Qed.
Lemma v6_bit_at a j b : 0 <= j < 128 → a !! Z.to_nat (j / 8) = Some b → v6_bit a j = Z.testbit b (7 - j mod 8).
Proof. intros Hj E. unfold v6_bit. by rewrite E. Qed.
(** Bits of the byte the prefix ends in. *)
Lemma split_bit p j : 0 <= p → 0 <= j → j / 8 = p / 8 → (7 - j mod 8 <? 8 - p mod 8) = negb (j <? p).
Proof.
  intros Hp Hj E. pose proof (Z.div_mod p 8 ltac:(lia)). pose proof (Z.div_mod j 8 ltac:(lia)).
  destruct (Z.ltb_spec (7 - j mod 8) (8 - p mod 8)), (Z.ltb_spec j p); cbn; lia.
Qed.
Lemma byte_before p j : 0 <= p → 0 <= j → (j / 8 < p / 8 → j < p) ∧ (p / 8 < j / 8 → p <= j).
Proof. intros Hp Hj. pose proof (Z.div_mod p 8 ltac:(lia)). pose proof (Z.div_mod j 8 ltac:(lia)). pose proof (Z.mod_pos_bound p 8). pose proof (Z.mod_pos_bound j 8). lia. Qed.
Lemma v6_index j : 0 <= j < 128 → 0 <= j / 8 < 16.
Proof. intros. split; [apply Z.div_pos; lia|apply Z.div_lt_upper_bound; lia]. Qed.

(** The masks of an IPv6 address, bit by bit, for prefixes below 128:
    broadcastAddress keeps the prefix and sets the other bits, subnetMask has
    the bits of the prefix set and no others, and networdAddress clears what
    follows the byte the prefix ends in but in that byte keeps the host bits
    and clears the prefix. A prefix of 128 writes past the end of the
    address. *)
Theorem v6_masks {S} (p : Z) (x : sockaddr_in6) (s : S) : length (s6_addr x) = 16%nat → 0 <= p <= 128 →
  if decide (p = 128) then
    v6_broadcastAddress p x s = Stuck OutOfBounds ∧ v6_networdAddress p x s = Stuck OutOfBounds ∧ v6_subnetMask p s = Stuck OutOfBounds
  else
    ∃ b n m, v6_broadcastAddress p x s = Ret b s ∧ v6_networdAddress p x s = Ret n s ∧ v6_subnetMask p s = Ret m s ∧
      ∀ j, 0 <= j < 128 →
        v6_bit (s6_addr b) j = (if j <? p then v6_bit (s6_addr x) j else true) ∧
        v6_bit (s6_addr m) j = (j <? p) ∧
        v6_bit (s6_addr n) j = if j / 8 <? p / 8 then v6_bit (s6_addr x) j else if j / 8 =? p / 8 then negb (j <? p) && v6_bit (s6_addr x) j else false.
Proof.
  intros Hl Hp. pose proof (Z.mod_pos_bound p 8 ltac:(lia)) as Hr. pose proof (CreateMask_in 1 (p mod 8) s ltac:(lia) ltac:(right; lia)) as E. change (8 * Z.of_nat 1 - p mod 8) with (8 - p mod 8) in E.
  unfold v6_broadcastAddress, v6_networdAddress, v6_subnetMask. rewrite !(cbind_Ret _ _ _ _ _ E). clear E. unfold v6_byte. case_decide as Hp'.
  - subst p. change (Z.to_nat (128 / 8)) with 16%nat. rewrite !lookup_ge_None_2 by (rewrite ?Hl; cbn; lia). done.
  - set (q := Z.to_nat (p / 8)). assert (Hq : (q < 16)%nat) by (pose proof (v6_index p); lia). assert (Eq : p / 8 = Z.of_nat q) by (pose proof (v6_index p); lia).
    destruct (lookup_lt_is_Some_2 (s6_addr x) q) as [c Hc]; [lia|]. rewrite Hc, lookup_replicate_2 by done. eexists _, _, _. split_and!; [done..|]. cbn [s6_addr].
    intros j Hj. pose proof (v6_index j Hj). pose proof (byte_before p j ltac:(lia) ltac:(lia)) as [B1 B2].
    assert (Ht : 0 <= 7 - j mod 8) by (pose proof (Z.mod_pos_bound j 8); lia).
    destruct (lookup_lt_is_Some_2 (s6_addr x) (Z.to_nat (j / 8))) as [d Hd]; [lia|]. rewrite (v6_bit_at _ _ d Hj Hd).
    destruct (decide (j / 8 = p / 8)) as [Ej|Ej].
    + assert (Ei : Z.to_nat (j / 8) = q) by lia. rewrite Ei, Hc in Hd. injection Hd as <-. rewrite (proj2 (Z.eqb_eq _ _) Ej), (proj2 (Z.ltb_ge (j / 8) (p / 8))) by lia.
      pose proof (split_bit p j ltac:(lia) ltac:(lia) Ej) as Hsb. split_and!.
      * erewrite v6_bit_at; [|done|rewrite Ei, v6_fill_lookup, (proj2 (Nat.ltb_lt _ _)), list_lookup_insert_eq by (rewrite ?length_insert, ?Hl; lia); done].
        rewrite Z.lor_spec, Z.testbit_ones, Hsb, (proj2 (Z.leb_le _ _)) by lia. destruct (j <? p); cbn; [by rewrite orb_false_r|by rewrite orb_true_r].
      * erewrite v6_bit_at; [|done|rewrite Ei, lookup_app_r, length_replicate, Nat.sub_diag, lookup_drop, Nat.add_0_r, list_lookup_insert_eq by (rewrite ?length_replicate; lia); done].
        unfold uwrap. rewrite Z.mod_pow2_bits_low, Z.lnot_spec, Z.testbit_ones, Hsb, (proj2 (Z.leb_le _ _)) by (pose proof (Z.mod_pos_bound j 8); lia). by destruct (j <? p).
      * erewrite v6_bit_at; [|done|rewrite Ei, v6_fill_lookup, (proj2 (Nat.ltb_lt _ _)), list_lookup_insert_eq by (rewrite ?length_insert, ?Hl; lia); done].
        rewrite Z.land_spec, Z.testbit_ones, Hsb, (proj2 (Z.leb_le _ _)) by lia. cbn. by rewrite andb_comm.
    + rewrite (proj2 (Z.eqb_neq _ _) Ej). destruct (decide (j / 8 < p / 8)) as [Hlt|Hge].
      * rewrite (proj2 (Z.ltb_lt _ _) Hlt), (proj2 (Z.ltb_lt j p)) by auto. split_and!.
        -- erewrite v6_bit_at; [done|done|]. rewrite v6_fill_lookup, (proj2 (Nat.ltb_lt _ _)), list_lookup_insert_ne by (rewrite ?length_insert, ?Hl; lia). done.
        -- erewrite v6_bit_at; [|done|rewrite lookup_app_l, lookup_replicate_2 by (rewrite ?length_replicate; lia); done].
           change 255 with (Z.ones 8). rewrite Z.testbit_ones, (proj2 (Z.leb_le _ _)), (proj2 (Z.ltb_lt _ _)) by (pose proof (Z.mod_pos_bound j 8); lia). done.
        -- erewrite v6_bit_at; [done|done|]. rewrite v6_fill_lookup, (proj2 (Nat.ltb_lt _ _)), list_lookup_insert_ne by (rewrite ?length_insert, ?Hl; lia). done.
      * rewrite (proj2 (Z.ltb_ge (j / 8) (p / 8))), (proj2 (Z.ltb_ge j p)) by (try apply B2; lia). split_and!.
        -- erewrite v6_bit_at; [|done|rewrite v6_fill_lookup, (proj2 (Nat.ltb_ge _ _)) by (rewrite ?length_insert, ?Hl; lia); done].
           change 255 with (Z.ones 8). rewrite Z.testbit_ones, (proj2 (Z.leb_le _ _)), (proj2 (Z.ltb_lt _ _)) by (pose proof (Z.mod_pos_bound j 8); lia). done.
        -- erewrite v6_bit_at; [|done|rewrite lookup_app_r, length_replicate, lookup_drop, list_lookup_insert_ne, lookup_replicate_2 by (rewrite ?length_replicate; lia); done]. apply Z.bits_0.
        -- erewrite v6_bit_at; [|done|rewrite v6_fill_lookup, (proj2 (Nat.ltb_ge _ _)) by (rewrite ?length_insert, ?Hl; lia); done]. apply Z.bits_0.
Qed.
Lemma v6_masks_witness : ∃ m, v6_subnetMask 61 tt = Ret m tt ∧ v6_bit (s6_addr m) 60 = true ∧ v6_bit (s6_addr m) 61 = false.
Proof.
  pose proof (v6_masks 61 v6_any tt eq_refl ltac:(lia)) as H. destruct (decide (61 = 128)); [lia|].
  destruct H as (b & nw & m & _ & _ & E & H). exists m. split; [exact E|]. split.
  - rewrite (proj1 (proj2 (H 60 ltac:(lia)))). reflexivity.
  - rewrite (proj1 (proj2 (H 61 ltac:(lia)))). reflexivity.
Defined.

(** ** The prefix of a netmask *)
Fixpoint one_bits (p : positive) : Z := match p with xH => 1 | xO p => one_bits p | xI p => 1 + one_bits p end.
Definition popcount (v : Z) : Z := match v with Zpos p => one_bits p | _ => 0 end.
Lemma one_bits_pos p : 1 <= one_bits p.
Proof. induction p; cbn; lia. Qed.
Lemma popcount_double v : 0 <= v → popcount (2 * v) = popcount v.
Proof. by destruct v. Qed.
Lemma popcount_clear p : 0 <= Z.land (Zpos p) (Zpos p - 1) ∧ popcount (Z.land (Zpos p) (Zpos p - 1)) = one_bits p - 1.
Proof.
  induction p as [p IH|p [IH0 IH]|].
  - replace (Z.land (Zpos (xI p)) (Zpos (xI p) - 1)) with (2 * Zpos p); [rewrite popcount_double by lia; cbn [popcount one_bits]; split; lia|].
    replace (Zpos (xI p) - 1) with (2 * Zpos p) by lia. apply Z.bits_inj'. intros i Hi. rewrite Z.land_spec.
    destruct (decide (i = 0)) as [->|]; [by rewrite !Z.testbit_even_0, andb_false_r|]. replace i with (Z.succ (i - 1)) by lia.
    change (Zpos (xI p)) with (2 * Zpos p + 1). rewrite Z.testbit_odd_succ, Z.testbit_even_succ by lia. by destruct (Z.testbit (Zpos p) (i - 1)).
  - replace (Z.land (Zpos (xO p)) (Zpos (xO p) - 1)) with (2 * Z.land (Zpos p) (Zpos p - 1)).
    { rewrite popcount_double by done. split; [lia|]. rewrite IH. done. }
    replace (Zpos (xO p) - 1) with (2 * (Zpos p - 1) + 1) by lia. change (Zpos (xO p)) with (2 * Zpos p). apply Z.bits_inj'. intros i Hi. rewrite Z.land_spec.
    destruct (decide (i = 0)) as [->|]; [by rewrite !Z.testbit_even_0|]. replace i with (Z.succ (i - 1)) by lia.
    rewrite Z.testbit_odd_succ, !Z.testbit_even_succ, Z.land_spec by lia. done.
  - done.
Qed.
Lemma one_bits_le n p : Zpos p < 2 ^ Z.of_nat n → one_bits p <= Z.of_nat n.
Proof.
  revert p. induction n as [|n IH]; intros p Hp; [cbn in Hp; lia|]. rewrite Nat2Z.inj_succ, Z.pow_succ_r in Hp by lia.
  destruct p as [p|p|]; cbn [one_bits]; [| |lia]; specialize (IH p ltac:(lia)); lia.
Qed.
(** CountBytes counts the bits that are set, within its bound. *)
Lemma CountBytes_popcount n v : in_u (8 * Z.of_nat n) v → CountBytes n v = Some (popcount v).
Proof.
  intros [H0 H1]. unfold CountBytes. assert (Hf : popcount v <= Z.of_nat (8 * n)).
  { destruct v as [|p|]; cbn [popcount]; [lia| |lia]. apply one_bits_le. by replace (Z.of_nat (8 * n)) with (8 * Z.of_nat n) by lia. }
  rewrite <- (Z.add_0_l (popcount v)). generalize 0 as r. clear H1. revert v H0 Hf. generalize (8 * n)%nat as fuel.
  induction fuel as [|fuel IH]; intros v H0 Hf r; cbn [CountBytes_loop]; (destruct v as [|p|]; [cbn; f_equal; lia| |lia]).
  - pose proof (one_bits_pos p). cbn in Hf. lia.
  - cbn [Z.eqb]. destruct (popcount_clear p) as [C1 C2]. pose proof (one_bits_pos p). cbn [popcount] in *.
    rewrite IH by (rewrite ?C2; lia). f_equal. rewrite C2. lia.
Qed.
(** The prefix of an interface is read back from the mask of the prefix. *)
Lemma prefix_of_mask (host : endian) (p : Z) : (2 <= p <= 32 → match v4_subnetMask host p tt with Ret m _ => CountBytes 4 (s_addr m) = Some p | _ => False end) ∧
  (0 <= p <= 127 → match v6_subnetMask p tt with Ret m _ => foldr Z.add 0 <$> mapM (CountBytes 1) (s6_addr m) = Some p | _ => False end).
Proof.
  assert (H4 : forallb (λ p, match v4_subnetMask host p tt with Ret m _ => bool_decide (CountBytes 4 (s_addr m) = Some p) | _ => false end) (seqZ 2 31) = true).
  { destruct host; by vm_compute. }
  assert (H6 : forallb (λ p, match v6_subnetMask p tt with Ret m _ => bool_decide (foldr Z.add 0 <$> mapM (CountBytes 1) (s6_addr m) = Some p) | _ => false end) (seqZ 0 128) = true).
  { by vm_compute. }
  rewrite forallb_forall in H4, H6. split; intros Hp; [specialize (H4 p)|specialize (H6 p)].
  - specialize (H4 ltac:(apply list_elem_of_In, elem_of_seqZ; lia)). destruct (v4_subnetMask _ _ _); try done. by apply bool_decide_eq_true in H4.
  - specialize (H6 ltac:(apply list_elem_of_In, elem_of_seqZ; lia)). destruct (v6_subnetMask _ _); try done. by apply bool_decide_eq_true in H6.
Qed.
