(* ===== verification/AddressText.v ===== *)
(** * Addresses as text (Sylar/address.cc)

    What insert prints denotes the address: a reader of dotted and
    colon-separated notation, with one run of zero groups written as two
    colons, gives the address back. *)
From Stdlib Require Import ZArith Lia Strings.Byte.
From stdpp Require Import base list list_numbers numbers.
From S2P Require Import Prelude ByteArray Text Address AddressMask.
#[local] Open Scope byte_scope.
Local Open Scope Z_scope.

(** ** Numbers *)
Definition digit_val (base : Z) (b : byte) : option Z := head (filter (λ d, num_digit d = b) (seqZ 0 base)).
Definition read_step (base : Z) (acc : option Z) (b : byte) : option Z := a ← acc; d ← digit_val base b; Some (base * a + d).
Definition read_num (base : Z) (s : list byte) : option Z := if bool_decide (s = []) then None else foldl (read_step base) (Some 0) s.
Class Base (base : Z) : Prop := { base_range : 2 <= base; base_digits : ∀ d, 0 <= d < base → digit_val base (num_digit d) = Some d ∧ num_digit d ≠ "." ∧ num_digit d ≠ ":" ∧ num_digit d ≠ "]" }.
Lemma base_check base : 2 <= base →
  forallb (λ d, bool_decide (digit_val base (num_digit d) = Some d ∧ num_digit d ≠ "." ∧ num_digit d ≠ ":" ∧ num_digit d ≠ "]")) (seqZ 0 base) = true → Base base.
Proof.
  intros Hb H. split; [done|]. intros d Hd. rewrite forallb_forall in H. specialize (H d ltac:(apply list_elem_of_In, elem_of_seqZ; lia)).
  by apply bool_decide_eq_true in H.
Qed.
#[export] Instance base10 : Base 10.
Proof. apply base_check; [lia|by vm_compute]. Qed.
#[export] Instance base16 : Base 16.
Proof. apply base_check; [lia|by vm_compute]. Qed.

(** Characters a number is printed with. *)
Definition plain_char (b : byte) : Prop := b ≠ "." ∧ b ≠ ":" ∧ b ≠ "]".
Section numbers.
Context (base : Z) `{!Base base}.
Lemma num_digits_spec fuel v acc : 0 <= v < Z.of_nat fuel → ∃ ds, num_digits fuel base v acc = ds ++ acc ∧ ds ≠ [] ∧ Forall plain_char ds ∧
  foldl (read_step base) (Some 0) ds = Some v.
Proof.
  pose proof (base_range (base := base)) as Hb. revert v acc. induction fuel as [|fuel IH]; intros v acc Hv; [lia|]. cbn [num_digits]. destruct (Z.ltb_spec v base) as [Hl|Hl].
  - destruct (base_digits (base := base) v ltac:(lia)) as (Hd & Hp). exists [num_digit v]. split_and!; [done|done|constructor; [exact Hp|constructor]|]. cbn. rewrite Hd. cbn. f_equal. lia.
  - destruct (IH (v / base) (num_digit (v mod base) :: acc)) as (ds & E & Hne & Hf & Hr).
    { split; [apply Z.div_pos; lia|]. assert (v / base < v) by (apply Z.div_lt; lia). lia. }
    pose proof (Z.mod_pos_bound v base ltac:(lia)). destruct (base_digits (base := base) (v mod base) ltac:(lia)) as (Hd & Hp).
    exists (ds ++ [num_digit (v mod base)]). rewrite E, <- app_assoc. split_and!; [done|by destruct ds|apply Forall_app; split; [done|constructor; [exact Hp|constructor]]|].
    rewrite foldl_app, Hr. cbn. rewrite Hd. cbn. f_equal. symmetry. apply Z.div_mod. lia.
Qed.
Lemma print_num_spec v : 0 <= v → print_num base v ≠ [] ∧ Forall plain_char (print_num base v) ∧ read_num base (print_num base v) = Some v.
Proof.
  intros Hv. unfold print_num. destruct (num_digits_spec (S (Z.to_nat v)) v [] ltac:(lia)) as (ds & -> & Hne & Hf & Hr). rewrite app_nil_r.
  split_and!; [done|done|]. unfold read_num. by rewrite bool_decide_eq_false_2.
Qed.
End numbers.

(** ** Fields *)
Fixpoint fields (d : byte) (s : list byte) : list (list byte) :=
  match s with
  | [] => [[]]
  | x :: s => if bool_decide (x = d) then [] :: fields d s else match fields d s with f :: fs => (x :: f) :: fs | [] => [[x]] end
  end.
Lemma fields_nonempty d s : fields d s ≠ [].
Proof. destruct s; cbn; [done|]. case_bool_decide; [done|]. by case_match. Qed.
Lemma fields_app d f s : d ∉ f → fields d (f ++ s) = match fields d s with g :: gs => (f ++ g) :: gs | [] => [] end.
Proof.
  intros Hf. induction f as [|x f IH]; [cbn; pose proof (fields_nonempty d s); by destruct (fields d s)|]. apply not_elem_of_cons in Hf as [Hx Hf].
  cbn [fields app]. rewrite bool_decide_eq_false_2 by (by intros ->). rewrite IH by done. pose proof (fields_nonempty d s). by destruct (fields d s).
Qed.
Lemma fields_join d fs : fs ≠ [] → Forall (λ f, d ∉ f) fs → fields d (join d fs) = fs.
Proof.
  intros Hne Hf. induction Hf as [|f fs Hf Hfs IH]; [done|]. destruct fs as [|g fs].
  - cbn [join]. rewrite <- (app_nil_r f) at 1. rewrite fields_app by done. cbn. by rewrite app_nil_r.
  - change (join d (f :: g :: fs)) with (f ++ d :: join d (g :: fs)). rewrite fields_app by done. cbn [fields]. rewrite bool_decide_eq_true_2 by done.
    rewrite app_nil_r. by rewrite IH.
Qed.
Lemma plain_not d f : (d = "." ∨ d = ":" ∨ d = "]") → Forall plain_char f → d ∉ f.
Proof. intros Hd Hf Hin. apply list_elem_of_lookup_1 in Hin as [i Hi]. destruct (Forall_lookup_1 _ _ _ _ Hf Hi) as (? & ? & ?). naive_solver. Qed.

(** ** IPv4 *)
Definition read_v4 (t : list byte) : option (Z * Z) :=
  match fields ":" t with
  | [a; p] =>
    match mapM (read_num 10) (fields "." a), read_num 10 p with
    | Some [b3; b2; b1; b0], Some port =>
      if forallb (λ b, b <? 256) [b3; b2; b1; b0] && (port <? 65536) then Some (((b3 * 256 + b2) * 256 + b1) * 256 + b0, port) else None
    | _, _ => None
    end
  | _ => None
  end.
Lemma four_bytes v : in_u 32 v → let b k := Z.land (Z.shiftr v (8 * k)) 255 in
  v = ((b 3 * 256 + b 2) * 256 + b 1) * 256 + b 0 ∧ ∀ k, 0 <= k → 0 <= b k < 256.
Proof.
  intros [H0 H1] b. assert (Hb : ∀ k, 0 <= k → b k = (v / 256 ^ k) mod 256).
  { intros k Hk. unfold b. change 255 with (Z.ones 8). rewrite Z.land_ones, Z.shiftr_div_pow2 by lia. by rewrite Z.pow_mul_r by lia. }
  split; [|intros k Hk; rewrite Hb by lia; apply Z.mod_pos_bound; lia]. rewrite !Hb by lia. change (256 ^ 0) with 1. change (256 ^ 1) with 256. change (256 ^ 2) with (256 * 256).
  change (256 ^ 3) with (256 * 256 * 256). rewrite Z.div_1_r, <- !Z.div_div by lia.
  assert (v / 256 / 256 / 256 < 256) by (repeat (apply Z.div_lt_upper_bound; [lia|]); cbn in H1; lia).
  assert (0 <= v / 256 / 256 / 256) by (repeat (apply Z.div_pos; [|lia]); lia).
  rewrite (Z.mod_small (v / 256 / 256 / 256)) by lia.
  pose proof (Z.div_mod v 256 ltac:(lia)). pose proof (Z.div_mod (v / 256) 256 ltac:(lia)). pose proof (Z.div_mod (v / 256 / 256) 256 ltac:(lia)). lia.
Qed.
Lemma v4_text host (a : sockaddr_in) (v := byteswapOnLittleEndian host 4 (s_addr a)) (p := byteswapOnLittleEndian host 2 (sin_port a)) :
  in_u 32 v → in_u 16 p → read_v4 (v4_insert host a) = Some (v, p).
Proof.
  intros Hv [Hp0 Hp1]. unfold v4_insert. fold v p. pose proof (four_bytes v Hv) as [Esum Hb]. cbn [Z.mul] in Esum. 
  assert (Eb0 : Z.land v 255 = Z.land (Z.shiftr v (8 * 0)) 255) by (by rewrite Z.shiftr_0_r). rewrite Eb0.
  change 24 with (8 * 3). change 16 with (8 * 2). change 8 with (8 * 1) at 3. set (b := λ k, Z.land (Z.shiftr v (8 * k)) 255).
  change (Z.land (Z.shiftr v (8 * 3)) 255) with (b 3). change (Z.land (Z.shiftr v (8 * 2)) 255) with (b 2).
  change (Z.land (Z.shiftr v (8 * 1)) 255) with (b 1). change (Z.land (Z.shiftr v (8 * 0)) 255) with (b 0).
  assert (Hr : ∀ k, 0 <= k → 0 <= b k < 256) by (intros k Hk; by apply Hb).
  destruct (print_num_spec 10 (b 3) ltac:(apply Hr; lia)) as (N3 & F3 & R3). destruct (print_num_spec 10 (b 2) ltac:(apply Hr; lia)) as (N2 & F2 & R2).
  destruct (print_num_spec 10 (b 1) ltac:(apply Hr; lia)) as (N1 & F1 & R1). destruct (print_num_spec 10 (b 0) ltac:(apply Hr; lia)) as (N0 & F0 & R0).
  destruct (print_num_spec 10 p ltac:(lia)) as (NP & FP & RP).
  set (dotted := join "." [print_num 10 (b 3); print_num 10 (b 2); print_num 10 (b 1); print_num 10 (b 0)]).
  assert (Et : print_num 10 (b 3) ++ "." :: print_num 10 (b 2) ++ "." :: print_num 10 (b 1) ++ "." :: print_num 10 (b 0) ++ ":" :: print_num 10 p =
    join ":" [dotted; print_num 10 p]) by (unfold dotted; cbn [join]; by rewrite <- !app_assoc; cbn [app]; rewrite <- !app_assoc; cbn [app]; rewrite <- !app_assoc).
  rewrite Et. unfold read_v4. rewrite fields_join; [|done|].
  2: { constructor; [|constructor; [by apply plain_not; [auto|]|constructor]]. unfold dotted. cbn [join].
       assert (Hn : ∀ f, Forall plain_char f → ":" ∉ f) by (intros f; apply plain_not; auto).
       rewrite !not_elem_of_app, !not_elem_of_cons, !not_elem_of_app, !not_elem_of_cons, !not_elem_of_app, !not_elem_of_cons. by split_and!; auto. }
  unfold dotted. rewrite fields_join; [|done|by repeat (constructor; [by apply plain_not; [auto|]|])]. cbn [mapM]. rewrite R3, R2, R1, R0, RP. cbn [mbind option_bind mret option_ret].
  pose proof (Hr 3 ltac:(lia)). pose proof (Hr 2 ltac:(lia)). pose proof (Hr 1 ltac:(lia)). pose proof (Hr 0 ltac:(lia)). cbn [forallb].
  rewrite !(proj2 (Z.ltb_lt _ _)) by (cbn in Hp1; lia). cbn [andb]. do 2 f_equal. symmetry. exact Esum.
Qed.

(** ** IPv6 *)
Definition read_group (f : list byte) : option Z := v ← read_num 16 f; if v <? 65536 then Some v else None.
(** Two empty fields at an end are one. *)
Definition strip (fs : list (list byte)) : list (list byte) := match fs with [] :: [] :: r => [] :: r | _ => fs end.
Definition read_groups (fs : list (list byte)) : option (list Z) :=
  let fs := rev (strip (rev (strip fs))) in
  match list_find (λ f, f = []) fs with
  | None => gs ← mapM read_group fs; if (length gs =? 8)%nat then Some gs else None
  | Some (i, _) =>
    pre ← mapM read_group (take i fs); post ← mapM read_group (drop (S i) fs);
    if (length pre + length post <=? 7)%nat then Some (pre ++ replicate (8 - length pre - length post) 0 ++ post) else None
  end.
Definition read_v6 (t : list byte) : option (list Z * Z) :=
  match fields "]" t with
  | [("[" :: body); (":" :: port)] => gs ← read_groups (fields ":" body); p ← read_num 10 port; if p <? 65536 then Some (gs, p) else None
  | _ => None
  end.

(** The groups of an address, and what is printed for them. *)
Definition v6_groups (a : list Z) : list Z := (λ i, 256 * nth (2 * i) a 0 + nth (2 * i + 1) a 0) <$> seq 0 8.
Definition hexg (g : Z) : list byte := print_num 16 g.
Definition after_colon (gs : list Z) : list byte := gs ≫= λ g, ":" :: hexg g.
Fixpoint in_zeros (gs : list Z) : list byte :=
  match gs with [] => [":"; ":"] | g :: gs => if g =? 0 then in_zeros gs else ":" :: ":" :: hexg g ++ after_colon gs end.
Fixpoint before_zeros (first : bool) (gs : list Z) : list byte :=
  match gs with
  | [] => []
  | g :: gs => if g =? 0 then in_zeros gs else (if first then hexg g else ":" :: hexg g) ++ before_zeros false gs
  end.
Fixpoint skip_zeros (l : list Z) : list Z := match l with [] => [] | x :: l' => if x =? 0 then skip_zeros l' else l end.
(** The groups before the first zero, and those after its run. *)
Fixpoint zero_run (gs : list Z) : list Z * option (list Z) :=
  match gs with
  | [] => ([], None)
  | g :: gs => if g =? 0 then ([], Some (skip_zeros gs)) else let (p, r) := zero_run gs in (g :: p, r)
  end.
Definition or_empty (fs : list (list byte)) : list (list byte) := match fs with [] => [[]] | _ => fs end.
Definition v6_fields (gs : list Z) : list (list byte) :=
  match zero_run gs with
  | (pre, None) => hexg <$> pre
  | (pre, Some post) => or_empty (hexg <$> pre) ++ [[]] ++ or_empty (hexg <$> post)
  end.

Lemma join_cons d f fs : fs ≠ [] → join d (f :: fs) = f ++ d :: join d fs.
Proof. by destruct fs. Qed.
Lemma after_colon_join gs : gs ≠ [] → after_colon gs = ":" :: join ":" (hexg <$> gs).
Proof.
  induction gs as [|g gs IH]; [done|]. intros _. unfold after_colon in *. cbn [mbind list_bind app fmap list_fmap]. destruct gs as [|h gs]; [cbn; by rewrite app_nil_r|].
  rewrite IH by done. rewrite (join_cons _ (hexg g)) by done. done.
Qed.
Lemma in_zeros_join gs : in_zeros gs = ":" :: join ":" ([] :: or_empty (hexg <$> skip_zeros gs)).
Proof.
  induction gs as [|g gs IH]; [done|]. cbn [in_zeros skip_zeros]. destruct (g =? 0); [done|]. cbn [fmap list_fmap or_empty]. rewrite join_cons by done. cbn [app].
  do 2 f_equal. destruct gs as [|h gs]; [cbn; by rewrite app_nil_r|]. rewrite after_colon_join by done. rewrite join_cons by done. done.
Qed.
Lemma before_zeros_join gs : before_zeros true gs = match v6_fields gs with [] => [] | fs => join ":" fs end ∧
  (gs ≠ [] → before_zeros false gs = match zero_run gs with ([], Some _) => before_zeros true gs | _ => ":" :: before_zeros true gs end).
Proof.
  induction gs as [|g gs [IH1 IH2]]; [done|]. cbn [before_zeros zero_run]. unfold v6_fields. cbn [zero_run]. destruct (g =? 0) eqn:Eg.
  - split; [|done]. rewrite in_zeros_join. cbn [fmap list_fmap or_empty app].
    rewrite (join_cons _ [] ([] :: _)) by done. done.
  - assert (E : hexg g ++ before_zeros false gs = join ":" match (let (p, r) := zero_run gs in (g :: p, r)) with
      | (pre, None) => hexg <$> pre | (pre, Some post) => or_empty (hexg <$> pre) ++ [[]] ++ or_empty (hexg <$> post) end).
    { destruct gs as [|h gs]; [cbn; by rewrite app_nil_r|]. rewrite IH2 by done. rewrite IH1. unfold v6_fields.
      destruct (zero_run (h :: gs)) as [pre [post|]] eqn:Ez.
      - destruct pre as [|q pre]; cbn [fmap list_fmap or_empty app].
        + rewrite (join_cons _ [] ([] :: _)), (join_cons _ (hexg g)) by done. done.
        + rewrite (join_cons _ (hexg g)) by (by destruct pre). done.
      - destruct pre as [|q pre]; [|cbn [fmap list_fmap]; rewrite (join_cons _ (hexg g)) by done; done].
        exfalso. cbn [zero_run] in Ez. destruct (h =? 0); [done|]. by destruct (zero_run gs). }
    split.
    + rewrite E. destruct (zero_run gs) as [pre [post|]]; cbn; [by destruct pre|done].
    + intros _. by destruct (zero_run gs).
Qed.

Section printing.
Context (host : endian) (a : list Z) (Ha : Forall (λ b, 0 <= b < 256) a).
Lemma nth_byte i : 0 <= nth i a 0 < 256.
Proof.
  destruct (decide (i < length a)%nat) as [H|H]; [|rewrite nth_overflow by lia; lia]. destruct (lookup_lt_is_Some_2 a i H) as [b Hb].
  rewrite (nth_lookup_Some _ _ _ _ Hb). by apply (Forall_lookup_1 _ _ _ _ Ha Hb).
Qed.
Definition grp (i : nat) : Z := 256 * nth (2 * i) a 0 + nth (2 * i + 1) a 0.
Lemma grp_range i : 0 <= grp i < 65536.
Proof. unfold grp. pose proof (nth_byte (2 * i)). pose proof (nth_byte (2 * i + 1)). lia. Qed.
Lemma byte_val z : 0 <= z < 256 → Z_of_byte (byte_of_Z z) = z.
Proof. intros H. rewrite Z_of_byte_of_Z. by apply uwrap_id. Qed.
Lemma group16_grp i : group16 host a i = grp i ∧ is_zero host a i = (grp i =? 0).
Proof.
  unfold group16, is_zero, grp. pose proof (nth_byte (2 * i)) as Hx. pose proof (nth_byte (2 * i + 1)) as Hy. set (x := nth (2 * i) a 0) in *. set (y := nth (2 * i + 1) a 0) in *.
  destruct host; cbn [byteswapOnLittleEndian mem_value].
  - split.
    + unfold byteswap. change 2%nat with (length [byte_of_Z x; byte_of_Z y]) at 1; rewrite le_bytes_value. cbn [rev app le_value]. rewrite !byte_val by done. lia.
    + cbn [le_value]. rewrite !byte_val by done. apply eq_true_iff_eq. rewrite !Z.eqb_eq. lia.
  - cbn [rev app le_value]. rewrite !byte_val by done. split; [lia|]. apply eq_true_iff_eq. rewrite !Z.eqb_eq. lia.
Qed.
Definition from (i n : nat) : list Z := grp <$> seq i n.
Definition closing (r : bool * list byte) : list byte := r.2 ++ if negb r.1 && is_zero host a 7 then [":"; ":"] else [].
Lemma loop_used n i os : (i ≠ 0)%nat → v6_insert_loop host n i true a os = (true, os ++ after_colon (from i n)).
Proof.
  revert i os. induction n as [|n IH]; intros i os Hi; cbn [v6_insert_loop]; [by rewrite app_nil_r|]. rewrite andb_false_r. cbn [negb]. rewrite andb_false_r.
  rewrite (proj2 (Nat.eqb_neq _ _) Hi). cbn [negb orb]. rewrite IH by done. unfold from, after_colon. cbn [seq fmap list_fmap mbind list_bind]. rewrite (proj1 (group16_grp i)).
  unfold hexg. by rewrite <- !app_assoc.
Qed.
Lemma loop_zeros n i os : (i ≠ 0)%nat → (i + n = 8)%nat → grp (i - 1) = 0 →
  closing (v6_insert_loop host n i false a os) = os ++ in_zeros (from i n).
Proof.
  revert i os. induction n as [|n IH]; intros i os Hi Hn Hz; cbn [v6_insert_loop].
  - unfold closing. cbn [fst snd negb andb]. rewrite (proj2 (group16_grp 7)). replace 7%nat with (i - 1)%nat by lia. by rewrite Hz.
  - rewrite (proj2 (group16_grp i)), (proj2 (group16_grp (i - 1))), (proj1 (group16_grp i)), Hz, (proj2 (Nat.eqb_neq _ _) Hi). unfold from. cbn [seq fmap list_fmap in_zeros negb andb orb].
    rewrite andb_true_r. destruct (grp i =? 0) eqn:Eg.
    + apply Z.eqb_eq in Eg. rewrite IH by (lia || by rewrite Nat.sub_succ, Nat.sub_0_r). done.
    + cbn [Z.eqb]. rewrite loop_used by lia. unfold closing. cbn [fst snd negb andb]. rewrite app_nil_r, <- !app_assoc. done.
Qed.
Lemma loop_before n i os : (i + n = 8)%nat → (i = 0%nat ∨ grp (i - 1) ≠ 0) →
  closing (v6_insert_loop host n i false a os) = os ++ before_zeros (i =? 0)%nat (from i n).
Proof.
  revert i os. induction n as [|n IH]; intros i os Hn Hz; cbn [v6_insert_loop].
  - unfold closing. cbn [fst snd negb andb]. rewrite (proj2 (group16_grp 7)). replace 7%nat with (i - 1)%nat by lia. destruct Hz as [|Hz]; [lia|].
    rewrite (proj2 (Z.eqb_neq _ _) Hz). done.
  - rewrite (proj2 (group16_grp i)), (proj2 (group16_grp (i - 1))), (proj1 (group16_grp i)). unfold from. cbn [seq fmap list_fmap before_zeros]. cbn [negb]. rewrite andb_true_r.
    destruct (grp i =? 0) eqn:Eg.
    + apply Z.eqb_eq in Eg. apply loop_zeros; [lia|lia|]. by rewrite Nat.sub_succ, Nat.sub_0_r.
    + assert (Egap : negb (i =? 0)%nat && (grp (i - 1) =? 0) && true = false).
      { destruct Hz as [->|Hz]; [done|]. by rewrite (proj2 (Z.eqb_neq _ _) Hz), andb_false_r. }
      rewrite Egap. cbn [orb]. rewrite IH; [|lia|right; rewrite Nat.sub_succ, Nat.sub_0_r; by apply Z.eqb_neq]. cbn [Nat.eqb]. unfold hexg, from.
      destruct (Nat.eqb_spec i 0) as [->|]; cbn [negb]; by rewrite <- ?app_assoc.
Qed.
Lemma v6_body : (let (u, os) := v6_insert_loop host 8 0 false a ["["] in if negb u && is_zero host a 7 then os ++ [":"; ":"] else os) =
  "[" :: join ":" (v6_fields (v6_groups a)).
Proof.
  pose proof (loop_before 8 0 ["["] eq_refl ltac:(by left)) as H. unfold closing in H. destruct (v6_insert_loop _ _ _ _ _ _) as [u os]. cbn [fst snd] in H.
  change (from 0 8) with (v6_groups a) in H. cbn [Nat.eqb] in H. rewrite (proj1 (before_zeros_join (v6_groups a))) in H.
  transitivity (os ++ (if negb u && is_zero host a 7 then [":"; ":"] else [])); [by destruct (_ && _); rewrite ?app_nil_r|]. rewrite H.
  cbn [app]. by destruct (v6_fields _).
Qed.
End printing.

Lemma zero_run_spec gs pre r : zero_run gs = (pre, r) → (Forall (λ g, g ≠ 0) pre) ∧
  match r with None => gs = pre | Some post => ∃ k, gs = pre ++ replicate (S k) 0 ++ post ∧ match post with [] => True | g :: _ => g ≠ 0 end end.
Proof.
  revert pre. induction gs as [|g gs IH]; intros pre; cbn [zero_run]; [intros [= <- <-]; by split|]. destruct (Z.eqb_spec g 0) as [->|Hg].
  - intros [= <- <-]. split; [constructor|]. clear IH. induction gs as [|g gs IH]; [by exists 0%nat|]. cbn [skip_zeros]. destruct (Z.eqb_spec g 0) as [->|Hg].
    + destruct IH as (k & E & Hp). exists (S k). split; [|done]. cbn in *. by injection E as <-.
    + by exists 0%nat.
  - destruct (zero_run gs) as [p r'] eqn:E. intros [= <- <-]. destruct (IH p eq_refl) as [H1 H2]. split; [by constructor|]. destruct r' as [post|]; [|by rewrite H2].
    destruct H2 as (k & -> & Hp). by exists k.
Qed.
Lemma hexg_ok g : 0 <= g < 65536 → hexg g ≠ [] ∧ (":" ∉ hexg g) ∧ ("]" ∉ hexg g) ∧ read_group (hexg g) = Some g.
Proof.
  intros Hg. destruct (print_num_spec 16 g ltac:(lia)) as (Hn & Hf & Hr). unfold hexg, read_group. split_and!; [done|by apply plain_not; [auto|]..|].
  rewrite Hr. cbn. by rewrite (proj2 (Z.ltb_lt _ _)) by lia.
Qed.
Lemma mapM_hexg gs : Forall (λ g, 0 <= g < 65536) gs → mapM read_group (hexg <$> gs) = Some gs.
Proof.
  induction 1 as [|g gs Hg _ IH]; [done|]. rewrite fmap_cons. cbn [mapM]. rewrite (proj2 (proj2 (proj2 (hexg_ok g Hg)))). cbn [mbind option_bind].
  by rewrite IH.
Qed.
Lemma fields_colon gs : Forall (λ g, 0 <= g < 65536) gs → Forall (λ f, (":" ∉ f) ∧ ("]" ∉ f)) (hexg <$> gs) ∧ Forall (λ f, f ≠ []) (hexg <$> gs).
Proof. intros H. split; apply Forall_fmap; (eapply Forall_impl; [|exact H]); intros g Hg; destruct (hexg_ok g Hg) as (? & ? & ? & _); done. Qed.
Lemma strip_nonempty fs : Forall (λ f, f ≠ []) fs → strip fs = fs.
Proof. intros H. destruct H as [|[|x f] fs Hf _]; done. Qed.
Lemma find_gap (l1 l2 : list (list byte)) : Forall (λ f, f ≠ []) l1 → list_find (λ f, f = []) (l1 ++ [] :: l2) = Some (length l1, []).
Proof.
  intros H. apply list_find_Some. split_and!; [by apply list_lookup_middle|done|]. intros j y Hj Hlt ->. rewrite lookup_app_l in Hj by done.
  by apply (Forall_lookup_1 _ _ _ _ H Hj).
Qed.
Lemma read_groups_fields gs : length gs = 8%nat → Forall (λ g, 0 <= g < 65536) gs → read_groups (v6_fields gs) = Some gs.
Proof.
  intros Hl Hr. unfold v6_fields. destruct (zero_run gs) as [pre r] eqn:E. destruct (zero_run_spec gs pre r E) as [Hpre Hg]. destruct r as [post|].
  - destruct Hg as (k & -> & Hpost). apply Forall_app in Hr as [R1 [_ R2]%Forall_app]. rewrite !length_app, length_replicate in Hl.
    destruct (fields_colon pre R1) as [_ N1]. destruct (fields_colon post R2) as [_ N2].
    assert (Es : rev (strip (rev (strip (or_empty (hexg <$> pre) ++ [[]] ++ or_empty (hexg <$> post))))) = (hexg <$> pre) ++ [] :: (hexg <$> post)).
    { set (p := hexg <$> pre) in *. set (q := hexg <$> post) in *. assert (E1 : strip (or_empty p ++ [[]] ++ or_empty q) = p ++ [] :: or_empty q).
      { destruct N1 as [|[|x f] p' Hf _]; try done. }
      rewrite E1. clear E1. rewrite <- (rev_involutive (p ++ [] :: q)). f_equal. destruct (rev q) as [|z q'] eqn:Eq.
      - assert (q = []) as -> by (by rewrite <- (rev_involutive q), Eq). cbn [or_empty]. rewrite !rev_app_distr. cbn [rev app]. done.
      - assert (Eo : or_empty q = q) by (destruct q; done). rewrite Eo. rewrite rev_app_distr. cbn [rev]. rewrite Eq. cbn [app].
        assert (Hz : z ≠ []). { assert (Hin : z ∈ q) by (apply list_elem_of_In, in_rev; rewrite Eq; by left). apply list_elem_of_lookup_1 in Hin as [i Hi]. by apply (Forall_lookup_1 _ _ _ _ N2 Hi). }
        by destruct z. }
    unfold read_groups. rewrite Es, find_gap by done. rewrite take_app_length, drop_app_ge by lia. replace (S (length (hexg <$> pre)) - length (hexg <$> pre))%nat with 1%nat by lia.
    cbn [drop]. rewrite drop_0, !mapM_hexg by done. cbn [mbind option_bind]. rewrite (proj2 (Nat.leb_le _ _)) by lia. do 4 f_equal. lia.
  - subst pre. destruct (fields_colon gs Hr) as [_ N]. unfold read_groups. rewrite (strip_nonempty _ N), strip_nonempty, rev_involutive by (by apply Forall_rev).
    destruct (list_find _ _) as [[i f]|] eqn:Ef; [apply list_find_Some in Ef as (Hi & -> & _); by pose proof (Forall_lookup_1 _ _ _ _ N Hi)|].
    rewrite mapM_hexg by done. cbn. by rewrite Hl.
Qed.

(** The text of an address denotes it: on any host, reading the dotted
    text of an IPv4 address gives back its value and port, and reading the
    bracketed text of an IPv6 address, in which the first run of zero groups
    is written as two colons, gives back its groups and port. *)
Theorem address_text_roundtrip (host : endian) (v port : Z) (bytes : list Z) :
  in_u 32 v → in_u 16 port → length bytes = 16%nat → Forall (λ b, 0 <= b < 256) bytes →
  read_v4 (v4_insert host (v4_new host v port)) = Some (v, port) ∧ read_v6 (v6_insert host (v6_new host bytes port)) = Some (v6_groups bytes, port).
Proof.
  intros Hv Hp Hl Hb. pose proof (bsle_twice host 4 v Hv) as E4. pose proof (bsle_twice host 2 port Hp) as E2. split.
  - pose proof (v4_text host (v4_new host v port)) as H. cbn [s_addr sin_port v4_new] in H. rewrite E4, E2 in H. by apply H.
  - unfold v6_insert. cbn [s6_addr sin6_port v6_new]. rewrite E2. pose proof (v6_body host bytes Hb) as H. destruct (v6_insert_loop _ _ _ _ _ _) as [u os]. rewrite H.
    assert (Hg : Forall (λ g, 0 <= g < 65536) (v6_groups bytes)) by (apply Forall_fmap, Forall_true; intros i; by apply (grp_range bytes)).
    destruct (print_num_spec 10 port ltac:(apply Hp)) as (NP & FP & RP).
    assert (Hf : Forall (λ f, (":" ∉ f) ∧ ("]" ∉ f)) (v6_fields (v6_groups bytes)) ∧ v6_fields (v6_groups bytes) ≠ []).
    { unfold v6_fields. destruct (zero_run (v6_groups bytes)) as [pre r] eqn:E. destruct (zero_run_spec _ _ _ E) as [_ Hz]. destruct r as [post|].
      - destruct Hz as (k & Ek & _). rewrite Ek in Hg. apply Forall_app in Hg as [R1 [_ R2]%Forall_app]. destruct (fields_colon pre R1) as [C1 _]. destruct (fields_colon post R2) as [C2 _].
        assert (C0 : Forall (λ f : list byte, (":" ∉ f) ∧ ("]" ∉ f)) [[]]) by (constructor; [split; apply not_elem_of_nil|constructor]).
        split; [apply Forall_app; split; [by destruct pre|apply Forall_app; split; [done|by destruct post]]|by destruct pre].
      - subst pre. destruct (fields_colon _ Hg) as [C1 _]. done. }
    destruct Hf as [Hf Hne]. assert (Hbr : "]" ∉ "[" :: join ":" (v6_fields (v6_groups bytes))).
    { apply not_elem_of_cons. split; [done|]. clear -Hf. induction Hf as [|f fs [_ Hf] Hfs IH]; [apply not_elem_of_nil|]. destruct fs as [|g fs]; [done|].
      rewrite join_cons by done. rewrite not_elem_of_app, not_elem_of_cons. by split_and!. }
    unfold read_v6. change (["]"; ":"] ++ print_num 10 port) with ("]" :: ":" :: print_num 10 port).
    rewrite (fields_app "]" ("[" :: join ":" _)) by done. cbn [fields]. rewrite bool_decide_eq_true_2 by done. rewrite bool_decide_eq_false_2 by done.
    assert (Ep : fields "]" (print_num 10 port) = [print_num 10 port]).
    { apply (fields_join "]" [print_num 10 port]); [done|]. constructor; [apply plain_not; [auto|done]|constructor]. }
    rewrite Ep, app_nil_r.
    rewrite fields_join by (done || (eapply Forall_impl; [|exact Hf]; by intros f [? ?])). rewrite read_groups_fields by done. cbn [mbind option_bind]. rewrite RP. cbn [mbind option_bind].
    by rewrite (proj2 (Z.ltb_lt _ _)) by apply Hp.
Qed.
Lemma address_text_roundtrip_witness : v6_insert LittleEndian (v6_new LittleEndian (replicate 15 0 ++ [1]) 80) = ["["; ":"; ":"; "1"; "]"; ":"; "8"; "0"] ∧
  read_v6 (v6_insert LittleEndian (v6_new LittleEndian (replicate 15 0 ++ [1]) 80)) = Some (v6_groups (replicate 15 0 ++ [1]), 80).
Proof.
  split; [by vm_compute|]. apply (address_text_roundtrip LittleEndian 0 80 (replicate 15 0 ++ [1])); [by vm_compute|by vm_compute|reflexivity|].
  repeat (constructor; [lia|]). constructor.
Defined.
