(* ===== verification/AddressOrder.v ===== *)
(** * Comparing and looking up addresses (Sylar/address.cc)

    The comparison operators order addresses by their bytes in memory; the
    split of a host name into node and service; Unix paths. *)
From Stdlib Require Import ZArith Lia Strings.Byte.
From stdpp Require Import base list list_numbers numbers.
From S2P Require Import Prelude ByteArray Text Address.
#[local] Open Scope byte_scope.
Local Open Scope Z_scope.

(** The order of byte strings, a proper prefix before the longer one. *)
Fixpoint lex (a b : list byte) : comparison :=
  match a, b with
  | [], [] => Eq
  | [], _ :: _ => Lt
  | _ :: _, [] => Gt
  | x :: a, y :: b => match Z_of_byte x ?= Z_of_byte y with Eq => lex a b | c => c end
  end.
Lemma lex_eq a b : lex a b = Eq ↔ a = b.
Proof.
  revert b. induction a as [|x a IH]; intros [|y b]; cbn; try done. destruct (Z.compare_spec (Z_of_byte x) (Z_of_byte y)) as [E|E|E].
  - apply Z_of_byte_inj in E as ->. rewrite IH. naive_solver.
  - split; [done|]. intros [= -> ->]. lia.
  - split; [done|]. intros [= -> ->]. lia.
Qed.
Lemma lex_opp a b : lex b a = CompOpp (lex a b).
Proof.
  revert b. induction a as [|x a IH]; intros [|y b]; cbn; try done. rewrite Z.compare_antisym. destruct (Z_of_byte x ?= Z_of_byte y); cbn; [apply IH|done|done].
Qed.
Lemma lex_trans a b c : lex a b = Lt → lex b c = Lt → lex a c = Lt.
Proof.
  revert b c. induction a as [|x a IH]; intros [|y b] [|z c]; cbn; try done.
  destruct (Z.compare_spec (Z_of_byte x) (Z_of_byte y)) as [E1|E1|E1]; [|intros _|done];
    (destruct (Z.compare_spec (Z_of_byte y) (Z_of_byte z)) as [E2|E2|E2]; [|intros|done]).
  - intros H1 H2. rewrite E1, E2, Z.compare_refl. by eapply IH.
  - rewrite E1. by rewrite (proj2 (Z.compare_lt_iff _ _)).
  - intros _. rewrite <- E2. by rewrite (proj2 (Z.compare_lt_iff _ _)).
  - by rewrite (proj2 (Z.compare_lt_iff _ _)) by lia.
Qed.

Section order.
Context (host : endian).
(** The structures have the sizes of the socket API. *)
Definition addr_wf (a : Address) : Prop :=
  match a with
  | IPv4Address a => length (sin_zero a) = 8%nat
  | IPv6Address a => length (s6_addr a) = 16%nat
  | UnixAddr u => length (sun_path u) = 108%nat ∧ 0 <= un_length u <= 110
  | UnknownAddress _ d => length d = 14%nat
  end.
Definition addr_key (a : Address) : list byte := take (Z.to_nat (getAddrLen a)) (addr_image host a).
Lemma addr_key_length a : addr_wf a → Z.of_nat (length (addr_key a)) = getAddrLen a ∧ (Z.to_nat (getAddrLen a) <= length (addr_image host a))%nat.
Proof.
  intros H. unfold addr_key. rewrite length_take. destruct a as [a|a|u|f d]; cbn [addr_wf getAddrLen addr_image] in *; rewrite ?length_app, ?length_mem_image, ?length_fmap; lia.
Qed.
Lemma memcmp_lex n a b : (n <= length a)%nat → (n <= length b)%nat → memcmp n a b tt = Ret (lex (take n a) (take n b)) tt.
Proof.
  revert a b. induction n as [|n IH]; intros a b Ha Hb; [by rewrite !take_0|]. destruct a as [|x a], b as [|y b]; cbn in Ha, Hb; try lia. cbn [memcmp take lex].
  destruct (_ ?= _); [apply IH; lia|done|done].
Qed.
(** Equal up to the shorter, the longer is the greater. *)
Lemma lex_take a b : lex a b = match lex (take (length a `min` length b) a) (take (length a `min` length b) b) with
  | Eq => (Z.of_nat (length a) ?= Z.of_nat (length b)) | c => c end.
Proof.
  revert b. induction a as [|x a IH]; intros [|y b]; cbn [length Nat.min take lex]; try done. destruct (Z_of_byte x ?= Z_of_byte y); [|done|done]. rewrite IH.
  destruct (lex _ _); [|done|done]. rewrite !Nat2Z.inj_succ. by rewrite Zcompare_succ_compat.
Qed.
Lemma addr_lt_lex a b : addr_wf a → addr_wf b → addr_lt host a b tt = Ret (match lex (addr_key a) (addr_key b) with Lt => true | _ => false end) tt.
Proof.
  intros Ha Hb. destruct (addr_key_length a Ha) as [La Ia]. destruct (addr_key_length b Hb) as [Lb Ib]. unfold addr_lt.
  assert (E : Z.to_nat (Z.min (getAddrLen a) (getAddrLen b)) = (length (addr_key a) `min` length (addr_key b))%nat) by lia.
  rewrite (cbind_Ret _ _ _ _ _ (memcmp_lex (Z.to_nat (getAddrLen a `min` getAddrLen b)) (addr_image host a) (addr_image host b) ltac:(lia) ltac:(lia))). unfold cret. f_equal. rewrite (lex_take (addr_key a)). rewrite <- E.
  unfold addr_key at 1 2. rewrite !take_take, !Nat.min_l by lia. rewrite La, Lb. destruct (lex _ _); [|done|done].
  destruct (Z.compare_spec (getAddrLen a) (getAddrLen b)), (Z.ltb_spec (getAddrLen a) (getAddrLen b)); lia || done.
Qed.
Lemma addr_eq_key a b : addr_wf a → addr_wf b → addr_eq host a b tt = Ret (bool_decide (addr_key a = addr_key b)) tt.
Proof.
  intros Ha Hb. destruct (addr_key_length a Ha) as [La Ia]. destruct (addr_key_length b Hb) as [Lb Ib]. unfold addr_eq.
  destruct (Z.eqb_spec (getAddrLen a) (getAddrLen b)) as [E|E]; cbn [negb].
  - rewrite (cbind_Ret _ _ _ _ _ (memcmp_lex (Z.to_nat (getAddrLen a)) (addr_image host a) (addr_image host b) Ia ltac:(lia))). unfold cret. f_equal. rewrite E at 2. fold (addr_key a) (addr_key b).
    pose proof (lex_eq (addr_key a) (addr_key b)). case_bool_decide as Hk; [by rewrite (proj2 H Hk)|]. destruct (lex (addr_key a) (addr_key b)); [|done|done]. by exfalso; apply Hk, H.
  - unfold cret. f_equal. symmetry. apply bool_decide_eq_false. intros Hk. rewrite Hk in La. lia.
Qed.

(** operator< is a strict total order on addresses, whatever their kinds:
    it never reads past a structure, is transitive, and of two addresses
    exactly one is less, or they are equal by operator==. *)
Theorem address_order (a b c : Address) : addr_wf a → addr_wf b → addr_wf c →
  ∃ ab bc ac ba e, addr_lt host a b tt = Ret ab tt ∧ addr_lt host b c tt = Ret bc tt ∧ addr_lt host a c tt = Ret ac tt ∧ addr_lt host b a tt = Ret ba tt ∧
    addr_eq host a b tt = Ret e tt ∧ addr_ne host a b tt = Ret (negb e) tt ∧ (ab = true → bc = true → ac = true) ∧
    match ab, e, ba with true, false, false | false, true, false | false, false, true => True | _, _, _ => False end.
Proof.
  intros Ha Hb Hc. eexists _, _, _, _, _. split_and!; [by apply addr_lt_lex..|by apply addr_eq_key| | |].
  - unfold addr_ne. by rewrite (cbind_Ret _ _ _ _ _ (addr_eq_key a b Ha Hb)).
  - intros H1 H2. destruct (lex (addr_key a) (addr_key b)) eqn:E1; try done. destruct (lex (addr_key b) (addr_key c)) eqn:E2; try done. by rewrite (lex_trans _ _ _ E1 E2).
  - rewrite (lex_opp (addr_key a)). pose proof (lex_eq (addr_key a) (addr_key b)) as H. case_bool_decide as Hk; [by rewrite (proj2 H Hk)|].
    destruct (lex (addr_key a) (addr_key b)); [by apply Hk, H|done|done].
Qed.
End order.
Lemma address_order_witness : ∃ ab, addr_lt LittleEndian (IPv4Address v4_any) (IPv6Address v6_any) tt = Ret ab tt ∧ ab = true.
Proof.
  destruct (address_order LittleEndian (IPv4Address v4_any) (IPv6Address v6_any) (IPv4Address v4_any) eq_refl eq_refl eq_refl) as (ab & bc & ac & ba & e & E & _).
  exists ab. split; [exact E|]. vm_compute in E. congruence.
Defined.

(** ** Hosts *)
Lemma memchr_app c l r : c ∉ l → memchr c (l ++ c :: r) = Some (length l).
Proof.
  intros H. unfold memchr. rewrite (proj2 (list_find_Some (λ x, x = c) (l ++ c :: r) (length l) c)); [done|].
  split_and!; [by apply list_lookup_middle|done|]. intros j y Hj Hlt ->. rewrite lookup_app_l in Hj by done. by eapply H, list_elem_of_lookup_2.
Qed.
Lemma memchr_none c l : c ∉ l → memchr c l = None.
Proof. intros H. unfold memchr. rewrite (proj2 (list_find_None _ l)); [done|]. apply Forall_lookup_2. intros i x Hx ->. by eapply H, list_elem_of_lookup_2. Qed.
(** "node:service" and "[address]:service" are taken apart. *)
Lemma lookup_split_colon node service : node ≠ [] → ":" ∉ node → ":" ∉ service → head node ≠ Some "[" → lookup_split (node ++ ":" :: service) = (node, Some service).
Proof.
  intros Hne H1 H2 Hb. unfold lookup_split. assert (E : lookup_bracket (node ++ ":" :: service) = ([], None)) by (destruct node as [|[] ?]; done).
  rewrite E, bool_decide_eq_true_2 by done. unfold lookup_colon. rewrite memchr_app by done. rewrite !drop_app_ge by lia. replace (S (length node) - length node)%nat with 1%nat by lia.
  cbn [drop]. rewrite drop_0, memchr_none, take_app_length by done. by rewrite bool_decide_eq_false_2.
Qed.
Lemma lookup_split_bracket addr service : addr ≠ [] → "]" ∉ addr → lookup_split ("[" :: addr ++ "]" :: ":" :: service) = (addr, Some service).
Proof.
  intros Hne H. unfold lookup_split, lookup_bracket. rewrite memchr_app by done. rewrite take_app_length, drop_app_ge by lia.
  replace (S (length addr) - length addr)%nat with 1%nat by lia. cbn [drop]. rewrite bool_decide_eq_false_2 by done. by rewrite bool_decide_eq_false_2.
Qed.
(** An IPv6 address without brackets is passed to getaddrinfo with its tail
    from the first colon as the service. *)
Lemma bare_v6_service pre rest : ":" ∉ pre → ":" ∈ rest → head pre ≠ Some "[" → lookup_split (pre ++ ":" :: rest) = (pre ++ ":" :: rest, Some (":" :: rest)).
Proof.
  intros H1 H2 Hb. unfold lookup_split. assert (E : lookup_bracket (pre ++ ":" :: rest) = ([], None)) by (destruct pre as [|[] ?]; done).
  rewrite E, bool_decide_eq_true_2 by done. unfold lookup_colon. rewrite memchr_app by done. rewrite !drop_app_ge by lia. replace (S (length pre) - length pre)%nat with 1%nat by lia.
  rewrite Nat.sub_diag. cbn [drop]. rewrite drop_0. destruct (memchr ":" rest) eqn:Em.
  - by rewrite bool_decide_eq_true_2.
  - exfalso. unfold memchr in Em. destruct (list_find (λ x, x = ":") rest) eqn:Ef; [done|]. apply list_find_None in Ef. apply list_elem_of_lookup_1 in H2 as [i Hi].
    by apply (Forall_lookup_1 _ _ _ _ Ef Hi).
Qed.
(** An interface without an address, which getifaddrs documents, is a null
    dereference. *)
Lemma interface_null l name mask family : interfaces family (mkIf name None mask :: l) tt = Stuck NullDeref.
Proof. done. Qed.

(** ** Unix paths *)
Lemma unix_path_roundtrip path : path ≠ [] → x00 ∉ path → (length path <= 107)%nat →
  ∃ u, unix_new path tt = Ret u tt ∧ getPath u tt = Ret path tt ∧ un_length u = Z.of_nat (length path) + 3.
Proof.
  intros Hne Hz Hl. unfold unix_new. assert (Hh : match path with x00 :: _ => Z.of_nat (length path) + 1 - 1 | _ => Z.of_nat (length path) + 1 end = Z.of_nat (length path) + 1).
  { destruct path as [|[] ?]; try done. exfalso. apply Hz. left. }
  rewrite Hh. rewrite (proj2 (Z.ltb_ge _ _)) by lia. eexists. split; [done|]. rewrite take_ge by (rewrite length_app; cbn; lia). cbn [un_length]. split.
  - unfold getPath. cbn [un_length sun_path]. assert (Hd : head ((path ++ [x00]) ++ replicate (108 - length (path ++ [x00])) x00) ≠ Some x00).
    { destruct path as [|c path]; [done|]. cbn. intros [= ->]. apply Hz. left. }
    rewrite (bool_decide_eq_false_2 (head _ = _)), andb_false_r by done. rewrite bool_decide_eq_true_2 by (rewrite <- app_assoc; apply elem_of_app; right; left). unfold cret. f_equal.
    unfold c_str. rewrite <- app_assoc. cbn [app]. rewrite memchr_app by done. by rewrite take_app_length.
  - rewrite uwrap_id; [unfold path_offset; lia|]. unfold path_offset. split; lia.
Qed.
Lemma unix_path_too_long path : (108 <= length path)%nat → x00 ∉ path → unix_new path tt = Exn LogicError tt.
Proof.
  intros Hl Hz. unfold unix_new. assert (Hh : match path with x00 :: _ => Z.of_nat (length path) + 1 - 1 | _ => Z.of_nat (length path) + 1 end = Z.of_nat (length path) + 1).
  { destruct path as [|[] ?]; try done. exfalso. apply Hz. left. }
  rewrite Hh. by rewrite (proj2 (Z.ltb_lt _ _)) by lia.
Qed.
