(* ===== verification/Discovery.v ===== *)
(** * Service discovery (Sylar/streams/service_discovery.{h,cc})

    Servers register under a service as ephemeral nodes of ZooKeeper; clients
    read the nodes of the services they query, leave a watch there, and read
    again when it fires. ZooKeeper is a parameter: the documented behaviour
    of its calls is the laws of a class. Before each call to it other clients
    may have changed its tree. *)
From Stdlib Require Import ZArith Lia Strings.Byte Strings.String.
From stdpp Require Import base list relations gmap strings list_numbers numbers.
From S2P Require Import Prelude Text LoadBalance Address AddressOrder.
#[local] Open Scope byte_scope.
Local Open Scope nat_scope.

(** ** Items *)
Definition bytes_of : string → str := list_byte_of_string.
Definition string_of : str → string := string_of_list_byte.
Lemma bytes_of_string s : bytes_of (string_of s) = s.
Proof. apply list_byte_of_string_of_list_byte. Qed.
Lemma string_of_bytes s : string_of (bytes_of s) = s.
Proof. apply string_of_list_byte_of_string. Qed.
(** strtoull(s, nullptr, 10), then TypeUtil::Atoi, which makes it an int64_t *)
Definition strtoull (s : str) : Z :=
  let '(neg, v) := strto s in
  if (2 ^ 64 <=? v)%Z then (2 ^ 64 - 1)%Z else if neg then u64 (- v) else v.
Definition Atoi (s : str) : Z := i64 (strtoull s).

Record ServiceItemInfo := mkItemInfo { si_id : Z; si_port : Z; si_ip : str; si_data : str }.
#[export] Instance ServiceItemInfo_eq_dec : EqDecision ServiceItemInfo.
Proof. solve_decision. Defined.
Abbreviation infos := (gmap Z ServiceItemInfo).

(** ** ZooKeeper *)
Definition ZOK : Z := 0.
Definition ZNODEEXISTS : Z := -110.
Inductive ev_type := SESSION | CHILD | CHANGED | DELETED | OtherEvent.
Inductive ev_stat := CONNECTED | EXPIRED_SESSION | OtherState.
#[export] Instance ev_stat_eq_dec : EqDecision ev_stat.
Proof. solve_decision. Defined.
Record zevent := mkEvent { ev_type_of : ev_type; ev_stat_of : ev_stat; ev_path : str }.
(** [zk_children] and [zk_watched] are what the tree has and which child watches
    this client has left; a move is what another client does. *)
Class ZooKeeper (K Mv : Type) := {
  zk_exists : K → str → Z;
  zk_create : K → str → str → bool → Z * list zevent * K;
  zk_getChildren : K → str → bool → option (list str) * K;
  zk_reconnect : K → K;
  zk_move : Mv → K → list zevent * K;
  zk_children : K → str → option (list str);
  zk_watched : K → str → bool
}.
(** A watch is gone after it fired: where one is still left the children are the
    same, and one that is gone has left an event of its path. *)
Definition quietly {K Mv} `{!ZooKeeper K Mv} (k : K) (es : list zevent) (k' : K) : Prop :=
  (∀ p, zk_watched k' p = true → zk_watched k p = true ∧ zk_children k' p = zk_children k p) ∧
  (∀ p, zk_watched k p = true → zk_watched k' p = true ∨ ∃ e, e ∈ es ∧ ev_path e = p) ∧
  (∀ e, e ∈ es → ev_type_of e = CHILD → zk_watched k (ev_path e) = true).
Class ZooKeeperLaws (K Mv : Type) `{!ZooKeeper K Mv} : Prop := {
  create_quietly k p v e : quietly k (zk_create k p v e).1.2 (zk_create k p v e).2;
  move_quietly m k : quietly k (zk_move m k).1 (zk_move m k).2;
  getChildren_reads k p w l : (zk_getChildren k p w).1 = Some l → zk_children k p = Some l;
  getChildren_keeps k p w q : zk_children (zk_getChildren k p w).2 q = zk_children k q;
  getChildren_watch k p w q : zk_watched (zk_getChildren k p w).2 q = zk_watched k q || (w && bool_decide (q = p) && bool_decide (is_Some (zk_getChildren k p w).1));
  reconnect_forgets k q : zk_watched (zk_reconnect k) q = false
}.

(** ** State: IServiceDiscovery and ZKServiceDiscovery *)
Record discovery (K Mv : Type) := mkDisc {
  d_zk : K;
  d_moves : list Mv;                                   (* of others, before the next calls *)
  d_events : list zevent;                              (* not delivered yet *)
  d_datas : gmap string (gmap string infos);
  d_registerInfos : gmap string (gmap string (gmap string str));
  d_queryInfos : gmap string (gmap string unit);
  d_selfInfo : str;
  d_selfData : str;
  d_calls : list (string * string * infos * infos)     (* of m_cb *)
}.
Arguments mkDisc {K Mv} d_zk d_moves d_events d_datas d_registerInfos d_queryInfos d_selfInfo d_selfData d_calls.
Arguments d_zk {K Mv} _.
Arguments d_moves {K Mv} _.
Arguments d_events {K Mv} _.
Arguments d_datas {K Mv} _.
Arguments d_registerInfos {K Mv} _.
Arguments d_queryInfos {K Mv} _.
Arguments d_selfInfo {K Mv} _.
Arguments d_selfData {K Mv} _.
Arguments d_calls {K Mv} _.

Section discovery.
Context {K Mv : Type} `{!ZooKeeper K Mv, !IterOrder string} (inet_addr : str → Z).
Abbreviation D := (discovery K Mv).
Definition set_zk (k : K) (ms : list Mv) (es : list zevent) (s : D) : D :=
  mkDisc k ms es (d_datas s) (d_registerInfos s) (d_queryInfos s) (d_selfInfo s) (d_selfData s) (d_calls s).
Definition set_sd_datas m c (s : D) : D := mkDisc (d_zk s) (d_moves s) (d_events s) m (d_registerInfos s) (d_queryInfos s) (d_selfInfo s) (d_selfData s) c.
Definition set_infos r q (s : D) : D := mkDisc (d_zk s) (d_moves s) (d_events s) (d_datas s) r q (d_selfInfo s) (d_selfData s) (d_calls s).

Definition ServiceItemInfo_Create (ip_and_port data : str) : option ServiceItemInfo :=
  match find_if (isc ":") ip_and_port with
  | None => None
  | Some pos =>
    let ip := take pos ip_and_port in
    let port := Atoi (drop (pos + 1) ip_and_port) in
    let ip_addr := inet_addr (c_str ip) in
    if (ip_addr =? 0)%Z then None
    else Some (mkItemInfo (Z.lor (u64 (Z.shiftl ip_addr 32)) (u64 port)) (u16 port) ip data)
  end.

(** ** IServiceDiscovery *)
Definition setQueryServer (v : gmap string (gmap string unit)) : M D unit := cmodify (λ s, set_infos (d_registerInfos s) v s).
Definition registerServer (domain service ip_and_port : string) (data : str) : M D unit :=
  cmodify (λ s, let x := default ∅ (d_registerInfos s !! domain) in
    set_infos (<[domain := <[service := <[ip_and_port := data]> (default ∅ (x !! service))]> x]> (d_registerInfos s)) (d_queryInfos s) s).
Definition queryServer (domain service : string) : M D unit :=
  cmodify (λ s, set_infos (d_registerInfos s) (<[domain := <[service := tt]> (default ∅ (d_queryInfos s !! domain))]> (d_queryInfos s)) s).
Definition listServer : M D (gmap string (gmap string infos)) := creads d_datas.
Definition listRegisterServer : M D (gmap string (gmap string (gmap string str))) := creads d_registerInfos.
Definition listQueryServer : M D (gmap string (gmap string unit)) := creads d_queryInfos.

(** ** Calls of the client *)
(** What others did before the call. *)
Definition others : M D unit :=
  cmodify (λ s, match d_moves s with
                | [] => s
                | m :: ms => let '(es, k) := zk_move m (d_zk s) in set_zk k ms (d_events s ++ es) s
                end).
Definition client_exists (path : str) : M D Z := let! _ := others in creads (λ s, zk_exists (d_zk s) path).
Definition client_create (path val : str) (ephemeral : bool) : M D Z :=
  let! _ := others in
  λ s, let '(rt, es, k) := zk_create (d_zk s) path val ephemeral in Ret rt (set_zk k (d_moves s) (d_events s ++ es) s).
Definition client_getChildren (path : str) (watch : bool) : M D (option (list str)) :=
  let! _ := others in
  λ s, let '(r, k) := zk_getChildren (d_zk s) path watch in Ret r (set_zk k (d_moves s) (d_events s) s).

(** ** ZKServiceDiscovery *)
Fixpoint existsOrCreate_from (fuel : nat) (path : str) : M D bool :=
  match fuel with
  | O => cstuck OutOfFuel
  | S fuel =>
    let! v := client_exists path in
    if (v =? ZOK)%Z then cret true
    else match find_last (isc "/") path with
         | None => cret false
         | Some pos =>
           let! up := if pos =? 0 then cret true else existsOrCreate_from fuel (take pos path) in
           if up : bool then let! v := client_create path [] false in cret (v =? ZOK)%Z else cret false
         end
  end.
Definition existsOrCreate (path : str) : M D bool := existsOrCreate_from (S (length path)) path.

Definition root_path : str := bytes_of "/Sylar/".
Definition GetProvidersPath (domain service : string) : str := root_path ++ bytes_of domain ++ bytes_of "/" ++ bytes_of service ++ bytes_of "/providers".
Definition GetConsumersPath (domain service : string) : str := root_path ++ bytes_of domain ++ bytes_of "/" ++ bytes_of service ++ bytes_of "/consumers".
Definition GetDomainPath (domain : string) : str := root_path ++ bytes_of domain.
Definition ParseDomainService (path : str) : option (string * string) :=
  match split (length path) (isc "/") path (2 ^ 64 - 1) with
  | Some [_; _; domain; service; _] => Some (string_of domain, string_of service)
  | _ => None
  end.

Definition registerInfo (domain service ip_and_port : string) (data : str) : M D bool :=
  let path := GetProvidersPath domain service in
  let! v := existsOrCreate path in
  if negb v then cret false
  else
    let! rt := client_create (path ++ bytes_of "/" ++ bytes_of ip_and_port) data true in
    cret ((rt =? ZOK)%Z || (rt =? ZNODEEXISTS)%Z).
(** ok &= f(x), for every x *)
Fixpoint all_ok {A} (f : A → M D bool) (l : list A) : M D bool :=
  match l with
  | [] => cret true
  | x :: l => let! a := f x in let! b := all_ok f l in cret (a && b)
  end.
(** The recursion over "all" has the depth of the fuel. *)
Fixpoint queryInfo (fuel : nat) (domain service : string) : M D bool :=
  match fuel with
  | O => cstuck OutOfFuel
  | S fuel =>
    if bool_decide (service ≠ "all"%string) then
      let path := GetConsumersPath domain service in
      let! v := existsOrCreate path in
      if negb v then cret false
      else
        let! self := creads d_selfInfo in
        if bool_decide (self = []) then cret false
        else
          let! data := creads d_selfData in
          let! rt := client_create (path ++ bytes_of "/" ++ self) data true in
          cret ((rt =? ZOK)%Z || (rt =? ZNODEEXISTS)%Z)
    else
      let! children := client_getChildren (GetDomainPath domain) false in
      all_ok (λ i, queryInfo fuel domain (string_of i)) (default [] children)
  end.
(** The loop that fills infos. *)
Definition make_infos (vals : list str) : infos :=
  foldl (λ m i, match ServiceItemInfo_Create i [] with Some info => <[si_id info := info]> m | None => m end) ∅ vals.
Definition service_infos (domain service : string) (m : gmap string (gmap string infos)) : infos := default ∅ (m !! domain ≫= lookup service).
Definition store_infos (domain service : string) (new : infos) : M D unit :=
  cmodify (λ s, set_sd_datas (<[domain := <[service := new]> (default ∅ (d_datas s !! domain))]> (d_datas s))
                  (d_calls s ++ [(domain, service, service_infos domain service (d_datas s), new)]) s).
Definition getChildren (path : str) : M D bool :=
  match ParseDomainService path with
  | None => cret false
  | Some (domain, service) =>
    let! q := creads d_queryInfos in
    match q !! domain with
    | None => cret false
    | Some ss =>
      if bool_decide (ss !! service = None) && bool_decide (ss !! "all"%string = None) then cret false
      else
        let! vals := client_getChildren path true in
        match vals with
        | None => cret false
        | Some vals => let! _ := store_infos domain service (make_infos vals) in cret true
        end
    end
  end.
Fixpoint queryData (fuel : nat) (domain service : string) : M D bool :=
  match fuel with
  | O => cstuck OutOfFuel
  | S fuel =>
    if bool_decide (service ≠ "all"%string) then getChildren (GetProvidersPath domain service)
    else
      let! children := client_getChildren (GetDomainPath domain) false in
      all_ok (λ i, queryData fuel domain (string_of i)) (default [] children)
  end.
Definition registrations (r : gmap string (gmap string (gmap string str))) : list (string * string * string * str) :=
  i ← order r; x ← order i.2; v ← order x.2; [(i.1, x.1, v.1, v.2)].
Definition queries (q : gmap string (gmap string unit)) : list (string * string) := i ← order q; x ← order i.2; [(i.1, x.1)].
Definition onZKConnect (fuel : nat) : M D unit :=
  let! rinfo := creads d_registerInfos in
  let! qinfo := creads d_queryInfos in
  let! _ := all_ok (λ '(i, x, v, data), registerInfo i x v data) (registrations rinfo) in
  let! _ := all_ok (λ '(i, x), queryInfo fuel i x) (queries qinfo) in
  let! _ := all_ok (λ '(i, x), queryData fuel i x) (queries qinfo) in
  cret tt.
Definition onZKExpiredSession : M D unit := cmodify (λ s, set_zk (zk_reconnect (d_zk s)) (d_moves s) (d_events s) s).
Definition onWatch (fuel : nat) (e : zevent) : M D unit :=
  match ev_stat_of e, ev_type_of e with
  | CONNECTED, SESSION => onZKConnect fuel
  | CONNECTED, CHILD => let! _ := getChildren (ev_path e) in cret tt
  | EXPIRED_SESSION, SESSION => onZKExpiredSession
  | _, _ => cret tt
  end.

(** ** Histories *)
(** The head of the events is delivered. *)
Definition deliver (fuel : nat) : M D unit :=
  let! es := creads d_events in
  match es with
  | [] => cret tt
  | e :: es => let! _ := cmodify (λ s, set_zk (d_zk s) (d_moves s) es s) in onWatch fuel e
  end.
Inductive sd_op := OpRegister (domain service ip_and_port : string) (data : str) | OpQuery (domain service : string) | OpSetQuery (v : gmap string (gmap string unit)) | OpDeliver | OpTimer | OpOthers (ms : list Mv).
Definition sd_run (fuel : nat) (o : sd_op) : M D unit :=
  match o with
  | OpRegister d v i x => registerServer d v i x
  | OpQuery d v => queryServer d v
  | OpSetQuery q => setQueryServer q
  | OpDeliver => deliver fuel
  | OpTimer => onZKConnect fuel
  | OpOthers ms => let! _ := others in cmodify (λ s, set_zk (d_zk s) (d_moves s ++ ms) (d_events s) s)
  end.
(** Handlers one after the other: an event is handled, or the timer's function
    runs, while no other handler does; the code does not enforce it (see
    [stale_store]). *)
Definition sd_serial (s s' : D) : Prop := ∃ fuel o, sd_run fuel o s = Ret tt s'.
Definition sd_start (k : K) (self data : str) : D := mkDisc k [] [] ∅ ∅ ∅ self data [].
(** The changes of a service the callback was told. *)
Definition told (domain service : string) (s : D) : list (infos * infos) :=
  omap (λ '(d, v, old, new), if bool_decide (d = domain ∧ v = service) then Some (old, new) else None) (d_calls s).
End discovery.

(** ** Paths *)
Definition plain (s : string) : Prop := Forall (λ b, isc "/" b = false) (bytes_of s).
Lemma path_split p : p ≠ [] → split (length p) (isc "/") p (2 ^ 64 - 1) = Some (pieces (2 ^ 64 - 2) (isc "/") p).
Proof.
  intros Hp. unfold split. destruct p as [|b p]; [done|].
  exact (split_loop_spec (length (b :: p)) (isc "/") (2 ^ 64 - 1) [] (b :: p) [] ltac:(done) (le_n _)).
Qed.
Lemma parse_providers d v : plain d → plain v → ParseDomainService (GetProvidersPath d v) = Some (d, v).
Proof.
  intros Hd Hv. unfold ParseDomainService. rewrite path_split by done. unfold GetProvidersPath.
  change (root_path ++ bytes_of d ++ bytes_of "/" ++ bytes_of v ++ bytes_of "/providers") with ([] ++ "/" :: bytes_of "Sylar" ++ "/" :: bytes_of d ++ "/" :: bytes_of v ++ "/" :: bytes_of "providers").
  rewrite !pieces_cut by (done || by repeat constructor). rewrite pieces_none by (by repeat constructor). by rewrite !string_of_bytes.
Qed.
Lemma delimiters_app p a b : delimiters p (a ++ b) = delimiters p a + delimiters p b.
Proof. unfold delimiters. by rewrite list.filter_app, length_app. Qed.
Lemma delimiters_none p s : delimiters p s = 0 → Forall (λ b, p b = false) s.
Proof.
  induction s as [|b s IH]; [constructor|]. rewrite delimiters_cons. destruct (p b) eqn:E; intros H; [lia|]. constructor; [done|]. apply IH. lia.
Qed.
Lemma parse_inv d v x : ParseDomainService (GetProvidersPath d v) = Some x → x = (d, v) ∧ plain d ∧ plain v.
Proof.
  intros H. assert (plain d ∧ plain v) as [Hd Hv]; [|by rewrite parse_providers in H by done; split_and!; [congruence|..]].
  unfold ParseDomainService in H. rewrite path_split in H by done. pose proof (pieces_length (2 ^ 64 - 2) (isc "/") (GetProvidersPath d v) ltac:(lia)) as Hl.
  destruct (pieces _ _ _) as [|? [|? [|? [|? [|? [|? ?]]]]]]; try done. cbn [length] in Hl. unfold GetProvidersPath in Hl. rewrite !delimiters_app in Hl.
  change (delimiters (isc "/") root_path) with 2 in Hl. change (delimiters (isc "/") (bytes_of "/")) with 1 in Hl. change (delimiters (isc "/") (bytes_of "/providers")) with 1 in Hl.
  split; apply delimiters_none; lia.
Qed.
#[local] Arguments GetProvidersPath : simpl never.

(** ** Calls of the callback *)
Fixpoint chained (cur : infos) (l : list (infos * infos)) (fin : infos) : Prop :=
  match l with [] => cur = fin | (old, new) :: l => old = cur ∧ chained new l fin end.
Lemma chained_snoc cur l a b : chained cur l a → chained cur (l ++ [(a, b)]) b.
Proof. revert cur. induction l as [|[o n] l IH]; cbn; [by intros cur ->|]. intros cur [-> H]. split; [done|by apply IH]. Qed.
Lemma chained_balancer (cb : ServiceItemInfo → option nat) l : (∀ info, is_Some (cb info)) → ∀ cur fin f, chained cur l fin → (∀ id, is_Some (f id) ↔ is_Some (cur !! id)) →
  ∀ id, is_Some (foldl (λ f c, provider_spec cb c.1 c.2 f) f l id) ↔ is_Some (fin !! id).
Proof.
  intros Hcb. induction l as [|[o n] l IH]; cbn [chained foldl fst snd]; intros cur fin f; [by intros <-|]. intros [-> Hl] Hf. apply (IH n fin); [done|]. intros id. specialize (Hf id). unfold provider_spec.
  destruct (cur !! id) eqn:Ec, (n !! id) as [info|] eqn:En; [naive_solver|naive_solver| |naive_solver]. destruct (Hcb info) as [x ->]. naive_solver.
Qed.

(** ** What holds at every moment *)
Section mirror.
Context {K Mv : Type} `{!ZooKeeper K Mv, !ZooKeeperLaws K Mv, !IterOrder string} (inet_addr : str → Z).
Abbreviation D := (discovery K Mv).
Implicit Types s : D.
Record DInv s : Prop := {
  di_watch p : zk_watched (d_zk s) p = true → ∃ d v l, ParseDomainService p = Some (d, v) ∧ p = GetProvidersPath d v ∧
    zk_children (d_zk s) p = Some l ∧ service_infos d v (d_datas s) = make_infos inet_addr l;
  di_event e : e ∈ d_events s → ev_type_of e = CHILD → ∃ d v, ev_path e = GetProvidersPath d v;
  di_chain d v : chained ∅ (told d v s) (service_infos d v (d_datas s))
}.
(** A path is watched, or its event is on the way. *)
Definition attended s (p : str) : Prop := zk_watched (d_zk s) p = true ∨ ∃ e, e ∈ d_events s ∧ ev_path e = p.
Definition advances s s' : Prop := DInv s → DInv s' ∧ ∀ p, attended s p → attended s' p.
Definition adv {A} (m : M D A) : Prop := ∀ s r s', m s = Ret r s' → advances s s'.
Lemma adv_ret {A} (a : A) : adv (cret a).
Proof. intros s r s' [= <- <-] HI. done. Qed.
Lemma adv_reads {A} (f : D → A) : adv (creads f).
Proof. intros s r s' [= <- <-] HI. done. Qed.
Lemma adv_bind {A B} (m : M D A) (k : A → M D B) : adv m → (∀ a, adv (k a)) → adv (let! x := m in k x).
Proof.
  intros Hm Hk s r s'. unfold cbind. destruct (m s) as [a s1| |] eqn:E; [|done|done]. intros E' HI. destruct (Hm s a s1 E HI) as [HI1 H1]. destruct (Hk a s1 r s' E' HI1) as [HI2 H2]. split; [done|]. intros p Hp. by apply H2, H1.
Qed.
Lemma adv_all_ok {A} (f : A → M D bool) l : (∀ x, adv (f x)) → adv (all_ok f l).
Proof. intros Hf. induction l as [|x l IH]; cbn [all_ok]; [apply adv_ret|]. apply adv_bind; [done|]. intros a. apply adv_bind; [done|]. intros b. apply adv_ret. Qed.
Lemma quietly_advances s k es ms : quietly (d_zk s) es k → advances s (set_zk k ms (d_events s ++ es) s).
Proof.
  intros (H1 & H2 & H3) [A B C]. split; [split; cbn|].
  - intros p Hp. destruct (H1 p Hp) as [Hw Hc]. rewrite Hc. by apply A.
  - intros e [He|He]%elem_of_app Ht; [by apply B|]. destruct (A _ (H3 e He Ht)) as (d & v & _ & _ & -> & _). by eauto.
  - apply C.
  - intros p [Hp|(e & He & Hp)]; [destruct (H2 p Hp) as [?|(e & He & Ep)]; [by left|]|]; right; exists e; cbn; rewrite elem_of_app; auto.
Qed.
Lemma adv_others : adv others.
Proof.
  intros s r s' [= <- <-]. destruct (d_moves s) as [|m ms]; [done|]. pose proof (move_quietly m (d_zk s)) as Hq. destruct (zk_move m (d_zk s)) as [es k]. by apply quietly_advances.
Qed.
Lemma adv_exists p : adv (client_exists p).
Proof. apply adv_bind; [apply adv_others|]. intros ?. apply adv_reads. Qed.
Lemma adv_create p v e : adv (client_create p v e).
Proof.
  apply adv_bind; [apply adv_others|]. intros _ s r s'. pose proof (create_quietly (d_zk s) p v e) as Hq. destruct (zk_create (d_zk s) p v e) as [[rt es] k]. intros [= <- <-]. by apply quietly_advances.
Qed.
Lemma adv_list p : adv (client_getChildren p false).
Proof.
  apply adv_bind; [apply adv_others|]. intros _ s r s'. pose proof (getChildren_keeps (d_zk s) p false) as Hk. pose proof (getChildren_watch (d_zk s) p false) as Hw. destruct (zk_getChildren (d_zk s) p false) as [r' k]. intros [= <- <-] [A B C]. cbn [snd fst] in *.
  assert (Hw' : ∀ q, zk_watched k q = zk_watched (d_zk s) q) by (intros q; rewrite Hw; apply orb_false_r).
  split; [split; cbn|]; [|done|done|].
  - intros q. rewrite Hw', Hk. apply A.
  - intros q. unfold attended. cbn. by rewrite Hw'.
Qed.
Lemma adv_existsOrCreate_from fuel p : adv (existsOrCreate_from fuel p).
Proof.
  revert p. induction fuel as [|fuel IH]; intros p; [done|]. cbn [existsOrCreate_from]. apply adv_bind; [apply adv_exists|]. intros v. destruct (v =? ZOK)%Z; [apply adv_ret|]. destruct (find_last _ _) as [pos|]; [|apply adv_ret].
  apply adv_bind; [destruct (pos =? 0); [apply adv_ret|apply IH]|]. intros [|]; [|apply adv_ret]. apply adv_bind; [apply adv_create|]. intros ?. apply adv_ret.
Qed.
Lemma adv_registerInfo d v i x : adv (registerInfo d v i x).
Proof. apply adv_bind; [apply adv_existsOrCreate_from|]. intros [|]; cbn [negb]; [|apply adv_ret]. apply adv_bind; [apply adv_create|]. intros ?. apply adv_ret. Qed.
Lemma adv_queryInfo fuel d v : adv (queryInfo fuel d v).
Proof.
  revert v. induction fuel as [|fuel IH]; intros v; [done|]. cbn [queryInfo]. destruct (bool_decide _).
  - apply adv_bind; [apply adv_existsOrCreate_from|]. intros [|]; cbn [negb]; [|apply adv_ret]. apply adv_bind; [apply adv_reads|]. intros self. destruct (bool_decide _); [apply adv_ret|].
    apply adv_bind; [apply adv_reads|]. intros ?. apply adv_bind; [apply adv_create|]. intros ?. apply adv_ret.
  - apply adv_bind; [apply adv_list|]. intros ?. apply adv_all_ok. intros ?. apply IH.
Qed.
Lemma service_infos_insert d v d' v' x m :
  service_infos d' v' (<[d := <[v := x]> (default ∅ (m !! d))]> m) = if bool_decide (d = d' ∧ v = v') then x else service_infos d' v' m.
Proof.
  unfold service_infos. case_bool_decide as Hc.
  - destruct Hc as [-> ->]. rewrite lookup_insert_eq. cbn. by rewrite lookup_insert_eq.
  - destruct (decide (d = d')) as [->|Hd]; [|by rewrite lookup_insert_ne by done]. rewrite lookup_insert_eq. cbn. rewrite lookup_insert_ne by naive_solver. by destruct (m !! d').
Qed.
Lemma told_snoc d v d' v' old new s m : told d v (set_sd_datas m (d_calls s ++ [(d', v', old, new)]) s) = told d v s ++ (if bool_decide (d' = d ∧ v' = v) then [(old, new)] else []).
Proof. unfold told. cbn. rewrite omap_app. cbn. by destruct (bool_decide _). Qed.
(** A read and what it stores: the path is watched and copied. *)
Lemma read_store s d v l k ms : ParseDomainService (GetProvidersPath d v) = Some (d, v) →
  (zk_getChildren (d_zk s) (GetProvidersPath d v) true) = (Some l, k) →
  let m := <[d := <[v := make_infos inet_addr l]> (default ∅ (d_datas s !! d))]> (d_datas s) in
  let s' := set_sd_datas m (d_calls s ++ [(d, v, service_infos d v (d_datas s), make_infos inet_addr l)]) (set_zk k ms (d_events s) s) in
  advances s s' ∧ zk_watched k (GetProvidersPath d v) = true.
Proof.
  intros Hp E m s'. pose proof (getChildren_keeps (d_zk s) (GetProvidersPath d v) true) as Hk. pose proof (getChildren_watch (d_zk s) (GetProvidersPath d v) true) as Hw. pose proof (getChildren_reads (d_zk s) (GetProvidersPath d v) true l) as Hr. rewrite E in *. cbn [fst snd andb] in *. specialize (Hr eq_refl).
  assert (Hw' : ∀ q, zk_watched k q = true ↔ zk_watched (d_zk s) q = true ∨ q = GetProvidersPath d v).
  { intros q. rewrite Hw, orb_true_iff, andb_true_iff, !bool_decide_eq_true. split; [intros [?|[? _]]; auto|intros [?| ->]; [by left|by right]]. }
  split; [|apply Hw'; by right]. intros [A B C]. split; [split|].
  - intros q Hq. cbn [d_zk d_datas s' set_sd_datas set_zk] in *. rewrite Hk. subst m. apply Hw' in Hq as [Hq| ->].
    + destruct (A q Hq) as (d' & v' & l' & E1 & E2 & E3 & E4). exists d', v'. destruct (decide (d = d' ∧ v = v')) as [Hc|Hc]; [|exists l'; by rewrite service_infos_insert, bool_decide_false]. destruct Hc as [-> ->]. exists l. subst q. by rewrite service_infos_insert, bool_decide_true.
    + exists d, v, l. rewrite service_infos_insert, bool_decide_true by done. done.
  - done.
  - intros d' v'. pose proof (told_snoc d' v' d v (service_infos d v (d_datas s)) (make_infos inet_addr l) (set_zk k ms (d_events s) s) m) as Et. change (told d' v' (set_zk k ms (d_events s) s)) with (told d' v' s) in Et. unfold s'. cbn [d_calls set_zk] in Et. rewrite Et. cbn [d_datas set_sd_datas]. unfold m. rewrite service_infos_insert. case_bool_decide as Hc; [|rewrite app_nil_r; apply C]. destruct Hc as [-> ->]. apply chained_snoc, C.
  - intros q [Hq|Hq]; [left; apply Hw'; by left|by right].
Qed.
Lemma failed_read s p k ms : zk_getChildren (d_zk s) p true = (None, k) → advances s (set_zk k ms (d_events s) s).
Proof.
  intros E [A B C]. pose proof (getChildren_keeps (d_zk s) p true) as Hk. pose proof (getChildren_watch (d_zk s) p true) as Hw. rewrite E in *. cbn [fst snd] in *.
  assert (Hw' : ∀ q, zk_watched k q = zk_watched (d_zk s) q) by (intros q; rewrite Hw, (bool_decide_false (is_Some None)) by (by intros [? ?]); by rewrite andb_false_r, orb_false_r).
  split; [split; cbn|]; [|done|done|]; [intros q; rewrite Hw', Hk; apply A|intros q; unfold attended; cbn; by rewrite Hw'].
Qed.
Lemma getChildren_step d v s r s' : getChildren inet_addr (GetProvidersPath d v) s = Ret r s' → advances s s' ∧ (r = true → zk_watched (d_zk s') (GetProvidersPath d v) = true).
Proof.
  unfold getChildren. destruct (ParseDomainService _) as [[d' v']|] eqn:Ep; [|intros [= <- <-]; done]. destruct (parse_inv d v _ Ep) as ([= -> ->] & _). unfold cbind at 1, creads. destruct (d_queryInfos s !! d) as [ss|]; [|intros [= <- <-]; done].
  destruct (_ && _); [intros [= <- <-]; done|]. unfold client_getChildren, cbind at 1 2. destruct (others s) as [[] s1| |] eqn:Eo; [|done|done]. pose proof (adv_others s _ _ Eo) as Ho.
  destruct (zk_getChildren (d_zk s1) (GetProvidersPath d v) true) as [[l|] k] eqn:E.
  - unfold store_infos, cbind, cmodify, cret. intros [= <- <-]. destruct (read_store s1 d v l k (d_moves s1) Ep E) as [H1 H2]. split; [|done]. intros HI. destruct (Ho HI) as [HI1 Ha1]. destruct (H1 HI1) as [HI2 Ha2]. split; [exact HI2|]. intros p Hp. by apply Ha2, Ha1.
  - intros [= <- <-]. split; [|done]. intros HI. destruct (Ho HI) as [HI1 Ha1]. destruct (failed_read s1 _ k (d_moves s1) E HI1) as [HI2 Ha2]. split; [done|]. intros p Hp. by apply Ha2, Ha1.
Qed.
Lemma adv_queryData fuel d v : adv (queryData inet_addr fuel d v).
Proof.
  revert v. induction fuel as [|fuel IH]; intros v; [done|]. cbn [queryData]. destruct (bool_decide _).
  - intros s r s' E. by apply getChildren_step in E as [? _].
  - apply adv_bind; [apply adv_list|]. intros ?. apply adv_all_ok. intros ?. apply IH.
Qed.
Lemma adv_onZKConnect fuel : adv (onZKConnect inet_addr fuel).
Proof.
  repeat (apply adv_bind; [first [apply adv_reads|apply adv_all_ok; intros x; repeat (destruct x as [x ?]); first [apply adv_registerInfo|apply adv_queryInfo|apply adv_queryData]]|intros ?]). apply adv_ret.
Qed.
Lemma adv_set_infos (f : D → D) : (∀ s, d_zk (f s) = d_zk s ∧ d_events (f s) = d_events s ∧ d_datas (f s) = d_datas s ∧ d_calls (f s) = d_calls s) → adv (cmodify f).
Proof.
  intros Hf s r s' [= <- <-] [A B C]. destruct (Hf s) as (E1 & E2 & E3 & E4). split; [split|]; unfold attended, told; rewrite ?E1, ?E2, ?E3, ?E4; done.
Qed.
Lemma deliver_inv fuel s s' : deliver inet_addr fuel s = Ret tt s' → DInv s →
  DInv s' ∧ ∀ p, attended s p → attended s' p ∨ ∃ e es, d_events s = e :: es ∧ (ev_path e = p ∨ ev_stat_of e = EXPIRED_SESSION).
Proof.
  unfold deliver, cbind at 1, creads. destruct (d_events s) as [|e es] eqn:Ee; [intros [= <-] HI; auto|]. unfold cbind at 1, cmodify. set (s1 := set_zk (d_zk s) (d_moves s) es s). intros E HI. pose proof HI as [A B C].
  assert (HI1 : DInv s1) by (split; cbn; [done|intros e' He'; apply B; rewrite Ee; by right|done]).
  assert (Ha1 : ∀ p, attended s p → attended s1 p ∨ ev_path e = p).
  { intros p [Hp|(e' & He' & Hp)]; [by left; left|]. rewrite Ee in He'. apply elem_of_cons in He' as [->|He']; [by right|]. left; right. by exists e'. }
  destruct (decide (ev_stat_of e = EXPIRED_SESSION)) as [Hx|Hx].
  { split; [|intros p _; right; exists e, es; auto]. unfold onWatch in E. rewrite Hx in E. destruct (ev_type_of e); injection E as <-; try done. split; cbn; [|exact (di_event s1 HI1)|exact C]. intros p. by rewrite reconnect_forgets. }
  assert (Hadv : advances s1 s').
  { unfold onWatch in E. destruct (ev_stat_of e), (ev_type_of e) eqn:Et; try done; try (injection E as <-; done).
    - by apply adv_onZKConnect in E.
    - destruct (B e ltac:(rewrite Ee; by left) Et) as (d & v & Hp). rewrite Hp in E. unfold cbind in E. destruct (getChildren _ _ s1) as [r s2| |] eqn:Eg; [|done|done]. injection E as <-. by apply getChildren_step in Eg as [? _]. }
  destruct (Hadv HI1) as [HI2 Ha2]. split; [done|]. intros p Hp. destruct (Ha1 p Hp) as [H|H]; [left; by apply Ha2|]. right. exists e, es. auto.
Qed.
Lemma step_dinv fuel o s s' : sd_run inet_addr fuel o s = Ret tt s' → DInv s →
  DInv s' ∧ ∀ p, attended s p → attended s' p ∨ ∃ e es, o = OpDeliver ∧ d_events s = e :: es ∧ (ev_path e = p ∨ ev_stat_of e = EXPIRED_SESSION).
Proof.
  intros E HI. destruct o as [d v i x|d v|q| | |ms]; cbn [sd_run] in E.
  4: { destruct (deliver_inv fuel s s' E HI) as [HI' Ha]. split; [done|]. intros p Hp. destruct (Ha p Hp) as [?|(e & es & ? & ?)]; [by left|]. right. by exists e, es. }
  4: { destruct (adv_onZKConnect fuel s tt s' E HI) as [? Ha]. split; [done|]. intros p Hp. left. by apply Ha. }
  4: { unfold cbind in E. destruct (others s) as [[] s1| |] eqn:Eo; [|done|done]. destruct (adv_others s tt s1 Eo HI) as [HI1 Ha]. injection E as <-. split; [by destruct HI1|]. intros p Hp. left. by apply Ha in Hp. }
  all: apply adv_set_infos in E; [|by intros ?]; destruct (E HI) as [? Ha]; (split; [done|]); intros p Hp; left; by apply Ha.
Qed.
Lemma sd_reach_inv k self data s : (∀ p, zk_watched k p = false) → rtc (sd_serial inet_addr) (sd_start k self data) s → DInv s.
Proof.
  intros Hk. revert s. apply rtc_ind_r.
  - split; cbn; [intros p; by rewrite Hk|by intros e He%not_elem_of_nil|done].
  - intros s s' _ (fuel & o & E) HI. by eapply step_dinv.
Qed.
(** C38: As long as the handlers of the watcher and of the timer do not overlap in
    time ([sd_serial]; when they do, an older read can be stored after a newer
    one, [stale_store]), after every history of registrations, queries, events,
    timers and changes by others in between, also between the calls of one
    handler: the providers held of a service whose path is watched are those of
    the nodes ZooKeeper has now; a balancer that follows the callback has
    exactly the ids held; a path that is watched, or whose event is on the way,
    stays so until the event is delivered or the session expires; and a
    successful read leaves its path watched. *)
Theorem discovery_mirrors k self data s : (∀ p, zk_watched k p = false) → rtc (sd_serial inet_addr) (sd_start k self data) s →
  (∀ d v, plain d → plain v → zk_watched (d_zk s) (GetProvidersPath d v) = true →
    ∃ l, zk_children (d_zk s) (GetProvidersPath d v) = Some l ∧ service_infos d v (d_datas s) = make_infos inet_addr l) ∧
  (∀ d v (cb : ServiceItemInfo → option nat), (∀ info, is_Some (cb info)) →
    ∀ id, is_Some (foldl (λ f c, provider_spec cb c.1 c.2 f) (λ _, None) (told d v s) id) ↔ is_Some (service_infos d v (d_datas s) !! id)) ∧
  (∀ fuel o s', sd_run inet_addr fuel o s = Ret tt s' →
    ∀ p, attended s p → attended s' p ∨ ∃ e es, o = OpDeliver ∧ d_events s = e :: es ∧ (ev_path e = p ∨ ev_stat_of e = EXPIRED_SESSION)) ∧
  (∀ d v s', getChildren inet_addr (GetProvidersPath d v) s = Ret true s' → zk_watched (d_zk s') (GetProvidersPath d v) = true).
Proof.
  intros Hk HI%sd_reach_inv; [|done]. split_and!.
  - intros d v Hd Hv Hw. destruct (di_watch s HI _ Hw) as (d' & v' & l & E1 & _ & E3 & E4). rewrite parse_providers in E1 by done. injection E1 as <- <-. eauto.
  - intros d v cb Hcb. apply (chained_balancer cb _ Hcb ∅); [apply (di_chain s HI)|]. intros id. rewrite lookup_empty. by split; intros [? ?].
  - intros fuel o s' E. by apply (step_dinv fuel o s s').
  - intros d v s' E. apply getChildren_step in E as [_ E]. by apply E.
Qed.

(** ** The handlers return *)
Definition returns {A} (m : M D A) : Prop := ∀ s, ∃ r s', m s = Ret r s'.
Lemma returns_ret {A} (a : A) : returns (cret a).
Proof. intros s. by exists a, s. Qed.
Lemma returns_reads {A} (f : D → A) : returns (creads f).
Proof. intros s. by exists (f s), s. Qed.
Lemma returns_modify (f : D → D) : returns (cmodify f).
Proof. intros s. by exists tt, (f s). Qed.
Lemma returns_bind {A B} (m : M D A) (g : A → M D B) : returns m → (∀ a, returns (g a)) → returns (let! x := m in g x).
Proof. intros Hm Hg s. unfold cbind. destruct (Hm s) as (a & s1 & ->). apply Hg. Qed.
Lemma returns_all_ok {A} (f : A → M D bool) l : (∀ x, x ∈ l → returns (f x)) → returns (all_ok f l).
Proof.
  induction l as [|x l IH]; intros Hf; cbn [all_ok]; [apply returns_ret|]. apply returns_bind; [apply Hf; by left|]. intros a. apply returns_bind; [apply IH; intros y Hy; apply Hf; by right|]. intros b. apply returns_ret.
Qed.
Create HintDb returns.
Lemma returns_others : returns others.
Proof. apply returns_modify. Qed.
#[local] Hint Resolve returns_ret returns_reads returns_modify returns_others : returns.
Lemma returns_exists p : returns (client_exists p).
Proof. apply returns_bind; auto with returns. Qed.
Lemma returns_create p v e : returns (client_create p v e).
Proof. apply returns_bind; [auto with returns|]. intros _ s. destruct (zk_create _ _ _ _) as [[rt es] k]. by eexists _, _. Qed.
Lemma returns_children p w : returns (client_getChildren p w).
Proof. apply returns_bind; [auto with returns|]. intros _ s. destruct (zk_getChildren _ _ _) as [r k]. by eexists _, _. Qed.
#[local] Hint Resolve returns_exists returns_create returns_children : returns.
Lemma find_last_lt p (l : str) i : find_last p l = Some i → i < length l.
Proof. revert i. induction l as [|b l IH]; intros i; cbn; [done|]. destruct (find_last p l) as [j|]; [intros [= <-]; specialize (IH j eq_refl); lia|]. destruct (p b); [intros [= <-]; lia|done]. Qed.
Lemma returns_existsOrCreate p : returns (existsOrCreate p).
Proof.
  unfold existsOrCreate. assert (Hl : length p < S (length p)) by lia. revert Hl. generalize (S (length p)) as fuel. intros fuel. revert p. induction fuel as [|fuel IH]; intros p Hl; [lia|]. cbn [existsOrCreate_from].
  apply returns_bind; [auto with returns|]. intros v. destruct (v =? ZOK)%Z; [auto with returns|]. destruct (find_last _ p) as [pos|] eqn:Ef; [|auto with returns]. apply find_last_lt in Ef.
  apply returns_bind; [destruct (pos =? 0); [auto with returns|apply IH; rewrite length_take; lia]|]. intros [|]; [apply returns_bind|]; auto with returns.
Qed.
#[local] Hint Resolve returns_existsOrCreate : returns.
Lemma returns_registerInfo d v i x : returns (registerInfo d v i x).
Proof. apply returns_bind; [auto with returns|]. intros [|]; cbn [negb]; [apply returns_bind|]; auto with returns. Qed.
Lemma returns_getChildren p : returns (getChildren inet_addr p).
Proof.
  unfold getChildren. destruct (ParseDomainService p) as [[d v]|]; [|auto with returns]. apply returns_bind; [auto with returns|]. intros q. destruct (q !! d) as [ss|]; [|auto with returns]. destruct (_ && _); [auto with returns|].
  apply returns_bind; [auto with returns|]. intros [l|]; [|auto with returns]. apply returns_bind; [apply returns_modify|auto with returns].
Qed.
#[local] Hint Resolve returns_registerInfo returns_getChildren : returns.
Context (no_all : ∀ (k : K) d w l, (zk_getChildren k (GetDomainPath d) w).1 = Some l → bytes_of "all" ∉ l).
(** What is listed of a domain does not contain "all", so that the recursion has
    depth two. *)
Lemma returns_domain {B} d (g : option (list str) → M D B) : (∀ r, (∀ i, i ∈ default [] r → string_of i ≠ "all"%string) → returns (g r)) → returns (let! r := client_getChildren (GetDomainPath d) false in g r).
Proof.
  intros Hg s. unfold client_getChildren, cbind. destruct (others s) as [[] s1| |] eqn:Eo; [|done|done]. pose proof (no_all (d_zk s1) d false) as Hn. destruct (zk_getChildren _ _ _) as [r k]. apply Hg. intros i Hi Ha. destruct r as [l|]; cbn [default] in Hi; [|by apply not_elem_of_nil in Hi].
  apply (Hn l eq_refl). by rewrite <- Ha, bytes_of_string.
Qed.
Lemma returns_queryInfo d v : returns (queryInfo 2 d v).
Proof.
  assert (H1 : ∀ fuel v, v ≠ "all"%string → returns (queryInfo (S fuel) d v)).
  { intros fuel w Hw. cbn [queryInfo]. rewrite bool_decide_true by done. apply returns_bind; [auto with returns|]. intros [|]; cbn [negb]; [|auto with returns]. apply returns_bind; [auto with returns|]. intros self.
    destruct (bool_decide _); [auto with returns|]. do 2 (apply returns_bind; [auto with returns|intros ?]). auto with returns. }
  destruct (decide (v = "all"%string)) as [->|Hv]; [|by apply H1]. rewrite (eq_refl : queryInfo 2 d "all" = let! c := client_getChildren (GetDomainPath d) false in all_ok (λ i, queryInfo 1 d (string_of i)) (default [] c)).
  apply (returns_domain d). intros r Hr. apply returns_all_ok. intros i Hi. by apply H1, Hr.
Qed.
Lemma returns_queryData d v : returns (queryData inet_addr 2 d v).
Proof.
  assert (H1 : ∀ fuel v, v ≠ "all"%string → returns (queryData inet_addr (S fuel) d v)) by (intros fuel w Hw; cbn [queryData]; rewrite bool_decide_true by done; auto with returns).
  destruct (decide (v = "all"%string)) as [->|Hv]; [|by apply H1]. rewrite (eq_refl : queryData inet_addr 2 d "all" = let! c := client_getChildren (GetDomainPath d) false in all_ok (λ i, queryData inet_addr 1 d (string_of i)) (default [] c)).
  apply (returns_domain d). intros r Hr. apply returns_all_ok. intros i Hi. by apply H1, Hr.
Qed.
(** when no service is called "all", every operation and handler returns, with
    recursion of depth two, whatever others do meanwhile. *)
Theorem discovery_returns o : returns (sd_run inet_addr 2 o).
Proof.
  assert (Hc : returns (onZKConnect inet_addr 2)).
  { repeat (apply returns_bind; [first [apply returns_reads|apply returns_all_ok; intros x _; repeat (destruct x as [x ?]); first [apply returns_registerInfo|apply returns_queryInfo|apply returns_queryData]]|intros ?]). apply returns_ret. }
  destruct o; cbn [sd_run]; [apply returns_modify..| |done|apply returns_bind; auto with returns; intros; apply returns_modify].
  apply returns_bind; [apply returns_reads|]. intros [|e es]; [apply returns_ret|]. apply returns_bind; [apply returns_modify|]. intros _. unfold onWatch.
  destruct (ev_stat_of e), (ev_type_of e); auto with returns; [apply returns_bind; auto with returns|apply returns_modify].
Qed.
End mirror.

(** ** An instance *)
Record toyzk := mkToyZk { tz_nodes : list (str * list str); tz_watch : list str }.
Fixpoint tz_find (p : str) (l : list (str * list str)) : option (list str) :=
  match l with [] => None | (q, c) :: l => if bool_decide (q = p) then Some c else tz_find p l end.
(** A node gets other children; a watch on it fires. *)
Definition tz_set (p : str) (c : list str) (k : toyzk) : list zevent * toyzk :=
  (if bool_decide (p ∈ tz_watch k) then [mkEvent CHILD CONNECTED p] else [], mkToyZk ((p, c) :: tz_nodes k) (filter (λ q, q ≠ p) (tz_watch k))).
Definition tz_create (k : toyzk) (p : str) : Z * list zevent * toyzk :=
  match tz_find p (tz_nodes k) with
  | Some _ => (ZNODEEXISTS, [], k)
  | None =>
    let pos := default 0 (find_last (isc "/") p) in
    let '(es1, k1) := tz_set (take pos p) (default [] (tz_find (take pos p) (tz_nodes k)) ++ [drop (pos + 1) p]) k in
    let '(es2, k2) := tz_set p [] k1 in
    (ZOK, es1 ++ es2, k2)
  end.
#[export] Instance toy_zk : ZooKeeper toyzk (str * list str) := {
  zk_exists k p := match tz_find p (tz_nodes k) with Some _ => ZOK | None => (-101)%Z end;
  zk_create k p _ _ := tz_create k p;
  zk_getChildren k p w := match tz_find p (tz_nodes k) with Some l => (Some l, if w then mkToyZk (tz_nodes k) (p :: tz_watch k) else k) | None => (None, k) end;
  zk_reconnect k := mkToyZk (tz_nodes k) [];
  zk_move m k := tz_set m.1 m.2 k;
  zk_children k p := tz_find p (tz_nodes k);
  zk_watched k p := bool_decide (p ∈ tz_watch k)
}.
Lemma tz_set_quietly p c (k : toyzk) : quietly k (tz_set p c k).1 (tz_set p c k).2.
Proof.
  unfold quietly, tz_set. cbn. split_and!.
  - intros q. rewrite !bool_decide_eq_true, list_elem_of_filter. intros [Hne Hq]. by rewrite (bool_decide_false (p = q)).
  - intros q. rewrite !bool_decide_eq_true, list_elem_of_filter. intros Hq. destruct (decide (q = p)) as [->|Hne]; [|by left]. right. rewrite bool_decide_true by done. eexists. split; [by left|done].
  - intros e. case_bool_decide as Hp; [|by intros He%not_elem_of_nil]. intros He%list_elem_of_singleton _. subst e. by apply bool_decide_eq_true.
Qed.
Lemma quietly_trans {K Mv} `{!ZooKeeper K Mv} (k1 k2 k3 : K) es1 es2 : quietly k1 es1 k2 → quietly k2 es2 k3 → quietly k1 (es1 ++ es2) k3.
Proof.
  intros (A1 & A2 & A3) (B1 & B2 & B3). split_and!.
  - intros p Hp. destruct (B1 p Hp) as [Hw ->]. by apply A1.
  - intros p Hp. setoid_rewrite elem_of_app. destruct (A2 p Hp) as [Hw|(e & ? & ?)]; [|by eauto]. destruct (B2 p Hw) as [?|(e & ? & ?)]; eauto.
  - intros e [He|He]%elem_of_app Ht; [by apply A3|]. by apply A1, B3.
Qed.
#[export] Instance toy_zk_laws : ZooKeeperLaws toyzk (str * list str).
Proof.
  split.
  - intros k p v e. cbn. unfold tz_create. destruct (tz_find p _); [split_and!; cbn; [done|by left|by intros ? ?%not_elem_of_nil]|]. set (pos := default 0 _). set (c := default [] _ ++ _).
    pose proof (tz_set_quietly (take pos p) c k) as H1. destruct (tz_set (take pos p) c k) as [es1 k1]. pose proof (tz_set_quietly p [] k1) as H2. destruct (tz_set p [] k1) as [es2 k2]. by eapply quietly_trans.
  - intros m k. apply tz_set_quietly.
  - intros k p w l. cbn. destruct (tz_find p _) eqn:E; [|done]. by intros [= ->].
  - intros k p w q. cbn. destruct (tz_find p (tz_nodes k)); [|done]. by destruct w.
  - intros k p w q. cbn. destruct (tz_find p (tz_nodes k)) as [l|]; cbn; [|by rewrite andb_false_r, orb_false_r].
    rewrite andb_true_r. destruct w; cbn; [|by rewrite orb_false_r]. apply eq_true_iff_eq. rewrite orb_true_iff, !bool_decide_eq_true, elem_of_cons. tauto.
  - done.
Qed.

(** ** Examples *)
Section examples.
#[local] Instance disc_order : IterOrder string := natural_order.
Definition ex_inet (s : str) : Z := (foldl (λ a b, a * 256 + Z_of_byte b) 0 s mod 2 ^ 32)%Z.
Definition ex_path : str := GetProvidersPath "d" "s".
Definition node_a : str := bytes_of "1.2.3.4:80".
Definition node_b : str := bytes_of "1.2.3.5:80".
Definition ex_zk : toyzk := mkToyZk [(bytes_of "/Sylar", [])] [].
Abbreviation X := (discovery toyzk (str * list str)).
Fixpoint ex_run (os : list (sd_op (Mv := str * list str))) (s : X) : option X :=
  match os with [] => Some s | o :: os => match sd_run ex_inet 2 o s with Ret _ s => ex_run os s | _ => None end end.
Lemma ex_reach os s s' : ex_run os s = Some s' → rtc (sd_serial ex_inet) s s'.
Proof.
  revert s. induction os as [|o os IH]; intros s; cbn [ex_run]; [by intros [= ->]|]. destruct (sd_run ex_inet 2 o s) as [[] s1| |] eqn:E; [|done|done]. intros H. eapply rtc_l; [by exists 2, o|by apply IH].
Qed.
(** A server registers and is found; another comes and is found by the watch. *)
Definition ex_ops : list (sd_op (Mv := str * list str)) :=
  [OpQuery "d" "s"; OpRegister "d" "s" "1.2.3.4:80" []; OpTimer; OpOthers [(ex_path, [node_a; node_b])]; OpOthers []; OpDeliver].
Definition ex_after : X := default (sd_start ex_zk [] []) (ex_run ex_ops (sd_start ex_zk [] [])).
Lemma ex_after_run : ex_run ex_ops (sd_start ex_zk [] []) = Some ex_after.
Proof. vm_compute. reflexivity. Qed.
Lemma ex_unwatched p : zk_watched ex_zk p = false.
Proof. apply bool_decide_eq_false. apply not_elem_of_nil. Qed.
Lemma discovery_mirrors_witness : zk_children (d_zk ex_after) ex_path = Some [node_a; node_b] ∧ service_infos "d" "s" (d_datas ex_after) = make_infos ex_inet [node_a; node_b].
Proof.
  destruct (discovery_mirrors ex_inet ex_zk [] [] ex_after ex_unwatched (ex_reach _ _ _ ex_after_run)) as [H _].
  destruct (H "d"%string "s"%string ltac:(by repeat constructor) ltac:(by repeat constructor) ltac:(vm_compute; reflexivity)) as (l & E1 & E2).
  assert (E : zk_children (d_zk ex_after) ex_path = Some [node_a; node_b]) by (vm_compute; reflexivity). split; [exact E|]. rewrite E2. f_equal. unfold ex_path in E. congruence.
Defined.

(** ** What the code does not mean *)
(** inet_addr says that an address is not valid with 2 ^ 32 - 1, not with 0. *)
Lemma invalid_ip inet_addr : inet_addr (bytes_of "x") = (2 ^ 32 - 1)%Z → is_Some (ServiceItemInfo_Create inet_addr (bytes_of "x:80") []).
Proof. intros H. unfold ServiceItemInfo_Create. rewrite (eq_refl : find_if (isc ":") (bytes_of "x:80") = Some 1). rewrite (eq_refl : c_str (take 1 (bytes_of "x:80")) = bytes_of "x"). rewrite H. by eexists. Qed.
(** A port of more than 32 bits changes the address in the id. *)
Lemma port_overflows : si_id <$> ServiceItemInfo_Create ex_inet (bytes_of "1.2.3.4:4294967296") [] = si_id <$> ServiceItemInfo_Create ex_inet (bytes_of "1.2.3.5:0") [].
Proof. vm_compute. reflexivity. Qed.
(** A name with a slash is registered but never found. *)
Lemma slash_lost inet_addr d v (s : X) : ¬ (plain d ∧ plain v) → getChildren inet_addr (GetProvidersPath d v) s = Ret false s.
Proof. intros Hp. unfold getChildren. destruct (ParseDomainService _) as [x|] eqn:E; [|done]. by destruct (parse_inv d v x E). Qed.
(** Who queries all services of a domain that has one called "all" recurses for
    ever. *)
Definition all_zk : toyzk := mkToyZk [(GetDomainPath "d", [bytes_of "all"])] [].
Lemma all_recurses fuel : queryData ex_inet fuel "d" "all" (sd_start all_zk [] []) = Stuck OutOfFuel.
Proof.
  induction fuel as [|fuel IH]; [done|].
  assert (Hc : client_getChildren (GetDomainPath "d") false (sd_start all_zk [] []) = Ret (Some [bytes_of "all"]) (sd_start (Mv := str * list str) all_zk [] [])) by reflexivity.
  change (queryData ex_inet (S fuel) "d" "all") with (let! c := client_getChildren (GetDomainPath "d") false in all_ok (λ i, queryData ex_inet fuel "d" (string_of i)) (default [] c)).
  rewrite (cbind_Ret _ _ _ _ _ Hc). change (cbind (queryData ex_inet fuel "d" "all") (λ a, let! b := all_ok (λ i, queryData ex_inet fuel "d" (string_of i)) [] in cret (a && b)) (sd_start all_zk [] []) = Stuck OutOfFuel). unfold cbind at 1. by rewrite IH.
Qed.
(** The timer and the watcher run in different threads: a read that is stored
    after a newer one leaves the old providers, with no event to come. *)
Definition racing : M X unit :=
  let! _ := queryServer "d" "s" in
  let! old := client_getChildren ex_path true in
  let! _ := cmodify (λ s, set_zk (d_zk s) [(ex_path, [node_a; node_b])] (d_events s) s) in
  let! _ := others in
  let! _ := deliver ex_inet 2 in
  store_infos "d" "s" (make_infos ex_inet (default [] old)).
Lemma stale_store :
  match racing (sd_start (mkToyZk [(ex_path, [node_a])] []) [] []) with
  | Ret _ s => service_infos "d" "s" (d_datas s) = make_infos ex_inet [node_a] ∧ zk_children (d_zk s) ex_path = Some [node_a; node_b] ∧ d_events s = [] ∧ zk_watched (d_zk s) ex_path = true
  | _ => False
  end.
Proof. vm_compute. split_and!; reflexivity. Qed.
End examples.
