(* ===== verification/SortedMap.v ===== *)
(** * std::map

    A [std::map] is the list of its entries in the order of their keys.
    [insert] keeps the entry of a key that is there, [operator[]=] replaces
    its value. A map is determined by what it finds. *)
From Stdlib Require Import ZArith Lia Strings.Byte Sorting.Sorted.
From stdpp Require Import base list sorting list_numbers numbers.
From S2P Require Import Prelude OrderedSet Address AddressOrder.

Definition str_lt (a b : list byte) : bool := match lex a b with Lt => true | _ => false end.
#[export] Instance str_key_order : KeyOrder str_lt.
Proof.
  split; unfold str_lt.
  - intros k. by rewrite (proj2 (lex_eq k k)).
  - intros a b c. destruct (lex a b) eqn:E1, (lex b c) eqn:E2; try done. by rewrite (lex_trans _ _ _ E1 E2).
  - intros a b Hne. rewrite (lex_opp a b). pose proof (lex_eq a b). destruct (lex a b); cbn; auto. naive_solver.
Qed.
#[export] Instance Z_key_order : KeyOrder Z.ltb.
Proof. split; intros *; rewrite ?Z.ltb_lt, ?Z.ltb_irrefl; try done; lia. Qed.

Section map.
Context {K V : Type} (klt : K → K → bool) `{!EqDecision K, !KeyOrder klt}.
Implicit Types (k : K) (v : V) (m : list (K * V)).
Fixpoint sm_put (replace : bool) (k : K) (v : V) (m : list (K * V)) : list (K * V) :=
  match m with
  | [] => [(k, v)]
  | (k', v') :: m' =>
    if klt k k' then (k, v) :: m
    else if klt k' k then (k', v') :: sm_put replace k v m'
    else (k', if replace then v else v') :: m'
  end.
Definition sm_insert : K → V → list (K * V) → list (K * V) := sm_put false.
Definition sm_set : K → V → list (K * V) → list (K * V) := sm_put true.
Definition sm_erase (k : K) (m : list (K * V)) : list (K * V) := filter (λ p, p.1 ≠ k) m.
Definition sm_sorted (m : list (K * V)) : Prop := StronglySorted (λ p q, klt p.1 q.1 = true) m.

Lemma sm_below k k1 m : klt k k1 = true → Forall (λ p, klt k1 p.1 = true) m → Forall (λ p, klt k p.1 = true) m.
Proof. intros Hk. induction 1; constructor; [by eapply klt_trans|done]. Qed.
Lemma sm_find_lt k m : Forall (λ p, klt k p.1 = true) m → al_find k m = None.
Proof.
  induction 1 as [|p m Hp _ IH]; [done|]. rewrite al_find_cons, IH. destruct (decide (p.1 = k)) as [E|]; [|done]. rewrite E, (klt_irrefl (klt := klt)) in Hp. done.
Qed.
Lemma sm_put_keys (P : K → Prop) r k v m : P k → Forall (λ p, P p.1) m → Forall (λ p, P p.1) (sm_put r k v m).
Proof.
  intros Hk. induction 1 as [|[k1 v1] m H1 Hm IH]; cbn [sm_put]; [by repeat constructor|]. destruct (klt k k1); [by repeat constructor|]. destruct (klt k1 k); by repeat constructor.
Qed.
Lemma sm_put_values (P : V → Prop) r k v m : P v → Forall (λ p, P p.2) m → Forall (λ p, P p.2) (sm_put r k v m).
Proof.
  intros Hk. induction 1 as [|[k1 v1] m H1 Hm IH]; cbn [sm_put]; [by repeat constructor|]. destruct (klt k k1); [by repeat constructor|]. destruct (klt k1 k); repeat constructor; try done. by destruct r.
Qed.
Lemma sm_put_sorted r k v m : sm_sorted m → sm_sorted (sm_put r k v m).
Proof.
  unfold sm_sorted. induction 1 as [|[k1 v1] m Hm IH Hf]; cbn [sm_put]; [by repeat constructor|]. destruct (klt k k1) eqn:E1.
  - constructor; [by constructor|]. constructor; [done|]. by eapply sm_below.
  - destruct (klt k1 k) eqn:E2; constructor; [done| |done|done]. by apply (sm_put_keys (λ k0, klt k1 k0 = true)).
Qed.
Lemma sm_find_put r k v m k' : sm_sorted m →
  al_find k' (sm_put r k v m) = if decide (k = k') then (if r then Some v else Some (default v (al_find k m))) else al_find k' m.
Proof.
  unfold sm_sorted. induction 1 as [|[k1 v1] m Hm IH Hf]; cbn [sm_put]; [rewrite al_find_cons; cbn; by destruct r|]. destruct (klt k k1) eqn:E1; [|destruct (klt k1 k) eqn:E2].
  - rewrite al_find_cons. cbn [fst snd]. destruct (decide (k = k')) as [<-|]; [|done]. rewrite sm_find_lt; [by destruct r|]. constructor; [done|]. by eapply sm_below.
  - assert (k1 ≠ k) by (intros ->; by rewrite (klt_irrefl (klt := klt)) in E2). rewrite !al_find_cons, IH. cbn [fst snd]. rewrite (decide_False (P := k1 = k)) by done.
    destruct (decide (k1 = k')) as [<-|]; [by rewrite decide_False|done].
  - assert (k1 = k) as ->. { destruct (decide (k1 = k)); [done|]. destruct (klt_total (klt := klt) k1 k) as [H|H]; [done|congruence|congruence]. }
    rewrite !al_find_cons. cbn [fst snd]. rewrite (decide_True (P := k = k)) by done. by destruct (decide (k = k')), r.
Qed.
Lemma sm_erase_sorted k m : sm_sorted m → sm_sorted (sm_erase k m).
Proof.
  unfold sm_sorted, sm_erase. induction 1 as [|p m Hm IH Hf]; [constructor|]. rewrite filter_cons. case_decide; [|done]. constructor; [done|].
  apply Forall_lookup_2. intros i q Hq%list_elem_of_lookup_2. apply list_elem_of_filter in Hq as [_ Hq]. apply list_elem_of_lookup_1 in Hq as [j Hq]. by apply (Forall_lookup_1 _ _ _ _ Hf Hq).
Qed.
Lemma sm_find_erase k m k' : al_find k' (sm_erase k m) = if decide (k = k') then None else al_find k' m.
Proof.
  unfold sm_erase. induction m as [|p m IH]; [by destruct (decide (k = k'))|]. rewrite filter_cons. destruct (decide (p.1 ≠ k)) as [E|E]; rewrite ?al_find_cons, IH; destruct (decide (k = k')), (decide (p.1 = k')); try done; exfalso; subst; try done; by apply E; intros ->.
Qed.
Lemma sm_ext m1 m2 : sm_sorted m1 → sm_sorted m2 → (∀ k, al_find k m1 = al_find k m2) → m1 = m2.
Proof.
  unfold sm_sorted. intros H1. revert m2. induction H1 as [|[k1 v1] m1 Hm1 IH Hf1]; intros m2 H2 He.
  - destruct m2 as [|[k2 v2] m2]; [done|]. specialize (He k2). rewrite al_find_cons in He. cbn in He. by rewrite decide_True in He.
  - inversion H2 as [|[k2 v2] m2' Hm2 Hf2]; subst; [specialize (He k1); rewrite al_find_cons in He; cbn in He; by rewrite decide_True in He|].
    assert (k1 = k2) as ->.
    { destruct (decide (k1 = k2)) as [|Hne]; [done|]. exfalso. destruct (klt_total (klt := klt) k1 k2 Hne) as [Hl|Hl].
      - specialize (He k1). rewrite !al_find_cons in He. cbn in He. rewrite decide_True, decide_False, sm_find_lt in He; try done. by eapply sm_below.
      - specialize (He k2). rewrite !al_find_cons in He. cbn in He. rewrite decide_False, sm_find_lt, decide_True in He; try done. by eapply sm_below. }
    f_equal; [specialize (He k2); rewrite !al_find_cons in He; cbn in He; rewrite !decide_True in He by done; congruence|].
    apply IH; [done|]. intros k. specialize (He k). rewrite !al_find_cons in He. cbn in He. destruct (decide (k2 = k)) as [<-|]; [|done]. rewrite !sm_find_lt; done.
Qed.

(** Inserting the entries of a list, an entry of a key that is there is kept. *)
Definition sm_of_list (l : list (K * V)) : list (K * V) := foldl (λ m p, sm_insert p.1 p.2 m) [] l.
Lemma sm_of_list_acc l m : sm_sorted m →
  sm_sorted (foldl (λ m p, sm_insert p.1 p.2 m) m l) ∧ ∀ k, al_find k (foldl (λ m p, sm_insert p.1 p.2 m) m l) = match al_find k m with Some v => Some v | None => al_find k l end.
Proof.
  revert m. induction l as [|[k1 v1] l IH]; intros m Hm; cbn [foldl]; [split; [done|]; intros k; by destruct (al_find k m)|].
  destruct (IH (sm_insert k1 v1 m)) as [Hs Hf]; [by apply sm_put_sorted|]. split; [done|]. intros k. rewrite Hf. unfold sm_insert. cbn [fst snd]. rewrite sm_find_put, al_find_cons by done. cbn.
  destruct (decide (k1 = k)) as [<-|]; [by destruct (al_find k1 m)|done].
Qed.
Lemma sm_of_list_sorted l : sm_sorted (sm_of_list l).
Proof. apply (sm_of_list_acc l []). constructor. Qed.
Lemma sm_of_list_find l k : al_find k (sm_of_list l) = al_find k l.
Proof. apply (sm_of_list_acc l []). constructor. Qed.
Lemma sm_of_list_values (P : V → Prop) l : Forall (λ p, P p.2) l → Forall (λ p, P p.2) (sm_of_list l).
Proof.
  unfold sm_of_list. assert (H : Forall (λ p : K * V, P p.2) []) by constructor. revert H. generalize (@nil (K * V)). induction l as [|p l IH]; intros m Hm Hl; [done|]. apply Forall_cons_1 in Hl as [Hp Hl]. cbn. apply IH; [|done]. by apply sm_put_values.
Qed.
Lemma sm_sorted_NoDup m : sm_sorted m → NoDup m.*1.
Proof.
  induction 1 as [|p m Hm IH Hf]; [constructor|]. rewrite fmap_cons. apply list.NoDup_cons. split; [|done]. rewrite <- al_find_In, sm_find_lt by done. by intros [].
Qed.
Lemma al_find_perm (l l' : list (K * V)) k : NoDup l.*1 → l ≡ₚ l' → al_find k l = al_find k l'.
Proof.
  intros Hd Hp. induction Hp as [|p l l' _ IH|p q l|l1 l2 l3 H12 IH1 _ IH2]; [done|..].
  - rewrite fmap_cons in Hd. apply list.NoDup_cons in Hd as [_ Hd]. by rewrite !al_find_cons, IH.
  - rewrite !al_find_cons. rewrite !fmap_cons in Hd. apply list.NoDup_cons in Hd as [Hn _]. rewrite not_elem_of_cons in Hn. destruct Hn as [Hn _]. destruct (decide (p.1 = k)), (decide (q.1 = k)); congruence.
  - rewrite IH1, IH2; [done| |done]. by rewrite <- H12.
Qed.
(** A map is rebuilt from its entries in any order. *)
Lemma sm_rebuild m l : sm_sorted m → l ≡ₚ m → sm_of_list l = m.
Proof.
  intros Hm Hp. apply sm_ext; [apply sm_of_list_sorted|done|]. intros k. rewrite sm_of_list_find. symmetry. apply al_find_perm; [by apply sm_sorted_NoDup|done].
Qed.
End map.
