(* ===== verification/LogFormat.v ===== *)
(** * Log levels and patterns (Sylar/log.h, Sylar/log.cc)

    LogLevel, LogEvent and LogFormatter: the parser of patterns such as
    "%d{%H:%M}%T[%p] %m%n" and the items it makes, which print the fields of
    an event. strftime is an argument. The grammar of patterns is an inductive
    relation; the parser accepts exactly its sentences. *)
From Stdlib Require Import ZArith Lia Strings.Byte.
From Stdlib Require Import (notations) Strings.String.
From stdpp Require Import base list list_numbers numbers.
From S2P Require Import Prelude Text Address.
#[local] Open Scope byte_scope.
Local Open Scope Z_scope.
Local Open Scope nat_scope.

(** The characters of a literal. *)
Definition text (s : String.string) : str := String.list_byte_of_string s.
Arguments text s%_string.

(** ** Levels *)
Inductive Level := UNKNOW | DEBUG | INFO | WARN | ERROR | FATAL.
#[export] Instance Level_eq_dec : EqDecision Level.
Proof. solve_decision. Defined.
Definition level_num (l : Level) : Z :=
  match l with UNKNOW => 0 | DEBUG => 1 | INFO => 2 | WARN => 3 | ERROR => 4 | FATAL => 5 end.
Definition level_toString (l : Level) : str :=
  match l with
  | DEBUG => text "DEBUG" | INFO => text "INFO" | WARN => text "WARN" | ERROR => text "ERROR" | FATAL => text "FATAL"
  | UNKNOW => text "UNKNOW"
  end.
Definition level_fromString (s : str) : Level :=
  if bool_decide (s = text "debug") || bool_decide (s = text "DEBUG") then DEBUG
  else if bool_decide (s = text "info") || bool_decide (s = text "INFO") then INFO
  else if bool_decide (s = text "warn") || bool_decide (s = text "WARN") then WARN
  else if bool_decide (s = text "error") || bool_decide (s = text "ERROR") then ERROR
  else if bool_decide (s = text "fatal") || bool_decide (s = text "FATAL") then FATAL
  else UNKNOW.
Lemma level_roundtrip l : level_fromString (level_toString l) = l.
Proof. by destruct l. Qed.

(** ** Events; a logger is its number in the store of loggers *)
Record LogEvent := mkEvent {
  e_logger : nat; e_level : Level; e_file : str; e_line : Z; e_elapse : Z; e_threadId : Z; e_fiberId : Z; e_time : Z;
  e_threadName : str; e_content : str
}.

(** ** Items *)
Inductive FormatItem :=
  | MessageFormatItem | LevelFormatItem | ElapseFormatItem | NameFormatItem | ThreadIdFormatItem | NewLineFormatItem
  | DateTimeFormatItem (m_format : str) | FilenameFormatItem | LineFormatItem | TabFormatItem | FiberIdFormatItem
  | ThreadNameFormatItem | StringFormatItem (m_string : str).
#[export] Instance FormatItem_eq_dec : EqDecision FormatItem.
Proof. solve_decision. Defined.
Definition default_date : str := text "%Y-%m-%d %H:%M:%S".
Definition DateTime_new (format : str) : FormatItem :=
  DateTimeFormatItem (if bool_decide (format = []) then default_date else format).
(** s_format_items *)
Definition s_format_items (key : str) : option (str → FormatItem) :=
  match key with
  | ["m"] => Some (λ _, MessageFormatItem)
  | ["p"] => Some (λ _, LevelFormatItem)
  | ["r"] => Some (λ _, ElapseFormatItem)
  | ["c"] => Some (λ _, NameFormatItem)
  | ["t"] => Some (λ _, ThreadIdFormatItem)
  | ["n"] => Some (λ _, NewLineFormatItem)
  | ["d"] => Some DateTime_new
  | ["f"] => Some (λ _, FilenameFormatItem)
  | ["l"] => Some (λ _, LineFormatItem)
  | ["T"] => Some (λ _, TabFormatItem)
  | ["F"] => Some (λ _, FiberIdFormatItem)
  | ["N"] => Some (λ _, ThreadNameFormatItem)
  | _ => None
  end.
(** operator<< of an int *)
Definition print_int (z : Z) : str := if (z <? 0)%Z then "-" :: print_num 10 (- z) else print_num 10 z.
Section format.
(** [strftime f t] is what strftime writes for a local time, if there is room;
    [names]: the names of the loggers. *)
Context (strftime : str → Z → str) (names : nat → option str).
Definition item_format {S} (level : Level) (event : LogEvent) (i : FormatItem) : M S str :=
  match i with
  | MessageFormatItem => cret (e_content event)
  | LevelFormatItem => cret (level_toString level)
  | ElapseFormatItem => cret (print_num 10 (e_elapse event))
  | NameFormatItem => cderef (names (e_logger event))
  | ThreadIdFormatItem => cret (print_num 10 (e_threadId event))
  | NewLineFormatItem => cret ["010"]
  | DateTimeFormatItem f =>
    (* char buf[64]: without room strftime leaves it unspecified *)
    let buf := strftime f (e_time event) in
    if (length buf <? 64) then cret buf else cstuck OutOfBounds
  | FilenameFormatItem => cret (e_file event)
  | LineFormatItem => cret (print_int (e_line event))
  | TabFormatItem => cret ["009"]
  | FiberIdFormatItem => cret (print_num 10 (e_fiberId event))
  | ThreadNameFormatItem => cret (e_threadName event)
  | StringFormatItem s => cret s
  end.
(** What format appends to the stream. *)
Fixpoint items_format {S} (level : Level) (event : LogEvent) (items : list FormatItem) : M S str :=
  match items with
  | [] => cret []
  | i :: items => let! s := item_format level event i in let! r := items_format level event items in cret (s ++ r)
  end.
End format.

(** ** LogFormatter::init *)
Record LogFormatter := mkFormatter { m_pattern : str; m_items : list FormatItem; m_error : bool }.
Definition isalpha (b : byte) : bool := between "a" "z" b || between "A" "Z" b.
(** Characters that do not end an identifier. *)
Definition ident_char (c : byte) : bool := isalpha c || isc "{" c || isc "}" c.
(** The inner loop, from position [n] of an item that starts at [i];
    [status]: fmt_status. *)
Fixpoint fmt_scan (fuel : nat) (p : str) (i n : nat) (status : bool) (fmt_begin : nat) (s fmt : str) : option (bool * nat * str * str) :=
  match fuel with
  | O => None
  | S fuel =>
    match p !! n with
    | None => Some (status, n, s, fmt)
    | Some c =>
      if negb status && negb (ident_char c) then Some (status, n, take (n - i - 1) (drop (i + 1) p), fmt)
      else if negb status && isc "{" c then fmt_scan fuel p i (S n) true n (take (n - i - 1) (drop (i + 1) p)) fmt
      else if status && isc "}" c then Some (false, S n, s, take (n - fmt_begin - 1) (drop (fmt_begin + 1) p))
      else
        let n := S n in
        let s := if (n =? length p) && bool_decide (s = []) then drop (i + 1) p else s in
        fmt_scan fuel p i n status fmt_begin s fmt
    end
  end.
(** The outer loop; entries of vec are (text, parameter, whether it is an
    item). *)
Definition push_nstr (nstr : str) (vec : list (str * str * bool)) := if bool_decide (nstr = []) then vec else vec ++ [(nstr, [], false)].
Fixpoint fmt_init_loop (fuel : nat) (p : str) (i : nat) (nstr : str) (vec : list (str * str * bool)) (err : bool) : option (list (str * str * bool) * bool) :=
  match fuel with
  | O => None
  | S fuel =>
    match p !! i with
    | None => Some (push_nstr nstr vec, err)
    | Some c =>
      if negb (isc "%" c) then fmt_init_loop fuel p (S i) (nstr ++ [c]) vec err
      else if bool_decide (p !! S i = Some "%") then fmt_init_loop fuel p (S i) (nstr ++ ["%"]) vec err
      else
        match fmt_scan (S (length p)) p i (i + 1) false 0 [] [] with
        | None => None
        | Some (false, n, s, fmt) => fmt_init_loop fuel p n [] (push_nstr nstr vec ++ [(s, fmt, true)]) err
        | Some (true, n, s, fmt) => fmt_init_loop fuel p (S i) nstr (vec ++ [(text "<<pattern_error>>", fmt, false)]) true
        end
    end
  end.
Definition vec_item (e : str * str * bool) : FormatItem * bool :=
  let '(s, fmt, item) := e in
  if item : bool then
    match s_format_items s with
    | None => (StringFormatItem (text "<<error_format %" ++ s ++ text ">>"), true)
    | Some mk => (mk fmt, false)
    end
  else (StringFormatItem s, false).
Definition LogFormatter_new {St} (pattern : str) : M St LogFormatter :=
  match fmt_init_loop (S (length pattern)) pattern 0 [] [] false with
  | None => cstuck OutOfFuel
  | Some (vec, err) => cret (mkFormatter pattern (fst <$> (vec_item <$> vec)) (err || existsb snd (vec_item <$> vec)))
  end.

(** ** The grammar of patterns *)
(** A character of plain text joins the text that follows. *)
Definition add_lit (c : byte) (ts : list FormatItem) : list FormatItem :=
  match ts with
  | StringFormatItem s :: ts => StringFormatItem (c :: s) :: ts
  | _ => StringFormatItem [c] :: ts
  end.
Definition ends_ident (s : str) : Prop := match s with [] => True | c :: _ => ident_char c = false end.
(** What the parser accepts. A percent sign before a percent sign is text; the
    second one still starts a conversion. *)
Inductive parses : str → list FormatItem → Prop :=
  | P_nil : parses [] []
  | P_lit c s ts : c ≠ "%" → parses s ts → parses (c :: s) (add_lit c ts)
  | P_percent s ts : parses ("%" :: s) ts → parses ("%" :: "%" :: s) (add_lit "%" ts)
  | P_short c s mk ts : s_format_items [c] = Some mk → ends_ident s → parses s ts → parses ("%" :: c :: s) (mk [] :: ts)
  | P_long c f s mk ts : s_format_items [c] = Some mk → ("}" ∉ f) → parses s ts → parses ("%" :: c :: "{" :: f ++ "}" :: s) (mk f :: ts).

(** What the comments of the parser say of a pattern: [%%] is one percent
    sign. *)
Inductive documented : str → list FormatItem → Prop :=
  | D_nil : documented [] []
  | D_lit c s ts : c ≠ "%" → documented s ts → documented (c :: s) (add_lit c ts)
  | D_percent s ts : documented s ts → documented ("%" :: "%" :: s) (add_lit "%" ts)
  | D_short c s mk ts : s_format_items [c] = Some mk → ends_ident s → documented s ts → documented ("%" :: c :: s) (mk [] :: ts)
  | D_long c f s mk ts : s_format_items [c] = Some mk → ("}" ∉ f) → documented s ts → documented ("%" :: c :: "{" :: f ++ "}" :: s) (mk f :: ts).
(** No percent sign follows another. *)
Fixpoint no_double (s : str) : bool :=
  match s with
  | c :: s => negb (isc "%" c && match s with c' :: _ => isc "%" c' | [] => false end) && no_double s
  | [] => true
  end.
Lemma no_double_cons c s : no_double (c :: s) = true → no_double s = true.
Proof. cbn [no_double]. by intros [_ H]%andb_true_iff. Qed.
Lemma no_double_app s r : no_double (s ++ r) = true → no_double r = true.
Proof. induction s as [|c s IH]; [done|]. intros H. apply IH. by apply no_double_cons in H. Qed.
Lemma no_double_long c f s : no_double ("%" :: c :: "{" :: f ++ "}" :: s) = true → no_double s = true.
Proof. intros H. do 3 apply no_double_cons in H. apply no_double_app in H. by apply no_double_cons in H. Qed.
(** Without doubled percent signs the two agree. *)
Lemma parses_documented s ts : no_double s = true → parses s ts ↔ documented s ts.
Proof.
  intros Hd. split; intros H; induction H as [|c s ts Hc _ IH|s ts _ IH|c s mk ts Hc He _ IH|c f s mk ts Hc Hf _ IH];
    try done; constructor; try done; apply IH.
  all: first [by apply no_double_cons in Hd|by apply no_double_long in Hd|by do 2 apply no_double_cons in Hd].
Qed.

(** ** The inner loop *)
Definition ident_in (c : byte) : Prop := isalpha c || isc "}" c = true.
Lemma isc_eq c b : isc c b = bool_decide (b = c).
Proof. done. Qed.
Lemma ident_in_char c : ident_in c → ident_char c = true ∧ isc "{" c = false.
Proof. unfold ident_in, ident_char. intros H. destruct c; split; vm_compute in H |- *; congruence. Qed.
Lemma ident_cases c : ident_char c = false ∨ c = "{" ∨ ident_in c.
Proof. unfold ident_char, ident_in. destruct (isc "{" c) eqn:E; [apply isc_true in E; auto|]. destruct (isalpha c), (isc "}" c); auto. Qed.

(** What follows a percent sign: an identifier, perhaps a parameter, and the
    rest; [None] is a parameter that is not closed. *)
Inductive conv_of : str → option (str * str * str) → Prop :=
  | C_short k r : Forall ident_in k → ends_ident r → conv_of (k ++ r) (Some (k, [], r))
  | C_long k f r : Forall ident_in k → ("}" ∉ f) → conv_of (k ++ "{" :: f ++ "}" :: r) (Some (k, f, r))
  | C_open k r : Forall ident_in k → ("}" ∉ r) → conv_of (k ++ "{" :: r) None.
Lemma conv_total s : ∃ o, conv_of s o.
Proof.
  assert (H : ∃ k r, s = k ++ r ∧ Forall ident_in k ∧ (ends_ident r ∨ ∃ r', r = "{" :: r')).
  { induction s as [|c s (k & r & -> & Hk & Hr)]; [exists [], []; naive_solver|].
    destruct (ident_cases c) as [Hc|[->|Hc]]; [exists [], (c :: k ++ r)|exists [], ("{" :: k ++ r)|exists (c :: k), r]; naive_solver. }
  destruct H as (k & r & -> & Hk & [Hr|[r' ->]]); [eexists; by constructor|].
  destruct (decide ("}" ∈ r')) as [Hin|]; [|eexists; by constructor].
  apply list_elem_of_split_l in Hin as (f & r & -> & Hf). eexists. by constructor.
Qed.
Lemma lookup_first {A} (x : A) l : (x :: l) !! 0 = Some x.
Proof. done. Qed.
Section scan.
Context (pre k : str).
Let i := length pre.
Lemma cut_key r : take (i + 1 + length k - i - 1) (drop (i + 1) (pre ++ "%" :: k ++ r)) = k.
Proof.
  rewrite drop_app_ge by (unfold i; lia). replace (i + 1 - length pre) with 1 by (unfold i; lia). cbn [drop]. rewrite drop_0. replace (i + 1 + length k - i - 1) with (length k) by lia.
  apply take_app_length.
Qed.
Lemma look_after r j : (pre ++ "%" :: k ++ r) !! (i + 1 + length k + j) = r !! j.
Proof. rewrite lookup_app_r by (unfold i; lia). replace (i + 1 + length k + j - length pre) with (S (length k + j)) by (unfold i; lia). rewrite lookup_cons_ne_0 by done. cbn [Nat.pred]. rewrite lookup_app_r by lia. f_equal. lia. Qed.
Lemma scan_closed fuel f f' r s : length f' < fuel → ("}" ∉ f') →
  fmt_scan fuel (pre ++ "%" :: k ++ "{" :: f ++ f' ++ "}" :: r) i (i + 1 + length k + (1 + length f)) true (i + 1 + length k) s [] =
    Some (false, i + 1 + length k + (2 + length f + length f'), s, f ++ f').
Proof.
  revert f fuel. induction f' as [|c f' IH]; intros f fuel Hfuel Hin; (destruct fuel as [|fuel]; [cbn in Hfuel; lia|]); cbn [fmt_scan]; rewrite look_after, lookup_cons_ne_0 by done; cbn [Nat.add Nat.pred].
  - rewrite lookup_app_r, Nat.sub_diag by lia. cbn [app]. rewrite lookup_first. cbn -[drop take]. f_equal. f_equal; [f_equal; f_equal; lia|]. rewrite app_nil_r.
    replace (pre ++ "%" :: k ++ "{" :: f ++ "}" :: r) with ((pre ++ "%" :: k ++ ["{"]) ++ f ++ "}" :: r) by (rewrite <- !app_assoc; cbn; by rewrite <- app_assoc).
    rewrite drop_app_ge by (rewrite !length_app; cbn; rewrite length_app; cbn; unfold i; lia).
    replace (_ - length (pre ++ _)) with 0 by (rewrite !length_app; cbn; rewrite length_app; cbn; unfold i; lia). rewrite drop_0.
    replace (_ - _ - 1) with (length f) by lia. apply take_app_length.
  - apply not_elem_of_cons in Hin as [Hc Hin]. rewrite lookup_app_r, Nat.sub_diag by lia. cbn [app]. rewrite lookup_first. rewrite (isc_eq "}"), (bool_decide_eq_false_2 (c = _)) by congruence. cbn [negb andb].
    assert (E : (S (i + 1 + length k + S (length f)) =? length (pre ++ "%" :: k ++ "{" :: f ++ c :: f' ++ "}" :: r)) = false).
    { apply Nat.eqb_neq. rewrite !length_app. cbn. rewrite !length_app. cbn. rewrite !length_app. cbn. rewrite length_app. cbn. unfold i. lia. }
    rewrite E. cbn [andb]. replace (f ++ c :: f' ++ "}" :: r) with ((f ++ [c]) ++ f' ++ "}" :: r) by by rewrite <- app_assoc.
    replace (S (i + 1 + length k + S (length f))) with (i + 1 + length k + (1 + length (f ++ [c]))) by (rewrite length_app; cbn; lia).
    rewrite IH; [|cbn in Hfuel; lia|done]. rewrite length_app, <- app_assoc. cbn. do 4 f_equal. lia.
Qed.
Lemma scan_open fuel f r s : length r < fuel → ("}" ∉ r) → ∃ n s',
  fmt_scan fuel (pre ++ "%" :: k ++ "{" :: f ++ r) i (i + 1 + length k + (1 + length f)) true (i + 1 + length k) s [] = Some (true, n, s', []).
Proof.
  revert f fuel s. induction r as [|c r IH]; intros f fuel s Hfuel Hin; (destruct fuel as [|fuel]; [cbn in Hfuel; lia|]); cbn [fmt_scan]; rewrite look_after, lookup_cons_ne_0 by done; cbn [Nat.add Nat.pred].
  - rewrite app_nil_r, lookup_ge_None_2 by lia. eauto.
  - apply not_elem_of_cons in Hin as [Hc Hin]. rewrite lookup_app_r, Nat.sub_diag by lia. rewrite lookup_first. rewrite (isc_eq "}"), (bool_decide_eq_false_2 (c = _)) by congruence. cbn [negb andb].
    replace (f ++ c :: r) with ((f ++ [c]) ++ r) by by rewrite <- app_assoc.
    replace (S (i + 1 + length k + S (length f))) with (i + 1 + length k + (1 + length (f ++ [c]))) by (rewrite length_app; cbn; lia).
    apply IH; [cbn in Hfuel; lia|done].
Qed.
End scan.
(** Through the identifier: [k1] is read, [k2] is left. *)
Lemma scan_ident pre k2 k1 r fuel : Forall ident_in k2 → length (k2 ++ r) < fuel → ∃ fuel', length r < fuel' ∧
  fmt_scan fuel (pre ++ "%" :: (k1 ++ k2) ++ r) (length pre) (length pre + 1 + length k1) false 0 (if decide (k2 ++ r = []) then k1 else []) [] =
  fmt_scan fuel' (pre ++ "%" :: (k1 ++ k2) ++ r) (length pre) (length pre + 1 + length (k1 ++ k2)) false 0 (if decide (r = []) then k1 ++ k2 else []) [].
Proof.
  revert k1 fuel. induction k2 as [|c k2 IH]; intros k1 fuel Hk Hf; [exists fuel; split; [done|]; cbn [app]; by rewrite app_nil_r|].
  apply Forall_cons_1 in Hk as [Hc Hk]. destruct fuel as [|fuel]; [cbn in Hf; lia|]. cbn [fmt_scan].
  replace ((k1 ++ c :: k2) ++ r) with (k1 ++ c :: k2 ++ r) by by rewrite <- app_assoc.
  replace (length pre + 1 + length k1) with (length pre + 1 + length k1 + 0) by lia. rewrite look_after, lookup_first.
  destruct (ident_in_char c Hc) as [-> ->]. cbn [negb andb app]. rewrite decide_False by done.
  assert (El : (S (length pre + 1 + length k1 + 0) =? length (pre ++ "%" :: k1 ++ c :: k2 ++ r)) = bool_decide (k2 ++ r = [])).
  { rewrite length_app. cbn [length]. rewrite length_app. cbn [length].
    case_bool_decide as Hn; [rewrite Hn; apply Nat.eqb_eq; cbn [length]; lia|apply Nat.eqb_neq]. destruct (k2 ++ r); [done|cbn [length]; lia]. }
  rewrite El, (bool_decide_eq_true_2 ([] = [])), andb_true_r by done.
  destruct (IH (k1 ++ [c]) fuel Hk ltac:(cbn in Hf; lia)) as (fuel' & Hf' & E). exists fuel'. split; [done|].
  rewrite <- !app_assoc in E. cbn [app] in E. rewrite <- E, length_app. cbn [length]. f_equal; [lia|].
  case_bool_decide as Hn; [rewrite (decide_True (P := k2 ++ r = [])) by done|by rewrite (decide_False (P := k2 ++ r = []))].
  rewrite Hn, drop_app_ge by lia. by replace (length pre + 1 - length pre) with 1 by lia.
Qed.
Lemma scan_past pre k r fuel : Forall ident_in k → length (k ++ r) < fuel → ∃ fuel', length r < S fuel' ∧
  fmt_scan fuel (pre ++ "%" :: k ++ r) (length pre) (length pre + 1) false 0 [] [] =
  match r with
  | [] => Some (false, length pre + 1 + length k, k, [])
  | c :: r' =>
    if negb (ident_char c) then Some (false, length pre + 1 + length k, k, [])
    else if isc "{" c then fmt_scan fuel' (pre ++ "%" :: k ++ r) (length pre) (S (length pre + 1 + length k)) true (length pre + 1 + length k) k []
    else fmt_scan (S fuel') (pre ++ "%" :: k ++ r) (length pre) (length pre + 1 + length k) false 0 [] []
  end.
Proof.
  intros Hk Hf. destruct (scan_ident pre k [] r fuel Hk Hf) as (fuel' & Hf' & E). cbn [app length] in E. rewrite Nat.add_0_r in E.
  replace (if decide (k ++ r = []) then [] else []) with (@nil byte) in E by by destruct (decide _). destruct fuel' as [|fuel']; [lia|]. exists fuel'. split; [done|]. rewrite E. clear E.
  pose proof (look_after pre k r 0) as Hl. rewrite Nat.add_0_r in Hl. cbn [fmt_scan]. rewrite Hl. destruct r as [|c r]; [done|]. rewrite lookup_first, cut_key, decide_False by done.
  cbn [negb andb]. destruct (ident_char c); cbn [negb]; [|done]. by destruct (isc "{" c).
Qed.
Lemma scan_key pre rest o fuel : conv_of rest o → length rest < fuel →
  match o with
  | Some (k, f, r) => fmt_scan fuel (pre ++ "%" :: rest) (length pre) (length pre + 1) false 0 [] [] = Some (false, length pre + 1 + (length rest - length r), k, f)
  | None => ∃ n s, fmt_scan fuel (pre ++ "%" :: rest) (length pre) (length pre + 1) false 0 [] [] = Some (true, n, s, [])
  end.
Proof.
  intros [k r Hk Hr|k f r Hk Hb|k r Hk Hb] Hf; (destruct (scan_past pre k _ fuel Hk Hf) as (fuel' & Hf' & E); rewrite E; clear E).
  - replace (length (k ++ r) - length r) with (length k) by (rewrite length_app; lia). destruct r as [|c r]; [done|]. cbn in Hr. by rewrite Hr.
  - cbn in Hf'. rewrite length_app in Hf'. pose proof (scan_closed pre k fuel' [] f r k ltac:(lia) Hb) as E. cbn [length app Nat.add] in E. rewrite Nat.add_1_r in E.
    cbn. rewrite E. do 4 f_equal. rewrite !length_app. cbn. rewrite length_app. cbn. lia.
  - destruct (scan_open pre k fuel' [] r k ltac:(cbn in Hf'; lia) Hb) as (n & s & E). cbn [length app Nat.add] in E. rewrite Nat.add_1_r in E. cbn. eauto.
Qed.

(** ** The outer loop *)
Definition not_text (i : FormatItem) : Prop := match i with StringFormatItem _ => False | _ => True end.
Lemma format_items_key k mk : s_format_items k = Some mk → ∃ c, k = [c] ∧ ident_in c ∧ c ≠ "%" ∧ ∀ f, not_text (mk f).
Proof.
  intros H. assert (Hk : k ∈ (λ c, [c]) <$> text "mprctndflTFN").
  { destruct k as [|[] [|? ?]]; cbn in H; try discriminate H; vm_compute; repeat (left + right). }
  apply list_elem_of_fmap in Hk as (c & -> & Hc). exists c. split; [done|].
  cbn in Hc. repeat (apply elem_of_cons in Hc as [->|Hc]; [cbn in H; injection H as <-; by split_and!|]). by apply elem_of_nil in Hc.
Qed.
Definition add_text (nstr : str) (ts : list FormatItem) : list FormatItem := foldr add_lit ts nstr.
Lemma add_text_item nstr i ts : not_text i → add_text nstr (i :: ts) = (if bool_decide (nstr = []) then [] else [StringFormatItem nstr]) ++ i :: ts.
Proof. intros Hi. induction nstr as [|c s IH]; [done|]. cbn [add_text foldr]. fold (add_text s (i :: ts)). rewrite IH. by destruct s, i. Qed.
Lemma add_text_nil nstr : add_text nstr [] = if bool_decide (nstr = []) then [] else [StringFormatItem nstr].
Proof. induction nstr as [|c s IH]; [done|]. cbn [add_text foldr]. fold (add_text s []). rewrite IH. by destruct s. Qed.
Definition vec_items (vec : list (str * str * bool)) : list FormatItem := fst <$> (vec_item <$> vec).
Definition vec_bad (vec : list (str * str * bool)) : bool := existsb snd (vec_item <$> vec).
Lemma vec_items_app a b : vec_items (a ++ b) = vec_items a ++ vec_items b.
Proof. unfold vec_items. by rewrite !fmap_app. Qed.
Lemma vec_bad_app a b : vec_bad (a ++ b) = vec_bad a || vec_bad b.
Proof. unfold vec_bad. by rewrite fmap_app, existsb_app. Qed.
Lemma push_nstr_items nstr vec : vec_items (push_nstr nstr vec) = vec_items vec ++ add_text nstr [] ∧ vec_bad (push_nstr nstr vec) = vec_bad vec.
Proof. rewrite add_text_nil. unfold push_nstr. case_bool_decide; [by rewrite app_nil_r|]. by rewrite vec_items_app, vec_bad_app, orb_false_r. Qed.
(** What the loop returns for the rest [s] of a pattern. *)
Definition loop_ok (s nstr : str) (vec : list (str * str * bool)) (err : bool) (r : option (list (str * str * bool) * bool)) : Prop :=
  ∃ vec' err', r = Some (vec', err') ∧
    (∀ ts, parses s ts → vec_items vec' = vec_items vec ++ add_text nstr ts ∧ err' || vec_bad vec' = err || vec_bad vec) ∧
    (err' || vec_bad vec' = false → err || vec_bad vec = false ∧ ∃ ts, parses s ts).
Lemma add_text_snoc nstr c ts : add_text (nstr ++ [c]) ts = add_text nstr (add_lit c ts).
Proof. unfold add_text. by rewrite foldr_app. Qed.
Lemma loop_ok_char c s s' nstr vec err r : (∀ ts, parses s ts ↔ ∃ ts', ts = add_lit c ts' ∧ parses s' ts') → loop_ok s' (nstr ++ [c]) vec err r → loop_ok s nstr vec err r.
Proof.
  intros Hp (vec' & err' & -> & Ha & Hb). exists vec', err'. split; [done|]. split.
  - intros ts (ts' & -> & Hs)%Hp. rewrite <- add_text_snoc. by apply Ha.
  - intros H. destruct (Hb H) as [He [ts Hs]]. split; [done|]. exists (add_lit c ts). apply Hp. eauto.
Qed.
(** The longest prefix in [P] is unique. *)
Lemma span_unique (P : byte → Prop) k1 r1 k2 r2 : Forall P k1 → Forall P k2 → (∀ c, head r1 = Some c → ¬ P c) → (∀ c, head r2 = Some c → ¬ P c) →
  k1 ++ r1 = k2 ++ r2 → k1 = k2 ∧ r1 = r2.
Proof.
  intros H1 H2 N1 N2. revert k2 H2. induction H1 as [|c k1 Hc H1 IH]; intros [|c' k2] H2 E; cbn in E.
  - done.
  - subst. apply Forall_cons_1 in H2 as [H2 _]. by destruct (N1 c').
  - subst. by destruct (N2 c).
  - injection E as <- E. apply Forall_cons_1 in H2 as [_ H2]. destruct (IH _ H2 E). by subst.
Qed.
Lemma ends_ident_head r c : ends_ident r → head r = Some c → ¬ ident_in c.
Proof. destruct r; [done|]. intros H [= ->] Hc. cbn in H. destruct (ident_in_char c Hc). congruence. Qed.
Lemma conv_of_det s o1 o2 : conv_of s o1 → conv_of s o2 → o1 = o2.
Proof.
  assert (Hb : ∀ r c, head ("{" :: r) = Some c → ¬ ident_in c) by (by intros r c [= <-]).
  assert (Hf : ∀ f, "}" ∉ f → Forall (λ c, c ≠ "}") f) by (intros f Hf; apply Forall_lookup_2; intros j x Hj ->; by eapply Hf, list_elem_of_lookup_2).
  assert (Hr : ∀ r c, head ("}" :: r) = Some c → ¬ c ≠ "}") by (by intros r c [= <-] ?).
  assert (Hs := ends_ident_head). intros H1 H2. destruct H1 as [k r Hk He|k f r Hk Hn|k r Hk Hn]; inversion H2 as [k' r' Hk' He' E|k' f' r' Hk' Hn' E|k' r' Hk' Hn' E]; subst;
    (apply span_unique with (P := ident_in) in E as [-> E]; [|by eauto..]); subst; try done.
  - injection E as E. apply span_unique with (P := λ c, c ≠ "}") in E as [-> E]; [|by eauto..]. by injection E as ->.
  - injection E as ->. exfalso. apply Hn', elem_of_app. right. left.
  - injection E as <-. exfalso. apply Hn, elem_of_app. right. left.
Qed.
(** A conversion that is accepted is one of the grammar. *)
Lemma parses_conv rest o ts : list.head rest ≠ Some "%" → conv_of rest o →
  parses ("%" :: rest) ts ↔ ∃ k f r mk ts', o = Some (k, f, r) ∧ s_format_items k = Some mk ∧ ts = mk f :: ts' ∧ parses r ts'.
Proof.
  intros Hh Hc. split.
  - intros H. inversion H as [|? ? ? ?|s0 ts0|c s0 mk ts0 Hm He Hs E1 E2|c f0 s0 mk ts0 Hm Hf Hs E1 E2]; subst; [done|done| |];
      destruct (format_items_key _ _ Hm) as (c' & [= <-] & Hi & _); assert (Forall ident_in [c]) by (by constructor).
    + rewrite (conv_of_det _ _ _ Hc (C_short [c] s0 ltac:(done) He)). naive_solver.
    + rewrite (conv_of_det _ _ _ Hc (C_long [c] f0 s0 ltac:(done) Hf)). naive_solver.
  - intros (k & f & r & mk & ts' & -> & Hm & -> & Hs). destruct (format_items_key _ _ Hm) as (c & -> & _). inversion Hc; subst; by constructor.
Qed.
Lemma loop_ok_conv s k f r nstr vec err res : list.head s ≠ Some "%" → conv_of s (Some (k, f, r)) →
  loop_ok r [] (push_nstr nstr vec ++ [(k, f, true)]) err res → loop_ok ("%" :: s) nstr vec err res.
Proof.
  intros Hh Hc (vec' & err' & -> & Ha & Hb). exists vec', err'. split; [done|]. destruct (push_nstr_items nstr vec) as [E1 E2].
  rewrite vec_items_app, vec_bad_app, E1, E2 in *. split.
  - intros ts (k' & f' & r' & mk & ts' & [= <- <- <-] & Hm & -> & Hs)%(parses_conv _ _ _ Hh Hc). destruct (format_items_key _ _ Hm) as (c & _ & _ & _ & Ht).
    destruct (Ha _ Hs) as [Hi He]. rewrite Hi, He, add_text_item, add_text_nil by done. unfold vec_items, vec_bad, vec_item. cbn. rewrite Hm. cbn.
    rewrite <- !app_assoc, !orb_false_r. done.
  - intros H. destruct (Hb H) as [He [ts Hs]]. unfold vec_bad at 2, vec_item in He. cbn in He. destruct (s_format_items k) as [mk|] eqn:Hm; cbn in He; [|by rewrite !orb_true_r in He].
    rewrite !orb_false_r in He. split; [done|]. exists (mk f :: ts). apply (parses_conv _ _ _ Hh Hc). naive_solver.
Qed.
Lemma loop_ok_open s s' nstr vec v err res : list.head s ≠ Some "%" → conv_of s None → loop_ok s' nstr (vec ++ [v]) true res → loop_ok ("%" :: s) nstr vec err res.
Proof.
  intros Hh Hc (vec' & err' & -> & _ & Hb). exists vec', err'. split; [done|]. split.
  - intros ts H. apply (parses_conv _ _ _ Hh Hc) in H. naive_solver.
  - intros H. by destruct (Hb H) as [? _].
Qed.
Lemma fmt_init_loop_ok fuel pre s nstr vec err : length s < fuel → loop_ok s nstr vec err (fmt_init_loop fuel (pre ++ s) (length pre) nstr vec err).
Proof.
  revert pre s nstr vec err. induction fuel as [|fuel IH]; intros pre s nstr vec err Hf; [lia|]. cbn [fmt_init_loop].
  rewrite lookup_app_r, Nat.sub_diag by done. destruct s as [|c s].
  { cbn [lookup list_lookup]. eexists _, _. split; [done|]. destruct (push_nstr_items nstr vec) as [E1 E2]. rewrite E1, E2. split.
    - intros ts H. inversion H; subst. done.
    - intros H. split; [done|]. exists []. constructor. }
  rewrite lookup_first. cbn in Hf. assert (Es : S (length pre) = length (pre ++ [c])) by (rewrite length_app; cbn; lia).
  assert (Ep : pre ++ c :: s = (pre ++ [c]) ++ s) by by rewrite <- app_assoc.
  destruct (isc "%" c) eqn:Ec; cbn [negb]; [apply isc_true in Ec as ->|].
  2:{ apply (loop_ok_char c _ s).
      - intros ts. assert (c ≠ "%") by (intros ->; done). split; [intros H'; inversion H'; subst; naive_solver|intros (ts' & -> & ?); by constructor].
      - rewrite Es, Ep. apply IH. lia. }
  assert (E1 : (pre ++ "%" :: s) !! S (length pre) = list.head s).
  { rewrite lookup_app_r by lia. replace (S (length pre) - length pre) with 1 by lia. by destruct s. }
  rewrite E1. case_bool_decide as Hh.
  { destruct s as [|c s]; [done|]. injection Hh as ->. apply (loop_ok_char "%" _ ("%" :: s)).
    - intros ts. split; [|intros (ts' & -> & ?); by constructor]. intros H. inversion H; subst; [done|eauto|done|done].
    - rewrite Es, Ep. apply IH. cbn in *. lia. }
  destruct (conv_total s) as [o Ho]. pose proof (scan_key pre s o (S (length (pre ++ "%" :: s))) Ho ltac:(rewrite length_app; cbn; lia)) as Hk.
  destruct o as [[[k f] r]|]; [rewrite Hk|destruct Hk as (n & s0 & Hk); rewrite Hk].
  - apply (loop_ok_conv s k f r); [done|done|]. assert (∃ u, s = u ++ r) as [u ->].
    { inversion Ho; subst; [by eexists|]. exists (k ++ "{" :: f ++ ["}"]). rewrite <- app_assoc. cbn. rewrite <- app_assoc. done. }
    replace (length pre + 1 + _) with (length (pre ++ "%" :: u)) by (rewrite !length_app; cbn; lia).
    replace (pre ++ "%" :: u ++ r) with ((pre ++ "%" :: u) ++ r) by by rewrite <- app_assoc. apply IH. rewrite length_app in Hf. lia.
  - eapply loop_ok_open; [done|done|]. rewrite Es, Ep. apply IH. lia.
Qed.

(** The parser accepts exactly the sentences of [parses]. *)
Lemma LogFormatter_new_parses {St} (s : St) (pattern : str) :
  ∃ f, LogFormatter_new pattern s = Ret f s ∧ m_pattern f = pattern ∧ (m_error f = false ↔ ∃ ts, parses pattern ts) ∧ ∀ ts, parses pattern ts → m_items f = ts.
Proof.
  unfold LogFormatter_new. destruct (fmt_init_loop_ok (S (length pattern)) [] pattern [] [] false ltac:(lia)) as (vec & err & E & Ha & Hb).
  cbn [app length] in E. rewrite E. eexists. split; [done|]. cbn [m_pattern m_error m_items]. split; [done|]. fold (vec_bad vec) (vec_items vec). split.
  - split; [intros H; by apply Hb|]. intros [ts H]. by destruct (Ha _ H).
  - intros ts H. by destruct (Ha _ H).
Qed.
(** C24: The parser of log patterns returns for every pattern. A pattern
    without doubled percent signs is accepted exactly when it is a sentence of
    the documented grammar (plain text, known conversions with or without a
    parameter), and the items are those it denotes. For doubled percent signs
    the parser does not do what its comment says ([double_percent]). *)
Theorem pattern_grammar {St} (s : St) (pattern : str) :
  ∃ f, LogFormatter_new pattern s = Ret f s ∧ m_pattern f = pattern ∧
    (no_double pattern = true → (m_error f = false ↔ ∃ ts, documented pattern ts) ∧ ∀ ts, documented pattern ts → m_items f = ts).
Proof.
  destruct (LogFormatter_new_parses s pattern) as (f & E & Hp & Ha & Hb). exists f. split_and!; [done..|]. intros Hd.
  setoid_rewrite <- (parses_documented pattern _ Hd). done.
Qed.
(** A pattern that is accepted or not, without the state. *)
Definition formatter_of (pattern : str) : LogFormatter :=
  match LogFormatter_new (St := unit) pattern tt with Ret f _ => f | _ => mkFormatter pattern [] true end.
Lemma LogFormatter_new_Ret {St} pattern (s : St) : LogFormatter_new pattern s = Ret (formatter_of pattern) s.
Proof.
  unfold formatter_of, LogFormatter_new. destruct (fmt_init_loop_ok (S (length pattern)) [] pattern [] [] false ltac:(lia)) as (vec & err & E & _).
  cbn [app length] in E. by rewrite E.
Qed.
(** A doubled percent sign is not an escape, as the comment says: the second
    one starts a conversion. *)
Lemma double_percent :
  (documented (text "100%%") [StringFormatItem (text "100%")] ∧ m_error (formatter_of (text "100%%")) = true) ∧
  (documented (text "%%d") [StringFormatItem (text "%d")] ∧ m_items (formatter_of (text "%%d")) = [StringFormatItem ["%"]; DateTimeFormatItem default_date]).
Proof.
  split; split; try done.
  - apply (D_lit "1" _ [StringFormatItem (text "00%")]), (D_lit "0" _ [StringFormatItem (text "0%")]), (D_lit "0" _ [StringFormatItem (text "%")]), (D_percent [] []), D_nil; done.
  - apply (D_percent _ [StringFormatItem (text "d")]), (D_lit "d" [] []), D_nil. done.
Qed.
(** A date that does not fit in the buffer is not defined. *)
Lemma long_date {S} strftime names level event f (s : S) : 64 <= length (strftime f (e_time event)) → item_format strftime names level event (DateTimeFormatItem f) s = Stuck OutOfBounds.
Proof. intros H. unfold item_format. by rewrite (proj2 (Nat.ltb_ge _ _)). Qed.
