(* ===== verification/Logger.v ===== *)
(** * Loggers (Sylar/log.h, Sylar/log.cc)

    Loggers, their appenders, the manager of loggers and the listener that
    applies a configuration to them. Loggers and appenders are reached through
    shared pointers and live in stores, under their numbers; what is written
    is a list of pairs of an appender and a text. A configuration is a list of
    definitions with different names (a std::set ordered by name). The
    constructor of FileLogAppender is declared but not defined in the sources:
    it is an argument ([FileLogAppender_new]), as is the success of opening a
    file at a time. *)
From Stdlib Require Import ZArith Lia Strings.Byte.
From Stdlib Require Import (notations) Strings.String.
From stdpp Require Import base list list_numbers numbers.
From S2P Require Import Prelude Text Address LogFormat.
#[local] Open Scope byte_scope.
Local Open Scope nat_scope.
Local Open Scope Z_scope.

(** ** State *)
Inductive target := StdoutLogAppender | FileLogAppender (m_filename : str) (m_lastTime : Z) (m_filestream : bool).
Record LogAppender := mkAppender { ap_target : target; ap_level : Level; ap_hasFormatter : bool; ap_formatter : option LogFormatter }.
Record Logger := mkLogger { lg_name : str; lg_level : Level; lg_appenders : list nat; lg_formatter : option LogFormatter; lg_root : option nat }.
Record log_world := mkLW { w_loggers : list Logger; w_appenders : list LogAppender; m_loggers : list (str * nat); m_root : nat; w_out : list (nat * str) }.
Definition set_loggers l w := mkLW l (w_appenders w) (m_loggers w) (m_root w) (w_out w).
Definition set_appenders l w := mkLW (w_loggers w) l (m_loggers w) (m_root w) (w_out w).
Definition upd_logger (i : nat) (f : Logger → Logger) (w : log_world) : log_world := set_loggers (alter f i (w_loggers w)) w.
Definition upd_appender (i : nat) (f : LogAppender → LogAppender) (w : log_world) : log_world := set_appenders (alter f i (w_appenders w)) w.
Definition get_logger (i : nat) : M log_world Logger := let! w := cget in cderef (w_loggers w !! i).
Definition get_appender (i : nat) : M log_world LogAppender := let! w := cget in cderef (w_appenders w !! i).
Definition put_line (ap : nat) (s : str) : M log_world unit := cmodify (λ w, mkLW (w_loggers w) (w_appenders w) (m_loggers w) (m_root w) (w_out w ++ [(ap, s)])).

(** ** Appenders *)
Definition with_formatter (f : option LogFormatter) (a : LogAppender) := mkAppender (ap_target a) (ap_level a) (ap_hasFormatter a) f.
Definition ap_setFormatter (i : nat) (val : option LogFormatter) : M log_world unit :=
  cmodify (upd_appender i (λ a, mkAppender (ap_target a) (ap_level a) (bool_decide (is_Some val)) val)).
Definition ap_setLevel (i : nat) (val : Level) : M log_world unit :=
  cmodify (upd_appender i (λ a, mkAppender (ap_target a) val (ap_hasFormatter a) (ap_formatter a))).
Definition new_appender (t : target) : M log_world nat := λ w,
  Ret (length (w_appenders w)) (set_appenders (w_appenders w ++ [mkAppender t DEBUG false None]) w).

Section logger.
Context (strftime : str → Z → str) (open_ok : str → Z → bool) (FileLogAppender_new : str → target).
Definition names_of (w : log_world) (i : nat) : option str := lg_name <$> w_loggers w !! i.
Definition ap_format (a : LogAppender) (level : Level) (event : LogEvent) : M log_world str :=
  let! f := cderef (ap_formatter a) in
  let! w := cget in
  items_format strftime (names_of w) level event (m_items f).
(** FileLogAppender::reopen: the stream is open and good afterwards, or not. *)
Definition reopen (now : Z) (i : nat) : M log_world unit :=
  cmodify (upd_appender i (λ a,
    match ap_target a with
    | FileLogAppender file last _ => mkAppender (FileLogAppender file last (open_ok file now)) (ap_level a) (ap_hasFormatter a) (ap_formatter a)
    | StdoutLogAppender => a
    end)).
Definition set_lastTime (now : Z) (a : LogAppender) : LogAppender :=
  match ap_target a with
  | FileLogAppender file _ good => mkAppender (FileLogAppender file now good) (ap_level a) (ap_hasFormatter a) (ap_formatter a)
  | StdoutLogAppender => a
  end.
Definition appender_log (level : Level) (event : LogEvent) (i : nat) : M log_world unit :=
  let! a := get_appender i in
  if level_num level <? level_num (ap_level a) then cret tt
  else
    match ap_target a with
    | StdoutLogAppender => let! s := ap_format a level event in put_line i s
    | FileLogAppender file last _ =>
      let now := e_time event in
      let! _ := if u64 (last + 3) <=? now then let! _ := reopen now i in cmodify (upd_appender i (set_lastTime now)) else cret tt in
      let! a := get_appender i in
      let! s := ap_format a level event in
      match ap_target a with FileLogAppender _ _ true => put_line i s | _ => cret tt end
    end.

(** ** Loggers *)
Definition default_pattern : str := text "%d{%Y-%m-%d %H:%M:%S}%T%t%T%N%T%F%T[%p]%T[%c]%T%f:%l%T%m%n".
Definition new_logger (name : str) (root : option nat) : M log_world nat :=
  let! f := LogFormatter_new default_pattern in
  λ w, Ret (length (w_loggers w)) (set_loggers (w_loggers w ++ [mkLogger name DEBUG [] (Some f) root]) w).
Definition setFormatter_ptr (i : nat) (val : option LogFormatter) : M log_world unit :=
  let! _ := cmodify (upd_logger i (λ l, mkLogger (lg_name l) (lg_level l) (lg_appenders l) val (lg_root l))) in
  let! l := get_logger i in
  cfor (lg_appenders l) (λ a, let! x := get_appender a in if ap_hasFormatter x then cret tt else cmodify (upd_appender a (with_formatter val))).
Definition setFormatter (i : nat) (val : str) : M log_world unit :=
  let! new_val := LogFormatter_new val in
  if m_error new_val then cret tt else setFormatter_ptr i (Some new_val).
Definition setLevel (i : nat) (val : Level) : M log_world unit :=
  cmodify (upd_logger i (λ l, mkLogger (lg_name l) val (lg_appenders l) (lg_formatter l) (lg_root l))).
Definition with_appenders (f : list nat → list nat) (l : Logger) := mkLogger (lg_name l) (lg_level l) (f (lg_appenders l)) (lg_formatter l) (lg_root l).
Definition addAppender (i a : nat) : M log_world unit :=
  let! l := get_logger i in
  let! x := get_appender a in
  let! _ := match ap_formatter x with Some _ => cret tt | None => cmodify (upd_appender a (with_formatter (lg_formatter l))) end in
  cmodify (upd_logger i (with_appenders (λ l, l ++ [a]))).
Fixpoint erase_first (a : nat) (l : list nat) : list nat :=
  match l with [] => [] | b :: l => if (b =? a)%nat then l else b :: erase_first a l end.
Definition delAppender (i a : nat) : M log_world unit := cmodify (upd_logger i (with_appenders (erase_first a))).
Definition clearAppenders (i : nat) : M log_world unit := cmodify (upd_logger i (with_appenders (λ _, []))).
(** log; the fuel is for m_root->log, which is called with the lock held. *)
Fixpoint log_go (fuel : nat) (i : nat) (level : Level) (event : LogEvent) : M log_world unit :=
  match fuel with
  | O => cstuck OutOfFuel
  | S fuel =>
    let! l := get_logger i in
    if level_num level <? level_num (lg_level l) then cret tt
    else
      match lg_appenders l with
      | [] => match lg_root l with Some r => log_go fuel r level event | None => cret tt end
      | aps => cfor aps (appender_log level event)
      end
  end.
Definition log (i : nat) (level : Level) (event : LogEvent) : M log_world unit :=
  let! w := cget in log_go (S (length (w_loggers w))) i level event.
(** SYLAR_LOG_LEVEL: the event is logged when its wrapper is destroyed. *)
Definition log_macro (i : nat) (level : Level) (event : LogEvent) : M log_world unit :=
  let! l := get_logger i in
  if level_num (lg_level l) <=? level_num level then log i level event else cret tt.

(** ** LoggerManager *)
Definition find_name (name : str) (m : list (str * nat)) : option nat := snd <$> (snd <$> list_find (λ p, p.1 = name) m).
Definition getLogger (name : str) : M log_world nat :=
  let! w := cget in
  match find_name name (m_loggers w) with
  | Some i => cret i
  | None =>
    let! i := new_logger name (Some (m_root w)) in
    let! _ := cmodify (λ w, mkLW (w_loggers w) (w_appenders w) (m_loggers w ++ [(name, i)]) (m_root w) (w_out w)) in
    cret i
  end.
Definition LoggerManager_new : M log_world unit :=
  let! r := new_logger (text "root") None in
  let! _ := cmodify (λ w, mkLW (w_loggers w) (w_appenders w) (m_loggers w) r (w_out w)) in
  let! a := new_appender StdoutLogAppender in
  let! _ := addAppender r a in
  cmodify (λ w, mkLW (w_loggers w) (w_appenders w) (m_loggers w ++ [(text "root", r)]) (m_root w) (w_out w)).

(** ** Configuration *)
Record LogAppenderDefine := mkLAD { a_type : Z; a_level : Level; a_formatter : str; a_file : str }.
Record LogDefine := mkLD { d_name : str; d_level : Level; d_formatter : str; d_appenders : list LogAppenderDefine }.
#[export] Instance LogAppenderDefine_eq_dec : EqDecision LogAppenderDefine.
Proof. solve_decision. Defined.
#[export] Instance LogDefine_eq_dec : EqDecision LogDefine.
Proof. solve_decision. Defined.
Definition find_def (name : str) (l : list LogDefine) : option LogDefine := snd <$> list_find (λ d, d_name d = name) l.
(** What is done with a new appender. *)
Definition conf_finish (logger : nat) (a : LogAppenderDefine) (ap : nat) : M log_world unit :=
  let! _ := ap_setLevel ap (a_level a) in
  let! _ :=
    if bool_decide (a_formatter a = []) then cret tt
    else
      let! fmt := LogFormatter_new (a_formatter a) in
      if m_error fmt then cret tt else ap_setFormatter ap (Some fmt) in
  addAppender logger ap.
(** [daemon]: EnvMgr has the option "d" *)
Definition conf_appender (daemon : bool) (logger : nat) (a : LogAppenderDefine) : M log_world unit :=
  if a_type a =? 1 then let! ap := new_appender (FileLogAppender_new (a_file a)) in conf_finish logger a ap
  else if a_type a =? 2 then
    if daemon then cret tt else let! ap := new_appender StdoutLogAppender in conf_finish logger a ap
  else cstuck NullDeref.
Definition conf_new (daemon : bool) (old_value : list LogDefine) (i : LogDefine) : M log_world unit :=
  if match find_def (d_name i) old_value with Some d => bool_decide (i = d) | None => false end then cret tt
  else
    let! logger := getLogger (d_name i) in
    let! _ := setLevel logger (d_level i) in
    let! _ := if bool_decide (d_formatter i = []) then cret tt else setFormatter logger (d_formatter i) in
    let! _ := clearAppenders logger in
    cfor (d_appenders i) (conf_appender daemon logger).
Definition conf_old (new_value : list LogDefine) (i : LogDefine) : M log_world unit :=
  match find_def (d_name i) new_value with
  | Some _ => cret tt
  | None =>
    let! logger := getLogger (d_name i) in
    let! _ := setLevel logger UNKNOW in
    clearAppenders logger
  end.
(** The listener of LogIniter; [event] is the one it logs itself. *)
Definition conf_changed (daemon : bool) (event : LogEvent) (old_value new_value : list LogDefine) : M log_world unit :=
  let! w := cget in
  let! _ := log_macro (m_root w) INFO event in
  let! _ := cfor new_value (conf_new daemon old_value) in
  cfor old_value (conf_old new_value).
End logger.
