(* ===== verification/LogDelivery.v ===== *)
(** * What loggers write (Sylar/log.cc)

    The invariant of loggers and appenders, that every operation keeps it, and
    which appenders an event reaches with which text. *)
From Stdlib Require Import ZArith Lia Strings.Byte.
From Stdlib Require Import (notations) Strings.String.
From stdpp Require Import base list list_numbers numbers.
From S2P Require Import Prelude Text Address LogFormat Logger.
#[local] Open Scope byte_scope.
Local Open Scope nat_scope.

(** ** The invariant *)
Definition owned (w : log_world) (i a : nat) : Prop := ∃ l, w_loggers w !! i = Some l ∧ a ∈ lg_appenders l.
(** Logger [i] has a formatter, and so have its appenders: one of their own or
    the logger's. *)
Record local_ok (w : log_world) (i : nat) (l : Logger) : Prop := {
  lo_formatter : is_Some (lg_formatter l);
  lo_nodup : NoDup (lg_appenders l);
  lo_appender a : a ∈ lg_appenders l → ∃ x, w_appenders w !! a = Some x ∧ is_Some (ap_formatter x) ∧ (ap_hasFormatter x = false → ap_formatter x = lg_formatter l)
}.
Record LogInv (w : log_world) : Prop := {
  li_root : ∃ l, w_loggers w !! m_root w = Some l ∧ lg_root l = None;
  li_parent i l : w_loggers w !! i = Some l → lg_root l = None ∨ lg_root l = Some (m_root w);
  li_local i l : w_loggers w !! i = Some l → local_ok w i l;
  li_owner i j a : owned w i a → owned w j a → i = j;
  li_names name i : find_name name (m_loggers w) = Some i → ∃ l, w_loggers w !! i = Some l ∧ lg_name l = name
}.

(** ** Operations on one logger leave the others alone *)
Record frame (i : nat) (w w' : log_world) : Prop := {
  f_root : m_root w' = m_root w;
  f_names : m_loggers w' = m_loggers w;
  f_out : w_out w' = w_out w;
  f_other j : j ≠ i → w_loggers w' !! j = w_loggers w !! j;
  f_self l : w_loggers w !! i = Some l → ∃ l', w_loggers w' !! i = Some l' ∧ lg_name l' = lg_name l ∧ lg_root l' = lg_root l;
  f_none : w_loggers w !! i = None → w_loggers w' !! i = None;
  f_len : length (w_appenders w) <= length (w_appenders w');
  f_app a : a < length (w_appenders w) → ¬ owned w i a → w_appenders w' !! a = w_appenders w !! a;
  f_own a : owned w' i a → owned w i a ∨ length (w_appenders w) <= a
}.
Lemma frame_refl i w : frame i w w.
Proof. split; eauto. Qed.
Lemma frame_trans i w1 w2 w3 : frame i w1 w2 → frame i w2 w3 → frame i w1 w3.
Proof.
  intros H1 H2. split.
  - by rewrite (f_root _ _ _ H2), (f_root _ _ _ H1).
  - by rewrite (f_names _ _ _ H2), (f_names _ _ _ H1).
  - by rewrite (f_out _ _ _ H2), (f_out _ _ _ H1).
  - intros j Hj. by rewrite (f_other _ _ _ H2 j Hj), (f_other _ _ _ H1 j Hj).
  - intros l Hl. destruct (f_self _ _ _ H1 l Hl) as (l' & Hl' & ? & ?). destruct (f_self _ _ _ H2 l' Hl') as (l'' & ? & ? & ?). exists l''. split_and!; congruence.
  - intros Hn. by apply (f_none _ _ _ H2), (f_none _ _ _ H1).
  - pose proof (f_len _ _ _ H1). pose proof (f_len _ _ _ H2). lia.
  - intros a Ha Ho. rewrite (f_app _ _ _ H2); [by apply (f_app _ _ _ H1)|pose proof (f_len _ _ _ H1); lia|].
    intros Ho'. destruct (f_own _ _ _ H1 a Ho'); [done|lia].
  - intros a Ho. destruct (f_own _ _ _ H2 a Ho) as [Ho'|]; [by apply (f_own _ _ _ H1)|]. right. pose proof (f_len _ _ _ H1). lia.
Qed.
Lemma owned_lt w i a : LogInv w → owned w i a → a < length (w_appenders w).
Proof. intros HI (l & Hl & Ha). destruct (lo_appender _ _ _ (li_local _ HI _ _ Hl) a Ha) as (x & Hx & _). by eapply lookup_lt_Some. Qed.
Lemma frame_inv i w w' l' : LogInv w → frame i w w' → w_loggers w' !! i = Some l' → local_ok w' i l' → LogInv w'.
Proof.
  intros HI HF Hl' Hok.
  assert (Ho : ∀ j a, j ≠ i → owned w' j a → owned w j a) by (intros j a Hj (l & Hl & Ha); rewrite (f_other _ _ _ HF) in Hl by done; by exists l).
  assert (Hb : ∀ j a, j ≠ i → owned w' j a → owned w' i a → False).
  { intros j a Hj Hja Hia. pose proof (Ho _ _ Hj Hja) as Hja'. destruct (f_own _ _ _ HF a Hia) as [Hia'|Hge]; [by apply Hj, (li_owner _ HI j i a)|]. pose proof (owned_lt _ _ _ HI Hja'). lia. }
  assert (Hl : ∀ j l, w_loggers w' !! j = Some l → ∃ l0, w_loggers w !! j = Some l0 ∧ lg_root l = lg_root l0 ∧ lg_name l = lg_name l0 ∧ (j ≠ i → l = l0)).
  { intros j l Hj. destruct (decide (j = i)) as [->|Hn]; [|rewrite (f_other _ _ _ HF j Hn) in Hj; eauto 10].
    destruct (w_loggers w !! i) as [l0|] eqn:E; [|by rewrite (f_none _ _ _ HF E) in Hj]. destruct (f_self _ _ _ HF l0 E) as (l1 & Hl1 & ? & ?). exists l0. split_and!; [done|congruence..|done]. }
  split.
  - destruct (li_root _ HI) as (l & Hr & Hn). rewrite (f_root _ _ _ HF). destruct (decide (m_root w = i)) as [<-|]; [|rewrite (f_other _ _ _ HF) by done; eauto].
    destruct (f_self _ _ _ HF l Hr) as (l1 & ? & ? & ?). exists l1. split; congruence.
  - intros j l Hj. destruct (Hl j l Hj) as (l0 & Hj0 & -> & _). rewrite (f_root _ _ _ HF). by apply (li_parent _ HI j).
  - intros j l Hj. destruct (decide (j = i)) as [->|Hn]; [by rewrite Hl' in Hj; injection Hj as <-|].
    destruct (Hl j l Hj) as (l0 & Hj0 & _ & _ & E). rewrite (E Hn) in *. destruct (li_local _ HI _ _ Hj0) as [H1 H2 H3]. split; [done|done|]. intros a Ha.
    assert (owned w j a) as Hoa by (by exists l0). rewrite (f_app _ _ _ HF); [by apply H3|by eapply owned_lt|]. intros Hi. by apply Hn, (li_owner _ HI j i a).
  - intros j1 j2 a H1 H2. destruct (decide (j1 = i)) as [->|], (decide (j2 = i)) as [->|]; [done|by exfalso; eauto..|]. eapply (li_owner _ HI); eauto.
  - intros name j Hn. rewrite (f_names _ _ _ HF) in Hn. destruct (li_names _ HI name j Hn) as (l & Hj & Hnm).
    destruct (decide (j = i)) as [->|]; [|rewrite (f_other _ _ _ HF) by done; eauto]. destruct (f_self _ _ _ HF l Hj) as (l1 & ? & ? & ?). exists l1. split; congruence.
Qed.

(** ** Operations *)
Lemma get_logger_Some i w l : w_loggers w !! i = Some l → get_logger i w = Ret l w.
Proof. intros H. unfold get_logger, cbind, cget. by rewrite H. Qed.
Lemma get_appender_Some i w x : w_appenders w !! i = Some x → get_appender i w = Ret x w.
Proof. intros H. unfold get_appender, cbind, cget. by rewrite H. Qed.
Definition op_ok (i : nat) (w : log_world) (m : M log_world unit) (l' : Logger) : Prop :=
  ∃ w', m w = Ret tt w' ∧ frame i w w' ∧ w_loggers w' !! i = Some l' ∧ LogInv w'.
Lemma lookup_upd i f w l : w_loggers w !! i = Some l → w_loggers (upd_logger i f w) !! i = Some (f l).
Proof. intros H. cbn. rewrite list_lookup_alter, decide_True by done. by rewrite H. Qed.
Lemma upd_logger_frame i f w l : w_loggers w !! i = Some l → lg_name (f l) = lg_name l → lg_root (f l) = lg_root l → (∀ a, a ∈ lg_appenders (f l) → a ∈ lg_appenders l) →
  frame i w (upd_logger i f w).
Proof.
  intros Hl Hn Hr Ha. split; try done.
  - intros j Hj. cbn. by rewrite list_lookup_alter_ne.
  - intros l0 Hl0. exists (f l). rewrite Hl in Hl0. injection Hl0 as <-. split_and!; [by apply lookup_upd|done|done].
  - intros Hnone. congruence.
  - intros a (l' & Hl' & Hin). rewrite (lookup_upd _ _ _ _ Hl) in Hl'. injection Hl' as <-. left. exists l. eauto.
Qed.
Lemma upd_logger_ok i f w l : LogInv w → w_loggers w !! i = Some l → lg_name (f l) = lg_name l → lg_root (f l) = lg_root l → lg_formatter (f l) = lg_formatter l →
  (∀ a, a ∈ lg_appenders (f l) → a ∈ lg_appenders l) → NoDup (lg_appenders (f l)) → op_ok i w (cmodify (upd_logger i f)) (f l).
Proof.
  intros HI Hl Hn Hr Hf Ha Hd. pose proof (upd_logger_frame i f w l Hl Hn Hr Ha) as HF. exists (upd_logger i f w). split_and!; [done|done|by apply lookup_upd|].
  eapply frame_inv; [done|done|by apply lookup_upd|]. destruct (li_local _ HI _ _ Hl) as [H1 _ H3]. split; [by rewrite Hf|done|]. intros a Hin. rewrite Hf. by apply H3, Ha.
Qed.
Lemma setLevel_ok i v w l : LogInv w → w_loggers w !! i = Some l → op_ok i w (setLevel i v) (mkLogger (lg_name l) v (lg_appenders l) (lg_formatter l) (lg_root l)).
Proof. intros HI Hl. apply (upd_logger_ok i (λ l, mkLogger (lg_name l) v (lg_appenders l) (lg_formatter l) (lg_root l)) w l); try done. by apply (li_local _ HI _ _ Hl). Qed.
Lemma clearAppenders_ok i w l : LogInv w → w_loggers w !! i = Some l → op_ok i w (clearAppenders i) (with_appenders (λ _, []) l).
Proof. intros HI Hl. apply (upd_logger_ok i (with_appenders (λ _, [])) w l); try done; [intros a Ha; by apply elem_of_nil in Ha|by apply NoDup_nil_2]. Qed.
Lemma erase_first_in a l x : x ∈ erase_first a l → x ∈ l.
Proof. induction l as [|b l IH]; cbn; [done|]. case_match; [by right|]. rewrite !elem_of_cons. naive_solver. Qed.
Lemma erase_first_nodup a l : NoDup l → NoDup (erase_first a l).
Proof. induction 1 as [|b l Hb Hl IH]; cbn; [constructor|]. case_match; [done|]. constructor; [|done]. by intros ?%erase_first_in. Qed.
Lemma delAppender_ok i a w l : LogInv w → w_loggers w !! i = Some l → op_ok i w (delAppender i a) (with_appenders (erase_first a) l).
Proof. intros HI Hl. apply (upd_logger_ok i (with_appenders (erase_first a)) w l); try done; [apply erase_first_in|]. apply erase_first_nodup. by apply (li_local _ HI _ _ Hl). Qed.

Definition take_formatter (val : option LogFormatter) (x : LogAppender) : LogAppender := if ap_hasFormatter x then x else with_formatter val x.
Lemma take_formatter_idem val x : take_formatter val (take_formatter val x) = take_formatter val x.
Proof. unfold take_formatter. by destruct (ap_hasFormatter x) eqn:E; cbn; rewrite E. Qed.
Lemma propagate_spec val aps w : (∀ a, a ∈ aps → a < length (w_appenders w)) →
  ∃ l, cfor aps (λ a, let! x := get_appender a in if ap_hasFormatter x then cret tt else cmodify (upd_appender a (with_formatter val))) w = Ret tt (set_appenders l w) ∧
    length l = length (w_appenders w) ∧ ∀ a, l !! a = if decide (a ∈ aps) then take_formatter val <$> w_appenders w !! a else w_appenders w !! a.
Proof.
  revert w. induction aps as [|a aps IH]; intros w Hlt.
  { exists (w_appenders w). split_and!; [by destruct w|done|]. intros a. rewrite decide_False; [done|by apply not_elem_of_nil]. }
  destruct (lookup_lt_is_Some_2 (w_appenders w) a (Hlt a ltac:(left))) as [x Hx].
  destruct (IH (upd_appender a (take_formatter val) w)) as (l & E & Hlen & Hl).
  { intros b Hb. cbn. rewrite length_alter. apply Hlt. by right. }
  cbn [w_appenders upd_appender set_appenders] in Hl, Hlen. rewrite length_alter in Hlen. exists l. split; [|split; [done|]].
  - cbn [cfor]. assert (Es : (let! x := get_appender a in if ap_hasFormatter x then cret tt else cmodify (upd_appender a (with_formatter val))) w = Ret tt (upd_appender a (take_formatter val) w)).
    { rewrite (cbind_Ret _ _ _ _ _ (get_appender_Some _ _ _ Hx)). 
      assert (Ea : alter (take_formatter val) a (w_appenders w) = if ap_hasFormatter x then w_appenders w else alter (with_formatter val) a (w_appenders w)).
      { apply list_eq. intros b. unfold take_formatter. destruct (ap_hasFormatter x) eqn:Eh; rewrite !list_lookup_alter; (destruct (decide (a = b)) as [<-|]; [rewrite Hx; cbn; by rewrite Eh|done]). }
      unfold upd_appender. rewrite Ea. by destruct (ap_hasFormatter x), w. }
    rewrite (cbind_Ret _ _ _ _ _ Es), E. by destruct w.
  - intros b. rewrite Hl, list_lookup_alter. destruct (decide (a = b)) as [<-|Hn].
    + rewrite (decide_True (P := a ∈ a :: aps)) by left. case_decide; [|done]. rewrite <- option_fmap_compose. rewrite Hx. cbn. by rewrite take_formatter_idem.
    + destruct (decide (b ∈ aps)) as [Hb|Hb]; [by rewrite decide_True by by right|]. rewrite decide_False; [done|]. by apply not_elem_of_cons.
Qed.
Lemma setFormatter_ptr_ok i f w l : LogInv w → w_loggers w !! i = Some l →
  op_ok i w (setFormatter_ptr i (Some f)) (mkLogger (lg_name l) (lg_level l) (lg_appenders l) (Some f) (lg_root l)).
Proof.
  intros HI Hl. unfold op_ok, setFormatter_ptr. set (g := λ l : Logger, mkLogger (lg_name l) (lg_level l) (lg_appenders l) (Some f) (lg_root l)).
  rewrite (cbind_Ret (cmodify (upd_logger i g)) _ w tt (upd_logger i g w) eq_refl). pose proof (lookup_upd i g w l Hl) as Hg.
  destruct (li_local _ HI _ _ Hl) as [_ Hd Hap].
  destruct (propagate_spec (Some f) (lg_appenders l) (upd_logger i g w)) as (aps & E & Hlen & Haps).
  { intros a Ha. apply (owned_lt w i); [done|by exists l]. }
  exists (set_appenders aps (upd_logger i g w)). assert (HF : frame i w (set_appenders aps (upd_logger i g w))).
  { destruct (upd_logger_frame i g w l Hl eq_refl eq_refl (λ a H, H)) as [H1 H2 H3 H4 H5 H6 H7 H8 H9]. split; try done.
    - cbn. cbn in Hlen. lia.
    - intros a Ha Ho. cbn. rewrite Haps, decide_False; [done|]. intros Hin. apply Ho. by exists l. }
  split_and!; [|done|done|].
  - rewrite (cbind_Ret _ _ _ _ _ (get_logger_Some _ _ _ Hg)). exact E.
  - eapply frame_inv; [done|done|done|]. split; [done|done|]. intros a Ha. cbn [set_appenders w_appenders]. rewrite Haps, decide_True by done.
    destruct (Hap a Ha) as (x & Hx & Hs & He). cbn. rewrite Hx. cbn. eexists. split; [done|]. unfold take_formatter. destruct (ap_hasFormatter x) eqn:Eh; cbn; [by rewrite Eh|eauto].
Qed.
Lemma setFormatter_ok i s w l : LogInv w → w_loggers w !! i = Some l →
  op_ok i w (setFormatter i s) (if m_error (formatter_of s) then l else mkLogger (lg_name l) (lg_level l) (lg_appenders l) (Some (formatter_of s)) (lg_root l)).
Proof.
  intros HI Hl. unfold setFormatter, op_ok. rewrite (cbind_Ret _ _ _ _ _ (LogFormatter_new_Ret s w)). destruct (m_error (formatter_of s)); [|by apply setFormatter_ptr_ok].
  exists w. split_and!; [done|apply frame_refl|done|done].
Qed.

(** ** A new appender *)
Definition valid_pattern (s : str) : bool := negb (bool_decide (s = [])) && negb (m_error (formatter_of s)).
Section logs.
Context (strftime : str → Z → str) (open_ok : str → Z → bool) (file_new : str → target).
Definition target_of (a : LogAppenderDefine) : target :=
  if (a_type a =? 1)%Z then file_new (a_file a) else StdoutLogAppender.
Definition made (l : Logger) (a : LogAppenderDefine) : LogAppender :=
  mkAppender (target_of a) (a_level a) (valid_pattern (a_formatter a)) (if valid_pattern (a_formatter a) then Some (formatter_of (a_formatter a)) else lg_formatter l).
Definition type_ok (a : LogAppenderDefine) : Prop := a_type a = 1%Z ∨ a_type a = 2%Z.
Definition kept (daemon : bool) (aps : list LogAppenderDefine) : list LogAppenderDefine := filter (λ a, a_type a = 1%Z ∨ daemon = false) aps.
Definition add_made (i : nat) (l : Logger) (a : LogAppenderDefine) (w : log_world) : log_world :=
  upd_logger i (with_appenders (λ l, l ++ [length (w_appenders w)])) (set_appenders (w_appenders w ++ [made l a]) w).
Lemma alter_last (f : LogAppender → LogAppender) l x : alter f (length l) (l ++ [x]) = l ++ [f x].
Proof.
  apply list_eq. intros b. rewrite list_lookup_alter. destruct (decide (length l = b)) as [<-|Hb]; [by rewrite !list_lookup_middle|].
  destruct (decide (b < length l)); [by rewrite !lookup_app_l|]. rewrite !lookup_ge_None_2; [done|rewrite length_app; cbn; lia..].
Qed.
Lemma conf_finish_spec i a w l : w_loggers w !! i = Some l → (let! ap := new_appender (target_of a) in conf_finish i a ap) w = Ret tt (add_made i l a w).
Proof.
  intros Hl. set (w1 x := set_appenders (w_appenders w ++ [x]) w). set (n := length (w_appenders w)).
  assert (Hupd : ∀ g x, upd_appender n g (w1 x) = w1 (g x)) by (intros g x; unfold upd_appender, w1, n; cbn; by rewrite alter_last).
  rewrite (cbind_Ret _ _ _ _ _ (eq_refl : new_appender (target_of a) w = Ret n (w1 (mkAppender (target_of a) DEBUG false None)))). unfold conf_finish.
  assert (E1 : ap_setLevel n (a_level a) (w1 (mkAppender (target_of a) DEBUG false None)) = Ret tt (w1 (mkAppender (target_of a) (a_level a) false None))).
  { unfold ap_setLevel, cmodify. by rewrite Hupd. }
  rewrite (cbind_Ret _ _ _ _ _ E1). set (o := if valid_pattern (a_formatter a) then Some (formatter_of (a_formatter a)) else None).
  rewrite (cbind_Ret _ _ _ tt (w1 (mkAppender (target_of a) (a_level a) (valid_pattern (a_formatter a)) o))).
  2:{ unfold o, valid_pattern. case_bool_decide; [done|]. rewrite (cbind_Ret _ _ _ _ _ (LogFormatter_new_Ret _ _)). destruct (m_error _); [done|]. unfold ap_setFormatter, cmodify. by rewrite Hupd. }
  unfold addAppender. rewrite (cbind_Ret _ _ _ _ _ (get_logger_Some i (w1 _) l Hl)).
  assert (Hn : ∀ x, w_appenders (w1 x) !! n = Some x) by (intros x; by apply list_lookup_middle). rewrite (cbind_Ret _ _ _ _ _ (get_appender_Some n _ _ (Hn _))). cbn [ap_formatter].
  unfold add_made, made, o. destruct (valid_pattern (a_formatter a)); [done|]. unfold cmodify at 1. unfold cbind. by rewrite Hupd.
Qed.
Lemma conf_appender_spec daemon i a w l : type_ok a → w_loggers w !! i = Some l →
  conf_appender file_new daemon i a w = Ret tt (if decide (a_type a = 1%Z ∨ daemon = false) then add_made i l a w else w).
Proof.
  intros Ht Hl. pose proof (conf_finish_spec i a w l Hl) as Hfin. unfold conf_appender. unfold target_of in Hfin. destruct (Z.eqb_spec (a_type a) 1) as [E|E].
  - by rewrite decide_True by auto.
  - destruct Ht as [?|E2]; [done|]. rewrite (proj2 (Z.eqb_eq _ _) E2). destruct daemon; [by rewrite decide_False by naive_solver|]. by rewrite decide_True by auto.
Qed.
Lemma add_made_frame i l a w : LogInv w → w_loggers w !! i = Some l → op_ok i w (λ w, Ret tt (add_made i l a w)) (with_appenders (λ aps, aps ++ [length (w_appenders w)]) l).
Proof.
  intros HI Hl. exists (add_made i l a w). assert (Hl' : w_loggers (add_made i l a w) !! i = Some (with_appenders (λ aps, aps ++ [length (w_appenders w)]) l)).
  { by apply (lookup_upd i _ (set_appenders (w_appenders w ++ [made l a]) w)). }
  assert (HF : frame i w (add_made i l a w)).
  { split; try done; cbn.
    - intros j Hj. by rewrite list_lookup_alter_ne.
    - intros l0 Hl0. rewrite Hl in Hl0. injection Hl0 as <-. eexists. split; [exact Hl'|done].
    - intros. congruence.
    - rewrite length_app. lia.
    - intros b Hb _. by rewrite lookup_app_l.
    - intros b (l' & Hb' & Hb). rewrite Hl' in Hb'. injection Hb' as <-. cbn in Hb. apply elem_of_app in Hb as [Hb|Hb%list_elem_of_singleton]; [left; by exists l|right; lia]. }
  split_and!; [done|done|done|]. eapply frame_inv; [done|done|done|]. destruct (li_local _ HI _ _ Hl) as [H1 H2 H3].
  assert (Hlt : ∀ b, b ∈ lg_appenders l → b < length (w_appenders w)) by (intros b Hb; apply (owned_lt w i); [done|by exists l]).
  split; cbn [lg_appenders lg_formatter with_appenders]; [done| |].
  - apply list.NoDup_app. split_and!; [done| |apply NoDup_singleton]. intros b Hb ->%list_elem_of_singleton. specialize (Hlt _ Hb). lia.
  - intros b [Hb| ->%list_elem_of_singleton]%elem_of_app; cbn.
    + rewrite lookup_app_l by auto. by apply H3.
    + exists (made l a). rewrite list_lookup_middle by done. split; [done|]. unfold made. cbn. by destruct (valid_pattern (a_formatter a)).
Qed.

(** ** The manager *)
Lemma find_name_app name m n i : find_name name (m ++ [(n, i)]) = match find_name name m with Some j => Some j | None => if decide (n = name) then Some i else None end.
Proof.
  unfold find_name. induction m as [|[n' i'] m IH]; cbn.
  - by destruct (decide (n = name)).
  - destruct (decide (n' = name)); [done|]. revert IH. destruct (list_find _ (m ++ _)) as [[? []]|], (list_find _ m) as [[? []]|]; cbn; destruct (decide (n = name)); intros [=]; congruence.
Qed.
#[local] Arguments find_name : simpl never.
(** getLogger finds the logger or adds one; nothing else changes. *)
Record got (name : str) (i : nat) (w w' : log_world) : Prop := {
  g_inv : LogInv w';
  g_found : find_name name (m_loggers w') = Some i;
  g_logger j l : w_loggers w !! j = Some l → w_loggers w' !! j = Some l;
  g_len : length (w_loggers w) <= length (w_loggers w');
  g_appenders : w_appenders w' = w_appenders w;
  g_root : m_root w' = m_root w;
  g_out : w_out w' = w_out w;
  g_names n j : find_name n (m_loggers w) = Some j → find_name n (m_loggers w') = Some j
}.
Lemma getLogger_ok name w : LogInv w → ∃ i w', getLogger name w = Ret i w' ∧ got name i w w'.
Proof.
  intros HI. unfold getLogger, cbind at 1, cget at 1. destruct (find_name name (m_loggers w)) as [i|] eqn:E.
  { exists i, w. split; [done|]. split; eauto. }
  unfold new_logger. unfold cbind. rewrite LogFormatter_new_Ret. cbn -[formatter_of default_pattern]. set (n := length (w_loggers w)).
  set (nl := mkLogger name DEBUG [] (Some (formatter_of default_pattern)) (Some (m_root w))). eexists n, _. split; [done|].
  assert (Hold : ∀ j l, w_loggers w !! j = Some l → (w_loggers w ++ [nl]) !! j = Some l) by (intros; by apply lookup_app_l_Some).
  assert (Hnew : ∀ j l, (w_loggers w ++ [nl]) !! j = Some l → w_loggers w !! j = Some l ∨ l = nl).
  { intros j l [H|[_ H]]%lookup_app_Some; [by left|right]. by apply list_lookup_singleton_Some in H as [_ <-]. }
  assert (Hown : ∀ j a, owned (mkLW (w_loggers w ++ [nl]) (w_appenders w) (m_loggers w ++ [(name, n)]) (m_root w) (w_out w)) j a → owned w j a).
  { intros j a (l & Hl & Ha). cbn in Hl. destruct (Hnew _ _ Hl) as [?| ->]; [by exists l|by apply elem_of_nil in Ha]. }
  split; try done; cbn.
  - split; cbn.
    + destruct (li_root _ HI) as (l & Hr & Hn). eauto.
    + intros j l Hl. destruct (Hnew _ _ Hl) as [Hl'| ->]; [by apply (li_parent _ HI j)|by right].
    + intros j l Hl. destruct (Hnew _ _ Hl) as [Hl'| ->]; [by destruct (li_local _ HI _ _ Hl'); split|]. split; [done|by apply NoDup_nil_2|]. intros a Ha. by apply elem_of_nil in Ha.
    + intros j1 j2 a H1%Hown H2%Hown. by eapply (li_owner _ HI).
    + intros nm j Hn. rewrite find_name_app in Hn. destruct (find_name nm (m_loggers w)) eqn:En.
      * injection Hn as ->. destruct (li_names _ HI nm j En) as (l & Hl & ?). eauto.
      * destruct (decide (name = nm)); [|done]. injection Hn as <-. exists nl. split; [by apply list_lookup_middle|done].
  - rewrite find_name_app, E. by rewrite decide_True.
  - rewrite length_app. lia.
  - intros nm j Hn. by rewrite find_name_app, Hn.
Qed.

(** ** Logging an event *)
Definition dates_fit (event : LogEvent) (f : LogFormatter) : Prop :=
  Forall (λ i, match i with DateTimeFormatItem fmt => length (strftime fmt (e_time event)) < 64 | _ => True end) (m_items f).
Definition event_text (names : nat → option str) (level : Level) (event : LogEvent) (f : LogFormatter) : str :=
  match items_format (S := unit) strftime names level event (m_items f) tt with Ret s _ => s | _ => [] end.
Lemma items_format_text {St} names level event f (s : St) : dates_fit event f → is_Some (names (e_logger event)) →
  items_format strftime names level event (m_items f) s = Ret (event_text names level event f) s.
Proof.
  intros Hd [n Hn]. assert (H : ∃ t, ∀ S (s : S), items_format strftime names level event (m_items f) s = Ret t s).
  { induction Hd as [|it its Hi Hd [t2 IH]]; [by exists []|]. assert (∃ t, ∀ S (s : S), item_format strftime names level event it s = Ret t s) as [t Ht].
    { destruct it; cbn [item_format]; rewrite ?Hn; try (by eexists). rewrite (proj2 (Nat.ltb_lt _ _) Hi). by eexists. }
    exists (t ++ t2). intros S s'. cbn [items_format]. by rewrite (cbind_Ret _ _ _ _ _ (Ht _ s')), (cbind_Ret _ _ _ _ _ (IH _ s')). }
  destruct H as [t Ht]. unfold event_text. by rewrite !Ht.
Qed.
(** A file that was not opened for three seconds is opened again. *)
Definition refreshed (event : LogEvent) (x : LogAppender) : LogAppender :=
  match ap_target x with
  | FileLogAppender file last good =>
    if (u64 (last + 3) <=? e_time event)%Z then mkAppender (FileLogAppender file (e_time event) (open_ok file (e_time event))) (ap_level x) (ap_hasFormatter x) (ap_formatter x) else x
  | StdoutLogAppender => x
  end.
Definition opened (x : LogAppender) : bool := match ap_target x with FileLogAppender _ _ good => good | StdoutLogAppender => true end.
Definition touched (level : Level) (event : LogEvent) (x : LogAppender) : LogAppender := if (level_num level <? level_num (ap_level x))%Z then x else refreshed event x.
Definition delivery (w : log_world) (level : Level) (event : LogEvent) (a : nat) : list (nat * str) :=
  match w_appenders w !! a with
  | Some x =>
    if (level_num level <? level_num (ap_level x))%Z || negb (opened (refreshed event x)) then []
    else match ap_formatter x with Some f => [(a, event_text (names_of w) level event f)] | None => [] end
  | None => []
  end.
Definition after (w : log_world) (aps : list LogAppender) (out : list (nat * str)) : log_world := mkLW (w_loggers w) aps (m_loggers w) (m_root w) (w_out w ++ out).
(** The appender has a formatter that can print the event. *)
Definition prints (w : log_world) (event : LogEvent) (a : nat) : Prop := ∃ x f, w_appenders w !! a = Some x ∧ ap_formatter x = Some f ∧ dates_fit event f.
Lemma alter_same {A} (f : A → A) i (l : list A) x : l !! i = Some x → f x = x → alter f i l = l.
Proof. intros Hx E. apply list_eq. intros j. rewrite list_lookup_alter. destruct (decide (i = j)) as [<-|]; [by rewrite Hx; cbn; rewrite E|done]. Qed.
Lemma appender_log_spec level event a w : is_Some (names_of w (e_logger event)) → prints w event a →
  appender_log strftime open_ok level event a w = Ret tt (after w (alter (touched level event) a (w_appenders w)) (delivery w level event a)).
Proof.
  intros Hn (x & f & Hx & Hf & Hd). unfold appender_log. rewrite (cbind_Ret _ _ _ _ _ (get_appender_Some _ _ _ Hx)). unfold delivery. rewrite Hx.
  assert (Hfmt : ∀ y w1, ap_formatter y = Some f → w_loggers w1 = w_loggers w → ap_format strftime y level event w1 = Ret (event_text (names_of w) level event f) w1).
  { intros y w1 Hy Hw. unfold ap_format. rewrite Hy. unfold cbind at 1, cderef, cret at 1. unfold cbind, cget. replace (names_of w1) with (names_of w); [by apply items_format_text|]. unfold names_of. by rewrite Hw. }
  destruct (level_num level <? level_num (ap_level x))%Z eqn:El; cbn [orb].
  { unfold cret. f_equal. unfold after. rewrite app_nil_r, (alter_same _ _ _ x Hx); [by destruct w|]. unfold touched. by rewrite El. }
  destruct (ap_target x) as [|file last good] eqn:Et.
  { rewrite (cbind_Ret _ _ _ _ _ (Hfmt x w Hf eq_refl)). unfold put_line, cmodify, refreshed, opened. rewrite Et, Et, Hf. cbn. f_equal. unfold after. f_equal.
    rewrite (alter_same _ _ _ x Hx); [done|]. unfold touched, refreshed. by rewrite El, Et. }
  set (w1 := set_appenders (alter (touched level event) a (w_appenders w)) w).
  assert (Hy : w_appenders w1 !! a = Some (refreshed event x)) by (cbn; rewrite list_lookup_alter, decide_True, Hx by done; cbn; unfold touched; by rewrite El).
  rewrite (cbind_Ret _ _ _ tt w1).
  2:{ unfold w1. destruct (u64 (last + 3) <=? e_time event)%Z eqn:Eo.
      - unfold cbind, reopen, cmodify, upd_appender, set_appenders. cbn. f_equal. f_equal. apply list_eq. intros j. rewrite !list_lookup_alter. destruct (decide (a = j)) as [<-|]; [|done].
        rewrite Hx. cbn. unfold touched, refreshed. rewrite El, Et, Eo. by rewrite decide_True.
      - unfold cret. f_equal. unfold set_appenders. rewrite (alter_same _ _ _ x Hx); [by destruct w|]. unfold touched, refreshed. by rewrite El, Et, Eo. }
  rewrite (cbind_Ret _ _ _ _ _ (get_appender_Some _ _ _ Hy)).
  assert (Hf' : ap_formatter (refreshed event x) = Some f) by (unfold refreshed; rewrite Et; by case_match).
  rewrite (cbind_Ret _ _ _ _ _ (Hfmt _ w1 Hf' eq_refl)), Hf. unfold opened. assert (Et' : ∃ l g, ap_target (refreshed event x) = FileLogAppender file l g) by (unfold refreshed; rewrite Et; case_match; eauto).
  destruct Et' as (l' & g & ->). destruct g; cbn; [done|]. unfold cret, w1, after, set_appenders. by rewrite app_nil_r.
Qed.
Lemma refreshed_formatter event x : ap_formatter (refreshed event x) = ap_formatter x.
Proof. unfold refreshed. destruct (ap_target x); [done|]. by destruct (_ <=? _)%Z. Qed.
Lemma touched_formatter level event x : ap_formatter (touched level event x) = ap_formatter x ∧ ap_hasFormatter (touched level event x) = ap_hasFormatter x.
Proof. unfold touched, refreshed. destruct (_ <? _)%Z; [done|]. destruct (ap_target x); [done|]. by destruct (_ <=? _)%Z. Qed.
Lemma appenders_log_spec level event aps w : is_Some (names_of w (e_logger event)) → NoDup aps → (∀ a, a ∈ aps → prints w event a) →
  ∃ l, cfor aps (appender_log strftime open_ok level event) w = Ret tt (after w l (aps ≫= delivery w level event)) ∧
    ∀ a, l !! a = if decide (a ∈ aps) then touched level event <$> w_appenders w !! a else w_appenders w !! a.
Proof.
  intros Hn Hd. revert w Hn. induction Hd as [|a aps Ha Hd IH]; intros w Hn Hp.
  { exists (w_appenders w). split; [unfold after; cbn; rewrite app_nil_r; by destruct w|]. intros a. rewrite decide_False; [done|by apply not_elem_of_nil]. }
  set (w1 := after w (alter (touched level event) a (w_appenders w)) (delivery w level event a)).
  assert (Hother : ∀ b, b ≠ a → w_appenders w1 !! b = w_appenders w !! b) by (intros b Hb; cbn; by rewrite list_lookup_alter_ne).
  destruct (IH w1) as (l & E & Hl).
  { done. }
  { intros b Hb. assert (b ≠ a) by (by intros ->). destruct (Hp b) as (x & f & Hx & ?); [by right|]. exists x, f. by rewrite Hother. }
  exists l. split.
  - cbn [cfor]. rewrite (cbind_Ret _ _ _ _ _ (appender_log_spec level event a w Hn (Hp a ltac:(left)))). fold w1. rewrite E. unfold after. cbn. rewrite <- app_assoc. do 4 f_equal.
    clear -Ha Hother. induction aps as [|b aps IH]; [done|]. apply not_elem_of_cons in Ha as [Hb Ha]. cbn. rewrite IH by done. f_equal. unfold delivery. by rewrite Hother.
  - intros b. rewrite Hl. destruct (decide (b = a)) as [->|Hb].
    + rewrite decide_False by done. rewrite decide_True by left. cbn. by rewrite list_lookup_alter, decide_True.
    + rewrite Hother by done. destruct (decide (b ∈ aps)); [by rewrite decide_True by by right|]. rewrite decide_False; [done|]. by apply not_elem_of_cons.
Qed.
(** Which appenders an event is handed to: those of the logger, or of the root
    if it has none. *)
Definition own_receivers (level : Level) (l : Logger) : list nat := if (level_num level <? level_num (lg_level l))%Z then [] else lg_appenders l.
Definition receivers (w : log_world) (level : Level) (l : Logger) : list nat :=
  if (level_num level <? level_num (lg_level l))%Z then []
  else match lg_appenders l, lg_root l with
       | [], Some r => match w_loggers w !! r with Some root => own_receivers level root | None => [] end
       | aps, _ => aps
       end.
Definition logged (w w' : log_world) (level : Level) (event : LogEvent) (aps : list nat) : Prop :=
  ∃ l, w' = after w l (aps ≫= delivery w level event) ∧ ∀ a, l !! a = if decide (a ∈ aps) then touched level event <$> w_appenders w !! a else w_appenders w !! a.
Lemma logged_nil w level event : logged w w level event [].
Proof. exists (w_appenders w). split; [unfold after; cbn; rewrite app_nil_r; by destruct w|]. intros a. by rewrite decide_False by apply not_elem_of_nil. Qed.
Lemma log_go_spec fuel w i l level event : LogInv w → w_loggers w !! i = Some l → is_Some (names_of w (e_logger event)) → (∀ a, a ∈ receivers w level l → prints w event a) →
  2 <= fuel → ∃ w', log_go strftime open_ok fuel i level event w = Ret tt w' ∧ logged w w' level event (receivers w level l).
Proof.
  intros HI Hl Hn Hp Hf. destruct fuel as [|[|fuel]]; [lia|lia|]. remember (S fuel) as fuel1. cbn [log_go]. rewrite (cbind_Ret _ _ _ _ _ (get_logger_Some _ _ _ Hl)). unfold receivers in *.
  destruct (_ <? _)%Z; [exists w; split; [done|apply logged_nil]|]. destruct (lg_appenders l) as [|a aps] eqn:Ea.
  - destruct (lg_root l) as [r|] eqn:Er; [|exists w; split; [done|apply logged_nil]]. destruct (li_parent _ HI i l Hl) as [?|E]; [congruence|]. rewrite Er in E. injection E as ->.
    destruct (li_root _ HI) as (root & Hr & Hnone). rewrite Hr in *. subst fuel1. cbn [log_go]. rewrite (cbind_Ret _ _ _ _ _ (get_logger_Some _ _ _ Hr)). unfold own_receivers in *.
    destruct (_ <? _)%Z; [exists w; split; [done|apply logged_nil]|]. rewrite Hnone. destruct (lg_appenders root) as [|a aps] eqn:Ea'; [exists w; split; [done|apply logged_nil]|].
    rewrite <- Ea' in *. destruct (appenders_log_spec level event (lg_appenders root) w Hn (lo_nodup _ _ _ (li_local _ HI _ _ Hr)) Hp) as (la & E & Hla). rewrite E. eexists. split; [done|]. by exists la.
  - rewrite <- Ea in *. destruct (appenders_log_spec level event (lg_appenders l) w Hn (lo_nodup _ _ _ (li_local _ HI _ _ Hl)) Hp) as (la & E & Hla).
    rewrite E. eexists. split; [done|]. by exists la.
Qed.
Lemma logged_inv w w' level event aps : LogInv w → logged w w' level event aps → LogInv w'.
Proof.
  intros HI (l & -> & Hl). destruct HI as [H1 H2 H3 H4 H5]. split; try done. intros i lg Hi. destruct (H3 i lg Hi) as [F1 F2 F3]. split; [done|done|]. intros a Ha.
  destruct (F3 a Ha) as (x & Hx & Hs & He). cbn. rewrite Hl, Hx. destruct (decide (a ∈ aps)); [|by exists x]. cbn. eexists. split; [done|]. destruct (touched_formatter level event x) as [-> ->]. done.
Qed.
(** The formatters of the receivers can print the event. *)
Definition fits (w : log_world) (event : LogEvent) (aps : list nat) : Prop :=
  ∀ a x f, a ∈ aps → w_appenders w !! a = Some x → ap_formatter x = Some f → dates_fit event f.
Lemma receivers_owned w i l level a : LogInv w → w_loggers w !! i = Some l → a ∈ receivers w level l → ∃ j, owned w j a.
Proof.
  intros HI Hl. unfold receivers. destruct (_ <? _)%Z; [by intros ?%elem_of_nil|]. destruct (lg_appenders l) as [|b aps] eqn:Ea.
  - destruct (lg_root l) as [r|]; [|by intros ?%elem_of_nil]. destruct (w_loggers w !! r) as [root|] eqn:Er; [|by intros ?%elem_of_nil].
    unfold own_receivers. destruct (_ <? _)%Z; [by intros ?%elem_of_nil|]. intros Ha. exists r. by exists root.
  - rewrite <- Ea. intros Ha. exists i. by exists l.
Qed.
Lemma fits_prints w i l level event a : LogInv w → w_loggers w !! i = Some l → fits w event (receivers w level l) → a ∈ receivers w level l → prints w event a.
Proof.
  intros HI Hl Hf Ha. destruct (receivers_owned w i l level a HI Hl Ha) as (j & lj & Hj & Haj). destruct (lo_appender _ _ _ (li_local _ HI _ _ Hj) a Haj) as (x & Hx & [f Hs] & _).
  exists x, f. split_and!; [done|done|]. by eapply Hf.
Qed.
Lemma log_spec w i l level event : LogInv w → w_loggers w !! i = Some l → is_Some (names_of w (e_logger event)) → fits w event (receivers w level l) →
  ∃ w', log strftime open_ok i level event w = Ret tt w' ∧ logged w w' level event (receivers w level l) ∧ LogInv w'.
Proof.
  intros HI Hl Hn Hf. destruct (log_go_spec (S (length (w_loggers w))) w i l level event HI Hl Hn) as (w' & E & Hw').
  - intros a Ha. by eapply fits_prints.
  - apply lookup_lt_Some in Hl. lia.
  - exists w'. split; [|split; [done|by eapply logged_inv]]. exact E.
Qed.
Lemma log_macro_spec w i l level event : LogInv w → w_loggers w !! i = Some l → is_Some (names_of w (e_logger event)) → fits w event (receivers w level l) →
  ∃ w', log_macro strftime open_ok i level event w = Ret tt w' ∧ logged w w' level event (receivers w level l) ∧ LogInv w'.
Proof.
  intros HI Hl Hn Hf. unfold log_macro. rewrite (cbind_Ret _ _ _ _ _ (get_logger_Some _ _ _ Hl)). destruct (Z.leb_spec (level_num (lg_level l)) (level_num level)) as [Hle|Hlt]; [by apply log_spec|].
  exists w. unfold receivers. rewrite (proj2 (Z.ltb_lt _ _) Hlt). split; [done|]. split; [apply logged_nil|done].
Qed.
End logs.
