(* ===== verification/LogConfig.v ===== *)
(** * Loggers follow their configuration (Sylar/log.cc)

    The listener of the "logs" configuration makes the loggers what the new
    configuration says; and whatever happened before, an event reaches the
    appenders it should. *)
From Stdlib Require Import ZArith Lia Strings.Byte.
From Stdlib Require Import (notations) Strings.String.
From stdpp Require Import base list list_numbers numbers.
From S2P Require Import Prelude Text Address LogFormat Logger LogDelivery.
#[local] Open Scope byte_scope.
Local Open Scope nat_scope.
#[local] Arguments find_name : simpl never.

(** ** Loggers that are the same, up to the state of files *)
Definition same_target (t t' : target) : Prop :=
  match t, t' with
  | StdoutLogAppender, StdoutLogAppender => True
  | FileLogAppender f _ _, FileLogAppender f' _ _ => f = f'
  | _, _ => False
  end.
Definition sim (x x' : LogAppender) : Prop :=
  same_target (ap_target x) (ap_target x') ∧ ap_level x' = ap_level x ∧ ap_hasFormatter x' = ap_hasFormatter x ∧ ap_formatter x' = ap_formatter x.
#[export] Instance sim_preorder : PreOrder sim.
Proof.
  split.
  - intros x. split; [|done]. by destruct (ap_target x).
  - intros x y z (T1 & A1 & B1 & C1) (T2 & A2 & B2 & C2). split_and!; [|congruence..]. destruct (ap_target x), (ap_target y), (ap_target z); cbn in *; by subst.
Qed.
Definition same_logger (n : str) (w w' : log_world) : Prop :=
  ∀ i l, find_name n (m_loggers w) = Some i → w_loggers w !! i = Some l →
    find_name n (m_loggers w') = Some i ∧ w_loggers w' !! i = Some l ∧ ∀ a x, a ∈ lg_appenders l → w_appenders w !! a = Some x → ∃ x', w_appenders w' !! a = Some x' ∧ sim x x'.
Lemma same_logger_refl n w : same_logger n w w.
Proof. intros i l Hi Hl. split_and!; [done|done|]. intros a x _ Hx. by exists x. Qed.
Lemma same_logger_trans n w1 w2 w3 : same_logger n w1 w2 → same_logger n w2 w3 → same_logger n w1 w3.
Proof.
  intros H1 H2 i l Hi Hl. destruct (H1 i l Hi Hl) as (Hi2 & Hl2 & Ha2). destruct (H2 i l Hi2 Hl2) as (Hi3 & Hl3 & Ha3). split_and!; [done|done|].
  intros a x Ha Hx. destruct (Ha2 a x Ha Hx) as (x2 & Hx2 & S2). destruct (Ha3 a x2 Ha Hx2) as (x3 & Hx3 & S3). exists x3. split; [done|by etrans].
Qed.
Lemma same_logger_frame n name i w w1 w' : LogInv w → n ≠ name → got name i w w1 → frame i w1 w' → same_logger n w w'.
Proof.
  intros HI Hn Hg HF j l Hj Hl. pose proof (g_names _ _ _ _ Hg n j Hj) as Hj1. pose proof (g_logger _ _ _ _ Hg j l Hl) as Hl1.
  assert (Hji : j ≠ i).
  { intros ->. destruct (li_names _ (g_inv _ _ _ _ Hg) _ _ Hj1) as (l1 & E1 & N1). destruct (li_names _ (g_inv _ _ _ _ Hg) _ _ (g_found _ _ _ _ Hg)) as (l2 & E2 & N2). congruence. }
  split_and!; [by rewrite (f_names _ _ _ HF)|by rewrite (f_other _ _ _ HF)|]. intros a x Ha Hx. exists x. split; [|done].
  rewrite <- (g_appenders _ _ _ _ Hg) in Hx. rewrite (f_app _ _ _ HF); [done|by eapply lookup_lt_Some|]. intros Ho. apply Hji. eapply (li_owner _ (g_inv _ _ _ _ Hg)); [|done]. by exists l.
Qed.
Lemma logged_same strftime open_ok n w w' level event aps : logged strftime open_ok w w' level event aps → same_logger n w w'.
Proof.
  intros (l & -> & Hl) i lg Hi Hlg. split_and!; [done|done|]. intros a x Ha Hx. cbn. rewrite Hl, Hx. destruct (decide _); [|by exists x]. cbn. eexists. split; [done|].
  unfold touched, refreshed. destruct (_ <? _)%Z; [done|]. destruct (ap_target x) as [|f la g] eqn:Et; [done|]. destruct (_ <=? _)%Z; [|done]. unfold sim. rewrite Et. done.
Qed.

(** ** What a definition asks for *)
Definition impl_appender (w : log_world) (l : Logger) (a : LogAppenderDefine) (ap : nat) : Prop :=
  ∃ x, w_appenders w !! ap = Some x ∧
    match ap_target x with FileLogAppender f _ _ => a_type a = 1%Z ∧ f = a_file a | StdoutLogAppender => a_type a = 2%Z end ∧
    ap_level x = a_level a ∧ ap_formatter x = if valid_pattern (a_formatter a) then Some (formatter_of (a_formatter a)) else lg_formatter l.
Definition implements (daemon : bool) (w : log_world) (d : LogDefine) : Prop :=
  ∃ i l, find_name (d_name d) (m_loggers w) = Some i ∧ w_loggers w !! i = Some l ∧ lg_level l = d_level d ∧
    (valid_pattern (d_formatter d) = true → lg_formatter l = Some (formatter_of (d_formatter d))) ∧ Forall2 (impl_appender w l) (kept daemon (d_appenders d)) (lg_appenders l).
(** A logger that passes everything on to the root. *)
Definition silenced (w : log_world) (name : str) : Prop := ∃ i l, find_name name (m_loggers w) = Some i ∧ w_loggers w !! i = Some l ∧ lg_level l = UNKNOW ∧ lg_appenders l = [].
Lemma implements_same daemon w w' d : implements daemon w d → same_logger (d_name d) w w' → implements daemon w' d.
Proof.
  intros (i & l & Hi & Hl & Hv & Hf & Ha) Hs. destruct (Hs i l Hi Hl) as (Hi' & Hl' & Hx). exists i, l. split_and!; try done. apply Forall2_lookup. intros j.
  pose proof (proj1 (Forall2_lookup _ _ _) Ha j) as Hj. destruct (lg_appenders l !! j) as [ap|] eqn:Eap; inversion Hj as [a b (x & Hax & T & L & F) Ea Eb|]; subst; constructor.
  destruct (Hx _ x (list_elem_of_lookup_2 _ _ _ Eap) Hax) as (x' & Hx' & S1 & S2 & S3 & S4). exists x'. split_and!; [done| |congruence..]. destruct (ap_target x), (ap_target x'); cbn in S1; try done. by subst.
Qed.
Lemma silenced_same w w' n : silenced w n → same_logger n w w' → silenced w' n.
Proof. intros (i & l & Hi & Hl & ? & ?) Hs. destruct (Hs i l Hi Hl) as (? & ? & _). by exists i, l. Qed.

Section config.
Context (strftime : str → Z → str) (open_ok : str → Z → bool) (file_new : str → target) (daemon : bool).
(** The constructor of FileLogAppender makes a file appender of that name. *)
Context (file_new_name : ∀ f, ∃ last good, file_new f = FileLogAppender f last good).
(** Appenders are added one after the other; those that exist are not touched. *)
Lemma conf_appenders_ok i aps w l : LogInv w → w_loggers w !! i = Some l → Forall type_ok aps →
  ∃ w' new, cfor aps (conf_appender file_new daemon i) w = Ret tt w' ∧ frame i w w' ∧ LogInv w' ∧ w_loggers w' !! i = Some (with_appenders (λ l, l ++ new) l) ∧
    (∀ a, a < length (w_appenders w) → w_appenders w' !! a = w_appenders w !! a) ∧ Forall2 (impl_appender w' l) (kept daemon aps) new.
Proof.
  intros HI Hl Ht. revert w l HI Hl. induction Ht as [|a aps Ha Ht IH]; intros w l HI Hl.
  { exists w, []. split_and!; try done; [apply frame_refl|rewrite Hl; f_equal; unfold with_appenders; rewrite app_nil_r; by destruct l]. }
  cbn [cfor]. rewrite (cbind_Ret _ _ _ _ _ (conf_appender_spec file_new daemon i a w l Ha Hl)). unfold kept. rewrite filter_cons. destruct (decide _) as [Hk|Hk]; [|by apply IH].
  destruct (add_made_frame file_new i l a w HI Hl) as (w1 & [= <-] & HF1 & Hl1 & HI1). set (w1 := add_made file_new i l a w) in *.
  destruct (IH w1 _ HI1 Hl1) as (w' & new & E & HF & HI' & Hl' & Hold & HF2). exists w', (length (w_appenders w) :: new).
  assert (Elen : length (w_appenders w1) = S (length (w_appenders w))) by (cbn; rewrite length_app; cbn; lia).
  split_and!; [done|by eapply frame_trans|done| | |].
  - rewrite Hl'. f_equal. unfold with_appenders. cbn. by rewrite <- app_assoc.
  - intros b Hb. rewrite Hold by lia. cbn. by rewrite lookup_app_l.
  - constructor; [|exact HF2]. exists (made file_new l a). split; [rewrite Hold by lia; cbn; by apply list_lookup_middle|]. unfold made, target_of. cbn. split; [|done].
    destruct (Z.eqb_spec (a_type a) 1) as [E1|E1]; [|by destruct Ha]. by destruct (file_new_name (a_file a)) as (last & good & ->).
Qed.
Definition unchanged (old : list LogDefine) (d : LogDefine) : bool := match find_def (d_name d) old with Some o => bool_decide (d = o) | None => false end.
Lemma conf_new_ok old d w : LogInv w → Forall type_ok (d_appenders d) →
  ∃ w', conf_new file_new daemon old d w = Ret tt w' ∧ LogInv w' ∧ m_root w' = m_root w ∧ w_out w' = w_out w ∧ (∀ n, n ≠ d_name d → same_logger n w w') ∧
    if unchanged old d then w' = w else implements daemon w' d.
Proof.
  intros HI Ht. unfold conf_new. fold (unchanged old d). destruct (unchanged old d).
  { exists w. split_and!; try done. intros. apply same_logger_refl. }
  destruct (getLogger_ok (d_name d) w HI) as (i & w1 & E1 & Hg). rewrite (cbind_Ret _ _ _ _ _ E1). pose proof (g_inv _ _ _ _ Hg) as HI1.
  destruct (li_names _ HI1 _ _ (g_found _ _ _ _ Hg)) as (l1 & Hl1 & Hn1).
  destruct (setLevel_ok i (d_level d) w1 l1 HI1 Hl1) as (w2 & E2 & HF2 & Hl2 & HI2). rewrite (cbind_Ret _ _ _ _ _ E2).
  assert (H3 : ∃ l3, op_ok i w2 (if bool_decide (d_formatter d = []) then cret tt else setFormatter i (d_formatter d)) l3 ∧ lg_level l3 = d_level d ∧
    (valid_pattern (d_formatter d) = true → lg_formatter l3 = Some (formatter_of (d_formatter d)))).
  { unfold valid_pattern. case_bool_decide.
    - eexists. split; [exists w2; split_and!; [done|apply frame_refl|done|done]|done].
    - eexists. split; [by apply setFormatter_ok|]. by destruct (m_error (formatter_of (d_formatter d))). }
  destruct H3 as (l3 & (w3 & E3 & HF3 & Hl3 & HI3) & Hlev & Hfmt). rewrite (cbind_Ret _ _ _ _ _ E3).
  destruct (clearAppenders_ok i w3 l3 HI3 Hl3) as (w4 & E4 & HF4 & Hl4 & HI4). rewrite (cbind_Ret _ _ _ _ _ E4).
  destruct (conf_appenders_ok i (d_appenders d) w4 _ HI4 Hl4 Ht) as (w5 & new & E5 & HF5 & HI5 & Hl5 & _ & Hnew). exists w5.
  assert (HF : frame i w1 w5) by (eapply frame_trans; [done|eapply frame_trans; [done|by eapply frame_trans]]).
  split_and!; [done|done|by rewrite (f_root _ _ _ HF), (g_root _ _ _ _ Hg)|by rewrite (f_out _ _ _ HF), (g_out _ _ _ _ Hg)|intros n Hn; by eapply same_logger_frame|].
  eexists i, _. split_and!; [rewrite (f_names _ _ _ HF); by apply (g_found _ _ _ _ Hg)|exact Hl5|done|done|]. exact Hnew.
Qed.
Lemma conf_news_ok old todo w : LogInv w → NoDup (d_name <$> todo) → Forall (λ d, Forall type_ok (d_appenders d)) todo →
  ∃ w', cfor todo (conf_new file_new daemon old) w = Ret tt w' ∧ LogInv w' ∧ m_root w' = m_root w ∧ w_out w' = w_out w ∧ (∀ n, n ∉ d_name <$> todo → same_logger n w w') ∧
    ∀ d, d ∈ todo → if unchanged old d then same_logger (d_name d) w w' else implements daemon w' d.
Proof.
  intros HI Hnd Ht. revert w HI Hnd. induction Ht as [|d todo Hd Ht IH]; intros w HI Hnd.
  { exists w. split_and!; try done; [intros; apply same_logger_refl|by intros d ?%elem_of_nil]. }
  apply list.NoDup_cons in Hnd as [Hn Hnd]. destruct (conf_new_ok old d w HI Hd) as (w1 & E1 & HI1 & R1 & O1 & S1 & D1). destruct (IH w1 HI1 Hnd) as (w' & E & HI' & R & O & S2 & D2).
  exists w'. split_and!; [cbn [cfor]; by rewrite (cbind_Ret _ _ _ _ _ E1)|done|congruence|congruence| |].
  - intros n Hnn. rewrite fmap_cons in Hnn. apply not_elem_of_cons in Hnn as [Hne Hnn]. eapply same_logger_trans; [by apply S1|by apply S2].
  - intros d' [->|Hd']%elem_of_cons.
    + destruct (unchanged old d); [subst; by apply S2|]. eapply implements_same; [done|by apply S2].
    + specialize (D2 d' Hd'). destruct (unchanged old d'); [|done]. eapply same_logger_trans; [apply S1|done]. intros E'. apply Hn. rewrite <- E'. by apply list_elem_of_fmap_2.
Qed.
Lemma conf_old_ok new d w : LogInv w →
  ∃ w', conf_old new d w = Ret tt w' ∧ LogInv w' ∧ m_root w' = m_root w ∧ w_out w' = w_out w ∧ (∀ n, n ≠ d_name d → same_logger n w w') ∧
    match find_def (d_name d) new with Some _ => w' = w | None => silenced w' (d_name d) end.
Proof.
  intros HI. unfold conf_old. destruct (find_def (d_name d) new) as [o|].
  { exists w. split_and!; try done. intros. apply same_logger_refl. }
  destruct (getLogger_ok (d_name d) w HI) as (i & w1 & E1 & Hg). rewrite (cbind_Ret _ _ _ _ _ E1). pose proof (g_inv _ _ _ _ Hg) as HI1.
  destruct (li_names _ HI1 _ _ (g_found _ _ _ _ Hg)) as (l1 & Hl1 & Hn1).
  destruct (setLevel_ok i UNKNOW w1 l1 HI1 Hl1) as (w2 & E2 & HF2 & Hl2 & HI2). rewrite (cbind_Ret _ _ _ _ _ E2).
  destruct (clearAppenders_ok i w2 _ HI2 Hl2) as (w3 & E3 & HF3 & Hl3 & HI3). exists w3. assert (HF : frame i w1 w3) by (by eapply frame_trans).
  split_and!; [done|done|by rewrite (f_root _ _ _ HF), (g_root _ _ _ _ Hg)|by rewrite (f_out _ _ _ HF), (g_out _ _ _ _ Hg)|intros n Hn; by eapply same_logger_frame|].
  eexists i, _. split_and!; [rewrite (f_names _ _ _ HF); by apply (g_found _ _ _ _ Hg)|exact Hl3|done|done].
Qed.
Lemma conf_olds_ok new todo w : LogInv w → NoDup (d_name <$> todo) →
  ∃ w', cfor todo (conf_old new) w = Ret tt w' ∧ LogInv w' ∧ m_root w' = m_root w ∧ w_out w' = w_out w ∧
    (∀ n, (n ∉ d_name <$> todo) ∨ find_def n new ≠ None → same_logger n w w') ∧ ∀ d, d ∈ todo → find_def (d_name d) new = None → silenced w' (d_name d).
Proof.
  revert w. induction todo as [|d todo IH]; intros w HI Hnd.
  { exists w. split_and!; try done; [intros; apply same_logger_refl|by intros d ?%elem_of_nil]. }
  rewrite fmap_cons in Hnd. apply list.NoDup_cons in Hnd as [Hn Hnd]. destruct (conf_old_ok new d w HI) as (w1 & E1 & HI1 & R1 & O1 & S1 & D1).
  destruct (IH w1 HI1 Hnd) as (w' & E & HI' & R & O & S2 & D2). exists w'. split_and!; [cbn [cfor]; by rewrite (cbind_Ret _ _ _ _ _ E1)|done|congruence|congruence| |].
  - intros n Hnn. destruct (decide (n = d_name d)) as [->|Hne].
    + destruct Hnn as [Hnn|Hnn]; [exfalso; apply Hnn; left|]. destruct (find_def (d_name d) new) eqn:Ef; [|done]. subst w1. apply S2. right. by rewrite Ef.
    + eapply same_logger_trans; [by apply S1|apply S2]. destruct Hnn as [Hnn|]; [left|by right]. intros Hin. apply Hnn. by right.
  - intros d' [->|Hd']%elem_of_cons Hnone; [|by apply D2]. rewrite Hnone in D1. eapply silenced_same; [done|]. apply S2. by left.
Qed.
Lemma find_def_In n l : find_def n l = None ↔ n ∉ d_name <$> l.
Proof.
  unfold find_def. destruct (list_find _ l) as [[j d]|] eqn:E; cbn.
  - apply list_find_Some in E as (Hj & <- & _). split; [done|]. intros H. exfalso. apply H. apply list_elem_of_fmap_2. by eapply list_elem_of_lookup_2.
  - split; [|done]. intros _ (d & -> & Hd)%list_elem_of_fmap. apply list_find_None in E. apply list_elem_of_lookup_1 in Hd as [j Hj]. by apply (Forall_lookup_1 _ _ _ _ E Hj).
Qed.
Lemma unchanged_In old d : unchanged old d = true → d ∈ old.
Proof.
  unfold unchanged, find_def. destruct (list_find _ old) as [[j o]|] eqn:E; cbn; [|done]. intros ->%bool_decide_eq_true. apply list_find_Some in E as (Hj & _). by eapply list_elem_of_lookup_2.
Qed.
(** The event of the listener can be printed by the root. *)
Definition root_event (w : log_world) (event : LogEvent) : Prop :=
  is_Some (names_of w (e_logger event)) ∧ ∀ l, w_loggers w !! m_root w = Some l → fits strftime w event (receivers w INFO l).
Definition conf_wf (c : list LogDefine) : Prop := NoDup (d_name <$> c) ∧ Forall (λ d, Forall type_ok (d_appenders d)) c.
Lemma conf_changed_ok event old new w : LogInv w → conf_wf old → conf_wf new → root_event w event → ∃ w' root,
  conf_changed strftime open_ok file_new daemon event old new w = Ret tt w' ∧ LogInv w' ∧ m_root w' = m_root w ∧
  w_loggers w !! m_root w = Some root ∧ w_out w' = w_out w ++ (receivers w INFO root ≫= delivery strftime open_ok w INFO event) ∧
  (∀ d, d ∈ new → if unchanged old d then same_logger (d_name d) w w' else implements daemon w' d) ∧
  (∀ d, d ∈ old → (d_name d ∉ d_name <$> new) → silenced w' (d_name d)) ∧
  (∀ n, (n ∉ d_name <$> old) → (n ∉ d_name <$> new) → same_logger n w w').
Proof.
  intros HI [Hnd1 _] [Hnd2 Ht] [Hn Hfit]. destruct (li_root _ HI) as (root & Hr & _). destruct (log_macro_spec strftime open_ok w (m_root w) root INFO event HI Hr Hn (Hfit _ Hr)) as (w1 & E1 & HL & HI1).
  destruct (conf_news_ok old new w1 HI1 Hnd2 Ht) as (w2 & E2 & HI2 & R2 & O2 & S2 & D2). destruct (conf_olds_ok new old w2 HI2 Hnd1) as (w3 & E3 & HI3 & R3 & O3 & S3 & D3). exists w3, root.
  assert (S1 : ∀ n, same_logger n w w1) by (intros n; by eapply logged_same). assert (Eo : w_out w1 = w_out w ++ (receivers w INFO root ≫= delivery strftime open_ok w INFO event) ∧ m_root w1 = m_root w) by (by destruct HL as (l & -> & _)).
  split_and!.
  - unfold conf_changed. unfold cbind at 1, cget. rewrite (cbind_Ret _ _ _ _ _ E1), (cbind_Ret _ _ _ _ _ E2). exact E3.
  - done.
  - destruct Eo. congruence.
  - done.
  - rewrite O3, O2. apply Eo.
  - intros d Hd. assert (Hs : same_logger (d_name d) w2 w3).
    { apply S3. right. rewrite find_def_In. intros H. apply H. by apply list_elem_of_fmap_2. }
    specialize (D2 d Hd). destruct (unchanged old d); [|by eapply implements_same]. eapply same_logger_trans; [by apply S1|by eapply same_logger_trans].
  - intros d Hd Hnn. apply D3; [done|]. by apply find_def_In.
  - intros n H1 H2. eapply same_logger_trans; [by apply S1|]. eapply same_logger_trans; [by apply S2|]. apply S3. by left.
Qed.

(** ** Histories *)
Inductive log_op :=
  | OpGet (name : str) | OpLevel (i : nat) (v : Level) | OpFormatter (i : nat) (s : str) | OpAdd (i : nat) (a : LogAppenderDefine) | OpDel (i a : nat) | OpClear (i : nat)
  | OpLog (i : nat) (level : Level) (event : LogEvent) | OpConf (event : LogEvent) (old new : list LogDefine).
Definition log_exec (o : log_op) : M log_world unit :=
  match o with
  | OpGet name => let! _ := getLogger name in cret tt
  | OpLevel i v => setLevel i v
  | OpFormatter i s => setFormatter i s
  | OpAdd i a => conf_appender file_new false i a
  | OpDel i a => delAppender i a
  | OpClear i => clearAppenders i
  | OpLog i level event => log strftime open_ok i level event
  | OpConf event old new => conf_changed strftime open_ok file_new daemon event old new
  end.
(** The logger exists, definitions are of known types and events can be
    printed. *)
Definition op_allowed (o : log_op) (w : log_world) : Prop :=
  match o with
  | OpGet _ => True
  | OpLevel i _ | OpFormatter i _ | OpDel i _ | OpClear i => is_Some (w_loggers w !! i)
  | OpAdd i a => is_Some (w_loggers w !! i) ∧ type_ok a
  | OpLog i level event => ∃ l, w_loggers w !! i = Some l ∧ is_Some (names_of w (e_logger event)) ∧ fits strftime w event (receivers w level l)
  | OpConf event old new => conf_wf old ∧ conf_wf new ∧ root_event w event
  end.
Lemma log_exec_ok o w : LogInv w → op_allowed o w → ∃ w', log_exec o w = Ret tt w' ∧ LogInv w'.
Proof.
  intros HI Ha. destruct o as [name|i v|i s|i a|i a|i|i level event|event old new]; cbn [log_exec op_allowed] in *.
  - destruct (getLogger_ok name w HI) as (i & w' & E & Hg). exists w'. split; [by rewrite (cbind_Ret _ _ _ _ _ E)|by apply (g_inv _ _ _ _ Hg)].
  - destruct Ha as [l Hl]. destruct (setLevel_ok i v w l HI Hl) as (w' & ? & _ & _ & ?). eauto.
  - destruct Ha as [l Hl]. destruct (setFormatter_ok i s w l HI Hl) as (w' & ? & _ & _ & ?). eauto.
  - destruct Ha as [[l Hl] Ht]. destruct (add_made_frame file_new i l a w HI Hl) as (w' & [= <-] & _ & _ & HI'). eexists. split; [rewrite (conf_appender_spec file_new false i a w l Ht Hl), decide_True by auto; done|done].
  - destruct Ha as [l Hl]. destruct (delAppender_ok i a w l HI Hl) as (w' & ? & _ & _ & ?). eauto.
  - destruct Ha as [l Hl]. destruct (clearAppenders_ok i w l HI Hl) as (w' & ? & _ & _ & ?). eauto.
  - destruct Ha as (l & Hl & Hn & Hf). destruct (log_spec strftime open_ok w i l level event HI Hl Hn Hf) as (w' & ? & _ & ?). eauto.
  - destruct Ha as (H1 & H2 & H3). destruct (conf_changed_ok event old new w HI H1 H2 H3) as (w' & root & ? & ? & _). eauto.
Qed.
Definition empty_world : log_world := mkLW [] [] [] 0 [].
Definition start_world : log_world := match LoggerManager_new empty_world with Ret _ w => w | _ => empty_world end.
Inductive log_reach : log_world → Prop :=
  | reach_start : log_reach start_world
  | reach_op o w w' : log_reach w → op_allowed o w → log_exec o w = Ret tt w' → log_reach w'.
Definition root_logger : Logger := mkLogger (text "root") DEBUG [0] (Some (formatter_of default_pattern)) None.
Lemma start_world_eq : start_world = mkLW [root_logger] [mkAppender StdoutLogAppender DEBUG false (Some (formatter_of default_pattern))] [(text "root", 0)] 0 [].
Proof. by vm_compute. Qed.
Lemma start_inv : LogInv start_world.
Proof.
  rewrite start_world_eq. unfold root_logger. generalize (formatter_of default_pattern). intros f. split; cbn.
  - eauto.
  - intros i l [_ <-]%list_lookup_singleton_Some. by left.
  - intros i l [_ <-]%list_lookup_singleton_Some. split; [done|apply NoDup_singleton|]. intros a ->%list_elem_of_singleton. eexists. split; [reflexivity|]. cbn. split; [by eexists|done].
  - intros i j a (l & [? _]%list_lookup_singleton_Some & _) (l' & [? _]%list_lookup_singleton_Some & _). congruence.
  - intros name i H. unfold find_name in H. cbn in H. destruct (decide _); [|done]. injection H as <-. eauto.
Qed.
Lemma log_reach_inv w : log_reach w → LogInv w.
Proof. induction 1 as [|o w w' _ HI Ha E]; [apply start_inv|]. destruct (log_exec_ok o w HI Ha) as (w1 & E1 & ?). congruence. Qed.

(** C21: Loggers whose formatters come from patterns deliver. Take a history of
    these operations on loggers that exist: loggers found or made, levels set,
    formatters set from a pattern, appenders of a known type made for one
    logger and removed, all of them removed, events logged, configurations
    applied; no formatter is set through a pointer (a null one is a crash,
    [null_formatter]), no appender is given to two loggers, and every date an
    event prints fits the formatter's 64-byte buffer ([fits]; see
    [long_date]). Then each further such operation returns, and an event
    logged through a logger whose level lets it pass is written once by each
    appender of the logger, or of the root if the logger has none, that takes
    its level and whose file can be opened, with the text of the appender's
    formatter, in order; nothing else is written and no logger changes. *)
Theorem events_delivered (w : log_world) : log_reach w →
  (∀ o, op_allowed o w → ∃ w', log_exec o w = Ret tt w') ∧
  ∀ i l level event, w_loggers w !! i = Some l → is_Some (names_of w (e_logger event)) → fits strftime w event (receivers w level l) →
    ∃ w', log strftime open_ok i level event w = Ret tt w' ∧ w_loggers w' = w_loggers w ∧ w_out w' = w_out w ++ (receivers w level l ≫= delivery strftime open_ok w level event).
Proof.
  intros HR. pose proof (log_reach_inv w HR) as HI. split.
  - intros o Ho. destruct (log_exec_ok o w HI Ho) as (w' & ? & _). eauto.
  - intros i l level event Hl Hn Hf. destruct (log_spec strftime open_ok w i l level event HI Hl Hn Hf) as (w' & E & (la & -> & _) & _). eauto.
Qed.
(** C23: A change of the "logs" configuration, after any history in which the
    loggers of the old configuration are what it says, makes those of the new
    one what it says: level, formatter if a valid one is given, and exactly
    the appenders, with their files, levels and formatters; loggers that are
    in the old one only are left without appenders and pass everything to the
    root; no other logger changes. *)
Theorem config_applied (w : log_world) (event : LogEvent) (old new : list LogDefine) : log_reach w → conf_wf old → conf_wf new → root_event w event →
  Forall (implements daemon w) old →
  ∃ w', conf_changed strftime open_ok file_new daemon event old new w = Ret tt w' ∧ Forall (implements daemon w') new ∧
    (∀ d, d ∈ old → (d_name d ∉ d_name <$> new) → silenced w' (d_name d)) ∧ ∀ n, (n ∉ d_name <$> old) → (n ∉ d_name <$> new) → same_logger n w w'.
Proof.
  intros HR H1 H2 H3 Himp. destruct (conf_changed_ok event old new w (log_reach_inv w HR) H1 H2 H3) as (w' & root & E & _ & _ & _ & _ & Hnew & Hold & Hother). exists w'. split_and!; try done.
  apply Forall_lookup_2. intros j d Hj. specialize (Hnew d (list_elem_of_lookup_2 _ _ _ Hj)). destruct (unchanged old d) eqn:Eu; [|done].
  apply unchanged_In, list_elem_of_lookup_1 in Eu as [k Hk]. eapply implements_same; [|done]. by apply (Forall_lookup_1 _ _ _ _ Himp Hk).
Qed.
End config.

(** ** Instances *)
Definition example_file (f : str) : target := FileLogAppender f 0 true.
Lemma example_file_name f : ∃ last good, example_file f = FileLogAppender f last good.
Proof. by eexists _, _. Defined.
Definition example_time (_ : str) (_ : Z) : str := text "12:00".
Definition example_event : LogEvent := mkEvent 0 WARN (text "a.cc") 7 0 1 0 100 (text "main") (text "hello").
Definition example_def : LogDefine := mkLD (text "web") ERROR (text "%m%n") [mkLAD 1 UNKNOW [] (text "web.log"); mkLAD 2 WARN (text "[%p] %m") []].
Lemma events_delivered_witness : ∃ w', log example_time (λ _ _, true) 0 WARN example_event start_world = Ret tt w' ∧ length (w_out w') = 1.
Proof.
  destruct (events_delivered example_time (λ _ _, true) example_file false example_file_name start_world (reach_start _ _ _ _)) as [_ H].
  destruct (H 0 root_logger WARN example_event) as (w' & E & _ & Ho).
  - by rewrite start_world_eq.
  - vm_compute. by eexists.
  - intros a x f _ _ _. apply Forall_lookup_2. intros j it _. destruct it; try exact I. cbn. lia.
  - exists w'. split; [exact E|]. rewrite Ho. by vm_compute.
Defined.
Lemma config_applied_witness : ∃ w', conf_changed example_time (λ _ _, true) example_file false example_event [] [example_def] start_world = Ret tt w' ∧ implements false w' example_def.
Proof.
  destruct (config_applied example_time (λ _ _, true) example_file false example_file_name start_world example_event [] [example_def] (reach_start _ _ _ _)) as (w' & E & Hi & _).
  - split; [apply NoDup_nil_2|constructor].
  - split; [apply NoDup_singleton|]. apply Forall_singleton. apply Forall_cons_2; [by left|]. apply Forall_singleton. by right.
  - split; [vm_compute; by eexists|]. intros l _ a x f _ _ _. apply Forall_lookup_2. intros j it _. destruct it; try exact I. cbn. lia.
  - constructor.
  - exists w'. split; [exact E|]. exact (proj1 (Forall_singleton _ _) Hi).
Defined.
(** An appender whose formatter is set to null is a null dereference when its
    logger logs. *)
Lemma null_formatter strftime open_ok i l a x aps level event w : w_loggers w !! i = Some l → lg_appenders l = a :: aps → w_appenders w !! a = Some x → ap_target x = StdoutLogAppender →
  (level_num (lg_level l) <= level_num level)%Z → (level_num (ap_level x) <= level_num level)%Z →
  (let! _ := ap_setFormatter a None in log strftime open_ok i level event) w = Stuck NullDeref.
Proof.
  intros Hl Ha Hx Ht H1 H2. unfold ap_setFormatter, cmodify. unfold cbind at 1. set (w1 := upd_appender _ _ w). unfold log, cbind at 1, cget. cbn [log_go].
  rewrite (cbind_Ret _ _ _ _ _ (get_logger_Some i w1 l Hl)). rewrite (proj2 (Z.ltb_ge _ _) H1), Ha. cbn [cfor].
  assert (Hx1 : w_appenders w1 !! a = Some (mkAppender (ap_target x) (ap_level x) false None)) by (cbn; rewrite list_lookup_alter, decide_True, Hx by done; done).
  apply cbind_Stuck. unfold appender_log. rewrite (cbind_Ret _ _ _ _ _ (get_appender_Some _ _ _ Hx1)). cbn [ap_level ap_target]. by rewrite (proj2 (Z.ltb_ge _ _) H2), Ht.
Qed.
(** A formatter that is removed from the configuration stays in use. *)
Lemma formatter_stays (d := λ s, mkLD (text "web") INFO s []) (change := conf_changed example_time (λ _ _, true) example_file false example_event) :
  match (let! _ := change [] [d (text "%m")] in change [d (text "%m")] [d []]) start_world with
  | Ret _ w => i ← find_name (text "web") (m_loggers w); l ← w_loggers w !! i; m_pattern <$> lg_formatter l
  | _ => None
  end = Some (text "%m").
Proof. vm_compute. reflexivity. Qed.
