(* ===== verification/Http.v ===== *)
(** * HTTP messages (Sylar/HttpServer/http.h, http.cc)

    Requests and responses: method and status names, header, parameter and
    cookie maps whose keys ignore case, the lazy parsing of parameters and
    cookies, and the printing of messages. A std::map ordered by
    CaseInsensitiveLess is its list of entries in order. *)
From Stdlib Require Import ZArith Lia Strings.Byte.
From Stdlib Require Import (notations) Strings.String.
From stdpp Require Import base list list_numbers numbers.
From S2P Require Import Prelude Text Address AddressOrder LogFormat.
#[local] Open Scope byte_scope.
Local Open Scope nat_scope.
Local Open Scope Z_scope.

(** ** Methods and statuses; enum values are numbers *)
Definition s_method_string : list str := text <$> [
   "DELETE"; "GET"; "HEAD"; "POST"; "PUT"; "CONNECT"; "OPTIONS"; "TRACE"; "COPY"; "LOCK"; "MKCOL"; "MOVE"; "PROPFIND"; "PROPPATCH"; "SEARCH";
   "UNLOCK"; "BIND"; "REBIND"; "UNBIND"; "ACL"; "REPORT"; "MKACTIVITY"; "CHECKOUT"; "MERGE"; "M-SEARCH"; "NOTIFY"; "SUBSCRIBE"; "UNSUBSCRIBE";
   "PATCH"; "PURGE"; "MKCALENDAR"; "LINK"; "UNLINK"; "SOURCE"
  ]%string.
Definition INVALID_METHOD : Z := 34.
Definition find_method (p : str → bool) : Z := match list_find (λ s, p s = true) s_method_string with Some (i, _) => Z.of_nat i | None => INVALID_METHOD end.
(** strcmp *)
Definition StringToHttpMethod (m : str) : Z := find_method (λ s, bool_decide (s = c_str m)).
(** strncmp over the length of the name *)
Definition CharsToHttpMethod (m : str) : Z := find_method (λ s, starts_with s m).
Definition HttpMethodToString (m : Z) : str :=
  let idx := u32 m in
  if idx <? 34 then nth (Z.to_nat idx) s_method_string [] else text "<unknown>".
Definition status_table : list (Z * str) := (λ p, (p.1, text p.2)) <$> [
   (100, "Continue"); (101, "Switching Protocols"); (102, "Processing"); (200, "OK"); (201, "Created"); (202, "Accepted");
   (203, "Non-Authoritative Information"); (204, "No Content"); (205, "Reset Content"); (206, "Partial Content"); (207, "Multi-Status");
   (208, "Already Reported"); (226, "IM Used"); (300, "Multiple Choices"); (301, "Moved Permanently"); (302, "Found"); (303, "See Other");
   (304, "Not Modified"); (305, "Use Proxy"); (307, "Temporary Redirect"); (308, "Permanent Redirect"); (400, "Bad Request"); (401, "Unauthorized");
   (402, "Payment Required"); (403, "Forbidden"); (404, "Not Found"); (405, "Method Not Allowed"); (406, "Not Acceptable");
   (407, "Proxy Authentication Required"); (408, "Request Timeout"); (409, "Conflict"); (410, "Gone"); (411, "Length Required");
   (412, "Precondition Failed"); (413, "Payload Too Large"); (414, "URI Too Long"); (415, "Unsupported Media Type"); (416, "Range Not Satisfiable");
   (417, "Expectation Failed"); (421, "Misdirected Request"); (422, "Unprocessable Entity"); (423, "Locked"); (424, "Failed Dependency");
   (426, "Upgrade Required"); (428, "Precondition Required"); (429, "Too Many Requests"); (431, "Request Header Fields Too Large");
   (451, "Unavailable For Legal Reasons"); (500, "Internal Server Error"); (501, "Not Implemented"); (502, "Bad Gateway");
   (503, "Service Unavailable"); (504, "Gateway Timeout"); (505, "HTTP Version Not Supported"); (506, "Variant Also Negotiates");
   (507, "Insufficient Storage"); (508, "Loop Detected"); (510, "Not Extended"); (511, "Network Authentication Required")
  ]%string%Z.
Definition HttpStatusToString (s : Z) : str := match list_find (λ p, p.1 = s) status_table with Some (_, p) => p.2 | None => text "<unknown>" end.

(** ** Maps whose keys ignore case *)
Definition tolower (b : byte) : byte := if between "A" "Z" b then byte_of_Z (Z_of_byte b + 32) else b.
Definition fold_case (s : str) : str := tolower <$> c_str s.
Definition strcasecmp (a b : str) : comparison := lex (fold_case a) (fold_case b).
Definition CaseInsensitiveLess (a b : str) : bool := match strcasecmp a b with Lt => true | _ => false end.
Abbreviation MapType := (list (str * str)).
Definition mp_find (k : str) (m : MapType) : option str := snd <$> (snd <$> list_find (λ p, strcasecmp p.1 k = Eq) m).
(** m.insert keeps a value that is there, m[k] = v replaces it; both keep the
    key as it was first written. *)
Fixpoint mp_put (replace : bool) (k v : str) (m : MapType) : MapType :=
  match m with
  | [] => [(k, v)]
  | (k', v') :: m' =>
    if CaseInsensitiveLess k k' then (k, v) :: m
    else if CaseInsensitiveLess k' k then (k', v') :: mp_put replace k v m'
    else (k', if replace then v else v') :: m'
  end.
Definition mp_insert : str → str → MapType → MapType := mp_put false.
Definition mp_set : str → str → MapType → MapType := mp_put true.
Definition mp_erase (k : str) (m : MapType) : MapType := filter (λ p, strcasecmp p.1 k ≠ Eq) m.
(** checkGetAs and getAs; [cast] is boost::lexical_cast, [None] its exception. *)
Definition checkGetAs {T} (cast : str → option T) (m : MapType) (k : str) (def : T) : bool * T :=
  match mp_find k m with
  | None => (false, def)
  | Some s => match cast s with Some v => (true, v) | None => (false, def) end
  end.
Definition getAs {T} (cast : str → option T) (m : MapType) (k : str) (def : T) : T :=
  match mp_find k m with None => def | Some s => default def (cast s) end.

(** ** Requests *)
Record HttpRequest := mkRequest {
  rq_method : Z; rq_version : Z; rq_close : bool; rq_websocket : bool; rq_flag : Z; rq_path : str; rq_query : str; rq_fragment : str; rq_body : str;
  rq_headers : MapType; rq_params : MapType; rq_cookies : MapType
}.
Definition HttpRequest_new (version : Z) (close : bool) : HttpRequest := mkRequest 1 version close false 0 ["/"] [] [] [] [] [] [].
Definition rq_map (h p c : MapType → MapType) (f : Z) (r : HttpRequest) : HttpRequest :=
  mkRequest (rq_method r) (rq_version r) (rq_close r) (rq_websocket r) f (rq_path r) (rq_query r) (rq_fragment r) (rq_body r) (h (rq_headers r)) (p (rq_params r)) (c (rq_cookies r)).
Definition rq_getHeader (key def : str) (r : HttpRequest) : str := default def (mp_find key (rq_headers r)).
Definition rq_setHeader (key val : str) (r : HttpRequest) : HttpRequest := rq_map (mp_set key val) id id (rq_flag r) r.
Definition rq_setParam (key val : str) (r : HttpRequest) : HttpRequest := rq_map id (mp_set key val) id (rq_flag r) r.
Definition rq_setCookie (key val : str) (r : HttpRequest) : HttpRequest := rq_map id id (mp_set key val) (rq_flag r) r.
Definition rq_delHeader (key : str) (r : HttpRequest) : HttpRequest := rq_map (mp_erase key) id id (rq_flag r) r.
Definition rq_delParam (key : str) (r : HttpRequest) : HttpRequest := rq_map id (mp_erase key) id (rq_flag r) r.
Definition rq_delCookie (key : str) (r : HttpRequest) : HttpRequest := rq_map id id (mp_erase key) (rq_flag r) r.
(** *val is [Some] of what is assigned to it. *)
Definition rq_hasHeader (key : str) (r : HttpRequest) : bool * option str := let v := mp_find key (rq_headers r) in (bool_decide (is_Some v), v).
Definition rq_init (r : HttpRequest) : HttpRequest :=
  let conn := rq_getHeader (text "connection") [] r in
  if bool_decide (conn = []) then r
  else mkRequest (rq_method r) (rq_version r) (match strcasecmp conn (text "keep-alive") with Eq => false | _ => true end) (rq_websocket r) (rq_flag r)
         (rq_path r) (rq_query r) (rq_fragment r) (rq_body r) (rq_headers r) (rq_params r) (rq_cookies r).

(** PARSE_PARAM *)
Fixpoint parse_param (fuel : nat) (s : str) (flag : byte) (trim : str → str) (pos : nat) (m : MapType) : option MapType :=
  match fuel with
  | O => None
  | S fuel =>
    let last := pos in
    match find_from (isc "=") pos s with
    | None => Some m
    | Some key =>
      let pos := find_from (isc flag) key s in
      let value := match pos with Some p => take (p - key - 1) (drop (key + 1) s) | None => drop (key + 1) s end in
      let m := mp_insert (trim (take (key - last) (drop last s))) (UrlDecode value true) m in
      match pos with None => Some m | Some p => parse_param fuel s flag trim (p + 1) m end
    end
  end.
Definition parse_all (s : str) (flag : byte) (trim : str → str) (m : MapType) : M unit MapType :=
  match parse_param (S (length s)) s flag trim 0 m with Some m => cret m | None => cstuck OutOfFuel end.
Definition initQueryParam (r : HttpRequest) : M unit HttpRequest :=
  if negb (Z.land (rq_flag r) 1 =? 0) then cret r
  else
    let! m := parse_all (rq_query r) "&" id (rq_params r) in
    cret (rq_map id (λ _, m) id (u8 (Z.lor (rq_flag r) 1)) r).
Definition form_type : str := text "application/x-www-form-urlencoded".
(** strcasestr *)
Definition strcasestr (s pat : str) : bool := bool_decide (is_Some (find_str (fold_case pat) (fold_case s))).
Definition initBodyParam (r : HttpRequest) : M unit HttpRequest :=
  if negb (Z.land (rq_flag r) 2 =? 0) then cret r
  else if negb (strcasestr (rq_getHeader (text "content-type") [] r) form_type) then cret (rq_map id id id (u8 (Z.lor (rq_flag r) 2)) r)
  else
    let! m := parse_all (rq_body r) "&" id (rq_params r) in
    cret (rq_map id (λ _, m) id (u8 (Z.lor (rq_flag r) 2)) r).
Definition blanks : str := [" "; "009"; "013"; "010"].
Definition initCookies (r : HttpRequest) : M unit HttpRequest :=
  if negb (Z.land (rq_flag r) 4 =? 0) then cret r
  else
    let cookie := rq_getHeader (text "cookie") [] r in
    if bool_decide (cookie = []) then cret (rq_map id id id (u8 (Z.lor (rq_flag r) 4)) r)
    else
      let! m := parse_all cookie ";" (λ s, Trim s blanks) (rq_cookies r) in
      cret (rq_map id id (λ _, m) (u8 (Z.lor (rq_flag r) 4)) r).
Definition initParam (r : HttpRequest) : M unit HttpRequest :=
  let! r := initQueryParam r in let! r := initBodyParam r in initCookies r.
Definition init_params (r : HttpRequest) : M unit HttpRequest := let! r := initQueryParam r in initBodyParam r.
Definition rq_getParam (key def : str) (r : HttpRequest) : M unit (str * HttpRequest) :=
  let! r := init_params r in cret (default def (mp_find key (rq_params r)), r).
Definition rq_getCookie (key def : str) (r : HttpRequest) : M unit (str * HttpRequest) :=
  let! r := initCookies r in cret (default def (mp_find key (rq_cookies r)), r).
Definition rq_hasParam (key : str) (r : HttpRequest) : M unit (option str * HttpRequest) :=
  let! r := init_params r in cret (mp_find key (rq_params r), r).
Definition rq_hasCookie (key : str) (r : HttpRequest) : M unit (option str * HttpRequest) :=
  let! r := initCookies r in cret (mp_find key (rq_cookies r), r).

(** ** Printing *)
Definition crlf : str := ["013"; "010"].
Definition header_line (k v : str) : str := k ++ text ": " ++ v ++ crlf.
Definition print_version (version : Z) : str := text "HTTP/" ++ print_num 10 (Z.shiftr version 4) ++ text "." ++ print_num 10 (Z.land version 15).
Definition connection_line (close : bool) : str := header_line (text "connection") (if close then text "close" else text "keep-alive").
Definition print_headers (websocket : bool) (m : MapType) : str :=
  m ≫= λ i, if negb websocket && match strcasecmp i.1 (text "connection") with Eq => true | _ => false end then [] else header_line i.1 i.2.
Definition print_body (body : str) : str :=
  if bool_decide (body = []) then crlf else header_line (text "content-length") (print_num 10 (Z.of_nat (length body))) ++ crlf ++ body.
Definition rq_dump (r : HttpRequest) : str :=
  HttpMethodToString (rq_method r) ++ text " " ++ rq_path r ++ (if bool_decide (rq_query r = []) then [] else ["?"]) ++ rq_query r ++
  (if bool_decide (rq_fragment r = []) then [] else ["#"]) ++ rq_fragment r ++ text " " ++ print_version (rq_version r) ++ crlf ++
  (if rq_websocket r then [] else connection_line (rq_close r)) ++ print_headers (rq_websocket r) (rq_headers r) ++ print_body (rq_body r).

(** ** Responses *)
Record HttpResponse := mkResponse {
  rs_status : Z; rs_version : Z; rs_close : bool; rs_websocket : bool; rs_body : str; rs_reason : str; rs_headers : MapType; rs_cookies : list str
}.
Definition HttpResponse_new (version : Z) (close : bool) : HttpResponse := mkResponse 200 version close false [] [] [] [].
Definition rq_createResponse (r : HttpRequest) : HttpResponse := HttpResponse_new (rq_version r) (rq_close r).
Definition rs_getHeader (key def : str) (r : HttpResponse) : str := default def (mp_find key (rs_headers r)).
Definition rs_headers_map (f : MapType → MapType) (r : HttpResponse) : HttpResponse :=
  mkResponse (rs_status r) (rs_version r) (rs_close r) (rs_websocket r) (rs_body r) (rs_reason r) (f (rs_headers r)) (rs_cookies r).
Definition rs_setHeader (key val : str) : HttpResponse → HttpResponse := rs_headers_map (mp_set key val).
Definition rs_delHeader (key : str) : HttpResponse → HttpResponse := rs_headers_map (mp_erase key).
Definition rs_setStatus (s : Z) (r : HttpResponse) : HttpResponse :=
  mkResponse s (rs_version r) (rs_close r) (rs_websocket r) (rs_body r) (rs_reason r) (rs_headers r) (rs_cookies r).
Definition rs_setBody (b : str) (r : HttpResponse) : HttpResponse :=
  mkResponse (rs_status r) (rs_version r) (rs_close r) (rs_websocket r) b (rs_reason r) (rs_headers r) (rs_cookies r).
Definition setRedirect (uri : str) (r : HttpResponse) : HttpResponse := rs_setHeader (text "Location") uri (rs_setStatus 302 r).
(** [time2str] is Time2Str with the format of a cookie's expiry. *)
Definition rs_setCookie (time2str : Z → str) (key val : str) (expired : Z) (path domain : str) (secure : bool) (r : HttpResponse) : HttpResponse :=
  let ss := key ++ text "=" ++ val ++
    (if 0 <? expired then text ";expires=" ++ time2str expired ++ text " GMT" else []) ++
    (if bool_decide (domain = []) then [] else text ";domain=" ++ domain) ++
    (if bool_decide (path = []) then [] else text ";path=" ++ path) ++
    (if secure then text ";secure" else []) in
  mkResponse (rs_status r) (rs_version r) (rs_close r) (rs_websocket r) (rs_body r) (rs_reason r) (rs_headers r) (rs_cookies r ++ [ss]).
Definition rs_dump (r : HttpResponse) : str :=
  print_version (rs_version r) ++ text " " ++ print_num 10 (u32 (rs_status r)) ++ text " " ++
  (if bool_decide (rs_reason r = []) then HttpStatusToString (rs_status r) else rs_reason r) ++ crlf ++
  print_headers (rs_websocket r) (rs_headers r) ++ (rs_cookies r ≫= header_line (text "Set-Cookie")) ++
  (if rs_websocket r then [] else connection_line (rs_close r)) ++ print_body (rs_body r).
