(* ===== verification/Config.v ===== *)
(** * Configuration (Sylar/config.h, config.cc)

    Typed variables with listeners, the table of variables by name, and the
    loading of YAML trees and of directories of YAML files. yaml-cpp and
    boost::lexical_cast are arguments: [Load] and [emit] read and print a
    node, [node_elements] and [node_entries] iterate over one, [cast] and
    [print] convert the types without a container. A variable is found by its
    number, which stands for the shared pointer to it. *)
From Stdlib Require Import ZArith Lia Strings.Byte Sorting.Sorted.
From Stdlib Require Import (notations) Strings.String.
From stdpp Require Import base list sorting gmap list_numbers numbers.
From S2P Require Import Prelude OrderedSet Text Address LogFormat Http SortedMap.
#[local] Open Scope byte_scope.
Local Open Scope nat_scope.

(** ** YAML nodes *)
#[warnings="-register-all"]
Inductive yaml := YNull | YScalar (s : str) | YSequence (l : list yaml) | YMap (l : list (str * yaml)).
Section yaml_ind.
Context (P : yaml → Prop) (HN : P YNull) (HS : ∀ s, P (YScalar s)) (HQ : ∀ l, Forall P l → P (YSequence l)) (HM : ∀ l, Forall (λ p, P p.2) l → P (YMap l)).
Fixpoint yaml_nested_ind (n : yaml) : P n :=
  match n with
  | YNull => HN
  | YScalar s => HS s
  | YSequence l => HQ l ((fix go l : Forall P l := match l with [] => Forall_nil_2 P | n :: l => Forall_cons_2 P n l (yaml_nested_ind n) (go l) end) l)
  | YMap l => HM l ((fix go l : Forall (λ p, P p.2) l := match l with [] => Forall_nil_2 _ | p :: l => Forall_cons_2 (λ p, P p.2) p l (yaml_nested_ind p.2) (go l) end) l)
  end.
End yaml_ind.

(** ** Types and values

    [B] are the values of the types without a container, [btype] their type. *)
Inductive ty (bty : Type) := TBase (b : bty) | TVector (t : ty bty) | TUSet (b : bty) | TMap (t : ty bty) | TUMap (t : ty bty).
Arguments TBase {bty} b.
Arguments TVector {bty} t.
Arguments TUSet {bty} b.
Arguments TMap {bty} t.
Arguments TUMap {bty} t.
#[export] Instance ty_eq_dec {bty} `{!EqDecision bty} : EqDecision (ty bty).
Proof. solve_decision. Defined.
(** The two kinds of maps are the list of their entries by key. *)
#[warnings="-register-all"]
Inductive value (B : Type) `{Countable B} := VBase (x : B) | VVector (l : list (value B)) | VUSet (s : gset B) | VMap (l : list (str * value B)) | VUMap (l : list (str * value B)).
Arguments VBase {B _ _} x.
Arguments VVector {B _ _} l.
Arguments VUSet {B _ _} s.
Arguments VMap {B _ _} l.
Arguments VUMap {B _ _} l.
Section values.
Context {B : Type} `{Countable B}.
Section value_ind.
Context (P : value B → Prop) (HB : ∀ x, P (VBase x)) (HV : ∀ l, Forall P l → P (VVector l)) (HS : ∀ s, P (VUSet s)).
Context (HM : ∀ l, Forall (λ p, P p.2) l → P (VMap l)) (HU : ∀ l, Forall (λ p, P p.2) l → P (VUMap l)).
Fixpoint value_nested_ind (v : value B) : P v :=
  let entries := fix go l : Forall (λ p, P p.2) l := match l with [] => Forall_nil_2 _ | p :: l => Forall_cons_2 (λ p, P p.2) p l (value_nested_ind p.2) (go l) end in
  match v with
  | VBase x => HB x
  | VVector l => HV l ((fix go l : Forall P l := match l with [] => Forall_nil_2 P | v :: l => Forall_cons_2 P v l (value_nested_ind v) (go l) end) l)
  | VUSet s => HS s
  | VMap l => HM l (entries l)
  | VUMap l => HU l (entries l)
  end.
End value_ind.
(** operator== *)
Fixpoint value_eqb (v w : value B) : bool :=
  let entries := fix go (l m : list (str * value B)) : bool :=
    match l, m with [], [] => true | (j, v) :: l, (k, w) :: m => bool_decide (j = k) && value_eqb v w && go l m | _, _ => false end in
  match v, w with
  | VBase x, VBase y => bool_decide (x = y)
  | VVector l, VVector m =>
    (fix go (l m : list (value B)) : bool := match l, m with [], [] => true | v :: l, w :: m => value_eqb v w && go l m | _, _ => false end) l m
  | VUSet s, VUSet t => bool_decide (s = t)
  | VMap l, VMap m | VUMap l, VUMap m => entries l m
  | _, _ => false
  end.
Lemma value_eqb_eq v w : value_eqb v w = true ↔ v = w.
Proof.
  revert w. induction v as [x|l IH|s|l IH|l IH] using value_nested_ind; intros [y|m|t|m|m]; cbn; try done.
  - rewrite bool_decide_eq_true. naive_solver.
  - trans (l = m); [|naive_solver]. revert m. induction IH as [|v l Hv _ IHl]; intros [|w m]; try done. rewrite andb_true_iff, Hv, IHl. naive_solver.
  - rewrite bool_decide_eq_true. naive_solver.
  - trans (l = m); [|naive_solver]. revert m. induction IH as [|[j v] l Hv _ IHl]; intros [|[k w] m]; try done. rewrite !andb_true_iff, bool_decide_eq_true, Hv, IHl. naive_solver.
  - trans (l = m); [|naive_solver]. revert m. induction IH as [|[j v] l Hv _ IHl]; intros [|[k w] m]; try done. rewrite !andb_true_iff, bool_decide_eq_true, Hv, IHl. naive_solver.
Qed.
End values.

(** ** Variables and their table *)
Inductive thrown := StdException | OtherException.
Record ConfigVar (bty B : Type) `{Countable B} := mkVar { cv_name : str; cv_description : str; cv_type : ty bty; cv_val : value B; cv_cbs : list (Z * nat) }.
Arguments mkVar {bty B _ _} cv_name cv_description cv_type cv_val cv_cbs.
Arguments cv_name {bty B _ _} c.
Arguments cv_description {bty B _ _} c.
Arguments cv_type {bty B _ _} c.
Arguments cv_val {bty B _ _} c.
Arguments cv_cbs {bty B _ _} c.
(** A call of a listener: the variable, the number and the function of the
    listener, the old value and the new one. *)
Record call (B : Type) `{Countable B} := mkCall { call_var : nat; call_id : Z; call_cb : nat; call_old : value B; call_new : value B }.
Arguments mkCall {B _ _} call_var call_id call_cb call_old call_new.
Arguments call_var {B _ _} c.
Arguments call_id {B _ _} c.
Arguments call_cb {B _ _} c.
Arguments call_old {B _ _} c.
Arguments call_new {B _ _} c.
(** GetDatas and the variables it owns, s_fun_id of each type, the calls of
    listeners so far, s_file2modifytime. *)
Record config (bty B : Type) `{Countable B} := mkConfig {
  c_vars : list (ConfigVar bty B); GetDatas : list (str * nat); s_fun_id : list (ty bty * Z); c_calls : list (call B); s_file2modifytime : list (str * Z)
}.
Arguments mkConfig {bty B _ _} c_vars GetDatas s_fun_id c_calls s_file2modifytime.
Arguments c_vars {bty B _ _} c.
Arguments GetDatas {bty B _ _} c.
Arguments s_fun_id {bty B _ _} c.
Arguments c_calls {bty B _ _} c.
Arguments s_file2modifytime {bty B _ _} c.
Inductive lookup_result := Found (p : nat) | NullPtr | InvalidArgument.

(** Files as LoadFromConfDir finds them: the time of the last change, and the
    node YAML::LoadFile reads, [None] when it throws. A directory that cannot
    be opened has no entries. *)
Record file := mkFile { f_mtime : Z; f_root : option yaml }.
#[warnings="-register-all"]
Inductive dirent := DT_DIR (name : str) (sub : option (list dirent)) | DT_REG (name : str) (f : file) | DT_OTHER (name : str).

Definition name_chars : str := text "abcdefghikjlmnopqrstuvwxyz._012345678".
Definition valid_name (s : str) : bool := forallb (λ b, bool_decide (b ∈ name_chars)) s.
Definition ends_with (subfix filename : str) : bool :=
  negb (length filename <? length subfix) && bool_decide (drop (length filename - length subfix) filename = subfix).
Fixpoint list_entry (subfix path : str) (d : dirent) : list (str * file) :=
  match d with
  | DT_DIR name sub =>
    if bool_decide (name = text ".") || bool_decide (name = text "..") then []
    else match sub with
         | None => []
         | Some ds => (fix go ds := match ds with [] => [] | d :: ds => list_entry subfix (path ++ text "/" ++ name) d ++ go ds end) ds
         end
  | DT_REG name f => if bool_decide (subfix = []) || ends_with subfix name then [(path ++ text "/" ++ name, f)] else []
  | DT_OTHER _ => []
  end.
Definition ListAllFile (subfix path : str) (dir : option (list dirent)) : list (str * file) :=
  match dir with None => [] | Some ds => concat (list_entry subfix path <$> ds) end.

Definition extend (prefix key : str) : str := if bool_decide (prefix = []) then key else prefix ++ text "." ++ key.
Fixpoint ListAllMember (prefix : str) (node : yaml) : list (str * yaml) :=
  if negb (valid_name prefix) then []
  else (prefix, node) ::
    match node with
    | YMap l => (fix go l := match l with [] => [] | (k, n) :: l => ListAllMember (extend prefix k) n ++ go l end) l
    | _ => []
    end.

Section config.
Context {bty B : Type} `{!EqDecision bty} `{Countable B} (btype : B → bty).
Context (Load : str → option yaml) (emit : yaml → str) (node_elements : yaml → option (list str)) (node_entries : yaml → option (list (str * str))).
Context (cast : bty → str → option B) (print : B → option str).
(** The order in which the unordered containers are walked, and what a
    listener does when it is called. *)
Context (set_order : gset B → list B) (map_order : list (str * value B) → list (str * value B)).
Context (run_cb : nat → value B → value B → option thrown).
Abbreviation cfg := (config bty B).
Implicit Types (c : cfg) (p : nat) (t : ty bty) (v w : value B) (x : ConfigVar bty B).

(** The values of a type, with [ok] what the values without a container are. *)
Fixpoint typed_by (ok : bty → B → Prop) (t : ty bty) (v : value B) : Prop :=
  match t, v with
  | TBase b, VBase y => ok b y
  | TVector t, VVector l => Forall (typed_by ok t) l
  | TUSet b, VUSet s => set_Forall (ok b) s
  | TMap t, VMap l | TUMap t, VUMap l => sm_sorted str_lt l ∧ Forall (λ e, typed_by ok t e.2) l
  | _, _ => False
  end.
Abbreviation has_type := (typed_by (λ b y, btype y = b)).

(** *** LexicalCast *)
Definition vector_of_string (from : str → option (value B)) (s : str) : option (value B) :=
  n ← Load s; es ← node_elements n; VVector <$> mapM from es.
Definition string_of_vector (to : value B → option str) (l : list (value B)) : option str :=
  (λ ns, emit (YSequence ns)) <$> mapM (λ v, s ← to v; Load s) l.
Definition uset_of_string (from : str → option B) (s : str) : option (value B) :=
  n ← Load s; es ← node_elements n; (λ xs, VUSet (list_to_set xs)) <$> mapM from es.
Definition string_of_uset (to : B → option str) (xs : gset B) : option str :=
  (λ ns, emit (YSequence ns)) <$> mapM (λ y, s ← to y; Load s) (set_order xs).
Definition map_of_string (from : str → option (value B)) (s : str) : option (value B) :=
  n ← Load s; es ← node_entries n; (λ l, VMap (sm_of_list str_lt l)) <$> mapM (λ e, pair e.1 <$> from e.2) es.
Definition string_of_map (to : value B → option str) (l : list (str * value B)) : option str :=
  (λ es, emit (YMap (foldl (λ m e, al_set e.1 e.2 m) [] es))) <$> mapM (λ e, s ← to e.2; pair e.1 <$> Load s) l.
Definition umap_of_string (from : str → option (value B)) (s : str) : option (value B) :=
  n ← Load s; es ← node_entries n; (λ l, VUMap (sm_of_list str_lt l)) <$> mapM (λ e, pair e.1 <$> from e.2) es.
Definition string_of_umap (to : value B → option str) (l : list (str * value B)) : option str :=
  (λ es, emit (YMap (foldl (λ m e, al_set e.1 e.2 m) [] es))) <$> mapM (λ e, s ← to e.2; pair e.1 <$> Load s) (map_order l).
Fixpoint from_str (t : ty bty) (s : str) : option (value B) :=
  match t with
  | TBase b => VBase <$> cast b s
  | TVector t => vector_of_string (from_str t) s
  | TUSet b => uset_of_string (cast b) s
  | TMap t => map_of_string (from_str t) s
  | TUMap t => umap_of_string (from_str t) s
  end.
Fixpoint to_str (t : ty bty) (v : value B) : option str :=
  match t, v with
  | TBase _, VBase y => print y
  | TVector t, VVector l => string_of_vector (to_str t) l
  | TUSet _, VUSet xs => string_of_uset print xs
  | TMap t, VMap l => string_of_map (to_str t) l
  | TUMap t, VUMap l => string_of_umap (to_str t) l
  | _, _ => None
  end.

(** *** ConfigVar *)
Definition ConfigVarBase_name (name : str) : str := tolower <$> name.
Definition ConfigVar_new (name : str) (t : ty bty) (default_value : value B) (description : str) : ConfigVar bty B :=
  mkVar (ConfigVarBase_name name) description t default_value [].
Definition with_vars (f : list (ConfigVar bty B) → list (ConfigVar bty B)) c : cfg := mkConfig (f (c_vars c)) (GetDatas c) (s_fun_id c) (c_calls c) (s_file2modifytime c).
Definition with_calls (f : list (call B) → list (call B)) c : cfg := mkConfig (c_vars c) (GetDatas c) (s_fun_id c) (f (c_calls c)) (s_file2modifytime c).
Definition with_times (f : list (str * Z) → list (str * Z)) c : cfg := mkConfig (c_vars c) (GetDatas c) (s_fun_id c) (c_calls c) (f (s_file2modifytime c)).
Definition set_val v x : ConfigVar bty B := mkVar (cv_name x) (cv_description x) (cv_type x) v (cv_cbs x).
Definition set_cbs f x : ConfigVar bty B := mkVar (cv_name x) (cv_description x) (cv_type x) (cv_val x) (f (cv_cbs x)).
Definition cv_getValue p c : option (value B) := cv_val <$> c_vars c !! p.
Fixpoint notify p (cbs : list (Z * nat)) (old new : value B) : list (call B) * option thrown :=
  match cbs with
  | [] => ([], None)
  | (id, cb) :: cbs =>
    match run_cb cb old new with
    | Some e => ([mkCall p id cb old new], Some e)
    | None => let (calls, e) := notify p cbs old new in (mkCall p id cb old new :: calls, e)
    end
  end.
(** The listeners run before the value is stored; one that throws leaves the
    old value. *)
Definition setValue p v c : cfg * option thrown :=
  match c_vars c !! p with
  | None => (c, None)
  | Some x =>
    if value_eqb v (cv_val x) then (c, None)
    else
      let (calls, e) := notify p (cv_cbs x) (cv_val x) v in
      let c := with_calls (λ l, l ++ calls) c in
      match e with Some e => (c, Some e) | None => (with_vars (alter (set_val v) p) c, None) end
  end.
Definition cv_toString p c : str := match c_vars c !! p with None => [] | Some x => default [] (to_str (cv_type x) (cv_val x)) end.
Definition fromString p (val : str) c : cfg * (bool + thrown) :=
  match c_vars c !! p with
  | None => (c, inl false)
  | Some x =>
    match from_str (cv_type x) val with
    | None => (c, inl false)
    | Some v => match setValue p v c with (c, Some OtherException) => (c, inr OtherException) | (c, _) => (c, inl false) end
    end
  end.
Definition addListener p (cb : nat) c : cfg * Z :=
  match c_vars c !! p with
  | None => (c, 0%Z)
  | Some x =>
    let id := uwrap 64 (default 0%Z (al_find (cv_type x) (s_fun_id c)) + 1) in
    (mkConfig (alter (set_cbs (sm_set Z.ltb id cb)) p (c_vars c)) (GetDatas c) (al_set (cv_type x) id (s_fun_id c)) (c_calls c) (s_file2modifytime c), id)
  end.
Definition delListener p (key : Z) c : cfg := with_vars (alter (set_cbs (sm_erase key)) p) c.
Definition getListener p (key : Z) c : option nat := x ← c_vars c !! p; al_find key (cv_cbs x).
Definition clearListener p c : cfg := with_vars (alter (set_cbs (λ _, [])) p) c.

(** *** Config *)
Definition Lookup_or_create t (name : str) (default_value : value B) (description : str) c : cfg * lookup_result :=
  match al_find name (GetDatas c) with
  | Some p => (c, if bool_decide (cv_type <$> c_vars c !! p = Some t) then Found p else NullPtr)
  | None =>
    if negb (valid_name name) then (c, InvalidArgument)
    else (mkConfig (c_vars c ++ [ConfigVar_new name t default_value description]) (al_set name (length (c_vars c)) (GetDatas c)) (s_fun_id c) (c_calls c) (s_file2modifytime c), Found (length (c_vars c)))
  end.
Definition Config_Lookup t (name : str) c : lookup_result :=
  match al_find name (GetDatas c) with
  | Some p => if bool_decide (cv_type <$> c_vars c !! p = Some t) then Found p else NullPtr
  | None => NullPtr
  end.
Definition LookupBase (name : str) c : option nat := al_find name (GetDatas c).
Definition Visit {A} (cb : A → nat → A) (a : A) c : A := foldl cb a (GetDatas c).*2.
Definition node_text (n : yaml) : str := match n with YScalar s => s | n => emit n end.
Fixpoint load_nodes (all_nodes : list (str * yaml)) c : cfg * option thrown :=
  match all_nodes with
  | [] => (c, None)
  | (key, n) :: all_nodes =>
    if bool_decide (key = []) then load_nodes all_nodes c
    else match LookupBase (tolower <$> key) c with
         | None => load_nodes all_nodes c
         | Some p => match fromString p (node_text n) c with (c, inr e) => (c, Some e) | (c, inl _) => load_nodes all_nodes c end
         end
  end.
Definition LoadFromYaml (root : yaml) c : cfg * option thrown := load_nodes (ListAllMember [] root) c.
Definition load_file (force : bool) (i : str) (st : file) c : cfg :=
  let c := if force then c else with_times (sm_insert str_lt i 0%Z) c in
  if negb force && bool_decide (al_find i (s_file2modifytime c) = Some (uwrap 64 (f_mtime st))) then c
  else
    let c := with_times (sm_set str_lt i (uwrap 64 (f_mtime st))) c in
    match f_root st with None => c | Some root => (LoadFromYaml root c).1 end.
(** [dir] is the directory at the absolute path of [path]. *)
Definition LoadFromConfDir (absolute_path : str) (dir : option (list dirent)) (force : bool) c : cfg :=
  foldl (λ c f, load_file force f.1 f.2 c) c (ListAllFile (text ".yml") absolute_path dir).
Definition config_init : cfg := mkConfig [] [] [] [] [].

(** ** Steps of the configuration

    Every operation is a sequence of small changes: a value is assigned and
    its listeners told, the listeners of a variable change, a variable is
    made, the times of files change. *)
Inductive assign c : cfg → Prop :=
  | assign_value p x v : c_vars c !! p = Some x → has_type (cv_type x) v → assign c (setValue p v c).1
  | assign_times r i z : assign c (with_times (sm_put str_lt r i z) c).
Inductive change c : cfg → Prop :=
  | change_assign c' : assign c c' → change c c'
  | change_add p cb : change c (addListener p cb c).1
  | change_del p key : change c (delListener p key c)
  | change_clear p : change c (clearListener p c)
  | change_create t name v d : has_type t v → change c (Lookup_or_create t name v d c).1.

Context (cast_type : ∀ b s y, cast b s = Some y → btype y = b).
Lemma mapM_types {A C} (f : A → option C) (P : C → Prop) l r : (∀ a y, f a = Some y → P y) → mapM f l = Some r → Forall P r.
Proof. intros Hf Hm%mapM_Some. induction Hm; constructor; eauto. Qed.
Lemma entries_type {A} (f : A → option (value B)) (key : A → str) t es l : (∀ a v, f a = Some v → has_type t v) →
  mapM (λ a, pair (key a) <$> f a) es = Some l → Forall (λ e, has_type t e.2) (sm_of_list str_lt l).
Proof. intros Hf Hl. apply (sm_of_list_values str_lt (has_type t)). eapply mapM_types; [|exact Hl]. cbn. intros a e (w & Hw & ->)%fmap_Some. by eapply Hf. Qed.
Lemma from_str_type t s v : from_str t s = Some v → has_type t v.
Proof.
  revert s v. induction t as [b|t IH|b|t IH|t IH]; intros s v; cbn [from_str]; unfold vector_of_string, uset_of_string, map_of_string, umap_of_string.
  - intros (y & Hy & ->)%fmap_Some. cbn. by eapply cast_type.
  - intros (n & _ & (es & _ & (vs & Hvs & ->)%fmap_Some)%bind_Some)%bind_Some. cbn. by eapply mapM_types.
  - intros (n & _ & (es & _ & (vs & Hvs & ->)%fmap_Some)%bind_Some)%bind_Some. cbn. intros y Hy%elem_of_list_to_set. apply list_elem_of_lookup_1 in Hy as [i Hy].
    assert (Hf : Forall (λ y, btype y = b) vs) by (eapply mapM_types; [|exact Hvs]; intros a z; apply cast_type). by apply (Forall_lookup_1 _ _ _ _ Hf Hy).
  - intros (n & _ & (es & _ & (vs & Hvs & ->)%fmap_Some)%bind_Some)%bind_Some. cbn. split; [apply (sm_of_list_sorted str_lt)|]. eapply (entries_type (λ e : str * str, from_str t e.2) fst); [|exact Hvs]. intros a w. apply IH.
  - intros (n & _ & (es & _ & (vs & Hvs & ->)%fmap_Some)%bind_Some)%bind_Some. cbn. split; [apply (sm_of_list_sorted str_lt)|]. eapply (entries_type (λ e : str * str, from_str t e.2) fst); [|exact Hvs]. intros a w. apply IH.
Qed.

Lemma fromString_assigns p s c : rtc assign c (fromString p s c).1.
Proof.
  unfold fromString. destruct (c_vars c !! p) as [x|] eqn:Ep; [|done]. destruct (from_str (cv_type x) s) as [v|] eqn:Ev; [|done]. apply from_str_type in Ev.
  pose proof (assign_value c p x v Ep Ev) as Hc. destruct (setValue p v c) as [c' [[]|]]; cbn in *; by apply rtc_once.
Qed.
Lemma load_nodes_assigns l c : rtc assign c (load_nodes l c).1.
Proof.
  revert c. induction l as [|[k n] l IH]; intros c; cbn [load_nodes]; [done|]. case_bool_decide; [apply IH|]. destruct (LookupBase _ c) as [p|]; [|apply IH].
  pose proof (fromString_assigns p (node_text n) c) as Hf. destruct (fromString p (node_text n) c) as [c' [b|e]]; cbn in *; [|done]. etrans; [exact Hf|apply IH].
Qed.
Lemma load_file_assigns force i st c : rtc assign c (load_file force i st c).
Proof.
  unfold load_file. set (c1 := if force then c else _). assert (H1 : rtc assign c c1) by (subst c1; destruct force; [done|apply rtc_once; constructor]). etrans; [exact H1|]. clearbody c1.
  destruct (negb force && _); [done|]. eapply rtc_l; [apply (assign_times c1)|]. destruct (f_root st); [apply load_nodes_assigns|done].
Qed.
Lemma LoadFromConfDir_assigns path dir force c : rtc assign c (LoadFromConfDir path dir force c).
Proof.
  unfold LoadFromConfDir. generalize (ListAllFile (text ".yml") path dir). intros l. revert c. induction l as [|f l IH]; intros c; cbn; [done|]. etrans; [apply load_file_assigns|apply IH].
Qed.

Lemma assigns_change c c' : rtc assign c c' → rtc change c c'.
Proof. apply rtc_subrel. intros c1 c2. apply change_assign. Qed.

(** ** Types

    Client code holds typed pointers: those Lookup gave it. *)
Definition held (r : lookup_result) (t : ty bty) (hs : list (nat * ty bty)) : list (nat * ty bty) := match r with Found p => (p, t) :: hs | _ => hs end.
Inductive cfg_step : cfg * list (nat * ty bty) → cfg * list (nat * ty bty) → Prop :=
  | step_create t name v d c hs : has_type t v →
      cfg_step (c, hs) ((Lookup_or_create t name v d c).1, held (Lookup_or_create t name v d c).2 t hs)
  | step_lookup t name c hs : cfg_step (c, hs) (c, held (Config_Lookup t name c) t hs)
  | step_set p t v c hs : (p, t) ∈ hs → has_type t v → cfg_step (c, hs) ((setValue p v c).1, hs)
  | step_from p t s c hs : (p, t) ∈ hs → cfg_step (c, hs) ((fromString p s c).1, hs)
  | step_add p t cb c hs : (p, t) ∈ hs → cfg_step (c, hs) ((addListener p cb c).1, hs)
  | step_del p t key c hs : (p, t) ∈ hs → cfg_step (c, hs) (delListener p key c, hs)
  | step_clear p t c hs : (p, t) ∈ hs → cfg_step (c, hs) (clearListener p c, hs)
  | step_load root c hs : cfg_step (c, hs) ((LoadFromYaml root c).1, hs)
  | step_dir path dir force c hs : cfg_step (c, hs) (LoadFromConfDir path dir force c, hs).

Definition typed_call c (k : call B) : Prop := ∃ x, c_vars c !! call_var k = Some x ∧ has_type (cv_type x) (call_old k) ∧ has_type (cv_type x) (call_new k).
Record CfgInv c : Prop := {
  ci_type p x : c_vars c !! p = Some x → has_type (cv_type x) (cv_val x);
  ci_table name p : al_find name (GetDatas c) = Some p → ∃ x, c_vars c !! p = Some x ∧ cv_name x = name;
  ci_var p x : c_vars c !! p = Some x → al_find (cv_name x) (GetDatas c) = Some p ∧ valid_name (cv_name x) = true;
  ci_cbs p x : c_vars c !! p = Some x → sm_sorted Z.ltb (cv_cbs x);
  ci_calls : Forall (typed_call c) (c_calls c);
  ci_times : sm_sorted str_lt (s_file2modifytime c)
}.
Definition grows c c' : Prop := ∀ p x, c_vars c !! p = Some x → ∃ x', c_vars c' !! p = Some x' ∧ cv_type x' = cv_type x ∧ cv_name x' = cv_name x.
#[local] Instance grows_preorder : PreOrder grows.
Proof.
  split; [by intros c p x Hx; exists x|]. intros c1 c2 c3 H1 H2 p x Hx. destruct (H1 p x Hx) as (x2 & Hx2 & T2 & N2). destruct (H2 p x2 Hx2) as (x3 & Hx3 & T3 & N3). exists x3. split_and!; congruence.
Qed.
Lemma name_chars_lower : Forall (λ b, tolower b = b) name_chars.
Proof. apply (bool_decide_eq_true_1 _). vm_compute. reflexivity. Qed.
Lemma valid_lower s : valid_name s = true → tolower <$> s = s.
Proof.
  induction s as [|b s IH]; [done|]. cbn. intros [Hb Hs]%andb_true_iff. rewrite bool_decide_eq_true in Hb. apply list_elem_of_lookup_1 in Hb as [i Hb]. rewrite (Forall_lookup_1 _ _ _ _ name_chars_lower Hb), IH by done. done.
Qed.
Lemma typed_call_grows c c' k : grows c c' → typed_call c k → typed_call c' k.
Proof. intros HG (x & Hx & H1 & H2). destruct (HG _ _ Hx) as (x' & Hx' & T & _). exists x'. by rewrite T. Qed.
Lemma notify_calls p cbs old new k : k ∈ (notify p cbs old new).1 → call_var k = p ∧ call_old k = old ∧ call_new k = new.
Proof.
  induction cbs as [|[id cb] cbs IH]; cbn [notify]; [by intros ?%elem_of_nil|]. destruct (run_cb cb old new); cbn; [by intros ->%list_elem_of_singleton|].
  destruct (notify p cbs old new) as [calls e]; cbn in *. intros [->|Hk]%elem_of_cons; [done|by apply IH].
Qed.
(** A change of one variable keeps the rest. *)
Lemma update_inv c p f calls ids : CfgInv c →
  (∀ x, c_vars c !! p = Some x → cv_name (f x) = cv_name x ∧ cv_type (f x) = cv_type x ∧ has_type (cv_type x) (cv_val (f x)) ∧ (sm_sorted Z.ltb (cv_cbs x) → sm_sorted Z.ltb (cv_cbs (f x)))) →
  Forall (typed_call c) calls →
  let c' := mkConfig (alter f p (c_vars c)) (GetDatas c) ids (c_calls c ++ calls) (s_file2modifytime c) in CfgInv c' ∧ grows c c'.
Proof.
  intros [H1 H2 H3 H4 H5 H6] Hf Hk c'. assert (HG : grows c c').
  { intros q x Hx. cbn. destruct (decide (p = q)) as [<-|Hne]; [rewrite list_lookup_alter_eq, Hx; exists (f x); split; [done|]; by destruct (Hf x Hx) as (? & ? & _)|rewrite list_lookup_alter_ne by done; by exists x]. }
  assert (Hat : ∀ q x, c_vars c' !! q = Some x → ∃ x0, c_vars c !! q = Some x0 ∧ (x = x0 ∨ p = q ∧ x = f x0)).
  { intros q x. cbn. destruct (decide (p = q)) as [<-|Hne]; [rewrite list_lookup_alter_eq|rewrite list_lookup_alter_ne by done; naive_solver]. intros (x0 & -> & ->)%fmap_Some. naive_solver. }
  split; [|done]. split.
  - intros q x Hx. destruct (Hat q x Hx) as (x0 & Hx0 & [->|[-> ->]]); [by eapply H1|]. destruct (Hf x0 Hx0) as (_ & -> & ? & _). done.
  - intros name q Hq. destruct (H2 name q Hq) as (x & Hx & Hn). destruct (HG q x Hx) as (x' & Hx' & _ & Hn'). exists x'. split; [done|congruence].
  - intros q x Hx. destruct (Hat q x Hx) as (x0 & Hx0 & [->|[-> ->]]); [by eapply H3|]. destruct (Hf x0 Hx0) as (-> & _). by eapply H3.
  - intros q x Hx. destruct (Hat q x Hx) as (x0 & Hx0 & [->|[-> ->]]); [by eapply H4|]. destruct (Hf x0 Hx0) as (_ & _ & _ & Hs). by eapply Hs, H4.
  - cbn. apply Forall_app. split; (eapply Forall_impl; [|eassumption]); intros k; by apply typed_call_grows.
  - done.
Qed.
Lemma create_inv t name v d c : CfgInv c → has_type t v → CfgInv (Lookup_or_create t name v d c).1 ∧ grows c (Lookup_or_create t name v d c).1.
Proof.
  intros HI Hv. unfold Lookup_or_create. destruct (al_find name (GetDatas c)) as [p|] eqn:Ep; [done|]. destruct (valid_name name) eqn:En; cbn; [|done]. destruct HI as [H1 H2 H3 H4 H5 H6].
  set (x := ConfigVar_new name t v d). set (c' := mkConfig _ _ _ _ _). assert (Hn : cv_name x = name) by (by apply valid_lower).
  assert (HG : grows c c') by (intros p y Hy; exists y; split; [by apply lookup_app_l_Some|done]).
  assert (Hat : ∀ q y, c_vars c' !! q = Some y → c_vars c !! q = Some y ∨ q = length (c_vars c) ∧ y = x).
  { intros q y [Hq|[Hle Hq]]%lookup_app_Some; [by left|]. apply list_lookup_singleton_Some in Hq as [Hq <-]. right. split; [lia|done]. }
  split; [|done]. split.
  - intros q y [Hy|[-> ->]]%Hat; [by eapply H1|done].
  - intros n q. unfold c'. cbn [GetDatas]. rewrite al_find_set. destruct (decide (name = n)) as [<-|]; [|intros Hq; destruct (H2 n q Hq) as (y & Hy & Hyn); exists y; split; [by apply lookup_app_l_Some|done]].
    intros [= <-]. exists x. split; [by apply list_lookup_middle|done].
  - intros q y Hy. unfold c'. cbn [GetDatas]. rewrite al_find_set. apply Hat in Hy as [Hy|[-> ->]]; [|by rewrite Hn, decide_True]. destruct (H3 q y Hy) as [Hf Hval]. rewrite decide_False; [done|]. intros ->. congruence.
  - intros q y [Hy|[-> ->]]%Hat; [by eapply H4|constructor].
  - cbn. eapply Forall_impl; [|eassumption]. intros k. by apply typed_call_grows.
  - done.
Qed.
Lemma change_inv c c' : CfgInv c → change c c' → CfgInv c' ∧ grows c c'.
Proof.
  intros HI Hc. destruct Hc as [c' [p x v Hx Hv|r i z]|p cb|p key|p|t name v d Hv].
  - unfold setValue. rewrite Hx. destruct (value_eqb v (cv_val x)); [done|]. destruct (notify p (cv_cbs x) (cv_val x) v) as [calls e] eqn:En.
    assert (Hk : Forall (typed_call c) calls).
    { apply Forall_lookup_2. intros i k Hk%list_elem_of_lookup_2. replace calls with (notify p (cv_cbs x) (cv_val x) v).1 in Hk by (by rewrite En). apply notify_calls in Hk as (Ek & Eo & Ew).
      exists x. rewrite Ek, Eo, Ew. split_and!; [done| |done]. by eapply ci_type. }
    destruct e; cbn [fst].
    + pose proof (update_inv c p (λ x, x) calls (s_fun_id c) HI) as Hu. rewrite list_alter_id in Hu by done. apply Hu; [|done]. intros y Hy. split_and!; [done|done|exact (ci_type c HI _ _ Hy)|done].
    + apply (update_inv c p (set_val v) calls (s_fun_id c) HI); [|done]. intros y Hy. rewrite Hx in Hy. injection Hy as <-. done.
  - split; [|by intros p x Hx; exists x]. destruct HI as [H1 H2 H3 H4 H5 H6]. split; try done. by apply (sm_put_sorted str_lt).
  - unfold addListener. destruct (c_vars c !! p) as [x|] eqn:Hx; [|done]. cbn [fst]. set (id := uwrap 64 _). pose proof (update_inv c p (set_cbs (sm_set Z.ltb id cb)) [] (al_set (cv_type x) id (s_fun_id c)) HI) as Hu. rewrite app_nil_r in Hu. apply Hu; [|constructor].
    intros y Hy. split_and!; [done|done|exact (ci_type c HI _ _ Hy)|]. intros Hs. by apply (sm_put_sorted Z.ltb).
  - pose proof (update_inv c p (set_cbs (sm_erase key)) [] (s_fun_id c) HI) as Hu. rewrite app_nil_r in Hu. apply Hu; [|constructor].
    intros y Hy. split_and!; [done|done|exact (ci_type c HI _ _ Hy)|]. intros Hs. by apply (sm_erase_sorted Z.ltb).
  - pose proof (update_inv c p (set_cbs (λ _, [])) [] (s_fun_id c) HI) as Hu. rewrite app_nil_r in Hu. apply Hu; [|constructor].
    intros y Hy. split_and!; [done|done|exact (ci_type c HI _ _ Hy)|]. intros _. constructor.
  - by apply create_inv.
Qed.
Lemma changes_inv c c' : CfgInv c → rtc change c c' → CfgInv c' ∧ grows c c'.
Proof.
  intros HI Hr. induction Hr as [c|c c1 c' Hc _ IH]; [done|]. destruct (change_inv c c1 HI Hc) as [HI1 HG1]. destruct (IH HI1) as [HI' HG']. split; [done|by etrans].
Qed.
Lemma init_inv : CfgInv config_init.
Proof. split; [done|done|done|done|constructor|constructor]. Qed.
Definition Holds c (h : nat * ty bty) : Prop := ∃ x, c_vars c !! h.1 = Some x ∧ cv_type x = h.2.
Lemma holds_grows c c' h : grows c c' → Holds c h → Holds c' h.
Proof. intros HG (x & Hx & T). destruct (HG _ _ Hx) as (x' & Hx' & T' & _). exists x'. split; [done|congruence]. Qed.
Lemma lookup_holds c hs t p : CfgInv c → cv_type <$> c_vars c !! p = Some t → Forall (Holds c) hs → Forall (Holds c) ((p, t) :: hs).
Proof. intros HI (x & Hx & ->)%fmap_Some Hh. constructor; [by exists x|done]. Qed.
Lemma step_changes c hs c' hs' : CfgInv c → Forall (Holds c) hs → cfg_step (c, hs) (c', hs') → rtc change c c' ∧ Forall (Holds c') hs'.
Proof.
  intros HI Hh Hs. assert (Hframe : rtc change c c' → Forall (Holds c') hs).
  { intros Hr. destruct (changes_inv c c' HI Hr) as [_ HG]. eapply Forall_impl; [|exact Hh]. intros h. by apply holds_grows. }
  inversion Hs; subst; clear Hs.
  - assert (Hr : rtc change c (Lookup_or_create t name v d c).1) by (apply rtc_once; by apply change_create). split; [done|]. specialize (Hframe Hr). destruct (Lookup_or_create t name v d c) as [c' r] eqn:El. cbn [fst snd] in *.
    destruct r as [p| |]; cbn [held]; [|done|done]. apply lookup_holds; [by eapply changes_inv| |done]. unfold Lookup_or_create in El. destruct (al_find name (GetDatas c)) as [q|].
    + case_bool_decide; naive_solver.
    + destruct (valid_name name); [|done]. cbn in El. injection El as <- <-. cbn. by rewrite list_lookup_middle.
  - split; [done|]. unfold Config_Lookup. destruct (al_find name (GetDatas c')) as [q|]; [|done]. case_bool_decide; [|done]. by apply lookup_holds.
  - match goal with Hp : (p, t) ∈ _ |- _ => apply list_elem_of_lookup_1 in Hp as [i Hi] end. destruct (Forall_lookup_1 _ _ _ _ Hh Hi) as (x & Hx & T). cbn in Hx, T. subst t. split; [|apply Hframe]; apply rtc_once; constructor; by eapply assign_value.
  - split; [|apply Hframe]; apply assigns_change, fromString_assigns.
  - split; [|apply Hframe]; apply rtc_once; apply change_add.
  - split; [|apply Hframe]; apply rtc_once; apply change_del.
  - split; [|apply Hframe]; apply rtc_once; apply change_clear.
  - split; [|apply Hframe]; apply assigns_change, load_nodes_assigns.
  - split; [|apply Hframe]; apply assigns_change, LoadFromConfDir_assigns.
Qed.
Lemma steps_inv s : rtc cfg_step (config_init, []) s → CfgInv s.1 ∧ Forall (Holds s.1) s.2.
Proof.
  revert s. apply rtc_ind_r; [split; [apply init_inv|constructor]|]. intros [c hs] [c' hs'] _ Hs [HI Hh]. cbn in *. destruct (step_changes c hs c' hs' HI Hh Hs) as [Hr Hh']. split; [|done]. by eapply changes_inv.
Qed.

(** C29: whatever sequence of lookups, assignments, conversions, listeners and
    loads the program makes, a typed pointer Lookup gave keeps pointing to
    a variable of that type, whose value has the type; the name of the
    variable leads to this pointer at this type and to null at any other; two
    typed pointers to variables of one name are the same; and listeners are
    only called with values of the type. *)
Theorem config_types c hs : rtc cfg_step (config_init, []) (c, hs) →
  (∀ p t, (p, t) ∈ hs → ∃ x, c_vars c !! p = Some x ∧ cv_type x = t ∧ has_type t (cv_val x) ∧
     ∀ u, Config_Lookup u (cv_name x) c = if decide (u = t) then Found p else NullPtr) ∧
  (∀ p q t u x y, (p, t) ∈ hs → (q, u) ∈ hs → c_vars c !! p = Some x → c_vars c !! q = Some y → cv_name x = cv_name y → p = q ∧ t = u) ∧
  Forall (typed_call c) (c_calls c).
Proof.
  intros Hr. destruct (steps_inv _ Hr) as [HI Hh]. cbn in *. assert (Hat : ∀ p t, (p, t) ∈ hs → Holds c (p, t)) by (intros p t [i Hi]%list_elem_of_lookup_1; exact (Forall_lookup_1 _ _ _ _ Hh Hi)). split_and!.
  - intros p t (x & Hx & T)%Hat. cbn in Hx, T. exists x. split_and!; [done|done|rewrite <- T; by eapply ci_type|]. intros u. unfold Config_Lookup. rewrite (proj1 (ci_var c HI p x Hx)), Hx. cbn. rewrite T.
    destruct (decide (u = t)) as [->|Hne]; [by rewrite bool_decide_eq_true_2|]. rewrite bool_decide_eq_false_2; [done|]. naive_solver.
  - intros p q t u x y (x0 & Hx0 & T)%Hat (y0 & Hy0 & U)%Hat Hx Hy En. cbn in *. destruct (ci_var c HI p x Hx) as [E1 _], (ci_var c HI q y Hy) as [E2 _]. rewrite En in E1. assert (p = q) as -> by congruence. split; [done|congruence].
  - apply ci_calls, HI.
Qed.

(** ** Listeners

    The calls [ks] tell a listener each change from the value [v] to [w]. *)
Fixpoint follows (cb : nat) v (ks : list (call B)) w : Prop :=
  match ks with
  | [] => v = w
  | k :: ks => call_cb k = cb ∧ call_old k = v ∧ call_new k ≠ v ∧ follows cb (call_new k) ks w
  end.
Definition calls_to p (id : Z) (ks : list (call B)) : list (call B) := filter (λ k, call_var k = p ∧ call_id k = id) ks.
Lemma follows_app cb v ks w ks' u : follows cb v ks w → follows cb w ks' u → follows cb v (ks ++ ks') u.
Proof. revert v. induction ks as [|k ks IH]; cbn; [by intros v ->|]. intros v (H1 & H2 & H3 & H4) Hu. split_and!; auto. Qed.
Section listeners.
Context (no_throw : ∀ cb old new, run_cb cb old new = None).
Lemma notify_all p cbs old new : notify p cbs old new = ((λ e, mkCall p e.1 e.2 old new) <$> cbs, None).
Proof. induction cbs as [|[id cb] cbs IH]; [done|]. cbn [notify]. by rewrite no_throw, IH. Qed.
Lemma calls_to_self p id cb cbs old new : NoDup cbs.*1 → al_find id cbs = Some cb → calls_to p id ((λ e, mkCall p e.1 e.2 old new) <$> cbs) = [mkCall p id cb old new].
Proof.
  unfold calls_to. induction cbs as [|[i b] cbs IH]; [done|]. rewrite !fmap_cons, al_find_cons, filter_cons. cbn [fst snd call_var call_id]. intros [Hn Hd]%list.NoDup_cons. destruct (decide (i = id)) as [<-|Hne].
  - intros [= ->]. rewrite decide_True by done. f_equal. clear IH Hd. induction cbs as [|[j b] cbs IH]; [done|]. rewrite fmap_cons, filter_cons. cbn in Hn |- *. rewrite not_elem_of_cons in Hn. rewrite decide_False by naive_solver. naive_solver.
  - rewrite decide_False by naive_solver. by apply IH.
Qed.
Lemma calls_to_other p q id cbs old new : p ≠ q → calls_to q id ((λ e, mkCall p e.1 e.2 old new) <$> cbs) = [].
Proof. intros Hne. unfold calls_to. induction cbs as [|[i b] cbs IH]; [done|]. rewrite fmap_cons, filter_cons. cbn. rewrite decide_False by naive_solver. done. Qed.

Definition told p id cb c c' : Prop := ∀ x, c_vars c !! p = Some x → ∃ x' new, c_vars c' !! p = Some x' ∧ c_calls c' = c_calls c ++ new ∧ follows cb (cv_val x) (calls_to p id new) (cv_val x').
Lemma told_refl p id cb c : told p id cb c c.
Proof. intros x Hx. exists x, []. rewrite app_nil_r. done. Qed.
Lemma told_trans p id cb c1 c2 c3 : told p id cb c1 c2 → told p id cb c2 c3 → told p id cb c1 c3.
Proof.
  intros H1 H2 x Hx. destruct (H1 x Hx) as (x2 & n1 & Hx2 & E1 & F1). destruct (H2 x2 Hx2) as (x3 & n2 & Hx3 & E2 & F2). exists x3, (n1 ++ n2).
  split_and!; [done|by rewrite E2, E1, (assoc_L (++))|]. unfold calls_to. rewrite list.filter_app. by eapply follows_app.
Qed.
Lemma told_still p id cb c c' f q : (∀ x, cv_val (f x) = cv_val x) → c_vars c' = alter f q (c_vars c) → c_calls c' = c_calls c → told p id cb c c'.
Proof.
  intros Hf Hv Hc x Hx. rewrite Hv, Hc. destruct (decide (q = p)) as [->|Hne]; [rewrite list_lookup_alter_eq, Hx|rewrite list_lookup_alter_ne by done]; [exists (f x), []|exists x, []]; rewrite app_nil_r; split_and!; try done.
Qed.
Lemma getListener_inv p id cb c : getListener p id c = Some cb → ∃ x, c_vars c !! p = Some x ∧ al_find id (cv_cbs x) = Some cb.
Proof. unfold getListener. by intros (x & ? & ?)%bind_Some; exists x. Qed.
Lemma assign_told p id cb c c' : CfgInv c → getListener p id c = Some cb → assign c c' → told p id cb c c' ∧ getListener p id c' = Some cb.
Proof.
  intros HI (x & Hx & Hid)%getListener_inv Ha. destruct Ha as [q y v Hy Hv|r i z].
  2:{ split; [intros x' Hx'; exists x', []; rewrite app_nil_r; done|]. unfold getListener. cbn. by rewrite Hx. }
  unfold setValue. rewrite Hy. destruct (value_eqb v (cv_val y)) eqn:Ev; [split; [apply told_refl|]; unfold getListener; cbn [fst]; by rewrite Hx|].
  assert (Hne : v ≠ cv_val y) by (intros Hc%value_eqb_eq; congruence). rewrite notify_all. cbn [fst]. unfold getListener, told. cbn. destruct (decide (q = p)) as [->|Hpq].
  - assert (y = x) as -> by congruence. rewrite list_lookup_alter_eq, Hx. cbn. split; [|done]. intros x' [= <-]. eexists _, _. split_and!; [done|done|]. rewrite (calls_to_self p id cb); [by cbn|by eapply (sm_sorted_NoDup Z.ltb), ci_cbs|done].
  - rewrite list_lookup_alter_ne, Hx by done. cbn. split; [|done]. intros x' [= <-]. eexists _, _. split_and!; [done|done|]. by rewrite calls_to_other.
Qed.
Lemma assigns_told p id cb c c' : CfgInv c → getListener p id c = Some cb → rtc assign c c' → told p id cb c c'.
Proof.
  intros HI Hg Hr. induction Hr as [c|c c1 c' Ha _ IH]; [apply told_refl|]. destruct (assign_told p id cb c c1 HI Hg Ha) as [Ht Hg1]. eapply told_trans; [exact Ht|]. apply IH; [|done]. eapply change_inv; [done|by apply change_assign].
Qed.
Lemma step_told p id cb s s' : CfgInv s.1 → Forall (Holds s.1) s.2 → getListener p id s.1 = Some cb → cfg_step s s' → told p id cb s.1 s'.1.
Proof.
  intros HI Hh Hg Hs. destruct Hs as [t name v d c hs Hv|t name c hs|q t v c hs Hq Hv|q t z c hs Hq|q t b c hs Hq|q t key c hs Hq|q t c hs Hq|root c hs|path dir force c hs]; cbn in *.
  - intros x Hx. unfold Lookup_or_create. destruct (al_find name (GetDatas c)); [by apply told_refl|]. destruct (valid_name name); [|by apply told_refl]. exists x, []. cbn. rewrite app_nil_r. split_and!; [by apply lookup_app_l_Some|done|done].
  - apply told_refl.
  - apply assigns_told; [done|done|]. apply list_elem_of_lookup_1 in Hq as [i Hi]. destruct (Forall_lookup_1 _ _ _ _ Hh Hi) as (x & Hx & T). cbn in Hx, T. subst t. apply rtc_once. by eapply assign_value.
  - apply assigns_told; [done|done|apply fromString_assigns].
  - unfold addListener. destruct (c_vars c !! q) as [x|]; [|apply told_refl]. by eapply (told_still _ _ _ _ _ (set_cbs _)).
  - by eapply (told_still _ _ _ _ _ (set_cbs _)).
  - by eapply (told_still _ _ _ _ _ (set_cbs _)).
  - apply assigns_told; [done|done|apply load_nodes_assigns].
  - apply assigns_told; [done|done|apply LoadFromConfDir_assigns].
Qed.
(** C30: while a listener stays registered, it is told every change of its
    variable, in order and once: its calls lead from the value the variable
    had to the value it has, each from the value before to a different one.
    The listeners do not throw. *)
Theorem listeners_follow p id cb s s' : rtc cfg_step (config_init, []) s → getListener p id s.1 = Some cb →
  rtc (λ a b, cfg_step a b ∧ getListener p id b.1 = Some cb) s s' →
  ∃ x x' new, c_vars s.1 !! p = Some x ∧ c_vars s'.1 !! p = Some x' ∧ c_calls s'.1 = c_calls s.1 ++ new ∧ follows cb (cv_val x) (calls_to p id new) (cv_val x').
Proof.
  intros Hr Hg Hl. assert (Ht : told p id cb s.1 s'.1).
  { destruct (steps_inv _ Hr) as [HI Hh]. clear Hr. induction Hl as [s|s s1 s' [Hs Hg1] _ IH]; [apply told_refl|]. eapply told_trans; [by eapply step_told|].
    destruct s as [c hs], s1 as [c1 hs1]; cbn in *. destruct (step_changes c hs c1 hs1 HI Hh Hs) as [Hc Hh1]. apply IH; [done| |done]. by eapply changes_inv. }
  destruct (getListener_inv _ _ _ _ Hg) as (x & Hx & _). destruct (Ht x Hx) as (x' & new & H1 & H2 & H3). by exists x, x', new.
Qed.

(** ** Loading

    The nodes of a tree with the keys on the way to them, in document order;
    a path names a variable by its keys joined with dots. *)
Fixpoint paths (n : yaml) : list (list str * yaml) :=
  ([], n) :: match n with YMap l => (fix go l := match l with [] => [] | (k, m) :: l => ((λ q, (k :: q.1, q.2)) <$> paths m) ++ go l end) l | _ => [] end.
Definition named (prefix : str) (q : list str * yaml) : option (str * yaml) :=
  if forallb valid_name q.1 then Some (foldl extend prefix q.1, q.2) else None.
Lemma valid_extend prefix k : valid_name prefix = true → valid_name (extend prefix k) = valid_name k.
Proof.
  intros Hp. unfold extend. case_bool_decide; [done|]. unfold valid_name in *. rewrite !forallb_app, Hp. cbn [andb]. replace (forallb _ (text ".")) with true by (vm_compute; done). done.
Qed.
Lemma named_under prefix k (qs : list (list str * yaml)) : omap (named prefix) ((λ q, (k :: q.1, q.2)) <$> qs) = if valid_name k then omap (named (extend prefix k)) qs else [].
Proof. induction qs as [|[ks m] qs IH]; [by destruct (valid_name k)|]. cbn. rewrite IH. unfold named. cbn. destruct (valid_name k); cbn; [|done]. by destruct (forallb valid_name ks). Qed.
Lemma ListAllMember_paths n prefix : ListAllMember prefix n = if valid_name prefix then omap (named prefix) (paths n) else [].
Proof.
  revert prefix. induction n as [|s|l _|l IH] using yaml_nested_ind; intros prefix; cbn [ListAllMember paths]; destruct (valid_name prefix) eqn:Hv; try done.
  cbn [negb]. cbn [omap list_omap named fst forallb foldl snd]. f_equal. induction IH as [|[k m] l Hm _ IHl]; [done|]. cbn [snd] in Hm. rewrite Hm, IHl, omap_app. f_equal. rewrite valid_extend by done.
  symmetry. apply named_under.
Qed.
Lemma named_valid n k m : (k, m) ∈ ListAllMember [] n → valid_name k = true.
Proof.
  rewrite ListAllMember_paths. cbn. rewrite list_elem_of_omap. intros ([ks m'] & _ & Hn). unfold named in Hn. cbn in Hn. destruct (forallb valid_name ks) eqn:Hks; [|done]. injection Hn as <- _.
  assert (H0 : valid_name [] = true) by done. revert H0 Hks. generalize (@nil byte). induction ks as [|k ks IH]; intros pre H0; [done|]. cbn. intros [H1 H2]%andb_true_iff. apply IH; [|done]. by rewrite valid_extend.
Qed.
Lemma setValue_value p v c x : c_vars c !! p = Some x →
  (setValue p v c).2 = None ∧ GetDatas (setValue p v c).1 = GetDatas c ∧ ∀ q, cv_getValue q (setValue p v c).1 = if decide (p = q) then Some v else cv_getValue q c.
Proof.
  intros Hx. unfold setValue, cv_getValue. rewrite Hx. destruct (value_eqb v (cv_val x)) eqn:Ev.
  - apply value_eqb_eq in Ev as ->. split_and!; [done|done|]. intros q. cbn. destruct (decide (p = q)) as [<-|]; [by rewrite Hx|done].
  - rewrite notify_all. split_and!; [done|done|]. intros q. cbn. destruct (decide (p = q)) as [<-|]; [by rewrite list_lookup_alter_eq, Hx|by rewrite list_lookup_alter_ne].
Qed.
Lemma fromString_value p s c x : c_vars c !! p = Some x →
  (fromString p s c).2 = inl false ∧ GetDatas (fromString p s c).1 = GetDatas c ∧
  ∀ q, cv_getValue q (fromString p s c).1 = if decide (p = q) then Some (default (cv_val x) (from_str (cv_type x) s)) else cv_getValue q c.
Proof.
  intros Hx. unfold fromString. rewrite Hx. destruct (from_str (cv_type x) s) as [v|].
  - destruct (setValue_value p v c x Hx) as (H1 & H2 & H3). destruct (setValue p v c) as [c' e]; cbn in *. subst e. done.
  - split_and!; [done|done|]. intros q. cbn. unfold cv_getValue. destruct (decide (p = q)) as [<-|]; [by rewrite Hx|done].
Qed.
Definition conversion x (e : str * yaml) : option (value B) := if decide (e.1 = cv_name x ∧ e.1 ≠ []) then from_str (cv_type x) (node_text e.2) else None.
Lemma conversion_same x x' : cv_type x' = cv_type x → cv_name x' = cv_name x → conversion x' = conversion x.
Proof. intros T N. unfold conversion. by rewrite T, N. Qed.
Lemma load_nodes_value l c : CfgInv c → (∀ k n, (k, n) ∈ l → valid_name k = true) →
  (load_nodes l c).2 = None ∧ ∀ p x, c_vars c !! p = Some x → cv_getValue p (load_nodes l c).1 = Some (default (cv_val x) (list.last (omap (conversion x) l))).
Proof.
  revert c. induction l as [|[k n] l IH]; intros c HI Hl; cbn [load_nodes omap list_omap].
  { split; [done|]. intros p x Hx. unfold cv_getValue. cbn [fst]. by rewrite Hx. }
  assert (Hl' : ∀ k n, (k, n) ∈ l → valid_name k = true) by (intros k' n' ?; eapply Hl; by right).
  case_bool_decide as Hk.
  { destruct (IH c HI Hl') as [H1 H2]. split; [done|]. intros p x Hx. rewrite (H2 p x Hx). unfold conversion at 2. cbn. rewrite decide_False by naive_solver. done. }
  rewrite valid_lower by (eapply Hl; by left). unfold LookupBase. destruct (al_find k (GetDatas c)) as [q|] eqn:Eq.
  - destruct (ci_table c HI k q Eq) as (y & Hy & Hyk). destruct (fromString_value q (node_text n) c y Hy) as (F1 & F2 & F3). pose proof (fromString_assigns q (node_text n) c) as Ha.
    destruct (fromString q (node_text n) c) as [c1 r]; cbn [fst snd] in *. subst r. destruct (changes_inv c c1 HI (assigns_change _ _ Ha)) as [HI1 HG]. destruct (IH c1 HI1 Hl') as [H1 H2]. split; [done|].
    intros p x Hx. destruct (HG p x Hx) as (x1 & Hx1 & T & N). rewrite (H2 p x1 Hx1), (conversion_same x x1 T N). unfold conversion at 2. cbn [fst snd]. specialize (F3 p). unfold cv_getValue in F3. rewrite Hx1, Hx in F3. cbn in F3.
    destruct (decide (q = p)) as [->|Hne].
    + assert (y = x) as -> by congruence. rewrite decide_True by done. injection F3 as F3. rewrite F3. destruct (from_str (cv_type x) (node_text n)) as [v|]; cbn [default]; [|done]. by rewrite list.last_cons; destruct (list.last _).
    + rewrite decide_False; [by injection F3 as ->|]. intros [-> _]. destruct (ci_var c HI p x Hx) as [E _]. congruence.
  - destruct (IH c HI Hl') as [H1 H2]. split; [done|]. intros p x Hx. rewrite (H2 p x Hx). unfold conversion at 2. cbn [fst snd]. rewrite decide_False; [done|]. intros [-> _]. destruct (ci_var c HI p x Hx) as [E _]. congruence.
Qed.
Lemma omap_compose {A C D} (f : A → option C) (g : C → option D) (l : list A) : omap g (omap f l) = omap (λ a, f a ≫= g) l.
Proof. induction l as [|a l IH]; [done|]. cbn. destruct (f a) as [y|]; cbn; [|done]. destruct (g y); by rewrite IH. Qed.
(** C31: loading a tree gives every variable the last value, in the order of
    the document, of the nodes at its name whose text converts to its type,
    and leaves it alone when there is none; keys with characters outside the
    names are skipped with all that is under them; and the load completes.
    The listeners do not throw. *)
Theorem load_last_wins root c hs : rtc cfg_step (config_init, []) (c, hs) →
  (LoadFromYaml root c).2 = None ∧
  ∀ p x, c_vars c !! p = Some x →
    cv_getValue p (LoadFromYaml root c).1 = Some (default (cv_val x) (list.last (omap (λ q, named [] q ≫= conversion x) (paths root)))).
Proof.
  intros [HI _]%steps_inv. destruct (load_nodes_value (ListAllMember [] root) c HI (λ k n, named_valid root k n)) as [H1 H2]. split; [done|].
  intros p x Hx. unfold LoadFromYaml. rewrite (H2 p x Hx), ListAllMember_paths. cbn [valid_name forallb]. by rewrite omap_compose.
Qed.
End listeners.

(** ** Directories *)
Lemma setValue_times p v c : s_file2modifytime (setValue p v c).1 = s_file2modifytime c.
Proof. unfold setValue. destruct (c_vars c !! p); [|done]. destruct (value_eqb _ _); [done|]. by destruct (notify _ _ _ _) as [? []]. Qed.
Lemma load_nodes_times l c : s_file2modifytime (load_nodes l c).1 = s_file2modifytime c.
Proof.
  revert c. induction l as [|[k n] l IH]; intros c; cbn [load_nodes]; [done|]. case_bool_decide; [apply IH|]. destruct (LookupBase _ c) as [p|]; [|apply IH]. unfold fromString. destruct (c_vars c !! p) as [x|]; [|apply IH].
  destruct (from_str _ _) as [v|]; [|apply IH]. pose proof (setValue_times p v c) as Hs. destruct (setValue p v c) as [c' [[]|]]; cbn in *; [by rewrite IH|done|by rewrite IH].
Qed.
Lemma load_file_times force i st c j : sm_sorted str_lt (s_file2modifytime c) →
  al_find j (s_file2modifytime (load_file force i st c)) = if decide (i = j) then Some (uwrap 64 (f_mtime st)) else al_find j (s_file2modifytime c).
Proof.
  intros Hs. unfold load_file. set (c1 := if force then c else _).
  assert (H1 : sm_sorted str_lt (s_file2modifytime c1) ∧ (i ≠ j → al_find j (s_file2modifytime c1) = al_find j (s_file2modifytime c))).
  { subst c1. destruct force; [done|]. cbn. split; [by apply (sm_put_sorted str_lt)|]. intros Hne. unfold sm_insert. rewrite (sm_find_put str_lt), decide_False by done. done. }
  clearbody c1. destruct H1 as [Hs1 H1]. destruct (negb force && bool_decide _) eqn:Eb.
  - apply andb_true_iff in Eb as [_ Eb]. rewrite bool_decide_eq_true in Eb. destruct (decide (i = j)) as [<-|Hne]; [done|by apply H1].
  - assert (Ht : ∀ c2, s_file2modifytime c2 = sm_set str_lt i (uwrap 64 (f_mtime st)) (s_file2modifytime c1) → al_find j (s_file2modifytime c2) = if decide (i = j) then Some (uwrap 64 (f_mtime st)) else al_find j (s_file2modifytime c)).
    { intros c2 ->. unfold sm_set. rewrite (sm_find_put str_lt) by done. destruct (decide (i = j)); [done|by apply H1]. }
    apply Ht. destruct (f_root st); [|done]. unfold LoadFromYaml. by rewrite load_nodes_times.
Qed.
Lemma load_file_again i st c : sm_sorted str_lt (s_file2modifytime c) → al_find i (s_file2modifytime c) = Some (uwrap 64 (f_mtime st)) → load_file false i st c = c.
Proof.
  intros Hs Hf. assert (E : with_times (sm_insert str_lt i 0%Z) c = c).
  { destruct c as [vs ds ids ks ts]; unfold with_times; cbn in *. f_equal. apply (sm_ext str_lt); [by apply (sm_put_sorted str_lt)|done|]. intros k. unfold sm_insert. rewrite (sm_find_put str_lt) by done. destruct (decide (i = k)) as [<-|]; [by rewrite Hf|done]. }
  unfold load_file. rewrite E. cbn [negb andb]. by rewrite bool_decide_eq_true_2.
Qed.
(** a directory that was loaded and has not changed is not loaded again:
    a second LoadFromConfDir changes no variable and calls no listener, also
    when files could not be read or conversions failed the first time. *)
Theorem reload_quiet path dir force c hs : rtc cfg_step (config_init, []) (c, hs) → NoDup (ListAllFile (text ".yml") path dir).*1 →
  LoadFromConfDir path dir false (LoadFromConfDir path dir force c) = LoadFromConfDir path dir force c.
Proof.
  intros [HI _]%steps_inv Hd. cbn in HI. unfold LoadFromConfDir. set (l := ListAllFile _ _ _) in *. clearbody l. set (go := λ b c, foldl (λ c f, load_file b f.1 f.2 c) c l). change (go false (go force c) = go force c).
  assert (Hg : ∀ c, CfgInv c → CfgInv (go force c) ∧ ∀ i, al_find i (s_file2modifytime (go force c)) = match al_find i l with Some st => Some (uwrap 64 (f_mtime st)) | None => al_find i (s_file2modifytime c) end).
  { clear c HI. subst go. cbn. induction l as [|[i st] l IH]; intros c HI; [done|]. rewrite fmap_cons in Hd. apply list.NoDup_cons in Hd as [Hn Hd]. cbn in Hn |- *. destruct (changes_inv _ _ HI (assigns_change _ _ (load_file_assigns force i st c))) as [HI1 _].
    destruct (IH Hd _ HI1) as [HI2 Hf]. split; [done|]. intros j. rewrite Hf, al_find_cons, (load_file_times force i st c j (ci_times c HI)). cbn. destruct (decide (i = j)) as [<-|]; [|done]. destruct (al_find i l) eqn:E; [|done]. exfalso. apply Hn, al_find_In. by rewrite E. }
  destruct (Hg c HI) as [HI1 Hf]. generalize dependent (go force c). intros c1 HI1 Hf. clear Hg. subst go. cbn.
  assert (Ha : ∀ i st, (i, st) ∈ l → al_find i (s_file2modifytime c1) = Some (uwrap 64 (f_mtime st))).
  { intros i st Hi. rewrite Hf. by rewrite (proj2 (al_find_elem l i st Hd) Hi). }
  clear Hf Hd. induction l as [|[i st] l IH]; [done|]. cbn. rewrite load_file_again; [|apply HI1|apply Ha; by left]. apply IH. intros j f Hj. apply Ha. by right.
Qed.

(** ** Text of values

    What yaml-cpp and lexical_cast do with what they printed themselves. *)
Section text.
Context (Load_emit : ∀ n, Load (emit n) = Some n).
Context (elements_sequence : ∀ l, node_elements (YSequence l) = Some (emit <$> l)).
Context (entries_map : ∀ l, NoDup l.*1 → node_entries (YMap l) = Some ((λ e, (e.1, emit e.2)) <$> l)).
Context (set_order_elements : ∀ s, set_order s ≡ₚ elements s) (map_order_entries : ∀ l, map_order l ≡ₚ l).

(** The text of a value reads back, also after a pass through a node. *)
Definition printable (b : bty) (y : B) : Prop := ∃ s n, print y = Some s ∧ cast b s = Some y ∧ Load s = Some n ∧ cast b (emit n) = Some y.
Definition readable t v : Prop := ∃ s n, to_str t v = Some s ∧ from_str t s = Some v ∧ Load s = Some n ∧ from_str t (emit n) = Some v.
Lemma nodes_readable {A} (f : A → option str) (g : str → option A) (l : list A) :
  Forall (λ a, ∃ s n, f a = Some s ∧ Load s = Some n ∧ g (emit n) = Some a) l →
  ∃ ns, mapM (λ a, s ← f a; Load s) l = Some ns ∧ mapM g (emit <$> ns) = Some l.
Proof.
  induction 1 as [|a l (s & n & H1 & H2 & H3) _ (ns & IH1 & IH2)]; [by exists []|]. exists (n :: ns). cbn. rewrite H1. cbn. rewrite H2. cbn. rewrite IH1. cbn. rewrite H3. cbn. rewrite IH2. done.
Qed.
Lemma entries_readable t (l : list (str * value B)) : Forall (λ e, readable t e.2) l →
  ∃ es, mapM (λ e, s ← to_str t e.2; pair e.1 <$> Load s) l = Some es ∧ es.*1 = l.*1 ∧ mapM (λ e, pair e.1 <$> from_str t e.2) ((λ e, (e.1, emit e.2)) <$> es) = Some l.
Proof.
  induction 1 as [|[k v] l (s & n & H1 & _ & H2 & H3) _ (es & IH1 & IH2 & IH3)]; [by exists []|]. exists ((k, n) :: es). cbn in *. rewrite H1. cbn. rewrite H2. cbn. rewrite IH1. cbn. rewrite H3. cbn. rewrite IH3. cbn. rewrite IH2. done.
Qed.
Lemma al_sets_app (es m : list (str * yaml)) : NoDup (m ++ es).*1 → foldl (λ m e, al_set e.1 e.2 m) m es = m ++ es.
Proof.
  revert m. induction es as [|[k n] es IH]; intros m Hd; cbn; [by rewrite app_nil_r|]. rewrite al_set_snoc.
  - rewrite IH; by rewrite <- (assoc_L (++)).
  - rewrite fmap_app, fmap_cons in Hd. apply list.NoDup_app in Hd as (_ & Hn & _). intros Hk. apply (Hn k Hk). by left.
Qed.
Lemma map_text_readable t (l l' : list (str * value B)) : sm_sorted str_lt l → l' ≡ₚ l → Forall (λ e, readable t e.2) l →
  ∃ es, mapM (λ e, s ← to_str t e.2; pair e.1 <$> Load s) l' = Some es ∧ node_entries (YMap (foldl (λ m e, al_set e.1 e.2 m) [] es)) = Some ((λ e, (e.1, emit e.2)) <$> es) ∧
    (sm_of_list str_lt <$> mapM (λ e, pair e.1 <$> from_str t e.2) ((λ e, (e.1, emit e.2)) <$> es)) = Some l.
Proof.
  intros Hs Hp Hr. destruct (entries_readable t l') as (es & H1 & H2 & H3); [by rewrite Hp|]. exists es. assert (Hd : NoDup es.*1) by (rewrite H2, Hp; by apply (sm_sorted_NoDup str_lt)).
  split_and!; [done| |]; [rewrite (al_sets_app es []) by done; by apply entries_map|]. rewrite H3. cbn. f_equal. by apply (sm_rebuild str_lt).
Qed.
Lemma value_readable t v : typed_by printable t v → readable t v.
Proof.
  revert v. induction t as [b|t IH|b|t IH|t IH]; intros [y|l|s|l|l]; cbn [typed_by]; try done.
  - intros (s & n & H1 & H2 & H3 & H4). exists s, n. cbn. rewrite H2, H4. done.
  - intros Hl. destruct (nodes_readable (to_str t) (from_str t) l) as (ns & H1 & H2); [eapply Forall_impl; [|exact Hl]; intros v (s & n & ? & _ & ? & ?)%IH; eauto|].
    exists (emit (YSequence ns)), (YSequence ns). cbn. unfold string_of_vector, vector_of_string, string_of_uset, uset_of_string. rewrite H1, Load_emit. cbn. rewrite elements_sequence. cbn. by rewrite H2.
  - intros Hs. destruct (nodes_readable print (cast b) (set_order s)) as (ns & H1 & H2).
    { apply Forall_lookup_2. intros i y Hy%list_elem_of_lookup_2. rewrite set_order_elements, elem_of_elements in Hy. apply Hs in Hy as (z & n & ? & _ & ? & ?). eauto. }
    exists (emit (YSequence ns)), (YSequence ns). cbn. unfold string_of_vector, vector_of_string, string_of_uset, uset_of_string. rewrite H1, Load_emit. cbn. rewrite elements_sequence. cbn. rewrite H2. cbn.
    assert (list_to_set (set_order s) = s) as -> by (rewrite set_order_elements; apply list_to_set_elements_L). done.
  - intros [Hs Hl]. destruct (map_text_readable t l l Hs) as (es & H1 & H2 & H3); [done|eapply Forall_impl; [|exact Hl]; intros e; apply IH|].
    eexists _, _. cbn. unfold string_of_map, map_of_string, string_of_umap, umap_of_string. rewrite H1. cbn. split; [done|]. rewrite Load_emit. cbn. rewrite H2. cbn. apply fmap_Some in H3 as (r & Hr & ->). rewrite Hr. cbn. rewrite Load_emit. cbn. rewrite H2. cbn. rewrite Hr. done.
  - intros [Hs Hl]. destruct (map_text_readable t l (map_order l) Hs) as (es & H1 & H2 & H3); [done|eapply Forall_impl; [|exact Hl]; intros e; apply IH|].
    eexists _, _. cbn. unfold string_of_map, map_of_string, string_of_umap, umap_of_string. rewrite H1. cbn. split; [done|]. rewrite Load_emit. cbn. rewrite H2. cbn. apply fmap_Some in H3 as (r & Hr & ->). rewrite Hr. cbn. rewrite Load_emit. cbn. rewrite H2. cbn. rewrite Hr. done.
Qed.
(** toString prints a value that fromString of any variable of the type
    reads back: assigning the text of a variable to another one of its type
    gives it the value, for vectors, sets and maps of values whose own text
    reads back, directly and through a node. The listeners do not throw. *)
Theorem config_roundtrip (no_throw : ∀ cb old new, run_cb cb old new = None) c p q x y :
  c_vars c !! p = Some x → c_vars c !! q = Some y → cv_type x = cv_type y → typed_by printable (cv_type y) (cv_val y) →
  cv_getValue p (fromString p (cv_toString q c) c).1 = cv_getValue q c.
Proof.
  intros Hx Hy T Hv. destruct (fromString_value no_throw p (cv_toString q c) c x Hx) as (_ & _ & ->). rewrite decide_True by done.
  destruct (value_readable _ _ Hv) as (s & n & H1 & H2 & _). unfold cv_toString, cv_getValue. rewrite Hy, H1, T. cbn [default from_option id]. rewrite H2. done.
Qed.
End text.
End config.
