(* ===== verification/ConfigExample.v ===== *)
(** * A configuration that runs

    The arguments of the configuration made concrete: texts that encode nodes,
    numbers as the only type without a container. The theorems on the
    configuration apply to it. *)
From Stdlib Require Import ZArith Lia Strings.Byte.
From Stdlib Require Import (notations) Strings.String.
From stdpp Require Import base list sorting gmap list_numbers numbers countable.
From S2P Require Import Prelude OrderedSet Text Address LogFormat Http SortedMap Config.
#[local] Open Scope byte_scope.
Local Open Scope nat_scope.

#[export] Program Instance byte_countable : Countable byte := inj_countable Byte.to_N Byte.of_N _.
Next Obligation. apply Byte.of_to_N. Qed.

(** Nodes as trees whose leaves are strings, trees as texts of bits. *)
Fixpoint tree_of (n : yaml) : gen_tree str :=
  match n with
  | YNull => GenNode 0 []
  | YScalar s => GenLeaf s
  | YSequence l => GenNode 1 ((fix go l := match l with [] => [] | n :: l => tree_of n :: go l end) l)
  | YMap l => GenNode 2 ((fix go l := match l with [] => [] | (k, n) :: l => GenNode 0 [GenLeaf k; tree_of n] :: go l end) l)
  end.
Fixpoint tree_node (t : gen_tree str) : option yaml :=
  match t with
  | GenLeaf s => Some (YScalar s)
  | GenNode 0 _ => Some YNull
  | GenNode 1 l => YSequence <$> (fix go l := match l with [] => Some [] | t :: l => n ← tree_node t; ns ← go l; Some (n :: ns) end) l
  | GenNode _ l => YMap <$> (fix go l := match l with [] => Some [] | GenNode _ [GenLeaf k; t] :: l => n ← tree_node t; ns ← go l; Some ((k, n) :: ns) | _ => None end) l
  end.
Lemma tree_node_of n : tree_node (tree_of n) = Some n.
Proof.
  induction n as [|s|l IH|l IH] using yaml_nested_ind; [done|done|..]; cbn.
  - match goal with |- _ <$> ?g = _ => assert (g = Some l) as ->; [|done] end. induction IH as [|n l Hn _ IHl]; [done|]. rewrite Hn. cbn. rewrite IHl. done.
  - match goal with |- _ <$> ?g = _ => assert (g = Some l) as ->; [|done] end. induction IH as [|[k n] l Hn _ IHl]; [done|]. cbn in Hn. rewrite Hn. cbn. rewrite IHl. done.
Qed.
Fixpoint bits (p : positive) : str := match p with xH => [] | xO p => "0" :: bits p | xI p => "1" :: bits p end.
Fixpoint unbits (s : str) : positive := match s with [] => xH | b :: s => if bool_decide (b = "0") then xO (unbits s) else xI (unbits s) end.
Lemma unbits_bits p : unbits (bits p) = p.
Proof. induction p as [p IH|p IH|]; cbn; [..|done]; rewrite IH; [by rewrite bool_decide_eq_false_2|by rewrite bool_decide_eq_true_2]. Qed.
Definition emit_bits (n : yaml) : str := bits (encode (tree_of n)).
Definition load_bits (s : str) : option yaml := decode (unbits s) ≫= tree_node.
Lemma load_emit_bits n : load_bits (emit_bits n) = Some n.
Proof. unfold load_bits, emit_bits. rewrite unbits_bits, decode_encode. apply tree_node_of. Qed.
Definition elements_bits (n : yaml) : option (list str) := match n with YSequence l => Some (emit_bits <$> l) | _ => Some [] end.
Definition entries_bits (n : yaml) : option (list (str * str)) := match n with YMap l => Some ((λ e, (e.1, emit_bits e.2)) <$> l) | _ => Some [] end.
Definition cast_bits (_ : unit) (s : str) : option nat := match load_bits s with Some (YScalar y) => Some (length y) | _ => None end.
Definition print_bits (y : nat) : option str := Some (emit_bits (YScalar (replicate y "1"))).
Lemma print_cast_bits y : ∃ s n, print_bits y = Some s ∧ cast_bits tt s = Some y ∧ load_bits s = Some n ∧ cast_bits tt (emit_bits n) = Some y.
Proof. eexists _, _. unfold cast_bits. split_and!; [done| |apply load_emit_bits|]; by rewrite load_emit_bits, length_replicate. Qed.

(** ** A run *)
Abbreviation quiet := (λ (_ : nat) (_ _ : value nat), @None thrown).
Abbreviation ex_step := (cfg_step (λ _ : nat, tt) load_bits emit_bits elements_bits entries_bits cast_bits quiet).
Definition names_ty : ty unit := TVector (TBase tt).
Definition ex_first : value nat := VVector [VBase 1].
Definition ex_next : value nat := VVector [VBase 2; VBase 3].
(** Two variables of one type, a listener on the first, a new value for it. *)
Definition ex1 := Lookup_or_create names_ty (text "tcp.names") ex_first [] config_init.
Definition ex2 := Lookup_or_create names_ty (text "http.names") (VVector []) [] ex1.1.
Definition ex3 := addListener 0 7 ex2.1.
Definition ex4 := setValue quiet 0 ex_next ex3.1.
Definition ex_handles : list (nat * ty unit) := [(1, names_ty); (0, names_ty)].
Lemma ex_start : rtc ex_step (config_init, []) (ex3.1, ex_handles).
Proof.
  eapply rtc_l; [apply (step_create _ _ _ _ _ _ _ names_ty (text "tcp.names") ex_first []); vm_compute; by repeat constructor|].
  eapply rtc_l; [apply (step_create _ _ _ _ _ _ _ names_ty (text "http.names") (VVector []) []); vm_compute; by repeat constructor|].
  eapply rtc_l; [|apply rtc_refl]. apply (step_add _ _ _ _ _ _ _ 0 names_ty 7). vm_compute. right. left.
Qed.
Lemma ex_assign : ex_step (ex3.1, ex_handles) (ex4.1, ex_handles).
Proof. apply (step_set _ _ _ _ _ _ _ 0 names_ty ex_next); [right; left|vm_compute; by repeat constructor]. Qed.
Lemma cast_bits_type b s y : cast_bits b s = Some y → tt = b.
Proof. by destruct b. Qed.

Lemma config_types_witness : rtc ex_step (config_init, []) (ex4.1, ex_handles) ∧ Forall (typed_call (λ _ : nat, tt) ex4.1) (c_calls ex4.1) ∧ c_calls ex4.1 ≠ [].
Proof.
  assert (Hr : rtc ex_step (config_init, []) (ex4.1, ex_handles)) by (eapply rtc_r; [apply ex_start|apply ex_assign]).
  split_and!; [exact Hr|exact (proj2 (proj2 (config_types _ _ _ _ _ _ _ cast_bits_type _ _ Hr)))|vm_compute; congruence].
Defined.
Lemma listeners_follow_witness : ∃ x x' new, c_vars ex3.1 !! 0 = Some x ∧ c_vars ex4.1 !! 0 = Some x' ∧ c_calls ex4.1 = c_calls ex3.1 ++ new ∧ follows 7 (cv_val x) (calls_to 0 1 new) (cv_val x').
Proof.
  apply (listeners_follow (λ _ : nat, tt) load_bits emit_bits elements_bits entries_bits cast_bits quiet cast_bits_type (λ _ _ _, eq_refl) 0 1 7 (ex3.1, ex_handles) (ex4.1, ex_handles)); [apply ex_start|vm_compute; reflexivity|].
  apply rtc_once. split; [apply ex_assign|vm_compute; reflexivity].
Defined.
(** A document with the name of the first variable twice. *)
Definition ex_root : yaml := YMap [(text "tcp", YMap [(text "names", YSequence [YScalar (text "a")]); (text "Names", YNull)]); (text "tcp.names", YSequence [])].
Definition ex_load := LoadFromYaml load_bits emit_bits elements_bits entries_bits cast_bits quiet ex_root ex3.1.
Lemma load_last_wins_witness : ex_load.2 = None ∧ cv_getValue 0 ex_load.1 = Some (VVector []).
Proof.
  destruct (load_last_wins (λ _ : nat, tt) load_bits emit_bits elements_bits entries_bits cast_bits quiet cast_bits_type (λ _ _ _, eq_refl) ex_root ex3.1 ex_handles ex_start) as [H1 H2].
  split; [exact H1|]. unfold ex_load. rewrite (H2 0 (mkVar (text "tcp.names") [] names_ty ex_first [(1%Z, 7)])); vm_compute; reflexivity.
Defined.
(** A directory with a file that loads, one that does not and one that is not
    looked at. *)
Definition ex_dir : option (list dirent) :=
  Some [DT_REG (text "a.yml") (mkFile 5 (Some ex_root)); DT_DIR (text "..") None; DT_DIR (text "sub") (Some [DT_REG (text "b.yml") (mkFile 6 None); DT_REG (text "c.txt") (mkFile 7 None)])].
Abbreviation ex_conf := (LoadFromConfDir load_bits emit_bits elements_bits entries_bits cast_bits quiet (text "/conf") ex_dir).
Lemma reload_quiet_witness : ex_conf false (ex_conf false ex3.1) = ex_conf false ex3.1 ∧ cv_getValue 0 (ex_conf false ex3.1) = Some (VVector []).
Proof.
  split; [|vm_compute; reflexivity]. apply (reload_quiet (λ _ : nat, tt) load_bits emit_bits elements_bits entries_bits cast_bits quiet cast_bits_type _ _ _ _ ex_handles ex_start). vm_compute. apply (bool_decide_unpack _). vm_compute. exact I.
Defined.
Lemma config_roundtrip_witness : cv_getValue 1 (fromString load_bits elements_bits entries_bits cast_bits quiet 1 (cv_toString load_bits emit_bits print_bits elements id 0 ex3.1) ex3.1).1 = Some ex_first.
Proof.
  rewrite (config_roundtrip load_bits emit_bits elements_bits entries_bits cast_bits print_bits elements id quiet load_emit_bits (λ l, eq_refl) (λ l _, eq_refl) (λ s, Permutation_refl _) (λ l, Permutation_refl _) (λ _ _ _, eq_refl)
    ex3.1 1 0 (mkVar (text "http.names") [] names_ty (VVector []) []) (mkVar (text "tcp.names") [] names_ty ex_first [(1%Z, 7)])); [vm_compute; reflexivity..|].
  apply Forall_singleton. apply print_cast_bits.
Defined.
(** A listener that throws leaves the variable as it was although the listeners
    before it were told of a new value. *)
Definition throws (cb : nat) (_ _ : value nat) : option thrown := if bool_decide (cb = 8) then Some StdException else None.
Lemma throwing_listener : let c := (addListener 0 8 ex3.1).1 in let r := fromString load_bits elements_bits entries_bits cast_bits throws 0 (emit_bits (YSequence [])) c in
  r.2 = inl false ∧ cv_getValue 0 r.1 = Some ex_first ∧ (call_cb <$> c_calls r.1) = [7; 8].
Proof. vm_compute. done. Qed.
(** '9' and capital letters are no characters of names: such keys are skipped
    although the key would be made lower case, and such variables not made. *)
Lemma nine_invalid t : (Lookup_or_create t (text "v9") ex_first [] (config_init : config unit nat)).2 = InvalidArgument ∧ ListAllMember [] (YMap [(text "v9", YNull); (text "Log", YNull)]) = [([], YMap [(text "v9", YNull); (text "Log", YNull)])].
Proof. split; vm_compute; reflexivity. Qed.
(** fromString returns false when it succeeded, too. *)
Lemma fromString_false : fromString load_bits elements_bits entries_bits cast_bits quiet 0 (emit_bits (YSequence [])) ex3.1 = ((setValue quiet 0 (VVector []) ex3.1).1, inl false).
Proof. vm_compute. reflexivity. Qed.
(** A file that could not be read is not read again when it can. *)
Lemma failed_file_kept : let c := load_file load_bits emit_bits elements_bits entries_bits cast_bits quiet false (text "/a.yml") (mkFile 5 None) ex3.1 in
  load_file load_bits emit_bits elements_bits entries_bits cast_bits quiet false (text "/a.yml") (mkFile 5 (Some ex_root)) c = c.
Proof. vm_compute. reflexivity. Qed.
