(* ===== verification/Env.v ===== *)
(** * Command line and environment (Sylar/env.h, env.cc)

    Options as [-key value] or [-key], the help texts, paths relative to the
    program, and the variables of the process. The strings of argv are C
    strings; [link] is what readlink gives for the program, [None] on failure. *)
From Stdlib Require Import ZArith Lia Strings.Byte.
From Stdlib Require Import (notations) Strings.String.
From stdpp Require Import base list sorting list_numbers numbers.
From S2P Require Import Prelude OrderedSet Text Address LogFormat SortedMap.
#[local] Open Scope byte_scope.
Local Open Scope nat_scope.

Record Env := mkEnv { m_args : list (str * str); m_helps : list (str * str); m_program : str; m_exe : str; m_cwd : str }.
Definition Env_new : Env := mkEnv [] [] [] [] [].
Definition with_args f (e : Env) : Env := mkEnv (f (m_args e)) (m_helps e) (m_program e) (m_exe e) (m_cwd e).
Definition with_helps f (e : Env) : Env := mkEnv (m_args e) (f (m_helps e)) (m_program e) (m_exe e) (m_cwd e).

(** ** Options *)
Definition env_add (key val : str) : Env → Env := with_args (sm_set str_lt key val).
Definition env_has (key : str) (e : Env) : bool := bool_decide (is_Some (al_find key (m_args e))).
Definition env_del (key : str) : Env → Env := with_args (sm_erase key).
Definition env_get (key default_value : str) (e : Env) : str := default default_value (al_find key (m_args e)).
(** The loop of init over the arguments after the first. *)
Fixpoint parse_args (now_key : option str) (args : list str) (e : Env) : bool * Env :=
  match args with
  | [] => (true, match now_key with Some k => env_add k [] e | None => e end)
  | a :: args =>
    match a with
    | "-" :: key =>
      if bool_decide (key = []) then (false, e)
      else parse_args (Some key) args (match now_key with Some k => env_add k [] e | None => e end)
    | _ => match now_key with Some k => parse_args None args (env_add k a e) | None => (false, e) end
    end
  end.
(** The part of a path before its last slash: all of it when it has none. *)
Fixpoint dirname (s : str) : str :=
  match s with
  | [] => []
  | b :: s' => if bool_decide ("/" ∈ s') then b :: dirname s' else if bool_decide (b = "/") then [] else b :: s'
  end.
Definition env_init (link : option str) (argv0 : str) (args : list str) (e : Env) : bool * Env :=
  match link with
  | None => (false, e)
  | Some l =>
    let exe := c_str (take 1023 l) in
    parse_args None args (mkEnv (m_args e) (m_helps e) argv0 exe (dirname exe ++ text "/"))
  end.

(** ** Help *)
Definition removeHelp (key : str) : Env → Env := with_helps (filter (λ p, p.1 ≠ key)).
Definition addHelp (key desc : str) (e : Env) : Env := with_helps (λ l, l ++ [(key, desc)]) (removeHelp key e).
Definition printHelp (e : Env) : str :=
  text "Usage: " ++ m_program e ++ text " [options]" ++ ["010"] ++ concat ((λ p, text "    -" ++ p.1 ++ text " : " ++ p.2 ++ ["010"]) <$> m_helps e).

(** ** Variables of the process *)
Definition setEnv (key val : str) (env : list (str * str)) : bool * list (str * str) :=
  let k := c_str key in
  if bool_decide (k = []) || bool_decide ("=" ∈ k) then (false, env) else (true, al_set k (c_str val) env).
Definition getEnv (key default_value : str) (env : list (str * str)) : str := default default_value (al_find (c_str key) env).

(** ** Paths *)
Definition getAbsolutePath (path : str) (e : Env) : str :=
  match path with [] => text "/" | "/" :: _ => path | _ => m_cwd e ++ path end.
(** [work_path] is the variable server.work_path, null when it was not made. *)
Definition getAbsoluteWorkPath (path : str) (work_path : option str) : M unit str :=
  match path with [] => cret (text "/") | "/" :: _ => cret path | _ => let! w := cderef work_path in cret (w ++ text "/" ++ path) end.
Definition getConfigPath (e : Env) : str := getAbsolutePath (env_get (text "c") (text "conf") e) e.

(** ** The language of command lines *)
Definition opt := (str * option str)%type.
Definition opt_ok (o : opt) : Prop := o.1 ≠ [] ∧ match o.2 with Some v => head v ≠ Some "-" | None => True end.
Definition render (o : opt) : list str := ("-" :: o.1) :: option_list o.2.
Definition render_all (os : list opt) : list str := concat (render <$> os).
(** A key whose value may still come, and an argument that cannot follow it. *)
Definition key_arg (pend : option str) : list str := option_list (cons "-" <$> pend).
Definition pending_ok (pend : option str) : Prop := pend ≠ Some [].
Definition rejected (pend : option str) (bad : str) : Prop := bad = ["-"] ∨ pend = None ∧ head bad ≠ Some "-".
(** The last option has its value, or another key came after it. *)
Definition settled (os : list opt) (pend : option str) : Prop := pend = None → ∀ o, list.last os = Some o → o.2 ≠ None.
Definition add_opt (e : Env) (o : opt) : Env := env_add o.1 (default [] o.2) e.
Definition add_pending (pend : option str) (e : Env) : Env := match pend with Some k => env_add k [] e | None => e end.
(** The value the last option with a key gives it. *)
Definition value_of (key : str) (os : list opt) : option str := list.last (omap (λ o : opt, if decide (o.1 = key) then Some (default [] o.2) else None) os).

Lemma render_all_app os os' : render_all (os ++ os') = render_all os ++ render_all os'.
Proof. unfold render_all. by rewrite fmap_app, concat_app. Qed.
Lemma parse_value a pend args e : head a ≠ Some "-" → parse_args pend (a :: args) e = match pend with Some k => parse_args None args (env_add k a e) | None => (false, e) end.
Proof. intros Ha. destruct a as [|b a]; [done|]. cbn in Ha. cbn. destruct b; try done. Qed.
Lemma parse_key k pend args e : k ≠ [] → parse_args pend (("-" :: k) :: args) e = parse_args (Some k) args (add_pending pend e).
Proof. intros Hk. cbn. by rewrite bool_decide_eq_false_2. Qed.
Lemma parse_opt o pend args e : opt_ok o → ∃ pend', (pend' = None ∧ o.2 ≠ None ∨ pend' = Some o.1 ∧ o.2 = None) ∧ parse_args pend (render o ++ args) e = parse_args pend' args (match o.2 with Some v => env_add o.1 v (add_pending pend e) | None => add_pending pend e end).
Proof.
  destruct o as [k [v|]]; intros [Hk Hv]; cbn [render fst snd option_list app] in *; [exists None|exists (Some k)]; (split; [naive_solver|]); rewrite parse_key by done; cbn [app option_list option_rect]; [by rewrite parse_value|done].
Qed.
Lemma parse_opts os pend args e : Forall opt_ok os → ∃ pend' e', parse_args pend (render_all os ++ args) e = parse_args pend' args e' ∧ add_pending pend' e' = foldl add_opt (add_pending pend e) os.
Proof.
  intros Hos. revert pend e. induction Hos as [|o os Ho _ IH]; intros pend e; [by exists pend, e|]. change (render_all (o :: os)) with (render o ++ render_all os). rewrite <- (assoc_L (++)).
  destruct (parse_opt o pend (render_all os ++ args) e Ho) as (pend1 & Hp & ->). destruct (IH pend1 (match o.2 with Some v => env_add o.1 v (add_pending pend e) | None => add_pending pend e end)) as (p2 & e2 & E1 & E2).
  exists p2, e2. split; [exact E1|]. rewrite E2. cbn [foldl]. f_equal. unfold add_opt. destruct Hp as [[-> Hn]|[-> Hn]]; destruct (o.2); done.
Qed.
Lemma parse_accepts os e : Forall opt_ok os → parse_args None (render_all os) e = (true, foldl add_opt e os).
Proof. intros Hos. destruct (parse_opts os None [] e Hos) as (p & e' & E1 & E2). rewrite app_nil_r in E1. rewrite E1. cbn in *. by rewrite <- E2. Qed.
Lemma parse_rejects os pend bad rest e : Forall opt_ok os → pending_ok pend → rejected pend bad → settled os pend →
  parse_args None (render_all os ++ key_arg pend ++ bad :: rest) e = (false, foldl add_opt e os).
Proof.
  intros Hos Hp Hb Hs. destruct pend as [k|]; cbn [key_arg option_list option_rect fmap option_fmap option_map app].
  - destruct (parse_opts os None (("-" :: k) :: bad :: rest) e Hos) as (p & e' & -> & E). cbn [add_pending] in E. rewrite <- E, parse_key by (intros ->; by apply Hp). destruct Hb as [->|[[=] _]]. done.
  - assert (Hr : ∀ e, parse_args None (bad :: rest) e = (false, e)) by (intros e'; destruct Hb as [->|[_ Hb]]; [done|by rewrite parse_value]).
    destruct os as [|o os _] using rev_ind; [apply Hr|]. apply Forall_app in Hos as [Hos [Ho _]%Forall_cons_1]. rewrite render_all_app, <- (assoc_L (++)). replace (render_all [o]) with (render o) by (symmetry; apply app_nil_r).
    destruct (parse_opts os None (render o ++ bad :: rest) e Hos) as (p & e' & -> & E). destruct (parse_opt o p (bad :: rest) e' Ho) as (p' & Hp' & ->). rewrite foldl_app. cbn [foldl add_pending] in E |- *. rewrite <- E. unfold add_opt.
    specialize (Hs eq_refl o). rewrite list.last_snoc in Hs. destruct Hp' as [[-> _]|[_ Hn]]; [|by exfalso; apply Hs]. rewrite Hr. destruct (o.2); [done|by exfalso; apply Hs].
Qed.
Definition accepted (args : list str) : Prop := ∃ os, Forall opt_ok os ∧ args = render_all os.
Definition refused (os : list opt) (args : list str) : Prop :=
  Forall opt_ok os ∧ ∃ pend bad rest, pending_ok pend ∧ rejected pend bad ∧ settled os pend ∧ args = render_all os ++ key_arg pend ++ bad :: rest.
Definition pending_opts (pend : option str) : list opt := match pend with Some k => [(k, None)] | None => [] end.
Lemma pending_opts_ok os pend : Forall opt_ok os → pending_ok pend → Forall opt_ok (os ++ pending_opts pend) ∧ render_all (os ++ pending_opts pend) = render_all os ++ key_arg pend.
Proof.
  intros Hos Hp. rewrite render_all_app. split; [|by destruct pend]. apply Forall_app. split; [done|]. destruct pend as [k|]; repeat constructor; cbn. intros ->. by apply Hp.
Qed.
(** Every command line is accepted or refused. *)
Lemma command_line_cases args os pend : Forall opt_ok os → pending_ok pend → settled os pend → let all := render_all os ++ key_arg pend ++ args in accepted all ∨ ∃ os', refused os' all.
Proof.
  cbn zeta. revert os pend. induction args as [|a args IH]; intros os pend Hos Hp Hs; destruct (pending_opts_ok os pend Hos Hp) as [Hos' Er].
  - left. exists (os ++ pending_opts pend). rewrite app_nil_r. done.
  - destruct (decide (head a = Some "-")) as [Ha|Ha].
    + destruct a as [|b key]; [done|]. injection Ha as ->. destruct (decide (key = [])) as [->|Hk]; [right; exists os; split; [done|]; exists pend, ["-"], args; split_and!; [done|by left|done|done]|].
      specialize (IH (os ++ pending_opts pend) (Some key) Hos' (λ E, Hk (f_equal (default []) E)) ltac:(done)). rewrite Er, <- !(assoc_L (++)) in IH. exact IH.
    + destruct pend as [k|]; [|right; exists os; split; [done|]; exists None, a, args; split_and!; [done|by right|done|done]].
      specialize (IH (os ++ [(k, Some a)]) None). rewrite render_all_app, <- !(assoc_L (++)) in IH. apply IH; [|done|].
      * apply Forall_app. split; [done|]. apply Forall_singleton. split; [intros E; cbn in E; subst k; by apply Hp|done].
      * intros _ o. rewrite list.last_snoc. by intros [= <-].
Qed.
Lemma add_opts_find os e key : sm_sorted str_lt (m_args e) →
  sm_sorted str_lt (m_args (foldl add_opt e os)) ∧ al_find key (m_args (foldl add_opt e os)) = match value_of key os with Some v => Some v | None => al_find key (m_args e) end.
Proof.
  revert e. induction os as [|o os IH]; intros e Hs; [done|]. cbn [foldl]. destruct (IH (add_opt e o)) as [H1 H2]; [by apply (sm_put_sorted str_lt)|]. split; [done|]. rewrite H2. unfold value_of. cbn [omap list_omap].
  assert (E : al_find key (m_args (add_opt e o)) = if decide (o.1 = key) then Some (default [] o.2) else al_find key (m_args e)) by (cbn; unfold sm_set; by rewrite (sm_find_put str_lt)).
  rewrite E. destruct (decide (o.1 = key)); [|done]. rewrite list.last_cons. by destruct (list.last _).
Qed.

(** C32: init accepts exactly the command lines made of options, a key after a
    dash with or without a value that does not start with a dash; then each
    key has the value the last of its options gives it and other keys keep
    what they had. A command line that is refused leaves what the options
    before the offending argument say; the key in front of it is dropped. *)
Theorem argv_grammar link argv0 args e : sm_sorted str_lt (m_args e) →
  let r := env_init (Some link) argv0 args e in
  let holds os := ∀ key, al_find key (m_args r.2) = match value_of key os with Some v => Some v | None => al_find key (m_args e) end in
  (r.1 = true ↔ accepted args) ∧
  (∀ os, Forall opt_ok os → args = render_all os → holds os) ∧
  (r.1 = false → ∃ os, refused os args) ∧
  (∀ os, refused os args → r.1 = false ∧ holds os).
Proof.
  intros Hs r holds. set (e0 := mkEnv (m_args e) (m_helps e) argv0 (c_str (take 1023 link)) (dirname (c_str (take 1023 link)) ++ text "/")). assert (Er : r = parse_args None args e0) by done. clearbody r.
  assert (Hh : ∀ os, r.2 = foldl add_opt e0 os → holds os) by (intros os E key; rewrite E; apply (add_opts_find os e0 key Hs)).
  assert (Ha : ∀ os, Forall opt_ok os → args = render_all os → r = (true, foldl add_opt e0 os)) by (intros os Hos E; rewrite Er, E; by apply parse_accepts).
  assert (Hr : ∀ os, refused os args → r = (false, foldl add_opt e0 os)) by (intros os (Hos & pend & bad & rest & Hp & Hb & Hset & E); rewrite Er, E; by apply parse_rejects).
  destruct (command_line_cases args [] None (Forall_nil_2 _) ltac:(done) ltac:(done)) as [(os & Hos & E)|[os' Hr']]; cbn [render_all fmap list_fmap concat key_arg option_list option_rect option_fmap option_map app] in *.
  - pose proof (Ha os Hos E) as E1. assert (E1' : r.1 = true) by (by rewrite E1). rewrite E1'. split_and!; [split; [intros _; by exists os|done]| |done|].
    + intros os' Hos' E'. apply Hh. by rewrite (Ha os' Hos' E').
    + intros os' Hr'. rewrite (Hr os' Hr') in E1. done.
  - pose proof (Hr os' Hr') as E1. assert (E1' : r.1 = false) by (by rewrite E1). rewrite E1'. split_and!; [split; [done|]; intros (os & Hos & E); by rewrite (Ha os Hos E) in E1|intros os Hos E; by rewrite (Ha os Hos E) in E1|by exists os'|].
    intros os Hos. split; [done|]. apply Hh. by rewrite (Hr os Hos).
Qed.
Definition ex_argv : list str := [text "-c"; text "/etc"; text "-d"; text "-p"; text "80"; text "-p"; text "81"].
Lemma argv_grammar_witness : let r := env_init (Some (text "/bin/sylar")) (text "sylar") ex_argv Env_new in
  accepted ex_argv ∧ r.1 = true ∧ env_get (text "p") [] r.2 = text "81" ∧ getConfigPath r.2 = text "/etc" ∧ getAbsolutePath (text "log") r.2 = text "/bin/log".
Proof.
  intros r. assert (Ha : accepted ex_argv).
  { exists [(text "c", Some (text "/etc")); (text "d", None); (text "p", Some (text "80")); (text "p", Some (text "81"))]. split; [|vm_compute; reflexivity]. repeat (apply Forall_cons_2; [split; vm_compute; congruence || exact I|]). constructor. }
  split_and!; [exact Ha|apply (argv_grammar (text "/bin/sylar") (text "sylar") ex_argv Env_new); [constructor|exact Ha]|vm_compute; reflexivity..].
Defined.
(** A negative number is no value: it is taken for a key. *)
Lemma negative_value : let r := (env_init (Some []) [] [text "-n"; text "-1"] Env_new).2 in env_get (text "n") (text "none") r = [] ∧ env_has (text "1") r = true.
Proof. vm_compute. done. Qed.
(** A dash alone drops the option in front of it. *)
Lemma dash_drops : let r := env_init (Some []) [] [text "-d"; text "-"] Env_new in r.1 = false ∧ env_has (text "d") r.2 = false.
Proof. vm_compute. done. Qed.
(** A work path asked for before server.work_path is made is undefined. *)
Lemma work_path_undefined path : path ≠ [] → head path ≠ Some "/" → getAbsoluteWorkPath path None = cstuck NullDeref.
Proof. destruct path as [|b path]; [done|]. cbn. by destruct b. Qed.

(** ** Help and variables of the process *)
Lemma help_once key desc e : NoDup (m_helps e).*1 → NoDup (m_helps (addHelp key desc e)).*1 ∧ al_find key (m_helps (addHelp key desc e)) = Some desc.
Proof.
  intros Hd. cbn. assert (Hn : key ∉ (sm_erase key (m_helps e)).*1) by (rewrite <- al_find_In, sm_find_erase, decide_True by done; by intros []). split.
  - rewrite fmap_app. apply list.NoDup_app. split_and!; [|intros k Hk ->%list_elem_of_singleton; by apply Hn|apply NoDup_singleton].
    clear Hn. induction (m_helps e) as [|p l IH]; [done|]. rewrite filter_cons. rewrite fmap_cons in Hd. apply list.NoDup_cons in Hd as [Hp Hd]. destruct (decide (p.1 ≠ key)); [|by apply IH]. rewrite fmap_cons. apply list.NoDup_cons. split; [|by apply IH].
    intros Hin. apply Hp. apply list_elem_of_fmap in Hin as (q & -> & [_ Hq]%list_elem_of_filter). by apply list_elem_of_fmap_2.
  - rewrite al_find_snoc by exact Hn. by rewrite decide_True.
Qed.
Lemma env_roundtrip key val env d : (setEnv key val env).1 = true → getEnv key d (setEnv key val env).2 = c_str val.
Proof. unfold setEnv, getEnv. destruct (_ || _); [done|]. intros _. cbn. by rewrite al_find_set, decide_True. Qed.
