(* ===== verification/HttpParams.v ===== *)
(** * Headers, parameters and cookies (Sylar/HttpServer/http.cc)

    The maps of a message are finite maps from names without case; the
    parameters of a query, a form or a cookie line are the sentences of a
    grammar, and what a client encodes is what the request returns. *)
From Stdlib Require Import ZArith Lia Strings.Byte.
From Stdlib Require Import (notations) Strings.String.
From stdpp Require Import base list list_numbers numbers.
From S2P Require Import Prelude Text Address AddressOrder LogFormat Http.
#[local] Open Scope byte_scope.
Local Open Scope nat_scope.

(** ** Maps *)
Lemma strcasecmp_eq a b : strcasecmp a b = Eq ↔ fold_case a = fold_case b.
Proof. apply lex_eq. Qed.
Lemma less_lex a b : CaseInsensitiveLess a b = true ↔ lex (fold_case a) (fold_case b) = Lt.
Proof. unfold CaseInsensitiveLess, strcasecmp. by destruct (lex _ _). Qed.
(** Keys in strict order. *)
Fixpoint mp_ok (m : MapType) : Prop := match m with [] => True | p :: m => Forall (λ q, CaseInsensitiveLess p.1 q.1 = true) m ∧ mp_ok m end.
Lemma less_neq a b : CaseInsensitiveLess a b = true → strcasecmp a b ≠ Eq ∧ strcasecmp b a ≠ Eq.
Proof. intros H%less_lex. unfold strcasecmp. rewrite (lex_opp (fold_case a)), H. done. Qed.
Lemma less_total a b : CaseInsensitiveLess a b = false → CaseInsensitiveLess b a = false → strcasecmp b a = Eq.
Proof. unfold CaseInsensitiveLess, strcasecmp. rewrite (lex_opp (fold_case a) (fold_case b)). by destruct (lex _ _). Qed.
Lemma mp_put_in rep k v m q : q ∈ mp_put rep k v m → q.1 = k ∨ ∃ q', q' ∈ m ∧ q'.1 = q.1.
Proof.
  induction m as [|[k' v'] m IH]; cbn [mp_put]; [intros ->%list_elem_of_singleton; by left|].
  destruct (CaseInsensitiveLess k k'); [intros [->|Hq]%elem_of_cons; [by left|eauto]|]. destruct (CaseInsensitiveLess k' k).
  - intros [->|Hq]%elem_of_cons; [right; eexists; split; [left|done]|]. destruct (IH Hq) as [?|(q' & ? & ?)]; [by left|right; exists q'; split; [by right|done]].
  - intros [->|Hq]%elem_of_cons; right; [eexists; split; [left|done]|exists q; split; [by right|done]].
Qed.
Lemma mp_put_ok rep k v m : mp_ok m → mp_ok (mp_put rep k v m).
Proof.
  induction m as [|[k' v'] m IH]; cbn [mp_put mp_ok]; [done|]. intros [Hf Hm]. destruct (CaseInsensitiveLess k k') eqn:E1; cbn [mp_ok].
  - split; [|done]. constructor; [done|]. apply Forall_lookup_2. intros j q Hj. cbn. apply less_lex. eapply lex_trans; [by apply less_lex|]. apply less_lex. by apply (Forall_lookup_1 _ _ _ _ Hf Hj).
  - destruct (CaseInsensitiveLess k' k) eqn:E2; cbn [mp_ok]; [|done]. split; [|by apply IH]. apply Forall_lookup_2. intros j q Hj.
    destruct (mp_put_in rep k v m q (list_elem_of_lookup_2 _ _ _ Hj)) as [->|(q' & Hq' & <-)]; [done|]. apply list_elem_of_lookup_1 in Hq' as [j' Hq']. by apply (Forall_lookup_1 _ _ _ _ Hf Hq').
Qed.
Lemma mp_find_cons k p m : mp_find k (p :: m) = if decide (strcasecmp p.1 k = Eq) then Some p.2 else mp_find k m.
Proof. unfold mp_find. cbn. destruct (decide (strcasecmp p.1 k = Eq)); [done|]. destruct (list_find _ m) as [[? []]|]; done. Qed.
Lemma mp_find_put rep k v m k' : mp_ok m →
  mp_find k' (mp_put rep k v m) = if decide (strcasecmp k k' = Eq) then Some (if rep then v else default v (mp_find k m)) else mp_find k' m.
Proof.
  induction m as [|[k1 v1] m IH]; cbn [mp_put mp_ok]; [intros _; rewrite mp_find_cons; cbn; destruct (decide _); [by destruct rep|done]|]. intros [Hf Hm].
  assert (Hlt : ∀ k0, CaseInsensitiveLess k0 k1 = true → mp_find k0 ((k1, v1) :: m) = None).
  { intros k0 H0. unfold mp_find. rewrite (proj2 (list_find_None _ _)); [done|]. constructor; [by apply less_neq in H0 as []|]. apply Forall_lookup_2. intros j q Hj.
    pose proof (Forall_lookup_1 _ _ _ _ Hf Hj) as H1. cbn in H1. eapply proj2, less_neq, less_lex, lex_trans; by apply less_lex. }
  destruct (CaseInsensitiveLess k k1) eqn:E1.
  { rewrite mp_find_cons. cbn [fst snd]. destruct (decide (strcasecmp k k' = Eq)); [|done]. rewrite Hlt by done. by destruct rep. }
  destruct (CaseInsensitiveLess k1 k) eqn:E2; rewrite !mp_find_cons; cbn [fst snd].
  - rewrite IH by done. destruct (decide (strcasecmp k k' = Eq)) as [Hk|]; [|by destruct (decide (strcasecmp k1 k' = Eq))].
    pose proof (less_neq _ _ E2) as [Hn _]. rewrite (decide_False (P := strcasecmp k1 k = Eq)) by done. rewrite decide_False; [done|].
    apply strcasecmp_eq in Hk. unfold strcasecmp in *. by rewrite <- Hk.
  - pose proof (less_total k k1 E1 E2) as He. rewrite (decide_True (P := strcasecmp k1 k = Eq)) by done. apply strcasecmp_eq in He.
    destruct (decide (strcasecmp k1 k' = Eq)) as [H1|H1], (decide (strcasecmp k k' = Eq)) as [H2|H2]; [by destruct rep|exfalso..|done]; rewrite strcasecmp_eq in *; congruence.
Qed.
Lemma mp_find_erase k m k' : mp_find k' (mp_erase k m) = if decide (strcasecmp k k' = Eq) then None else mp_find k' m.
Proof.
  induction m as [|[k1 v1] m IH]; [cbn; by destruct (decide _)|]. unfold mp_erase. rewrite filter_cons. cbn [fst]. fold (mp_erase k m).
  destruct (decide (strcasecmp k1 k ≠ Eq)) as [Hn|Hn]; rewrite !mp_find_cons, ?IH; cbn [fst snd].
  - destruct (decide (strcasecmp k1 k' = Eq)) as [H1|], (decide (strcasecmp k k' = Eq)) as [H2|]; try done. exfalso. apply Hn. rewrite strcasecmp_eq in *. congruence.
  - apply dec_stable in Hn. destruct (decide (strcasecmp k k' = Eq)) as [|H2]; [done|]. rewrite decide_False; [done|]. rewrite strcasecmp_eq in *. congruence.
Qed.
Lemma mp_erase_ok k m : mp_ok m → mp_ok (mp_erase k m).
Proof.
  induction m as [|p m IH]; [done|]. cbn [mp_ok]. intros [Hf Hm]. unfold mp_erase. rewrite filter_cons. destruct (decide _); [|by apply IH]. split; [|by apply IH].
  apply Forall_lookup_2. intros j q Hj%list_elem_of_lookup_2. apply list_elem_of_filter in Hj as [_ [j' Hj']%list_elem_of_lookup_1]. by apply (Forall_lookup_1 _ _ _ _ Hf Hj').
Qed.

(** ** Parameters *)
(** A list of parameters: names up to an equals sign, values up to the
    separator; text after the last separator without an equals sign is
    ignored. *)
Inductive params (flag : byte) : str → list (str * str) → Prop :=
  | R_none s : ("=" ∉ s) → params flag s []
  | R_last k v : ("=" ∉ k) → (flag ∉ v) → params flag (k ++ "=" :: v) [(k, v)]
  | R_more k v r l : ("=" ∉ k) → (flag ∉ v) → params flag r l → params flag (k ++ "=" :: v ++ flag :: r) ((k, v) :: l).
Lemma params_total flag s : ∃ l, params flag s l.
Proof.
  remember (length s) as n eqn:Hn. revert s Hn. induction (lt_wf n) as [n _ IH]. intros s ->. destruct (decide ("=" ∈ s)) as [Hin|]; [|eexists; by constructor].
  apply list_elem_of_split_l in Hin as (k & t & -> & Hk). destruct (decide (flag ∈ t)) as [Hf|]; [|eexists; by apply R_last].
  apply list_elem_of_split_l in Hf as (v & r & -> & Hv). destruct (IH (length r)) with (s := r) as [l Hl]; [rewrite !length_app; cbn; rewrite length_app; cbn; lia|done|]. eexists. by apply R_more.
Qed.
Definition put_param (trim : str → str) (m : MapType) (p : str * str) : MapType := mp_insert (trim p.1) (UrlDecode p.2 true) m.
Lemma find_isc_app c a r : c ∉ a → find_if (isc c) (a ++ c :: r) = Some (length a).
Proof. induction a as [|b a IH]; cbn; intros H; [by rewrite (proj2 (isc_true c c))|]. apply not_elem_of_cons in H as [H1 H2]. destruct (isc c b) eqn:E; [by apply isc_true in E|]. by rewrite IH. Qed.
Lemma find_isc_none c a : c ∉ a → find_if (isc c) a = None.
Proof. induction a as [|b a IH]; cbn; intros H; [done|]. apply not_elem_of_cons in H as [H1 H2]. destruct (isc c b) eqn:E; [by apply isc_true in E|]. by rewrite IH. Qed.
Lemma parse_param_spec flag trim s l : flag ≠ "=" → params flag s l → ∀ fuel pre m, length s < fuel →
  parse_param fuel (pre ++ s) flag trim (length pre) m = Some (foldl (put_param trim) m l).
Proof.
  intros Hne. induction 1 as [s Hs|k v Hk Hv|k v r l Hk Hv Hp IH]; intros fuel pre m Hf; (destruct fuel as [|fuel]; [lia|]); cbn [parse_param]; rewrite find_from_app.
  - by rewrite find_isc_none.
  - rewrite find_isc_app by done. cbn [fmap option_fmap option_map]. replace (pre ++ k ++ "=" :: v) with ((pre ++ k) ++ "=" :: v) by by rewrite <- app_assoc. rewrite <- length_app, find_from_app.
    rewrite find_isc_none by (apply not_elem_of_cons; done). cbn [fmap option_fmap option_map foldl]. f_equal. unfold put_param. cbn [fst snd]. f_equal.
    + rewrite <- app_assoc, drop_app_length, length_app. replace (length pre + length k - length pre) with (length k) by lia. f_equal. apply take_app_length.
    + f_equal. rewrite drop_app_ge by lia. by replace (length (pre ++ k) + 1 - length (pre ++ k)) with 1 by lia.
  - rewrite find_isc_app by done. cbn [fmap option_fmap option_map]. replace (pre ++ k ++ "=" :: v ++ flag :: r) with ((pre ++ k) ++ ("=" :: v) ++ flag :: r) by by rewrite <- app_assoc.
    rewrite <- length_app, find_from_app, find_isc_app by (apply not_elem_of_cons; done). cbn [fmap option_fmap option_map foldl].
    set (m1 := mp_insert _ _ m). replace ((pre ++ k) ++ ("=" :: v) ++ flag :: r) with ((pre ++ k ++ "=" :: v ++ [flag]) ++ r) by (rewrite <- !app_assoc; cbn; by rewrite <- app_assoc).
    replace (length (pre ++ k) + length ("=" :: v) + 1) with (length (pre ++ k ++ "=" :: v ++ [flag])) by (rewrite !length_app; cbn; rewrite length_app; cbn; lia).
    rewrite IH; [|rewrite !length_app in Hf; cbn in Hf; rewrite length_app in Hf; cbn in Hf; lia]. f_equal. f_equal. unfold m1, put_param. cbn [fst snd]. f_equal.
    + rewrite <- app_assoc, drop_app_length, length_app. replace (length pre + length k - length pre) with (length k) by lia. f_equal. cbn. apply take_app_length.
    + f_equal. rewrite drop_app_ge by lia. replace (length (pre ++ k) + 1 - length (pre ++ k)) with 1 by lia. cbn [app drop]. rewrite drop_0. replace (_ - _ - 1) with (length v) by (cbn; lia). apply take_app_length.
Qed.
Lemma parse_all_spec flag trim s l m : flag ≠ "=" → params flag s l → parse_all s flag trim m tt = Ret (foldl (put_param trim) m l) tt.
Proof. intros Hne Hp. unfold parse_all. pose proof (parse_param_spec flag trim s l Hne Hp (S (length s)) [] m ltac:(lia)) as E. cbn [app length] in E. by rewrite E. Qed.
(** The first value of a name. *)
Definition first_value (trim : str → str) (key : str) (l : list (str * str)) : option str := snd <$> (snd <$> list_find (λ p, strcasecmp (trim p.1) key = Eq) l).
Lemma first_value_cons trim key p l : first_value trim key (p :: l) = if decide (strcasecmp (trim p.1) key = Eq) then Some p.2 else first_value trim key l.
Proof. unfold first_value. cbn. destruct (decide (strcasecmp (trim p.1) key = Eq)); [done|]. destruct (list_find _ l) as [[? []]|]; done. Qed.
Lemma find_put_params trim l m key : mp_ok m → mp_ok (foldl (put_param trim) m l) ∧
  mp_find key (foldl (put_param trim) m l) = match mp_find key m with Some v => Some v | None => (λ v, UrlDecode v true) <$> first_value trim key l end.
Proof.
  revert m. induction l as [|p l IH]; intros m Hm; [split; [done|]; cbn [foldl]; by destruct (mp_find key m)|]. cbn [foldl]. assert (Hm1 : mp_ok (put_param trim m p)) by by apply mp_put_ok.
  destruct (IH _ Hm1) as [H1 ->]. split; [done|]. rewrite first_value_cons. unfold put_param, mp_insert. rewrite mp_find_put by done.
  destruct (decide (strcasecmp (trim p.1) key = Eq)) as [He|]; [|done]. assert (E : mp_find (trim p.1) m = mp_find key m).
  { clear -He. induction m as [|q m IH]; [done|]. rewrite !mp_find_cons, IH. apply strcasecmp_eq in He. by destruct (decide (strcasecmp q.1 (trim p.1) = Eq)) as [H1|H1], (decide (strcasecmp q.1 key = Eq)) as [H2|H2];
      rewrite strcasecmp_eq in *; try done; exfalso; congruence. }
  rewrite E. by destruct (mp_find key m).
Qed.

(** ** Requests *)
(** What a client sends. *)
Definition encode_params (flag : byte) (kvs : list (str * str)) : str := join flag ((λ p, p.1 ++ "=" :: UrlEncode p.2 true) <$> kvs).
Definition names_plain (kvs : list (str * str)) : Prop := Forall (λ p, "=" ∉ p.1) kvs.
Lemma UrlEncode_not flag s : unreserved flag = false → flag ≠ "+" → flag ≠ "%" → flag ∉ UrlEncode s true.
Proof.
  intros H1 H2 H3 Hin. destruct (url_roundtrip s true true (λ H, H)) as [_ Hf]. apply list_elem_of_lookup_1 in Hin as [j Hj]. destruct (Forall_lookup_1 _ _ _ _ Hf Hj) as [?|[?|?]]; congruence.
Qed.
Lemma params_encoded flag kvs : unreserved flag = false → flag ≠ "+" → flag ≠ "%" → names_plain kvs → params flag (encode_params flag kvs) ((λ p, (p.1, UrlEncode p.2 true)) <$> kvs).
Proof.
  intros H1 H2 H3. unfold encode_params. induction 1 as [|[k v] kvs Hk Hkvs IH]; [apply R_none, not_elem_of_nil|]. rewrite !fmap_cons. cbn [fst snd] in *. pose proof (UrlEncode_not flag v H1 H2 H3) as Hv.
  destruct kvs as [|kv kvs]; cbn [join fmap list_fmap]; [by apply R_last|]. rewrite <- app_assoc. cbn [app]. by apply R_more.
Qed.
Lemma first_value_encoded trim key kvs : (λ v, UrlDecode v true) <$> first_value trim key ((λ p, (p.1, UrlEncode p.2 true)) <$> kvs) = first_value trim key kvs.
Proof.
  induction kvs as [|p kvs IH]; [done|]. rewrite fmap_cons, !first_value_cons. cbn [fst snd]. destruct (decide _); [|done]. cbn. by rewrite (proj1 (url_roundtrip p.2 true true (λ H, H))).
Qed.
Lemma first_value_app trim key a b : first_value trim key (a ++ b) = match first_value trim key a with Some v => Some v | None => first_value trim key b end.
Proof. induction a as [|p a IH]; [done|]. cbn [app]. rewrite !first_value_cons. by destruct (decide _). Qed.
Definition is_form (r : HttpRequest) : bool := strcasestr (rq_getHeader (text "content-type") [] r) form_type.
Lemma initQueryParam_spec r l : Z.land (rq_flag r) 1 = 0%Z → params "&" (rq_query r) l →
  initQueryParam r tt = Ret (rq_map id (λ m, foldl (put_param id) m l) id (u8 (Z.lor (rq_flag r) 1)) r) tt.
Proof. intros Hf Hp. unfold initQueryParam. rewrite Hf. cbn [negb Z.eqb]. by rewrite (cbind_Ret _ _ _ _ _ (parse_all_spec "&" id _ l (rq_params r) ltac:(done) Hp)). Qed.
Lemma initBodyParam_spec r l : Z.land (rq_flag r) 2 = 0%Z → params "&" (rq_body r) l →
  initBodyParam r tt = Ret (rq_map id (λ m, if is_form r then foldl (put_param id) m l else m) id (u8 (Z.lor (rq_flag r) 2)) r) tt.
Proof.
  intros Hf Hp. unfold initBodyParam. rewrite Hf. cbn [negb Z.eqb]. fold (is_form r). destruct (is_form r); cbn [negb]; [|done].
  by rewrite (cbind_Ret _ _ _ _ _ (parse_all_spec "&" id _ l (rq_params r) ltac:(done) Hp)).
Qed.
Lemma initCookies_spec r l : Z.land (rq_flag r) 4 = 0%Z → params ";" (rq_getHeader (text "cookie") [] r) l →
  initCookies r tt = Ret (rq_map id id (λ m, foldl (put_param (λ s, Trim s blanks)) m l) (u8 (Z.lor (rq_flag r) 4)) r) tt.
Proof.
  intros Hf Hp. unfold initCookies. rewrite Hf. cbn [negb Z.eqb]. case_bool_decide as He.
  - rewrite He in Hp. inversion Hp as [|k v ? ? E|k v r' l' ? ? ? E]; subst; [done|by destruct k..].
  - by rewrite (cbind_Ret _ _ _ _ _ (parse_all_spec ";" (λ s, Trim s blanks) _ l (rq_cookies r) ltac:(done) Hp)).
Qed.
Lemma header_map p c f r key def : rq_getHeader key def (rq_map id p c f r) = rq_getHeader key def r.
Proof. done. Qed.
Lemma is_form_map p c f r : is_form (rq_map id p c f r) = is_form r.
Proof. done. Qed.
(** C27: What a client encodes is what a request gives back. For a request that
    has not been parsed, with parameters encoded in its query, in a form body
    and in its cookie line, getParam returns the first value of a name, the
    query before the body, getCookie the first value of a name in the cookie
    line without blanks around it, in any case, and the default for other
    names; and a request is parsed once, a second look changes nothing. *)
Theorem params_roundtrip (r : HttpRequest) (q b c : list (str * str)) :
  rq_flag r = 0%Z → rq_params r = [] → rq_cookies r = [] → names_plain q → names_plain b → names_plain c → is_form r = true →
  rq_query r = encode_params "&" q → rq_body r = encode_params "&" b → rq_getHeader (text "cookie") [] r = encode_params ";" c →
  (∀ key def, ∃ r', rq_getParam key def r tt = Ret (default def (first_value id key (q ++ b)), r') tt ∧ rq_getParam key def r' tt = Ret (default def (first_value id key (q ++ b)), r') tt) ∧
  (∀ key def, ∃ r', rq_getCookie key def r tt = Ret (default def (first_value (λ s, Trim s blanks) key c), r') tt) ∧
  ∃ r', initParam r tt = Ret r' tt ∧ initParam r' tt = Ret r' tt.
Proof.
  intros Hf Hp Hc Hq Hb Hk Hform Eq Eb Ec. assert (P1 := params_encoded "&" q eq_refl ltac:(done) ltac:(done) Hq). assert (P2 := params_encoded "&" b eq_refl ltac:(done) ltac:(done) Hb).
  assert (P3 := params_encoded ";" c eq_refl ltac:(done) ltac:(done) Hk). rewrite <- Eq in P1. rewrite <- Eb in P2. rewrite <- Ec in P3.
  set (lq := (λ p : str * str, (p.1, UrlEncode p.2 true)) <$> q) in *. set (lb := (λ p : str * str, (p.1, UrlEncode p.2 true)) <$> b) in *. set (lc := (λ p : str * str, (p.1, UrlEncode p.2 true)) <$> c) in *.
  assert (E1 : initQueryParam r tt = Ret (rq_map id (λ m, foldl (put_param id) m lq) id 1 r) tt) by (rewrite (initQueryParam_spec r lq); [by rewrite Hf|by rewrite Hf|done]).
  assert (E2 : initBodyParam (rq_map id (λ m, foldl (put_param id) m lq) id 1 r) tt = Ret (rq_map id (λ m, foldl (put_param id) (foldl (put_param id) m lq) lb) id 3 r) tt).
  { rewrite (initBodyParam_spec _ lb); [|done|done]. by rewrite is_form_map, Hform. }
  set (r3 := rq_map id (λ m, foldl (put_param id) (foldl (put_param id) m lq) lb) id 3 r) in *.
  assert (E12 : init_params r tt = Ret r3 tt) by (unfold init_params; by rewrite (cbind_Ret _ _ _ _ _ E1)). assert (E33 : init_params r3 tt = Ret r3 tt) by done.
  assert (E3 : ∀ r0, Z.land (rq_flag r0) 4 = 0%Z → rq_getHeader (text "cookie") [] r0 = rq_getHeader (text "cookie") [] r →
    initCookies r0 tt = Ret (rq_map id id (λ m, foldl (put_param (λ s, Trim s blanks)) m lc) (u8 (Z.lor (rq_flag r0) 4)) r0) tt) by (intros r0 H0 Hr0; apply initCookies_spec; [done|by rewrite Hr0]).
  split_and!.
  - intros key def. exists r3. unfold rq_getParam. rewrite (cbind_Ret _ _ _ _ _ E12), (cbind_Ret _ _ _ _ _ E33).
    assert (Ev : mp_find key (rq_params r3) = first_value id key (q ++ b)); [|by rewrite Ev]. cbn [r3 rq_map rq_params]. rewrite Hp.
    destruct (find_put_params id lq [] key I) as [Ho Ef]. rewrite (proj2 (find_put_params id lb _ key Ho)), Ef, first_value_app. unfold lq, lb. cbn [mp_find list_find fmap option_fmap option_map].
    rewrite !first_value_encoded. by destruct (first_value id key q).
  - intros key def. eexists. unfold rq_getCookie. rewrite (cbind_Ret _ _ _ _ _ (E3 r ltac:(by rewrite Hf) eq_refl)). unfold cret. do 2 f_equal. f_equal. cbn [rq_map rq_cookies]. rewrite Hc.
    rewrite (proj2 (find_put_params _ lc [] key I)). unfold lc. apply first_value_encoded.
  - eexists. split; [|].
    + unfold initParam. rewrite (cbind_Ret _ _ _ _ _ E1), (cbind_Ret _ _ _ _ _ E2). by apply E3.
    + done.
Qed.
(** ** Instances *)
Definition example_request : HttpRequest :=
  mkRequest 3 17 true false 0 ["/"] (text "a=1+2&B=x") [] (text "a=9&c=%26") [(text "Content-Type", form_type); (text "cookie", text " sid=7;k=v")] [] [].
Lemma params_roundtrip_witness : ∃ r', rq_getParam (text "A") [] example_request tt = Ret (text "1 2", r') tt.
Proof.
  destruct (params_roundtrip example_request [(text "a", text "1 2"); (text "B", text "x")] [(text "a", text "9"); (text "c", text "&")] [(text " sid", text "7"); (text "k", text "v")]) as [H _];
    try (vm_compute; reflexivity); try (apply Forall_lookup_2; intros j p Hj; apply (Forall_lookup_1 (λ p : str * str, bool_decide ("=" ∈ p.1) = false) _ j p) in Hj; [by apply bool_decide_eq_false in Hj|];
      repeat constructor).
  destruct (H (text "A") []) as (r' & E & _). exists r'. exact E.
Defined.
(** A parameter without an equals sign becomes part of the name that
    follows. *)
Lemma bare_parameter : parse_all (text "a&b=1") "&" id [] tt = Ret [(text "a&b", text "1")] tt.
Proof. vm_compute. reflexivity. Qed.
(** Names are not decoded. *)
Lemma encoded_name : parse_all (text "a%20b=1") "&" id [] tt = Ret [(text "a%20b", text "1")] tt.
Proof. vm_compute. reflexivity. Qed.
(** A parameter that is deleted before the first look comes back. *)
Lemma deleted_parameter : ∃ r', rq_getParam (text "a") [] (rq_delParam (text "a") example_request) tt = Ret (text "1 2", r') tt.
Proof. eexists. vm_compute. reflexivity. Qed.
