(* ===== verification/HttpMessage.v ===== *)
(** * Printed messages (Sylar/HttpServer/http.cc)

    Names of methods and statuses, and the text of messages: a reader of the
    HTTP format (a start line, header lines, an empty line and as many bytes
    as the content-length header says) finds in what is printed the fields of
    the message, with the connection header once. *)
From Stdlib Require Import ZArith Lia Strings.Byte.
From Stdlib Require Import (notations) Strings.String.
From stdpp Require Import base list list_numbers numbers.
From S2P Require Import Prelude Text Address AddressOrder AddressText LogFormat Http HttpParams.
#[local] Open Scope byte_scope.
Local Open Scope nat_scope.

(** ** Methods *)
Definition apart (a b : str) : bool := negb (starts_with a b) && negb (starts_with b a).
Lemma starts_with_apart a b rest : apart a b = true → starts_with a (b ++ rest) = false.
Proof.
  unfold apart. revert b. induction a as [|x a IH]; intros [|y b]; cbn; try done. case_bool_decide; [|done]. cbn. destruct (bool_decide (y = x)) eqn:E; [apply IH|]. apply bool_decide_eq_false in E. congruence.
Qed.
Lemma method_table_apart i j a b : s_method_string !! i = Some a → s_method_string !! j = Some b → i < j → apart a b = true.
Proof.
  intros Ha Hb Hij. assert (Hc : forallb (λ i, forallb (λ j, negb (i <? j) || match s_method_string !! i, s_method_string !! j with Some a, Some b => apart a b | _, _ => true end) (seq 0 34)) (seq 0 34) = true)
    by (vm_compute; reflexivity).
  assert (Hlen : length s_method_string = 34) by done. apply lookup_lt_Some in Ha as Hi. apply lookup_lt_Some in Hb as Hj. rewrite Hlen in Hi, Hj.
  rewrite forallb_forall in Hc. specialize (Hc i ltac:(apply in_seq; lia)). rewrite forallb_forall in Hc. specialize (Hc j ltac:(apply in_seq; lia)). rewrite Ha, Hb, (proj2 (Nat.ltb_lt _ _) Hij) in Hc. exact Hc.
Qed.
Lemma find_method_spec p i a : s_method_string !! i = Some a → p a = true → (∀ j b, j < i → s_method_string !! j = Some b → p b = false) → find_method p = Z.of_nat i.
Proof. intros Ha Hp Hj. unfold find_method. rewrite (proj2 (list_find_Some _ _ i a)); [done|]. split_and!; [done|done|]. intros j b Hb Hlt H. rewrite (Hj j b Hlt Hb) in H. done. Qed.
Lemma method_string (m : Z) : (0 <= m < 34)%Z → s_method_string !! Z.to_nat m = Some (HttpMethodToString m).
Proof.
  intros Hm. unfold HttpMethodToString. rewrite uwrap_id by (unfold in_u; lia). rewrite (proj2 (Z.ltb_lt _ _)) by lia.
  destruct (lookup_lt_is_Some_2 s_method_string (Z.to_nat m)) as [a Ha]; [cbn; lia|]. rewrite Ha. f_equal. symmetry. by apply nth_lookup_Some.
Qed.
Lemma method_plain (m : Z) : (0 <= m < 34)%Z → Forall (λ b, b ≠ " " ∧ b ≠ "013" ∧ b ≠ x00) (HttpMethodToString m).
Proof.
  intros Hm. pose proof (method_string m Hm) as Hs. assert (Hc : forallb (forallb (λ b, bool_decide (b ≠ " " ∧ b ≠ "013" ∧ b ≠ x00))) s_method_string = true) by (vm_compute; reflexivity).
  rewrite forallb_forall in Hc. specialize (Hc _ ltac:(apply list_elem_of_In; by eapply list_elem_of_lookup_2)). rewrite forallb_forall in Hc. apply Forall_lookup_2. intros j b Hb.
  specialize (Hc b ltac:(apply list_elem_of_In; by eapply list_elem_of_lookup_2)). by apply bool_decide_eq_true in Hc.
Qed.
Lemma c_str_id s : x00 ∉ s → c_str s = s.
Proof. intros H. unfold c_str. by rewrite memchr_none. Qed.
(** The name of a method denotes it, also when more text follows. *)
Lemma method_roundtrip (m : Z) rest : (0 <= m < 34)%Z → StringToHttpMethod (HttpMethodToString m) = m ∧ CharsToHttpMethod (HttpMethodToString m ++ rest) = m.
Proof.
  intros Hm. pose proof (method_string m Hm) as Hs. replace m with (Z.of_nat (Z.to_nat m)) at 2 4 by lia. split.
  - apply (find_method_spec _ _ _ Hs).
    + apply bool_decide_eq_true. rewrite c_str_id; [done|]. intros Hin. apply list_elem_of_lookup_1 in Hin as [j Hj]. by destruct (Forall_lookup_1 _ _ _ _ (method_plain m Hm) Hj) as (_ & _ & ?).
    + intros j b Hj Hb. apply bool_decide_eq_false. intros E. rewrite c_str_id in E.
      * subst b. pose proof (method_table_apart _ _ _ _ Hb Hs Hj) as Ha. unfold apart in Ha. rewrite <- (app_nil_r (HttpMethodToString m)) in Ha at 2. by rewrite starts_with_app in Ha.
      * intros Hin. apply list_elem_of_lookup_1 in Hin as [j' Hj']. by destruct (Forall_lookup_1 _ _ _ _ (method_plain m Hm) Hj') as (_ & _ & ?).
  - apply (find_method_spec _ _ _ Hs); [apply starts_with_app|]. intros j b Hj Hb. apply starts_with_apart. by eapply method_table_apart.
Qed.

(** ** A reader of messages *)
Fixpoint read_line (s : str) : option (str * str) :=
  match s with
  | [] => None
  | c :: r =>
    match r with
    | "010" :: r' => if isc "013" c then Some ([], r') else '(l, t) ← read_line r; Some (c :: l, t)
    | _ => '(l, t) ← read_line r; Some (c :: l, t)
    end
  end.
Fixpoint read_colon (s : str) : option (str * str) :=
  match s with
  | [] => None
  | c :: r =>
    match r with
    | " " :: v => if isc ":" c then Some ([], v) else '(k, v) ← read_colon r; Some (c :: k, v)
    | _ => '(k, v) ← read_colon r; Some (c :: k, v)
    end
  end.
Fixpoint read_headers (fuel : nat) (s : str) : option (list (str * str) * str) :=
  match fuel with
  | O => None
  | S fuel => '(l, r) ← read_line s; if bool_decide (l = []) then Some ([], r) else h ← read_colon l; '(hs, t) ← read_headers fuel r; Some (h :: hs, t)
  end.
(** The start line, the headers, the body and what follows the message. *)
Definition read_message (s : str) : option (str * list (str * str) * str * str) :=
  '(start, r) ← read_line s;
  '(hs, t) ← read_headers (length r) r;
  match mp_find (text "content-length") hs with
  | None => Some (start, hs, [], t)
  | Some n => len ← read_num 10 n; Some (start, hs, take (Z.to_nat len) t, drop (Z.to_nat len) t)
  end.
Lemma read_line_app l r : "013" ∉ l → read_line (l ++ crlf ++ r) = Some (l, r).
Proof.
  induction l as [|c l IH]; intros H; [done|]. apply not_elem_of_cons in H as [Hc Hl]. specialize (IH Hl). cbn [app read_line].
  assert (Hi : isc "013" c = false) by (destruct (isc "013" c) eqn:E; [by apply isc_true in E|done]). rewrite Hi, IH. cbn. destruct (l ++ "013" :: "010" :: r) as [|[] ?]; done.
Qed.
Lemma read_colon_app k v : ":" ∉ k → read_colon (k ++ text ": " ++ v) = Some (k, v).
Proof.
  induction k as [|c k IH]; intros H; [done|]. apply not_elem_of_cons in H as [Hc Hk]. specialize (IH Hk). cbn [app read_colon].
  assert (Hi : isc ":" c = false) by (destruct (isc ":" c) eqn:E; [by apply isc_true in E|done]). rewrite Hi, IH. cbn. destruct (k ++ ":" :: " " :: v) as [|[] ?]; done.
Qed.
Definition header_ok (p : str * str) : Prop := (":" ∉ p.1) ∧ ("013" ∉ p.1) ∧ ("013" ∉ p.2).
Definition print_fields (hs : list (str * str)) : str := hs ≫= λ p, header_line p.1 p.2.
Lemma read_headers_app hs r fuel : Forall header_ok hs → length hs < fuel → read_headers fuel (print_fields hs ++ crlf ++ r) = Some (hs, r).
Proof.
  intros Hh. revert fuel. induction Hh as [|[k v] hs (H1 & H2 & H3) Hh IH]; intros fuel Hf; (destruct fuel as [|fuel]; [lia|]); [done|]. cbn [read_headers print_fields mbind list_bind fst snd] in *.
  unfold header_line at 1. rewrite <- !app_assoc. replace (k ++ text ": " ++ v ++ crlf ++ _) with ((k ++ text ": " ++ v) ++ crlf ++ print_fields hs ++ crlf ++ r) by (rewrite <- !app_assoc; done).
  rewrite read_line_app. 2:{ intros [?|[[=]|[[=]|?]%elem_of_cons]%elem_of_cons]%elem_of_app; done. }
  cbn [mbind option_bind]. rewrite bool_decide_eq_false_2 by (by destruct k). rewrite read_colon_app by done. cbn. rewrite IH by (cbn in Hf; lia). done.
Qed.

(** ** Messages *)
Definition conn_fields (websocket close : bool) : list (str * str) := if websocket then [] else [(text "connection", if close then text "close" else text "keep-alive")].
Definition shown (websocket : bool) (m : MapType) : list (str * str) := filter (λ p, websocket = true ∨ strcasecmp p.1 (text "connection") ≠ Eq) m.
Definition len_fields (body : str) : list (str * str) := if bool_decide (body = []) then [] else [(text "content-length", print_num 10 (Z.of_nat (length body)))].
Lemma print_fields_app a b : print_fields (a ++ b) = print_fields a ++ print_fields b.
Proof. unfold print_fields. apply bind_app. Qed.
Lemma print_headers_shown ws m : print_headers ws m = print_fields (shown ws m).
Proof.
  unfold print_headers, shown, print_fields. induction m as [|p m IH]; [done|]. cbn [mbind list_bind]. rewrite filter_cons, IH.
  destruct ws; cbn [negb andb]; [by rewrite decide_True by auto|]. destruct (strcasecmp p.1 (text "connection")); cbn; [rewrite decide_False by naive_solver|rewrite decide_True by auto..]; done.
Qed.
Lemma print_conn (ws close : bool) : (if ws then @nil byte else connection_line close) = print_fields (conn_fields ws close).
Proof. destruct ws; [done|]. unfold print_fields, conn_fields. cbn [mbind list_bind fst snd]. by rewrite app_nil_r. Qed.
Lemma print_body_fields body : print_body body = print_fields (len_fields body) ++ crlf ++ body.
Proof. unfold print_body, len_fields. case_bool_decide; [by subst|]. unfold print_fields. cbn [mbind list_bind fst snd]. by rewrite app_nil_r. Qed.
Lemma print_cookies l : (l ≫= header_line (text "Set-Cookie")) = print_fields ((λ c, (text "Set-Cookie", c)) <$> l).
Proof. unfold print_fields. induction l as [|c l IH]; [done|]. cbn [mbind list_bind fmap list_fmap fst snd]. by rewrite IH. Qed.
Lemma plain_num v : (0 <= v)%Z → ("013" ∉ print_num 10 v) ∧ (" " ∉ print_num 10 v).
Proof.
  intros Hv. assert (Hd : ∀ fuel v acc, (0 <= v)%Z → Forall (λ b, b ≠ "013" ∧ b ≠ " ") acc → Forall (λ b, b ≠ "013" ∧ b ≠ " ") (num_digits fuel 10 v acc)).
  { assert (Hc : ∀ d, (0 <= d < 10)%Z → num_digit d ≠ "013" ∧ num_digit d ≠ " ").
    { intros d Hd. assert (Hc : forallb (λ d, bool_decide (num_digit d ≠ "013" ∧ num_digit d ≠ " ")) (seqZ 0 10) = true) by (vm_compute; reflexivity).
      rewrite forallb_forall in Hc. specialize (Hc d ltac:(apply list_elem_of_In, elem_of_seqZ; lia)). by apply bool_decide_eq_true in Hc. }
    clear v Hv. induction fuel as [|fuel IH]; intros v acc Hv Ha; cbn [num_digits]; [done|]. destruct (Z.ltb_spec v 10); [constructor; [apply Hc; lia|done]|].
    apply IH; [apply Z.div_pos; lia|]. constructor; [|done]. apply Hc. apply Z.mod_pos_bound. lia. }
  specialize (Hd (S (Z.to_nat v)) v [] Hv ltac:(constructor)). fold (print_num 10 v) in Hd. split; intros Hin; apply list_elem_of_lookup_1 in Hin as [j Hj]; by destruct (Forall_lookup_1 _ _ _ _ Hd Hj).
Qed.
(** No field is called content-length, and all can be read back. *)
Definition fields_ok (hs : list (str * str)) : Prop := Forall (λ p, header_ok p ∧ strcasecmp p.1 (text "content-length") ≠ Eq) hs.
Lemma read_printed start hs body more : "013" ∉ start → fields_ok hs →
  read_message (start ++ crlf ++ print_fields hs ++ print_fields (len_fields body) ++ crlf ++ body ++ more) = Some (start, hs ++ len_fields body, body, more).
Proof.
  intros Hs Hh. unfold read_message. rewrite read_line_app by done. cbn [mbind option_bind]. rewrite (app_assoc (print_fields hs)), <- print_fields_app.
  assert (Hok : Forall header_ok (hs ++ len_fields body)).
  { apply Forall_app. split; [apply Forall_lookup_2; intros j p Hj; by apply (Forall_lookup_1 _ _ _ _ Hh Hj)|]. unfold len_fields. case_bool_decide; [constructor|]. apply Forall_singleton.
    split_and!; cbn [fst snd]; [by apply (bool_decide_unpack _)..|]. by apply plain_num; lia. }
  assert (Hlen : ∀ l, length l <= length (print_fields l)).
  { induction l as [|p l IH]; [done|]. unfold print_fields in *. cbn [mbind list_bind length]. rewrite length_app. unfold header_line at 1. rewrite !length_app. change (length crlf) with 2. lia. }
  rewrite read_headers_app; [|done|specialize (Hlen (hs ++ len_fields body)); rewrite (length_app (print_fields _)), (length_app crlf); change (length crlf) with 2; lia]. cbn [mbind option_bind].
  assert (Hf : mp_find (text "content-length") (hs ++ len_fields body) = mp_find (text "content-length") (len_fields body)).
  { clear -Hh. induction Hh as [|p hs [_ Hp] Hh IH]; [done|]. cbn [app]. by rewrite mp_find_cons, decide_False. }
  rewrite Hf. unfold len_fields. case_bool_decide as Hb; [by subst|]. rewrite mp_find_cons. cbn [fst snd]. rewrite decide_True by (apply strcasecmp_eq; done).
  rewrite (proj2 (proj2 (print_num_spec 10 (Z.of_nat (length body)) ltac:(lia)))). cbn [mbind option_bind]. rewrite Nat2Z.id, take_app_length, drop_app_length. done.
Qed.
Definition request_target (r : HttpRequest) : str :=
  rq_path r ++ (if bool_decide (rq_query r = []) then [] else ["?"]) ++ rq_query r ++ (if bool_decide (rq_fragment r = []) then [] else ["#"]) ++ rq_fragment r.
Definition request_line (r : HttpRequest) : str := HttpMethodToString (rq_method r) ++ " " :: request_target r ++ " " :: print_version (rq_version r).
Definition status_line (r : HttpResponse) : str :=
  print_version (rs_version r) ++ " " :: print_num 10 (u32 (rs_status r)) ++ " " :: if bool_decide (rs_reason r = []) then HttpStatusToString (rs_status r) else rs_reason r.
Definition response_fields (r : HttpResponse) : list (str * str) :=
  shown (rs_websocket r) (rs_headers r) ++ ((λ c, (text "Set-Cookie", c)) <$> rs_cookies r) ++ conn_fields (rs_websocket r) (rs_close r).
(** A part of the start line: no blank and no carriage return. *)
Definition word (s : str) : Prop := Forall (λ b, b ≠ " " ∧ b ≠ "013") s.
Lemma word_not s : word s → (" " ∉ s) ∧ ("013" ∉ s).
Proof. intros H. split; intros Hin; apply list_elem_of_lookup_1 in Hin as [j Hj]; by destruct (Forall_lookup_1 _ _ _ _ H Hj). Qed.
Lemma word_version v : (0 <= v)%Z → word (print_version v).
Proof.
  intros Hv. assert (Hn : ∀ n, (0 <= n)%Z → word (print_num 10 n)).
  { intros n Hn. destruct (plain_num n Hn) as [H1 H2]. apply Forall_lookup_2. intros j b Hb%list_elem_of_lookup_2. split; congruence. }
  unfold print_version, word. apply Forall_app. split; [repeat (constructor; [done|]); constructor|]. apply Forall_app. split; [apply Hn; by apply Z.shiftr_nonneg|].
  constructor; [done|]. apply Hn. apply Z.land_nonneg. lia.
Qed.
Lemma conn_fields_ok ws close : fields_ok (conn_fields ws close).
Proof. destruct ws; [constructor|]. apply Forall_singleton. split; [|done]. destruct close; split_and!; by apply (bool_decide_unpack _). Qed.
Lemma shown_ok ws m : fields_ok m → fields_ok (shown ws m).
Proof. intros H. apply Forall_lookup_2. intros j p Hj%list_elem_of_lookup_2. apply list_elem_of_filter in Hj as [_ [j' Hj']%list_elem_of_lookup_1]. by apply (Forall_lookup_1 _ _ _ _ H Hj'). Qed.

Lemma status_plain (st : Z) : "013" ∉ HttpStatusToString st.
Proof.
  assert (Hc : forallb (λ p, negb (bool_decide ("013" ∈ p.2))) status_table = true) by (vm_compute; reflexivity). unfold HttpStatusToString.
  destruct (list_find _ status_table) as [[j p]|] eqn:E; [|by apply (bool_decide_unpack _)]. apply list_find_Some in E as (Hj & _). rewrite forallb_forall in Hc.
  specialize (Hc p ltac:(apply list_elem_of_In; by eapply list_elem_of_lookup_2)). by destruct (bool_decide_reflect ("013" ∈ p.2)).
Qed.
Lemma fields_sep d f s : d ∉ f → fields d (f ++ d :: s) = f :: fields d s.
Proof. intros H. rewrite fields_app by done. cbn [fields]. rewrite bool_decide_eq_true_2 by done. by rewrite app_nil_r. Qed.
Lemma fields_one d f : d ∉ f → fields d f = [f].
Proof. intros H. rewrite <- (app_nil_r f) at 1. rewrite fields_app by done. cbn [fields]. by rewrite app_nil_r. Qed.
(** C28: What is printed is a message with the fields of the object. A reader of
    the HTTP format, given a printed request or response and anything after
    it, finds the start line, the headers (one connection header unless the
    message is for a WebSocket, the others in order, cookies as Set-Cookie,
    and the length of the body if there is one), the body and the rest; and
    the words of a request line are the method, the target and the
    version. *)
Theorem message_roundtrip (r : HttpRequest) (s : HttpResponse) (more : str) :
  (0 <= rq_method r < 34)%Z → (0 <= rq_version r)%Z → word (request_target r) → fields_ok (rq_headers r) →
  (0 <= rs_version s)%Z → ("013" ∉ rs_reason s) → fields_ok (rs_headers s) → Forall (λ c, "013" ∉ c) (rs_cookies s) →
  read_message (rq_dump r ++ more) =
    Some (request_line r, conn_fields (rq_websocket r) (rq_close r) ++ shown (rq_websocket r) (rq_headers r) ++ len_fields (rq_body r), rq_body r, more) ∧
  fields " " (request_line r) = [HttpMethodToString (rq_method r); request_target r; print_version (rq_version r)] ∧ StringToHttpMethod (HttpMethodToString (rq_method r)) = rq_method r ∧
  read_message (rs_dump s ++ more) = Some (status_line s, response_fields s ++ len_fields (rs_body s), rs_body s, more).
Proof.
  intros Hm Hv Ht Hh Hvs Hr Hhs Hc. pose proof (word_not _ Ht) as [Ht1 Ht2]. pose proof (word_not _ (word_version _ Hv)) as [Hv1 Hv2]. pose proof (word_not _ (word_version _ Hvs)) as [_ Hvs2].
  assert (word (HttpMethodToString (rq_method r))) as [Hm1 Hm2]%word_not by (eapply Forall_impl; [|by apply method_plain]; naive_solver). split_and!.
  - rewrite (app_assoc (conn_fields _ _)). erewrite <- read_printed; [f_equal| |by apply Forall_app; split; [apply conn_fields_ok|by apply shown_ok]].
    + unfold rq_dump, request_line, request_target. rewrite print_body_fields, print_headers_shown, print_conn, print_fields_app, <- !app_assoc. cbn [text app String.list_byte_of_string]. by rewrite <- !app_assoc.
    + unfold request_line. intros [?|[[=]|[?|[[=]|?]%elem_of_cons]%elem_of_app]%elem_of_cons]%elem_of_app; done.
  - unfold request_line. by rewrite !fields_sep, fields_one.
  - by apply method_roundtrip.
  - erewrite <- read_printed; [f_equal| |].
    + unfold rs_dump, status_line, response_fields. rewrite print_body_fields, print_headers_shown, print_cookies, print_conn, !print_fields_app, <- !app_assoc. cbn [text app]. by rewrite <- !app_assoc.
    + unfold status_line. intros [?|[[=]|[H|[[=]|H]%elem_of_cons]%elem_of_app]%elem_of_cons]%elem_of_app; [done|by apply plain_num in H; [|apply uwrap_range]|].
      case_bool_decide; [|done]. by apply status_plain in H.
    + unfold response_fields. apply Forall_app. split; [by apply shown_ok|]. apply Forall_app. split; [|apply conn_fields_ok]. apply Forall_fmap. eapply Forall_impl; [|exact Hc].
      intros c Hc'. split; [|done]. split_and!; [by apply (bool_decide_unpack _)..|done].
Qed.
(** ** Instances *)
Definition sample_request : HttpRequest := mkRequest 3 17 false false 0 (text "/a") (text "k=v") [] (text "body") [(text "Connection", text "close"); (text "Host", text "h")] [] [].
Definition sample_response : HttpResponse := mkResponse 404 17 true false (text "none") [] [(text "Server", text "Sylar")] [text "id=7"].
Lemma message_roundtrip_witness : read_message (rs_dump sample_response ++ text "more") =
  Some (text "HTTP/1.1 404 Not Found", [(text "Server", text "Sylar"); (text "Set-Cookie", text "id=7"); (text "connection", text "close"); (text "content-length", text "4")], text "none", text "more") ∧
  fields " " (request_line sample_request) = [text "POST"; text "/a?k=v"; text "HTTP/1.1"].
Proof.
  destruct (message_roundtrip sample_request sample_response (text "more")) as (_ & H2 & _ & H4); [cbn; lia..| | |cbn; lia| | | |].
  - apply (bool_decide_unpack _). vm_compute. exact I.
  - apply (bool_decide_unpack _). vm_compute. exact I.
  - apply (bool_decide_unpack _). vm_compute. exact I.
  - apply (bool_decide_unpack _). vm_compute. exact I.
  - apply (bool_decide_unpack _). vm_compute. exact I.
  - split; [exact H4|exact H2].
Defined.
(** The length of the body is printed a second time after a content-length
    header of the user. *)
Lemma two_lengths : rq_dump (rq_setHeader (text "Content-Length") (text "9") (mkRequest 3 17 true false 0 ["/"] [] [] (text "ab") [] [] [])) =
  text "POST / HTTP/1.1" ++ crlf ++ text "connection: close" ++ crlf ++ text "Content-Length: 9" ++ crlf ++ text "content-length: 2" ++ crlf ++ crlf ++ text "ab".
Proof. vm_compute. reflexivity. Qed.
(** A method is read from the start of a longer word. *)
Lemma method_prefix : CharsToHttpMethod (text "GETTING") = 1%Z ∧ StringToHttpMethod (text "GETTING") = INVALID_METHOD.
Proof. vm_compute. done. Qed.
