(* ===== verification/Servlet.v ===== *)
(** * Dispatch of requests to servlets (Sylar/HttpServer/servlet.h, servlet.cc)

    ServletDispatch keeps creators of servlets by exact path and by pattern. A
    map from paths is the list of its entries; a servlet is held by its
    creator or made by it for each request; fnmatch is an argument. *)
From Stdlib Require Import ZArith Lia Strings.Byte.
From Stdlib Require Import (notations) Strings.String.
From stdpp Require Import base list list_numbers numbers.
From S2P Require Import Prelude Text Address AddressOrder LogFormat Http HttpParams.
#[local] Open Scope byte_scope.
Local Open Scope nat_scope.

(** ** State *)
(** A servlet that exists (null, or its number) or that is made of a class. *)
Inductive creator := HoldServletCreator (slt : option nat) | ServletCreator (cls : nat).
Inductive servlet := Existing (n : nat) | NewOf (cls : nat) | NotFoundServlet (content : str).
#[export] Instance creator_eq_dec : EqDecision creator.
Proof. solve_decision. Defined.
Definition creator_get (c : creator) : option servlet := match c with HoldServletCreator s => Existing <$> s | ServletCreator cls => Some (NewOf cls) end.
Record ServletDispatch := mkDispatch { sd_datas : list (str * creator); sd_globs : list (str * creator); sd_default : option servlet }.
Definition NotFoundServlet_new (name : str) : servlet :=
  NotFoundServlet (text "<html><head><title>404 Not Found</title></head><body><center><h1>404 Not Found</h1></center><hr><center>" ++ name ++ text "</center></body></html>").
Definition ServletDispatch_new : ServletDispatch := mkDispatch [] [] (Some (NotFoundServlet_new (text "Sylar/1.0"))).

(** ** Operations *)
Definition with_datas f d := mkDispatch (f (sd_datas d)) (sd_globs d) (sd_default d).
Definition with_globs f d := mkDispatch (sd_datas d) (f (sd_globs d)) (sd_default d).
Definition addServletCreator (uri : str) (c : creator) : ServletDispatch → ServletDispatch := with_datas (al_set uri c).
Definition addServlet (uri : str) (slt : option nat) : ServletDispatch → ServletDispatch := with_datas (al_set uri (HoldServletCreator slt)).
Definition addGlobServletCreator (uri : str) (c : creator) : ServletDispatch → ServletDispatch := with_globs (λ l, al_erase uri l ++ [(uri, c)]).
Definition addGlobServlet (uri : str) (slt : option nat) : ServletDispatch → ServletDispatch := with_globs (λ l, al_erase uri l ++ [(uri, HoldServletCreator slt)]).
Definition delServlet (uri : str) : ServletDispatch → ServletDispatch := with_datas (al_erase uri).
Definition delGlobServlet (uri : str) : ServletDispatch → ServletDispatch := with_globs (al_erase uri).
Definition getServlet (uri : str) (d : ServletDispatch) : option servlet := c ← al_find uri (sd_datas d); creator_get c.
Definition getGlobServlet (uri : str) (d : ServletDispatch) : option servlet := c ← al_find uri (sd_globs d); creator_get c.
Section dispatch.
Context (fnmatch : str → str → bool).
Definition getMatchedServlet (uri : str) (d : ServletDispatch) : option servlet :=
  match al_find uri (sd_datas d) with
  | Some c => creator_get c
  | None =>
    match list_find (λ p, fnmatch (c_str p.1) (c_str uri) = true) (sd_globs d) with
    | Some (_, p) => creator_get p.2
    | None => sd_default d
    end
  end.
(** handle of a servlet of the user is an argument *)
Context (user_handle : servlet → HttpRequest → HttpResponse → HttpResponse).
Definition servlet_handle (s : servlet) (req : HttpRequest) (rsp : HttpResponse) : HttpResponse :=
  match s with
  | NotFoundServlet content =>
    rs_setBody content (rs_setHeader (text "Content-Type") (text "text/html") (rs_setHeader (text "Server") (text "Sylar/1.0.0") (rs_setStatus 404 rsp)))
  | _ => user_handle s req rsp
  end.
Definition dispatch_handle (d : ServletDispatch) (req : HttpRequest) (rsp : HttpResponse) : HttpResponse :=
  match getMatchedServlet (rq_path req) d with Some s => servlet_handle s req rsp | None => rsp end.

(** ** Histories *)
Inductive sd_op := OpExact (uri : str) (c : option creator) | OpGlob (uri : str) (c : option creator).
(** A creator is added or, with [None], one is deleted. *)
Definition sd_exec (o : sd_op) : ServletDispatch → ServletDispatch :=
  match o with
  | OpExact uri (Some (HoldServletCreator s)) => addServlet uri s
  | OpExact uri (Some c) => addServletCreator uri c
  | OpExact uri None => delServlet uri
  | OpGlob uri (Some (HoldServletCreator s)) => addGlobServlet uri s
  | OpGlob uri (Some c) => addGlobServletCreator uri c
  | OpGlob uri None => delGlobServlet uri
  end.
Definition sd_run (h : list sd_op) : ServletDispatch := foldl (λ d o, sd_exec o d) ServletDispatch_new h.
Definition about (glob : bool) (uri : str) (o : sd_op) : option (option creator) :=
  match o, glob with
  | OpExact u c, false | OpGlob u c, true => if bool_decide (u = uri) then Some c else None
  | _, _ => None
  end.
(** When and with what a path or pattern was registered last, unless it was
    deleted since. *)
Fixpoint registered (glob : bool) (uri : str) (n : nat) (h : list sd_op) (acc : option (nat * creator)) : option (nat * creator) :=
  match h with
  | [] => acc
  | o :: h => registered glob uri (S n) h (match about glob uri o with Some c => (λ c, (n, c)) <$> c | None => acc end)
  end.
Definition registration (glob : bool) (uri : str) (h : list sd_op) : option (nat * creator) := registered glob uri 0 h None.
Lemma registered_snoc glob uri n h o acc :
  registered glob uri n (h ++ [o]) acc = match about glob uri o with Some c => (λ c, (n + length h, c)) <$> c | None => registered glob uri n h acc end.
Proof.
  revert n acc. induction h as [|o' h IH]; intros n acc; cbn [app registered length]; [by rewrite Nat.add_0_r|]. rewrite IH. replace (S n + length h) with (n + S (length h)) by lia. done.
Qed.
Lemma registration_snoc glob uri h o : registration glob uri (h ++ [o]) = match about glob uri o with Some c => (λ c, (length h, c)) <$> c | None => registration glob uri h end.
Proof. unfold registration. by rewrite registered_snoc. Qed.
Lemma registration_lt glob uri h n c : registration glob uri h = Some (n, c) → n < length h.
Proof.
  induction h as [|o h IH] using rev_ind; [done|]. rewrite registration_snoc, length_app. cbn. destruct (about glob uri o) as [[c'|]|]; cbn; [intros [= <- <-]; lia|done|intros ?%IH; lia].
Qed.

(** ** What the dispatcher knows *)
Fixpoint ordered (f : str → nat) (l : list (str * creator)) : Prop := match l with [] => True | p :: l => Forall (λ q, f p.1 < f q.1) l ∧ ordered f l end.
Lemma ordered_erase f k l : ordered f l → ordered f (al_erase k l).
Proof.
  induction l as [|[k1 c1] l IH]; cbn [al_erase ordered]; [done|]. intros [Hf Ho]. case_bool_decide; [done|]. split; [|by apply IH].
  apply Forall_lookup_2. intros j q Hj%list_elem_of_lookup_2%al_erase_in. apply list_elem_of_lookup_1 in Hj as [j' Hj]. by apply (Forall_lookup_1 _ _ _ _ Hf Hj).
Qed.
Lemma ordered_ext f g l : (∀ q, q ∈ l → f q.1 = g q.1) → ordered f l → ordered g l.
Proof.
  induction l as [|p l IH]; [done|]. intros He [Hf Ho]. split; [|apply IH; [intros q Hq; apply He; by right|done]].
  apply Forall_lookup_2. intros j q Hj. pose proof (Forall_lookup_1 _ _ _ _ Hf Hj) as H. cbn in H. rewrite <- !He; [done|right; by eapply list_elem_of_lookup_2|left].
Qed.
Lemma ordered_snoc f l q : ordered f l → Forall (λ p, f p.1 < f q.1) l → ordered f (l ++ [q]).
Proof.
  induction l as [|p l IH]; cbn [app ordered]; [done|]. intros [Hf Ho] [Hp Hl]%Forall_cons_1. split; [|by apply IH]. apply Forall_app. split; [done|]. by apply Forall_singleton.
Qed.
Definition stamp (h : list sd_op) (uri : str) : nat := default 0 (fst <$> registration true uri h).
Record SdInv (h : list sd_op) (d : ServletDispatch) : Prop := {
  si_datas : NoDup (sd_datas d).*1;
  si_globs : NoDup (sd_globs d).*1;
  si_exact uri : al_find uri (sd_datas d) = snd <$> registration false uri h;
  si_glob uri : al_find uri (sd_globs d) = snd <$> registration true uri h;
  si_order : ordered (stamp h) (sd_globs d);
  si_default : sd_default d = sd_default ServletDispatch_new
}.
Lemma sd_exec_eq o d : sd_exec o d = match o with
  | OpExact uri (Some c) => with_datas (al_set uri c) d
  | OpExact uri None => with_datas (al_erase uri) d
  | OpGlob uri (Some c) => with_globs (λ l, al_erase uri l ++ [(uri, c)]) d
  | OpGlob uri None => with_globs (al_erase uri) d
  end.
Proof. by destruct o as [u [[]|]|u [[]|]]. Qed.
Lemma sd_globs_other h o d : SdInv h d → (∀ uri, about true uri o = None) → ordered (stamp (h ++ [o])) (sd_globs d).
Proof. intros HI Ho. eapply ordered_ext; [|by apply (si_order _ _ HI)]. intros q _. unfold stamp. by rewrite registration_snoc, Ho. Qed.
Lemma sd_globs_erase h u c d : SdInv h d → ordered (stamp (h ++ [OpGlob u c])) (al_erase u (sd_globs d)).
Proof.
  intros HI. eapply ordered_ext; [|apply ordered_erase, (si_order _ _ HI)]. intros q Hq. unfold stamp. rewrite registration_snoc. cbn. rewrite bool_decide_eq_false_2; [done|]. intros ->.
  destruct (al_erase_keys q.1 _ (si_globs _ _ HI)) as [_ Hf]. assert (is_Some (al_find q.1 (al_erase q.1 (sd_globs d)))) as Hs by (by apply al_find_In, list_elem_of_fmap_2). rewrite Hf, decide_True in Hs by done. by destruct Hs.
Qed.
Lemma sd_exec_inv h o d : SdInv h d → SdInv (h ++ [o]) (sd_exec o d).
Proof.
  intros HI. pose proof HI as [H1 H2 H3 H4 H5 H6]. rewrite sd_exec_eq. destruct o as [u [c|]|u [c|]]; split; cbn [sd_datas sd_globs sd_default with_datas with_globs]; try done.
  - by apply al_set_keys.
  - intros uri. rewrite al_find_set, registration_snoc. cbn. by destruct (decide (u = uri)) as [->|]; [rewrite bool_decide_eq_true_2|rewrite bool_decide_eq_false_2].
  - intros uri. by rewrite registration_snoc.
  - by apply sd_globs_other.
  - by apply al_erase_keys.
  - intros uri. rewrite (proj2 (al_erase_keys u _ H1)), registration_snoc. cbn. by destruct (decide (u = uri)) as [->|]; [rewrite bool_decide_eq_true_2|rewrite bool_decide_eq_false_2].
  - intros uri. by rewrite registration_snoc.
  - by apply sd_globs_other.
  - rewrite fmap_app. apply list.NoDup_app. destruct (al_erase_keys u _ H2) as [Hd Hf]. split_and!; [done| |apply NoDup_singleton].
    intros k Hk ->%list_elem_of_singleton. apply al_find_In in Hk. rewrite Hf, decide_True in Hk by done. by destruct Hk.
  - intros uri. by rewrite registration_snoc.
  - intros uri. destruct (al_erase_keys u _ H2) as [Hd Hf]. rewrite al_find_snoc, Hf, registration_snoc.
    + cbn. by destruct (decide (u = uri)) as [->|]; [rewrite bool_decide_eq_true_2|rewrite bool_decide_eq_false_2].
    + rewrite <- al_find_In, Hf, decide_True by done. by intros [].
  - apply ordered_snoc; [by apply sd_globs_erase|]. destruct (al_erase_keys u _ H2) as [Hd Hf]. apply Forall_lookup_2. intros j q Hj%list_elem_of_lookup_2. cbn.
    assert (Hs : is_Some (al_find q.1 (al_erase u (sd_globs d)))) by (by apply al_find_In, list_elem_of_fmap_2). rewrite Hf in Hs. destruct (decide (u = q.1)) as [|Hne]; [by destruct Hs|].
    unfold stamp. rewrite !registration_snoc. cbn. rewrite bool_decide_eq_false_2, bool_decide_eq_true_2 by done. cbn. rewrite H4 in Hs. destruct (registration true q.1 h) as [[n c']|] eqn:Er; [|by destruct Hs]. by apply registration_lt in Er.
  - by apply al_erase_keys.
  - intros uri. by rewrite registration_snoc.
  - intros uri. rewrite (proj2 (al_erase_keys u _ H2)), registration_snoc. cbn. by destruct (decide (u = uri)) as [->|]; [rewrite bool_decide_eq_true_2|rewrite bool_decide_eq_false_2].
  - by apply sd_globs_erase.
Qed.
Lemma sd_run_inv h : SdInv h (sd_run h).
Proof.
  induction h as [|o h IH] using rev_ind; [split; cbn; try done; apply NoDup_nil_2|]. unfold sd_run. rewrite foldl_app. by apply sd_exec_inv.
Qed.
Lemma ordered_first f l j p : ordered f l → l !! j = Some p → ∀ i q, i < j → l !! i = Some q → f q.1 < f p.1.
Proof.
  revert j. induction l as [|x l IH]; intros j Ho Hj i q Hij Hi; [done|]. destruct Ho as [Hf Ho]. destruct j as [|j]; [lia|]. destruct i as [|i]; cbn in Hi, Hj.
  - injection Hi as ->. by apply (Forall_lookup_1 _ _ _ _ Hf Hj).
  - eapply IH; [done|done| |done]. lia.
Qed.

(** C26: After any history of registrations and deletions a path is dispatched
    to the servlet registered last for exactly that path, if it was not
    deleted since; else to the one of the pattern that matches and was
    registered first (a pattern that is registered again counts from then
    on); else to the default, which answers 404 and keeps the version of the
    request's response. *)
Theorem dispatch_history (h : list sd_op) (uri : str) (d := sd_run h) :
  match registration false uri h with
  | Some (_, c) => getMatchedServlet uri d = creator_get c
  | None =>
    (∃ p n c, registration true p h = Some (n, c) ∧ fnmatch (c_str p) (c_str uri) = true ∧ getMatchedServlet uri d = creator_get c ∧
      ∀ p' n' c', registration true p' h = Some (n', c') → fnmatch (c_str p') (c_str uri) = true → n <= n') ∨
    ((∀ p n c, registration true p h = Some (n, c) → fnmatch (c_str p) (c_str uri) = false) ∧
      ∀ req rsp, rq_path req = uri → rs_status (dispatch_handle d req rsp) = 404%Z ∧ rs_version (dispatch_handle d req rsp) = rs_version rsp)
  end.
Proof.
  pose proof (sd_run_inv h) as [H1 H2 H3 H4 H5 H6]. fold d in H1, H2, H3, H4, H5, H6. unfold dispatch_handle, getMatchedServlet. rewrite H3. destruct (registration false uri h) as [[n c]|] eqn:Ed; cbn [fmap option_fmap option_map]; [done|].
  assert (Hreg : ∀ p n c, registration true p h = Some (n, c) → ∃ j, sd_globs d !! j = Some (p, c)).
  { intros p n c Hp. assert (Hf : al_find p (sd_globs d) = Some c) by (by rewrite H4, Hp). unfold al_find in Hf. destruct (list_find _ (sd_globs d)) as [[j [p' c']]|] eqn:El; [|done].
    apply list_find_Some in El as (Hj & E & _). cbn in *. injection Hf as ->. subst. eauto. }
  destruct (list_find _ (sd_globs d)) as [[j [p c]]|] eqn:El.
  - left. apply list_find_Some in El as (Hj & Hm & Hbefore). cbn in Hm. assert (Hf : al_find p (sd_globs d) = Some c).
    { unfold al_find. rewrite (proj2 (list_find_Some _ _ j (p, c))); [done|]. split_and!; [done|done|]. intros i q Hi Hlt <-. apply (f_equal (fmap fst)) in Hi, Hj. rewrite <- list_lookup_fmap in Hi, Hj.
      pose proof (NoDup_lookup _ _ _ _ H2 Hi Hj). lia. }
    rewrite H4 in Hf. destruct (registration true p h) as [[n c']|] eqn:Er; [|done]. injection Hf as ->. exists p, n, c. split_and!; [done|done|done|]. intros p' n' c' Hr' Hm'.
    destruct (Hreg _ _ _ Hr') as [i Hi]. destruct (decide (i < j)) as [Hij|Hij]; [exfalso; by apply (Hbefore i (p', c') Hi Hij)|]. destruct (decide (i = j)) as [->|].
    + rewrite Hj in Hi. injection Hi as -> ->. rewrite Er in Hr'. injection Hr' as ->. done.
    + pose proof (ordered_first _ _ i (p', c') H5 Hi j (p, c) ltac:(lia) Hj) as Hlt. unfold stamp in Hlt. cbn in Hlt. rewrite Er, Hr' in Hlt. cbn in Hlt. lia.
  - right. apply list_find_None in El. split.
    + intros p n c Hp. destruct (Hreg _ _ _ Hp) as [j Hj]. pose proof (Forall_lookup_1 _ _ _ _ El Hj) as H. cbn in H. by destruct (fnmatch _ _).
    + intros req rsp ->. rewrite H3, Ed. cbn. destruct (list_find _ (sd_globs d)) as [[j q]|] eqn:El'; [|by rewrite H6].
      apply list_find_Some in El' as (Hj & Hm & _). by apply (Forall_lookup_1 _ _ _ _ El Hj) in Hm.
Qed.
End dispatch.
