(* ===== verification/HttpSession.v ===== *)
(** * HTTP over a connection (Sylar/HttpServer/http_parser.cc, http_session.cc,
    http_server.cc)

    The callbacks that build a request while the header is parsed, the
    session that reads requests and sends responses, and the loop of the
    server. The automaton that recognises the header is generated during the
    build: it is a parameter that consumes bytes and calls back. *)
From Stdlib Require Import ZArith Lia Strings.Byte.
From Stdlib Require Import (notations) Strings.String.
From stdpp Require Import base list list_numbers numbers.
From S2P Require Import Prelude Stream Text Address AddressOrder LogFormat Http Servlet.
#[local] Open Scope byte_scope.
Local Open Scope nat_scope.

(** http_parser_execute from the start of a buffer: the bytes consumed, the
    calls it made, the automaton after them. *)
Class Automaton (A E : Type) := {
  a_init : A;
  a_execute : A → str → nat * list E * A;
  a_error : A → bool;
  a_finished : A → bool
}.
(** A callback gets the buffer from the token on, and the length of the token. *)
Inductive rq_event :=
  | OnMethod (at_ : str) (len : nat) | OnUri (at_ : str) (len : nat) | OnFragment (at_ : str) (len : nat) | OnPath (at_ : str) (len : nat) | OnQuery (at_ : str) (len : nat)
  | OnVersion (at_ : str) (len : nat) | OnHeaderDone | OnField (field : str) (flen : nat) (value : str) (vlen : nat).

(** ** Callbacks *)
Definition rq_with (method version : Z) (path query fragment : str) (r : HttpRequest) : HttpRequest :=
  mkRequest method version (rq_close r) (rq_websocket r) (rq_flag r) path query fragment (rq_body r) (rq_headers r) (rq_params r) (rq_cookies r).
Definition rq_setBody (body : str) (r : HttpRequest) : HttpRequest :=
  mkRequest (rq_method r) (rq_version r) (rq_close r) (rq_websocket r) (rq_flag r) (rq_path r) (rq_query r) (rq_fragment r) body (rq_headers r) (rq_params r) (rq_cookies r).
(** strncmp(a, b, n) == 0 *)
Definition strncmp_eq (n : nat) (a b : str) : bool := bool_decide (take n (c_str a ++ [x00]) = take n (c_str b ++ [x00])).
(** m_error and m_data of the parser *)
Definition parsed := (Z * HttpRequest)%type.
Definition on_request_method (at_ : str) (p : parsed) : parsed :=
  let m := CharsToHttpMethod at_ in
  if (m =? INVALID_METHOD)%Z then (1000%Z, p.2) else (p.1, rq_with m (rq_version p.2) (rq_path p.2) (rq_query p.2) (rq_fragment p.2) p.2).
Definition on_request_version (at_ : str) (len : nat) (p : parsed) : parsed :=
  let set v := (p.1, rq_with (rq_method p.2) v (rq_path p.2) (rq_query p.2) (rq_fragment p.2) p.2) in
  if strncmp_eq len at_ (text "HTTP/1.1") then set 17%Z else if strncmp_eq len at_ (text "HTTP/1.0") then set 16%Z else (1001%Z, p.2).
Definition on_request_http_field (field : str) (flen : nat) (value : str) (vlen : nat) (p : parsed) : parsed :=
  if flen =? 0 then p else (p.1, rq_setHeader (take flen field) (take vlen value) p.2).
Definition on_request (p : parsed) (e : rq_event) : parsed :=
  let r := p.2 in
  match e with
  | OnMethod a _ => on_request_method a p
  | OnUri _ _ | OnHeaderDone => p
  | OnFragment a n => (p.1, rq_with (rq_method r) (rq_version r) (rq_path r) (rq_query r) (take n a) r)
  | OnPath a n => (p.1, rq_with (rq_method r) (rq_version r) (take n a) (rq_query r) (rq_fragment r) r)
  | OnQuery a n => (p.1, rq_with (rq_method r) (rq_version r) (rq_path r) (take n a) (rq_fragment r) r)
  | OnVersion a n => on_request_version a n p
  | OnField f fn v vn => on_request_http_field f fn v vn p
  end.
Definition request_start : parsed := (0%Z, HttpRequest_new 17 true).

Section session.
Context {A S : Type} `{!Automaton A rq_event, !Socket S} (cast_u64 : str → option Z).
(** HttpRequestParser::execute, hasError and getContentLength *)
Definition rp_execute (a : A) (p : parsed) (data : str) : nat * A * parsed :=
  let '(n, es, a) := a_execute a data in (n, a, foldl on_request p es).
Definition rp_hasError (a : A) (p : parsed) : bool := negb (p.1 =? 0)%Z || a_error a.
Definition rp_getContentLength (p : parsed) : Z := getAs cast_u64 (rq_headers p.2) (text "content-length") 0%Z.

(** ** HttpSession *)
Definition close_null {B} : M S (option B) := let! _ := stream_close in cret None.
(** The loop that reads the header: what it read behind it, and the request. *)
Fixpoint recv_header (fuel : nat) (buff_size : nat) (a : A) (p : parsed) (data : str) : M S (option (str * parsed)) :=
  match fuel with
  | O => cstuck OutOfFuel
  | Datatypes.S fuel =>
    let! (len, bs) := stream_read (buff_size - length data) in
    if (len <=? 0)%Z then close_null
    else
      let data := data ++ bs in
      let '(nparse, a, p) := rp_execute a p data in
      if rp_hasError a p then close_null
      else
        let data := drop nparse data in
        if length data =? buff_size then close_null
        else if a_finished a then cret (Some (data, p)) else recv_header fuel buff_size a p data
  end.
(** [data] is what was read behind the header. *)
Definition recv_body (data : str) (p : parsed) : M S (option HttpRequest) :=
  let length := i64 (rp_getContentLength p) in
  if (0 <? length)%Z then
    let left := (length - Z.of_nat (List.length data))%Z in
    if (0 <? left)%Z then
      let! (rt, bs) := readFixSize left in
      if (rt <=? 0)%Z then close_null else cret (Some (rq_init (rq_setBody (data ++ bs) p.2)))
    else cret (Some (rq_init (rq_setBody (take (Z.to_nat length) data) p.2)))
  else cret (Some (rq_init p.2)).
Definition recvRequest (fuel buff_size : nat) : M S (option HttpRequest) :=
  let! h := recv_header fuel buff_size a_init request_start [] in
  match h with None => cret None | Some (data, p) => recv_body data p end.
Definition sendResponse (rsp : HttpResponse) : M S Z := writeFixSize (rs_dump rsp) (Z.of_nat (length (rs_dump rsp))).

(** ** HttpServer *)
Context (keepalive : bool) (name : str) (handle : HttpRequest → HttpResponse → HttpResponse).
Definition respond (req : HttpRequest) : HttpResponse := handle req (rs_setHeader (text "Server") name (HttpResponse_new (rq_version req) (rq_close req || negb keepalive))).
Fixpoint client_loop (fuel buff_size : nat) : M S unit :=
  match fuel with
  | O => cstuck OutOfFuel
  | Datatypes.S fuel' =>
    let! req := recvRequest fuel buff_size in
    match req with
    | None => cret tt
    | Some req =>
      let! _ := sendResponse (respond req) in
      if negb keepalive || rq_close req then cret tt else client_loop fuel' buff_size
    end
  end.
Definition handleClient (fuel buff_size : nat) : M S unit := let! _ := client_loop fuel buff_size in stream_close.
End session.

(** ** The loops end *)
Section returns.
Context {A S : Type} `{!Automaton A rq_event, !Socket S, !SocketLaws S, !SocketLive S} (cast_u64 : str → option Z).
Implicit Types s : S.
Lemma i64_range z : (- 2 ^ 63 <= i64 z < 2 ^ 63)%Z.
Proof. exact (swrap_range 64 z ltac:(lia)). Qed.
Lemma recv_header_returns fuel buff a p data s : length (incoming s) < fuel →
  ∃ r s', recv_header fuel buff a p data s = Ret r s' ∧ (r ≠ None → length (incoming s') < length (incoming s)).
Proof.
  revert a p data s. induction fuel as [|fuel IH]; intros a p data s Hf; [lia|]. cbn [recv_header]. destruct (stream_read_spec (buff - length data) s) as (rt & bs & s1 & E & Hin & _ & Hcase & _). rewrite (cbind_Ret _ _ _ _ _ E).
  destruct (Z.leb_spec rt 0) as [Hrt|Hrt]; [by eexists None, _|]. destruct Hcase as [(_ & Hlen & _)|[? _]]; [|lia]. assert (Hless : length (incoming s1) < length (incoming s)) by (rewrite Hin, length_app; lia).
  destruct (rp_execute a p (data ++ bs)) as [[n a1] p1]. destruct (rp_hasError a1 p1); [by eexists None, _|]. destruct (_ =? buff); [by eexists None, _|]. destruct (a_finished a1); [eexists _, _; split; [reflexivity|done]|].
  destruct (IH a1 p1 (drop n (data ++ bs)) s1) as (r & s' & E' & Hr); [lia|]. exists r, s'. split; [done|]. intros Hne. specialize (Hr Hne). lia.
Qed.
Lemma recv_body_returns data p s : ∃ r s', recv_body cast_u64 data p s = Ret r s' ∧ (r ≠ None → length (incoming s') <= length (incoming s)).
Proof.
  unfold recv_body. pose proof (i64_range (rp_getContentLength cast_u64 p)) as Hr. set (len := i64 _) in *. destruct (Z.ltb_spec 0 len) as [H0|H0]; [|by eexists _, _]. destruct (Z.ltb_spec 0 (len - Z.of_nat (length data))) as [H1|H1]; [|by eexists _, _].
  destruct (readFixSize_spec (len - Z.of_nat (length data)) s) as (rt & bs & s1 & E & Hin & _); [lia|]. rewrite (cbind_Ret _ _ _ _ _ E). destruct (Z.leb_spec rt 0); [by eexists None, _|]. eexists _, _. split; [reflexivity|]. intros _. rewrite Hin, length_app. lia.
Qed.
Lemma recvRequest_returns fuel buff s : length (incoming s) < fuel → ∃ r s', recvRequest cast_u64 fuel buff s = Ret r s' ∧ (r ≠ None → length (incoming s') < length (incoming s)).
Proof.
  intros Hf. unfold recvRequest. destruct (recv_header_returns fuel buff a_init request_start [] s Hf) as (h & s1 & E & Hh). rewrite (cbind_Ret _ _ _ _ _ E). destruct h as [[data p]|]; [|by eexists None, _]. specialize (Hh ltac:(done)).
  destruct (recv_body_returns data p s1) as (r & s2 & E2 & H2). exists r, s2. split; [done|]. intros Hne. specialize (H2 Hne). lia.
Qed.
Context (keepalive : bool) (name : str) (handle : HttpRequest → HttpResponse → HttpResponse).
Lemma sendResponse_spec req s (d := rs_dump (respond keepalive name handle req)) : (Z.of_nat (length d) < 2 ^ 63)%Z → ∃ rt n s', sendResponse (respond keepalive name handle req) s = Ret rt s' ∧ incoming s' = incoming s ∧
  outgoing s' = outgoing s ++ take n d ∧ (live s → n = length d ∧ live s').
Proof.
  intros Hd. unfold sendResponse. fold d. destruct (writeFixSize_spec d (Z.of_nat (length d)) s) as (rt & n & s' & E & Hi & Ho & _ & Hl); [lia|lia|]. exists rt, n, s'. split_and!; [done|done|done|]. intros Hlv. destruct (Hl Hlv) as (_ & -> & ?). split; [lia|done].
Qed.
Context (dump_small : ∀ req, (Z.of_nat (length (rs_dump (respond keepalive name handle req))) < 2 ^ 63)%Z).
(** whatever arrives on a connection and however it is cut into pieces, the
    loop of the server comes to an end once the peer sends no more: reading a
    header, reading a body and answering all return. *)
Theorem handleClient_returns fuel buff s : length (incoming s) < fuel → ∃ s', handleClient cast_u64 keepalive name handle fuel buff s = Ret tt s'.
Proof.
  intros Hf. assert (Hl : ∃ s', client_loop cast_u64 keepalive name handle fuel buff s = Ret tt s').
  { revert s Hf. induction fuel as [|fuel IH]; intros s Hf; [lia|]. cbn [client_loop]. destruct (recvRequest_returns (Datatypes.S fuel) buff s Hf) as (r & s1 & E & Hr). rewrite (cbind_Ret _ _ _ _ _ E). destruct r as [req|]; [|by eexists]. specialize (Hr ltac:(done)).
    destruct (sendResponse_spec req s1 (dump_small req)) as (rt & n & s2 & E2 & Hi & _). rewrite (cbind_Ret _ _ _ _ _ E2). destruct (negb keepalive || rq_close req); [by eexists|]. apply IH. rewrite Hi. lia. }
  destruct Hl as [s' E]. unfold handleClient. rewrite (cbind_Ret _ _ _ _ _ E). by eexists.
Qed.
End returns.

(** ** An exchange *)
Section exchange.
Context {A S : Type} `{!Automaton A rq_event, !Socket S, !SocketLaws S, !SocketLive S} (cast_u64 : str → option Z).
Implicit Types s : S.
(** The automaton takes [head] for a header, whatever follows it, and the calls
    it makes build the request [r]. *)
Definition parses_to (head : str) (r : HttpRequest) : Prop :=
  ∀ tail, ∃ evs a, a_execute (A := A) a_init (head ++ tail) = (length head, evs, a) ∧ a_error a = false ∧ a_finished a = true ∧ foldl on_request request_start evs = (0%Z, r).
Definition with_body (body : str) (r : HttpRequest) : HttpRequest := if decide (body = []) then r else rq_setBody body r.
Lemma header_received fuel buff s head r : head ≠ [] → parses_to head r → live s → (∀ rt bs s1, sock_recv buff s = (rt, bs, s1) → length head <= length bs) → incoming s ≠ [] → (∃ more, incoming s = head ++ more) →
  0 < fuel → ∃ tail s1, recv_header (A := A) fuel buff a_init request_start [] s = Ret (Some (tail, (0%Z, r))) s1 ∧ live s1 ∧ outgoing s1 = outgoing s ∧ incoming s = head ++ tail ++ incoming s1.
Proof.
  intros Hh Hp Hl Hfirst Hi [more Hm] Hf. destruct fuel as [|fuel]; [lia|]. cbn [recv_header]. rewrite Nat.sub_0_r. destruct (stream_read_spec buff s) as (rt & bs & s1 & E & Hin & Ho & Hcase & Hlive). rewrite (cbind_Ret _ _ _ _ _ E).
  assert (Hbs : length head <= length bs). { unfold stream_read in E. rewrite (live_connected s Hl) in E. destruct (sock_recv buff s) as [[rt' bs'] s1'] eqn:Er. injection E as <- <- <-. by eapply Hfirst. }
  assert (Hpos : 0 < length head) by (destruct head; [done|cbn; lia]). destruct Hcase as [(Hrt & Hlen & Hle)|[_ ->]]; [|cbn in Hbs; lia]. rewrite (proj2 (Z.leb_gt rt 0)) by lia.
  assert (Hsplit : bs = head ++ drop (length head) bs). { rewrite <- (take_drop (length head) bs) at 1. f_equal. rewrite <- (take_app_le bs (incoming s1)) by done. rewrite <- Hin, Hm. apply take_app_length. }
  set (tail := drop (length head) bs) in *. rewrite app_nil_l. unfold rp_execute. destruct (Hp tail) as (evs & a & Ea & Herr & Hfin & Hev). rewrite Hsplit, Ea, Hev. unfold rp_hasError. cbn [fst Z.eqb negb orb]. rewrite Herr, Hfin, drop_app_length.
  rewrite (proj2 (Nat.eqb_neq (length tail) buff)) by (apply (f_equal length) in Hsplit; rewrite length_app in Hsplit; lia). exists tail, s1. split_and!; [done| |done|by rewrite Hin, Hsplit at 1; rewrite <- (assoc_L (++))].
  apply Hlive; [done|lia|done].
Qed.
Lemma body_received tail body rest r s : rp_getContentLength cast_u64 (0%Z, r) = Z.of_nat (length body) → (Z.of_nat (length body) < 2 ^ 31)%Z → live s → tail ++ incoming s = body ++ rest →
  ∃ s', recv_body cast_u64 tail (0%Z, r) s = Ret (Some (rq_init (with_body body r))) s' ∧ live s' ∧ outgoing s' = outgoing s ∧ ∃ lost, rest = lost ++ incoming s'.
Proof.
  intros Hc Hb Hl Hin. unfold recv_body. rewrite Hc, i64_small by lia. unfold with_body. destruct (decide (body = [])) as [->|Hne]; [cbn; exists s; split_and!; [done|done|done|by exists tail]|].
  assert (0 < length body) by (destruct body; [done|cbn; lia]). rewrite (proj2 (Z.ltb_lt 0 _)) by lia. destruct (Z.ltb_spec 0 (Z.of_nat (length body) - Z.of_nat (length tail))) as [H1|H1].
  - destruct (readFixSize_spec (Z.of_nat (length body) - Z.of_nat (length tail)) s) as (rt & bs & s1 & E & Hi & Ho & _ & Hlive); [lia|]. assert (Hlen : length tail + length (incoming s) = length body + length rest) by (rewrite <- !length_app; by f_equal).
    destruct (Hlive Hl) as (-> & Hbs & Hl1); [lia|]. rewrite (cbind_Ret _ _ _ _ _ E). rewrite i32_small by lia. rewrite (proj2 (Z.leb_gt _ 0)) by lia. rewrite Hi, (assoc_L (++)) in Hin. apply app_inj_1 in Hin as [Hbody Hrest]; [|rewrite length_app; lia].
    exists s1. rewrite Hbody. split_and!; [done|done|done|by exists []].
  - rewrite Nat2Z.id. assert (Ht : take (length body) tail = body). { rewrite <- (take_app_le tail (incoming s)) by lia. rewrite Hin. apply take_app_length. }
    exists s. rewrite Ht. split_and!; [done|done|done|]. exists (drop (length body) tail). rewrite <- (take_drop (length body) tail), Ht, <- (assoc_L (++)) in Hin. by apply (inj (body ++.)) in Hin.
Qed.
Lemma request_received fuel buff s head body rest r : head ≠ [] → parses_to head r → live s → incoming s = head ++ body ++ rest → (∀ rt bs s1, sock_recv buff s = (rt, bs, s1) → length head <= length bs) →
  rp_getContentLength cast_u64 (0%Z, r) = Z.of_nat (length body) → (Z.of_nat (length body) < 2 ^ 31)%Z → 0 < fuel →
  ∃ s', recvRequest cast_u64 (A := A) fuel buff s = Ret (Some (rq_init (with_body body r))) s' ∧ live s' ∧ outgoing s' = outgoing s ∧ ∃ lost, rest = lost ++ incoming s'.
Proof.
  intros Hh Hp Hl Hin Hfirst Hc Hb Hf. destruct (header_received fuel buff s head r) as (tail & s1 & E & Hl1 & Ho & Hi1); try done; [rewrite Hin; by destruct head|by exists (body ++ rest)|].
  unfold recvRequest. rewrite (cbind_Ret _ _ _ _ _ E). rewrite Hin in Hi1. apply (inj (head ++.)) in Hi1. destruct (body_received tail body rest r s1 Hc Hb Hl1 ltac:(done)) as (s2 & E2 & Hl2 & Ho2 & Hlost). exists s2. split_and!; [done|done|congruence|done].
Qed.
Lemma nothing_received fuel buff s : incoming s = [] → 0 < fuel → ∃ s1, recvRequest cast_u64 (A := A) fuel buff s = Ret None (sock_close s1) ∧ outgoing s1 = outgoing s.
Proof.
  intros Hin Hf. destruct fuel as [|fuel]; [lia|]. unfold recvRequest. cbn [recv_header]. destruct (stream_read_spec (buff - length (A := byte) []) s) as (rt & bs & s1 & E & Hi & Ho & Hcase & _). rewrite Hin in Hi. destruct bs as [|]; [|done].
  assert (Hrt : (rt <= 0)%Z) by (destruct Hcase as [(? & H1 & _)|[? _]]; [cbn in H1; lia|done]). exists s1. split; [|done]. unfold cbind at 1. rewrite (cbind_Ret _ _ _ _ _ E), (proj2 (Z.leb_le rt 0)) by done. done.
Qed.
Context (keepalive : bool) (name : str) (fnmatch : str → str → bool) (user_handle : servlet → HttpRequest → HttpResponse → HttpResponse) (d : ServletDispatch).
Abbreviation dispatch := (dispatch_handle fnmatch user_handle d).
(** C36: a request whose header arrives in one piece and whose body arrives in
    any pieces is answered: the session builds the request, the dispatcher's
    servlet fills the response, all of the printed response is sent, nothing
    else is, and the connection is closed when the peer sends no more. *)
Theorem http_exchange fuel buff s head body r : head ≠ [] → parses_to head r → live s → incoming s = head ++ body → (∀ rt bs s1, sock_recv buff s = (rt, bs, s1) → length head <= length bs) →
  rp_getContentLength cast_u64 (0%Z, r) = Z.of_nat (length body) → (Z.of_nat (length body) < 2 ^ 31)%Z → (Z.of_nat (length (rs_dump (respond keepalive name dispatch (rq_init (with_body body r))))) < 2 ^ 63)%Z → 1 < fuel →
  ∃ s2 s', handleClient cast_u64 (A := A) keepalive name dispatch fuel buff s = Ret tt s' ∧ (s' = sock_close s2 ∨ s' = sock_close (sock_close s2)) ∧
    outgoing s2 = outgoing s ++ rs_dump (respond keepalive name dispatch (rq_init (with_body body r))).
Proof.
  intros Hh Hp Hl Hin Hfirst Hc Hb Hd Hf. destruct fuel as [|[|fuel]]; [lia|lia|]. destruct (request_received (Datatypes.S (Datatypes.S fuel)) buff s head body [] r) as (s1 & E & Hl1 & Ho1 & lost & Hlost); try done; [by rewrite app_nil_r|lia|].
  assert (Hi1 : incoming s1 = []) by (by destruct lost). set (req := rq_init (with_body body r)) in *. destruct (sendResponse_spec keepalive name dispatch req s1 Hd) as (rt & n & s2 & E2 & Hi2 & Ho2 & Hn). destruct (Hn Hl1) as [-> _]. rewrite firstn_all, Ho1 in Ho2.
  unfold handleClient. cbn [client_loop]. unfold cbind at 1. rewrite (cbind_Ret _ _ _ _ _ E), (cbind_Ret _ _ _ _ _ E2). destruct (negb keepalive || rq_close req).
  - exists s2, (sock_close s2). split_and!; [done|by left|done].
  - destruct (nothing_received (Datatypes.S fuel) buff s2) as (s3 & E3 & Ho3); [congruence|lia|]. rewrite (cbind_Ret _ _ _ _ _ E3). exists s3, (sock_close (sock_close s3)). split_and!; [done|by right|congruence].
Qed.
End exchange.

(** ** An automaton that knows one header *)
Definition ex_head : str := text "POST /a HTTP/1.1" ++ crlf ++ text "content-length: 3" ++ crlf ++ text "connection: keep-alive" ++ crlf ++ crlf.
Definition ex_events (data : str) : list rq_event :=
  let tok from len := take len (drop from data) in
  [OnMethod (tok 0 4) 4; OnPath (tok 5 2) 2; OnVersion (tok 8 8) 8; OnField (tok 18 14) 14 (tok 34 1) 1; OnField (tok 37 10) 10 (tok 49 10) 10; OnHeaderDone].
#[export] Instance ex_automaton : Automaton nat rq_event := {
  a_init := 0;
  a_execute _ data := if bool_decide (take 63 data = ex_head) then (63, ex_events data, 1) else (length data, [], 2);
  a_error a := a =? 2;
  a_finished a := a =? 1
}.
Definition ex_request : HttpRequest := rq_setHeader (text "connection") (text "keep-alive") (rq_setHeader (text "content-length") (text "3") (rq_with 3 17 (text "/a") [] [] (HttpRequest_new 17 true))).
Definition ex_cast (s : str) : option Z := if bool_decide (s = text "3") then Some 3%Z else None.
Lemma ex_parses : parses_to (A := nat) ex_head ex_request.
Proof.
  intros tail. exists (ex_events (ex_head ++ tail)), 1. split_and!; [|done|done|vm_compute; reflexivity]. unfold a_execute, ex_automaton. rewrite bool_decide_eq_true_2; [reflexivity|]. vm_compute. reflexivity.
Qed.
Definition ex_wire (more : str) (chunk : nat) : wire := mkWire (ex_head ++ text "abc" ++ more) [] chunk true.
Lemma handleClient_returns_witness : ∃ s', handleClient ex_cast true [] (λ _ _, HttpResponse_new 17 true) 100 4096 (ex_wire (text "junk") 7) = Ret tt s'.
Proof. apply (handleClient_returns (A := nat) ex_cast true [] (λ _ _, HttpResponse_new 17 true)); [intros req; vm_compute; reflexivity|vm_compute; lia]. Defined.
Definition ex_answer : str := rs_dump (respond true (text "s") (dispatch_handle (λ _ _, false) (λ _ _ r, r) ServletDispatch_new) (rq_init (with_body (text "abc") ex_request))).
Lemma http_exchange_witness : ∃ s2 s' : wire, handleClient ex_cast true (text "s") (dispatch_handle (λ _ _, false) (λ _ _ r, r) ServletDispatch_new) 10 4096 (ex_wire [] 64) = Ret tt s' ∧
  (s' = sock_close s2 ∨ s' = sock_close (sock_close s2)) ∧ outgoing s2 = outgoing (ex_wire [] 64) ++ ex_answer.
Proof.
  apply (http_exchange (A := nat) (S := wire) ex_cast true (text "s") (λ _ _, false) (λ _ _ r, r) ServletDispatch_new 10 4096 (ex_wire [] 64) ex_head (text "abc") ex_request); [done|apply ex_parses|split; [reflexivity|cbn; lia]|reflexivity| |vm_compute; reflexivity|vm_compute; reflexivity|vm_compute; reflexivity|lia].
  intros rt bs s1 E. vm_compute in E. injection E as _ <- _. vm_compute. lia.
Defined.
(** A request of HTTP/1.1 that says nothing of the connection closes it. *)
Lemma closes_by_default : rq_close (rq_init (HttpRequest_new 17 true)) = true.
Proof. reflexivity. Qed.
(** A second request in the same segment is lost: one answer is sent. *)
Lemma pipelined_lost : match handleClient ex_cast true (text "s") (λ _ r, r) 100 4096 (ex_wire (ex_head ++ text "abc") 4096) with Ret _ s => w_in s = [] ∧ w_out s = rs_dump (respond true (text "s") (λ _ r, r) (rq_init (rq_setBody (text "abc") ex_request))) ∧ rq_close (rq_init ex_request) = false | _ => False end.
Proof. vm_compute. done. Qed.
