(* ===== verification/HttpPool.v ===== *)
(** * HTTP clients (Sylar/HttpServer/http_connection.{h,cc})

    The pool lends connections to fibers and takes them back when the last
    pointer to one is released. Connections are numbered, a number stands for
    the pointer. *)
From Stdlib Require Import ZArith Lia Strings.Byte.
From Stdlib Require Import (notations) Strings.String.
From stdpp Require Import base list relations list_numbers numbers.
From S2P Require Import Prelude Text Address AddressOrder LogFormat Http HttpParams HttpSession.
#[local] Open Scope byte_scope.
Local Open Scope nat_scope.

(** ** Requests *)
Definition is_name (n s : str) : bool := match strcasecmp s n with Eq => true | _ => false end.
Definition rq_setClose (v : bool) (r : HttpRequest) : HttpRequest :=
  mkRequest (rq_method r) (rq_version r) v (rq_websocket r) (rq_flag r) (rq_path r) (rq_query r) (rq_fragment r) (rq_body r) (rq_headers r) (rq_params r) (rq_cookies r).
(** The loop over the headers of the caller: the request and has_host. *)
Definition add_header (st : HttpRequest * bool) (i : str * str) : HttpRequest * bool :=
  let '(req, has_host) := st in
  if is_name (text "connection") i.1 then (if is_name (text "keep-alive") i.2 then rq_setClose false req else req, has_host)
  else
    let has_host := if negb has_host && is_name (text "host") i.1 then negb (bool_decide (i.2 = [])) else has_host in
    (rq_setHeader i.1 i.2 req, has_host).
Definition add_headers (host : str) (headers : list (str * str)) (req : HttpRequest) : HttpRequest :=
  let '(req, has_host) := foldl add_header (req, false) headers in
  if has_host then req else rq_setHeader (text "Host") host req.
(** DoRequest of HttpConnection, doRequest of the pool *)
Definition conn_request (method : Z) (host path query fragment : str) (headers : list (str * str)) (body : str) : HttpRequest :=
  rq_setBody body (add_headers host headers (rq_with method 17 path query fragment (HttpRequest_new 17 true))).
Definition pool_request (method : Z) (host vhost url : str) (headers : list (str * str)) (body : str) : HttpRequest :=
  rq_setBody body (add_headers (if bool_decide (vhost = []) then host else vhost) headers (rq_setClose false (rq_with method 17 url [] [] (HttpRequest_new 17 true)))).
(** The text doGet, doPost and doRequest of the pool make of a URI. *)
Definition uri_text (path query fragment : str) : str :=
  path ++ (if bool_decide (query = []) then [] else text "?") ++ query ++ (if bool_decide (fragment = []) then [] else text "#") ++ fragment.

(** ** Results *)
Inductive http_error := OK | INVALID_URL | INVALID_HOST | CONNECT_FAIL | SEND_CLOSE_BY_PEER | SEND_SOCKET_ERROR | TIMEOUT | CREATE_SOCKET_ERROR | POOL_GET_CONNECTION | POOL_INVALID_CONNECTION.
Definition http_result := (http_error * option HttpResponse)%type.
(** What sendRequest and recvResponse gave. *)
Definition exchange_result (sent : Z) (rsp : option HttpResponse) : http_result :=
  if (sent =? 0)%Z then (SEND_CLOSE_BY_PEER, None)
  else if (sent <? 0)%Z then (SEND_SOCKET_ERROR, None)
  else match rsp with None => (TIMEOUT, None) | Some r => (OK, Some r) end.
(** DoRequest(req, uri, timeout): whether the address, the socket and the
    connection could be made. *)
Definition DoRequest (addr sock connected : bool) (sent : Z) (rsp : option HttpResponse) : http_result :=
  if negb addr then (INVALID_HOST, None) else if negb sock then (CREATE_SOCKET_ERROR, None) else if negb connected then (CONNECT_FAIL, None) else exchange_result sent rsp.
Definition pool_doRequest (conn sock : bool) (sent : Z) (rsp : option HttpResponse) : http_result :=
  if negb conn then (POOL_GET_CONNECTION, None) else if negb sock then (POOL_INVALID_CONNECTION, None) else exchange_result sent rsp.

(** ** The pool *)
Record HttpConnection := mkConn { hc_createTime : Z; hc_request : Z; hc_connected : bool }.
Definition HttpConnection_new : HttpConnection := mkConn 0 0 true.
Record conn_pool := mkPool {
  pl_all : list HttpConnection;      (* every connection made so far *)
  m_conns : list nat;
  m_total : Z;
  pl_lent : list nat;                (* with somebody *)
  pl_deleted : list nat
}.
Section conn_pool.
Context (m_maxAliveTime m_maxRequest : Z).
Definition pool_new : conn_pool := mkPool [] [] 0 [] [].
Definition connected (p : conn_pool) (c : nat) : bool := match pl_all p !! c with Some x => hc_connected x | None => false end.
Definition created (p : conn_pool) (c : nat) : Z := match pl_all p !! c with Some x => hc_createTime x | None => 0%Z end.
(** The loop of getConnection: the invalid ones, the one found, the rest. *)
Fixpoint take_conn (p : conn_pool) (now_ms : Z) (conns : list nat) : list nat * option nat * list nat :=
  match conns with
  | [] => ([], None, [])
  | c :: conns =>
    if negb (connected p c) || (now_ms <? u64 (created p c + m_maxAliveTime))%Z then
      let '(bad, found, rest) := take_conn p now_ms conns in (c :: bad, found, rest)
    else ([], Some c, conns)
  end.
(** [makes]: the host was found, the socket made and connected. *)
Definition getConnection (now_ms : Z) (makes : bool) (p : conn_pool) : option nat * conn_pool :=
  let '(bad, found, rest) := take_conn p now_ms (m_conns p) in
  let total := i32 (m_total p - Z.of_nat (length bad)) in
  match found with
  | Some c => (Some c, mkPool (pl_all p) rest total (c :: pl_lent p) (pl_deleted p ++ bad))
  | None =>
    if makes then (Some (length (pl_all p)), mkPool (pl_all p ++ [HttpConnection_new]) rest (i32 (total + 1)) (length (pl_all p) :: pl_lent p) (pl_deleted p ++ bad))
    else (None, mkPool (pl_all p) rest total (pl_lent p) (pl_deleted p ++ bad))
  end.
Definition ReleasePtr (now_ms : Z) (c : nat) (p : conn_pool) : conn_pool :=
  match pl_all p !! c with
  | None => p
  | Some x =>
    let x := mkConn (hc_createTime x) (u64 (hc_request x + 1)) (hc_connected x) in
    let all := <[c := x]> (pl_all p) in
    let lent := filter (λ y, y ≠ c) (pl_lent p) in
    if negb (hc_connected x) || (now_ms <=? u64 (hc_createTime x + m_maxAliveTime))%Z || (m_maxRequest <=? hc_request x)%Z then
      mkPool all (m_conns p) (i32 (m_total p - 1)) lent (pl_deleted p ++ [c])
    else mkPool all (m_conns p ++ [c]) (m_total p) lent (pl_deleted p)
  end.
(** A connection breaks. *)
Definition break (c : nat) (p : conn_pool) : conn_pool := mkPool (alter (λ x, mkConn (hc_createTime x) (hc_request x) false) c (pl_all p)) (m_conns p) (m_total p) (pl_lent p) (pl_deleted p).
Inductive pool_step (p : conn_pool) : conn_pool → Prop :=
  | ps_get now makes : pool_step p (getConnection now makes p).2
  | ps_release now c : c ∈ pl_lent p → pool_step p (ReleasePtr now c p)
  | ps_break c : pool_step p (break c p).

(** ** What the pool keeps *)
Context (max_ok : (1 <= m_maxRequest < 2 ^ 32)%Z).
Record PoolInv (p : conn_pool) : Prop := {
  pi_parts : m_conns p ++ pl_lent p ++ pl_deleted p ≡ₚ seq 0 (length (pl_all p));
  pi_total : (Z.of_nat (length (pl_all p)) < 2 ^ 31)%Z → m_total p = Z.of_nat (length (m_conns p) + length (pl_lent p));
  pi_request c x : pl_all p !! c = Some x → hc_createTime x = 0%Z ∧ (0 <= hc_request x <= m_maxRequest)%Z ∧ (c ∈ m_conns p ++ pl_lent p → (hc_request x < m_maxRequest)%Z)
}.
Lemma take_conn_spec p now conns : let '(bad, found, rest) := take_conn p now conns in conns = bad ++ option_list found ++ rest ∧ (∀ c, found = Some c → connected p c = true).
Proof.
  induction conns as [|c conns IH]; cbn [take_conn]; [done|]. destruct (negb (connected p c) || _) eqn:E.
  - destruct (take_conn p now conns) as [[bad found] rest]. destruct IH as [-> IH]. done.
  - split; [done|]. intros c' [= <-]. apply orb_false_iff in E as [E _]. by apply negb_false_iff.
Qed.
Lemma parts_length p : PoolInv p → length (m_conns p) + length (pl_lent p) <= length (pl_all p).
Proof. intros HI. pose proof (Permutation_length (pi_parts p HI)) as Hl. rewrite !length_app, length_seq in Hl. lia. Qed.
Lemma i32_id z : (- 2 ^ 31 <= z < 2 ^ 31)%Z → i32 z = z.
Proof. intros Hz. apply swrap_id; [lia|]. unfold in_s. cbn. lia. Qed.
Lemma get_inv now makes p : PoolInv p → PoolInv (getConnection now makes p).2.
Proof.
  intros HI. pose proof (parts_length p HI) as Hlen. destruct HI as [H1 H2 H3]. unfold getConnection. pose proof (take_conn_spec p now (m_conns p)) as Ht. destruct (take_conn p now (m_conns p)) as [[bad found] rest]. destruct Ht as [Ec _].
  assert (Hin : ∀ c, c ∈ option_list found ++ rest → c ∈ m_conns p) by (intros c; rewrite Ec, !elem_of_app; tauto). rewrite Ec in H1, H2, Hlen. rewrite !length_app in H2, Hlen.
  destruct found as [c|]; [|destruct makes]; cbn [snd option_list option_rect app length] in *.
  - split; cbn [m_conns pl_lent pl_deleted pl_all m_total].
    + rewrite <- H1. rewrite <- !(assoc_L (++)). cbn. solve_Permutation.
    + intros Hb. rewrite H2 by done. rewrite i32_id by lia. cbn [length]. lia.
    + intros d x Hx. destruct (H3 d x Hx) as (A & C & D). split_and!; [done|lia|lia|]. intros Hd. apply D. rewrite elem_of_app in Hd. rewrite elem_of_cons in Hd. rewrite elem_of_app. destruct Hd as [Hd|[->|Hd]]; [left; apply Hin; by right|left; apply Hin; by left|by right].
  - split; cbn [m_conns pl_lent pl_deleted pl_all m_total].
    + rewrite length_app, seq_app, <- H1. cbn. rewrite <- !(assoc_L (++)). solve_Permutation.
    + rewrite length_app. cbn [length]. intros Hb. rewrite H2 by lia. rewrite (i32_id (_ - _)) by lia. rewrite i32_id by lia. lia.
    + intros d x [Hx|[Hge Hx]]%lookup_app_Some.
      * destruct (H3 d x Hx) as (A & C & D). split_and!; [done|lia|lia|]. intros Hd. apply D. rewrite elem_of_app, elem_of_cons in Hd. rewrite elem_of_app. destruct Hd as [Hd|[->|Hd]]; [left; by apply Hin|apply lookup_lt_Some in Hx; lia|by right].
      * apply list_lookup_singleton_Some in Hx as [_ <-]. cbn. split_and!; [done|lia|lia|lia].
  - split; cbn [m_conns pl_lent pl_deleted pl_all m_total].
    + rewrite <- H1. rewrite <- !(assoc_L (++)). solve_Permutation.
    + intros Hb. rewrite H2 by done. rewrite i32_id by lia. lia.
    + intros d x Hx. destruct (H3 d x Hx) as (A & C & D). split_and!; [done|lia|lia|]. intros Hd. apply D. rewrite elem_of_app in Hd |- *. destruct Hd as [Hd|Hd]; [left; by apply Hin|by right].
Qed.
Lemma parts_NoDup p : PoolInv p → NoDup (m_conns p ++ pl_lent p ++ pl_deleted p).
Proof. intros HI. rewrite (pi_parts p HI). apply NoDup_seq. Qed.
Lemma unlend c (l : list nat) : NoDup l → c ∈ l → l ≡ₚ c :: filter (λ y, y ≠ c) l ∧ c ∉ filter (λ y, y ≠ c) l.
Proof.
  intros Hd Hc. split; [|by rewrite list_elem_of_filter; intros [? _]]. induction Hd as [|y l Hy Hd IH]; [by apply not_elem_of_nil in Hc|]. rewrite filter_cons. destruct (decide (y ≠ c)) as [Hne|Heq].
  - apply elem_of_cons in Hc as [->|Hc]; [done|]. rewrite (IH Hc) at 1. solve_Permutation.
  - assert (y = c) as -> by (destruct (decide (y = c)); [done|by exfalso]). f_equiv. clear IH Hc. induction l as [|z l IHl]; [done|]. apply not_elem_of_cons in Hy as [Hz Hy]. apply list.NoDup_cons in Hd as [_ Hd]. rewrite filter_cons, decide_True by congruence. f_equiv. by apply IHl.
Qed.
Lemma release_inv now c p : PoolInv p → c ∈ pl_lent p → PoolInv (ReleasePtr now c p).
Proof.
  intros HI Hc. pose proof (parts_length p HI) as Hlen. pose proof (parts_NoDup p HI) as Hnd. apply list.NoDup_app in Hnd as (_ & Hdis & Hnd). apply list.NoDup_app in Hnd as (Hnl & _ & _). destruct (unlend c (pl_lent p) Hnl Hc) as [Hp Hnc]. destruct HI as [H1 H2 H3].
  unfold ReleasePtr. destruct (pl_all p !! c) as [x|] eqn:Hx; [|done]. destruct (H3 c x Hx) as (A & C & D). specialize (D ltac:(rewrite elem_of_app; by right)). cbn [hc_createTime hc_request hc_connected].
  assert (Hu : u64 (hc_request x + 1) = (hc_request x + 1)%Z) by (apply uwrap_id; unfold in_u; lia). rewrite Hu. set (lent := filter _ _) in *.
  assert (Hl' : length (pl_lent p) = S (length lent)) by (rewrite Hp; done).
  assert (Hreq : ∀ d y, <[c := mkConn (hc_createTime x) (hc_request x + 1) (hc_connected x)]> (pl_all p) !! d = Some y → d = c ∧ hc_createTime y = 0%Z ∧ hc_request y = (hc_request x + 1)%Z ∨ d ≠ c ∧ pl_all p !! d = Some y).
  { intros d y. destruct (decide (c = d)) as [<-|Hne]; [rewrite list_lookup_insert_eq by (by eapply lookup_lt_Some); intros [= <-]; by left|rewrite list_lookup_insert_ne by done; auto]. }
  destruct (_ || (m_maxRequest <=? hc_request x + 1)%Z) eqn:Eb; split; cbn [m_conns pl_lent pl_deleted pl_all m_total]; rewrite ?length_insert.
  - rewrite <- H1, Hp. cbn. solve_Permutation.
  - intros Hb. rewrite H2, i32_id by lia. lia.
  - intros d y [(-> & ? & ?)|[Hne Hy]]%Hreq.
    + split_and!; [done|lia|lia|]. rewrite elem_of_app. intros [Hd|Hd]; [|done]. exfalso. apply (Hdis c Hd). rewrite elem_of_app. by left.
    + destruct (H3 d y Hy) as (A' & C' & D'). split_and!; [done|lia|lia|]. rewrite elem_of_app. intros Hd. apply D'. rewrite elem_of_app. destruct Hd as [Hd|Hd]; [by left|right; by apply list_elem_of_filter in Hd as [_ ?]].
  - rewrite <- H1, Hp. cbn. solve_Permutation.
  - intros Hb. rewrite H2, length_app by done. cbn [length]. lia.
  - apply orb_false_iff in Eb as [_ Eb]. apply Z.leb_gt in Eb. intros d y [(-> & ? & ?)|[Hne Hy]]%Hreq; [split_and!; [done|lia|lia|lia]|].
    destruct (H3 d y Hy) as (A' & C' & D'). split_and!; [done|lia|lia|]. rewrite !elem_of_app, list_elem_of_singleton. intros Hd. apply D'. rewrite elem_of_app. destruct Hd as [[Hd|Hd]|Hd]; [by left|done|right; by apply list_elem_of_filter in Hd as [_ ?]].
Qed.
Lemma break_inv c p : PoolInv p → PoolInv (break c p).
Proof.
  intros [H1 H2 H3]. split; cbn; rewrite ?length_alter; [done|done|]. intros d x. destruct (decide (c = d)) as [<-|Hne]; [rewrite list_lookup_alter_eq|rewrite list_lookup_alter_ne by done; apply H3]. intros (y & Hy & ->)%fmap_Some. cbn. by apply H3.
Qed.
Lemma pool_reach_inv p : rtc pool_step pool_new p → PoolInv p.
Proof.
  revert p. apply rtc_ind_r; [split; [done|done|done]|]. intros p p' _ Hs HI. destruct Hs; [by apply get_inv|by apply release_inv|by apply break_inv].
Qed.
(** C37: in every history of borrowing, returning and breaking connections, each
    connection made is idle, lent or deleted, and only one of these; m_total
    counts the first two; a connection serves at most max_request requests; and
    getConnection gives one that is connected and that nobody else has. *)
Theorem pool_lends p : rtc pool_step pool_new p →
  m_conns p ++ pl_lent p ++ pl_deleted p ≡ₚ seq 0 (length (pl_all p)) ∧
  ((Z.of_nat (length (pl_all p)) < 2 ^ 31)%Z → m_total p = Z.of_nat (length (m_conns p) + length (pl_lent p))) ∧
  (∀ c x, pl_all p !! c = Some x → (hc_request x <= m_maxRequest)%Z) ∧
  ∀ now makes c, (getConnection now makes p).1 = Some c → (c ∉ pl_lent p) ∧ (c ∉ pl_deleted p) ∧ c ∈ pl_lent (getConnection now makes p).2 ∧ connected (getConnection now makes p).2 c = true.
Proof.
  intros HI%pool_reach_inv. split_and!; [apply HI|apply HI|intros c x Hx; apply (pi_request p HI c x Hx)|]. intros now makes c. pose proof (parts_NoDup p HI) as Hnd. apply list.NoDup_app in Hnd as (_ & Hdis & _).
  unfold getConnection. pose proof (take_conn_spec p now (m_conns p)) as Ht. destruct (take_conn p now (m_conns p)) as [[bad found] rest]. destruct Ht as [Ec Hf]. destruct found as [c'|]; [|destruct makes; [|done]]; cbn [fst snd]; intros [= <-].
  - assert (Hin : c' ∈ m_conns p) by (rewrite Ec, elem_of_app; right; left). pose proof (Hdis c' Hin) as Hn. rewrite elem_of_app in Hn. split_and!; [tauto|tauto|left|by apply Hf].
  - assert (Hfresh : ∀ d, d ∈ pl_lent p ++ pl_deleted p → d ≠ length (pl_all p)). { intros d Hd ->. assert (Hin : length (pl_all p) ∈ seq 0 (length (pl_all p))) by (rewrite <- (pi_parts p HI), elem_of_app; by right). apply elem_of_seq in Hin. lia. }
    split_and!; [intros Hd; apply (Hfresh _ ltac:(rewrite elem_of_app; by left)); done|intros Hd; apply (Hfresh _ ltac:(rewrite elem_of_app; by right)); done|left|]. unfold connected. cbn [pl_all]. by rewrite list_lookup_middle.
Qed.
End conn_pool.

(** Two connections are made, one is returned and lent again. *)
Definition pool_example : conn_pool :=
  let get p := (getConnection 30000 1700000000000 true p).2 in
  get (ReleasePtr 30000 100 1700000000000 0 (get (get pool_new))).
Lemma pool_example_reached : rtc (pool_step 30000 100) pool_new pool_example.
Proof.
  eapply rtc_l; [apply (ps_get _ _ _ 1700000000000 true)|]. eapply rtc_l; [apply (ps_get _ _ _ 1700000000000 true)|].
  eapply rtc_l; [apply (ps_release _ _ _ 1700000000000 0)|apply rtc_once, (ps_get _ _ _ 1700000000000 true)]. cbn. right. left.
Qed.
Lemma pool_lends_witness : m_conns pool_example ++ pl_lent pool_example ++ pl_deleted pool_example ≡ₚ seq 0 2 ∧ pl_lent pool_example = [0; 1].
Proof. split; [apply (pool_lends 30000 100 ltac:(lia) pool_example pool_example_reached)|reflexivity]. Defined.

(** ** What the pool does not do *)
(** m_createTime is never set, so with a clock later than max_alive_time an idle
    connection that is connected is lent however long ago it was made. *)
Lemma never_expires m_maxAliveTime m_maxRequest now makes p c conns :
  (1 <= m_maxRequest < 2 ^ 32)%Z → (0 <= m_maxAliveTime < 2 ^ 32)%Z → (2 ^ 32 <= now)%Z → rtc (pool_step m_maxAliveTime m_maxRequest) pool_new p →
  m_conns p = c :: conns → connected p c = true → (getConnection m_maxAliveTime now makes p).1 = Some c.
Proof.
  intros Hr Ha Hn HI Hc Hk. apply pool_reach_inv in HI; [|done]. unfold getConnection. rewrite Hc. cbn [take_conn]. rewrite Hk.
  assert (Ht : created p c = 0%Z) by (unfold created; destruct (pl_all p !! c) as [x|] eqn:Hx; [apply (pi_request _ _ HI c x Hx)|done]).
  rewrite Ht, uwrap_id by (unfold in_u; lia). by destruct (Z.ltb_spec now (0 + m_maxAliveTime)); [lia|].
Qed.
(** Were it set, the comparison would drop the young connections and keep the
    old ones: one made a second ago is deleted on return, one made an hour ago
    is kept. *)
Lemma expiry_inverted :
  let p t := mkPool [mkConn t 0 true] [] 1 [0] [] in
  m_conns (ReleasePtr 30000 100 1700000000000 0 (p 1699999999000%Z)) = [] ∧ m_conns (ReleasePtr 30000 100 1700000000000 0 (p 1699996400000%Z)) = [0].
Proof. split; reflexivity. Qed.
(** max_size is not looked at: n calls that find no idle connection make n. *)
Lemma size_unbounded m_maxAliveTime now n : length (pl_lent (Nat.iter n (λ p, (getConnection m_maxAliveTime now true p).2) pool_new)) = n.
Proof.
  cut (∀ p, m_conns p = [] → let q := Nat.iter n (λ p, (getConnection m_maxAliveTime now true p).2) p in m_conns q = [] ∧ length (pl_lent q) = n + length (pl_lent p)).
  { intros H. destruct (H pool_new eq_refl) as [_ Hl]. rewrite Hl. cbn. lia. }
  intros p Hp. induction n as [|k IH]; [done|]. cbn zeta in *. rewrite Nat.iter_succ. destruct IH as [IH1 IH2]. set (q := Nat.iter k _ p) in *. unfold getConnection. rewrite IH1. cbn. split; [done|]. by rewrite IH2.
Qed.
