(* ===== verification/HttpClient.v ===== *)
(** * Responses of HTTP (Sylar/HttpServer/http_parser.cc, http_connection.cc)

    The callbacks that build a response and the client that reads it, with
    its body of announced length or in chunks. The automaton is generated
    during the build: it is a parameter, as that of requests in HttpSession. *)
From Stdlib Require Import ZArith Lia Strings.Byte.
From Stdlib Require Import (notations) Strings.String.
From stdpp Require Import base list list_numbers numbers.
From S2P Require Import Prelude Stream Text Address AddressOrder LogFormat Http HttpParams HttpSession HttpPool.
#[local] Open Scope byte_scope.
Local Open Scope nat_scope.

(** The fields of the generated parser the client reads; content_len is an int. *)
Class ChunkState (A : Type) := {
  ca_content_len : A → Z;
  ca_chunked : A → bool;
  ca_chunks_done : A → bool
}.
Inductive rs_event :=
  | OnReason (at_ : str) (len : nat) | OnStatus (at_ : str) (len : nat) | OnChunk | OnLastChunk
  | OnRsVersion (at_ : str) (len : nat) | OnRsHeaderDone | OnRsField (field : str) (flen : nat) (value : str) (vlen : nat).

(** ** Callbacks *)
(** atoi: strtol, which clamps to a long, made an int *)
Definition atoi (s : str) : Z :=
  let '(neg, v) := strto s in i32 (if neg then Z.max (- v) (- 2 ^ 63) else Z.min v (2 ^ 63 - 1)).
Definition rs_setReason (reason : str) (r : HttpResponse) : HttpResponse :=
  mkResponse (rs_status r) (rs_version r) (rs_close r) (rs_websocket r) (rs_body r) reason (rs_headers r) (rs_cookies r).
Definition rs_setVersion (v : Z) (r : HttpResponse) : HttpResponse :=
  mkResponse (rs_status r) v (rs_close r) (rs_websocket r) (rs_body r) (rs_reason r) (rs_headers r) (rs_cookies r).
Definition rs_parsed := (Z * HttpResponse)%type.
Definition on_response_version (at_ : str) (len : nat) (p : rs_parsed) : rs_parsed :=
  if strncmp_eq len at_ (text "HTTP/1.1") then (p.1, rs_setVersion 17 p.2) else if strncmp_eq len at_ (text "HTTP/1.0") then (p.1, rs_setVersion 16 p.2) else (1001%Z, p.2).
Definition on_response_http_field (field : str) (flen : nat) (value : str) (vlen : nat) (p : rs_parsed) : rs_parsed :=
  if flen =? 0 then p else (p.1, rs_setHeader (take flen field) (take vlen value) p.2).
Definition on_response (p : rs_parsed) (e : rs_event) : rs_parsed :=
  match e with
  | OnReason a n => (p.1, rs_setReason (take n a) p.2)
  | OnStatus a _ => (p.1, rs_setStatus (atoi a) p.2)
  | OnChunk | OnLastChunk | OnRsHeaderDone => p
  | OnRsVersion a n => on_response_version a n p
  | OnRsField f fn v vn => on_response_http_field f fn v vn p
  end.
Definition response_start : rs_parsed := (0%Z, HttpResponse_new 17 true).

Section client.
(** [unzip]: what ZlibStream gives, for gzip or for deflate. *)
Context {A S : Type} `{!Automaton A rs_event, !ChunkState A, !Socket S} (cast_u64 : str → option Z) (unzip : bool → str → str) (buff_size : nat).
(** HttpResponseParser::execute: for a chunk the parser starts afresh. *)
Definition rsp_execute (chunk : bool) (a : A) (p : rs_parsed) (data : str) : nat * A * rs_parsed :=
  let '(n, es, a) := a_execute (if chunk then a_init else a) data in (n, a, foldl on_response p es).
Definition rsp_hasError (a : A) (p : rs_parsed) : bool := negb (p.1 =? 0)%Z || a_error a.
Definition rsp_getContentLength (p : rs_parsed) : Z := getAs cast_u64 (rs_headers p.2) (text "content-length") 0%Z.

(** ** HttpConnection::recvResponse *)
Definition head_read := (str * A * rs_parsed)%type.
(** One round of either loop over a header, on what has been read. *)
Definition parse_round (chunk : bool) (a : A) (p : rs_parsed) (data : str) (go : A → rs_parsed → str → M S (option head_read)) : M S (option head_read) :=
  let '(nparse, a, p) := rsp_execute chunk a p data in
  if rsp_hasError a p then close_null
  else
    let data := drop nparse data in
    if length data =? buff_size then close_null
    else if a_finished a then cret (Some (data, a, p)) else go a p data.
Fixpoint response_header (fuel : nat) (a : A) (p : rs_parsed) (data : str) : M S (option head_read) :=
  match fuel with
  | O => cstuck OutOfFuel
  | Datatypes.S fuel =>
    let! (len, bs) := stream_read (buff_size - length data) in
    if (len <=? 0)%Z then close_null else parse_round false a p (data ++ bs) (response_header fuel)
  end.
Fixpoint chunk_header (fuel : nat) (begin : bool) (a : A) (p : rs_parsed) (data : str) : M S (option head_read) :=
  match fuel with
  | O => cstuck OutOfFuel
  | Datatypes.S fuel =>
    if negb begin || (length data =? 0) then
      let! (rt, bs) := stream_read (buff_size - length data) in
      if (rt <=? 0)%Z then close_null else parse_round true a p (data ++ bs) (chunk_header fuel false)
    else parse_round true a p data (chunk_header fuel false)
  end.
(** while(left > 0) *)
Fixpoint chunk_rest (fuel : nat) (left : Z) (body : str) : M S (option str) :=
  if (left <=? 0)%Z then cret (Some body)
  else match fuel with
       | O => cstuck OutOfFuel
       | Datatypes.S fuel =>
         let! (rt, bs) := stream_read (Nat.min buff_size (Z.to_nat left)) in
         if (rt <=? 0)%Z then close_null else chunk_rest fuel (left - rt) (body ++ bs)
       end.
(** The data of one chunk and the end of line behind it: the buffer and the body
    after them. A negative size is converted to a huge one. *)
Definition chunk_data (content_len : Z) (data body : str) : M S (option (str * str)) :=
  let len := Z.of_nat (length data) in
  if (i32 (content_len + 2) <=? len)%Z then
    if (content_len <? 0)%Z then cthrow LogicError
    else if (len <? content_len)%Z then cstuck OutOfBounds
    else cret (Some (drop (Z.to_nat (content_len + 2)) data, body ++ take (Z.to_nat content_len) data))
  else
    let left := i32 (content_len - len + 2) in
    let! b := chunk_rest (Z.to_nat left) left (body ++ data) in
    match b with None => cret None | Some b => if length b <? 2 then cthrow LogicError else cret (Some ([], take (length b - 2) b)) end.
Fixpoint chunks (fuel : nat) (a : A) (p : rs_parsed) (data body : str) : M S (option (str * rs_parsed)) :=
  match fuel with
  | O => cstuck OutOfFuel
  | Datatypes.S fuel' =>
    let! h := chunk_header fuel true a p data in
    match h with
    | None => cret None
    | Some (data, a, p) =>
      let! r := chunk_data (i32 (ca_content_len a)) data body in
      match r with
      | None => cret None
      | Some (data, body) => if ca_chunks_done a then cret (Some (body, p)) else chunks fuel' a p data body
      end
    end
  end.
Definition fixed_body (data : str) (p : rs_parsed) : M S (option (str * rs_parsed)) :=
  let length := i64 (rsp_getContentLength p) in
  if (0 <? length)%Z then
    let left := (length - Z.of_nat (List.length data))%Z in
    if (0 <? left)%Z then
      let! (rt, bs) := readFixSize left in
      if (rt <=? 0)%Z then close_null else cret (Some (data ++ bs, p))
    else cret (Some (take (Z.to_nat length) data, p))
  else cret (Some ([], p)).
Definition decoded (body : str) (r : HttpResponse) : HttpResponse :=
  match body with
  | [] => r
  | _ =>
    let content_encoding := c_str (rs_getHeader (text "content-encoding") [] r) in
    rs_setBody (if is_name (text "gzip") content_encoding then unzip true body
                else if is_name (text "deflate") content_encoding then unzip false body else body) r
  end.
Definition recvResponse (fuel : nat) : M S (option HttpResponse) :=
  let! h := response_header fuel a_init response_start [] in
  match h with
  | None => cret None
  | Some (data, a, p) =>
    let! b := if ca_chunked a then chunks fuel a p data [] else fixed_body data p in
    cret ((λ '(body, p), decoded body p.2) <$> b)
  end.
Definition sendRequest (req : HttpRequest) : M S Z := writeFixSize (rq_dump req) (Z.of_nat (length (rq_dump req))).
End client.

(** ** The loops end *)
Section returns.
Context {A S : Type} `{!Automaton A rs_event, !ChunkState A, !Socket S, !SocketLaws S, !SocketLive S} (cast_u64 : str → option Z) (unzip : bool → str → str) (buff : nat).
Implicit Types s : S.
Definition size_of s (data : str) : nat := length data + length (incoming s).
Lemma parse_round_cases chunk a p data go s : (∃ s', parse_round (S := S) buff chunk a p data go s = Ret None s') ∨
  ∃ n (a' : A) p', parse_round buff chunk a p data go s = Ret (Some (drop n data, a', p')) s ∧ a_finished a' = true ∨ parse_round buff chunk a p data go s = go a' p' (drop n data) s.
Proof.
  unfold parse_round. destruct (rsp_execute chunk a p data) as [[n a'] p']. destruct (rsp_hasError a' p'); [by left; eexists|]. destruct (_ =? buff); [by left; eexists|]. right. exists n, a', p'. destruct (a_finished a'); auto.
Qed.
Lemma response_header_returns fuel a p data s : length (incoming s) < fuel →
  ∃ r s', response_header buff fuel a p data s = Ret r s' ∧ ∀ d (a' : A) p', r = Some (d, a', p') → size_of s' d <= size_of s data.
Proof.
  unfold size_of. revert a p data s. induction fuel as [|fuel IH]; intros a p data s Hf; [lia|]. cbn [response_header]. destruct (stream_read_spec (buff - length data) s) as (rt & bs & s1 & E & Hin & _ & Hcase & _). rewrite (cbind_Ret _ _ _ _ _ E).
  destruct (Z.leb_spec rt 0) as [Hrt|Hrt]; [by eexists None, _|]. destruct Hcase as [(_ & Hlen & _)|[? _]]; [|lia]. assert (Hin' : length (incoming s) = length bs + length (incoming s1)) by (by rewrite Hin, length_app).
  destruct (parse_round_cases false a p (data ++ bs) (response_header buff fuel) s1) as [[s' ->]|(n & a' & p' & [[-> _]| ->])]; [by eexists None, _| |].
  - eexists _, _. split; [reflexivity|]. intros d a2 p2 [= <- <- <-]. rewrite length_drop, length_app. lia.
  - destruct (IH a' p' (drop n (data ++ bs)) s1) as (r & s' & -> & Hr); [lia|]. exists r, s'. split; [done|]. intros d a2 p2 Hd. specialize (Hr d a2 p2 Hd). rewrite length_drop, length_app in Hr. lia.
Qed.
Lemma chunk_header_reads fuel a p data s : length (incoming s) < fuel →
  ∃ r s', chunk_header buff fuel false a p data s = Ret r s' ∧ ∀ d (a' : A) p', r = Some (d, a', p') → size_of s' d <= size_of s data ∧ a_finished a' = true.
Proof.
  unfold size_of. revert a p data s. induction fuel as [|fuel IH]; intros a p data s Hf; [lia|]. cbn [chunk_header negb orb]. destruct (stream_read_spec (buff - length data) s) as (rt & bs & s1 & E & Hin & _ & Hcase & _). rewrite (cbind_Ret _ _ _ _ _ E).
  destruct (Z.leb_spec rt 0) as [Hrt|Hrt]; [by eexists None, _|]. destruct Hcase as [(_ & Hlen & _)|[? _]]; [|lia]. assert (Hin' : length (incoming s) = length bs + length (incoming s1)) by (by rewrite Hin, length_app).
  destruct (parse_round_cases true a p (data ++ bs) (chunk_header buff fuel false) s1) as [[s' ->]|(n & a' & p' & [[-> Hfin]| ->])]; [by eexists None, _| |].
  - eexists _, _. split; [reflexivity|]. intros d a2 p2 [= <- <- <-]. split; [|done]. rewrite length_drop, length_app. lia.
  - destruct (IH a' p' (drop n (data ++ bs)) s1) as (r & s' & -> & Hr); [lia|]. exists r, s'. split; [done|]. intros d a2 p2 Hd. destruct (Hr d a2 p2 Hd) as [Hs ?]. split; [|done]. rewrite length_drop, length_app in Hs. lia.
Qed.
Lemma chunk_header_returns fuel a p data s : Datatypes.S (length (incoming s)) < fuel →
  ∃ r s', chunk_header buff fuel true a p data s = Ret r s' ∧ ∀ d (a' : A) p', r = Some (d, a', p') → size_of s' d <= size_of s data ∧ a_finished a' = true.
Proof.
  intros Hf. destruct fuel as [|fuel]; [lia|]. destruct (length data =? 0) eqn:E0.
  - destruct (chunk_header_reads (Datatypes.S fuel) a p data s) as (r & s' & E & Hr); [lia|]. exists r, s'. split; [|done]. rewrite <- E. cbn [chunk_header negb orb]. by rewrite E0.
  - cbn [chunk_header negb orb]. rewrite E0. destruct (parse_round_cases true a p data (chunk_header buff fuel false) s) as [[s' ->]|(n & a' & p' & [[-> Hfin]| ->])]; [by eexists None, _| |].
    + eexists _, _. split; [reflexivity|]. intros d a2 p2 [= <- <- <-]. split; [|done]. unfold size_of. rewrite length_drop. lia.
    + destruct (chunk_header_reads fuel a' p' (drop n data) s) as (r & s' & -> & Hr); [lia|]. exists r, s'. split; [done|]. intros d a2 p2 Hd. destruct (Hr d a2 p2 Hd) as [Hs ?]. split; [|done]. unfold size_of in *. rewrite length_drop in Hs. lia.
Qed.
Lemma chunk_rest_returns fuel left body s : (left <= Z.of_nat fuel)%Z → ∃ r s', chunk_rest buff fuel left body s = Ret r s' ∧ (r ≠ None → length (incoming s') <= length (incoming s) ∧ ((0 < left)%Z → length (incoming s') < length (incoming s))).
Proof.
  revert left body s. induction fuel as [|fuel IH]; intros left body s Hf; cbn [chunk_rest]; (destruct (Z.leb_spec left 0) as [H0|H0]; [eexists _, _; split; [reflexivity|lia]|]); [lia|].
  destruct (stream_read_spec (Nat.min buff (Z.to_nat left)) s) as (rt & bs & s1 & E & Hin & _ & Hcase & _). rewrite (cbind_Ret _ _ _ _ _ E). destruct (Z.leb_spec rt 0) as [Hrt|Hrt]; [by eexists None, _|]. destruct Hcase as [(_ & Hlen & _)|[? _]]; [|lia].
  assert (Hin' : length (incoming s) = length bs + length (incoming s1)) by (by rewrite Hin, length_app). destruct (IH (left - rt)%Z (body ++ bs) s1) as (r & s' & -> & Hr); [lia|]. exists r, s'. split; [done|]. intros Hne. destruct (Hr Hne). lia.
Qed.
(** A function returns, throws because a chunk has a negative size, or reads past
    the buffer because a chunk has a size close to 2 ^ 31. *)
Definition ends {B} (o : outcome S B) : Prop := (∃ r s', o = Ret r s') ∨ (∃ s', o = Exn LogicError s') ∨ o = Stuck OutOfBounds.
Lemma i32_wraps z : (2 ^ 31 <= z < 2 ^ 31 + 2 ^ 31)%Z → i32 z = (z - 2 ^ 32)%Z.
Proof. intros Hz. unfold swrap. replace (z + 2 ^ (32 - 1))%Z with (z - 2 ^ 31 + 1 * 2 ^ 32)%Z by lia. rewrite Z.mod_add, Z.mod_small by lia. lia. Qed.
Lemma chunk_data_ends c data body s : (- 2 ^ 31 <= c < 2 ^ 31)%Z → ends (chunk_data buff c data body s) ∧ ∀ d b s', chunk_data buff c data body s = Ret (Some (d, b)) s' → size_of s' d < size_of s data.
Proof.
  intros Hc. unfold chunk_data, size_of, ends. destruct (Z.leb_spec (i32 (c + 2)) (Z.of_nat (length data))) as [H1|H1].
  - destruct (Z.ltb_spec c 0) as [H2|H2]; [split; [right; left; by eexists|done]|]. destruct (Z.ltb_spec (Z.of_nat (length data)) c) as [H3|H3]; [split; [by right; right|done]|]. split; [left; by eexists _, _|].
    assert (0 < length data) by (destruct (Z.lt_ge_cases (c + 2) (2 ^ 31)); [rewrite i32_small in H1 by lia|]; lia). intros d b s' [= <- _ <-]. rewrite length_drop. lia.
  - assert (Hb : (c + 2 < 2 ^ 31)%Z).
    { destruct (Z.lt_ge_cases (c + 2) (2 ^ 31)); [done|]. rewrite (i32_wraps (c + 2)) in H1 by lia. lia. }
    rewrite i32_id in H1 by lia. rewrite i32_id by lia. destruct (chunk_rest_returns (Z.to_nat (c - Z.of_nat (length data) + 2)) (c - Z.of_nat (length data) + 2) (body ++ data) s) as (r & s' & E & Hr); [lia|]. rewrite (cbind_Ret _ _ _ _ _ E).
    destruct r as [b|]; [|split; [left; by eexists _, _|done]]. destruct (length b <? 2); [split; [right; left; by eexists|done]|]. split; [left; by eexists _, _|]. intros d b' s2 [= <- _ <-]. destruct (Hr ltac:(done)) as [_ Hl]. specialize (Hl ltac:(lia)). cbn. lia.
Qed.
Lemma i32_range z : (- 2 ^ 31 <= i32 z < 2 ^ 31)%Z.
Proof. exact (swrap_range 32 z ltac:(lia)). Qed.
Lemma chunks_ends fuel a p data body s : Datatypes.S (size_of s data) < fuel → ends (chunks (A := A) buff fuel a p data body s).
Proof.
  revert a p data body s. induction fuel as [|fuel IH]; intros a p data body s Hf; [lia|]. cbn [chunks]. destruct (chunk_header_returns (Datatypes.S fuel) a p data s) as (h & s1 & E & Hh); [unfold size_of in Hf; lia|]. rewrite (cbind_Ret _ _ _ _ _ E). destruct h as [[[d a1] p1]|]; [|left; by eexists _, _].
  destruct (Hh d a1 p1 eq_refl) as [Hs Hfin]. destruct (chunk_data_ends (i32 (ca_content_len a1)) d body s1 (i32_range _)) as [[(r & s2 & E2)|[(s2 & E2)|E2]] Hr]; unfold cbind; rewrite E2; [|right; left; by eexists|by right; right]. destruct r as [[d2 b2]|]; [|left; by eexists _, _]. specialize (Hr d2 b2 s2 E2).
  destruct (ca_chunks_done a1); [left; by eexists _, _|]. apply IH. lia.
Qed.
(** whatever a server sends and however it is cut into pieces, reading a
    response comes to an end once the server sends no more: it returns, or the
    size of a chunk that does not fit an int makes it throw or read past its
    buffer. *)
Theorem recvResponse_ends fuel s : Datatypes.S (length (incoming s)) < fuel → ends (recvResponse (A := A) cast_u64 unzip buff fuel s).
Proof.
  intros Hf. unfold recvResponse. destruct (response_header_returns fuel a_init response_start [] s) as (h & s1 & E & Hh); [lia|]. rewrite (cbind_Ret _ _ _ _ _ E). destruct h as [[[d a] p]|]; [|left; by eexists _, _]. specialize (Hh d a p eq_refl).
  assert (He : ends ((if ca_chunked a then chunks buff fuel a p d [] else fixed_body cast_u64 d p) s1)); [|unfold cbind; destruct He as [(b & s2 & ->)|[(s2 & ->)| ->]]; [left; by eexists _, _|right; left; by eexists|by right; right]].
  destruct (ca_chunked a); [apply chunks_ends; unfold size_of in *; cbn in Hh; lia|]. left. unfold fixed_body. pose proof (i64_range (rsp_getContentLength cast_u64 p)) as Hr. set (len := i64 _) in *. destruct (Z.ltb_spec 0 len); [|by eexists _, _]. destruct (Z.ltb_spec 0 (len - Z.of_nat (length d))) as [H1|H1]; [|by eexists _, _].
  destruct (readFixSize_spec (len - Z.of_nat (length d)) s1) as (rt & bs & s2 & E2 & _); [lia|]. rewrite (cbind_Ret _ _ _ _ _ E2). destruct (rt <=? 0)%Z; by eexists _, _.
Qed.
End returns.

(** ** A chunked response *)
Section chunked.
Context {A S : Type} `{!Automaton A rs_event, !ChunkState A, !Socket S, !SocketLaws S, !SocketLive S} (cast_u64 : str → option Z) (unzip : bool → str → str) (buff : nat).
Implicit Types s : S.
Lemma prefix_split (data inc x y : str) : data ++ inc = x ++ y → length x <= length data → ∃ t, data = x ++ t ∧ t ++ inc = y.
Proof.
  intros E Hl. exists (drop (length x) data). assert (Hx : take (length x) data = x) by (rewrite <- (take_app_le data inc) by done; rewrite E; apply take_app_length).
  assert (Hd : data = x ++ drop (length x) data) by (by rewrite <- Hx at 1; rewrite take_drop). split; [done|]. rewrite Hd, <- (assoc_L (++)) in E. by apply (inj (x ++.)) in E.
Qed.
Lemma chunk_rest_live fuel k body s : 0 < buff → k <= fuel → live s → k <= length (incoming s) →
  ∃ s', chunk_rest buff fuel (Z.of_nat k) body s = Ret (Some (body ++ take k (incoming s))) s' ∧ live s' ∧ incoming s' = drop k (incoming s).
Proof.
  intros Hb. revert k body s. induction fuel as [|fuel IH]; intros k body s Hk Hl Hin; cbn [chunk_rest]; (destruct (Z.leb_spec (Z.of_nat k) 0) as [H0|H0]; [assert (k = 0) as -> by lia; exists s; by rewrite app_nil_r|]); [lia|].
  destruct (stream_read_spec (Nat.min buff (Z.to_nat (Z.of_nat k))) s) as (rt & bs & s1 & E & Hi & _ & Hcase & Hlive). rewrite (cbind_Ret _ _ _ _ _ E). destruct (Hlive Hl) as [Hrt Hl1]; [lia|intros E0; rewrite E0 in Hin; cbn in Hin; lia|]. rewrite (proj2 (Z.leb_gt rt 0)) by done.
  destruct Hcase as [(_ & Hlen & Hle)|[? _]]; [|lia]. replace (Z.of_nat k - rt)%Z with (Z.of_nat (k - length bs)) by lia. rewrite Hi in Hin. rewrite length_app in Hin. destruct (IH (k - length bs) (body ++ bs) s1) as (s' & -> & Hl' & Hi'); [lia|done|lia|].
  exists s'. rewrite Hi, take_app, drop_app, (take_ge bs), (drop_ge bs) by lia. split_and!; [by rewrite <- (assoc_L (++))|done|done].
Qed.
Lemma chunk_data_live c t body more s : 0 < buff → live s → (Z.of_nat (length c) < 2 ^ 31 - 2)%Z → t ++ incoming s = c ++ crlf ++ more →
  ∃ t' s', chunk_data buff (Z.of_nat (length c)) t body s = Ret (Some (t', body ++ c)) s' ∧ live s' ∧ t' ++ incoming s' = more.
Proof.
  intros Hb Hl Hc E. unfold chunk_data. rewrite i32_small by lia. destruct (Z.leb_spec (Z.of_nat (length c) + 2) (Z.of_nat (length t))) as [H1|H1].
  - rewrite (proj2 (Z.ltb_ge _ 0)), (proj2 (Z.ltb_ge (Z.of_nat (length t)) _)) by lia. rewrite (assoc_L (++)) in E. destruct (prefix_split t (incoming s) (c ++ crlf) more E) as (t' & -> & E'); [rewrite length_app; cbn; lia|].
    exists t', s. split_and!; [|done|done]. replace (Z.to_nat (Z.of_nat (length c) + 2)) with (length (c ++ crlf)) by (rewrite length_app; cbn; lia). rewrite drop_app_length, Nat2Z.id, <- (assoc_L (++)), take_app_length. done.
  - rewrite i32_small by lia. set (k := length c + 2 - length t). replace (Z.of_nat (length c) - Z.of_nat (length t) + 2)%Z with (Z.of_nat k) by lia.
    assert (Hlen : length t + length (incoming s) = length c + 2 + length more) by (rewrite <- length_app, E, !length_app; cbn; lia).
    destruct (chunk_rest_live (Z.to_nat (Z.of_nat k)) k (body ++ t) s) as (s' & Er & Hl' & Hi'); [done|lia|done|lia|]. rewrite (cbind_Ret _ _ _ _ _ Er). exists [], s'.
    assert (Ht : t ++ take k (incoming s) = c ++ crlf).
    { apply (f_equal (take (length (c ++ crlf)))) in E. rewrite (assoc_L (++) c), take_app_length in E. rewrite take_app, take_ge in E by (rewrite length_app; cbn; lia). rewrite <- E. do 2 f_equal. rewrite length_app. cbn. lia. }
    split_and!; [|done|].
    + rewrite <- (assoc_L (++)), Ht, (assoc_L (++)). rewrite (proj2 (Nat.ltb_ge _ 2)) by (rewrite !length_app; cbn; lia). unfold cret. do 3 f_equal. rewrite take_app_le by (rewrite !length_app; cbn; lia). rewrite take_ge; [done|]. rewrite !length_app. cbn. lia.
    + rewrite app_nil_l, Hi'. apply (f_equal (drop (length (c ++ crlf)))) in E. rewrite (assoc_L (++) c), drop_app_length, drop_app, drop_ge in E by (rewrite length_app; cbn; lia). rewrite <- E, app_nil_l. f_equal. rewrite length_app. cbn. lia.
Qed.
(** The automaton takes [hdr n] for the line in front of a chunk of n bytes. *)
Context (hdr : nat → str).
Definition chunk_line (n : nat) : Prop := (Z.of_nat n < 2 ^ 31 - 2)%Z ∧ hdr n ≠ [] ∧ ∀ tail, ∃ evs (a : A), a_execute a_init (hdr n ++ tail) = (length (hdr n), evs, a) ∧ a_error a = false ∧ a_finished a = true ∧
  ca_content_len a = Z.of_nat n ∧ ca_chunks_done a = (n =? 0) ∧ ∀ p, foldl on_response p evs = p.
Definition enc (c : str) : str := hdr (length c) ++ c ++ crlf.
Lemma chunk_header_live n fuel a p t s : chunk_line n → p.1 = 0%Z → length (hdr n ++ t) <= buff →
  ∃ a' : A, chunk_header buff (Datatypes.S fuel) true a p (hdr n ++ t) s = Ret (Some (t, a', p)) s ∧ ca_content_len a' = Z.of_nat n ∧ ca_chunks_done a' = (n =? 0).
Proof.
  intros (Hn & Hne & Hline) Hp Hb. destruct (Hline t) as (evs & a' & Ea & Herr & Hfin & Hc & Hd & Hev). exists a'. split; [|done]. assert (0 < length (hdr n)) by (destruct (hdr n); [done|cbn; lia]). rewrite length_app in Hb.
  cbn [chunk_header negb orb]. rewrite (proj2 (Nat.eqb_neq (length (hdr n ++ t)) 0)) by (rewrite length_app; lia). unfold parse_round, rsp_execute. rewrite Ea, Hev. unfold rsp_hasError. rewrite Hp, Herr, Hfin, drop_app_length. cbn [Z.eqb negb orb]. by rewrite (proj2 (Nat.eqb_neq (length t) buff)) by lia.
Qed.
Lemma chunks_live cs fuel a p data body s : chunk_line 0 → Forall (λ c : str, c ≠ [] ∧ chunk_line (length c)) cs → p.1 = 0%Z → live s → length data <= buff → length cs < fuel →
  data ++ incoming s = mjoin (enc <$> cs) ++ enc [] → length (mjoin (enc <$> cs)) + length (hdr 0) <= length data →
  ∃ s', chunks (A := A) buff fuel a p data body s = Ret (Some (body ++ mjoin cs, p)) s' ∧ incoming s' = [].
Proof.
  intros Hline Hcs Hp. revert fuel a data body s. induction Hcs as [|c cs [Hc1 Hc2] _ IH]; intros fuel a data body s Hl Hb Hf E Hlen; (destruct fuel as [|fuel]; [cbn in Hf; lia|]); cbn [chunks].
  - cbn in E, Hlen. destruct (prefix_split data (incoming s) (hdr 0) crlf) as (t & -> & Et); [exact E|lia|]. destruct (chunk_header_live 0 fuel a p t s Hline Hp Hb) as (a' & Eh & Ec & Ed). rewrite (cbind_Ret _ _ _ _ _ Eh), Ec, i32_small by (unfold chunk_line in *; lia).
    assert (Hb0 : 0 < buff) by (destruct Hline as (_ & Hne & _); destruct (hdr 0); [done|cbn in Hb; lia]).
    destruct (chunk_data_live [] t body [] s Hb0 Hl ltac:(cbn; lia)) as (t' & s' & Er & _ & Em); [by rewrite app_nil_r|]. cbn [length] in Er. rewrite (cbind_Ret _ _ _ _ _ Er), Ed. exists s'. split; [done|]. by destruct t'.
  - change (mjoin (enc <$> c :: cs)) with (enc c ++ mjoin (enc <$> cs)) in E, Hlen. unfold enc at 1 in E. unfold enc at 1 in Hlen. rewrite !length_app in Hlen. rewrite <- !(assoc_L (++)) in E.
    destruct (prefix_split data (incoming s) (hdr (length c)) (c ++ crlf ++ mjoin (enc <$> cs) ++ enc [])) as (t & -> & Et); [exact E|lia|]. destruct (chunk_header_live (length c) fuel a p t s Hc2 Hp Hb) as (a' & Eh & Ec & Ed). rewrite (cbind_Ret _ _ _ _ _ Eh), Ec, i32_small by (unfold chunk_line in *; lia).
    rewrite length_app in Hlen, Hb. assert (0 < length c) by (destruct c; [done|cbn; lia]). destruct (chunk_data_live c t body (mjoin (enc <$> cs) ++ enc []) s ltac:(lia) Hl (proj1 Hc2) Et) as (t' & s' & Er & Hl' & Em). rewrite (cbind_Ret _ _ _ _ _ Er), Ed, (proj2 (Nat.eqb_neq (length c) 0)) by lia.
    assert (Ht' : length (mjoin (enc <$> cs)) + length (hdr 0) <= length t' ∧ length t' <= length t).
    { unfold chunk_data in Er. pose proof (proj1 Hc2). rewrite i32_small in Er by lia. change (length crlf) with 2 in Hlen. rewrite (proj2 (Z.leb_le (Z.of_nat (length c) + 2) (Z.of_nat (length t)))) in Er by lia. rewrite (proj2 (Z.ltb_ge (Z.of_nat (length c)) 0)), (proj2 (Z.ltb_ge (Z.of_nat (length t)) (Z.of_nat (length c)))) in Er by lia. injection Er as <- _. rewrite length_drop. lia. }
    destruct (IH fuel a' t' (body ++ c) s' Hl' ltac:(lia) ltac:(cbn in Hf; lia) Em ltac:(lia)) as (s2 & E2 & Hi2). exists s2. rewrite E2. split; [|done]. by rewrite <- (assoc_L (++)).
Qed.
(** C39: a response with a chunked body, whose headers and chunk lines are in the
    first read, is read whole: the client gets the response its header says with
    the concatenation of the chunks as its body, decompressed as announced. *)
Theorem chunked_response fuel s head r (a1 : A) cs : chunk_line 0 → head ≠ [] →
  (∀ tail, ∃ evs, a_execute a_init (head ++ tail) = (length head, evs, a1) ∧ foldl on_response response_start evs = (0%Z, r)) →
  a_error a1 = false → a_finished a1 = true → ca_chunked a1 = true →
  Forall (λ c : str, c ≠ [] ∧ chunk_line (length c)) cs → live s → incoming s = head ++ mjoin (enc <$> cs) ++ enc [] →
  (∀ rt bs s1, sock_recv buff s = (rt, bs, s1) → length head + length (mjoin (enc <$> cs)) + length (hdr 0) <= length bs) → length cs < fuel →
  ∃ s', recvResponse (A := A) cast_u64 unzip buff fuel s = Ret (Some (decoded unzip (mjoin cs) r)) s' ∧ incoming s' = [].
Proof.
  intros Hline Hh Hp Herr Hfin Hch Hcs Hl Hin Hfirst Hf. destruct fuel as [|fuel]; [lia|]. unfold recvResponse. cbn [response_header]. rewrite Nat.sub_0_r. destruct (stream_read_spec buff s) as (rt & bs & s1 & E & Hi & _ & Hcase & Hlive).
  assert (Hbs : length head + length (mjoin (enc <$> cs)) + length (hdr 0) <= length bs). { unfold stream_read in E. rewrite (live_connected s Hl) in E. destruct (sock_recv buff s) as [[rt' bs'] s1'] eqn:Er. injection E as <- <- <-. by eapply Hfirst. }
  assert (Hpos : 0 < length head) by (destruct head; [done|cbn; lia]). destruct Hcase as [(Hrt & Hlen & Hle)|[_ ->]]; [|cbn in Hbs; lia]. destruct (Hlive Hl) as [_ Hl1]; [lia|rewrite Hin; by destruct head|].
  destruct (prefix_split bs (incoming s1) head (mjoin (enc <$> cs) ++ enc [])) as (t & Et & Em); [congruence|lia|]. destruct (Hp t) as (evs & Ea & Hev).
  assert (Hhead : response_header buff (Datatypes.S fuel) a_init response_start [] s = Ret (Some (t, a1, (0%Z, r))) s1).
  { cbn [response_header]. rewrite Nat.sub_0_r, (cbind_Ret _ _ _ _ _ E), (proj2 (Z.leb_gt rt 0)) by done. rewrite app_nil_l, Et. unfold parse_round, rsp_execute. rewrite Ea, Hev. unfold rsp_hasError. rewrite Herr, Hfin, drop_app_length. cbn [fst Z.eqb negb orb].
    by rewrite (proj2 (Nat.eqb_neq (length t) buff)) by (apply (f_equal length) in Et; rewrite length_app in Et; lia). }
  cbn [response_header] in Hhead. rewrite Nat.sub_0_r in Hhead. rewrite (cbind_Ret _ _ _ _ _ Hhead), Hch. apply (f_equal length) in Et. rewrite length_app in Et.
  destruct (chunks_live cs (Datatypes.S fuel) a1 (0%Z, r) t [] s1 Hline Hcs eq_refl Hl1 ltac:(lia) Hf Em ltac:(lia)) as (s2 & E2 & Hi2). rewrite (cbind_Ret _ _ _ _ _ E2). by exists s2.
Qed.
End chunked.

(** ** An automaton that knows one header and the lines of chunks *)
Record ca_state := mkCa { cs_kind : nat; cs_len : Z }.
Definition rs_head : str := text "HTTP/1.1 200 OK" ++ crlf ++ text "transfer-encoding: chunked" ++ crlf ++ crlf.
Definition rs_head_events (data : str) : list rs_event :=
  let tok from len := take len (drop from data) in
  [OnRsVersion (tok 0 8) 8; OnStatus (tok 9 4) 3; OnReason (tok 13 2) 2; OnRsField (tok 17 17) 17 (tok 36 7) 7; OnRsHeaderDone].
Fixpoint span_hex (s : str) : str := match s with b :: s => if isxdigit b then b :: span_hex s else [] | [] => [] end.
Definition rs_kind_of (data : str) : nat * list rs_event * ca_state :=
  let ds := span_hex data in
  if bool_decide (take (length rs_head) data = rs_head) then (length rs_head, rs_head_events data, mkCa 1 (-1))
  else if bool_decide (ds ≠ []) && bool_decide (take 2 (drop (length ds) data) = crlf) then
    (length ds + 2, [OnChunk], mkCa 3 (i32 (foldl (λ v b, v * 16 + xdigit b) 0 ds)%Z))
  else if length data <=? length ds + 1 then (length data, [], mkCa 0 (-1)) else (0, [], mkCa 2 (-1)).
#[export] Instance rs_automaton : Automaton ca_state rs_event := {
  a_init := mkCa 0 (-1);
  a_execute _ := rs_kind_of;
  a_error a := cs_kind a =? 2;
  a_finished a := (cs_kind a =? 1) || (cs_kind a =? 3)
}.
#[export] Instance rs_chunk_state : ChunkState ca_state := {
  ca_content_len := cs_len;
  ca_chunked a := 0 <? cs_kind a;
  ca_chunks_done a := (cs_kind a =? 3) && (cs_len a <=? 0)%Z
}.
Definition hex_line (n : nat) : str := (if n =? 0 then text "0" else if n =? 5 then text "5" else text "10") ++ crlf.
Lemma hex_line_ok n : n = 0 ∨ n = 5 ∨ n = 16 → chunk_line (A := ca_state) hex_line n.
Proof.
  intros Hn. destruct Hn as [-> |[-> | ->]]; (split_and!; [done|done|]); intros tail.
  - exists [OnChunk], (mkCa 3 0). split_and!; done.
  - exists [OnChunk], (mkCa 3 5). split_and!; done.
  - exists [OnChunk], (mkCa 3 16). split_and!; done.
Qed.
Definition rs_ex_chunks : list str := [text "hello"; text "0123456789abcdef"].
Definition rs_ex_wire (chunk : nat) : wire := mkWire (rs_head ++ mjoin (enc hex_line <$> rs_ex_chunks) ++ enc hex_line []) [] chunk true.
Definition rs_ex : HttpResponse := rs_setHeader (text "transfer-encoding") (text "chunked") (rs_setReason (text "OK") (rs_setStatus 200 (rs_setVersion 17 (HttpResponse_new 17 true)))).
Lemma chunked_response_witness : ∃ s' : wire, recvResponse (A := ca_state) (λ _, None) (λ _ b, b) 4096 10 (rs_ex_wire 4096) = Ret (Some (decoded (λ _ b, b) (text "hello0123456789abcdef") rs_ex)) s' ∧ incoming s' = [].
Proof.
  apply (chunked_response (A := ca_state) (S := wire) (λ _, None) (λ _ b, b) 4096 hex_line 10 (rs_ex_wire 4096) rs_head rs_ex (mkCa 1 (-1)) rs_ex_chunks);
    [apply hex_line_ok; auto|done| |done|done|done| |split; [reflexivity|cbn; lia]|reflexivity| |cbn; lia].
  - intros tail. exists (rs_head_events (rs_head ++ tail)). split; [|vm_compute; reflexivity]. unfold a_execute, rs_automaton, rs_kind_of. rewrite bool_decide_eq_true_2; [reflexivity|]. vm_compute. reflexivity.
  - repeat constructor; try done; apply hex_line_ok; auto.
  - intros rt bs s1 E. vm_compute in E. injection E as _ <- _. vm_compute. lia.
Defined.
Lemma recvResponse_ends_witness : ends (recvResponse (A := ca_state) (λ _, None) (λ _ b, b) 4096 200 (rs_ex_wire 7)).
Proof. apply (recvResponse_ends (A := ca_state)). vm_compute. lia. Defined.

(** ** What the code does not mean *)
(** The line of a chunk that is split over two reads loses its first digits: of
    "10" only "0" is seen, and the body ends there. *)
Lemma split_line : match recvResponse (A := ca_state) (λ _, None) (λ _ b, b) 4096 10
    (mkWire (rs_head ++ enc hex_line (text "0123456789abcdef") ++ enc hex_line []) [] (length rs_head + 1) true) with Ret r s => r = Some rs_ex ∧ rs_body rs_ex = [] | _ => False end.
Proof. vm_compute. done. Qed.
(** A size over 2 ^ 31 is negative as an int; as a length it is huge, and the
    append throws. *)
Lemma huge_chunk : match recvResponse (A := ca_state) (λ _, None) (λ _ b, b) 4096 10 (mkWire (rs_head ++ text "ffffffff" ++ crlf ++ text "x") [] 4096 true) with Exn e _ => e = LogicError | _ => False end.
Proof. vm_compute. done. Qed.
