(* ===== verification/Sessions.v ===== *)
(** * Sessions of HTTP (Sylar/HttpServer/session_data.{h,cc})

    A session holds values of any type under names; the manager finds sessions
    by their id and drops those that have not been asked for lately. Sessions
    are shared pointers: they are numbered, in a store. *)
From Stdlib Require Import ZArith Lia Strings.String.
From stdpp Require Import base list gmap strings list_numbers numbers.
From S2P Require Import Prelude LoadBalance.
Local Open Scope Z_scope.

Section sessions.
(** Types, and values of boost::any with the type they have. *)
Context {T V : Type} `{!EqDecision T} `{!IterOrder string}.
Record SessionData := mkSession { sn_datas : gmap string (T * V); sn_lastAccessTime : Z; sn_id : string }.
Record sessions := mkSessions { sm_store : list SessionData; sm_datas : gmap string nat }.
Definition set_session (p : nat) (x : SessionData) (m : sessions) : sessions := mkSessions (<[p := x]> (sm_store m)) (sm_datas m).
Definition at_session {A} (p : nat) (f : SessionData → A * SessionData) : M sessions A :=
  let! m := cget in
  match sm_store m !! p with None => cstuck NullDeref | Some x => let (a, x) := f x in let! _ := cmodify (set_session p x) in cret a end.

(** ** SessionData; [seed] is the text of the clock and of rand() *)
Definition SessionData_new (md5 : string → string) (now : Z) (auto_gen : bool) (seed : string) : M sessions nat :=
  let! m := cget in
  let x := mkSession ∅ (u64 now) (if auto_gen then md5 seed else EmptyString) in
  let! _ := cput (mkSessions (sm_store m ++ [x]) (sm_datas m)) in cret (length (sm_store m)).
Definition setData (p : nat) (key : string) (t : T) (v : V) : M sessions unit :=
  at_session p (λ x, (tt, mkSession (<[key := (t, v)]> (sn_datas x)) (sn_lastAccessTime x) (sn_id x))).
Definition getData (p : nat) (key : string) (t : T) (def : V) : M sessions V :=
  at_session p (λ x, (match sn_datas x !! key with Some (t', v) => if decide (t' = t) then v else def | None => def end, x)).
Definition sn_del (p : nat) (key : string) : M sessions unit := at_session p (λ x, (tt, mkSession (delete key (sn_datas x)) (sn_lastAccessTime x) (sn_id x))).
Definition sn_has (p : nat) (key : string) : M sessions bool := at_session p (λ x, (bool_decide (is_Some (sn_datas x !! key)), x)).
Definition setLastAccessTime (p : nat) (v : Z) : M sessions unit := at_session p (λ x, (tt, mkSession (sn_datas x) v (sn_id x))).
Definition setId (p : nat) (v : string) : M sessions unit := at_session p (λ x, (tt, mkSession (sn_datas x) (sn_lastAccessTime x) v)).

(** ** SessionDataManager *)
Definition sm_add (p : nat) : M sessions unit :=
  let! id := at_session p (λ x, (sn_id x, x)) in cmodify (λ m, mkSessions (sm_store m) (<[id := p]> (sm_datas m))).
Definition sm_get (now : Z) (id : string) : M sessions (option nat) :=
  let! m := cget in
  match sm_datas m !! id with
  | Some p => let! _ := setLastAccessTime p (u64 now) in cret (Some p)
  | None => cret None
  end.
Definition sm_del (id : string) : M sessions unit := cmodify (λ m, mkSessions (sm_store m) (delete id (sm_datas m))).
(** The keys found under the read lock. *)
Fixpoint stale_keys (limit : Z) (l : list (string * nat)) : M sessions (list string) :=
  match l with
  | [] => cret []
  | (id, p) :: l =>
    let! t := at_session p (λ x, (sn_lastAccessTime x, x)) in
    let! keys := stale_keys limit l in
    cret (if t <? limit then id :: keys else keys)
  end.
Fixpoint del_keys (keys : list string) : M sessions unit := match keys with [] => cret tt | k :: keys => let! _ := sm_del k in del_keys keys end.
Definition sm_check (now ts : Z) : M sessions unit :=
  let! m := cget in
  let! keys := stale_keys (u64 (now - ts)) (order (sm_datas m)) in
  del_keys keys.

(** ** Histories *)
Definition last_access (m : sessions) (id : string) : option Z := p ← sm_datas m !! id; sn_lastAccessTime <$> sm_store m !! p.
Definition fresh (limit : Z) (m : sessions) (id : string) : bool := match last_access m id with Some t => limit <=? t | None => false end.
Definition sm_ok (m : sessions) : Prop := map_Forall (λ _ p, is_Some (sm_store m !! p)) (sm_datas m).
Lemma at_session_some {A} p (f : SessionData → A * SessionData) m x : sm_store m !! p = Some x → at_session p f m = Ret (f x).1 (set_session p (f x).2 m).
Proof. intros E. unfold at_session, cbind, cget. rewrite E. by destruct (f x). Qed.
Lemma set_session_same p x m : sm_store m !! p = Some x → set_session p x m = m.
Proof. intros E. unfold set_session. rewrite list_insert_id by done. by destruct m. Qed.
Lemma stale_keys_spec limit l m : Forall (λ kp, is_Some (sm_store m !! kp.2)) l →
  stale_keys limit l m = Ret (omap (λ kp : string * nat, match sm_store m !! kp.2 with Some x => if sn_lastAccessTime x <? limit then Some kp.1 else None | None => None end) l) m.
Proof.
  induction 1 as [|[id p] l [x Hx] _ IH]; [done|]. cbn [stale_keys snd] in *. rewrite (cbind_Ret _ _ _ _ _ (at_session_some p _ m x Hx)). cbn [fst snd]. rewrite set_session_same by done. rewrite (cbind_Ret _ _ _ _ _ IH). cbn. rewrite Hx. by destruct (_ <? _).
Qed.
Lemma del_keys_spec keys m : del_keys keys m = Ret tt (mkSessions (sm_store m) (foldr delete (sm_datas m) keys)).
Proof.
  revert m. induction keys as [|k keys IH]; intros m; [by destruct m|]. cbn [del_keys]. unfold cbind, sm_del, cmodify. rewrite IH. cbn. do 2 f_equal. clear. generalize (sm_datas m) as d. induction keys as [|k' keys IH]; intros d; [done|]. cbn. by rewrite IH, delete_delete.
Qed.
Lemma foldr_delete_lookup (keys : list string) (d : gmap string nat) id : foldr delete d keys !! id = if decide (id ∈ keys) then None else d !! id.
Proof.
  induction keys as [|k keys IH]; cbn; [by rewrite decide_False by apply not_elem_of_nil|]. destruct (decide (k = id)) as [->|Hne]; [rewrite lookup_delete_eq, decide_True by (by left); done|]. rewrite lookup_delete_ne, IH by done.
  destruct (decide (id ∈ keys)); [rewrite decide_True by (by right); done|]. rewrite decide_False; [done|]. rewrite elem_of_cons. naive_solver.
Qed.
(** check keeps the sessions asked for since the limit, and no others. *)
Lemma check_spec now ts m : sm_ok m → ∃ m', sm_check now ts m = Ret tt m' ∧ sm_store m' = sm_store m ∧
  ∀ id, sm_datas m' !! id = if fresh (u64 (now - ts)) m id then sm_datas m !! id else None.
Proof.
  intros Hok. unfold sm_check, cbind at 1, cget. assert (Hall : Forall (λ kp : string * nat, is_Some (sm_store m !! kp.2)) (order (sm_datas m))).
  { apply Forall_forall. intros [id p] Hin%list_elem_of_In. rewrite order_perm in Hin. apply elem_of_map_to_list in Hin. by apply (Hok id p). }
  rewrite (cbind_Ret _ _ _ _ _ (stale_keys_spec (u64 (now - ts)) _ m Hall)), del_keys_spec. eexists. split_and!; [done|done|]. intros id. cbn [sm_datas]. rewrite foldr_delete_lookup.
  set (keys := omap _ _). assert (Hk : id ∈ keys ↔ ∃ p x, sm_datas m !! id = Some p ∧ sm_store m !! p = Some x ∧ sn_lastAccessTime x < u64 (now - ts)).
  { unfold keys. rewrite list_elem_of_omap. split.
    - intros ([id' p] & Hin & Hs). rewrite order_perm in Hin. apply elem_of_map_to_list in Hin. cbn in Hs. destruct (sm_store m !! p) as [x|] eqn:Ex; [|done]. destruct (Z.ltb_spec (sn_lastAccessTime x) (u64 (now - ts))); [|done]. injection Hs as ->. by exists p, x.
    - intros (p & x & Ep & Ex & Hx). exists (id, p). split; [rewrite order_perm; by apply elem_of_map_to_list|]. cbn. by rewrite Ex, (proj2 (Z.ltb_lt _ _)). }
  unfold fresh, last_access. destruct (sm_datas m !! id) as [p|] eqn:Ep; cbn [mbind option_bind]; [|by destruct (decide _)]. destruct (Hok id p Ep) as [x Hx]. rewrite Hx. cbn. destruct (Z.leb_spec (u64 (now - ts)) (sn_lastAccessTime x)) as [Hl|Hl].
  - rewrite decide_False; [done|]. intros (p' & x' & [= <-] & Ex & Hlt)%Hk. rewrite Hx in Ex. injection Ex as <-. lia.
  - rewrite decide_True; [done|]. apply Hk. by exists p, x.
Qed.
(** check keeps exactly the sessions asked for since [now - ts], with their
    contents, and never fails; get gives the session of an id, counts as asking
    for it and changes no other entry; a value that was stored is found at the
    type it was stored with, and the default at any other. *)
Theorem sessions_expire now ts m : sm_ok m →
  (∃ m', sm_check now ts m = Ret tt m' ∧ sm_ok m' ∧ sm_store m' = sm_store m ∧ ∀ id, sm_datas m' !! id = if fresh (u64 (now - ts)) m id then sm_datas m !! id else None) ∧
  (∀ id p, sm_datas m !! id = Some p → ∃ m', sm_get now id m = Ret (Some p) m' ∧ sm_ok m' ∧ sm_datas m' = sm_datas m ∧ last_access m' id = Some (u64 now)) ∧
  (∀ p key t v t' def, is_Some (sm_store m !! p) → ∃ m', (let! _ := setData p key t v in getData p key t' def) m = Ret (if decide (t = t') then v else def) m').
Proof.
  intros Hok. split_and!.
  - destruct (check_spec now ts m Hok) as (m' & E & Es & Hd). exists m'. split_and!; [done| |done|done]. intros id p Hp. rewrite Hd in Hp. rewrite Es. destruct (fresh _ m id); [by apply (Hok id)|done].
  - intros id p Hp. destruct (Hok id p Hp) as [x Hx]. unfold sm_get, cbind at 1, cget. rewrite Hp. unfold setLastAccessTime. rewrite (cbind_Ret _ _ _ _ _ (at_session_some p _ m x Hx)). eexists. split_and!; [done| |done|].
    + intros i q Hq. cbn in Hq |- *. destruct (Hok i q Hq) as [y Hy]. destruct (decide (p = q)) as [->|Hne]; [rewrite list_lookup_insert_eq by (by eapply lookup_lt_Some); by eexists|rewrite list_lookup_insert_ne by done; by eexists].
    + unfold last_access. cbn. rewrite Hp. cbn. by rewrite list_lookup_insert_eq by (by eapply lookup_lt_Some).
  - intros p key t v t' def [x Hx]. unfold setData. rewrite (cbind_Ret _ _ _ _ _ (at_session_some p _ m x Hx)). unfold getData. erewrite at_session_some by (cbn; by apply list_lookup_insert_eq; eapply lookup_lt_Some). eexists. cbn. by rewrite lookup_insert_eq.
Qed.
End sessions.

(** ** Examples *)
Section examples.
#[local] Instance session_order : IterOrder string := natural_order.
Definition two_sessions : sessions (T := nat) (V := nat) := mkSessions [mkSession ∅ 1000 "a"; mkSession ∅ 5000 "b"] {["a"%string := 0%nat; "b"%string := 1%nat]}.
Lemma sessions_expire_witness : ∃ m', sm_check 8000 3600 two_sessions = Ret tt m' ∧ sm_datas m' !! "a"%string = None ∧ sm_datas m' !! "b"%string = Some 1%nat.
Proof.
  destruct (sessions_expire (T := nat) (V := nat) 8000 3600 two_sessions) as [(m' & E & _ & _ & Hd) _].
  - intros id p Hp. unfold two_sessions in *. cbn in *. apply lookup_insert_Some in Hp as [[_ <-]|[_ Hp]]; [by eexists|]. apply lookup_singleton_Some in Hp as [_ <-]. by eexists.
  - exists m'. split_and!; [exact E|rewrite Hd; reflexivity|rewrite Hd; reflexivity].
Defined.
(** A session asked for after check has listed it is dropped all the same. *)
Definition race : M (sessions (T := nat) (V := nat)) (option nat) :=
  let! keys := stale_keys (u64 (8000 - 3600)) (order (sm_datas two_sessions)) in
  let! p := sm_get 8000 "a" in
  let! _ := del_keys keys in cret p.
Lemma check_race : match race two_sessions with Ret p m => p = Some 0%nat ∧ sm_datas m !! "a"%string = None | _ => False end.
Proof. vm_compute. done. Qed.
(** The id of a session can be changed after it was added: it stays under the old
    one. *)
Lemma id_moves : match (let! _ := setId 0 "c" in sm_get 9000 "c") two_sessions with Ret p _ => p = None | _ => False end.
Proof. vm_compute. done. Qed.
End examples.
