(* ===== verification/AsyncStream.v ===== *)
(** * Asynchronous streams: streams/async_socket_stream.{h,cc} and
      rock/rock_stream.{h,cc}

    A request puts a context in a table and in the queue of the writer, arms
    a timer and yields; the reader, the timer and the closing of the stream
    compete to resume it. Reader, writer, timers, requests and start() run
    in fibers of several threads: the model interleaves them, one access to
    shared state at a time.

    A fiber is the list of what it has still to do. What a peer sends, how
    sends and connects end and when timers expire are inputs. A wait that
    cannot go on is a step that is not enabled ([Stuck NoReturn]); the
    FiberSemaphores are counters. *)
From Stdlib Require Import ZArith Lia Strings.Byte.
From stdpp Require Import base list list_numbers numbers gmap.
From S2P Require Import Prelude Rock LoadBalance.

Definition TIMEOUT : Z := u32 (-1).
Definition IO_ERROR : Z := u32 (-2).
Definition NOT_CONNECT : Z := -3.

(** Ctx and RockCtx; scheduler, fiber and timer are null or not. *)
Record Ctx := mkCtx
  { c_sn : Z; c_result : Z; c_timed : bool; c_scheduler : bool; c_fiber : bool; c_timer : bool;
    c_response : option Response; c_request : RockMessage }.
Definition set_result v x := mkCtx (c_sn x) v (c_timed x) (c_scheduler x) (c_fiber x) (c_timer x) (c_response x) (c_request x).
Definition set_timed v x := mkCtx (c_sn x) (c_result x) v (c_scheduler x) (c_fiber x) (c_timer x) (c_response x) (c_request x).
Definition set_scheduler v x := mkCtx (c_sn x) (c_result x) (c_timed x) v (c_fiber x) (c_timer x) (c_response x) (c_request x).
Definition set_fiber v x := mkCtx (c_sn x) (c_result x) (c_timed x) (c_scheduler x) v (c_timer x) (c_response x) (c_request x).
Definition set_timer v x := mkCtx (c_sn x) (c_result x) (c_timed x) (c_scheduler x) (c_fiber x) v (c_response x) (c_request x).
Definition set_response v x := mkCtx (c_sn x) (c_result x) (c_timed x) (c_scheduler x) (c_fiber x) (c_timer x) v (c_request x).

(** RockSendCtx and RockCtx in the queue *)
Inductive SendCtx := SMsg (m : RockMessage) | SCtx (c : nat).

(** What a fiber has still to do. *)
Inductive instr :=
  (* RockStream::request *)
  | IAdd (c : nat) | ITimer (c : nat) | ISetTimer (c : nat) | IEnq (s : SendCtx) | IYield (c : nat) | IReturn (c : nat)
  (* Ctx::doRsp: the read of scheduler, the compare-and-swap, the rest *)
  | IRsp (c : nat) | ICas (c : nat) (scd : bool) | IFin (c : nat)
  (* onTimeOut *)
  | IErase (c : nat) | ISetTimed (c : nat)
  (* doRecv *)
  | IRecv | ISetResult (c : nat) (r : Response) | ISetResponse (c : nat) (r : Response)
  (* innerClose *)
  | IClose | INotify | ISwap | IClear | ISetErr (c : nat)
  (* doRead, doWrite *)
  | IRead | IWrite | ISemWait | ITake | ISendAll (l : list SendCtx)
  (* start *)
  | IWaitSem | IStart | IWaitNotify
  (* sendMessage, close *)
  | ISendMessage (m : RockMessage) | IShut.

(** Inputs from outside: a message or its end, whether a send or a connect
    succeeded, an exception. *)
Inductive input := NoInput | Got (m : option RockMessage) | Result (ok : bool) | Threw.

(** The shared state. [armed] are the contexts whose timer is pending, the
    last fields record what happened: fibers resumed, results returned,
    responses matched, messages queued and sent, messages for the handlers. *)
Record shared := mkShared
  { ctxs : gmap nat Ctx; next_ctx : nat; m_ctxs : gmap Z nat; m_queue : list SendCtx; m_sem : nat; m_waitSem : nat;
    connected : bool; armed : gset nat;
    woken : list nat; returned : list (nat * (Z * option Response)); heard : list (nat * Response);
    enqueued : list SendCtx; sent : list SendCtx; tasks : list RockMessage }.
Definition set_ctxs v s := mkShared v (next_ctx s) (m_ctxs s) (m_queue s) (m_sem s) (m_waitSem s) (connected s) (armed s) (woken s) (returned s) (heard s) (enqueued s) (sent s) (tasks s).
Definition set_next v s := mkShared (ctxs s) v (m_ctxs s) (m_queue s) (m_sem s) (m_waitSem s) (connected s) (armed s) (woken s) (returned s) (heard s) (enqueued s) (sent s) (tasks s).
Definition set_table v s := mkShared (ctxs s) (next_ctx s) v (m_queue s) (m_sem s) (m_waitSem s) (connected s) (armed s) (woken s) (returned s) (heard s) (enqueued s) (sent s) (tasks s).
Definition set_queue v s := mkShared (ctxs s) (next_ctx s) (m_ctxs s) v (m_sem s) (m_waitSem s) (connected s) (armed s) (woken s) (returned s) (heard s) (enqueued s) (sent s) (tasks s).
Definition set_sem v s := mkShared (ctxs s) (next_ctx s) (m_ctxs s) (m_queue s) v (m_waitSem s) (connected s) (armed s) (woken s) (returned s) (heard s) (enqueued s) (sent s) (tasks s).
Definition set_waitSem v s := mkShared (ctxs s) (next_ctx s) (m_ctxs s) (m_queue s) (m_sem s) v (connected s) (armed s) (woken s) (returned s) (heard s) (enqueued s) (sent s) (tasks s).
Definition set_connected v s := mkShared (ctxs s) (next_ctx s) (m_ctxs s) (m_queue s) (m_sem s) (m_waitSem s) v (armed s) (woken s) (returned s) (heard s) (enqueued s) (sent s) (tasks s).
Definition set_armed v s := mkShared (ctxs s) (next_ctx s) (m_ctxs s) (m_queue s) (m_sem s) (m_waitSem s) (connected s) v (woken s) (returned s) (heard s) (enqueued s) (sent s) (tasks s).
Definition add_woken c s := mkShared (ctxs s) (next_ctx s) (m_ctxs s) (m_queue s) (m_sem s) (m_waitSem s) (connected s) (armed s) (woken s ++ [c]) (returned s) (heard s) (enqueued s) (sent s) (tasks s).
Definition add_returned x s := mkShared (ctxs s) (next_ctx s) (m_ctxs s) (m_queue s) (m_sem s) (m_waitSem s) (connected s) (armed s) (woken s) (returned s ++ [x]) (heard s) (enqueued s) (sent s) (tasks s).
Definition add_heard x s := mkShared (ctxs s) (next_ctx s) (m_ctxs s) (m_queue s) (m_sem s) (m_waitSem s) (connected s) (armed s) (woken s) (returned s) (heard s ++ [x]) (enqueued s) (sent s) (tasks s).
Definition add_enqueued x s := mkShared (ctxs s) (next_ctx s) (m_ctxs s) (m_queue s) (m_sem s) (m_waitSem s) (connected s) (armed s) (woken s) (returned s) (heard s) (enqueued s ++ [x]) (sent s) (tasks s).
Definition add_sent x s := mkShared (ctxs s) (next_ctx s) (m_ctxs s) (m_queue s) (m_sem s) (m_waitSem s) (connected s) (armed s) (woken s) (returned s) (heard s) (enqueued s) (sent s ++ [x]) (tasks s).
Definition add_task m s := mkShared (ctxs s) (next_ctx s) (m_ctxs s) (m_queue s) (m_sem s) (m_waitSem s) (connected s) (armed s) (woken s) (returned s) (heard s) (enqueued s) (sent s) (tasks s ++ [m]).
(** A stream made with its socket unconnected. *)
Definition AsyncSocketStream_new : shared := mkShared ∅ 0 ∅ [] 0 2 false ∅ [] [] [] [] [] [].

Definition prog := list instr.
(** innerClose: the callback, close, notify, the table taken; the rest is
    known once the table is taken. *)
Definition innerClose : prog := [IClose; INotify; ISwap].
Definition get_ctx (c : nat) : M shared Ctx := λ s,
  match ctxs s !! c with Some x => Ret x s | None => Stuck NullDeref end.
Definition upd_ctx (c : nat) (f : Ctx → Ctx) : M shared unit :=
  let! x := get_ctx c in cmodify (λ s, set_ctxs (<[c := f x]> (ctxs s)) s).

(** m_ctxs.insert keeps the entry that is there. *)
Definition addCtx (c : nat) (sn : Z) : M shared unit :=
  cmodify (λ s, match m_ctxs s !! sn with
                | Some _ => s
                | None => set_table (<[sn := c]> (m_ctxs s)) s
                end).
(** The context and that it was in the table, for the history. *)
Definition getAndDelCtx (r : Response) : M shared (option nat) :=
  let! s := cget in
  match m_ctxs s !! rs_sn r with
  | None => cret None
  | Some c => let! _ := cmodify (λ s, add_heard (c, r) (set_table (delete (rs_sn r) (m_ctxs s)) s)) in cret (Some c)
  end.
(** enqueue up to the notification; whether one is due. *)
Definition enqueue (x : SendCtx) : M shared bool :=
  let! s := cget in
  let! _ := cmodify (λ s, add_enqueued x (set_queue (m_queue s ++ [x]) s)) in
  cret (bool_decide (m_queue s = [])).
(** FiberSemaphore::wait *)
Definition sem_wait (get : shared → nat) (set : nat → shared → shared) : M shared unit :=
  let! s := cget in
  match get s with O => cstuck NoReturn | S n => cmodify (set n) end.
Definition waitFiber : prog := [IWaitSem; IWaitSem].

Section steps.
Context `{!IterOrder Z}.
(** Whether m_requestHandler and m_notifyHandler are set. *)
Context (has_request_handler has_notify_handler : bool).

(** for(auto& i : ctxs) { i.second->result = IO_ERROR; i.second->doRsp(); } *)
Definition fail_all (cs : list nat) : prog := cs ≫= λ c, [ISetErr c; IRsp c].

(** RockStream::doRecv, [m] what parseFrom returned: what is left to do with
    the message. *)
Definition doRecv (m : option RockMessage) : M shared prog :=
  match m with
  | None => cret innerClose
  | Some (RockResponse r body) =>
    let! ctx := getAndDelCtx r in
    cret (match ctx with None => [] | Some c => [ISetResult c r; ISetResponse c r; IRsp c] end)
  | Some (RockRequest _ _ as m) =>
    let! _ := if has_request_handler then cmodify (add_task m) else cret tt in cret []
  | Some (RockNotify _ _ as m) =>
    let! _ := if has_notify_handler then cmodify (add_task m) else cret tt in cret []
  end.

(** One step of a fiber: what it has left to do, and the fibers it makes. *)
Definition istep (x : instr) (rest : prog) (inp : input) : M shared (prog * list prog) :=
  let next := cret (rest, []) in
  match x with
  | IAdd c =>
    let! x := get_ctx c in
    let! _ := addCtx c (c_sn x) in next
  | ITimer c => let! _ := cmodify (λ s, set_armed (armed s ∪ {[c]}) s) in next
  | ISetTimer c => let! _ := upd_ctx c (set_timer true) in next
  | IEnq x =>
    let! empty := enqueue x in
    cret (if empty then INotify :: rest else rest, [])
  | IYield c => let! s := cget in if bool_decide (c ∈ woken s) then next else cstuck NoReturn
  | IReturn c =>
    let! x := get_ctx c in
    let! _ := cmodify (add_returned (c, (i32 (c_result x), c_response x))) in next
  | IRsp c => let! x := get_ctx c in cret (ICas c (c_scheduler x) :: rest, [])
  | ICas c scd =>
    let! x := get_ctx c in
    if Bool.eqb (c_scheduler x) scd then
      let! _ := upd_ctx c (set_scheduler false) in
      cret (if scd then IFin c :: rest else rest, [])
    else next
  | IFin c =>
    let! x := get_ctx c in
    if negb (c_fiber x) then next
    else
      let! _ := if c_timer x
                then let! _ := cmodify (λ s, set_armed (armed s ∖ {[c]}) s) in upd_ctx c (set_timer false)
                else cret tt in
      let! _ := if c_timed x then upd_ctx c (set_result TIMEOUT) else cret tt in
      let! _ := upd_ctx c (set_fiber false) in
      let! _ := cmodify (add_woken c) in next
  | IErase c => let! x := get_ctx c in let! _ := cmodify (λ s, set_table (delete (c_sn x) (m_ctxs s)) s) in next
  | ISetTimed c => let! _ := upd_ctx c (set_timed true) in next
  | IRecv =>
    match inp, rest with
    | Got m, _ => let! p := doRecv m in cret (p ++ rest, [])
    | Threw, IRead :: rest => cret (innerClose ++ IWaitNotify :: rest, [])
    | _, _ => cstuck NoReturn
    end
  | ISetResult c r => let! _ := upd_ctx c (set_result (rs_result r)) in next
  | ISetResponse c r => let! _ := upd_ctx c (set_response (Some r)) in next
  | IClose => let! _ := cmodify (set_connected false) in next
  | INotify => let! _ := cmodify (λ s, set_sem (S (m_sem s)) s) in next
  | ISwap =>
    let! s := cget in
    let! _ := cmodify (set_table ∅) in
    cret (IClear :: fail_all ((order (m_ctxs s)).*2) ++ rest, [])
  | IClear => let! _ := cmodify (set_queue []) in next
  | ISetErr c => let! _ := upd_ctx c (set_result IO_ERROR) in next
  | IRead =>
    let! s := cget in
    cret (if connected s then IRecv :: IRead :: rest else innerClose ++ IWaitNotify :: rest, [])
  | IWrite =>
    let! s := cget in
    cret (if connected s then ISemWait :: ITake :: IWrite :: rest else IClear :: IWaitNotify :: rest, [])
  | ISemWait =>
    let! _ := sem_wait m_sem set_sem in next
  | ITake =>
    let! s := cget in
    let! _ := cmodify (set_queue []) in
    cret (ISendAll (m_queue s) :: rest, [])
  | ISendAll [] => next
  | ISendAll (x :: l) =>
    match inp, rest with
    | Result true, _ => let! _ := cmodify (add_sent x) in cret (ISendAll l :: rest, [])
    | Result false, _ => cret (innerClose ++ rest, [])
    | Threw, IWrite :: rest => cret (IClear :: IWaitNotify :: rest, [])
    | _, _ => cstuck NoReturn
    end
  | IWaitSem =>
    let! _ := sem_wait m_waitSem set_waitSem in next
  | IStart =>
    match inp with
    | Result true => let! _ := cmodify (set_connected true) in cret (rest, [[IRead]; [IWrite]])
    | Result false => cret (innerClose ++ IWaitNotify :: IWaitNotify :: rest, [])
    | _ => cstuck NoReturn
    end
  | IWaitNotify => let! _ := cmodify (λ s, set_waitSem (S (m_waitSem s)) s) in next
  | ISendMessage m => let! s := cget in cret (if connected s then IEnq (SMsg m) :: rest else rest, [])
  | IShut => let! _ := cmodify (set_connected false) in next
  end.

(** ** The system *)
Record aworld := mkA { sh : shared; fibers : list prog }.
Definition aworld_new : aworld := mkA AsyncSocketStream_new [].
Definition spawn_fiber (p : prog) (w : aworld) : aworld := mkA (sh w) (fibers w ++ [p]).

Definition astep (i : nat) (inp : input) : M aworld unit := λ w,
  match fibers w !! i with
  | Some (x :: rest) =>
    match istep x rest inp (sh w) with
    | Ret (p, new) s => Ret tt (mkA s (<[i := p]> (fibers w) ++ new))
    | Exn e s => Exn e (mkA s (fibers w))
    | Stuck r => Stuck r
    end
  | _ => Stuck NoReturn
  end.

(** A request: its context and what its fiber does; not connected, it
    returns an error at once. *)
Definition new_ctx (sn : Z) (m : RockMessage) : Ctx := mkCtx sn 0 false true true false None m.
Definition a_request (r : Request) (body : list byte) : M aworld (option Z) := λ w,
  if connected (sh w) then
    let c := next_ctx (sh w) in
    Ret None (spawn_fiber [IAdd c; ITimer c; ISetTimer c; IEnq (SCtx c); IYield c; IReturn c]
      (mkA (set_next (S c) (set_ctxs (<[c := new_ctx (rq_sn r) (RockRequest r body)]> (ctxs (sh w))) (sh w))) (fibers w)))
  else Ret (Some NOT_CONNECT) w.
(** The timer of a context expires. *)
Definition onTimeOut (c : nat) : M aworld unit := λ w,
  if bool_decide (c ∈ armed (sh w))
  then Ret tt (spawn_fiber [IErase c; ISetTimed c; IRsp c] (mkA (set_armed (armed (sh w) ∖ {[c]}) (sh w)) (fibers w)))
  else Stuck NoReturn.
(** handleRequest and handleNotify; [ok] what the handler returned, [rsp] the
    response as it left it. *)
Definition handleRequest (rsp : RockMessage) (ok : bool) : prog := ISendMessage rsp :: (if ok then [] else [IShut]).
Definition handleNotify (ok : bool) : prog := if ok then [] else [IShut].

Inductive aevent :=
  | AStep (i : nat) (inp : input) | ARequest (r : Request) (body : list byte) | ATimeOut (c : nat)
  | ASend (m : RockMessage) | AHandleRequest (rsp : RockMessage) (ok : bool) | AHandleNotify (ok : bool)
  | AStart | AClose.
Definition aexec (e : aevent) : M aworld unit :=
  match e with
  | AStep i inp => astep i inp
  | ARequest r body => let! _ := a_request r body in cret tt
  | ATimeOut c => onTimeOut c
  | ASend m => cmodify (spawn_fiber [ISendMessage m])
  | AHandleRequest rsp ok => cmodify (spawn_fiber (handleRequest rsp ok))
  | AHandleNotify ok => cmodify (spawn_fiber (handleNotify ok))
  | AStart => cmodify (spawn_fiber (waitFiber ++ [IStart]))
  | AClose => cmodify (spawn_fiber [IShut])
  end.
Inductive areach : aworld → Prop :=
  | areach_new : areach aworld_new
  | areach_step w e w' : areach w → aexec e w = Ret tt w' → areach w'.
End steps.

(** ** The effect of a step *)
Section effects.
Context `{!IterOrder Z} (hr hn : bool).
Implicit Types (s : shared) (c : nat) (x : instr) (p : prog).

Definition with_ctx c s (Q : Ctx → Prop) : Prop := ∃ y, ctxs s !! c = Some y ∧ Q y.
Definition put_ctx c y s : shared := set_ctxs (<[c := y]> (ctxs s)) s.
(** What doRsp leaves in a context whose fiber it schedules. *)
Definition finished (y : Ctx) : Ctx :=
  let y := set_timer false y in set_fiber false (if c_timed y then set_result TIMEOUT y else y).

Definition effect x rest (inp : input) s p (new : list prog) s' : Prop :=
  match x with
  | IAdd c => with_ctx c s (λ y, p = rest ∧ new = [] ∧
      s' = match m_ctxs s !! c_sn y with Some _ => s | None => set_table (<[c_sn y := c]> (m_ctxs s)) s end)
  | ITimer c => p = rest ∧ new = [] ∧ s' = set_armed (armed s ∪ {[c]}) s
  | ISetTimer c => with_ctx c s (λ y, p = rest ∧ new = [] ∧ s' = put_ctx c (set_timer true y) s)
  | IEnq m => p = (if bool_decide (m_queue s = []) then INotify :: rest else rest) ∧ new = [] ∧
      s' = add_enqueued m (set_queue (m_queue s ++ [m]) s)
  | IYield c => c ∈ woken s ∧ p = rest ∧ new = [] ∧ s' = s
  | IReturn c => with_ctx c s (λ y, p = rest ∧ new = [] ∧ s' = add_returned (c, (i32 (c_result y), c_response y)) s)
  | IRsp c => with_ctx c s (λ y, p = ICas c (c_scheduler y) :: rest ∧ new = [] ∧ s' = s)
  | ICas c scd => with_ctx c s (λ y, new = [] ∧
      if Bool.eqb (c_scheduler y) scd
      then p = (if scd then IFin c :: rest else rest) ∧ s' = put_ctx c (set_scheduler false y) s
      else p = rest ∧ s' = s)
  | IFin c => with_ctx c s (λ y, p = rest ∧ new = [] ∧
      s' = if negb (c_fiber y) then s
           else add_woken c (put_ctx c (finished y) (set_armed (if c_timer y then armed s ∖ {[c]} else armed s) s)))
  | IErase c => with_ctx c s (λ y, p = rest ∧ new = [] ∧ s' = set_table (delete (c_sn y) (m_ctxs s)) s)
  | ISetTimed c => with_ctx c s (λ y, p = rest ∧ new = [] ∧ s' = put_ctx c (set_timed true y) s)
  | IRecv => new = [] ∧
      ((∃ m q, inp = Got m ∧ doRecv hr hn m s = Ret q s' ∧ p = q ++ rest) ∨
       (∃ r, inp = Threw ∧ rest = IRead :: r ∧ p = innerClose ++ IWaitNotify :: r ∧ s' = s))
  | ISetResult c r => with_ctx c s (λ y, p = rest ∧ new = [] ∧ s' = put_ctx c (set_result (rs_result r) y) s)
  | ISetResponse c r => with_ctx c s (λ y, p = rest ∧ new = [] ∧ s' = put_ctx c (set_response (Some r) y) s)
  | IClose | IShut => p = rest ∧ new = [] ∧ s' = set_connected false s
  | INotify => p = rest ∧ new = [] ∧ s' = set_sem (S (m_sem s)) s
  | ISwap => p = IClear :: fail_all ((order (m_ctxs s)).*2) ++ rest ∧ new = [] ∧ s' = set_table ∅ s
  | IClear => p = rest ∧ new = [] ∧ s' = set_queue [] s
  | ISetErr c => with_ctx c s (λ y, p = rest ∧ new = [] ∧ s' = put_ctx c (set_result IO_ERROR y) s)
  | IRead => new = [] ∧ s' = s ∧ p = (if connected s then IRecv :: IRead :: rest else innerClose ++ IWaitNotify :: rest)
  | IWrite => new = [] ∧ s' = s ∧
      p = (if connected s then ISemWait :: ITake :: IWrite :: rest else IClear :: IWaitNotify :: rest)
  | ISemWait => ∃ n, m_sem s = S n ∧ p = rest ∧ new = [] ∧ s' = set_sem n s
  | ITake => p = ISendAll (m_queue s) :: rest ∧ new = [] ∧ s' = set_queue [] s
  | ISendAll l => new = [] ∧
      match l with
      | [] => p = rest ∧ s' = s
      | m :: l => (inp = Result true ∧ p = ISendAll l :: rest ∧ s' = add_sent m s) ∨
                  (inp = Result false ∧ p = innerClose ++ rest ∧ s' = s) ∨
                  (∃ r, inp = Threw ∧ rest = IWrite :: r ∧ p = IClear :: IWaitNotify :: r ∧ s' = s)
      end
  | IWaitSem => ∃ n, m_waitSem s = S n ∧ p = rest ∧ new = [] ∧ s' = set_waitSem n s
  | IStart => (inp = Result true ∧ p = rest ∧ new = [[IRead]; [IWrite]] ∧ s' = set_connected true s) ∨
      (inp = Result false ∧ p = innerClose ++ IWaitNotify :: IWaitNotify :: rest ∧ new = [] ∧ s' = s)
  | IWaitNotify => p = rest ∧ new = [] ∧ s' = set_waitSem (S (m_waitSem s)) s
  | ISendMessage m => new = [] ∧ s' = s ∧ p = (if connected s then IEnq (SMsg m) :: rest else rest)
  end.

Lemma upd_ctx_Ret c f s u s' : upd_ctx c f s = Ret u s' → ∃ y, ctxs s !! c = Some y ∧ s' = put_ctx c (f y) s.
Proof. unfold upd_ctx, cbind, get_ctx, cmodify. destruct (ctxs s !! c) as [y|]; [|done]. intros [= _ <-]. by exists y. Qed.

Lemma enqueue_Ret (m : SendCtx) s b s' : enqueue m s = Ret b s' → b = bool_decide (m_queue s = []) ∧ s' = add_enqueued m (set_queue (m_queue s ++ [m]) s).
Proof. by intros [= <- <-]. Qed.
Lemma sem_wait_Ret get set s u s' : sem_wait get set s = Ret u s' → ∃ n, get s = S n ∧ s' = set n s.
Proof. unfold sem_wait, cbind, cget. destruct (get s) as [|n]; [done|]. intros [= _ <-]. by exists n. Qed.
Lemma istep_effect x rest inp s p new s' : istep hr hn x rest inp s = Ret (p, new) s' → effect x rest inp s p new s'.
Proof.
  intros H. destruct x; cbn [istep effect] in *;
    repeat (apply cbind_inv_Ret in H as (? & ? & ? & H));
    unfold get_ctx, addCtx, cget, cmodify, cret, cstuck in *;
    repeat match goal with
    | H : enqueue _ _ = Ret _ _ |- _ => apply enqueue_Ret in H as [-> ->]
    | H : sem_wait _ _ _ = Ret _ _ |- _ => apply sem_wait_Ret in H as (? & ? & ->)
    | H : upd_ctx _ _ _ = Ret _ _ |- _ => apply upd_ctx_Ret in H as (? & ? & ->)
    | H : (match ctxs ?s !! ?c with _ => _ end) = Ret _ _ |- _ => destruct (ctxs s !! c) as [y|] eqn:?; [|done]
    end; simplify_eq; try (by eexists; split_and!); try done.
  - destruct (bool_decide (c ∈ woken x0)) eqn:E; [|done]. apply bool_decide_eq_true in E. by simplify_eq.
  - eexists; split; [done|]. destruct (eqb (c_scheduler x) scd).
    + apply cbind_inv_Ret in H as (? & ? & (y & Hy & ->)%upd_ctx_Ret & H). by simplify_eq.
    + by injection H as <- <- <-.
  - eexists; split; [done|]. destruct (c_fiber x) eqn:Ef; cbn [negb] in *; [|by injection H as <- <- <-].
    apply cbind_inv_Ret in H as ([] & s1 & H1 & H). apply cbind_inv_Ret in H as ([] & s2 & H2 & H).
    apply cbind_inv_Ret in H as ([] & s3 & (y3 & Hy3 & ->)%upd_ctx_Ret & H). apply cbind_inv_Ret in H as ([] & s4 & H4 & H).
    injection H as <- <- <-. injection H4 as <-. split_and!; [done..|]. f_equal.
    assert (H1' : s1 = put_ctx c (set_timer false x) (set_armed (if c_timer x then armed x0 ∖ {[c]} else armed x0) x0)).
    { destruct (c_timer x) eqn:Et.
      - apply cbind_inv_Ret in H1 as ([] & s5 & [= <-] & (y & Hy & ->)%upd_ctx_Ret). cbn in Hy. by simplify_eq.
      - injection H1 as <-. unfold put_ctx. cbn. destruct x, x0; cbn in *. subst. by rewrite insert_id. }
    subst s1. assert (H2' : s2 = put_ctx c (if c_timed x then set_result TIMEOUT (set_timer false x) else set_timer false x)
      (set_armed (if c_timer x then armed x0 ∖ {[c]} else armed x0) x0)).
    { destruct (c_timed x).
      - apply upd_ctx_Ret in H2 as (y & Hy & ->). cbn in Hy. rewrite lookup_insert_eq in Hy. simplify_eq.
        unfold put_ctx. cbn. by rewrite insert_insert_eq.
      - by injection H2 as <-. }
    subst s2. cbn in Hy3. rewrite lookup_insert_eq in Hy3. injection Hy3 as <-. unfold put_ctx, finished. cbn.
    by rewrite insert_insert_eq.
  - destruct inp as [|m| |]; try done.
    + apply cbind_inv_Ret in H as (q & s1 & Hq & [= <- <- <-]). split; [done|]. left. by exists m, q.
    + destruct rest as [|[] rest]; try done. injection H as <- <- <-. split; [done|]. right. by exists rest.
  - destruct l as [|m l]; [by injection H as <- <- <-|]. destruct inp as [| |[]|]; try done.
    + apply cbind_inv_Ret in H as ([] & s1 & [= <-] & [= <- <- <-]). split; [done|]. by left.
    + injection H as <- <- <-. split; [done|]. by right; left.
    + destruct rest as [|[] rest]; try done. injection H as <- <- <-. split; [done|]. right. right. by exists rest.
  - destruct inp as [| |[]|]; try done.
    + apply cbind_inv_Ret in H as ([] & s1 & [= <-] & [= <- <- <-]). by left.
    + injection H as <- <- <-. by right.
Qed.
End effects.

(** ** Everything the fibers have still to do *)
Definition bag (w : aworld) : list instr := concat (fibers w).

Lemma concat_at {A} (ls : list (list A)) i l : ls !! i = Some l →
  ∃ o, concat ls ≡ₚ l ++ o ∧ ∀ l' new, concat (<[i := l']> ls ++ new) ≡ₚ l' ++ concat new ++ o.
Proof.
  intros H. exists (concat (take i ls) ++ concat (drop (S i) ls)). split.
  - rewrite <- (take_drop_middle _ _ _ H) at 1. rewrite concat_app. cbn [concat]. solve_Permutation.
  - intros l' new. rewrite concat_app, insert_take_drop by (by apply lookup_lt_Some in H).
    rewrite concat_app. cbn [concat]. solve_Permutation.
Qed.

Section invariants.
Context `{!IterOrder Z} (hr hn : bool).

Lemma astep_bag i inp w w' : astep hr hn i inp w = Ret tt w' →
  ∃ x rest p new o, fibers w !! i = Some (x :: rest) ∧ effect hr hn x rest inp (sh w) p new (sh w') ∧
    fibers w' = <[i := p]> (fibers w) ++ new ∧ bag w ≡ₚ x :: rest ++ o ∧ bag w' ≡ₚ p ++ concat new ++ o.
Proof.
  unfold astep. destruct (fibers w !! i) as [[|x rest]|] eqn:Ei; try done.
  destruct (istep hr hn x rest inp (sh w)) as [[p new] s'|e s'|] eqn:E; try done. intros [= <-].
  destruct (concat_at _ _ _ Ei) as (o & H1 & H2). exists x, rest, p, new, o. split_and!; try done.
  - by apply istep_effect.
  - apply H2.
Qed.

(** The contexts an instruction uses. *)
Definition refs (x : instr) : list nat :=
  match x with
  | IAdd c | ITimer c | ISetTimer c | IYield c | IReturn c | IRsp c | ICas c _ | IFin c | IErase c | ISetTimed c
  | ISetResult c _ | ISetResponse c _ | ISetErr c => [c]
  | _ => []
  end.
Definition is_fin (c : nat) (x : instr) : nat := match x with IFin d => if decide (c = d) then 1 else 0 | _ => 0 end.
Definition fins (c : nat) (l : list instr) : nat := sum_list_with (is_fin c) l.
Definition times (c : nat) (l : list nat) : nat := sum_list_with (λ d, if decide (c = d) then 1 else 0) l.
(** Something that will resume the fiber of a context, or arm its timer. *)
Definition coming (c : nat) (l : list instr) : Prop := ITimer c ∈ l ∨ IRsp c ∈ l ∨ ICas c true ∈ l.

Record WakeInv (s : shared) (l : list instr) : Prop := {
  wk_dom : ∀ c, is_Some (ctxs s !! c) ↔ c < next_ctx s;
  wk_refs : ∀ x c, x ∈ l → c ∈ refs x → is_Some (ctxs s !! c);
  wk_table : ∀ sn c, m_ctxs s !! sn = Some c → ∃ y, ctxs s !! c = Some y ∧ c_sn y = sn;
  wk_armed : ∀ c, c ∈ armed s → is_Some (ctxs s !! c);
  wk_woken : ∀ c, c ∈ woken s → is_Some (ctxs s !! c);
  wk_once : ∀ c y, ctxs s !! c = Some y → times c (woken s) + fins c l + (if c_scheduler y then 1 else 0) = 1;
  wk_fiber : ∀ c y, ctxs s !! c = Some y → c_fiber y = true ↔ c ∉ woken s;
  wk_cas : ∀ c y, ICas c false ∈ l → ctxs s !! c = Some y → c_scheduler y = false;
  wk_pending : ∀ c y, ctxs s !! c = Some y → c_scheduler y = true → c ∈ armed s ∨ coming c l
}.

#[local] Instance fins_proper c : Proper ((≡ₚ) ==> (=)) (fins c).
Proof. intros l1 l2 H. unfold fins. by rewrite H. Qed.
Lemma WakeInv_perm s l l' : l ≡ₚ l' → WakeInv s l → WakeInv s l'.
Proof.
  intros Hp [H1 H2 H3 H4 H5 H6 H7 H8 H9]. split; try done.
  - intros x c. rewrite <- Hp. apply H2.
  - intros c y. rewrite <- Hp. apply H6.
  - intros c y. rewrite <- Hp. apply H8.
  - intros c y Hy Hs. unfold coming. rewrite <- Hp. by eapply H9.
Qed.
Lemma times_app c l1 l2 : times c (l1 ++ l2) = times c l1 + times c l2.
Proof. apply sum_list_with_app. Qed.
Lemma times_elem c l : c ∈ l → 1 ≤ times c l.
Proof. intros H. unfold times. pose proof (sum_list_with_in c (λ d, if decide (c = d) then 1 else 0) l H) as G. cbn in G. by rewrite decide_True in G. Qed.
Lemma times_not_elem c l : c ∉ l → times c l = 0.
Proof.
  intros H. induction l as [|d l IH]; [done|]. apply not_elem_of_cons in H as [Hd H]. cbn. rewrite decide_False by done. by apply IH.
Qed.
Lemma fins_app c l1 l2 : fins c (l1 ++ l2) = fins c l1 + fins c l2.
Proof. apply sum_list_with_app. Qed.
Lemma fins_elem c l : IFin c ∈ l → 1 ≤ fins c l.
Proof. intros H. unfold fins. pose proof (sum_list_with_in _ (is_fin c) l H) as G. cbn in G. by rewrite decide_True in G. Qed.

(** The contexts and what is on the way to them do not change. *)
Lemma WakeInv_frame s l s' l' : WakeInv s l →
  ctxs s' = ctxs s → next_ctx s' = next_ctx s → armed s' = armed s → woken s' = woken s →
  (∀ sn c, m_ctxs s' !! sn = Some c → m_ctxs s !! sn = Some c ∨ ∃ y, ctxs s !! c = Some y ∧ c_sn y = sn) →
  (∀ x c, x ∈ l' → c ∈ refs x → is_Some (ctxs s !! c)) →
  (∀ c, fins c l' = fins c l) → (∀ c, ICas c false ∈ l' → ICas c false ∈ l) →
  (∀ c y, ctxs s !! c = Some y → c_scheduler y = true → coming c l → coming c l') → WakeInv s' l'.
Proof.
  intros [H1 H2 H3 H4 H5 H6 H7 H8 H9] Ec En Ea Ew Ht Hr Hf Hc Hp. split; rewrite ?Ec, ?En, ?Ea, ?Ew; try done.
  - intros sn c Hx. destruct (Ht _ _ Hx) as [G|G]; [by apply H3|done].
  - intros c y Hy. rewrite Hf. by apply H6.
  - intros c y Hx. by apply H8, Hc.
  - intros c y Hy Hs. destruct (H9 _ _ Hy Hs); eauto.
Qed.

(** One context changes, and what is on the way to it. *)
Lemma WakeInv_change s l s' l' c y y' : WakeInv s l → ctxs s !! c = Some y → ctxs s' = <[c := y']> (ctxs s) →
  next_ctx s' = next_ctx s → m_ctxs s' = m_ctxs s → c_sn y' = c_sn y →
  (∀ d, d ∈ armed s' → d ∈ armed s) → (∀ d, d ≠ c → d ∈ armed s → d ∈ armed s') →
  (∀ d, d ≠ c → times d (woken s') = times d (woken s) ∧ (d ∈ woken s' ↔ d ∈ woken s)) →
  (∀ x d, x ∈ l' → d ∈ refs x → is_Some (ctxs s !! d)) →
  (∀ d, d ≠ c → fins d l' = fins d l) → (∀ d, d ≠ c → ICas d false ∈ l' → ICas d false ∈ l) →
  (∀ d, d ≠ c → coming d l → coming d l') →
  times c (woken s') + fins c l' + (if c_scheduler y' then 1 else 0) = 1 → (c_fiber y' = true ↔ c ∉ woken s') →
  (ICas c false ∈ l' → c_scheduler y' = false) → (c_scheduler y' = true → c ∈ armed s' ∨ coming c l') → WakeInv s' l'.
Proof.
  intros [H1 H2 H3 H4 H5 H6 H7 H8 H9] Hy Ec En Et Esn Ha1 Ha2 Hw Hr Hf Hcas Hcom C1 C2 C3 C4.
  assert (Hs : ∀ d, is_Some (ctxs s' !! d) ↔ is_Some (ctxs s !! d)).
  { intros d. rewrite Ec. destruct (decide (d = c)) as [->|]; [rewrite lookup_insert_eq, Hy; by split; eexists|by rewrite lookup_insert_ne]. }
  assert (Hl : ∀ d z', ctxs s' !! d = Some z' → (d = c ∧ z' = y') ∨ (d ≠ c ∧ ctxs s !! d = Some z')).
  { intros d z'. rewrite Ec. destruct (decide (d = c)) as [->|]; [rewrite lookup_insert_eq; intros [= <-]; by left|].
    rewrite lookup_insert_ne by done. by right. }
  split.
  - intros d. by rewrite Hs, En.
  - intros x d Hx Hd. rewrite Hs. by eapply Hr.
  - intros sn d Hd. rewrite Et in Hd. destruct (H3 _ _ Hd) as (z & Hz & <-). rewrite Ec. destruct (decide (d = c)) as [->|].
    + exists y'. rewrite lookup_insert_eq. by simplify_eq.
    + exists z. by rewrite lookup_insert_ne.
  - intros d Hd. by apply Hs, H4, Ha1.
  - intros d Hd. apply Hs. destruct (decide (d = c)) as [->|Hne]; [by eexists|]. by apply H5, Hw.
  - intros d z Hz. destruct (Hl _ _ Hz) as [[-> ->]|[Hne Hz']]; [done|]. rewrite Hf by done. destruct (Hw d Hne) as [-> _]. by apply H6.
  - intros d z Hz. destruct (Hl _ _ Hz) as [[-> ->]|[Hne Hz']]; [done|]. rewrite (proj2 (Hw d Hne)). by apply H7.
  - intros d z Hx Hz. destruct (Hl _ _ Hz) as [[-> ->]|[Hne Hz']]; [auto|]. eauto.
  - intros d z Hz Hzs. destruct (Hl _ _ Hz) as [[-> ->]|[Hne Hz']]; [auto|]. destruct (H9 d z Hz' Hzs); eauto.
Qed.
Lemma WakeInv_put s l c y y' : WakeInv s l → ctxs s !! c = Some y →
  c_sn y' = c_sn y → c_scheduler y' = c_scheduler y → c_fiber y' = c_fiber y → WakeInv (put_ctx c y' s) l.
Proof.
  intros H Hy E1 E2 E3. apply (WakeInv_change _ _ _ _ c y y' H Hy); try done; rewrite ?E2, ?E3.
  - apply H.
  - by apply (wk_once _ _ H).
  - by apply (wk_fiber _ _ H).
  - intros Hx. by apply (wk_cas _ _ H c y).
  - by apply (wk_pending _ _ H).
Qed.

Lemma fins_cons c x l : fins c (x :: l) = is_fin c x + fins c l.
Proof. done. Qed.
Lemma elem_fail_all x cs : x ∈ fail_all cs ↔ ∃ c, c ∈ cs ∧ (x = ISetErr c ∨ x = IRsp c).
Proof.
  unfold fail_all. rewrite list_elem_of_bind. split.
  - intros (c & Hx & Hc). exists c. split; [done|]. set_solver.
  - intros (c & Hc & Hx). exists c. split; [|done]. set_solver.
Qed.
Lemma fins_fail_all c cs : fins c (fail_all cs) = 0.
Proof. induction cs as [|d cs IH]; [done|]. unfold fail_all in *. cbn [mbind list_bind app]. by rewrite !fins_cons, IH. Qed.

(** The side conditions of [WakeInv_frame]. *)
Ltac in_bag := unfold coming, innerClose in *; cbn [concat app] in *;
  repeat (rewrite elem_of_cons in * || rewrite elem_of_app in * || rewrite elem_fail_all in *); naive_solver.
Ltac frame H := apply (WakeInv_frame _ _ _ _ H);
  [done|done|done|done|try (by intros; left)
  |try (let z := fresh in let d := fresh in let Hz := fresh in let Hd := fresh in let G := fresh in intros z d Hz Hd;
        match type of H with WakeInv _ ?l => assert (z ∈ l ∨ refs z = []) as [G|G] by (clear Hd; in_bag) end;
        [by apply (wk_refs _ _ H z d)|rewrite G in Hd; by apply not_elem_of_nil in Hd])
  |intros d; cbn [concat app innerClose]; rewrite ?fins_app, ?fins_cons, ?fins_app, ?fins_fail_all; cbn [is_fin]; try lia
  |intros d; in_bag|intros d z Hz Hs; try in_bag].

Lemma wake_timer c s l : WakeInv s (ITimer c :: l) → WakeInv (set_armed (armed s ∪ {[c]}) s) l.
Proof.
  intros H. pose proof (wk_refs _ _ H (ITimer c) c ltac:(left) ltac:(left)) as Hc.
  destruct H as [H1 H2 H3 H4 H5 H6 H7 H8 H9]. split; cbn [ctxs next_ctx m_ctxs woken armed set_armed]; try done.
  - intros x d Hx. apply H2. by right.
  - intros d [Hd| ->%elem_of_singleton]%elem_of_union; [by apply H4|done].
  - intros d y Hx. apply H8. by right.
  - intros d y Hy Hs. destruct (decide (d = c)) as [->|Hne]; [left; set_solver|].
    destruct (H9 d y Hy Hs) as [Hd|Hd]; [left; set_solver|right; in_bag].
Qed.
Lemma wake_rsp c y s l : ctxs s !! c = Some y → WakeInv s (IRsp c :: l) → WakeInv s (ICas c (c_scheduler y) :: l).
Proof.
  intros Hy [H1 H2 H3 H4 H5 H6 H7 H8 H9]. split; try done.
  - intros x d Hx Hd. apply elem_of_cons in Hx as [->|Hx]; [|by apply (H2 x); [in_bag|]]. apply (H2 (IRsp c)); [left|done].
  - intros d z Hx Hz. apply elem_of_cons in Hx as [[= -> E]|Hx]; [by simplify_eq|]. apply (H8 d z); [in_bag|done].
  - intros d z Hz Hs. destruct (H9 d z Hz Hs) as [Hd|Hd]; [by left|right].
    destruct (decide (d = c)) as [->|]; [|in_bag]. simplify_eq. rewrite Hs. right. right. left.
Qed.
(** The compare-and-swap wins: the fiber has one doRsp that will resume it. *)
Lemma wake_cas_won c y s l : ctxs s !! c = Some y → c_scheduler y = true → WakeInv s (ICas c true :: l) →
  WakeInv (put_ctx c (set_scheduler false y) s) (IFin c :: l).
Proof.
  intros Hy Es H. pose proof (wk_once _ _ H c y Hy) as Ho. rewrite Es, fins_cons in Ho. cbn [is_fin] in Ho.
  apply (WakeInv_change _ _ _ _ c y (set_scheduler false y) H Hy); try done.
  - intros x d Hx Hd. apply elem_of_cons in Hx as [->|Hx]; [|by apply (wk_refs _ _ H x); [in_bag|]].
    apply (wk_refs _ _ H (ICas c true)); [left|done].
  - intros d Hne. rewrite !fins_cons. cbn [is_fin]. by rewrite decide_False.
  - intros d Hne. in_bag.
  - intros d Hne. in_bag.
  - rewrite fins_cons. cbn [is_fin c_scheduler set_scheduler woken put_ctx set_ctxs]. rewrite decide_True by done. lia.
  - by apply (wk_fiber _ _ H c y).
Qed.
Lemma wake_fin c y s l : ctxs s !! c = Some y → WakeInv s (IFin c :: l) →
  c_fiber y = true ∧
  WakeInv (add_woken c (put_ctx c (finished y) (set_armed (if c_timer y then armed s ∖ {[c]} else armed s) s))) l.
Proof.
  intros Hy H. pose proof (wk_once _ _ H c y Hy) as Ho. rewrite fins_cons in Ho. cbn [is_fin] in Ho. rewrite decide_True in Ho by done.
  assert (Hnw : c ∉ woken s) by (intros Hw%times_elem; lia). split; [by apply (wk_fiber _ _ H c y Hy)|].
  assert (Esch : c_scheduler y = false) by (destruct (c_scheduler y); [lia|done]). rewrite Esch in Ho.
  assert (Ef : c_sn (finished y) = c_sn y ∧ c_scheduler (finished y) = false ∧ c_fiber (finished y) = false).
  { unfold finished. cbn [c_timed set_timer]. by destruct (c_timed y). }
  destruct Ef as (Ef1 & Ef2 & Ef3).
  apply (WakeInv_change _ _ _ _ c y (finished y) H Hy); try done;
    cbn [armed woken add_woken put_ctx set_ctxs set_armed]; rewrite ?Ef2, ?Ef3; try done.
  - intros d. case_match; set_solver.
  - intros d. case_match; set_solver.
  - intros d Hne. rewrite times_app, elem_of_app, list_elem_of_singleton. unfold times at 2. cbn. rewrite decide_False by done.
    split; [lia|naive_solver].
  - intros x d Hx. apply (wk_refs _ _ H). in_bag.
  - intros d Hne. rewrite fins_cons. cbn [is_fin]. by rewrite decide_False.
  - intros d Hne. in_bag.
  - intros d Hne. in_bag.
  - rewrite times_app. unfold times at 2. cbn. rewrite decide_True by done. lia.
  - rewrite elem_of_app, list_elem_of_singleton. naive_solver.
Qed.

Lemma wake_effect x rest o inp s p new s' :
  effect hr hn x rest inp s p new s' → WakeInv s (x :: rest ++ o) → WakeInv s' (p ++ concat new ++ o).
Proof.
  intros He H. destruct x; cbn [effect] in He.
  - (* IAdd *) destruct He as (y & Hy & -> & -> & ->). destruct (m_ctxs s !! c_sn y) eqn:Et; frame H.
    intros sn d. cbn. destruct (decide (sn = c_sn y)) as [->|]; [rewrite lookup_insert_eq; intros [= <-]; right; by exists y|].
    rewrite lookup_insert_ne by done. by left.
  - (* ITimer *) destruct He as (-> & -> & ->). by apply wake_timer.
  - (* ISetTimer *) destruct He as (y & Hy & -> & -> & ->). eapply WakeInv_put; [|done..]. frame H.
  - (* IEnq *) destruct He as (-> & -> & ->). case_bool_decide; frame H.
  - (* IYield *) destruct He as (_ & -> & -> & ->). frame H.
  - (* IReturn *) destruct He as (y & Hy & -> & -> & ->). frame H.
  - (* IRsp *) destruct He as (y & Hy & -> & -> & ->). by apply wake_rsp.
  - (* ICas *) destruct He as (y & Hy & -> & He). destruct (c_scheduler y) eqn:Es, scd; cbn [eqb] in He; destruct He as [-> ->].
    + by apply wake_cas_won.
    + pose proof (wk_cas _ _ H c y ltac:(left) Hy). congruence.
    + frame H. destruct (decide (d = c)) as [->|]; [congruence|in_bag].
    + eapply WakeInv_put; [|done..|by rewrite Es|done]. frame H.
  - (* IFin *) destruct He as (y & Hy & -> & -> & ->). destruct (wake_fin c y s _ Hy H) as [-> Hw]. done.
  - (* IErase *) destruct He as (y & Hy & -> & -> & ->). frame H.
    intros sn d. cbn. rewrite lookup_delete_Some. intros [_ Hx]. by left.
  - (* ISetTimed *) destruct He as (y & Hy & -> & -> & ->). eapply WakeInv_put; [|done..]. frame H.
  - (* IRecv *) destruct He as (-> & [(m & q & -> & Hq & ->)|(r & -> & -> & -> & ->)]); [|frame H].
    destruct m as [[r body|r body|r body]|]; cbn [doRecv] in Hq.
    + destruct hr; apply cbind_inv_Ret in Hq as ([] & s1 & [= <-] & [= <- <-]); frame H.
    + unfold getAndDelCtx, cbind, cget, cmodify, cret in Hq. destruct (m_ctxs s !! rs_sn r) as [c|] eqn:Et; injection Hq as <- <-.
      * frame H.
        -- intros sn d. cbn. rewrite lookup_delete_Some. intros [_ Hx]. by left.
        -- destruct (wk_table _ _ H _ _ Et) as (y & Hy & _). intros x d Hx Hd. cbn [concat app] in Hx. rewrite !elem_of_cons in Hx.
           destruct Hx as [-> |[-> |[-> |Hx]]]; [by apply list_elem_of_singleton in Hd as ->; eexists..|].
           apply (wk_refs _ _ H x); [in_bag|done].
      * frame H.
    + destruct hn; apply cbind_inv_Ret in Hq as ([] & s1 & [= <-] & [= <- <-]); frame H.
    + injection Hq as <- <-. frame H.
  - (* ISetResult *) destruct He as (y & Hy & -> & -> & ->). eapply WakeInv_put; [|done..]. frame H.
  - (* ISetResponse *) destruct He as (y & Hy & -> & -> & ->). eapply WakeInv_put; [|done..]. frame H.
  - (* IClose *) destruct He as (-> & -> & ->). frame H.
  - (* INotify *) destruct He as (-> & -> & ->). frame H.
  - (* ISwap *) destruct He as (-> & -> & ->). frame H.
    intros x d Hx Hd. cbn [concat app] in Hx. rewrite elem_of_cons, !elem_of_app, elem_fail_all in Hx.
    destruct Hx as [->|[[(e & He & Hx)|Hx]|Hx]]; [by apply not_elem_of_nil in Hd| |by apply (wk_refs _ _ H x); [in_bag|]..].
    apply order_values in He as [sn He]. destruct (wk_table _ _ H _ _ He) as (y & Hy & _).
    destruct Hx as [-> | ->]; apply list_elem_of_singleton in Hd as ->; by eexists.
  - (* IClear *) destruct He as (-> & -> & ->). frame H.
  - (* ISetErr *) destruct He as (y & Hy & -> & -> & ->). eapply WakeInv_put; [|done..]. frame H.
  - (* IRead *) destruct He as (-> & -> & ->). destruct (connected s); frame H.
  - (* IWrite *) destruct He as (-> & -> & ->). destruct (connected s); frame H.
  - (* ISemWait *) destruct He as (n & _ & -> & -> & ->). frame H.
  - (* ITake *) destruct He as (-> & -> & ->). frame H.
  - (* ISendAll *) destruct He as (-> & He). destruct l as [|m l]; [destruct He as [-> ->]; frame H|].
    destruct He as [(_ & -> & ->)|[(_ & -> & ->)|(r & _ & -> & -> & ->)]]; frame H.
  - (* IWaitSem *) destruct He as (n & _ & -> & -> & ->). frame H.
  - (* IStart *) destruct He as [(_ & -> & -> & ->)|(_ & -> & -> & ->)]; frame H.
  - (* IWaitNotify *) destruct He as (-> & -> & ->). frame H.
  - (* ISendMessage *) destruct He as (-> & -> & ->). destruct (connected s); frame H.
  - (* IShut *) destruct He as (-> & -> & ->). frame H.
Qed.

Lemma bag_spawn p w : bag (spawn_fiber p w) = bag w ++ p.
Proof. unfold bag, spawn_fiber. cbn [fibers]. rewrite concat_app. cbn [concat]. by rewrite app_nil_r. Qed.
Lemma wake_spawn s l p : WakeInv s l → (∀ x, x ∈ p → refs x = []) → WakeInv s (l ++ p).
Proof.
  intros H Hp. apply (WakeInv_frame _ _ _ _ H); try done; try (by intros; left).
  - intros x c Hx Hc. apply elem_of_app in Hx as [Hx|Hx]; [by apply (wk_refs _ _ H x)|]. rewrite (Hp x Hx) in Hc. by apply not_elem_of_nil in Hc.
  - intros c. rewrite fins_app. assert (fins c p = 0); [|lia]. clear -Hp. induction p as [|x p IH]; [done|]. rewrite fins_cons, IH.
    + specialize (Hp x ltac:(left)). by destruct x.
    + intros y Hy. apply Hp. by right.
  - intros c [Hx|Hx]%elem_of_app; [done|]. specialize (Hp _ Hx). done.
  - intros c y _ _. unfold coming. set_solver.
Qed.
Lemma fins_refs c l : (∀ x, x ∈ l → c ∉ refs x) → fins c l = 0.
Proof.
  induction l as [|x l IH]; intros H; [done|]. rewrite fins_cons, IH; [|intros y Hy; apply H; by right].
  specialize (H x ltac:(left)). destruct x; try done. cbn in *. rewrite decide_False; [done|]. intros ->. apply H. left.
Qed.
Lemma wake_request s l sn m (c := next_ctx s) : WakeInv s l →
  WakeInv (set_next (S c) (set_ctxs (<[c := new_ctx sn m]> (ctxs s)) s))
    (l ++ [IAdd c; ITimer c; ISetTimer c; IEnq (SCtx c); IYield c; IReturn c]).
Proof.
  intros [H1 H2 H3 H4 H5 H6 H7 H8 H9].
  assert (Hc : ctxs s !! c = None) by (destruct (ctxs s !! c) eqn:E; [|done]; assert (c < next_ctx s) by (by apply H1; eexists); lia).
  assert (Hne : ∀ d, is_Some (ctxs s !! d) → d ≠ c) by (intros d Hd ->; rewrite Hc in Hd; by destruct Hd).
  assert (Hn : ∀ d, is_Some (ctxs s !! d) → is_Some (<[c := new_ctx sn m]> (ctxs s) !! d)).
  { intros d Hd. rewrite lookup_insert_ne; [done|]. intros <-. by apply (Hne c). }
  assert (Hf : fins c l = 0).
  { apply fins_refs. intros x Hx Hr. by apply (Hne c); [eapply H2|]. }
  split; cbn [ctxs next_ctx m_ctxs armed woken set_next set_ctxs].
  - intros d. destruct (decide (d = c)) as [->|Hd].
    + rewrite lookup_insert_eq. split; [lia|by eexists].
    + rewrite lookup_insert_ne by done. rewrite H1. unfold c in *. lia.
  - intros x d [Hx|Hx]%elem_of_app Hr; [by eapply Hn, H2|]. assert (d = c) as ->; [|rewrite lookup_insert_eq; by eexists].
    repeat (apply elem_of_cons in Hx as [->|Hx]; [cbn in Hr; set_solver|]). by apply not_elem_of_nil in Hx.
  - intros sn' d Hd. destruct (H3 _ _ Hd) as (y & Hy & E). exists y. rewrite lookup_insert_ne; [done|]. intros <-. congruence.
  - intros d Hd. by apply Hn, H4.
  - intros d Hd. by apply Hn, H5.
  - intros d y. rewrite fins_app. destruct (decide (d = c)) as [->|Hd].
    + rewrite lookup_insert_eq. intros [= <-]. rewrite Hf. cbn. rewrite times_not_elem; [done|]. intros Hw%H5. by apply (Hne c).
    + rewrite lookup_insert_ne by done. intros Hy. specialize (H6 d y Hy).
      assert (fins d [IAdd c; ITimer c; ISetTimer c; IEnq (SCtx c); IYield c; IReturn c] = 0) as E0 by done. rewrite E0. lia.
  - intros d y. destruct (decide (d = c)) as [->|Hd].
    + rewrite lookup_insert_eq. intros [= <-]. split; [|done]. intros _ Hw%H5. by apply (Hne c).
    + rewrite lookup_insert_ne by done. apply H7.
  - intros d y Hx. assert (Hx' : ICas d false ∈ l) by set_solver. rewrite lookup_insert_ne; [by apply H8|].
    intros <-. apply (Hne c); [|done]. eapply H2; [done|]. left.
  - intros d y. destruct (decide (d = c)) as [->|Hd].
    + rewrite lookup_insert_eq. intros [= <-] _. right. left. set_solver.
    + rewrite lookup_insert_ne by done. intros Hy Hs. destruct (H9 d y Hy Hs) as [?|G]; [by left|right]. unfold coming in *. set_solver.
Qed.
Lemma wake_timeout s l c : WakeInv s l → c ∈ armed s →
  WakeInv (set_armed (armed s ∖ {[c]}) s) (l ++ [IErase c; ISetTimed c; IRsp c]).
Proof.
  intros H Hc. pose proof (wk_armed _ _ H c Hc) as Hs. destruct H as [H1 H2 H3 H4 H5 H6 H7 H8 H9].
  split; cbn [ctxs next_ctx m_ctxs armed woken set_armed]; try done.
  - intros x d [Hx|Hx]%elem_of_app Hr; [by eapply H2|]. assert (d = c) as ->; [|done].
    repeat (apply elem_of_cons in Hx as [->|Hx]; [cbn in Hr; set_solver|]). by apply not_elem_of_nil in Hx.
  - intros d Hd. apply H4. set_solver.
  - intros d y Hy. rewrite fins_app. specialize (H6 d y Hy).
    assert (fins d [IErase c; ISetTimed c; IRsp c] = 0) as E0 by done. rewrite E0. lia.
  - intros d y Hx. apply H8. set_solver.
  - intros d y Hy Hd. destruct (decide (d = c)) as [->|]; [right; right; left; set_solver|].
    destruct (H9 d y Hy Hd) as [?|G]; [left; set_solver|right]. unfold coming in *. set_solver.
Qed.

Lemma areach_wake w : areach hr hn w → WakeInv (sh w) (bag w).
Proof.
  induction 1 as [|w e w' _ IH E].
  { split; cbn; try set_solver; try (by intros; simplify_map_eq).
    intros c. rewrite lookup_empty. split; [by intros [? ?]|lia]. }
  destruct e as [i inp|r body|c|m|rsp ok|ok| |]; cbn [aexec] in E.
  - destruct (astep_bag _ _ _ _ E) as (x & rest & p & new & o & _ & He & _ & Hb & Hb').
    eapply WakeInv_perm; [symmetry; exact Hb'|]. eapply wake_effect; [done|]. by eapply WakeInv_perm.
  - unfold a_request, cbind, cret in E. destruct (connected (sh w)); injection E as <-; [|done]. rewrite bag_spawn. by apply wake_request.
  - unfold onTimeOut in E. case_bool_decide; [|done]. injection E as <-. rewrite bag_spawn. by apply wake_timeout.
  - injection E as <-. rewrite bag_spawn. apply wake_spawn; [done|]. set_solver.
  - injection E as <-. rewrite bag_spawn. apply wake_spawn; [done|]. destruct ok; set_solver.
  - injection E as <-. rewrite bag_spawn. apply wake_spawn; [done|]. destruct ok; set_solver.
  - injection E as <-. rewrite bag_spawn. apply wake_spawn; [done|]. set_solver.
  - injection E as <-. rewrite bag_spawn. apply wake_spawn; [done|]. set_solver.
Qed.
End invariants.
