(* ===== verification/AsyncResume.v ===== *)
(** * Requests on an asynchronous stream

    What the interleavings of AsyncStream guarantee to a request: it is
    resumed at most once, and as long as it waits it can be resumed. *)
From Stdlib Require Import ZArith Lia Strings.Byte.
From stdpp Require Import base list list_numbers numbers gmap.
From S2P Require Import Prelude Rock LoadBalance AsyncStream.

Section resume.
Context `{!IterOrder Z} (hr hn : bool).

(** ** A waiting request can always be resumed *)

(** Instructions that always go on. *)
Definition flows (x : instr) : bool :=
  match x with
  | IAdd _ | ITimer _ | ISetTimer _ | IEnq _ | IRsp _ | ICas _ _ | IFin _ | IErase _ | ISetTimed _
  | ISetResult _ _ | ISetResponse _ _ | IClose | INotify | ISwap | IClear | ISetErr _ => true
  | _ => false
  end.
Definition urgent (x : instr) : bool := match x with ITimer _ | IRsp _ | ICas _ _ | IFin _ => true | _ => false end.
(** Behind an instruction that may wait there is nothing urgent. *)
Fixpoint calm (p : prog) : Prop :=
  match p with [] => True | x :: p => (flows x = true ∨ Forall (λ z, urgent z = false) p) ∧ calm p end.

Lemma calm_app p q : Forall (λ x, flows x = true) p → calm q → calm (p ++ q).
Proof. induction 1; [done|]. intros Hq. split; [by left|auto]. Qed.
Lemma calm_quiet p : Forall (λ x, urgent x = false) p → calm p.
Proof. induction 1; [done|]. split; [by right|done]. Qed.
Lemma calm_flows_app x p q : flows x = false → calm (x :: q) → Forall (λ z, urgent z = false) p → calm (p ++ q).
Proof.
  intros Hx [[Hf|Hq] Hc] Hp; [congruence|]. induction Hp as [|z p Hz Hp IH]; [done|]. split; [right|done]. by apply Forall_app.
Qed.
Lemma fail_all_flows cs : Forall (λ x, flows x = true) (fail_all cs).
Proof. apply Forall_forall. intros x (c & _ & [-> | ->])%elem_fail_all; done. Qed.

Lemma calm_effect x rest inp s p new s' : effect hr hn x rest inp s p new s' → calm (x :: rest) → calm p ∧ Forall calm new.
Proof.
  intros He H. pose proof H as [_ Hr]. destruct x; cbn [effect] in He; unfold with_ctx in He; 
    repeat match goal with H : _ ∧ _ |- _ => destruct H | H : ∃ _, _ |- _ => destruct H end; subst;
    try (by split; [|constructor]).
  - split; [|constructor]. case_bool_decide; [by split; [left|]|done].
  - split; [|constructor]. destruct (eqb _ _), scd; destruct_and!; subst; try done; by split; [left|].
  - split; [|constructor]. destruct H as [[?|Hq] _]; [done|]. destruct H1 as [(m & q & -> & Hm & ->)|(r & -> & -> & -> & ->)].
    + apply calm_app; [|done]. destruct m as [[r body|r body|r body]|]; cbn [doRecv] in Hm.
      * destruct hr; apply cbind_inv_Ret in Hm as ([] & ? & _ & [= <- <-]); constructor.
      * apply cbind_inv_Ret in Hm as (o & ? & _ & [= <- <-]). destruct o; by repeat constructor.
      * destruct hn; apply cbind_inv_Ret in Hm as ([] & ? & _ & [= <- <-]); constructor.
      * injection Hm as <- <-. by repeat constructor.
    + apply calm_quiet. apply Forall_cons_1 in Hq as [_ Hq]. apply Forall_app. split; [by repeat constructor|by constructor].
  - split; [|constructor]. split; [by left|]. by apply calm_app; [apply fail_all_flows|].
  - split; [|constructor]. destruct H as [[?|Hq] _]; [done|]. apply calm_quiet. destruct (connected s); by repeat constructor.
  - split; [|constructor]. destruct H as [[?|Hq] _]; [done|]. apply calm_quiet. destruct (connected s); by repeat constructor.
  - split; [|constructor]. destruct H as [[?|Hq] _]; [done|]. apply calm_quiet. destruct l as [|m l]; [by destruct_and!; subst|].
    destruct H1 as [(_ & -> & ->)|[(_ & -> & ->)|(r & _ & -> & -> & ->)]]; [by constructor|by apply Forall_app; split; [repeat constructor|]|].
    apply Forall_cons_1 in Hq as [_ Hq]. by repeat constructor.
  - destruct H as [[?|Hq] _]; [done|]. destruct He as [(_ & -> & -> & ->)|(_ & -> & -> & ->)].
    + split; [by apply calm_quiet|]. by repeat (constructor; [by apply calm_quiet; repeat constructor|]).
    + split; [|constructor]. apply calm_quiet. apply Forall_app; split; by repeat constructor.
  - split; [|constructor]. destruct (connected s); [by split; [left|]|done].
Qed.
Lemma areach_calm w : areach hr hn w → Forall calm (fibers w).
Proof.
  induction 1 as [|w e w' _ IH E]; [constructor|].
  assert (Hs : ∀ p w, Forall calm (fibers w) → calm p → Forall calm (fibers (spawn_fiber p w))).
  { intros p w0 H Hp. apply Forall_app. by split; [|constructor]. }
  destruct e as [i inp|r body|c|m|rsp ok|ok| |]; cbn [aexec] in E.
  - destruct (astep_bag _ _ _ _ _ _ E) as (x & rest & p & new & o & Hi & He & -> & _).
    destruct (calm_effect _ _ _ _ _ _ _ He) as [Hp Hn]; [by eapply (Forall_lookup_1 calm)|].
    apply Forall_app. split; [by apply Forall_insert|done].
  - unfold a_request, cbind, cret in E. destruct (connected (sh w)); injection E as <-; [|done]. apply (Hs _ (mkA _ (fibers w))); [done|].
    repeat (split; [by left|]). split; [right; by repeat constructor|]. split; [right; by repeat constructor|done].
  - unfold onTimeOut in E. case_bool_decide; [|done]. injection E as <-. apply (Hs _ (mkA _ (fibers w))); [done|].
    by repeat (split; [by left|]).
  - injection E as <-. apply Hs; [done|]. apply calm_quiet. by repeat constructor.
  - injection E as <-. apply Hs; [done|]. apply calm_quiet. destruct ok; by repeat constructor.
  - injection E as <-. apply Hs; [done|]. apply calm_quiet. destruct ok; by repeat constructor.
  - injection E as <-. apply Hs; [done|]. apply calm_quiet. by repeat constructor.
  - injection E as <-. apply Hs; [done|]. apply calm_quiet. by repeat constructor.
Qed.

(** Runs that use nothing from outside but the timer of [c]. *)
Definition alone (c : nat) (e : aevent) : Prop := e = ATimeOut c ∨ ∃ i, e = AStep i NoInput.
Definition runs (c : nat) (w w' : aworld) : Prop := ∃ es, Forall (alone c) es ∧ cfor es (aexec hr hn) w = Ret tt w'.
Lemma runs_refl c w : runs c w w.
Proof. by exists []. Qed.
Lemma runs_trans c w1 w2 w3 : runs c w1 w2 → runs c w2 w3 → runs c w1 w3.
Proof.
  intros (es1 & H1 & E1) (es2 & H2 & E2). exists (es1 ++ es2). split; [by apply Forall_app|]. by rewrite (cfor_app _ _ _ _ _ E1).
Qed.
Lemma runs_step c w i w' : astep hr hn i NoInput w = Ret tt w' → runs c w w'.
Proof.
  intros E. exists [AStep i NoInput]. split; [constructor; [right; by eexists|constructor]|]. cbn [cfor aexec].
  by rewrite (cbind_Ret _ _ _ _ _ E).
Qed.
Lemma areach_cfor es w w' : cfor es (aexec hr hn) w = Ret tt w' → areach hr hn w → areach hr hn w'.
Proof.
  revert w. induction es as [|e es IH]; intros w E H; cbn [cfor] in E; [by injection E as <-|].
  apply cbind_inv_Ret in E as ([] & w1 & E1 & E). by eapply IH, areach_step.
Qed.
Lemma areach_runs c w w' : runs c w w' → areach hr hn w → areach hr hn w'.
Proof. intros (es & _ & E). by eapply areach_cfor. Qed.

Definition waiting (c : nat) (w : aworld) : Prop := ∃ y, ctxs (sh w) !! c = Some y ∧ c_scheduler y = true.
(** A request in [w] has kept waiting or been resumed in [w']. *)
Definition kept_or_resumed (c : nat) (w w' : aworld) : Prop :=
  (waiting c w → waiting c w' ∨ c ∈ woken (sh w')) ∧ (c ∈ woken (sh w) → c ∈ woken (sh w')).
Lemma kept_trans c w1 w2 w3 : kept_or_resumed c w1 w2 → kept_or_resumed c w2 w3 → kept_or_resumed c w1 w3.
Proof. intros [H1 H2] [G1 G2]. split; [|auto]. intros Hw. destruct (H1 Hw); auto. Qed.

Lemma bag_head w i x k : fibers w !! i = Some (x :: k) → x ∈ bag w.
Proof.
  intros Hi. apply list_elem_of_In, in_concat. exists (x :: k). split; [|left; done].
  apply list_elem_of_In. by eapply list_elem_of_lookup_2.
Qed.
Lemma flow_step w i x k : areach hr hn w → fibers w !! i = Some (x :: k) → flows x = true →
  ∃ p s', effect hr hn x k NoInput (sh w) p [] s' ∧ astep hr hn i NoInput w = Ret tt (mkA s' (<[i := p]> (fibers w))).
Proof.
  intros Hw Hi Hx. pose proof (areach_wake _ _ _ Hw) as Hinv.
  pose proof (bag_head _ _ _ _ Hi) as Hin.
  assert (∃ p s', istep hr hn x k NoInput (sh w) = Ret (p, []) s') as (p & s' & E).
  { assert (Hc : ∀ c, c ∈ refs x → ∃ y, ctxs (sh w) !! c = Some y) by (intros c Hc; by eapply wk_refs).
    destruct x; try done; cbn [istep]; unfold addCtx, enqueue, upd_ctx, get_ctx, cmodify, cget, cret, cbind;
      try (destruct (Hc c ltac:(left)) as [y Hy]; rewrite Hy); try by eexists _, _.
    - destruct (eqb (c_scheduler y) scd); rewrite ?Hy; by eexists _, _.
    - destruct (c_fiber y); cbn [negb]; [|by eexists _, _].
      destruct (c_timer y), (c_timed y); cbn [ctxs set_armed set_ctxs put_ctx]; rewrite ?Hy; cbn [ctxs set_armed set_ctxs];
        repeat (rewrite lookup_insert_eq; cbn [ctxs set_armed set_ctxs]); rewrite ?Hy; by eexists _, _. }
  exists p, s'. split; [by apply istep_effect|]. unfold astep. by rewrite Hi, E, app_nil_r.
Qed.

Lemma fin_fiber w i c y k : areach hr hn w → fibers w !! i = Some (IFin c :: k) → ctxs (sh w) !! c = Some y → c_fiber y = true.
Proof.
  intros Hw Hi Hy. pose proof (areach_wake _ _ _ Hw) as H. apply (wk_fiber _ _ H c y Hy). intros Hx%times_elem.
  pose proof (wk_once _ _ H c y Hy). pose proof (fins_elem c _ (bag_head _ _ _ _ Hi)). lia.
Qed.
(** One instruction that leaves the rest of the program as it is. *)
Definition simple (x : instr) : bool := match x with IEnq _ | IRsp _ | ICas _ _ | ISwap => false | _ => flows x end.
Lemma run_simple c w i x k : areach hr hn w → fibers w !! i = Some (x :: k) → simple x = true →
  ∃ w', runs c w w' ∧ fibers w' !! i = Some k ∧ kept_or_resumed c w w' ∧
    (x = IFin c → c ∈ woken (sh w')) ∧ (x = ITimer c → c ∈ armed (sh w')).
Proof.
  intros Hw Hi Hx. destruct (flow_step w i x k Hw Hi) as (p & s' & He & E); [by destruct x|].
  pose proof (areach_wake _ _ _ Hw) as Hinv. pose proof (lookup_lt_Some _ _ _ Hi) as Hlt.
  assert (p = k ∧ kept_or_resumed c w (mkA s' (<[i := p]> (fibers w))) ∧ (x = IFin c → c ∈ woken s') ∧ (x = ITimer c → c ∈ armed s'))
    as (-> & Hk & H1 & H2).
  { assert (Hput : ∀ d y y', ctxs (sh w) !! d = Some y → c_scheduler y' = c_scheduler y → ∀ fs,
      kept_or_resumed c w (mkA (put_ctx d y' (sh w)) fs)).
    { intros d y y' Hy Es fs. split; [|done]. intros (z & Hz & Hzs). left. unfold waiting. cbn.
      destruct (decide (c = d)) as [->|]; [exists y'; rewrite lookup_insert_eq; split; [done|congruence]|exists z; by rewrite lookup_insert_ne]. }
    destruct x; try done; cbn [effect] in He; unfold with_ctx in He;
      repeat match goal with H : _ ∧ _ |- _ => destruct H | H : ∃ _, _ |- _ => destruct H end; subst;
      (split; [done|split; [|split; intros [=]; subst]]); try (by eapply Hput); try (by split; [left|]); try set_solver.
    - case_match; by split; [left|].
    - rewrite (fin_fiber w i c0 x k) by done. cbn [negb]. split; [|by cbn; set_solver]. intros (z & Hz & Hzs).
      left. exists z. cbn. rewrite lookup_insert_ne; [done|]. intros ->.
      pose proof (wk_once _ _ Hinv c z Hz). pose proof (fins_elem c _ (bag_head _ _ _ _ Hi)). rewrite Hzs in *. lia.
    - rewrite (fin_fiber w i c x k) by done. cbn. set_solver. }
  exists (mkA s' (<[i := k]> (fibers w))). split_and!; [by eapply runs_step|by cbn; rewrite list_lookup_insert_eq|done..].
Qed.

(** The fiber of [c] has been resumed, or its timer armed, as [x] does. *)
Definition gains (x : instr) (c : nat) (w w' : aworld) : Prop :=
  (x = IFin c → c ∈ woken (sh w')) ∧ (x = IRsp c ∨ x = ICas c true → waiting c w → c ∈ woken (sh w')) ∧
  (x = ITimer c → c ∈ armed (sh w')).
Definition passed (c i : nat) (x : instr) (k : prog) (w w' : aworld) : Prop :=
  runs c w w' ∧ fibers w' !! i = Some k ∧ kept_or_resumed c w w' ∧ gains x c w w'.

Lemma pass_simple c w i x k : areach hr hn w → fibers w !! i = Some (x :: k) → simple x = true → ∃ w', passed c i x k w w'.
Proof.
  intros Hw Hi Hx. destruct (run_simple c w i x k Hw Hi Hx) as (w' & H1 & H2 & H3 & H4 & H5). exists w'.
  split_and!; try done. split_and!; [done| |done]. by intros [-> | ->].
Qed.
Lemma pass_cas c w i d b k : areach hr hn w → fibers w !! i = Some (ICas d b :: k) → ∃ w', passed c i (ICas d b) k w w'.
Proof.
  intros Hw Hi. destruct (flow_step w i _ k Hw Hi eq_refl) as (p & s' & (y & Hy & _ & He) & E).
  pose proof (areach_wake _ _ _ Hw) as Hinv. pose proof (lookup_lt_Some _ _ _ Hi) as Hlt.
  destruct (c_scheduler y) eqn:Es, b; cbn [eqb] in He; destruct He as [-> ->].
  - (* it wins: the rest of doRsp follows *)
    pose proof (areach_step _ _ _ (AStep i NoInput) _ Hw E) as Hw1. set (w1 := mkA _ _) in *.
    assert (Hi1 : fibers w1 !! i = Some (IFin d :: k)) by (unfold w1; cbn; by rewrite list_lookup_insert_eq).
    destruct (run_simple c w1 i _ k Hw1 Hi1 eq_refl) as (w' & H1 & H2 & [H3 H3'] & H4 & _). exists w'.
    assert (Hd : d = c → c ∈ woken (sh w')) by (intros ->; by apply H4).
    split_and!; [eapply runs_trans; [by eapply runs_step|done]|done| |].
    + split; [|exact H3']. intros (z & Hz & Hzs). destruct (decide (d = c)) as [->|Hne]; [right; auto|].
      apply H3. exists z. unfold w1. cbn. by rewrite lookup_insert_ne.
    + split_and!; [done| |done]. intros [?|[= ->]] _; [done|auto].
  - pose proof (wk_cas _ _ Hinv d y (bag_head _ _ _ _ Hi) Hy). congruence.
  - exists (mkA (sh w) (<[i := k]> (fibers w))). split_and!; [by eapply runs_step|by cbn; rewrite list_lookup_insert_eq|by split; [left|]|].
    split_and!; [done| |done]. intros [?|[= ->]] (z & Hz & Hzs); [done|congruence].
  - eexists. split_and!; [by eapply runs_step|by cbn; rewrite list_lookup_insert_eq| |by split_and!; [done|intros [?|?]|done]].
    split; [|done]. intros (z & Hz & Hzs). left. exists z. cbn. rewrite lookup_insert_ne; [done|]. intros ->. congruence.
Qed.
Lemma passed_then c i x k w w1 w2 x1 : runs c w w1 → kept_or_resumed c w w1 → passed c i x1 k w1 w2 →
  (gains x1 c w1 w2 → gains x c w w2) → passed c i x k w w2.
Proof.
  intros H1 H2 (G1 & G2 & G3 & G4) Hg. split_and!; [by eapply runs_trans|done|by eapply kept_trans|by apply Hg].
Qed.
Lemma pass_rsp c w i d k : areach hr hn w → fibers w !! i = Some (IRsp d :: k) → ∃ w', passed c i (IRsp d) k w w'.
Proof.
  intros Hw Hi. destruct (flow_step w i _ k Hw Hi eq_refl) as (p & s' & (y & Hy & -> & _ & ->) & E).
  pose proof (lookup_lt_Some _ _ _ Hi) as Hlt. pose proof (areach_step _ _ _ (AStep i NoInput) _ Hw E) as Hw1. set (w1 := mkA _ _) in *.
  assert (Hi1 : fibers w1 !! i = Some (ICas d (c_scheduler y) :: k)) by (unfold w1; cbn; by rewrite list_lookup_insert_eq).
  destruct (pass_cas c w1 i d (c_scheduler y) k Hw1 Hi1) as (w' & Hp). exists w'.
  eapply passed_then; [by eapply runs_step|by split; [left|]|exact Hp|]. intros (_ & Hg & _). split_and!; [done| |done].
  intros [[= ->]|?] Hwait; [|done]. apply Hg; [|done]. right. destruct Hwait as (z & Hz & Hzs). by simplify_eq; rewrite Hzs.
Qed.
Lemma passed_on c w1 i (p k : prog) : areach hr hn w1 → fibers w1 !! i = Some (p ++ k) →
  Forall (λ x, ∀ w k, areach hr hn w → fibers w !! i = Some (x :: k) → ∃ w', passed c i x k w w') p →
  ∃ w', runs c w1 w' ∧ fibers w' !! i = Some k ∧ kept_or_resumed c w1 w'.
Proof.
  intros Hw Hi Hp. revert w1 Hw Hi. induction Hp as [|x p Hx _ IH]; intros w1 Hw Hi.
  { exists w1. split_and!; [apply runs_refl|done|by split; [left|]]. }
  destruct (Hx w1 (p ++ k) Hw Hi) as (w2 & R & F & K & _). destruct (IH w2 (areach_runs _ _ _ R Hw) F) as (w3 & R' & F' & K').
  exists w3. split_and!; [by eapply runs_trans|done|by eapply kept_trans].
Qed.
(** Every instruction that flows is run to its end. *)
Lemma pass_flow c w i x k : areach hr hn w → fibers w !! i = Some (x :: k) → flows x = true → ∃ w', passed c i x k w w'.
Proof.
  intros Hw Hi Hx. destruct (simple x) eqn:Es; [by apply pass_simple|]. pose proof (lookup_lt_Some _ _ _ Hi) as Hlt.
  destruct x; try done; [|by apply pass_rsp|by apply pass_cas|]; destruct (flow_step w i _ k Hw Hi eq_refl) as (p & s' & He & E);
    pose proof (areach_step _ _ _ (AStep i NoInput) _ Hw E) as Hw1; destruct He as (-> & _ & ->); set (w1 := mkA _ _) in *.
  - assert (fibers w1 !! i = Some ((if bool_decide (m_queue (sh w) = []) then [INotify] else []) ++ k)) as Hi1.
    { unfold w1. cbn. rewrite list_lookup_insert_eq by done. by case_bool_decide. }
    destruct (passed_on c w1 i _ k Hw1 Hi1) as (w' & R & F & K).
    { case_bool_decide; [|constructor]. constructor; [|constructor]. intros. by apply pass_simple. }
    exists w'. split_and!; [eapply runs_trans; [by eapply runs_step|done]|done|eapply kept_trans; [by split; [left|]|done]|].
    by split_and!; [|intros [?|?]|].
  - assert (fibers w1 !! i = Some ((IClear :: fail_all ((order (m_ctxs (sh w))).*2)) ++ k)) as Hi1.
    { unfold w1. cbn. by rewrite list_lookup_insert_eq. }
    destruct (passed_on c w1 i _ k Hw1 Hi1) as (w' & R & F & K).
    { constructor; [intros; by apply pass_simple|]. apply Forall_forall. intros x (d & _ & [-> | ->])%elem_fail_all w0 k0 Hw0 Hi0;
        [by apply pass_simple|by apply pass_rsp]. }
    exists w'. split_and!; [eapply runs_trans; [by eapply runs_step|done]|done|eapply kept_trans; [by split; [left|]|done]|].
    by split_and!; [|intros [?|?]|].
Qed.

Lemma calm_find p x : calm p → x ∈ p → urgent x = true → ∃ pre post, p = pre ++ x :: post ∧ Forall (λ z, flows z = true) pre.
Proof.
  induction p as [|z p IH]; intros Hc Hx Hu; [by apply not_elem_of_nil in Hx|]. destruct Hc as [Hz Hc].
  apply elem_of_cons in Hx as [->|Hx]; [by exists [], p|]. destruct Hz as [Hz|Hz].
  - destruct (IH Hc Hx Hu) as (pre & post & -> & Hp). exists (z :: pre), post. split; [done|by constructor].
  - apply list_elem_of_lookup_1 in Hx as [i Hi]. pose proof (Forall_lookup_1 _ _ _ _ Hz Hi) as Hf. cbn in Hf. congruence.
Qed.
Lemma reach_instr c w x : areach hr hn w → x ∈ bag w → urgent x = true →
  ∃ w1 i k, runs c w w1 ∧ kept_or_resumed c w w1 ∧ fibers w1 !! i = Some (x :: k).
Proof.
  intros Hw Hx Hu. apply list_elem_of_In, in_concat in Hx as (p & Hp & Hx). apply list_elem_of_In in Hx.
  apply list_elem_of_In, list_elem_of_lookup_1 in Hp as [i Hi].
  destruct (calm_find p x) as (pre & post & -> & Hpre); [by eapply (Forall_lookup_1 calm), Hi; apply areach_calm|done..|].
  destruct (passed_on c w i pre (x :: post) Hw Hi) as (w1 & R & F & K).
  { eapply Forall_impl; [exact Hpre|]. intros z Hz w0 k0 Hw0 Hi0. by apply pass_flow. }
  by exists w1, i, post.
Qed.
Lemma timer_resumes c w : areach hr hn w → waiting c w → c ∈ armed (sh w) → ∃ w', runs c w w' ∧ c ∈ woken (sh w').
Proof.
  intros Hw Hwait Ha. set (w1 := spawn_fiber [IErase c; ISetTimed c; IRsp c] (mkA (set_armed (armed (sh w) ∖ {[c]}) (sh w)) (fibers w))).
  assert (E : aexec hr hn (ATimeOut c) w = Ret tt w1) by (cbn [aexec]; unfold onTimeOut; by rewrite bool_decide_eq_true_2).
  pose proof (areach_step _ _ _ _ _ Hw E) as Hw1.
  assert (R1 : runs c w w1).
  { exists [ATimeOut c]. split; [constructor; [by left|constructor]|]. cbn [cfor]. by rewrite (cbind_Ret _ _ _ _ _ E). }
  assert (Hi : fibers w1 !! length (fibers w) = Some ([IErase c; ISetTimed c] ++ [IRsp c])).
  { unfold w1, spawn_fiber. cbn [fibers]. by apply list_lookup_middle. }
  destruct (passed_on c w1 _ _ _ Hw1 Hi) as (w2 & R2 & F2 & K2 & _).
  { constructor; [intros; by apply pass_simple|]. constructor; [intros; by apply pass_simple|constructor]. }
  pose proof (areach_runs _ _ _ R2 Hw1) as Hw2. destruct (pass_rsp c w2 _ c [] Hw2 F2) as (w3 & R3 & F3 & [_ K3] & _ & G & _).
  exists w3. split; [by eapply runs_trans, runs_trans|]. destruct (K2 Hwait) as [H|H]; [by apply G; [left|]|by apply K3].
Qed.

Lemma fins_member c l : fins c l ≠ 0 → IFin c ∈ l.
Proof.
  induction l as [|x l IH]; [done|]. rewrite fins_cons. intros H. destruct (decide (fins c l = 0)) as [E|]; [|right; auto].
  destruct x; cbn [is_fin] in H; try lia. case_decide; [subst; left|lia].
Qed.
(** C9: However requests, answers, timers, reader, writer, starts and closes
    are interleaved, a request that has been made can be resumed: there is a
    run that uses nothing from outside but the expiry of the request's own
    timer (no message, no end of a send or a connect) after which its fiber
    has been scheduled. *)
Theorem request_resumable c y w : areach hr hn w → ctxs (sh w) !! c = Some y → ∃ w', runs c w w' ∧ c ∈ woken (sh w').
Proof.
  intros Hw Hy. pose proof (areach_wake _ _ _ Hw) as H. pose proof (wk_once _ _ H c y Hy) as Ho.
  destruct (decide (c ∈ woken (sh w))) as [?|Hn]; [exists w; by split; [apply runs_refl|]|]. rewrite (times_not_elem _ _ Hn) in Ho.
  assert (Hgo : ∀ x, x ∈ bag w → urgent x = true → (x = IFin c ∨ (x = IRsp c ∨ x = ICas c true) ∧ waiting c w) →
    ∃ w', runs c w w' ∧ c ∈ woken (sh w')).
  { intros x Hx Hu Hcase. destruct (reach_instr c w x Hw Hx Hu) as (w1 & i & k & R1 & [K1 K1'] & F1).
    destruct (pass_flow c w1 i x k (areach_runs _ _ _ R1 Hw) F1) as (w2 & R2 & _ & [_ K2] & G1 & G2 & _); [by destruct x|].
    exists w2. split; [by eapply runs_trans|]. destruct Hcase as [->|[Hx' Hwait]]; [auto|]. destruct (K1 Hwait); auto. }
  destruct (c_scheduler y) eqn:Es.
  - assert (Hwait : waiting c w) by (by exists y). destruct (wk_pending _ _ H c y Hy Es) as [Ha|[Ht|[Hr|Hr]]].
    + by apply timer_resumes.
    + destruct (reach_instr c w _ Hw Ht eq_refl) as (w1 & i & k & R1 & [K1 _] & F1).
      pose proof (areach_runs _ _ _ R1 Hw) as Hw1.
      destruct (pass_flow c w1 i _ k Hw1 F1 eq_refl) as (w2 & R2 & _ & [K2 K2'] & _ & _ & G).
      pose proof (runs_trans _ _ _ _ R1 R2) as R. destruct (K1 Hwait) as [H1|H1]; [|exists w2; auto].
      destruct (K2 H1) as [H2|H2]; [|by exists w2]. destruct (timer_resumes c w2 (areach_runs _ _ _ R Hw) H2 (G eq_refl)) as (w3 & R3 & H3).
      exists w3. split; [by eapply runs_trans|done].
    + apply (Hgo (IRsp c)); auto.
    + apply (Hgo (ICas c true)); auto.
  - apply (Hgo (IFin c)); [|done|by left].
    apply fins_member. lia.
Qed.

(** ** A request is resumed once *)
Lemma istep_enabled x k inp s r : (∀ c, c ∈ refs x → is_Some (ctxs s !! c)) → istep hr hn x k inp s = Stuck r → r = NoReturn.
Proof.
  intros Hc E.
  destruct x; cbn [istep] in E; unfold addCtx, enqueue, sem_wait, upd_ctx, get_ctx, cmodify, cget, cret, cbind, cstuck in E;
    try (destruct (Hc c ltac:(left)) as [y Hy]; rewrite Hy in E); try discriminate.
  - by case_bool_decide; simplify_eq.
  - destruct (eqb (c_scheduler y) scd); rewrite ?Hy in E; discriminate.
  - destruct (c_fiber y); cbn [negb] in E; [|done].
    by destruct (c_timer y), (c_timed y); cbn [ctxs set_armed set_ctxs put_ctx] in E; rewrite ?Hy in E; cbn [ctxs set_armed set_ctxs] in E;
      repeat (rewrite lookup_insert_eq in E; cbn [ctxs set_armed set_ctxs] in E); rewrite ?Hy in E.
  - destruct inp as [|m| |], k as [|[] ?]; simplify_eq; try done; destruct m as [[]|]; cbn [doRecv] in E;
      unfold getAndDelCtx, cmodify, cget, cret, cbind in E; repeat case_match; simplify_eq.
  - destruct (m_sem s); by simplify_eq.
  - destruct l; [done|]. destruct inp as [| |[]|], k as [|[] ?]; by simplify_eq.
  - destruct (m_waitSem s); by simplify_eq.
  - destruct inp as [| |[]|]; by simplify_eq.
Qed.
(** C6: In every interleaving the fiber of a request is scheduled at most
    once, and its context holds the fiber exactly as long as it has not been;
    as long as nothing has claimed it, its timer is armed or something that
    will arm it or resume it is under way; and no step of any fiber uses a
    context that is not there: a step that cannot be taken waits. *)
Theorem request_resumed_once w c y : areach hr hn w → ctxs (sh w) !! c = Some y →
  (times c (woken (sh w)) ≤ 1) ∧ (c_fiber y = true ↔ c ∉ woken (sh w)) ∧
  (c_scheduler y = true → (c ∉ woken (sh w)) ∧ (c ∈ armed (sh w) ∨ coming c (bag w))) ∧
  ∀ i inp r, astep hr hn i inp w = Stuck r → r = NoReturn.
Proof.
  intros Hw Hy. pose proof (areach_wake _ _ _ Hw) as H. pose proof (wk_once _ _ H c y Hy) as Ho. split_and!; [lia|by eapply wk_fiber| |].
  - intros Es. rewrite Es in Ho. split; [intros Hin%times_elem; lia|by eapply wk_pending].
  - intros i inp r E. unfold astep in E. destruct (fibers w !! i) as [[|x k]|] eqn:Hi; try by simplify_eq.
    destruct (istep hr hn x k inp (sh w)) as [[p new] s|e s|r'] eqn:Ei; simplify_eq. eapply istep_enabled; [|exact Ei].
    intros d Hd. eapply wk_refs; [exact H|by eapply bag_head|done].
Qed.
End resume.

(** ** A stream at work *)
Section example.
#[local] Instance example_order : IterOrder Z := natural_order.
Definition after (es : list aevent) : aworld :=
  match cfor es (aexec true true) aworld_new with Ret _ w => w | _ => aworld_new end.
Lemma areach_after es : areach true true (after es).
Proof.
  unfold after. destruct (cfor es (aexec true true) aworld_new) as [[] w| |] eqn:E; [|by constructor..].
  eapply areach_cfor; [exact E|constructor].
Qed.
(** start() takes both tokens, connects and starts the reader (fiber 1) and
    the writer (fiber 2); fiber 3 makes a request. *)
Definition started : list aevent := [AStart; AStep 0 NoInput; AStep 0 NoInput; AStep 0 (Result true)].
Definition steps (i n : nat) : list aevent := replicate n (AStep i NoInput).
Definition req7 : Request := mkRequest 7 1.
Definition asked : list aevent := started ++ ARequest req7 [] :: steps 3 4.
Definition ctx7 : Ctx := set_timer true (new_ctx 7 (RockRequest req7 [])).

Lemma request_resumable_witness : ctxs (sh (after asked)) !! 0 = Some ctx7 ∧
  ∃ w', runs true true 0 (after asked) w' ∧ 0 ∈ woken (sh w').
Proof. split; [by vm_compute|]. apply (request_resumable true true 0 ctx7); [apply areach_after|by vm_compute]. Defined.
Lemma request_resumed_once_witness : times 0 (woken (sh (after asked))) ≤ 1.
Proof. by apply (request_resumed_once true true (after asked) 0 ctx7); [apply areach_after|vm_compute]. Defined.

(** The answer is matched (fiber 1) before the timer expires, but written
    after the timer resumed the request: the result is that of the answer, 0,
    without a response. *)
Definition answer7 : option RockMessage := Some (RockResponse (mkResponse 7 1 0 []) []).
Definition torn : list aevent :=
  asked ++ [AStep 1 NoInput; AStep 1 (Got answer7); ATimeOut 0] ++ steps 4 5 ++ steps 1 1 ++ steps 3 3.
Lemma result_without_response : returned (sh (after torn)) = [(0, (0%Z, None))].
Proof. by vm_compute. Qed.

(** A second request with the number of a pending one is not in the table,
    and its timeout takes the first one out of it: the answer reaches
    neither. *)
Definition twice : list aevent :=
  asked ++ ARequest req7 [] :: steps 4 4 ++ ATimeOut 1 :: steps 5 1 ++ [AStep 1 NoInput; AStep 1 (Got answer7)].
Lemma same_number_lost :
  heard (sh (after (asked ++ [AStep 1 NoInput; AStep 1 (Got answer7)]))) = [(0, mkResponse 7 1 0 [])] ∧ heard (sh (after twice)) = [].
Proof. by vm_compute. Qed.

(** Two calls of start() that each took one of the two tokens wait for each
    other. *)
Definition both : aworld := after [AStart; AStart; AStep 0 NoInput; AStep 1 NoInput].
Lemma starts_deadlock : fibers both = [[IWaitSem; IStart]; [IWaitSem; IStart]] ∧ ∀ i inp, astep true true i inp both = Stuck NoReturn.
Proof. split; [by vm_compute|]. by intros [|[|i]] inp; vm_compute. Qed.
End example.
