(* ===== verification/AsyncQueue.v ===== *)
(** * Reader, writer and queue of an asynchronous stream

    What the interleavings of AsyncStream guarantee to a stream: the two
    tokens of m_waitSem keep start() from making a second reader or writer
    while the old ones run, messages are sent in the order they were queued,
    and the writer is told of a queue that is not empty. *)
From Stdlib Require Import ZArith Lia Strings.Byte.
From stdpp Require Import base list list_numbers numbers gmap.
From S2P Require Import Prelude Rock LoadBalance AsyncStream AsyncResume.

(** ** Counting instructions *)
Definition w_read (x : instr) : nat := match x with IRead => 1 | _ => 0 end.
Definition w_write (x : instr) : nat := match x with IWrite => 1 | _ => 0 end.
(** A batch of the writer, taken or about to be. *)
Definition w_batch (x : instr) : nat := match x with ITake | ISendAll _ => 1 | _ => 0 end.
(** Tokens a fiber holds, and those it waits for. *)
Definition w_held (x : instr) : nat := match x with IRead | IWrite | IWaitNotify => 1 | IStart => 2 | _ => 0 end.
Definition w_wants (x : instr) : nat := match x with IWaitSem => 1 | _ => 0 end.
#[local] Abbreviation W := sum_list_with.
Definition readers (w : aworld) : nat := W w_read (bag w).
Definition writers (w : aworld) : nat := W w_write (bag w).

(** What every suffix of what a fiber has to do keeps: it reads or writes on
    a token it holds, handles a batch only as the writer, and takes the
    queue after the semaphore. *)
Fixpoint good (p : prog) : Prop :=
  match p with
  | [] => True
  | x :: q => W w_read p + W w_write p + W w_wants p ≤ W w_held p ∧ W w_batch p ≤ W w_write p ∧
              match x with ISemWait => ∃ r, q = ITake :: r | _ => True end ∧ good q
  end.
Definition plain (x : instr) : bool :=
  match x with
  | IRead | IWrite | IWaitNotify | IStart | IWaitSem | ITake | ISendAll _ | ISemWait => false
  | _ => true
  end.
(** Instructions that leave the queue and the semaphores alone. *)
Definition quiet (x : instr) : bool :=
  plain x && match x with IEnq _ | INotify | IClear | IRecv => false | _ => true end.
Definition same_queue (s s' : shared) : Prop :=
  m_queue s' = m_queue s ∧ m_sem s' = m_sem s ∧ m_waitSem s' = m_waitSem s ∧ enqueued s' = enqueued s ∧ sent s' = sent s.

Lemma good_weights p : good p → W w_read p + W w_write p + W w_wants p ≤ W w_held p ∧ W w_batch p ≤ W w_write p.
Proof. destruct p; [done|]. by intros (? & ? & _). Qed.
Lemma plain_weights pre : Forall (λ x, plain x = true) pre →
  W w_read pre = 0 ∧ W w_write pre = 0 ∧ W w_wants pre = 0 ∧ W w_held pre = 0 ∧ W w_batch pre = 0.
Proof. induction 1 as [|x pre Hx _ IH]; [done|]. cbn. by destruct x. Qed.
Lemma good_plain pre p : Forall (λ x, plain x = true) pre → good p → good (pre ++ p).
Proof.
  induction 1 as [|x pre Hx Hpre IH]; intros Hp; [done|]. specialize (IH Hp). cbn [app good].
  destruct (good_weights _ IH). cbn [W]. destruct x; try done; cbn [w_read w_write w_wants w_held w_batch]; by split_and!; [lia..| |].
Qed.
Lemma good_notify p : good p → good (IWaitNotify :: p).
Proof. intros H. destruct (good_weights _ H). cbn. split_and!; [lia..|done|done]. Qed.
Lemma fail_all_plain cs : Forall (λ x, plain x = true) (fail_all cs).
Proof. apply Forall_forall. intros x (c & _ & [-> | ->])%elem_fail_all; done. Qed.

Section discipline.
Context `{!IterOrder Z} (hr hn : bool).

Lemma doRecv_quiet m s q s' : doRecv hr hn m s = Ret q s' → same_queue s s' ∧ Forall (λ x, plain x = true) q.
Proof.
  destruct m as [[r body|r body|r body]|]; cbn [doRecv]; unfold getAndDelCtx, cbind, cget, cmodify, cret; intros E; repeat case_match; simplify_eq;
    (split; [by repeat split|by repeat constructor]).
Qed.
Lemma quiet_effect x rest inp s p new s' : quiet x = true → effect hr hn x rest inp s p new s' →
  same_queue s s' ∧ new = [] ∧ ∃ pre, p = pre ++ rest ∧ Forall (λ x, plain x = true) pre.
Proof.
  intros Hq He. destruct x; try done; cbn [effect] in He; unfold with_ctx in He;
    repeat match goal with H : _ ∧ _ |- _ => destruct H | H : ∃ _, _ |- _ => destruct H end; subst;
    try (split_and!; [by repeat split|done|by exists []]).
  - split_and!; [by destruct (m_ctxs s !! _)|done|by exists []].
  - split_and!; [by repeat split|done|]. exists [ICas c (c_scheduler x)]. by split; [|repeat constructor].
  - destruct (eqb _ _), scd; destruct_and!; subst; (split_and!; [by repeat split|done|]); try (by exists []).
    exists [IFin c]. by split; [|repeat constructor].
  - split_and!; [by destruct (negb _)|done|by exists []].
  - split_and!; [by repeat split|done|]. exists (IClear :: fail_all ((order (m_ctxs s)).*2)). split; [done|].
    constructor; [done|apply fail_all_plain].
  - split_and!; [by repeat split|done|]. destruct (connected s); [|by exists []]. exists [IEnq (SMsg m)]. by split; [|repeat constructor].
Qed.
Lemma good_effect x rest inp s p new s' : effect hr hn x rest inp s p new s' → good (x :: rest) → good p ∧ Forall good new.
Proof.
  intros He H. pose proof H as (Hw & Hb & Hs & Hr). destruct (good_weights _ Hr) as [Hw' Hb']. destruct (quiet x) eqn:Hq.
  { destruct (quiet_effect _ _ _ _ _ _ _ Hq He) as (_ & -> & pre & -> & Hpre). by split; [apply good_plain|constructor]. }
  destruct x; try done; cbn [effect] in He.
  - destruct He as (-> & -> & _). split; [|constructor]. case_bool_decide; [|done]. by apply (good_plain [_]); [repeat constructor|].
  - destruct He as [-> [(m & q & -> & [_ Hm]%doRecv_quiet & ->)|(r & -> & -> & -> & _)]]; (split; [|constructor]).
    + by apply good_plain.
    + apply good_plain; [by repeat constructor|]. apply good_notify, Hr.
  - by destruct He as (-> & -> & _).
  - by destruct He as (-> & -> & _).
  - destruct He as (-> & -> & ->). split; [|constructor]. cbn in Hw, Hb. destruct (connected s).
    + by apply (good_plain [_]); [repeat constructor|].
    + apply good_plain; [by repeat constructor|]. by apply good_notify.
  - destruct He as (-> & -> & ->). split; [|constructor]. destruct (connected s).
    + cbn. cbn in Hw, Hb. split_and!; [lia..|by eexists|lia|lia|done|lia|lia|done|done].
    + apply (good_plain [_]); [by repeat constructor|]. by apply good_notify.
  - destruct He as (n & _ & -> & -> & _). by split; [|constructor].
  - destruct He as (-> & -> & _). split; [|constructor]. done.
  - destruct He as [-> He]. split; [|constructor]. destruct l as [|m l]; [by destruct He as [-> _]|].
    destruct He as [(_ & -> & _)|[(_ & -> & _)|(r & _ & -> & -> & _)]]; [done| |].
    + by apply good_plain; [repeat constructor|].
    + apply (good_plain [_]); [by repeat constructor|]. apply good_notify, Hr.
  - destruct He as (n & _ & -> & -> & _). by split; [|constructor].
  - destruct He as [(_ & -> & -> & _)|(_ & -> & -> & _)].
    + split; [done|]. repeat constructor; cbn; lia.
    + split; [|constructor]. apply good_plain; [by repeat constructor|]. by apply good_notify, good_notify.
  - destruct He as (-> & -> & _). by split; [|constructor].
Qed.
Lemma good_concat ls : Forall good ls →
  W w_read (concat ls) + W w_write (concat ls) + W w_wants (concat ls) ≤ W w_held (concat ls) ∧ W w_batch (concat ls) ≤ W w_write (concat ls).
Proof.
  induction 1 as [|p ls Hp _ IH]; [done|]. cbn [concat]. rewrite !sum_list_with_app. destruct (good_weights _ Hp). lia.
Qed.
Lemma areach_good w : areach hr hn w → Forall good (fibers w).
Proof.
  induction 1 as [|w e w' _ IH E]; [constructor|].
  assert (Hs : ∀ p s, good p → Forall good (fibers (spawn_fiber p (mkA s (fibers w))))).
  { intros p s Hp. apply Forall_app. by split; [|constructor]. }
  assert (Hp : ∀ p s, Forall (λ x, plain x = true) p → Forall good (fibers (spawn_fiber p (mkA s (fibers w))))).
  { intros p s Hp. apply Hs. rewrite <- (app_nil_r p). by apply good_plain. }
  destruct e as [i inp|r body|c|m|rsp ok|ok| |]; cbn [aexec] in E.
  - destruct (astep_bag _ _ _ _ _ _ E) as (x & rest & p & new & o & Hi & He & -> & _).
    destruct (good_effect _ _ _ _ _ _ _ He) as [Hg Hn]; [by eapply (Forall_lookup_1 good)|].
    apply Forall_app. split; [by apply Forall_insert|done].
  - unfold a_request, cbind, cret in E. destruct (connected (sh w)); injection E as <-; [|done]. apply Hp. by repeat constructor.
  - unfold onTimeOut in E. case_bool_decide; [|done]. injection E as <-. apply Hp. by repeat constructor.
  - injection E as <-. apply (Hp _ (sh w)). by repeat constructor.
  - injection E as <-. apply (Hp _ (sh w)). destruct ok; by repeat constructor.
  - injection E as <-. apply (Hp _ (sh w)). destruct ok; by repeat constructor.
  - injection E as <-. apply (Hs _ (sh w)). repeat split; cbn; lia.
  - injection E as <-. apply (Hp _ (sh w)). by repeat constructor.
Qed.

(** ** The invariant of the queue *)
Definition batch (x : instr) : list SendCtx := match x with ISendAll q => q | _ => [] end.
Definition pend (l : list instr) : list SendCtx := l ≫= batch.
Record QueueInv (s : shared) (l : list instr) : Prop := {
  q_tokens : m_waitSem s + W w_held l = 2 + W w_wants l;
  q_reader : W w_read l ≤ 1;
  q_writer : W w_write l ≤ 1;
  q_order : sent s ++ pend l ++ m_queue s `sublist_of` enqueued s;
  q_told : m_queue s ≠ [] → 0 < m_sem s ∨ INotify ∈ l ∨ ITake ∈ l
}.
Lemma pend_none l : W w_batch l = 0 → pend l = [].
Proof. induction l as [|x l IH]; [done|]. cbn. intros H. unfold pend in *. cbn. rewrite IH by lia. by destruct x. Qed.
Lemma pend_perm l l' : l ≡ₚ l' → W w_batch l ≤ 1 → pend l = pend l'.
Proof.
  induction 1 as [|x l l' _ IH|x y l|l1 l2 l3 H1 IH1 H2 IH2]; intros Hb; [done| | |].
  - unfold pend in *. cbn in *. by rewrite IH by lia.
  - unfold pend. cbn. cbn in Hb. destruct x, y; cbn in *; try done; try lia; by rewrite app_nil_r.
  - rewrite IH1 by done. apply IH2. by rewrite <- H1.
Qed.
Lemma pend_cons x l : pend (x :: l) = batch x ++ pend l.
Proof. done. Qed.
Lemma pend_app l1 l2 : pend (l1 ++ l2) = pend l1 ++ pend l2.
Proof. apply bind_app. Qed.
Lemma QueueInv_perm s l l' : l ≡ₚ l' → W w_batch l ≤ W w_write l → QueueInv s l → QueueInv s l'.
Proof.
  intros Hp Hb [H1 H2 H3 H4 H5]. split; [by rewrite <- Hp..| |].
  - by rewrite <- (pend_perm _ _ Hp) by lia.
  - by rewrite <- Hp.
Qed.
Lemma plain_pend pre : Forall (λ x, plain x = true) pre → pend pre = [].
Proof. intros (_ & _ & _ & _ & H)%plain_weights. by apply pend_none. Qed.
(** A step that leaves the queue and the semaphores alone. *)
Lemma QueueInv_plain s s' x l pre : same_queue s s' → plain x = true → x ≠ INotify → Forall (λ x, plain x = true) pre →
  QueueInv s (x :: l) → QueueInv s' (pre ++ l).
Proof.
  intros (E1 & E2 & E3 & E4 & E5) Hx Hn Hpre [H1 H2 H3 H4 H5]. destruct (plain_weights _ Hpre) as (P1 & P2 & P3 & P4 & P5).
  assert (P6 := plain_weights [x] ltac:(by repeat constructor)). destruct P6 as (X1 & X2 & X3 & X4 & X5). cbn in *.
  split; rewrite ?sum_list_with_app, ?E1, ?E2, ?E3, ?E4, ?E5; [lia..| |].
  - rewrite pend_app, plain_pend by done. by destruct x.
  - intros Hq. rewrite !elem_of_app. destruct (H5 Hq) as [?|[H|H]]; [by left|right; left; right|right; right; right];
      apply elem_of_cons in H as [<-|H]; done.
Qed.
Ltac weigh := cbn in *; rewrite ?sum_list_with_app in *; cbn in *; lia.
Lemma queue_effect x rest o inp s p new s' : effect hr hn x rest inp s p new s' → good (x :: rest) →
  W w_read o + W w_write o + W w_wants o ≤ W w_held o → W w_batch o ≤ W w_write o →
  QueueInv s (x :: rest ++ o) → QueueInv s' (p ++ concat new ++ o).
Proof.
  intros He Hg Ho Hbo H. pose proof Hg as (_ & _ & Hs & Hr). destruct (good_weights _ Hg) as [Hw Hb]. destruct (good_weights _ Hr) as [Hw' Hb'].
  destruct (quiet x) eqn:Hq.
  { destruct (quiet_effect _ _ _ _ _ _ _ Hq He) as (Hss & -> & pre & -> & Hpre). cbn [concat app]. rewrite <- app_assoc.
    apply (QueueInv_plain s s' x); [done|by destruct x|by intros ->|done|exact H]. }
  destruct H as [H1 H2 H3 H4 H5]. destruct x; try done; cbn [effect] in He.
  - (* IEnq *) destruct He as (-> & -> & ->). case_bool_decide as Eq.
    + split; [weigh..| |intros _; right; left; left]. cbn in *. rewrite Eq in *. rewrite app_nil_r in H4. cbn. rewrite app_assoc.
      by apply sublist_app.
    + split; [weigh..| |]; cbn in *; [|intros _; destruct (H5 Eq) as [?|[?|?]]; set_solver].
      rewrite !app_assoc. apply sublist_app; [|done]. by rewrite <- app_assoc.
  - (* IRecv *) destruct He as [-> [(m & q & -> & [Hss Hm]%doRecv_quiet & ->)|(r & -> & -> & -> & ->)]].
    + cbn [concat app]. rewrite <- app_assoc. by apply (QueueInv_plain s s' IRecv); [| | | |split].
    + split; [weigh..|done|]. intros Hne. destruct (H5 Hne) as [?|[?|?]]; set_solver.
  - (* INotify *) destruct He as (-> & -> & ->). split; [weigh..|done|]. intros _. left. cbn. lia.
  - (* IClear *) destruct He as (-> & -> & ->). split; [weigh..| |done]. cbn in *. rewrite app_nil_r.
    etrans; [|exact H4]. apply sublist_app; [done|]. by apply sublist_inserts_r.
  - (* IRead *) destruct He as (-> & -> & ->). destruct (connected s); (split; [weigh..|done|]); intros Hne; destruct (H5 Hne) as [?|[?|?]]; set_solver.
  - (* IWrite *) destruct He as (-> & -> & ->). destruct (connected s); (split; [weigh..|done|]); intros Hne; destruct (H5 Hne) as [?|[?|?]]; set_solver.
  - (* ISemWait *) destruct He as (n & En & -> & -> & ->). destruct Hs as [r ->]. split; [weigh..|done|]. intros _. right. right. left.
  - (* ITake *) destruct He as (-> & -> & ->). assert (E0 : pend (rest ++ o) = []) by (apply pend_none; weigh).
    split; [weigh..| |done]. cbn [concat app]. rewrite pend_cons, E0 in *. cbn [batch app] in *. by rewrite !app_nil_r.
  - (* ISendAll *) destruct He as [-> He]. assert (E0 : pend (rest ++ o) = []) by (apply pend_none; weigh).
    rewrite pend_cons, E0, app_nil_r in H4. cbn [batch] in H4.
    assert (Ht : m_queue s ≠ [] → 0 < m_sem s ∨ INotify ∈ rest ++ o ∨ ITake ∈ rest ++ o) by (intros Hne; destruct (H5 Hne) as [?|[?|?]]; set_solver).
    assert (H4' : sent s ++ m_queue s `sublist_of` enqueued s) by (etrans; [|exact H4]; apply sublist_app; [done|by apply sublist_inserts_l]).
    destruct l as [|m l]; [destruct He as [-> ->]; split; [weigh..| |done]; cbn [concat app]; by rewrite E0|].
    destruct He as [(_ & -> & ->)|[(_ & -> & ->)|(r & _ & -> & -> & ->)]].
    + split; [weigh..| |]; cbn [concat app]; [|intros Hne; specialize (Ht Hne); set_solver]. rewrite pend_cons, E0, app_nil_r.
      cbn [batch sent add_sent]. by rewrite <- app_assoc.
    + split; [weigh..| |]; [|intros Hne; right; left; set_solver]. cbn [concat app innerClose]. by rewrite !pend_cons, E0.
    + split; [weigh..| |]; [|intros Hne; specialize (Ht Hne); set_solver]. cbn [concat app] in *. rewrite !pend_cons in *. cbn [batch app] in *. by rewrite E0.
  - (* IWaitSem *) destruct He as (n & En & -> & -> & ->). split; [|weigh|weigh|done|]; [rewrite En in H1; weigh|].
    intros Hne. destruct (H5 Hne) as [?|[?|?]]; set_solver.
  - (* IStart *) destruct He as [(_ & -> & -> & ->)|(_ & -> & -> & ->)].
    + split; [weigh..| |]; cbn; [|intros Hne; destruct (H5 Hne) as [?|[?|?]]; set_solver]. rewrite pend_app, !pend_cons. cbn [batch app]. by rewrite <- pend_app.
    + split; [weigh..|done|]. intros Hne; destruct (H5 Hne) as [?|[?|?]]; set_solver.
  - (* IWaitNotify *) destruct He as (-> & -> & ->). split; [weigh..|done|]. intros Hne; destruct (H5 Hne) as [?|[?|?]]; set_solver.
Qed.

Lemma areach_queue w : areach hr hn w → QueueInv (sh w) (bag w).
Proof.
  induction 1 as [|w e w' Hw IH E]; [split; cbn; [lia..|done|done]|]. pose proof (areach_good _ Hw) as Hg.
  assert (Hs : ∀ p s, same_queue (sh w) s → Forall (λ x, plain x = true) p → QueueInv s (bag (spawn_fiber p (mkA s (fibers w))))).
  { intros p s Hss Hp. destruct (good_concat _ Hg) as [_ Hb]. destruct (plain_weights _ Hp) as (_ & _ & _ & _ & Hz).
    rewrite bag_spawn. unfold bag. cbn [fibers].
    apply (QueueInv_perm _ (p ++ concat (fibers w))); [solve_Permutation|rewrite !sum_list_with_app; unfold prog in *; lia|].
    apply (QueueInv_plain (sh w) s IShut); [done..|]. destruct IH as [H1 H2 H3 H4 H5]. split; [done..|].
    intros Hne. destruct (H5 Hne) as [?|[?|?]]; [by left|by right; left; right|by right; right; right]. }
  destruct e as [i inp|r body|c|m|rsp ok|ok| |]; cbn [aexec] in E.
  - destruct (astep_bag _ _ _ _ _ _ E) as (x & rest & p & new & _ & Hi & He & Ef & _). destruct (concat_at _ _ _ Hi) as (o & Hb & Hb').
    pose proof (Forall_lookup_1 _ _ _ _ Hg Hi) as Hx.
    assert (Ho : Forall good (<[i := []]> (fibers w) ++ [])) by (apply Forall_app; by split; [apply Forall_insert|constructor]).
    apply good_concat in Ho. rewrite (Hb' [] []) in Ho. destruct Ho as [Ho Hbo]. destruct (good_weights _ Hx) as [_ Hbx].
    destruct (good_effect _ _ _ _ _ _ _ He Hx) as [Hp Hn]. apply good_weights in Hp as [_ Hp]. apply good_concat in Hn as [_ Hn].
    unfold bag in *. rewrite Ef. eapply QueueInv_perm; [symmetry; apply Hb'| |].
    { cbn [concat app] in *. rewrite !sum_list_with_app in *. lia. }
    eapply queue_effect; [done..|]. eapply QueueInv_perm; [exact Hb| |done]. destruct (good_concat _ Hg) as [_ G]. done.
  - unfold a_request, cbind, cret in E. destruct (connected (sh w)); injection E as <-; [|done]. apply Hs; by repeat constructor.
  - unfold onTimeOut in E. case_bool_decide; [|done]. injection E as <-. apply Hs; by repeat constructor.
  - injection E as <-. apply (Hs _ (sh w)); by repeat constructor.
  - injection E as <-. apply (Hs _ (sh w)); [by repeat constructor|]. destruct ok; by repeat constructor.
  - injection E as <-. apply (Hs _ (sh w)); [by repeat constructor|]. destruct ok; by repeat constructor.
  - injection E as <-. rewrite bag_spawn. destruct IH as [H1 H2 H3 H4 H5]. split; rewrite ?sum_list_with_app; cbn [W w_read w_write w_held w_wants]; [cbn; lia..| |].
    + rewrite pend_app. by rewrite app_nil_r.
    + cbn [sh spawn_fiber] in *. intros Hne. destruct (H5 Hne) as [?|[?|?]]; set_solver.
  - injection E as <-. apply (Hs _ (sh w)); by repeat constructor.
Qed.

(** C10: In every interleaving of starts, closes, requests, answers and
    timeouts there is at most one reader and one writer, which hold the
    tokens of the semaphore that makes start() wait for them; what has been
    sent was queued, in that order and no message twice; and as long as
    something is queued the writer has been notified, is about to be, or has
    been woken and has yet to take the queue. *)
Theorem stream_discipline w : areach hr hn w →
  (readers w ≤ 1) ∧ (writers w ≤ 1) ∧ (readers w + writers w + m_waitSem (sh w) ≤ 2) ∧
  sent (sh w) `sublist_of` enqueued (sh w) ∧
  (m_queue (sh w) ≠ [] → (0 < m_sem (sh w)) ∨ INotify ∈ bag w ∨ ITake ∈ bag w).
Proof.
  intros Hw. pose proof (good_concat _ (areach_good _ Hw)) as [Hg _]. destruct (areach_queue _ Hw) as [H1 H2 H3 H4 H5].
  unfold readers, writers. split_and!; [done|done|unfold bag in *; lia| |done]. etrans; [|exact H4]. by apply sublist_inserts_r.
Qed.
End discipline.

Lemma stream_discipline_witness : m_queue (sh (after asked)) = [SCtx 0] ∧
  ((0 < m_sem (sh (after asked))) ∨ INotify ∈ bag (after asked) ∨ ITake ∈ bag (after asked)).
Proof. split; [by vm_compute|]. apply (stream_discipline (IterOrder0 := example_order) true true (after asked)); [apply areach_after|by vm_compute]. Defined.
