(* ===== verification/AsyncOutcome.v ===== *)
(** * What a request on an asynchronous stream returns

    The result of a request comes from something that happened to it: its
    timeout, the closing of the stream, or an answer with its number. *)
From Stdlib Require Import ZArith Lia Strings.Byte.
From stdpp Require Import base list list_numbers numbers gmap.
From S2P Require Import Prelude Rock LoadBalance AsyncStream AsyncResume.

Implicit Types (s : shared) (c : nat) (x : instr) (p : prog).

(** A result that something gave to a request, and a context that has one
    or will have when doRsp ends. *)
Definition explained s c (v : Z) : Prop := v = TIMEOUT ∨ v = IO_ERROR ∨ ∃ r, (c, r) ∈ heard s ∧ v = rs_result r.
Definition settles s c (y : Ctx) : Prop := c_timed y = true ∨ explained s c (c_result y).
Definition settled s c : Prop := ∃ y, ctxs s !! c = Some y ∧ settles s c y.

(** A fiber responds to a context only after it has settled it, with an
    answer it has matched, and returns only after it was resumed; [K] are
    the contexts it settles and [Y] those it waits for before [p]. *)
Fixpoint paid s (K Y : list nat) p : Prop :=
  match p with
  | [] => True
  | x :: q =>
    match x with
    | IRsp c => (c ∈ K ∨ settled s c) ∧ paid s K Y q
    | ICas c _ | IFin c => settled s c ∧ paid s K Y q
    | ISetErr c | ISetTimed c => paid s (c :: K) Y q
    | ISetResult c r => (c, r) ∈ heard s ∧ paid s (c :: K) Y q
    | ISetResponse c r => (c, r) ∈ heard s ∧ paid s K Y q
    | IYield c => paid s K (c :: Y) q
    | IReturn c => (c ∈ Y ∨ c ∈ woken s) ∧ paid s K Y q
    | _ => paid s K Y q
    end
  end.
(** What has happened stays. *)
Definition grows s s' : Prop :=
  (∀ z, z ∈ heard s → z ∈ heard s') ∧ (∀ c, c ∈ woken s → c ∈ woken s') ∧ (∀ c, settled s c → settled s' c).
Record OutInv s : Prop := {
  o_heard : ∀ c r, (c, r) ∈ heard s → ∃ y, ctxs s !! c = Some y ∧ c_sn y = rs_sn r;
  o_response : ∀ c y r, ctxs s !! c = Some y → c_response y = Some r → (c, r) ∈ heard s;
  o_woken : ∀ c y, c ∈ woken s → ctxs s !! c = Some y → explained s c (c_result y);
  o_returned : ∀ c v rsp, (c, (v, rsp)) ∈ returned s →
    c ∈ woken s ∧ (∃ u, explained s c u ∧ v = i32 u) ∧ ∀ r, rsp = Some r → (c, r) ∈ heard s
}.

Lemma grows_refl s : grows s s.
Proof. by split_and!. Qed.
Lemma paid_grows s s' K K' Y Y' p : grows s s' → (∀ c, c ∈ K → c ∈ K' ∨ settled s' c) → (∀ c, c ∈ Y → c ∈ Y' ∨ c ∈ woken s') →
  paid s K Y p → paid s' K' Y' p.
Proof.
  intros (G1 & G2 & G3). revert K K' Y Y'. induction p as [|x p IH]; intros K K' Y Y' HK HY H; [done|].
  assert (HKc : ∀ c d, d ∈ c :: K → d ∈ c :: K' ∨ settled s' d) by (intros c d [->|Hd]%elem_of_cons; [left; left|destruct (HK d Hd); [left; by right|by right]]).
  assert (HYc : ∀ c d, d ∈ c :: Y → d ∈ c :: Y' ∨ d ∈ woken s') by (intros c d [->|Hd]%elem_of_cons; [left; left|destruct (HY d Hd); [left; by right|by right]]).
  destruct x; cbn [paid] in *; try (destruct H as [Hc H]; split; [|by apply (IH K K' Y Y') || by eapply IH, H; eauto]);
    try match goal with Hc : _ ∨ _ |- _ => destruct Hc end; eauto.
Qed.
Lemma paid_other s s' p : grows s s' → paid s [] [] p → paid s' [] [] p.
Proof. intros G. apply paid_grows; [done|by intros c ?%not_elem_of_nil..]. Qed.
Lemma paid_app s p q : paid s [] [] p → paid s [] [] q → paid s [] [] (p ++ q).
Proof.
  assert (∀ K Y, paid s K Y p → paid s [] [] q → paid s K Y (p ++ q)); [|auto].
  induction p as [|x p IH]; intros K Y Hp Hq; [by eapply paid_grows; [apply grows_refl|by intros ??%not_elem_of_nil..|]|].
  destruct x; cbn [paid app] in *; try (by apply IH); destruct Hp as [? ?]; split; auto.
Qed.
Lemma paid_fail_all s cs : paid s [] [] (fail_all cs).
Proof.
  assert (∀ K, paid s K [] (fail_all cs)); [|auto]. unfold fail_all. induction cs as [|c cs IH]; intros K; [done|]. cbn. split; [left; left|apply IH].
Qed.

(** ** The steps keep it *)
Definition same_out s s' : Prop := ctxs s' = ctxs s ∧ heard s' = heard s ∧ woken s' = woken s ∧ returned s' = returned s.
Lemma OutInv_same s s' : same_out s s' → OutInv s → OutInv s' ∧ grows s s'.
Proof.
  intros (E1 & E2 & E3 & E4) [H1 H2 H3 H4]. assert (Ee : ∀ c v, explained s' c v ↔ explained s c v) by (intros; unfold explained; by rewrite E2).
  split.
  - split; rewrite ?E1, ?E2, ?E3, ?E4; try done.
    + intros c y. rewrite Ee. apply H3.
    + intros c v rsp Hr. destruct (H4 c v rsp Hr) as (Hw & (u & Hu & ->) & Hrsp). split_and!; [done| |done]. exists u. by rewrite Ee.
  - unfold grows, settled, settles. rewrite E1, E2, E3. split_and!; [done..|]. intros c. setoid_rewrite Ee. done.
Qed.
Lemma OutInv_put s c y y' : OutInv s → ctxs s !! c = Some y → c_sn y' = c_sn y →
  (∀ r, c_response y' = Some r → c_response y = Some r ∨ (c, r) ∈ heard s) →
  (explained s c (c_result y) → explained s c (c_result y')) → (c_timed y = true → c_timed y' = true ∨ explained s c (c_result y')) →
  OutInv (put_ctx c y' s) ∧ grows s (put_ctx c y' s).
Proof.
  intros [H1 H2 H3 H4] Hy Hsn Hr He Ht. split.
  - split; cbn [ctxs heard woken returned put_ctx set_ctxs]; [| | |exact H4].
    + intros d r Hd. destruct (H1 d r Hd) as (z & Hz & E). destruct (decide (c = d)) as [->|].
      * rewrite lookup_insert_eq. exists y'. split; [done|]. simplify_eq. congruence.
      * rewrite lookup_insert_ne by done. by exists z.
    + intros d z r. destruct (decide (c = d)) as [->|]; [rewrite lookup_insert_eq|rewrite lookup_insert_ne by done; apply H2].
      intros [= <-] E. destruct (Hr r E); [by eapply H2|done].
    + intros d z Hd. destruct (decide (c = d)) as [->|]; [rewrite lookup_insert_eq|rewrite lookup_insert_ne by done; by apply H3].
      intros [= <-]. by apply He, H3.
  - split_and!; [done..|]. intros d (z & Hz & Hs). destruct (decide (c = d)) as [->|].
    + exists y'. cbn. rewrite lookup_insert_eq. split; [done|]. simplify_eq. destruct Hs as [Hs|Hs]; [by destruct (Ht Hs); [left|right]|right; by apply He].
    + exists z. cbn. by rewrite lookup_insert_ne.
Qed.
Lemma settled_put s c y : settles s c y → settled (put_ctx c y s) c.
Proof. intros H. exists y. cbn. by rewrite lookup_insert_eq. Qed.
Lemma OutInv_finish s c y a : OutInv s → ctxs s !! c = Some y → settles s c y →
  OutInv (add_woken c (put_ctx c (finished y) (set_armed a s))) ∧ grows s (add_woken c (put_ctx c (finished y) (set_armed a s))).
Proof.
  intros H Hy Hs. assert (Hf : explained s c (c_result (finished y)) ∧ c_timed (finished y) = c_timed y ∧ c_sn (finished y) = c_sn y ∧
    c_response (finished y) = c_response y).
  { unfold finished. cbn [c_timed set_timer]. destruct (c_timed y) eqn:Et; cbn; split_and!; try done; [by left|].
    destruct Hs as [?|Hs]; [congruence|done]. }
  destruct Hf as (F1 & F2 & F3 & F4).
  destruct (OutInv_put s c y (finished y) H Hy F3) as [[H1 H2 H3 H4] (G1 & G2 & G3)]; [rewrite F4; by left|done|rewrite F2; by left|].
  split; [split|split_and!]; cbn [ctxs heard woken returned add_woken put_ctx set_ctxs set_armed]; try done.
  - intros d z [Hd|Hd]%elem_of_app; [by apply H3|]. apply list_elem_of_singleton in Hd as ->. rewrite lookup_insert_eq. by intros [= <-].
  - intros d v rsp Hd. destruct (H4 d v rsp Hd) as (? & ? & ?). split_and!; [|done|done]. apply elem_of_app. by left.
  - intros d Hd. apply elem_of_app. by left.
Qed.

Section outcome.
Context `{!IterOrder Z} (hr hn : bool).
Definition kept s s' p (new : list prog) : Prop := OutInv s' ∧ grows s s' ∧ paid s' [] [] p ∧ Forall (paid s' [] []) new.
Lemma kept_same s s' p : same_out s s' → OutInv s → paid s [] [] p → kept s s' p [].
Proof. intros Hs H Hp. destruct (OutInv_same s s' Hs H) as [Ho Hg]. split_and!; [done|done|by eapply paid_other|constructor]. Qed.
(** A step on a context: [K] what it settles for the rest of the fiber. *)
Lemma kept_put s c y y' K p : OutInv s → ctxs s !! c = Some y → c_sn y' = c_sn y →
  (∀ r, c_response y' = Some r → c_response y = Some r ∨ (c, r) ∈ heard s) →
  (explained s c (c_result y) → explained s c (c_result y')) → (c_timed y = true → c_timed y' = true ∨ explained s c (c_result y')) →
  (∀ d, d ∈ K → d = c ∧ settles s c y') → paid s K [] p → kept s (put_ctx c y' s) p [].
Proof.
  intros H Hy E1 E2 E3 E4 HK Hp. destruct (OutInv_put s c y y' H Hy E1 E2 E3 E4) as [Ho Hg]. split_and!; [done..| |constructor].
  eapply paid_grows; [exact Hg| |by intros d ?%not_elem_of_nil|exact Hp]. intros d Hd. right. destruct (HK d Hd) as [-> Hs]. by apply settled_put.
Qed.
Lemma kept_recv m s q s' rest : OutInv s → (∀ sn c, m_ctxs s !! sn = Some c → ∃ y, ctxs s !! c = Some y ∧ c_sn y = sn) →
  doRecv hr hn m s = Ret q s' → paid s [] [] rest → kept s s' (q ++ rest) [].
Proof.
  intros H Ht E Hp. destruct m as [[r body|r body|r body]|]; cbn [doRecv] in E; unfold getAndDelCtx, cbind, cget, cmodify, cret in E.
  - destruct hr; injection E as <- <-; by apply kept_same.
  - destruct (m_ctxs s !! rs_sn r) as [c|] eqn:Ec; injection E as <- <-; [|by apply kept_same]. destruct H as [H1 H2 H3 H4].
    assert (Hm : ∀ d v, explained s d v → explained (add_heard (c, r) (set_table (delete (rs_sn r) (m_ctxs s)) s)) d v).
    { intros d v [?|[?|(r' & Hr & ->)]]; [by left|by right; left|right; right]. exists r'. split; [|done]. cbn. apply elem_of_app. by left. }
    assert (Hg : grows s (add_heard (c, r) (set_table (delete (rs_sn r) (m_ctxs s)) s))).
    { split_and!; [intros z Hz; cbn; apply elem_of_app; by left|done|]. intros d (y & Hy & [Hs|Hs]); exists y; (split; [done|]); [by left|right; auto]. }
    assert (Hin : (c, r) ∈ heard s ++ [(c, r)]) by (apply elem_of_app; right; by left).
    split_and!; [|done| |constructor].
    + split; cbn [ctxs heard woken returned add_heard set_table].
      * intros d r' [Hd|Hd]%elem_of_app; [by apply H1|]. apply list_elem_of_singleton in Hd as [= -> ->]. by apply Ht.
      * intros d y r' Hy Hr. apply elem_of_app. left. by eapply H2.
      * intros d y Hw Hy. by apply Hm, H3.
      * intros d v rsp Hd. destruct (H4 d v rsp Hd) as (? & (u & Hu & ->) & Hr). split_and!; [done|by exists u; auto|]. intros r' ->. apply elem_of_app. left. auto.
    + cbn [app paid]. split; [done|]. split; [done|]. split; [left; left|]. eapply paid_grows; [exact Hg|by intros d ?%not_elem_of_nil..|exact Hp].
  - destruct hn; injection E as <- <-; by apply kept_same.
  - injection E as <- <-. by apply kept_same.
Qed.
Ltac same := apply kept_same; [by repeat split|done|].
Lemma out_effect x rest inp s p new s' : effect hr hn x rest inp s p new s' → OutInv s →
  (∀ sn c, m_ctxs s !! sn = Some c → ∃ y, ctxs s !! c = Some y ∧ c_sn y = sn) → paid s [] [] (x :: rest) → kept s s' p new.
Proof.
  intros He H Ht Hp. destruct x; cbn [effect paid] in *.
  - destruct He as (y & Hy & -> & -> & ->). destruct (m_ctxs s !! c_sn y); by same.
  - destruct He as (-> & -> & ->). by same.
  - destruct He as (y & Hy & -> & -> & ->). eapply (kept_put _ _ y _ []); try done; [by left..|by intros d ?%not_elem_of_nil].
  - destruct He as (-> & -> & ->). same. by case_bool_decide.
  - destruct He as (Hw & -> & -> & ->). same. eapply paid_grows; [apply grows_refl|by left| |exact Hp].
    intros d ->%list_elem_of_singleton. by right.
  - destruct He as (y & Hy & -> & -> & ->). destruct Hp as [[?%not_elem_of_nil|Hw] Hp]; [done|]. pose proof H as [H1 H2 H3 H4].
    assert (Hg : grows s (add_returned (c, (i32 (c_result y), c_response y)) s)) by (by split_and!). split; [|split_and!; [done|by eapply paid_other|constructor]].
    split; try done. intros d v rsp [Hd|Hd]%elem_of_app; [by apply H4|]. apply list_elem_of_singleton in Hd as [= -> -> ->].
    split_and!; [done| |]; [exists (c_result y); split; [by apply H3|done]|]. intros r Hr. by eapply H2.
  - destruct He as (y & Hy & -> & -> & ->). destruct Hp as [[?%not_elem_of_nil|Hw] Hp]; [done|]. by same.
  - destruct He as (y & Hy & -> & He). destruct Hp as [Hw Hp]. destruct (eqb _ _); destruct He as [-> ->]; [|by same].
    eapply (kept_put _ _ y _ []); try done; [by left..|by intros d ?%not_elem_of_nil|]. by destruct scd.
  - destruct He as (y & Hy & -> & -> & ->). destruct Hp as [(z & Hz & Hs) Hp]. simplify_eq. destruct (negb _); [by same|].
    destruct (OutInv_finish s c y (if c_timer y then armed s ∖ {[c]} else armed s) H Hy Hs) as [Ho Hg].
    split_and!; [done|done|by eapply paid_other|constructor].
  - destruct He as (y & Hy & -> & -> & ->). by same.
  - destruct He as (y & Hy & -> & -> & ->). eapply (kept_put _ _ y _ [c]); try done; [by left..|].
    intros d ->%list_elem_of_singleton. by split; [|left].
  - destruct He as (-> & [(m & q & -> & Hq & ->)|(r & -> & -> & -> & ->)]); [by eapply kept_recv|]. by same.
  - destruct He as (y & Hy & -> & -> & ->). destruct Hp as [Hh Hp]. assert (explained s c (rs_result r)) by (right; right; by exists r).
    eapply (kept_put _ _ y _ [c]); try done; [by left..|by right|]. intros d ->%list_elem_of_singleton. by split; [|right].
  - destruct He as (y & Hy & -> & -> & ->). destruct Hp as [Hh Hp].
    eapply (kept_put _ _ y _ []); try done; [|by left|by intros d ?%not_elem_of_nil]. intros r' [= <-]. by right.
  - destruct He as (-> & -> & ->). by same.
  - destruct He as (-> & -> & ->). by same.
  - destruct He as (-> & -> & ->). same. apply (paid_app _ (IClear :: _)); [apply paid_fail_all|done].
  - destruct He as (-> & -> & ->). by same.
  - destruct He as (y & Hy & -> & -> & ->). assert (explained s c IO_ERROR) by (by right; left).
    eapply (kept_put _ _ y _ [c]); try done; [by left..|by right|]. intros d ->%list_elem_of_singleton. by split; [|right].
  - destruct He as (-> & -> & ->). same. by destruct (connected s).
  - destruct He as (-> & -> & ->). same. by destruct (connected s).
  - destruct He as (n & _ & -> & -> & ->). by same.
  - destruct He as (-> & -> & ->). by same.
  - destruct He as (-> & He). destruct l as [|m l]; [destruct He as [-> ->]; by same|].
    destruct He as [(_ & -> & ->)|[(_ & -> & ->)|(r & _ & -> & -> & ->)]]; by same.
  - destruct He as (n & _ & -> & -> & ->). by same.
  - destruct He as [(_ & -> & -> & ->)|(_ & -> & -> & ->)]; [|by same].
    destruct (kept_same s (set_connected true s) rest) as (A & B & C & _); [by repeat split|done..|]. split_and!; [done..|]. by repeat constructor.
  - destruct He as (-> & -> & ->). by same.
  - destruct He as (-> & -> & ->). same. by destruct (connected s).
  - destruct He as (-> & -> & ->). by same.
Qed.

(** A request: a fresh context. *)
Lemma OutInv_fresh s sn m n (c := next_ctx s) : OutInv s → WakeInv s n →
  let s' := set_next (S c) (set_ctxs (<[c := new_ctx sn m]> (ctxs s)) s) in OutInv s' ∧ grows s s'.
Proof.
  intros [H1 H2 H3 H4] Hk. assert (Hc : ctxs s !! c = None).
  { destruct (ctxs s !! c) eqn:E; [|done]. assert (c < next_ctx s) by (eapply wk_dom; [exact Hk|by eexists]). unfold c in *. lia. }
  assert (Hn : ∀ d y, ctxs s !! d = Some y → <[c := new_ctx sn m]> (ctxs s) !! d = Some y) by (intros d y Hy; rewrite lookup_insert_ne; congruence).
  split; [split|split_and!]; cbn [ctxs heard woken returned set_next set_ctxs]; try done.
  - intros d r Hd. destruct (H1 d r Hd) as (y & Hy & E). exists y. auto.
  - intros d y r. destruct (decide (c = d)) as [<-|]; [rewrite lookup_insert_eq; by intros [= <-]|rewrite lookup_insert_ne by done; apply H2].
  - intros d y Hd. destruct (wk_woken _ _ Hk d Hd) as [z Hz]. rewrite (Hn d z Hz). intros [= <-]. by apply H3.
  - intros d (y & Hy & Hs). exists y. split; [cbn; auto|done].
Qed.
Lemma areach_out w : areach hr hn w → OutInv (sh w) ∧ Forall (paid (sh w) [] []) (fibers w).
Proof.
  induction 1 as [|w e w' Hw [Ho Hp] E].
  { split; [|constructor]. split; cbn; try set_solver; by intros; simplify_map_eq. }
  pose proof (areach_wake _ _ _ Hw) as Hk.
  assert (Hs : ∀ p s, OutInv s → grows (sh w) s → paid s [] [] p →
    OutInv s ∧ Forall (paid s [] []) (fibers (spawn_fiber p (mkA s (fibers w))))).
  { intros p s H Hg Hq. split; [done|]. apply Forall_app. split; [|by constructor]. eapply Forall_impl; [exact Hp|]. intros q. by apply paid_other. }
  destruct e as [i inp|r body|c|m|rsp ok|ok| |]; cbn [aexec] in E.
  - destruct (astep_bag _ _ _ _ _ _ E) as (x & rest & p & new & o & Hi & He & -> & _).
    destruct (out_effect _ _ _ _ _ _ _ He Ho (wk_table _ _ Hk)) as (A & B & C & D); [by eapply (Forall_lookup_1 (paid _ _ _)); [exact Hp|]|].
    split; [done|]. apply Forall_app. split; [|done]. apply Forall_insert; [|done]. eapply Forall_impl; [exact Hp|]. intros q. by apply paid_other.
  - unfold a_request, cbind, cret in E. destruct (connected (sh w)); injection E as <-; [|done].
    destruct (OutInv_fresh (sh w) (rq_sn r) (RockRequest r body) _ Ho Hk) as [A B]. apply Hs; [done|done|]. by split; [left; left|].
  - unfold onTimeOut in E. case_bool_decide; [|done]. injection E as <-.
    destruct (OutInv_same (sh w) (set_armed (armed (sh w) ∖ {[c]}) (sh w))) as [A B]; [by repeat split|done|]. apply Hs; [done|done|]. by split; [left; left|].
  - injection E as <-. by apply (Hs _ (sh w)); [|apply grows_refl|].
  - injection E as <-. apply (Hs _ (sh w)); [done|apply grows_refl|]. by destruct ok.
  - injection E as <-. apply (Hs _ (sh w)); [done|apply grows_refl|]. by destruct ok.
  - injection E as <-. by apply (Hs _ (sh w)); [|apply grows_refl|].
  - injection E as <-. by apply (Hs _ (sh w)); [|apply grows_refl|].
Qed.

(** C17: What a request returns in any interleaving comes from something that
    happened to it: the result is the timeout, the error of a closed stream,
    or that of an answer the reader matched with the request; and a response
    it returns is an answer matched with it, which has its number. The
    request returns only after it was resumed. *)
Theorem request_outcome w c v rsp : areach hr hn w → (c, (v, rsp)) ∈ returned (sh w) →
  c ∈ woken (sh w) ∧
  (v = -1 ∨ v = -2 ∨ ∃ r, (c, r) ∈ heard (sh w) ∧ v = i32 (rs_result r))%Z ∧
  ∀ r, rsp = Some r → (c, r) ∈ heard (sh w) ∧ ∃ y, ctxs (sh w) !! c = Some y ∧ c_sn y = rs_sn r.
Proof.
  intros Hw Hr. destruct (areach_out _ Hw) as [[H1 H2 H3 H4] _]. destruct (H4 _ _ _ Hr) as (Hwk & (u & Hu & ->) & Hrsp). split_and!; [done| |].
  - destruct Hu as [->|[->|(r & Hh & ->)]]; [by left|by right; left|right; right; by exists r].
  - intros r Er. specialize (Hrsp r Er). auto.
Qed.
End outcome.

(** The request of [asked] is answered. *)
Definition answered : list aevent := asked ++ [AStep 1 NoInput; AStep 1 (Got answer7)] ++ steps 1 5 ++ steps 3 3.
Lemma request_outcome_witness : (0, (0%Z, Some (mkResponse 7 1 0 []))) ∈ returned (sh (after answered)) ∧
  ((0%nat, mkResponse 7 1 0 []) ∈ heard (sh (after answered))).
Proof.
  assert (H : (0, (0%Z, Some (mkResponse 7 1 0 []))) ∈ returned (sh (after answered))) by (vm_compute; left). split; [exact H|].
  apply (request_outcome (IterOrder0 := example_order) true true _ _ _ _ (areach_after answered) H). reflexivity.
Defined.
