(* ===== verification/AsyncManager.v ===== *)
(** * The pool of streams: AsyncSocketStreamManager of
      streams/async_socket_stream.{h,cc}

    The streams live in a store of their own, which the pool shares with
    those who added them. Callbacks are opaque names. *)
From Stdlib Require Import ZArith Lia Strings.Byte.
From stdpp Require Import base list list_numbers numbers gmap.
From S2P Require Import Prelude.
Local Open Scope Z_scope.

Record pooled_stream := mkPooled { st_connected : bool; st_auto : bool; st_connectCb : option nat; st_disconnectCb : option nat }.
Record manager := mkManager
  { mg_size : Z; mg_idx : Z; mg_datas : list nat; mg_connectCb : option nat; mg_disconnectCb : option nat }.
Record mstate := mkMS { streams : gmap nat pooled_stream; mgr : manager }.
Definition manager_new : manager := mkManager 0 0 [] None None.
Definition with_streams f s : mstate := mkMS (f (streams s)) (mgr s).
Definition with_mgr f s : mstate := mkMS (streams s) (f (mgr s)).
Definition set_mg_idx v m := mkManager (mg_size m) v (mg_datas m) (mg_connectCb m) (mg_disconnectCb m).
Definition set_mg_datas n l m := mkManager n (mg_idx m) l (mg_connectCb m) (mg_disconnectCb m).
Definition set_mg_connectCb v m := mkManager (mg_size m) (mg_idx m) (mg_datas m) v (mg_disconnectCb m).
Definition set_mg_disconnectCb v m := mkManager (mg_size m) (mg_idx m) (mg_datas m) (mg_connectCb m) v.

Definition get_stream (p : nat) : M mstate pooled_stream := let! s := cget in cderef (streams s !! p).
Definition upd_stream (p : nat) (f : pooled_stream → pooled_stream) : M mstate unit :=
  let! x := get_stream p in cmodify (with_streams (<[p := f x]>)).
Definition stream_setConnectCb cb x := mkPooled (st_connected x) (st_auto x) cb (st_disconnectCb x).
Definition stream_setDisconnectCb cb x := mkPooled (st_connected x) (st_auto x) (st_connectCb x) cb.
(** AsyncSocketStream::close *)
Definition pooled_close x := mkPooled false false (st_connectCb x) (st_disconnectCb x).

Definition mg_add (p : nat) : M mstate unit :=
  let! _ := cmodify (with_mgr (λ m, set_mg_datas (u32 (mg_size m + 1)) (mg_datas m ++ [p]) m)) in
  let! s := cget in
  let! _ := match mg_connectCb (mgr s) with Some cb => upd_stream p (stream_setConnectCb (Some cb)) | None => cret tt end in
  match mg_disconnectCb (mgr s) with Some cb => upd_stream p (stream_setDisconnectCb (Some cb)) | None => cret tt end.
Definition mg_clear : M mstate unit :=
  let! s := cget in
  let! _ := cfor (mg_datas (mgr s)) (λ p, upd_stream p pooled_close) in
  cmodify (with_mgr (set_mg_datas 0 [])).
(** Both callbacks are set under the test of the first. *)
Definition mg_setConnection (l : list nat) : M mstate unit :=
  let! s := cget in
  let! _ := cmodify (with_mgr (set_mg_datas (u32 (Z.of_nat (length l))) l)) in
  let m := mgr s in
  let! _ :=
    if bool_decide (is_Some (mg_connectCb m)) || bool_decide (is_Some (mg_disconnectCb m)) then
      cfor l (λ p,
        let! _ := if bool_decide (is_Some (mg_connectCb m)) then upd_stream p (stream_setConnectCb (mg_connectCb m)) else cret tt in
        if bool_decide (is_Some (mg_connectCb m)) then upd_stream p (stream_setDisconnectCb (mg_disconnectCb m)) else cret tt)
    else cret tt in
  cfor (mg_datas m) (λ p, upd_stream p pooled_close).
Fixpoint mg_get_loop (n : nat) : M mstate (option nat) :=
  match n with
  | O => cret None
  | S n =>
    let! _ := cmodify (with_mgr (λ m, set_mg_idx (u32 (mg_idx m + 1)) m)) in
    let! s := cget in
    match mg_datas (mgr s) !! Z.to_nat (mg_idx (mgr s) mod mg_size (mgr s)) with
    | None => cstuck OutOfBounds
    | Some p => let! x := get_stream p in if st_connected x then cret (Some p) else mg_get_loop n
    end
  end.
Definition mg_get : M mstate (option nat) := let! s := cget in mg_get_loop (Z.to_nat (mg_size (mgr s))).
Definition mg_setConnectCb (cb : option nat) : M mstate unit :=
  let! _ := cmodify (with_mgr (set_mg_connectCb cb)) in
  let! s := cget in cfor (mg_datas (mgr s)) (λ p, upd_stream p (stream_setConnectCb cb)).
Definition mg_setDisconnectCb (cb : option nat) : M mstate unit :=
  let! _ := cmodify (with_mgr (set_mg_disconnectCb cb)) in
  let! s := cget in cfor (mg_datas (mgr s)) (λ p, upd_stream p (stream_setDisconnectCb cb)).

(** ** Histories of a pool *)
Inductive mgop := MAdd (p : nat) | MClear | MSet (l : list nat) | MGet | MConnectCb (cb : option nat) | MDisconnectCb (cb : option nat).
Definition mg_exec (o : mgop) : M mstate (option nat) :=
  match o with
  | MAdd p => let! _ := mg_add p in cret None
  | MClear => let! _ := mg_clear in cret None
  | MSet l => let! _ := mg_setConnection l in cret None
  | MGet => mg_get
  | MConnectCb cb => let! _ := mg_setConnectCb cb in cret None
  | MDisconnectCb cb => let! _ := mg_setDisconnectCb cb in cret None
  end.
(** The members after an operation, and the streams it closes. *)
Definition members_spec (o : mgop) (l : list nat) : list nat :=
  match o with MAdd p => l ++ [p] | MClear => [] | MSet l' => l' | _ => l end.
Definition closed_spec (o : mgop) (l : list nat) : list nat := match o with MClear | MSet _ => l | _ => [] end.
Definition up (s : mstate) (p : nat) : bool := match streams s !! p with Some x => st_connected x | None => false end.
Definition mg_ok (s : mstate) : Prop :=
  mg_size (mgr s) = Z.of_nat (length (mg_datas (mgr s))) ∧ mg_size (mgr s) < 2 ^ 32 ∧ 0 <= mg_idx (mgr s) < 2 ^ 32 ∧
  Forall (λ p, is_Some (streams s !! p)) (mg_datas (mgr s)).
Definition op_ok (o : mgop) (s : mstate) : Prop :=
  Z.of_nat (length (members_spec o (mg_datas (mgr s)))) < 2 ^ 32 ∧
  Forall (λ p, is_Some (streams s !! p)) (members_spec o (mg_datas (mgr s))).

Lemma upd_stream_Ret p f s x : streams s !! p = Some x → upd_stream p f s = Ret tt (with_streams (<[p := f x]>) s).
Proof. intros Hx. unfold upd_stream, get_stream, cbind, cget, cderef, cret, cmodify. by rewrite Hx. Qed.
(** A loop that does the same to every stream of a list. *)
Lemma cfor_streams (body : nat → M mstate unit) (g : pooled_stream → pooled_stream) l s :
  (∀ p s x, streams s !! p = Some x → body p s = Ret tt (with_streams (<[p := g x]>) s)) → (∀ x, g (g x) = g x) →
  Forall (λ p, is_Some (streams s !! p)) l →
  ∃ s', cfor l body s = Ret tt s' ∧ mgr s' = mgr s ∧ ∀ q, streams s' !! q = (if bool_decide (q ∈ l) then g else id) <$> streams s !! q.
Proof.
  intros Hb Hg. revert s. induction l as [|p l IH]; intros s Hl.
  { exists s. split_and!; [done|done|]. intros q. rewrite bool_decide_eq_false_2 by (by intros ?%not_elem_of_nil). by destruct (streams s !! q). }
  apply Forall_cons_1 in Hl as [[x Hx] Hl]. cbn [cfor]. rewrite (cbind_Ret _ _ _ _ _ (Hb _ _ _ Hx)).
  destruct (IH (with_streams (<[p := g x]>) s)) as (s' & E & Em & Es).
  { eapply Forall_impl; [exact Hl|]. intros q Hq. cbn. destruct (decide (p = q)) as [->|]; [rewrite lookup_insert_eq; by eexists|by rewrite lookup_insert_ne]. }
  exists s'. split_and!; [done|done|]. intros q. rewrite Es. cbn [streams with_streams]. destruct (decide (p = q)) as [->|Hne].
  - rewrite lookup_insert_eq, Hx, (bool_decide_eq_true_2 (q ∈ q :: l)) by left. cbn. f_equal. by case_bool_decide.
  - rewrite lookup_insert_ne by done. by rewrite (bool_decide_ext (q ∈ l) (q ∈ p :: l)) by set_solver.
Qed.

Lemma up_map s s' (l : list nat) g q : (∀ q, streams s' !! q = (if bool_decide (q ∈ l) then g else id) <$> streams s !! q) →
  (∀ x, st_connected (g x) = st_connected x) → up s' q = up s q.
Proof. intros H Hg. unfold up. rewrite H. destruct (streams s !! q); [|done]. cbn. by case_bool_decide. Qed.
Lemma present_map s s' (l : list nat) g q : (∀ q, streams s' !! q = (if bool_decide (q ∈ l) then g else id) <$> streams s !! q) →
  is_Some (streams s !! q) → is_Some (streams s' !! q).
Proof. intros H [x Hx]. rewrite H, Hx. by eexists. Qed.

(** ** get *)
Lemma mg_get_loop_spec n s : mg_ok s → (Z.of_nat n <= mg_size (mgr s)) →
  ∃ r i, mg_get_loop n s = Ret r (with_mgr (set_mg_idx i) s) ∧ 0 <= i < 2 ^ 32 ∧
    match r with
    | Some p => p ∈ mg_datas (mgr s) ∧ up s p = true
    | None => ∀ k p, 1 <= k <= Z.of_nat n → mg_idx (mgr s) + k < 2 ^ 32 →
        mg_datas (mgr s) !! Z.to_nat ((mg_idx (mgr s) + k) mod mg_size (mgr s)) = Some p → up s p = false
    end.
Proof.
  revert s. induction n as [|n IH]; intros s Hok Hn.
  { exists None, (mg_idx (mgr s)). destruct Hok as (_ & _ & Hi & _). split_and!; [by destruct s as [? []]|lia|lia|]. intros. lia. }
  pose proof Hok as (Hs & Hs' & Hi & Hp). cbn [mg_get_loop].
  rewrite (cbind_Ret _ _ _ _ _ (eq_refl : cmodify _ s = Ret tt _)). unfold cbind at 1, cget at 1.
  set (s1 := with_mgr _ s). change (mg_size (mgr s1)) with (mg_size (mgr s)). change (mg_datas (mgr s1)) with (mg_datas (mgr s)).
  change (mg_idx (mgr s1)) with (u32 (mg_idx (mgr s) + 1)).
  assert (Hu : 0 <= u32 (mg_idx (mgr s) + 1) < 2 ^ 32) by (unfold uwrap; apply Z.mod_pos_bound; lia).
  destruct (lookup_lt_is_Some_2 (mg_datas (mgr s)) (Z.to_nat (u32 (mg_idx (mgr s) + 1) mod mg_size (mgr s)))) as [p Hlk].
  { pose proof (Z.mod_pos_bound (u32 (mg_idx (mgr s) + 1)) (mg_size (mgr s)) ltac:(lia)). lia. }
  rewrite Hlk. pose proof (Forall_lookup_1 _ _ _ _ Hp Hlk) as [x Hx].
  unfold cbind at 1, get_stream, cbind at 1, cget at 1, cderef. change (streams s1) with (streams s). rewrite Hx. unfold cret at 1.
  destruct (st_connected x) eqn:Ex.
  - exists (Some p), (u32 (mg_idx (mgr s) + 1)). split_and!; [done|lia|lia|by eapply list_elem_of_lookup_2|]. unfold up. by rewrite Hx.
  - destruct (IH s1) as (r & i & E & Hri & Hr); [split_and!; [exact Hs|exact Hs'|exact (proj1 Hu)|exact (proj2 Hu)|exact Hp]|cbn; lia|]. exists r, i. split_and!; [exact E|lia|lia|].
    destruct r as [q|]; [exact Hr|]. intros k q Hk Hw. destruct (decide (k = 1)) as [->|Hne].
    + assert (u32 (mg_idx (mgr s) + 1) = mg_idx (mgr s) + 1) as Eu by (unfold uwrap; apply Z.mod_small; lia).
      rewrite <- Eu, Hlk. intros [= <-]. unfold up. by rewrite Hx.
    + assert (u32 (mg_idx (mgr s) + 1) = mg_idx (mgr s) + 1) as Eu by (unfold uwrap; apply Z.mod_small; lia).
      specialize (Hr (k - 1) q ltac:(lia)). cbn in Hr. rewrite Eu in Hr. replace (mg_idx (mgr s) + 1 + (k - 1)) with (mg_idx (mgr s) + k) in Hr by lia. auto.
Qed.

(** ** The other operations *)
(** Streams that keep their connections. *)
Definition calm_upd (s s' : mstate) : Prop :=
  mgr s' = mgr s ∧ (∀ q, up s' q = up s q) ∧ ∀ q, is_Some (streams s !! q) → is_Some (streams s' !! q).
Lemma calm_opt (b : bool) p f s : (∀ x, st_connected (f x) = st_connected x) → is_Some (streams s !! p) →
  ∃ s', (if b then upd_stream p f else cret tt) s = Ret tt s' ∧ calm_upd s s'.
Proof.
  intros Hf [x Hx]. destruct b; [|by exists s]. rewrite (upd_stream_Ret _ _ _ _ Hx). eexists. split; [done|]. split_and!; [done| |]; intros q; unfold up; cbn.
  - destruct (decide (p = q)) as [->|]; [by rewrite lookup_insert_eq, Hx|by rewrite lookup_insert_ne].
  - destruct (decide (p = q)) as [->|]; [rewrite lookup_insert_eq; by eexists|by rewrite lookup_insert_ne].
Qed.
Lemma calm_loop body g l s : (∀ p s x, streams s !! p = Some x → body p s = Ret tt (with_streams (<[p := g x]>) s)) → (∀ x, g (g x) = g x) →
  (∀ x, st_connected (g x) = st_connected x) → Forall (λ p, is_Some (streams s !! p)) l → ∃ s', cfor l body s = Ret tt s' ∧ calm_upd s s'.
Proof.
  intros Hb Hi Hc Hl. destruct (cfor_streams body g l s Hb Hi Hl) as (s' & E & Em & Es). exists s'. split; [done|]. split_and!; [done|..].
  - intros q. by eapply up_map; [exact Es|].
  - intros q. by eapply present_map; exact Es.
Qed.
Lemma pool_close_loop l s : Forall (λ p, is_Some (streams s !! p)) l →
  ∃ s', cfor l (λ p, upd_stream p pooled_close) s = Ret tt s' ∧ mgr s' = mgr s ∧ (∀ q, up s' q = up s q && bool_decide (q ∉ l)) ∧
    ∀ q, is_Some (streams s !! q) → is_Some (streams s' !! q).
Proof.
  intros Hl. destruct (cfor_streams (λ p, upd_stream p pooled_close) pooled_close l s) as (s' & E & Em & Es); [intros; by apply upd_stream_Ret|done|done|].
  exists s'. split_and!; [done|done| |intros q; by eapply present_map; exact Es]. intros q. unfold up. rewrite Es, bool_decide_not.
  destruct (streams s !! q); [|done]. cbn. case_bool_decide; cbn; [by rewrite andb_false_r|by rewrite andb_true_r].
Qed.
Definition present_all (s : mstate) (l : list nat) : Prop := Forall (λ p, is_Some (streams s !! p)) l.
Lemma present_calm s s' l : (∀ q, is_Some (streams s !! q) → is_Some (streams s' !! q)) → present_all s l → present_all s' l.
Proof. intros H Hl. eapply Forall_impl; [exact Hl|]. intros q. apply H. Qed.
Lemma u32_members (l : list nat) : Z.of_nat (length l) < 2 ^ 32 → u32 (Z.of_nat (length l)) = Z.of_nat (length l).
Proof. intros. apply uwrap_id. split; lia. Qed.

(** What an operation other than get leaves. *)
Definition leaves (s : mstate) (l cl : list nat) (s' : mstate) : Prop :=
  mg_size (mgr s') = Z.of_nat (length l) ∧ mg_datas (mgr s') = l ∧ mg_idx (mgr s') = mg_idx (mgr s) ∧ present_all s' l ∧
  ∀ q, up s' q = up s q && bool_decide (q ∉ cl).
Lemma mg_add_spec p s : mg_ok s → op_ok (MAdd p) s → ∃ s', mg_add p s = Ret tt s' ∧ leaves s (mg_datas (mgr s) ++ [p]) [] s'.
Proof.
  intros (Hs & Hs' & Hi & Hp) [Hl Hm]. cbn [members_spec] in *. pose proof (proj2 (proj1 (Forall_app _ _ _) Hm)) as Hp1. apply Forall_cons_1 in Hp1 as [Hp1 _].
  unfold mg_add. rewrite (cbind_Ret _ _ _ _ _ (eq_refl : cmodify _ s = Ret tt _)). set (s1 := with_mgr _ s).
  rewrite (cbind_Ret _ _ _ _ _ (eq_refl : cget s1 = Ret s1 s1)).
  assert (Hc : ∀ (o : option nat) g s, is_Some (streams s !! p) → (∀ cb x, st_connected (g cb x) = st_connected x) →
    ∃ s', (match o with Some cb => upd_stream p (g (Some cb)) | None => cret tt end) s = Ret tt s' ∧ calm_upd s s').
  { intros o g s0 H0 Hg. destruct o as [cb|]; [by apply (calm_opt true)|by exists s0]. }
  destruct (Hc (mg_connectCb (mgr s1)) stream_setConnectCb s1 Hp1 ltac:(done)) as (s2 & E2 & M2 & U2 & P2). rewrite (cbind_Ret _ _ _ _ _ E2).
  destruct (Hc (mg_disconnectCb (mgr s1)) stream_setDisconnectCb s2 (P2 _ Hp1) ltac:(done)) as (s3 & E3 & M3 & U3 & P3).
  exists s3. split; [done|]. unfold leaves. rewrite M3, M2. cbn. rewrite <- (u32_members (_ ++ [p])) by done. split_and!; [|done|done| |].
  - f_equal. rewrite Hs, length_app. cbn. lia.
  - eapply present_calm; [exact P3|]. eapply present_calm; [exact P2|exact Hm].
  - intros q. rewrite U3, U2. by rewrite andb_true_r.
Qed.
Lemma mg_clear_spec s : mg_ok s → ∃ s', mg_clear s = Ret tt s' ∧ leaves s [] (mg_datas (mgr s)) s'.
Proof.
  intros (Hs & Hs' & Hi & Hp). unfold mg_clear. rewrite (cbind_Ret _ _ _ _ _ (eq_refl : cget s = Ret s s)).
  destruct (pool_close_loop _ _ Hp) as (s1 & E & M1 & U1 & P1). rewrite (cbind_Ret _ _ _ _ _ E). eexists. split; [done|]. unfold leaves. cbn. rewrite M1.
  split_and!; [done..|constructor|exact U1].
Qed.
Lemma mg_setConnection_spec l s : mg_ok s → op_ok (MSet l) s → ∃ s', mg_setConnection l s = Ret tt s' ∧ leaves s l (mg_datas (mgr s)) s'.
Proof.
  intros (Hs & Hs' & Hi & Hp) [Hl Hm]. cbn [members_spec] in *. unfold mg_setConnection. rewrite (cbind_Ret _ _ _ _ _ (eq_refl : cget s = Ret s s)).
  rewrite (cbind_Ret _ _ _ _ _ (eq_refl : cmodify _ s = Ret tt _)). set (s1 := with_mgr _ s).
  match goal with |- ∃ s', cbind ?m _ _ = _ ∧ _ => assert (∃ s2, m s1 = Ret tt s2 ∧ calm_upd s1 s2) as (s2 & E2 & M2 & U2 & P2) end.
  { destruct (_ || _); [|by exists s1]. destruct (bool_decide (is_Some (mg_connectCb (mgr s)))).
    - apply (calm_loop _ (λ x, stream_setDisconnectCb (mg_disconnectCb (mgr s)) (stream_setConnectCb (mg_connectCb (mgr s)) x))); [|done|done|done].
      intros p s0 x Hx. rewrite (cbind_Ret _ _ _ _ _ (upd_stream_Ret _ _ _ _ Hx)). erewrite upd_stream_Ret; [|cbn; by rewrite lookup_insert_eq].
      unfold with_streams. cbn. by rewrite insert_insert_eq.
    - apply (calm_loop _ id); [|done|done|done]. intros p s0 x Hx. unfold with_streams. cbn. rewrite insert_id by done. by destruct s0. }
  rewrite (cbind_Ret _ _ _ _ _ E2). destruct (pool_close_loop (mg_datas (mgr s)) s2) as (s3 & E3 & M3 & U3 & P3); [by eapply present_calm|].
  exists s3. split; [done|]. unfold leaves. rewrite M3, M2. cbn. split_and!; [by apply u32_members|done|done| |].
  - eapply present_calm; [exact P3|]. eapply present_calm; [exact P2|exact Hm].
  - intros q. by rewrite U3, U2.
Qed.
Lemma mg_setCb_spec f g s : mg_ok s → (∀ m, mg_size (f m) = mg_size m ∧ mg_datas (f m) = mg_datas m ∧ mg_idx (f m) = mg_idx m) →
  (∀ x, g (g x) = g x) → (∀ x, st_connected (g x) = st_connected x) →
  ∃ s', (let! _ := cmodify (with_mgr f) in let! s := cget in cfor (mg_datas (mgr s)) (λ p, upd_stream p g)) s = Ret tt s' ∧
    leaves s (mg_datas (mgr s)) [] s'.
Proof.
  intros (Hs & Hs' & Hi & Hp) Hf Hg Hc. destruct (Hf (mgr s)) as (F1 & F2 & F3).
  rewrite (cbind_Ret _ _ _ _ _ (eq_refl : cmodify (with_mgr f) s = Ret tt (with_mgr f s))).
  rewrite (cbind_Ret _ _ _ _ _ (eq_refl : cget (with_mgr f s) = Ret _ _)). cbn [mgr with_mgr]. rewrite F2.
  destruct (calm_loop (λ p, upd_stream p g) g (mg_datas (mgr s)) (with_mgr f s)) as (s' & E & M1 & U1 & P1); [intros; by apply upd_stream_Ret|done..|].
  exists s'. split; [done|]. unfold leaves. rewrite M1. cbn. rewrite F1, F2, F3. split_and!; [done..|by eapply present_calm|].
  intros q. rewrite U1. by rewrite andb_true_r.
Qed.
Lemma mg_get_spec s : mg_ok s → ∃ r i, mg_get s = Ret r (with_mgr (set_mg_idx i) s) ∧ 0 <= i < 2 ^ 32 ∧
  match r with
  | Some p => p ∈ mg_datas (mgr s) ∧ up s p = true
  | None => mg_idx (mgr s) + mg_size (mgr s) < 2 ^ 32 → ∀ p, p ∈ mg_datas (mgr s) → up s p = false
  end.
Proof.
  intros Hok. pose proof Hok as (Hs & Hs' & Hi & Hp). unfold mg_get. rewrite (cbind_Ret _ _ _ _ _ (eq_refl : cget s = Ret s s)).
  destruct (mg_get_loop_spec (Z.to_nat (mg_size (mgr s))) s Hok ltac:(lia)) as (r & i & E & Hri & Hr). exists r, i. split_and!; [done|lia|lia|].
  destruct r as [p|]; [done|]. intros Hw p [j Hj]%list_elem_of_lookup_1. pose proof (lookup_lt_Some _ _ _ Hj).
  set (n := mg_size (mgr s)) in *. set (x := mg_idx (mgr s)) in *.
  pose proof (Z.mod_pos_bound (Z.of_nat j - x - 1) n ltac:(lia)).
  apply (Hr ((Z.of_nat j - x - 1) mod n + 1) p); [lia|lia|]. rewrite <- Hj. f_equal.
  replace (x + ((Z.of_nat j - x - 1) mod n + 1)) with ((Z.of_nat j - x - 1) mod n + (x + 1)) by lia.
  rewrite Zplus_mod_idemp_l. replace (Z.of_nat j - x - 1 + (x + 1)) with (Z.of_nat j) by lia. rewrite Z.mod_small by lia. lia.
Qed.

(** A pool of streams keeps the members its operations ask for: every
    operation is defined, clear and setConnection close the members they
    remove and nothing else is closed; get returns a member that is
    connected, and null, unless its counter wraps around meanwhile, only when
    none is. *)
Theorem manager_pool (o : mgop) (s : mstate) : mg_ok s → op_ok o s →
  ∃ r s', mg_exec o s = Ret r s' ∧ mg_ok s' ∧ mg_datas (mgr s') = members_spec o (mg_datas (mgr s)) ∧
    (∀ q, up s' q = up s q && bool_decide (q ∉ closed_spec o (mg_datas (mgr s)))) ∧
    match o, r with
    | MGet, Some p => p ∈ mg_datas (mgr s) ∧ up s p = true
    | MGet, None => mg_idx (mgr s) + mg_size (mgr s) < 2 ^ 32 → ∀ p, p ∈ mg_datas (mgr s) → up s p = false
    | _, _ => True
    end.
Proof.
  intros Hok Ho. pose proof Hok as (Hs & Hs' & Hi & Hp). pose proof Ho as [Hl Hm].
  assert (Hfin : ∀ s' cl, leaves s (members_spec o (mg_datas (mgr s))) cl s' → mg_ok s').
  { intros s' cl (L1 & L2 & L3 & L4 & _). unfold mg_ok. rewrite L1, L2, L3. split_and!; [done|lia|lia|lia|done]. }
  destruct o as [p| |l| |cb|cb]; cbn [mg_exec members_spec closed_spec] in *.
  - destruct (mg_add_spec p s Hok Ho) as (s' & E & L). exists None, s'. rewrite (cbind_Ret _ _ _ _ _ E). split_and!; [done|by eapply Hfin|by apply L|apply L|done].
  - destruct (mg_clear_spec s Hok) as (s' & E & L). exists None, s'. rewrite (cbind_Ret _ _ _ _ _ E). split_and!; [done|by eapply Hfin|by apply L|apply L|done].
  - destruct (mg_setConnection_spec l s Hok Ho) as (s' & E & L). exists None, s'. rewrite (cbind_Ret _ _ _ _ _ E). split_and!; [done|by eapply Hfin|by apply L|apply L|done].
  - destruct (mg_get_spec s Hok) as (r & i & E & Hri & Hr). exists r. eexists. split; [exact E|]. split; [split_and!; [exact Hs|exact Hs'|apply Hri|apply Hri|exact Hp]|].
    split; [done|]. split; [|done]. intros q. by rewrite andb_true_r.
  - destruct (mg_setCb_spec (set_mg_connectCb cb) (stream_setConnectCb cb) s Hok) as (s' & E & L); [done..|]. exists None, s'.
    unfold mg_setConnectCb. rewrite (cbind_Ret _ _ _ _ _ E). split_and!; [done|by eapply Hfin|by apply L|apply L|done].
  - destruct (mg_setCb_spec (set_mg_disconnectCb cb) (stream_setDisconnectCb cb) s Hok) as (s' & E & L); [done..|]. exists None, s'.
    unfold mg_setDisconnectCb. rewrite (cbind_Ret _ _ _ _ _ E). split_and!; [done|by eapply Hfin|by apply L|apply L|done].
Qed.

(** ** Examples *)
Definition live : pooled_stream := mkPooled true true None None.
Definition dead : pooled_stream := mkPooled false true None None.
Definition pool3 (i : Z) : mstate := mkMS (list_to_map [(0%nat, dead); (1%nat, dead); (2%nat, live)]) (mkManager 3 i [0; 1; 2]%nat None None).
Lemma pool3_ok i : 0 <= i < 2 ^ 32 → mg_ok (pool3 i).
Proof. intros Hi. split_and!; [done|done|apply Hi|apply Hi|]. repeat constructor; by eexists. Qed.
Lemma manager_pool_witness : ∃ r s', mg_exec (MSet [2%nat]) (pool3 5) = Ret r s' ∧ mg_ok s' ∧ mg_datas (mgr s') = [2%nat].
Proof.
  destruct (manager_pool (MSet [2%nat]) (pool3 5)) as (r & s' & E & Hok & Hd & _).
  - apply pool3_ok. lia.
  - split; [cbn; lia|]. repeat constructor. by eexists.
  - exists r, s'. split_and!; [exact E|exact Hok|exact Hd].
Defined.
(** The counter wraps around and the residues do not go on: the only
    connected stream is passed over. *)
Lemma manager_get_wraps : up (pool3 (2 ^ 32 - 2)) 2 = true ∧
  match mg_get (pool3 (2 ^ 32 - 2)) with Ret r _ => r = None | _ => False end.
Proof. by vm_compute. Qed.
(** A stream that stays in the pool is closed. *)
Lemma setConnection_closes_kept :
  match mg_setConnection [2%nat] (pool3 0) with Ret _ s => mg_datas (mgr s) = [2%nat] ∧ up s 2 = false | _ => False end.
Proof. by vm_compute. Qed.
(** A pool with a disconnect callback alone does not hand it on. *)
Lemma setConnection_disconnectCb :
  match mg_setConnection [2%nat] (with_mgr (set_mg_disconnectCb (Some 9%nat)) (mkMS (streams (pool3 0)) manager_new)) with
  | Ret _ s => st_disconnectCb <$> streams s !! 2%nat = Some None
  | _ => False
  end.
Proof. by vm_compute. Qed.
