(* ===== verification/NameService.v ===== *)
(** * The name service: NodeService/ns_protocol.{h,cc},
      name_server_module.{h,cc}, ns_client.{h,cc}

    Nodes register the commands they serve in domains, over rock streams; a
    client asks for the nodes of the domains it is interested in and keeps
    them. The generated protobuf classes are records with the fields of
    ns_protobuf.proto; a message that cannot be parsed is [None]. inet_addr
    is a parameter. Handlers run one at a time; a std::map is traversed in an
    order that is a parameter ([IterOrder]). *)
From Stdlib Require Import ZArith Lia Strings.String.
From stdpp Require Import base list list_numbers numbers gmap strings.
From S2P Require Import Prelude LoadBalance.
Local Open Scope Z_scope.

(** ** Nodes, sets and domains (ns_protocol.cc) *)
Record NSNode := mkNode { n_id : Z; n_ip : string; n_port : Z; n_weight : Z }.
Record NSNodeSet := mkNodeSet { ns_cmd : Z; ns_datas : gmap Z NSNode }.
Record NSDomain := mkDomain { d_domain : string; d_datas : gmap Z NSNodeSet }.
Abbreviation NSDomainSet := (gmap string NSDomain).

Section nodes.
Context (inet_addr : string → Z).
Definition node_GetID (ip : string) (port : Z) : Z := Z.lor (Z.shiftl (inet_addr ip) 32) port.
(** The port is converted to 16 bits by the call. *)
Definition NSNode_new (ip : string) (port weight : Z) : NSNode := mkNode (node_GetID ip (u16 port)) ip (u16 port) weight.
(** getId() >> 32 *)
Definition has_addr (n : NSNode) : bool := negb (Z.shiftr (n_id n) 32 =? 0).
End nodes.

Definition NSNodeSet_new (cmd : Z) : NSNodeSet := mkNodeSet cmd ∅.
Definition ns_add (info : NSNode) (s : NSNodeSet) : NSNodeSet := mkNodeSet (ns_cmd s) (<[n_id info := info]> (ns_datas s)).
Definition ns_del (id : Z) (s : NSNodeSet) : option NSNode * NSNodeSet :=
  match ns_datas s !! id with
  | Some rt => (Some rt, mkNodeSet (ns_cmd s) (delete id (ns_datas s)))
  | None => (None, s)
  end.
Definition ns_get (id : Z) (s : NSNodeSet) : option NSNode := ns_datas s !! id.
Definition ns_size (s : NSNodeSet) : nat := size (ns_datas s).

Definition NSDomain_new (name : string) : NSDomain := mkDomain name ∅.
Definition d_get (cmd : Z) (d : NSDomain) : option NSNodeSet := d_datas d !! cmd.
Definition d_add_set (info : NSNodeSet) (d : NSDomain) : NSDomain := mkDomain (d_domain d) (<[ns_cmd info := info]> (d_datas d)).
Definition d_put (cmd : Z) (s : NSNodeSet) (d : NSDomain) : NSDomain := mkDomain (d_domain d) (<[cmd := s]> (d_datas d)).
(** The set that is found or made is shared with the domain. *)
Definition d_add (cmd : Z) (info : NSNode) (d : NSDomain) : NSDomain :=
  match d_get cmd d with
  | Some ns => d_put cmd (ns_add info ns) d
  | None => let d := d_add_set (NSNodeSet_new cmd) d in d_put cmd (ns_add info (NSNodeSet_new cmd)) d
  end.
Definition d_del_cmd (cmd : Z) (d : NSDomain) : NSDomain := mkDomain (d_domain d) (delete cmd (d_datas d)).
Definition d_del (cmd id : Z) (d : NSDomain) : option NSNode * NSDomain :=
  match d_get cmd d with
  | None => (None, d)
  | Some ns =>
    let (info, ns) := ns_del id ns in
    let d := d_put cmd ns d in
    (info, if (ns_size ns =? 0)%nat then d_del_cmd cmd d else d)
  end.
Definition d_size (d : NSDomain) : nat := size (d_datas d).

Definition ds_add (info : NSDomain) (s : NSDomainSet) : NSDomainSet := <[d_domain info := info]> s.
Definition ds_del (domain : string) (s : NSDomainSet) : NSDomainSet := delete domain s.
Definition ds_get (domain : string) (auto_create : bool) (s : NSDomainSet) : option NSDomain * NSDomainSet :=
  if negb auto_create then (s !! domain, s)
  else match s !! domain with
       | Some d => (Some d, s)
       | None => let d := NSDomain_new domain in (Some d, <[domain := d]> s)
       end.
Definition ds_del_node (domain : string) (cmd id : Z) (s : NSDomainSet) : NSDomainSet :=
  match fst (ds_get domain false s) with
  | None => s
  | Some d =>
    match d_get cmd d with
    | None => s
    | Some ns => <[domain := d_put cmd (snd (ns_del id ns)) d]> s
    end
  end.
Definition ds_swap (a b : NSDomainSet) : NSDomainSet * NSDomainSet := (b, a).
(** What is done to a domain through a pointer to it. *)
Definition on_domain (domain : string) (f : NSDomain → NSDomain) (s : NSDomainSet) : NSDomainSet :=
  match s !! domain with Some d => <[domain := f d]> s | None => s end.

Section listing.
Context `{!IterOrder Z, !IterOrder string}.
Definition ns_listAll (s : NSNodeSet) : list NSNode := (order (ns_datas s)).*2.
Definition d_listAll (d : NSDomain) : list NSNodeSet := (order (d_datas d)).*2.
Definition ds_listAll (s : NSDomainSet) : list NSDomain := (order s).*2.
End listing.

(** ** Messages (ns_protobuf.proto) *)
Record PNode := mkPNode { p_ip : option string; p_port : option Z; p_weight : option Z }.
Record RegisterInfo := mkRegisterInfo { ri_domain : option string; ri_cmds : list Z; ri_node : option PNode }.
Record NodeInfo := mkNodeInfo { ni_domain : string; ni_cmd : Z; ni_nodes : list (string * Z * Z) }.
Record NotifyMessage := mkNotifyMessage { nm_dels : list NodeInfo; nm_updates : list NodeInfo }.
Definition REGISTER : Z := 0x10001.
Definition QUERY : Z := 0x10002.
Definition TICK : Z := 0x10005.
Definition NODE_CHANGE : Z := 0x10001.

(** ** The server (name_server_module.cc) *)
Abbreviation Cmds := (gmap string (gset Z)).
Record NSClientInfo := mkClientInfo { ci_node : NSNode; ci_domain2cmds : Cmds }.
Record module_state := mkModule
  { m_domains : NSDomainSet; m_sessions : gmap nat NSClientInfo;
    m_queryDomains : gmap nat (gset string); m_domainToSessions : gmap string (gset nat);
    s_request_count : Z; s_on_connect : Z; s_on_disconnect : Z }.
Definition NameServerModule_new : module_state := mkModule ∅ ∅ ∅ ∅ 0 0 0.
Definition set_domains f s := mkModule (f (m_domains s)) (m_sessions s) (m_queryDomains s) (m_domainToSessions s) (s_request_count s) (s_on_connect s) (s_on_disconnect s).
Definition set_sessions f s := mkModule (m_domains s) (f (m_sessions s)) (m_queryDomains s) (m_domainToSessions s) (s_request_count s) (s_on_connect s) (s_on_disconnect s).
Definition set_queries q d s := mkModule (m_domains s) (m_sessions s) q d (s_request_count s) (s_on_connect s) (s_on_disconnect s).
Definition inc_requests s := mkModule (m_domains s) (m_sessions s) (m_queryDomains s) (m_domainToSessions s) (u64 (s_request_count s + 1)) (s_on_connect s) (s_on_disconnect s).
Definition inc_connect s := mkModule (m_domains s) (m_sessions s) (m_queryDomains s) (m_domainToSessions s) (s_request_count s) (u64 (s_on_connect s + 1)) (s_on_disconnect s).
Definition inc_disconnect s := mkModule (m_domains s) (m_sessions s) (m_queryDomains s) (m_domainToSessions s) (s_request_count s) (s_on_connect s) (u64 (s_on_disconnect s + 1)).

(** m[domain].insert(n) on a map of sets, and m.insert(i). *)
Definition put_cmd (domain : string) (n : Z) (m : Cmds) : Cmds := <[domain := default ∅ (m !! domain) ∪ {[n]}]> m.
Definition put_all (domain : string) (ns : gset Z) (m : Cmds) : Cmds :=
  match m !! domain with Some _ => m | None => <[domain := ns]> m end.

Section server.
Context `{!IterOrder Z, !IterOrder string} (inet_addr : string → Z).

Definition diff_old (new_value : Cmds) (i : string * gset Z) (r : Cmds * Cmds) : Cmds * Cmds :=
  match new_value !! i.1 with
  | None => (put_all i.1 i.2 r.1, r.2)
  | Some it => foldl (λ r n, if bool_decide (n ∈ it) then (r.1, put_cmd i.1 n r.2) else (put_cmd i.1 n r.1, r.2)) r (elements i.2)
  end.
Definition diff_new (old_value : Cmds) (i : string * gset Z) (news : Cmds) : Cmds :=
  match old_value !! i.1 with
  | None => put_all i.1 i.2 news
  | Some it => foldl (λ r n, if bool_decide (n ∈ it) then r else put_cmd i.1 n r) news (elements i.2)
  end.
(** dels, news and comms *)
Definition diff (old_value new_value : Cmds) : Cmds * Cmds * Cmds :=
  let '(dels, comms) := foldl (λ r i, diff_old new_value i r) (∅, ∅) (order old_value) in
  let news := foldl (λ r i, diff_new old_value i r) ∅ (order new_value) in
  (dels, news, comms).

Definition get_session (rs : nat) (s : module_state) : option NSClientInfo := m_sessions s !! rs.
(** m_domains->get(name), or a new domain added to it *)
Definition get_or_add (domain : string) (s : NSDomainSet) : NSDomainSet :=
  match s !! domain with Some _ => s | None => ds_add (NSDomain_new domain) s end.
Definition del_cmds (old_value : option NSClientInfo) (i : string * gset Z) : M module_state unit :=
  let! s := cget in
  match m_domains s !! i.1 with
  | None => cret tt
  | Some _ =>
    cfor (elements i.2) (λ c,
      let! o := cderef old_value in
      cmodify (set_domains (on_domain i.1 (λ d, snd (d_del c (n_id (ci_node o)) d)))))
  end.
Definition add_cmds (new_value : option NSClientInfo) (i : string * gset Z) : M module_state unit :=
  let! _ := cmodify (set_domains (get_or_add i.1)) in
  cfor (elements i.2) (λ c,
    let! v := cderef new_value in cmodify (set_domains (on_domain i.1 (d_add c (ci_node v))))).
(** [connected]: rs->isConnected() *)
Definition ns_set (connected : bool) (rs : nat) (new_value : option NSClientInfo) : M module_state unit :=
  let new_value := if connected then new_value else None in
  let! old_value := creads (get_session rs) in
  let old_v := default ∅ (ci_domain2cmds <$> old_value) in
  let new_v := default ∅ (ci_domain2cmds <$> new_value) in
  let '(dels, news, comms) := diff old_v new_v in
  let! _ := cfor (order dels) (del_cmds old_value) in
  let! _ := cfor (order news) (add_cmds new_value) in
  let! _ :=
    if bool_decide (comms = ∅) then cret tt
    else
      let! o := cderef old_value in
      let! v := cderef new_value in
      if n_weight (ci_node o) =? n_weight (ci_node v) then cret tt
      else cfor (order comms) (add_cmds new_value) in
  cmodify (set_sessions (λ m, match new_value with Some v => <[rs := v]> m | None => delete rs m end)).

(** The loop of handleRegister; [None] is return false. *)
Fixpoint register_infos (old_value : option NSClientInfo) (infos : list RegisterInfo) (new_value : option NSClientInfo) :
    option (option NSClientInfo) :=
  match infos with
  | [] => Some new_value
  | info :: infos =>
    match ri_node info, ri_domain info with
    | Some node, Some domain =>
      if (length (ri_cmds info) =? 0)%nat then None
      else
        match p_ip node, p_port node, p_weight node with
        | Some ip, Some port, Some weight =>
          let ns_node := NSNode_new inet_addr ip port weight in
          if negb (has_addr ns_node) then None
          else if match old_value with Some o => negb (n_id (ci_node o) =? n_id ns_node) | None => false end then None
          else if match new_value with Some v => negb (n_id (ci_node v) =? n_id ns_node) | None => false end then None
          else
            let v := default (mkClientInfo ns_node ∅) new_value in
            let v := mkClientInfo (ci_node v) (foldl (λ m cmd, put_cmd domain cmd m) (ci_domain2cmds v) (ri_cmds info)) in
            register_infos old_value infos (Some v)
        | _, _, _ => None
        end
    | _, _ => None
    end
  end.
(** What a handler leaves in the response: nothing, or the result with the
    answer to a query. *)
Inductive answer_of := Untouched | Ok (infos : option (list NodeInfo)).
Definition handleRegister (connected : bool) (rs : nat) (rr : option (list RegisterInfo)) : M module_state (bool * answer_of) :=
  match rr with
  | None => cret (false, Untouched)
  | Some infos =>
    let! old_value := creads (get_session rs) in
    match register_infos old_value infos None with
    | None => cret (false, Untouched)
    | Some new_value => let! _ := ns_set connected rs new_value in cret (true, Ok None)
    end
  end.
(** The domains asked for, in the order of their addresses, whatever it is. *)
Definition node_info (d : NSDomain) (n : NSNodeSet) : NodeInfo :=
  mkNodeInfo (d_domain d) (ns_cmd n) ((λ x, (n_ip x, n_port x, n_weight x)) <$> ns_listAll n).
Definition query_infos (domains : list string) (s : NSDomainSet) : list NodeInfo :=
  ds_listAll (filter (λ i, i.1 ∈ domains) s) ≫= λ d, node_info d <$> d_listAll d.
Definition handleQuery (qreq : option (list string)) : M module_state (bool * answer_of) :=
  match qreq with
  | None => cret (false, Untouched)
  | Some domains => let! s := cget in cret (true, Ok (Some (query_infos domains (m_domains s))))
  end.
Definition handleTick : M module_state (bool * answer_of) := cret (true, Untouched).
(** The body of a request, as the handler of its command parses it. *)
Record ns_request := mkNSRequest { nr_cmd : Z; nr_register : option (list RegisterInfo); nr_query : option (list string) }.
Definition handleRockRequest (connected : bool) (rs : nat) (r : ns_request) : M module_state (bool * answer_of) :=
  let! _ := cmodify inc_requests in
  if nr_cmd r =? REGISTER then handleRegister connected rs (nr_register r)
  else if nr_cmd r =? QUERY then handleQuery (nr_query r)
  else if nr_cmd r =? TICK then handleTick
  else cret (true, Untouched).
(** [is_rock]: the stream is a RockStream. *)
Definition onConnect (is_rock : bool) : M module_state bool := let! _ := cmodify inc_connect in cret is_rock.
Definition onDisconnect (is_rock connected : bool) (rs : nat) : M module_state bool :=
  let! _ := cmodify inc_disconnect in
  if is_rock then let! _ := ns_set connected rs None in cret true else cret false.
(** Which sessions want to be told of a domain. *)
Definition getStreams (domain : string) (s : module_state) : gset nat := default ∅ (m_domainToSessions s !! domain).
Definition setQueryDomain (connected : bool) (rs : nat) (ds : gset string) : M module_state unit := λ s,
  let old := m_queryDomains s !! rs in
  if bool_decide (old = Some ds) then Ret tt s
  else if negb connected then Ret tt s
  else
    let erased := foldl (λ m i, <[i := default ∅ (m !! i) ∖ {[rs]}]> m) (m_domainToSessions s) (elements (default ∅ old)) in
    let inserted := foldl (λ m i, <[i := default ∅ (m !! i) ∪ {[rs]}]> m) erased (elements ds) in
    Ret tt (set_queries (if bool_decide (ds = ∅) then delete rs (m_queryDomains s) else <[rs := ds]> (m_queryDomains s)) inserted s).
(** The streams each domain's notification is sent to. *)
Definition doNotify (domains : list string) (s : module_state) : list nat := domains ≫= λ i, elements (getStreams i s).
End server.

(** ** The client (ns_client.cc) *)
Record client_state := mkClient { c_queryDomains : gset string; c_domains : NSDomainSet; c_sn_next : Z }.
Definition NSClient_new : client_state := mkClient ∅ ∅ 0.
Section client.
Context (inet_addr : string → Z).
Definition setQueryDomains (v : gset string) (c : client_state) := mkClient v (c_domains c) (c_sn_next c).
Definition addQueryDomain (d : string) (c : client_state) := mkClient (c_queryDomains c ∪ {[d]}) (c_domains c) (c_sn_next c).
Definition delQueryDomain (d : string) (c : client_state) := mkClient (c_queryDomains c ∖ {[d]}) (c_domains c) (c_sn_next c).
Definition hasQueryDomain (d : string) (c : client_state) : bool := bool_decide (d ∈ c_queryDomains c).
(** query up to the request: its number and domains; [None] returns at once. *)
Definition query_send (c : client_state) : option (Z * list string) * client_state :=
  let sn := u32 (c_sn_next c + 1) in
  let c := mkClient (c_queryDomains c) (c_domains c) sn in
  (if bool_decide (c_queryDomains c = ∅) then None else Some (sn, elements (c_queryDomains c)), c).
Definition add_nodes (domain : string) (cmd : Z) (nodes : list (string * Z * Z)) (s : NSDomainSet) : NSDomainSet :=
  foldl (λ s '(ip, port, weight),
    let node := NSNode_new inet_addr ip port weight in
    if negb (has_addr node) then s else on_domain domain (d_add cmd node) s) s nodes.
Definition query_info (c : client_state) (domains : NSDomainSet) (i : NodeInfo) : NSDomainSet :=
  if negb (hasQueryDomain (ni_domain i) c) then domains
  else add_nodes (ni_domain i) (ni_cmd i) (ni_nodes i) (snd (ds_get (ni_domain i) true domains)).
(** query from the answer on; no response or one that cannot be parsed is
    [None]. *)
Definition query_recv (rsp : option (list NodeInfo)) (c : client_state) : client_state :=
  match rsp with
  | None => c
  | Some infos => mkClient (c_queryDomains c) (fst (ds_swap (c_domains c) (foldl (query_info c) ∅ infos))) (c_sn_next c)
  end.
Definition notify_del (c : client_state) (s : NSDomainSet) (i : NodeInfo) : NSDomainSet :=
  if negb (hasQueryDomain (ni_domain i) c) then s
  else foldl (λ s '(ip, port, weight),
         on_domain (ni_domain i) (λ d, snd (d_del (u32 (i32 (ni_cmd i))) (n_id (NSNode_new inet_addr ip port weight)) d)) s) s (ni_nodes i).
Definition notify_update (c : client_state) (s : NSDomainSet) (i : NodeInfo) : NSDomainSet :=
  if negb (hasQueryDomain (ni_domain i) c) then s
  else add_nodes (ni_domain i) (u32 (i32 (ni_cmd i))) (ni_nodes i) (snd (ds_get (ni_domain i) true s)).
Definition onNotify (notify : Z) (nm : option NotifyMessage) (c : client_state) : client_state :=
  if notify =? NODE_CHANGE then
    match nm with
    | None => c
    | Some nm =>
      mkClient (c_queryDomains c) (foldl (notify_update c) (foldl (notify_del c) (c_domains c) (nm_dels nm)) (nm_updates nm)) (c_sn_next c)
    end
  else c.
End client.
