(* ===== verification/NameLookup.v ===== *)
(** * The registry of the name service: lookups and differences

    What a set of domains says of a node, how the operations of
    NodeService/ns_protocol.cc change it, and what diff of
    name_server_module.cc computes. *)
From Stdlib Require Import ZArith Lia Strings.String.
From stdpp Require Import base list list_numbers numbers gmap strings.
From S2P Require Import Prelude LoadBalance NameService.
Local Open Scope Z_scope.

(** ** What a set of domains says *)
Definition node_at (s : NSDomainSet) (domain : string) (cmd id : Z) : option NSNode :=
  d ← s !! domain; ns ← d_get cmd d; ns_get id ns.
Definition cmds_of (m : Cmds) (domain : string) : gset Z := default ∅ (m !! domain).
(** Domains and sets are filed under their names, nodes under their ids. *)
Definition ds_ok (s : NSDomainSet) : Prop :=
  ∀ name d, s !! name = Some d → d_domain d = name ∧
    ∀ cmd ns, d_datas d !! cmd = Some ns → ns_cmd ns = cmd ∧ ∀ id n, ns_datas ns !! id = Some n → n_id n = id.

Lemma d_add_datas c n d c' : d_datas (d_add c n d) !! c' =
  if decide (c = c') then Some (ns_add n (default (NSNodeSet_new c) (d_get c d))) else d_datas d !! c'.
Proof.
  unfold d_add. destruct (d_get c d) eqn:E; cbn; case_decide; subst.
  - by rewrite lookup_insert_eq.
  - by rewrite lookup_insert_ne.
  - by rewrite lookup_insert_eq.
  - by rewrite !lookup_insert_ne.
Qed.
Lemma d_add_domain c n d : d_domain (d_add c n d) = d_domain d.
Proof. unfold d_add. by case_match. Qed.
Lemma ns_del_datas id s : ns_datas (snd (ns_del id s)) = delete id (ns_datas s) ∧ ns_cmd (snd (ns_del id s)) = ns_cmd s.
Proof. unfold ns_del. case_match eqn:E; cbn; [done|]. by rewrite delete_id. Qed.
Lemma d_del_domain c id d : d_domain (snd (d_del c id d)) = d_domain d.
Proof. unfold d_del. destruct (d_get c d); [|done]. destruct (ns_del id _). by case_match. Qed.
Lemma d_del_datas c id d c' ns : d_datas (snd (d_del c id d)) !! c' = Some ns →
  (c' ≠ c ∧ d_datas d !! c' = Some ns) ∨ (c' = c ∧ ∃ ns0, d_datas d !! c = Some ns0 ∧ ns = snd (ns_del id ns0)).
Proof.
  unfold d_del, d_get. destruct (d_datas d !! c) as [ns0|] eqn:E; cbn.
  - destruct (ns_del id ns0) as [r ns1] eqn:Ed. cbn. assert (Hs : ns1 = snd (ns_del id ns0)) by (by rewrite Ed).
    case_match; cbn; (destruct (decide (c' = c)) as [->|]; [rewrite ?lookup_delete_eq, ?lookup_insert_eq|rewrite ?lookup_delete_ne, ?lookup_insert_ne by done; by left]); try done.
    intros [= <-]. right. split; [done|]. by exists ns0.
  - intros H. left. split; [|done]. intros ->. congruence.
Qed.
Lemma node_at_add s dom c n dom' c' id' : is_Some (s !! dom) →
  node_at (on_domain dom (d_add c n) s) dom' c' id' =
  if decide (dom' = dom ∧ c' = c ∧ id' = n_id n) then Some n else node_at s dom' c' id'.
Proof.
  intros [d Hd]. unfold node_at, on_domain, d_get. rewrite Hd. destruct (decide (dom' = dom)) as [->|Hne].
  - rewrite lookup_insert_eq, Hd. cbn. rewrite d_add_datas. destruct (decide (c = c')) as [<-|].
    + cbn. unfold ns_get, d_get. cbn. destruct (decide (id' = n_id n)) as [->|].
      * rewrite lookup_insert_eq, decide_True; done.
      * rewrite lookup_insert_ne by done. rewrite decide_False by naive_solver. by destruct (d_datas d !! c).
    + rewrite decide_False by naive_solver. done.
  - rewrite lookup_insert_ne by done. rewrite decide_False by naive_solver. done.
Qed.
Lemma node_at_del s dom c id dom' c' id' :
  node_at (on_domain dom (λ d, snd (d_del c id d)) s) dom' c' id' =
  if decide (dom' = dom ∧ c' = c ∧ id' = id) then None else node_at s dom' c' id'.
Proof.
  unfold on_domain. destruct (s !! dom) as [d|] eqn:Hd; [|case_decide as Hc; [destruct Hc as (-> & _); unfold node_at; by rewrite Hd|done]].
  unfold node_at. destruct (decide (dom' = dom)) as [->|Hne]; [|rewrite lookup_insert_ne by done; by rewrite decide_False by naive_solver].
  rewrite lookup_insert_eq, Hd. cbn. unfold d_del, d_get, ns_get. destruct (d_datas d !! c) as [ns|] eqn:Ec; cbn.
  - destruct (ns_del_datas id ns) as [E1 E2]. destruct (ns_del id ns) as [r ns1]. cbn in *.
    destruct (decide (c' = c)) as [->|Hne].
    + rewrite Ec. cbn. case_match eqn:Es; cbn; rewrite ?lookup_delete_eq, ?lookup_insert_eq; cbn.
      * apply Nat.eqb_eq, map_size_empty_inv in Es. case_decide as Hc; [done|]. assert (Hi : id' ≠ id) by naive_solver.
        rewrite <- (lookup_delete_ne _ id) by done. by rewrite <- E1, Es, lookup_empty.
      * rewrite E1. destruct (decide (id' = id)) as [->|]; [by rewrite lookup_delete_eq, decide_True|].
        rewrite lookup_delete_ne by done. by rewrite decide_False by naive_solver.
    + rewrite decide_False by naive_solver. case_match; cbn; by rewrite ?lookup_delete_ne, lookup_insert_ne by done.
  - case_decide as Hc; [|done]. destruct Hc as (_ & -> & _). by rewrite Ec.
Qed.
Lemma node_at_get_or_add s dom dom' c id : node_at (get_or_add dom s) dom' c id = node_at s dom' c id.
Proof.
  unfold get_or_add, ds_add, node_at. destruct (s !! dom) eqn:E; [done|]. cbn. destruct (decide (dom' = dom)) as [->|]; [|by rewrite lookup_insert_ne].
  by rewrite lookup_insert_eq, E.
Qed.
Lemma get_or_add_present s dom : is_Some (get_or_add dom s !! dom).
Proof. unfold get_or_add, ds_add. destruct (s !! dom) eqn:E; [by eexists|]. cbn. rewrite lookup_insert_eq. by eexists. Qed.
Lemma on_domain_present s dom f dom' : is_Some (s !! dom') → is_Some (on_domain dom f s !! dom').
Proof.
  intros H. unfold on_domain. destruct (s !! dom) eqn:E; [|done]. destruct (decide (dom = dom')) as [->|]; [rewrite lookup_insert_eq; by eexists|].
  by rewrite lookup_insert_ne.
Qed.

Lemma ds_ok_empty : ds_ok ∅.
Proof. intros name d. by rewrite lookup_empty. Qed.
Lemma ds_ok_insert s name d : ds_ok s → d_domain d = name →
  (∀ cmd ns, d_datas d !! cmd = Some ns → ns_cmd ns = cmd ∧ ∀ id n, ns_datas ns !! id = Some n → n_id n = id) → ds_ok (<[name := d]> s).
Proof.
  intros H E Hd name' d'. destruct (decide (name = name')) as [<-|]; [rewrite lookup_insert_eq; intros [= <-]; done|].
  rewrite lookup_insert_ne by done. apply H.
Qed.
Lemma ds_ok_get_or_add s dom : ds_ok s → ds_ok (get_or_add dom s).
Proof. intros H. unfold get_or_add, ds_add. destruct (s !! dom); [done|]. by apply ds_ok_insert. Qed.
Lemma ds_ok_add s dom c n : ds_ok s → ds_ok (on_domain dom (d_add c n) s).
Proof.
  intros H. unfold on_domain. destruct (s !! dom) as [d|] eqn:E; [|done]. destruct (H _ _ E) as [Hn Hd].
  apply ds_ok_insert; [done|by rewrite d_add_domain|]. intros cmd ns. rewrite d_add_datas. unfold d_get. case_decide as Hc; [subst cmd|apply Hd].
  intros [= <-]. cbn. destruct (d_datas d !! c) as [ns0|] eqn:E0; cbn.
  - destruct (Hd _ _ E0) as [H1 H2]. split; [done|]. intros id m. destruct (decide (n_id n = id)) as [<-|]; [rewrite lookup_insert_eq; by intros [= <-]|].
    rewrite lookup_insert_ne by done. apply H2.
  - split; [done|]. intros id m. destruct (decide (n_id n = id)) as [<-|]; [rewrite lookup_insert_eq; by intros [= <-]|]. by rewrite lookup_insert_ne.
Qed.
Lemma ds_ok_del s dom c id : ds_ok s → ds_ok (on_domain dom (λ d, snd (d_del c id d)) s).
Proof.
  intros H. unfold on_domain. destruct (s !! dom) as [d|] eqn:E; [|done]. destruct (H _ _ E) as [Hn Hd].
  apply ds_ok_insert; [done|by rewrite d_del_domain|]. intros cmd ns [[_ Hc]|(-> & ns0 & Hc & ->)]%d_del_datas; [by apply Hd|].
  destruct (Hd _ _ Hc) as [H1 H2]. destruct (ns_del_datas id ns0) as [-> ->]. split; [done|]. intros i m [_ Hi]%lookup_delete_Some. by apply H2.
Qed.

(** ** diff *)
Lemma cmds_put dom n m d c : c ∈ cmds_of (put_cmd dom n m) d ↔ c ∈ cmds_of m d ∨ (d = dom ∧ c = n).
Proof.
  unfold put_cmd, cmds_of. destruct (decide (d = dom)) as [->|]; [rewrite lookup_insert_eq; cbn; set_solver|].
  rewrite lookup_insert_ne by done. naive_solver.
Qed.
Lemma cmds_put_all dom ns m d c : m !! dom = None → c ∈ cmds_of (put_all dom ns m) d ↔ c ∈ cmds_of m d ∨ (d = dom ∧ c ∈ ns).
Proof.
  intros E. unfold put_all, cmds_of. rewrite E. destruct (decide (d = dom)) as [->|]; [rewrite lookup_insert_eq, E; cbn; set_solver|].
  rewrite lookup_insert_ne by done. naive_solver.
Qed.
Lemma put_cmd_other dom n m d : d ≠ dom → put_cmd dom n m !! d = m !! d.
Proof. intros H. unfold put_cmd. by rewrite lookup_insert_ne. Qed.
Lemma put_all_other dom ns m d : d ≠ dom → put_all dom ns m !! d = m !! d.
Proof. intros H. unfold put_all. case_match; [done|]. by rewrite lookup_insert_ne. Qed.
Lemma put_cmds_spec dom l m d c : c ∈ cmds_of (foldl (λ m n, put_cmd dom n m) m l) d ↔ c ∈ cmds_of m d ∨ (d = dom ∧ c ∈ l).
Proof.
  revert m. induction l as [|n l IH]; intros m; cbn [foldl]; [split; [by left|intros [?|[_ ?%not_elem_of_nil]]; done]|].
  rewrite IH, cmds_put. set_solver.
Qed.

Lemma diff_old_spec new i r d c : r.1 !! i.1 = None →
  (c ∈ cmds_of (diff_old new i r).1 d ↔ c ∈ cmds_of r.1 d ∨ (d = i.1 ∧ c ∈ i.2 ∧ c ∉ cmds_of new d)) ∧
  (c ∈ cmds_of (diff_old new i r).2 d ↔ c ∈ cmds_of r.2 d ∨ (d = i.1 ∧ c ∈ i.2 ∧ c ∈ cmds_of new d)) ∧
  (d ≠ i.1 → (diff_old new i r).1 !! d = r.1 !! d).
Proof.
  destruct i as [dom ns]. cbn [fst snd]. intros E. unfold diff_old. cbn [fst snd]. destruct (new !! dom) as [it|] eqn:En.
  - assert (Ec : cmds_of new dom = it) by (unfold cmds_of; by rewrite En).
    assert (Hg : ∀ l r, let r' := foldl (λ r n, if bool_decide (n ∈ it) then (r.1, put_cmd dom n r.2) else (put_cmd dom n r.1, r.2)) r l in
      (c ∈ cmds_of r'.1 d ↔ c ∈ cmds_of r.1 d ∨ (d = dom ∧ c ∈ l ∧ c ∉ it)) ∧
      (c ∈ cmds_of r'.2 d ↔ c ∈ cmds_of r.2 d ∨ (d = dom ∧ c ∈ l ∧ c ∈ it)) ∧ (d ≠ dom → r'.1 !! d = r.1 !! d)).
    { clear r E. induction l as [|n l IH]; intros r; cbn [foldl]; [set_solver|].
      destruct (IH (if bool_decide (n ∈ it) then (r.1, put_cmd dom n r.2) else (put_cmd dom n r.1, r.2))) as (-> & -> & H3).
      case_bool_decide as Hn; cbn [fst snd] in *; rewrite ?cmds_put; (split_and!; [set_solver|set_solver|]); [done|].
      intros Hd. by rewrite H3, put_cmd_other. }
    destruct (Hg (elements ns) r) as (-> & -> & H3). rewrite elem_of_elements. split_and!; [| |done].
    + split; (intros [?|(-> & H)]; [by left|]); right; [rewrite Ec|rewrite Ec in H]; naive_solver.
    + split; (intros [?|(-> & H)]; [by left|]); right; [rewrite Ec|rewrite Ec in H]; naive_solver.
  - assert (Ec : cmds_of new dom = ∅) by (unfold cmds_of; by rewrite En). cbn [fst snd]. rewrite cmds_put_all by done. split_and!; [| |intros; by apply put_all_other].
    + split; (intros [?|(-> & ?)]; [by left|]); right; [rewrite Ec|]; set_solver.
    + split; [by left|]. intros [?|(-> & _ & Hc)]; [done|]. rewrite Ec in Hc. set_solver.
Qed.
Lemma diff_new_spec old i m d c : m !! i.1 = None →
  (c ∈ cmds_of (diff_new old i m) d ↔ c ∈ cmds_of m d ∨ (d = i.1 ∧ c ∈ i.2 ∧ c ∉ cmds_of old d)) ∧
  (d ≠ i.1 → diff_new old i m !! d = m !! d).
Proof.
  destruct i as [dom ns]. cbn [fst snd]. intros E. unfold diff_new. cbn [fst snd]. destruct (old !! dom) as [it|] eqn:En.
  - assert (Ec : cmds_of old dom = it) by (unfold cmds_of; by rewrite En).
    assert (Hg : ∀ l m, let m' := foldl (λ r n, if bool_decide (n ∈ it) then r else put_cmd dom n r) m l in
      (c ∈ cmds_of m' d ↔ c ∈ cmds_of m d ∨ (d = dom ∧ c ∈ l ∧ c ∉ it)) ∧ (d ≠ dom → m' !! d = m !! d)).
    { clear m E. induction l as [|n l IH]; intros m; cbn [foldl]; [set_solver|].
      destruct (IH (if bool_decide (n ∈ it) then m else put_cmd dom n m)) as (-> & H3).
      case_bool_decide as Hn; rewrite ?cmds_put; (split; [set_solver|]); [done|]. intros Hd. by rewrite H3, put_cmd_other. }
    destruct (Hg (elements ns) m) as (-> & H3). rewrite elem_of_elements. split; [|done].
    split; (intros [?|(-> & H)]; [by left|]); right; [rewrite Ec|rewrite Ec in H]; naive_solver.
  - assert (Ec : cmds_of old dom = ∅) by (unfold cmds_of; by rewrite En). rewrite cmds_put_all by done. split; [|intros; by apply put_all_other].
    split; (intros [?|(-> & ?)]; [by left|]); right; [rewrite Ec|]; set_solver.
Qed.
Section diffs.
Context `{!IterOrder Z, !IterOrder string}.
Lemma diff_spec old new dels news comms d c : diff old new = (dels, news, comms) →
  (c ∈ cmds_of dels d ↔ c ∈ cmds_of old d ∧ c ∉ cmds_of new d) ∧
  (c ∈ cmds_of news d ↔ c ∈ cmds_of new d ∧ c ∉ cmds_of old d) ∧
  (c ∈ cmds_of comms d ↔ c ∈ cmds_of old d ∧ c ∈ cmds_of new d).
Proof.
  unfold diff. destruct (foldl _ (∅, ∅) (order old)) as [x y] eqn:E. intros [= <- <- <-].
  assert (Ho : ∀ l r, NoDup l.*1 → (∀ i, i ∈ l → r.1 !! i.1 = None) →
    let r' := foldl (λ r i, diff_old new i r) r l in
    (c ∈ cmds_of r'.1 d ↔ c ∈ cmds_of r.1 d ∨ ∃ i, i ∈ l ∧ d = i.1 ∧ c ∈ i.2 ∧ c ∉ cmds_of new d) ∧
    (c ∈ cmds_of r'.2 d ↔ c ∈ cmds_of r.2 d ∨ ∃ i, i ∈ l ∧ d = i.1 ∧ c ∈ i.2 ∧ c ∈ cmds_of new d)).
  { clear. induction l as [|i l IH]; intros r Hnd Hr; cbn [foldl]; [set_solver|]. cbn in Hnd. apply list.NoDup_cons in Hnd as [Hi Hnd].
    destruct (diff_old_spec new i r d c) as (S1 & S2 & _); [apply Hr; left|].
    destruct (IH (diff_old new i r) Hnd) as [-> ->].
    { intros j Hj. destruct (diff_old_spec new i r j.1 c) as (_ & _ & S3); [apply Hr; left|]. rewrite S3; [apply Hr; by right|].
      intros Heq. apply Hi. rewrite <- Heq. by apply list_elem_of_fmap_2. }
    rewrite S1, S2. set_solver. }
  assert (Hn : ∀ l m, NoDup l.*1 → (∀ i, i ∈ l → m !! i.1 = None) →
    c ∈ cmds_of (foldl (λ r i, diff_new old i r) m l) d ↔ c ∈ cmds_of m d ∨ ∃ i, i ∈ l ∧ d = i.1 ∧ c ∈ i.2 ∧ c ∉ cmds_of old d).
  { clear. induction l as [|i l IH]; intros m Hnd Hm; cbn [foldl]; [set_solver|]. cbn in Hnd. apply list.NoDup_cons in Hnd as [Hi Hnd].
    destruct (diff_new_spec old i m d c) as (S1 & _); [apply Hm; left|]. rewrite (IH (diff_new old i m) Hnd).
    { rewrite S1. set_solver. }
    intros j Hj. destruct (diff_new_spec old i m j.1 c) as (_ & S3); [apply Hm; left|]. rewrite S3; [apply Hm; by right|].
    intros Heq. apply Hi. rewrite <- Heq. by apply list_elem_of_fmap_2. }
  assert (He : ∀ (m : Cmds) (Q : Prop), (∃ i, i ∈ order m ∧ d = i.1 ∧ c ∈ i.2 ∧ Q) ↔ c ∈ cmds_of m d ∧ Q).
  { intros m Q. unfold cmds_of. split.
    - intros ([k a] & Hi & -> & Hc & HQ). apply order_elem in Hi. cbn in *. rewrite Hi. by split.
    - destruct (m !! d) as [a|] eqn:Ed; cbn; [|set_solver]. intros [Hc HQ]. exists (d, a). by rewrite order_elem. }
  destruct (Ho (order old) (∅, ∅)) as [H1 H2]; [apply order_NoDup|intros; apply lookup_empty|]. rewrite E in H1, H2. cbn [fst snd] in H1, H2.
  rewrite H1, H2, Hn by (apply order_NoDup || (intros; apply lookup_empty)). rewrite !He. unfold cmds_of at 1 3 5. rewrite lookup_empty. cbn. set_solver.
Qed.
End diffs.
