(* ===== verification/NameRegistry.v ===== *)
(** * The name server keeps the registry its sessions ask for *)
From Stdlib Require Import ZArith Lia Strings.String.
From stdpp Require Import base list list_numbers numbers gmap strings.
From S2P Require Import Prelude LoadBalance NameService NameLookup.
Local Open Scope Z_scope.

(** ** set *)
(** The entries under [id] that [K] selects become [v], nothing else changes. *)
Definition writes (ds ds' : NSDomainSet) (K : string → Z → bool) (id : Z) (v : option NSNode) : Prop :=
  (ds_ok ds → ds_ok ds') ∧ ∀ d c i, node_at ds' d c i = if K d c && (i =? id) then v else node_at ds d c i.
Lemma writes_none ds K id v : (∀ d c, K d c = false) → writes ds ds K id v.
Proof. intros H. split; [done|]. intros d c i. by rewrite H. Qed.
Lemma writes_trans ds1 ds2 ds3 K1 K2 K id v : writes ds1 ds2 K1 id v → writes ds2 ds3 K2 id v →
  (∀ d c, K d c = K1 d c || K2 d c) → writes ds1 ds3 K id v.
Proof.
  intros [O1 H1] [O2 H2] HK. split; [auto|]. intros d c i. rewrite H2, H1, HK. by destruct (K1 d c), (K2 d c), (i =? id).
Qed.
Definition entry (l : list (string * gset Z)) (d : string) (c : Z) : bool := existsb (λ i, bool_decide (d = i.1) && bool_decide (c ∈ i.2)) l.
Definition in_cmds (m : Cmds) (d : string) (c : Z) : bool := bool_decide (c ∈ cmds_of m d).

Section sets.
Context `{!IterOrder Z, !IterOrder string}.
Lemma entry_order (m : Cmds) d c : entry (order m) d c = in_cmds m d c.
Proof.
  unfold entry, in_cmds. apply eq_true_iff_eq. rewrite bool_decide_eq_true, existsb_exists. unfold cmds_of. split.
  - intros ([k a] & Hi%list_elem_of_In%order_elem & [->%bool_decide_eq_true Hc%bool_decide_eq_true]%andb_prop). cbn in *. by rewrite Hi.
  - destruct (m !! d) as [a|] eqn:E; cbn; [|set_solver]. intros Hc. exists (d, a). split; [by apply list_elem_of_In, order_elem|].
    cbn. by rewrite !bool_decide_eq_true_2.
Qed.
(** A loop that writes at one command after the other. *)
Lemma cfor_writes {A} (body : A → M module_state unit) (K : A → string → Z → bool) id v (P : NSDomainSet → Prop) l s :
  (∀ a s, a ∈ l → P (m_domains s) → ∃ ds, body a s = Ret tt (set_domains (λ _, ds) s) ∧ writes (m_domains s) ds (K a) id v ∧ P ds) →
  P (m_domains s) →
  ∃ ds, cfor l body s = Ret tt (set_domains (λ _, ds) s) ∧ writes (m_domains s) ds (λ d c, existsb (λ a, K a d c) l) id v ∧ P ds.
Proof.
  revert s. induction l as [|a l IH]; intros s Hb HP.
  { exists (m_domains s). split_and!; [by destruct s|by apply writes_none|done]. }
  destruct (Hb a s ltac:(left) HP) as (ds1 & E1 & W1 & P1). cbn [cfor]. rewrite (cbind_Ret _ _ _ _ _ E1).
  destruct (IH (set_domains (λ _, ds1) s)) as (ds2 & E2 & W2 & P2); [intros b s' Hin; apply Hb; by right|done|].
  exists ds2. split_and!; [exact E2| |done]. by eapply writes_trans; [exact W1|exact W2|].
Qed.
Lemma existsb_cmd (dom : string) (l : list Z) (d : string) (c : Z) : existsb (λ n, bool_decide (d = dom) && bool_decide (c = n)) l = bool_decide (d = dom) && bool_decide (c ∈ l).
Proof.
  induction l as [|n l IH]; cbn [existsb]; [rewrite (bool_decide_eq_false_2 (c ∈ [])), andb_false_r by apply not_elem_of_nil; done|].
  rewrite IH, (bool_decide_ext (c ∈ n :: l) (c = n ∨ c ∈ l)), bool_decide_or by apply elem_of_cons. by destruct (bool_decide (d = dom)).
Qed.
Lemma del_cmds_writes o i s :
  ∃ ds, del_cmds (Some o) i s = Ret tt (set_domains (λ _, ds) s) ∧
    writes (m_domains s) ds (λ d c, bool_decide (d = i.1) && bool_decide (c ∈ i.2)) (n_id (ci_node o)) None.
Proof.
  unfold del_cmds. rewrite (cbind_Ret _ _ _ _ _ (eq_refl : cget s = Ret s s)). destruct (m_domains s !! i.1) eqn:Ed.
  - destruct (cfor_writes (λ c, let! o := cderef (Some o) in cmodify (set_domains (on_domain i.1 (λ d, snd (d_del c (n_id (ci_node o)) d)))))
      (λ n d c, bool_decide (d = i.1) && bool_decide (c = n)) (n_id (ci_node o)) None (λ _, True) (elements i.2) s) as (ds & E & [O W] & _); [|done|].
    { intros c s' _ _. exists (on_domain i.1 (λ d, snd (d_del c (n_id (ci_node o)) d)) (m_domains s')). split_and!; [done| |done]. split; [apply ds_ok_del|].
      intros d' c' id'. rewrite node_at_del. destruct (decide _) as [(-> & -> & ->)|Hn].
      - by rewrite !bool_decide_eq_true_2, Z.eqb_refl.
      - repeat case_bool_decide; destruct (Z.eqb_spec id' (n_id (ci_node o))); naive_solver. }
    exists ds. split; [done|]. split; [done|]. intros d c id'. rewrite W, existsb_cmd.
    by rewrite (bool_decide_ext (c ∈ elements i.2) (c ∈ i.2)) by apply elem_of_elements.
  - exists (m_domains s). split; [by destruct s|]. split; [done|]. intros d c id'. case_bool_decide as Hd; [|done]. subst d.
    destruct (_ && _); [|done]. unfold node_at. by rewrite Ed.
Qed.
Lemma add_cmds_writes v i s :
  ∃ ds, add_cmds (Some v) i s = Ret tt (set_domains (λ _, ds) s) ∧
    writes (m_domains s) ds (λ d c, bool_decide (d = i.1) && bool_decide (c ∈ i.2)) (n_id (ci_node v)) (Some (ci_node v)).
Proof.
  unfold add_cmds. rewrite (cbind_Ret _ _ _ _ _ (eq_refl : cmodify (set_domains (get_or_add i.1)) s = Ret tt _)).
  destruct (cfor_writes (λ c, let! v := cderef (Some v) in cmodify (set_domains (on_domain i.1 (d_add c (ci_node v)))))
    (λ n d c, bool_decide (d = i.1) && bool_decide (c = n)) (n_id (ci_node v)) (Some (ci_node v)) (λ ds, is_Some (ds !! i.1)) (elements i.2)
    (set_domains (get_or_add i.1) s)) as (ds & E & [O W] & _); [|apply get_or_add_present|].
  { intros c s' _ Hp. exists (on_domain i.1 (d_add c (ci_node v)) (m_domains s')). split_and!; [done| |by apply on_domain_present]. split; [apply ds_ok_add|].
    intros d' c' id'. rewrite node_at_add by done. destruct (decide _) as [(-> & -> & ->)|Hn].
    - by rewrite !bool_decide_eq_true_2, Z.eqb_refl.
    - repeat case_bool_decide; destruct (Z.eqb_spec id' (n_id (ci_node v))); naive_solver. }
  exists ds. split; [done|]. split; [intros Hok; by apply O, ds_ok_get_or_add|]. intros d c id'. rewrite W, existsb_cmd. cbn. rewrite node_at_get_or_add.
  by rewrite (bool_decide_ext (c ∈ elements i.2) (c ∈ i.2)) by apply elem_of_elements.
Qed.
Lemma del_loop o (m : Cmds) s : ∃ ds, cfor (order m) (del_cmds (Some o)) s = Ret tt (set_domains (λ _, ds) s) ∧
  writes (m_domains s) ds (in_cmds m) (n_id (ci_node o)) None.
Proof.
  destruct (cfor_writes (del_cmds (Some o)) (λ i d c, bool_decide (d = i.1) && bool_decide (c ∈ i.2)) (n_id (ci_node o)) None (λ _, True) (order m) s)
    as (ds & E & [O W] & _); [|done|]; [intros i s' _ _; destruct (del_cmds_writes o i s') as (ds & E & W); by exists ds|].
  exists ds. split; [done|]. split; [done|]. intros d c i. rewrite W. change (existsb _ _) with (entry (order m) d c). by rewrite entry_order.
Qed.
Lemma add_loop v (m : Cmds) s : ∃ ds, cfor (order m) (add_cmds (Some v)) s = Ret tt (set_domains (λ _, ds) s) ∧
  writes (m_domains s) ds (in_cmds m) (n_id (ci_node v)) (Some (ci_node v)).
Proof.
  destruct (cfor_writes (add_cmds (Some v)) (λ i d c, bool_decide (d = i.1) && bool_decide (c ∈ i.2)) (n_id (ci_node v)) (Some (ci_node v)) (λ _, True) (order m) s)
    as (ds & E & [O W] & _); [|done|]; [intros i s' _ _; destruct (add_cmds_writes v i s') as (ds & E & W); by exists ds|].
  exists ds. split; [done|]. split; [done|]. intros d c i. rewrite W. change (existsb _ _) with (entry (order m) d c). by rewrite entry_order.
Qed.
Lemma order_empty {K A} `{Countable K, !IterOrder K} : order (∅ : gmap K A) = [].
Proof. apply Permutation_nil. rewrite order_perm. by rewrite map_to_list_empty. Qed.
Lemma diff_from_none new : ∃ news, diff ∅ new = (∅, news, ∅).
Proof. unfold diff. rewrite order_empty. by eexists. Qed.
Lemma diff_to_none old : ∃ dels, diff old ∅ = (dels, ∅, ∅).
Proof.
  unfold diff. rewrite (order_empty (K := string)). assert (H : ∀ l r, (foldl (λ r i, diff_old ∅ i r) r l).2 = r.2).
  { induction l as [|i l IH]; intros r; [done|]. cbn [foldl]. rewrite IH. unfold diff_old. by rewrite lookup_empty. }
  specialize (H (order old) (∅, ∅)). destruct (foldl _ _ _) as [dels comms]. cbn in H. subst. by exists dels.
Qed.

(** What set leaves under a key, given what was there. *)
Definition set_result (old new : option NSClientInfo) (cur : option NSNode) (d : string) (c i : Z) : option NSNode :=
  match old, new with
  | None, None => cur
  | Some o, None => if in_cmds (ci_domain2cmds o) d c && (i =? n_id (ci_node o)) then None else cur
  | None, Some v => if in_cmds (ci_domain2cmds v) d c && (i =? n_id (ci_node v)) then Some (ci_node v) else cur
  | Some o, Some v =>
    if i =? n_id (ci_node v) then
      if in_cmds (ci_domain2cmds v) d c then
        if in_cmds (ci_domain2cmds o) d c && (n_weight (ci_node o) =? n_weight (ci_node v)) then cur else Some (ci_node v)
      else if in_cmds (ci_domain2cmds o) d c then None else cur
    else cur
  end.
Lemma in_cmds_diff old new dels news comms d c : diff old new = (dels, news, comms) →
  in_cmds dels d c = in_cmds old d c && negb (in_cmds new d c) ∧ in_cmds news d c = in_cmds new d c && negb (in_cmds old d c) ∧
  in_cmds comms d c = in_cmds old d c && in_cmds new d c.
Proof.
  intros E. destruct (diff_spec old new dels news comms d c E) as (H1 & H2 & H3). unfold in_cmds.
  split_and!; apply eq_true_iff_eq; rewrite bool_decide_eq_true, andb_true_iff, ?negb_true_iff, ?bool_decide_eq_true, ?bool_decide_eq_false; done.
Qed.
Lemma ns_set_spec connected rs new s (old := m_sessions s !! rs) (new' := if connected : bool then new else None) :
  (∀ o v, old = Some o → new' = Some v → n_id (ci_node o) = n_id (ci_node v)) →
  ∃ ds, ns_set connected rs new s =
    Ret tt (set_sessions (λ m, match new' with Some v => <[rs := v]> m | None => delete rs m end) (set_domains (λ _, ds) s)) ∧
    (ds_ok (m_domains s) → ds_ok ds) ∧ ∀ d c i, node_at ds d c i = set_result old new' (node_at (m_domains s) d c i) d c i.
Proof.
  intros Hid. unfold ns_set. fold new'. unfold creads at 1. unfold cbind at 1. unfold get_session. fold old.
  destruct old as [o|] eqn:Eo, new' as [v|] eqn:Ev; cbn [fmap option_fmap option_map default id].
  - destruct (diff (ci_domain2cmds o) (ci_domain2cmds v)) as [[dels news] comms] eqn:Ed.
    destruct (del_loop o dels s) as (ds1 & E1 & O1 & W1). rewrite (cbind_Ret _ _ _ _ _ E1).
    destruct (add_loop v news (set_domains (λ _, ds1) s)) as (ds2 & E2 & O2 & W2). rewrite (cbind_Ret _ _ _ _ _ E2). cbn in O2, W2.
    specialize (Hid o v eq_refl eq_refl).
    assert (∃ ds3, (if bool_decide (comms = ∅) then cret tt
      else let! o := cderef (Some o) in let! v := cderef (Some v) in
        if n_weight (ci_node o) =? n_weight (ci_node v) then cret tt else cfor (order comms) (add_cmds (Some v)))
      (set_domains (λ _, ds2) (set_domains (λ _, ds1) s)) = Ret tt (set_domains (λ _, ds3) s) ∧
      writes ds2 ds3 (λ d c, in_cmds comms d c && negb (n_weight (ci_node o) =? n_weight (ci_node v))) (n_id (ci_node v)) (Some (ci_node v)))
      as (ds3 & E3 & O3 & W3).
    { case_bool_decide as Hc.
      - exists ds2. split; [done|]. apply writes_none. intros d c. subst comms. unfold in_cmds, cmds_of. by rewrite lookup_empty.
      - unfold cderef at 1. cbn. unfold cbind, cret. destruct (_ =? _).
        + exists ds2. split; [done|]. apply writes_none. intros d c. by rewrite andb_false_r.
        + destruct (add_loop v comms (set_domains (λ _, ds2) (set_domains (λ _, ds1) s))) as (ds3 & E3 & O3 & W3). exists ds3. split; [done|].
          split; [exact O3|]. intros d c i. rewrite W3. by rewrite andb_true_r. }
    rewrite (cbind_Ret _ _ _ _ _ E3). exists ds3. split; [done|]. split; [auto|]. intros d c i. rewrite W3, W2, W1.
    destruct (in_cmds_diff _ _ _ _ _ d c Ed) as (-> & -> & ->). cbn [set_result]. rewrite Hid.
    by destruct (i =? _), (in_cmds (ci_domain2cmds o) d c), (in_cmds (ci_domain2cmds v) d c), (_ =? _).
  - destruct (diff_to_none (ci_domain2cmds o)) as [dels Ed]. rewrite Ed. destruct (del_loop o dels s) as (ds1 & E1 & O1 & W1).
    rewrite (cbind_Ret _ _ _ _ _ E1), order_empty. cbn [cfor]. unfold cret at 1, cbind at 1. rewrite bool_decide_eq_true_2 by done. exists ds1.
    split; [done|]. split; [done|]. intros d c i. rewrite W1. destruct (in_cmds_diff _ _ _ _ _ d c Ed) as (-> & _). cbn [set_result].
    unfold in_cmds at 2, cmds_of. rewrite lookup_empty. by rewrite andb_true_r.
  - destruct (diff_from_none (ci_domain2cmds v)) as [news Ed]. rewrite Ed, order_empty. cbn [cfor]. unfold cret at 1, cbind at 1.
    destruct (add_loop v news s) as (ds1 & E1 & O1 & W1). rewrite (cbind_Ret _ _ _ _ _ E1). rewrite bool_decide_eq_true_2 by done. exists ds1.
    split; [done|]. split; [done|]. intros d c i. rewrite W1. destruct (in_cmds_diff _ _ _ _ _ d c Ed) as (_ & -> & _). cbn [set_result].
    unfold in_cmds at 2, cmds_of. rewrite lookup_empty. by rewrite andb_true_r.
  - destruct (diff_from_none ∅) as [news Ed]. destruct (diff_to_none ∅) as [dels Ed']. rewrite Ed in Ed'. injection Ed' as _ ->. rewrite Ed.
    rewrite !order_empty. cbn [cfor]. unfold cret, cbind. rewrite bool_decide_eq_true_2 by done. exists (m_domains s). split; [by destruct s|]. by split.
Qed.
End sets.

(** ** Histories of a server *)
Section registry.
Context `{!IterOrder Z, !IterOrder string} (inet_addr : string → Z).
(** What reaches the module: a request on a stream that is or is no longer
    connected, a new connection, the end of one. *)
Inductive nsevent := NRequest (connected : bool) (rs : nat) (r : ns_request) | NConnect (is_rock : bool) | NDisconnect (is_rock connected : bool) (rs : nat).
Definition ns_exec (e : nsevent) : M module_state (bool * answer_of) :=
  match e with
  | NRequest connected rs r => handleRockRequest inet_addr connected rs r
  | NConnect is_rock => let! b := onConnect is_rock in cret (b, Untouched)
  | NDisconnect is_rock connected rs => let! b := onDisconnect is_rock connected rs in cret (b, Untouched)
  end.
(** What a request registers, if it is accepted. *)
Definition registers (e : nsevent) (s : module_state) : option (nat * NSClientInfo) :=
  match e with
  | NRequest true rs r =>
    if nr_cmd r =? REGISTER then
      infos ← nr_register r; v ← register_infos inet_addr (m_sessions s !! rs) infos None; v ← v; Some (rs, v)
    else None
  | _ => None
  end.
(** No two sessions register the same address. *)
Definition honest (e : nsevent) (s : module_state) : Prop :=
  ∀ rs v rs' info, registers e s = Some (rs, v) → m_sessions s !! rs' = Some info → n_id (ci_node info) = n_id (ci_node v) → rs' = rs.
Inductive ns_reach : module_state → Prop :=
  | ns_reach_new : ns_reach NameServerModule_new
  | ns_reach_step s e r s' : ns_reach s → honest e s → ns_exec e s = Ret r s' → ns_reach s'.

(** A node as the constructor makes it, with an address. *)
Definition node_ok (n : NSNode) : Prop := n_id n = node_GetID inet_addr (n_ip n) (n_port n) ∧ in_u 16 (n_port n) ∧ has_addr n = true.
Definition serves (s : module_state) (d : string) (c i : Z) (w : Z) : Prop :=
  ∃ rs info, m_sessions s !! rs = Some info ∧ n_id (ci_node info) = i ∧ n_weight (ci_node info) = w ∧ c ∈ cmds_of (ci_domain2cmds info) d.
Record RegInv (s : module_state) : Prop := {
  r_ok : ds_ok (m_domains s);
  r_listed : ∀ d c i w, serves s d c i w → ∃ n, node_at (m_domains s) d c i = Some n ∧ n_weight n = w;
  r_only : ∀ d c i n, node_at (m_domains s) d c i = Some n → serves s d c i (n_weight n);
  r_unique : ∀ rs1 rs2 i1 i2, m_sessions s !! rs1 = Some i1 → m_sessions s !! rs2 = Some i2 → n_id (ci_node i1) = n_id (ci_node i2) → rs1 = rs2;
  r_nodes : ∀ d c i n, node_at (m_domains s) d c i = Some n → node_ok n;
  r_sessions : ∀ rs info, m_sessions s !! rs = Some info → node_ok (ci_node info)
}.

Lemma NSNode_new_ok ip port weight : has_addr (NSNode_new inet_addr ip port weight) = true → node_ok (NSNode_new inet_addr ip port weight).
Proof. intros H. split_and!; [done|by apply uwrap_range|done]. Qed.
Lemma register_infos_ok old infos new v : register_infos inet_addr old infos new = Some (Some v) →
  (∀ v0, new = Some v0 → node_ok (ci_node v0) ∧ ∀ o, old = Some o → n_id (ci_node o) = n_id (ci_node v0)) →
  node_ok (ci_node v) ∧ ∀ o, old = Some o → n_id (ci_node o) = n_id (ci_node v).
Proof.
  revert new. induction infos as [|info infos IH]; intros new; cbn [register_infos]; [intros [= ->] H; by apply H|].
  destruct (ri_node info) as [node|], (ri_domain info) as [dom|]; try done. destruct (_ =? 0)%nat; [done|].
  destruct (p_ip node) as [ip|], (p_port node) as [port|], (p_weight node) as [weight|]; try done.
  destruct (negb (has_addr _)) eqn:Ha; [done|]. apply negb_false_iff in Ha.
  destruct old as [o|].
  - destruct (negb (n_id (ci_node o) =? _)) eqn:Eo; [done|]. apply negb_false_iff, Z.eqb_eq in Eo.
    destruct new as [v0|]; cbn [default id].
    + destruct (negb _); [done|]. intros H Hnew. apply (IH _ H). intros ? [= <-]. cbn. by apply Hnew.
    + intros H _. apply (IH _ H). intros ? [= <-]. cbn. split; [by apply NSNode_new_ok|]. intros ? [= <-]. done.
  - destruct new as [v0|]; cbn [default id].
    + destruct (negb _); [done|]. intros H Hnew. apply (IH _ H). intros ? [= <-]. cbn. by apply Hnew.
    + intros H _. apply (IH _ H). intros ? [= <-]. cbn. split; [by apply NSNode_new_ok|]. done.
Qed.

(** The registry after set keeps the invariant. *)
Lemma RegInv_set s rs new ds : RegInv s → (∀ v, new = Some v → node_ok (ci_node v)) →
  (∀ o v, m_sessions s !! rs = Some o → new = Some v → n_id (ci_node o) = n_id (ci_node v)) →
  (∀ v rs' info, new = Some v → m_sessions s !! rs' = Some info → n_id (ci_node info) = n_id (ci_node v) → rs' = rs) →
  ds_ok ds → (∀ d c i, node_at ds d c i = set_result (m_sessions s !! rs) new (node_at (m_domains s) d c i) d c i) →
  RegInv (set_sessions (λ m, match new with Some v => <[rs := v]> m | None => delete rs m end) (set_domains (λ _, ds) s)).
Proof.
  intros [H1 H2 H3 H4 H5 H6] Hnew Hid Hun Hok Hds.
  set (m' := match new with Some v => <[rs := v]> (m_sessions s) | None => delete rs (m_sessions s) end).
  assert (Hm : ∀ rs' info, m' !! rs' = Some info ↔ (rs' = rs ∧ new = Some info) ∨ (rs' ≠ rs ∧ m_sessions s !! rs' = Some info)).
  { intros rs' info. unfold m'. destruct new as [v|].
    - destruct (decide (rs' = rs)) as [->|]; [rewrite lookup_insert_eq|rewrite lookup_insert_ne by done]; naive_solver.
    - rewrite lookup_delete_Some. naive_solver. }
  assert (Hother : ∀ rs' info o, m_sessions s !! rs = Some o → m_sessions s !! rs' = Some info → n_id (ci_node info) = n_id (ci_node o) → rs' = rs) by (intros; by eapply H4).
  split; cbn [m_domains m_sessions set_sessions set_domains]; fold m'; [done| | | | |].
  - intros d c i w (rs' & info & Hs & Ei & Ew & Hc). cbn in Hs. fold m' in Hs. rewrite Hds. apply Hm in Hs as [[-> ->]|[Hne Hs]].
    + assert (Hc' : in_cmds (ci_domain2cmds info) d c = true) by (by apply bool_decide_eq_true).
      destruct (m_sessions s !! rs) as [o|] eqn:Eo; cbn [set_result].
      * rewrite Hc', (proj2 (Z.eqb_eq _ _)) by done. destruct (in_cmds (ci_domain2cmds o) d c) eqn:Eco; cbn; [|by exists (ci_node info)].
        destruct (Z.eqb_spec (n_weight (ci_node o)) (n_weight (ci_node info))) as [Ew'|]; [|by exists (ci_node info)].
        apply H2. exists rs, o. split_and!; [done|rewrite <- Ei; by apply Hid|congruence|by apply bool_decide_eq_true in Eco].
      * rewrite Hc', (proj2 (Z.eqb_eq _ _)) by done. cbn. by exists (ci_node info).
    + assert (Hsv : serves s d c i w) by (by exists rs', info). destruct (H2 d c i w Hsv) as (n & Hn & Hw). exists n. split; [|done].
      rewrite Hn. destruct (m_sessions s !! rs) as [o|] eqn:Eo, new as [v|]; cbn [set_result]; [| | |done].
      * destruct (Z.eqb_spec i (n_id (ci_node v))) as [E|]; [|done]. exfalso. apply Hne. eapply Hun; [done|done|congruence].
      * destruct (Z.eqb_spec i (n_id (ci_node o))) as [E|]; [|by rewrite andb_false_r]. exfalso. apply Hne. eapply Hother; [done|done|congruence].
      * destruct (Z.eqb_spec i (n_id (ci_node v))) as [E|]; [|by rewrite andb_false_r]. exfalso. apply Hne. eapply Hun; [done|done|congruence].
  - intros d c i n. rewrite Hds. intros Hn.
    assert (Hold : node_at (m_domains s) d c i = Some n → (∀ o, m_sessions s !! rs = Some o → n_id (ci_node o) = i → in_cmds (ci_domain2cmds o) d c = true →
      ∃ v, new = Some v ∧ n_weight (ci_node v) = n_weight (ci_node o) ∧ in_cmds (ci_domain2cmds v) d c = true) →
      serves (set_sessions (λ m, match new with Some v => <[rs := v]> m | None => delete rs m end) (set_domains (λ _, ds) s)) d c i (n_weight n)).
    { intros Hcur Hk. destruct (H3 _ _ _ _ Hcur) as (rs' & info & Hs & Ei & Ew & Hc). destruct (decide (rs' = rs)) as [->|Hne].
      - destruct (Hk info Hs Ei ltac:(by apply bool_decide_eq_true)) as (v & -> & Ew' & Hc'). exists rs, v. cbn. fold m'. rewrite Hm.
        split_and!; [by left|rewrite <- Ei; symmetry; by eapply Hid|congruence|by apply bool_decide_eq_true in Hc'].
      - exists rs', info. cbn. fold m'. rewrite Hm. split_and!; [by right|done|done|done]. }
    destruct (m_sessions s !! rs) as [o|] eqn:Eo, new as [v|]; cbn [set_result] in Hn.
    + destruct (Z.eqb_spec i (n_id (ci_node v))) as [Ev|Hne]; [|apply Hold; [done|]; intros o' [= <-] E; exfalso; apply Hne; rewrite <- E; by apply Hid].
      destruct (in_cmds (ci_domain2cmds v) d c) eqn:Ecv.
      * destruct (in_cmds (ci_domain2cmds o) d c && _) eqn:Eb.
        -- apply andb_prop in Eb as [_ Ew%Z.eqb_eq]. apply Hold; [done|]. intros o' [= <-] _ _. by exists v.
        -- injection Hn as <-. exists rs, v. cbn. fold m'. rewrite Hm. split_and!; [by left|done|done|by apply bool_decide_eq_true in Ecv].
      * destruct (in_cmds (ci_domain2cmds o) d c) eqn:Eco; [done|]. apply Hold; [done|]. intros o' [= <-] _ ?. congruence.
    + destruct (in_cmds (ci_domain2cmds o) d c && _) eqn:Eb; [done|]. apply Hold; [done|]. intros o' [= <-] Ei Hc. rewrite Hc, <- Ei, Z.eqb_refl in Eb. done.
    + destruct (in_cmds (ci_domain2cmds v) d c && _) eqn:Eb.
      * injection Hn as <-. apply andb_prop in Eb as [Hc Ei%Z.eqb_eq]. exists rs, v. cbn. fold m'. rewrite Hm.
        split_and!; [by left|done|done|by apply bool_decide_eq_true in Hc].
      * by apply Hold.
    + by apply Hold.
  - intros rs1 rs2 i1 i2 E1 E2 Ei. apply Hm in E1 as [[-> E1]|[N1 E1]], E2 as [[-> E2]|[N2 E2]]; [done| | |by eapply H4].
    + symmetry. eapply Hun; [done|done|congruence].
    + eapply Hun; [done|done|congruence].
  - intros d c i n. rewrite Hds. intros Hn. unfold set_result in Hn. repeat case_match; simplify_eq; eauto.
  - intros rs' info [[-> ->]|[_ Hs]]%Hm; eauto.
Qed.

(** The sessions after an event. *)
Definition sessions_spec (e : nsevent) (s : module_state) : gmap nat NSClientInfo :=
  match e with
  | NRequest connected rs r =>
    if nr_cmd r =? REGISTER then
      match infos ← nr_register r; register_infos inet_addr (m_sessions s !! rs) infos None with
      | Some v => match (if connected then v else None) with Some v => <[rs := v]> (m_sessions s) | None => delete rs (m_sessions s) end
      | None => m_sessions s
      end
    else m_sessions s
  | NDisconnect true _ rs => delete rs (m_sessions s)
  | _ => m_sessions s
  end.
Lemma RegInv_same s s' : m_domains s' = m_domains s → m_sessions s' = m_sessions s → RegInv s → RegInv s'.
Proof. intros E1 E2 [H1 H2 H3 H4 H5 H6]. split; unfold serves in *; rewrite ?E1, ?E2; done. Qed.
Lemma ns_set_inv connected rs new s : RegInv s → (∀ v, new = Some v → node_ok (ci_node v)) →
  (∀ o v, m_sessions s !! rs = Some o → new = Some v → n_id (ci_node o) = n_id (ci_node v)) →
  (∀ v rs' info, (if connected : bool then new else None) = Some v → m_sessions s !! rs' = Some info → n_id (ci_node info) = n_id (ci_node v) → rs' = rs) →
  ∃ s', ns_set connected rs new s = Ret tt s' ∧ RegInv s' ∧
    m_sessions s' = match (if connected then new else None) with Some v => <[rs := v]> (m_sessions s) | None => delete rs (m_sessions s) end.
Proof.
  intros H Hn Hid Hun. assert (Hsub : ∀ v, (if connected then new else None) = Some v → new = Some v) by (by destruct connected).
  destruct (ns_set_spec connected rs new s) as (ds & E & O & W); [intros; eauto|].
  eexists. split; [exact E|]. split; [|done]. apply RegInv_set; [done|eauto|intros; eauto|done|apply O, H|exact W].
Qed.
Lemma ns_exec_inv e s : RegInv s → honest e s → ∃ r s', ns_exec e s = Ret r s' ∧ RegInv s' ∧ m_sessions s' = sessions_spec e s.
Proof.
  intros H Hh. destruct e as [connected rs r|is_rock|is_rock connected rs]; cbn [ns_exec sessions_spec].
  - unfold handleRockRequest. rewrite (cbind_Ret _ _ _ _ _ (eq_refl : cmodify inc_requests s = Ret tt (inc_requests s))).
    assert (H' : RegInv (inc_requests s)) by (by eapply RegInv_same, H).
    destruct (nr_cmd r =? REGISTER) eqn:Er.
    + unfold handleRegister. destruct (nr_register r) as [infos|] eqn:Ei; cbn [mbind option_bind]; [|by eexists _, _].
      unfold creads at 1, cbind at 1, get_session. cbn [m_sessions inc_requests].
      destruct (register_infos inet_addr (m_sessions s !! rs) infos None) as [new|] eqn:Ereg; [|by eexists _, _].
      assert (Hv : ∀ v, new = Some v → node_ok (ci_node v) ∧ ∀ o, m_sessions s !! rs = Some o → n_id (ci_node o) = n_id (ci_node v)).
      { intros v ->. by eapply register_infos_ok. }
      destruct (ns_set_inv connected rs new (inc_requests s) H') as (s' & E & Hi & Hs).
      * intros v Ev. by apply Hv.
      * intros o v Eo Ev. by apply (Hv v Ev).
      * intros v rs' info Ev Hs. eapply Hh; [|done]. unfold registers. destruct connected; [|done]. rewrite Er, Ei. cbn. by rewrite Ereg, Ev.
      * rewrite (cbind_Ret _ _ _ _ _ E). by eexists _, _.
    + unfold handleQuery, handleTick. destruct (nr_cmd r =? QUERY); [|destruct (nr_cmd r =? TICK); by eexists _, _]. destruct (nr_query r); by eexists _, _.
  - by eexists _, _; split_and!; [done|eapply RegInv_same, H|].
  - unfold onDisconnect. rewrite cbind_assoc. rewrite (cbind_Ret _ _ _ _ _ (eq_refl : cmodify inc_disconnect s = Ret tt (inc_disconnect s))).
    assert (H' : RegInv (inc_disconnect s)) by (by eapply RegInv_same, H). destruct is_rock; [|by eexists _, _].
    destruct (ns_set_inv connected rs None (inc_disconnect s) H') as (s' & E & Hi & Hs); [done|done|by destruct connected|].
    rewrite cbind_assoc, (cbind_Ret _ _ _ _ _ E). eexists _, _. split_and!; [done|done|]. rewrite Hs. by destruct connected.
Qed.
Lemma ns_reach_inv s : ns_reach s → RegInv s.
Proof.
  induction 1 as [|s e r s' _ IH Hh E].
  - split; cbn; [apply ds_ok_empty|by intros ???? (? & ? & ? & _)|intros d c i n|by intros|intros d c i n|by intros]; unfold node_at; by rewrite lookup_empty.
  - destruct (ns_exec_inv e s IH Hh) as (r' & s1 & E' & Hi & _). rewrite E in E'. by injection E' as <- <-.
Qed.

(** C20: The registry of a name server is what its sessions registered: as
    long as no two streams register the same address, after every history of
    registrations, queries, connections and disconnections the next event is
    handled without a null pointer, leaves the sessions it asks for (a
    request that is refused leaves them alone, a registration without
    entries or on a closed stream removes the session), and the registry
    lists a node for a command of a domain, with a weight, exactly when a
    session with that address and weight registered it. *)
Theorem registry_tracks_sessions (s : module_state) (e : nsevent) : ns_reach s → honest e s →
  ∃ r s', ns_exec e s = Ret r s' ∧ m_sessions s' = sessions_spec e s ∧
    ∀ d c i w, (∃ n, node_at (m_domains s') d c i = Some n ∧ n_weight n = w) ↔ serves s' d c i w.
Proof.
  intros Hr Hh. destruct (ns_exec_inv e s (ns_reach_inv s Hr) Hh) as (r & s' & E & Hi & Hs). exists r, s'. split_and!; [done|done|].
  intros d c i w. split; [intros (n & Hn & <-); by eapply r_only|by apply r_listed].
Qed.
End registry.
