(* ===== verification/NameClient.v ===== *)
(** * The client of the name service mirrors the server

    NodeService/ns_client.cc against the answers of the server: after a
    query the client holds exactly the part of the registry it asked for,
    and a notification changes what it names. Examples of both at the end. *)
From Stdlib Require Import ZArith Lia Strings.String.
From stdpp Require Import base list list_numbers numbers gmap strings.
From S2P Require Import Prelude LoadBalance NameService NameLookup NameRegistry.
Local Open Scope Z_scope.

Section mirror.
Context `{!IterOrder Z, !IterOrder string} (inet_addr : string → Z).
Implicit Types (s acc : NSDomainSet) (d : string) (c i : Z).

Definition triple (n : NSNode) : string * Z * Z := (n_ip n, n_port n, n_weight n).
Lemma triple_new n : node_ok inet_addr n → NSNode_new inet_addr (n_ip n) (n_port n) (n_weight n) = n.
Proof. intros (E & Hp & _). unfold NSNode_new. rewrite uwrap_id by done. destruct n. cbn in *. by rewrite E. Qed.

(** An entry of an answer that says what [s] says. *)
Definition from_set s (x : NodeInfo) : Prop :=
  ∀ t, t ∈ ni_nodes x → ∃ n, node_at s (ni_domain x) (ni_cmd x) (n_id n) = Some n ∧ node_ok inet_addr n ∧ t = triple n.
Lemma query_infos_from s domains x : ds_ok s → (∀ d c i n, node_at s d c i = Some n → node_ok inet_addr n) →
  x ∈ query_infos domains s → ni_domain x ∈ domains ∧ from_set s x.
Proof.
  intros Hok Hn Hx. unfold query_infos, ds_listAll in Hx. apply list_elem_of_bind in Hx as (d & Hx & Hd).
  apply list_elem_of_fmap in Hd as ([name d'] & -> & Hd). apply order_elem, map_lookup_filter_Some in Hd as [Hd Hin]. cbn in *.
  apply list_elem_of_fmap in Hx as (ns & -> & Hns). apply list_elem_of_fmap in Hns as ([cmd ns'] & -> & Hns). apply order_elem in Hns. cbn in *.
  destruct (Hok _ _ Hd) as [<- Hcm]. destruct (Hcm _ _ Hns) as [<- Hid]. split; [done|]. intros t Ht. cbn in *.
  apply list_elem_of_fmap in Ht as (n & -> & Hnn). apply list_elem_of_fmap in Hnn as ([id n'] & -> & Hnn). apply order_elem in Hnn. cbn in *.
  assert (Hat : node_at s (d_domain d') (ns_cmd ns') id = Some n') by (unfold node_at, d_get, ns_get; rewrite Hd; cbn; rewrite Hns; cbn; done).
  exists n'. rewrite (Hid _ _ Hnn). split_and!; [done|by eapply Hn|done].
Qed.
Lemma query_infos_all s domains d c i n : ds_ok s → d ∈ domains → node_at s d c i = Some n →
  ∃ x, x ∈ query_infos domains s ∧ ni_domain x = d ∧ ni_cmd x = c ∧ triple n ∈ ni_nodes x.
Proof.
  intros Hok Hin Hat. unfold node_at, d_get, ns_get in Hat. destruct (s !! d) as [dd|] eqn:Ed; [|done]. cbn in Hat.
  destruct (d_datas dd !! c) as [ns|] eqn:Ec; [|done]. cbn in Hat. destruct (Hok _ _ Ed) as [Hd Hcm]. destruct (Hcm _ _ Ec) as [Hc _].
  exists (node_info dd ns). split_and!; [|done|done|].
  - unfold query_infos, ds_listAll. apply list_elem_of_bind. exists dd. split.
    + apply list_elem_of_fmap_2. unfold d_listAll. apply list_elem_of_fmap. exists (c, ns). split; [done|]. by apply order_elem.
    + apply list_elem_of_fmap. exists (d, dd). split; [done|]. apply order_elem, map_lookup_filter_Some. done.
  - apply list_elem_of_fmap. exists n. split; [done|]. apply list_elem_of_fmap. exists (i, n). split; [done|]. by apply order_elem.
Qed.

(** What a client has gathered: part of [s], in the domains [Q]. *)
Definition part_of (Q : gset string) s acc : Prop := ∀ d c i n, node_at acc d c i = Some n → d ∈ Q ∧ node_at s d c i = Some n.
Lemma add_nodes_part Q s d c ts acc : d ∈ Q → is_Some (acc !! d) → part_of Q s acc →
  (∀ t, t ∈ ts → ∃ n, node_at s d c (n_id n) = Some n ∧ node_ok inet_addr n ∧ t = triple n) →
  let acc' := add_nodes inet_addr d c ts acc in
  part_of Q s acc' ∧ (∀ d' c' i' n', node_at acc d' c' i' = Some n' → node_at acc' d' c' i' = Some n') ∧
  ∀ n, node_at s d c (n_id n) = Some n → node_ok inet_addr n → triple n ∈ ts → node_at acc' d c (n_id n) = Some n.
Proof.
  intros HQ. revert acc. induction ts as [|t ts IH]; intros acc Hp Hpart Hts; cbn [add_nodes foldl]; [split_and!; [done|done|by intros ??? ?%not_elem_of_nil]|].
  destruct (Hts t ltac:(left)) as (n & Hn & Hok & ->). cbn [triple]. rewrite (triple_new n Hok). destruct Hok as (Hid & Hport & Ha). rewrite Ha. cbn [negb].
  destruct (IH (on_domain d (d_add c n) acc)) as (P1 & P2 & P3); [by apply on_domain_present| |intros t Ht; apply Hts; by right|].
  { intros d' c' i' n'. rewrite node_at_add by done. case_decide as Hd; [|apply Hpart]. destruct Hd as (-> & -> & ->). by intros [= <-]. }
  split_and!; [exact P1| |].
  - intros d' c' i' n' Hacc. apply P2. rewrite node_at_add by done. case_decide as Hd; [|done]. destruct Hd as (-> & -> & ->).
    apply Hpart in Hacc as [_ Hacc]. congruence.
  - intros n' Hn' Hok' [E|Hin]%elem_of_cons; [|by apply P3]. apply P2. rewrite node_at_add by done.
    assert (n' = n) as ->; [|by rewrite decide_True]. rewrite <- (triple_new n' Hok'), <- (triple_new n) by done. by injection E as -> -> ->.
Qed.
Lemma ds_get_create d s : let s' := snd (ds_get d true s) in is_Some (s' !! d) ∧ ∀ d' c i, node_at s' d' c i = node_at s d' c i.
Proof.
  cbn. destruct (s !! d) as [x|] eqn:E; cbn; [by split; [eexists|]|]. split; [rewrite lookup_insert_eq; by eexists|]. intros d' c i. unfold node_at.
  destruct (decide (d = d')) as [<-|]; [by rewrite lookup_insert_eq, E|by rewrite lookup_insert_ne].
Qed.
Lemma query_fold Q s cl l acc : c_queryDomains cl = Q → Forall (from_set s) l → part_of Q s acc →
  let acc' := foldl (query_info inet_addr cl) acc l in
  part_of Q s acc' ∧ (∀ d c i n, node_at acc d c i = Some n → node_at acc' d c i = Some n) ∧
  ∀ x n, x ∈ l → ni_domain x ∈ Q → node_at s (ni_domain x) (ni_cmd x) (n_id n) = Some n → node_ok inet_addr n → triple n ∈ ni_nodes x →
    node_at acc' (ni_domain x) (ni_cmd x) (n_id n) = Some n.
Proof.
  intros HQ Hl. revert acc. induction Hl as [|x l Hx Hl IH]; intros acc Hpart; cbn [foldl]; [split_and!; [done|done|by intros ?? ?%not_elem_of_nil]|].
  assert (Hstep : let acc1 := query_info inet_addr cl acc x in part_of Q s acc1 ∧ (∀ d c i n, node_at acc d c i = Some n → node_at acc1 d c i = Some n) ∧
    (ni_domain x ∈ Q → ∀ n, node_at s (ni_domain x) (ni_cmd x) (n_id n) = Some n → node_ok inet_addr n → triple n ∈ ni_nodes x →
      node_at acc1 (ni_domain x) (ni_cmd x) (n_id n) = Some n)).
  { cbn. unfold query_info, hasQueryDomain. rewrite HQ. case_bool_decide as Hd; [|by split_and!]. cbn [negb].
    destruct (ds_get_create (ni_domain x) acc) as [Hp Hs]. destruct (add_nodes_part Q s (ni_domain x) (ni_cmd x) (ni_nodes x) (snd (ds_get (ni_domain x) true acc)) Hd Hp)
      as (P1 & P2 & P3); [intros d c i n; rewrite Hs; apply Hpart|done|]. split_and!; [done|intros d c i n Hn; apply P2; by rewrite Hs|auto]. }
  cbn in Hstep. destruct Hstep as (P1 & P2 & P3). destruct (IH _ P1) as (R1 & R2 & R3). split_and!; [done|auto|].
  intros y n [->|Hy]%elem_of_cons HyQ Hn Hok Ht; [apply R2; by apply P3|by apply R3].
Qed.

(** C22: A client that queries a name server holds, afterwards, exactly what
    the registry of the server says of the domains the client asked for, and
    nothing else, whatever it held before; without domains to ask for it
    sends nothing. *)
Theorem client_mirrors_server (s : module_state) (cl : client_state) : ns_reach inet_addr s →
  match query_send cl with
  | (None, cl1) => c_queryDomains cl = ∅ ∧ c_domains cl1 = c_domains cl
  | (Some (sn, domains), cl1) =>
    ∃ infos, handleQuery (Some domains) s = Ret (true, Ok (Some infos)) s ∧
      ∀ d c i, node_at (c_domains (query_recv inet_addr (Some infos) cl1)) d c i =
        if decide (d ∈ c_queryDomains cl) then node_at (m_domains s) d c i else None
  end.
Proof.
  intros Hr. destruct (ns_reach_inv inet_addr s Hr) as [Hok _ _ _ Hnodes _]. unfold query_send. cbn [c_queryDomains].
  case_bool_decide as HQ; [by split|]. eexists. split; [done|]. intros d c i. cbn [query_recv c_domains ds_swap fst].
  destruct (query_fold (c_queryDomains cl) (m_domains s) (mkClient (c_queryDomains cl) (c_domains cl) (u32 (c_sn_next cl + 1)))
    (query_infos (elements (c_queryDomains cl)) (m_domains s)) ∅) as (P1 & _ & P3); [done| | |].
  { apply Forall_forall. intros x Hx. by apply (query_infos_from _ (elements (c_queryDomains cl))). }
  { intros ? ? ? ?. unfold node_at. by rewrite lookup_empty. }
  destruct (node_at (foldl _ _ _) d c i) as [n|] eqn:E.
  - apply P1 in E as [Hd E]. by rewrite decide_True.
  - case_decide as Hd; [|done]. destruct (node_at (m_domains s) d c i) as [n|] eqn:En; [|done].
    destruct (query_infos_all (m_domains s) (elements (c_queryDomains cl)) d c i n) as (x & Hx & <- & <- & Ht); [done|by apply elem_of_elements|done|].
    assert (Hid : n_id n = i).
    { unfold node_at, d_get, ns_get in En. destruct (m_domains s !! ni_domain x) as [dd|] eqn:Ed; [|done]. cbn in En.
      destruct (d_datas dd !! ni_cmd x) as [ns|] eqn:Ec; [|done]. cbn in En. destruct (Hok _ _ Ed) as [_ Hcm]. by apply (proj2 (Hcm _ _ Ec)). }
    subst i. rewrite (P3 x n) in E; [done|done|done|done|by eapply Hnodes|done].
Qed.
End mirror.

(** ** What is registered *)
Section register.
Context `{!IterOrder Z, !IterOrder string} (inet_addr : string → Z).
(** The id of a complete entry whose address is not zero. *)
Definition reg_id (info : RegisterInfo) : option Z :=
  match ri_node info, ri_domain info with
  | Some node, Some _ =>
    match p_ip node, p_port node, p_weight node with
    | Some ip, Some port, Some weight =>
      if bool_decide (ri_cmds info = []) then None
      else if has_addr (NSNode_new inet_addr ip port weight) then Some (n_id (NSNode_new inet_addr ip port weight)) else None
    | _, _, _ => None
    end
  | _, _ => None
  end.
Definition asks (infos : list RegisterInfo) (d : string) (c : Z) : Prop := ∃ x, x ∈ infos ∧ ri_domain x = Some d ∧ c ∈ ri_cmds x.
Lemma asks_cons x infos d c : asks (x :: infos) d c ↔ (ri_domain x = Some d ∧ c ∈ ri_cmds x) ∨ asks infos d c.
Proof. unfold asks. setoid_rewrite elem_of_cons. naive_solver. Qed.
Definition agrees (old : option NSClientInfo) (id : Z) : Prop := ∀ o, old = Some o → n_id (ci_node o) = id.
Lemma agrees_test old id : match old with Some o => negb (n_id (ci_node o) =? id) | None => false end = false ↔ agrees old id.
Proof.
  unfold agrees. destruct old as [o|]; [|naive_solver]. rewrite negb_false_iff, Z.eqb_eq. naive_solver.
Qed.
Lemma register_step old info infos new : register_infos inet_addr old (info :: infos) new =
  match reg_id info with
  | Some id =>
    if match old with Some o => negb (n_id (ci_node o) =? id) | None => false end then None
    else if match new with Some v => negb (n_id (ci_node v) =? id) | None => false end then None
    else match ri_node info, ri_domain info with
      | Some node, Some domain =>
        let v := default (mkClientInfo (NSNode_new inet_addr (default EmptyString (p_ip node)) (default 0 (p_port node)) (default 0 (p_weight node))) ∅) new in
        register_infos inet_addr old infos (Some (mkClientInfo (ci_node v) (foldl (λ m cmd, put_cmd domain cmd m) (ci_domain2cmds v) (ri_cmds info))))
      | _, _ => None
      end
  | None => None
  end.
Proof.
  cbn [register_infos]. unfold reg_id. destruct (ri_node info) as [node|], (ri_domain info) as [dom|]; try done.
  destruct (p_ip node) as [ip|], (p_port node) as [port|], (p_weight node) as [weight|]; try (by destruct (_ =? 0)%nat).
  destruct (ri_cmds info) as [|c0 l]; [done|]. rewrite bool_decide_eq_false_2 by done. cbn [length Nat.eqb]. by destruct (has_addr _).
Qed.
Lemma register_infos_spec old infos v0 : agrees old (n_id (ci_node v0)) →
  match register_infos inet_addr old infos (Some v0) with
  | None => ¬ Forall (λ x, reg_id x = Some (n_id (ci_node v0))) infos
  | Some None => False
  | Some (Some v) => Forall (λ x, reg_id x = Some (n_id (ci_node v0))) infos ∧ ci_node v = ci_node v0 ∧
      ∀ d c, c ∈ cmds_of (ci_domain2cmds v) d ↔ c ∈ cmds_of (ci_domain2cmds v0) d ∨ asks infos d c
  end.
Proof.
  revert v0. induction infos as [|info infos IH]; intros v0 Ho.
  { cbn. split_and!; [constructor|done|]. intros d c. split; [by left|]. intros [?|(x & ?%not_elem_of_nil & _)]; done. }
  rewrite register_step. destruct (reg_id info) as [id|] eqn:Eid; [|intros [? _]%Forall_cons_1; congruence].
  destruct (match old with Some o => negb (n_id (ci_node o) =? id) | None => false end) eqn:E1.
  { intros [Hx _]%Forall_cons_1. assert (id = n_id (ci_node v0)) as -> by congruence. apply agrees_test in Ho. congruence. }
  destruct (negb (n_id (ci_node v0) =? id)) eqn:E2.
  { apply negb_true_iff, Z.eqb_neq in E2. intros [Hx _]%Forall_cons_1. congruence. }
  apply negb_false_iff, Z.eqb_eq in E2. subst id. pose proof Eid as Eid'. unfold reg_id in Eid'.
  destruct (ri_node info) as [node|], (ri_domain info) as [dom|] eqn:Edom; try done. cbn [default Datatypes.id].
  specialize (IH (mkClientInfo (ci_node v0) (foldl (λ m cmd, put_cmd dom cmd m) (ci_domain2cmds v0) (ri_cmds info))) Ho). cbn [ci_node] in IH.
  destruct (register_infos inet_addr old infos _) as [[v|]|]; [|done|by intros [_ Hx]%Forall_cons_1].
  destruct IH as (I1 & I2 & I3). split_and!; [by constructor|done|]. intros d c. cbn [ci_domain2cmds] in I3. rewrite I3, put_cmds_spec, asks_cons, Edom.
  assert (Some dom = Some d ↔ d = dom) as -> by (split; congruence). tauto.
Qed.

(** A registration is accepted exactly when it can be parsed, every entry
    is complete and has an address that is not zero, and all entries, and
    what the stream registered before, have the same address and port. It
    then sets the session to the commands of the entries (nothing for no
    entries) and answers 0; a refused registration changes nothing, leaves
    the response alone and returns false, which closes the stream. *)
Theorem register_accepts (connected : bool) (rs : nat) (rr : option (list RegisterInfo)) (s : module_state) :
  (∃ infos id, rr = Some infos ∧ Forall (λ x, reg_id x = Some id) infos ∧ (infos = [] ∨ agrees (m_sessions s !! rs) id) ∧
    ∃ new, handleRegister inet_addr connected rs rr s = (let! _ := ns_set connected rs new in cret (true, Ok None)) s ∧
      (new = None ↔ infos = []) ∧ ∀ v, new = Some v → n_id (ci_node v) = id ∧ ∀ d c, c ∈ cmds_of (ci_domain2cmds v) d ↔ asks infos d c) ∨
  ((∀ infos id, rr = Some infos → infos = [] ∨ ¬ (Forall (λ x, reg_id x = Some id) infos ∧ agrees (m_sessions s !! rs) id)) ∧
    rr ≠ Some [] ∧ handleRegister inet_addr connected rs rr s = Ret (false, Untouched) s).
Proof.
  destruct rr as [infos|]; [|right; split_and!; [by intros ?? [=]|done|done]]. 
  assert (Hreg : handleRegister inet_addr connected rs (Some infos) s = match register_infos inet_addr (m_sessions s !! rs) infos None with
    | None => Ret (false, Untouched) s | Some new => (let! _ := ns_set connected rs new in cret (true, Ok None)) s end).
  { unfold handleRegister. change (get_session rs) with (λ s, m_sessions s !! rs). unfold creads, cbind at 1. by destruct (register_infos _ _ _ _). }
  rewrite Hreg. clear Hreg. destruct infos as [|info infos].
  { left. exists [], 0. split_and!; [done|constructor|by left|]. exists None. split; [reflexivity|]. split; [by split|]. by intros v [=]. }
  rewrite register_step. destruct (reg_id info) as [id|] eqn:Eid.
  2: { right. split_and!; [|done|done]. intros infos' id [= <-]. right. intros [[? _]%Forall_cons_1 _]. congruence. }
  destruct (match m_sessions s !! rs with Some o => negb (n_id (ci_node o) =? id) | None => false end) eqn:E1.
  { right. split_and!; [|done|done]. intros infos' id' [= <-]. right. intros [[Hx _]%Forall_cons_1 Ha]. assert (id' = id) as -> by congruence. apply agrees_test in Ha. congruence. }
  apply agrees_test in E1. pose proof Eid as Eid'. unfold reg_id in Eid'.
  destruct (ri_node info) as [node|] eqn:En, (ri_domain info) as [dom|] eqn:Edom; try done. cbn [default Datatypes.id].
  destruct (p_ip node) as [ip|] eqn:Ei, (p_port node) as [port|] eqn:Ep, (p_weight node) as [weight|] eqn:Ew; try done.
  case_bool_decide as Hc; [done|]. destruct (has_addr _) eqn:Ha; [|done]. injection Eid' as Eid'. cbn [default Datatypes.id ci_node ci_domain2cmds].
  pose proof (register_infos_spec (m_sessions s !! rs) infos
    (mkClientInfo (NSNode_new inet_addr ip port weight) (foldl (λ m cmd, put_cmd dom cmd m) ∅ (ri_cmds info)))) as H. cbn [ci_node] in H.
  change (node_GetID inet_addr ip (u16 port)) with (n_id (NSNode_new inet_addr ip port weight)) in Eid'. rewrite Eid' in H. specialize (H E1).
  destruct (register_infos inet_addr (m_sessions s !! rs) infos _) as [[v|]|]; [|done|].
  - left. destruct H as (H1 & H2 & H3). exists (info :: infos), id. split_and!; [done|by constructor|by right|]. exists (Some v). split; [reflexivity|]. split; [by split|].
    intros v' [= <-]. split; [by rewrite H2|]. intros d c. cbn in H3. rewrite H3, put_cmds_spec, asks_cons, Edom.
    assert (Some dom = Some d ↔ d = dom) as -> by (split; congruence). assert (c ∉ cmds_of ∅ d) by (unfold cmds_of; rewrite lookup_empty; cbn; set_solver). tauto.
  - right. split_and!; [|done|done]. intros infos' id' [= <-]. right. intros [[Hx Hxs]%Forall_cons_1 _]. assert (id' = id) as -> by congruence. by apply H.
Qed.
End register.

(** ** The sessions to notify *)
(** A session is among the streams of a domain exactly when the domain is
    among its queries. *)
Definition queries_agree (s : module_state) : Prop := ∀ rs d, rs ∈ getStreams d s ↔ d ∈ default ∅ (m_queryDomains s !! rs).
Lemma fold_streams (f : gset nat → gset nat) (l : list string) (m : gmap string (gset nat)) d :
  (∀ x, f (f x) = f x) → default ∅ (foldl (λ m i, <[i := f (default ∅ (m !! i))]> m) m l !! d) = if decide (d ∈ l) then f (default ∅ (m !! d)) else default ∅ (m !! d).
Proof.
  intros Hf. revert m. induction l as [|i l IH]; intros m; cbn [foldl]; [by rewrite decide_False by apply not_elem_of_nil|]. rewrite IH.
  destruct (decide (d = i)) as [->|Hne].
  - rewrite lookup_insert_eq, (decide_True (P := i ∈ i :: l)) by left. cbn. rewrite Hf. by case_decide.
  - rewrite lookup_insert_ne by done. destruct (decide (d ∈ l)); [rewrite decide_True by (by right)|rewrite decide_False by (by intros [?|?]%elem_of_cons)]; done.
Qed.
Lemma fold_streams_set (f : gset nat → gset nat) (X : gset string) (m : gmap string (gset nat)) d : (∀ x, f (f x) = f x) →
  default ∅ (foldl (λ m i, <[i := f (default ∅ (m !! i))]> m) m (elements X) !! d) = if decide (d ∈ X) then f (default ∅ (m !! d)) else default ∅ (m !! d).
Proof.
  intros Hf. rewrite fold_streams by done. destruct (decide (d ∈ X)) as [H|H]; [by rewrite decide_True by (by apply elem_of_elements)|].
  by rewrite decide_False by (by rewrite elem_of_elements).
Qed.
Lemma setQueryDomain_agrees connected rs ds s : queries_agree s →
  ∃ s', setQueryDomain connected rs ds s = Ret tt s' ∧ queries_agree s' ∧
    (connected = true → default ∅ (m_queryDomains s' !! rs) = ds) ∧ (∀ rs', rs' ≠ rs → m_queryDomains s' !! rs' = m_queryDomains s !! rs').
Proof.
  intros H. unfold setQueryDomain. case_bool_decide as E; [exists s; split_and!; [done|done|intros _; by rewrite E|done]|].
  destruct connected; cbn [negb]; [|by exists s]. eexists. split; [done|].
  set (q := if bool_decide (ds = ∅) then delete rs (m_queryDomains s) else <[rs := ds]> (m_queryDomains s)).
  assert (Hq : default ∅ (q !! rs) = ds).
  { unfold q. case_bool_decide as Hd; [by rewrite lookup_delete_eq, Hd|by rewrite lookup_insert_eq]. }
  assert (Hq' : ∀ rs', rs' ≠ rs → q !! rs' = m_queryDomains s !! rs').
  { intros rs' Hne. unfold q. case_bool_decide; [by rewrite lookup_delete_ne|by rewrite lookup_insert_ne]. }
  split_and!; [|done|done]. intros rs' d. unfold getStreams. cbn [m_domainToSessions m_queryDomains set_queries].
  rewrite (fold_streams_set (λ x, x ∪ {[rs]})), (fold_streams_set (λ x, x ∖ {[rs]})) by set_solver.
  pose proof (H rs' d) as Hd. unfold getStreams in Hd. destruct (decide (rs' = rs)) as [->|Hne].
  - fold q. rewrite Hq. destruct (decide (d ∈ ds)), (decide (d ∈ default ∅ (m_queryDomains s !! rs))); set_solver.
  - fold q. rewrite Hq' by done. destruct (decide (d ∈ ds)), (decide (d ∈ default ∅ (m_queryDomains s !! rs))); set_solver.
Qed.

(** ** Examples *)
Section examples.
#[local] Instance z_order : IterOrder Z := natural_order.
#[local] Instance string_order : IterOrder string := natural_order.
(** 10.0.0.1 is 0x0100000a in network order; what is not an address gives
    INADDR_NONE. *)
Definition inet_addr_example (ip : string) : Z :=
  if String.eqb ip "10.0.0.1" then 0x0100000a else if String.eqb ip "0.0.0.0" then 0 else 2 ^ 32 - 1.
Definition reg_example (port weight : Z) : ns_request :=
  mkNSRequest REGISTER (Some [mkRegisterInfo (Some "blog"%string) [1; 2] (Some (mkPNode (Some "10.0.0.1"%string) (Some port) (Some weight)))]) None.
Definition ns_after (es : list nsevent) : module_state :=
  match cfor es (λ e, let! _ := ns_exec inet_addr_example e in cret tt) NameServerModule_new with Ret _ s => s | _ => NameServerModule_new end.
Definition one_node : module_state := ns_after [NRequest true 1 (reg_example 8080 5)].
Lemma one_node_reach : ns_reach inet_addr_example one_node.
Proof.
  destruct (ns_exec inet_addr_example (NRequest true 1 (reg_example 8080 5)) NameServerModule_new) as [r s| |] eqn:E; [|by vm_compute in E..].
  apply (ns_reach_step _ NameServerModule_new (NRequest true 1 (reg_example 8080 5)) r); [constructor| |].
  - intros rs v rs' info _ H. cbn [m_sessions NameServerModule_new] in H. by rewrite lookup_empty in H.
  - rewrite E. f_equal. unfold one_node, ns_after. cbn [cfor]. unfold cbind at 1 2. rewrite E. done.
Qed.
Lemma registry_tracks_sessions_witness :
  ∃ r s', ns_exec inet_addr_example (NDisconnect true false 1) one_node = Ret r s' ∧ m_sessions s' = ∅.
Proof.
  destruct (registry_tracks_sessions inet_addr_example one_node (NDisconnect true false 1)) as (r & s' & E & Hs & _).
  - apply one_node_reach.
  - intros rs v rs' info [=].
  - exists r, s'. split; [exact E|]. rewrite Hs. by vm_compute.
Defined.
Lemma client_mirrors_server_witness :
  ∃ infos, handleQuery (Some ["blog"%string]) one_node = Ret (true, Ok (Some infos)) one_node ∧
    node_at (c_domains (query_recv inet_addr_example (Some infos) (mkClient {["blog"%string]} ∅ 1))) "blog" 2 (Z.lor (Z.shiftl 0x0100000a 32) 8080) =
    Some (mkNode (Z.lor (Z.shiftl 0x0100000a 32) 8080) "10.0.0.1" 8080 5).
Proof.
  destruct (client_mirrors_server inet_addr_example one_node (mkClient {["blog"%string]} ∅ 0) one_node_reach) as (infos & E & Hm).
  exists infos. split; [exact E|]. rewrite (Hm "blog"%string 2). by vm_compute.
Defined.
(** Anything that is not an address is accepted as one. *)
Lemma invalid_ip_accepted (inet_addr : string → Z) ip port weight : inet_addr ip = 2 ^ 32 - 1 → has_addr (NSNode_new inet_addr ip port weight) = true.
Proof.
  intros E. unfold has_addr, NSNode_new, node_GetID. cbn [n_id]. rewrite E, Z.shiftr_lor, Z.shiftr_shiftl_l by lia. apply negb_true_iff, Z.eqb_neq.
  intros H%Z.lor_eq_0_iff. destruct H as [H _]. done.
Qed.
(** Two sessions with one address: when one ends the other is no longer
    listed. *)
Lemma shared_address_lost : node_at (m_domains (ns_after [NRequest true 1 (reg_example 8080 5); NRequest true 2 (reg_example 8080 5); NDisconnect true false 1]))
    "blog" 1 (Z.lor (Z.shiftl 0x0100000a 32) 8080) = None ∧
  is_Some (m_sessions (ns_after [NRequest true 1 (reg_example 8080 5); NRequest true 2 (reg_example 8080 5); NDisconnect true false 1]) !! 2%nat).
Proof. split; [by vm_compute|]. vm_compute. by eexists. Qed.
End examples.
